(* ===== verification/_CoqProject ===== *)
-Q . S2P
Prelude.v
SzlType.v
Double.v
Encoder.v
Decoder.v
Codec.v
Reads.v
SzlValue.v
ValueCodec.v
ValueOrder.v
ValueAdd.v
Numbers.v
Heap.v
Sketch.v
TopHeap.v
TabEntry.v
Emitter.v
TopTable.v
SetTable.v
SumTable.v
MaxTable.v
UniqueTable.v
DistinctTable.v
DistinctCorrect.v
InverseHistogram.v
QuantileTable.v
QuantileRank.v
QuantileResults.v
Varint.v
RecordIO.v
Hashing.v
SzlMap.v
SzlMapRef.v
Forms.v
Outputter.v
EmitTables.v
Opcodes.v
TaggedInts.v
Arith.v
Interp.v
Nodes.v
CodeGen.v
CodeGenInv.v
TrapRanges.v
Semantics.v
Slices.v
Machine.v
ExprCorrect.v
StatCorrect.v
FunctionCorrect.v
InitCorrect.v
ProgramCorrect.v
