(* ===== verification/Prelude.v ===== *)
(** * Szl (Sawzall): compiled programs, run-time values and aggregators; root of the development

    Sawzall runs a small program over every record of its input; the program
    emits values into tables, which aggregate them. Each shard of the input has
    its own entries of the tables; an entry is flushed to a string, the strings
    of all shards are merged into one entry, and that entry is displayed or read
    back as results. The development models, from the bottom up:

    Values and their encoding
    - [SzlType.v]: type descriptors (emitvalues/szltype.cc): the checks [Valid],
      [BaseType], [TableType], [Equal].
    - [Double.v]: doubles as bit patterns, IEEE arithmetic by [SpecFloat].
    - [Encoder.v], [Decoder.v]: SzlEncoder and SzlDecoder
      (emitvalues/szlencoder.cc, szldecoder.cc). [Codec.v]: what one writes the
      other reads; byte order on encodings. [Reads.v]: reading arbitrary bytes.
    - [SzlValue.v]: SzlValue and SzlOps (emitvalues/szlvalue.cc).
      [ValueCodec.v]: typed values and their round trip; [ValueOrder.v]: [Cmp] is
      a total preorder; [ValueAdd.v]: the sum of maps is pointwise; [Numbers.v]:
      the types whose values can be summed in any order.

    Tables (src/emitters)
    - [TabEntry.v]: the interface SzlTabEntry, a class of operations, and its
      contract: flushing shards and merging them amounts to adding all elements
      to one entry. [SumTable.v], [SetTable.v], [MaxTable.v], [UniqueTable.v],
      [DistinctTable.v], [InverseHistogram.v], [TopTable.v] and [QuantileTable.v] are
      its implementations with the readers
      of their results (szlsum.cc, szlsumresults.cc, and so on).
    - [Heap.v]: SzlHeap (szlheap.cc), used by the maximum table; [TopHeap.v]:
      SzlTopHeap (szltopheap.cc) over a store of elements and a hash table;
      [Sketch.v]: SzlSketch (szlsketch.cc); both are used by the top table.
    - [DistinctCorrect.v]: a distinctsample table over shards keeps the smallest
      hashes with the whole weights of their elements; [InverseHistogram.v] displays
      their distribution (szlcomputeinversehistogram.cc).
    - [QuantileRank.v]: the rank error of the quantiles; [QuantileResults.v]: the
      results reader agrees with the display.
    - [Emitter.v]: the interface Emitter, the writer of a table and SzlEmitter
      (szlemitter.cc), which turns the calls that describe an element into a key
      and an encoded value and keeps an entry per key; tables over shards, from the
      contract of [TabEntry.v].

    Files and hashes
    - [Varint.v]: utilities/varint.cc. [RecordIO.v]: utilities/recordio.cc, the
      record loop of app/szl.cc, and the tables that write directly
      (szlrecordio.cc, szltext.cc). [Hashing.v]: utilities/hashutils.cc.

    The engine (src/engine): values
    - [SzlMap.v], [SzlMapRef.v]: the hash maps of map.cc against association
      lists. [Forms.v]: equality, order, hash and fingerprint of the values
      (form.cc). [TaggedInts.v]: the integers of taggedptrs.h, small ones in the
      pointer and big ones in the heap.
    - [Outputter.v]: Outputter (outputter.cc), which passes a value of an emit
      statement to the emitter of its table, call by call. [EmitTables.v]: from the
      emitted values of all shards to the entries of the tables.

    The engine: from the syntax tree to the end of a run
    - [Nodes.v]: expressions and statements (node.h, codegenutils.cc).
      [Semantics.v]: what they mean, without code: the reference.
    - [Opcodes.v], [Arith.v], [Interp.v], [Slices.v]: the instructions, their
      arithmetic, Engine::Execute with the trap ranges and Proc::HandleTrap, and
      Process::Run in time slices (opcode.h, engine.cc, code.cc, proc.cc,
      sawzall.cc). Undefined values are ignored in an initialized process only, whose
      mode says so ([Proc], [ignores_undefs], [settle]). Trap ranges that begin at the
      same instruction are taken to stay in their order when they are sorted; qsort
      does not promise it.
    - [CodeGen.v]: the byte code generator (codegen.cc), a state monad over the
      code buffer, the labels and the trap ranges.
    - The proof that the code does what the tree means: [CodeGenInv.v], the
      invariant of the generator and what the finished code says of every state on
      the way ([agrees]); [TrapRanges.v], the lookup of trap ranges; [Machine.v],
      runs of single instructions; [ExprCorrect.v], [StatCorrect.v],
      [FunctionCorrect.v], [InitCorrect.v] and [ProgramCorrect.v], the code of
      expressions, statements, functions, the initialisation of the statics, and
      whole programs: their process from its start to the last record.

    State and operations. An entry of a table is a record with the fields of the
    C++ class; an operation takes the entry (and its arguments) and returns the
    result with the new entry. What can fail returns [res]: [Ok], [Fail] for a
    reported error, [Fatal] for what aborts the program (LOG(FATAL), a failed
    CHECK, an assertion) or is undefined in C++ (an access out of range). A
    comment [@src file lines Class::method] before a definition says what it
    translates. Machine integers are [Z] with the conversions [u32], [s64], ... of
    this file written where the code converts; byte strings are lists of [Z] in
    [0, 256); a pointer into a buffer is the rest of the buffer; a pointer to an
    object is an index into a store (TopHeap.v, SzlMap.v) where objects are
    shared, and the object itself elsewhere.

    The theorems, by groups
    - Aggregation over shards, for the types whose values can be summed in any order
      ([Summable]; integers, times and tuples of them; the top table: integers and
      tuples of them) where weights are summed: [top_sharded], [unique_sharded], [sum_sharded],
      [maximum_sharded], [set_sharded], [distinct_sharded],
      [inverse_histogram_sharded] and [quantile_sharded] relate the merge of
      the flushed shards to adding all elements to one entry; they are stated
      through [MergeContract] of TabEntry.v or directly. [top_exact],
      [unique_display_agrees], [quantile_display] say what is displayed, and the
      [_results_agree] theorems that results are read back as displayed.
    - Encoding: [encode_decode_round_trip], [encoding_order] for single values,
      [value_codec_round_trip] for values of any type, [encoding_sorts_as_Cmp].
    - Values: [Cmp_total_preorder], [Add_map_pointwise].
    - Invariants and bounds of the data structures: [th_reachable_inv],
      [heap_keeps_biggest], [Sort_ReHeap], [Dims_fit], [sketch_merge].
    - Hash maps: [map_refines] (every operation against association lists),
      [map_insert_fetch], [EqualMap_extensional], with the laws of keys and values
      ([RunValLaws]) provided by the forms ([forms_coherent]); floats break them
      ([float_keys_incoherent]).
    - Records: [record_file_round_trip], [record_file_cut] (for builds without
      assertions, as ApplyToRecords begins with one that fails), [varint_round_trip],
      [varint_decoders].
    - Emitted values: [Emit_adds] (an emit statement adds the encodings of its
      value and weight to the entry of its key), [tables_sharded] (the tables of
      shards, written key by key and merged, hold what one table with all elements
      holds); [uint_keys_added_twice] shows a defect.
    - Compiled programs: [main_runs] (the initialisation and the runs of main on
      all records end as their sources mean, in any time slices),
      [function_correct] (calls from any state), [main_fails],
      [initialization_fails] (a static without a value, whatever the mode),
      [main_overflow], [no_range_defined] (what has no trap range cannot trap),
      [TrapForInstr_innermost] (the innermost range of every position of a generated
      program); [undefined_increment_aborts] shows a defect.
      [tagged_arithmetic]: tagged integers compute as 64-bit integers.
    - Errors: what malformed or unusual input does ([set_overflow_forgotten],
      [maximum_uninitialised_count], [unique_results_reject],
      [top_results_abort], [distinct_merge_aborts], [inverse_results_abort]).

    Fuel. Loops that are not structural take a natural number of steps, and run
    out as [Fatal]: [walk] of SzlMap.v gets one more than there are cells (a chain
    visits no cell twice), [RecursiveCollapse] one more than there are levels,
    [apply_loop] two more than there are bytes (a record takes one at least),
    [distribution] as many as there are weights, [clear_low_bits] 32 for the bits of an int, [tree_height] 40 for numbers of at
    most 2^40 elements, and the sinking and rising loops of the heaps the number of
    elements. [search_range] gets the length of the list, [enclosing] one more than
    there are trap ranges, [bp_delta_loop] the number of functions around,
    [align_loop] 16 for the bytes to the next multiple of 16. The theorems give
    [Ok] results, so that the fuel is enough. [execute], the meaning of statements,
    takes fuel for its loops and nesting: the theorems on compiled code hold for
    every amount with which it comes to an end, and give a number of slices and of
    rounds of [outer_loop] from which on the run comes to that end.

    Parameters. [MD5Digest] calls a library: the sketch and the unique table use
    that a digest is 16 bytes (the distinctsample table needs nothing of it). [bucket_count] of the library's hash tables,
    [memory_change] of the strings of a quantile table, the bytes of the stack
    that Flush and Estimate of the unique table leave unset, [max_alloc], the
    biggest array that can be allocated, and the order in which a hash_map of the
    library is traversed are arguments of the definitions.

    Not modelled. The scanner, the parser and the static analyses, so that trees
    are given; the native code generator, which emits machine code. Of the
    interpreter and the byte code generator: calls of functions and intrinsics
    within expressions, closures, conversions, composites and slices, stores into
    arrays, maps and tuples, the instructions of emit statements (their Outputter
    is modelled), when statements, counters and debugging output. Memory management and the reference counts of the engine's values;
    conversions and intrinsics; the tables that draw at random (sample,
    weightedsample, bootstrapsum), the collection and mrcounter tables; the Memory estimates of the tables; printing of types and
    values; registration and validation of the tables, which is glue; the wrappers
    of files, compression, threads and the calendar, which call libraries;
    generated protocol buffer code; main programs and tests. *)
From Stdlib Require Import ZArith Lia.
From stdpp Require Import prelude sorting.

Local Open Scope Z_scope.

(** ** Fixed-width machine integers

    An unsigned [w]-bit C++ integer is a [Z] in [0, 2^w); a conversion to that
    type is the remainder, and [s64] is the conversion to [int64]. *)

Definition u8 (x : Z) : Z := x mod 2 ^ 8.
Definition u32 (x : Z) : Z := x mod 2 ^ 32.
Definition u64 (x : Z) : Z := x mod 2 ^ 64.
Definition s32 (x : Z) : Z := (x + 2 ^ 31) mod 2 ^ 32 - 2 ^ 31.
Definition s64 (x : Z) : Z := (x + 2 ^ 63) mod 2 ^ 64 - 2 ^ 63.

Definition is_u8 (x : Z) : Prop := 0 <= x < 2 ^ 8.
Definition is_u32 (x : Z) : Prop := 0 <= x < 2 ^ 32.
Definition is_u64 (x : Z) : Prop := 0 <= x < 2 ^ 64.
Definition is_s64 (x : Z) : Prop := - 2 ^ 63 <= x < 2 ^ 63.

#[export] Instance is_u8_dec x : Decision (is_u8 x).
Proof. unfold is_u8. apply _. Defined.
#[export] Instance is_u64_dec x : Decision (is_u64 x).
Proof. unfold is_u64. apply _. Defined.
#[export] Instance is_s64_dec x : Decision (is_s64 x).
Proof. unfold is_s64. apply _. Defined.

(** ** Byte strings: [std::string], [char*] buffers *)

Abbreviation bytes := (list Z).

Definition bytes_ok (l : bytes) : Prop := Forall is_u8 l.

(** The value of a big-endian digit string, and the [n] low digits of a value. *)
Fixpoint be_val_acc (acc : Z) (l : bytes) : Z :=
  match l with
  | [] => acc
  | b :: l => be_val_acc (acc * 256 + b) l
  end.
Definition be_val (l : bytes) : Z := be_val_acc 0 l.

Fixpoint be_bytes (n : nat) (x : Z) : bytes :=
  match n with
  | O => []
  | S n => be_bytes n (x / 256) ++ [x mod 256]
  end.

(** [memcmp] over the common length, then the length: the order of
    [std::string]. *)
Fixpoint str_cmp (a b : bytes) : comparison :=
  match a, b with
  | [], [] => Eq
  | [], _ :: _ => Lt
  | _ :: _, [] => Gt
  | x :: a, y :: b =>
      match x ?= y with
      | Eq => str_cmp a b
      | c => c
      end
  end.

Definition str_ltb (a b : bytes) : bool :=
  match str_cmp a b with Lt => true | _ => false end.
Definition str_le (a b : bytes) : Prop := str_cmp a b <> Gt.

(** ** Outcomes

    A call returns a value, returns [false] to its caller, or aborts the
    process through [LOG(FATAL)] or a failed [CHECK]. *)

Inductive res (A : Type) : Type :=
| Ok (a : A)
| Fail
| Fatal.
Arguments Ok {A} a.
Arguments Fail {A}.
Arguments Fatal {A}.

#[export] Instance res_ret : MRet res := fun A a => Ok a.
#[export] Instance res_bind : MBind res := fun A B f m =>
  match m with
  | Ok a => f a
  | Fail => Fail
  | Fatal => Fatal
  end.

Definition of_opt {A} (o : option A) : res A :=
  match o with Some a => Ok a | None => Fail end.

(** [CHECK(b)]. *)
Definition check (b : bool) : res unit := if b then Ok tt else Fatal.

(** Chaining two comparisons: the first one that decides. *)
Definition cmp_then (c d : comparison) : comparison :=
  match c with Eq => d | _ => c end.

(** Concatenating the results of a loop. *)
Definition flat_res {A B} (f : A -> res (list B)) : list A -> res (list B) :=
  fix go l :=
    match l with
    | [] => Ok []
    | a :: l => c ← f a; cs ← go l; Ok (c ++ cs)
    end.

(** ** Lemmas on machine integers *)

Declare Scope szl_scope.
Create HintDb szl.
Create Rewrite HintDb szl.

Section Machine.
Lemma u8_range x : is_u8 (u8 x).
Proof. unfold is_u8, u8. apply Z.mod_pos_bound. lia. Qed.
Lemma u32_range x : is_u32 (u32 x).
Proof. unfold is_u32, u32. apply Z.mod_pos_bound. lia. Qed.
Lemma u64_range x : is_u64 (u64 x).
Proof. unfold is_u64, u64. apply Z.mod_pos_bound. lia. Qed.
Lemma s64_range x : is_s64 (s64 x).
Proof.
  unfold is_s64, s64.
  pose proof (Z.mod_pos_bound (x + 2 ^ 63) (2 ^ 64) ltac:(lia)). lia.
Qed.

Lemma u8_id x : is_u8 x -> u8 x = x.
Proof. apply Z.mod_small. Qed.
Lemma u32_id x : is_u32 x -> u32 x = x.
Proof. apply Z.mod_small. Qed.
Lemma u64_id x : is_u64 x -> u64 x = x.
Proof. apply Z.mod_small. Qed.
Lemma s64_id x : is_s64 x -> s64 x = x.
Proof. unfold is_s64, s64. intros. rewrite Z.mod_small; lia. Qed.

Lemma s64_u64 x : s64 (u64 x) = s64 x.
Proof. unfold s64, u64. rewrite Zplus_mod_idemp_l. done. Qed.
Lemma u64_s64 x : u64 (s64 x) = u64 x.
Proof.
  unfold s64, u64. rewrite Zminus_mod_idemp_l. f_equal. lia.
Qed.
Lemma u64_u64 x : u64 (u64 x) = u64 x.
Proof. apply u64_id, u64_range. Qed.
Lemma s64_s64 x : s64 (s64 x) = s64 x.
Proof. apply s64_id, s64_range. Qed.

(** Equal modulo [2^64] is what both conversions see. *)
Lemma s64_eq_iff x y : s64 x = s64 y <-> u64 x = u64 y.
Proof.
  split; intros H.
  - rewrite <- (u64_s64 x), <- (u64_s64 y). by f_equal.
  - rewrite <- (s64_u64 x), <- (s64_u64 y). by f_equal.
Qed.
Lemma u64_add_s64_l x y : u64 (s64 x + y) = u64 (x + y).
Proof.
  unfold u64, s64. rewrite <- Zplus_mod_idemp_l, Zminus_mod_idemp_l.
  rewrite Zplus_mod_idemp_l. f_equal. lia.
Qed.
Lemma s64_add_l x y : s64 (s64 x + y) = s64 (x + y).
Proof. apply s64_eq_iff, u64_add_s64_l. Qed.
Lemma s64_add_r x y : s64 (x + s64 y) = s64 (x + y).
Proof. rewrite Z.add_comm, s64_add_l. f_equal. lia. Qed.
Lemma s64_opp_l x : s64 (- s64 x) = s64 (- x).
Proof.
  apply s64_eq_iff. unfold u64, s64.
  rewrite <- (Z.sub_0_l (_ - _)), <- Zminus_mod_idemp_r, Zminus_mod_idemp_l.
  rewrite Zminus_mod_idemp_r. f_equal. lia.
Qed.
Lemma s64_sub_l x y : s64 (s64 x - y) = s64 (x - y).
Proof. apply (s64_add_l x (- y)). Qed.
Lemma s64_sub_r x y : s64 (x - s64 y) = s64 (x - y).
Proof. unfold Z.sub. rewrite <- (s64_add_r x (- s64 y)), s64_opp_l. apply s64_add_r. Qed.
Lemma s64_mul_r x y : s64 (x * s64 y) = s64 (x * y).
Proof.
  apply s64_eq_iff. unfold u64. rewrite <- Zmult_mod_idemp_r. fold (u64 (s64 y)). rewrite u64_s64. unfold u64.
  by rewrite Zmult_mod_idemp_r.
Qed.
End Machine.

(** Equality modulo [2^64]: what the wrapping operations preserve. *)
Definition eqm (x y : Z) : Prop := s64 x = s64 y.
Infix "=64" := eqm (at level 70) : szl_scope.
Delimit Scope szl_scope with szl.

Section Modular.
Local Open Scope szl_scope.
#[export] Instance eqm_equiv : Equivalence eqm.
Proof. split; unfold eqm; [done|intros x y; done|intros x y z; congruence]. Qed.
#[export] Instance eqm_add : Proper (eqm ==> eqm ==> eqm) Z.add.
Proof.
  intros x x' Hx y y' Hy. unfold eqm in *. by rewrite <- (s64_add_l x), Hx, s64_add_l, <- (s64_add_r x'), Hy, s64_add_r.
Qed.
#[export] Instance eqm_opp : Proper (eqm ==> eqm) Z.opp.
Proof. intros x x' Hx. unfold eqm in *. by rewrite <- (s64_opp_l x), Hx, s64_opp_l. Qed.
#[export] Instance eqm_sub : Proper (eqm ==> eqm ==> eqm) Z.sub.
Proof. intros x x' Hx y y' Hy. unfold Z.sub. by rewrite Hx, Hy. Qed.
#[export] Instance eqm_mul : Proper (eqm ==> eqm ==> eqm) Z.mul.
Proof.
  intros x x' Hx y y' Hy. unfold eqm in *.
  by rewrite <- (s64_mul_r x), Hy, s64_mul_r, Z.mul_comm, <- (s64_mul_r y'), Hx, s64_mul_r, Z.mul_comm.
Qed.
Lemma eqm_s64 x : s64 x =64 x.
Proof. unfold eqm. apply s64_s64. Qed.
Lemma eqm_eq x y : x = y -> x =64 y.
Proof. by intros ->. Qed.
Lemma eqm_is x y : is_s64 x -> is_s64 y -> x =64 y -> x = y.
Proof. unfold eqm. intros Hx Hy. by rewrite !s64_id by done. Qed.
End Modular.

#[export] Hint Resolve u8_range u32_range u64_range s64_range : szl.
#[export] Hint Rewrite s64_u64 u64_s64 u64_u64 s64_s64 s64_add_l s64_add_r s64_opp_l s64_sub_l s64_sub_r s64_mul_r : szl.

(** ** Lemmas on byte strings *)

Section Bytes.
Implicit Types l a b : bytes.

Lemma be_val_acc_app l1 l2 acc :
  be_val_acc acc (l1 ++ l2) = be_val_acc (be_val_acc acc l1) l2.
Proof. revert acc. induction l1 as [|x l1 IH]; intros acc; simpl; auto. Qed.

Lemma be_val_acc_shift l acc :
  be_val_acc acc l = acc * 256 ^ Z.of_nat (length l) + be_val l.
Proof.
  unfold be_val. revert acc.
  induction l as [|x l IH]; intros acc; cbn [be_val_acc length]; [simpl; lia|].
  rewrite (IH (acc * 256 + x)), (IH (0 * 256 + x)), Nat2Z.inj_succ, Z.pow_succ_r by lia.
  lia.
Qed.

Lemma be_val_app l1 l2 :
  be_val (l1 ++ l2) = be_val l1 * 256 ^ Z.of_nat (length l2) + be_val l2.
Proof. unfold be_val at 1. rewrite be_val_acc_app. apply be_val_acc_shift. Qed.

Lemma be_val_cons x l :
  be_val (x :: l) = x * 256 ^ Z.of_nat (length l) + be_val l.
Proof. apply (be_val_app [x] l). Qed.

Lemma be_val_snoc l x : be_val (l ++ [x]) = be_val l * 256 + x.
Proof. rewrite be_val_app. reflexivity. Qed.

Lemma be_val_range l : bytes_ok l -> 0 <= be_val l < 256 ^ Z.of_nat (length l).
Proof.
  induction 1 as [|x l [Hx1 Hx2] Hl IH]; [done|].
  rewrite be_val_cons. cbn [length]. rewrite Nat2Z.inj_succ, Z.pow_succ_r by lia. nia.
Qed.

Lemma length_be_bytes n x : length (be_bytes n x) = n.
Proof. revert x. induction n; intros x; simpl; [done|]. rewrite length_app, IHn. simpl. lia. Qed.

Lemma be_bytes_ok n x : bytes_ok (be_bytes n x).
Proof.
  revert x. induction n; intros x; simpl; [constructor|].
  apply Forall_app. split; [apply IHn|]. constructor; [|constructor].
  apply (Z.mod_pos_bound x 256). lia.
Qed.

Lemma be_val_be_bytes n x : be_val (be_bytes n x) = x mod 256 ^ Z.of_nat n.
Proof.
  revert x. induction n; intros x.
  - simpl. by rewrite Z.mod_1_r.
  - cbn [be_bytes]. rewrite be_val_snoc, IHn, Nat2Z.inj_succ, Z.pow_succ_r by lia.
    rewrite Z.rem_mul_r by lia. lia.
Qed.

Lemma be_bytes_be_val l : bytes_ok l -> be_bytes (length l) (be_val l) = l.
Proof.
  induction l as [|x l IH] using rev_ind; [done|].
  rewrite length_app, be_val_snoc, Nat.add_comm. cbn [be_bytes length Nat.add].
  intros [Hl Hx]%Forall_app. apply Forall_singleton in Hx as [Hx1 Hx2].
  change (2 ^ 8) with 256 in Hx2.
  replace (be_val l * 256 + x) with (x + be_val l * 256) by lia.
  rewrite Z.div_add, Z.mod_add, (Z.div_small x), (Z.mod_small x) by lia.
  by rewrite Z.add_0_l, IH.
Qed.

Lemma be_val_inj a b :
  bytes_ok a -> bytes_ok b -> length a = length b -> be_val a = be_val b -> a = b.
Proof.
  intros Ha Hb Hl Hv. rewrite <- (be_bytes_be_val a Ha), <- (be_bytes_be_val b Hb). congruence.
Qed.

Lemma bytes_ok_app a b : bytes_ok (a ++ b) <-> bytes_ok a /\ bytes_ok b.
Proof. apply Forall_app. Qed.

(** *** The string order *)

Lemma str_cmp_refl a : str_cmp a a = Eq.
Proof. induction a as [|x a IH]; simpl; [done|]. by rewrite Z.compare_refl. Qed.

Lemma str_cmp_eq a b : str_cmp a b = Eq <-> a = b.
Proof.
  split; [|intros ->; apply str_cmp_refl].
  revert b. induction a as [|x a IH]; intros [|y b]; simpl; try done.
  destruct (Z.compare_spec x y) as [->| |]; [|done|done].
  intros H. f_equal. by apply IH.
Qed.

Lemma str_cmp_antisym a b : str_cmp b a = CompOpp (str_cmp a b).
Proof.
  revert b. induction a as [|x a IH]; intros [|y b]; simpl; try done.
  rewrite (Z.compare_antisym x y). by destruct (x ?= y); simpl.
Qed.

Lemma str_cmp_lt_trans a b c :
  str_cmp a b = Lt -> str_cmp b c = Lt -> str_cmp a c = Lt.
Proof.
  revert b c. induction a as [|x a IH]; intros [|y b] [|z c]; simpl; try done.
  destruct (Z.compare_spec x y) as [->| |], (Z.compare_spec y z) as [->| |]; try done;
    [apply IH| |]; intros; by destruct (Z.compare_spec x z); [lia| |lia].
Qed.

(** Comparing concatenations whose heads have one length. *)
Lemma str_cmp_app a b x y :
  length a = length b -> str_cmp (a ++ x) (b ++ y) = cmp_then (str_cmp a b) (str_cmp x y).
Proof.
  revert b. induction a as [|u a IH]; intros [|v b]; simpl; try done.
  intros [= Hl]. destruct (u ?= v); simpl; auto.
Qed.

Lemma str_cmp_app_l a x y : str_cmp (a ++ x) (a ++ y) = str_cmp x y.
Proof. by rewrite str_cmp_app, str_cmp_refl. Qed.

(** On strings of one length the order is the order of big-endian values. *)
Lemma str_cmp_be_val a b :
  bytes_ok a -> bytes_ok b -> length a = length b ->
  str_cmp a b = (be_val a ?= be_val b).
Proof.
  revert b. induction a as [|x a IH]; intros [|y b] Ha Hb Hl; try done.
  injection Hl as Hl. inversion_clear Ha as [|?? Hx Ha']. inversion_clear Hb as [|?? Hy Hb'].
  simpl. rewrite (IH b Ha' Hb' Hl), !be_val_cons, Hl.
  pose proof (be_val_range a Ha') as Ra. pose proof (be_val_range b Hb') as Rb.
  rewrite Hl in Ra. set (W := 256 ^ Z.of_nat (length b)) in *.
  destruct (Z.compare_spec x y) as [->|H|H]; symmetry.
  - rewrite Z.add_compare_mono_l. done.
  - apply Z.compare_lt_iff. nia.
  - apply Z.compare_gt_iff. nia.
Qed.

#[export] Instance str_le_dec a b : Decision (str_le a b).
Proof. unfold str_le. destruct (str_cmp a b); [left|left|right]; congruence. Defined.

#[export] Instance str_le_po : PartialOrder str_le.
Proof.
  split; [split|].
  - intros a. unfold str_le. by rewrite str_cmp_refl.
  - intros a b c. unfold str_le.
    destruct (str_cmp a b) eqn:E1, (str_cmp b c) eqn:E2; try congruence; intros _ _.
    + apply str_cmp_eq in E1 as ->. congruence.
    + apply str_cmp_eq in E1 as ->. congruence.
    + apply str_cmp_eq in E2 as ->. congruence.
    + by rewrite (str_cmp_lt_trans a b c).
  - intros a b. unfold str_le. rewrite (str_cmp_antisym a b).
    destruct (str_cmp a b) eqn:E; simpl; try congruence. intros _ _. by apply str_cmp_eq.
Qed.

#[export] Instance str_le_total : Total str_le.
Proof.
  intros a b. unfold str_le. rewrite (str_cmp_antisym a b).
  destruct (str_cmp a b); simpl; [left|left|right]; congruence.
Qed.

Lemma str_ltb_lt a b : str_ltb a b = true <-> str_cmp a b = Lt.
Proof. unfold str_ltb. destruct (str_cmp a b); split; congruence. Qed.
Lemma str_ltb_irrefl a : str_ltb a a = false.
Proof. unfold str_ltb. by rewrite str_cmp_refl. Qed.
Lemma str_ltb_false a b : str_ltb a b = false <-> str_le b a.
Proof.
  unfold str_ltb, str_le. rewrite (str_cmp_antisym a b).
  destruct (str_cmp a b); simpl; split; congruence.
Qed.
End Bytes.
#[export] Hint Resolve be_bytes_ok : szl.
#[export] Hint Rewrite length_be_bytes str_cmp_refl str_ltb_irrefl : szl.

(** Case analysis on the innermost test or [match] of the goal or a hypothesis. *)
Ltac case_goal :=
  match goal with
  | |- context [match ?x with _ => _ end] =>
      lazymatch x with context [match _ with _ => _ end] => fail | _ => destruct x eqn:? end
  end.

(** ** Bit operations as arithmetic *)

Section Bits.
Lemma pow256 n : 256 ^ Z.of_nat n = 2 ^ (8 * Z.of_nat n).
Proof. change 256 with (2 ^ 8). rewrite <- Z.pow_mul_r; lia. Qed.

(** [a << n | b] for [b] below [2^n]. *)
Lemma lor_shift_add a b n :
  0 <= n -> 0 <= b < 2 ^ n -> Z.lor (a * 2 ^ n) b = a * 2 ^ n + b.
Proof.
  intros Hn Hb. destruct (decide (b = 0)) as [->|Hb0]; [by rewrite Z.lor_0_r, Z.add_0_r|].
  assert (Z.land (a * 2 ^ n) b = 0) as Hz.
  { rewrite <- Z.shiftl_mul_pow2 by done. apply Z.bits_inj'. intros i Hi.
    rewrite Z.land_spec, Z.bits_0. destruct (decide (i < n)).
    - by rewrite Z.shiftl_spec_low.
    - rewrite (Z.bits_above_log2 b i), andb_false_r; [done|lia|].
      apply (Z.lt_le_trans _ n); [apply Z.log2_lt_pow2; lia|lia]. }
  by rewrite <- Z.lxor_lor, Z.add_nocarry_lxor.
Qed.

Lemma lor_add_shift a b n :
  0 <= n -> 0 <= b < 2 ^ n -> Z.lor b (a * 2 ^ n) = a * 2 ^ n + b.
Proof. intros. rewrite Z.lor_comm. by apply lor_shift_add. Qed.

(** A bit field of a truncated number is a bit field of the number. *)
Lemma mod_div_mod x m a b :
  0 <= a -> 0 <= b -> a + b <= m -> (x mod 2 ^ m / 2 ^ a) mod 2 ^ b = (x / 2 ^ a) mod 2 ^ b.
Proof.
  intros. rewrite <- !Z.shiftr_div_pow2, <- !Z.land_ones by lia.
  apply Z.bits_inj'. intros i Hi. rewrite !Z.land_spec, !Z.shiftr_spec, !Z.land_spec by lia.
  rewrite !Z.testbit_ones_nonneg by lia.
  destruct (Z.ltb_spec i b); [|by rewrite !andb_false_r].
  destruct (Z.ltb_spec (i + a) m); [|lia]. by rewrite !andb_true_r.
Qed.

(** A mask of [n] ones at bit [a]. *)
Lemma land_field x a n :
  0 <= a -> 0 <= n -> Z.land x (Z.shiftl (Z.ones n) a) = (x / 2 ^ a) mod 2 ^ n * 2 ^ a.
Proof.
  intros. rewrite <- Z.shiftr_div_pow2, <- Z.land_ones, <- Z.shiftl_mul_pow2 by lia.
  apply Z.bits_inj'. intros i Hi. rewrite Z.land_spec.
  destruct (Z.ltb_spec i a); [by rewrite !Z.shiftl_spec_low, andb_false_r by lia|].
  rewrite !Z.shiftl_spec, Z.land_spec, Z.shiftr_spec by lia. do 2 f_equal. lia.
Qed.

Lemma land_mask x n : 0 <= n -> Z.land x (2 ^ n - 1) = x mod 2 ^ n.
Proof. intros. rewrite <- Z.land_ones, Z.ones_equiv by lia. f_equal. Qed.
End Bits.

(** ** Filtered lists *)

Lemma filter_all {A} (P : A -> Prop) `{forall x, Decision (P x)} l : Forall P l -> filter P l = l.
Proof.
  induction 1 as [|x l Hx Hl IH]; [done|]. by rewrite filter_cons_True, IH.
Qed.
Lemma filter_none {A} (P : A -> Prop) `{forall x, Decision (P x)} l :
  Forall (fun x => ~ P x) l -> filter P l = [].
Proof.
  induction 1 as [|x l Hx Hl IH]; [done|]. by rewrite filter_cons_False, IH.
Qed.
Lemma length_filter_mono {A} (P Q : A -> Prop) `{forall x, Decision (P x)} `{forall x, Decision (Q x)} l :
  Forall (fun x => P x -> Q x) l -> (length (filter P l) <= length (filter Q l))%nat.
Proof.
  induction 1 as [|x l Hx Hl IH]; [done|]. rewrite !filter_cons.
  destruct (decide (P x)), (decide (Q x)); cbn [length]; try lia. tauto.
Qed.
Lemma length_filter_map {A B} (f : A -> B) (P : B -> Prop) `{forall x, Decision (P x)} l :
  length (filter P (map f l)) = length (filter (fun a => P (f a)) l).
Proof.
  induction l as [|x l IH]; [done|]. cbn [map]. rewrite !filter_cons. case_decide; cbn [length]; by rewrite IH.
Qed.

(** ** Sums over lists *)

Definition sumZ {A} (f : A -> Z) (l : list A) : Z := foldr (fun x acc => f x + acc) 0 l.

Section Sums.
Context {A : Type}.
Implicit Types (f g : A -> Z) (l : list A).

Lemma sumZ_cons f x l : sumZ f (x :: l) = f x + sumZ f l.
Proof. done. Qed.
Lemma sumZ_app f l l' : sumZ f (l ++ l') = sumZ f l + sumZ f l'.
Proof. induction l as [|x l IH]; cbn; [done|]. fold (sumZ f (l ++ l')) (sumZ f l). rewrite IH. lia. Qed.
Lemma sumZ_perm f l l' : l ≡ₚ l' -> sumZ f l = sumZ f l'.
Proof. induction 1; rewrite ?sumZ_cons; [done|lia..]. Qed.
Lemma sumZ_ext f g l : Forall (fun x => f x = g x) l -> sumZ f l = sumZ g l.
Proof. induction 1 as [|x l Hx Hl IH]; [done|]. by rewrite !sumZ_cons, Hx, IH. Qed.
Lemma sumZ_scale f c l : sumZ (fun x => c * f x) l = c * sumZ f l.
Proof. induction l as [|x l IH]; [cbn; lia|]. rewrite !sumZ_cons, IH. lia. Qed.
Lemma sumZ_map {B} (g : B -> A) f (l : list B) : sumZ f (map g l) = sumZ (fun x => f (g x)) l.
Proof. induction l as [|x l IH]; [done|]. cbn [map]. by rewrite !sumZ_cons, IH. Qed.
Lemma sumZ_filter (P : A -> Prop) `{forall x, Decision (P x)} f l :
  sumZ f (filter P l) = sumZ (fun x => if decide (P x) then f x else 0) l.
Proof.
  induction l as [|x l IH]; [done|]. rewrite sumZ_cons, filter_cons. case_decide; [by rewrite sumZ_cons, IH|].
  by rewrite IH.
Qed.
End Sums.

Lemma sumZ_concat {A} (f : A -> Z) ls : sumZ f (concat ls) = sumZ (sumZ f) ls.
Proof. induction ls as [|l ls IH]; [done|]. cbn [concat]. by rewrite sumZ_app, sumZ_cons, IH. Qed.
Lemma sumZ_eqm {A} (f g : A -> Z) l : Forall (fun x => eqm (f x) (g x)) l -> eqm (sumZ f l) (sumZ g l).
Proof. induction 1 as [|x l Hx Hl IH]; [done|]. by rewrite !sumZ_cons, Hx, IH. Qed.

Lemma lxor_range a b n : 0 <= n -> 0 <= a < 2 ^ n -> 0 <= b < 2 ^ n -> 0 <= Z.lxor a b < 2 ^ n.
Proof.
  intros Hn Ha Hb. split; [apply Z.lxor_nonneg; lia|].
  assert (Z.lxor a b = Z.lxor a b mod 2 ^ n) as ->; [|apply Z.mod_pos_bound; lia].
  rewrite <- Z.land_ones by done. apply Z.bits_inj'. intros i Hi. rewrite Z.land_spec, Z.lxor_spec, Z.testbit_ones_nonneg by lia.
  destruct (Z.ltb_spec i n); [by rewrite andb_true_r|].
  assert (forall x, 0 <= x < 2 ^ n -> Z.testbit x i = false) as Hx; [|by rewrite !Hx by done].
  intros x Hx. rewrite <- (Z.mod_small x (2 ^ n)) by done. by apply Z.mod_pow2_bits_high.
Qed.
