(* ===== verification/SzlType.v ===== *)
(** * Type descriptors of table values: [public/szltype.h], [emitvalues/szltype.cc]

    The kinds, the type tree and the checks [Valid], [BaseType], [Equal]. A type
    is an immutable value here; [valid_], the cache of a successful [Valid], is
    not part of it. The registry of table kinds ([SzlResults], filled at start-up
    by static registration objects) is an argument of [Valid]. *)
From Stdlib Require Import ZArith Lia.
From stdpp Require Import prelude strings.
From S2P Require Import Prelude.

Local Open Scope Z_scope.

(* @src src/src/public/szltype.h 43-67 SzlType::Kind *)
Inductive Kind : Type :=
| VOID | BOOL | BYTES | FINGERPRINT | FLOAT | INT | STRING | TIME
| TUPLE | ARRAY | MAP | TABLE | FUNCTION.

#[export] Instance Kind_eq_dec : EqDecision Kind.
Proof. solve_decision. Defined.

(** [SzlType], with a [SzlField] as a label and a type. *)
(* @src src/src/public/szltype.h 167-176 SzlType (data members) *)
#[warnings="-register-all"]
Inductive SzlType : Type := MkType
  { kind_ : Kind;
    table_ : string;
    param_ : Z;
    fields_ : list (string * SzlType);
    indices_ : list (string * SzlType);
    element_ : option (string * SzlType);
    weight_ : option (string * SzlType) }.

(* @src src/src/public/szltype.h 70-74 SzlType::TableProperties *)
Record TableProperties := MkProps
  { props_name : string; has_param : bool; has_weight : bool }.

(** The constructor from a kind. *)
(* @src src/src/emitvalues/szltype.cc 87-95 SzlType::SzlType(Kind) *)
Definition kind_type (k : Kind) : SzlType := MkType k "" 0 [] [] None None.

(* @src src/src/emitvalues/szltype.cc 183-186 SzlType::AddField *)
Definition AddField (t : SzlType) (label : string) (ty : SzlType) : SzlType :=
  MkType (kind_ t) (table_ t) (param_ t) (fields_ t ++ [(label, ty)])
    (indices_ t) (element_ t) (weight_ t).

(* @src src/src/emitvalues/szltype.cc 166-169 SzlType::AddIndex *)
Definition AddIndex (t : SzlType) (label : string) (ty : SzlType) : SzlType :=
  MkType (kind_ t) (table_ t) (param_ t) (fields_ t)
    (indices_ t ++ [(label, ty)]) (element_ t) (weight_ t).

(* @src src/src/emitvalues/szltype.cc 196-200 SzlType::set_element *)
Definition set_element (t : SzlType) (label : string) (ty : SzlType) : SzlType :=
  MkType (kind_ t) (table_ t) (param_ t) (fields_ t) (indices_ t)
    (Some (label, ty)) (weight_ t).

(* @src src/src/emitvalues/szltype.cc 61-84 Tbl::Tbl *)
Definition base_ (k : Kind) : bool :=
  match k with
  | BOOL | BYTES | FINGERPRINT | FLOAT | INT | STRING | TIME => true
  | _ => false
  end.

(* @src src/src/emitvalues/szltype.cc 216-218 SzlType::BaseKind *)
Definition BaseKind (k : Kind) : bool := base_ k.

Section Valid.
(** [SzlResults::Properties] and [SzlResults::IsValid] on the registered
    table kinds. *)
Context (Properties : string -> option TableProperties)
        (IsValid : SzlType -> option string).

(** The first error of a list of checks, [None] when all pass. *)
Fixpoint first_error (l : list (option string)) : option string :=
  match l with
  | [] => None
  | Some e :: _ => Some e
  | None :: l => first_error l
  end.

Definition fails (b : bool) (e : string) : option string := if b then Some e else None.
Definition is_table (t : SzlType) : bool := bool_decide (kind_ t = TABLE).
Definition present {A} (o : option A) : bool := match o with Some _ => true | None => false end.

(** [Valid] returns the error message, [None] for a valid type. The checks
    stand in the order of the code. *)
(* @src src/src/emitvalues/szltype.cc 254-431 SzlType::Valid *)
Fixpoint Valid (t : SzlType) : option string :=
  let '(MkType kind table param fields indices element weight) := t in
  let valid_indices := (* ValidIndices *)
    (fix go (l : list (string * SzlType)) : option string :=
       match l with
       | [] => None
       | (_, ty) :: l =>
           match Valid ty with
           | Some e => Some e
           | None =>
               if is_table ty then Some "cannot have a table as another table's index"%string
               else go l
           end
       end) indices in
  let valid_element :=
    match element with Some (_, ty) => Valid ty | None => None end in
  let element_is_table :=
    match element with Some (_, ty) => is_table ty | None => false end in
  match kind with
  | TABLE =>
      first_error
        [ fails (bool_decide (table = ""%string)) "no table type name";
          fails (negb (present element)) "no element type";
          valid_element;
          fails element_is_table "can't have a table of tables";
          fails (negb (bool_decide (length fields = 0%nat))) "table can't have fields";
          valid_indices;
          match weight with Some (_, ty) => Valid ty | None => None end;
          fails (match weight with Some (_, ty) => is_table ty | None => false end)
            "can't have a table weighted by tables";
          match Properties table with
          | None => Some ("unknown table type " +:+ table)%string
          | Some props =>
              if eqb (present weight) (has_weight props) then None
              else if present weight then Some "table has spurious weight"%string
              else Some "table missing weight"%string
          end;
          IsValid t ]
  | VOID => Some "invalid type"%string
  | TUPLE =>
      first_error
        [ fails (negb (param =? 0)) "tuples can't have params";
          fails (negb (bool_decide (length indices = 0%nat))) "tuples can't have indices";
          fails (present element) "tuples can't have an element type";
          fails (present weight) "tuples can't have weights";
          (fix go (l : list (string * SzlType)) : option string :=
             match l with
             | [] => None
             | (_, ty) :: l =>
                 if is_table ty then Some "can't have a tuple with a table field"%string
                 else match Valid ty with Some e => Some e | None => go l end
             end) fields ]
  | ARRAY =>
      first_error
        [ fails (negb (param =? 0)) "arrays can't have params";
          fails (negb (bool_decide (length indices = 0%nat))) "arrays can't have indices";
          fails (negb (bool_decide (length fields = 0%nat))) "arrays can't have fields";
          fails (present weight) "arrays can't have weights";
          fails (negb (present element)) "arrays must have an element type";
          valid_element;
          fails element_is_table "can't have an array of tables" ]
  | MAP =>
      first_error
        [ fails (negb (param =? 0)) "maps can't have params";
          fails (present weight) "maps can't have weights";
          fails (negb (bool_decide (length fields = 0%nat))) "maps can't have fields";
          fails (negb (bool_decide (length indices = 1%nat))) "maps must have exactly 1 index";
          valid_indices;
          fails (negb (present element)) "maps must have an element type";
          valid_element;
          fails element_is_table "can't have a map of tables" ]
  | _ =>
      if negb (base_ kind) then Some "unknown type kind"%string
      else fails (negb (param =? 0) || negb (bool_decide (length fields = 0%nat))
                  || negb (bool_decide (length indices = 0%nat))
                  || present element || present weight)
             "base type with some structural elements set"
  end.

(* @src src/src/emitvalues/szltype.cc 220-225 SzlType::BaseType *)
Definition BaseType (t : SzlType) : bool :=
  match Valid t with Some _ => false | None => base_ (kind_ t) end.
(* @src src/src/emitvalues/szltype.cc 227-232 SzlType::TupleType *)
Definition TupleType (t : SzlType) : bool :=
  match Valid t with Some _ => false | None => bool_decide (kind_ t = TUPLE) end.
(* @src src/src/emitvalues/szltype.cc 234-239 SzlType::TableType *)
Definition TableType (t : SzlType) : bool :=
  match Valid t with Some _ => false | None => bool_decide (kind_ t = TABLE) end.
End Valid.

(** Structural comparison; below a table only element, index and weight types
    are compared, and below any other kind nothing is. *)
(* @src src/src/emitvalues/szltype.cc 575-598 SzlType::Equal *)
Fixpoint Equal (t other : SzlType) : bool :=
  let '(MkType kind table _ _ indices element weight) := t in
  let field_equal (a b : option (string * SzlType)) :=
    match a, b with
    | Some (_, x), Some (_, y) => Equal x y
    | None, None => true
    | _, _ => false
    end in
  if negb (bool_decide (kind_ other = kind)) then false
  else if bool_decide (kind = TABLE) then
    bool_decide (table_ other = table)
    && field_equal element (element_ other)
    && bool_decide (length indices = length (indices_ other))
    && (fix go (l m : list (string * SzlType)) : bool :=
          match l, m with
          | (_, x) :: l, (_, y) :: m => Equal x y && go l m
          | _, _ => true
          end) indices (indices_ other)
    && field_equal weight (weight_ other)
  else true.
