(* ===== verification/Double.v ===== *)
(** * Doubles as bit patterns

    A [double] is its 64-bit pattern. Comparison, the arithmetic operations and the
    conversion from [int64] are those of the standard library's specification of
    IEEE 754 binary64 with rounding to nearest even; a NaN result is the default
    quiet NaN (C++ leaves its payload open). *)
From Stdlib Require Import ZArith Lia SpecFloat.
From stdpp Require Import prelude.
From S2P Require Import Prelude.

Local Open Scope Z_scope.

Definition sf_of_bits (b : Z) : spec_float :=
  let s := 2 ^ 63 <=? b in
  let e := (b / 2 ^ 52) mod 2 ^ 11 in
  let m := b mod 2 ^ 52 in
  if e =? 0 then
    if m =? 0 then S754_zero s else S754_finite s (Z.to_pos m) (-1074)
  else if e =? 2047 then
    if m =? 0 then S754_infinity s else S754_nan
  else S754_finite s (Z.to_pos (m + 2 ^ 52)) (e - 1075).

Definition bits_of_sf (x : spec_float) : Z :=
  match x with
  | S754_zero s => Z.b2z s * 2 ^ 63
  | S754_infinity s => Z.b2z s * 2 ^ 63 + 2047 * 2 ^ 52
  | S754_nan => 2047 * 2 ^ 52 + 2 ^ 51
  | S754_finite s m e =>
      if Z.pos m <? 2 ^ 52 then Z.b2z s * 2 ^ 63 + Z.pos m
      else Z.b2z s * 2 ^ 63 + (e + 1075) * 2 ^ 52 + (Z.pos m - 2 ^ 52)
  end.

Definition is_nan (b : Z) : bool := match sf_of_bits b with S754_nan => true | _ => false end.

Definition f64_add (a b : Z) : Z := bits_of_sf (SFadd 53 1024 (sf_of_bits a) (sf_of_bits b)).
Definition f64_sub (a b : Z) : Z := bits_of_sf (SFsub 53 1024 (sf_of_bits a) (sf_of_bits b)).
Definition f64_mul (a b : Z) : Z := bits_of_sf (SFmul 53 1024 (sf_of_bits a) (sf_of_bits b)).
Definition f64_div (a b : Z) : Z := bits_of_sf (SFdiv 53 1024 (sf_of_bits a) (sf_of_bits b)).
Definition f64_sqrt (a : Z) : Z := bits_of_sf (SFsqrt 53 1024 (sf_of_bits a)).
Definition f64_opp (a : Z) : Z := if a <? 2 ^ 63 then a + 2 ^ 63 else a - 2 ^ 63.
Definition f64_of_int (i : Z) : Z := bits_of_sf (binary_normalize 53 1024 i 0 false).
Definition f64_ltb (a b : Z) : bool := SFltb (sf_of_bits a) (sf_of_bits b).

(** [a < b ? -1 : a > b ? 1 : 0]: a NaN compares equal to everything. *)
Definition f64_cmp (a b : Z) : comparison :=
  if f64_ltb a b then Lt else if f64_ltb b a then Gt else Eq.
