(* ===== verification/Encoder.v ===== *)
(** * The value encoder: [emitvalues/szlencoding.h], [emitvalues/szlencoder.cc]
    and the key functions of [public/hashutils.h]

    An encoder is its version and the string built so far. Every operation is a
    function to the next encoder; [Start] and [End] abort on a kind with no
    markers. A [double] is its 64-bit IEEE pattern. *)
From Stdlib Require Import ZArith Lia.
From stdpp Require Import prelude strings.
From S2P Require Import Prelude SzlType.

Local Open Scope Z_scope.

(** ** Tags *)
Module Tag.
(* @src* src/src/emitvalues/szlencoding.h 22-83 SzlEncoding::Tag *)
Definition VOID := 0.
Definition STRING := 6.
Definition BOOL_FALSE := 8.
Definition BOOL_TRUE := 9.
Definition BYTES := 10.
Definition FINGERPRINT1 := 11.
Definition INTN8 := 19.
Definition INTN1 := 26.
Definition INTP1 := 27.
Definition TIME1 := 35.
Definition ARRAY_START := 43.
Definition ARRAY_END := 44.
Definition TUPLE_START := 45.
Definition TUPLE_END := 46.
Definition FLOAT := 47.
Definition MAP_START := 48.
Definition MAP_END := 49.
Definition NKIND := 50.
End Tag.

(* @src src/src/emitvalues/szlencoding.h 85-88 SzlEncoding::kBytesTerm *)
Definition kBytesTerm : Z := 66.

(** ** Big-endian keys *)

(** The bytes of an [n]-byte integer in the memory of a little-endian machine. *)
Definition le_bytes (n : nat) (x : Z) : bytes := rev (be_bytes n x).

(* @src src/src/public/hashutils.h 52-57 local_bswap_32 *)
Definition local_bswap_32 (x : Z) : Z :=
  u32 (Z.lor (Z.lor (Z.lor (u32 (Z.shiftl (Z.land x 255) 24))
                           (u32 (Z.shiftl (Z.land x 65280) 8)))
                    (Z.shiftr (Z.land x 16711680) 8))
             (Z.shiftr (Z.land x 4278190080) 24)).

(** The portable branch; the others name the compiler's byte swap. *)
(* @src src/src/public/hashutils.h 59-76 local_bswap_64 *)
Definition local_bswap_64 (host_int : Z) : Z :=
  Z.lor (local_bswap_32 (u32 (Z.shiftr host_int 32)))
        (u64 (Z.shiftl (local_bswap_32 (u32 host_int)) 32)).

(** On a little-endian host. *)
(* @src src/src/public/hashutils.h 95-102 KeyFromUint64 *)
Definition KeyFromUint64 (fp : Z) : bytes := le_bytes 8 (local_bswap_64 fp).

(* @src src/src/public/hashutils.h 114-121 KeyToUint64 *)
Definition KeyToUint64 (key : bytes) : Z := local_bswap_64 (be_val (rev key)).

(** [n] is the pattern read as an [int64]; [-n] on the smallest [int64] is the
    wrapped one. *)
(* @src src/src/public/hashutils.h 126-133 KeyFromDouble *)
Definition KeyFromDouble (d : Z) : bytes :=
  let n := s64 d in
  let n := if 0 <=? n then Z.lxor n (- 2 ^ 63) else s64 (- n) in
  KeyFromUint64 (u64 n).

(* @src src/src/public/hashutils.h 137-146 KeyToDouble *)
Definition KeyToDouble (key : bytes) : Z :=
  let n := s64 (KeyToUint64 key) in
  let n := if negb (Z.land n (- 2 ^ 63) =? 0) then Z.lxor n (- 2 ^ 63) else s64 (- n) in
  u64 n.

(** ** The encoder *)

(* @src src/src/emitvalues/szlencoder.cc 29-34 packUint32 *)
Definition packUint32 (x : Z) : bytes :=
  [u8 (Z.shiftr x 24); u8 (Z.shiftr x 16); u8 (Z.shiftr x 8); u8 x].

(* @src src/src/emitvalues/szlencoder.cc 36-41 packUint64 *)
Definition packUint64 (x : Z) : bytes :=
  let h := u32 (Z.shiftr x 32) in
  let l := u32 x in
  packUint32 h ++ packUint32 l.

(* @src src/src/public/szlencoder.h 135-137 SzlEncoder (data members) *)
Record SzlEncoder := MkEnc { version_ : Z; data_ : bytes }.

(* @src src/src/emitvalues/szlencoding.h 18-18 kSzlFileVersion *)
Definition kSzlFileVersion : string := "Szl File version 1.0".

(* @src src/src/emitvalues/szlencoder.cc 100-110 SzlEncoder::SetVersion *)
Definition SetVersion (e : SzlEncoder) (version : string) : bool * SzlEncoder :=
  if bool_decide (version = kSzlFileVersion) then (true, MkEnc 10 (data_ e))
  else (false, e).

(* @src src/src/emitvalues/szlencoder.cc 96-98 SzlEncoder::SzlEncoder *)
Definition enc_new : SzlEncoder := snd (SetVersion (MkEnc 0 []) kSzlFileVersion).

(* @src src/src/emitvalues/szlencoder.cc 112-114 SzlEncoder::Reset *)
Definition enc_Reset (e : SzlEncoder) : SzlEncoder := MkEnc (version_ e) [].

(** The caller's string receives the data, the encoder is left empty. *)
(* @src src/src/emitvalues/szlencoder.cc 116-119 SzlEncoder::Swap *)
Definition enc_Swap (e : SzlEncoder) : bytes * SzlEncoder :=
  (data_ e, MkEnc (version_ e) []).

(* @src src/src/public/szlencoder.h 96-101 SzlEncoder::AppendEncoding *)
Definition AppendEncoding (e : SzlEncoder) (p : bytes) : SzlEncoder :=
  MkEnc (version_ e) (data_ e ++ p).

(** [data_.push_back(k)]. *)
(* @src src/src/emitvalues/szlencoder.cc 150-150 data_.push_back *)
Definition push_back (e : SzlEncoder) (k : Z) : SzlEncoder := AppendEncoding e [u8 k].

(** The loop that finds the first byte of the value to keep: [i] runs over
    1..6, so a value of 2^48 or more keeps all 8 bytes. *)
(* @src src/src/emitvalues/szlencoder.cc 43-66 SzlEncoder::PackP8 *)
Fixpoint pack_start (ks : list Z) (v : Z) : Z :=
  match ks with
  | [] => 0
  | i :: ks => if v <? Z.shiftl 1 (Z.shiftl i 3) then 8 - i else pack_start ks v
  end.

(** [buf[0]] is unset in the code; it is overwritten or not written out. *)
(* @src src/src/emitvalues/szlencoder.cc 43-66 SzlEncoder::PackP8 *)
Definition pack_from (start tag v : Z) : bytes :=
  let buf := 0 :: packUint64 v in
  drop (Z.to_nat start) (<[Z.to_nat start := u8 tag]> buf).

(* @src src/src/emitvalues/szlencoder.cc 43-66 SzlEncoder::PackP8 *)
Definition PackP8 (e : SzlEncoder) (tagp1 v : Z) : SzlEncoder :=
  let start := pack_start [1; 2; 3; 4; 5; 6] v in
  AppendEncoding e (pack_from start (tagp1 + 7 - start) v).

(** The parameter is not used: the code computes the tag from [INTN1]. *)
(* @src src/src/emitvalues/szlencoder.cc 68-94 SzlEncoder::PackN8 *)
Definition PackN8 (e : SzlEncoder) (tagp1 v : Z) : SzlEncoder :=
  let u := u64 (- (v + 1)) in
  let start := pack_start [1; 2; 3; 4; 5; 6] u in
  AppendEncoding e (pack_from start (Tag.INTN1 - (7 - start)) (u64 v)).

(* @src src/src/emitvalues/szlencoder.cc 121-133 SzlEncoder::Start *)
Definition Start (e : SzlEncoder) (kind : Kind) : res SzlEncoder :=
  match kind with
  | ARRAY => Ok (push_back e Tag.ARRAY_START)
  | MAP => Ok (push_back e Tag.MAP_START)
  | TUPLE => Ok (push_back e Tag.TUPLE_START)
  | _ => Fatal
  end.

(* @src src/src/emitvalues/szlencoder.cc 135-147 SzlEncoder::End *)
Definition End_ (e : SzlEncoder) (kind : Kind) : res SzlEncoder :=
  match kind with
  | ARRAY => Ok (push_back e Tag.ARRAY_END)
  | MAP => Ok (push_back e Tag.MAP_END)
  | TUPLE => Ok (push_back e Tag.TUPLE_END)
  | _ => Fatal
  end.

(* @src src/src/emitvalues/szlencoder.cc 149-151 SzlEncoder::PutBool *)
Definition PutBool (e : SzlEncoder) (b : bool) : SzlEncoder :=
  push_back e (Tag.BOOL_FALSE + Z.b2z b).

(** [segment] is the part of the input between the two pointers of the loop. *)
(* @src src/src/emitvalues/szlencoder.cc 153-172 SzlEncoder::PutBytes *)
Fixpoint PutBytes_loop (e : SzlEncoder) (segment q : bytes) : SzlEncoder :=
  match q with
  | [] => AppendEncoding e segment
  | c :: q =>
      if c =? kBytesTerm then
        PutBytes_loop (push_back (AppendEncoding e segment) kBytesTerm) [c] q
      else PutBytes_loop e (segment ++ [c]) q
  end.

(* @src src/src/emitvalues/szlencoder.cc 153-172 SzlEncoder::PutBytes *)
Definition PutBytes (e : SzlEncoder) (p : bytes) : SzlEncoder :=
  let e := push_back e Tag.BYTES in
  let e := PutBytes_loop e [] p in
  AppendEncoding e [kBytesTerm; 0].

(* @src src/src/emitvalues/szlencoder.cc 174-179 SzlEncoder::PutInt *)
Definition PutInt (e : SzlEncoder) (v : Z) : SzlEncoder :=
  if 0 <=? v then PackP8 e Tag.INTP1 (u64 v) else PackN8 e Tag.INTN1 v.

(* @src src/src/emitvalues/szlencoder.cc 181-185 SzlEncoder::PutString *)
Definition PutString (e : SzlEncoder) (s : bytes) : SzlEncoder :=
  let e := push_back e Tag.STRING in
  let e := AppendEncoding e s in
  push_back e 0.

(* @src src/src/emitvalues/szlencoder.cc 187-189 SzlEncoder::PutFingerprint *)
Definition PutFingerprint (e : SzlEncoder) (fp : Z) : SzlEncoder := PackP8 e Tag.FINGERPRINT1 fp.

(* @src src/src/emitvalues/szlencoder.cc 191-193 SzlEncoder::PutTime *)
Definition PutTime (e : SzlEncoder) (t : Z) : SzlEncoder := PackP8 e Tag.TIME1 t.

(* @src src/src/emitvalues/szlencoder.cc 195-201 SzlEncoder::PutFloat *)
Definition PutFloat (e : SzlEncoder) (x : Z) : res SzlEncoder :=
  let e := push_back e Tag.FLOAT in
  let s := KeyFromDouble x in
  _ ← check (length s =? 8)%nat;
  Ok (AppendEncoding e s).

(** ** Keys for prefix scans *)

(** A C string: the bytes before the first NUL. *)
Fixpoint c_str (s : bytes) : bytes :=
  match s with
  | [] => []
  | c :: s => if c =? 0 then [] else c :: c_str s
  end.

Definition is_space (c : Z) : bool := ((9 <=? c) && (c <=? 13)) || (c =? 32).

Definition digit_val (c : Z) : Z :=
  if (48 <=? c) && (c <=? 57) then c - 48
  else if (97 <=? c) && (c <=? 122) then c - 97 + 10
  else if (65 <=? c) && (c <=? 90) then c - 65 + 10
  else 36.

Fixpoint strto_digits (base acc : Z) (s : bytes) : Z :=
  match s with
  | [] => acc
  | c :: s => if digit_val c <? base then strto_digits base (acc * base + digit_val c) s else acc
  end.

Fixpoint skip_space (s : bytes) : bytes :=
  match s with
  | c :: s' => if is_space c then skip_space s' else s
  | [] => []
  end.

(** [strtoll] of the C library with base 0: leading space, a sign, a [0x] or
    [0] prefix, then digits; the value saturates at the [int64] bounds. *)
(* @src src/src/utilities/strutils.h 61-65 strto64 *)
Definition strto64 (s : bytes) : Z :=
  let s := skip_space (c_str s) in
  let '(neg, s) :=
    match s with
    | c :: s' => if c =? 45 then (true, s') else if c =? 43 then (false, s') else (false, s)
    | [] => (false, s)
    end in
  let magnitude :=
    match s with
    | z :: x :: d :: s' =>
        if (z =? 48) && ((x =? 120) || (x =? 88)) && (digit_val d <? 16)
        then strto_digits 16 0 (d :: s')
        else if z =? 48 then strto_digits 8 0 s else strto_digits 10 0 s
    | z :: _ => if z =? 48 then strto_digits 8 0 s else strto_digits 10 0 s
    | [] => 0
    end in
  Z.max (- 2 ^ 63) (Z.min (2 ^ 63 - 1) (if neg : bool then - magnitude else magnitude)).

(** The encoded key, or the error message. *)
(* @src src/src/emitvalues/szlencoder.cc 203-228 SzlEncoder::EncodeKeyFromString *)
Definition EncodeKeyFromString (type : SzlType) (key : bytes) : bytes + string :=
  let enc := enc_new in
  match kind_ type with
  | INT => inl (data_ (PutInt enc (strto64 key)))
  | STRING =>
      let encoded_key := data_ (PutString enc (c_str key)) in
      inl (take (length encoded_key - 1) encoded_key)
  | _ => inr "Unsupported type for string encoding"%string
  end.
