(* ===== verification/Decoder.v ===== *)
(** * The value decoder: [emitvalues/szldecoder.cc]

    A decoder is the whole buffer and the bytes from the current position to its
    end. An operation that returns [false] is [None]; the code leaves the
    position where it was, so the caller keeps the decoder it had. *)
From Stdlib Require Import ZArith Lia.
From stdpp Require Import prelude.
From S2P Require Import Prelude SzlType Encoder.

Local Open Scope Z_scope.

(* @src src/src/public/szldecoder.h 90-92 SzlDecoder (data members) *)
Record SzlDecoder := MkDec { start_ : bytes; p_ : bytes }.

(* @src src/src/emitvalues/szldecoder.cc 203-206 SzlDecoder::Init *)
Definition dec_Init (p : bytes) : SzlDecoder := MkDec p p.
(* @src src/src/emitvalues/szldecoder.cc 208-210 SzlDecoder::Restart *)
Definition Restart (d : SzlDecoder) : SzlDecoder := MkDec (start_ d) (start_ d).
(* @src src/src/public/szldecoder.h 43-43 SzlDecoder::done *)
Definition done_ (d : SzlDecoder) : bool := match p_ d with [] => true | _ => false end.
(* @src src/src/public/szldecoder.h 88-88 SzlDecoder::size *)
Definition size_ (d : SzlDecoder) : Z := Z.of_nat (length (p_ d)).

(** [p_ += n]. *)
Definition advance (d : SzlDecoder) (n : Z) : SzlDecoder :=
  MkDec (start_ d) (drop (Z.to_nat n) (p_ d)).
(** [p_ = q] for a pointer into the buffer, given by the bytes after it. *)
Definition move_to (d : SzlDecoder) (q : bytes) : SzlDecoder := MkDec (start_ d) q.

(** [p[i]], with [0] past the end; the code reads only positions it checked. *)
Definition byte_at (p : bytes) (i : nat) : Z := nth i p 0.

(** ** The tag tables *)

(* @src src/src/emitvalues/szldecoder.cc 138-183 SzlDecoderTbl::SzlDecoderTbl *)
Definition in_tags (k first : Z) : bool := (first <=? k) && (k <? first + 8).

(* @src src/src/emitvalues/szldecoder.cc 138-183 SzlDecoderTbl::SzlDecoderTbl *)
Definition tbl_size (k : Z) : Z :=
  if k =? Tag.FLOAT then 9
  else if k =? Tag.STRING then 1
  else if (k =? Tag.BOOL_FALSE) || (k =? Tag.BOOL_TRUE) then 1
  else if k =? Tag.BYTES then 1
  else if (k =? Tag.ARRAY_START) || (k =? Tag.ARRAY_END) then 1
  else if (k =? Tag.TUPLE_START) || (k =? Tag.TUPLE_END) then 1
  else if (k =? Tag.MAP_START) || (k =? Tag.MAP_END) then 1
  else if in_tags k Tag.FINGERPRINT1 then 2 + (k - Tag.FINGERPRINT1)
  else if in_tags k Tag.INTP1 then 2 + (k - Tag.INTP1)
  else if in_tags k Tag.INTN8 then 2 + (Tag.INTN1 - k)
  else if in_tags k Tag.TIME1 then 2 + (k - Tag.TIME1)
  else 0.

(* @src src/src/emitvalues/szldecoder.cc 138-183 SzlDecoderTbl::SzlDecoderTbl *)
Definition tbl_kind (k : Z) : Kind :=
  if k =? Tag.FLOAT then FLOAT
  else if k =? Tag.STRING then STRING
  else if (k =? Tag.BOOL_FALSE) || (k =? Tag.BOOL_TRUE) then BOOL
  else if k =? Tag.BYTES then BYTES
  else if (k =? Tag.ARRAY_START) || (k =? Tag.ARRAY_END) then ARRAY
  else if (k =? Tag.TUPLE_START) || (k =? Tag.TUPLE_END) then TUPLE
  else if (k =? Tag.MAP_START) || (k =? Tag.MAP_END) then MAP
  else if in_tags k Tag.FINGERPRINT1 then FINGERPRINT
  else if in_tags k Tag.INTP1 then INT
  else if in_tags k Tag.INTN8 then INT
  else if in_tags k Tag.TIME1 then TIME
  else VOID.

(** ** Unpacking integers *)

(* @src src/src/emitvalues/szldecoder.cc 43-48 unpackUint32 *)
Definition unpackUint32 (p : bytes) : Z :=
  Z.lor (Z.lor (Z.lor (u32 (Z.shiftl (byte_at p 0) 24)) (u32 (Z.shiftl (byte_at p 1) 16)))
               (u32 (Z.shiftl (byte_at p 2) 8)))
        (byte_at p 3).

(* @src src/src/emitvalues/szldecoder.cc 50-52 unpackUint64 *)
Definition unpackUint64 (p : bytes) : Z :=
  Z.lor (u64 (Z.shiftl (unpackUint32 p) 32)) (unpackUint32 (drop 4 p)).

(** [for (i = 0; i < n; i++) t = (t << 8) | p[i];] on a [uint32]. *)
(* @src src/src/emitvalues/szldecoder.cc 54-90 UnpackP8 *)
Fixpoint shift_in (n : nat) (p : bytes) (t : Z) : Z :=
  match n with
  | O => t
  | S n => shift_in n (drop 1 p) (Z.lor (u32 (Z.shiftl t 8)) (byte_at p 0))
  end.

(** The number of bytes consumed and the value; 0 bytes is a failure. *)
(* @src src/src/emitvalues/szldecoder.cc 54-90 UnpackP8 *)
Definition UnpackP8 (tagp1 : Z) (p : bytes) (size : Z) : Z * Z :=
  if size <? 1 then (0, 0)
  else
    let k := byte_at p 0 in
    let p := drop 1 p in
    if (k <? tagp1) || (tagp1 + 7 <? k) then (0, 0)
    else
      let k := k - (tagp1 - 1) in
      if size <? k + 1 then (0, 0)
      else
        let k4 := Z.min k 4 in
        let t1 := shift_in (Z.to_nat k4) p 0 in
        if 4 <? k then
          let t2 := shift_in (Z.to_nat (k - 4)) (drop 4 p) 0 in
          (k + 1, Z.lor (u64 (Z.shiftl t1 (Z.shiftl (k - 4) 3))) t2)
        else (k + 1, t1).

(* @src src/src/emitvalues/szldecoder.cc 92-134 UnpackN8 *)
Definition UnpackN8 (tagn1 : Z) (p : bytes) (size : Z) : Z * Z :=
  if size <? 1 then (0, 0)
  else
    let k := byte_at p 0 in
    let p := drop 1 p in
    if (tagn1 <? k) || (k <? tagn1 - 7) then (0, 0)
    else
      let k := (tagn1 - k) + 1 in
      if size <? k + 1 then (0, 0)
      else
        let k4 := Z.min k 4 in
        let t1 := shift_in (Z.to_nat k4) p (2 ^ 32 - 1) in
        if 4 <? k then
          let t2 := shift_in (Z.to_nat (k - 4)) (drop 4 p) 0 in
          let uv := Z.lor (u64 (Z.shiftl t1 (Z.shiftl (k - 4) 3))) t2 in
          let uv :=
            if negb (k =? 8) then Z.lor uv (u64 (Z.shiftl (2 ^ 64 - 1) (Z.shiftl k 3)))
            else uv in
          (k + 1, s64 uv)
        else (k + 1, Z.lor (Z.shiftl (-1) 32) t1).

(** ** Operations *)

(* @src src/src/emitvalues/szldecoder.cc 212-221 SzlDecoder::peek *)
Definition peek (d : SzlDecoder) : Kind :=
  if done_ d then VOID
  else
    let k := byte_at (p_ d) 0 in
    if k <? Tag.NKIND then tbl_kind k else VOID.

(* @src src/src/emitvalues/szldecoder.cc 223-237 SzlDecoder::IsStart *)
Definition start_tag (kind : Kind) : option Z :=
  match kind with
  | ARRAY => Some Tag.ARRAY_START
  | MAP => Some Tag.MAP_START
  | TUPLE => Some Tag.TUPLE_START
  | _ => None
  end.
(* @src src/src/emitvalues/szldecoder.cc 246-260 SzlDecoder::IsEnd *)
Definition end_tag (kind : Kind) : option Z :=
  match kind with
  | ARRAY => Some Tag.ARRAY_END
  | MAP => Some Tag.MAP_END
  | TUPLE => Some Tag.TUPLE_END
  | _ => None
  end.

(* @src src/src/emitvalues/szldecoder.cc 223-237 SzlDecoder::IsStart *)
Definition IsStart (d : SzlDecoder) (kind : Kind) : bool :=
  match start_tag kind with
  | None => false
  | Some k => negb ((size_ d <? 1) || negb (byte_at (p_ d) 0 =? k))
  end.

(* @src src/src/emitvalues/szldecoder.cc 239-244 SzlDecoder::GetStart *)
Definition GetStart (d : SzlDecoder) (kind : Kind) : option SzlDecoder :=
  if negb (IsStart d kind) then None else Some (advance d 1).

(* @src src/src/emitvalues/szldecoder.cc 246-260 SzlDecoder::IsEnd *)
Definition IsEnd (d : SzlDecoder) (kind : Kind) : bool :=
  match end_tag kind with
  | None => false
  | Some k => negb ((size_ d <? 1) || negb (byte_at (p_ d) 0 =? k))
  end.

(* @src src/src/emitvalues/szldecoder.cc 262-267 SzlDecoder::GetEnd *)
Definition GetEnd (d : SzlDecoder) (kind : Kind) : option SzlDecoder :=
  if negb (IsEnd d kind) then None else Some (advance d 1).

(* @src src/src/emitvalues/szldecoder.cc 269-287 SzlDecoder::GetBool *)
Definition GetBool (d : SzlDecoder) : option (bool * SzlDecoder) :=
  if size_ d <? 1 then None
  else
    let k := byte_at (p_ d) 0 in
    if (k =? Tag.BOOL_FALSE) || (k =? Tag.BOOL_TRUE)
    then Some (negb (k - Tag.BOOL_FALSE =? 0), advance d 1)
    else if (size_ d <? 2) || negb (bool_decide (peek d = BOOL)) then None
    else Some (negb (byte_at (p_ d) 1 =? 0), advance d 2).

(** [q] is the scanning pointer, [segment] the bytes since the last copy. *)
(* @src src/src/emitvalues/szldecoder.cc 289-332 SzlDecoder::GetBytes *)
Fixpoint GetBytes_loop (v segment q : bytes) : option (bytes * bytes) :=
  match q with
  | c :: ((c1 :: q2) as q1) =>
      if c =? kBytesTerm then
        let v := v ++ segment in
        if c1 =? 0 then Some (v, q2)
        else if negb (c1 =? kBytesTerm) then None
        else GetBytes_loop v [c1] q2
      else GetBytes_loop v (segment ++ [c]) q1
  | _ => None
  end.

(* @src src/src/emitvalues/szldecoder.cc 289-332 SzlDecoder::GetBytes *)
Definition GetBytes (d : SzlDecoder) : option (bytes * SzlDecoder) :=
  if size_ d <? 1 then None
  else
    let k := byte_at (p_ d) 0 in
    if k =? Tag.BYTES then
      '(v, q) ← GetBytes_loop [] [] (drop 1 (p_ d)); Some (v, move_to d q)
    else if (size_ d <? 5) || negb (bool_decide (peek d = BYTES)) then None
    else
      let n := s32 (unpackUint32 (drop 1 (p_ d))) in
      if size_ d <? u64 (n + 5) then None
      else Some (take (Z.to_nat n) (drop 5 (p_ d)), advance d (5 + n)).

(* @src src/src/emitvalues/szldecoder.cc 334-359 SzlDecoder::GetInt *)
Definition GetInt (d : SzlDecoder) : option (Z * SzlDecoder) :=
  let '(n, uv) := UnpackP8 Tag.INTP1 (p_ d) (size_ d) in
  if 0 <? n then Some (s64 uv, advance d n)
  else
    let '(n, v) := UnpackN8 Tag.INTN1 (p_ d) (size_ d) in
    if 0 <? n then Some (v, advance d n)
    else if (size_ d <? 9) || negb (bool_decide (peek d = INT)) then None
    else Some (s64 (u64 (unpackUint64 (drop 1 (p_ d)) - 2 ^ 63)), advance d 9).

(* @src src/src/emitvalues/szldecoder.cc 361-375 SzlDecoder::GetFingerprint *)
Definition GetFingerprint (d : SzlDecoder) : option (Z * SzlDecoder) :=
  let '(n, v) := UnpackP8 Tag.FINGERPRINT1 (p_ d) (size_ d) in
  if 0 <? n then Some (v, advance d n)
  else if (size_ d <? 9) || negb (bool_decide (peek d = FINGERPRINT)) then None
  else Some (unpackUint64 (drop 1 (p_ d)), advance d 9).

(* @src src/src/emitvalues/szldecoder.cc 377-391 SzlDecoder::GetTime *)
Definition GetTime (d : SzlDecoder) : option (Z * SzlDecoder) :=
  let '(n, v) := UnpackP8 Tag.TIME1 (p_ d) (size_ d) in
  if 0 <? n then Some (v, advance d n)
  else if (size_ d <? 9) || negb (bool_decide (peek d = TIME)) then None
  else Some (unpackUint64 (drop 1 (p_ d)), advance d 9).

(** [for (q = p_ + 1; q < end_ && *q; q++);]: the string before the NUL and the
    bytes from the NUL on. *)
(* @src src/src/emitvalues/szldecoder.cc 393-406 SzlDecoder::GetString *)
Fixpoint scan_nul (q : bytes) : bytes * bytes :=
  match q with
  | [] => ([], [])
  | c :: q' => if c =? 0 then ([], q) else let '(s, r) := scan_nul q' in (c :: s, r)
  end.

(* @src src/src/emitvalues/szldecoder.cc 393-406 SzlDecoder::GetString *)
Definition GetString (d : SzlDecoder) : option (bytes * SzlDecoder) :=
  if (size_ d <? 1) || negb (bool_decide (peek d = STRING)) then None
  else
    match scan_nul (drop 1 (p_ d)) with
    | (_, []) => None
    | (v, _ :: q) => Some (v, move_to d q)
    end.

(* @src src/src/emitvalues/szldecoder.cc 408-434 SzlDecoder::GetFloat *)
Definition GetFloat (d : SzlDecoder) : option (Z * SzlDecoder) :=
  if size_ d <? 1 then None
  else
    let k := byte_at (p_ d) 0 in
    if k =? Tag.FLOAT then
      if size_ d <? 9 then None
      else Some (KeyToDouble (take 8 (drop 1 (p_ d))), advance d 9)
    else if (size_ d <? 10) || negb (bool_decide (peek d = FLOAT)) then None
    else
      let i := unpackUint64 (drop 2 (p_ d)) in
      let x := if byte_at (p_ d) 1 =? 0 then Z.lxor i (2 ^ 63) else i in
      Some (x, advance d 10).

(** The scan of [Skip] over an escaped byte string; the bytes after it. *)
(* @src src/src/emitvalues/szldecoder.cc 436-477 SzlDecoder::Skip *)
Fixpoint Skip_bytes_loop (q : bytes) : option bytes :=
  match q with
  | c :: ((c1 :: q2) as q1) =>
      if c =? kBytesTerm then
        if c1 =? 0 then Some q2
        else if negb (c1 =? kBytesTerm) then None
        else Skip_bytes_loop q2
      else Skip_bytes_loop q1
  | _ => None
  end.

(* @src src/src/emitvalues/szldecoder.cc 436-477 SzlDecoder::Skip *)
Definition Skip (d : SzlDecoder) (kind : Kind) : option SzlDecoder :=
  if done_ d || negb (bool_decide (kind = peek d)) then None
  else
    let k := byte_at (p_ d) 0 in
    if (Tag.NKIND <=? k) || (tbl_size k =? 0) || (size_ d <? tbl_size k) then None
    else if k =? Tag.BYTES then
      q ← Skip_bytes_loop (drop 1 (p_ d)); Some (move_to d q)
    else if k =? Tag.STRING then
      match scan_nul (drop 1 (p_ d)) with
      | (_, []) => None
      | (_, q) => Some (move_to d (drop (Z.to_nat (tbl_size k)) q))
      end
    else Some (advance d (tbl_size k)).

(** A call of [Skip] whose result is ignored. *)
(* @src src/src/emitvalues/szldecoder.cc 479-506 SzlDecoder::Advance *)
Definition Skip_ (d : SzlDecoder) (kind : Kind) : SzlDecoder := default d (Skip d kind).

(** [while (IsEnd(kind)) { Skip(kind); kind = peek(); }], and the same for start
    markers: every round consumes a byte. *)
(* @src src/src/emitvalues/szldecoder.cc 479-506 SzlDecoder::Advance *)
Fixpoint skip_ends (fuel : nat) (d : SzlDecoder) : SzlDecoder :=
  match fuel with
  | O => d
  | S fuel => if IsEnd d (peek d) then skip_ends fuel (Skip_ d (peek d)) else d
  end.
(* @src src/src/emitvalues/szldecoder.cc 479-506 SzlDecoder::Advance *)
Fixpoint skip_starts (fuel : nat) (d : SzlDecoder) : SzlDecoder :=
  match fuel with
  | O => d
  | S fuel => if IsStart d (peek d) then skip_starts fuel (Skip_ d (peek d)) else d
  end.

(** [n] is [num_values - i]. *)
(* @src src/src/emitvalues/szldecoder.cc 479-506 SzlDecoder::Advance *)
Fixpoint Advance_loop (n : nat) (d : SzlDecoder) : bool * SzlDecoder :=
  let d := skip_ends (length (p_ d)) d in
  if bool_decide (peek d = VOID) then (false, d)
  else
    match n with
    | O => (true, d)
    | S n =>
        let d := skip_starts (length (p_ d)) d in
        Advance_loop n (Skip_ d (peek d))
    end.

(* @src src/src/emitvalues/szldecoder.cc 479-506 SzlDecoder::Advance *)
Definition Advance (d : SzlDecoder) (num_values : Z) : bool * SzlDecoder :=
  Advance_loop (Z.to_nat num_values) d.
