(* ===== verification/Codec.v ===== *)
(** * Correctness of the value encoding

    The basic values, their encoding as a byte string, and what [Encoder] and
    [Decoder] promise each other: every value written is read back, [Skip]
    passes over exactly one value, and byte order on encodings is an order on
    the values. *)
From Stdlib Require Import ZArith Lia ZifyBool SpecFloat.
From stdpp Require Import prelude.
From S2P Require Import Prelude SzlType Double Encoder Decoder.

Local Open Scope Z_scope.

(** ** Basic values *)

Inductive prim : Type :=
| PBool (b : bool)
| PBytes (s : bytes)
| PFingerprint (v : Z)
| PFloat (bits : Z)
| PInt (v : Z)
| PString (s : bytes)
| PTime (v : Z).

Definition prim_kind (p : prim) : Kind :=
  match p with
  | PBool _ => BOOL | PBytes _ => BYTES | PFingerprint _ => FINGERPRINT
  | PFloat _ => FLOAT | PInt _ => INT | PString _ => STRING | PTime _ => TIME
  end.

(** The C++ ranges; a [STRING] holds no NUL. *)
Definition prim_ok (p : prim) : Prop :=
  match p with
  | PBool _ => True
  | PBytes s => bytes_ok s
  | PFingerprint v | PTime v => is_u64 v
  | PFloat b => is_u64 b
  | PInt v => is_s64 v
  | PString s => bytes_ok s /\ Forall (fun c => c <> 0) s
  end.

(** One call of the encoder and of the decoder, by kind. *)
Definition put_prim (e : SzlEncoder) (p : prim) : res SzlEncoder :=
  match p with
  | PBool b => Ok (PutBool e b)
  | PBytes s => Ok (PutBytes e s)
  | PFingerprint v => Ok (PutFingerprint e v)
  | PFloat b => PutFloat e b
  | PInt v => Ok (PutInt e v)
  | PString s => Ok (PutString e s)
  | PTime v => Ok (PutTime e v)
  end.

Definition get_prim (k : Kind) (d : SzlDecoder) : option (prim * SzlDecoder) :=
  match k with
  | BOOL => '(v, d) ← GetBool d; Some (PBool v, d)
  | BYTES => '(v, d) ← GetBytes d; Some (PBytes v, d)
  | FINGERPRINT => '(v, d) ← GetFingerprint d; Some (PFingerprint v, d)
  | FLOAT => '(v, d) ← GetFloat d; Some (PFloat v, d)
  | INT => '(v, d) ← GetInt d; Some (PInt v, d)
  | STRING => '(v, d) ← GetString d; Some (PString v, d)
  | TIME => '(v, d) ← GetTime d; Some (PTime v, d)
  | _ => None
  end.

Fixpoint put_prims (e : SzlEncoder) (ps : list prim) : res SzlEncoder :=
  match ps with
  | [] => Ok e
  | p :: ps => e ← put_prim e p; put_prims e ps
  end.

Fixpoint get_prims (ks : list Kind) (d : SzlDecoder) : option (list prim * SzlDecoder) :=
  match ks with
  | [] => Some ([], d)
  | k :: ks =>
      '(p, d) ← get_prim k d; '(ps, d) ← get_prims ks d; Some (p :: ps, d)
  end.

(** ** The byte format, as a specification *)

Definition nbytes (v : Z) : nat := Z.to_nat (8 - pack_start [1; 2; 3; 4; 5; 6] v).

Definition enc_P8 (tagp1 v : Z) : bytes :=
  (tagp1 + Z.of_nat (nbytes v) - 1) :: be_bytes (nbytes v) v.
Definition enc_N8 (v : Z) : bytes :=
  (Tag.INTN1 - (Z.of_nat (nbytes (- (v + 1))) - 1)) :: be_bytes (nbytes (- (v + 1))) v.

Definition escape (s : bytes) : bytes :=
  s ≫= fun c => if c =? kBytesTerm then [kBytesTerm; kBytesTerm] else [c].

(** The key of a double as a number: the pattern of a non-negative double moves
    above [2^63], the patterns of negative ones are reversed below it. *)
Definition float_key (b : Z) : Z := if b <? 2 ^ 63 then b + 2 ^ 63 else 2 ^ 64 - b.

Definition enc_prim (p : prim) : bytes :=
  match p with
  | PBool b => [Tag.BOOL_FALSE + Z.b2z b]
  | PBytes s => Tag.BYTES :: escape s ++ [kBytesTerm; 0]
  | PFingerprint v => enc_P8 Tag.FINGERPRINT1 v
  | PFloat b => Tag.FLOAT :: be_bytes 8 (float_key b)
  | PInt v => if 0 <=? v then enc_P8 Tag.INTP1 v else enc_N8 v
  | PString s => Tag.STRING :: s ++ [0]
  | PTime v => enc_P8 Tag.TIME1 v
  end.

Definition enc_prims (ps : list prim) : bytes := ps ≫= enc_prim.

(** What the decoder returns: the zero of either sign comes back as +0. *)
Definition norm_prim (p : prim) : prim :=
  match p with
  | PFloat b => PFloat (if b =? 2 ^ 63 then 0 else b)
  | _ => p
  end.

(** ** Orders on the values *)

(** The order of encoded [BYTES]: the end of a string sorts just below [0x42]. *)
Fixpoint escaped_cmp (a b : bytes) : comparison :=
  match a, b with
  | [], [] => Eq
  | [], y :: _ => if y <? kBytesTerm then Gt else Lt
  | x :: _, [] => if x <? kBytesTerm then Lt else Gt
  | x :: a, y :: b => cmp_then (x ?= y) (escaped_cmp a b)
  end.

Definition bool_cmp (a b : bool) : comparison := Z.b2z a ?= Z.b2z b.

(** The value order of each kind; doubles by their keys. *)
Definition prim_cmp (p q : prim) : comparison :=
  match p, q with
  | PBool a, PBool b => bool_cmp a b
  | PBytes a, PBytes b => escaped_cmp a b
  | PFingerprint a, PFingerprint b => a ?= b
  | PFloat a, PFloat b => float_key a ?= float_key b
  | PInt a, PInt b => a ?= b
  | PString a, PString b => str_cmp a b
  | PTime a, PTime b => a ?= b
  | _, _ => Eq
  end.

Fixpoint prims_cmp (ps qs : list prim) : comparison :=
  match ps, qs with
  | p :: ps, q :: qs => cmp_then (prim_cmp p q) (prims_cmp ps qs)
  | _, _ => Eq
  end.

(** ** Packing *)

Lemma drop_be_bytes n k x : (k <= n)%nat -> drop (n - k) (be_bytes n x) = be_bytes k x.
Proof.
  intros Hk. apply be_val_inj; auto with szl.
  - apply Forall_drop, be_bytes_ok.
  - rewrite length_drop. autorewrite with szl. lia.
  - assert (be_val (be_bytes n x) mod 256 ^ Z.of_nat k
            = be_val (drop (n - k) (be_bytes n x)) mod 256 ^ Z.of_nat k) as Hm.
    { rewrite <- (take_drop (n - k) (be_bytes n x)) at 1.
      rewrite be_val_app, length_drop, length_be_bytes.
      replace (n - (n - k))%nat with k by lia.
      rewrite Z.add_comm, Z_mod_plus_full. done. }
    rewrite be_val_be_bytes in Hm |- *.
    rewrite (Z.mod_small (be_val _)) in Hm.
    + rewrite <- Hm. apply Z.mod_mod_divide.
      exists (256 ^ Z.of_nat (n - k)). rewrite <- Z.pow_add_r by lia. f_equal. lia.
    + pose proof (be_val_range (drop (n - k) (be_bytes n x))) as R.
      rewrite length_drop, length_be_bytes in R.
      replace (n - (n - k))%nat with k in R by lia.
      apply R, Forall_drop, be_bytes_ok.
Qed.

Lemma packUint64_be x : packUint64 x = be_bytes 8 x.
Proof.
  unfold packUint64, packUint32, u8, u32. cbn [be_bytes app].
  rewrite !Z.shiftr_div_pow2 by lia. change 256 with (2 ^ 8).
  repeat (rewrite Z.div_div by lia; rewrite <- Z.pow_add_r by lia; cbn [Z.add Pos.add Pos.succ]).
  rewrite !mod_div_mod, !Z.mod_mod_divide by (lia || by exists (2 ^ 24)).
  rewrite !Z.div_div, <- !Z.pow_add_r by lia. cbn [Z.add Pos.add Pos.succ].
  repeat f_equal.
Qed.

(** Closed byte-size constants, computed. *)
Ltac eval_sizes :=
  repeat match goal with
  | |- context [256 ^ ?e] =>
      let c := eval vm_compute in (256 ^ e) in progress change (256 ^ e) with c
  | H : context [Z.shiftl 1 ?e] |- _ =>
      let c := eval vm_compute in (Z.shiftl 1 e) in progress change (Z.shiftl 1 e) with c in H
  | H : (_ <? _) = true |- _ => apply Z.ltb_lt in H
  | H : (_ <? _) = false |- _ => apply Z.ltb_ge in H
  end.

Lemma nbytes_range v : (1 <= nbytes v <= 8)%nat /\ nbytes v <> 7%nat.
Proof. unfold nbytes, pack_start. repeat case_match; simpl; lia. Qed.

Lemma nbytes_bound v : is_u64 v -> v < 256 ^ Z.of_nat (nbytes v).
Proof.
  intros [H1 H2]. change (2 ^ 64) with 18446744073709551616 in H2.
  unfold nbytes, pack_start. repeat case_match; eval_sizes; lia.
Qed.

(** The length is minimal up to the skipped length 7. *)
Lemma nbytes_mono v w : v <= w -> (nbytes v <= nbytes w)%nat.
Proof.
  intros H. unfold nbytes, pack_start. repeat case_match; eval_sizes; lia.
Qed.

Lemma pack_from_spec n v tag :
  (1 <= n <= 8)%nat -> is_u8 tag ->
  pack_from (8 - Z.of_nat n) tag v = tag :: be_bytes n v.
Proof.
  intros Hr Ht. unfold pack_from. rewrite packUint64_be, u8_id by done.
  rewrite <- (drop_be_bytes 8 n v) by lia.
  pose proof (length_be_bytes 8 v) as Hl.
  replace (Z.to_nat (8 - Z.of_nat n)) with (8 - n)%nat by lia.
  assert (8 - n <= 7)%nat as Hs by lia.
  generalize dependent (be_bytes 8 v). intros l Hl. generalize dependent (8 - n)%nat.
  intros s Hs.
  rewrite drop_insert_ge by lia. rewrite Nat.sub_diag.
  destruct s as [|s]; [done|]. cbn [drop].
  assert (s < length l)%nat as [y Hy]%lookup_lt_is_Some by lia.
  by rewrite (drop_S l y s Hy).
Qed.

(** ** Unpacking *)

Lemma shift_in_spec n p t :
  bytes_ok p -> is_u32 t -> (n <= length p)%nat ->
  shift_in n p t = u32 (be_val_acc t (take n p)).
Proof.
  revert p t. induction n as [|n IH]; intros p t Hp Ht Hl; [by rewrite u32_id|].
  destruct p as [|x p]; simpl in Hl; [lia|].
  inversion_clear Hp as [|? ? Hx Hp']. cbn [shift_in take be_val_acc drop byte_at nth].
  assert (Z.lor (u32 (Z.shiftl t 8)) x = u32 (t * 256 + x)) as ->.
  { unfold u32, is_u8 in *. rewrite Z.shiftl_mul_pow2 by lia.
    replace (t * 2 ^ 8) with (2 ^ 8 * t) by lia. change (2 ^ 32) with (2 ^ 8 * 2 ^ 24).
    rewrite Z.mul_mod_distr_l, Z.mul_comm, lor_shift_add by lia.
    rewrite Z.rem_mul_r by lia.
    replace (t * 256 + x) with (x + t * 2 ^ 8) by lia.
    rewrite Z_mod_plus_full, Z.div_add, (Z.mod_small x), (Z.div_small x) by lia.
    rewrite Z.add_0_l. ring. }
  rewrite drop_0, IH by first [exact Hp' | apply u32_range | lia].
  rewrite (be_val_acc_shift _ (u32 _)), (be_val_acc_shift _ (t * 256 + x)).
  unfold u32. rewrite <- (Zplus_mod_idemp_l (_ * _)), Zmult_mod_idemp_l.
  by rewrite Zplus_mod_idemp_l.
Qed.

(** Unpacking the two 32-bit halves of a digit string. *)
Lemma be_val_split l :
  (4 <= length l)%nat ->
  be_val l = be_val (take 4 l) * 2 ^ (8 * (Z.of_nat (length l) - 4)) + be_val (drop 4 l).
Proof.
  intros H. rewrite <- (take_drop 4 l) at 1. rewrite be_val_app, length_drop, pow256.
  by replace (8 * Z.of_nat (length l - 4)) with (8 * (Z.of_nat (length l) - 4)) by lia.
Qed.

Lemma be_val_pow2 l : bytes_ok l -> 0 <= be_val l < 2 ^ (8 * Z.of_nat (length l)).
Proof. rewrite <- pow256. apply be_val_range. Qed.

Section Unpack.
Context (bs rest : bytes) (Hbs : bytes_ok bs) (Hrest : bytes_ok rest)
        (Hlen : (1 <= length bs <= 8)%nat).
Let k := Z.of_nat (length bs).

Lemma unpack_take n : (n <= length bs)%nat -> take n (bs ++ rest) = take n bs.
Proof. intros. by rewrite take_app_le. Qed.

Lemma unpack_size tag : Z.of_nat (length (tag :: bs ++ rest)) = 1 + k + Z.of_nat (length rest).
Proof. cbn [length]. rewrite length_app. lia. Qed.

(** The low part, shared by both signs. *)
Lemma shift_in_low :
  4 < k -> shift_in (Z.to_nat (k - 4)) (drop 4 (bs ++ rest)) 0 = be_val (drop 4 bs).
Proof.
  intros Hk. rewrite drop_app_le by lia.
  rewrite shift_in_spec; [|apply Forall_app; split; [by apply Forall_drop|done]|done
                          |rewrite length_app, length_drop; lia].
  rewrite take_app_length' by (rewrite length_drop; lia).
  apply u32_id. pose proof (be_val_range (drop 4 bs) ltac:(by apply Forall_drop)) as R.
  rewrite length_drop in R. unfold is_u32.
  split; [lia|]. eapply Z.lt_le_trans; [apply R|].
  change (2 ^ 32) with (256 ^ 4). apply Z.pow_le_mono_r; lia.
Qed.

Lemma high_part_range : 4 < k -> is_u64 (be_val (take 4 bs) * 2 ^ (8 * (k - 4))).
Proof.
  intros H4. pose proof (be_val_pow2 (take 4 bs) ltac:(by apply Forall_take)) as R1.
  rewrite length_take, Nat.min_l in R1 by lia.
  split; [nia|]. change (2 ^ 64) with (2 ^ (8 * 4) * 2 ^ (8 * 4)).
  apply Z.lt_le_trans with (2 ^ (8 * 4) * 2 ^ (8 * (k - 4))); [nia|].
  apply Z.mul_le_mono_nonneg_l; [lia|]. apply Z.pow_le_mono_r; lia.
Qed.

(** Joining the halves, as both signs do when more than 4 bytes follow. *)
Lemma join_halves :
  4 < k ->
  Z.lor (u64 (Z.shiftl (be_val (take 4 bs)) (Z.shiftl (k - 4) 3))) (be_val (drop 4 bs))
  = be_val bs.
Proof.
  intros H4. pose proof (be_val_pow2 (drop 4 bs) ltac:(by apply Forall_drop)) as R2.
  rewrite length_drop in R2. rewrite (be_val_split bs) by lia.
  rewrite (Z.shiftl_mul_pow2 (k - 4) 3), Z.shiftl_mul_pow2 by lia.
  replace (8 * Z.of_nat (length bs - 4)) with (8 * (k - 4)) in R2 by lia.
  replace ((k - 4) * 2 ^ 3) with (8 * (k - 4)) by lia. fold k.
  rewrite u64_id by by apply high_part_range. apply lor_shift_add; lia.
Qed.

Lemma be_val_take4 : 4 < k -> is_u32 (be_val (take 4 bs)).
Proof.
  intros H4. pose proof (be_val_pow2 (take 4 bs) ltac:(by apply Forall_take)) as R1.
  by rewrite length_take, Nat.min_l in R1 by lia.
Qed.

Lemma be_val_small : k <= 4 -> be_val bs < 2 ^ (8 * k) <= 2 ^ 32.
Proof.
  intros H4. pose proof (be_val_pow2 bs Hbs) as R. fold k in R. split; [lia|].
  apply Z.pow_le_mono_r; lia.
Qed.

Lemma UnpackP8_spec tagp1 :
  UnpackP8 tagp1 ((tagp1 + k - 1) :: bs ++ rest)
    (Z.of_nat (length ((tagp1 + k - 1) :: bs ++ rest))) = (k + 1, be_val bs).
Proof.
  unfold UnpackP8. rewrite unpack_size. cbn [byte_at nth drop].
  rewrite drop_0. replace (tagp1 + k - 1 - (tagp1 - 1)) with k by lia.
  destruct (Z.ltb_spec (1 + k + Z.of_nat (length rest)) 1); [lia|].
  destruct (Z.ltb_spec (tagp1 + k - 1) tagp1); [lia|].
  destruct (Z.ltb_spec (tagp1 + 7) (tagp1 + k - 1)); [lia|]. cbn [orb].
  destruct (Z.ltb_spec (1 + k + Z.of_nat (length rest)) (k + 1)); [lia|].
  rewrite (shift_in_spec _ (bs ++ rest)), unpack_take; try done; try lia;
    [|by apply Forall_app|rewrite length_app; lia].
  change (be_val_acc 0 ?l) with (be_val l).
  destruct (Z.ltb_spec 4 k) as [H4|H4].
  - replace (Z.to_nat (Z.min k 4)) with 4%nat by lia.
    by rewrite shift_in_low, u32_id, join_halves by (done || by apply be_val_take4).
  - replace (Z.to_nat (Z.min k 4)) with (length bs) by lia. rewrite take_ge by done.
    pose proof (be_val_small H4). pose proof (be_val_range bs Hbs).
    by rewrite u32_id by (unfold is_u32; lia).
Qed.

(** Shifting in from all ones subtracts the weight of the lost prefix. *)
Lemma shift_in_ones l :
  u32 (be_val_acc (2 ^ 32 - 1) l) = u32 (be_val l - 2 ^ (8 * Z.of_nat (length l))).
Proof.
  rewrite be_val_acc_shift, pow256. unfold u32.
  rewrite <- (Z_mod_plus_full (_ - _) (2 ^ (8 * Z.of_nat (length l)))). f_equal. lia.
Qed.

Lemma UnpackN8_spec tagn1 :
  UnpackN8 tagn1 ((tagn1 - (k - 1)) :: bs ++ rest)
    (Z.of_nat (length ((tagn1 - (k - 1)) :: bs ++ rest)))
  = (k + 1, s64 (be_val bs - 2 ^ (8 * k))).
Proof.
  unfold UnpackN8. rewrite unpack_size. cbn [byte_at nth drop].
  rewrite drop_0. replace (tagn1 - (tagn1 - (k - 1)) + 1) with k by lia.
  destruct (Z.ltb_spec (1 + k + Z.of_nat (length rest)) 1); [lia|].
  destruct (Z.ltb_spec tagn1 (tagn1 - (k - 1))); [lia|].
  destruct (Z.ltb_spec (tagn1 - (k - 1)) (tagn1 - 7)); [lia|]. cbn [orb].
  destruct (Z.ltb_spec (1 + k + Z.of_nat (length rest)) (k + 1)); [lia|].
  rewrite (shift_in_spec _ (bs ++ rest)), unpack_take; try done; try lia;
    [|by apply Forall_app|rewrite length_app; lia].
  rewrite shift_in_ones, length_take.
  pose proof (be_val_pow2 bs Hbs) as R. fold k in R.
  destruct (Z.ltb_spec 4 k) as [H4|H4].
  - replace (Z.to_nat (Z.min k 4)) with 4%nat by lia. rewrite Nat.min_l by lia.
    rewrite shift_in_low by done.
    assert (u32 (be_val (take 4 bs) - 2 ^ (8 * Z.of_nat 4)) = be_val (take 4 bs)) as ->.
    { unfold u32. change (2 ^ (8 * Z.of_nat 4)) with (1 * 2 ^ 32).
      rewrite <- (Z_mod_plus_full _ 1), Z.sub_add. apply u32_id, be_val_take4, H4. }
    rewrite join_halves by done. f_equal.
    destruct (Z.eqb_spec k 8) as [->|H8]; cbn [negb].
    + apply s64_eq_iff. unfold u64. change (2 ^ (8 * 8)) with (1 * 2 ^ 64).
      by rewrite <- (Z_mod_plus_full (_ - _) 1), Z.sub_add.
    + rewrite (Z.shiftl_mul_pow2 k 3) by lia. replace (k * 2 ^ 3) with (8 * k) by lia.
      assert (2 ^ 64 = 2 ^ (64 - 8 * k) * 2 ^ (8 * k)) as E
        by (rewrite <- Z.pow_add_r by lia; f_equal; lia).
      assert (u64 (Z.shiftl (2 ^ 64 - 1) (8 * k))
              = (2 ^ (64 - 8 * k) - 1) * 2 ^ (8 * k)) as ->.
      { rewrite Z.shiftl_mul_pow2 by lia. unfold u64.
        replace ((2 ^ 64 - 1) * 2 ^ (8 * k))
          with ((2 ^ (64 - 8 * k) - 1) * 2 ^ (8 * k) + (2 ^ (8 * k) - 1) * 2 ^ 64) by nia.
        rewrite Z_mod_plus_full. apply Z.mod_small.
        assert (0 < 2 ^ (64 - 8 * k)) by (apply Z.pow_pos_nonneg; lia). nia. }
      rewrite lor_add_shift by lia. apply s64_eq_iff. unfold u64.
      rewrite <- (Z_mod_plus_full (be_val bs - _) 1). f_equal. lia.
  - replace (Z.to_nat (Z.min k 4)) with (length bs) by lia. rewrite take_ge by done.
    rewrite Nat.min_id. fold k. f_equal. pose proof (be_val_small H4).
    assert (u32 (be_val bs - 2 ^ (8 * k)) = be_val bs - 2 ^ (8 * k) + 2 ^ 32) as ->.
    { unfold u32. rewrite <- (Z_mod_plus_full _ 1). apply Z.mod_small. lia. }
    rewrite Z.shiftl_mul_pow2, lor_shift_add by lia. rewrite s64_id by (unfold is_s64; lia). lia.
Qed.
End Unpack.

(** ** What each encoder operation appends *)

Lemma pack_start_nbytes v : pack_start [1; 2; 3; 4; 5; 6] v = 8 - Z.of_nat (nbytes v).
Proof. unfold nbytes, pack_start. repeat case_match; simpl; lia. Qed.

Lemma PackP8_spec e tagp1 v :
  0 <= tagp1 <= 248 -> PackP8 e tagp1 v = AppendEncoding e (enc_P8 tagp1 v).
Proof.
  intros Ht. unfold PackP8, enc_P8. pose proof (nbytes_range v).
  rewrite pack_start_nbytes, pack_from_spec by (unfold is_u8; lia).
  f_equal. f_equal. lia.
Qed.

Lemma be_bytes_mod n m x : (n <= m)%nat -> be_bytes n (x mod 256 ^ Z.of_nat m) = be_bytes n x.
Proof.
  intros Hn. apply be_val_inj; auto with szl; [by rewrite !length_be_bytes|].
  rewrite !be_val_be_bytes. apply Z.mod_mod_divide.
  exists (256 ^ Z.of_nat (m - n)). rewrite <- Z.pow_add_r by lia. f_equal. lia.
Qed.

Lemma PackN8_spec e v :
  is_s64 v -> v < 0 -> PackN8 e Tag.INTN1 v = AppendEncoding e (enc_N8 v).
Proof.
  intros Hv Hn. unfold PackN8, enc_N8.
  rewrite (u64_id (- (v + 1))) by (unfold is_s64, is_u64 in *; lia).
  pose proof (nbytes_range (- (v + 1))).
  rewrite pack_start_nbytes, pack_from_spec by (unfold is_u8, Tag.INTN1; lia).
  change (u64 v) with (v mod 256 ^ Z.of_nat 8). rewrite be_bytes_mod by lia.
  f_equal. f_equal. lia.
Qed.

Lemma AppendEncoding_app e a b : AppendEncoding (AppendEncoding e a) b = AppendEncoding e (a ++ b).
Proof. unfold AppendEncoding. simpl. by rewrite app_assoc. Qed.
#[export] Hint Rewrite AppendEncoding_app : szl.

Lemma PutBytes_loop_spec q e segment :
  PutBytes_loop e segment q = AppendEncoding e (segment ++ escape q).
Proof.
  revert e segment. induction q as [|c q IH]; intros e segment; cbn [PutBytes_loop].
  - by rewrite app_nil_r.
  - unfold escape. rewrite bind_cons. fold (escape q).
    destruct (Z.eqb_spec c kBytesTerm) as [->|]; rewrite IH; unfold push_back;
      autorewrite with szl; by rewrite <- ?app_assoc.
Qed.

(** ** Keys *)

Lemma be_bytes4 x :
  be_bytes 4 x = [(x / 2 ^ 24) mod 256; (x / 2 ^ 16) mod 256; (x / 2 ^ 8) mod 256; x mod 256].
Proof. cbn [be_bytes app]. by rewrite !Z.div_div by lia. Qed.

Lemma local_bswap_32_spec x : is_u32 x -> local_bswap_32 x = be_val (rev (be_bytes 4 x)).
Proof.
  intros Hx. unfold local_bswap_32. rewrite be_bytes4.
  change 255 with (Z.shiftl (Z.ones 8) 0). change 65280 with (Z.shiftl (Z.ones 8) 8).
  change 16711680 with (Z.shiftl (Z.ones 8) 16). change 4278190080 with (Z.shiftl (Z.ones 8) 24).
  rewrite !land_field by lia. rewrite Z.div_1_r, Z.mul_1_r.
  change (2 ^ 8) with 256.
  pose proof (Z.mod_pos_bound x 256 ltac:(lia)).
  pose proof (Z.mod_pos_bound (x / 256) 256 ltac:(lia)).
  pose proof (Z.mod_pos_bound (x / 2 ^ 16) 256 ltac:(lia)).
  pose proof (Z.mod_pos_bound (x / 2 ^ 24) 256 ltac:(lia)).
  generalize dependent (x mod 256). intros a Ha.
  generalize dependent ((x / 256) mod 256). intros b Hb.
  generalize dependent ((x / 2 ^ 16) mod 256). intros c Hc.
  generalize dependent ((x / 2 ^ 24) mod 256). intros d Hd.
  rewrite !Z.shiftl_mul_pow2, !Z.shiftr_div_pow2 by lia.
  rewrite (u32_id (a * _)), (u32_id (b * _ * _)) by (unfold is_u32; lia).
  replace (c * 2 ^ 16 / 2 ^ 8) with (c * 2 ^ 8)
    by (change (2 ^ 16) with (2 ^ 8 * 2 ^ 8); by rewrite Z.mul_assoc, Z.div_mul).
  rewrite Z.div_mul by lia.
  replace (b * 256 * 2 ^ 8) with (b * 2 ^ 16) by lia.
  rewrite (lor_shift_add a) by lia.
  replace (a * 2 ^ 24 + b * 2 ^ 16) with ((a * 2 ^ 8 + b) * 2 ^ 16) by lia.
  rewrite lor_shift_add by lia.
  replace ((a * 2 ^ 8 + b) * 2 ^ 16 + c * 2 ^ 8) with ((a * 2 ^ 16 + b * 2 ^ 8 + c) * 2 ^ 8) by lia.
  rewrite lor_shift_add by lia. rewrite u32_id by (unfold is_u32; lia).
  unfold be_val. cbn. lia.
Qed.

Lemma be_bytes_split n m x :
  be_bytes (n + m) x = be_bytes n (x / 256 ^ Z.of_nat m) ++ be_bytes m x.
Proof.
  revert x. induction m as [|m IH]; intros x.
  - by rewrite Nat.add_0_r, Z.div_1_r, app_nil_r.
  - rewrite <- plus_n_Sm. cbn [be_bytes]. rewrite IH, app_assoc.
    rewrite Nat2Z.inj_succ, Z.pow_succ_r by lia. by rewrite Z.div_div by lia.
Qed.

Lemma local_bswap_64_spec x : is_u64 x -> local_bswap_64 x = be_val (rev (be_bytes 8 x)).
Proof.
  intros [Hx1 Hx2]. unfold local_bswap_64. rewrite Z.shiftr_div_pow2 by lia.
  assert (is_u32 (x / 2 ^ 32)) as Hh.
  { split; [by apply Z.div_pos|]. by apply Z.div_lt_upper_bound. }
  rewrite (u32_id (x / _)), !local_bswap_32_spec by auto with szl.
  change (u32 x) with (x mod 256 ^ Z.of_nat 4). rewrite be_bytes_mod by lia.
  change 8%nat with (4 + 4)%nat. rewrite be_bytes_split, rev_app_distr, be_val_app.
  rewrite length_rev, length_be_bytes. change (256 ^ Z.of_nat 4) with (2 ^ 32).
  set (a := rev _). set (b := rev (be_bytes 4 x)).
  assert (0 <= be_val a < 2 ^ 32) as Ra.
  { pose proof (be_val_range a) as R. unfold a in R. rewrite length_rev, length_be_bytes in R.
    apply R, Forall_rev, be_bytes_ok. }
  assert (0 <= be_val b < 2 ^ 32) as Rb.
  { pose proof (be_val_range b) as R. unfold b in R. rewrite length_rev, length_be_bytes in R.
    apply R, Forall_rev, be_bytes_ok. }
  rewrite Z.shiftl_mul_pow2 by lia. rewrite u64_id by (unfold is_u64; lia).
  by apply lor_add_shift.
Qed.

(** The key of a 64-bit number is its big-endian form, and reading it back is
    the inverse. *)
Lemma KeyFromUint64_be fp : is_u64 fp -> KeyFromUint64 fp = be_bytes 8 fp.
Proof.
  intros H. unfold KeyFromUint64, le_bytes. rewrite local_bswap_64_spec by done.
  replace 8%nat with (length (rev (be_bytes 8 fp))) at 1 by by rewrite length_rev, length_be_bytes.
  rewrite be_bytes_be_val by apply Forall_rev, be_bytes_ok. apply rev_involutive.
Qed.

Lemma KeyToUint64_be key : bytes_ok key -> length key = 8%nat -> KeyToUint64 key = be_val key.
Proof.
  intros Hk Hl. unfold KeyToUint64.
  assert (bytes_ok (rev key)) as Hr by by apply Forall_rev.
  pose proof (be_val_range _ Hr) as R. rewrite length_rev, Hl in R.
  rewrite local_bswap_64_spec by exact R.
  replace 8%nat with (length (rev key)) by by rewrite length_rev.
  by rewrite be_bytes_be_val, rev_involutive.
Qed.

(** Testing and flipping the sign bit of an [int64]. *)
Lemma land_sign n : is_s64 n -> (Z.land n (- 2 ^ 63) =? 0) = (0 <=? n).
Proof.
  intros [H1 H2]. change (- 2 ^ 63) with (Z.shiftl (-1) 63).
  destruct (Z.leb_spec 0 n) as [Hn|Hn].
  - apply Z.eqb_eq, Z.bits_inj'. intros i Hi. rewrite Z.land_spec, Z.bits_0.
    destruct (Z.ltb_spec i 63); [by rewrite Z.shiftl_spec_low, andb_false_r|].
    destruct (decide (n = 0)) as [->|]; [by rewrite Z.bits_0|].
    rewrite Z.bits_above_log2; [done|lia|].
    apply (Z.lt_le_trans _ 63); [apply Z.log2_lt_pow2; lia|lia].
  - apply Z.eqb_neq. intros E. apply (f_equal (fun z => z <? 0)) in E.
    assert (Z.land n (Z.shiftl (-1) 63) < 0); [|by apply Z.ltb_lt in H; rewrite H in E].
    by apply Z.land_neg.
Qed.

Lemma lxor_sign n :
  is_s64 n -> Z.lxor n (- 2 ^ 63) = if 0 <=? n then n - 2 ^ 63 else n + 2 ^ 63.
Proof.
  assert (forall m, is_s64 m -> 0 <= m -> Z.lxor m (- 2 ^ 63) = m - 2 ^ 63) as Hpos.
  { intros m Hm Hm0. rewrite <- Z.add_nocarry_lxor; [lia|].
    pose proof (land_sign m Hm) as E. rewrite (proj2 (Z.leb_le 0 m) Hm0) in E.
    by apply Z.eqb_eq. }
  intros Hn. destruct (Z.leb_spec 0 n); [by apply Hpos|].
  unfold is_s64 in Hn. replace n with (Z.lxor (n + 2 ^ 63) (- 2 ^ 63)) at 1
    by (rewrite Hpos; unfold is_s64; lia).
  by rewrite Z.lxor_assoc, Z.lxor_nilpotent, Z.lxor_0_r.
Qed.

(** The number a double is keyed by: sign-magnitude becomes offset binary. *)
Lemma float_key_range b : is_u64 b -> is_u64 (float_key b).
Proof. unfold is_u64, float_key. intros. destruct (Z.ltb_spec b (2 ^ 63)); lia. Qed.

Lemma s64_of_u64 b : is_u64 b -> s64 b = if b <? 2 ^ 63 then b else b - 2 ^ 64.
Proof.
  unfold is_u64. intros. destruct (Z.ltb_spec b (2 ^ 63)); [apply s64_id; unfold is_s64; lia|].
  rewrite <- s64_u64. replace (u64 b) with (u64 (b - 2 ^ 64)).
  - rewrite s64_u64. apply s64_id. unfold is_s64. lia.
  - unfold u64. rewrite <- (Z_mod_plus_full (b - _) 1). f_equal. lia.
Qed.

Lemma u64_of_s64 n : is_s64 n -> u64 n = if 0 <=? n then n else n + 2 ^ 64.
Proof.
  unfold is_s64. intros. destruct (Z.leb_spec 0 n); [apply u64_id; unfold is_u64; lia|].
  unfold u64. rewrite <- (Z_mod_plus_full n 1). apply Z.mod_small. lia.
Qed.

Lemma KeyFromDouble_be b : is_u64 b -> KeyFromDouble b = be_bytes 8 (float_key b).
Proof.
  intros Hb. unfold KeyFromDouble. rewrite KeyFromUint64_be by apply u64_range. f_equal.
  rewrite lxor_sign by apply s64_range. rewrite s64_of_u64 by done.
  unfold float_key, is_u64 in *.
  destruct (Z.ltb_spec b (2 ^ 63)).
  - destruct (Z.leb_spec 0 b); [|lia].
    rewrite u64_of_s64 by (unfold is_s64; lia). destruct (Z.leb_spec 0 (b - 2 ^ 63)); lia.
  - destruct (Z.leb_spec 0 (b - 2 ^ 64)); [lia|].
    destruct (decide (b = 2 ^ 63)) as [->|]; [done|].
    rewrite s64_id, u64_id by (unfold is_s64, is_u64; lia). lia.
Qed.

Lemma KeyToDouble_be key :
  bytes_ok key -> length key = 8%nat ->
  KeyToDouble key = let n := be_val key in if 2 ^ 63 <=? n then n - 2 ^ 63 else u64 (2 ^ 64 - n).
Proof.
  intros Hk Hl. unfold KeyToDouble. rewrite KeyToUint64_be by done.
  pose proof (be_val_range key Hk) as R. rewrite Hl in R. change (256 ^ _) with (2 ^ 64) in R.
  cbv zeta. rewrite lxor_sign, land_sign by apply s64_range.
  rewrite s64_of_u64 by done.
  generalize dependent (be_val key). intros n R.
  destruct (Z.ltb_spec n (2 ^ 63)), (Z.leb_spec (2 ^ 63) n); try lia.
  - destruct (Z.leb_spec 0 n); [simpl|lia]. rewrite u64_s64.
    unfold u64. rewrite <- (Z_mod_plus_full (- n) 1). f_equal. lia.
  - destruct (Z.leb_spec 0 (n - 2 ^ 64)); [lia|]. simpl negb. rewrite u64_id by (unfold is_u64; lia). lia.
Qed.

Lemma float_round_trip b :
  is_u64 b -> KeyToDouble (be_bytes 8 (float_key b)) = if b =? 2 ^ 63 then 0 else b.
Proof.
  intros Hb. rewrite KeyToDouble_be, be_val_be_bytes by auto with szl.
  change (_ mod _) with (u64 (float_key b)).
  rewrite u64_id by by apply float_key_range. cbv zeta. unfold float_key, is_u64 in *.
  destruct (Z.ltb_spec b (2 ^ 63)), (Z.eqb_spec b (2 ^ 63)); try lia.
  - destruct (Z.leb_spec (2 ^ 63) (b + 2 ^ 63)); lia.
  - by subst b.
  - destruct (Z.leb_spec (2 ^ 63) (2 ^ 64 - b)); [lia|]. rewrite u64_id; unfold is_u64; lia.
Qed.

(** ** What the encoder appends *)

(** Every operation appends the specified bytes and cannot abort. *)
Lemma put_prim_spec e p :
  prim_ok p -> put_prim e p = Ok (AppendEncoding e (enc_prim p)).
Proof.
  destruct p as [b|s|v|x|v|s|v]; intros H; cbn [put_prim enc_prim] in *.
  - by destruct b.
  - unfold PutBytes. rewrite PutBytes_loop_spec. unfold push_back. autorewrite with szl. done.
  - unfold PutFingerprint. by rewrite PackP8_spec.
  - unfold PutFloat. rewrite KeyFromDouble_be by done. unfold push_back.
    autorewrite with szl. done.
  - unfold PutInt. destruct (Z.leb_spec 0 v).
    + rewrite u64_of_s64, (proj2 (Z.leb_le 0 v)) by done. by rewrite PackP8_spec.
    + by rewrite PackN8_spec.
  - unfold PutString, push_back. autorewrite with szl. done.
  - unfold PutTime. by rewrite PackP8_spec.
Qed.

Lemma put_prims_spec ps e :
  Forall prim_ok ps -> put_prims e ps = Ok (AppendEncoding e (enc_prims ps)).
Proof.
  intros H. revert e. induction H as [|p ps Hp Hps IH]; intros e.
  - unfold AppendEncoding. simpl. rewrite app_nil_r. by destruct e.
  - cbn [put_prims]. rewrite put_prim_spec by done. cbn [mbind res_bind]. rewrite IH.
    unfold enc_prims. rewrite bind_cons. by autorewrite with szl.
Qed.

(** ** What the decoder reads *)

Lemma be_bytes_nbytes_val v : is_u64 v -> be_val (be_bytes (nbytes v) v) = v.
Proof.
  intros Hv. rewrite be_val_be_bytes. apply Z.mod_small.
  split; [apply Hv|by apply nbytes_bound].
Qed.

Lemma UnpackP8_enc tagp1 v rest :
  is_u64 v -> bytes_ok rest ->
  UnpackP8 tagp1 (enc_P8 tagp1 v ++ rest) (Z.of_nat (length (enc_P8 tagp1 v ++ rest)))
  = (Z.of_nat (length (enc_P8 tagp1 v)), v).
Proof.
  intros Hv Hr. pose proof (nbytes_range v).
  pose proof (UnpackP8_spec (be_bytes (nbytes v) v) rest (be_bytes_ok _ _) Hr) as Sp.
  rewrite length_be_bytes, be_bytes_nbytes_val in Sp by done.
  unfold enc_P8. cbn [app]. rewrite Sp by lia. cbn [length]. rewrite length_be_bytes.
  f_equal. lia.
Qed.

(** A tag outside the eight of its kind is refused. *)
Lemma UnpackP8_other tagp1 t rest size :
  t < tagp1 -> UnpackP8 tagp1 (t :: rest) size = (0, 0).
Proof.
  intros Ht. unfold UnpackP8. destruct (size <? 1); [done|]. cbn [byte_at nth].
  by rewrite (proj2 (Z.ltb_lt t tagp1) Ht).
Qed.

Lemma UnpackN8_enc v rest :
  is_s64 v -> v < 0 -> bytes_ok rest ->
  UnpackN8 Tag.INTN1 (enc_N8 v ++ rest) (Z.of_nat (length (enc_N8 v ++ rest)))
  = (Z.of_nat (length (enc_N8 v)), v).
Proof.
  intros Hv Hn Hr. pose proof (nbytes_range (- (v + 1))).
  assert (is_u64 (- (v + 1))) as Hw by (unfold is_u64, is_s64 in *; lia).
  pose proof (nbytes_bound _ Hw) as Hb.
  pose proof (UnpackN8_spec (be_bytes (nbytes (- (v + 1))) v) rest (be_bytes_ok _ _) Hr) as Sp.
  rewrite length_be_bytes, be_val_be_bytes, <- pow256 in Sp.
  unfold enc_N8. cbn [app length]. rewrite length_be_bytes.
  cbn [length] in Sp. rewrite Sp by lia.
  f_equal; [lia|].
  rewrite <- (Z_mod_plus_full v 1), Z.mod_small by lia. rewrite s64_id by (unfold is_s64 in *; lia).
  lia.
Qed.

Lemma escape_cons c s :
  escape (c :: s) = (if c =? kBytesTerm then [kBytesTerm; kBytesTerm] else [c]) ++ escape s.
Proof. done. Qed.

(** Both scanners of escaped strings stop at the terminator. *)
Lemma GetBytes_loop_spec s v seg rest :
  GetBytes_loop v seg (escape s ++ kBytesTerm :: 0 :: rest) = Some (v ++ seg ++ s, rest).
Proof.
  revert v seg. induction s as [|c s IH]; intros v seg.
  - simpl. by rewrite app_nil_r.
  - rewrite escape_cons. destruct (Z.eqb_spec c kBytesTerm) as [->|Hc].
    + cbn. rewrite IH. cbn. by rewrite <- !app_assoc.
    + cbn [app]. assert (exists c1 q2, escape s ++ kBytesTerm :: 0 :: rest = c1 :: q2) as (c1 & q2 & E)
        by (destruct (escape s); cbn; eauto).
      cbn [GetBytes_loop]. specialize (IH v (seg ++ [c])). rewrite E in *.
      rewrite (proj2 (Z.eqb_neq c kBytesTerm) Hc). rewrite IH. by rewrite <- !app_assoc.
Qed.

Lemma Skip_bytes_loop_spec s rest :
  Skip_bytes_loop (escape s ++ kBytesTerm :: 0 :: rest) = Some rest.
Proof.
  induction s as [|c s IH]; [done|].
  rewrite escape_cons. destruct (Z.eqb_spec c kBytesTerm) as [->|Hc]; [exact IH|].
  cbn [app]. assert (exists c1 q2, escape s ++ kBytesTerm :: 0 :: rest = c1 :: q2) as (c1 & q2 & E)
    by (destruct (escape s); cbn; eauto).
  cbn [Skip_bytes_loop]. rewrite E in *. by rewrite (proj2 (Z.eqb_neq c kBytesTerm) Hc).
Qed.

Lemma scan_nul_spec s rest :
  Forall (fun c => c <> 0) s -> scan_nul (s ++ 0 :: rest) = (s, 0 :: rest).
Proof.
  induction 1 as [|c s Hc Hs IH]; [done|]. cbn [app scan_nul].
  by rewrite (proj2 (Z.eqb_neq c 0) Hc), IH.
Qed.

Lemma advance_enc s a rest : advance (MkDec s (a ++ rest)) (Z.of_nat (length a)) = MkDec s rest.
Proof. unfold advance. cbn [start_ p_]. by rewrite Nat2Z.id, drop_app_length. Qed.

Lemma size_cons s c q : (size_ (MkDec s (c :: q)) <? 1) = false.
Proof. apply Z.ltb_ge. unfold size_. cbn [p_ length]. lia. Qed.

Lemma enc_P8_length tagp1 v : (0 <? Z.of_nat (length (enc_P8 tagp1 v))) = true.
Proof. apply Z.ltb_lt. unfold enc_P8. cbn [length]. lia. Qed.

Lemma enc_N8_length v : (0 <? Z.of_nat (length (enc_N8 v))) = true.
Proof. apply Z.ltb_lt. unfold enc_N8. cbn [length]. lia. Qed.

Lemma get_prim_spec s p rest :
  prim_ok p -> bytes_ok rest ->
  get_prim (prim_kind p) (MkDec s (enc_prim p ++ rest)) = Some (norm_prim p, MkDec s rest).
Proof.
  intros Hp Hr. destruct p as [b|t|v|x|v|t|v]; cbn [get_prim enc_prim prim_kind norm_prim prim_ok] in *.
  - cbn [app]. unfold GetBool. rewrite size_cons. by destruct b.
  - cbn [app]. unfold GetBytes. rewrite size_cons, <- app_assoc. cbn [p_ byte_at nth drop]. rewrite drop_0. cbn [app]. by rewrite GetBytes_loop_spec.
  - unfold GetFingerprint, size_. cbn [p_]. rewrite UnpackP8_enc by done.
    rewrite enc_P8_length. by rewrite advance_enc.
  - cbn [app]. unfold GetFloat. rewrite size_cons. unfold size_. cbn [p_].
    pose proof (length_be_bytes 8 (float_key x)) as Hl.
    destruct (Z.ltb_spec (Z.of_nat (length (Tag.FLOAT :: be_bytes 8 (float_key x) ++ rest))) 9) as [Hlt|_];
      [cbn [length] in Hlt; rewrite length_app in Hlt; lia|].
    cbn [byte_at nth drop]. rewrite drop_0, take_app_length' by done.
    by rewrite float_round_trip by done.
  - unfold GetInt, size_. cbn [p_]. destruct (Z.leb_spec 0 v).
    + rewrite UnpackP8_enc by (done || unfold is_s64, is_u64 in *; lia).
      rewrite enc_P8_length, advance_enc.
      by rewrite s64_id by done.
    + unfold enc_N8 at 1. cbn [app].
      pose proof (nbytes_range (- (v + 1))).
      rewrite UnpackP8_other by (unfold Tag.INTN1, Tag.INTP1; lia).
      rewrite UnpackN8_enc by done. cbn [Z.ltb].
      change (0 <? 0) with false. cbv iota.
      by rewrite enc_N8_length, advance_enc.
  - destruct Hp as [_ Hz]. cbn [app]. unfold GetString, peek. rewrite size_cons, <- app_assoc.
    cbn [p_ app done_ byte_at nth drop]. rewrite drop_0. cbn. by rewrite scan_nul_spec.
  - unfold GetTime, size_. cbn [p_]. rewrite UnpackP8_enc by done.
    rewrite enc_P8_length. by rewrite advance_enc.
Qed.

(** ** Skip and Get agree on every buffer *)

(** The tags of a basic kind, and the bytes that [Skip] counts for each. *)
Definition kind_tags (k : Kind) (t : Z) : bool :=
  match k with
  | FINGERPRINT => in_tags t Tag.FINGERPRINT1
  | TIME => in_tags t Tag.TIME1
  | INT => in_tags t Tag.INTP1 || in_tags t Tag.INTN8
  | BOOL => (t =? Tag.BOOL_FALSE) || (t =? Tag.BOOL_TRUE)
  | BYTES => t =? Tag.BYTES
  | STRING => t =? Tag.STRING
  | FLOAT => t =? Tag.FLOAT
  | _ => false
  end.
Definition kind_size (k : Kind) (t : Z) : Z :=
  match k with
  | FINGERPRINT => t - Tag.FINGERPRINT1 + 2
  | TIME => t - Tag.TIME1 + 2
  | INT => if in_tags t Tag.INTP1 then t - Tag.INTP1 + 2 else Tag.INTN1 - t + 2
  | FLOAT => 9
  | _ => 1
  end.
Definition basic_kinds : list Kind := [BOOL; BYTES; FINGERPRINT; FLOAT; INT; STRING; TIME].

(** The decoder's tables agree, checked by evaluation on the 50 tags. *)
Lemma tag_table t k :
  0 <= t < Tag.NKIND -> k ∈ basic_kinds ->
  bool_decide (k = tbl_kind t) = kind_tags k t
  /\ (kind_tags k t = true -> tbl_size t = kind_size k t).
Proof.
  intros Ht Hk. assert (Forall (fun t => Forall (fun k =>
      bool_decide (k = tbl_kind t) = kind_tags k t
      /\ (kind_tags k t = true -> tbl_size t = kind_size k t)) basic_kinds) (seqZ 0 50)) as H.
  { apply (bool_decide_unpack _). vm_compute. done. }
  rewrite Forall_forall in H. specialize (H t). rewrite Forall_forall in H.
  apply H; [|done]. apply elem_of_seqZ. unfold Tag.NKIND in Ht. lia.
Qed.

(** The tags as numbers. *)
Ltac num_tags :=
  unfold in_tags, Tag.VOID, Tag.STRING, Tag.BOOL_FALSE, Tag.BOOL_TRUE, Tag.BYTES, Tag.FINGERPRINT1,
    Tag.INTN8, Tag.INTN1, Tag.INTP1, Tag.TIME1, Tag.FLOAT, Tag.NKIND in *.

Lemma kind_tags_lt k t : kind_tags k t = true -> t < Tag.NKIND.
Proof. unfold kind_tags. num_tags. destruct k; lia. Qed.

Lemma kind_size_pos k t : kind_tags k t = true -> 1 <= kind_size k t <= 9.
Proof.
  unfold kind_tags, kind_size. num_tags. destruct k; try lia.
  destruct (_ <=? _) eqn:?, (_ <? _) eqn:?; cbn [andb]; lia.
Qed.

Lemma peek_tags s t q k :
  0 <= t -> k ∈ basic_kinds -> bool_decide (k = peek (MkDec s (t :: q))) = kind_tags k t.
Proof.
  intros Ht Hk. unfold peek. cbn [done_ p_ byte_at nth].
  destruct (Z.ltb_spec t Tag.NKIND); [by apply tag_table|].
  destruct (kind_tags k t) eqn:E; [apply kind_tags_lt in E; lia|].
  apply bool_decide_eq_false. intros ->. revert Hk. by apply (bool_decide_unpack _).
Qed.

Lemma Skip_tags s t q k :
  0 <= t -> k ∈ basic_kinds ->
  Skip (MkDec s (t :: q)) k
  = if kind_tags k t && (kind_size k t <=? size_ (MkDec s (t :: q)))
    then
      match k with
      | BYTES => q ← Skip_bytes_loop q; Some (MkDec s q)
      | STRING => match scan_nul q with (_, _ :: q) => Some (MkDec s q) | _ => None end
      | _ => Some (advance (MkDec s (t :: q)) (kind_size k t))
      end
    else None.
Proof.
  intros Ht Hk. unfold Skip. cbn [done_ p_ byte_at nth orb]. rewrite peek_tags by done.
  destruct (kind_tags k t) eqn:E; [|done]. cbn [negb andb].
  pose proof (kind_tags_lt _ _ E). pose proof (kind_size_pos _ _ E).
  destruct (tag_table t k) as [_ Hsize]; [lia|done|]. rewrite (Hsize E).
  destruct (Z.leb_spec Tag.NKIND t), (Z.eqb_spec (kind_size k t) 0), (Z.leb_spec (kind_size k t) (size_ (MkDec s (t :: q)))),
    (Z.ltb_spec (size_ (MkDec s (t :: q))) (kind_size k t)); try lia; [|done].
  cbn [orb andb]. unfold kind_tags in E. num_tags.
  destruct (Z.eqb_spec t 10) as [->|]; [destruct k; try done; cbn [drop]; by rewrite drop_0|].
  destruct (Z.eqb_spec t 6) as [->|]; [|destruct k; try done; lia].
  destruct k; try done. cbn [drop]. rewrite drop_0. by destruct (scan_nul q) as [? [|? ?]].
Qed.

Lemma UnpackP8_fst tagp1 t q size :
  1 <= size ->
  fst (UnpackP8 tagp1 (t :: q) size)
  = if in_tags t tagp1 && (t - tagp1 + 2 <=? size) then t - tagp1 + 2 else 0.
Proof.
  intros Hs. unfold UnpackP8, in_tags. cbn [byte_at nth].
  destruct (Z.ltb_spec size 1), (Z.ltb_spec t tagp1), (Z.ltb_spec (tagp1 + 7) t),
    (Z.leb_spec tagp1 t), (Z.ltb_spec t (tagp1 + 8)), (Z.leb_spec (t - tagp1 + 2) size);
    try lia; cbn [andb orb fst]; try done;
    destruct (Z.ltb_spec size (t - (tagp1 - 1) + 1)); try lia; [|done].
  destruct (4 <? _); cbn [fst]; lia.
Qed.

Lemma UnpackN8_fst tagn1 t q size :
  1 <= size ->
  fst (UnpackN8 tagn1 (t :: q) size)
  = if in_tags t (tagn1 - 7) && (tagn1 - t + 2 <=? size) then tagn1 - t + 2 else 0.
Proof.
  intros Hs. unfold UnpackN8, in_tags. cbn [byte_at nth].
  destruct (Z.ltb_spec size 1), (Z.ltb_spec tagn1 t), (Z.ltb_spec t (tagn1 - 7)),
    (Z.leb_spec (tagn1 - 7) t), (Z.ltb_spec t (tagn1 - 7 + 8)), (Z.leb_spec (tagn1 - t + 2) size);
    try lia; cbn [andb orb fst]; try done;
    destruct (Z.ltb_spec size (tagn1 - t + 1 + 1)); try lia; [|done].
  destruct (4 <? _); cbn [fst]; lia.
Qed.

(** The loops over escaped strings read and skip the same bytes. *)
Lemma GetBytes_Skip_loop v seg q : snd <$> GetBytes_loop v seg q = Skip_bytes_loop q.
Proof.
  revert v seg.
  assert (forall n q v seg, (length q <= n)%nat ->
            snd <$> GetBytes_loop v seg q = Skip_bytes_loop q) as H; [|by eauto].
  clear q. induction n as [|n IH]; intros [|c [|c1 q2]] v seg Hl; try done; cbn [length] in Hl; [lia|].
  cbn [GetBytes_loop Skip_bytes_loop]. destruct (c =? kBytesTerm).
  - destruct (c1 =? 0); [done|]. destruct (negb _); [done|]. apply IH. lia.
  - apply (IH (c1 :: q2)). cbn [length]. lia.
Qed.

(** Closing a goal whose boolean tests lia decides. *)
Ltac by_tests :=
  repeat match goal with
  | |- context [if ?b then _ else _] =>
      lazymatch b with context [if _ then _ else _] => fail | _ => destruct b eqn:? end
  end; try done; exfalso; num_tags; lia.

Lemma get_nil s k : k ∈ basic_kinds -> get_prim k (MkDec s []) = None.
Proof. intros H. revert k H. apply Forall_forall. by repeat constructor. Qed.

Lemma Get_P8_tags T s t q (old : option (Z * SzlDecoder)) k :
  0 <= t -> (forall u, kind_tags k u = in_tags u T) ->
  (size_ (MkDec s (t :: q)) < 9 \/ kind_tags k t = false -> old = None) ->
  snd <$> (let '(n, v) := UnpackP8 T (t :: q) (size_ (MkDec s (t :: q))) in
           if 0 <? n then Some (v, advance (MkDec s (t :: q)) n) else old)
  = if kind_tags k t && (t - T + 2 <=? size_ (MkDec s (t :: q)))
    then Some (advance (MkDec s (t :: q)) (t - T + 2)) else None.
Proof.
  intros Ht Hk Hold. pose proof (size_cons s t q) as Hsz.
  pose proof (UnpackP8_fst T t q (size_ (MkDec s (t :: q))) ltac:(lia)) as Hf.
  destruct (UnpackP8 _ _ _) as [n v]. cbn [fst] in Hf. rewrite <- Hk in Hf. rewrite Hf.
  destruct (kind_tags k t) eqn:E; cbn [andb] in *; [|by rewrite Hold by auto].
  rewrite Hk in E. unfold in_tags in E.
  destruct (Z.leb_spec (t - T + 2) (size_ (MkDec s (t :: q)))).
  - destruct (Z.ltb_spec 0 (t - T + 2)); [done|lia].
  - rewrite Hold by lia. done.
Qed.

(** The fallback for other encodings asks for at least 9 bytes and a tag of the
    kind, which the first branch has taken. *)
Lemma old_dead {A} s t q k n (X : option A) :
  0 <= t -> k ∈ basic_kinds ->
  (9 <= n /\ size_ (MkDec s (t :: q)) < 9) \/ kind_tags k t = false ->
  (if (size_ (MkDec s (t :: q)) <? n) || negb (bool_decide (peek (MkDec s (t :: q)) = k))
   then None else X) = None.
Proof.
  intros Ht Hk [[Hn H]|H].
  - destruct (Z.ltb_spec (size_ (MkDec s (t :: q))) n); [done|lia].
  - rewrite <- (peek_tags s t q) in H by done. apply bool_decide_eq_false in H.
    rewrite bool_decide_eq_false_2 by congruence. by rewrite orb_true_r.
Qed.

Lemma basic_INT_size s t q :
  0 <= t ->
  snd <$> GetInt (MkDec s (t :: q))
  = if kind_tags INT t && (kind_size INT t <=? size_ (MkDec s (t :: q)))
    then Some (advance (MkDec s (t :: q)) (kind_size INT t)) else None.
Proof.
  intros Ht. unfold GetInt. cbn [p_]. pose proof (size_cons s t q) as Hsz.
  pose proof (UnpackP8_fst Tag.INTP1 t q (size_ (MkDec s (t :: q))) ltac:(lia)) as Hf.
  pose proof (UnpackN8_fst Tag.INTN1 t q (size_ (MkDec s (t :: q))) ltac:(lia)) as Hg.
  destruct (UnpackP8 _ _ _) as [n v], (UnpackN8 _ _ _) as [m w]. cbn [fst] in Hf, Hg.
  change (Tag.INTN1 - 7) with Tag.INTN8 in Hg. unfold kind_tags, kind_size.
  assert (INT ∈ basic_kinds) as HI by (by apply (bool_decide_unpack _)).
  pose proof (fun H9 => old_dead s t q INT 9
    (Some (s64 (u64 (unpackUint64 (drop 1 (t :: q)) - 2 ^ 63)), advance (MkDec s (t :: q)) 9)) Ht HI H9) as Hold.
  unfold kind_tags in Hold. subst n m. destruct (in_tags t Tag.INTP1) eqn:E1; cbn [andb orb] in *.
  - replace (in_tags t Tag.INTN8) with false by (num_tags; lia). cbn [andb].
    destruct (Z.leb_spec (t - Tag.INTP1 + 2) (size_ (MkDec s (t :: q)))).
    + destruct (Z.ltb_spec 0 (t - Tag.INTP1 + 2)); [done|num_tags; lia].
    + rewrite Hold; [done|left; num_tags; lia].
  - destruct (in_tags t Tag.INTN8) eqn:E2; cbn [andb].
    + destruct (Z.leb_spec (Tag.INTN1 - t + 2) (size_ (MkDec s (t :: q)))).
      * destruct (Z.ltb_spec 0 (Tag.INTN1 - t + 2)); [done|num_tags; lia].
      * rewrite Hold; [done|left; num_tags; lia].
    + rewrite Hold; [done|by right].
Qed.

Lemma basic_kind_in k : bool_decide (k ∈ basic_kinds) = true -> k ∈ basic_kinds.
Proof. apply bool_decide_eq_true. Qed.

Lemma not_basic k : bool_decide (k ∈ basic_kinds) = false -> k ∈ basic_kinds -> False.
Proof. by intros ?%bool_decide_eq_false. Qed.

Lemma Get_scan_nul q (s : bytes) :
  snd <$> match scan_nul q with
          | (_, []) => None
          | (v, _ :: q) => Some (v, MkDec s q)
          end
  = match scan_nul q with (_, _ :: q) => Some (MkDec s q) | _ => None end.
Proof. by destruct (scan_nul q) as [v [|c r]]. Qed.

Lemma fmap_bind_pair {A B} (f : A -> B) (o : option (A * SzlDecoder)) :
  snd <$> ('(v, d) ← o; Some (f v, d)) = snd <$> o.
Proof. by destruct o as [[v d]|]. Qed.

(** Skip and Get consume the same bytes, and fail on the same buffers. *)
Lemma Skip_agrees s q k :
  bytes_ok q -> k ∈ basic_kinds -> Skip (MkDec s q) k = snd <$> get_prim k (MkDec s q).
Proof.
  intros Hq Hk. destruct q as [|t q]; [by rewrite get_nil|].
  inversion_clear Hq as [|? ? Ht Hq']. unfold is_u8 in Ht. rewrite Skip_tags by (done || lia).
  pose proof (size_cons s t q) as Hsz.
  pose proof (fun A n X H9 => @old_dead A s t q k n X (proj1 Ht) Hk H9) as Hold.
  assert (forall k', k = k' -> kind_tags k' t = false -> forall A n (X : option A),
    (if (size_ (MkDec s (t :: q)) <? n) || negb (bool_decide (peek (MkDec s (t :: q)) = k'))
     then None else X) = None) as Hother by (intros ? <-; auto).
  destruct k; try (by apply not_basic in Hk); cbn [get_prim];
    rewrite fmap_bind_pair; specialize (Hother _ eq_refl); cbn [kind_tags kind_size] in *.
  - unfold GetBool. rewrite Hsz. cbn [p_ byte_at nth].
    destruct ((t =? Tag.BOOL_FALSE) || _); [|by rewrite Hother].
    cbn [andb]. destruct (Z.leb_spec 1 (size_ (MkDec s (t :: q)))); [done|lia].
  - unfold GetBytes. rewrite Hsz. cbn [p_ byte_at nth drop]. rewrite drop_0.
    destruct (t =? Tag.BYTES); [|by rewrite Hother].
    cbn [andb]. destruct (Z.leb_spec 1 (size_ (MkDec s (t :: q)))); [|lia].
    rewrite <- (GetBytes_Skip_loop [] [] q). by destruct (GetBytes_loop [] [] q) as [[v r]|].
  - symmetry. apply (Get_P8_tags _ s t q _ FINGERPRINT); [lia|done|].
    intros [?|?]; apply Hold; [left; lia|by right].
  - unfold GetFloat. rewrite Hsz. cbn [p_ byte_at nth drop].
    destruct (t =? Tag.FLOAT); [|by rewrite Hother].
    cbn [andb]. destruct (Z.leb_spec 9 (size_ (MkDec s (t :: q)))),
      (Z.ltb_spec (size_ (MkDec s (t :: q))) 9); try lia; done.
  - rewrite basic_INT_size by lia. done.
  - unfold GetString. rewrite Hsz. destruct (t =? Tag.STRING) eqn:E.
    + cbn [andb]. destruct (Z.leb_spec 1 (size_ (MkDec s (t :: q)))); [|lia].
      pose proof (peek_tags s t q STRING (proj1 Ht) Hk) as Hp. cbn [kind_tags] in Hp.
      rewrite E in Hp. apply bool_decide_eq_true in Hp. rewrite <- Hp.
      cbn [bool_decide negb orb p_ drop]. rewrite drop_0. by rewrite <- Get_scan_nul.
    + pose proof (Hother eq_refl _ 1 (Some (q, MkDec s q))) as Ho. rewrite Hsz in Ho. cbn [orb andb] in *.
      by destruct (negb _).
  - symmetry. apply (Get_P8_tags _ s t q _ TIME); [lia|done|].
    intros [?|?]; apply Hold; [left; lia|by right].
Qed.

(** ** Round trips *)

Lemma get_prims_spec s ps rest :
  Forall prim_ok ps -> bytes_ok rest -> bytes_ok (enc_prims ps) ->
  get_prims (map prim_kind ps) (MkDec s (enc_prims ps ++ rest))
  = Some (map norm_prim ps, MkDec s rest).
Proof.
  intros Hps Hr. induction Hps as [|p ps Hp Hps IH]; [done|].
  unfold enc_prims. rewrite bind_cons. fold (enc_prims ps). intros [H1 H2]%Forall_app.
  cbn [map get_prims]. rewrite <- app_assoc, get_prim_spec; [|done|by apply Forall_app].
  cbn [mbind option_bind]. by rewrite IH.
Qed.

Lemma escape_ok s : bytes_ok s -> bytes_ok (escape s).
Proof.
  induction 1 as [|c s Hc Hs IH]; [apply Forall_nil_2|]. rewrite escape_cons.
  apply Forall_app. split; [|done].
  destruct (c =? kBytesTerm); [by repeat constructor|by apply Forall_singleton].
Qed.

Lemma enc_P8_ok tagp1 v : 0 <= tagp1 <= 248 -> bytes_ok (enc_P8 tagp1 v).
Proof.
  intros H. pose proof (nbytes_range v). constructor; [unfold is_u8; lia|apply be_bytes_ok].
Qed.

Lemma enc_prim_ok p : prim_ok p -> bytes_ok (enc_prim p).
Proof.
  destruct p as [b|t|v|x|v|t|v]; cbn [prim_ok enc_prim]; intros Hp.
  - by destruct b; repeat constructor.
  - constructor; [done|]. apply Forall_app. split; [by apply escape_ok|by repeat constructor].
  - by apply enc_P8_ok.
  - constructor; [done|apply be_bytes_ok].
  - destruct (0 <=? v); [by apply enc_P8_ok|]. pose proof (nbytes_range (- (v + 1))).
    constructor; [unfold is_u8, Tag.INTN1; lia|apply be_bytes_ok].
  - constructor; [done|]. apply Forall_app. split; [apply Hp|by repeat constructor].
  - by apply enc_P8_ok.
Qed.

Lemma enc_prims_ok ps : Forall prim_ok ps -> bytes_ok (enc_prims ps).
Proof.
  induction 1 as [|p ps Hp Hps IH]; [constructor|]. unfold enc_prims. rewrite bind_cons.
  apply Forall_app. split; [by apply enc_prim_ok|done].
Qed.

(** On every buffer, well-formed or not, [Skip] of a basic kind succeeds
    exactly when the [Get] of that kind does, and leaves the same position. *)
Theorem Skip_agrees_with_Get s q k :
  bytes_ok q -> k ∈ basic_kinds -> Skip (MkDec s q) k = snd <$> get_prim k (MkDec s q).
Proof. apply Skip_agrees. Qed.

Lemma Skip_agrees_with_Get_witness :
  Skip (MkDec [] [28; 7; 1; 9]) INT = Some (MkDec [] [9]).
Proof.
  rewrite Skip_agrees_with_Get; [reflexivity| |]; apply (bool_decide_unpack _); vm_compute; exact I.
Defined.

(** C28. Whatever sequence of values is put into a fresh encoder, the decoder
    reads back the same sequence (a float -0 as +0) and stops right behind it,
    whatever follows; the encoder never aborts. *)
Theorem encode_decode_round_trip ps rest :
  Forall prim_ok ps -> bytes_ok rest ->
  exists e, put_prims enc_new ps = Ok e
  /\ get_prims (map prim_kind ps) (dec_Init (data_ e ++ rest))
     = Some (map norm_prim ps, MkDec (data_ e ++ rest) rest).
Proof.
  intros Hps Hr. eexists. split; [by apply put_prims_spec|]. cbn [AppendEncoding data_ enc_new].
  apply get_prims_spec; auto using enc_prims_ok.
Qed.

Lemma Skip_enc s p rest :
  prim_ok p -> bytes_ok rest ->
  Skip (MkDec s (enc_prim p ++ rest)) (prim_kind p) = Some (MkDec s rest).
Proof.
  intros Hp Hr. rewrite Skip_agrees; [by rewrite get_prim_spec| |].
  - apply Forall_app. split; [by apply enc_prim_ok|done].
  - apply basic_kind_in. by destruct p.
Qed.

(** [Skip] of a value's kind passes over exactly its encoding. *)
Theorem Skip_encoded s p rest :
  prim_ok p -> bytes_ok rest ->
  Skip (MkDec s (enc_prim p ++ rest)) (prim_kind p) = Some (MkDec s rest).
Proof. apply Skip_enc. Qed.

Lemma encode_decode_round_trip_witness :
  exists e, put_prims enc_new [PInt (-5); PBytes [66; 1]; PFloat (2 ^ 63); PString [97]] = Ok e
  /\ get_prims [INT; BYTES; FLOAT; STRING] (dec_Init (data_ e ++ [7]))
     = Some ([PInt (-5); PBytes [66; 1]; PFloat 0; PString [97]], MkDec (data_ e ++ [7]) [7]).
Proof.
  apply (encode_decode_round_trip [PInt (-5); PBytes [66; 1]; PFloat (2 ^ 63); PString [97]] [7]).
  - repeat constructor; done.
  - by repeat constructor.
Defined.

Lemma Skip_encoded_witness :
  Skip (MkDec [] (enc_prim (PBytes [66; 1]) ++ [7; 8])) BYTES = Some (MkDec [] [7; 8]).
Proof. apply (Skip_encoded [] (PBytes [66; 1]) [7; 8]); by repeat constructor. Defined.

(** ** Byte order is value order *)

Lemma cmp_then_assoc a b c : cmp_then (cmp_then a b) c = cmp_then a (cmp_then b c).
Proof. by destruct a. Qed.

Lemma enc_P8_cmp T v w x y :
  is_u64 v -> is_u64 w ->
  str_cmp (enc_P8 T v ++ x) (enc_P8 T w ++ y) = cmp_then (v ?= w) (str_cmp x y).
Proof.
  intros Hv Hw. unfold enc_P8. cbn [app str_cmp].
  destruct (Z.compare_spec (T + Z.of_nat (nbytes v) - 1) (T + Z.of_nat (nbytes w) - 1)) as [E|E|E].
  - assert (nbytes v = nbytes w) as En by lia.
    rewrite str_cmp_app by (rewrite !length_be_bytes; lia).
    rewrite str_cmp_be_val by (auto using be_bytes_ok || by rewrite !length_be_bytes).
    by rewrite !be_bytes_nbytes_val by done.
  - destruct (Z.compare_spec v w) as [->|H|H]; [lia|done|].
    pose proof (nbytes_mono w v). lia.
  - destruct (Z.compare_spec v w) as [->|H|H]; [lia| |done].
    pose proof (nbytes_mono v w). lia.
Qed.

Lemma be_val_neg n v : - 256 ^ Z.of_nat n <= v < 0 -> be_val (be_bytes n v) = v + 256 ^ Z.of_nat n.
Proof.
  intros H. rewrite be_val_be_bytes, <- (Z_mod_plus_full v 1). rewrite Z.mod_small; lia.
Qed.

Lemma neg_bound v : is_s64 v -> v < 0 -> - 256 ^ Z.of_nat (nbytes (- (v + 1))) <= v < 0.
Proof.
  intros Hv Hn. pose proof (nbytes_bound (- (v + 1))) as B. unfold is_s64, is_u64 in *.
  specialize (B ltac:(lia)). lia.
Qed.

Lemma enc_N8_cmp v w x y :
  is_s64 v -> is_s64 w -> v < 0 -> w < 0 ->
  str_cmp (enc_N8 v ++ x) (enc_N8 w ++ y) = cmp_then (v ?= w) (str_cmp x y).
Proof.
  intros Hv Hw Hv0 Hw0. unfold enc_N8. cbn [app str_cmp].
  pose proof (neg_bound v Hv Hv0) as Bv. pose proof (neg_bound w Hw Hw0) as Bw.
  destruct (Z.compare_spec (Tag.INTN1 - (Z.of_nat (nbytes (- (v + 1))) - 1))
                           (Tag.INTN1 - (Z.of_nat (nbytes (- (w + 1))) - 1))) as [E|E|E].
  - assert (nbytes (- (v + 1)) = nbytes (- (w + 1))) as En by lia. rewrite En in *.
    rewrite str_cmp_app by (rewrite !length_be_bytes; lia).
    rewrite str_cmp_be_val by (auto using be_bytes_ok || by rewrite !length_be_bytes).
    rewrite !be_val_neg by done. f_equal.
    destruct (Z.compare_spec v w); first [apply Z.compare_eq_iff | apply Z.compare_lt_iff
      | apply Z.compare_gt_iff]; lia.
  - destruct (Z.compare_spec v w) as [->|H|H]; [lia|done|].
    pose proof (nbytes_mono (- (v + 1)) (- (w + 1))). lia.
  - destruct (Z.compare_spec v w) as [->|H|H]; [lia| |done].
    pose proof (nbytes_mono (- (w + 1)) (- (v + 1))). lia.
Qed.

Lemma escape_cmp s t x y :
  str_cmp (escape s ++ [kBytesTerm; 0] ++ x) (escape t ++ [kBytesTerm; 0] ++ y)
  = cmp_then (escaped_cmp s t) (str_cmp x y).
Proof.
  revert t. induction s as [|u s IH]; intros [|v t]; [done| | |].
  - rewrite escape_cons. unfold kBytesTerm in *.
    destruct (Z.eqb_spec v 66) as [->|]; [done|]. cbn [escape app mbind list_bind str_cmp escaped_cmp].
    unfold kBytesTerm. destruct (Z.compare_spec 66 v), (Z.ltb_spec v 66); try lia; done.
  - rewrite escape_cons. unfold kBytesTerm in *.
    destruct (Z.eqb_spec u 66) as [->|]; [done|]. cbn [escape app mbind list_bind str_cmp escaped_cmp].
    unfold kBytesTerm. destruct (Z.compare_spec u 66), (Z.ltb_spec u 66); try lia; done.
  - rewrite !escape_cons. cbn [escaped_cmp]. rewrite cmp_then_assoc, <- IH.
    destruct (Z.eqb_spec u kBytesTerm) as [->|Hu], (Z.eqb_spec v kBytesTerm) as [->|Hv];
      cbn [app str_cmp]; [done| | |]; destruct (Z.compare_spec u v) || destruct (Z.compare_spec kBytesTerm v) || destruct (Z.compare_spec u kBytesTerm); by subst.
Qed.

Lemma string_nul_cmp s t x y :
  bytes_ok s -> bytes_ok t -> Forall (fun c => c <> 0) s -> Forall (fun c => c <> 0) t ->
  str_cmp (s ++ 0 :: x) (t ++ 0 :: y) = cmp_then (str_cmp s t) (str_cmp x y).
Proof.
  intros Hs. revert t. induction Hs as [|u s Hu Hs IH]; intros [|v t] Ht Hs0 Ht0; [done| | |].
  - inversion_clear Ht as [|? ? Hv _]. inversion_clear Ht0. cbn [app str_cmp].
    unfold is_u8 in *. destruct (Z.compare_spec 0 v); [lia|done|lia].
  - inversion_clear Hs0. cbn [app str_cmp].
    unfold is_u8 in *. destruct (Z.compare_spec u 0); [lia|lia|done].
  - inversion_clear Ht. inversion_clear Ht0. inversion_clear Hs0. cbn [app str_cmp].
    destruct (u ?= v); [by apply IH|done|done].
Qed.

Lemma float_key_cmp a b x y :
  is_u64 a -> is_u64 b ->
  str_cmp (be_bytes 8 (float_key a) ++ x) (be_bytes 8 (float_key b) ++ y)
  = cmp_then (float_key a ?= float_key b) (str_cmp x y).
Proof.
  intros Ha%float_key_range Hb%float_key_range. rewrite str_cmp_app by by rewrite !length_be_bytes.
  rewrite str_cmp_be_val by (auto using be_bytes_ok || by rewrite !length_be_bytes).
  rewrite !be_val_be_bytes. change (256 ^ Z.of_nat 8) with (2 ^ 64).
  by rewrite !Z.mod_small by done.
Qed.

Lemma int_cmp v w x y :
  is_s64 v -> is_s64 w ->
  str_cmp (enc_prim (PInt v) ++ x) (enc_prim (PInt w) ++ y) = cmp_then (v ?= w) (str_cmp x y).
Proof.
  intros Hv Hw. cbn [enc_prim]. pose proof (nbytes_range (- (v + 1))). pose proof (nbytes_range (- (w + 1))).
  pose proof (nbytes_range v). pose proof (nbytes_range w).
  destruct (Z.leb_spec 0 v), (Z.leb_spec 0 w).
  - apply enc_P8_cmp; unfold is_s64, is_u64 in *; lia.
  - unfold enc_P8, enc_N8. cbn [app str_cmp]. rewrite (proj2 (Z.compare_gt_iff v w)) by lia.
    by rewrite (proj2 (Z.compare_gt_iff _ _)) by (num_tags; lia).
  - unfold enc_P8, enc_N8. cbn [app str_cmp]. rewrite (proj2 (Z.compare_lt_iff v w)) by lia.
    by rewrite (proj2 (Z.compare_lt_iff _ _)) by (num_tags; lia).
  - by apply enc_N8_cmp.
Qed.

Lemma prim_cmp_spec p q x y :
  prim_ok p -> prim_ok q -> prim_kind p = prim_kind q ->
  str_cmp (enc_prim p ++ x) (enc_prim q ++ y) = cmp_then (prim_cmp p q) (str_cmp x y).
Proof.
  destruct p, q; cbn [prim_kind prim_ok prim_cmp]; intros Hp Hq E; try discriminate E.
  - by destruct b, b0.
  - cbn [enc_prim app str_cmp]. rewrite Z.compare_refl, <- !app_assoc. apply escape_cmp.
  - by apply enc_P8_cmp.
  - cbn [enc_prim app str_cmp]. rewrite Z.compare_refl. by apply float_key_cmp.
  - by apply int_cmp.
  - cbn [enc_prim app str_cmp]. rewrite Z.compare_refl, <- !app_assoc. cbn [app].
    destruct Hp, Hq. by apply string_nul_cmp.
  - by apply enc_P8_cmp.
Qed.

Lemma prims_cmp_spec ps qs x y :
  Forall prim_ok ps -> Forall prim_ok qs -> map prim_kind ps = map prim_kind qs ->
  str_cmp (enc_prims ps ++ x) (enc_prims qs ++ y) = cmp_then (prims_cmp ps qs) (str_cmp x y).
Proof.
  intros Hps. revert qs. induction Hps as [|p ps Hp Hps IH]; intros [|q qs] Hqs E; try done.
  injection E as E1 E2. inversion_clear Hqs. unfold enc_prims. rewrite !bind_cons.
  fold (enc_prims ps) (enc_prims qs). cbn [prims_cmp].
  rewrite <- !app_assoc, prim_cmp_spec, cmp_then_assoc by done. by rewrite IH.
Qed.



(** *** Doubles *)

(** A bit pattern is its sign, exponent and mantissa fields. *)
Lemma bits_fields b :
  is_u64 b ->
  exists s e m, 0 <= e < 2 ^ 11 /\ 0 <= m < 2 ^ 52 /\ b = Z.b2z s * 2 ^ 63 + e * 2 ^ 52 + m
  /\ (2 ^ 63 <=? b) = s /\ (b / 2 ^ 52) mod 2 ^ 11 = e /\ b mod 2 ^ 52 = m.
Proof.
  intros Hb. exists (2 ^ 63 <=? b), ((b / 2 ^ 52) mod 2 ^ 11), (b mod 2 ^ 52).
  pose proof (Z.mod_pos_bound (b / 2 ^ 52) (2 ^ 11) ltac:(lia)).
  pose proof (Z.mod_pos_bound b (2 ^ 52) ltac:(lia)).
  pose proof (Z.div_mod b (2 ^ 52) ltac:(lia)) as D1.
  pose proof (Z.div_mod (b / 2 ^ 52) (2 ^ 11) ltac:(lia)) as D2.
  unfold is_u64 in Hb. repeat split; try lia.
Qed.

Lemma to_pos_compare m n : 0 < m -> 0 < n -> Pos.compare (Z.to_pos m) (Z.to_pos n) = (m ?= n).
Proof. intros. rewrite <- (Z2Pos.id m), <- (Z2Pos.id n) at 2 by done. done. Qed.

Ltac solve_cmp_by c :=
  lazymatch c with
  | Eq => apply Z.compare_eq_iff; lia
  | Lt => apply Z.compare_lt_iff; lia
  | Gt => apply Z.compare_gt_iff; lia
  end.
(** Decides [(a ?= b) = c] for [c] made of comparisons. *)
Ltac solve_cmp :=
  lazymatch goal with
  | |- _ = ?c =>
      lazymatch c with
      | context [?x ?= ?y] => destruct (Z.compare_spec x y); cbn [CompOpp]; solve_cmp
      | _ => solve_cmp_by c
      end
  end.

(** The specification float as the comparison of its exponent and mantissa. *)
Lemma float_key_SFcompare a b :
  is_u64 a -> is_u64 b -> is_nan a = false -> is_nan b = false ->
  SFcompare (sf_of_bits a) (sf_of_bits b) = Some (float_key a ?= float_key b).
Proof.
  intros Ha Hb. destruct (bits_fields a Ha) as (s1 & e1 & m1 & He1 & Hm1 & Ea & S1 & X1 & M1).
  destruct (bits_fields b Hb) as (s2 & e2 & m2 & He2 & Hm2 & Eb & S2 & X2 & M2).
  unfold is_nan, sf_of_bits. rewrite S1, X1, M1, S2, X2, M2. unfold float_key.
  rewrite (Z.ltb_antisym (2 ^ 63) a), (Z.ltb_antisym (2 ^ 63) b), S1, S2.
  clear S1 S2 X1 X2 M1 M2. subst a b. clear Ha Hb.
  destruct s1, s2; cbn [negb Z.b2z];
  destruct (Z.eqb_spec e1 0), (Z.eqb_spec m1 0), (Z.eqb_spec e1 2047);
  destruct (Z.eqb_spec e2 0), (Z.eqb_spec m2 0), (Z.eqb_spec e2 2047);
  try done; intros _ _; cbn [SFcompare]; try (exfalso; lia).
  all: change (Pos.compare_cont Eq ?x ?y) with (Pos.compare x y);
    try rewrite to_pos_compare by lia; f_equal; symmetry; solve_cmp.
Qed.

(** Encoded doubles sort as IEEE 754 compares them: for any two patterns
    that are not NaN the byte order is the result of the comparison, and equal
    doubles (the two zeros included) leave the decision to what follows. *)
Theorem float_encoding_order a b x y :
  is_u64 a -> is_u64 b -> is_nan a = false -> is_nan b = false ->
  exists e f c, PutFloat enc_new a = Ok e /\ PutFloat enc_new b = Ok f
  /\ SFcompare (sf_of_bits a) (sf_of_bits b) = Some c
  /\ str_cmp (data_ e ++ x) (data_ f ++ y) = cmp_then c (str_cmp x y).
Proof.
  intros Ha Hb Na Nb.
  exists (AppendEncoding enc_new (enc_prim (PFloat a))), (AppendEncoding enc_new (enc_prim (PFloat b))).
  exists (float_key a ?= float_key b).
  split; [by apply (put_prim_spec enc_new (PFloat a))|].
  split; [by apply (put_prim_spec enc_new (PFloat b))|].
  split; [by apply float_key_SFcompare|]. by apply (prim_cmp_spec (PFloat a) (PFloat b)).
Qed.

(** [-1.5] and [-0.5]. *)
Lemma float_encoding_order_witness :
  exists e f c, PutFloat enc_new 13832806255468478464 = Ok e
  /\ PutFloat enc_new 13826050856027422720 = Ok f
  /\ SFcompare (sf_of_bits 13832806255468478464) (sf_of_bits 13826050856027422720) = Some c
  /\ str_cmp (data_ e ++ [2]) (data_ f ++ [1]) = cmp_then c (str_cmp [2] [1]).
Proof.
  apply float_encoding_order; [by apply (bool_decide_unpack _)|by apply (bool_decide_unpack _)
    |reflexivity|reflexivity].
Defined.

Lemma escaped_cmp_prefix s c t : c < kBytesTerm -> escaped_cmp (s ++ c :: t) s = Lt.
Proof.
  intros Hc. induction s as [|u s IH]; cbn [app escaped_cmp].
  - by rewrite (proj2 (Z.ltb_lt _ _) Hc).
  - by rewrite Z.compare_refl, IH.
Qed.

(** A byte string sorts before each of its extensions, but its encoding sorts
    after theirs when the next byte is below the terminator 0x42, whatever
    follows: byte order on encoded BYTES is not the order of the strings. *)
Theorem bytes_encoding_order_diverges s c t x y :
  c < kBytesTerm ->
  str_cmp s (s ++ c :: t) = Lt
  /\ str_cmp (data_ (PutBytes enc_new s) ++ x) (data_ (PutBytes enc_new (s ++ c :: t)) ++ y) = Gt.
Proof.
  intros Hc. split.
  - rewrite <- (app_nil_r s) at 1. by rewrite str_cmp_app_l.
  - unfold PutBytes, push_back. rewrite !PutBytes_loop_spec. autorewrite with szl.
    unfold AppendEncoding. cbn [data_].
    change (data_ enc_new) with (@nil Z). cbn [app str_cmp].
    rewrite Z.compare_refl, <- !app_assoc, escape_cmp.
    pose proof (escaped_cmp_prefix s c t Hc) as E.
    assert (escaped_cmp s (s ++ c :: t) = Gt) as ->; [|done].
    clear E. induction s as [|u s IH]; cbn [app escaped_cmp].
    + by rewrite (proj2 (Z.ltb_lt _ _) Hc).
    + by rewrite Z.compare_refl, IH.
Qed.

Lemma bytes_encoding_order_diverges_witness :
  str_cmp [] [1] = Lt
  /\ str_cmp (data_ (PutBytes enc_new []) ++ []) (data_ (PutBytes enc_new ([] ++ [1])) ++ []) = Gt.
Proof. apply (bytes_encoding_order_diverges [] 1 [] [] []). reflexivity. Defined.

(** The 8-byte key of a 64-bit number reads back, and keys sort as the
    numbers do. *)
Theorem key_uint64_round_trip_order a b :
  is_u64 a -> is_u64 b ->
  KeyToUint64 (KeyFromUint64 a) = a /\ length (KeyFromUint64 a) = 8%nat
  /\ str_cmp (KeyFromUint64 a) (KeyFromUint64 b) = (a ?= b).
Proof.
  intros Ha Hb. rewrite !KeyFromUint64_be by done.
  rewrite KeyToUint64_be by auto using be_bytes_ok, length_be_bytes.
  rewrite str_cmp_be_val by (auto using be_bytes_ok || by rewrite !length_be_bytes).
  rewrite !be_val_be_bytes. change (256 ^ Z.of_nat 8) with (2 ^ 64).
  by rewrite !Z.mod_small, length_be_bytes by done.
Qed.

Lemma key_uint64_round_trip_order_witness :
  KeyToUint64 (KeyFromUint64 258) = 258 /\ length (KeyFromUint64 258) = 8%nat
  /\ str_cmp (KeyFromUint64 258) (KeyFromUint64 (2 ^ 63)) = (258 ?= 2 ^ 63).
Proof. apply key_uint64_round_trip_order; by apply (bool_decide_unpack _). Defined.

(** *** Prefix keys *)

Lemma c_str_id s : Forall (fun c => c <> 0) s -> c_str s = s.
Proof.
  induction 1 as [|c s Hc Hs IH]; [done|]. cbn [c_str].
  by rewrite (proj2 (Z.eqb_neq c 0) Hc), IH.
Qed.

Lemma prefix_snoc_nul key s :
  Forall (fun c => c <> 0) key -> key `prefix_of` s ++ [0] -> key `prefix_of` s.
Proof.
  intros Hk. revert s. induction Hk as [|c key Hc Hk IH]; intros s Hp; [apply prefix_nil|].
  destruct s as [|u s].
  - destruct Hp as [r Hr]. injection Hr as Hc0 _. congruence.
  - cbn [app] in Hp. pose proof (prefix_cons_inv_1 _ _ _ _ Hp) as ->.
    apply prefix_cons, IH. by apply prefix_cons_inv_2 in Hp.
Qed.

(** The key that [EncodeKeyFromString] builds for a STRING prefix selects by
    byte prefix exactly the encoded strings that begin with it; for an INT it is
    the encoding of the parsed number; other kinds are refused. *)
Theorem EncodeKeyFromString_prefix type key s :
  Forall (fun c => c <> 0) key -> prim_ok (PString s) ->
  match EncodeKeyFromString type key with
  | inl k =>
      (kind_ type = STRING /\ (k `prefix_of` enc_prim (PString s) <-> key `prefix_of` s))
      \/ (kind_ type = INT /\ k = enc_prim (PInt (strto64 key)))
  | inr _ => kind_ type <> STRING /\ kind_ type <> INT
  end.
Proof.
  intros Hk Hs. unfold EncodeKeyFromString. destruct (kind_ type); try done.
  - right. split; [done|].
    assert (prim_ok (PInt (strto64 key))) as Hi by (cbn; unfold is_s64, strto64; case_match; lia).
    pose proof (put_prim_spec enc_new _ Hi) as E. injection E as ->. done.
  - left. split; [done|]. unfold PutString, push_back. autorewrite with szl.
    rewrite c_str_id by done. unfold AppendEncoding. cbn [data_].
    change (data_ enc_new) with (@nil Z). cbn [app enc_prim].
    cbn [length]. rewrite length_app. cbn [length].
    replace (S (length key + 1) - 1)%nat with (S (length key)) by lia. cbn [take].
    rewrite take_app_length. change (u8 Tag.STRING) with Tag.STRING. split.
    + intros Hp%prefix_cons_inv_2. by apply prefix_snoc_nul.
    + intros Hp. apply prefix_cons. by apply prefix_app_r.
Qed.

Lemma EncodeKeyFromString_prefix_witness :
  (STRING = STRING /\ ([6; 97] `prefix_of` enc_prim (PString [97; 98]) <-> [97] `prefix_of` [97; 98]))
  \/ (STRING = INT /\ [6; 97] = enc_prim (PInt (strto64 [97]))).
Proof.
  apply (EncodeKeyFromString_prefix (kind_type STRING) [97] [97; 98]); by repeat constructor.
Defined.

(** *** Advance *)

Lemma enc_prim_head p :
  exists t q, enc_prim p = t :: q /\ 0 <= t /\ kind_tags (prim_kind p) t = true.
Proof.
  assert (forall T v, exists t q, enc_P8 T v = t :: q /\ T <= t < T + 8) as HP.
  { intros T v. pose proof (nbytes_range v). do 2 eexists. split; [reflexivity|]. lia. }
  destruct p as [b|t|v|x|v|t|v]; cbn [enc_prim prim_kind kind_tags];
    try (do 2 eexists; split; [reflexivity|]; split; [|done]; done).
  - exists (Tag.BOOL_FALSE + Z.b2z b), []. by destruct b.
  - destruct (HP Tag.FINGERPRINT1 v) as (t & q & -> & Ht). exists t, q. split; [done|]. num_tags. lia.
  - destruct (0 <=? v).
    + destruct (HP Tag.INTP1 v) as (t & q & -> & Ht). exists t, q. split; [done|]. num_tags. lia.
    + pose proof (nbytes_range (- (v + 1))). do 2 eexists. split; [reflexivity|]. num_tags. lia.
  - destruct (HP Tag.TIME1 v) as (t & q & -> & Ht). exists t, q. split; [done|]. num_tags. lia.
Qed.

Lemma peek_enc s p rest : peek (MkDec s (enc_prim p ++ rest)) = prim_kind p.
Proof.
  destruct (enc_prim_head p) as (t & q & -> & Ht & Hk). cbn [app].
  rewrite <- (peek_tags s t (q ++ rest)) in Hk by (done || by apply basic_kind_in; destruct p).
  by apply bool_decide_eq_true in Hk.
Qed.

Lemma not_marker d : peek d ∈ basic_kinds -> IsEnd d (peek d) = false /\ IsStart d (peek d) = false.
Proof.
  intros H. unfold IsEnd, IsStart. destruct (peek d); try done;
    revert H; by apply (bool_decide_unpack _).
Qed.

(** Without a marker in front the inner loops do nothing. *)
Lemma skip_markers_basic fuel d :
  peek d ∈ basic_kinds -> skip_ends fuel d = d /\ skip_starts fuel d = d.
Proof.
  intros H. destruct (not_marker d H) as [He Hs].
  destruct fuel; [done|]. cbn [skip_ends skip_starts]. by rewrite He, Hs.
Qed.

(** Skipping a marker consumes it, so the inner loops of [Advance] end: their
    fuel, the bytes left, is enough. *)
Lemma Skip_marker s t q :
  0 <= t -> IsEnd (MkDec s (t :: q)) (peek (MkDec s (t :: q))) = true
            \/ IsStart (MkDec s (t :: q)) (peek (MkDec s (t :: q))) = true ->
  Skip_ (MkDec s (t :: q)) (peek (MkDec s (t :: q))) = MkDec s q.
Proof.
  intros Ht H. assert (43 <= t <= 49) as Hr.
  { unfold IsEnd, IsStart in H. rewrite size_cons in H. cbn [p_ byte_at nth] in H.
    unfold end_tag, start_tag in H. destruct (peek _); destruct H; try done; num_tags; 
      unfold Tag.ARRAY_START, Tag.ARRAY_END, Tag.TUPLE_START, Tag.TUPLE_END, Tag.MAP_START, Tag.MAP_END in *; lia. }
  assert (t = 43 \/ t = 44 \/ t = 45 \/ t = 46 \/ t = 47 \/ t = 48 \/ t = 49)
    as [-> | [-> | [-> | [-> | [-> | [-> | ->]]]]]] by lia; try (by destruct H).
  all: unfold Skip_, Skip; cbn; rewrite bool_decide_eq_true_2, size_cons by done; cbn [negb];
    unfold advance; cbn; by rewrite ?drop_0.
Qed.

Lemma skip_ends_done fuel s q :
  bytes_ok q -> (length q <= fuel)%nat ->
  exists q', skip_ends fuel (MkDec s q) = MkDec s q' /\ q' `suffix_of` q
  /\ IsEnd (MkDec s q') (peek (MkDec s q')) = false.
Proof.
  revert q. induction fuel as [|fuel IH]; intros [|t q] Hq Hl; cbn [length] in Hl; try lia;
    cbn [skip_ends]; try (exists []; done).
  inversion_clear Hq as [|? ? Ht Hq']. unfold is_u8 in Ht.
  destruct (IsEnd _ _) eqn:E; [|exists (t :: q); done].
  rewrite Skip_marker by (lia || by left). destruct (IH q Hq') as (q' & E1 & E2 & E3); [lia|].
  exists q'. split; [done|]. split; [by apply suffix_cons_r|done].
Qed.

Lemma skip_starts_done fuel s q :
  bytes_ok q -> (length q <= fuel)%nat ->
  exists q', skip_starts fuel (MkDec s q) = MkDec s q' /\ q' `suffix_of` q
  /\ IsStart (MkDec s q') (peek (MkDec s q')) = false.
Proof.
  revert q. induction fuel as [|fuel IH]; intros [|t q] Hq Hl; cbn [length] in Hl; try lia;
    cbn [skip_starts]; try (exists []; done).
  inversion_clear Hq as [|? ? Ht Hq']. unfold is_u8 in Ht.
  destruct (IsStart _ _) eqn:E; [|exists (t :: q); done].
  rewrite Skip_marker by (lia || by right). destruct (IH q Hq') as (q' & E1 & E2 & E3); [lia|].
  exists q'. split; [done|]. split; [by apply suffix_cons_r|done].
Qed.

(** C35. Both marker loops of [Advance] end within as many rounds as bytes are
    left, at a position of the same buffer that is no such marker. *)
Theorem Advance_loops_end s q :
  bytes_ok q ->
  (exists q', skip_ends (length q) (MkDec s q) = MkDec s q' /\ q' `suffix_of` q
     /\ IsEnd (MkDec s q') (peek (MkDec s q')) = false)
  /\ (exists q', skip_starts (length q) (MkDec s q) = MkDec s q' /\ q' `suffix_of` q
     /\ IsStart (MkDec s q') (peek (MkDec s q')) = false).
Proof. intros H. split; [by apply skip_ends_done|by apply skip_starts_done]. Qed.

Lemma Advance_loops_end_witness :
  exists q', skip_ends 3 (MkDec [] [46; 44; 8]) = MkDec [] q' /\ q' `suffix_of` [46; 44; 8]
  /\ IsEnd (MkDec [] q') (peek (MkDec [] q')) = false.
Proof. apply (Advance_loops_end [] [46; 44; 8]). by repeat constructor. Defined.

Lemma Advance_basic n d :
  peek d ∈ basic_kinds ->
  Advance_loop n d
  = match n with O => (true, d) | S n => Advance_loop n (Skip_ d (peek d)) end.
Proof.
  intros H. destruct (skip_markers_basic (length (p_ d)) d H) as [He Hs].
  assert (bool_decide (peek d = VOID) = false) as Hv.
  { apply bool_decide_eq_false. intros E. rewrite E in H. revert H. by apply (bool_decide_unpack _). }
  destruct n; cbn [Advance_loop]; rewrite He, Hv; [done|]. by rewrite Hs.
Qed.

(** [Advance] over [num_values] encoded values stops right behind them and
    succeeds when another value follows; at the end of the data it fails. On a
    value that [Skip] rejects it reports success for every count and stays. *)
Theorem Advance_values s ps rest n :
  Forall prim_ok ps -> bytes_ok rest ->
  Advance (MkDec s (enc_prims ps ++ rest)) (Z.of_nat (length ps) + Z.of_nat n)
  = match rest with
    | [] => (false, MkDec s [])
    | _ => Advance (MkDec s rest) (Z.of_nat n)
    end
  /\ (peek (MkDec s rest) ∈ basic_kinds -> Skip (MkDec s rest) (peek (MkDec s rest)) = None ->
      Advance (MkDec s rest) (Z.of_nat n) = (true, MkDec s rest)).
Proof.
  intros Hps Hr. split.
  - transitivity (Advance (MkDec s rest) (Z.of_nat n)); 
      [|destruct rest; [unfold Advance; rewrite Nat2Z.id; by destruct n|done]].
    unfold Advance. rewrite Z2Nat.inj_add, !Nat2Z.id by lia.
    induction Hps as [|p ps Hp Hps IH]; [done|]. unfold enc_prims. rewrite bind_cons.
    fold (enc_prims ps). rewrite <- app_assoc. cbn [length Nat.add].
    rewrite Advance_basic, peek_enc by (rewrite peek_enc; apply basic_kind_in; by destruct p).
    rewrite <- IH. f_equal. unfold Skip_. rewrite Skip_agrees.
    + rewrite get_prim_spec; [done|done|]. apply Forall_app. by split; [apply enc_prims_ok|].
    + repeat apply Forall_app_2; [by apply enc_prim_ok|by apply enc_prims_ok|done].
    + apply basic_kind_in. by destruct p.
  - intros Hk Hf. unfold Advance. rewrite Nat2Z.id.
    induction n as [|n IH]; rewrite Advance_basic by done; [done|].
    unfold Skip_. by rewrite Hf.
Qed.

Lemma Advance_values_witness :
  Advance (MkDec [] (enc_prims [PInt 3; PBool true] ++ [28; 1])) (2 + 7)
  = Advance (MkDec [] [28; 1]) 7
  /\ (peek (MkDec [] [28; 1]) ∈ basic_kinds ->
      Skip (MkDec [] [28; 1]) (peek (MkDec [] [28; 1])) = None ->
      Advance (MkDec [] [28; 1]) 7 = (true, MkDec [] [28; 1])).
Proof.
  apply (Advance_values [] [PInt 3; PBool true] [28; 1] 7); repeat constructor; done.
Defined.
