(* ===== verification/Reads.v ===== *)
(** * Reading arbitrary bytes

    What the operations of emitvalues/szldecoder.cc do on a buffer nobody
    promised anything about: every value read is within its type, and every
    read moves forward within the buffer. *)
From Stdlib Require Import ZArith Lia.
From stdpp Require Import prelude.
From S2P Require Import Prelude SzlType Encoder Decoder Codec.

Local Open Scope Z_scope.

(** ** Ranges of bit operations *)

Lemma below_bits x n : 0 <= n -> 0 <= x -> (forall m, n <= m -> Z.testbit x m = false) -> x < 2 ^ n.
Proof.
  intros Hn Hx H. destruct (decide (x = 0)) as [->|H0]; [by apply Z.pow_pos_nonneg; lia|].
  pose proof (Z.log2_spec x ltac:(lia)) as [H1 H2]. destruct (Z.lt_ge_cases (Z.log2 x) n) as [Hlt|Hge].
  - eapply Z.lt_le_trans; [exact H2|]. apply Z.pow_le_mono_r; lia.
  - specialize (H _ Hge). rewrite Z.bit_log2 in H by lia. done.
Qed.

Lemma bits_above x n m : 0 <= x < 2 ^ n -> n <= m -> Z.testbit x m = false.
Proof.
  intros Hx Hm. destruct (decide (x = 0)) as [->|H0]; [apply Z.bits_0|].
  assert (Z.log2 x < n) by (apply Z.log2_lt_pow2; lia). apply Z.bits_above_log2; lia.
Qed.

Lemma lor_range a b n : 0 <= n -> 0 <= a < 2 ^ n -> 0 <= b < 2 ^ n -> 0 <= Z.lor a b < 2 ^ n.
Proof.
  intros Hn Ha Hb. assert (0 <= Z.lor a b) as H0 by (apply Z.lor_nonneg; lia). split; [done|].
  apply below_bits; [done|done|]. intros m Hm. by rewrite Z.lor_spec, (bits_above a n), (bits_above b n).
Qed.

Lemma byte_at_range p i : bytes_ok p -> 0 <= byte_at p i < 2 ^ 8.
Proof.
  intros Hp. unfold byte_at. rewrite nth_lookup. destruct (p !! i) as [x|] eqn:E; cbn [default from_option]; [|lia].
  exact (Forall_lookup_1 _ _ _ _ Hp E).
Qed.

Lemma bytes_ok_drop n p : bytes_ok p -> bytes_ok (drop n p).
Proof. apply Forall_drop. Qed.
#[export] Hint Resolve bytes_ok_drop byte_at_range : szl.

(** ** Integers *)

Lemma unpackUint32_range p : bytes_ok p -> is_u32 (unpackUint32 p).
Proof.
  intros Hp. unfold unpackUint32. pose proof (byte_at_range p 3 Hp).
  repeat (apply lor_range; [lia| |]); try apply u32_range. lia.
Qed.

Lemma unpackUint64_range p : bytes_ok p -> is_u64 (unpackUint64 p).
Proof.
  intros Hp. unfold unpackUint64. pose proof (unpackUint32_range _ (bytes_ok_drop 4 p Hp)) as H.
  apply lor_range; [lia|apply u64_range|]. unfold is_u32 in H. lia.
Qed.

Lemma shift_in_range n p t : bytes_ok p -> is_u32 t -> is_u32 (shift_in n p t).
Proof.
  revert p t. induction n as [|n IH]; intros p t Hp Ht; [done|]. cbn [shift_in].
  apply IH; [by apply bytes_ok_drop|]. pose proof (byte_at_range p 0 Hp). apply lor_range; [lia|apply u32_range|lia].
Qed.

Lemma UnpackP8_range T p size : bytes_ok p -> is_u64 (snd (UnpackP8 T p size)).
Proof.
  intros Hp. unfold UnpackP8. pose proof (bytes_ok_drop 1 p Hp) as H1. pose proof (bytes_ok_drop 4 _ H1) as H4.
  repeat case_match; cbn [snd]; try (unfold is_u64; lia).
  - pose proof (shift_in_range (Z.to_nat (byte_at p 0 - (T - 1) - 4)) _ 0 H4 ltac:(unfold is_u32; lia)) as H5. unfold is_u32 in H5.
    apply lor_range; [lia|apply u64_range|lia].
  - pose proof (shift_in_range (Z.to_nat (Z.min (byte_at p 0 - (T - 1)) 4)) _ 0 H1 ltac:(unfold is_u32; lia)) as H5.
    unfold is_u32, is_u64 in *. lia.
Qed.

Lemma UnpackN8_range T p size : bytes_ok p -> is_s64 (snd (UnpackN8 T p size)).
Proof.
  intros Hp. unfold UnpackN8. pose proof (bytes_ok_drop 1 p Hp) as H1.
  repeat case_match; cbn [snd]; try (unfold is_s64; lia); try apply s64_range.
  pose proof (shift_in_range (Z.to_nat (Z.min (T - byte_at p 0 + 1) 4)) _ (2 ^ 32 - 1) H1 ltac:(unfold is_u32; lia)) as H5.
  unfold is_u32 in H5. rewrite Z.shiftl_mul_pow2, lor_shift_add by lia. unfold is_s64. lia.
Qed.

(** ** Strings *)

(** The escapes take the bytes in ones and twos. *)
Lemma list_ind2 {A} (P : list A -> Prop) :
  P [] -> (forall x, P [x]) -> (forall x y l, P l -> P (y :: l) -> P (x :: y :: l)) -> forall l, P l.
Proof.
  intros H0 H1 H2 l. assert (P l /\ forall x, P (x :: l)) as [H _]; [|done].
  induction l as [|y l [IH1 IH2]]; [done|]. split; [done|]. intros x. by apply H2.
Qed.

Lemma GetBytes_loop_ok v seg q v' q' :
  GetBytes_loop v seg q = Some (v', q') -> bytes_ok v -> bytes_ok seg -> bytes_ok q -> bytes_ok v'.
Proof.
  revert v seg. induction q as [|c|c c1 q2 IH2 IH1] using list_ind2; intros v seg H Hv Hs Hq; [done|done|].
  cbn [GetBytes_loop] in H. change (match q2 with [] => None | c2 :: q3 => _ end) with (GetBytes_loop v (seg ++ [c]) (c1 :: q2)) in H.
  inversion_clear Hq as [|? ? Hc Hq1]. pose proof Hq1 as Hq1'. inversion_clear Hq1' as [|? ? Hc1 Hq2].
  destruct (c =? kBytesTerm).
  - destruct (c1 =? 0); [injection H as <- <-; by apply Forall_app|]. destruct (negb _); [done|].
    apply IH2 in H; [done|by apply Forall_app|by apply Forall_singleton|done].
  - apply IH1 in H; [done|done|apply Forall_app; split; [done|by apply Forall_singleton]|done].
Qed.

Lemma scan_nul_ok q : bytes_ok q ->
  bytes_ok (fst (scan_nul q)) /\ Forall (fun c => c <> 0) (fst (scan_nul q)) /\ snd (scan_nul q) `suffix_of` q.
Proof.
  induction q as [|c q IH]; intros Hq; [by repeat constructor|]. inversion_clear Hq as [|? ? Hc Hq']. cbn [scan_nul].
  destruct (Z.eqb_spec c 0); [by repeat constructor|]. destruct (IH Hq') as (H1 & H2 & H3). destruct (scan_nul q) as [a b].
  cbn [fst snd] in *. split; [by constructor|]. split; [by constructor|]. by apply suffix_cons_r.
Qed.

Lemma Skip_bytes_loop_suffix q q' : Skip_bytes_loop q = Some q' -> q' `suffix_of` q /\ (length q' < length q)%nat.
Proof.
  induction q as [|c|c c1 q2 IH2 IH1] using list_ind2; [done|done|]. intros H. cbn [Skip_bytes_loop] in H.
  change (match q2 with [] => None | c2 :: q3 => _ end) with (Skip_bytes_loop (c1 :: q2)) in H.
  destruct (c =? kBytesTerm).
  - destruct (c1 =? 0).
    { injection H as <-. cbn [length]. split; [by apply suffix_cons_r, suffix_cons_r|lia]. }
    destruct (negb _); [done|]. destruct (IH2 H) as [H1 H2]. cbn [length].
    split; [by apply suffix_cons_r, suffix_cons_r|lia].
  - destruct (IH1 H) as [H1 H2]. cbn [length] in *. split; [by apply suffix_cons_r|lia].
Qed.

(** ** Progress *)

Lemma tbl_size_pos k : 0 <= k -> tbl_size k <> 0 -> 1 <= tbl_size k.
Proof. intros Hk. unfold tbl_size, in_tags, Tag.INTN1. repeat case_match; num_tags; lia. Qed.

Lemma Skip_progress s q k d : bytes_ok q -> Skip (MkDec s q) k = Some d ->
  exists q', d = MkDec s q' /\ q' `suffix_of` q /\ (length q' < length q)%nat.
Proof.
  intros Hq. unfold Skip. destruct q as [|t q]; [done|]. cbn [done_ p_ orb byte_at nth]. inversion_clear Hq as [|? ? Ht Hq'].
  unfold is_u8 in Ht. destruct (negb (bool_decide _)); [done|].
  destruct (_ || _) eqn:E; [done|]. apply orb_false_iff in E as [[E1 E2]%orb_false_iff E3].
  apply Z.eqb_neq in E2. apply Z.ltb_ge in E3. pose proof (tbl_size_pos t ltac:(lia) E2).
  destruct (t =? Tag.BYTES); [|destruct (t =? Tag.STRING)].
  - change (drop 1 (t :: q)) with q. destruct (Skip_bytes_loop q) as [q'|] eqn:E; [|done]. cbn [mbind option_bind]. intros [= <-].
    apply Skip_bytes_loop_suffix in E as [H1 H2]. exists q'. split; [done|]. split; [by apply suffix_cons_r|cbn; lia].
  - change (drop 1 (t :: q)) with q. destruct (scan_nul_ok q Hq') as (_ & _ & Hs). destruct (scan_nul q) as [v r]. cbn [snd] in Hs.
    destruct r as [|c r]; [done|]. intros [= <-].
    exists (drop (Z.to_nat (tbl_size t)) (c :: r)). split; [done|].
    assert (drop (Z.to_nat (tbl_size t)) (c :: r) `suffix_of` c :: r) as Hd by apply suffix_drop.
    split; [apply suffix_cons_r; by transitivity (c :: r)|]. apply suffix_length in Hs. rewrite length_drop. cbn in *. lia.
  - intros [= <-]. eexists. split; [done|]. cbn [p_]. split; [apply suffix_drop|].
    rewrite length_drop. cbn [length]. lia.
Qed.

Lemma suffix_bytes_ok q q' : q' `suffix_of` q -> bytes_ok q -> bytes_ok q'.
Proof. intros [l ->] H. by apply Forall_app in H as [_ H]. Qed.

(** ** Types *)

Lemma bind_pair_inv {A B} (o : option (A * SzlDecoder)) (f : A -> B) p d :
  ('(v, d) ← o; Some (f v, d)) = Some (p, d) -> exists v, o = Some (v, d) /\ p = f v.
Proof. destruct o as [[v d']|]; [|done]. cbn. intros [= <- <-]. by exists v. Qed.

Lemma if_inv {A} (b : bool) (x y z : A) : (if b then x else y) = z -> b = true /\ x = z \/ b = false /\ y = z.
Proof. destruct b; auto. Qed.

Lemma GetInt_range s q z d : bytes_ok q -> GetInt (MkDec s q) = Some (z, d) -> is_s64 z.
Proof.
  intros Hq. unfold GetInt. pose proof (UnpackN8_range Tag.INTN1 q (size_ (MkDec s q)) Hq) as Hn. cbn [p_] in *.
  destruct (UnpackP8 _ _ _) as [n v], (UnpackN8 _ _ _) as [m w]. cbn [snd] in Hn.
  destruct (0 <? n); [intros [= <- _]; apply s64_range|]. destruct (0 <? m); [by intros [= <- _]|].
  destruct (_ || _); [done|]. intros [= <- _]. apply s64_range.
Qed.

(** The layout that fingerprints and times share. *)
Lemma unsigned_range T s q (b : SzlDecoder -> bool) z d : bytes_ok q ->
  (let '(n, v) := UnpackP8 T q (size_ (MkDec s q)) in
   if 0 <? n then Some (v, advance (MkDec s q) n)
   else if b (MkDec s q) then None else Some (unpackUint64 (drop 1 q), advance (MkDec s q) 9)) = Some (z, d) -> is_u64 z.
Proof.
  intros Hq. pose proof (UnpackP8_range T q (size_ (MkDec s q)) Hq) as Hn. destruct (UnpackP8 _ _ _) as [n v]. cbn [snd] in Hn.
  destruct (0 <? n); [by intros [= <- _]|]. destruct (b _); [done|]. intros [= <- _].
  by apply unpackUint64_range, bytes_ok_drop.
Qed.

Lemma GetFloat_range s q x d : bytes_ok q -> GetFloat (MkDec s q) = Some (x, d) -> is_u64 x.
Proof.
  intros Hq. unfold GetFloat. cbn [p_]. destruct (_ <? 1); [done|]. destruct (_ =? Tag.FLOAT).
  - destruct (_ <? 9); [done|]. intros [= <- _]. apply u64_range.
  - destruct (_ || _); [done|]. intros [= <- _]. pose proof (unpackUint64_range _ (bytes_ok_drop 2 q Hq)) as H.
    destruct (_ =? 0); [|done]. apply lxor_range; [lia|exact H|lia].
Qed.

Lemma GetBytes_ok s q v d : bytes_ok q -> GetBytes (MkDec s q) = Some (v, d) -> bytes_ok v.
Proof.
  intros Hq. unfold GetBytes. cbn [p_]. destruct (_ <? 1); [done|]. destruct (_ =? Tag.BYTES).
  - destruct (GetBytes_loop [] [] (drop 1 q)) as [[v' q']|] eqn:E; [|done]. cbn. intros [= <- _].
    apply (GetBytes_loop_ok _ _ _ _ _ E); [constructor|constructor|by apply bytes_ok_drop].
  - destruct (_ || _); [done|]. destruct (_ <? u64 _); [done|]. intros [= <- _]. by apply Forall_take, bytes_ok_drop.
Qed.

Lemma GetString_ok s q v d : bytes_ok q -> GetString (MkDec s q) = Some (v, d) -> bytes_ok v /\ Forall (fun c => c <> 0) v.
Proof.
  intros Hq. unfold GetString. cbn [p_]. destruct (_ || _); [done|].
  destruct (scan_nul_ok (drop 1 q) (bytes_ok_drop 1 q Hq)) as (H1 & H2 & _). destruct (scan_nul _) as [a [|c r]]; [done|].
  by intros [= <- _].
Qed.

Lemma get_prim_ok k s q p d : bytes_ok q -> get_prim k (MkDec s q) = Some (p, d) ->
  prim_ok p /\ prim_kind p = k /\ exists q', d = MkDec s q' /\ q' `suffix_of` q /\ (length q' < length q)%nat.
Proof.
  intros Hq H. assert (k ∈ basic_kinds) as Hk.
  { destruct (bool_decide (k ∈ basic_kinds)) eqn:E; [by apply bool_decide_eq_true in E|]. by destruct k. }
  assert (Skip (MkDec s q) k = Some d) as Hs by (rewrite Skip_agrees by done; by rewrite H).
  assert (prim_ok p /\ prim_kind p = k) as [H1 H2]; [|split; [done|split; [done|by apply (Skip_progress s q k)]]].
  destruct k; try done; cbn [get_prim] in H; apply bind_pair_inv in H as (v & E & ->); cbn [prim_ok prim_kind]; (split; [|done]).
  - done.
  - by apply (GetBytes_ok s q v d).
  - by apply (unsigned_range Tag.FINGERPRINT1 s q (fun d => (size_ d <? 9) || negb (bool_decide (peek d = FINGERPRINT))) v d).
  - by apply (GetFloat_range s q v d).
  - by apply (GetInt_range s q v d).
  - by apply (GetString_ok s q v d).
  - by apply (unsigned_range Tag.TIME1 s q (fun d => (size_ d <? 9) || negb (bool_decide (peek d = TIME))) v d).
Qed.

(** C31. On any bytes whatever, a reader either fails or yields a value of the
    type it is for, within the type's range (64 bits, bytes, a string without
    NUL), and leaves the decoder further on in the same buffer. *)
Theorem get_prim_typed k s q :
  bytes_ok q ->
  match get_prim k (MkDec s q) with
  | None => True
  | Some (p, d) =>
      prim_ok p /\ prim_kind p = k /\ exists q', d = MkDec s q' /\ q' `suffix_of` q /\ (length q' < length q)%nat
  end.
Proof.
  intros Hq. destruct (get_prim k (MkDec s q)) as [[p d]|] eqn:E; [|done]. by apply get_prim_ok.
Qed.

Lemma get_prim_typed_witness :
  prim_ok (PInt (-2)) /\ prim_kind (PInt (-2)) = INT
  /\ exists q', MkDec [] [9] = MkDec [] q' /\ q' `suffix_of` [26; 254; 9] /\ (length q' < 3)%nat.
Proof. apply (get_prim_typed INT [] [26; 254; 9]). by repeat constructor. Defined.
