(* ===== verification/SzlValue.v ===== *)
(** * Values and their operations: [public/szlvalue.h], [emitvalues/szlvalue.cc]

    A [SzlValue] is the C++ union with its active member made explicit; a fresh
    value has no active member and reads as zero through each of them. A
    [SzlOps] is a type with its flattened cells. Operations work on values and
    return the new destination; [LOG(FATAL)] and a failed [CHECK] are [Fatal].
    Self-assignment and the reuse of storage do not change the result and have
    no counterpart here. *)
From Stdlib Require Import ZArith Lia SpecFloat.
From stdpp Require Import prelude strings.
From S2P Require Import Prelude SzlType Encoder Decoder Double.

Local Open Scope Z_scope.

(** ** Values *)

(* @src src/src/public/szlvalue.h 34-65 SzlValue *)
#[warnings="-register-all"]
Inductive SzlValue : Type :=
| VInt (i : Z)
| VFloat (f : Z)
| VStr (buf : bytes)
| VVals (vals : list SzlValue).

(** [SzlValue()]: every member reads as zero, NULL or empty. *)
(* @src src/src/public/szlvalue.h 55-59 SzlValue::SzlValue *)
Definition VNil : SzlValue := VVals [].

Definition vi (v : SzlValue) : Z := match v with VInt i => i | _ => 0 end.
Definition vf (v : SzlValue) : Z := match v with VFloat f => f | _ => 0 end.
Definition vbuf (v : SzlValue) : bytes := match v with VStr b => b | _ => [] end.
Definition vvals (v : SzlValue) : list SzlValue := match v with VVals l => l | _ => [] end.

(** ** Operations objects *)

(** [nflats_] is the number of cells; a cell is the entry of [flats_] and of
    [flat_ops_] at one position, [None] for NULL. *)
(* @src src/src/public/szlvalue.h 302-312 SzlOps (data members) *)
#[warnings="-register-all"]
Inductive SzlOps : Type :=
| MkOps (type_ : SzlType) (cells_ : list (Kind * option SzlOps)).

Definition type_ (o : SzlOps) : SzlType := let '(MkOps t _) := o in t.
Definition cells_ (o : SzlOps) : list (Kind * option SzlOps) := let '(MkOps _ c) := o in c.
Definition ops_kind (o : SzlOps) : Kind := kind_ (type_ o).
(* @src src/src/public/szlvalue.h 80-80 SzlOps::nflats *)
Definition nflats_ (o : SzlOps) : nat := length (cells_ o).
(* @src src/src/public/szlvalue.h 81-81 SzlOps::kind *)
Definition flats_ (o : SzlOps) : list Kind := map fst (cells_ o).

(* @src src/src/emitvalues/szlvalue.cc 48-51 IsSimpleBaseKind *)
Definition IsSimpleBaseKind (kind : Kind) : bool :=
  BaseKind kind && negb (bool_decide (kind = STRING)) && negb (bool_decide (kind = BYTES)).

(* @src src/src/emitvalues/szlvalue.cc 55-75 SzlOps::IsOrdered *)
Fixpoint IsOrdered (t : SzlType) : bool :=
  let '(MkType kind _ _ fields _ _ _) := t in
  match kind with
  | BOOL | BYTES | STRING | TIME | INT | FINGERPRINT | FLOAT => true
  | TUPLE => forallb (fun f => let '(_, ty) := f in IsOrdered ty) fields
  | _ => false
  end.

(* @src src/src/emitvalues/szlvalue.cc 79-100 SzlOps::IsAddable *)
Fixpoint IsAddable (t : SzlType) : bool :=
  let '(MkType kind _ _ fields _ element _) := t in
  match kind with
  | TIME | INT | FLOAT => true
  | TUPLE => forallb (fun f => let '(_, ty) := f in IsAddable ty) fields
  | MAP => match element with Some (_, ty) => IsAddable ty | None => false end
  | _ => false
  end.

(* @src src/src/emitvalues/szlvalue.cc 104-119 SzlOps::IsNumeric *)
Fixpoint IsNumeric (t : SzlType) : bool :=
  let '(MkType kind _ _ fields _ _ _) := t in
  match kind with
  | INT | FLOAT => true
  | TUPLE => forallb (fun f => let '(_, ty) := f in IsNumeric ty) fields
  | _ => false
  end.

Section Init.
(** The table registry that [Valid] consults. *)
Context (Properties : string -> option TableProperties) (IsValid : SzlType -> option string).

(** The first pass over a type: the number of flattened values, and whether some
    of them need an operations object of their own. *)
(* @src src/src/emitvalues/szlvalue.cc 131-158 SzlFlattenedVals *)
Fixpoint SzlFlattenedVals (depth : Z) (t : SzlType) (is_complex : bool) : res (nat * bool) :=
  let '(MkType kind _ _ fields indices element _) := t in
  if BaseType Properties IsValid t then Ok (1%nat, is_complex)
  else
    match kind with
    | MAP =>
        match indices, element with
        | (_, index_type) :: _, Some (_, element_type) =>
            Ok (1%nat, negb (BaseType Properties IsValid index_type)
                     || negb (BaseType Properties IsValid element_type)
                     || (0 <? depth) || is_complex)
        | _, _ => Fatal
        end
    | ARRAY =>
        match element with
        | Some (_, element_type) =>
            Ok (1%nat, negb (BaseType Properties IsValid element_type) || (0 <? depth) || is_complex)
        | None => Fatal
        end
    | TUPLE =>
        (fix go (fields : list (string * SzlType)) (is_complex : bool) : res (nat * bool) :=
           match fields with
           | [] => Ok (0%nat, is_complex)
           | (_, ty) :: fields =>
               '(n, is_complex) ← SzlFlattenedVals (depth + 1) ty is_complex;
               '(m, is_complex) ← go fields is_complex;
               Ok ((n + m)%nat, is_complex)
           end) fields is_complex
    | _ => Fatal
    end.

(** The flattened cells of a type whose operations object is [o]: base types and
    containers are one cell, tuples the cells of their fields. *)
(* @src src/src/emitvalues/szlvalue.cc 161-178 SzlFlattenKinds *)
Definition SzlFlattenKinds (t : SzlType) (o : res SzlOps) : res (list (Kind * option SzlOps)) :=
  if BaseType Properties IsValid t then Ok [(kind_ t, None)]
  else
    match kind_ t with
    | MAP | ARRAY => o ← o; Ok [(kind_ t, Some o)]
    | TUPLE => o ← o; Ok (cells_ o)
    | _ => Fatal
    end.

(** The cell of a map's or an array's component. *)
(* @src src/src/emitvalues/szlvalue.cc 180-213 SzlOps::Init *)
Definition component_cell (t : SzlType) (o : res SzlOps) : res (Kind * option SzlOps) :=
  if BaseType Properties IsValid t then Ok (kind_ t, None)
  else o ← o; Ok (kind_ t, Some o).

(** [flat_ops_] is allocated exactly when some cell has an operations object, so
    it needs no component of its own. *)
(* @src src/src/emitvalues/szlvalue.cc 180-229 SzlOps::Init *)
Fixpoint ops_new (t : SzlType) : res SzlOps :=
  let '(MkType kind _ _ fields indices element _) := t in
  match kind with
  | MAP =>
      match indices, element with
      | [(_, index_type)], Some (_, element_type) =>
          c0 ← component_cell index_type (ops_new index_type);
          c1 ← component_cell element_type (ops_new element_type);
          Ok (MkOps t [c0; c1])
      | _, _ => Fatal
      end
  | ARRAY =>
      match element with
      | Some (_, element_type) =>
          c ← component_cell element_type (ops_new element_type); Ok (MkOps t [c])
      | None => Fatal
      end
  | TUPLE =>
      cells ← flat_res (fun f => let '(_, ty) := f in SzlFlattenKinds ty (ops_new ty)) fields;
      Ok (MkOps t cells)
  | _ => cells ← SzlFlattenKinds t Fatal; Ok (MkOps t cells)
  end.
End Init.

(* @src src/src/emitvalues/szlvalue.cc 121-123 SzlOps::IsComplex *)
Definition IsComplex (o : SzlOps) : bool :=
  existsb (fun c => match c with (_, Some _) => true | _ => false end) (cells_ o).

(** ** Loops over the values of a container

    [flat_i = i % nflats_]: value [i] is handled by the cell [i % nflats_]. The
    cells are given as closures, one per cell; a nonempty container with no cell
    would divide by zero. *)

Section Loops.
Context {F : Type}.

(** The closure of the first value and those left of the current round. *)
Definition next_cell (all cur : list F) : option (F * list F) :=
  match cur with
  | f :: cur => Some (f, cur)
  | [] => match all with f :: cur => Some (f, cur) | [] => None end
  end.
End Loops.

(** Transforming every value. *)
Fixpoint loop_map {B C} (all cur : list (B -> res C)) (vals : list B) : res (list C) :=
  match vals with
  | [] => Ok []
  | v :: vals =>
      match next_cell all cur with
      | None => Fatal
      | Some (f, cur) => w ← f v; ws ← loop_map all cur vals; Ok (w :: ws)
      end
  end.

(** Threading a state through the values. *)
Fixpoint loop_fold {B S} (all cur : list (B -> S -> res S)) (vals : list B) (s : S) : res S :=
  match vals with
  | [] => Ok s
  | v :: vals =>
      match next_cell all cur with
      | None => Fatal
      | Some (f, cur) => s ← f v s; loop_fold all cur vals s
      end
  end.

(** Stopping at the first comparison that decides. *)
Fixpoint loop_cmp {B} (all cur : list (B -> res comparison)) (vals : list B) : res comparison :=
  match vals with
  | [] => Ok Eq
  | v :: vals =>
      match next_cell all cur with
      | None => Fatal
      | Some (f, cur) =>
          c ← f v;
          match c with Eq => loop_cmp all cur vals | _ => Ok c end
      end
  end.

(** ** Memory, Clear, AssignZero *)

(** [sizeof(SzlValue)] on a 64-bit machine. *)
Definition sizeof_SzlValue : Z := 16.

(* @src src/src/public/szlvalue.h 87-101 SzlOps::Memory *)
(* @src src/src/emitvalues/szlvalue.cc 266-296 SzlOps::MemoryInternal *)
Fixpoint Memory (o : SzlOps) (s : SzlValue) : res Z :=
  let '(MkOps t cells) := o in
  match kind_ t with
  | BOOL | FINGERPRINT | INT | TIME | FLOAT => Ok sizeof_SzlValue
  | STRING | BYTES => Ok (sizeof_SzlValue + Z.of_nat (length (vbuf s)))
  | TUPLE | ARRAY | MAP =>
      let fs := map (fun '(k, sub) v mem =>
        if bool_decide (k = STRING) || bool_decide (k = BYTES)
        then Ok (mem + Z.of_nat (length (vbuf v)))
        else
          match sub with
          | Some sub => m ← Memory sub v; Ok (mem + (m - sizeof_SzlValue))
          | None => if negb (IsSimpleBaseKind k) then Fatal else Ok mem
          end) cells in
      loop_fold fs fs (vvals s)
        (sizeof_SzlValue + Z.of_nat (length (vvals s)) * sizeof_SzlValue)
  | _ => Fatal
  end.

(* @src src/src/emitvalues/szlvalue.cc 298-328 SzlOps::ClearInternal *)
Fixpoint Clear (o : SzlOps) (val : SzlValue) : res SzlValue :=
  let '(MkOps t cells) := o in
  match kind_ t with
  | BOOL | FINGERPRINT | INT | TIME | FLOAT => Ok val
  | STRING | BYTES => Ok (VStr [])
  | TUPLE | ARRAY | MAP =>
      let fs := map (fun '(k, sub) v =>
        if bool_decide (k = STRING) || bool_decide (k = BYTES) then Ok (VStr [])
        else
          match sub with
          | Some sub => Clear sub v
          | None => if negb (IsSimpleBaseKind k) then Fatal else Ok v
          end) cells in
      _ ← loop_map fs fs (vvals val);
      Ok (VVals [])
  | _ => Fatal
  end.

(** The zero of one cell of a tuple. *)
(* @src src/src/emitvalues/szlvalue.cc 330-388 SzlOps::AssignZero *)
Definition zero_cell (c : Kind * option SzlOps) (v : SzlValue) : res SzlValue :=
  let '(k, sub) := c in
  match sub with
  | Some sub => Clear sub v
  | None =>
      if bool_decide (k = STRING) || bool_decide (k = BYTES) then Ok (VStr [])
      else if bool_decide (k = FLOAT) then Ok (VFloat 0)
      else if IsSimpleBaseKind k then Ok (VInt 0)
      else Fatal
  end.

(** [vals == NULL ? new SzlValue[n] : vals]. *)
Definition alloc (n : nat) (vals : list SzlValue) : list SzlValue :=
  match vals with [] => replicate n VNil | _ => vals end.

(* @src src/src/emitvalues/szlvalue.cc 330-388 SzlOps::AssignZero *)
Definition AssignZero (o : SzlOps) (val : SzlValue) : res SzlValue :=
  match ops_kind o with
  | BOOL | FINGERPRINT | INT | TIME => Ok (VInt 0)
  | FLOAT => Ok (VFloat 0)
  | STRING | BYTES => Ok (VStr [])
  | TUPLE =>
      let fs := map zero_cell (cells_ o) in
      vals ← loop_map fs fs (alloc (nflats_ o) (vvals val));
      Ok (VVals vals)
  | ARRAY | MAP => Clear o val
  | _ => Fatal
  end.

(** ** ToFloat *)

(** The [floats] array of [nflats_] doubles. *)
(* @src src/src/emitvalues/szlvalue.cc 392-423 SzlOps::ToFloat *)
Definition ToFloat (o : SzlOps) (s : SzlValue) : res (list Z) :=
  match ops_kind o with
  | INT => Ok [f64_of_int (vi s)]
  | FLOAT => Ok [vf s]
  | TUPLE =>
      match vvals s with
      | [] => Ok (replicate (nflats_ o) 0)
      | vals =>
          let fs := map (fun '(k, _) v =>
            if bool_decide (k = FLOAT) then Ok (vf v)
            else if bool_decide (k = INT) then Ok (f64_of_int (vi v))
            else Fatal) (cells_ o) in
          loop_map fs fs vals
      end
  | _ => Fatal
  end.

(** [if (vals == NULL) vals = new SzlValue[n]; else CHECK_EQ(n, len);] *)
Definition alloc_eq (n : nat) (vals : list SzlValue) : res (list SzlValue) :=
  match vals with
  | [] => Ok (replicate n VNil)
  | _ => _ ← check (length vals =? n)%nat; Ok vals
  end.

(** The shared start of [AssignRange] and [Negate]: a destination of another
    length is cleared; two tuples of different nonzero lengths abort. *)
(* @src src/src/emitvalues/szlvalue.cc 450-456 SzlOps::AssignRange *)
Definition clear_unless_len (o : SzlOps) (s d : SzlValue) : res SzlValue :=
  if (length (vvals s) =? length (vvals d))%nat then Ok d
  else
    _ ← check (negb (bool_decide (ops_kind o = TUPLE))
               || (length (vvals s) =? 0)%nat || (length (vvals d) =? 0)%nat);
    Clear o d.

(** ** Assign *)

(** One position of the assignment loop for a cell without operations object. *)
(* @src src/src/emitvalues/szlvalue.cc 481-490 SzlOps::AssignRange *)
Definition assign_base (k : Kind) (s : SzlValue) : res SzlValue :=
  if bool_decide (k = STRING) || bool_decide (k = BYTES) then Ok (VStr (vbuf s))
  else if bool_decide (k = FLOAT) then Ok (VFloat (vf s))
  else if IsSimpleBaseKind k then Ok (VInt (vi s))
  else Fatal.

(** [Assign(s, d)] over the full range; every position of [d] is overwritten. *)
(* @src src/src/emitvalues/szlvalue.cc 508-537 SzlOps::Assign *)
Fixpoint Assign (o : SzlOps) (s d : SzlValue) : res SzlValue :=
  let '(MkOps t cells) := o in
  match kind_ t with
  | BOOL | FINGERPRINT | INT | TIME => Ok (VInt (vi s))
  | FLOAT => Ok (VFloat (vf s))
  | STRING | BYTES => Ok (VStr (vbuf s))
  | TUPLE | ARRAY | MAP =>
      d ← clear_unless_len o s d;
      match vvals s with
      | [] => Ok d
      | svals =>
          _ ← check (negb (bool_decide (kind_ t = TUPLE)) || (length svals =? length cells)%nat);
          dvals ← alloc_eq (length svals) (vvals d);
          let fs := map (fun '(k, sub) '(sv, dv) =>
            match sub with
            | Some sub => Assign sub sv dv
            | None => assign_base k sv
            end) cells in
          vals ← loop_map fs fs (zip svals dvals);
          Ok (VVals vals)
      end
  | _ => Fatal
  end.

(** The assignment of one flattened position. *)
Definition assign_cell (c : Kind * option SzlOps) (sv dv : SzlValue) : res SzlValue :=
  match c with (_, Some sub) => Assign sub sv dv | (k, None) => assign_base k sv end.

(** The range [start .. end) of a container; any other type has the range 0..1. *)
(* @src src/src/emitvalues/szlvalue.cc 446-501 SzlOps::AssignRange *)
Definition AssignRange (o : SzlOps) (s : SzlValue) (start end_ : Z) (d : SzlValue) : res SzlValue :=
  match ops_kind o with
  | TUPLE | ARRAY | MAP =>
      d ← clear_unless_len o s d;
      match vvals s with
      | [] => Ok d
      | svals =>
          _ ← check (negb (bool_decide (ops_kind o = TUPLE)) || (length svals =? nflats_ o)%nat);
          _ ← check ((0 <=? start) && (end_ <=? Z.of_nat (length svals)) && (start <=? end_));
          dvals ← alloc_eq (length svals) (vvals d);
          let fs := map (fun c '(i, (sv, dv)) =>
            if (start <=? i) && (i <? end_) then assign_cell c sv dv else Ok dv) (cells_ o) in
          vals ← loop_map fs fs (zip (seqZ 0 (Z.of_nat (length svals))) (zip svals dvals));
          Ok (VVals vals)
      end
  | _ => if negb (start + 1 =? end_) || negb (start =? 0) then Fatal else Assign o s d
  end.

(* @src src/src/emitvalues/szlvalue.cc 503-505 SzlOps::AssignAtPos *)
Definition AssignAtPos (o : SzlOps) (s : SzlValue) (pos : Z) (d : SzlValue) : res SzlValue :=
  AssignRange o s pos (pos + 1) d.

(** ** Putting a base value at a flattened position *)

(** [put] overwrites the value at [pos]; a tuple without storage gets some. *)
(* @src src/src/emitvalues/szlvalue.cc 539-562 SzlOps::SzlFlatValueAt *)
Definition SzlFlatValueAt (o : SzlOps) (pos : nat) (d : SzlValue) (expected : Kind)
    (put : SzlValue) : res SzlValue :=
  if negb (bool_decide (flats_ o !! pos = Some expected)) then Fatal
  else if bool_decide (ops_kind o = TUPLE)
  then Ok (VVals (<[pos := put]> (alloc (nflats_ o) (vvals d))))
  else Ok put.

(* @src src/src/emitvalues/szlvalue.cc 566-569 SzlOps::PutBool *)
Definition ops_PutBool (o : SzlOps) (b : bool) (pos : nat) (d : SzlValue) : res SzlValue :=
  SzlFlatValueAt o pos d BOOL (VInt (Z.b2z b)).
(* @src src/src/emitvalues/szlvalue.cc 571-574 SzlOps::PutBytes *)
Definition ops_PutBytes (o : SzlOps) (s : bytes) (pos : nat) (d : SzlValue) : res SzlValue :=
  SzlFlatValueAt o pos d BYTES (VStr s).
(* @src src/src/emitvalues/szlvalue.cc 576-579 SzlOps::PutFloat *)
Definition ops_PutFloat (o : SzlOps) (f : Z) (pos : nat) (d : SzlValue) : res SzlValue :=
  SzlFlatValueAt o pos d FLOAT (VFloat f).
(* @src src/src/emitvalues/szlvalue.cc 581-584 SzlOps::PutInt *)
Definition ops_PutInt (o : SzlOps) (i : Z) (pos : nat) (d : SzlValue) : res SzlValue :=
  SzlFlatValueAt o pos d INT (VInt i).
(* @src src/src/emitvalues/szlvalue.cc 586-589 SzlOps::PutFingerprint *)
Definition ops_PutFingerprint (o : SzlOps) (fp : Z) (pos : nat) (d : SzlValue) : res SzlValue :=
  SzlFlatValueAt o pos d FINGERPRINT (VInt (s64 fp)).
(* @src src/src/emitvalues/szlvalue.cc 591-594 SzlOps::PutTime *)
Definition ops_PutTime (o : SzlOps) (t : Z) (pos : nat) (d : SzlValue) : res SzlValue :=
  SzlFlatValueAt o pos d TIME (VInt (s64 t)).
(** A string is stored with its terminating NUL, the empty one as NULL. *)
(* @src src/src/emitvalues/szlvalue.cc 596-608 SzlOps::PutString *)
Definition ops_PutString (o : SzlOps) (s : bytes) (pos : nat) (d : SzlValue) : res SzlValue :=
  SzlFlatValueAt o pos d STRING (VStr match s with [] => [] | _ => s ++ [0] end).

(** ** Negate *)

(* @src src/src/emitvalues/szlvalue.cc 648-655 SzlOps::NegateInternal *)
Definition negate_base (k : Kind) (s : SzlValue) : res SzlValue :=
  if bool_decide (k = FLOAT) then Ok (VFloat (f64_opp (vf s)))
  else if IsSimpleBaseKind k then Ok (VInt (s64 (- vi s)))
  else Fatal.

(** The key of a map is copied, every other value negated. [-i] wraps. *)
(* @src src/src/emitvalues/szlvalue.cc 611-664 SzlOps::NegateInternal *)
Fixpoint Negate (o : SzlOps) (s d : SzlValue) : res SzlValue :=
  let '(MkOps t cells) := o in
  match kind_ t with
  | BOOL | FINGERPRINT | INT | TIME => Ok (VInt (s64 (- vi s)))
  | FLOAT => Ok (VFloat (f64_opp (vf s)))
  | TUPLE | ARRAY | MAP =>
      d ← clear_unless_len o s d;
      match vvals s with
      | [] => Ok d
      | svals =>
          dvals ← alloc_eq (length svals) (vvals d);
          _ ← check (negb (bool_decide (kind_ t = MAP)) || (length cells =? 2)%nat);
          let fs := map (fun '(k, sub) '(i, (sv, dv)) =>
            if Nat.even i && bool_decide (kind_ t = MAP) then assign_cell (k, sub) sv dv
            else
              match sub with
              | Some sub => Negate sub sv dv
              | None => negate_base k sv
              end) cells in
          vals ← loop_map fs fs (zip (seq 0 (length svals)) (zip svals dvals));
          Ok (VVals vals)
      end
  | _ => Fatal
  end.

(** ** Comparison

    A pointer to a value that may be NULL is an option; -1, 0 and 1 (and the sign
    of [memcmp]) are a [comparison]. *)

(** [CmpBaseT] on integers. *)
(* @src src/src/public/szlvalue.h 281-285 SzlOps::CmpBaseT *)
Definition CmpBaseT (a b : Z) : comparison := if a <? b then Lt else if b <? a then Gt else Eq.

(* @src src/src/emitvalues/szlvalue.cc 669-695 SzlOps::CmpStr *)
Definition CmpStr (s0 s1 : option SzlValue) : comparison :=
  match s0, s1 with
  | None, None => Eq
  | None, Some s1 => CmpBaseT 0 (Z.of_nat (length (vbuf s1)))
  | Some s0, None => CmpBaseT (Z.of_nat (length (vbuf s0))) 0
  | Some s0, Some s1 =>
      let len := Nat.min (length (vbuf s0)) (length (vbuf s1)) in
      match str_cmp (take len (vbuf s0)) (take len (vbuf s1)) with (* memcmp *)
      | Eq => CmpBaseT (Z.of_nat (length (vbuf s0))) (Z.of_nat (length (vbuf s1)))
      | c => c
      end
  end.

(** [s == NULL ? 0 : s->i], as [int64] and as [uint64], and [s->f]. *)
Definition oi (s : option SzlValue) : Z := match s with None => 0 | Some v => vi v end.
Definition ou (s : option SzlValue) : Z := match s with None => 0 | Some v => u64 (vi v) end.
Definition of_ (s : option SzlValue) : Z := match s with None => 0 | Some v => vf v end.

(* @src src/src/emitvalues/szlvalue.cc 700-722 SzlOps::CmpBase *)
Definition CmpBase (kind : Kind) (s0 s1 : option SzlValue) : res comparison :=
  match kind with
  | INT => Ok (CmpBaseT (oi s0) (oi s1))
  | BOOL | FINGERPRINT | TIME => Ok (CmpBaseT (ou s0) (ou s1))
  | FLOAT => Ok (f64_cmp (of_ s0) (of_ s1))
  | STRING | BYTES => Ok (CmpStr s0 s1)
  | _ => Fatal
  end.

(** The pairs the comparison loop visits: [len] positions, NULL for every
    position of an empty operand. *)
Definition cmp_pairs (len : nat) (l0 l1 : list SzlValue)
    : list (option SzlValue * option SzlValue) :=
  map (fun i => (l0 !! i, l1 !! i)) (seq 0 len).

Definition ovals (s : option SzlValue) : list SzlValue :=
  match s with None => [] | Some v => vvals v end.

(** The inline cases and [CmpInternal]. *)
(* @src src/src/emitvalues/szlvalue.cc 725-787 SzlOps::CmpInternal *)
Fixpoint Cmp (o : SzlOps) (s0 s1 : option SzlValue) : res comparison :=
  let '(MkOps t cells) := o in
  let fs := map (fun '(k, sub) '(v0, v1) =>
    match sub with
    | Some sub => Cmp sub v0 v1
    | None => CmpBase k v0 v1
    end) cells in
  let len0 := length (ovals s0) in
  let len1 := length (ovals s1) in
  match kind_ t with
  | TUPLE =>
      if (len0 =? 0)%nat && (len1 =? 0)%nat then Ok Eq
      else loop_cmp fs fs (cmp_pairs (length cells) (ovals s0) (ovals s1))
  | ARRAY | MAP =>
      if (len0 =? 0)%nat && (len1 =? 0)%nat then Ok Eq
      else if (len0 =? 0)%nat then Ok Lt
      else if (len1 =? 0)%nat then Ok Gt
      else
        c ← loop_cmp fs fs (cmp_pairs (Nat.min len0 len1) (ovals s0) (ovals s1));
        match c with
        | Eq => Ok (CmpBaseT (Z.of_nat len0) (Z.of_nat len1))
        | _ => Ok c
        end
  | k => CmpBase k s0 s1
  end.

(* @src src/src/public/szlvalue.h 188-190 SzlOps::Eq *)
Definition Eq_ (o : SzlOps) (s0 s1 : SzlValue) : res bool :=
  c ← Cmp o (Some s0) (Some s1); Ok (match c with Eq => true | _ => false end).
(* @src src/src/public/szlvalue.h 200-202 SzlOps::Less *)
Definition Less (o : SzlOps) (s0 s1 : SzlValue) : res bool :=
  c ← Cmp o (Some s0) (Some s1); Ok (match c with Lt => true | _ => false end).

(* @src src/src/emitvalues/szlvalue.cc 789-844 SzlOps::LessAtPos *)
Definition LessAtPos (o : SzlOps) (s0 : SzlValue) (pos : nat) (s1 : SzlValue) : res bool :=
  if negb (bool_decide (ops_kind o = TUPLE)) then Less o s0 s1
  else
    match flats_ o !! pos with
    | None => Fatal
    | Some k =>
        if negb (BaseKind k) then Fatal
        else
          let is_str := bool_decide (k = STRING) || bool_decide (k = BYTES) in
          let v0 := nth pos (vvals s0) VNil in
          let v1 := nth pos (vvals s1) VNil in
          match vvals s0, vvals s1 with
          | [], [] => Ok false
          | [], _ =>
              if is_str then Ok (negb (length (vbuf v1) =? 0)%nat)
              else if bool_decide (k = FLOAT) then Ok (f64_ltb 0 (vf v1))
              else if bool_decide (k = INT) then Ok (0 <? vi v1)
              else Ok (0 <? u64 (vi v1))
          | _, [] =>
              if bool_decide (k = FLOAT) then Ok (f64_ltb (vf v0) 0)
              else if bool_decide (k = INT) then Ok (vi v0 <? 0)
              else Ok false
          | _, _ =>
              if is_str
              then Ok (match CmpStr (Some v0) (Some v1) with Lt => true | _ => false end)
              else if bool_decide (k = FLOAT) then Ok (f64_ltb (vf v0) (vf v1))
              else if bool_decide (k = INT) then Ok (vi v0 <? vi v1)
              else Ok (u64 (vi v0) <? u64 (vi v1))
          end
    end.

(** ** Add and Sub

    [+=] on [int64] wraps. *)

(* @src src/src/emitvalues/szlvalue.cc 860-867 SzlOps::AddInternal *)
Definition add_base (k : Kind) (s d : SzlValue) : res SzlValue :=
  if bool_decide (k = FLOAT) then Ok (VFloat (f64_add (vf d) (vf s)))
  else if IsSimpleBaseKind k then Ok (VInt (s64 (vi d + vi s)))
  else Fatal.

(** The (key, value) pairs of a map's storage. *)
Fixpoint to_pairs (vals : list SzlValue) : list (SzlValue * SzlValue) :=
  match vals with
  | k :: v :: vals => (k, v) :: to_pairs vals
  | _ => []
  end.
Definition of_pairs (ps : list (SzlValue * SzlValue)) : list SzlValue :=
  ps ≫= fun '(k, v) => [k; v].

Section MapAdd.
(** The comparison of two keys; the sum of two values; the copy of a pair over
    the pair that is there. *)
Context (cmp_key : SzlValue -> SzlValue -> res comparison)
        (add_val : SzlValue -> SzlValue -> res SzlValue)
        (copy_pair : SzlValue * SzlValue -> SzlValue * SzlValue -> res (SzlValue * SzlValue)).

(** First pass: where each source pair goes and whether it is copied there, where
    each destination pair goes, and the number of pairs of the sum. *)
(* @src src/src/emitvalues/szlvalue.cc 918-952 SzlOps::AddInternal *)
Fixpoint map_targets (s : list (SzlValue * SzlValue)) : list (SzlValue * SzlValue) -> nat ->
    res (list (nat * bool) * list nat * nat) :=
  fix go (d : list (SzlValue * SzlValue)) (target_i : nat) :=
    match s, d with
    | [], [] => Ok ([], [], target_i)
    | [], _ :: d =>
        '(st, dt, n) ← go d (S target_i); Ok (st, target_i :: dt, n)
    | _ :: s, [] =>
        '(st, dt, n) ← map_targets s [] (S target_i); Ok ((target_i, true) :: st, dt, n)
    | (sk, _) :: s', (dk, _) :: d' =>
        c ← cmp_key sk dk;
        match c with
        | Eq =>
            '(st, dt, n) ← map_targets s' d' (S target_i);
            Ok ((target_i, false) :: st, target_i :: dt, n)
        | Lt =>
            '(st, dt, n) ← map_targets s' d (S target_i);
            Ok ((target_i, true) :: st, dt, n)
        | Gt =>
            '(st, dt, n) ← go d' (S target_i);
            Ok (st, target_i :: dt, n)
        end
    end.

(** Moving the destination pairs to their places in the new storage. *)
(* @src src/src/emitvalues/szlvalue.cc 959-975 SzlOps::AddInternal *)
Fixpoint map_place (dt : list nat) (d new_vals : list (SzlValue * SzlValue)) :=
  match dt, d with
  | i :: dt, p :: d => map_place dt d (<[i := p]> new_vals)
  | _, _ => new_vals
  end.

(** Second pass: copying or adding each source pair. *)
(* @src src/src/emitvalues/szlvalue.cc 976-1017 SzlOps::AddInternal *)
Fixpoint map_sum (st : list (nat * bool)) (s d : list (SzlValue * SzlValue)) :
    res (list (SzlValue * SzlValue)) :=
  match st, s with
  | (i, copy) :: st, (sk, sv) :: s =>
      match d !! i with
      | None => Fatal (* out of the array *)
      | Some (dk, dv) =>
          p ← (if copy : bool then copy_pair (sk, sv) (dk, dv)
               else w ← add_val sv dv; Ok (dk, w));
          map_sum st s (<[i := p]> d)
      end
  | _, _ => Ok d
  end.

(* @src src/src/emitvalues/szlvalue.cc 910-1018 SzlOps::AddInternal *)
Definition map_add (s d : list (SzlValue * SzlValue)) : res (list (SzlValue * SzlValue)) :=
  '(st, dt, n) ← map_targets s d 0;
  map_sum st s
    (if (length d <? n)%nat then map_place dt d (replicate n (VNil, VNil)) else d).
End MapAdd.

(** The inline cases and [AddInternal]. *)
(* @src src/src/emitvalues/szlvalue.cc 847-1024 SzlOps::AddInternal *)
Fixpoint Add (o : SzlOps) (s d : SzlValue) : res SzlValue :=
  let '(MkOps t cells) := o in
  let adds := map (fun '(k, sub) s d =>
    match sub with Some sub => Add sub s d | None => add_base k s d end) cells in
  match kind_ t with
  | BOOL | FINGERPRINT | INT | TIME => Ok (VInt (s64 (vi d + vi s)))
  | FLOAT => Ok (VFloat (f64_add (vf d) (vf s)))
  | TUPLE =>
      match vvals s, vvals d with
      | [], _ => Ok d
      | _, [] => Assign o s d
      | svals, dvals =>
          let fs := map (fun f '(sv, dv) => f sv dv) adds in
          vals ← loop_map fs fs (zip svals dvals); Ok (VVals vals)
      end
  | MAP =>
      match vvals s, vvals d with
      | [], _ => Ok d
      | _, [] => Assign o s d
      | svals, dvals =>
          _ ← check (length (indices_ t) =? 1)%nat;
          match cells, adds with
          | [(key_kind, key_ops) as key_cell; value_cell], [_; add_val] =>
              ps ← map_add
                (fun k0 k1 =>
                   match key_ops with
                   | Some key_ops => Cmp key_ops (Some k0) (Some k1)
                   | None => CmpBase key_kind (Some k0) (Some k1)
                   end)
                add_val
                (fun '(sk, sv) '(dk, dv) =>
                   k ← assign_cell key_cell sk dk; v ← assign_cell value_cell sv dv; Ok (k, v))
                (to_pairs svals) (to_pairs dvals);
              Ok (VVals (of_pairs ps))
          | _, _ => Fatal
          end
      end
  | _ => Fatal
  end.

(* @src src/src/emitvalues/szlvalue.cc 1027-1061 SzlOps::Sub *)
Fixpoint Sub (o : SzlOps) (s d : SzlValue) : res SzlValue :=
  let '(MkOps t cells) := o in
  match kind_ t with
  | BOOL | FINGERPRINT | INT | TIME => Ok (VInt (s64 (vi d - vi s)))
  | FLOAT => Ok (VFloat (f64_sub (vf d) (vf s)))
  | TUPLE =>
      match vvals s, vvals d with
      | [], _ => Ok d
      | _, [] => Negate o s d
      | svals, dvals =>
          let fs := map (fun '(k, sub) '(sv, dv) =>
            match sub with
            | Some sub => Sub sub sv dv
            | None =>
                if bool_decide (k = FLOAT) then Ok (VFloat (f64_sub (vf dv) (vf sv)))
                else Ok (VInt (s64 (vi dv - vi sv)))
            end) cells in
          vals ← loop_map fs fs (zip svals dvals); Ok (VVals vals)
      end
  | _ => Fatal
  end.

(** ** Encoding *)

(* @src src/src/emitvalues/szlvalue.cc 1074-1111 SzlOpsDoEncode *)
Definition SzlOpsDoEncode (kind : Kind) (s : SzlValue) (enc : SzlEncoder) : res SzlEncoder :=
  match kind with
  | BOOL => Ok (PutBool enc (negb (vi s =? 0)))
  | FINGERPRINT => Ok (PutFingerprint enc (u64 (vi s)))
  | INT => Ok (PutInt enc (vi s))
  | TIME => Ok (PutTime enc (u64 (vi s)))
  | FLOAT => PutFloat enc (vf s)
  | STRING => Ok (PutString enc (take (length (vbuf s) - 1) (vbuf s)))
  | BYTES => Ok (PutBytes enc (vbuf s))
  | _ => Fatal
  end.

(* @src src/src/emitvalues/szlvalue.cc 1114-1141 EncodeDefaultBase *)
Definition EncodeDefaultBase (kind : Kind) (enc : SzlEncoder) : res SzlEncoder :=
  match kind with
  | BOOL => Ok (PutBool enc false)
  | FINGERPRINT => Ok (PutFingerprint enc 0)
  | INT => Ok (PutInt enc 0)
  | TIME => Ok (PutTime enc 0)
  | FLOAT => PutFloat enc 0
  | STRING => Ok (PutString enc [])
  | BYTES => Ok (PutBytes enc [])
  | _ => Fatal
  end.

(** Nothing is written for a map. *)
(* @src src/src/emitvalues/szlvalue.cc 1144-1157 SzlOps::EncodeDefault *)
Fixpoint EncodeDefault (o : SzlOps) (enc : SzlEncoder) : res SzlEncoder :=
  let '(MkOps t cells) := o in
  match kind_ t with
  | TUPLE =>
      foldl (fun r f => enc ← r; f enc) (Ok enc)
        (map (fun '(k, sub) enc =>
           match sub with
           | Some sub => EncodeDefault sub enc
           | None => EncodeDefaultBase k enc
           end) cells)
  | MAP => Ok enc
  | k => EncodeDefaultBase k enc
  end.

(* @src src/src/emitvalues/szlvalue.cc 1160-1207 SzlOps::EncodeInternal *)
Fixpoint EncodeInternal (o : SzlOps) (s : SzlValue) (enc : SzlEncoder) (top_level : bool) :
    res SzlEncoder :=
  let '(MkOps t cells) := o in
  let fs := map (fun '(k, sub) v enc =>
    match sub with
    | Some sub => EncodeInternal sub v enc false
    | None => SzlOpsDoEncode k v enc
    end) cells in
  match kind_ t with
  | TUPLE =>
      enc ← (if top_level then Ok enc else Start enc TUPLE);
      enc ← match vvals s with
            | [] => EncodeDefault o enc
            | vals => loop_fold fs fs vals enc
            end;
      if top_level then Ok enc else End_ enc TUPLE
  | MAP =>
      enc ← Start enc MAP;
      let enc := PutInt enc (Z.of_nat (length (vvals s))) in
      enc ← loop_fold fs fs (vvals s) enc;
      End_ enc MAP
  | ARRAY =>
      enc ← Start enc ARRAY;
      enc ← loop_fold fs fs (vvals s) enc;
      End_ enc ARRAY
  | k => SzlOpsDoEncode k s enc
  end.

(* @src src/src/emitvalues/szlvalue.cc 1210-1212 SzlOps::Encode *)
Definition Encode (o : SzlOps) (s : SzlValue) (enc : SzlEncoder) : res SzlEncoder :=
  EncodeInternal o s enc true.

(** The string replaces the caller's, in spite of the name. *)
(* @src src/src/emitvalues/szlvalue.cc 1063-1067 SzlOps::AppendToString *)
Definition AppendToString (o : SzlOps) (v : SzlValue) : res bytes :=
  enc ← Encode o v enc_new; Ok (fst (enc_Swap enc)).

(** ** Skipping and decoding *)

Definition skips := list (SzlDecoder -> option SzlDecoder).

(** [for (i = 0; i < len; ++i)] over encoded values. A round consumes a byte or
    fails, so one more round than bytes is enough fuel. *)
(* @src src/src/emitvalues/szlvalue.cc 1419-1428 SzlOps::SkipInternal *)
Fixpoint skip_count (fuel : nat) (all cur : skips) (len : Z) (dec : SzlDecoder) : option SzlDecoder :=
  if len <=? 0 then Some dec
  else
    match fuel, next_cell all cur with
    | S fuel, Some (f, cur) => dec ← f dec; skip_count fuel all cur (len - 1) dec
    | _, _ => None
    end.

(** [for (i = 0; !dec->done(); ++i) { if (dec->IsEnd(..)) break; ... }]. *)
(* @src src/src/emitvalues/szlvalue.cc 1439-1451 SzlOps::SkipInternal *)
Fixpoint skip_until_end (fuel : nat) (all cur : skips) (dec : SzlDecoder) : option SzlDecoder :=
  if done_ dec || IsEnd dec ARRAY then Some dec
  else
    match fuel, next_cell all cur with
    | S fuel, Some (f, cur) => dec ← f dec; skip_until_end fuel all cur dec
    | _, _ => None
    end.

(* @src src/src/emitvalues/szlvalue.cc 1379-1462 SzlOps::SkipInternal *)
Fixpoint SkipInternal (o : SzlOps) (dec : SzlDecoder) (top_level : bool) : option SzlDecoder :=
  let '(MkOps t cells) := o in
  let fs := map (fun '(k, sub) dec =>
    match sub with Some sub => SkipInternal sub dec false | None => Decoder.Skip dec k end) cells in
  match kind_ t with
  | BOOL | BYTES | FINGERPRINT | INT | FLOAT | STRING | TIME => Decoder.Skip dec (kind_ t)
  | TUPLE =>
      dec ← (if top_level then Some dec else GetStart dec TUPLE);
      dec ← foldl (fun r f => dec ← r; f dec) (Some dec) fs;
      if top_level then Some dec else GetEnd dec TUPLE
  | MAP =>
      dec ← GetStart dec MAP;
      '(len, dec) ← GetInt dec;
      dec ← skip_count (S (length (p_ dec))) fs fs len dec;
      GetEnd dec MAP
  | ARRAY =>
      dec ← GetStart dec ARRAY;
      dec ← skip_until_end (length (p_ dec)) fs fs dec;
      GetEnd dec ARRAY
  | _ => None
  end.

(* @src src/src/emitvalues/szlvalue.cc 1465-1467 SzlOps::Skip *)
Definition ops_Skip (o : SzlOps) (dec : SzlDecoder) : option SzlDecoder := SkipInternal o dec true.

(* @src src/src/emitvalues/szlvalue.cc 1215-1271 SzlOpsDoDecode *)
Definition SzlOpsDoDecode (kind : Kind) (dec : SzlDecoder) (val : SzlValue) :
    option (SzlDecoder * SzlValue) :=
  match kind with
  | BOOL => '(v, dec) ← GetBool dec; Some (dec, VInt (Z.b2z v))
  | FINGERPRINT => '(v, dec) ← GetFingerprint dec; Some (dec, VInt (s64 v))
  | INT => '(v, dec) ← GetInt dec; Some (dec, VInt v)
  | TIME => '(v, dec) ← GetTime dec; Some (dec, VInt (s64 v))
  | FLOAT => '(v, dec) ← GetFloat dec; Some (dec, VFloat v)
  | STRING =>
      '(str, dec) ← GetString dec;
      Some (dec, VStr match str with [] => [] | _ => str ++ [0] end)
  | BYTES => '(str, dec) ← GetBytes dec; Some (dec, VStr str)
  | _ => None
  end.

(** Counting the elements of an array on a second decoder. *)
(* @src src/src/emitvalues/szlvalue.cc 1324-1343 SzlOps::DecodeInternal *)
Fixpoint count_elements (fuel : nat) (skip : SzlDecoder -> option SzlDecoder)
    (dec2 : SzlDecoder) (len : Z) : option Z :=
  if done_ dec2 || IsEnd dec2 ARRAY then Some len
  else
    match fuel with
    | O => None
    | S fuel => dec2 ← skip dec2; count_elements fuel skip dec2 (len + 1)
    end.

(** The storage for [len] values: what is there when the length is right, fresh
    values otherwise. Asking for 2^31 values or more is taken to fail in the
    allocator. *)
(* @src src/src/emitvalues/szlvalue.cc 1345-1352 SzlOps::DecodeInternal *)
Definition resize_vals (o : SzlOps) (val : SzlValue) (len : Z) : res (list SzlValue) :=
  let same := len =? Z.of_nat (length (vvals val)) in
  val ← (if same then Ok val else Clear o val);
  if (0 <? len) && negb same
  then if len <? 2 ^ 31 then Ok (replicate (Z.to_nat len) VNil) else Fatal
  else Ok (vvals val).

(* @src src/src/emitvalues/szlvalue.cc 1274-1371 SzlOps::DecodeInternal *)
Fixpoint DecodeInternal (o : SzlOps) (dec : SzlDecoder) (val : SzlValue) (top_level : bool) :
    res (SzlDecoder * SzlValue) :=
  let '(MkOps t cells) := o in
  let fs := map (fun '(k, sub) v '(dec, done) =>
    '(dec, v) ← match sub with
                | Some sub => DecodeInternal sub dec v false
                | None => of_opt (SzlOpsDoDecode k dec v)
                end;
    Ok (dec, done ++ [v])) cells in
  match kind_ t with
  | TUPLE =>
      dec ← (if top_level then Ok dec else of_opt (GetStart dec TUPLE));
      '(dec, vals) ← loop_fold fs fs (alloc (length cells) (vvals val)) (dec, []);
      dec ← (if top_level then Ok dec else of_opt (GetEnd dec TUPLE));
      Ok (dec, VVals vals)
  | MAP =>
      dec ← of_opt (GetStart dec MAP);
      '(len, dec) ← of_opt (GetInt dec);
      vals ← resize_vals o val len;
      '(dec, vals) ← loop_fold fs fs vals (dec, []);
      dec ← of_opt (GetEnd dec MAP);
      Ok (dec, VVals vals)
  | ARRAY =>
      dec ← of_opt (GetStart dec ARRAY);
      _ ← check (length cells =? 1)%nat;
      let skip d := match cells with
                    | (_, Some sub) :: _ => SkipInternal sub d false
                    | (k, None) :: _ => Decoder.Skip d k
                    | [] => None
                    end in
      len ← of_opt (count_elements (length (p_ dec)) skip (dec_Init (p_ dec)) 0);
      vals ← resize_vals o val len;
      '(dec, vals) ← loop_fold fs fs vals (dec, []);
      dec ← of_opt (GetEnd dec ARRAY);
      Ok (dec, VVals vals)
  | k => of_opt (SzlOpsDoDecode k dec val)
  end.

(* @src src/src/emitvalues/szlvalue.cc 1374-1376 SzlOps::Decode *)
Definition Decode (o : SzlOps) (dec : SzlDecoder) (val : SzlValue) : res (SzlDecoder * SzlValue) :=
  DecodeInternal o dec val true.

(* @src src/src/emitvalues/szlvalue.cc 1069-1072 SzlOps::ParseFromArray *)
Definition ParseFromArray (o : SzlOps) (buf : bytes) (val : SzlValue) : res SzlValue :=
  '(_, val) ← Decode o (dec_Init buf) val; Ok val.
