(* ===== verification/ValueCodec.v ===== *)
(** * Typed values, and their encoding

    What it means for an operations object to be well formed and for a value to
    have its type; building from a type gives a well-formed object; encoding and
    decoding are inverse on typed values of any nesting, and skipping agrees. *)
From Stdlib Require Import ZArith Lia.
From stdpp Require Import prelude strings.
From S2P Require Import Prelude SzlType Encoder Decoder Double Codec SzlValue.

Local Open Scope Z_scope.

(** ** Induction over nested operations objects *)

Definition on_sub (P : SzlOps -> Prop) (c : Kind * option SzlOps) : Prop :=
  match c with (_, Some o) => P o | _ => True end.

Lemma SzlOps_nested_ind (P : SzlOps -> Prop) :
  (forall t cells, Forall (on_sub P) cells -> P (MkOps t cells)) -> forall o, P o.
Proof.
  intros H. fix IH 1. intros [t cells]. apply H.
  induction cells as [|[k [o|]] cells IHc]; constructor; try exact IHc; [exact (IH o)|exact I].
Qed.

(** ** Well-formed operations objects *)

(** A cell is a base kind, or a container with its own object; a tuple can be a
    component of a map or an array only, since nested tuples are flattened. *)
Inductive ops_ok : SzlOps -> Prop :=
| ok_base t : kind_ t ∈ basic_kinds -> ops_ok (MkOps t [(kind_ t, None)])
| ok_tuple t cells :
    kind_ t = TUPLE -> Forall (cell_ok false) cells -> ops_ok (MkOps t cells)
| ok_array t c : kind_ t = ARRAY -> cell_ok true c -> ops_ok (MkOps t [c])
| ok_map t c0 c1 :
    kind_ t = MAP -> length (indices_ t) = 1%nat ->
    cell_ok true c0 -> cell_ok true c1 -> ops_ok (MkOps t [c0; c1])
with cell_ok : bool -> Kind * option SzlOps -> Prop :=
| cell_base b k : k ∈ basic_kinds -> cell_ok b (k, None)
| cell_sub b o :
    ops_ok o -> ops_kind o = MAP \/ ops_kind o = ARRAY \/ (b = true /\ ops_kind o = TUPLE) ->
    cell_ok b (ops_kind o, Some o).

Lemma cell_ok_inv b c :
  cell_ok b c ->
  (exists k, k ∈ basic_kinds /\ c = (k, None))
  \/ (exists o, ops_ok o /\ c = (ops_kind o, Some o)
      /\ (ops_kind o = MAP \/ ops_kind o = ARRAY \/ (b = true /\ ops_kind o = TUPLE))).
Proof. destruct 1; eauto 6. Qed.

(** ** Typed values *)

Definition base_ok (k : Kind) (v : SzlValue) : Prop :=
  match k with
  | BOOL | FINGERPRINT | INT | TIME => exists i, v = VInt i /\ is_s64 i
  | FLOAT => exists f, v = VFloat f /\ is_u64 f
  | STRING =>
      v = VStr [] \/ exists s, v = VStr (s ++ [0]) /\ s <> [] /\ bytes_ok s /\ Forall (fun c => c <> 0) s
  | BYTES => exists s, v = VStr s /\ bytes_ok s
  | _ => False
  end.

(** The value at each position satisfies the predicate of its cell. *)
Fixpoint loop_all (all cur : list (SzlValue -> Prop)) (vals : list SzlValue) : Prop :=
  match vals with
  | [] => True
  | v :: vals =>
      match next_cell all cur with
      | None => False
      | Some (P, cur) => P v /\ loop_all all cur vals
      end
  end.

(** A tuple may be empty, standing for its zero; lengths fit a 32-bit [int]. *)
Fixpoint val_ok (o : SzlOps) (v : SzlValue) : Prop :=
  let '(MkOps t cells) := o in
  let Ps := map (fun '(k, sub) v =>
    match sub with Some sub => val_ok sub v | None => base_ok k v end) cells in
  match kind_ t with
  | TUPLE => exists vals, v = VVals vals /\ (vals = [] \/ length vals = length cells) /\ loop_all Ps Ps vals
  | ARRAY => exists vals, v = VVals vals /\ Z.of_nat (length vals) < 2 ^ 31 /\ loop_all Ps Ps vals
  | MAP => exists vals, v = VVals vals /\ Z.of_nat (length vals) < 2 ^ 31
             /\ Nat.even (length vals) = true /\ loop_all Ps Ps vals
  | k => base_ok k v
  end.

Definition val_cell_ok : Kind * option SzlOps -> SzlValue -> Prop := fun '(k, sub) v =>
  match sub with Some sub => val_ok sub v | None => base_ok k v end.

(** What a destination may hold before: any tuple in it is empty or complete. *)
Fixpoint dest_ok (o : SzlOps) (v : SzlValue) : Prop :=
  let '(MkOps t cells) := o in
  let Ps := map (fun '(_, sub) v =>
    match sub with Some sub => dest_ok sub v | None => True end) cells in
  match kind_ t with
  | TUPLE => (vvals v = [] \/ length (vvals v) = length cells) /\ loop_all Ps Ps (vvals v)
  | ARRAY | MAP => loop_all Ps Ps (vvals v)
  | _ => True
  end.

Definition dest_cell_ok : Kind * option SzlOps -> SzlValue -> Prop := fun '(_, sub) v =>
  match sub with Some sub => dest_ok sub v | None => True end.

(** ** Building *)

Section Build.
Context (Properties : string -> option TableProperties) (IsValid : SzlType -> option string).
Abbreviation ops_new := (ops_new Properties IsValid).
Abbreviation BaseType := (BaseType Properties IsValid).

Lemma base_basic k : base_ k = true <-> k ∈ basic_kinds.
Proof.
  rewrite <- (bool_decide_eq_true (k ∈ basic_kinds)). by destruct k.
Qed.

Lemma BaseType_basic t : BaseType t = true -> kind_ t ∈ basic_kinds.
Proof.
  unfold SzlType.BaseType. destruct (Valid _ _ t); [done|]. apply base_basic.
Qed.

(** Induction over nested types. *)
Lemma SzlType_nested_ind (P : SzlType -> Prop) :
  (forall kind table param fields indices element weight,
     Forall (fun f : string * SzlType => P (snd f)) fields ->
     Forall (fun f : string * SzlType => P (snd f)) indices ->
     (forall l ty, element = Some (l, ty) -> P ty) ->
     P (MkType kind table param fields indices element weight)) -> forall t, P t.
Proof.
  intros H. fix IH 1. intros [kind table param fields indices element weight]. apply H.
  - induction fields as [|[l ty] fields IHf]; constructor; [exact (IH ty)|exact IHf].
  - induction indices as [|[l ty] indices IHf]; constructor; [exact (IH ty)|exact IHf].
  - destruct element as [[l ty]|]; intros l' ty' E; [|discriminate E].
    injection E as _ <-. exact (IH ty).
Qed.

(** What an operations object built for [t] is. *)
Definition built (t : SzlType) (o : SzlOps) : Prop :=
  ops_ok o /\ type_ o = t /\ (kind_ t ∈ basic_kinds -> BaseType t = true).

Lemma built_container t o :
  built t o -> BaseType t = false -> kind_ t = TUPLE \/ kind_ t = ARRAY \/ kind_ t = MAP.
Proof.
  intros (Hok & Ht & Hb) Hf.
  destruct Hok as [t' Hk|t' ? Hk|t' ? Hk|t' ? ? Hk]; cbn in Ht; subst t'; auto.
  rewrite Hb in Hf by done. discriminate Hf.
Qed.

Lemma SzlFlattenKinds_ok t o cs :
  (forall o', o = Ok o' -> built t o') ->
  SzlFlattenKinds Properties IsValid t o = Ok cs -> Forall (cell_ok false) cs.
Proof.
  intros Ho. unfold SzlFlattenKinds. destruct (BaseType t) eqn:Hb.
  - intros [= <-]. constructor; [|done]. by constructor; apply BaseType_basic.
  - destruct (kind_ t) eqn:Hk; try done; destruct o as [o| |]; try done; cbn; intros [= <-];
      destruct (Ho o eq_refl) as (Hok & Ht & _).
    + destruct Hok as [t' Hb'| | |]; cbn in *; subst; try congruence.
      rewrite Hk in Hb'. by apply not_basic in Hb'.
    + constructor; [|done]. replace ARRAY with (ops_kind o) by (unfold ops_kind; congruence).
      constructor; [done|]. unfold ops_kind. rewrite Ht. auto.
    + constructor; [|done]. replace MAP with (ops_kind o) by (unfold ops_kind; congruence).
      constructor; [done|]. unfold ops_kind. rewrite Ht. auto.
Qed.

Lemma component_cell_ok t o c :
  (forall o', o = Ok o' -> built t o') ->
  component_cell Properties IsValid t o = Ok c -> cell_ok true c.
Proof.
  intros Ho. unfold component_cell. destruct (BaseType t) eqn:Hb.
  - intros [= <-]. by constructor; apply BaseType_basic.
  - destruct o as [o| |]; try done; cbn; intros [= <-]. pose proof (Ho o eq_refl) as Hbt.
    pose proof (built_container t o Hbt Hb) as Hk. destruct Hbt as (Hok & Ht & _).
    replace (kind_ t) with (ops_kind o) in * by (unfold ops_kind; congruence).
    constructor; [done|]. tauto.
Qed.

Lemma ops_new_built t o : ops_new t = Ok o -> built t o.
Proof.
  revert o. induction t as [kind table param fields indices element weight IHf IHi IHe] using SzlType_nested_ind.
  intros o. cbn [SzlValue.ops_new]. set (t := MkType _ _ _ _ _ _ _).
  assert (forall cells, SzlFlattenKinds Properties IsValid t Fatal = Ok cells ->
            built t (MkOps t cells)) as Hbase.
  { unfold SzlFlattenKinds. destruct (BaseType t) eqn:Hb.
    - intros cells [= <-]. split; [|done]. constructor. by apply BaseType_basic.
    - by destruct (kind_ t). }
  assert (forall (R : res (list (Kind * option SzlOps))),
            (cells ← R; Ok (MkOps t cells)) = Ok o -> exists cells, R = Ok cells /\ o = MkOps t cells) as Hinv.
  { intros [cells| |] [= <-]. eauto. }
  destruct kind; try (by intros (cells & Hc & ->)%Hinv; apply Hbase).
  - intros (cells & Hc & ->)%Hinv. split; [|split; [done|by intros ?%not_basic]].
    apply ok_tuple; [done|]. clear Hbase Hinv t. revert cells Hc.
    induction IHf as [|[l ty] fields Hty IHf IH]; intros cells Hc; [by injection Hc as <-|].
    cbn [flat_res] in Hc.
    destruct (SzlFlattenKinds Properties IsValid ty (ops_new ty)) as [c| |] eqn:E; try done.
    apply (SzlFlattenKinds_ok ty) in E; [|exact Hty]. cbn in Hc.
    destruct (flat_res _ fields) as [cs| |] eqn:E2 in Hc; try done.
    injection Hc as <-. apply Forall_app. split; [done|]. by apply IH.
  - destruct element as [[l ty]|]; [|done]. intros H.
    destruct (component_cell Properties IsValid ty (ops_new ty)) as [c| |] eqn:E; try done.
    injection H as <-. split; [|split; [done|by intros ?%not_basic]].
    apply ok_array; [done|]. eapply component_cell_ok; [|exact E]. by apply (IHe l).
  - destruct indices as [|[il ity] [|? ?]]; try done. destruct element as [[l ty]|]; [|done]. intros H.
    destruct (component_cell Properties IsValid ity (ops_new ity)) as [ci| |] eqn:Ei; try done. cbn in H.
    destruct (component_cell Properties IsValid ty (ops_new ty)) as [c| |] eqn:E; try done.
    injection H as <-. split; [|split; [done|by intros ?%not_basic]].
    apply Forall_cons in IHi as [IHi _]. cbn in IHi.
    apply ok_map; [done|done| |].
    + eapply component_cell_ok; [exact IHi|exact Ei].
    + eapply component_cell_ok; [|exact E]. by apply (IHe l).
Qed.

(** *** A valid type always has an operations object *)

Abbreviation Valid := (Valid Properties IsValid).

Lemma first_error_None es : first_error es = None <-> Forall (fun e => e = None) es.
Proof.
  induction es as [|[e|] es IH]; cbn [first_error].
  - by split; [constructor|].
  - split; [done|]. intros H. by inversion_clear H.
  - rewrite IH. split; [by constructor|]. intros H. by inversion_clear H.
Qed.

Definition buildable (t : SzlType) : Prop :=
  Valid t = None -> kind_ t <> TABLE -> exists o, ops_new t = Ok o.

Lemma component_cell_total t :
  buildable t -> Valid t = None -> kind_ t <> TABLE ->
  exists c, component_cell Properties IsValid t (ops_new t) = Ok c.
Proof.
  intros Hb Hv Hk. destruct (Hb Hv Hk) as [o Ho]. unfold component_cell. rewrite Ho.
  destruct (BaseType t); cbn; eauto.
Qed.

Lemma SzlFlattenKinds_total t :
  buildable t -> Valid t = None -> kind_ t <> TABLE ->
  exists cs, SzlFlattenKinds Properties IsValid t (ops_new t) = Ok cs.
Proof.
  intros Hb Hv Hk. destruct (Hb Hv Hk) as [o Ho]. unfold SzlFlattenKinds. rewrite Ho.
  destruct (BaseType t) eqn:E; [eauto|]. apply ops_new_built in Ho.
  destruct (built_container t o Ho E) as [-> | [-> | ->]]; cbn; eauto.
Qed.

Lemma Valid_BaseType t : Valid t = None -> base_ (kind_ t) = true -> BaseType t = true.
Proof. unfold SzlType.BaseType. by intros ->. Qed.

Lemma not_table t e : fails (is_table t) e = None -> kind_ t <> TABLE.
Proof. unfold fails, is_table. by destruct (bool_decide_reflect (kind_ t = TABLE)). Qed.

Lemma is_table_false t : is_table t = false -> kind_ t <> TABLE.
Proof. unfold is_table. by intros ?%bool_decide_eq_false. Qed.

Lemma fails_None b e : fails b e = None -> b = false.
Proof. by destruct b. Qed.

Lemma ops_new_valid t : buildable t.
Proof.
  induction t as [kind table param fields indices element weight IHf IHi IHe] using SzlType_nested_ind.
  intros Hv Hk. cbn [kind_] in Hk. set (t := MkType _ _ _ _ _ _ _) in *.
  assert (base_ kind = true -> exists cs, SzlFlattenKinds Properties IsValid t Fatal = Ok cs) as Hbase.
  { intros Hb. unfold SzlFlattenKinds. rewrite (Valid_BaseType t Hv) by done. eauto. }
  destruct kind; try done;
    try (destruct Hbase as [cs Hcs]; [done|]; cbn; fold t; rewrite Hcs; cbn; by eauto).
  - unfold t in Hv. cbn [SzlType.Valid] in Hv. apply first_error_None in Hv.
    do 4 apply Forall_cons in Hv as [_ Hv]. apply Forall_cons in Hv as [Hv _].
    cbn. fold t. clear Hbase. clearbody t.
    enough (exists cs, flat_res (fun f : string * SzlType => let '(_, ty) := f in
              SzlFlattenKinds Properties IsValid ty (ops_new ty)) fields = Ok cs) as [cs ->] by eauto.
    induction IHf as [|[l ty] fields Hty IHf IH]; [by eexists|]. cbn in Hty. cbn -[is_table] in Hv.
    destruct (is_table ty) eqn:Ht; [done|]. destruct (Valid ty) eqn:Hvt; [done|].
    destruct (SzlFlattenKinds_total ty) as [c Hc]; [done|done|by apply is_table_false|].
    destruct IH as [cs Hcs]; [done|]. cbn [flat_res]. rewrite Hc. cbn. rewrite Hcs. cbn. by eexists.
  - unfold t in Hv. cbn [SzlType.Valid] in Hv. apply first_error_None in Hv.
    do 4 apply Forall_cons in Hv as [_ Hv]. apply Forall_cons in Hv as [Hp Hv].
    apply Forall_cons in Hv as [Hve Hv]. apply Forall_cons in Hv as [Hv _].
    destruct element as [[l ty]|]; [|done].
    destruct (component_cell_total ty) as [c Hc]; [by apply (IHe l)|done|by eapply not_table|].
    cbn. rewrite Hc. by eexists.
  - unfold t in Hv. cbn [SzlType.Valid] in Hv. apply first_error_None in Hv.
    do 3 apply Forall_cons in Hv as [_ Hv]. apply Forall_cons in Hv as [Hi Hv].
    apply Forall_cons in Hv as [Hvi Hv]. apply Forall_cons in Hv as [Hp Hv].
    apply Forall_cons in Hv as [Hve Hv]. apply Forall_cons in Hv as [Hv _].
    destruct element as [[l ty]|]; [|done].
    destruct indices as [|[il ity] [|? ?]]; try (by apply fails_None, negb_false_iff in Hi).
    apply Forall_cons in IHi as [IHi _]. cbn in IHi. cbn -[is_table] in Hvi.
    destruct (Valid ity) eqn:Hvt; [done|]. destruct (is_table ity) eqn:Ht; [done|].
    destruct (component_cell_total ity) as [ci Hci]; [done|done|by apply is_table_false|].
    destruct (component_cell_total ty) as [c Hc]; [by apply (IHe l)|done|by eapply not_table|].
    cbn. rewrite Hci. cbn. rewrite Hc. by eexists.
Qed.

(** *** The two passes over a type agree *)

Definition has_sub (cells : list (Kind * option SzlOps)) : bool :=
  existsb (fun c => match c with (_, Some _) => true | _ => false end) cells.

Lemma FlattenKinds_base_container t o cs :
  SzlFlattenKinds Properties IsValid t (Ok o) = Ok cs -> BaseType t = false ->
  (kind_ t = MAP \/ kind_ t = ARRAY) /\ cs = [(kind_ t, Some o)] \/ kind_ t = TUPLE /\ cs = cells_ o.
Proof.
  unfold SzlFlattenKinds. intros H Hb. rewrite Hb in H. destruct (kind_ t); try done; injection H as <-; auto.
Qed.

Lemma FlattenedVals_agree t depth c cs :
  0 < depth \/ (0 <= depth /\ kind_ t <> MAP /\ kind_ t <> ARRAY) -> SzlFlattenKinds Properties IsValid t (ops_new t) = Ok cs ->
  SzlFlattenedVals Properties IsValid depth t c = Ok (length cs, has_sub cs || c).
Proof.
  revert depth c cs. induction t as [kind table param fields indices element weight IHf IHi IHe]
    using SzlType_nested_ind. intros depth c cs Hd H.
  cbn [SzlFlattenedVals]. set (t := MkType _ _ _ _ _ _ _) in *.
  destruct (BaseType t) eqn:Hb.
  { unfold SzlFlattenKinds in H. rewrite Hb in H. injection H as <-. done. }
  destruct (ops_new t) as [o| |] eqn:Ho;
    [|unfold SzlFlattenKinds in H; rewrite Hb in H; by destruct (kind_ t) ..].
  destruct (FlattenKinds_base_container t o cs H Hb) as [[Hk ->]|[Hk ->]]; cbn [kind_ t] in Hk.
  - destruct Hk as [-> | ->]; cbn in Ho.
    + destruct Hd as [Hd|(? & ? & ?)]; [|done].
      destruct indices as [|[? ?] [|? ?]], element as [[? ?]|]; try done. cbn.
      by rewrite (proj2 (Z.ltb_lt 0 depth) Hd), !orb_true_r.
    + destruct Hd as [Hd|(? & ? & ?)]; [|done].
      destruct element as [[? ?]|]; try done. cbn.
      by rewrite (proj2 (Z.ltb_lt 0 depth) Hd), !orb_true_r.
  - subst kind. cbn in Ho. fold t in Ho. clear H Hb.
    destruct (flat_res _ fields) as [cells| |] eqn:E in Ho; try done. injection Ho as <-. cbn [cells_].
    clearbody t. revert c cells E. induction IHf as [|[l ty] fields Hty IHf IH]; intros c cells E.
    + by injection E as <-.
    + cbn [flat_res] in E.
      destruct (SzlFlattenKinds Properties IsValid ty (ops_new ty)) as [cs| |] eqn:E1; try done. cbn in E.
      destruct (flat_res _ fields) as [cs'| |] eqn:E2 in E; try done. injection E as <-.
      cbn in Hty. rewrite (Hty (depth + 1) c cs) by (done || lia). cbn. rewrite (IH _ cs' E2). cbn.
      unfold has_sub. rewrite length_app, existsb_app. do 2 f_equal.
      destruct (existsb _ cs), (existsb _ cs'), c; done.
Qed.
End Build.

(** A valid type other than a table always has an operations object, which
    is well formed, carries the type, and agrees with the counting pass that
    sized its arrays: the construction never aborts. *)
Theorem ops_new_total Properties IsValid t :
  Valid Properties IsValid t = None -> kind_ t <> TABLE ->
  exists o, ops_new Properties IsValid t = Ok o /\ ops_ok o /\ type_ o = t
  /\ (kind_ t <> MAP -> kind_ t <> ARRAY ->
      SzlFlattenedVals Properties IsValid 0 t false = Ok (nflats_ o, IsComplex o)).
Proof.
  intros Hv Hk. destruct (ops_new_valid Properties IsValid t Hv Hk) as [o Ho].
  exists o. destruct (ops_new_built _ _ _ _ Ho) as (H1 & H2 & H3). split; [done|].
  split; [done|]. split; [done|]. intros Hm Ha.
  rewrite (FlattenedVals_agree _ _ t 0 false (cells_ o)); [by rewrite orb_false_r|by right|].
  unfold SzlFlattenKinds. destruct (SzlType.BaseType _ _ t) eqn:Hb.
  - destruct H1 as [t' Hk'|t' ? Hk'|t' ? Hk'|t' ? ? Hk']; cbn in H2; subst t'; cbn; try congruence.
    apply BaseType_basic in Hb. rewrite Hk' in Hb. by apply not_basic in Hb.
  - destruct (built_container _ _ t o (ops_new_built _ _ _ _ Ho) Hb) as [E|[E|E]]; try done.
    by rewrite E, Ho.
Qed.

(** [tuple { a: int, b: map[string] of float }]. *)
Definition sample_map : SzlType :=
  set_element (AddIndex (kind_type MAP) "k" (kind_type STRING)) "v" (kind_type FLOAT).
Definition sample_tuple : SzlType :=
  AddField (AddField (kind_type TUPLE) "a" (kind_type INT)) "b" sample_map.

Lemma ops_new_total_witness :
  exists o, ops_new (fun _ => None) (fun _ => None) sample_tuple = Ok o /\ ops_ok o
  /\ type_ o = sample_tuple
  /\ (kind_ sample_tuple <> MAP -> kind_ sample_tuple <> ARRAY ->
      SzlFlattenedVals (fun _ => None) (fun _ => None) 0 sample_tuple false
      = Ok (nflats_ o, IsComplex o)).
Proof. apply ops_new_total; [reflexivity|discriminate]. Defined.

(** ** One cell at a time *)

Definition enc_cell : Kind * option SzlOps -> SzlValue -> SzlEncoder -> res SzlEncoder :=
  fun '(k, sub) v enc =>
  match sub with
  | Some sub => EncodeInternal sub v enc false
  | None => SzlOpsDoEncode k v enc
  end.
Definition skip_cell : Kind * option SzlOps -> SzlDecoder -> option SzlDecoder := fun '(k, sub) dec =>
  match sub with Some sub => SkipInternal sub dec false | None => Decoder.Skip dec k end.
Definition dec_cell : Kind * option SzlOps -> SzlValue -> SzlDecoder * list SzlValue ->
    res (SzlDecoder * list SzlValue) := fun '(k, sub) v '(dec, done) =>
  '(dec, v) ← match sub with
              | Some sub => DecodeInternal sub dec v false
              | None => of_opt (SzlOpsDoDecode k dec v)
              end;
  Ok (dec, done ++ [v]).

(** The basic value of a cell, and back. *)
Definition prim_of (k : Kind) (v : SzlValue) : prim :=
  match k with
  | BOOL => PBool (negb (vi v =? 0))
  | FINGERPRINT => PFingerprint (u64 (vi v))
  | INT => PInt (vi v)
  | TIME => PTime (u64 (vi v))
  | FLOAT => PFloat (vf v)
  | STRING => PString (take (length (vbuf v) - 1) (vbuf v))
  | _ => PBytes (vbuf v)
  end.
Definition of_prim (p : prim) : SzlValue :=
  match p with
  | PBool b => VInt (Z.b2z b)
  | PFingerprint v | PTime v => VInt (s64 v)
  | PInt v => VInt v
  | PFloat f => VFloat f
  | PString s => VStr match s with [] => [] | _ => s ++ [0] end
  | PBytes s => VStr s
  end.

(** What decoding returns: a boolean is 0 or 1, a float zero is +0, an empty
    tuple is the tuple of zeros. *)
Definition norm_base (k : Kind) (v : SzlValue) : SzlValue := of_prim (norm_prim (prim_of k v)).

Fixpoint loop_pure (all cur : list (SzlValue -> SzlValue)) (vals : list SzlValue) : list SzlValue :=
  match vals with
  | [] => []
  | v :: vals =>
      match next_cell all cur with
      | None => []
      | Some (f, cur) => f v :: loop_pure all cur vals
      end
  end.

Definition zero_base (k : Kind) : SzlValue :=
  if bool_decide (k = STRING) || bool_decide (k = BYTES) then VStr []
  else if bool_decide (k = FLOAT) then VFloat 0 else VInt 0.

Fixpoint norm_val (o : SzlOps) (v : SzlValue) : SzlValue :=
  let '(MkOps t cells) := o in
  let fs := map (fun '(k, sub) v =>
    match sub with Some sub => norm_val sub v | None => norm_base k v end) cells in
  match kind_ t with
  | TUPLE =>
      match vvals v with
      | [] => VVals (map (fun '(k, _) => zero_base k) cells)
      | vals => VVals (loop_pure fs fs vals)
      end
  | MAP | ARRAY => VVals (loop_pure fs fs (vvals v))
  | k => norm_base k v
  end.
Definition norm_cell : Kind * option SzlOps -> SzlValue -> SzlValue := fun '(k, sub) v =>
  match sub with Some sub => norm_val sub v | None => norm_base k v end.

(** Values the encoder has a form for: an empty tuple stands for its zero only
    when every field is a base type (the zero of a map field is not written). *)
Fixpoint enc_ok (o : SzlOps) (v : SzlValue) : Prop :=
  let '(MkOps t cells) := o in
  let Ps := map (fun '(k, sub) v =>
    match sub with Some sub => enc_ok sub v | None => True end) cells in
  match kind_ t with
  | TUPLE => (vvals v = [] -> has_sub cells = false) /\ loop_all Ps Ps (vvals v)
  | ARRAY | MAP => loop_all Ps Ps (vvals v)
  | _ => True
  end.
Definition enc_cell_ok : Kind * option SzlOps -> SzlValue -> Prop := fun '(k, sub) v =>
  match sub with Some sub => enc_ok sub v | None => True end.

Lemma next_cell_map {A B} (f : A -> B) all cur :
  next_cell (map f all) (map f cur)
  = match next_cell all cur with Some (a, cur) => Some (f a, map f cur) | None => None end.
Proof. destruct cur as [|a cur]; [by destruct all|done]. Qed.

Lemma next_cell_In {A} (P : A -> Prop) all cur a cur' :
  Forall P all -> Forall P cur -> next_cell all cur = Some (a, cur') -> P a /\ Forall P cur'.
Proof.
  intros Ha Hc. destruct cur as [|b cur]; cbn.
  - destruct Ha; [done|]. by intros [= <- <-].
  - inversion_clear Hc. by intros [= <- <-].
Qed.

(** *** Base cells *)

Lemma SzlOpsDoEncode_prim k v e :
  k ∈ basic_kinds -> SzlOpsDoEncode k v e = put_prim e (prim_of k v).
Proof. intros H. destruct k; try done; by apply not_basic in H. Qed.

Lemma SzlOpsDoDecode_prim k d v :
  k ∈ basic_kinds ->
  SzlOpsDoDecode k d v = '(p, d) ← get_prim k d; Some (d, of_prim p).
Proof.
  intros H. destruct k; try (by apply not_basic in H); cbn.
  - by destruct (GetBool d) as [[? ?]|].
  - by destruct (GetBytes d) as [[? ?]|].
  - by destruct (GetFingerprint d) as [[? ?]|].
  - by destruct (GetFloat d) as [[? ?]|].
  - by destruct (GetInt d) as [[? ?]|].
  - by destruct (GetString d) as [[? ?]|].
  - by destruct (GetTime d) as [[? ?]|].
Qed.

Lemma prim_of_ok k v : base_ok k v -> prim_ok (prim_of k v) /\ prim_kind (prim_of k v) = k.
Proof.
  destruct k; try done; cbn; try (intros (i & -> & Hi); cbn; split; [|done]; auto with szl; fail).
  intros [->|(s & -> & Hs0 & Hs & Hn)]; cbn; [split; [by repeat constructor|done]|].
  rewrite length_app. cbn. replace (length s + 1 - 1)%nat with (length s) by lia.
  by rewrite take_app_length.
Qed.

Lemma base_ok_basic k v : base_ok k v -> k ∈ basic_kinds.
Proof. intros H. apply basic_kind_in. by destruct k. Qed.

(** *** What encoding a value at a cell promises *)

(** The first byte of an encoded component is not the end of an array. *)
Definition not_end (b : bytes) : Prop := exists t q, b = t :: q /\ t <> Tag.ARRAY_END.

Definition cell_codec (c : Kind * option SzlOps) (v : SzlValue) : Prop :=
  exists b, bytes_ok b /\ not_end b
  /\ (forall e, enc_cell c v e = Ok (AppendEncoding e b))
  /\ (forall s rest, bytes_ok rest -> skip_cell c (MkDec s (b ++ rest)) = Some (MkDec s rest))
  /\ (forall s rest pv acc, bytes_ok rest -> dest_cell_ok c pv ->
       dec_cell c pv (MkDec s (b ++ rest), acc) = Ok (MkDec s rest, acc ++ [norm_cell c v])).

Lemma cell_codec_base k v : base_ok k v -> cell_codec (k, None) v.
Proof.
  intros Hv. pose proof (base_ok_basic k v Hv) as Hk. destruct (prim_of_ok k v Hv) as [Hp Hpk].
  exists (enc_prim (prim_of k v)). split; [by apply enc_prim_ok|]. split.
  { destruct (enc_prim_head (prim_of k v)) as (t & q & -> & _ & Ht). exists t, q. split; [done|].
    intros ->. by destruct (prim_kind (prim_of k v)). }
  split; [|split].
  - intros e. cbn. rewrite SzlOpsDoEncode_prim by done. by apply put_prim_spec.
  - intros s rest Hr. pose proof (get_prim_spec s _ rest Hp Hr) as G. rewrite Hpk in G.
    cbn. rewrite Skip_agrees by (done || by apply bytes_ok_app; split; [apply enc_prim_ok|]).
    by rewrite G.
  - intros s rest pv acc Hr _. pose proof (get_prim_spec s _ rest Hp Hr) as G. rewrite Hpk in G.
    cbn. rewrite SzlOpsDoDecode_prim by done. by rewrite G.
Qed.

(** *** Loops over values *)

Definition loop_ok (cells cur : list (Kind * option SzlOps)) (vals : list SzlValue) : Prop :=
  exists b, bytes_ok b /\ (length vals <= length b)%nat
  /\ (forall e, loop_fold (map enc_cell cells) (map enc_cell cur) vals e = Ok (AppendEncoding e b))
  /\ (forall s rest pvs acc, bytes_ok rest -> length pvs = length vals ->
       loop_all (map dest_cell_ok cells) (map dest_cell_ok cur) pvs ->
       loop_fold (map dec_cell cells) (map dec_cell cur) pvs (MkDec s (b ++ rest), acc)
       = Ok (MkDec s rest, acc ++ loop_pure (map norm_cell cells) (map norm_cell cur) vals))
  /\ (forall s rest fuel, bytes_ok rest -> (length vals <= fuel)%nat ->
       skip_count fuel (map skip_cell cells) (map skip_cell cur) (Z.of_nat (length vals))
         (MkDec s (b ++ rest)) = Some (MkDec s rest))
  /\ (forall s rest fuel, bytes_ok rest -> (length vals <= fuel)%nat ->
       IsEnd (MkDec s rest) ARRAY = true ->
       skip_until_end fuel (map skip_cell cells) (map skip_cell cur) (MkDec s (b ++ rest))
       = Some (MkDec s rest))
  /\ (forall c s rest fuel n, bytes_ok rest -> (length vals <= fuel)%nat ->
       Forall (eq c) cells -> Forall (eq c) cur -> IsEnd (MkDec s rest) ARRAY = true ->
       count_elements fuel (skip_cell c) (MkDec s (b ++ rest)) n
       = Some (n + Z.of_nat (length vals))).

Lemma IsEnd_not_end s b rest : not_end b -> done_ (MkDec s (b ++ rest)) || IsEnd (MkDec s (b ++ rest)) ARRAY = false.
Proof.
  intros (t & q & -> & Ht). cbn [app done_ p_ orb]. unfold IsEnd. cbn [end_tag].
  rewrite size_cons. cbn [p_ byte_at nth orb]. by rewrite (proj2 (Z.eqb_neq _ _) Ht).
Qed.

Lemma loop_codec cells cur vals :
  Forall (fun c => forall v, val_cell_ok c v -> enc_cell_ok c v -> cell_codec c v) cells ->
  Forall (fun c => forall v, val_cell_ok c v -> enc_cell_ok c v -> cell_codec c v) cur ->
  loop_all (map val_cell_ok cells) (map val_cell_ok cur) vals ->
  loop_all (map enc_cell_ok cells) (map enc_cell_ok cur) vals ->
  loop_ok cells cur vals.
Proof.
  intros Hcells. revert cur. induction vals as [|v vals IH]; intros cur Hcur Hv He.
  - exists []. split; [apply Forall_nil_2|]. split; [done|]. split; [|split; [|split; [|split]]].
    + intros e. unfold AppendEncoding. cbn. rewrite app_nil_r. by destruct e.
    + intros s rest [|pv pvs] acc Hr Hl _; [|done]. cbn. by rewrite app_nil_r.
    + intros s rest fuel Hr _. cbn. by destruct fuel.
    + intros s rest fuel Hr _ E. change ([] ++ rest) with rest.
      destruct fuel; cbn [skip_until_end]; by rewrite E, orb_true_r.
    + intros c s rest fuel n Hr _ _ _ E. change ([] ++ rest) with rest.
      destruct fuel; cbn [count_elements]; by rewrite E, orb_true_r, Z.add_0_r.
  - cbn [loop_all] in Hv, He. rewrite next_cell_map in Hv, He.
    destruct (next_cell cells cur) as [[c cur']|] eqn:En; [|done].
    destruct (next_cell_In _ _ _ _ _ Hcells Hcur En) as [Hc Hcur'].
    destruct Hv as [Hv Hvs], He as [He Hes].
    destruct (Hc v Hv He) as (b & Hb & Hne & Henc & Hskip & Hdec).
    destruct (IH cur' Hcur' Hvs Hes) as (b' & Hb' & Hl' & Henc' & Hdec' & Hcnt' & Hunt' & Hel').
    assert (1 <= length b)%nat as Hb1 by (destruct Hne as (? & ? & -> & _); cbn; lia).
    assert (forall rest, bytes_ok rest -> bytes_ok (b' ++ rest)) as Hok by (intros; by apply Forall_app).
    exists (b ++ b'). split; [by apply Forall_app|]. split; [rewrite length_app; cbn; lia|].
    split; [|split; [|split; [|split]]].
    + intros e. cbn [loop_fold]. rewrite next_cell_map, En, Henc. cbn. by rewrite Henc', AppendEncoding_app.
    + intros s rest [|pv pvs] acc Hr Hl Hd; [done|]. cbn [loop_fold loop_pure loop_all] in *.
      rewrite next_cell_map, En in Hd. destruct Hd as [Hd Hds]. rewrite !next_cell_map, En.
      rewrite <- app_assoc, Hdec by auto. cbn. rewrite Hdec' by (done || by injection Hl).
      by rewrite <- app_assoc.
    + intros s rest [|fuel] Hr Hf; cbn [length] in Hf; [lia|]. cbn [skip_count].
      destruct (Z.leb_spec (Z.of_nat (length (v :: vals))) 0); [cbn [length] in *; lia|].
      rewrite next_cell_map, En, <- app_assoc, Hskip by auto. cbn.
      replace (Z.of_nat (S (length vals)) - 1) with (Z.of_nat (length vals)) by lia.
      apply Hcnt'; [done|lia].
    + intros s rest [|fuel] Hr Hf E; cbn [length] in Hf; [lia|]. cbn [skip_until_end].
      rewrite <- app_assoc, IsEnd_not_end by done. rewrite next_cell_map, En, Hskip by auto. cbn.
      apply Hunt'; [done|lia|done].
    + intros c' s rest [|fuel] n Hr Hf Hc1 Hc2 E; cbn [length] in Hf; [lia|]. cbn [count_elements].
      destruct (next_cell_In _ _ _ _ _ Hc1 Hc2 En) as [-> Hc2'].
      rewrite <- app_assoc, IsEnd_not_end by done. rewrite Hskip by auto. cbn.
      rewrite Hel' by (done || lia). f_equal. lia.
Qed.

(** *** Destinations *)

Lemma dest_ok_VNil o : ops_ok o -> dest_ok o VNil.
Proof. destruct o as [t cells]. intros H. cbn. destruct (kind_ t); try done; auto. Qed.

Lemma dest_cell_VNil b c : cell_ok b c -> dest_cell_ok c VNil.
Proof. intros [? k Hk|? o Ho Hk]; [done|]. by apply dest_ok_VNil. Qed.

Lemma loop_all_replicate {A} (f : A -> SzlValue -> Prop) cells cur v n :
  Forall (fun c => f c v) cells -> Forall (fun c => f c v) cur ->
  cells <> [] -> loop_all (map f cells) (map f cur) (replicate n v).
Proof.
  intros Hc Hu Hne. revert cur Hu. induction n as [|n IH]; intros cur Hu; [done|].
  cbn [replicate loop_all]. rewrite next_cell_map.
  destruct (next_cell cells cur) as [[c cur']|] eqn:En.
  - destruct (next_cell_In _ _ _ _ _ Hc Hu En) as [H1 H2]. split; [done|by apply IH].
  - destruct cur; [|done]. by destruct cells.
Qed.

Lemma loop_map_ok {A} (P : A -> SzlValue -> Prop) (f : A -> SzlValue -> res SzlValue) cells cur vals :
  Forall (fun c => forall v, P c v -> exists w, f c v = Ok w) cells ->
  Forall (fun c => forall v, P c v -> exists w, f c v = Ok w) cur ->
  loop_all (map P cells) (map P cur) vals ->
  exists ws, loop_map (map f cells) (map f cur) vals = Ok ws.
Proof.
  intros Hc. revert cur. induction vals as [|v vals IH]; intros cur Hu Hv; [by eexists|].
  cbn [loop_map loop_all] in *. rewrite next_cell_map in Hv. rewrite next_cell_map.
  destruct (next_cell cells cur) as [[c cur']|] eqn:En; [|done]. destruct Hv as [Hv Hvs].
  destruct (next_cell_In _ _ _ _ _ Hc Hu En) as [H1 H2].
  destruct (H1 v Hv) as [w ->], (IH cur' H2 Hvs) as [ws Hws]. cbn. rewrite Hws. by eexists.
Qed.

Definition clear_cell : Kind * option SzlOps -> SzlValue -> res SzlValue := fun '(k, sub) v =>
  if bool_decide (k = STRING) || bool_decide (k = BYTES) then Ok (VStr [])
  else
    match sub with
    | Some sub => Clear sub v
    | None => if negb (IsSimpleBaseKind k) then Fatal else Ok v
    end.

Lemma basic_simple k :
  k ∈ basic_kinds -> bool_decide (k = STRING) || bool_decide (k = BYTES) = negb (IsSimpleBaseKind k).
Proof. intros H. destruct k; try done; by apply not_basic in H. Qed.

Lemma ops_ok_cells t cells : ops_ok (MkOps t cells) -> Forall (cell_ok true) cells.
Proof.
  assert (forall c, cell_ok false c -> cell_ok true c) as Hw.
  { intros c H. inversion_clear H as [|? o Ho Hk]; constructor; [done|done|]. tauto. }
  intros H. inversion_clear H as [? Hk|? ? Hk Hcs|? ? Hk Hc|? ? ? Hk Hi H0 H1].
  - by apply Forall_singleton, cell_base.
  - by eapply Forall_impl.
  - by apply Forall_singleton.
  - by apply Forall_cons; split; [|apply Forall_singleton].
Qed.

Definition containers : list Kind := [TUPLE; ARRAY; MAP].
Lemma not_container k : bool_decide (k ∈ containers) = false -> k ∈ containers -> False.
Proof. by intros ?%bool_decide_eq_false. Qed.

Lemma ops_ok_kind o : ops_ok o -> ops_kind o ∈ basic_kinds \/ ops_kind o ∈ containers.
Proof.
  unfold ops_kind. destruct 1 as [? H|? ? H|? ? H|? ? ? H]; [by left|right..]; cbn; rewrite H;
    by apply (bool_decide_unpack _).
Qed.

(** Clearing a destination never aborts and empties a container. *)
Lemma Clear_ok o v : ops_ok o -> dest_ok o v -> exists w, Clear o v = Ok w
  /\ (ops_kind o ∈ containers -> w = VVals []).
Proof.
  revert v. induction o as [t cells IH] using SzlOps_nested_ind. intros v Hok Hd.
  assert (Forall (fun c => forall v, dest_cell_ok c v -> exists w, clear_cell c v = Ok w) cells) as Hc.
  { pose proof (ops_ok_cells t cells Hok) as Hcs. apply Forall_forall. intros c Hin w Hw.
    pose proof (proj1 (Forall_forall _ _) IH c Hin) as Hi.
    pose proof (proj1 (Forall_forall _ _) Hcs c Hin) as Hc. destruct Hc as [? k Hk|? o Ho Hk].
    - cbn. rewrite basic_simple by done. destruct (IsSimpleBaseKind k); by eexists.
    - cbn in *. destruct (_ || _); [by eexists|]. destruct (Hi w Ho Hw) as (u & -> & _). by eexists. }
  assert (loop_all (map dest_cell_ok cells) (map dest_cell_ok cells) (vvals v) ->
    exists w, (_ ← loop_map (map clear_cell cells) (map clear_cell cells) (vvals v); Ok (VVals [])) = Ok w
      /\ w = VVals []) as Hl.
  { intros Hla. destruct (loop_map_ok dest_cell_ok clear_cell _ _ _ Hc Hc Hla) as [ws ->]. by eexists. }
  pose proof (ops_ok_kind _ Hok) as HK. unfold ops_kind in *. cbn [type_] in *.
  destruct (kind_ t) eqn:Hk; cbn [Clear dest_ok] in *; rewrite Hk in *;
    try (exfalso; destruct HK as [HK|HK]; [by apply not_basic in HK|by apply not_container in HK]);
    try (eexists; split; [reflexivity|]; by intros ?%not_container);
    (destruct Hl as (w & Hw & ->); [apply Hd|]; by exists (VVals [])).
Qed.

Definition dest_loop (cells : list (Kind * option SzlOps)) (vals : list SzlValue) : Prop :=
  loop_all (map dest_cell_ok cells) (map dest_cell_ok cells) vals.

Lemma dest_fresh t cells n : ops_ok (MkOps t cells) -> cells <> [] -> dest_loop cells (replicate n VNil).
Proof.
  intros H%ops_ok_cells Hne. apply loop_all_replicate; [|  |done]; (eapply Forall_impl; [exact H|]);
    intros c; apply dest_cell_VNil.
Qed.

(** The storage that decoding a container prepares. *)
Lemma resize_vals_ok t cells pv n :
  ops_ok (MkOps t cells) -> (kind_ t = MAP \/ kind_ t = ARRAY) -> dest_ok (MkOps t cells) pv ->
  Z.of_nat n < 2 ^ 31 ->
  exists vals, resize_vals (MkOps t cells) pv (Z.of_nat n) = Ok vals
  /\ length vals = n /\ dest_loop cells vals.
Proof.
  intros Hok Hk Hd Hn. unfold resize_vals.
  assert (cells <> []) as Hne by (inversion Hok; subst; try done; destruct Hk; congruence).
  assert (dest_loop cells (vvals pv)) as Hl by (cbn [dest_ok] in Hd; destruct Hk as [-> | ->] in Hd; exact Hd).
  destruct (Z.eqb_spec (Z.of_nat n) (Z.of_nat (length (vvals pv)))) as [E|E]; cbn [negb].
  - exists (vvals pv). rewrite andb_false_r. cbn. split; [done|]. split; [lia|done].
  - destruct (Clear_ok _ _ Hok Hd) as (w & -> & Hw). cbn. rewrite Hw
      by (unfold ops_kind; cbn; destruct Hk as [-> | ->]; by apply (bool_decide_unpack _)).
    rewrite andb_true_r. destruct (Z.ltb_spec 0 (Z.of_nat n)).
    + rewrite (proj2 (Z.ltb_lt _ _) Hn). exists (replicate n VNil). rewrite Nat2Z.id.
      split; [done|]. split; [apply length_replicate|by apply (dest_fresh t)].
    + exists []. split; [done|]. split; [cbn; lia|done].
Qed.

(** *** Tuples *)

Lemma foldl_skip_None (fs : skips) : foldl (fun r f => d ← r; f d) None fs = None.
Proof. by induction fs. Qed.

Lemma foldl_skip all fs fuel dec :
  (length fs <= fuel)%nat ->
  foldl (fun r f => d ← r; f d) (Some dec) fs = skip_count fuel all fs (Z.of_nat (length fs)) dec.
Proof.
  revert fuel dec. induction fs as [|f fs IH]; intros [|fuel] dec Hf; cbn [length] in Hf; try done; [lia|].
  cbn [foldl length skip_count next_cell mbind option_bind].
  destruct (Z.leb_spec (Z.of_nat (S (length fs))) 0); [lia|].
  destruct (f dec) as [d|]; [|apply foldl_skip_None].
  rewrite (IH fuel) by lia. cbn [mbind option_bind]. f_equal. lia.
Qed.

Definition zero_cell_val (c : Kind * option SzlOps) : SzlValue := let '(k, _) := c in zero_base k.

Lemma EncodeDefaultBase_zero k e :
  k ∈ basic_kinds -> EncodeDefaultBase k e = SzlOpsDoEncode k (zero_base k) e.
Proof. intros H. destruct k; try done; by apply not_basic in H. Qed.

Lemma foldl_enc_fail (fs : list (SzlEncoder -> res SzlEncoder)) r :
  (r = Fail \/ r = Fatal) -> foldl (fun r f => e ← r; f e) r fs = r.
Proof. intros H. induction fs; [done|]. by destruct H as [-> | ->]. Qed.

(** The default of a tuple of base fields is the encoding of its zeros. *)
Lemma EncodeDefault_zeros t cells e :
  kind_ t = TUPLE -> has_sub cells = false -> Forall (cell_ok false) cells ->
  EncodeDefault (MkOps t cells) e
  = loop_fold (map enc_cell cells) (map enc_cell cells) (map zero_cell_val cells) e.
Proof.
  intros Hk Hs Hc. cbn [EncodeDefault]. rewrite Hk. generalize (map enc_cell cells) at 1 as all.
  intros all. revert e. induction Hc as [|c cells Hc Hcs IH]; intros e; [done|].
  unfold has_sub in Hs. cbn [existsb] in Hs. apply orb_false_iff in Hs as [Hs1 Hs2].
  cbn [map foldl loop_fold next_cell mbind res_bind].
  destruct (cell_ok_inv _ _ Hc) as [(k & Hk' & ->)|(o & Ho & -> & _)]; [|discriminate Hs1].
  cbn. rewrite EncodeDefaultBase_zero by done.
  destruct (SzlOpsDoEncode k (zero_base k) e) as [e'| |]; cbn.
  - by apply IH.
  - apply foldl_enc_fail. by left.
  - apply foldl_enc_fail. by right.
Qed.

Lemma zero_base_ok k : k ∈ basic_kinds -> base_ok k (zero_base k) /\ norm_base k (zero_base k) = zero_base k.
Proof.
  intros H. destruct k; try (by apply not_basic in H); cbn;
    (split; [first [by left | eexists; split; [reflexivity|];
                      first [by apply (bool_decide_unpack _) | apply Forall_nil_2]]|done]).
Qed.

Lemma loop_all_zeros cells cur :
  Forall (cell_ok false) cells -> has_sub cells = false ->
  Forall (cell_ok false) cur -> has_sub cur = false ->
  loop_all (map val_cell_ok cells) (map val_cell_ok cur) (map zero_cell_val cur)
  /\ loop_all (map enc_cell_ok cells) (map enc_cell_ok cur) (map zero_cell_val cur)
  /\ loop_pure (map norm_cell cells) (map norm_cell cur) (map zero_cell_val cur) = map zero_cell_val cur.
Proof.
  intros Hc Hs Hu. induction Hu as [|c cur Hcu Hu IH]; intros Hsu; [done|].
  unfold has_sub in Hsu. cbn [existsb] in Hsu. apply orb_false_iff in Hsu as [Hs1 Hs2].
  destruct (IH Hs2) as (I1 & I2 & I3).
  destruct (cell_ok_inv _ _ Hcu) as [(k & Hk & ->)|(o & Ho & -> & _)]; [|discriminate Hs1].
  destruct (zero_base_ok k Hk) as [Hz Hn]. cbn. split; [done|]. split; [done|].
  unfold norm_base in *. by rewrite Hn, I3.
Qed.

(** *** Every operations object *)

Definition ops_codec (o : SzlOps) (top : bool) (v : SzlValue) : Prop :=
  exists b, bytes_ok b /\ (top = false -> ops_kind o ∈ containers -> not_end b)
  /\ (forall e, EncodeInternal o v e top = Ok (AppendEncoding e b))
  /\ (forall s rest, bytes_ok rest -> SkipInternal o (MkDec s (b ++ rest)) top = Some (MkDec s rest))
  /\ (forall s rest pv, bytes_ok rest -> dest_ok o pv ->
       DecodeInternal o (MkDec s (b ++ rest)) pv top = Ok (MkDec s rest, norm_val o v)).

Lemma cell_codec_sub o v :
  ops_kind o ∈ containers -> ops_codec o false v -> cell_codec (ops_kind o, Some o) v.
Proof.
  intros Hk (b & Hb & Hne & Henc & Hskip & Hdec). exists b. split; [done|]. split; [by apply Hne|].
  split; [done|]. split; [done|]. intros s rest pv acc Hr Hd. cbn. by rewrite Hdec.
Qed.

(** Markers: one byte written, one byte taken. *)
Lemma Start_spec k : k ∈ containers -> exists t, (forall e, Start e k = Ok (AppendEncoding e [t])) /\ is_u8 t
  /\ t <> Tag.ARRAY_END /\ forall s rest, GetStart (MkDec s (t :: rest)) k = Some (MkDec s rest).
Proof.
  intros H. destruct k; try (by apply not_container in H); cbn [Start];
    (eexists; split; [reflexivity|]; split; [apply u8_range|]; split; [done|]; intros s rest;
     unfold GetStart, IsStart; cbn [start_tag]; by rewrite size_cons; unfold advance; cbn; rewrite ?drop_0).
Qed.

Lemma End_spec k : k ∈ containers -> exists t, (forall e, End_ e k = Ok (AppendEncoding e [t])) /\ is_u8 t
  /\ (forall s rest, GetEnd (MkDec s (t :: rest)) k = Some (MkDec s rest))
  /\ forall s rest, IsEnd (MkDec s (t :: rest)) k = true.
Proof.
  intros H. destruct k; try (by apply not_container in H); cbn [End_];
    (eexists; split; [reflexivity|]; split; [apply u8_range|]; split; intros s rest;
     unfold GetEnd, IsEnd; cbn [end_tag]; rewrite size_cons; unfold advance; cbn; by rewrite ?drop_0).
Qed.

Lemma bytes_ok_cons t b : is_u8 t -> bytes_ok b -> bytes_ok (t :: b).
Proof. by constructor. Qed.

Lemma is_s64_length {A} (l : list A) : Z.of_nat (length l) < 2 ^ 31 -> prim_ok (PInt (Z.of_nat (length l))).
Proof. cbn. unfold is_s64. lia. Qed.

Lemma count_elements_ext fuel f g d n :
  (forall d, f d = g d) -> count_elements fuel f d n = count_elements fuel g d n.
Proof.
  intros H. revert d n. induction fuel as [|fuel IH]; intros d n; cbn [count_elements]; [done|].
  rewrite H. destruct (_ || _); [done|]. destruct (g d); [apply IH|done].
Qed.

(** An array or a map: markers around the values, a map's count before them. *)
Lemma array_codec t c vals top :
  kind_ t = ARRAY -> ops_ok (MkOps t [c]) -> Z.of_nat (length vals) < 2 ^ 31 ->
  loop_ok [c] [c] vals -> ops_codec (MkOps t [c]) top (VVals vals).
Proof.
  intros Hk Hok Hlen (b & Hb & Hl & Henc & Hdec & _ & Hunt & Hcnt).
  destruct (Start_spec ARRAY) as (t0 & Hst & Ht0 & Hne & Hgs); [by apply (bool_decide_unpack _)|].
  destruct (End_spec ARRAY) as (t1 & Hen & Ht1 & Hge & Hie); [by apply (bool_decide_unpack _)|].
  exists (t0 :: b ++ [t1]). split; [|split; [|split; [|split]]].
  - apply bytes_ok_cons; [done|]. apply Forall_app. split; [done|by apply Forall_singleton].
  - intros _ _. by exists t0, (b ++ [t1]).
  - intros e. cbn [EncodeInternal]. rewrite Hk, Hst. cbn [mbind res_bind vvals]. fold enc_cell.
    rewrite Henc. cbn [mbind res_bind]. by rewrite Hen, !AppendEncoding_app.
  - intros s rest Hr. cbn [SkipInternal]. rewrite Hk. cbn [app]. rewrite Hgs. cbn [mbind option_bind p_].
    fold skip_cell. rewrite <- app_assoc. cbn [app].
    rewrite (Hunt s (t1 :: rest)) by (first [by apply bytes_ok_cons | rewrite length_app; lia | apply Hie]).
    cbn [mbind option_bind]. apply Hge.
  - intros s rest pv Hr Hd. cbn [DecodeInternal]. rewrite Hk. cbn [app]. rewrite Hgs.
    cbn [of_opt mbind res_bind check length Nat.eqb p_]. fold skip_cell dec_cell.
    rewrite <- app_assoc. cbn [app].
    assert (forall d, match c with (_, Some sub) => SkipInternal sub d false
                      | (k, None) => Decoder.Skip d k end = skip_cell c d) as Hsk by by destruct c as [k [sub|]].
    rewrite (count_elements_ext _ _ (skip_cell c)) by (intros d; apply Hsk).
    unfold dec_Init. rewrite (Hcnt c (b ++ t1 :: rest) (t1 :: rest)) by
      (first [by apply bytes_ok_cons | by apply Forall_singleton | rewrite length_app; lia | apply Hie]).
    cbn [of_opt mbind res_bind]. rewrite Z.add_0_l.
    destruct (resize_vals_ok t [c] pv (length vals)) as (pvs & -> & Hpl & Hpd); [done|by right|done|done|].
    cbn [mbind res_bind]. rewrite Hdec by (done || by apply bytes_ok_cons).
    cbn [mbind res_bind]. rewrite Hge. cbn. by rewrite Hk.
Qed.

Lemma map_codec t c0 c1 vals top :
  kind_ t = MAP -> ops_ok (MkOps t [c0; c1]) -> Z.of_nat (length vals) < 2 ^ 31 ->
  loop_ok [c0; c1] [c0; c1] vals -> ops_codec (MkOps t [c0; c1]) top (VVals vals).
Proof.
  intros Hk Hok Hlen (b & Hb & Hl & Henc & Hdec & Hcnt & _ & _).
  destruct (Start_spec MAP) as (t0 & Hst & Ht0 & Hne & Hgs); [by apply (bool_decide_unpack _)|].
  destruct (End_spec MAP) as (t1 & Hen & Ht1 & Hge & Hie); [by apply (bool_decide_unpack _)|].
  pose proof (is_s64_length vals Hlen) as Hi. set (n := PInt (Z.of_nat (length vals))) in *.
  assert (forall s rest, bytes_ok rest -> GetInt (MkDec s (enc_prim n ++ rest))
          = Some (Z.of_nat (length vals), MkDec s rest)) as Hgi.
  { intros s rest Hr. pose proof (get_prim_spec s n rest Hi Hr) as G. cbn [prim_kind n get_prim] in G.
    destruct (GetInt _) as [[v d]|]; [|done]. injection G as -> ->. done. }
  assert (forall e, PutInt e (Z.of_nat (length vals)) = AppendEncoding e (enc_prim n)) as Hpi.
  { intros e. pose proof (put_prim_spec e n Hi) as G. by injection G. }
  assert (forall rest, bytes_ok rest -> bytes_ok (b ++ t1 :: rest)) as Hok'.
  { intros rest Hr. apply Forall_app. split; [done|by apply bytes_ok_cons]. }
  exists (t0 :: enc_prim n ++ b ++ [t1]). split; [|split; [|split; [|split]]].
  - apply bytes_ok_cons; [done|]. apply Forall_app. split; [by apply enc_prim_ok|]. apply Hok', Forall_nil_2.
  - intros _ _. by exists t0, (enc_prim n ++ b ++ [t1]).
  - intros e. cbn [EncodeInternal]. rewrite Hk, Hst. cbn [mbind res_bind vvals]. fold enc_cell.
    rewrite Hpi, Henc. cbn [mbind res_bind]. by rewrite Hen, !AppendEncoding_app.
  - intros s rest Hr. cbn [SkipInternal]. rewrite Hk. cbn [app]. rewrite Hgs. cbn [mbind option_bind].
    fold skip_cell. rewrite <- !app_assoc. cbn [app]. rewrite Hgi by auto. cbn [mbind option_bind p_].
    rewrite Hcnt by (first [by apply bytes_ok_cons | rewrite length_app; lia]).
    cbn [mbind option_bind]. apply Hge.
  - intros s rest pv Hr Hd. cbn [DecodeInternal]. rewrite Hk. cbn [app]. rewrite Hgs.
    cbn [of_opt mbind res_bind]. fold dec_cell. rewrite <- !app_assoc. cbn [app]. rewrite Hgi by auto.
    cbn [of_opt mbind res_bind].
    destruct (resize_vals_ok t [c0; c1] pv (length vals)) as (pvs & -> & Hpl & Hpd); [done|by left|done|done|].
    cbn [mbind res_bind]. rewrite Hdec by (done || by apply bytes_ok_cons).
    cbn [mbind res_bind]. rewrite Hge. cbn. by rewrite Hk.
Qed.

Lemma tuple_codec t cells vals top :
  kind_ t = TUPLE -> ops_ok (MkOps t cells) -> length vals = length cells ->
  loop_ok cells cells vals ->
  exists b, bytes_ok b /\ (top = false -> not_end b)
  /\ (forall e, exists e1, (if top then Ok e else Start e TUPLE) = Ok e1
       /\ exists e2, loop_fold (map enc_cell cells) (map enc_cell cells) vals e1 = Ok e2
       /\ (if top then Ok e2 else End_ e2 TUPLE) = Ok (AppendEncoding e b))
  /\ (forall s rest, bytes_ok rest ->
       SkipInternal (MkOps t cells) (MkDec s (b ++ rest)) top = Some (MkDec s rest))
  /\ (forall s rest pv, bytes_ok rest -> dest_ok (MkOps t cells) pv ->
       DecodeInternal (MkOps t cells) (MkDec s (b ++ rest)) pv top
       = Ok (MkDec s rest, VVals (loop_pure (map norm_cell cells) (map norm_cell cells) vals))).
Proof.
  intros Hk Hok Hlen (b & Hb & Hl & Henc & Hdec & Hcnt & _ & _).
  destruct (Start_spec TUPLE) as (t0 & Hst & Ht0 & Hne & Hgs); [by apply (bool_decide_unpack _)|].
  destruct (End_spec TUPLE) as (t1 & Hen & Ht1 & Hge & Hie); [by apply (bool_decide_unpack _)|].
  assert (forall s rest, bytes_ok rest ->
    foldl (fun r f => d ← r; f d) (Some (MkDec s (b ++ rest))) (map skip_cell cells) = Some (MkDec s rest)) as Hsk.
  { intros s rest Hr. rewrite (foldl_skip (map skip_cell cells) _ (length cells)) by by rewrite length_map.
    rewrite length_map, <- Hlen. by rewrite Hcnt by (done || lia). }
  assert (forall pv, dest_ok (MkOps t cells) pv -> length (alloc (length cells) (vvals pv)) = length vals
            /\ dest_loop cells (alloc (length cells) (vvals pv))) as Hal.
  { intros pv Hd. cbn [dest_ok] in Hd. rewrite Hk in Hd. destruct Hd as [Hdl Hda].
    destruct (vvals pv) as [|w ws] eqn:Ew; cbn [alloc].
    - rewrite length_replicate. split; [done|]. destruct cells as [|c cells]; [done|].
      by apply (dest_fresh t).
    - split; [|exact Hda]. destruct Hdl as [|E]; [done|]. by rewrite Hlen. }
  destruct top.
  - exists b. split; [done|]. split; [done|]. split; [|split].
    + intros e. exists e. split; [done|]. eexists. by split.
    + intros s rest Hr. cbn [SkipInternal]. rewrite Hk. cbn [mbind option_bind]. fold skip_cell.
      rewrite Hsk by done. done.
    + intros s rest pv Hr Hd. destruct (Hal pv Hd). cbn [DecodeInternal]. rewrite Hk.
      cbn [mbind res_bind]. fold dec_cell. by rewrite Hdec by done.
  - exists (t0 :: b ++ [t1]). split; [|split; [|split; [|split]]].
    + apply bytes_ok_cons; [done|]. apply Forall_app. split; [done|by apply Forall_singleton].
    + intros _. by exists t0, (b ++ [t1]).
    + intros e. eexists. split; [apply Hst|]. eexists. split; [apply Henc|].
      by rewrite Hen, !AppendEncoding_app.
    + intros s rest Hr. cbn [SkipInternal]. rewrite Hk. cbn [app]. rewrite Hgs, <- app_assoc.
      cbn [mbind option_bind app]. fold skip_cell. rewrite Hsk by by apply bytes_ok_cons. apply Hge.
    + intros s rest pv Hr Hd. destruct (Hal pv Hd). cbn [DecodeInternal]. rewrite Hk. cbn [app].
      rewrite Hgs, <- app_assoc. cbn [of_opt mbind res_bind app]. fold dec_cell.
      rewrite Hdec by (done || by apply bytes_ok_cons). cbn [mbind res_bind].
      by rewrite Hge.
Qed.

Lemma dec_snoc (X : option (SzlDecoder * SzlValue)) d w :
  ('(dec, v) ← of_opt X; Ok (dec, [] ++ [v])) = Ok (d, [] ++ [w]) -> of_opt X = Ok (d, w).
Proof. destruct X as [[d' w']|]; [|done]. by intros [= -> ->]. Qed.

Lemma base_codec t top v :
  kind_ t ∈ basic_kinds -> base_ok (kind_ t) v -> ops_codec (MkOps t [(kind_ t, None)]) top v.
Proof.
  intros Hk Hv. destruct (cell_codec_base _ _ Hv) as (b & Hb & Hne & Henc & Hskip & Hdec).
  exists b. split; [done|]. split; [done|]. split; [|split].
  - intros e. rewrite <- Henc. cbn. destruct (kind_ t); try done; by apply not_basic in Hk.
  - intros s rest Hr. rewrite <- (Hskip s rest Hr). cbn.
    destruct (kind_ t); try done; by apply not_basic in Hk.
  - intros s rest pv Hr _. specialize (Hdec s rest pv [] Hr I). apply dec_snoc in Hdec.
    transitivity (Ok (MkDec s rest, norm_cell (kind_ t, None) v)); [rewrite <- Hdec|];
      cbn [DecodeInternal norm_val norm_cell]; destruct (kind_ t); try done; by apply not_basic in Hk.
Qed.

Lemma ops_codec_all o :
  ops_ok o -> forall top v, val_ok o v -> enc_ok o v -> ops_codec o top v.
Proof.
  induction o as [t cells IH] using SzlOps_nested_ind. intros Hok top v Hv He.
  assert (Forall (fun c => forall v, val_cell_ok c v -> enc_cell_ok c v -> cell_codec c v) cells) as Hcells.
  { pose proof (ops_ok_cells t cells Hok) as Hcs. apply Forall_forall. intros c Hin w Hw Hew.
    pose proof (proj1 (Forall_forall _ _) IH c Hin) as Hi.
    pose proof (proj1 (Forall_forall _ _) Hcs c Hin) as Hc.
    destruct (cell_ok_inv _ _ Hc) as [(k & Hk & ->)|(o & Ho & -> & Hk)]; [by apply cell_codec_base|].
    apply cell_codec_sub; [|by apply Hi].
    destruct Hk as [-> |[-> |[_ ->]]]; by apply (bool_decide_unpack _). }
  pose proof (loop_codec cells cells) as HL.
  inversion Hok as [? Hk|? ? Hk Hcs|? c Hk Hc|? c0 c1 Hk Hi Hc0 Hc1]; subst; cbn [val_ok enc_ok] in Hv, He.
  - apply base_codec; [done|]. destruct (kind_ t); try done; by apply not_basic in Hk.
  - rewrite Hk in Hv, He. destruct Hv as (vals & -> & Hl & Hv), He as [He1 He]. cbn [vvals] in *.
    destruct vals as [|v0 vals].
    + specialize (He1 eq_refl). destruct (loop_all_zeros cells cells Hcs He1 Hcs He1) as (Z1 & Z2 & Z3).
      destruct (tuple_codec t cells (map zero_cell_val cells) top Hk Hok)
        as (b & Hb & Hne & Henc & Hskip & Hdec); [by rewrite length_map|by apply HL|].
      exists b. split; [done|]. split; [intros; by apply Hne|]. split; [|split; [done|]].
      * intros e. destruct (Henc e) as (e1 & E1 & e2 & E2 & E3). cbn [EncodeInternal vvals]. rewrite Hk, E1.
        cbn [mbind res_bind]. rewrite EncodeDefault_zeros, E2 by done. cbn [mbind res_bind]. exact E3.
      * intros s rest pv Hr Hd. rewrite Hdec by done. cbn [norm_val vvals]. by rewrite Hk, Z3.
    + destruct Hl as [|Hl]; [done|].
      destruct (tuple_codec t cells (v0 :: vals) top Hk Hok Hl)
        as (b & Hb & Hne & Henc & Hskip & Hdec); [by apply HL|].
      exists b. split; [done|]. split; [intros; by apply Hne|]. split; [|split; [done|]].
      * intros e. destruct (Henc e) as (e1 & E1 & e2 & E2 & E3). cbn [EncodeInternal vvals]. rewrite Hk, E1.
        cbn [mbind res_bind]. fold enc_cell. rewrite E2. cbn [mbind res_bind]. exact E3.
      * intros s rest pv Hr Hd. rewrite Hdec by done. cbn [norm_val vvals]. by rewrite Hk.
  - rewrite Hk in Hv, He. destruct Hv as (vals & -> & Hl & Hv). apply array_codec; auto.
  - rewrite Hk in Hv, He. destruct Hv as (vals & -> & Hl & _ & Hv). apply map_codec; auto.
Qed.

(** C25. A typed value of any nesting of tuples, arrays and maps, in which no tuple
    with a field of array or map type is left empty (without its fields), encodes
    without aborting, decodes back to itself (booleans as 0 or 1, a float zero as +0,
    an empty tuple, whose fields are all basic, as their zeros) whatever follows and
    whatever the destination held, and skipping consumes the same bytes. An empty
    tuple with an array or map field is left out, as its encoding cannot be read
    ([empty_tuple_with_map_unreadable]). *)
Theorem value_codec_round_trip o v s rest pv :
  ops_ok o -> val_ok o v -> enc_ok o v -> bytes_ok rest -> dest_ok o pv ->
  exists e, Encode o v enc_new = Ok e
  /\ Decode o (MkDec s (data_ e ++ rest)) pv = Ok (MkDec s rest, norm_val o v)
  /\ ops_Skip o (MkDec s (data_ e ++ rest)) = Some (MkDec s rest).
Proof.
  intros Hok Hv He Hr Hd. destruct (ops_codec_all o Hok true v Hv He) as (b & _ & _ & Henc & Hskip & Hdec).
  eexists. split; [apply Henc|]. split; [by apply Hdec|by apply Hskip].
Qed.

Definition sample_ops : SzlOps :=
  let m := MkOps sample_map [(STRING, None); (FLOAT, None)] in
  MkOps sample_tuple [(INT, None); (MAP, Some m)].
Definition sample_val : SzlValue :=
  VVals [VInt (-7); VVals [VStr [97; 0]; VFloat (2 ^ 63); VStr [98; 0]; VFloat 4607182418800017408]].

Lemma sample_ops_ok : ops_ok sample_ops.
Proof.
  apply ok_tuple; [done|]. apply Forall_cons. split; [by apply cell_base, basic_kind_in|].
  apply Forall_singleton. refine (cell_sub _ (MkOps sample_map _) _ _); [|by left].
  apply ok_map; [done|done|by apply cell_base, basic_kind_in|by apply cell_base, basic_kind_in].
Qed.

Lemma sample_val_ok : val_ok sample_ops sample_val.
Proof.
  eexists. split; [reflexivity|]. split; [by right|]. split; [by eexists|]. split; [|done].
  eexists. split; [reflexivity|]. split; [done|]. split; [done|].
  split; [right; exists [97]; by repeat (split || constructor)|]. split; [by eexists|].
  split; [right; exists [98]; by repeat (split || constructor)|]. split; [by eexists|done].
Qed.

Lemma value_codec_round_trip_witness :
  exists e, Encode sample_ops sample_val enc_new = Ok e
  /\ Decode sample_ops (MkDec [] (data_ e ++ [1; 2])) VNil = Ok (MkDec [] [1; 2], norm_val sample_ops sample_val)
  /\ ops_Skip sample_ops (MkDec [] (data_ e ++ [1; 2])) = Some (MkDec [] [1; 2]).
Proof.
  apply value_codec_round_trip; [apply sample_ops_ok|apply sample_val_ok|by repeat split
    |by repeat constructor|by repeat split; left].
Defined.

(** The zero of a tuple with a map field has no readable form: an empty tuple
    encodes without error, but nothing is written for the map and the result
    does not decode. *)
Theorem empty_tuple_with_map_unreadable s :
  exists e, Encode sample_ops VNil enc_new = Ok e
  /\ Decode sample_ops (MkDec s (data_ e)) VNil = Fail
  /\ ops_Skip sample_ops (MkDec s (data_ e)) = None.
Proof.
  eexists. split; [reflexivity|]. by split.
Qed.
