(* ===== verification/ValueOrder.v ===== *)
(** * The order of values

    [SzlOps::Cmp] on typed values without NaN is a total preorder: it never
    aborts, swapping the operands swaps the answer, and it is transitive; an
    empty tuple (or a NULL pointer) counts as the tuple of zeros. *)
From Stdlib Require Import ZArith Lia SpecFloat.
From stdpp Require Import prelude strings.
From S2P Require Import Prelude SzlType Encoder Decoder Double Codec SzlValue ValueCodec.

Local Open Scope Z_scope.

(** ** What a comparison has to satisfy *)

Section Laws.
Context {A : Type}.

(** On the elements of [P], [f] answers, is antisymmetric and transitive. *)
Record cmp_laws (P : A -> Prop) (f : A -> A -> res comparison) : Prop := {
  cl_total : forall a b, P a -> P b -> exists c, f a b = Ok c;
  cl_antisym : forall a b c, P a -> P b -> f a b = Ok c -> f b a = Ok (CompOpp c);
  cl_trans : forall a b d c1 c2, P a -> P b -> P d -> f a b = Ok c1 -> f b d = Ok c2 ->
    c1 <> Gt -> c2 <> Gt -> f a d = Ok (cmp_then c1 c2) }.

Lemma cmp_laws_refl P f a : cmp_laws P f -> P a -> f a a = Ok Eq.
Proof.
  intros L Ha. destruct (cl_total _ _ L a a Ha Ha) as [c Hc].
  pose proof (cl_antisym _ _ L a a c Ha Ha Hc) as Hc'. rewrite Hc in Hc'. by destruct c.
Qed.

(** Comparing by a key in [Z]. *)
Lemma cmp_laws_key (P : A -> Prop) (key : A -> Z) : cmp_laws P (fun a b => Ok (key a ?= key b)).
Proof.
  split.
  - by eexists.
  - intros a b c _ _ [= <-]. by rewrite (Z.compare_antisym (key a)).
  - intros a b d c1 c2 _ _ _ [= <-] [= <-] H1 H2. f_equal.
    destruct (Z.compare_spec (key a) (key b)), (Z.compare_spec (key b) (key d)); try done; cbn;
      first [apply Z.compare_eq_iff | apply Z.compare_lt_iff]; lia.
Qed.

(** Comparing by a string key. *)
Lemma cmp_laws_str (P : A -> Prop) (key : A -> bytes) : cmp_laws P (fun a b => Ok (str_cmp (key a) (key b))).
Proof.
  split.
  - by eexists.
  - intros a b c _ _ [= <-]. by rewrite (str_cmp_antisym (key a)).
  - intros a b d c1 c2 _ _ _ [= <-] [= <-] H1 H2. f_equal.
    destruct (str_cmp (key a) (key b)) eqn:E1, (str_cmp (key b) (key d)) eqn:E2; try done; cbn.
    + apply str_cmp_eq in E1, E2. rewrite E1, E2. apply str_cmp_refl.
    + apply str_cmp_eq in E1. by rewrite E1.
    + apply str_cmp_eq in E2. by rewrite <- E2.
    + by eapply str_cmp_lt_trans.
Qed.

Lemma cmp_laws_ext (P : A -> Prop) f g :
  (forall a b, P a -> P b -> f a b = g a b) -> cmp_laws P f -> cmp_laws P g.
Proof.
  intros E [H1 H2 H3]. split.
  - intros a b Ha Hb. rewrite <- E by done. by apply H1.
  - intros a b c Ha Hb. rewrite <- !E by done. by apply H2.
  - intros a b d c1 c2 Ha Hb Hd. rewrite <- !E by done. by apply H3.
Qed.
End Laws.

(** ** Base kinds *)

Lemma CmpBaseT_compare a b : CmpBaseT a b = (a ?= b).
Proof.
  unfold CmpBaseT. destruct (Z.ltb_spec a b), (Z.ltb_spec b a); try lia; symmetry;
    [by apply Z.compare_lt_iff|by apply Z.compare_gt_iff|apply Z.compare_eq_iff; lia].
Qed.

Lemma f64_cmp_key a b :
  is_u64 a -> is_u64 b -> is_nan a = false -> is_nan b = false ->
  f64_cmp a b = (float_key a ?= float_key b).
Proof.
  intros. unfold f64_cmp, f64_ltb, SFltb. rewrite !float_key_SFcompare by done.
  rewrite (Z.compare_antisym (float_key a)). by destruct (float_key a ?= float_key b).
Qed.

Lemma str_cmp_memcmp a b :
  match str_cmp (take (length a `min` length b) a) (take (length a `min` length b) b) with
  | Eq => Z.of_nat (length a) ?= Z.of_nat (length b)
  | c => c
  end = str_cmp a b.
Proof.
  revert b. induction a as [|x a IH]; intros [|y b]; try done. cbn [length Nat.min take str_cmp].
  destruct (x ?= y); [|done|done]. rewrite <- IH.
  destruct (str_cmp _ _); [|done|done].
  rewrite !Nat2Z.inj_succ. destruct (Z.compare_spec (Z.of_nat (length a)) (Z.of_nat (length b)));
    first [apply Z.compare_eq_iff | apply Z.compare_lt_iff | apply Z.compare_gt_iff]; lia.
Qed.

Definition obuf (s : option SzlValue) : bytes := match s with None => [] | Some v => vbuf v end.

Lemma CmpStr_str_cmp a b : CmpStr a b = str_cmp (obuf a) (obuf b).
Proof.
  destruct a as [a|], b as [b|]; cbn [CmpStr obuf].
  - pose proof (str_cmp_memcmp (vbuf a) (vbuf b)) as E. rewrite <- CmpBaseT_compare in E. exact E.
  - by destruct (vbuf a).
  - by destruct (vbuf b).
  - done.
Qed.

(** A float that a comparison orders. *)
Definition base_cmp_ok (k : Kind) (s : option SzlValue) : Prop :=
  match s with
  | None => True
  | Some v => base_ok k v /\ (k = FLOAT -> is_nan (vf v) = false)
  end.

Lemma CmpBase_laws k : k ∈ basic_kinds -> cmp_laws (base_cmp_ok k) (CmpBase k).
Proof.
  intros Hk. destruct k; try (by apply not_basic in Hk).
  - eapply cmp_laws_ext; [|exact (cmp_laws_key _ ou)]. intros. cbn. by rewrite CmpBaseT_compare.
  - eapply cmp_laws_ext; [|exact (cmp_laws_str _ obuf)]. intros. cbn. by rewrite CmpStr_str_cmp.
  - eapply cmp_laws_ext; [|exact (cmp_laws_key _ ou)]. intros. cbn. by rewrite CmpBaseT_compare.
  - eapply cmp_laws_ext; [|exact (cmp_laws_key _ (fun s => float_key (of_ s)))].
    assert (forall s, base_cmp_ok FLOAT s -> is_u64 (of_ s) /\ is_nan (of_ s) = false) as Hf.
    { intros [v|] H; [|done]. destruct H as [(f & -> & Hf) Hn]. split; [done|by apply Hn]. }
    intros a b [Ha1 Ha2]%Hf [Hb1 Hb2]%Hf. cbn. by rewrite f64_cmp_key.
  - eapply cmp_laws_ext; [|exact (cmp_laws_key _ oi)]. intros. cbn. by rewrite CmpBaseT_compare.
  - eapply cmp_laws_ext; [|exact (cmp_laws_str _ obuf)]. intros. cbn. by rewrite CmpStr_str_cmp.
  - eapply cmp_laws_ext; [|exact (cmp_laws_key _ ou)]. intros. cbn. by rewrite CmpBaseT_compare.
Qed.

(** ** Containers *)

(** Tuples: position by position over lists of one length. *)
Lemma loop_cmp_laws {C A} (P : C -> A -> Prop) (f : C -> A * A -> res comparison) cells cur :
  Forall (fun c => cmp_laws (P c) (fun a b => f c (a, b))) cur ->
  cmp_laws (fun l => Forall2 P cur l) (fun l0 l1 => loop_cmp (map f cells) (map f cur) (zip l0 l1)).
Proof.
  intros Hu. induction Hu as [|c cur Hcu Hu IH].
  - split.
    + intros a b Ha Hb. apply Forall2_nil_inv_l in Ha, Hb as ->. subst. by eexists.
    + intros a b d Ha Hb. apply Forall2_nil_inv_l in Ha, Hb as ->. subst. cbn. by intros [= <-].
    + intros a b d c1 c2 Ha Hb Hd. apply Forall2_nil_inv_l in Ha, Hb, Hd as ->. subst. cbn.
      by intros [= <-] [= <-].
  - split.
    + intros a b (x & a' & Hx & Ha & ->)%Forall2_cons_inv_l (y & b' & Hy & Hb & ->)%Forall2_cons_inv_l.
      cbn [zip_with map loop_cmp next_cell]. destruct (cl_total _ _ Hcu x y Hx Hy) as [h ->]. cbn.
      destruct h; [by apply (cl_total _ _ IH)|by eexists|by eexists].
    + intros a b d (x & a' & Hx & Ha & ->)%Forall2_cons_inv_l (y & b' & Hy & Hb & ->)%Forall2_cons_inv_l.
      cbn [zip_with map loop_cmp next_cell]. destruct (cl_total _ _ Hcu x y Hx Hy) as [h Eh].
      rewrite Eh, (cl_antisym _ _ Hcu x y h Hx Hy Eh). cbn.
      destruct h; cbn; [by apply (cl_antisym _ _ IH)|by intros [= <-]|by intros [= <-]].
    + intros a b d c1 c2 (x & a' & Hx & Ha & ->)%Forall2_cons_inv_l (y & b' & Hy & Hb & ->)%Forall2_cons_inv_l
        (z & d' & Hz & Hd & ->)%Forall2_cons_inv_l.
      cbn [zip_with map loop_cmp next_cell].
      destruct (cl_total _ _ Hcu x y Hx Hy) as [h1 E1], (cl_total _ _ Hcu y z Hy Hz) as [h2 E2].
      rewrite E1, E2. cbn. intros H1 H2 N1 N2.
      assert (h1 <> Gt) as G1 by (intros ->; congruence).
      assert (h2 <> Gt) as G2 by (intros ->; congruence).
      rewrite (cl_trans _ _ Hcu x y z h1 h2) by done. cbn.
      destruct h1, h2; try done; cbn in *.
      * by apply (cl_trans _ _ IH a' b' d').
      * injection H2 as <-. by destruct c1.
      * injection H1 as <-. done.
      * injection H1 as <-. done.
Qed.

(** Arrays and maps: the dictionary order. *)
Fixpoint dict_cmp {B} (all cur : list (B -> B -> res comparison)) (l0 l1 : list B) : res comparison :=
  match l0, l1 with
  | [], [] => Ok Eq
  | [], _ => Ok Lt
  | _, [] => Ok Gt
  | x :: l0, y :: l1 =>
      match next_cell all cur with
      | None => Fatal
      | Some (f, cur) =>
          c ← f x y;
          match c with Eq => dict_cmp all cur l0 l1 | _ => Ok c end
      end
  end.

Lemma dict_cmp_laws {C} (P : C -> SzlValue -> Prop) (f : C -> SzlValue -> SzlValue -> res comparison) cells cur :
  Forall (fun c => cmp_laws (P c) (f c)) cells -> Forall (fun c => cmp_laws (P c) (f c)) cur ->
  cmp_laws (fun l => loop_all (map P cells) (map P cur) l) (dict_cmp (map f cells) (map f cur)).
Proof.
  intros Hc Hu. split.
  - intros a b. revert cur Hu b. induction a as [|x a IH]; intros cur Hu [|y b] Ha Hb; try by eexists.
    cbn [dict_cmp loop_all] in *. rewrite next_cell_map in Ha, Hb. rewrite next_cell_map.
    destruct (next_cell cells cur) as [[c cur']|] eqn:En; [|done].
    destruct (next_cell_In _ _ _ _ _ Hc Hu En) as [L Hu'], Ha as [Hx Ha], Hb as [Hy Hb].
    destruct (cl_total _ _ L x y Hx Hy) as [h ->]. cbn. destruct h; [by apply IH|by eexists|by eexists].
  - intros a. revert cur Hu. induction a as [|x a IH]; intros cur Hu [|y b] d Ha Hb; cbn [dict_cmp];
      try (by intros [= <-]).
    cbn [loop_all] in *. rewrite next_cell_map in Ha, Hb. rewrite next_cell_map.
    destruct (next_cell cells cur) as [[c cur']|] eqn:En; [|done].
    destruct (next_cell_In _ _ _ _ _ Hc Hu En) as [L Hu'], Ha as [Hx Ha], Hb as [Hy Hb].
    destruct (cl_total _ _ L x y Hx Hy) as [h Eh]. rewrite Eh, (cl_antisym _ _ L x y h Hx Hy Eh). cbn.
    destruct h; cbn; [by apply IH|by intros [= <-]|by intros [= <-]].
  - intros a. revert cur Hu. induction a as [|x a IH]; intros cur Hu [|y b] [|z d] c1 c2 Ha Hb Hd;
      cbn [dict_cmp]; try (intros [= <-] [= <-] N1 N2; done); try (intros E1 [= <-] N1 N2; done).
    + intros [= <-] E N1 N2. done.
    + cbn [loop_all] in *. rewrite next_cell_map in Ha, Hb, Hd. rewrite next_cell_map.
      destruct (next_cell cells cur) as [[c cur']|] eqn:En; [|done].
      destruct (next_cell_In _ _ _ _ _ Hc Hu En) as [L Hu'], Ha as [Hx Ha], Hb as [Hy Hb], Hd as [Hz Hd].
      destruct (cl_total _ _ L x y Hx Hy) as [h1 E1], (cl_total _ _ L y z Hy Hz) as [h2 E2].
      rewrite E1, E2. cbn. intros H1 H2 N1 N2.
      assert (h1 <> Gt) as G1 by (intros ->; congruence).
      assert (h2 <> Gt) as G2 by (intros ->; congruence).
      rewrite (cl_trans _ _ L x y z h1 h2) by done. cbn. destruct h1, h2; try done; cbn in *.
      * by apply (IH cur' Hu' b d).
      * injection H2 as <-. by destruct c1.
      * by injection H1 as <-.
      * by injection H1 as <-.
Qed.

(** ** The whole comparison *)

Fixpoint nan_free (o : SzlOps) (v : SzlValue) : Prop :=
  let '(MkOps t cells) := o in
  let Ps := map (fun '(k, sub) v =>
    match sub with
    | Some sub => nan_free sub v
    | None => k = FLOAT -> is_nan (vf v) = false
    end) cells in
  match kind_ t with
  | TUPLE | ARRAY | MAP => loop_all Ps Ps (vvals v)
  | k => k = FLOAT -> is_nan (vf v) = false
  end.

(** What [Cmp] may be given: NULL, or a typed value without NaN. *)
Definition cmp_ok (o : SzlOps) (s : option SzlValue) : Prop :=
  match s with None => True | Some v => val_ok o v /\ nan_free o v end.

Definition cell_cmp_ok (c : Kind * option SzlOps) (s : option SzlValue) : Prop :=
  match c with (_, Some o) => cmp_ok o s | (k, None) => base_cmp_ok k s end.

Definition cmp_cell : Kind * option SzlOps -> option SzlValue * option SzlValue -> res comparison :=
  fun '(k, sub) '(v0, v1) =>
    match sub with
    | Some sub => Cmp sub v0 v1
    | None => CmpBase k v0 v1
    end.

Definition some_ok (c : Kind * option SzlOps) (v : SzlValue) : Prop := cell_cmp_ok c (Some v).

Lemma loop_all_and {C} (P Q R : C -> SzlValue -> Prop) all cur vals :
  (forall c v, P c v -> Q c v -> R c v) ->
  loop_all (map P all) (map P cur) vals -> loop_all (map Q all) (map Q cur) vals ->
  loop_all (map R all) (map R cur) vals.
Proof.
  intros H. revert cur. induction vals as [|v vals IH]; intros cur; cbn [loop_all]; [done|].
  rewrite !next_cell_map. destruct (next_cell all cur) as [[c cur']|]; [|done].
  intros [H1 H2] [H3 H4]. split; auto.
Qed.

Lemma cmp_pairs_cons n x l0 y l1 :
  cmp_pairs (S n) (x :: l0) (y :: l1) = (Some x, Some y) :: cmp_pairs n l0 l1.
Proof. unfold cmp_pairs. cbn [seq map]. f_equal. by rewrite <- seq_shift, map_map. Qed.

Lemma dict_cmp_loop {C} (f : C -> option SzlValue * option SzlValue -> res comparison) all cur l0 l1 :
  (c ← loop_cmp (map f all) (map f cur) (cmp_pairs (length l0 `min` length l1) l0 l1);
   match c with
   | Eq => Ok (CmpBaseT (Z.of_nat (length l0)) (Z.of_nat (length l1)))
   | _ => Ok c
   end)
  = dict_cmp (map (fun c x y => f c (Some x, Some y)) all)
             (map (fun c x y => f c (Some x, Some y)) cur) l0 l1.
Proof.
  revert cur l1. induction l0 as [|x l0 IH]; intros cur [|y l1]; try done.
  cbn [length Nat.min]. rewrite cmp_pairs_cons. cbn [loop_cmp dict_cmp]. rewrite !next_cell_map.
  destruct (next_cell all cur) as [[c cur']|]; [|done].
  destruct (f c (Some x, Some y)) as [[]| |]; try done. cbn [mbind res_bind].
  rewrite <- IH. destruct (loop_cmp _ _ _) as [[]| |]; try done. cbn [mbind res_bind].
  f_equal. rewrite !CmpBaseT_compare, !Nat2Z.inj_succ.
  destruct (Z.compare_spec (Z.of_nat (length l0)) (Z.of_nat (length l1)));
    first [apply Z.compare_eq_iff | apply Z.compare_lt_iff | apply Z.compare_gt_iff]; lia.
Qed.

(** The positions of a tuple that the loop sees. *)
Definition pad (n : nat) (l : list SzlValue) : list (option SzlValue) := map (fun i => l !! i) (seq 0 n).

Lemma cmp_pairs_pad n l0 l1 : cmp_pairs n l0 l1 = zip (pad n l0) (pad n l1).
Proof. unfold cmp_pairs, pad. induction (seq 0 n); [done|]. cbn. by f_equal. Qed.

Lemma pad_nil n : pad n [] = replicate n None.
Proof.
  unfold pad. generalize 0%nat. induction n as [|n IH]; intros i; [done|]. cbn. by rewrite IH.
Qed.

Lemma pad_full l : pad (length l) l = map Some l.
Proof.
  unfold pad. induction l as [|v l IH]; [done|]. cbn [length seq map]. f_equal.
  by rewrite <- IH, <- seq_shift, map_map.
Qed.

Lemma pad_ok cells l :
  l = [] \/ length l = length cells ->
  loop_all (map some_ok cells) (map some_ok cells) l -> Forall2 cell_cmp_ok cells (pad (length cells) l).
Proof.
  intros [->|Hl] H.
  - rewrite pad_nil. clear H. induction cells as [|[k [o|]] cells IH]; by constructor.
  - rewrite <- Hl, pad_full. revert H. generalize (map some_ok cells) at 1 as all.
    revert l Hl. induction cells as [|c cells IH]; intros [|v l] Hl all H; try done.
    cbn in H. destruct H as [H1 H2]. injection Hl as Hl. constructor; [done|by apply (IH l Hl all)].
Qed.

(** The cases of [Cmp] on containers. *)
Lemma Cmp_tuple t cells s0 s1 :
  kind_ t = TUPLE ->
  Cmp (MkOps t cells) s0 s1
  = if (length (ovals s0) =? 0)%nat && (length (ovals s1) =? 0)%nat then Ok Eq
    else loop_cmp (map cmp_cell cells) (map cmp_cell cells)
           (zip (pad (length cells) (ovals s0)) (pad (length cells) (ovals s1))).
Proof. intros Hk. cbn [Cmp]. rewrite Hk. fold cmp_cell. by rewrite cmp_pairs_pad. Qed.

Lemma Cmp_dict t cells s0 s1 :
  kind_ t = ARRAY \/ kind_ t = MAP ->
  let f c x y := cmp_cell c (Some x, Some y) in
  Cmp (MkOps t cells) s0 s1 = dict_cmp (map f cells) (map f cells) (ovals s0) (ovals s1).
Proof.
  intros Hk f. subst f. rewrite <- dict_cmp_loop. cbn [Cmp]. fold cmp_cell.
  destruct Hk as [-> | ->]; destruct (ovals s0), (ovals s1); done.
Qed.

Lemma cmp_ok_ovals t cells s :
  ops_ok (MkOps t cells) -> kind_ t ∈ containers -> cmp_ok (MkOps t cells) s ->
  loop_all (map some_ok cells) (map some_ok cells) (ovals s)
  /\ (kind_ t = TUPLE -> ovals s = [] \/ length (ovals s) = length cells).
Proof.
  intros _ Hk H. destruct s as [v|]; [|by split; [|left]]. destruct H as [Hv Hn].
  assert (forall c w, val_cell_ok c w ->
    (fun '(k, sub) v => match sub with
       | Some sub => nan_free sub v
       | None => k = FLOAT -> is_nan (vf v) = false end : Prop) c w -> some_ok c w) as Hc.
  { intros [k [o|]] w; cbn; auto. }
  cbn [val_ok nan_free] in Hv, Hn.
  destruct (kind_ t); try (by apply not_container in Hk).
  - destruct Hv as (vals & -> & Hl & Hv). split; [|by intros]. by apply (loop_all_and _ _ _ _ _ _ Hc Hv Hn).
  - destruct Hv as (vals & -> & Hl & Hv). split; [|done]. by apply (loop_all_and _ _ _ _ _ _ Hc Hv Hn).
  - destruct Hv as (vals & -> & Hl & _ & Hv). split; [|done]. by apply (loop_all_and _ _ _ _ _ _ Hc Hv Hn).
Qed.

Lemma cmp_laws_map {A B} (g : A -> B) (P : A -> Prop) (Q : B -> Prop) f :
  (forall a, P a -> Q (g a)) -> cmp_laws Q f -> cmp_laws P (fun a b => f (g a) (g b)).
Proof.
  intros H [H1 H2 H3]. split.
  - intros a b Ha%H Hb%H. by apply H1.
  - intros a b c Ha%H Hb%H. by apply H2.
  - intros a b d c1 c2 Ha%H Hb%H Hd%H. by apply H3.
Qed.

Lemma Cmp_laws o : ops_ok o -> cmp_laws (cmp_ok o) (Cmp o).
Proof.
  induction o as [t cells IH] using SzlOps_nested_ind. intros Hok.
  assert (Forall (fun c => cmp_laws (cell_cmp_ok c) (fun a b => cmp_cell c (a, b))) cells) as Hcells.
  { pose proof (ops_ok_cells t cells Hok) as Hcs. apply Forall_forall. intros c Hin.
    pose proof (proj1 (Forall_forall _ _) IH c Hin) as Hi.
    pose proof (proj1 (Forall_forall _ _) Hcs c Hin) as Hc.
    destruct (cell_ok_inv _ _ Hc) as [(k & Hk & ->)|(o & Ho & -> & Hk)]; cbn.
    - by apply CmpBase_laws.
    - by apply Hi. }
  assert (Forall (fun c => cmp_laws (some_ok c) (fun x y => cmp_cell c (Some x, Some y))) cells) as Hsome.
  { eapply Forall_impl; [exact Hcells|]. intros c L. exact (cmp_laws_map Some _ _ _ (fun _ H => H) L). }
  pose proof (ops_ok_kind _ Hok) as [Hk|Hk]; unfold ops_kind in Hk; cbn in Hk.
  - eapply cmp_laws_ext; [|eapply (cmp_laws_map id (cmp_ok (MkOps t cells))); [|apply (CmpBase_laws _ Hk)]].
    + intros a b _ _. cbn. destruct (kind_ t); try done; by apply not_basic in Hk.
    + intros [v|]; [|done]. intros [Hv Hn]. cbn in *.
      destruct (kind_ t); try (by apply not_basic in Hk); by split.
  - destruct (kind_ t) eqn:E; try (by apply not_container in Hk).
    + eapply cmp_laws_ext; [|eapply (cmp_laws_map (fun s => pad (length cells) (ovals s)));
        [|exact (loop_cmp_laws _ _ cells cells Hcells)]].
      * intros a b Ha Hb. rewrite Cmp_tuple by done. 
        destruct (ovals a), (ovals b); try done. cbn [length Nat.eqb andb].
        apply (cmp_laws_refl _ _ _ (loop_cmp_laws _ _ cells cells Hcells)), pad_ok; [by left|done].
      * intros s Hs. rewrite <- E in Hk. destruct (cmp_ok_ovals t cells s Hok Hk Hs) as [H1 H2].
        apply pad_ok; auto.
    + eapply cmp_laws_ext; [|eapply (cmp_laws_map ovals); [|exact (dict_cmp_laws _ _ cells cells Hsome Hsome)]].
      * intros a b _ _. by rewrite Cmp_dict by auto.
      * intros s Hs. rewrite <- E in Hk. by apply (cmp_ok_ovals t cells s Hok Hk Hs).
    + eapply cmp_laws_ext; [|eapply (cmp_laws_map ovals); [|exact (dict_cmp_laws _ _ cells cells Hsome Hsome)]].
      * intros a b _ _. by rewrite Cmp_dict by auto.
      * intros s Hs. rewrite <- E in Hk. by apply (cmp_ok_ovals t cells s Hok Hk Hs).
Qed.

(** C27. On typed values without NaN, [Cmp] never aborts, swapping the operands
    swaps the answer, and comparisons that are not "greater" compose: a total
    preorder, for every nesting of tuples, arrays and maps. *)
Theorem Cmp_total_preorder o a b c :
  ops_ok o -> val_ok o a -> val_ok o b -> val_ok o c ->
  nan_free o a -> nan_free o b -> nan_free o c ->
  exists x y, Cmp o (Some a) (Some b) = Ok x /\ Cmp o (Some b) (Some c) = Ok y
  /\ Cmp o (Some a) (Some a) = Ok Eq
  /\ Cmp o (Some b) (Some a) = Ok (CompOpp x)
  /\ (x <> Gt -> y <> Gt -> Cmp o (Some a) (Some c) = Ok (cmp_then x y)).
Proof.
  intros Hok Va Vb Vc Na Nb Nc. pose proof (Cmp_laws o Hok) as L.
  assert (cmp_ok o (Some a)) as Ha by done. assert (cmp_ok o (Some b)) as Hb by done.
  assert (cmp_ok o (Some c)) as Hc by done.
  destruct (cl_total _ _ L _ _ Ha Hb) as [x Hx], (cl_total _ _ L _ _ Hb Hc) as [y Hy].
  exists x, y. split; [done|]. split; [done|]. split; [by apply (cmp_laws_refl _ _ _ L)|].
  split; [by apply (cl_antisym _ _ L)|]. by apply (cl_trans _ _ L _ _ _ _ _ Ha Hb Hc).
Qed.

Lemma Cmp_total_preorder_witness :
  exists x y, Cmp sample_ops (Some sample_val) (Some VNil) = Ok x
  /\ Cmp sample_ops (Some VNil) (Some (VVals [VInt 3; VNil])) = Ok y
  /\ Cmp sample_ops (Some sample_val) (Some sample_val) = Ok Eq
  /\ Cmp sample_ops (Some VNil) (Some sample_val) = Ok (CompOpp x)
  /\ (x <> Gt -> y <> Gt ->
      Cmp sample_ops (Some sample_val) (Some (VVals [VInt 3; VNil])) = Ok (cmp_then x y)).
Proof.
  apply Cmp_total_preorder; [apply sample_ops_ok|apply sample_val_ok| | |by repeat split|done|by repeat split].
  - eexists. split; [reflexivity|]. split; [by left|done].
  - eexists. split; [reflexivity|]. split; [by right|]. split; [by eexists|]. split; [|done].
    eexists. split; [reflexivity|done].
Defined.

(** With a NaN the answers are not even transitive: NaN equals every float,
    so equal values compare differently with a third one. *)
Theorem Cmp_nan_not_transitive (x y : Z) :
  f64_ltb x y = true ->
  let o := MkOps (kind_type FLOAT) [(FLOAT, None)] in
  let nan := VFloat (bits_of_sf S754_nan) in
  Cmp o (Some (VFloat x)) (Some nan) = Ok Eq /\ Cmp o (Some nan) (Some (VFloat y)) = Ok Eq
  /\ Cmp o (Some (VFloat x)) (Some (VFloat y)) = Ok Lt.
Proof.
  intros H o nan. assert (forall z, f64_cmp z (bits_of_sf S754_nan) = Eq /\ f64_cmp (bits_of_sf S754_nan) z = Eq) as E.
  { intros z. unfold f64_cmp, f64_ltb, SFltb.
    change (sf_of_bits (bits_of_sf S754_nan)) with S754_nan. by destruct (sf_of_bits z) as [[]|[]| |[]]. }
  cbn. rewrite !(proj1 (E _)), !(proj2 (E _)). unfold f64_cmp. by rewrite H.
Qed.

Lemma Cmp_nan_not_transitive_witness :
  let o := MkOps (kind_type FLOAT) [(FLOAT, None)] in
  let nan := VFloat (bits_of_sf S754_nan) in
  Cmp o (Some (VFloat 0)) (Some nan) = Ok Eq
  /\ Cmp o (Some nan) (Some (VFloat 4607182418800017408)) = Ok Eq
  /\ Cmp o (Some (VFloat 0)) (Some (VFloat 4607182418800017408)) = Ok Lt.
Proof. apply Cmp_nan_not_transitive. vm_compute. reflexivity. Defined.

(** ** Encodings sort as values *)

(** A base value in the form that decoding produces. *)
Definition canonical (k : Kind) (v : SzlValue) : Prop := k = BOOL -> vi v = 0 \/ vi v = 1.

Lemma base_order k v w :
  base_ok k v -> base_ok k w -> canonical k v -> canonical k w -> k <> BYTES ->
  (k = FLOAT -> is_nan (vf v) = false /\ is_nan (vf w) = false) ->
  CmpBase k (Some v) (Some w) = Ok (prim_cmp (prim_of k v) (prim_of k w)).
Proof.
  intros Hv Hw Cv Cw Hb Hn. destruct k; try done; cbn [CmpBase prim_of prim_cmp oi ou of_];
    rewrite ?CmpBaseT_compare; try done.
  - destruct (Cv eq_refl) as [-> | ->], (Cw eq_refl) as [-> | ->]; done.
  - destruct Hv as (f & -> & Hf), Hw as (g & -> & Hg), (Hn eq_refl). cbn in *.
    by rewrite f64_cmp_key.
  - rewrite CmpStr_str_cmp. cbn [obuf].
    assert (forall s : bytes, s <> [] -> length s <> 0%nat) as Hne by (by intros []).
    destruct Hv as [->|(s & -> & Hs0 & Hs & Hsn)], Hw as [->|(t & -> & Ht0 & Ht & Htn)]; cbn [vbuf].
    + done.
    + rewrite length_app. cbn [length]. replace (length t + 1 - 1)%nat with (length t) by lia.
      rewrite take_app_length. by destruct t.
    + rewrite length_app. cbn [length]. replace (length s + 1 - 1)%nat with (length s) by lia.
      rewrite take_app_length. by destruct s.
    + rewrite !length_app. cbn [length]. replace (length s + 1 - 1)%nat with (length s) by lia.
      replace (length t + 1 - 1)%nat with (length t) by lia. rewrite !take_app_length.
      rewrite string_nul_cmp by done. cbn. by destruct (str_cmp s t).
Qed.

(** The fields of a tuple of base values. *)
Definition field_ok (k : Kind) (v : SzlValue) : Prop :=
  base_ok k v /\ canonical k v /\ k <> BYTES /\ (k = FLOAT -> is_nan (vf v) = false).

Definition base_cells (ks : list Kind) : list (Kind * option SzlOps) := map (fun k => (k, None)) ks.

Lemma fields_order ks vs ws all :
  Forall2 field_ok ks vs -> Forall2 field_ok ks ws ->
  loop_cmp all (map cmp_cell (base_cells ks)) (zip (map Some vs) (map Some ws))
  = Ok (prims_cmp (zip_with prim_of ks vs) (zip_with prim_of ks ws)).
Proof.
  intros Hv. revert ws. induction Hv as [|k v ks vs (Hv & Cv & Hb & Nv) Hvs IH];
    intros ws Hw; [by apply Forall2_nil_inv_l in Hw as ->|].
  apply Forall2_cons_inv_l in Hw as (w & ws' & (Hw & Cw & _ & Nw) & Hws & ->).
  cbn [base_cells map zip_with loop_cmp next_cell cmp_cell prims_cmp].
  rewrite base_order by auto. cbn [mbind res_bind].
  destruct (prim_cmp _ _); cbn [cmp_then]; [by apply IH|done|done].
Qed.

Lemma fields_encode ks vs all e :
  Forall2 field_ok ks vs ->
  loop_fold all (map enc_cell (base_cells ks)) vs e = put_prims e (zip_with prim_of ks vs)
  /\ Forall prim_ok (zip_with prim_of ks vs) /\ map prim_kind (zip_with prim_of ks vs) = ks.
Proof.
  intros Hv. revert e. induction Hv as [|k v ks vs (Hv & _) Hvs IH]; intros e; [done|].
  destruct (prim_of_ok k v Hv) as [Hp Hk]. destruct (IH e) as (_ & I2 & I3).
  cbn [base_cells map zip_with loop_fold next_cell enc_cell put_prims].
  rewrite SzlOpsDoEncode_prim by by eapply base_ok_basic.
  split; [|split; [by constructor|by rewrite Hk, I3]].
  destruct (put_prim e (prim_of k v)) as [e'| |]; [|done|done]. cbn [mbind res_bind]. by apply IH.
Qed.

(** For tuples of base fields other than BYTES, holding decoded booleans and
    no NaN, comparing the encodings as strings is comparing the values: the two
    orders that tables sort by are one. *)
Theorem encoding_sorts_as_Cmp t ks vs ws x y :
  kind_ t = TUPLE -> vs <> [] -> Forall2 field_ok ks vs -> Forall2 field_ok ks ws ->
  let o := MkOps t (base_cells ks) in
  exists e f c, Encode o (VVals vs) enc_new = Ok e /\ Encode o (VVals ws) enc_new = Ok f
  /\ Cmp o (Some (VVals vs)) (Some (VVals ws)) = Ok c
  /\ str_cmp (data_ e ++ x) (data_ f ++ y) = cmp_then c (str_cmp x y).
Proof.
  intros Hk Hne Hv Hw o.
  assert (length vs = length ks /\ length ws = length ks) as [Lv Lw]
    by (apply Forall2_length in Hv, Hw; lia).
  destruct (fields_encode ks vs (map enc_cell (base_cells ks)) enc_new Hv) as (E1 & P1 & K1).
  destruct (fields_encode ks ws (map enc_cell (base_cells ks)) enc_new Hw) as (E2 & P2 & K2).
  rewrite put_prims_spec in E1, E2 by done.
  assert (forall us e, us <> [] -> loop_fold (map enc_cell (base_cells ks)) (map enc_cell (base_cells ks)) us enc_new = Ok e ->
    Encode o (VVals us) enc_new = Ok e) as Henc.
  { intros us e Hus H. unfold Encode, o. cbn [EncodeInternal vvals]. rewrite Hk. cbn [mbind res_bind].
    fold enc_cell. destruct us; [done|]. by rewrite H. }
  do 3 eexists. split; [by apply Henc|]. split; [apply Henc; [by intros ->; destruct vs, ks|exact E2]|].
  split; [|apply prims_cmp_spec; [done|done|congruence]].
  unfold o. rewrite Cmp_tuple by done. cbn [ovals vvals].
  rewrite (proj2 (Nat.eqb_neq (length vs) 0)) by by destruct vs.
  cbn [andb]. unfold base_cells at 3 4. rewrite length_map. rewrite <- Lv at 1. rewrite <- Lw, !pad_full.
  by apply fields_order.
Qed.

Lemma encoding_sorts_as_Cmp_witness :
  let o := MkOps (kind_type TUPLE) (base_cells [INT; STRING]) in
  exists e f c, Encode o (VVals [VInt (-3); VStr [97; 0]]) enc_new = Ok e
  /\ Encode o (VVals [VInt (-3); VStr []]) enc_new = Ok f
  /\ Cmp o (Some (VVals [VInt (-3); VStr [97; 0]])) (Some (VVals [VInt (-3); VStr []])) = Ok c
  /\ str_cmp (data_ e ++ []) (data_ f ++ [9]) = cmp_then c (str_cmp [] [9]).
Proof.
  apply (encoding_sorts_as_Cmp (kind_type TUPLE) [INT; STRING]); [done|done| |].
  - constructor; [split; [by eexists|by split]|]. constructor; [|constructor].
    split; [right; exists [97]; by repeat (split || constructor)|by split].
  - constructor; [split; [by eexists|by split]|]. constructor; [|constructor].
    split; [by left|by split].
Defined.
