(* ===== verification/ValueAdd.v ===== *)
(** * Adding values

    The two-pass sum of two maps in [AddInternal] is the merge of two sorted
    association lists, and the merge is the pointwise sum of the maps. *)
From Stdlib Require Import ZArith Lia.
From stdpp Require Import prelude strings.
From S2P Require Import Prelude SzlType Encoder Decoder Double Codec SzlValue ValueCodec ValueOrder.

Local Open Scope Z_scope.

Abbreviation pair := (SzlValue * SzlValue)%type.

(** ** The reference: merging two sorted association lists *)

Section Merge.
Context (cmp : SzlValue -> SzlValue -> comparison) (add : SzlValue -> SzlValue -> SzlValue).

Fixpoint merge_maps (s : list pair) : list pair -> list pair :=
  fix go (d : list pair) :=
    match s, d with
    | [], d => d
    | s, [] => s
    | (sk, sv) :: s', (dk, dv) :: d' =>
        match cmp sk dk with
        | Lt => (sk, sv) :: merge_maps s' d
        | Gt => (dk, dv) :: go d'
        | Eq => (dk, add sv dv) :: merge_maps s' d'
        end
    end.

(** The places of the sum: a source pair alone, a destination pair alone, both. *)
Inductive slot : Type :=
| SlotS (p : pair)
| SlotD (p : pair)
| SlotB (p q : pair).

Fixpoint slots (s : list pair) : list pair -> list slot :=
  fix go (d : list pair) :=
    match s, d with
    | [], [] => []
    | [], q :: d => SlotD q :: go d
    | p :: s, [] => SlotS p :: slots s []
    | p :: s', q :: d' =>
        match cmp (fst p) (fst q) with
        | Lt => SlotS p :: slots s' d
        | Gt => SlotD q :: go d'
        | Eq => SlotB p q :: slots s' d'
        end
    end.

(** Where the source and destination pairs of the slots from place [i] on go. *)
Fixpoint s_targets (i : nat) (l : list slot) : list (nat * bool) :=
  match l with
  | [] => []
  | SlotS _ :: l => (i, true) :: s_targets (S i) l
  | SlotD _ :: l => s_targets (S i) l
  | SlotB _ _ :: l => (i, false) :: s_targets (S i) l
  end.
Fixpoint d_targets (i : nat) (l : list slot) : list nat :=
  match l with
  | [] => []
  | SlotS _ :: l => d_targets (S i) l
  | SlotD _ :: l | SlotB _ _ :: l => i :: d_targets (S i) l
  end.

Definition slot_s (x : slot) : list pair := match x with SlotS p | SlotB p _ => [p] | _ => [] end.
Definition slot_d (x : slot) : list pair := match x with SlotD q | SlotB _ q => [q] | _ => [] end.
(** The place before and after the second pass. *)
Definition slot_base (x : slot) : pair := match x with SlotS _ => (VNil, VNil) | SlotD q | SlotB _ q => q end.
Definition slot_sum (x : slot) : pair :=
  match x with
  | SlotS p => p
  | SlotD q => q
  | SlotB p q => (fst q, add (snd p) (snd q))
  end.

Lemma slots_s s d : slots s d ≫= slot_s = s.
Proof.
  revert d. induction s as [|p s IH]; intros d; induction d as [|q d IHd]; try done.
  - cbn. by rewrite IH.
  - cbn [slots]. destruct (cmp _ _); rewrite bind_cons; cbn [slot_s app]; [by rewrite IH|by rewrite IH|exact IHd].
Qed.

Lemma slots_d s d : slots s d ≫= slot_d = d.
Proof.
  revert d. induction s as [|p s IH]; intros d; induction d as [|q d IHd]; try done.
  - cbn in *. by rewrite IHd.
  - cbn. by rewrite IH.
  - cbn [slots]. destruct (cmp _ _); rewrite bind_cons; cbn [slot_d app]; [by rewrite IH|by rewrite IH|].
    f_equal. exact IHd.
Qed.

Lemma merge_nil d : merge_maps [] d = d.
Proof. by destruct d. Qed.

Lemma slots_merge s d : map slot_sum (slots s d) = merge_maps s d.
Proof.
  revert d. induction s as [|[sk sv] s IH]; intros d; induction d as [|[dk dv] d IHd]; try done.
  - rewrite merge_nil in *. cbn in *. by rewrite IHd.
  - cbn. rewrite IH. by destruct s as [|[? ?] ?].
  - cbn [slots merge_maps fst]. destruct (cmp sk dk); cbn; [by rewrite IH|by rewrite IH|]. f_equal. exact IHd.
Qed.
End Merge.

(** ** The two passes implement the merge *)

Section Refine.
Context (cmp : SzlValue -> SzlValue -> comparison) (add : SzlValue -> SzlValue -> SzlValue)
        (cmp_key : SzlValue -> SzlValue -> res comparison)
        (add_val : SzlValue -> SzlValue -> res SzlValue)
        (copy_pair : pair -> pair -> res pair)
        (KP VP : SzlValue -> Prop)
        (Hcmp : forall a b, KP a -> KP b -> cmp_key a b = Ok (cmp a b))
        (Hadd : forall a b, VP a -> VP b -> add_val a b = Ok (add a b))
        (Hcopy : forall p, KP (fst p) -> VP (snd p) -> copy_pair p (VNil, VNil) = Ok p).

Definition pair_ok (p : pair) : Prop := KP (fst p) /\ VP (snd p).

Abbreviation mslots := (slots cmp).

Lemma map_targets_spec s d i :
  Forall pair_ok s -> Forall pair_ok d ->
  map_targets cmp_key s d i
  = Ok (s_targets i (mslots s d), d_targets i (mslots s d), (i + length (mslots s d))%nat).
Proof.
  intros Hs. revert d i. induction Hs as [|[sk sv] s [Hk Hv] Hs IH]; intros d i Hd;
    revert i; induction Hd as [|[dk dv] d [Hk' Hv'] Hd IHd]; intros i.
  - cbn. by rewrite Nat.add_0_r.
  - cbn in *. rewrite IHd. cbn. by rewrite <- plus_n_Sm.
  - cbn in *. rewrite (IH [] (S i)) by constructor. cbn. by rewrite <- plus_n_Sm.
  - cbn [map_targets slots fst]. cbn in Hk, Hk'. rewrite Hcmp by done. cbn [mbind res_bind].
    destruct (cmp sk dk).
    + rewrite (IH d (S i)) by done. cbn. by rewrite <- plus_n_Sm.
    + rewrite (IH ((dk, dv) :: d) (S i)) by by constructor. cbn. by rewrite <- plus_n_Sm.
    + cbn [map_targets] in IHd. rewrite IHd. cbn. by rewrite <- plus_n_Sm.
Qed.

Lemma insert_middle {A} (pre : list A) x y post : <[length pre := y]> (pre ++ x :: post) = pre ++ y :: post.
Proof. induction pre; [done|]. cbn. by f_equal. Qed.

Lemma lookup_middle {A} (pre : list A) x post : (pre ++ x :: post) !! length pre = Some x.
Proof. by induction pre. Qed.

Lemma snoc_length {A} (pre : list A) x : S (length pre) = length (pre ++ [x]).
Proof. rewrite length_app. cbn. lia. Qed.

(** Placing the destination pairs fills exactly their places. *)
Lemma map_place_spec l pre :
  map_place (d_targets (length pre) l) (l ≫= slot_d) (pre ++ replicate (length l) (VNil, VNil))
  = pre ++ map slot_base l.
Proof.
  revert pre. induction l as [|x l IH]; intros pre; [done|].
  rewrite bind_cons. cbn [length replicate map]. rewrite (cons_middle (slot_base x)), (app_assoc pre).
  destruct x as [p|q|p q]; cbn [d_targets slot_d app map_place slot_base];
    rewrite ?insert_middle; [rewrite (snoc_length pre (VNil, VNil))|rewrite (snoc_length pre q) ..];
    rewrite <- IH; by rewrite <- app_assoc.
Qed.

Lemma slots_ok s d : Forall pair_ok s -> Forall pair_ok d ->
  Forall (fun x => Forall pair_ok (slot_s x) /\ Forall pair_ok (slot_d x)) (mslots s d).
Proof.
  intros Hs Hd. rewrite Forall_forall. intros x Hx. split; apply Forall_forall; intros p Hp.
  - apply (Forall_forall pair_ok s); [done|]. rewrite <- (slots_s cmp s d). set_solver.
  - apply (Forall_forall pair_ok d); [done|]. rewrite <- (slots_d cmp s d). set_solver.
Qed.

Lemma map_sum_spec l pre :
  Forall (fun x => Forall pair_ok (slot_s x) /\ Forall pair_ok (slot_d x)) l ->
  map_sum add_val copy_pair (s_targets (length pre) l) (l ≫= slot_s) (pre ++ map slot_base l)
  = Ok (pre ++ map (slot_sum add) l).
Proof.
  intros Hl. revert pre. induction Hl as [|x l [H1 H2] Hl IH]; intros pre; [done|].
  rewrite bind_cons. cbn [map].
  assert (forall y, pre ++ y :: map slot_base l = (pre ++ [y]) ++ map slot_base l) as Hmid
    by (intros; by rewrite <- app_assoc).
  assert (forall y, pre ++ y :: map (slot_sum add) l = (pre ++ [y]) ++ map (slot_sum add) l) as Hmid'
    by (intros; by rewrite <- app_assoc).
  destruct x as [[sk sv]|q|[sk sv] [dk dv]]; cbn [s_targets slot_s app map_sum slot_base slot_sum].
  - apply Forall_singleton in H1 as [Hk Hv]. cbn in Hk, Hv. rewrite lookup_middle, Hcopy by done.
    cbn [mbind res_bind]. rewrite insert_middle, (snoc_length pre (sk, sv)), Hmid, IH. by rewrite Hmid'.
  - rewrite (snoc_length pre q), Hmid, IH. by rewrite Hmid'.
  - apply Forall_singleton in H1 as [Hk Hv], H2 as [Hk' Hv']. cbn in *.
    rewrite lookup_middle, Hadd by done. cbn [mbind res_bind].
    rewrite insert_middle, (snoc_length pre (dk, add sv dv)), Hmid, IH. by rewrite Hmid'.
Qed.

(** Without new places every slot already holds its destination pair. *)
Lemma slots_no_new l : (length l <= length (l ≫= slot_d))%nat -> map slot_base l = l ≫= slot_d.
Proof.
  induction l as [|x l IH]; [done|]. rewrite bind_cons, length_app. intros H. cbn [map].
  assert (length (l ≫= slot_d) <= length l)%nat as Hle.
  { clear. induction l as [|x l IH]; [done|]. rewrite bind_cons, length_app. destruct x; cbn; lia. }
  destruct x as [p|q|p q]; cbn in *; [lia|by rewrite IH by lia|by rewrite IH by lia].
Qed.

Lemma map_add_spec s d :
  Forall pair_ok s -> Forall pair_ok d ->
  map_add cmp_key add_val copy_pair s d = Ok (merge_maps cmp add s d).
Proof.
  intros Hs Hd. unfold map_add. rewrite map_targets_spec by done. cbn [mbind res_bind Nat.add].
  pose proof (slots_ok s d Hs Hd) as Hok. rewrite <- (slots_merge cmp add s d).
  assert ((if (length d <? length (mslots s d))%nat
           then map_place (d_targets 0 (mslots s d)) d (replicate (length (mslots s d)) (VNil, VNil))
           else d) = map slot_base (mslots s d)) as ->.
  { destruct (Nat.ltb_spec (length d) (length (mslots s d))).
    - pose proof (map_place_spec (mslots s d) []) as P. rewrite slots_d in P. exact P.
    - rewrite slots_no_new; by rewrite ?slots_d. }
  pose proof (map_sum_spec (mslots s d) [] Hok) as S. rewrite slots_s in S. exact S.
Qed.
End Refine.

(** ** The merge of sorted maps is their pointwise sum *)

Section Pointwise.
Context (cmp : SzlValue -> SzlValue -> comparison) (add : SzlValue -> SzlValue -> SzlValue)
        (KP : SzlValue -> Prop) (L : cmp_laws KP (fun a b => Ok (cmp a b))).

Abbreviation merge := (merge_maps cmp add).

Definition keys_ok (l : list pair) : Prop := Forall (fun p => KP (fst p)) l.
(** Every key of [l] is above [k]. *)
Definition above (k : SzlValue) (l : list pair) : Prop := Forall (fun p => cmp k (fst p) = Lt) l.
Fixpoint sorted (l : list pair) : Prop :=
  match l with [] => True | p :: l => above (fst p) l /\ sorted l end.

(** The value of a key. *)
Fixpoint mget (k : SzlValue) (l : list pair) : option SzlValue :=
  match l with
  | [] => None
  | (k', v) :: l => match cmp k k' with Eq => Some v | _ => mget k l end
  end.

Lemma cmp_opp a b : KP a -> KP b -> cmp b a = CompOpp (cmp a b).
Proof.
  intros Ha Hb. pose proof (cl_antisym _ _ L a b (cmp a b) Ha Hb eq_refl) as E. by injection E.
Qed.

Lemma cmp_lt_trans a b c : KP a -> KP b -> KP c -> cmp a b = Lt -> cmp b c = Lt -> cmp a c = Lt.
Proof.
  intros Ha Hb Hc H1 H2. pose proof (cl_trans _ _ L a b c _ _ Ha Hb Hc eq_refl eq_refl) as E.
  rewrite H1, H2 in E. by injection (E ltac:(done) ltac:(done)).
Qed.

Lemma cmp_eq_l a b c : KP a -> KP b -> KP c -> cmp a b = Eq -> cmp a c = cmp b c.
Proof.
  intros Ha Hb Hc H1.
  assert (forall a b, KP a -> KP b -> cmp a b = Eq -> cmp b c <> Gt -> cmp a c = cmp b c) as H.
  { clear a b Ha Hb H1. intros a b Ha Hb H1 Hg.
    pose proof (cl_trans _ _ L a b c _ _ Ha Hb Hc eq_refl eq_refl) as E. rewrite H1 in E.
    by injection (E ltac:(done) Hg). }
  destruct (decide (cmp b c = Gt)) as [G|G]; [|by apply H].
  destruct (decide (cmp a c = Gt)) as [G'|G']; [congruence|]. symmetry. apply H; try done.
  by rewrite (cmp_opp a b), H1.
Qed.

Lemma above_trans a b l : KP a -> KP b -> keys_ok l -> cmp a b <> Gt -> above b l -> above a l.
Proof.
  intros Ha Hb Hk Hab Hl. induction Hl as [|p l Hp Hl IH]; [constructor|].
  inversion_clear Hk. constructor; [|by apply IH].
  destruct (cmp a b) eqn:E; try done.
  - by rewrite (cmp_eq_l a b).
  - by apply (cmp_lt_trans a b).
Qed.

Lemma mget_above k l : above k l -> mget k l = None.
Proof. induction 1 as [|[k' v] l Hp Hl IH]; [done|]. cbn in *. by rewrite Hp. Qed.

Lemma mget_eq a b l : KP a -> KP b -> keys_ok l -> cmp a b = Eq -> mget a l = mget b l.
Proof.
  intros Ha Hb Hk E. induction Hk as [|[k' v] l Hk' Hk IH]; [done|]. cbn in *.
  by rewrite (cmp_eq_l a b), IH.
Qed.

Lemma merge_keys s d : keys_ok s -> keys_ok d -> keys_ok (merge s d).
Proof.
  intros Hs. revert d. induction Hs as [|[sk sv] s Hk Hs IH]; intros d Hd; induction Hd as [|[dk dv] d Hk' Hd IHd];
    try by constructor.
  cbn [merge_maps]. destruct (cmp sk dk).
  - constructor; [done|by apply IH].
  - constructor; [done|]. apply IH. by constructor.
  - constructor; [done|exact IHd].
Qed.

Lemma merge_nil_r s : merge s [] = s.
Proof. by destruct s as [|[? ?] ?]. Qed.

Lemma merge_above x s d : above x s -> above x d -> above x (merge s d).
Proof.
  intros Hs. revert d. induction Hs as [|[sk sv] s Hk Hs IH]; intros d Hd; induction Hd as [|[dk dv] d Hk' Hd IHd];
    try by constructor.
  cbn [merge_maps]. destruct (cmp sk dk).
  - constructor; [done|by apply IH].
  - constructor; [done|]. apply IH. by constructor.
  - constructor; [done|exact IHd].
Qed.

Lemma merge_sorted s d :
  keys_ok s -> keys_ok d -> sorted s -> sorted d -> sorted (merge s d).
Proof.
  intros Hs. revert d. induction Hs as [|[sk sv] s Hk Hs IH]; intros d Hd;
    induction Hd as [|[dk dv] d Hk' Hd IHd]; try done.
  intros [Sa Ss] [Da Ds]. cbn [merge_maps]. cbn in Hk, Hk'. cbn [fst] in *.
  pose proof (cmp_opp sk dk Hk Hk') as Hopp. destruct (cmp sk dk) eqn:E; cbn [CompOpp] in Hopp.
  - split; [|by apply IH]. apply merge_above; [|done]. apply (above_trans _ sk); cbn [fst]; done || congruence.
  - split; [|apply IH; [by constructor|done|by split]]. apply merge_above; [done|].
    constructor; [done|]. apply (above_trans _ dk); cbn [fst]; done || congruence.
  - split; [|by apply IHd]. apply (merge_above dk ((sk, sv) :: s) d); [|done].
    constructor; [done|]. apply (above_trans _ sk); cbn [fst]; done || congruence.
Qed.

(** The sum of two optional values. *)
Definition opt_add (a b : option SzlValue) : option SzlValue :=
  match a, b with
  | Some a, Some b => Some (add a b)
  | None, b => b
  | a, None => a
  end.

Lemma opt_add_None_r a : opt_add a None = a.
Proof. by destruct a. Qed.

Lemma merge_mget k s d :
  KP k -> keys_ok s -> keys_ok d -> sorted s -> sorted d ->
  mget k (merge s d) = opt_add (mget k s) (mget k d).
Proof.
  intros HK Hs. revert d. induction Hs as [|[sk sv] s Hk Hs IH]; intros d Hd;
    induction Hd as [|[dk dv] d Hk' Hd IHd]; try done.
  - intros. by rewrite merge_nil_r, opt_add_None_r.
  - intros [Sa Ss] [Da Ds]. cbn [merge_maps]. cbn in Hk, Hk'. cbn [fst] in *.
    pose proof (cmp_opp sk dk Hk Hk') as Hopp. destruct (cmp sk dk) eqn:E; cbn [CompOpp] in Hopp.
    + cbn [mget]. rewrite IH by done. pose proof (cmp_opp k sk HK Hk) as O1.
      pose proof (cmp_opp k dk HK Hk') as O2.
      pose proof (cmp_eq_l sk dk k Hk Hk' HK E) as E2. rewrite O1, O2 in E2.
      by destruct (cmp k sk), (cmp k dk).
    + cbn [mget]. rewrite IH; [|by constructor|done|by split]. cbn [mget].
      destruct (cmp k sk) eqn:Ek; try done.
      rewrite (cmp_eq_l k sk dk), E by done.
      rewrite (mget_above k d), ?opt_add_None_r; [done|].
      apply (above_trans _ sk); cbn [fst]; try (done || congruence). apply (above_trans _ dk); cbn [fst]; done || congruence.
    + change (mget k ((dk, dv) :: merge ((sk, sv) :: s) d) = opt_add (mget k ((sk, sv) :: s)) (mget k ((dk, dv) :: d))).
      cbn [mget]. rewrite IHd by (done || by split). cbn [mget].
      destruct (cmp k dk) eqn:Ek; try done.
      rewrite (cmp_eq_l k dk sk), Hopp by done.
      rewrite (mget_above k s); [done|].
      apply (above_trans _ dk); cbn [fst]; try (done || congruence). apply (above_trans _ sk); cbn [fst]; done || congruence.
Qed.
End Pointwise.

(** ** Assignment *)

Definition assign_pair_cell : Kind * option SzlOps -> SzlValue * SzlValue -> res SzlValue :=
  fun '(k, sub) '(sv, dv) =>
    match sub with
    | Some sub => Assign sub sv dv
    | None => assign_base k sv
    end.

Lemma assign_base_id k v : base_ok k v -> assign_base k v = Ok v.
Proof.
  destruct k; try done; cbn; try (by intros (? & -> & _)).
  intros [->|(? & -> & _)]; done.
Qed.

Lemma loop_all_impl (P Q : Kind * option SzlOps -> SzlValue -> Prop) cells cur vals :
  Forall (fun c => forall v, P c v -> Q c v) cells ->
  Forall (fun c => forall v, P c v -> Q c v) cur ->
  loop_all (map P cells) (map P cur) vals -> loop_all (map Q cells) (map Q cur) vals.
Proof.
  intros Hc. revert cur. induction vals as [|v vals IH]; intros cur Hu Hv; [done|].
  cbn [loop_all] in *. rewrite next_cell_map in Hv. rewrite next_cell_map.
  destruct (next_cell cells cur) as [[c cur']|] eqn:En; [|done].
  destruct (next_cell_In _ _ _ _ _ Hc Hu En) as [H1 H2]. destruct Hv as [Hv Hvs]. split; auto.
Qed.

(** A value of a type is a destination for another one. *)
Lemma val_dest_ok o v : val_ok o v -> dest_ok o v.
Proof.
  revert v. induction o as [t cells IH] using SzlOps_nested_ind. intros v Hv.
  assert (forall vals, loop_all (map val_cell_ok cells) (map val_cell_ok cells) vals ->
                       loop_all (map dest_cell_ok cells) (map dest_cell_ok cells) vals) as Hl.
  { assert (Forall (fun c => forall v, val_cell_ok c v -> dest_cell_ok c v) cells) as H.
    { eapply Forall_impl; [exact IH|]. intros [k [o|]]; cbn; auto. }
    intros vals. by apply loop_all_impl. }
  cbn [val_ok dest_ok] in *. destruct (kind_ t); try done.
  - destruct Hv as (vals & -> & Hlen & Hv). split; [exact Hlen|]. exact (Hl _ Hv).
  - destruct Hv as (vals & -> & _ & Hv). exact (Hl _ Hv).
  - destruct Hv as (vals & -> & _ & _ & Hv). exact (Hl _ Hv).
Qed.

(** Assigning to each value of a destination. *)
Lemma loop_map_copy (f : Kind * option SzlOps -> SzlValue * SzlValue -> res SzlValue) cells cur vals dvals :
  length vals = length dvals ->
  loop_all (map (fun c d => forall v, val_cell_ok c v -> f c (v, d) = Ok v) cells)
    (map (fun c d => forall v, val_cell_ok c v -> f c (v, d) = Ok v) cur) dvals ->
  loop_all (map val_cell_ok cells) (map val_cell_ok cur) vals ->
  loop_map (map f cells) (map f cur) (zip vals dvals) = Ok vals.
Proof.
  revert cur dvals. induction vals as [|v vals IH]; intros cur [|d dvals] Hlen Hd Hv; try done.
  cbn [zip_with loop_map loop_all] in *. rewrite next_cell_map in Hv. rewrite next_cell_map in Hd.
  rewrite next_cell_map.
  destruct (next_cell cells cur) as [[c cur']|] eqn:En; [|done].
  destruct Hv as [Hv Hvs], Hd as [Hd Hds]. rewrite Hd by done. cbn [mbind res_bind].
  rewrite IH; [done|by injection Hlen|done|done].
Qed.

(** Assigning a typed value to fresh storage, or over another typed value,
    copies it and never aborts. *)
Lemma Assign_copies o v d :
  ops_ok o -> val_ok o v -> d = VNil \/ val_ok o d -> Assign o v d = Ok v.
Proof.
  revert v d. induction o as [t cells IH] using SzlOps_nested_ind. intros v d Hok Hv Hd.
  set (copies c d := forall v, val_cell_ok c v -> assign_pair_cell c (v, d) = Ok v).
  assert (Forall (fun c => copies c VNil /\ forall d, val_cell_ok c d -> copies c d) cells) as Hcells.
  { pose proof (ops_ok_cells t cells Hok) as Hcs. apply Forall_forall. intros c Hin.
    pose proof (proj1 (Forall_forall _ _) IH c Hin) as Hi.
    pose proof (proj1 (Forall_forall _ _) Hcs c Hin) as Hc. unfold copies.
    destruct (cell_ok_inv _ _ Hc) as [(k & Hk & ->)|(o & Ho & -> & Hk)];
      split; intros; try (by apply assign_base_id); apply Hi; auto. }
  assert (forall vals, loop_all (map val_cell_ok cells) (map val_cell_ok cells) vals ->
    (kind_ t = TUPLE -> vals = [] \/ length vals = length cells) -> kind_ t ∈ containers ->
    Assign (MkOps t cells) (VVals vals) d = Ok (VVals vals)) as Hcont.
  { intros vals Hl Ht Hk.
    assert (Assign (MkOps t cells) (VVals vals) d
      = (d ← clear_unless_len (MkOps t cells) (VVals vals) d;
         match vals with
         | [] => Ok d
         | svals =>
             _ ← check (negb (bool_decide (kind_ t = TUPLE)) || (length svals =? length cells)%nat);
             dvals ← alloc_eq (length svals) (vvals d);
             vals ← loop_map (map assign_pair_cell cells) (map assign_pair_cell cells) (zip svals dvals);
             Ok (VVals vals)
         end)) as ->.
    { cbn [Assign]. destruct (kind_ t); try (by apply not_container in Hk); by destruct vals. }
    assert (exists dl, d = VVals dl /\ (dl = [] \/ loop_all (map val_cell_ok cells) (map val_cell_ok cells) dl)
      /\ (kind_ t = TUPLE -> dl = [] \/ length dl = length cells)) as (dl & -> & Hdl & Hdt).
    { destruct Hd as [->|Hd]; [exists []; split; [done|]; split; auto|]. cbn [val_ok] in Hd.
      destruct (kind_ t) eqn:E; try (by apply not_container in Hk).
      - destruct Hd as (dl & -> & Hlen & Hd). exists dl. split; [done|]. split; [by right|done].
      - destruct Hd as (dl & -> & _ & Hd). exists dl. split; [done|]. split; [by right|done].
      - destruct Hd as (dl & -> & _ & _ & Hd). exists dl. split; [done|]. split; [by right|done]. }
    assert (clear_unless_len (MkOps t cells) (VVals vals) (VVals dl)
      = Ok (VVals (if (length vals =? length dl)%nat then dl else []))) as ->.
    { unfold clear_unless_len. cbn [vvals]. destruct (Nat.eqb_spec (length vals) (length dl)); [done|].
      destruct (Clear_ok (MkOps t cells) (VVals dl) Hok) as (w & -> & Hw).
      { destruct Hd as [Hd|Hd]; [rewrite Hd; by apply dest_ok_VNil|by apply val_dest_ok]. }
      rewrite Hw by done. unfold ops_kind. cbn [type_].
      destruct (bool_decide_reflect (kind_ t = TUPLE)) as [E|E]; [|done]. cbn [negb orb].
      destruct (Ht E) as [->|Ev]; [done|]. destruct (Hdt E) as [->|Ed]; [by rewrite orb_true_r|congruence]. }
    cbn [mbind res_bind]. destruct vals as [|v0 vals]; [by destruct dl|]. set (vs := v0 :: vals) in *.
    assert (negb (bool_decide (kind_ t = TUPLE)) || (length vs =? length cells)%nat = true) as ->.
    { destruct (bool_decide_reflect (kind_ t = TUPLE)) as [E|E]; [|done].
      destruct (Ht E) as [|El]; [done|]. cbn [negb orb]. by apply Nat.eqb_eq. }
    cbn [check mbind res_bind vvals]. unfold alloc_eq.
    assert (cells <> []) as Hne by (intros E; rewrite E in Hl; exact Hl).
    destruct (Nat.eqb_spec (length vs) (length dl)) as [El|El].
    - destruct dl as [|d0 dl]; [done|]. rewrite (proj2 (Nat.eqb_eq _ _)) by done. cbn [check mbind res_bind].
      destruct Hdl as [|Hdl]; [done|]. rewrite (loop_map_copy _ _ _ vs (d0 :: dl)); [done|done| |done].
      apply (loop_all_impl val_cell_ok copies); [| |done]; (eapply Forall_impl; [exact Hcells|by intros c []]).
    - cbn [mbind res_bind]. rewrite loop_map_copy; [done|by rewrite length_replicate| |done].
      apply (loop_all_replicate copies); [| |done]; (eapply Forall_impl; [exact Hcells|by intros c []]). }
  pose proof (ops_ok_kind _ Hok) as [Hk|Hk]; unfold ops_kind in Hk; cbn in Hk; cbn [val_ok] in Hv.
  - cbn [Assign]. destruct (kind_ t); try (by apply not_basic in Hk);
      try (by destruct Hv as (? & -> & _)). by destruct Hv as [->|(? & -> & _)].
  - destruct (kind_ t) eqn:E; try (by apply not_container in Hk).
    + destruct Hv as (vals & -> & Hl & Hv). apply Hcont; [exact Hv|by intros|done].
    + destruct Hv as (vals & -> & Hl & Hv). apply Hcont; [exact Hv|done|done].
    + destruct Hv as (vals & -> & Hl & _ & Hv). apply Hcont; [exact Hv|done|done].
Qed.

Lemma Assign_fresh o v : ops_ok o -> val_ok o v -> Assign o v VNil = Ok v.
Proof. intros. apply Assign_copies; auto. Qed.

(** ** Memory estimates *)

Definition memory_cell : Kind * option SzlOps -> SzlValue -> Z -> res Z := fun '(k, sub) v mem =>
  if bool_decide (k = STRING) || bool_decide (k = BYTES)
  then Ok (mem + Z.of_nat (length (vbuf v)))
  else
    match sub with
    | Some sub => m ← Memory sub v; Ok (mem + (m - sizeof_SzlValue))
    | None => if negb (IsSimpleBaseKind k) then Fatal else Ok mem
    end.

Lemma loop_fold_total {S} (f : Kind * option SzlOps -> SzlValue -> S -> res S) cells cur vals s :
  Forall (fun c => forall v s, val_cell_ok c v -> exists s', f c v s = Ok s') cells ->
  Forall (fun c => forall v s, val_cell_ok c v -> exists s', f c v s = Ok s') cur ->
  loop_all (map val_cell_ok cells) (map val_cell_ok cur) vals ->
  exists s', loop_fold (map f cells) (map f cur) vals s = Ok s'.
Proof.
  intros Hc. revert cur s. induction vals as [|v vals IH]; intros cur s Hu Hv; [by eexists|].
  cbn [loop_fold loop_all] in *. rewrite next_cell_map in Hv. rewrite next_cell_map.
  destruct (next_cell cells cur) as [[c cur']|] eqn:En; [|done]. destruct Hv as [Hv Hvs].
  destruct (next_cell_In _ _ _ _ _ Hc Hu En) as [H1 H2].
  destruct (H1 v s Hv) as [s1 ->]. cbn [mbind res_bind]. by apply IH.
Qed.

Lemma Memory_ok o v : ops_ok o -> val_ok o v -> exists m, Memory o v = Ok m.
Proof.
  revert v. induction o as [t cells IH] using SzlOps_nested_ind. intros v Hok Hv.
  assert (Forall (fun c => forall v s, val_cell_ok c v -> exists s', memory_cell c v s = Ok s') cells) as Hc.
  { pose proof (ops_ok_cells t cells Hok) as Hcs. apply Forall_forall. intros c Hin w s Hw.
    pose proof (proj1 (Forall_forall _ _) IH c Hin) as Hi.
    pose proof (proj1 (Forall_forall _ _) Hcs c Hin) as Hc.
    destruct (cell_ok_inv _ _ Hc) as [(k & Hk & ->)|(o & Ho & -> & Hk)]; cbn [memory_cell].
    - destruct k; try (by apply not_basic in Hk); by eexists.
    - destruct (Hi w Ho Hw) as [m ->]. case_match; by eexists. }
  pose proof (ops_ok_kind _ Hok) as [Hk|Hk]; unfold ops_kind in Hk; cbn in Hk.
  - cbn [Memory]. destruct (kind_ t); try (by apply not_basic in Hk); by eexists.
  - assert (loop_all (map val_cell_ok cells) (map val_cell_ok cells) (vvals v)) as Hl.
    { cbn [val_ok] in Hv. destruct (kind_ t); try (by apply not_container in Hk).
      - by destruct Hv as (vals & -> & _ & Hv).
      - by destruct Hv as (vals & -> & _ & Hv).
      - by destruct Hv as (vals & -> & _ & _ & Hv). }
    destruct (loop_fold_total memory_cell cells cells (vvals v)
      (sizeof_SzlValue + Z.of_nat (length (vvals v)) * sizeof_SzlValue) Hc Hc Hl) as [m Hm].
    exists m. cbn [Memory]. destruct (kind_ t); try (by apply not_container in Hk); exact Hm.
Qed.

(** ** Adding two maps *)

(** The comparison of keys and the sum of values, read off a map's cells. *)
Definition key_cmp (c : Kind * option SzlOps) (a b : SzlValue) : comparison :=
  match cmp_cell c (Some a, Some b) with Ok r => r | _ => Eq end.
Definition val_add (c : Kind * option SzlOps) (s d : SzlValue) : res SzlValue :=
  match c with (_, Some sub) => Add sub s d | (k, None) => add_base k s d end.
Definition val_sum (c : Kind * option SzlOps) (s d : SzlValue) : SzlValue :=
  match val_add c s d with Ok v => v | _ => d end.

(** Types whose values [Add] can add: the numbers, and tuples and maps of them. *)
Inductive addable : SzlOps -> Prop :=
| add_num t : kind_ t ∈ [INT; TIME; FLOAT] -> addable (MkOps t [(kind_ t, None)])
| add_tuple t cells : kind_ t = TUPLE -> Forall cell_addable cells -> addable (MkOps t cells)
| add_map t c0 c1 :
    kind_ t = MAP -> length (indices_ t) = 1%nat -> cell_addable c1 -> addable (MkOps t [c0; c1])
with cell_addable : Kind * option SzlOps -> Prop :=
| cadd_base k : k ∈ [INT; TIME; FLOAT] -> cell_addable (k, None)
| cadd_sub o : addable o -> cell_addable (ops_kind o, Some o).

Lemma to_of_pairs ps : to_pairs (of_pairs ps) = ps.
Proof. induction ps as [|[k v] ps IH]; [done|]. cbn. f_equal. exact IH. Qed.

Lemma of_to_pairs vals : Nat.even (length vals) = true -> of_pairs (to_pairs vals) = vals.
Proof.
  assert (forall n vals, (length vals <= n)%nat -> Nat.even (length vals) = true ->
            of_pairs (to_pairs vals) = vals) as H; [|by eauto].
  clear vals. induction n as [|n IH]; intros [|k [|v vals]] Hl He; try done; cbn in Hl; [lia|].
  cbn. do 2 f_equal. apply IH; [lia|done].
Qed.

(** The pairs of a typed map. *)
Lemma map_pairs_ok (P : Kind * option SzlOps -> SzlValue -> Prop) c0 c1 vals :
  Nat.even (length vals) = true ->
  loop_all (map P [c0; c1]) (map P [c0; c1]) vals ->
  Forall (pair_ok (P c0) (P c1)) (to_pairs vals).
Proof.
  assert (forall n vals cur, (length vals <= n)%nat -> (cur = [c0; c1] \/ cur = []) ->
    Nat.even (length vals) = true -> loop_all (map P [c0; c1]) (map P cur) vals ->
    Forall (pair_ok (P c0) (P c1)) (to_pairs vals)) as H; [|by eauto].
  clear vals. induction n as [|n IH]; intros [|k [|v vals]] cur Hl Hc He Hv; cbn in Hl;
    try (by constructor); try done; [lia|].
  assert (P c0 k /\ P c1 v /\ loop_all (map P [c0; c1]) (map P []) vals) as (H1 & H2 & H3)
    by (by destruct Hc as [-> | ->]; destruct Hv as (? & ? & ?)).
  cbn [to_pairs]. constructor; [done|]. apply (IH vals []); [lia|by right|done|done].
Qed.

Definition add_pair_cell (c : Kind * option SzlOps) : SzlValue * SzlValue -> res SzlValue :=
  fun '(sv, dv) => val_add c sv dv.

Lemma key_cmp_laws c :
  cmp_laws (cell_cmp_ok c) (fun a b => cmp_cell c (a, b)) ->
  cmp_laws (some_ok c) (fun a b => Ok (key_cmp c a b))
  /\ (forall a b, some_ok c a -> some_ok c b -> cmp_cell c (Some a, Some b) = Ok (key_cmp c a b)).
Proof.
  intros L. assert (forall a b, some_ok c a -> some_ok c b -> cmp_cell c (Some a, Some b) = Ok (key_cmp c a b)) as E.
  { intros a b Ha Hb. unfold key_cmp. by destruct (cl_total _ _ L (Some a) (Some b) Ha Hb) as [r ->]. }
  split; [|done]. eapply cmp_laws_ext; [apply E|]. exact (cmp_laws_map Some _ _ _ (fun _ H => H) L).
Qed.

Lemma cell_laws b c : cell_ok b c -> cmp_laws (cell_cmp_ok c) (fun a b => cmp_cell c (a, b)).
Proof.
  intros H. destruct (cell_ok_inv _ _ H) as [(k & Hk & ->)|(o & Ho & -> & _)]; cbn;
    [by apply CmpBase_laws|by apply Cmp_laws].
Qed.

Lemma copy_pair_fresh b c0 c1 p :
  cell_ok b c0 -> cell_ok b c1 -> some_ok c0 (fst p) -> some_ok c1 (snd p) ->
  (k ← assign_cell c0 (fst p) VNil; v ← assign_cell c1 (snd p) VNil; Ok (k, v)) = Ok p.
Proof.
  assert (forall c v, cell_ok b c -> some_ok c v -> assign_cell c v VNil = Ok v) as H.
  { intros c v Hc Hv. destruct (cell_ok_inv _ _ Hc) as [(k & Hk & ->)|(o & Ho & -> & _)]; cbn in Hv |- *.
    - by apply assign_base_id, Hv.
    - apply Assign_fresh; [done|apply Hv]. }
  intros H0 H1 Hk Hv. rewrite !H by done. cbn. by destruct p.
Qed.

(** The sum of two nonempty typed maps is the merge of their pairs. *)
Lemma Add_map_merge t c0 c1 svals dvals :
  ops_ok (MkOps t [c0; c1]) -> kind_ t = MAP ->
  (forall a b, some_ok c1 a -> some_ok c1 b -> exists w, val_add c1 a b = Ok w) ->
  svals <> [] -> dvals <> [] ->
  Forall (pair_ok (some_ok c0) (some_ok c1)) (to_pairs svals) ->
  Forall (pair_ok (some_ok c0) (some_ok c1)) (to_pairs dvals) ->
  Add (MkOps t [c0; c1]) (VVals svals) (VVals dvals)
  = Ok (VVals (of_pairs (merge_maps (key_cmp c0) (val_sum c1) (to_pairs svals) (to_pairs dvals)))).
Proof.
  intros Hok Hk Hval Hs0 Hd0 Hs Hd.
  assert (length (indices_ t) = 1%nat /\ cell_ok true c0 /\ cell_ok true c1) as (Hi & H0 & H1)
    by (inversion Hok; subst; congruence || done).
  destruct (key_cmp_laws c0 (cell_laws _ _ H0)) as [L E].
  assert (Add (MkOps t [c0; c1]) (VVals svals) (VVals dvals)
    = (ps ← map_add (fun k0 k1 => cmp_cell c0 (Some k0, Some k1)) (val_add c1)
         (fun '(sk, sv) '(dk, dv) =>
            k ← assign_cell c0 sk dk; v ← assign_cell c1 sv dv; Ok (k, v))
         (to_pairs svals) (to_pairs dvals); Ok (VVals (of_pairs ps)))) as ->.
  { cbn [Add]. rewrite Hk. cbn [vvals]. rewrite Hi.
    destruct svals as [|s0 svals], dvals as [|d0 dvals]; try done. cbn [check Nat.eqb mbind res_bind map].
    by destruct c0 as [k0 [o0|]], c1 as [k1 [o1|]]. }
  rewrite (map_add_spec (key_cmp c0) (val_sum c1) _ _ _ (some_ok c0) (some_ok c1)); [done| | | |done|done].
  - apply E.
  - intros a b Ha Hb. unfold val_sum. by destruct (Hval a b Ha Hb) as [w ->].
  - intros [k v] Hk' Hv'. cbn in *. by apply (copy_pair_fresh true c0 c1 (k, v)).
Qed.

Lemma cell_addable_inv c :
  cell_addable c -> (exists k, k ∈ [INT; TIME; FLOAT] /\ c = (k, None))
                    \/ (exists o, addable o /\ c = (ops_kind o, Some o)).
Proof. destruct 1; eauto. Qed.

Lemma not_num k : bool_decide (k ∈ [INT; TIME; FLOAT]) = false -> k ∈ [INT; TIME; FLOAT] -> False.
Proof. by intros ?%bool_decide_eq_false. Qed.

Lemma num_simple k : k ∈ [INT; TIME; FLOAT] -> k <> FLOAT -> IsSimpleBaseKind k = true.
Proof. intros H Hf. destruct k; try done; by apply not_num in H. Qed.

Lemma add_base_total k a b : k ∈ [INT; TIME; FLOAT] -> exists w, add_base k a b = Ok w.
Proof.
  intros H. unfold add_base. destruct (bool_decide_reflect (k = FLOAT)); [by eexists|].
  rewrite num_simple by done. by eexists.
Qed.

Lemma loop_map_pairs_ok cells all xs ys :
  Forall (fun c => forall a b, some_ok c a -> some_ok c b -> exists w, val_add c a b = Ok w) cells ->
  length xs = length cells -> length ys = length cells ->
  Forall2 some_ok cells xs -> Forall2 some_ok cells ys ->
  exists ws, loop_map all (map add_pair_cell cells) (zip xs ys) = Ok ws.
Proof.
  intros Hc. revert xs ys. induction Hc as [|c cells Hc Hcs IH]; intros [|x xs] [|y ys] Lx Ly Hx Hy; try done;
    [by eexists|]. inversion_clear Hx as [|? ? ? ? Hx1 Hx2]. inversion_clear Hy as [|? ? ? ? Hy1 Hy2].
  cbn [zip_with map loop_map next_cell add_pair_cell]. destruct (Hc x y Hx1 Hy1) as [w ->].
  destruct (IH xs ys) as [ws Hws]; [by injection Lx|by injection Ly|done|done|].
  cbn [mbind res_bind]. rewrite Hws. by eexists.
Qed.

Lemma loop_all_Forall2 (P : Kind * option SzlOps -> SzlValue -> Prop) cells vals :
  length vals = length cells -> loop_all (map P cells) (map P cells) vals -> Forall2 P cells vals.
Proof.
  generalize (map P cells) at 1 as all. revert vals.
  induction cells as [|c cells IH]; intros [|v vals] all Hl H; try done.
  cbn in H. destruct H as [H1 H2]. injection Hl as Hl. constructor; [done|by apply (IH _ all)].
Qed.

(** Adding typed values of an addable type never aborts. *)
Lemma Add_total o a b :
  ops_ok o -> addable o -> cmp_ok o (Some a) -> cmp_ok o (Some b) -> exists w, Add o a b = Ok w.
Proof.
  revert a b. induction o as [t cells IH] using SzlOps_nested_ind. intros a b Hok Hadd Ha Hb.
  pose proof (ops_ok_cells t cells Hok) as Hcs.
  assert (forall c, c ∈ cells -> cell_addable c ->
    forall a b, some_ok c a -> some_ok c b -> exists w, val_add c a b = Ok w) as Hcells.
  { intros c Hin Hca x y Hx Hy.
    pose proof (proj1 (Forall_forall _ _) IH c Hin) as Hi.
    pose proof (proj1 (Forall_forall _ _) Hcs c Hin) as Hc.
    destruct (cell_addable_inv _ Hca) as [(k & Hk & ->)|(o & Ho & ->)]; [by apply add_base_total|].
    apply Hi; [|done|done|done].
    destruct (cell_ok_inv _ _ Hc) as [(k & Hk & E)|(o' & Ho' & E & _)]; [done|by injection E as _ ->]. }
  inversion Hadd as [? Hk|? ? Hk Hca|? c0 c1 Hk Hi Hc1]; subst.
  - cbn [Add]. destruct (kind_ t); try (by eexists); by apply not_num in Hk.
  - assert (kind_ t ∈ containers) as Hkc by (rewrite Hk; by apply (bool_decide_unpack _)).
    destruct (cmp_ok_ovals t cells (Some a) Hok Hkc Ha) as [La Ta].
    destruct (cmp_ok_ovals t cells (Some b) Hok Hkc Hb) as [Lb Tb]. cbn [ovals] in *.
    destruct Ha as [Va _]. cbn [val_ok] in Va. rewrite Hk in Va. destruct Va as (va & -> & Hla & Va').
    assert (Add (MkOps t cells) (VVals va) b = match va, vvals b with
      | [], _ => Ok b
      | _, [] => Assign (MkOps t cells) (VVals va) b
      | svals, dvals =>
          vals ← loop_map (map add_pair_cell cells) (map add_pair_cell cells) (zip svals dvals);
          Ok (VVals vals) end) as ->.
    { cbn [Add]. rewrite Hk, map_map.
      rewrite (map_ext _ add_pair_cell) by by intros [k [o|]]. by destruct va, (vvals b). }
    destruct va as [|a0 va]; [by eexists|]. destruct (vvals b) as [|b0 vb] eqn:Evb.
    + destruct Hb as [Vb _]. cbn [val_ok] in Vb. rewrite Hk in Vb. destruct Vb as (vb & -> & _ & _).
      cbn in Evb. subst vb. exists (VVals (a0 :: va)). apply Assign_fresh; [done|].
      cbn [val_ok]. rewrite Hk. by exists (a0 :: va).
    + destruct (Ta Hk) as [|Ea]; [done|]. destruct (Tb Hk) as [|Eb]; [done|].
      destruct (loop_map_pairs_ok cells (map add_pair_cell cells) (a0 :: va) (b0 :: vb)) as [ws ->].
      * apply Forall_forall. intros c Hin. apply Hcells; [done|]. exact (proj1 (Forall_forall _ _) Hca c Hin).
      * done.
      * done.
      * by apply loop_all_Forall2.
      * by apply loop_all_Forall2.
      * by eexists.
  - assert (kind_ t ∈ containers) as Hkc by (rewrite Hk; by apply (bool_decide_unpack _)).
    destruct (cmp_ok_ovals t [c0; c1] (Some a) Hok Hkc Ha) as [La _].
    destruct (cmp_ok_ovals t [c0; c1] (Some b) Hok Hkc Hb) as [Lb _]. cbn [ovals] in *.
    destruct Ha as [Va _], Hb as [Vb _]. cbn [val_ok] in Va, Vb. rewrite Hk in Va, Vb.
    pose proof Va as Va'. destruct Va as (va & -> & Na & Ea & Va), Vb as (vb & -> & Nb & Eb & Vb).
    cbn [vvals] in *. destruct va as [|a0 va]; [eexists; cbn [Add]; by rewrite Hk|].
    destruct vb as [|b0 vb].
    + exists (VVals (a0 :: va)). transitivity (Assign (MkOps t [c0; c1]) (VVals (a0 :: va)) VNil).
      * cbn [Add]. by rewrite Hk.
      * apply Assign_fresh; [done|]. cbn [val_ok]. by rewrite Hk.
    + eexists. apply Add_map_merge; [done|done| |done|done| |].
      * apply Hcells; [by repeat constructor|done].
      * by apply map_pairs_ok.
      * by apply map_pairs_ok.
Qed.

(** Adding two typed values of an addable type (numbers, and tuples and maps
    of them, to any depth) never aborts. *)
Theorem Add_never_aborts o a b :
  ops_ok o -> addable o -> val_ok o a -> val_ok o b -> nan_free o a -> nan_free o b ->
  exists w, Add o a b = Ok w.
Proof. intros Hok Ha Va Vb Na Nb. by apply Add_total. Qed.

Lemma sample_addable : addable sample_ops.
Proof.
  apply add_tuple; [done|]. apply Forall_cons. split; [by apply cadd_base; repeat constructor|].
  apply Forall_singleton. refine (cadd_sub (MkOps sample_map _) _).
  apply add_map; [done|done|]. by apply cadd_base; repeat constructor.
Qed.

Lemma Add_never_aborts_witness : exists w, Add sample_ops sample_val sample_val = Ok w.
Proof.
  apply Add_never_aborts; [apply sample_ops_ok|apply sample_addable|apply sample_val_ok|apply sample_val_ok
    |by repeat split|by repeat split].
Defined.

Lemma val_add_total b c x y :
  cell_ok b c -> cell_addable c -> some_ok c x -> some_ok c y -> exists w, val_add c x y = Ok w.
Proof.
  intros Hc Ha Hx Hy. destruct (cell_addable_inv _ Ha) as [(k & Hk & ->)|(o & Ho & ->)].
  - by apply add_base_total.
  - apply Add_total; [|done|done|done].
    destruct (cell_ok_inv _ _ Hc) as [(k & Hk & E)|(o' & Ho' & E & _)]; [done|by injection E as _ ->].
Qed.

Lemma addable_map t c0 c1 : addable (MkOps t [c0; c1]) -> kind_ t = MAP -> cell_addable c1.
Proof. intros H Hk. inversion H; subst; congruence || done. Qed.

Lemma ops_ok_map_val t c0 c1 : ops_ok (MkOps t [c0; c1]) -> kind_ t = MAP -> cell_ok true c1.
Proof. intros H Hk. inversion H; subst; congruence || done. Qed.

Lemma ops_ok_map t c0 c1 : ops_ok (MkOps t [c0; c1]) -> kind_ t = MAP -> cell_ok true c0.
Proof. intros H Hk. inversion H; subst; congruence || done. Qed.

(** C26. The in-place two-pass sum of two maps sorted by key is their pointwise
    sum: the result is sorted, and the value of every key is the sum of the two
    values, or the one there is. *)
Theorem Add_map_pointwise t c0 c1 svals dvals :
  let o := MkOps t [c0; c1] in
  let s := to_pairs svals in
  let d := to_pairs dvals in
  ops_ok o -> kind_ t = MAP -> addable o ->
  val_ok o (VVals svals) -> val_ok o (VVals dvals) ->
  nan_free o (VVals svals) -> nan_free o (VVals dvals) ->
  sorted (key_cmp c0) s -> sorted (key_cmp c0) d ->
  exists m, Add o (VVals svals) (VVals dvals) = Ok (VVals (of_pairs m))
  /\ sorted (key_cmp c0) m
  /\ forall k, some_ok c0 k ->
       mget (key_cmp c0) k m
       = opt_add (val_sum c1) (mget (key_cmp c0) k s) (mget (key_cmp c0) k d).
Proof.
  intros o s d Hok Hk Hadd Vs Vd Ns Nd Ss Sd.
  destruct (key_cmp_laws c0 (cell_laws _ _ (ops_ok_map _ _ _ Hok Hk))) as [L E].
  assert (kind_ t ∈ containers) as Hkc by (rewrite Hk; by apply (bool_decide_unpack _)).
  destruct (cmp_ok_ovals t [c0; c1] (Some (VVals svals)) Hok Hkc (conj Vs Ns)) as [Ls _].
  destruct (cmp_ok_ovals t [c0; c1] (Some (VVals dvals)) Hok Hkc (conj Vd Nd)) as [Ld _].
  cbn [ovals vvals] in Ls, Ld.
  assert (Nat.even (length svals) = true /\ Nat.even (length dvals) = true) as [Es Ed].
  { cbn [val_ok o] in Vs, Vd. rewrite Hk in Vs, Vd.
    destruct Vs as (? & [= <-] & _ & ? & _), Vd as (? & [= <-] & _ & ? & _). done. }
  pose proof (map_pairs_ok some_ok c0 c1 svals Es Ls) as Ps.
  pose proof (map_pairs_ok some_ok c0 c1 dvals Ed Ld) as Pd.
  assert (forall l, Forall (pair_ok (some_ok c0) (some_ok c1)) l -> keys_ok (some_ok c0) l) as Hkeys.
  { intros l H. eapply Forall_impl; [exact H|]. by intros p [? ?]. }
  exists (merge_maps (key_cmp c0) (val_sum c1) s d). split; [|split].
  - destruct svals as [|s0 svals].
    { cbn [Add o]. rewrite Hk. cbn [vvals]. unfold s. cbn [to_pairs]. rewrite merge_nil. unfold d.
      by rewrite of_to_pairs. }
    destruct dvals as [|d0 dvals].
    { unfold d. cbn [to_pairs]. rewrite merge_nil_r. unfold s. rewrite of_to_pairs by done.
      transitivity (Assign o (VVals (s0 :: svals)) VNil); [|by apply Assign_fresh].
      cbn [Add o]. by rewrite Hk. }
    apply Add_map_merge; try done. intros a b Ha Hb.
    apply (val_add_total true c1); [|by apply (addable_map t c0)|done|done].
    by apply (ops_ok_map_val t c0).
  - apply (merge_sorted _ _ _ L); auto.
  - intros k HK. apply (merge_mget _ _ _ L); auto.
Qed.

(** [{-: 1, a: 5} + {a: 7, b: 1}] over [map[bytes] of int]. *)
Definition sum_map_type : SzlType :=
  set_element (AddIndex (kind_type MAP) "k" (kind_type BYTES)) "v" (kind_type INT).

Lemma Add_map_pointwise_witness :
  let o := MkOps sum_map_type [(BYTES, None); (INT, None)] in
  let s := [VStr [45]; VInt 1; VStr [97]; VInt 5] in
  let d := [VStr [97]; VInt 7; VStr [98]; VInt 1] in
  exists m, Add o (VVals s) (VVals d) = Ok (VVals (of_pairs m))
  /\ sorted (key_cmp (BYTES, None)) m
  /\ forall k, some_ok (BYTES, None) k ->
       mget (key_cmp (BYTES, None)) k m
       = opt_add (val_sum (INT, None)) (mget (key_cmp (BYTES, None)) k (to_pairs s))
                 (mget (key_cmp (BYTES, None)) k (to_pairs d)).
Proof.
  assert (forall c x d n, is_u8 c -> is_u8 d -> is_s64 x -> is_s64 n ->
    val_ok (MkOps sum_map_type [(BYTES, None); (INT, None)]) (VVals [VStr [c]; VInt x; VStr [d]; VInt n])) as Hv.
  { intros. eexists. split; [reflexivity|]. split; [done|]. split; [done|].
    split; [eexists; split; [reflexivity|]; by apply Forall_singleton|]. split; [by eexists|].
    split; [eexists; split; [reflexivity|]; by apply Forall_singleton|]. split; [by eexists|done]. }
  apply Add_map_pointwise; [|done| |by apply Hv|by apply Hv|by repeat split|by repeat split
    |by repeat constructor|by repeat constructor].
  - by apply ok_map; [| |apply cell_base, basic_kind_in|apply cell_base, basic_kind_in].
  - apply add_map; [done|done|]. by apply cadd_base; repeat constructor.
Defined.
