(* ===== verification/Numbers.v ===== *)
(** * Numbers: values that can be summed in any order

    What the sum and top tables need of the operations of a weight or element
    type ([Summable]), and that numbers and tuples of numbers over [int64]
    provide it. Floats do not: their sum depends on the order. *)
From Stdlib Require Import ZArith Lia.
From stdpp Require Import prelude strings.
From S2P Require Import Prelude SzlType Double Encoder Decoder Codec Reads SzlValue ValueCodec ValueOrder ValueAdd.

Local Open Scope Z_scope.

(** ** What the table needs of its element type *)

(** [den] is the number a value stands for, [code] the encoding of a number; the
    numbers form a commutative monoid, and the operations follow it. *)
Class Summable (ops : SzlOps) {M : Type} (zero : M) (plus : M -> M -> M) (code : M -> bytes)
    (good : SzlValue -> Prop) (den : SzlValue -> M) : Prop := {
  s_assoc a b c : plus a (plus b c) = plus (plus a b) c;
  s_comm a b : plus a b = plus b a;
  s_left_id v : good v -> plus zero (den v) = den v;
  s_zero v : v = VNil \/ good v ->
    exists z z', AssignZero ops v = Ok z /\ Clear ops z = Ok z' /\ good z' /\ den z' = zero;
  s_clear v : good v -> exists z, Clear ops v = Ok z;
  s_memory v : good v -> exists m, Memory ops v = Ok m;
  s_assign s d : good s -> d = VNil \/ good d -> Assign ops s d = Ok s;
  s_add s d : good s -> good d -> exists v, Add ops s d = Ok v /\ good v /\ den v = plus (den s) (den d);
  s_code_ok v : good v -> bytes_ok (code (den v));
  s_encode v enc : good v -> Encode ops v enc = Ok (AppendEncoding enc (code (den v)));
  s_decode v d s rest : good v -> d = VNil \/ good d -> bytes_ok rest -> exists w,
    Decode ops (MkDec s (code (den v) ++ rest)) d = Ok (MkDec s rest, w) /\ good w /\ den w = den v;
  s_skip v s rest : good v -> bytes_ok rest ->
    ops_Skip ops (MkDec s (code (den v) ++ rest)) = Some (MkDec s rest);
}.

Section Totals.
Context {ops : SzlOps} {M : Type} {zero : M} {plus : M -> M -> M} {code : M -> bytes}
  {good : SzlValue -> Prop} {den : SzlValue -> M} `{S : !Summable ops zero plus code good den}.
Implicit Types (l : list M).

Definition number (m : M) : Prop := exists v, good v /\ den v = m.
Definition total l : M := foldr plus zero l.

Lemma number_zero : number zero.
Proof. destruct (s_zero VNil (or_introl eq_refl)) as (z & z' & _ & _ & Hg & Hd). by exists z'. Qed.
Lemma number_plus a b : number a -> number b -> number (plus a b).
Proof.
  intros (va & Ha & <-) (vb & Hb & <-). destruct (s_add va vb Ha Hb) as (v & _ & Hv & Hd). by exists v.
Qed.
Lemma number_left_id m : number m -> plus zero m = m.
Proof. intros (v & Hv & <-). by apply s_left_id. Qed.
Lemma number_total l : Forall number l -> number (total l).
Proof. induction 1; [apply number_zero|by apply number_plus]. Qed.
Lemma total_app l l' : Forall number l' -> total (l ++ l') = plus (total l) (total l').
Proof.
  intros H'. induction l as [|x l IH]; cbn.
  - symmetry. by apply number_left_id, number_total.
  - fold (total (l ++ l')) (total l) (total l'). by rewrite IH, s_assoc.
Qed.
Lemma total_perm l l' : l ≡ₚ l' -> total l = total l'.
Proof.
  induction 1 as [|x l l' _ IH|x y l|l l' l'' _ IH1 _ IH2].
  - done.
  - unfold total in *. cbn. by rewrite IH.
  - cbn. by rewrite !s_assoc, (s_comm y x).
  - congruence.
Qed.

End Totals.

(** ** Numbers and tuples of numbers *)

(** The kinds of the positions of a number or a tuple of numbers. *)
Inductive num_ops : SzlOps -> list Kind -> Prop :=
| num_base t : kind_ t ∈ [INT; TIME] -> num_ops (MkOps t [(kind_ t, None)]) [kind_ t]
| num_tuple t ks :
    kind_ t = TUPLE -> Forall (fun k => k ∈ [INT; TIME]) ks ->
    num_ops (MkOps t (map (fun k => (k, None)) ks)) ks.

Definition num_prim (k : Kind) (z : Z) : prim := if bool_decide (k = TIME) then PTime (u64 z) else PInt z.
Definition num_code (ks : list Kind) (zs : list Z) : bytes := concat (zip_with (fun k z => enc_prim (num_prim k z)) ks zs).
Definition num_zero (ks : list Kind) : list Z := map (fun _ => 0) ks.
Definition num_plus (a b : list Z) : list Z := zip_with (fun x y => s64 (x + y)) a b.

Definition int_val (v : SzlValue) : Prop := exists i, v = VInt i /\ is_s64 i.
Definition num_good (o : SzlOps) (ks : list Kind) (v : SzlValue) : Prop :=
  if bool_decide (ops_kind o = TUPLE)
  then exists vals, v = VVals vals /\ (vals = [] \/ length vals = length ks) /\ Forall int_val vals
  else int_val v.
Definition num_den (o : SzlOps) (ks : list Kind) (v : SzlValue) : list Z :=
  if bool_decide (ops_kind o = TUPLE)
  then match vvals v with [] => num_zero ks | vals => map vi vals end
  else [vi v].

Section Numbers.
Context (o : SzlOps) (ks : list Kind) (Ho : num_ops o ks).

Lemma num_kind k : k ∈ [INT; TIME] -> k = INT \/ k = TIME.
Proof. intros [->|[->|H%elem_of_nil]%elem_of_cons]%elem_of_cons; auto. done. Qed.

Lemma num_ops_ok : ops_ok o.
Proof.
  destruct Ho as [t Hk|t ks' Hk Hks].
  - apply ok_base. by destruct (num_kind _ Hk) as [-> | ->]; apply basic_kind_in.
  - apply ok_tuple; [done|]. apply Forall_map. eapply Forall_impl; [exact Hks|].
    intros k Hk'. apply cell_base. by destruct (num_kind _ Hk') as [-> | ->]; apply basic_kind_in.
Qed.

Lemma base_int_val k v : k ∈ [INT; TIME] -> int_val v -> base_ok k v.
Proof. by intros [-> | ->]%num_kind. Qed.

Lemma loop_all_ints all cur vals :
  Forall (fun k => k ∈ [INT; TIME]) all -> Forall (fun k => k ∈ [INT; TIME]) cur ->
  (length vals <= length cur)%nat -> Forall int_val vals ->
  loop_all (map val_cell_ok (map (fun k => (k, None)) all)) (map val_cell_ok (map (fun k => (k, None)) cur)) vals.
Proof.
  intros Ha Hc Hl Hv. revert cur Hc Hl. induction Hv as [|v vals Hv Hvs IH]; intros cur Hc Hl; [done|].
  destruct Hc as [|k cur Hk Hc]; [cbn in Hl; lia|]. cbn [map loop_all next_cell]. split; [by apply base_int_val|].
  apply IH; [done|cbn in Hl; lia].
Qed.

Lemma num_val_ok v : num_good o ks v -> val_ok o v.
Proof.
  unfold num_good, ops_kind. destruct Ho as [t Hk|t ks' Hk Hks]; cbn [type_].
  - destruct (num_kind _ Hk) as [E|E]; rewrite E; cbn; by rewrite E.
  - rewrite Hk. cbn [val_ok]. rewrite Hk. cbn. intros (vals & -> & Hl & Hv). exists vals. split; [done|].
    rewrite length_map. split; [done|]. apply loop_all_ints; try done. destruct Hl as [->|Hl]; cbn; lia.
Qed.

Lemma loop_all_base (P : Kind * option SzlOps -> SzlValue -> Prop) all cur (vals : list SzlValue) :
  (forall k v, P (k, None) v) -> all <> [] \/ (length vals <= length cur)%nat ->
  loop_all (map P (map (fun k => (k, None)) all)) (map P (map (fun k : Kind => (k, None)) cur)) vals.
Proof.
  intros HP. revert cur. induction vals as [|v vals IH]; intros cur Hl; [done|]. cbn [loop_all].
  destruct cur as [|k cur]; [destruct all as [|k all]; [destruct Hl; cbn in *; [done|lia]|]|].
  - cbn. split; [apply HP|]. apply (IH all). left. done.
  - cbn. split; [apply HP|]. apply IH. destruct Hl; [by left|right; cbn in *; lia].
Qed.

Lemma loop_all_kinds (P : Kind * option SzlOps -> SzlValue -> Prop) (Q : Kind -> Prop) all cur (vals : list SzlValue) :
  (forall k v, Q k -> P (k, None) v) -> Forall Q all -> Forall Q cur -> (length vals <= length cur)%nat ->
  loop_all (map P (map (fun k => (k, None)) all)) (map P (map (fun k : Kind => (k, None)) cur)) vals.
Proof.
  intros HP Ha Hc. revert vals. induction Hc as [|k cur Hk Hc IH]; intros [|v vals] Hl; try done; [cbn in Hl; lia|].
  cbn. split; [by apply HP|]. apply IH. cbn in Hl. lia.
Qed.

Lemma num_enc_ok v : num_good o ks v -> enc_ok o v.
Proof.
  unfold num_good, ops_kind. destruct Ho as [t Hk|t ks' Hk Hks]; cbn [type_].
  - destruct (num_kind _ Hk) as [E|E]; cbn; by rewrite E.
  - rewrite Hk. cbn [enc_ok]. rewrite Hk. cbn. intros (vals & -> & Hl & Hv). split.
    + intros _. unfold has_sub. clear. by induction ks' as [|k ks' IH].
    + apply (loop_all_base enc_cell_ok); [done|]. right. destruct Hl as [->|Hl]; cbn in *; lia.
Qed.

Lemma num_prim_ok k z : is_s64 z -> prim_ok (num_prim k z).
Proof. intros Hz. unfold num_prim. case_bool_decide; [apply u64_range|done]. Qed.

Lemma num_encode_base k z enc :
  k ∈ [INT; TIME] -> is_s64 z ->
  SzlOpsDoEncode k (VInt z) enc = Ok (AppendEncoding enc (enc_prim (num_prim k z))).
Proof.
  intros Hk Hz. rewrite <- (put_prim_spec enc (num_prim k z)) by by apply num_prim_ok.
  by destruct (num_kind _ Hk) as [-> | ->].
Qed.

Lemma AppendEncoding_nil e : AppendEncoding e [] = e.
Proof. unfold AppendEncoding. rewrite app_nil_r. by destruct e. Qed.

Lemma num_encode_loop all cur zs enc :
  Forall (fun k => k ∈ [INT; TIME]) cur -> length zs = length cur -> Forall is_s64 zs ->
  loop_fold (map enc_cell (map (fun k => (k, None)) all)) (map enc_cell (map (fun k => (k, None)) cur)) (map VInt zs) enc
  = Ok (AppendEncoding enc (num_code cur zs)).
Proof.
  intros Hc Hl Hz. revert cur enc Hc Hl. induction Hz as [|z zs Hz Hzs IH]; intros [|k cur] enc Hc Hl; try done.
  { cbn. by rewrite AppendEncoding_nil. }
  apply Forall_cons in Hc as [Hk Hc]. cbn [map loop_fold next_cell enc_cell].
  rewrite num_encode_base by done. cbn [mbind res_bind]. rewrite IH by (done || by injection Hl).
  by rewrite AppendEncoding_app.
Qed.

Lemma EncodeDefault_num t cells enc :
  Forall (fun k => k ∈ [INT; TIME]) cells -> kind_ t = TUPLE ->
  EncodeDefault (MkOps t (map (fun k => (k, None)) cells)) enc
  = Ok (AppendEncoding enc (num_code cells (num_zero cells))).
Proof.
  intros Hc Hk. rewrite EncodeDefault_zeros; [|done| |].
  - transitivity (loop_fold (map enc_cell (map (fun k => (k, None)) cells))
      (map enc_cell (map (fun k => (k, None)) cells)) (map VInt (num_zero cells)) enc).
    + f_equal. unfold num_zero. rewrite !map_map. apply map_ext_in. intros k Hin.
      apply list_elem_of_In in Hin. pose proof (proj1 (Forall_forall _ _) Hc k Hin) as Hk'.
      by destruct (num_kind _ Hk') as [-> | ->].
    + apply num_encode_loop; [done|unfold num_zero; by rewrite length_map|].
      unfold num_zero. apply Forall_map, Forall_true. intros _. unfold is_s64. lia.
  - unfold has_sub. clear. by induction cells as [|k cells IH].
  - apply Forall_map. eapply Forall_impl; [exact Hc|]. intros k Hk'. apply cell_base.
    by destruct (num_kind _ Hk') as [-> | ->]; apply basic_kind_in.
Qed.

Lemma int_vals vals : Forall int_val vals -> exists zs, vals = map VInt zs /\ Forall is_s64 zs /\ map vi vals = zs.
Proof.
  induction 1 as [|v vals (z & -> & Hz) _ (zs & -> & Hzs & E)]; [by exists []|].
  exists (z :: zs). cbn. rewrite E. split; [done|]. split; [by constructor|done].
Qed.

Lemma num_encode v enc : num_good o ks v -> Encode o v enc = Ok (AppendEncoding enc (num_code ks (num_den o ks v))).
Proof.
  unfold num_good, num_den, ops_kind, Encode. destruct Ho as [t Hk|t ks' Hk Hks]; cbn [type_].
  - intros Hv. assert (bool_decide (kind_ t = TUPLE) = false) as E.
    { by destruct (num_kind _ Hk) as [-> | ->]. }
    rewrite E in Hv. rewrite E. destruct Hv as (z & -> & Hz).
    transitivity (SzlOpsDoEncode (kind_ t) (VInt z) enc).
    { cbn [EncodeInternal]. by destruct (num_kind _ Hk) as [-> | ->]. }
    rewrite num_encode_base by done. cbn. unfold num_code. cbn. by rewrite app_nil_r.
  - rewrite Hk. rewrite bool_decide_eq_true_2 by done. intros (vals & -> & Hl & Hv).
    cbn [vvals]. destruct (int_vals vals Hv) as (zs & -> & Hzs & Ezs).
    transitivity (match map VInt zs with
      | [] => EncodeDefault (MkOps t (map (fun k => (k, None)) ks')) enc
      | vals => loop_fold (map enc_cell (map (fun k => (k, None)) ks'))
                  (map enc_cell (map (fun k => (k, None)) ks')) vals enc end).
    { cbn [EncodeInternal]. rewrite Hk. cbn [mbind res_bind vvals]. destruct (map VInt zs); cbn [mbind res_bind].
      - by destruct (EncodeDefault _ enc).
      - by destruct (loop_fold _ _ _ _). }
    destruct zs as [|z zs]; [by apply EncodeDefault_num|].
    destruct Hl as [Hl|Hl]; [done|]. rewrite length_map in Hl.
    cbn [map] in Ezs |- *. rewrite Ezs. exact (num_encode_loop ks' ks' (z :: zs) enc Hks Hl Hzs).
Qed.

Lemma num_plus_assoc a b c : num_plus a (num_plus b c) = num_plus (num_plus a b) c.
Proof.
  revert b c. induction a as [|x a IH]; intros [|y b] [|z c]; try done. cbn. f_equal; [|apply IH].
  autorewrite with szl. f_equal. lia.
Qed.
Lemma num_plus_comm a b : num_plus a b = num_plus b a.
Proof. revert b. induction a as [|x a IH]; intros [|y b]; try done. cbn. f_equal; [f_equal; lia|apply IH]. Qed.
Lemma num_plus_zero zs : Forall is_s64 zs -> length zs = length ks -> num_plus (num_zero ks) zs = zs.
Proof.
  intros Hz. clear Ho. revert ks. induction Hz as [|z zs Hz Hzs IH]; intros [|k ks'] Hl; try done.
  cbn. f_equal; [by apply s64_id|apply IH; by injection Hl].
Qed.

Lemma num_den_ok v : num_good o ks v -> Forall is_s64 (num_den o ks v) /\ length (num_den o ks v) = length ks.
Proof.
  unfold num_good, num_den, ops_kind. destruct Ho as [t Hk|t ks' Hk Hks]; cbn [type_].
  - destruct (num_kind _ Hk) as [-> | ->]; intros (z & -> & Hz); (split; [by apply Forall_singleton|done]).
  - rewrite Hk, bool_decide_eq_true_2 by done. intros (vals & -> & Hl & Hv). cbn [vvals].
    destruct (int_vals vals Hv) as (zs & -> & Hzs & Ezs). destruct zs as [|z zs].
    + cbn [map]. unfold num_zero. rewrite length_map. split; [|done].
      apply Forall_map, Forall_true. intros _. unfold is_s64. lia.
    + cbn [map] in *. rewrite Ezs. destruct Hl as [|Hl]; [done|]. split; [done|].
      cbn in *. by rewrite length_map in Hl.
Qed.

Lemma loop_pure_ints all cur zs :
  Forall (fun k => k ∈ [INT; TIME]) cur -> length zs = length cur -> Forall is_s64 zs ->
  loop_pure (map norm_cell (map (fun k => (k, None)) all)) (map norm_cell (map (fun k => (k, None)) cur)) (map VInt zs)
  = map VInt zs.
Proof.
  intros Hc Hl Hz. revert cur Hc Hl. induction Hz as [|z zs Hz Hzs IH]; intros [|k cur] Hc Hl; try done.
  apply Forall_cons in Hc as [Hk Hc]. cbn [map loop_pure next_cell norm_cell].
  rewrite IH by (done || by injection Hl). f_equal. unfold norm_base, prim_of, norm_prim, of_prim.
  destruct (num_kind _ Hk) as [-> | ->]; cbn; [done|]. by rewrite s64_u64, s64_id.
Qed.

Lemma num_norm v : num_good o ks v ->
  num_good o ks (norm_val o v) /\ num_den o ks (norm_val o v) = num_den o ks v.
Proof.
  unfold num_good, num_den, ops_kind. destruct Ho as [t Hk|t ks' Hk Hks]; cbn [type_].
  - assert (bool_decide (kind_ t = TUPLE) = false) as E by (by destruct (num_kind _ Hk) as [-> | ->]).
    rewrite E. intros (z & -> & Hz).
    assert (norm_val (MkOps t [(kind_ t, None)]) (VInt z) = VInt z) as ->.
    { cbn. destruct (num_kind _ Hk) as [-> | ->]; cbn; [done|]. by rewrite s64_u64, s64_id. }
    split; [by exists z|done].
  - rewrite Hk, bool_decide_eq_true_2 by done. intros (vals & -> & Hl & Hv).
    destruct (int_vals vals Hv) as (zs & -> & Hzs & Ezs). destruct zs as [|z zs].
    + change (map VInt []) with (@nil SzlValue).
      assert (norm_val (MkOps t (map (fun k => (k, None)) ks')) (VVals []) = VVals (map VInt (num_zero ks'))) as ->.
      { cbn [norm_val]. rewrite Hk. cbn. f_equal. unfold num_zero. rewrite !map_map. apply map_ext_in.
        intros k Hin. apply list_elem_of_In in Hin. pose proof (proj1 (Forall_forall _ _) Hks k Hin) as Hk'.
        by destruct (num_kind _ Hk') as [-> | ->]. }
      cbn [vvals map]. split.
      * eexists. split; [reflexivity|]. split; [right; unfold num_zero; by rewrite !length_map|].
        unfold num_zero. rewrite map_map. apply Forall_map, Forall_true. intros _. exists 0.
        split; [done|]. unfold is_s64. lia.
      * unfold num_zero. rewrite map_map. destruct ks'; [done|]. cbn. f_equal. by rewrite map_map.
    + destruct Hl as [|Hl]; [done|]. rewrite length_map in Hl.
      assert (norm_val (MkOps t (map (fun k => (k, None)) ks')) (VVals (map VInt (z :: zs))) = VVals (map VInt (z :: zs))) as ->.
      { cbn [norm_val]. rewrite Hk. cbn [vvals map]. f_equal.
        exact (loop_pure_ints ks' ks' (z :: zs) Hks Hl Hzs). }
      split; [|done]. eexists. split; [reflexivity|]. split; [right; by rewrite length_map|done].
Qed.

Lemma num_dest d : d = VNil \/ num_good o ks d -> dest_ok o d.
Proof. intros [->|Hd]; [by apply dest_ok_VNil, num_ops_ok|by apply val_dest_ok, num_val_ok]. Qed.

(** The codec of the values of these types. *)
Lemma num_codec v : num_good o ks v ->
  bytes_ok (num_code ks (num_den o ks v))
  /\ (forall s rest, bytes_ok rest ->
       ops_Skip o (MkDec s (num_code ks (num_den o ks v) ++ rest)) = Some (MkDec s rest))
  /\ (forall s rest d, bytes_ok rest -> d = VNil \/ num_good o ks d ->
       Decode o (MkDec s (num_code ks (num_den o ks v) ++ rest)) d = Ok (MkDec s rest, norm_val o v)).
Proof.
  intros Hv. destruct (ops_codec_all o num_ops_ok true v (num_val_ok v Hv) (num_enc_ok v Hv))
    as (b & Hb & _ & Henc & Hskip & Hdec).
  assert (num_code ks (num_den o ks v) = b) as ->.
  { pose proof (num_encode v enc_new Hv) as E. unfold Encode in E. rewrite Henc in E. by injection E. }
  split; [done|]. split; [exact Hskip|]. intros s rest d Hr Hd. apply Hdec; [done|by apply num_dest].
Qed.

Lemma loop_map_total {B C} (fs cur : list (B -> res C)) vals (P : C -> Prop) :
  Forall (fun f => forall v, exists w, f v = Ok w /\ P w) cur -> (length vals <= length cur)%nat ->
  exists ws, loop_map fs cur vals = Ok ws /\ length ws = length vals /\ Forall P ws.
Proof.
  intros Hc. revert vals. induction Hc as [|f cur Hf Hc IH]; intros [|v vals] Hl; try (by exists []);
    [cbn in Hl; lia|]. cbn [loop_map next_cell]. destruct (Hf v) as (w & -> & Hw).
  destruct (IH vals) as (ws & E & El & HP); [cbn in Hl; lia|]. cbn [mbind res_bind]. rewrite E.
  exists (w :: ws). split; [done|]. cbn. split; [by rewrite El|by constructor].
Qed.

Lemma num_zero_spec v : v = VNil \/ num_good o ks v -> exists z z',
  AssignZero o v = Ok z /\ Clear o z = Ok z' /\ num_good o ks z' /\ num_den o ks z' = num_zero ks.
Proof.
  intros Hv. pose proof num_ops_ok as Hok.
  assert (exists z, AssignZero o v = Ok z /\ num_good o ks z /\ (ops_kind o <> TUPLE -> z = VInt 0)) as (z & Ez & Hz & Hz0).
  { unfold num_good, ops_kind in *. destruct Ho as [t Hk|t ks' Hk Hks]; cbn [type_] in *; unfold AssignZero, ops_kind; cbn [type_].
    - exists (VInt 0). split; [by destruct (num_kind _ Hk) as [-> | ->]|]. split; [|done].
      assert (bool_decide (kind_ t = TUPLE) = false) as -> by (by destruct (num_kind _ Hk) as [-> | ->]).
      exists 0. split; [done|]. unfold is_s64. lia.
    - rewrite Hk in *. rewrite bool_decide_eq_true_2 in * by done.
      destruct (loop_map_total (map zero_cell (map (fun k => (k, None)) ks'))
        (map zero_cell (map (fun k => (k, None)) ks')) (alloc (length ks') (vvals v)) int_val) as (ws & Ew & El & Hw).
      + rewrite map_map. apply Forall_map. eapply Forall_impl; [exact Hks|]. intros k Hk' w. exists (VInt 0).
        split; [by destruct (num_kind _ Hk') as [-> | ->]|]. exists 0. split; [done|]. unfold is_s64. lia.
      + rewrite !length_map. destruct Hv as [->|(vals & -> & [->|Hl] & _)]; cbn;
          [by rewrite length_replicate|by rewrite length_replicate|]. destruct vals; cbn in *; [rewrite length_replicate|]; lia.
      + exists (VVals ws). cbn [cells_ nflats_]. unfold nflats_. cbn [cells_]. rewrite length_map, Ew.
        split; [done|]. split; [|done]. exists ws. split; [done|]. split; [right|done].
        rewrite El. destruct Hv as [->|(vals & -> & [->|Hl] & _)]; cbn;
          [by rewrite length_replicate|by rewrite length_replicate|].
        destruct vals; cbn in *; [rewrite length_replicate|]; lia. }
  destruct (Clear_ok o z Hok (num_dest z (or_intror Hz))) as (z' & Ec & Hc).
  exists z, z'. split; [done|]. split; [done|].
  unfold num_good, num_den, ops_kind in *. destruct Ho as [t Hk|t ks' Hk Hks]; cbn [type_] in *.
  - assert (kind_ t <> TUPLE) as Hnt by (by destruct (num_kind _ Hk) as [-> | ->]).
    rewrite Hz0 in Ec by done. rewrite bool_decide_eq_false_2 by done.
    assert (z' = VInt 0) as ->.
    { cbn in Ec. destruct (num_kind _ Hk) as [E|E]; rewrite E in Ec; by injection Ec. }
    split; [|done]. exists 0. split; [done|]. unfold is_s64. lia.
  - rewrite Hk in *. rewrite bool_decide_eq_true_2 by done. rewrite Hc by by apply (bool_decide_unpack _).
    split; [|done]. exists []. split; [done|]. split; [by left|constructor].
Qed.

Lemma num_add_loop all cur xs ys :
  Forall (fun k => k ∈ [INT; TIME]) cur -> length xs = length cur -> length ys = length cur ->
  loop_map (map add_pair_cell all) (map add_pair_cell (map (fun k => (k, None)) cur)) (zip (map VInt xs) (map VInt ys))
  = Ok (map VInt (num_plus ys xs)).
Proof.
  intros Hc. revert xs ys. induction Hc as [|k cur Hk Hc IH]; intros [|x xs] [|y ys] Hx Hy; try done.
  cbn [map zip_with loop_map next_cell add_pair_cell val_add].
  assert (add_base k (VInt x) (VInt y) = Ok (VInt (s64 (y + x)))) as ->
    by (by destruct (num_kind _ Hk) as [-> | ->]).
  cbn [mbind res_bind]. rewrite IH by (cbn in *; lia). done.
Qed.

Lemma num_add s d : num_good o ks s -> num_good o ks d -> exists v,
  Add o s d = Ok v /\ num_good o ks v /\ num_den o ks v = num_plus (num_den o ks s) (num_den o ks d).
Proof.
  intros Hs Hd. pose proof (num_den_ok s Hs) as [Ds Ls]. pose proof (num_den_ok d Hd) as [Dd Ld].
  pose proof (Assign_fresh o s num_ops_ok (num_val_ok s Hs)) as Has.
  pose proof num_plus_zero as Hp0.
  rewrite num_plus_comm. unfold num_good, num_den, ops_kind in *.
  destruct Ho as [t Hk|t ks' Hk Hks]; cbn [type_] in *.
  - assert (bool_decide (kind_ t = TUPLE) = false) as E by (by destruct (num_kind _ Hk) as [-> | ->]).
    rewrite E in *. destruct Hs as (x & -> & Hx), Hd as (y & -> & Hy). exists (VInt (s64 (y + x))).
    split; [cbn; by destruct (num_kind _ Hk) as [-> | ->]|]. split; [|done].
    eexists. split; [done|apply s64_range].
  - rewrite Hk in *. rewrite bool_decide_eq_true_2 in * by done.
    destruct Hs as (vs & -> & Hls & Hvs), Hd as (vd & -> & Hld & Hvd). cbn [vvals] in *.
    destruct (int_vals vs Hvs) as (xs & -> & Hxs & Exs), (int_vals vd Hvd) as (ys & -> & Hys & Eys).
    assert (Add (MkOps t (map (fun k => (k, None)) ks')) (VVals (map VInt xs)) (VVals (map VInt ys))
      = match map VInt xs, map VInt ys with
        | [], _ => Ok (VVals (map VInt ys))
        | _, [] => Assign (MkOps t (map (fun k => (k, None)) ks')) (VVals (map VInt xs)) VNil
        | svals, dvals =>
            vals ← loop_map (map add_pair_cell (map (fun k => (k, None)) ks'))
                     (map add_pair_cell (map (fun k => (k, None)) ks')) (zip svals dvals);
            Ok (VVals vals) end) as ->.
    { cbn [Add]. rewrite Hk, !map_map. by destruct (map VInt xs), (map VInt ys). }
    destruct xs as [|x xs].
    { eexists. split; [done|]. split; [by exists (map VInt ys)|]. cbn [map] in *.
      by rewrite num_plus_comm, Hp0. }
    destruct Hls as [|Hls]; [done|]. destruct ys as [|y ys].
    { cbn [map] in *. rewrite Has. eexists. split; [done|].
      split; [by eexists; split; [reflexivity|]; split; [right|]|]. by rewrite Hp0. }
    destruct Hld as [|Hld]; [done|]. rewrite length_map in Hls, Hld.
    pose proof (num_add_loop (map (fun k => (k, None)) ks') ks' (x :: xs) (y :: ys) Hks Hls Hld) as E.
    cbn [map] in E |- *. rewrite E. cbn [mbind res_bind]. eexists. split; [done|].
    assert (Forall is_s64 (num_plus (y :: ys) (x :: xs))) as Hp.
    { unfold num_plus. clear. generalize (y :: ys) (x :: xs). clear. intros a.
      induction a as [|y a IH]; intros [|x b]; try constructor; [apply s64_range|apply IH]. }
    split.
    + eexists. split; [reflexivity|]. split.
      * right. unfold num_plus. rewrite length_map, length_zip_with. lia.
      * clear -Hp. induction Hp; constructor; [by eexists|done].
    + cbn [map] in Exs, Eys. rewrite Exs, Eys. cbn [vvals]. unfold num_plus. cbn [zip_with map vi]. f_equal.
      rewrite map_map. cbn. apply map_id.
Qed.
(** *** Cells: values of the type, or partly untouched *)

(** A [SzlValue] as its constructor leaves it counts as zero, alone or as a
    field of a tuple whose storage was allocated and not filled. *)
Definition num_cell (v : SzlValue) : Prop :=
  if bool_decide (ops_kind o = TUPLE)
  then (vvals v = [] \/ length (vvals v) = length ks) /\ Forall (fun w => is_s64 (vi w)) (vvals v)
  else is_s64 (vi v).

(** [-m] and [a - b], position by position. *)
Definition num_opp (a : list Z) : list Z := map (fun x => s64 (- x)) a.
Definition num_minus (a b : list Z) : list Z := zip_with (fun x y => s64 (x - y)) a b.

Lemma num_opp_ok a : Forall is_s64 (num_opp a).
Proof. unfold num_opp. apply Forall_map, Forall_true. intros x. apply s64_range. Qed.
Lemma num_minus_ok a b : Forall is_s64 (num_minus a b).
Proof. unfold num_minus. revert b. induction a as [|x a IH]; intros [|y b]; constructor; [apply s64_range|apply IH]. Qed.
Lemma num_plus_ok a b : Forall is_s64 (num_plus a b).
Proof. unfold num_plus. revert b. induction a as [|x a IH]; intros [|y b]; constructor; [apply s64_range|apply IH]. Qed.
Lemma num_minus_zero (ks' : list Kind) b : length b = length ks' -> num_minus (num_zero ks') b = num_opp b.
Proof. revert b. induction ks' as [|k ks' IH]; intros [|y b] Hl; try done. cbn. f_equal. apply IH. by injection Hl. Qed.
Lemma num_minus_zero_r (ks' : list Kind) a :
  Forall is_s64 a -> length a = length ks' -> num_minus a (num_zero ks') = a.
Proof.
  intros Ha. revert ks'. induction Ha as [|x a Hx Ha IH]; intros [|k ks'] Hl; try done.
  cbn. rewrite Z.sub_0_r, s64_id by done. f_equal. apply IH. by injection Hl.
Qed.

Lemma scalar_kind : ops_kind o <> TUPLE -> exists t, o = MkOps t [(kind_ t, None)] /\ ks = [kind_ t] /\ kind_ t ∈ [INT; TIME].
Proof. destruct Ho as [t Hk|t ks' Hk Hks]; [by exists t|]. by intros []. Qed.
Lemma tuple_kind : ops_kind o = TUPLE ->
  exists t, o = MkOps t (map (fun k => (k, None)) ks) /\ kind_ t = TUPLE /\ Forall (fun k => k ∈ [INT; TIME]) ks.
Proof.
  destruct Ho as [t Hk|t ks' Hk Hks]; [|by exists t]. unfold ops_kind. cbn.
  by destruct (num_kind _ Hk) as [-> | ->].
Qed.
Lemma scalar_den v : ops_kind o <> TUPLE -> num_den o ks v = [vi v].
Proof. intros Hk. unfold num_den. by rewrite bool_decide_eq_false_2. Qed.
Lemma scalar_cell z : ops_kind o <> TUPLE -> is_s64 z -> num_cell (VInt z).
Proof. intros Hk Hz. unfold num_cell. by rewrite bool_decide_eq_false_2. Qed.

Lemma good_cell v : num_good o ks v -> num_cell v.
Proof.
  unfold num_good, num_cell. case_bool_decide; [|by intros (i & -> & Hi)].
  intros (vals & -> & Hl & Hv). split; [done|]. eapply Forall_impl; [exact Hv|]. by intros w (i & -> & Hi).
Qed.
Lemma cell_VNil : num_cell VNil.
Proof.
  unfold num_cell. case_bool_decide; [|done]. split; [by left|constructor].
Qed.

(** The fields of a tuple cell: none, or one for each kind. *)
Lemma cell_fields v : ops_kind o = TUPLE -> num_cell v ->
  (vvals v = [] /\ num_den o ks v = num_zero ks)
  \/ (vvals v <> [] /\ length (vvals v) = length ks /\ num_den o ks v = map vi (vvals v)).
Proof.
  unfold num_cell, num_den. intros Hk. rewrite !bool_decide_eq_true_2 by done. intros [Hl Hv].
  destruct (vvals v) as [|w l] eqn:E; [by left|]. right. split; [done|]. by destruct Hl.
Qed.

Lemma zeros_ok (ks' : list Kind) : Forall is_s64 (num_zero ks').
Proof. apply Forall_map, Forall_true. intros _. unfold is_s64. lia. Qed.

Lemma cell_den v : num_cell v -> Forall is_s64 (num_den o ks v) /\ length (num_den o ks v) = length ks.
Proof.
  intros Hv. destruct (decide (ops_kind o = TUPLE)) as [Hk|Hk].
  - destruct (cell_fields v Hk Hv) as [[_ ->]|(_ & Hl & ->)].
    + unfold num_zero. rewrite length_map. split; [apply zeros_ok|done].
    + rewrite length_map. split; [|done]. unfold num_cell in Hv. rewrite bool_decide_eq_true_2 in Hv by done.
      apply Forall_map, Hv.
  - rewrite scalar_den by done. destruct (scalar_kind Hk) as (t & _ & -> & _). split; [|done].
    apply Forall_singleton. unfold num_cell in Hv. by rewrite bool_decide_eq_false_2 in Hv by done.
Qed.

Lemma ints_cell zs : ops_kind o = TUPLE -> length zs = length ks -> Forall is_s64 zs ->
  num_cell (VVals (map VInt zs)) /\ num_den o ks (VVals (map VInt zs)) = zs.
Proof.
  intros Hk Hl Hz. unfold num_cell, num_den. rewrite !bool_decide_eq_true_2 by done. cbn [vvals]. split.
  - rewrite length_map. split; [by right|]. by apply Forall_map.
  - destruct zs as [|z zs]; [by destruct ks|]. cbn [map vi]. f_equal. rewrite map_map. cbn. apply map_id.
Qed.

(** A loop over parallel lists whose body computes an integer. *)
Lemma loop_map_ints {B} (fs cur : list (B -> res SzlValue)) (g : B -> Z) bs :
  Forall (fun f => forall b, f b = Ok (VInt (g b))) cur -> (length bs <= length cur)%nat ->
  loop_map fs cur bs = Ok (map VInt (map g bs)).
Proof.
  intros Hc. revert bs. induction Hc as [|f cur Hf Hc IH]; intros [|b bs] Hl; try done; [cbn in Hl; lia|].
  cbn [loop_map next_cell]. rewrite Hf. cbn [mbind res_bind]. rewrite IH by (cbn in Hl; lia). done.
Qed.

Lemma map_zip_vi (h : Z -> Z -> Z) l l' :
  map (fun '(a, b) => h (vi a) (vi b)) (zip l l') = zip_with h (map vi l) (map vi l').
Proof. revert l'. induction l as [|a l IH]; intros [|b l']; try done. cbn. f_equal. apply IH. Qed.

Lemma cell_dest d : num_cell d -> dest_ok o d.
Proof.
  intros Hd. destruct (decide (ops_kind o = TUPLE)) as [Hk|Hk].
  - unfold num_cell in Hd. rewrite bool_decide_eq_true_2 in Hd by done. destruct Hd as [Hl _].
    destruct (tuple_kind Hk) as (t & -> & Ht & Hks). cbn [dest_ok]. rewrite Ht, length_map. split; [done|].
    apply (loop_all_base dest_cell_ok); [done|]. right. destruct Hl as [->|Hl]; cbn; lia.
  - destruct (scalar_kind Hk) as (t & -> & _ & Hk'). cbn. by destruct (num_kind _ Hk') as [-> | ->].
Qed.

Lemma clear_unless_cell s d : ops_kind o = TUPLE -> num_cell s -> num_cell d -> exists d',
  clear_unless_len o s d = Ok d' /\ num_cell d' /\ (vvals s = [] -> vvals d' = [])
  /\ (vvals s <> [] -> vvals d' = [] /\ vvals d = [] \/ vvals d <> [] /\ d' = d).
Proof.
  intros Hk Hs Hd. unfold clear_unless_len.
  destruct (cell_fields s Hk Hs) as [[Es _]|(Es & Ls & _)], (cell_fields d Hk Hd) as [[Ed _]|(Ed & Ld & _)];
    rewrite ?Es, ?Ed in *.
  - exists d. by rewrite Ed.
  - rewrite (proj2 (Nat.eqb_neq _ _)) by (destruct (vvals d); done).
    destruct (Clear_ok o d num_ops_ok (cell_dest d Hd)) as (z & Ez & Hz).
    rewrite Hz in Ez by (rewrite Hk; by apply (bool_decide_unpack _)).
    rewrite orb_true_r. cbn [orb check mbind res_bind]. exists VNil. split; [done|].
    split; [apply cell_VNil|done].
  - rewrite (proj2 (Nat.eqb_neq _ _)) by (destruct (vvals s); done). rewrite orb_true_r. cbn [check mbind res_bind].
    destruct (Clear_ok o d num_ops_ok (cell_dest d Hd)) as (z & Ez & Hz).
    rewrite Hz in Ez by (rewrite Hk; by apply (bool_decide_unpack _)).
    exists VNil. split; [done|]. split; [apply cell_VNil|]. split; [done|]. intros _. by left.
  - exists d. rewrite (proj2 (Nat.eqb_eq _ _)) by congruence. split; [done|]. split; [done|]. split; [done|]. intros _. by right.
Qed.
(** *** The operations on cells *)

(** A tuple of integers computed by a loop is a cell. *)
Lemma cell_result zs : ops_kind o = TUPLE -> length zs = length ks -> Forall is_s64 zs ->
  exists v, VVals (map VInt zs) = v /\ num_cell v /\ num_den o ks v = zs.
Proof. intros. destruct (ints_cell zs) as [? ?]; try done. by eexists. Qed.
Lemma ints_good zs : ops_kind o = TUPLE -> length zs = length ks -> Forall is_s64 zs ->
  num_good o ks (VVals (map VInt zs)).
Proof.
  intros Hk Hl Hz. unfold num_good. rewrite bool_decide_eq_true_2 by done. eexists. split; [done|].
  rewrite length_map. split; [by right|]. apply Forall_map. eapply Forall_impl; [exact Hz|]. intros z ?. by exists z.
Qed.

Lemma alloc_eq_cell n vals : vals = [] \/ length vals = n -> exists ds, alloc_eq n vals = Ok ds /\ length ds = n
  /\ (vals <> [] -> ds = vals) /\ (vals = [] -> ds = replicate n VNil).
Proof.
  intros [->|Hl]; unfold alloc_eq.
  - eexists. split; [done|]. by rewrite length_replicate.
  - destruct vals as [|v vals]; [exists (replicate n VNil); by rewrite length_replicate|].
    rewrite (proj2 (Nat.eqb_eq _ _) Hl). by exists (v :: vals).
Qed.

Lemma Assign_cell s : num_cell s -> exists v,
  Assign o s VNil = Ok v /\ num_good o ks v /\ num_den o ks v = num_den o ks s.
Proof.
  intros Hs. destruct (decide (ops_kind o = TUPLE)) as [Hk|Hk].
  - destruct (cell_den s Hs) as [Ds Ls]. destruct (tuple_kind Hk) as (t & Eo & Ht & Hks).
    destruct (clear_unless_cell s VNil Hk Hs cell_VNil) as (d' & Ec & _ & Hn & Hd).
    assert (vvals d' = []) as D0.
    { destruct (cell_fields s Hk Hs) as [[Es _]|(Es & _)]; [by apply Hn|]. by destruct (Hd Es) as [[H _]|[H _]]. }
    destruct (cell_fields s Hk Hs) as [[Es E]|(Es & Hl & E)].
    + exists (VVals []). assert (Assign o s VNil = Ok d') as ->.
      { rewrite Eo in Ec |- *. cbn [Assign]. rewrite Ht, Ec. cbn [mbind res_bind]. by rewrite Es. }
      assert (d' = VVals []) as ->.
      { revert Ec. unfold clear_unless_len. rewrite Es. cbn. by intros [= <-]. }
      split; [done|]. rewrite E. unfold num_good, num_den. rewrite !bool_decide_eq_true_2 by done.
      split; [|done]. exists []. split; [done|]. split; [by left|constructor].
    + destruct (cell_result (map vi (vvals s)) Hk) as (v & Ev & Gv & Dv);
        [by rewrite length_map|by rewrite <- E|].
      exists v. rewrite E. split; [|split; [|done]].
      * rewrite Eo in Ec |- *. cbn [Assign]. rewrite Ht, Ec. cbn [mbind res_bind].
        destruct (alloc_eq_cell (length (vvals s)) (vvals d') (or_introl D0)) as (ds & Ed & Lds & _).
        destruct (vvals s) as [|w0 l0] eqn:Evs; [done|]. rewrite <- Evs in *.
        rewrite length_map, (proj2 (Nat.eqb_eq _ _)) by congruence. rewrite orb_true_r. cbn [check mbind res_bind].
        rewrite Ed. cbn [mbind res_bind]. rewrite (loop_map_ints _ _ (fun '(sv, _) => vi sv)).
        -- cbn [mbind res_bind]. rewrite <- Ev. do 3 f_equal.
           clear -Lds. revert ds Lds. generalize (vvals s). intros l.
           induction l as [|a l IH]; intros [|b ds] Hl; try done. cbn. f_equal. apply IH. by injection Hl.
        -- rewrite map_map. apply Forall_map. eapply Forall_impl; [exact Hks|]. intros k Hk' [sv dv].
           by destruct (num_kind _ Hk') as [-> | ->].
        -- rewrite !length_map, length_zip_with. lia.
      * rewrite <- Ev. unfold num_good. rewrite bool_decide_eq_true_2 by done. eexists. split; [done|].
        rewrite !length_map. split; [by right|]. apply Forall_map. rewrite <- E.
        eapply Forall_impl; [apply cell_den, Hs|]. intros z Hz. by exists z.
  - exists (VInt (vi s)). rewrite !scalar_den by done. destruct (scalar_kind Hk) as (t & Eo & _ & Hk').
    split; [rewrite Eo; cbn; by destruct (num_kind _ Hk') as [-> | ->]|].
    unfold num_cell in Hs. unfold num_good. rewrite bool_decide_eq_false_2 in * by done.
    split; [by eexists|done].
Qed.
Lemma cell_add s d : num_cell s -> num_cell d -> exists v,
  Add o s d = Ok v /\ num_cell v /\ num_den o ks v = num_plus (num_den o ks s) (num_den o ks d)
  /\ (num_good o ks d -> num_good o ks v).
Proof.
  intros Hs Hd. destruct (cell_den s Hs) as [Zs Ls], (cell_den d Hd) as [Zd Ld].
  pose proof num_plus_zero as Hp0.
  destruct (decide (ops_kind o = TUPLE)) as [Hk|Hk].
  - destruct (tuple_kind Hk) as (t & Eo & Ht & Hks).
    destruct (cell_fields s Hk Hs) as [[Es E]|(Es & Hl & E)].
    { exists d. split; [rewrite Eo; cbn; by rewrite Ht, Es|]. split; [done|]. split; [by rewrite E, Hp0|done]. }
    destruct (cell_fields d Hk Hd) as [[Ed E']|(Ed & Hl' & E')].
    { destruct (Assign_cell s Hs) as (v & Ev & Gv & Dv).
      assert (Assign o s d = Ok v) as Ev'.
      { rewrite <- Ev. rewrite Eo. cbn [Assign]. rewrite Ht. unfold clear_unless_len. rewrite Ed. cbn [vvals VNil].
        rewrite (proj2 (Nat.eqb_neq _ _)) by (destruct (vvals s); done). cbn [Clear]. by rewrite Ht, Ed. }
      exists v. split; [|split; [by apply good_cell|]].
      - rewrite Eo in Ev' |- *. rewrite <- Ev'. cbn [Add]. rewrite Ht, Ed. by destruct (vvals s).
      - split; [|done]. rewrite Dv, E', num_plus_comm. by rewrite Hp0. }
    destruct (cell_result (num_plus (num_den o ks s) (num_den o ks d)) Hk) as (v & Ev & Gv & Dv);
      [unfold num_plus; rewrite length_zip_with; lia|apply num_plus_ok|].
    exists v. split; [|split; [done|split; [done|]]].
    2: { intros _. rewrite <- Ev. apply ints_good; [done|unfold num_plus; rewrite length_zip_with; lia|apply num_plus_ok]. } rewrite <- Ev, num_plus_comm, E, E'. rewrite Eo. cbn [Add]. rewrite Ht.
    destruct (vvals s) as [|w0 l0] eqn:Evs; [done|]. destruct (vvals d) as [|w1 l1] eqn:Evd; [done|].
    rewrite <- Evs, <- Evd in *. rewrite (loop_map_ints _ _ (fun '(sv, dv) => s64 (vi dv + vi sv))).
    + cbn [mbind res_bind]. rewrite (map_zip_vi (fun a b => s64 (b + a))). do 3 f_equal.
      unfold num_plus. generalize (map vi (vvals s)) (map vi (vvals d)). clear. intros l.
      induction l as [|a l IH]; intros [|b l']; try done. cbn. f_equal. apply IH.
    + rewrite !map_map. apply Forall_map. eapply Forall_impl; [exact Hks|]. intros k Hk' [sv dv].
      by destruct (num_kind _ Hk') as [-> | ->].
    + rewrite !length_map, length_zip_with. lia.
  - exists (VInt (s64 (vi d + vi s))). rewrite !scalar_den by done.
    split; [|split; [apply scalar_cell; [done|apply s64_range]|split]].
    + destruct (scalar_kind Hk) as (t & -> & _ & Hk'). cbn. by destruct (num_kind _ Hk') as [-> | ->].
    + cbn. f_equal. f_equal. lia.
    + intros _. unfold num_good. rewrite bool_decide_eq_false_2 by done. eexists. split; [done|apply s64_range].
Qed.

Lemma cell_negate s d : num_cell s -> num_cell d -> exists v,
  Negate o s d = Ok v /\ num_cell v /\ num_den o ks v = num_opp (num_den o ks s).
Proof.
  intros Hs Hd. destruct (decide (ops_kind o = TUPLE)) as [Hk|Hk].
  - destruct (clear_unless_cell s d Hk Hs Hd) as (d' & Ec & Hd' & Hn & Hd1).
    destruct (tuple_kind Hk) as (t & Eo & Ht & Hks).
    destruct (cell_fields s Hk Hs) as [[Es E]|(Es & Hl & E)].
    + exists d'. split; [|split; [done|]].
      * rewrite Eo in Ec |- *. cbn [Negate]. rewrite Ht, Ec. cbn [mbind res_bind]. by rewrite Es.
      * rewrite E. destruct (cell_fields d' Hk Hd') as [[_ ->]|(Hne & _)]; [|by rewrite Hn in Hne].
        unfold num_opp, num_zero. by rewrite map_map.
    + destruct (cell_result (num_opp (map vi (vvals s))) Hk) as (v & Ev & Gv & Dv);
        [unfold num_opp; by rewrite !length_map|apply num_opp_ok|].
      exists v. rewrite E. split; [|by split]. rewrite <- Ev.
      assert (vvals d' = [] \/ length (vvals d') = length (vvals s)) as D1.
      { destruct (Hd1 Es) as [[H _]|[Hne ->]]; [by left|].
        destruct (cell_fields d Hk Hd) as [[H _]|(_ & H & _)]; [by left|right; congruence]. }
      destruct (alloc_eq_cell (length (vvals s)) (vvals d') D1) as (ds & Ed & Lds & _).
      rewrite Eo in Ec |- *. cbn [Negate]. rewrite Ht, Ec. cbn [mbind res_bind].
      destruct (vvals s) as [|w0 l0] eqn:Evs; [done|]. rewrite <- Evs in *. rewrite Ed. cbn [mbind res_bind].
      rewrite (bool_decide_eq_false_2 (TUPLE = MAP)) by done. cbn [negb orb check mbind res_bind].
      rewrite (loop_map_ints _ _ (fun '(_, (sv, _)) => s64 (- vi sv))).
      * cbn [mbind res_bind]. do 3 f_equal. unfold num_opp. clear -Lds. revert ds Lds. generalize (vvals s). generalize 0%nat.
        intros n l. revert n. induction l as [|a l IH]; intros n [|b ds] Hl; try done.
        cbn. f_equal. apply IH. by injection Hl.
      * rewrite map_map. apply Forall_map. eapply Forall_impl; [exact Hks|]. intros k Hk' [i [sv dv]].
        rewrite andb_false_r. by destruct (num_kind _ Hk') as [-> | ->].
      * rewrite !length_map, !length_zip_with, length_seq. lia.
  - exists (VInt (s64 (- vi s))). rewrite !scalar_den by done.
    split; [|split; [apply scalar_cell; [done|apply s64_range]|done]].
    destruct (scalar_kind Hk) as (t & -> & _ & Hk'). cbn. by destruct (num_kind _ Hk') as [-> | ->].
Qed.

Lemma cell_sub s d : num_cell s -> num_cell d -> exists v,
  Sub o s d = Ok v /\ num_cell v /\ num_den o ks v = num_minus (num_den o ks d) (num_den o ks s).
Proof.
  intros Hs Hd. destruct (cell_den s Hs) as [Zs Ls], (cell_den d Hd) as [Zd Ld].
  destruct (decide (ops_kind o = TUPLE)) as [Hk|Hk].
  - destruct (tuple_kind Hk) as (t & Eo & Ht & Hks).
    destruct (cell_fields s Hk Hs) as [[Es E]|(Es & Hl & E)].
    { exists d. split; [rewrite Eo; cbn; by rewrite Ht, Es|]. split; [done|]. by rewrite E, num_minus_zero_r. }
    destruct (cell_fields d Hk Hd) as [[Ed E']|(Ed & Hl' & E')].
    { destruct (cell_negate s d Hs Hd) as (v & Ev & Gv & Dv). exists v. split; [|split; [done|]].
      - rewrite Eo in Ev |- *. rewrite <- Ev. cbn [Sub]. rewrite Ht, Ed. by destruct (vvals s).
      - by rewrite Dv, E', num_minus_zero. }
    destruct (cell_result (num_minus (num_den o ks d) (num_den o ks s)) Hk) as (v & Ev & Gv & Dv);
      [unfold num_minus; rewrite length_zip_with; lia|apply num_minus_ok|].
    exists v. split; [|by split]. rewrite <- Ev, E, E'. rewrite Eo. cbn [Sub]. rewrite Ht.
    destruct (vvals s) as [|w0 l0] eqn:Evs; [done|]. destruct (vvals d) as [|w1 l1] eqn:Evd; [done|].
    rewrite <- Evs, <- Evd in *. rewrite (loop_map_ints _ _ (fun '(sv, dv) => s64 (vi dv - vi sv))).
    + cbn [mbind res_bind]. rewrite (map_zip_vi (fun a b => s64 (b - a))). do 3 f_equal.
      unfold num_minus. generalize (map vi (vvals s)) (map vi (vvals d)). clear. intros l.
      induction l as [|a l IH]; intros [|b l']; try done. cbn. f_equal. apply IH.
    + rewrite !map_map. apply Forall_map. eapply Forall_impl; [exact Hks|]. intros k Hk' [sv dv].
      by destruct (num_kind _ Hk') as [-> | ->].
    + rewrite !length_map, length_zip_with. lia.
  - exists (VInt (s64 (vi d - vi s))). rewrite !scalar_den by done.
    split; [|split; [apply scalar_cell; [done|apply s64_range]|done]].
    destruct (scalar_kind Hk) as (t & -> & _ & Hk'). cbn. by destruct (num_kind _ Hk') as [-> | ->].
Qed.
(** The component of a value at a position. *)
Definition num_at (v : SzlValue) (pos : nat) : Z := nth pos (num_den o ks v) 0.

Lemma num_zero_at (ks' : list Kind) pos : nth pos (num_zero ks') 0 = 0.
Proof. revert pos. induction ks' as [|k ks' IH]; intros [|pos]; try done. apply IH. Qed.

Lemma cell_nth v pos : ops_kind o = TUPLE -> num_cell v -> vi (nth pos (vvals v) VNil) = num_at v pos.
Proof.
  intros Hk Hv. unfold num_at. destruct (cell_fields v Hk Hv) as [[-> ->]|(_ & _ & ->)].
  - rewrite num_zero_at. by destruct pos.
  - change 0 with (vi VNil) at 1. by rewrite map_nth.
Qed.

Lemma LessAtPos_cell a b pos :
  Forall (eq INT) ks -> (pos < length ks)%nat -> num_cell a -> num_cell b ->
  LessAtPos o a pos b = Ok (num_at a pos <? num_at b pos).
Proof.
  intros Hint Hpos Ha Hb. unfold LessAtPos. destruct (decide (ops_kind o = TUPLE)) as [Hk|Hk].
  - rewrite bool_decide_eq_true_2 by done. cbn [negb].
    assert (flats_ o !! pos = Some INT) as ->.
    { destruct (tuple_kind Hk) as (t & -> & _ & _). unfold flats_. cbn [cells_]. rewrite map_map. cbn. rewrite map_id.
      destruct (lookup_lt_is_Some_2 ks pos Hpos) as [k E]. rewrite E. f_equal.
      symmetry. exact (Forall_lookup_1 _ _ _ _ Hint E). }
    cbn [BaseKind negb bool_decide]. rewrite <- !cell_nth by done.
    destruct (cell_fields a Hk Ha) as [[Ea _]|(Ea & _)], (cell_fields b Hk Hb) as [[Eb _]|(Eb & _)];
      rewrite ?Ea, ?Eb.
    + by destruct pos.
    + destruct (vvals b); [done|]. by destruct pos.
    + destruct (vvals a); [done|]. by destruct pos.
    + destruct (vvals a); [done|]. by destruct (vvals b).
  - rewrite bool_decide_eq_false_2 by done. cbn [negb].
    destruct (scalar_kind Hk) as (t & Eo & Ek & _). unfold num_at. rewrite !scalar_den by done.
    assert (pos = 0%nat) as -> by (rewrite Ek in Hpos; cbn in Hpos; lia). cbn [nth].
    assert (kind_ t = INT) as Hi by (rewrite Ek in Hint; by apply Forall_inv in Hint).
    rewrite Eo. unfold Less. cbn. rewrite Hi. cbn. unfold CmpBaseT.
    destruct (vi a <? vi b); [done|]. by destruct (vi b <? vi a).
Qed.

Lemma map_lookup_nth (l : list Z) i : (i < length l)%nat -> l !! i = Some (nth i l 0).
Proof. revert i. induction l as [|x l IH]; intros [|i] Hi; cbn in *; try lia; [done|]. apply IH. lia. Qed.

Definition assign_if (pos : nat) : Kind * option SzlOps -> Z * (SzlValue * SzlValue) -> res SzlValue :=
  fun c '(i, (sv, dv)) =>
    if (Z.of_nat pos <=? i) && (i <? Z.of_nat pos + 1) then assign_cell c sv dv else Ok dv.

Lemma assign_if_loop all cur svals dvals pos i0 :
  Forall (fun k => k ∈ [INT; TIME]) cur -> length svals = length cur -> length dvals = length cur -> exists vals,
    loop_map (map (assign_if pos) all) (map (assign_if pos) (map (fun k => (k, None)) cur))
      (zip (seqZ (Z.of_nat i0) (Z.of_nat (length svals))) (zip svals dvals)) = Ok vals
    /\ length vals = length cur
    /\ map vi vals = if (i0 <=? pos)%nat then <[(pos - i0)%nat := nth (pos - i0) (map vi svals) 0]> (map vi dvals)
                     else map vi dvals.
Proof.
  intros Hc. revert svals dvals i0. induction Hc as [|k cur Hk Hc IH]; intros [|sv svals] [|dv dvals] i0 Hs Hd; try done.
  { exists []. split; [done|]. split; [done|]. cbn. by destruct (i0 <=? pos)%nat, (pos - i0)%nat. }
  cbn [length map]. rewrite Nat2Z.inj_succ, seqZ_cons by lia. rewrite Z.pred_succ.
  cbn [zip_with loop_map next_cell]. replace (Z.succ (Z.of_nat i0)) with (Z.of_nat (S i0)) by lia.
  destruct (IH svals dvals (S i0)) as (vals & E & L & M); [by injection Hs|by injection Hd|].
  assert (exists w, assign_if pos (k, None) (Z.of_nat i0, (sv, dv)) = Ok w
          /\ vi w = if (i0 =? pos)%nat then vi sv else vi dv) as (w & -> & Ew).
  { unfold assign_if. destruct (Nat.eqb_spec i0 pos) as [->|Hne].
    - rewrite (proj2 (Z.leb_le _ _)), (proj2 (Z.ltb_lt _ _)) by lia. cbn [andb assign_cell]. exists (VInt (vi sv)).
      by destruct (num_kind _ Hk) as [-> | ->].
    - exists dv. split; [|done]. destruct (Z.leb_spec (Z.of_nat pos) (Z.of_nat i0)); [|done].
      by rewrite (proj2 (Z.ltb_ge _ _)) by lia. }
  cbn [mbind res_bind]. rewrite E. exists (w :: vals). split; [done|]. split; [cbn; by rewrite L|].
  cbn [map]. rewrite Ew, M. destruct (Nat.eqb_spec i0 pos) as [->|Hne].
  - rewrite Nat.leb_refl, Nat.sub_diag. by rewrite (proj2 (Nat.leb_gt _ _)) by lia.
  - destruct (Nat.leb_spec i0 pos) as [Hle|Hlt].
    + rewrite (proj2 (Nat.leb_le (S i0) pos)) by lia. replace (pos - i0)%nat with (S (pos - S i0)) by lia. done.
    + by rewrite (proj2 (Nat.leb_gt (S i0) pos)) by lia.
Qed.

(** Assigning one component keeps the others, but an empty source clears them all. *)
Lemma AssignAtPos_cell s pos d :
  (pos < length ks)%nat -> num_cell s -> num_cell d -> exists v,
    AssignAtPos o s (Z.of_nat pos) d = Ok v /\ num_cell v
    /\ num_den o ks v = if bool_decide (ops_kind o = TUPLE /\ vvals s = []) then num_zero ks
                        else <[pos := num_at s pos]> (num_den o ks d).
Proof.
  intros Hpos Hs Hd. unfold AssignAtPos, AssignRange. destruct (decide (ops_kind o = TUPLE)) as [Hk|Hk].
  - rewrite Hk. destruct (clear_unless_cell s d Hk Hs Hd) as (d' & -> & Hd' & Hn & Hd1). cbn [mbind res_bind].
    destruct (cell_fields s Hk Hs) as [[Es E]|(Es & Hl & E)].
    { rewrite Es, (bool_decide_eq_true_2 (TUPLE = TUPLE /\ _)) by done. exists d'. split; [done|]. split; [done|].
      destruct (cell_fields d' Hk Hd') as [[_ ->]|(Hne & _)]; [done|by rewrite Hn in Hne]. }
    rewrite (bool_decide_eq_false_2 (TUPLE = TUPLE /\ _)) by (by intros [_ ?]).
    assert (nflats_ o = length ks) as Hf.
    { destruct (tuple_kind Hk) as (t & -> & _). unfold nflats_. cbn. apply length_map. }
    assert (vvals d' = [] \/ length (vvals d') = length (vvals s)) as D1.
    { destruct (Hd1 Es) as [[H _]|[Hne ->]]; [by left|].
      destruct (cell_fields d Hk Hd) as [[H _]|(_ & H & _)]; [by left|right; congruence]. }
    destruct (alloc_eq_cell (length (vvals s)) (vvals d') D1) as (ds & Ed & Lds & Fd & Nd).
    assert (map vi ds = num_den o ks d) as Dds.
    { destruct (Hd1 Es) as [[H Hd0]|[Hne ->]].
      - rewrite Nd by done. destruct (cell_fields d Hk Hd) as [[_ ->]|(Hne & _)]; [|done].
        rewrite Hl. unfold num_zero. clear. induction ks as [|k l IH]; [done|]. cbn. by f_equal.
      - rewrite Fd by done. by destruct (cell_fields d Hk Hd) as [[H _]|(_ & _ & ->)]. }
    destruct (vvals s) as [|w0 l0] eqn:Evs; [done|]. rewrite <- Evs in *.
    rewrite Hf, (proj2 (Nat.eqb_eq _ _)) by done. rewrite orb_true_r. cbn [check mbind res_bind].
    rewrite (proj2 (Z.leb_le 0 _)), (proj2 (Z.leb_le _ (Z.of_nat (length (vvals s))))),
      (proj2 (Z.leb_le (Z.of_nat pos) _)) by lia. cbn [andb check mbind res_bind]. rewrite Ed. cbn [mbind res_bind].
    set (zs := <[pos := num_at s pos]> (num_den o ks d)).
    destruct (cell_den d Hd) as [Zd Ld]. destruct (cell_den s Hs) as [Zs Ls].
    assert (Forall is_s64 zs) as Zz.
    { apply Forall_insert; [done|]. unfold num_at.
      apply (Forall_lookup_1 _ _ pos _ Zs). apply map_lookup_nth. lia. }
    destruct (tuple_kind Hk) as (t & Eo & _ & Hks).
    destruct (assign_if_loop (cells_ o) ks (vvals s) ds pos 0 Hks) as (vals & Ev & Lv & Mv); [done|congruence|].
    rewrite Nat.sub_0_r, <- E, Dds in Mv. cbn [Nat.leb] in Mv. fold (num_at s pos) zs in Mv.
    assert (cells_ o = map (fun k => (k, None)) ks) as Ecells by (by rewrite Eo).
    rewrite <- Ecells in Ev. change (Z.of_nat 0) with 0 in Ev. unfold assign_if at 1 2 in Ev.
    rewrite Ev. exists (VVals vals). split; [done|]. unfold num_cell, num_den. rewrite !bool_decide_eq_true_2 by done.
    cbn [vvals]. split.
    + split; [by right|]. by apply Forall_map; rewrite Mv.
    + destruct vals as [|v0 vals]; [|done]. cbn in Mv. rewrite <- Mv. cbn in Lv. by destruct ks.
  - rewrite (bool_decide_eq_false_2 (ops_kind o = TUPLE /\ _)) by tauto. destruct (scalar_kind Hk) as (t & Eo & Ek & Hk').
    assert (pos = 0%nat) as -> by (rewrite Ek in Hpos; cbn in Hpos; lia).
    exists (VInt (vi s)). split; [|split].
    + rewrite Eo. unfold ops_kind. cbn. destruct (num_kind _ Hk') as [-> | ->]; done.
    + apply scalar_cell; [done|]. unfold num_cell in Hs. by rewrite (bool_decide_eq_false_2 _ Hk) in Hs.
    + unfold num_at. by rewrite !scalar_den.
Qed.
(** Components of the results. *)
Lemma nth_zip_with (f : Z -> Z -> Z) a b j :
  f 0 0 = 0 -> length a = length b -> nth j (zip_with f a b) 0 = f (nth j a 0) (nth j b 0).
Proof.
  intros Hf. revert b j. induction a as [|x a IH]; intros [|y b] [|j] Hl; try done.
  cbn. apply IH. by injection Hl.
Qed.

Lemma num_at_range v j : num_cell v -> is_s64 (num_at v j).
Proof.
  intros Hv. destruct (cell_den v Hv) as [H _]. unfold num_at.
  destruct (nth_in_or_default j (num_den o ks v) 0) as [Hin| ->]; [|unfold is_s64; lia].
  by apply (proj1 (List.Forall_forall _ _) H).
Qed.

Lemma num_at_VNil j : num_at VNil j = 0.
Proof.
  unfold num_at. destruct (decide (ops_kind o = TUPLE)) as [Hk|Hk].
  - unfold num_den. rewrite bool_decide_eq_true_2 by done. apply num_zero_at.
  - rewrite scalar_den by done. by destruct j as [|[|j]].
Qed.

Lemma add_at s d : num_cell s -> num_cell d -> exists v,
  Add o s d = Ok v /\ num_cell v /\ (forall j, num_at v j = s64 (num_at d j + num_at s j))
  /\ (num_good o ks d -> num_good o ks v).
Proof.
  intros Hs Hd. destruct (cell_add s d Hs Hd) as (v & E & Hv & Dv & Gv). exists v. split; [done|]. split; [done|].
  split; [|done]. intros j. unfold num_at. rewrite Dv. unfold num_plus. destruct (cell_den s Hs), (cell_den d Hd).
  rewrite (nth_zip_with (fun x y => s64 (x + y))) by (done || congruence). f_equal. lia.
Qed.

Lemma sub_at s d : num_cell s -> num_cell d -> exists v,
  Sub o s d = Ok v /\ num_cell v /\ forall j, num_at v j = s64 (num_at d j - num_at s j).
Proof.
  intros Hs Hd. destruct (cell_sub s d Hs Hd) as (v & E & Hv & Dv). exists v. split; [done|]. split; [done|].
  intros j. unfold num_at. rewrite Dv. unfold num_minus. destruct (cell_den s Hs), (cell_den d Hd).
  by rewrite (nth_zip_with (fun x y => s64 (x - y))) by (done || congruence).
Qed.

Lemma negate_at s d : num_cell s -> num_cell d -> exists v,
  Negate o s d = Ok v /\ num_cell v /\ forall j, num_at v j = s64 (- num_at s j).
Proof.
  intros Hs Hd. destruct (cell_negate s d Hs Hd) as (v & E & Hv & Dv). exists v. split; [done|]. split; [done|].
  intros j. unfold num_at. rewrite Dv. unfold num_opp. change 0 with ((fun x => s64 (- x)) 0) at 1. by rewrite map_nth.
Qed.

(** The value with the same components whose fields are all set. *)
Definition canon (v : SzlValue) : SzlValue :=
  if bool_decide (ops_kind o = TUPLE) then VVals (map VInt (map vi (vvals v))) else VInt (vi v).

Lemma canon_good v : num_cell v -> num_good o ks (canon v) /\ num_den o ks (canon v) = num_den o ks v.
Proof.
  unfold num_cell, canon, num_good, num_den. case_bool_decide as Hk; [|by intros Hz; split; [eexists|]].
  intros [Hl Hz]. split.
  - eexists. split; [reflexivity|]. rewrite !length_map. split; [|].
    + destruct Hl as [->|Hl]; [by left|by right].
    + rewrite map_map. apply Forall_map. eapply Forall_impl; [exact Hz|]. intros w Hw. by eexists.
  - cbn [vvals]. destruct (vvals v) as [|w l]; [done|]. cbn [map vi]. f_equal. rewrite map_map. cbn. apply map_id.
Qed.

(** A loop that only looks at the integers of the values. *)
Lemma loop_fold_vi {B} (all cur : list (SzlValue -> B -> res B)) vs vs' b :
  Forall (fun f => forall v v' b, vi v = vi v' -> f v b = f v' b) all ->
  Forall (fun f => forall v v' b, vi v = vi v' -> f v b = f v' b) cur ->
  map vi vs = map vi vs' -> loop_fold all cur vs b = loop_fold all cur vs' b.
Proof.
  intros Ha. revert cur vs' b. induction vs as [|v vs IH]; intros cur [|v' vs'] b Hc Hv; try done.
  injection Hv as Hv Hvs. cbn [loop_fold].
  destruct (next_cell all cur) as [[f cur']|] eqn:En; [|done].
  assert ((forall v v' b, vi v = vi v' -> f v b = f v' b)
    /\ Forall (fun f => forall v v' b, vi v = vi v' -> f v b = f v' b) cur') as [Hf Hc'].
  { destruct cur as [|c cur]; cbn in En.
    - destruct all as [|a all]; [done|]. injection En as <- <-. by apply Forall_cons in Ha.
    - injection En as <- <-. by apply Forall_cons in Hc. }
  rewrite (Hf v v') by done. destruct (f v' b); [|done|done]. by apply IH.
Qed.

Lemma canon_vi v : map vi (vvals (VVals (map VInt (map vi (vvals v))))) = map vi (vvals v).
Proof. cbn. rewrite map_map. cbn. apply map_id. Qed.

Lemma canon_Encode v enc : Encode o (canon v) enc = Encode o v enc.
Proof.
  unfold canon, Encode. case_bool_decide as Hk.
  - destruct (tuple_kind Hk) as (t & -> & Ht & Hks). cbn [EncodeInternal]. rewrite Ht. cbn [mbind res_bind]. f_equal.
    cbn [vvals]. destruct (vvals v) as [|w l]; [done|]. apply loop_fold_vi.
    3: apply (canon_vi (VVals (w :: l))).
    all: rewrite map_map; apply Forall_map; eapply Forall_impl; [exact Hks|]; intros k Hk' a b e E;
      destruct (num_kind _ Hk') as [-> | ->]; cbn; by rewrite E.
  - destruct (scalar_kind Hk) as (t & -> & _ & Hk'). cbn. by destruct (num_kind _ Hk') as [-> | ->].
Qed.

Lemma cell_encode v enc : num_cell v -> Encode o v enc = Ok (AppendEncoding enc (num_code ks (num_den o ks v))).
Proof. intros Hv. destruct (canon_good v Hv) as [Gv Dv]. by rewrite <- canon_Encode, num_encode, Dv by done. Qed.

Lemma canon_Memory v : Memory o (canon v) = Memory o v.
Proof.
  unfold canon. case_bool_decide as Hk.
  - destruct (tuple_kind Hk) as (t & -> & Ht & Hks). cbn [Memory]. rewrite Ht. cbn [vvals]. rewrite !length_map.
    apply loop_fold_vi; [..|apply canon_vi].
    all: rewrite map_map; apply Forall_map; eapply Forall_impl; [exact Hks|]; intros k Hk' a b e E;
      destruct (num_kind _ Hk') as [-> | ->]; done.
  - destruct (scalar_kind Hk) as (t & -> & _ & Hk'). cbn. by destruct (num_kind _ Hk') as [-> | ->].
Qed.

Lemma cell_memory v : num_cell v -> exists m, Memory o v = Ok m.
Proof.
  intros Hv. rewrite <- canon_Memory. apply Memory_ok; [apply num_ops_ok|]. by apply num_val_ok, canon_good.
Qed.

(** What a decoder makes of the encoding of a cell. *)
Lemma cell_codec v : num_cell v ->
  bytes_ok (num_code ks (num_den o ks v))
  /\ (forall s rest, bytes_ok rest ->
       ops_Skip o (MkDec s (num_code ks (num_den o ks v) ++ rest)) = Some (MkDec s rest))
  /\ (forall s rest d, bytes_ok rest -> num_cell d -> exists w,
       Decode o (MkDec s (num_code ks (num_den o ks v) ++ rest)) d = Ok (MkDec s rest, w)
       /\ num_good o ks w /\ num_den o ks w = num_den o ks v).
Proof.
  intros Hv. destruct (canon_good v Hv) as [Gv Dv]. rewrite <- Dv.
  pose proof (num_val_ok _ Gv) as Hval. pose proof (num_enc_ok _ Gv) as Henc0.
  destruct (ops_codec_all o num_ops_ok true (canon v) Hval Henc0) as (b & Hb & _ & Henc & Hskip & Hdec).
  assert (num_code ks (num_den o ks (canon v)) = b) as ->.
  { pose proof (num_encode _ enc_new Gv) as E. unfold Encode in E. rewrite Henc in E. by injection E. }
  split; [done|]. split; [exact Hskip|]. intros s rest d Hr Hd. exists (norm_val o (canon v)).
  split; [apply Hdec; [done|by apply cell_dest]|]. by apply num_norm.
Qed.

(** *** Decoding arbitrary bytes *)

(** Skipping and decoding a number, side by side. *)
Lemma num_decode_base k s q w : k ∈ [INT; TIME] -> bytes_ok q ->
  match Decoder.Skip (MkDec s q) k with
  | None => SzlOpsDoDecode k (MkDec s q) w = None
  | Some d => exists z q', d = MkDec s q' /\ is_s64 z /\ q' `suffix_of` q /\ SzlOpsDoDecode k (MkDec s q) w = Some (d, VInt z)
  end.
Proof.
  intros Hk Hq. assert (k ∈ basic_kinds) as Hb by (destruct (num_kind _ Hk) as [-> | ->]; by apply (bool_decide_unpack _)).
  rewrite Skip_agrees by done. destruct (get_prim k (MkDec s q)) as [[p d]|] eqn:E; cbn [fmap option_fmap option_map snd].
  - destruct (get_prim_ok k s q p d Hq E) as (Hp & _ & q' & -> & Hs & _).
    destruct (num_kind _ Hk) as [-> | ->]; cbn [get_prim] in E; apply bind_pair_inv in E as (v & E & ->);
      [exists v, q'|exists (s64 v), q']; cbn [SzlOpsDoDecode]; rewrite E; split_and!; done || apply s64_range.
  - destruct (num_kind _ Hk) as [-> | ->]; cbn [get_prim] in E; cbn [SzlOpsDoDecode]; [destruct (GetInt _) as [[? ?]|]|destruct (GetTime _) as [[? ?]|]]; done.
Qed.

Definition dec_base_cell (c : Kind * option SzlOps) : SzlValue -> SzlDecoder * list SzlValue -> res (SzlDecoder * list SzlValue) :=
  let '(k, sub) := c in fun v '(dec, done) =>
    '(dec, v) ← match sub with
                | Some sub => DecodeInternal sub dec v false
                | None => of_opt (SzlOpsDoDecode k dec v)
                end;
    Ok (dec, done ++ [v]).
Definition skip_base_cell (c : Kind * option SzlOps) : SzlDecoder -> option SzlDecoder :=
  let '(k, sub) := c in fun dec =>
    match sub with Some sub => SkipInternal sub dec false | None => Decoder.Skip dec k end.

Lemma num_decode_loop all cur vals s q acc :
  Forall (fun k => k ∈ [INT; TIME]) cur -> length vals = length cur -> bytes_ok q ->
  match foldl (fun r f => dec ← r; f dec) (Some (MkDec s q)) (map skip_base_cell (map (fun k => (k, None)) cur)) with
  | None => loop_fold (map dec_base_cell all) (map dec_base_cell (map (fun k => (k, None)) cur)) vals (MkDec s q, acc) = Fail
  | Some d => exists zs q', d = MkDec s q' /\ q' `suffix_of` q /\ length zs = length cur /\ Forall is_s64 zs
      /\ loop_fold (map dec_base_cell all) (map dec_base_cell (map (fun k => (k, None)) cur)) vals (MkDec s q, acc)
         = Ok (d, acc ++ map VInt zs)
  end.
Proof.
  intros Hc. revert vals q acc. induction Hc as [|k cur Hk Hc IH]; intros [|v vals] q acc Hl Hq; try done.
  { exists [], q. cbn. by rewrite app_nil_r. }
  injection Hl as Hl. cbn [map foldl loop_fold next_cell dec_base_cell skip_base_cell mbind option_bind].
  pose proof (num_decode_base k s q v Hk Hq) as H. destruct (Decoder.Skip (MkDec s q) k) as [d|].
  - destruct H as (z & q' & -> & Hz & Hs & E). rewrite E. cbn [of_opt mbind res_bind].
    specialize (IH vals q' (acc ++ [VInt z]) Hl (suffix_bytes_ok _ _ Hs Hq)).
    destruct (foldl _ (Some (MkDec s q')) _) as [d'|]; [|exact IH].
    destruct IH as (zs & q2 & -> & Hs2 & L & Hzs & E2). exists (z :: zs), q2. split; [done|]. split; [by transitivity q'|].
    split; [cbn; by rewrite L|]. split; [by constructor|]. rewrite E2. cbn [map]. by rewrite <- app_assoc.
  - rewrite H. cbn [of_opt mbind res_bind].
    assert (forall fs : list (SzlDecoder -> option SzlDecoder), foldl (fun r f => dec ← r; f dec) None fs = None) as ->; [|done].
    intros fs. by induction fs.
Qed.

(** What skipping accepts is what decoding accepts: a value of the type. *)
Lemma num_decode_any s q d : bytes_ok q -> num_cell d ->
  match ops_Skip o (MkDec s q) with
  | None => Decode o (MkDec s q) d = Fail
  | Some dec => exists q' v, dec = MkDec s q' /\ q' `suffix_of` q /\ num_good o ks v /\ Decode o (MkDec s q) d = Ok (dec, v)
  end.
Proof.
  intros Hq Hd. destruct (decide (ops_kind o = TUPLE)) as [Hk|Hk].
  - assert (length (alloc (length ks) (vvals d)) = length ks) as Hl.
    { unfold num_cell in Hd. rewrite bool_decide_eq_true_2 in Hd by done. destruct Hd as [[->|Hl] _]; [apply length_replicate|].
      destruct (vvals d); [apply length_replicate|done]. }
    pose proof (fun zs => ints_good zs Hk) as Hgood.
    destruct (tuple_kind Hk) as (t & Eo & Et & Hks). rewrite Eo in Hgood. rewrite Eo.
    pose proof (num_decode_loop (map (fun k => (k, None)) ks) ks _ s q [] Hks Hl Hq) as H.
    unfold ops_Skip, Decode. cbn [SkipInternal DecodeInternal]. rewrite Et, length_map.
    fold skip_base_cell dec_base_cell. cbn [mbind option_bind res_bind].
    destruct (foldl _ _ _) as [dec|].
    + destruct H as (zs & q' & -> & Hs & L & Hzs & E). cbn [mbind option_bind]. exists q', (VVals (map VInt zs)).
      split; [done|]. split; [done|]. split; [by apply Hgood|]. rewrite E. done.
    + cbn [mbind option_bind]. rewrite H. done.
  - assert (forall z, is_s64 z -> num_good o ks (VInt z)) as Hgood.
    { intros z Hz. unfold num_good. rewrite bool_decide_eq_false_2 by done. by exists z. }
    destruct (scalar_kind Hk) as (t & Eo & Ek & Hkt). rewrite Eo in Hgood. rewrite Eo.
    pose proof (num_decode_base (kind_ t) s q d Hkt Hq) as H.
    assert (ops_Skip (MkOps t [(kind_ t, None)]) (MkDec s q) = Decoder.Skip (MkDec s q) (kind_ t)) as ->
      by (unfold ops_Skip; cbn [SkipInternal]; by destruct (num_kind _ Hkt) as [-> | ->]).
    assert (Decode (MkOps t [(kind_ t, None)]) (MkDec s q) d = of_opt (SzlOpsDoDecode (kind_ t) (MkDec s q) d)) as ->
      by (unfold Decode; cbn [DecodeInternal]; by destruct (num_kind _ Hkt) as [-> | ->]).
    destruct (Decoder.Skip _ _) as [dec|].
    + destruct H as (z & q' & -> & Hz & Hs & ->). exists q', (VInt z). split; [done|]. split; [done|]. split; [by apply Hgood|done].
    + by rewrite H.
Qed.
End Numbers.

(** Numbers and tuples of numbers can be summed in any order. *)
Lemma num_summable o ks :
  num_ops o ks -> Summable o (num_zero ks) num_plus (num_code ks) (num_good o ks) (num_den o ks).
Proof.
  intros Ho. pose proof (num_ops_ok o ks Ho) as Hok. split.
  - exact num_plus_assoc.
  - exact num_plus_comm.
  - intros v Hv. destruct (num_den_ok o ks Ho v Hv) as [H1 H2]. by apply num_plus_zero.
  - intros v. by apply num_zero_spec.
  - intros v Hv. destruct (Clear_ok o v Hok) as (z & E & _); [by apply (num_dest o ks Ho); right|by exists z].
  - intros v Hv. apply Memory_ok; [done|by apply (num_val_ok o ks)].
  - intros s d Hs Hd. apply Assign_copies; [done|by apply (num_val_ok o ks)|].
    destruct Hd as [->|Hd]; [by left|right; by apply (num_val_ok o ks)].
  - by apply num_add.
  - intros v Hv. apply (num_codec o ks Ho v Hv).
  - intros v enc Hv. by apply num_encode.
  - intros v d s rest Hv Hd Hr. exists (norm_val o v). destruct (num_norm o ks Ho v Hv).
    split; [by apply (num_codec o ks Ho v Hv)|done].
  - intros v s rest Hv Hr. by apply (num_codec o ks Ho v Hv).
Qed.

Definition pair_type : SzlType := AddField (AddField (kind_type TUPLE) "n" (kind_type INT)) "t" (kind_type TIME).
Definition pair_ops : SzlOps := MkOps pair_type [(INT, None); (TIME, None)].
Lemma pair_num_ops : num_ops pair_ops [INT; TIME].
Proof. apply (num_tuple pair_type [INT; TIME]); [done|]. repeat constructor. Qed.

Definition int_ops : SzlOps := MkOps (kind_type INT) [(INT, None)].

Lemma int_ops_ok : ops_ok int_ops.
Proof. by apply ok_base, basic_kind_in. Qed.
Lemma int_num_ops : num_ops int_ops [INT].
Proof. apply (num_base (kind_type INT)). by apply (bool_decide_unpack _). Qed.
Lemma int_cell z : is_s64 z -> num_cell int_ops [INT] (VInt z).
Proof. by apply scalar_cell. Qed.

(** Numbers and tuples of numbers can be compared. *)
Lemma num_weight_ok o ks v : num_ops o ks -> num_good o ks v -> cmp_ok o (Some v).
Proof.
  intros Ho Hv. split; [by apply (num_val_ok o ks)|].
  destruct Ho as [t Hk|t ks' Hk Hks]; cbn [nan_free].
  - by destruct (num_kind _ Hk) as [E|E]; rewrite E.
  - rewrite Hk. unfold num_good, ops_kind in Hv. cbn [type_] in Hv. rewrite bool_decide_eq_true_2 in Hv by done.
    destruct Hv as (vals & -> & Hl & _). cbn [vvals].
    apply (loop_all_kinds (fun '(k, sub) v => match sub with
      | Some sub => nan_free sub v | None => k = FLOAT -> is_nan (vf v) = false end) (fun k => k ∈ [INT; TIME])); try done.
    + intros k v Hk' ->. by apply num_kind in Hk' as [|].
    + destruct Hl as [->|Hl]; cbn; lia.
Qed.
