(* ===== verification/Heap.v ===== *)
(** * SzlHeap: the biggest (or smallest) weighted elements

    Models src/src/emitters/szlheap.cc and szlheap.h.  The heap is a list of
    elements, smallest first, at most [maxElems_] of them; the comparison is the
    virtual [SzlValueCmp::Cmp] of public/szlvalue.h, an argument [less] of every
    operation, with the two implementations of emitvalues/szlvalue.cc.

    The assertions of the code ([assert], off in production builds) are not
    operations of the model; the theorems show that they hold. *)
From Stdlib Require Import ZArith Lia ZifyNat.
From stdpp Require Import prelude sorting.
From S2P Require Import Prelude SzlType Codec SzlValue ValueCodec ValueOrder ValueAdd Numbers.

Ltac Zify.zify_post_hook ::= Z.div_mod_to_equations.

(** ** Comparisons *)

(** A comparison of weights.  [ops_->Less] aborts only on a type with no order
    ([less_defined] below), which the tables that use a heap refuse. *)
Abbreviation SzlValueCmp := (SzlValue -> SzlValue -> bool).

(* @src src/src/emitvalues/szlvalue.cc 34-36 SzlValueLess::Cmp *)
Definition SzlValueLess (ops : SzlOps) : SzlValueCmp := fun v1 v2 =>
  match Less ops v1 v2 with Ok b => b | _ => false end.

(* @src src/src/emitvalues/szlvalue.cc 41-43 SzlValueGreater::Cmp *)
Definition SzlValueGreater (ops : SzlOps) : SzlValueCmp := fun v1 v2 =>
  match Less ops v2 v1 with Ok b => b | _ => false end.

(** ** Data *)

(** Elements over any type of value: the heap of the top table
    ([SzlTopHeap]) orders pointers in the same way. *)
(* @src src/src/emitters/szlheap.h 26-29 SzlHeap::Elem *)
Record ElemOf (V : Type) : Type := MkElem { value : V; weight : SzlValue }.
Arguments MkElem {V} _ _.
Arguments value {V} _.
Arguments weight {V} _.

Abbreviation Elem := (ElemOf bytes).

#[export] Instance ElemOf_inhabited {V} `{Inhabited V} : Inhabited (ElemOf V) := populate (MkElem inhabitant VNil).

(** The list and the bound; the operations object and the comparison are fixed
    at construction and passed to the operations. *)
(* @src src/src/emitters/szlheap.h 71-88 SzlHeap (data members) *)
Record SzlHeap : Type := MkHeap { heap_ : list Elem; maxElems_ : Z }.

(* @src src/src/emitters/szlheap.cc 32-37 SzlHeap::SzlHeap *)
Definition heap_new (maxElems : Z) : SzlHeap := MkHeap [] maxElems.

(* @src src/src/emitters/szlheap.h 38-38 SzlHeap::nElems *)
Definition nElems (hp : SzlHeap) : Z := Z.of_nat (length (heap_ hp)).

(* @src src/src/emitters/szlheap.cc 44-50 SzlHeap::Clear *)
Definition heap_Clear (hp : SzlHeap) : SzlHeap := MkHeap [] (maxElems_ hp).

Definition swap {A} `{Inhabited A} (i j : nat) (l : list A) : list A := <[j := l !!! i]> (<[i := l !!! j]> l).

(** [(h - 1) >> 1], for [h] above 0. *)
Definition parent (h : nat) : nat := (h - 1) / 2.

Section Moves.
Context {V : Type} `{IV : !Inhabited V} (less : SzlValueCmp).
Implicit Types (l : list (ElemOf V)) (e : ElemOf V).

(** ** Moving one element *)

(** The hole moves up from [h]; [h] rounds are enough. *)
(* @src src/src/emitters/szlheap.cc 113-123 SzlHeap::FixHeapUp *)
Fixpoint fix_up (fuel : nat) (l : list (ElemOf V)) (h : nat) (e : ElemOf V) : list (ElemOf V) :=
  match fuel with
  | O => <[h := e]> l
  | S fuel =>
      if (h =? 0)%nat then <[h := e]> l
      else
        let pe := l !!! parent h in
        if negb (less (weight e) (weight pe)) then <[h := e]> l
        else fix_up fuel (<[h := pe]> l) (parent h) e
  end.

(* @src src/src/emitters/szlheap.cc 108-124 SzlHeap::FixHeapUp *)
Definition FixHeapUp (h : nat) (l : list (ElemOf V)) : list (ElemOf V) := fix_up h l h (l !!! h).

(** The smaller of two kids. *)
(* @src src/src/emitters/szlheap.cc 136-146 SzlHeap::FixHeapDown *)
Definition smaller_kid (l : list (ElemOf V)) (kid nheap : nat) : nat :=
  if (kid + 1 <? nheap)%nat && less (weight (l !!! (kid + 1)%nat)) (weight (l !!! kid))
  then (kid + 1)%nat else kid.

(** The hole moves down from [h]; [nheap - h] rounds are enough. *)
(* @src src/src/emitters/szlheap.cc 132-153 SzlHeap::FixHeapDown *)
Fixpoint fix_down (fuel : nat) (l : list (ElemOf V)) (h nheap : nat) (e : ElemOf V) : list (ElemOf V) :=
  match fuel with
  | O => l
  | S fuel =>
      let kid := (2 * h + 1)%nat in
      if (nheap <=? kid)%nat then <[h := e]> l
      else
        let kid := smaller_kid l kid nheap in
        let ke := l !!! kid in
        if less (weight e) (weight ke) then <[h := e]> l
        else fix_down fuel (<[h := ke]> l) kid nheap e
  end.

(* @src src/src/emitters/szlheap.cc 127-154 SzlHeap::FixHeapDown *)
Definition FixHeapDown (h nheap : nat) (l : list (ElemOf V)) : list (ElemOf V) :=
  fix_down (nheap - h) l h nheap (l !!! h).

(* @src src/src/emitters/szlheap.cc 160-168 SzlHeap::FixHeap *)
Definition FixHeap (h : nat) (l : list (ElemOf V)) : list (ElemOf V) :=
  if negb (h =? 0)%nat && less (weight (l !!! h)) (weight (l !!! parent h))
  then FixHeapUp h l else FixHeapDown h (length l) l.

(* @src src/src/emitters/szlheap.cc 171-180 SzlHeap::IsHeap *)
Definition IsHeap (l : list (ElemOf V)) : bool :=
  forallb (fun i => negb (less (weight (l !!! i)) (weight (l !!! parent i))))
    (seq 1 (length l - 1)).

(** ** Sorting *)

(** [ne] counts down; each round moves the smallest element of the front behind it. *)
(* @src src/src/emitters/szlheap.cc 87-92 SzlHeap::Sort *)
Fixpoint sort_loop (ne : nat) (l : list (ElemOf V)) : list (ElemOf V) :=
  match ne with
  | O => l
  | S ne => if (ne =? 0)%nat then l else sort_loop ne (FixHeapDown 0 ne (swap 0 ne l))
  end.

End Moves.

(** [for (i = 0; i < nswap; i++)] swaps the ends. *)
(* @src src/src/emitters/szlheap.cc 99-103 SzlHeap::ReHeap *)
Definition reheap_loop {A} `{Inhabited A} (l : list A) : list A :=
  let ne := length l in
  fold_left (fun l i => swap i (ne - 1 - i) l) (seq 0 (ne / 2)) l.

Section Heap.
Context (less : SzlValueCmp).

(* @src src/src/emitters/szlheap.cc 82-93 SzlHeap::Sort *)
Definition Sort (hp : SzlHeap) : SzlHeap := MkHeap (sort_loop less (length (heap_ hp)) (heap_ hp)) (maxElems_ hp).

(* @src src/src/emitters/szlheap.cc 96-105 SzlHeap::ReHeap *)
Definition ReHeap (hp : SzlHeap) : SzlHeap := MkHeap (reheap_loop (heap_ hp)) (maxElems_ hp).

(** ** Adding an element *)

(** The extra memory and the new heap. *)
(* @src src/src/emitters/szlheap.cc 61-79 SzlHeap::AddElem *)
Definition heap_AddElem (ops : SzlOps) (val : bytes) (w : SzlValue) (hp : SzlHeap) : res (Z * SzlHeap) :=
  let '(MkHeap l maxElems) := hp in
  if (nElems hp <? maxElems)%Z then
    w' ← Assign ops w VNil;
    m ← Memory ops w;
    Ok ((Z.of_nat (length val) + m - sizeof_SzlValue)%Z,
        MkHeap (FixHeapUp less (length l) (l ++ [MkElem val w'])) maxElems)
  else if negb (maxElems =? 0)%Z && less (weight (l !!! 0%nat)) w then
    let smallest := l !!! 0%nat in
    m0 ← Memory ops (weight smallest);
    w' ← Assign ops w (weight smallest);
    m ← Memory ops w;
    Ok ((Z.of_nat (length val) + m - (Z.of_nat (length (value smallest)) + m0))%Z,
        MkHeap (FixHeapDown less 0 (length l) (<[0%nat := MkElem val w']> l)) maxElems)
  else Ok (0%Z, hp).
End Heap.

(** ** Laws of a comparison on the weights of a table *)

Class CmpLaws (P : SzlValue -> Prop) (less : SzlValueCmp) : Prop := {
  less_asym a b : P a -> P b -> less a b = true -> less b a = false;
  less_negtrans a b c :
    P a -> P b -> P c -> less b a = false -> less c b = false -> less c a = false;
}.

Lemma le_refl P less (L : CmpLaws P less) a : P a -> less a a = false.
Proof. intros Ha. destruct (less a a) eqn:E; [|done]. by rewrite (less_asym a a) in E. Qed.

(** ** Lists with a hole *)

(** Filling the hole at [h] from [h'] and putting the element there. *)
Lemma hole_perm {A} `{IA : Inhabited A} (l : list A) h h' e :
  h < length l -> h' < length l -> h <> h' ->
  <[h' := e]> (<[h := l !!! h']> l) ≡ₚ <[h := e]> l.
Proof.
  intros Hh Hh' Hne.
  pose proof (Permutation_insert_swap (<[h := e]> l) h h' e (l !!! h')) as H.
  rewrite list_insert_insert_eq in H. apply H.
  - by apply list_lookup_insert_eq.
  - rewrite list_lookup_insert_ne by done. by apply list_lookup_lookup_total_lt.
Qed.

(** ** Reversing by swaps *)

Section Swaps.
Context {A : Type} `{IA : !Inhabited A}.
Implicit Types (l : list A) (i j k m : nat).

Lemma lookup_total_upd l i j e :
  i < length l -> <[i := e]> l !!! j = if decide (i = j) then e else l !!! j.
Proof.
  intros Hi. case_decide as Hd; [subst j; by apply list_lookup_total_insert_eq|].
  by apply list_lookup_total_insert_ne.
Qed.

(** Swapping the ends inwards reverses the list. *)
Lemma length_swap_fold m ks l :
  length (fold_left (fun l' i => swap i (m - i) l') ks l) = length l.
Proof.
  revert l. induction ks as [|i ks IH]; intros l; [done|]. cbn [fold_left]. rewrite IH.
  unfold swap. by rewrite !length_insert.
Qed.

Lemma swap_fold_lookup l k j :
  k <= length l / 2 -> j < length l ->
  fold_left (fun l' i => swap i (length l - 1 - i) l') (seq 0 k) l !!! j
  = if decide (j < k \/ length l - k <= j) then l !!! (length l - 1 - j) else l !!! j.
Proof.
  intros Hk. revert j. induction k as [|k IH]; intros j Hj.
  { cbn. rewrite decide_False by lia. done. }
  rewrite seq_S, fold_left_app. cbn [fold_left Nat.add].
  pose proof (length_swap_fold (length l - 1) (seq 0 k) l) as Hr.
  set (r := fold_left _ (seq 0 k) l) in *.
  unfold swap. rewrite !lookup_total_upd by (rewrite ?length_insert; lia).
  rewrite !IH by lia.
  repeat case_decide; try lia; try (f_equal; lia); done.
Qed.

Lemma reheap_loop_rev l : reheap_loop l = reverse l.
Proof.
  unfold reheap_loop.
  pose proof (length_swap_fold (length l - 1) (seq 0 (length l / 2)) l) as Hr.
  apply list_eq. intros i. destruct (decide (i < length l)) as [Hi|Hi].
  - rewrite (list_lookup_lookup_total_lt _ i) by lia. rewrite swap_fold_lookup by done.
    rewrite reverse_lookup by done.
    case_decide.
    + rewrite (list_lookup_lookup_total_lt l) by lia. do 2 f_equal. lia.
    + rewrite <- (list_lookup_lookup_total_lt l) by lia. f_equal. lia.
  - rewrite !lookup_ge_None_2; rewrite ?length_reverse; lia || done.
Qed.

End Swaps.

(** ** The heap property *)

Section HeapProofs.
Context {V : Type} `{IV : !Inhabited V} (P : SzlValue -> Prop) (less : SzlValueCmp) `{L : !CmpLaws P less}.
Implicit Types (l : list (ElemOf V)) (h i j n : nat).

Definition wt l i : SzlValue := weight (l !!! i).
(** [le a b]: [a] may stand above [b]. *)
Definition le (a b : SzlValue) : Prop := less b a = false.

Definition wts_ok l : Prop := Forall (fun e => P (weight e)) l.

(** The first [n] elements form a heap. *)
Definition heap_upto n l : Prop := forall i, 0 < i < n -> le (wt l (parent i)) (wt l i).
(** They would, were the weight at [h] other. *)
Definition heap_but h n l : Prop :=
  (forall i, 0 < i < n -> i <> h -> parent i <> h -> le (wt l (parent i)) (wt l i))
  /\ (forall i, 0 < i < n -> parent i = h -> 0 < h -> le (wt l (parent h)) (wt l i)).

Lemma le_trans a b c : P a -> P b -> P c -> le a b -> le b c -> le a c.
Proof. unfold le. intros. by apply (less_negtrans a b c). Qed.

Lemma lt_le a b : P a -> P b -> less a b = true -> le a b.
Proof. unfold le. apply less_asym. Qed.

Lemma wt_ok l i : wts_ok l -> i < length l -> P (wt l i).
Proof.
  intros H Hi. unfold wt. destruct (lookup_lt_is_Some_2 l i Hi) as [e He].
  rewrite (list_lookup_total_correct _ _ _ He). by apply (Forall_lookup_1 _ _ _ _ H He).
Qed.

Lemma IsHeap_spec l : IsHeap less l = true <-> heap_upto (length l) l.
Proof.
  unfold IsHeap, heap_upto, le, wt. rewrite forallb_forall. setoid_rewrite in_seq.
  setoid_rewrite negb_true_iff. split; intros H i Hi; apply H; lia.
Qed.

(** *** Moving an element through the hole *)

Lemma wt_hole l h h' e i :
  h < length l -> h' < length l ->
  wt (<[h' := e]> (<[h := l !!! h']> l)) i
  = if decide (h' = i) then weight e else if decide (h = i) then wt l h' else wt l i.
Proof.
  intros. unfold wt. rewrite !lookup_total_upd by (rewrite ?length_insert; done).
  repeat case_decide; done.
Qed.
Lemma wt_upd l h e i : h < length l -> wt (<[h := e]> l) i = if decide (h = i) then weight e else wt l i.
Proof. intros. unfold wt. rewrite lookup_total_upd by done. by case_decide. Qed.

Lemma wts_ok_perm l l' : l ≡ₚ l' -> wts_ok l' -> wts_ok l.
Proof. intros H. apply Forall_Permutation; [done|by symmetry]. Qed.

Lemma parent_lt i : 0 < i -> parent i < i.
Proof. unfold parent. lia. Qed.
Lemma parent_kid i h : 0 < i -> parent i = h <-> i = 2 * h + 1 \/ i = 2 * h + 2.
Proof. unfold parent. intros. split; intros; lia. Qed.

Lemma fix_up_spec fuel l h e :
  h < length l -> h <= fuel -> wts_ok (<[h := e]> l) ->
  (forall i, 0 < i < length l -> i <> h -> le (wt (<[h := e]> l) (parent i)) (wt (<[h := e]> l) i)) ->
  (forall i, 0 < i < length l -> parent i = h -> 0 < h -> le (wt l (parent h)) (wt l i)) ->
  fix_up less fuel l h e ≡ₚ <[h := e]> l /\ heap_upto (length l) (fix_up less fuel l h e).
Proof.
  revert l h. induction fuel as [|fuel IH]; intros l h Hh Hf Hok H1 H2; cbn [fix_up].
  { assert (h = 0) as -> by lia. split; [done|]. intros i Hi. apply H1; lia. }
  destruct (Nat.eqb_spec h 0) as [->|Hn]. { split; [done|]. intros i Hi. apply H1; lia. }
  pose proof (parent_lt h ltac:(lia)) as Hp. set (p := parent h) in *.
  destruct (less (weight e) (weight (l !!! p))) eqn:E; cbn [negb].
  - pose proof (hole_perm l h p e Hh ltac:(lia) ltac:(lia)) as Hperm.
    pose proof (wts_ok_perm _ _ Hperm Hok) as Hok'.
    assert (P (weight e)) as He.
    { pose proof (wt_ok _ h Hok ltac:(by rewrite length_insert)) as H. rewrite wt_upd in H by done.
      by rewrite decide_True in H. }
    assert (forall i, i < length l -> i <> h -> P (wt l i)) as Hl.
    { intros i Hi Hne. pose proof (wt_ok _ i Hok ltac:(by rewrite length_insert)) as H.
      rewrite wt_upd in H by done. by rewrite decide_False in H. }
    assert (forall i, i < length l -> 0 < i -> i <> h -> parent i <> h -> le (wt l (parent i)) (wt l i)) as H1'.
    { intros i Hi Hi0 Ha Hb. specialize (H1 i ltac:(lia) Ha). rewrite !wt_upd in H1 by done.
      rewrite !decide_False in H1 by congruence. done. }
    destruct (IH (<[h := l !!! p]> l) p) as [R1 R2]; rewrite ?length_insert; try done; try lia.
    + intros i Hi Hip. rewrite !wt_hole by lia.
      pose proof (parent_lt i ltac:(lia)).
      destruct (decide (p = parent i)) as [Ep|Ep], (decide (p = i)) as [|_]; try lia.
      * case_decide as Eh; [subst i; by apply lt_le; [|apply Hl; lia|]|].
        apply (le_trans _ (wt l p)); [done|apply Hl; lia|apply Hl; lia| |].
        { apply lt_le; [done|apply Hl; lia|done]. }
        rewrite Ep. apply H1'; lia.
      * destruct (decide (h = i)) as [<-|Eh]; [done|].
        case_decide as Eh'; [apply H2; lia|]. apply H1'; lia.
    + intros i Hi Hip Hp0. rewrite !wt_upd by done.
      pose proof (parent_lt p ltac:(lia)). rewrite decide_False by lia.
      destruct (decide (h = i)) as [<-|]; [apply H1'; lia|].
      apply (le_trans _ (wt l p)); [apply Hl; lia..| |].
      * apply H1'; lia.
      * rewrite <- Hip. apply H1'; lia.
    + rewrite length_insert in R2. split; [|done]. by etrans.
  - split; [done|]. intros i Hi. destruct (decide (i = h)) as [->|]; [|by apply H1].
    rewrite !wt_upd by done. fold p. rewrite decide_False, decide_True by lia. done.
Qed.

Lemma smaller_kid_spec l h n :
  wts_ok l -> n <= length l -> 2 * h + 1 < n ->
  let k := smaller_kid less l (2 * h + 1) n in
  h < k < n /\ parent k = h /\ forall i, 0 < i < n -> parent i = h -> le (wt l k) (wt l i).
Proof.
  intros Hok Hn Hk. unfold smaller_kid. set (k1 := 2 * h + 1) in *.
  assert (P (wt l k1)) as P1 by (apply wt_ok; [done|lia]).
  assert (forall i, 0 < i < n -> parent i = h -> i = k1 \/ i = k1 + 1) as Hkid.
  { intros i Hi Hp. apply parent_kid in Hp; lia. }
  assert (parent k1 = h /\ parent (k1 + 1) = h) as [E1 E2] by (unfold parent; lia).
  destruct (Nat.ltb_spec (k1 + 1) n) as [H2|H2]; cbn [andb].
  - assert (P (wt l (k1 + 1))) as P2 by (apply wt_ok; [done|lia]).
    destruct (less _ _) eqn:E; (split; [lia|split; [done|]]); intros i Hi Hp.
    + destruct (Hkid i Hi Hp) as [->| ->]; [by apply lt_le|by apply (le_refl P)].
    + destruct (Hkid i Hi Hp) as [->| ->]; [by apply (le_refl P)|done].
  - split; [lia|split; [done|]]. intros i Hi Hp.
    destruct (Hkid i Hi Hp) as [->| ->]; [by apply (le_refl P)|lia].
Qed.

Lemma fix_down_spec fuel l h n e :
  n <= length l -> h < n -> n - h <= fuel -> wts_ok l -> P (weight e) ->
  (forall i, 0 < i < n -> parent i <> h -> le (wt (<[h := e]> l) (parent i)) (wt (<[h := e]> l) i)) ->
  (forall i, 0 < i < n -> parent i = h -> 0 < h -> le (wt l (parent h)) (wt l i)) ->
  fix_down less fuel l h n e ≡ₚ <[h := e]> l /\ heap_upto n (fix_down less fuel l h n e)
  /\ drop n (fix_down less fuel l h n e) = drop n l.
Proof.
  revert l h. induction fuel as [|fuel IH]; intros l h Hn Hh Hf Hok He H1 H2; [lia|]. cbn [fix_down].
  destruct (Nat.leb_spec n (2 * h + 1)) as [Hk|Hk].
  { split; [done|split; [|by apply drop_insert_lt]]. intros i Hi. apply H1; [done|]. unfold parent. lia. }
  destruct (smaller_kid_spec l h n Hok Hn Hk) as (Kk & Kp & Kmin).
  set (k := smaller_kid less l (2 * h + 1) n) in *.
  pose proof (wt_ok l k Hok ltac:(lia)) as Pk.
  destruct (less (weight e) (weight (l !!! k))) eqn:E.
  - split; [done|split; [|by apply drop_insert_lt]].
    intros i Hi. destruct (decide (parent i = h)) as [Ep|]; [|by apply H1].
    pose proof (parent_lt i ltac:(lia)). rewrite !wt_upd, Ep by lia.
    rewrite decide_True, decide_False by lia. apply (le_trans _ (wt l k)); try done.
    { apply wt_ok; [done|lia]. } { by apply lt_le. } by apply Kmin.
  - assert (wts_ok (<[h := l !!! k]> l)) as Hok' by (by apply Forall_insert).
    assert (forall i, 0 < i < n -> i <> h -> parent i <> h -> le (wt l (parent i)) (wt l i)) as H1'.
    { intros i Hi Ha Hb. specialize (H1 i Hi Hb). rewrite !wt_upd, !decide_False in H1 by (lia || congruence).
      done. }
    destruct (IH (<[h := l !!! k]> l) k) as (R1 & R2 & R3); rewrite ?length_insert; try done; try lia.
    + intros i Hi Hip. rewrite !wt_hole by lia. pose proof (parent_lt i ltac:(lia)).
      rewrite (decide_False (P := k = parent i)) by congruence.
      destruct (decide (h = parent i)) as [Ep|Ep].
      * destruct (decide (k = i)) as [<-|]; [done|]. rewrite decide_False by lia.
        apply Kmin; [done|congruence].
      * rewrite decide_False by congruence.
        destruct (decide (h = i)) as [<-|]; [|apply H1'; [done|congruence|congruence]].
        apply H2; [lia|done|lia].
    + intros i Hi Hip Hk0. pose proof (parent_lt i ltac:(lia)). rewrite !wt_upd by lia. rewrite decide_True, decide_False by lia.
      rewrite <- Hip. apply H1'; lia.
    + split; [|split; [done|]].
      * rewrite R1. apply hole_perm; lia.
      * rewrite R3. by apply drop_insert_lt.
Qed.

(** *** The operations on a whole heap *)

Lemma upd_same l h : h < length l -> <[h := l !!! h]> l = l.
Proof. intros. apply list_insert_id. by apply list_lookup_lookup_total_lt. Qed.

Lemma FixHeapUp_spec l h :
  h < length l -> wts_ok l ->
  (forall i, 0 < i < length l -> i <> h -> le (wt l (parent i)) (wt l i)) ->
  (forall i, 0 < i < length l -> parent i = h -> 0 < h -> le (wt l (parent h)) (wt l i)) ->
  FixHeapUp less h l ≡ₚ l /\ heap_upto (length l) (FixHeapUp less h l).
Proof.
  intros Hh Hok H1 H2. pose proof (fix_up_spec h l h (l !!! h)) as H.
  rewrite upd_same in H by done. by apply H.
Qed.

Lemma FixHeapDown_spec l h n :
  n <= length l -> h < n -> wts_ok l ->
  (forall i, 0 < i < n -> parent i <> h -> le (wt l (parent i)) (wt l i)) ->
  (forall i, 0 < i < n -> parent i = h -> 0 < h -> le (wt l (parent h)) (wt l i)) ->
  FixHeapDown less h n l ≡ₚ l /\ heap_upto n (FixHeapDown less h n l)
  /\ drop n (FixHeapDown less h n l) = drop n l.
Proof.
  intros Hn Hh Hok H1 H2. pose proof (fix_down_spec (n - h) l h n (l !!! h)) as H.
  rewrite upd_same in H by lia. apply H; try done. apply (wt_ok l h Hok). lia.
Qed.

(** A heap where the weight at [h] changes is one but for [h]. *)
Lemma heap_but_upd l h e :
  heap_upto (length l) l -> wts_ok l -> h < length l -> heap_but h (length l) (<[h := e]> l).
Proof.
  intros Hheap Hok Hh. split; intros i Hi Hne Hp; rewrite !wt_upd by done.
  - rewrite !decide_False by congruence. by apply Hheap.
  - pose proof (parent_lt i ltac:(lia)). pose proof (parent_lt h Hp). rewrite !decide_False by lia.
    apply (le_trans _ (wt l (parent i))); [apply wt_ok; lia || done..| |].
    + subst h. apply Hheap. lia.
    + by apply Hheap.
Qed.

(** A heap where only the weight at [h] changed is restored by [FixHeap]. *)
Lemma FixHeap_spec l h :
  h < length l -> wts_ok l -> heap_but h (length l) l ->
  FixHeap less h l ≡ₚ l /\ heap_upto (length l) (FixHeap less h l).
Proof.
  intros Hh Hok [H1 H2]. unfold FixHeap. destruct (Nat.eqb_spec h 0) as [->|Hn]; cbn [negb andb].
  { edestruct (FixHeapDown_spec l 0 (length l)) as (R1 & R2 & _); try done.
    intros i Hi Hp. apply H1; lia || done. }
  pose proof (parent_lt h ltac:(lia)).
  destruct (less (weight (l !!! h)) (weight (l !!! parent h))) eqn:E.
  - apply FixHeapUp_spec; try done. intros i Hi Hne.
    destruct (decide (parent i = h)) as [Ep|]; [|by apply H1]. rewrite Ep.
    apply (le_trans _ (wt l (parent h))); [apply wt_ok; lia || done..| |apply H2; lia || done].
    apply lt_le; [apply wt_ok; lia || done..|done].
  - edestruct (FixHeapDown_spec l h (length l)) as (R1 & R2 & _); try done.
    intros i Hi Hp. destruct (decide (i = h)) as [->|]; [done|by apply H1].
Qed.

(** The root is the smallest. *)
Lemma heap_root l n : n <= length l -> wts_ok l -> heap_upto n l -> forall i, i < n -> le (wt l 0) (wt l i).
Proof.
  intros Hn Hok H i. induction i as [i IH] using lt_wf_ind. intros Hi.
  destruct (decide (i = 0)) as [->|]; [apply (le_refl P less L); apply wt_ok; done || lia|].
  pose proof (parent_lt i ltac:(lia)).
  apply (le_trans _ (wt l (parent i))); [apply wt_ok; done || lia..|apply IH; lia|apply H; lia].
Qed.

Lemma heap_root_min l : wts_ok l -> heap_upto (length l) l -> Forall (fun e => le (wt l 0) (weight e)) l.
Proof.
  intros Hok H. apply Forall_lookup_2. intros i e He.
  pose proof (heap_root l (length l) ltac:(done) Hok H i (lookup_lt_Some _ _ _ He)) as R.
  unfold wt in R at 2. by rewrite (list_lookup_total_correct _ _ _ He) in R.
Qed.

(** *** Sorting *)

(** Biggest first. *)
Definition desc : relation (ElemOf V) := fun a b => le (weight b) (weight a).

Lemma swap_perm i j l : i < length l -> j < length l -> swap i j l ≡ₚ l.
Proof.
  intros. unfold swap. apply Permutation_insert_swap; by apply list_lookup_lookup_total_lt.
Qed.

Lemma wt_swap i j l k : i < length l -> j < length l ->
  wt (swap i j l) k = if decide (j = k) then wt l i else if decide (i = k) then wt l j else wt l k.
Proof.
  intros. unfold wt, swap. rewrite !lookup_total_upd by (rewrite ?length_insert; done).
  repeat case_decide; done.
Qed.

Lemma sort_loop_spec n l :
  n <= length l -> wts_ok l -> heap_upto n l ->
  StronglySorted desc (drop n l) -> Forall (fun b => Forall (fun a => desc a b) (take n l)) (drop n l) ->
  sort_loop less n l ≡ₚ l /\ StronglySorted desc (sort_loop less n l).
Proof.
  revert l. induction n as [|n IH]; intros l Hn Hok Hh Hs Hb; cbn [sort_loop].
  { by rewrite drop_0 in Hs. }
  destruct (Nat.eqb_spec n 0) as [->|Hn0].
  { split; [done|]. destruct l as [|e l]; [done|]. rewrite skipn_cons, drop_0 in Hs, Hb.
    constructor; [done|]. eapply Forall_impl; [exact Hb|]. intros b Hb'. cbn [take] in Hb'.
    apply (Forall_inv Hb'). }
  pose proof (swap_perm 0 n l ltac:(lia) ltac:(lia)) as Sp.
  assert (length (swap 0 n l) = length l) as Sl by (unfold swap; by rewrite !length_insert).
  pose proof (wts_ok_perm _ _ Sp Hok) as Sok.
  destruct (FixHeapDown_spec (swap 0 n l) 0 n) as (R1 & R2 & R3); try done; try lia.
  { intros i Hi Hp. rewrite !wt_swap by lia. pose proof (parent_lt i ltac:(lia)).
    rewrite !decide_False by lia. apply Hh. lia. }
  set (r := FixHeapDown less 0 n (swap 0 n l)) in *.
  assert (length r = length l) as Rl by (by rewrite (Permutation_length R1)).
  assert (drop n (swap 0 n l) = l !!! 0 :: drop (S n) l) as Dn.
  { unfold swap. rewrite drop_insert_ge, Nat.sub_diag, drop_insert_lt by lia.
    rewrite (drop_S l (l !!! n) n) by (apply list_lookup_lookup_total_lt; lia). done. }
  assert (take n r ≡ₚ take n (swap 0 n l)) as Tn.
  { apply (Permutation_app_inv_r (drop n r)). rewrite take_drop, R3, take_drop. done. }
  assert (l !!! 0 :: take n (swap 0 n l) ≡ₚ take (S n) l) as Tl.
  { apply (Permutation_app_inv_r (drop (S n) l)). rewrite take_drop. etrans; [|exact Sp].
    rewrite <- (take_drop n (swap 0 n l)) at 2. rewrite Dn. apply Permutation_middle. }
  assert (forall a, a ∈ take n r -> a ∈ take (S n) l) as Tin.
  { intros a Ha. rewrite <- Tl. right. by rewrite <- Tn. }
  assert (l !!! 0 ∈ take (S n) l) as Rin by (rewrite <- Tl; left).
  destruct (IH r) as [I1 I2]; try lia; try done.
  - by apply (wts_ok_perm _ _ R1).
  - rewrite R3, Dn. constructor; [done|]. eapply Forall_impl; [exact Hb|].
    intros b Hb'. cbn in Hb'. by apply (proj1 (Forall_forall _ _) Hb').
  - rewrite R3, Dn. constructor.
    + apply Forall_forall. intros a Ha%Tin. unfold desc.
      apply list_elem_of_lookup_1 in Ha as [i Hi]. apply lookup_take_Some in Hi as [Hi Hin].
      pose proof (heap_root l (S n) Hn Hok Hh i Hin) as R. unfold wt in R at 2.
      by rewrite (list_lookup_total_correct _ _ _ Hi) in R.
    + eapply Forall_impl; [exact Hb|]. intros b Hb'. cbn in Hb'. apply Forall_forall.
      intros a Ha%Tin. by apply (proj1 (Forall_forall _ _) Hb').
  - split; [|done]. rewrite I1, R1. done.
Qed.

Lemma sort_all l :
  wts_ok l -> heap_upto (length l) l ->
  sort_loop less (length l) l ≡ₚ l /\ StronglySorted desc (sort_loop less (length l) l).
Proof.
  intros Hok Hh. apply sort_loop_spec; try done; rewrite drop_all; constructor.
Qed.

Lemma sorted_lookup (R : relation (ElemOf V)) l i j :
  StronglySorted R l -> i < j < length l -> R (l !!! i) (l !!! j).
Proof.
  intros Hs Hij. rewrite <- (take_drop j l) in Hs.
  apply (StronglySorted_app_1_elem_of _ _ _ _ _ Hs).
  - apply (list_elem_of_lookup_2 _ i). rewrite lookup_take_lt by lia.
    apply list_lookup_lookup_total_lt. lia.
  - apply (list_elem_of_lookup_2 _ 0). rewrite lookup_drop, Nat.add_0_r.
    apply list_lookup_lookup_total_lt. lia.
Qed.

(** The reverse of a list sorted biggest first is a heap. *)
Lemma rev_desc_heap l : StronglySorted desc l -> heap_upto (length (reverse l)) (reverse l).
Proof.
  intros Hs i Hi. rewrite length_reverse in Hi. pose proof (parent_lt i ltac:(lia)) as Hp.
  assert (forall k, k < length l -> wt (reverse l) k = wt l (length l - S k)) as Hr.
  { intros k Hk. unfold wt. f_equal. rewrite !list_lookup_total_alt.
    by rewrite reverse_lookup. }
  rewrite !Hr by lia. apply (sorted_lookup desc l (length l - S i) (length l - S (parent i))); [done|lia].
Qed.
End HeapProofs.

Lemma Sort_spec P less `{L : !CmpLaws P less} hp :
  wts_ok P (heap_ hp) -> heap_upto less (length (heap_ hp)) (heap_ hp) ->
  heap_ (Sort less hp) ≡ₚ heap_ hp /\ StronglySorted (desc less) (heap_ (Sort less hp)).
Proof. apply (sort_all P less (heap_ hp)). Qed.

Lemma ReHeap_rev hp : heap_ (ReHeap hp) = reverse (heap_ hp).
Proof. apply reheap_loop_rev. Qed.

(** ** The two comparisons of the tables *)

(** The weights a table can hold: of the type, with no NaN among their floats. *)
Definition weight_ok (ops : SzlOps) (w : SzlValue) : Prop := cmp_ok ops (Some w).

Lemma less_defined ops a b :
  ops_ok ops -> weight_ok ops a -> weight_ok ops b -> Less ops a b = Ok (SzlValueLess ops a b).
Proof.
  intros Hok Ha Hb. unfold SzlValueLess, Less.
  by destruct (cl_total _ _ (Cmp_laws ops Hok) _ _ Ha Hb) as [c ->].
Qed.

Lemma SzlValueLess_cmp ops a b c :
  Cmp ops (Some a) (Some b) = Ok c -> SzlValueLess ops a b = bool_decide (c = Lt).
Proof. unfold SzlValueLess, Less. intros ->. by destruct c. Qed.

Lemma SzlValueLess_laws ops : ops_ok ops -> CmpLaws (weight_ok ops) (SzlValueLess ops).
Proof.
  intros Hok. pose proof (Cmp_laws ops Hok) as L. split.
  - intros a b Ha Hb. destruct (cl_total _ _ L _ _ Ha Hb) as [c Hc].
    pose proof (cl_antisym _ _ L _ _ _ Ha Hb Hc) as Hc'.
    rewrite (SzlValueLess_cmp _ _ _ _ Hc), (SzlValueLess_cmp _ _ _ _ Hc'). by destruct c.
  - intros a b c Ha Hb Hc. destruct (cl_total _ _ L _ _ Hb Ha) as [x Hx].
    destruct (cl_total _ _ L _ _ Hc Hb) as [y Hy].
    rewrite (SzlValueLess_cmp _ _ _ _ Hx), (SzlValueLess_cmp _ _ _ _ Hy).
    pose proof (cl_antisym _ _ L _ _ _ Hb Ha Hx) as Hx'. pose proof (cl_antisym _ _ L _ _ _ Hc Hb Hy) as Hy'.
    intros Nx Ny. rewrite bool_decide_eq_false in Nx, Ny.
    assert (CompOpp x <> Gt /\ CompOpp y <> Gt) as [Gx Gy] by (split; [by destruct x|by destruct y]).
    pose proof (cl_trans _ _ L _ _ _ _ _ Ha Hb Hc Hx' Hy' Gx Gy) as Ht.
    pose proof (cl_antisym _ _ L _ _ _ Ha Hc Ht) as Ht'.
    rewrite (SzlValueLess_cmp _ _ _ _ Ht'). by destruct x, y.
Qed.

Lemma flip_laws P less : CmpLaws P less -> CmpLaws P (fun a b => less b a).
Proof.
  intros L. split.
  - intros a b Ha Hb. by apply less_asym.
  - intros a b c Ha Hb Hc H1 H2. by apply (less_negtrans c b a).
Qed.

Lemma SzlValueGreater_laws ops : ops_ok ops -> CmpLaws (weight_ok ops) (SzlValueGreater ops).
Proof. intros Hok. exact (flip_laws _ _ (SzlValueLess_laws ops Hok)). Qed.

(** ** Adding elements *)

Section Adding.
Context (ops : SzlOps) (Hops : ops_ok ops) (less : SzlValueCmp)
  `{L : !CmpLaws (weight_ok ops) less}.
Implicit Types (hp : SzlHeap) (l out : list Elem).

(** The heap invariant: within its bound, a heap, of weights of the type. *)
Definition heap_inv hp : Prop :=
  (nElems hp <= maxElems_ hp)%Z /\ IsHeap less (heap_ hp) = true /\ wts_ok (weight_ok ops) (heap_ hp).

(** Every element left out is no bigger than every element kept. *)
Definition outranked l out : Prop :=
  Forall (fun d => Forall (fun e => le less (weight d) (weight e)) l) out.

Lemma heap_inv_new m : (0 <= m)%Z -> heap_inv (heap_new m).
Proof. intros Hm. split; [exact Hm|]. split; [done|]. constructor. Qed.

Lemma heap_AddElem_spec hp val w :
  heap_inv hp -> weight_ok ops w -> exists m hp' out,
    heap_AddElem less ops val w hp = Ok (m, hp') /\ heap_inv hp' /\ maxElems_ hp' = maxElems_ hp
    /\ heap_ hp' ++ out ≡ₚ MkElem val w :: heap_ hp /\ outranked (heap_ hp') out
    /\ nElems hp' = Z.min (maxElems_ hp) (nElems hp + 1).
Proof.
  destruct hp as [l mx]. unfold heap_inv, nElems. cbn [heap_ maxElems_].
  intros (Hlen & Hheap & Hwts) Hw. apply IsHeap_spec in Hheap.
  assert (val_ok ops w) as Vw by apply Hw.
  unfold heap_AddElem, nElems. cbn [heap_].
  destruct (Memory_ok ops w Hops Vw) as [mw Hmw].
  destruct (Z.ltb_spec (Z.of_nat (length l)) mx) as [Hlt|Hge].
  - rewrite Assign_fresh, Hmw by done. cbn [mbind res_bind].
    set (l' := l ++ [MkElem val w]).
    assert (length l' = S (length l)) as Ll by (unfold l'; rewrite length_app; cbn; lia).
    assert (wts_ok (weight_ok ops) l') as Wl' by (apply Forall_app; split; [done|by constructor]).
    assert (forall i, i < length l -> wt l' i = wt l i) as Wl.
    { intros i Hi. unfold wt, l'. f_equal. by rewrite lookup_total_app_l. }
    destruct (FixHeapUp_spec (weight_ok ops) less l' (length l)) as [R1 R2]; [lia|done| | |].
    { intros i Hi Hne. pose proof (parent_lt i ltac:(lia)). rewrite !Wl by lia. apply Hheap. lia. }
    { intros i Hi Hp Hpos. pose proof (parent_lt i ltac:(lia)). lia. }
    eexists _, _, []. split; [done|]. cbn [heap_ maxElems_].
    rewrite (Permutation_length R1), Ll. split; [|split; [done|split; [|split; [constructor|lia]]]].
    + split; [lia|]. split; [|by apply (wts_ok_perm _ _ _ R1)].
      apply IsHeap_spec. rewrite (Permutation_length R1). exact R2.
    + rewrite app_nil_r, R1. unfold l'. symmetry. apply Permutation_cons_append.
  - destruct (Z.eqb_spec mx 0) as [->|Hm0]; cbn [negb andb].
    { assert (l = []) as -> by (destruct l; [done|cbn in *; lia]).
      eexists _, _, [MkElem val w]. split; [done|]. cbn [heap_ maxElems_]. split; [split; [done|split; [done|constructor]]|].
      split; [done|]. split; [done|]. split; [by repeat constructor|done]. }
    assert (0 < length l) as Hpos by lia.
    destruct l as [|e0 l]; [cbn in Hpos; lia|]. cbn [lookup_total list_lookup_total].
    pose proof (Forall_inv Hwts) as W0. cbn in W0.
    assert (Forall (fun e => le less (weight e0) (weight e)) (e0 :: l)) as Hmin
      by (apply (heap_root_min (weight_ok ops) less (e0 :: l)); done).
    change ((e0 :: l) !!! 0) with e0 in *.
    destruct (less (weight e0) w) eqn:E.
    + destruct (Memory_ok ops (weight e0) Hops ltac:(apply W0)) as [m0 ->]. cbn [mbind res_bind].
      rewrite Assign_copies, Hmw by (done || (right; apply W0)). cbn [mbind res_bind insert list_insert].
      set (l' := MkElem val w :: l).
      assert (wts_ok (weight_ok ops) l') as Wl'.
      { constructor; [done|]. by apply Forall_inv_tail in Hwts. }
      assert (forall i, 0 < i -> wt l' i = wt (e0 :: l) i) as Wl by (intros [|i]; [lia|done]).
      destruct (FixHeapDown_spec (weight_ok ops) less l' 0 (length l')) as (R1 & R2 & _); [done|done|done| |lia|].
      { intros i Hi Hp. rewrite !Wl by lia. apply Hheap. exact Hi. }
      eexists _, _, [e0]. split; [done|]. cbn [heap_ maxElems_].
      change (length (e0 :: l)) with (length l') in *.
      rewrite (Permutation_length R1). split; [|split; [done|split; [|split]]].
      * split; [lia|]. split; [|by apply (wts_ok_perm _ _ _ R1)].
        apply IsHeap_spec. rewrite (Permutation_length R1). exact R2.
      * rewrite R1. unfold l'. rewrite <- app_comm_cons. rewrite <- Permutation_cons_append. done.
      * constructor; [|constructor]. rewrite R1. constructor.
        -- cbn [weight]. by apply (lt_le (weight_ok ops)).
        -- by apply Forall_inv_tail in Hmin.
      * unfold l' in *. cbn [length] in *. lia.
    + eexists _, _, [MkElem val w]. split; [done|]. cbn [heap_ maxElems_].
      split; [split; [done|split; [by apply IsHeap_spec|done]]|]. split; [done|].
      split; [by rewrite <- Permutation_cons_append|].
      split; [|cbn [length] in *; lia].
      constructor; [|constructor]. cbn [weight]. apply Forall_forall. intros e He.
      apply (le_trans (weight_ok ops) less _ (weight e0)); try done.
      * exact (proj1 (Forall_forall _ _) Hwts e He).
      * exact (proj1 (Forall_forall _ _) Hmin e He).
Qed.

(** [heap_adds]: the elements of a list, one after the other. *)
Definition heap_adds (es : list (bytes * SzlValue)) hp : res SzlHeap :=
  foldl (fun r '(v, w) => h ← r; p ← heap_AddElem less ops v w h; Ok (snd p)) (Ok hp) es.

Definition elem_of_pair (p : bytes * SzlValue) : Elem := MkElem (fst p) (snd p).

Lemma heap_adds_cons v w es hp m hp' :
  heap_AddElem less ops v w hp = Ok (m, hp') -> heap_adds ((v, w) :: es) hp = heap_adds es hp'.
Proof. intros E. unfold heap_adds. cbn [foldl mbind res_bind]. by rewrite E. Qed.

(** What was outranked before stays outranked. *)
Lemma outranked_app l l' out out' e :
  wts_ok (weight_ok ops) (e :: l ++ out) -> out = [] \/ out' <> [] ->
  outranked l out -> outranked l' out' -> l' ++ out' ≡ₚ e :: l -> outranked l' (out' ++ out).
Proof.
  intros Hok Hne Ho Ho' Hp. apply Forall_app. split; [done|]. destruct Hne as [->|Hne]; [constructor|].
  destruct out' as [|o out']; [done|]. apply Forall_forall. intros d Hd. apply Forall_forall. intros x Hx.
  assert (forall y, y ∈ l -> le less (weight d) (weight y)) as Hl.
  { intros y Hy. exact (proj1 (Forall_forall _ _) (proj1 (Forall_forall _ _) Ho d Hd) y Hy). }
  assert (forall y, y ∈ e :: l ++ out -> weight_ok ops (weight y)) as W by (by apply Forall_forall).
  assert (x ∈ e :: l) as Hxl by (rewrite <- Hp; by apply elem_of_app; left).
  assert (o ∈ e :: l) as Hol by (rewrite <- Hp; apply elem_of_app; right; left).
  apply list_elem_of_In in Hol as [->|Hol].
  - rewrite <- Permutation_middle in Hp. apply Permutation_cons_inv in Hp. apply Hl. rewrite <- Hp.
    apply elem_of_app. by left.
  - apply list_elem_of_In in Hol. apply (le_trans (weight_ok ops) less _ (weight o)).
    + apply W. right. apply elem_of_app. by right.
    + apply W. right. apply elem_of_app. by left.
    + apply W. apply elem_of_cons in Hxl as [->|Hxl]; [left|right; apply elem_of_app; by left].
    + by apply Hl.
    + exact (proj1 (Forall_forall _ _) (Forall_inv Ho') x Hx).
Qed.

Lemma heap_adds_spec es hp :
  heap_inv hp -> Forall (fun p => weight_ok ops (snd p)) es -> exists hp' out,
    heap_adds es hp = Ok hp' /\ heap_inv hp' /\ maxElems_ hp' = maxElems_ hp
    /\ heap_ hp' ++ out ≡ₚ map elem_of_pair es ++ heap_ hp
    /\ outranked (heap_ hp') out
    /\ nElems hp' = Z.min (maxElems_ hp) (nElems hp + Z.of_nat (length es)).
Proof.
  intros Hinv. induction es as [|[v w] es IH] using rev_ind; intros Hes.
  { exists hp, []. unfold heap_inv, nElems in *. cbn. rewrite app_nil_r.
    repeat (split; [done|]). split; [constructor|]. lia. }
  apply Forall_app in Hes as [Hes Hw%Forall_inv]. cbn [snd] in Hw.
  destruct (IH Hes) as (hp1 & out & E1 & I1 & M1 & P1 & O1 & N1).
  destruct (heap_AddElem_spec hp1 v w I1 Hw) as (m & hp' & out' & E & I & M & P' & O & N).
  pose proof (Permutation_length P1) as C1. pose proof (Permutation_length P') as C'.
  rewrite length_app in C1. rewrite length_app in C1. rewrite length_map in C1. rewrite length_app in C'. cbn [length] in C'.
  exists hp', (out' ++ out). split.
  { unfold heap_adds in *. rewrite foldl_app, E1. cbn [foldl mbind res_bind]. by rewrite E. }
  split; [done|]. split; [congruence|]. split; [|split].
  - rewrite app_assoc, P'. cbn [app]. rewrite P1, map_app. cbn [map app].
    rewrite <- app_assoc. apply Permutation_middle.
  - apply (outranked_app (heap_ hp1) _ _ _ (MkElem v w)); try done.
    + constructor; [done|]. apply (wts_ok_perm _ _ _ P1), Forall_app. split; [|apply Hinv].
      apply Forall_map. eapply Forall_impl; [exact Hes|]. by intros [].
    + unfold nElems in *. destruct out as [|o out]; [by left|]. right. intros ->.
      cbn [length] in *. lia.
  - rewrite length_app. cbn [length]. unfold nElems in *. lia.
Qed.
End Adding.

(** ** Keeping the biggest of a collection *)

Section Keeping.
Context (P : SzlValue -> Prop) (less : SzlValueCmp) `{L : !CmpLaws P less}.
Implicit Types (a b k out : list Elem).

(** [k] holds the [m] biggest elements of [a], or all if there are fewer. *)
Definition keeps (m : nat) a k : Prop :=
  exists out, k ++ out ≡ₚ a /\ outranked less k out /\ length k = Nat.min m (length a).

Lemma keeps_perm m a a' k k' : a ≡ₚ a' -> k ≡ₚ k' -> keeps m a k -> keeps m a' k'.
Proof.
  intros Ha Hk (out & H1 & H2 & H3). exists out.
  split; [by rewrite <- Ha, <- Hk|]. split.
  - eapply Forall_impl; [exact H2|]. intros d. cbn. by rewrite Hk.
  - by rewrite <- (Permutation_length Ha), <- (Permutation_length Hk).
Qed.

Lemma keeps_small m a : length a <= m -> keeps m a a.
Proof. intros H. exists []. rewrite app_nil_r. split; [done|]. split; [constructor|lia]. Qed.

(** An element no bigger than [m] of the elements is no bigger than the [m] kept. *)
Lemma keeps_below m a b k out (d : Elem) :
  wts_ok P (k ++ out) -> P (weight d) -> k ++ out ≡ₚ a ++ b -> outranked less k out -> length k <= m -> m <= length a ->
  Forall (fun e : Elem => le less (weight d) (weight e)) a -> Forall (fun e => le less (weight d) (weight e)) k.
Proof.
  intros Hok Hd Hp Ho Hk Ha Hda. apply Forall_forall. intros x Hx.
  unfold le. destruct (less (weight x) (weight d)) eqn:E; [|done]. exfalso.
  assert (forall e, e ∈ k ++ out -> P (weight e)) as W by (by apply Forall_forall).
  pose (above (e : Elem) := less (weight e) (weight d) = false).
  assert (forall e, Decision (above e)) as Hdec by (intros e; unfold above; apply _).
  assert (filter above out = []) as Fo.
  { apply filter_none, Forall_forall. intros y Hy Hab.
    pose proof (proj1 (Forall_forall _ _) (proj1 (Forall_forall _ _) Ho y Hy) x Hx) as Hyx. cbn in Hyx.
    assert (less (weight x) (weight d) = false); [|congruence].
    apply (less_negtrans _ (weight y)); try done; apply W; apply elem_of_app; auto. }
  assert (filter above a = a) as Fa by (by apply filter_all).
  assert (length (filter above k) < length k) as Fk.
  { apply (length_filter_lt _ _ x Hx). unfold above. by rewrite E. }
  pose proof (Permutation_length (filter_Permutation above _ _ Hp)) as C.
  rewrite !filter_app, Fo, Fa, app_nil_r in C. rewrite length_app in C. lia.
Qed.

Lemma keeps_sub m a k : keeps m a k -> forall e, e ∈ k -> e ∈ a.
Proof. intros (out & Pk & _) e He. rewrite <- Pk. apply elem_of_app. by left. Qed.

(** The biggest of two collections are the biggest among their biggest. *)
Lemma keeps_merge m a b ka kb k :
  wts_ok P (a ++ b) -> keeps m a ka -> keeps m b kb -> keeps m (ka ++ kb) k -> keeps m (a ++ b) k.
Proof.
  intros Hok (oa & Pa & Ra & La) (ob & Pb & Rb & Lb) (o & Po & Ro & Lo).
  pose proof (Permutation_length Pa) as Ca. pose proof (Permutation_length Pb) as Cb.
  pose proof (Permutation_length Po) as Co. rewrite length_app in Ca. rewrite length_app in Cb.
  rewrite (length_app k), (length_app ka) in Co. rewrite (length_app ka) in Lo.
  assert (k ++ o ++ oa ++ ob ≡ₚ a ++ b) as Pall.
  { rewrite app_assoc, Po, <- Pa, <- Pb, <- !app_assoc. apply Permutation_app_head.
    rewrite !app_assoc. apply Permutation_app_tail. apply Permutation_app_comm. }
  assert (wts_ok P (k ++ o ++ oa ++ ob)) as W by (by apply (wts_ok_perm P _ _ Pall)).
  exists (o ++ oa ++ ob). split; [done|]. split.
  - apply Forall_app in W as [Wk W]. apply Forall_app in W as [Wo W]. apply Forall_app in W as [Wa Wb].
    apply Forall_app. split; [done|]. apply Forall_app. split; apply Forall_forall; intros d Hd.
    + assert (oa <> []) as Hne by (by intros ->; apply elem_of_nil in Hd).
      apply (keeps_below m ka kb k o); try done.
      * by apply Forall_app.
      * exact (proj1 (Forall_forall _ _) Wa d Hd).
      * lia.
      * destruct oa; [done|]. cbn in Ca. lia.
      * exact (proj1 (Forall_forall _ _) Ra d Hd).
    + assert (ob <> []) as Hne by (by intros ->; apply elem_of_nil in Hd).
      apply (keeps_below m kb ka k o); try done.
      * by apply Forall_app.
      * exact (proj1 (Forall_forall _ _) Wb d Hd).
      * rewrite Po. apply Permutation_app_comm.
      * lia.
      * destruct ob; [done|]. cbn in Cb. lia.
      * exact (proj1 (Forall_forall _ _) Rb d Hd).
  - rewrite length_app. lia.
Qed.
End Keeping.

(** Adding elements to a heap keeps the biggest of what it held and of them. *)
Lemma heap_adds_keeps ops less `{L : !CmpLaws (weight_ok ops) less} es hp :
  ops_ok ops -> heap_inv ops less hp -> Forall (fun p => weight_ok ops (snd p)) es -> exists hp',
    heap_adds ops less es hp = Ok hp' /\ heap_inv ops less hp' /\ maxElems_ hp' = maxElems_ hp
    /\ keeps less (Z.to_nat (maxElems_ hp)) (heap_ hp ++ map elem_of_pair es) (heap_ hp').
Proof.
  intros Hops Hinv Hes. destruct (heap_adds_spec ops Hops less es hp Hinv Hes) as (hp' & out & E & I & M & Pm & O & N).
  exists hp'. split; [done|]. split; [done|]. split; [done|]. exists out.
  split; [by rewrite (Permutation_app_comm (heap_ hp))|]. split; [done|].
  unfold nElems in N. destruct Hinv as [Hn _]. unfold nElems in Hn. rewrite length_app, length_map. lia.
Qed.

(** ** Correctness *)

(** C34. A heap of bound [m] filled by any sequence of [AddElem] never aborts, is a
    heap, and holds exactly the [m] biggest elements (or all, if there are
    fewer): kept and dropped together are the elements added, and no dropped
    one beats a kept one in the table's order ([SzlValueLess] or
    [SzlValueGreater]). *)
Theorem heap_keeps_biggest ops less (L : CmpLaws (weight_ok ops) less) m es :
  ops_ok ops -> (0 <= m)%Z -> Forall (fun p => weight_ok ops (snd p)) es -> exists hp out,
    heap_adds ops less es (heap_new m) = Ok hp /\ IsHeap less (heap_ hp) = true
    /\ heap_ hp ++ out ≡ₚ map elem_of_pair es /\ outranked less (heap_ hp) out
    /\ nElems hp = Z.min m (Z.of_nat (length es)).
Proof.
  intros Hops Hm Hes.
  destruct (heap_adds_spec ops Hops less es (heap_new m) (heap_inv_new _ _ m Hm) Hes)
    as (hp & out & E & I & _ & Pm & O & N).
  exists hp, out. cbn [heap_ heap_new] in Pm. rewrite app_nil_r in Pm.
  by destruct I as (_ & I & _).
Qed.

Lemma int_weight_ok z : is_s64 z -> weight_ok int_ops (VInt z).
Proof. intros Hz. split; [by exists z|done]. Qed.

Definition sample_elems : list (bytes * SzlValue) :=
  ([([1], VInt 5); ([2], VInt 3); ([3], VInt 4); ([4], VInt 9)])%Z.
Lemma sample_elems_ok : Forall (fun p => weight_ok int_ops (snd p)) sample_elems.
Proof. repeat (constructor; [by apply int_weight_ok, (bool_decide_unpack _)|]). constructor. Qed.

Lemma heap_keeps_biggest_witness : exists hp out,
  heap_adds int_ops (SzlValueGreater int_ops) sample_elems (heap_new 3) = Ok hp
  /\ IsHeap (SzlValueGreater int_ops) (heap_ hp) = true
  /\ heap_ hp ++ out ≡ₚ map elem_of_pair sample_elems /\ outranked (SzlValueGreater int_ops) (heap_ hp) out
  /\ nElems hp = Z.min 3 (Z.of_nat (length sample_elems)).
Proof.
  apply heap_keeps_biggest;
    [exact (SzlValueGreater_laws int_ops int_ops_ok)|exact int_ops_ok|done|exact sample_elems_ok].
Defined.

(** [Sort] orders the elements of a heap biggest first and loses none, and
    [ReHeap] after it gives a heap of the same elements, ready for [AddElem]. *)
Theorem Sort_ReHeap ops less (L : CmpLaws (weight_ok ops) less) hp :
  heap_inv ops less hp ->
  heap_ (Sort less hp) ≡ₚ heap_ hp /\ StronglySorted (desc less) (heap_ (Sort less hp))
  /\ heap_inv ops less (ReHeap (Sort less hp)) /\ heap_ (ReHeap (Sort less hp)) ≡ₚ heap_ hp.
Proof.
  intros (Hlen & Hheap & Hok). apply IsHeap_spec in Hheap.
  destruct (Sort_spec (weight_ok ops) less hp Hok Hheap) as [S1 S2].
  split; [done|]. split; [done|].
  assert (heap_ (ReHeap (Sort less hp)) ≡ₚ heap_ hp) as R by (by rewrite ReHeap_rev, reverse_Permutation).
  split; [|done]. split; [|split].
  - unfold nElems in *. by rewrite (Permutation_length R).
  - apply IsHeap_spec. rewrite ReHeap_rev. by apply rev_desc_heap.
  - by apply (wts_ok_perm _ _ _ R).
Qed.

Definition sample_heap : SzlHeap :=
  MkHeap ([MkElem [2] (VInt 3); MkElem [3] (VInt 4); MkElem [1] (VInt 5)])%Z 3.
Lemma sample_heap_inv : heap_inv int_ops (SzlValueLess int_ops) sample_heap.
Proof.
  split; [done|]. split; [reflexivity|].
  repeat (constructor; [by apply int_weight_ok, (bool_decide_unpack _)|]). constructor.
Qed.

Lemma Sort_ReHeap_witness :
  heap_ (Sort (SzlValueLess int_ops) sample_heap) ≡ₚ heap_ sample_heap
  /\ StronglySorted (desc (SzlValueLess int_ops)) (heap_ (Sort (SzlValueLess int_ops) sample_heap))
  /\ heap_inv int_ops (SzlValueLess int_ops) (ReHeap (Sort (SzlValueLess int_ops) sample_heap))
  /\ heap_ (ReHeap (Sort (SzlValueLess int_ops) sample_heap)) ≡ₚ heap_ sample_heap.
Proof.
  apply Sort_ReHeap; [exact (SzlValueLess_laws int_ops int_ops_ok)|exact sample_heap_inv].
Defined.

(** When one weight of a heap has changed, [FixHeap] at its position restores
    the heap, by a permutation of the elements. *)
Theorem FixHeap_restores ops less (L : CmpLaws (weight_ok ops) less) (l : list Elem) h e :
  IsHeap less l = true -> wts_ok (weight_ok ops) l -> h < length l -> weight_ok ops (weight e) ->
  FixHeap less h (<[h := e]> l) ≡ₚ <[h := e]> l /\ IsHeap less (FixHeap less h (<[h := e]> l)) = true.
Proof.
  intros Hheap%IsHeap_spec Hok Hh He.
  destruct (FixHeap_spec (weight_ok ops) less (<[h := e]> l) h) as [R1 R2].
  - by rewrite length_insert.
  - by apply Forall_insert.
  - rewrite length_insert. by apply (heap_but_upd (weight_ok ops)).
  - split; [done|]. apply IsHeap_spec. by rewrite (Permutation_length R1).
Qed.

Lemma FixHeap_restores_witness :
  let l := <[0 := MkElem [2%Z] (VInt 7)]> (heap_ sample_heap) in
  FixHeap (SzlValueLess int_ops) 0 l ≡ₚ l /\ IsHeap (SzlValueLess int_ops) (FixHeap (SzlValueLess int_ops) 0 l) = true.
Proof.
  apply (FixHeap_restores int_ops); [exact (SzlValueLess_laws int_ops int_ops_ok)|reflexivity| |cbn; lia|].
  - apply sample_heap_inv.
  - by apply int_weight_ok, (bool_decide_unpack _).
Defined.

(** *** Example *)

Example heap_sample :
  (h ← heap_adds int_ops (SzlValueLess int_ops) sample_elems (heap_new 3);
   Ok (map value (heap_ (Sort (SzlValueLess int_ops) h)), map value (heap_ (ReHeap (Sort (SzlValueLess int_ops) h)))))
  = Ok ([[4]; [1]; [3]], [[3]; [1]; [4]])%Z.
Proof. vm_compute. reflexivity. Qed.
