(* ===== verification/Sketch.v ===== *)
(** * SzlSketch: the count sketch of the top tables

    Models src/src/emitters/szlsketch.cc and szlsketch.h.  A sketch is an array of
    weights of [nTabs] rows of [tabSize] cells; a string adds its weight to, or
    subtracts it from, one cell of every row.  [MD5Digest] of
    utilities/hashutils.cc calls a library: it is a parameter, of which the
    theorems use that a digest is 16 bytes. *)
From Stdlib Require Import ZArith Lia.
From stdpp Require Import prelude sorting strings.
From S2P Require Import Prelude SzlType Double Encoder Decoder Codec Reads SzlValue ValueCodec ValueAdd Numbers.

Local Open Scope Z_scope.

(** ** Dimensions *)

(* @src src/src/emitters/szlsketch.h 28-28 SzlSketch::kMinTabs *)
Definition kMinTabs : Z := 15.
(* @src src/src/emitters/szlsketch.h 29-29 SzlSketch::kMaxTabs *)
Definition kMaxTabs : Z := 31.

(** [1 << n] as an [int]. *)
Definition shl1 (n : Z) : Z := s32 (Z.shiftl 1 n).

(** [for (; bits < 32 && ts > (1 << bits); bits++)]: at most 32 rounds. *)
(* @src src/src/emitters/szlsketch.cc 41-42 SzlSketch::Dims *)
Fixpoint count_bits (fuel : nat) (ts bits : Z) : Z :=
  match fuel with
  | O => bits
  | S fuel => if (bits <? 32) && (shl1 bits <? ts) then count_bits fuel ts (bits + 1) else bits
  end.

(** [for (; tabs > kMinTabs; tabs -= 2) if (...) break]: 8 rounds from [kMaxTabs]. *)
(* @src src/src/emitters/szlsketch.cc 44-46 SzlSketch::Dims *)
Fixpoint count_tabs (fuel : nat) (totalSize bits tabs : Z) : Z :=
  match fuel with
  | O => tabs
  | S fuel =>
      if negb (kMinTabs <? tabs) then tabs
      else if s32 (Z.shiftl (tabs - 2) bits) <? totalSize then tabs
      else count_tabs fuel totalSize bits (tabs - 2)
  end.

(** The number of tables and their size. *)
(* @src src/src/emitters/szlsketch.cc 38-49 SzlSketch::Dims *)
Definition Dims (totalSize : Z) : Z * Z :=
  let ts := Z.quot totalSize 31 in
  let bits := count_bits 32 ts 2 in
  (count_tabs 16 totalSize bits kMaxTabs, shl1 bits).

(** ** Data *)

(* @src src/src/emitters/szlsketch.h 77-86 SzlSketch (data members) *)
Record SzlSketch : Type := MkSketch {
  weights_ : list SzlValue;
  tmp_ : list SzlValue;
  nTabs_ : Z;
  tabSize_ : Z;
  tabBits_ : Z;
}.

(** The row entries in use: the element and the sign. *)
Abbreviation Index := (list (nat * Z)).

(* @src src/src/emitters/szlsketch.cc 51-66 SzlSketch::SzlSketch *)
Definition sketch_new (nTabs tabSize : Z) : res SzlSketch :=
  _ ← check ((kMinTabs <=? nTabs) && (nTabs <=? kMaxTabs) && (Z.land nTabs 1 =? 1));
  _ ← check ((0 <? tabSize) && (Z.land tabSize (tabSize - 1) =? 0));
  Ok (MkSketch (replicate (Z.to_nat (nTabs * tabSize)) VNil) (replicate (Z.to_nat kMaxTabs) VNil)
        nTabs tabSize (count_bits 32 tabSize 0)).

(** [nTabs_ * tabSize_], an [int]. *)
Definition sketch_n (sk : SzlSketch) : nat := Z.to_nat (s32 (nTabs_ sk * tabSize_ sk)).

Section Sketch.
Context (MD5Digest : bytes -> bytes) (ops : SzlOps).

(** ** Indexes *)

(** The shift register: the digest, its next byte, the bits and their number. *)
Record HashBits : Type := MkBits { digest : bytes; digi : nat; hbits : Z; nbits : Z }.

(** [while (nbits < tabBits_ + 1)]: a round adds 8 bits; [tabBits_ + 1] rounds are enough. *)
(* @src src/src/emitters/szlsketch.cc 127-136 SzlSketch::ComputeIndex *)
Fixpoint refill (fuel : nat) (tabBits : Z) (h : HashBits) : HashBits :=
  match fuel with
  | O => h
  | S fuel =>
      if nbits h <? tabBits + 1 then
        let (dg, di) := if (digi h =? 16)%nat then (MD5Digest (digest h), 0%nat) else (digest h, digi h) in
        refill fuel tabBits
          (MkBits dg (S di) (Z.lor (hbits h) (u32 (Z.shiftl (nth di dg 0) (nbits h)))) (nbits h + 8))
      else h
  end.

(* @src src/src/emitters/szlsketch.cc 125-147 SzlSketch::ComputeIndex *)
Fixpoint index_rows (rows : nat) (tabSize tabBits origin : Z) (h : HashBits) : Index :=
  match rows with
  | O => []
  | S rows =>
      let h := refill (Z.to_nat (tabBits + 1)) tabBits h in
      let ind := Z.land (hbits h) (shl1 tabBits - 1) in
      let bits := Z.shiftr (hbits h) tabBits in
      (Z.to_nat (origin + ind), Z.land bits 1)
        :: index_rows rows tabSize tabBits (origin + tabSize)
             (MkBits (digest h) (digi h) (Z.shiftr bits 1) (nbits h - (tabBits + 1)))
  end.

(* @src src/src/emitters/szlsketch.cc 117-148 SzlSketch::ComputeIndex *)
Definition ComputeIndex (sk : SzlSketch) (s : bytes) : Index :=
  index_rows (Z.to_nat (nTabs_ sk)) (tabSize_ sk) (tabBits_ sk) 0 (MkBits (MD5Digest s) 0 0 0).

(** ** Weights *)

(* @src src/src/emitters/szlsketch.cc 155-164 SzlSketch::AddSub *)
Fixpoint add_sub_rows (index : Index) (value : SzlValue) (isAdd : Z) (ws : list SzlValue) : res (list SzlValue) :=
  match index with
  | [] => Ok ws
  | (elem, sign) :: index =>
      match ws !! elem with
      | None => Fatal (* out of the array *)
      | Some w =>
          w' ← (if sign =? isAdd then Sub ops value w else Add ops value w);
          add_sub_rows index value isAdd (<[elem := w']> ws)
      end
  end.

Definition set_weights (ws : list SzlValue) (sk : SzlSketch) : SzlSketch :=
  MkSketch ws (tmp_ sk) (nTabs_ sk) (tabSize_ sk) (tabBits_ sk).
Definition set_tmp (tmp : list SzlValue) (sk : SzlSketch) : SzlSketch :=
  MkSketch (weights_ sk) tmp (nTabs_ sk) (tabSize_ sk) (tabBits_ sk).

(* @src src/src/emitters/szlsketch.cc 152-165 SzlSketch::AddSub *)
Definition AddSub (sk : SzlSketch) (index : Index) (value : SzlValue) (isAdd : Z) : res SzlSketch :=
  ws ← add_sub_rows index value isAdd (weights_ sk); Ok (set_weights ws sk).

(** The values of the rows with their signs corrected, and the temporaries. *)
(* @src src/src/emitters/szlsketch.cc 184-193 SzlSketch::Estimate *)
Fixpoint row_values (index : Index) (ws tmp : list SzlValue) : res (list SzlValue * list SzlValue) :=
  match index, tmp with
  | [], _ => Ok ([], tmp)
  | _, [] => Fatal
  | (elem, sign) :: index, t :: tmp =>
      match ws !! elem with
      | None => Fatal (* out of the array *)
      | Some w =>
          if negb (sign =? 0) then
            t ← Negate ops w t; '(vs, tmp) ← row_values index ws tmp; Ok (t :: vs, t :: tmp)
          else '(vs, tmp) ← row_values index ws tmp; Ok (w :: vs, t :: tmp)
      end
  end.

(* @src src/src/emitters/szlsketch.cc 172-174 SzlSketchEstLess::operator() *)
Definition SzlSketchEstLess (pos : nat) (w1 w2 : SzlValue) : res bool := LessAtPos ops w1 pos w2.

(** [nth_element] leaves at [mid] the element a sort would put there, among the
    elements in an order of its choice: here the sorted order. *)
Fixpoint insert_by (less : SzlValue -> SzlValue -> res bool) (x : SzlValue) (l : list SzlValue) : res (list SzlValue) :=
  match l with
  | [] => Ok [x]
  | y :: l => b ← less y x; if b : bool then l ← insert_by less x l; Ok (y :: l) else Ok (x :: y :: l)
  end.
Fixpoint nth_element (less : SzlValue -> SzlValue -> res bool) (l : list SzlValue) : res (list SzlValue) :=
  match l with
  | [] => Ok []
  | x :: l => l ← nth_element less l; insert_by less x l
  end.

(** [for (int i = 0; i < weight_ops_.nflats(); i++)]. *)
(* @src src/src/emitters/szlsketch.cc 198-202 SzlSketch::Estimate *)
Fixpoint estimate_at (n pos : nat) (values : list SzlValue) (mid : nat) (est : SzlValue) : res SzlValue :=
  match n with
  | O => Ok est
  | S n =>
      values ← nth_element (SzlSketchEstLess pos) values;
      est ← AssignAtPos ops (nth mid values VNil) (Z.of_nat pos) est;
      estimate_at n (S pos) values mid est
  end.

(** The estimate and the sketch with its temporaries. *)
(* @src src/src/emitters/szlsketch.cc 182-203 SzlSketch::Estimate *)
Definition Estimate (sk : SzlSketch) (index : Index) (est : SzlValue) : res (SzlValue * SzlSketch) :=
  '(values, tmp) ← row_values index (weights_ sk) (tmp_ sk);
  est ← estimate_at (nflats_ ops) 0 values (Z.to_nat (Z.shiftr (nTabs_ sk) 1)) est;
  Ok (est, set_tmp tmp sk).

(** ** Whole sketches *)

(* @src src/src/emitters/szlsketch.cc 107-112 SzlSketch::AddSketch *)
Definition AddSketch (sk sketch : SzlSketch) : res SzlSketch :=
  let n := sketch_n sk in
  ws ← mapM (fun '(s, d) => Add ops s d) (zip (take n (weights_ sketch)) (take n (weights_ sk)));
  Ok (set_weights (ws ++ drop n (weights_ sk)) sk).

(* @src src/src/emitters/szlsketch.cc 92-96 SzlSketch::Encode *)
Definition sketch_Encode (sk : SzlSketch) (enc : SzlEncoder) : res SzlEncoder :=
  foldl (fun r w => enc ← r; Encode ops w enc) (Ok enc) (take (sketch_n sk) (weights_ sk)).

Fixpoint decode_weights (dec : SzlDecoder) (ws : list SzlValue) : res (SzlDecoder * list SzlValue) :=
  match ws with
  | [] => Ok (dec, [])
  | w :: ws =>
      '(dec, w) ← Decode ops dec w; '(dec, ws) ← decode_weights dec ws; Ok (dec, w :: ws)
  end.

(* @src src/src/emitters/szlsketch.cc 99-105 SzlSketch::Decode *)
Definition sketch_Decode (sk : SzlSketch) (dec : SzlDecoder) : res (SzlDecoder * SzlSketch) :=
  '(dec, ws) ← decode_weights dec (weights_ sk); Ok (dec, set_weights ws sk).

Definition sizeof_SzlSketch : Z := 528.

(* @src src/src/emitters/szlsketch.cc 78-89 SzlSketch::Memory *)
Definition sketch_Memory (sk : SzlSketch) : res Z :=
  m ← foldl (fun r w => m ← r; k ← Memory ops w; Ok (m + k)) (Ok sizeof_SzlSketch) (take (sketch_n sk) (weights_ sk));
  foldl (fun r w => m ← r; k ← Memory ops w; Ok (m + k)) (Ok m) (take (Z.to_nat (nTabs_ sk)) (tmp_ sk)).

(** ** The standard deviation of the columns *)

(** Every column is estimated with positive signs; [col] is kept between columns. *)
(* @src src/src/emitters/szlsketch.cc 222-239 SzlSketch::StdDeviation *)
Fixpoint column_values (n : nat) (i : Z) (sk : SzlSketch) (col : SzlValue) : res (list (list Z) * SzlSketch) :=
  match n with
  | O => Ok ([], sk)
  | S n =>
      let index := map (fun row => (Z.to_nat (i + row * tabSize_ sk), 0)) (seqZ 0 (nTabs_ sk)) in
      '(col, sk) ← Estimate sk index col;
      colv ← ToFloat ops col;
      '(cs, sk) ← column_values n (i + 1) sk col;
      Ok (colv :: cs, sk)
  end.

(** [.00000001]. *)
Definition f64_1e8 : Z := 0x3E45798EE2308C3A.

(* @src src/src/emitters/szlsketch.cc 206-264 SzlSketch::StdDeviation *)
Definition StdDeviation (sk : SzlSketch) : res (list Z * SzlSketch) :=
  let nvals := nflats_ ops in
  let zeros := replicate nvals 0 in
  if tabSize_ sk =? 0 then Ok (zeros, sk)
  else
    '(columns, sk) ← column_values (Z.to_nat (tabSize_ sk)) 0 sk VNil;
    let size := f64_of_int (tabSize_ sk) in
    let ave := map (fun a => f64_div a size) (foldl (zip_with f64_add) zeros columns) in
    let devs := foldl (fun devs column =>
      zip_with (fun dev '(c, a) => let d := f64_sub c a in f64_add dev (f64_mul d d)) devs (zip column ave)) zeros columns in
    Ok (map (fun dev => if f64_ltb f64_1e8 dev then f64_sqrt (f64_div dev size) else 0) devs, sk).
End Sketch.

(** ** Bit counts *)

Lemma shl1_pow n : 0 <= n < 31 -> shl1 n = 2 ^ n.
Proof.
  intros Hn. unfold shl1, s32. rewrite Z.shiftl_1_l. assert (2 ^ n < 2 ^ 31) by (apply Z.pow_lt_mono_r; lia).
  assert (0 < 2 ^ n) by (apply Z.pow_pos_nonneg; lia). rewrite Z.mod_small; lia.
Qed.

(** The least [b] from [bits] on with [ts <= 2^b]. *)
Lemma count_bits_spec fuel ts bits top :
  0 <= bits <= top -> top < 31 -> ts <= 2 ^ top -> top - bits <= Z.of_nat fuel ->
  let b := count_bits fuel ts bits in
  bits <= b <= top /\ ts <= 2 ^ b /\ (b = bits \/ 2 ^ (b - 1) < ts).
Proof.
  revert bits. induction fuel as [|fuel IH]; intros bits Hb Ht Hts Hf; cbn [count_bits].
  { assert (bits = top) as -> by lia. split; [lia|]. split; [done|by left]. }
  rewrite (proj2 (Z.ltb_lt bits 32)) by lia. rewrite shl1_pow by lia. cbn [andb].
  destruct (Z.ltb_spec (2 ^ bits) ts) as [Hlt|Hge].
  - assert (bits <> top) by (intros ->; lia).
    destruct (IH (bits + 1)) as (H1 & H2 & H3); [lia|done|done|lia|].
    split; [lia|]. split; [done|]. right. destruct H3 as [->|H3]; [|done].
    by replace (bits + 1 - 1) with bits by lia.
  - split; [lia|]. split; [done|by left].
Qed.

Lemma count_bits_pow b : 0 <= b < 31 -> count_bits 32 (2 ^ b) 0 = b.
Proof.
  intros Hb. destruct (count_bits_spec 32 (2 ^ b) 0 b) as (H1 & H2 & H3); [lia|lia|done|lia|].
  set (c := count_bits 32 (2 ^ b) 0) in *. destruct (decide (c = b)) as [|Hne]; [done|].
  assert (2 ^ c < 2 ^ b) by (apply Z.pow_lt_mono_r; lia). lia.
Qed.

Lemma count_tabs_spec fuel total bits tabs k :
  0 <= bits <= 26 -> tabs = 15 + 2 * Z.of_nat k -> tabs <= 31 -> (k <= fuel)%nat ->
  let t := count_tabs fuel total bits tabs in
  exists j, t = 15 + 2 * Z.of_nat j /\ (j <= k)%nat
  /\ (t = 15 \/ (t - 2) * 2 ^ bits < total) /\ (t = tabs \/ total <= t * 2 ^ bits).
Proof.
  intros Hb. assert (0 < 2 ^ bits <= 2 ^ 26) as Hp.
  { split; [apply Z.pow_pos_nonneg; lia|apply Z.pow_le_mono_r; lia]. }
  revert tabs k. induction fuel as [|fuel IH]; intros tabs k Ht Hle Hk; cbn [count_tabs].
  { assert (k = 0%nat) as -> by lia. exists 0%nat. split; [done|]. split; [lia|]. split; left; lia. }
  unfold kMinTabs. destruct (Z.ltb_spec 15 tabs) as [Hlt|Hge]; cbn [negb].
  - rewrite Z.shiftl_mul_pow2 by lia. unfold s32. rewrite Z.mod_small by nia.
    destruct (Z.ltb_spec ((tabs - 2) * 2 ^ bits + 2 ^ 31 - 2 ^ 31) total) as [H|H].
    + exists k. split; [done|]. split; [done|]. split; [right; lia|by left].
    + destruct k as [|k]; [lia|].
      destruct (IH (tabs - 2) k) as (j & Ej & Hj & H1 & H2); [lia|lia|lia|].
      exists j. split; [done|]. split; [lia|]. split; [done|]. right. destruct H2 as [->|H2]; lia.
  - exists k. split; [done|]. split; [done|]. split; left; lia.
Qed.

Lemma Dims_spec total : 0 <= total < 2 ^ 30 -> exists j b,
  Dims total = (15 + 2 * Z.of_nat j, 2 ^ b) /\ (j <= 8)%nat /\ 2 <= b <= 26
  /\ total < (15 + 2 * Z.of_nat j) * 2 ^ b + 31
  /\ (124 < total -> (15 + 2 * Z.of_nat j - 2) * 2 ^ b < total).
Proof.
  intros Ht. unfold Dims. rewrite Z.quot_div_nonneg by lia.
  pose proof (Z.div_mod total 31 ltac:(lia)) as D. pose proof (Z.mod_pos_bound total 31 ltac:(lia)) as R.
  set (ts := total / 31) in *.
  destruct (count_bits_spec 32 ts 2 26) as (B1 & B2 & B3); [lia|lia|lia|lia|].
  set (b := count_bits 32 ts 2) in *.
  destruct (count_tabs_spec 16 total b kMaxTabs 8) as (j & Ej & Hj & H1 & H2); [lia|done|unfold kMaxTabs; lia|lia|].
  exists j, b. rewrite Ej, shl1_pow by lia. split; [done|]. split; [done|]. split; [done|].
  rewrite Ej in *. split.
  - destruct H2 as [->|H2]; [unfold kMaxTabs|]; lia.
  - intros Hbig. destruct H1 as [H1|H1]; [|done]. rewrite H1.
    destruct B3 as [B3|B3]; [rewrite B3 in *; lia|].
    assert (2 ^ b = 2 * 2 ^ (b - 1)) as E by (rewrite <- Z.pow_succ_r by lia; f_equal; lia). lia.
Qed.

(** ** Indexes stay in their rows *)

(** The dimensions the constructor accepts. *)
Definition dims_ok (sk : SzlSketch) : Prop :=
  (exists b, 0 <= b <= 26 /\ tabBits_ sk = b /\ tabSize_ sk = 2 ^ b)
  /\ kMinTabs <= nTabs_ sk <= kMaxTabs /\ nTabs_ sk mod 2 = 1.

Lemma dims_n sk : dims_ok sk -> 0 < tabSize_ sk /\ sketch_n sk = Z.to_nat (nTabs_ sk * tabSize_ sk).
Proof.
  intros ((b & Hb & _ & Es) & Hn & _). unfold kMinTabs, kMaxTabs in Hn. unfold sketch_n. rewrite Es.
  assert (0 < 2 ^ b <= 2 ^ 26) by (split; [apply Z.pow_pos_nonneg; lia|apply Z.pow_le_mono_r; lia]).
  split; [lia|]. unfold s32. assert (0 <= nTabs_ sk * 2 ^ b <= 31 * 2 ^ 26) by nia.
  rewrite Z.mod_small by lia. by rewrite Z.add_simpl_r.
Qed.

(** One entry for each row, in its row. *)
Definition index_ok (sk : SzlSketch) (index : Index) : Prop :=
  length index = Z.to_nat (nTabs_ sk)
  /\ forall i e s, index !! i = Some (e, s) ->
       Z.of_nat i * tabSize_ sk <= Z.of_nat e < (Z.of_nat i + 1) * tabSize_ sk /\ (s = 0 \/ s = 1).

Section Indexes.
Context (MD5Digest : bytes -> bytes).

Lemma refill_nonneg fuel tabBits h : 0 <= hbits h -> 0 <= hbits (refill MD5Digest fuel tabBits h).
Proof.
  revert h. induction fuel as [|fuel IH]; intros h Hh; cbn [refill]; [done|].
  destruct (nbits h <? tabBits + 1); [|done]. destruct (_ =? 16)%nat; apply IH; cbn [hbits];
    apply Z.lor_nonneg; (split; [done|apply u32_range]).
Qed.

(** The loop stops with the bits it needs. *)
Lemma refill_enough fuel tabBits h :
  tabBits + 1 <= nbits h + 8 * Z.of_nat fuel -> tabBits + 1 <= nbits (refill MD5Digest fuel tabBits h).
Proof.
  revert h. induction fuel as [|fuel IH]; intros h Hf; cbn [refill]; [lia|].
  destruct (Z.ltb_spec (nbits h) (tabBits + 1)) as [Hlt|Hge]; [|done].
  destruct (_ =? 16)%nat; apply IH; cbn [nbits]; lia.
Qed.

Lemma land_1 x : Z.land x 1 = 0 \/ Z.land x 1 = 1.
Proof.
  pose proof (land_mask x 1 ltac:(lia)) as E. change (2 ^ 1 - 1) with 1 in E. change (2 ^ 1) with 2 in E.
  rewrite E. pose proof (Z.mod_pos_bound x 2 ltac:(lia)). lia.
Qed.

Lemma index_rows_spec rows tabSize tabBits origin h :
  0 <= tabBits < 31 -> tabSize = 2 ^ tabBits -> 0 <= origin -> 0 <= hbits h ->
  let index := index_rows MD5Digest rows tabSize tabBits origin h in
  length index = rows
  /\ forall i e s, index !! i = Some (e, s) ->
       origin + Z.of_nat i * tabSize <= Z.of_nat e < origin + (Z.of_nat i + 1) * tabSize /\ (s = 0 \/ s = 1).
Proof.
  intros Hb Hs. assert (0 < 2 ^ tabBits) as Hp by (apply Z.pow_pos_nonneg; lia).
  revert origin h. induction rows as [|rows IH]; intros origin h Ho Hh; cbn [index_rows]; [done|].
  set (h' := refill MD5Digest (Z.to_nat (tabBits + 1)) tabBits h).
  pose proof (refill_nonneg (Z.to_nat (tabBits + 1)) tabBits h Hh) as Hh'. fold h' in Hh'.
  destruct (IH (origin + tabSize) (MkBits (digest h') (digi h') (Z.shiftr (Z.shiftr (hbits h') tabBits) 1)
    (nbits h' - (tabBits + 1)))) as [HL HI]; [lia|cbn; rewrite !Z.shiftr_nonneg; done|].
  split; [cbn; by rewrite HL|]. intros [|i] e s Hi.
  - injection Hi as <- <-. split; [|apply land_1]. rewrite shl1_pow, land_mask by lia.
    pose proof (Z.mod_pos_bound (hbits h') (2 ^ tabBits) Hp). lia.
  - cbn in Hi. apply HI in Hi as [He Hsig]. split; [|done]. lia.
Qed.

Lemma ComputeIndex_ok sk s : dims_ok sk -> index_ok sk (ComputeIndex MD5Digest sk s).
Proof.
  intros ((b & Hb & Eb & Es) & Hn & _). unfold index_ok, ComputeIndex.
  destruct (index_rows_spec (Z.to_nat (nTabs_ sk)) (tabSize_ sk) (tabBits_ sk) 0 (MkBits (MD5Digest s) 0 0 0)) as [HL HI];
    [lia|congruence|lia|done|]. split; [done|]. intros i e s' Hi. apply HI in Hi as [He Hs]. split; [lia|done].
Qed.

(** Indexes only depend on the dimensions. *)
Lemma ComputeIndex_dims sk sk' s :
  nTabs_ sk = nTabs_ sk' -> tabSize_ sk = tabSize_ sk' -> tabBits_ sk = tabBits_ sk' ->
  ComputeIndex MD5Digest sk s = ComputeIndex MD5Digest sk' s.
Proof. unfold ComputeIndex. congruence. Qed.
End Indexes.

Lemma index_ok_row sk index i j e s e' s' :
  0 < tabSize_ sk -> index_ok sk index -> index !! i = Some (e, s) -> index !! j = Some (e', s') -> e = e' -> i = j.
Proof.
  intros Hp [_ H] Hi Hj <-. apply H in Hi as [Hi _]. apply H in Hj as [Hj _]. nia.
Qed.

Lemma index_ok_NoDup sk index : 0 < tabSize_ sk -> index_ok sk index -> NoDup (map fst index).
Proof.
  intros Hp Hok. apply NoDup_alt. intros i j e Hi Hj. rewrite list_lookup_fmap in Hi. rewrite list_lookup_fmap in Hj.
  destruct (index !! i) as [[e1 s1]|] eqn:E1; [|done]. destruct (index !! j) as [[e2 s2]|] eqn:E2; [|done].
  cbn in Hi, Hj. apply (index_ok_row sk index i j e1 s1 e2 s2); congruence.
Qed.

Lemma index_ok_bound sk index :
  0 < tabSize_ sk -> 0 <= nTabs_ sk -> index_ok sk index ->
  Forall (fun '(e, s) => (e < Z.to_nat (nTabs_ sk * tabSize_ sk))%nat /\ (s = 0 \/ s = 1)) index.
Proof.
  intros Hp Hn [Hl H]. apply Forall_lookup_2. intros i [e s] Hi. pose proof (lookup_lt_Some _ _ _ Hi).
  apply H in Hi as [He Hs]. split; [nia|done].
Qed.

(** ** The contents of a sketch

    The component [j] of the cell [i]; the sign with which a string enters it. *)

Fixpoint idx_sign (index : Index) (i : nat) : Z :=
  match index with
  | [] => 0
  | (e, s) :: index => if (e =? i)%nat then (if s =? 0 then 1 else -1) else idx_sign index i
  end.

Lemma idx_sign_absent index i : i ∉ map fst index -> idx_sign index i = 0.
Proof.
  induction index as [|[e s] index IH]; cbn [idx_sign map fst]; [done|]. intros Hn.
  apply not_elem_of_cons in Hn as [H1 H2]. destruct (Nat.eqb_spec e i); [congruence|]. by apply IH.
Qed.

Lemma idx_sign_lookup index r e s :
  NoDup (map fst index) -> index !! r = Some (e, s) -> idx_sign index e = if s =? 0 then 1 else -1.
Proof.
  revert r. induction index as [|[e' s'] index IH]; intros r Hd Hr; [done|]. cbn [map fst] in Hd.
  apply NoDup_cons in Hd as [Hn Hd]. cbn [idx_sign]. destruct r as [|r].
  - injection Hr as -> ->. by rewrite Nat.eqb_refl.
  - change (index !! r = Some (e, s)) in Hr. destruct (Nat.eqb_spec e' e) as [->|]; [|by apply (IH r)]. exfalso. apply Hn.
    apply list_elem_of_lookup. exists r. by rewrite list_lookup_fmap, Hr.
Qed.

Section Contents.
Context (ops : SzlOps) (ks : list Kind) (Ho : num_ops ops ks).
#[local] Abbreviation cell := (num_cell ops ks).
#[local] Abbreviation at_ := (num_at ops ks).

Definition cell_at (ws : list SzlValue) (i j : nat) : Z := at_ (nth i ws VNil) j.

Lemma nth_cell ws i : Forall cell ws -> cell (nth i ws VNil).
Proof.
  intros H. destruct (nth_in_or_default i ws VNil) as [Hin| ->]; [|by apply cell_VNil].
  by apply (proj1 (List.Forall_forall _ _) H).
Qed.

Lemma nth_insert (ws : list SzlValue) e w i :
  (e < length ws)%nat -> nth i (<[e := w]> ws) VNil = if (e =? i)%nat then w else nth i ws VNil.
Proof.
  intros He. rewrite !nth_lookup. destruct (Nat.eqb_spec e i) as [->|Hne].
  - by rewrite list_lookup_insert_eq.
  - by rewrite list_lookup_insert_ne.
Qed.

Lemma add_sub_rows_spec index v isAdd ws :
  Forall cell ws -> cell v -> isAdd = 0 \/ isAdd = 1 ->
  NoDup (map fst index) -> Forall (fun '(e, s) => (e < length ws)%nat /\ (s = 0 \/ s = 1)) index -> exists ws',
    add_sub_rows ops index v isAdd ws = Ok ws' /\ Forall cell ws' /\ length ws' = length ws
    /\ forall i j, cell_at ws' i j = s64 (cell_at ws i j + (2 * isAdd - 1) * idx_sign index i * at_ v j).
Proof.
  intros Hws Hv Ha. revert ws Hws. induction index as [|[e s] index IH]; intros ws Hws Hd Hb.
  { exists ws. split; [done|]. split; [done|]. split; [done|]. intros i j. cbn [idx_sign].
    rewrite Z.mul_0_r, Z.mul_0_l, Z.add_0_r. symmetry. apply s64_id, num_at_range; [done|by apply nth_cell]. }
  cbn [map fst] in Hd. apply NoDup_cons in Hd as [Hn Hd]. apply Forall_cons in Hb as [[He Hs] Hb].
  destruct (lookup_lt_is_Some_2 ws e He) as [w Hw]. pose proof (Forall_lookup_1 _ _ _ _ Hws Hw) as Cw.
  cbn [add_sub_rows]. rewrite Hw.
  assert (exists w', (if s =? isAdd then Sub ops v w else Add ops v w) = Ok w' /\ cell w'
    /\ forall j, at_ w' j = s64 (at_ w j + (2 * isAdd - 1) * (if s =? 0 then 1 else -1) * at_ v j)) as (w' & -> & Cw' & Dw').
  { destruct (Z.eqb_spec s isAdd) as [->|Hne].
    - destruct (sub_at ops ks Ho v w Hv Cw) as (w' & E & C & D). exists w'. split; [done|]. split; [done|].
      intros j. rewrite D. f_equal. destruct Ha as [-> | ->]; cbn; lia.
    - destruct (add_at ops ks Ho v w Hv Cw) as (w' & E & C & D & _). exists w'. split; [done|]. split; [done|].
      intros j. rewrite D. f_equal. destruct Ha as [-> | ->], Hs as [-> | ->]; try done; cbn; lia. }
  cbn [mbind res_bind]. destruct (IH (<[e := w']> ws)) as (ws' & E & C & L & D).
  - by apply Forall_insert.
  - done.
  - by rewrite length_insert.
  - exists ws'. split; [done|]. split; [done|]. rewrite length_insert in L. split; [done|].
    intros i j. rewrite D. unfold cell_at. rewrite nth_insert by done. cbn [idx_sign].
    destruct (Nat.eqb_spec e i) as [->|Hne]; [|done].
    rewrite idx_sign_absent by done. rewrite Dw'. replace (nth i ws VNil) with w by (by rewrite nth_lookup, Hw).
    autorewrite with szl. f_equal. lia.
Qed.

(** *** Invariant *)

Definition sketch_wf (sk : SzlSketch) : Prop :=
  dims_ok sk /\ length (weights_ sk) = Z.to_nat (nTabs_ sk * tabSize_ sk)
  /\ length (tmp_ sk) = Z.to_nat kMaxTabs /\ Forall cell (weights_ sk) /\ Forall cell (tmp_ sk).

(** The contents are [f], modulo [2^64]. *)
Definition contents (sk : SzlSketch) (f : nat -> nat -> Z) : Prop :=
  forall i j, cell_at (weights_ sk) i j = s64 (f i j).

Definition same_dims (sk sk' : SzlSketch) : Prop :=
  nTabs_ sk' = nTabs_ sk /\ tabSize_ sk' = tabSize_ sk /\ tabBits_ sk' = tabBits_ sk.

Lemma sketch_wf_index sk : sketch_wf sk -> 0 < tabSize_ sk /\ 0 <= nTabs_ sk.
Proof. intros (Hd & _). split; [apply (dims_n sk Hd)|]. destruct Hd as (_ & Hn & _). unfold kMinTabs in Hn. lia. Qed.

Lemma sketch_new_ok n b :
  kMinTabs <= n <= kMaxTabs -> n mod 2 = 1 -> 0 <= b <= 26 -> exists sk,
    sketch_new n (2 ^ b) = Ok sk /\ sketch_wf sk /\ contents sk (fun _ _ => 0)
    /\ nTabs_ sk = n /\ tabSize_ sk = 2 ^ b /\ tabBits_ sk = b.
Proof.
  intros Hn Hodd Hb. unfold sketch_new. unfold kMinTabs, kMaxTabs in *.
  pose proof (land_mask n 1 ltac:(lia)) as E1. change (2 ^ 1 - 1) with 1 in E1. change (2 ^ 1) with 2 in E1.
  assert (0 < 2 ^ b) as Hp by (apply Z.pow_pos_nonneg; lia).
  assert (Z.land (2 ^ b) (2 ^ b - 1) = 0) as E2 by (rewrite land_mask by lia; by apply Z.mod_same; lia).
  rewrite E1, E2, Hodd. rewrite (proj2 (Z.leb_le 15 n)), (proj2 (Z.leb_le n 31)), (proj2 (Z.ltb_lt 0 (2 ^ b))) by lia.
  cbn [andb check mbind res_bind Z.eqb Pos.eqb]. rewrite count_bits_pow by lia.
  eexists. split; [done|]. cbn [nTabs_ tabSize_ tabBits_ weights_ tmp_]. split; [|split; [|done]].
  - unfold sketch_wf. cbn [nTabs_ tabSize_ tabBits_ weights_ tmp_]. rewrite !length_replicate.
    split; [|split; [done|split; [done|split; apply Forall_replicate; by apply cell_VNil]]].
    split; [by exists b|]. split; [unfold kMinTabs, kMaxTabs; cbn; lia|done].
  - intros i j. unfold cell_at. cbn [weights_].
    assert (forall m, nth i (replicate m VNil) VNil = VNil) as ->; [|by apply num_at_VNil].
    intros m. revert i. induction m as [|m IH]; intros [|i]; try done. apply IH.
Qed.

Lemma AddSub_ok sk index v isAdd f :
  sketch_wf sk -> contents sk f -> index_ok sk index -> cell v -> isAdd = 0 \/ isAdd = 1 -> exists sk',
    AddSub ops sk index v isAdd = Ok sk' /\ sketch_wf sk' /\ same_dims sk sk'
    /\ contents sk' (fun i j => f i j + (2 * isAdd - 1) * idx_sign index i * at_ v j).
Proof.
  intros Hwf Hf Hi Hv Ha. destruct (sketch_wf_index sk Hwf) as [Hp Hn].
  destruct Hwf as (Hd & Hl & Ht & Hw & Htmp). unfold AddSub.
  destruct (add_sub_rows_spec index v isAdd (weights_ sk) Hw Hv Ha) as (ws' & E & C & L & D).
  - by apply (index_ok_NoDup sk).
  - rewrite Hl. by apply index_ok_bound.
  - rewrite E. exists (set_weights ws' sk). split; [done|].
    unfold sketch_wf, set_weights, contents. cbn [weights_ tmp_ nTabs_ tabSize_ tabBits_].
    split; [by rewrite L|]. split; [done|]. intros i j. rewrite D, Hf. by autorewrite with szl.
Qed.

(** *** Estimates *)

Lemma row_values_spec index ws tmp :
  Forall cell ws -> Forall cell tmp -> (length index <= length tmp)%nat ->
  Forall (fun '(e, s) => (e < length ws)%nat /\ (s = 0 \/ s = 1)) index -> exists vs tmp',
    row_values ops index ws tmp = Ok (vs, tmp') /\ Forall cell vs /\ Forall cell tmp' /\ length tmp' = length tmp
    /\ length vs = length index
    /\ forall r e s j, index !! r = Some (e, s) ->
         at_ (nth r vs VNil) j = s64 ((if s =? 0 then 1 else -1) * cell_at ws e j).
Proof.
  intros Hws. revert tmp. induction index as [|[e s] index IH]; intros tmp Htmp Hl Hb.
  { exists [], tmp. by destruct tmp. }
  destruct tmp as [|t tmp]; [cbn in Hl; lia|]. apply Forall_cons in Hb as [[He Hs] Hb].
  apply Forall_cons in Htmp as [Ct Htmp]. cbn [row_values].
  destruct (lookup_lt_is_Some_2 ws e He) as [w Hw]. pose proof (Forall_lookup_1 _ _ _ _ Hws Hw) as Cw.
  assert (nth e ws VNil = w) as Ew by (by rewrite nth_lookup, Hw). rewrite Hw.
  destruct (IH tmp Htmp) as (vs & tmp' & E & Cv & Ctm & L & Lv & D); [cbn in Hl; lia|done|].
  destruct (Z.eqb_spec s 0) as [->|Hne]; cbn [negb].
  - rewrite E. exists (w :: vs), (t :: tmp'). split; [done|]. split; [by constructor|]. split; [by constructor|].
    split; [cbn; by rewrite L|]. split; [cbn; by rewrite Lv|]. intros [|r] e' s' j Hr; [|by apply (D r)].
    injection Hr as <- <-. unfold cell_at. rewrite Ew. cbn [nth Z.eqb]. rewrite Z.mul_1_l.
    symmetry. apply s64_id. by apply num_at_range.
  - destruct (negate_at ops ks Ho w t Cw Ct) as (t' & -> & Ct' & Dt). cbn [mbind res_bind]. rewrite E.
    exists (t' :: vs), (t' :: tmp'). split; [done|]. split; [by constructor|]. split; [by constructor|].
    split; [cbn; by rewrite L|]. split; [cbn; by rewrite Lv|]. intros [|r] e' s' j Hr; [|by apply (D r)].
    injection Hr as <- <-. unfold cell_at. rewrite Ew. cbn [nth]. rewrite Dt.
    rewrite (proj2 (Z.eqb_neq _ _) Hne). by f_equal.
Qed.

Lemma insert_by_spec less (key : SzlValue -> Z) x l :
  (forall a b, cell a -> cell b -> less a b = Ok (key a <? key b)) -> cell x -> Forall cell l ->
  StronglySorted (fun a b => key a <= key b) l -> exists l',
    insert_by less x l = Ok l' /\ l' ≡ₚ x :: l /\ StronglySorted (fun a b => key a <= key b) l'.
Proof.
  intros Hless Cx. induction 1 as [|y l Cy Cl IH]; intros Hs; cbn [insert_by].
  { exists [x]. split; [done|]. split; [done|]. repeat constructor. }
  apply StronglySorted_inv in Hs as [Hs Hy]. rewrite Hless by done. cbn [mbind res_bind].
  destruct (Z.ltb_spec (key y) (key x)) as [Hlt|Hge].
  - destruct (IH Hs) as (l' & -> & P & S). cbn [mbind res_bind]. exists (y :: l'). split; [done|].
    split; [rewrite P; apply perm_swap|]. constructor; [done|]. rewrite P. constructor; [lia|done].
  - exists (x :: y :: l). split; [done|]. split; [done|]. constructor; [by constructor|].
    constructor; [lia|]. eapply Forall_impl; [exact Hy|]. intros z Hz. cbn in Hz. lia.
Qed.

Lemma nth_element_spec less (key : SzlValue -> Z) l :
  (forall a b, cell a -> cell b -> less a b = Ok (key a <? key b)) -> Forall cell l -> exists l',
    nth_element less l = Ok l' /\ l' ≡ₚ l /\ StronglySorted (fun a b => key a <= key b) l'.
Proof.
  intros Hless. induction 1 as [|x l Cx Cl IH]; cbn [nth_element].
  { exists []. split; [done|]. split; [done|constructor]. }
  destruct IH as (l1 & -> & P1 & S1). cbn [mbind res_bind].
  destruct (insert_by_spec less key x l1 Hless Cx) as (l2 & -> & P2 & S2); [by rewrite P1|done|].
  exists l2. split; [done|]. split; [|done]. by rewrite P2, P1.
Qed.

Context (Hint : Forall (eq INT) ks).

Lemma estimate_at_ok n pos values mid est :
  Forall cell values -> cell est -> (pos + n <= length ks)%nat -> exists est',
    estimate_at ops n pos values mid est = Ok est' /\ cell est'.
Proof.
  revert pos values est. induction n as [|n IH]; intros pos values est Cv Ce Hpos; cbn [estimate_at]; [by exists est|].
  destruct (nth_element_spec (SzlSketchEstLess ops pos) (fun v => at_ v pos) values) as (vs & -> & P & _).
  - intros a b Ca Cb. by apply LessAtPos_cell; [|..|lia| |].
  - done.
  - cbn [mbind res_bind]. assert (Forall cell vs) as Cvs by (by rewrite P).
    destruct (AssignAtPos_cell ops ks Ho (nth mid vs VNil) pos est) as (e1 & -> & Ce1 & _);
      [lia|by apply nth_cell|done|]. cbn [mbind res_bind]. apply IH; [done|done|lia].
Qed.

Lemma nflats_ks : nflats_ ops = length ks.
Proof. destruct Ho; [done|]. unfold nflats_. cbn. apply length_map. Qed.

Lemma Estimate_ok sk index est :
  sketch_wf sk -> index_ok sk index -> cell est -> exists est' sk',
    Estimate ops sk index est = Ok (est', sk') /\ cell est' /\ sketch_wf sk' /\ same_dims sk sk'
    /\ weights_ sk' = weights_ sk.
Proof.
  intros Hwf Hi He. destruct (sketch_wf_index sk Hwf) as [Hp Hn].
  destruct Hwf as (Hd & Hl & Ht & Hw & Htmp). unfold Estimate.
  destruct (row_values_spec index (weights_ sk) (tmp_ sk) Hw Htmp) as (vs & tmp' & -> & Cv & Ctm & L & _).
  - rewrite Ht. destruct Hi as [-> _]. destruct Hd as (_ & Hd & _). lia.
  - rewrite Hl. by apply index_ok_bound.
  - cbn [mbind res_bind]. destruct (estimate_at_ok (nflats_ ops) 0 vs (Z.to_nat (Z.shiftr (nTabs_ sk) 1)) est)
      as (e' & -> & Ce); [done|done|by rewrite nflats_ks|]. cbn [mbind res_bind].
    exists e', (set_tmp tmp' sk). split; [done|]. split; [done|].
    unfold sketch_wf, set_tmp. cbn [weights_ tmp_ nTabs_ tabSize_ tabBits_]. by rewrite L.
Qed.

(** *** Whole sketches *)

Lemma mapM_add_ok ws ws' :
  Forall cell ws -> Forall cell ws' -> length ws = length ws' -> exists us,
    mapM (fun '(s, d) => Add ops s d) (zip ws ws') = Ok us /\ Forall cell us /\ length us = length ws
    /\ forall i j, cell_at us i j = s64 (cell_at ws' i j + cell_at ws i j).
Proof.
  intros Hw. revert ws'. induction Hw as [|w ws Cw Cws IH]; intros [|w' ws'] Hw' Hl; try done.
  { exists []. split; [done|]. split; [done|]. split; [done|]. intros i j. unfold cell_at.
    assert (forall l : list SzlValue, l = [] -> nth i l VNil = VNil) as -> by (by intros ? ->; destruct i).
    { by rewrite num_at_VNil. } done. }
  apply Forall_cons in Hw' as [Cw' Cws']. destruct (IH ws' Cws') as (us & E & C & L & D); [by injection Hl|].
  destruct (add_at ops ks Ho w w' Cw Cw') as (u & Eu & Cu & Du & _).
  exists (u :: us). split; [cbn; rewrite Eu; cbn [mbind res_bind]; by rewrite E|].
  split; [by constructor|]. split; [cbn; by rewrite L|]. intros [|i] j; [apply Du|apply D].
Qed.

Lemma AddSketch_ok sk sk1 f g :
  sketch_wf sk -> sketch_wf sk1 -> same_dims sk sk1 -> contents sk f -> contents sk1 g -> exists sk',
    AddSketch ops sk sk1 = Ok sk' /\ sketch_wf sk' /\ same_dims sk sk' /\ contents sk' (fun i j => f i j + g i j).
Proof.
  intros (Hd & Hl & Ht & Hw & Htmp) (Hd1 & Hl1 & _ & Hw1 & _) (E1 & E2 & E3) Hf Hg. unfold AddSketch.
  destruct (dims_n sk Hd) as [_ ->]. rewrite E1, E2 in Hl1.
  rewrite !take_ge, drop_ge by lia. destruct (mapM_add_ok (weights_ sk1) (weights_ sk)) as (us & -> & C & L & D);
    [done|done|congruence|]. cbn [mbind res_bind]. rewrite app_nil_r.
  exists (set_weights us sk). split; [done|]. unfold sketch_wf, set_weights, contents. cbn [weights_ tmp_ nTabs_ tabSize_ tabBits_].
  split; [by rewrite L, Hl1|]. split; [done|]. intros i j. rewrite D, Hf, Hg. by autorewrite with szl.
Qed.

(** The encoding of a list of weights. *)
Definition weights_code (ws : list SzlValue) : bytes := concat (map (fun w => num_code ks (num_den ops ks w)) ws).

Lemma weights_code_ok ws : Forall cell ws -> bytes_ok (weights_code ws).
Proof.
  induction 1 as [|w ws Cw Cws IH]; [constructor|]. apply Forall_app. split; [|done]. by apply (cell_codec ops ks Ho).
Qed.

Lemma encode_weights ws enc : Forall cell ws ->
  foldl (fun r w => enc ← r; Encode ops w enc) (Ok enc) ws = Ok (AppendEncoding enc (weights_code ws)).
Proof.
  intros Hw. revert enc. induction Hw as [|w ws Cw Cws IH]; intros enc; cbn [foldl].
  { unfold weights_code. cbn. by rewrite AppendEncoding_nil. }
  cbn [mbind res_bind]. rewrite (cell_encode ops ks Ho) by done. rewrite IH. unfold weights_code. cbn [map concat].
  by rewrite AppendEncoding_app.
Qed.

Lemma decode_weights_spec ws ds s rest :
  Forall cell ws -> Forall cell ds -> length ws = length ds -> bytes_ok rest -> exists us,
    decode_weights ops (MkDec s (weights_code ws ++ rest)) ds = Ok (MkDec s rest, us)
    /\ Forall cell us /\ length us = length ws /\ forall i j, cell_at us i j = cell_at ws i j.
Proof.
  intros Hw. revert ds. induction Hw as [|w ws Cw Cws IH]; intros [|d ds] Hd Hl Hr; try done.
  { by exists []. }
  apply Forall_cons in Hd as [Cd Cds]. destruct (IH ds Cds) as (us & E & C & L & D); [by injection Hl|done|].
  destruct (cell_codec ops ks Ho w Cw) as (_ & _ & Hdec).
  destruct (Hdec s (weights_code ws ++ rest) d) as (u & Eu & Gu & Du); [|done|].
  { apply Forall_app. split; [by apply weights_code_ok|done]. }
  exists (u :: us). unfold weights_code in *. cbn [map concat decode_weights]. rewrite <- app_assoc, Eu.
  cbn [mbind res_bind]. rewrite E. split; [done|]. split; [constructor; [by apply good_cell|done]|].
  split; [cbn; by rewrite L|]. intros [|i] j; [|apply D]. unfold cell_at, num_at. cbn. by rewrite Du.
Qed.

Lemma sketch_codec sk sk1 enc s rest f :
  sketch_wf sk -> sketch_wf sk1 -> same_dims sk sk1 -> contents sk f -> bytes_ok rest ->
  sketch_Encode ops sk enc = Ok (AppendEncoding enc (weights_code (weights_ sk)))
  /\ exists sk', sketch_Decode ops sk1 (MkDec s (weights_code (weights_ sk) ++ rest)) = Ok (MkDec s rest, sk')
     /\ sketch_wf sk' /\ same_dims sk sk' /\ contents sk' f.
Proof.
  intros (Hd & Hl & Ht & Hw & Htmp) (Hd1 & Hl1 & Ht1 & Hw1 & Htmp1) (E1 & E2 & E3) Hf Hr. split.
  - unfold sketch_Encode. destruct (dims_n sk Hd) as [_ ->]. rewrite take_ge by lia. by apply encode_weights.
  - unfold sketch_Decode. rewrite E1, E2 in Hl1.
    destruct (decode_weights_spec (weights_ sk) (weights_ sk1) s rest Hw Hw1) as (us & -> & C & L & D); [congruence|done|].
    cbn [mbind res_bind]. exists (set_weights us sk1). split; [done|].
    unfold sketch_wf, set_weights, contents. cbn [weights_ tmp_ nTabs_ tabSize_ tabBits_].
    rewrite L, E1, E2, E3. split; [done|]. split; [done|]. intros i j. by rewrite D, Hf.
Qed.

(** Reading a sketch from arbitrary bytes. *)
Lemma decode_weights_any ds s q : Forall cell ds -> bytes_ok q ->
  decode_weights ops (MkDec s q) ds = Fail
  \/ exists q' us, decode_weights ops (MkDec s q) ds = Ok (MkDec s q', us) /\ q' `suffix_of` q
       /\ Forall cell us /\ length us = length ds.
Proof.
  intros Hd. revert q. induction Hd as [|d ds Cd Cds IH]; intros q Hq; [right; by exists q, []|]. cbn [decode_weights].
  pose proof (num_decode_any ops ks Ho s q d Hq Cd) as H. destruct (ops_Skip ops (MkDec s q)) as [dec|]; [|left; by rewrite H].
  destruct H as (q1 & v & -> & Hs & Gv & ->). cbn [mbind res_bind].
  destruct (IH q1 (suffix_bytes_ok _ _ Hs Hq)) as [->|(q' & us & -> & Hs' & Cu & L)]; [by left|right]. cbn [mbind res_bind].
  exists q', (v :: us). split; [done|]. split; [by transitivity q1|]. split; [constructor; [by apply good_cell|done]|cbn; by rewrite L].
Qed.

Lemma sketch_Decode_any sk s q : sketch_wf sk -> bytes_ok q ->
  sketch_Decode ops sk (MkDec s q) = Fail
  \/ exists q' sk', sketch_Decode ops sk (MkDec s q) = Ok (MkDec s q', sk') /\ q' `suffix_of` q /\ sketch_wf sk' /\ same_dims sk sk'.
Proof.
  intros (Hd & Hl & Ht & Hw & Htmp) Hq. unfold sketch_Decode.
  destruct (decode_weights_any (weights_ sk) s q Hw Hq) as [->|(q' & us & -> & Hs & Cu & L)]; [by left|right]. cbn [mbind res_bind].
  exists q', (set_weights us sk). split; [done|]. split; [done|]. split; [|done].
  unfold sketch_wf, set_weights. cbn [weights_ tmp_ nTabs_ tabSize_ tabBits_]. by rewrite L.
Qed.

(** *** The deviation *)

Lemma ToFloat_cell v : cell v -> exists fs, ToFloat ops v = Ok fs /\ length fs = length ks.
Proof.
  intros Hv. unfold ToFloat. destruct (decide (ops_kind ops = TUPLE)) as [Hk|Hk].
  - rewrite Hk. unfold num_cell in Hv. rewrite bool_decide_eq_true_2 in Hv by done. destruct Hv as [Hl _].
    destruct (vvals v) as [|x vals]; [eexists; split; [done|]; by rewrite length_replicate, nflats_ks|].
    destruct Hl as [Hl|Hl]; [done|]. destruct (tuple_kind ops ks Ho Hk) as (t & -> & _ & _). cbn [cells_].
    rewrite map_map.
    destruct (loop_map_total (map (fun (k : Kind) v => if bool_decide (k = FLOAT) then Ok (vf v)
        else if bool_decide (k = INT) then Ok (f64_of_int (vi v)) else Fatal) ks)
      (map (fun (k : Kind) v => if bool_decide (k = FLOAT) then Ok (vf v)
        else if bool_decide (k = INT) then Ok (f64_of_int (vi v)) else Fatal) ks) (x :: vals) (fun _ => True)) as (ws & -> & L & _).
    + apply Forall_map. eapply Forall_impl; [exact Hint|]. cbn. intros k <- w. by eexists.
    + rewrite length_map. lia.
    + exists ws. split; [done|]. by rewrite L.
  - destruct (scalar_kind ops ks Ho Hk) as (t & Eo & Ek & Hkt).
    assert (kind_ t = INT) as Hi by (rewrite Ek in Hint; by apply Forall_inv in Hint). rewrite Eo. unfold ops_kind. cbn [type_].
    rewrite Hi, Ek. by eexists.
Qed.

Lemma column_index_ok sk i : dims_ok sk -> 0 <= i < tabSize_ sk ->
  index_ok sk (map (fun row => (Z.to_nat (i + row * tabSize_ sk), 0)) (seqZ 0 (nTabs_ sk))).
Proof.
  intros Hd Hi. split; [by rewrite length_map, length_seqZ|]. intros r e s Hr. rewrite list_lookup_fmap in Hr.
  destruct (seqZ 0 (nTabs_ sk) !! r) as [row|] eqn:E; [|done]. cbn in Hr. injection Hr as <- <-.
  apply lookup_seqZ in E as [-> Hlt]. split; [|by left]. rewrite Z2Nat.id by nia. nia.
Qed.

Lemma column_values_ok n i sk col :
  sketch_wf sk -> cell col -> 0 <= i -> i + Z.of_nat n <= tabSize_ sk -> exists cs sk',
    column_values ops n i sk col = Ok (cs, sk') /\ length cs = n /\ sketch_wf sk' /\ same_dims sk sk' /\ weights_ sk' = weights_ sk.
Proof.
  revert i sk col. induction n as [|n IH]; intros i sk col Hwf Hc Hi Hn; [by exists [], sk|]. cbn [column_values].
  destruct (Estimate_ok sk _ col Hwf (column_index_ok sk i (proj1 Hwf) ltac:(lia)) Hc) as (v & sk1 & -> & Cv & Hwf1 & Hd1 & E1).
  cbn [mbind res_bind]. destruct (ToFloat_cell v Cv) as (fs & -> & _). cbn [mbind res_bind].
  destruct (IH (i + 1) sk1 v Hwf1 Cv) as (cs & sk2 & -> & L & Hwf2 & Hd2 & E2); [lia|destruct Hd1 as (_ & -> & _); lia|].
  cbn [mbind res_bind]. exists (fs :: cs), sk2. split; [done|]. split; [cbn; by rewrite L|]. split; [done|].
  destruct Hd1 as (A1 & A2 & A3), Hd2 as (B1 & B2 & B3). split; [split_and!; congruence|congruence].
Qed.

Lemma StdDeviation_ok sk : sketch_wf sk -> exists devs sk',
  StdDeviation ops sk = Ok (devs, sk') /\ sketch_wf sk' /\ same_dims sk sk' /\ weights_ sk' = weights_ sk.
Proof.
  intros Hwf. destruct (sketch_wf_index sk Hwf) as [Hp _]. unfold StdDeviation. rewrite (proj2 (Z.eqb_neq _ _)) by lia.
  destruct (column_values_ok (Z.to_nat (tabSize_ sk)) 0 sk VNil Hwf (cell_VNil ops ks)) as (cs & sk' & -> & _ & H1 & H2 & H3); [lia|lia|].
  cbn [mbind res_bind]. by eexists _, sk'.
Qed.

(** *** The median of a majority *)

Lemma median_majority (key : SzlValue -> Z) l mid z :
  StronglySorted (fun a b => key a <= key b) l -> length l = (2 * mid + 1)%nat ->
  (mid < length (filter (fun v => key v = z) l))%nat -> key (nth mid l VNil) = z.
Proof.
  intros Hs Hl Hm. destruct (lookup_lt_is_Some_2 l mid ltac:(lia)) as [m Em].
  rewrite (nth_lookup l mid), Em. cbn [default from_option].
  rewrite <- (take_drop_middle l mid m Em) in Hs, Hm.
  pose proof (length_take_le l mid ltac:(lia)) as Lt. pose proof (length_drop l (S mid)) as Ld.
  assert (forall a, a ∈ take mid l -> key a <= key m) as Ha.
  { intros a Hin. apply (StronglySorted_app_1_elem_of _ _ _ _ _ Hs Hin). left. }
  assert (forall b, b ∈ drop (S mid) l -> key m <= key b) as Hb.
  { intros b Hin. apply StronglySorted_app_1_r in Hs. apply StronglySorted_inv in Hs as [_ Hs].
    exact (proj1 (Forall_forall _ _) Hs b Hin). }
  rewrite filter_app, filter_cons, length_app in Hm.
  destruct (Z.lt_trichotomy (key m) z) as [Hlt|[Heq|Hgt]]; [exfalso|done|exfalso].
  - rewrite (filter_none _ (take mid l)) in Hm.
    + rewrite decide_False in Hm by lia. cbn [length] in Hm.
      pose proof (length_filter (fun v => key v = z) (drop (S mid) l)). lia.
    + apply Forall_forall. intros a Hin. pose proof (Ha a Hin). lia.
  - rewrite (filter_none _ (drop (S mid) l)) in Hm.
    + rewrite decide_False in Hm by lia. cbn [length] in Hm.
      pose proof (length_filter (fun v => key v = z) (take mid l)). lia.
    + apply Forall_forall. intros a Hin. pose proof (Hb a Hin). lia.
Qed.

(** *** Strings that entered a sketch *)

Section Entered.
Context (MD5Digest : bytes -> bytes).
Implicit Types (l : list (bytes * SzlValue)).

(** What the elements [l] add to a cell, and the weight of a string among them. *)
Definition entered (sk : SzlSketch) l (i j : nat) : Z :=
  sumZ (fun '(t, w) => idx_sign (ComputeIndex MD5Digest sk t) i * at_ w j) l.
Definition true_weight l (s : bytes) (j : nat) : Z :=
  sumZ (fun '(t, w) => if bool_decide (t = s) then at_ w j else 0) l.

(** No other string shares the cell of [s] in the row. *)
Definition clean_row (sk : SzlSketch) l (s : bytes) (r : nat) : bool :=
  forallb (fun '(t, _) => bool_decide (t = s)
    || negb (fst (nth r (ComputeIndex MD5Digest sk t) (O, 0%Z)) =? fst (nth r (ComputeIndex MD5Digest sk s) (O, 0%Z)))%nat) l.

Lemma entered_same_dims sk sk' l i j : same_dims sk sk' -> entered sk' l i j = entered sk l i j.
Proof.
  intros (E1 & E2 & E3). unfold entered. apply sumZ_ext, Forall_true. intros [t w].
  by rewrite (ComputeIndex_dims MD5Digest sk' sk t).
Qed.

Lemma clean_row_value sk l s r e sg j :
  sketch_wf sk -> ComputeIndex MD5Digest sk s !! r = Some (e, sg) -> clean_row sk l s r = true ->
  (if sg =? 0 then 1 else -1) * entered sk l e j = true_weight l s j.
Proof.
  intros Hwf Hr Hc. destruct (sketch_wf_index sk Hwf) as [Hp Hn]. pose proof (proj1 Hwf) as Hd.
  assert (forall t, index_ok sk (ComputeIndex MD5Digest sk t)) as Hok by (intros t; by apply ComputeIndex_ok).
  assert (forall t, NoDup (map fst (ComputeIndex MD5Digest sk t))) as Hnd.
  { intros t. apply (index_ok_NoDup sk); [done|apply Hok]. }
  unfold entered, true_weight. rewrite <- sumZ_scale. apply sumZ_ext, Forall_forall. intros [t w] Hin.
  unfold clean_row in Hc. rewrite forallb_forall in Hc. specialize (Hc (t, w)). rewrite <- list_elem_of_In in Hc.
  specialize (Hc Hin). cbn in Hc. case_bool_decide as Et; cbn [orb] in Hc.
  - subst t. rewrite (idx_sign_lookup _ r e sg) by done. destruct (sg =? 0); lia.
  - apply negb_true_iff, Nat.eqb_neq in Hc.
    rewrite (nth_lookup (ComputeIndex MD5Digest sk s)), Hr in Hc.
    rewrite (nth_lookup (ComputeIndex MD5Digest sk t)) in Hc. cbn [default from_option fst] in Hc.
    rewrite idx_sign_absent; [lia|]. intros Hin'.
    apply list_elem_of_lookup in Hin' as [r' Hr']. rewrite list_lookup_fmap in Hr'.
    destruct (ComputeIndex MD5Digest sk t !! r') as [[e' s']|] eqn:E'; [|done]. cbn in Hr'. injection Hr' as <-.
    destruct (Hok s) as [_ Hs]. destruct (Hok t) as [_ Ht]. pose proof (Hs _ _ _ Hr) as [Rs _].
    pose proof (Ht _ _ _ E') as [Rt _]. assert (r' = r) as -> by nia. by rewrite E' in Hc.
Qed.

(** The estimate of a number is exact when most rows are clean. *)
Lemma Estimate_clean sk l s est :
  sketch_wf sk -> contents sk (entered sk l) -> ops_kind ops <> TUPLE -> cell est ->
  (Z.to_nat (nTabs_ sk) < 2 * length (filter (fun r => clean_row sk l s r = true) (seq 0 (Z.to_nat (nTabs_ sk)))))%nat ->
  exists est' sk', Estimate ops sk (ComputeIndex MD5Digest sk s) est = Ok (est', sk')
    /\ weights_ sk' = weights_ sk /\ vi est' = s64 (true_weight l s 0).
Proof.
  intros Hwf Hf Hk He Hmost. destruct (sketch_wf_index sk Hwf) as [Hp Hn].
  pose proof (ComputeIndex_ok MD5Digest sk s (proj1 Hwf)) as Hi. set (index := ComputeIndex MD5Digest sk s) in *.
  pose proof Hwf as (Hd & Hl & Ht & Hw & Htmp). pose proof (proj1 Hi) as Li.
  destruct Hd as (_ & Hrange & Hodd). unfold kMinTabs, kMaxTabs in *.
  destruct (row_values_spec index (weights_ sk) (tmp_ sk) Hw Htmp) as (vs & tmp' & Ev & Cv & Ctm & L & Lv & D).
  { rewrite Ht, Li. lia. } { rewrite Hl. by apply index_ok_bound. }
  destruct (scalar_kind ops ks Ho Hk) as (t & _ & Ek & _).
  destruct (nth_element_spec (SzlSketchEstLess ops 0) (fun v => at_ v 0) vs) as (us & Eu & P & S); [|done|].
  { intros a b Ca Cb. apply LessAtPos_cell; try done. rewrite Ek. cbn. lia. }
  unfold Estimate. rewrite Ev. cbn [mbind res_bind]. rewrite nflats_ks, Ek. cbn [length estimate_at].
  rewrite Eu. cbn [mbind res_bind]. set (mid := Z.to_nat (Z.shiftr (nTabs_ sk) 1)).
  assert (Forall cell us) as Cu by (by rewrite P).
  destruct (AssignAtPos_cell ops ks Ho (nth mid us VNil) 0 est) as (e1 & -> & Ce1 & De1);
    [rewrite Ek; cbn; lia|by apply nth_cell|done|]. cbn [mbind res_bind].
  exists e1, (set_tmp tmp' sk). split; [done|]. split; [done|].
  assert (vi e1 = at_ (nth mid us VNil) 0) as ->.
  { rewrite bool_decide_eq_false_2 in De1 by tauto. rewrite scalar_den in De1 by done.
    rewrite (scalar_den ops ks est Hk) in De1. by injection De1. }
  assert (length us = (2 * mid + 1)%nat) as Lu.
  { rewrite (Permutation_length P), Lv, Li. unfold mid. rewrite Z.shiftr_div_pow2 by lia. change (2 ^ 1) with 2.
    pose proof (Z.div_mod (nTabs_ sk) 2 ltac:(lia)). lia. }
  apply (median_majority (fun v => at_ v 0)); [done|done|].
  rewrite (Permutation_length (filter_Permutation _ _ _ P)).
  (* every clean row gives an element with the value *)
  assert (vs = map (fun r => nth r vs VNil) (seq 0 (length vs))) as Evs.
  { apply (list_eq_same_length _ _ (length vs)); [by rewrite length_map, length_seq|done|].
    intros r x y Hr Hx Hy. rewrite list_lookup_fmap, lookup_seq_lt in Hy by lia. cbn in Hy. injection Hy as <-.
    by rewrite nth_lookup, Hx. }
  rewrite Evs, length_filter_map. rewrite Lv, Li. eapply Nat.lt_le_trans; [|apply (length_filter_mono (fun r => clean_row sk l s r = true))].
  - rewrite (Permutation_length P), Lv, Li in Lu. lia.
  - apply Forall_forall. intros r Hr Hclean. apply elem_of_seq in Hr.
    destruct (lookup_lt_is_Some_2 index r) as [[e sg] Hrow]; [lia|].
    rewrite (D _ _ _ 0%nat Hrow), Hf. autorewrite with szl.
    rewrite <- (clean_row_value sk l s r e sg 0) by done. done.
Qed.
End Entered.
End Contents.

(** ** Correctness *)

(** A power of two, by the test of the constructor. *)
Lemma land_pred_pow x : 0 < x -> Z.land x (x - 1) = 0 -> x = 2 ^ Z.log2 x.
Proof.
  intros Hx Hl. pose proof (Z.log2_spec x Hx) as [L1 L2]. set (b := Z.log2 x) in *.
  pose proof (Z.log2_nonneg x) as Hb. fold b in Hb.
  destruct (decide (x = 2 ^ b)) as [|Hne]; [done|exfalso].
  assert (Z.testbit x b = true) as B1 by (by apply Z.bit_log2).
  assert (Z.log2 (x - 1) = b) as E by (apply Z.log2_unique; lia).
  assert (Z.testbit (x - 1) b = true) as B2 by (rewrite <- E; apply Z.bit_log2; lia).
  apply (f_equal (fun z => Z.testbit z b)) in Hl. by rewrite Z.land_spec, B1, B2, Z.bits_0 in Hl.
Qed.

Lemma sketch_new_dims n ts sk : sketch_new n ts = Ok sk -> ts <= 2 ^ 26 ->
  dims_ok sk /\ nTabs_ sk = n /\ tabSize_ sk = ts.
Proof.
  unfold sketch_new. intros H Hts.
  destruct ((kMinTabs <=? n) && (n <=? kMaxTabs) && (Z.land n 1 =? 1)) eqn:E1; [|done]. cbn [check mbind res_bind] in H.
  destruct ((0 <? ts) && (Z.land ts (ts - 1) =? 0)) eqn:E2; [|done]. cbn [check mbind res_bind] in H.
  injection H as <-. cbn [nTabs_ tabSize_]. split; [|done].
  apply andb_true_iff in E1 as [[E1a%Z.leb_le E1b%Z.leb_le]%andb_true_iff E1c%Z.eqb_eq].
  apply andb_true_iff in E2 as [E2a%Z.ltb_lt E2b%Z.eqb_eq].
  pose proof (land_pred_pow ts E2a E2b) as Ep. set (b := Z.log2 ts) in *.
  assert (0 <= b <= 26) as Hb.
  { split; [apply Z.log2_nonneg|]. apply (Z.pow_le_mono_r_iff 2); lia. }
  pose proof (land_mask n 1 ltac:(lia)) as Em. change (2 ^ 1 - 1) with 1 in Em. change (2 ^ 1) with 2 in Em.
  split; [exists b; cbn [tabBits_ tabSize_]; rewrite Ep; split; [done|]; split; [apply count_bits_pow; lia|done]|].
  cbn [nTabs_]. split; [done|]. by rewrite <- Em.
Qed.

(** [Dims] gives dimensions the constructor accepts (a number of tables that is
    odd and between 15 and 31, and a power of two for their size), without
    overflow, and whose product is the size asked for, as near as the shape
    allows: short of it by less than 31, and above it by less than two tables. *)
Theorem Dims_fit total :
  0 <= total < 2 ^ 30 -> exists n ts sk,
    Dims total = (n, ts) /\ sketch_new n ts = Ok sk /\ n * ts < 2 ^ 31
    /\ total < n * ts + 31 /\ (124 < total -> n * ts < total + 2 * ts).
Proof.
  intros Ht. destruct (Dims_spec total Ht) as (j & b & E & Hj & Hb & H1 & H2).
  set (n := 15 + 2 * Z.of_nat j) in *. exists n, (2 ^ b).
  assert (0 < 2 ^ b <= 2 ^ 26) by (split; [apply Z.pow_pos_nonneg; lia|apply Z.pow_le_mono_r; lia]).
  assert (sketch_new n (2 ^ b) = Ok (MkSketch (replicate (Z.to_nat (n * 2 ^ b)) VNil) (replicate (Z.to_nat kMaxTabs) VNil)
    n (2 ^ b) (count_bits 32 (2 ^ b) 0))) as En.
  { unfold sketch_new. pose proof (land_mask n 1 ltac:(lia)) as Em.
    change (2 ^ 1 - 1) with 1 in Em. change (2 ^ 1) with 2 in Em. rewrite Em, (land_mask (2 ^ b)) by lia.
    rewrite Z.mod_same by lia. assert (n mod 2 = 1) as -> by (unfold n; rewrite Z.mul_comm, Z.mod_add; done).
    unfold kMinTabs, kMaxTabs. rewrite (proj2 (Z.leb_le 15 n)), (proj2 (Z.leb_le n 31)), (proj2 (Z.ltb_lt 0 (2 ^ b))) by lia.
    done. }
  eexists. split; [done|]. split; [exact En|]. split; [nia|]. split; [lia|]. intros Hbig. specialize (H2 Hbig). lia.
Qed.

Lemma Dims_fit_witness : exists n ts sk,
    Dims 1000 = (n, ts) /\ sketch_new n ts = Ok sk /\ n * ts < 2 ^ 31
    /\ 1000 < n * ts + 31 /\ (124 < 1000 -> n * ts < 1000 + 2 * ts).
Proof. apply (Dims_fit 1000). lia. Defined.

(** Whatever the digests are, the index of a string has one entry for each
    table, inside the table, with a sign of 0 or 1: the assertions of [AddSub]
    hold. *)
Theorem ComputeIndex_in_rows MD5Digest n ts sk s :
  sketch_new n ts = Ok sk -> ts <= 2 ^ 26 ->
  length (ComputeIndex MD5Digest sk s) = Z.to_nat n
  /\ forall i e sg, ComputeIndex MD5Digest sk s !! i = Some (e, sg) ->
       Z.of_nat i * ts <= Z.of_nat e < (Z.of_nat i + 1) * ts /\ (sg = 0 \/ sg = 1).
Proof.
  intros Hsk Hts. destruct (sketch_new_dims n ts sk Hsk Hts) as (Hd & <- & <-).
  by apply ComputeIndex_ok.
Qed.

(** A stand-in for the digest function. *)
Definition sample_md5 (s : bytes) : bytes :=
  map (fun i => (foldr Z.add 7 s * 31 + i * 37 * (1 + foldr Z.add 7 s)) mod 256) (seqZ 0 16).

Definition sample_sketch : SzlSketch :=
  MkSketch (replicate 60 VNil) (replicate 31 VNil) 15 4 2.

Lemma ComputeIndex_in_rows_witness :
  length (ComputeIndex sample_md5 sample_sketch [1; 2]) = Z.to_nat 15
  /\ forall i e sg, ComputeIndex sample_md5 sample_sketch [1; 2] !! i = Some (e, sg) ->
       Z.of_nat i * 4 <= Z.of_nat e < (Z.of_nat i + 1) * 4 /\ (sg = 0 \/ sg = 1).
Proof. apply (ComputeIndex_in_rows sample_md5 15 4); [reflexivity|lia]. Defined.

(** Adding elements one after the other. *)
Definition sketch_adds (MD5Digest : bytes -> bytes) (ops : SzlOps) (l : list (bytes * SzlValue)) (sk : SzlSketch) : res SzlSketch :=
  foldl (fun r '(s, w) => sk ← r; AddSub ops sk (ComputeIndex MD5Digest sk s) w 1) (Ok sk) l.

Lemma sketch_adds_ok MD5Digest ops ks l l0 sk :
  num_ops ops ks -> sketch_wf ops ks sk -> contents ops ks sk (entered ops ks MD5Digest sk l0) ->
  Forall (fun p => num_cell ops ks (snd p)) l -> exists sk',
    sketch_adds MD5Digest ops l sk = Ok sk' /\ sketch_wf ops ks sk' /\ same_dims sk sk'
    /\ contents ops ks sk' (entered ops ks MD5Digest sk' (l0 ++ l)).
Proof.
  intros Ho Hwf Hc Hl. revert sk l0 Hwf Hc. induction Hl as [|[s w] l Hw Hl IH]; intros sk l0 Hwf Hc.
  { exists sk. rewrite app_nil_r. split; [done|]. split; [done|]. split; [done|]. exact Hc. }
  unfold sketch_adds in *. cbn [foldl mbind res_bind]. cbn [snd] in Hw.
  destruct (AddSub_ok ops ks Ho sk (ComputeIndex MD5Digest sk s) w 1 _ Hwf Hc) as (sk1 & -> & Hwf1 & Hd1 & Hc1);
    [by apply ComputeIndex_ok, Hwf|done|by right|].
  destruct (IH sk1 (l0 ++ [(s, w)]) Hwf1) as (sk' & E & Hwf' & Hd' & Hc').
  - intros i j. rewrite Hc1. f_equal. rewrite (entered_same_dims ops ks MD5Digest sk sk1) by done.
    unfold entered. rewrite sumZ_app, sumZ_cons. cbn. lia.
  - exists sk'. rewrite E. split; [done|]. split; [done|]. rewrite <- app_assoc in Hc'. split; [|done].
    destruct Hd1 as (? & ? & ?), Hd' as (? & ? & ?). split; [congruence|]. split; congruence.
Qed.

Lemma clean_row_dims MD5Digest sk sk' l s r : same_dims sk sk' ->
  clean_row MD5Digest sk' l s r = clean_row MD5Digest sk l s r.
Proof.
  intros (E1 & E2 & E3). unfold clean_row. induction l as [|[t w] l IH]; [done|]. cbn [forallb].
  by rewrite IH, !(ComputeIndex_dims MD5Digest sk' sk).
Qed.

Definition plain_int (o : SzlOps) : Prop := num_ops o [INT] /\ ops_kind o <> TUPLE.

(** C29. After any elements were added to a new sketch of integer weights, the
    estimate of a string is exactly the sum of its weights (modulo [2^64])
    whenever no other string shares its cell in more than half of the tables. *)
Theorem sketch_estimate_exact MD5Digest ops n b sk0 l s est :
  plain_int ops -> sketch_new n (2 ^ b) = Ok sk0 -> 0 <= b <= 26 ->
  Forall (fun p => num_cell ops [INT] (snd p)) l -> num_cell ops [INT] est ->
  (Z.to_nat n < 2 * length (filter (fun r => clean_row MD5Digest sk0 l s r = true) (seq 0 (Z.to_nat n))))%nat ->
  exists sk est' sk', sketch_adds MD5Digest ops l sk0 = Ok sk
  /\ Estimate ops sk (ComputeIndex MD5Digest sk s) est = Ok (est', sk')
  /\ vi est' = s64 (sumZ (fun '(t, w) => if bool_decide (t = s) then vi w else 0) l).
Proof.
  intros [Ho Hk] Hnew Hb Hl He Hmost.
  destruct (sketch_new_dims n (2 ^ b) sk0 Hnew) as (Hd0 & En & Et); [apply Z.pow_le_mono_r; lia|].
  pose proof Hd0 as (_ & Hrange & Hodd). rewrite En in Hrange, Hodd.
  destruct (sketch_new_ok ops [INT] n b Hrange Hodd Hb) as (sk1 & E1 & Hwf0 & Hc0 & _).
  rewrite Hnew in E1. injection E1 as <-.
  destruct (sketch_adds_ok MD5Digest ops [INT] l [] sk0 Ho Hwf0) as (sk & Esk & Hwf & Hd & Hc); [done|done|].
  rewrite app_nil_l in Hc.
  destruct (Estimate_clean ops [INT] Ho ltac:(by constructor) MD5Digest sk l s est Hwf Hc Hk He) as (e' & sk' & Ee & _ & Ve).
  - destruct Hd as (Hd1 & Hd2 & Hd3). rewrite Hd1, En. eapply Nat.lt_le_trans; [exact Hmost|].
    apply Nat.mul_le_mono_l, length_filter_mono, Forall_true. intros r. by rewrite (clean_row_dims MD5Digest sk0 sk).
  - exists sk, e', sk'. split; [done|]. split; [done|]. rewrite Ve. f_equal. unfold true_weight.
    apply sumZ_ext, Forall_true. intros [t w]. case_bool_decide; [|done]. unfold num_at. by rewrite scalar_den.
Qed.

Lemma sketch_estimate_exact_witness :
  let l := [([1], VInt 5); ([2], VInt 7); ([1], VInt (-1))] in
  exists sk est' sk', sketch_adds sample_md5 int_ops l sample_sketch = Ok sk
  /\ Estimate int_ops sk (ComputeIndex sample_md5 sk [1]) VNil = Ok (est', sk')
  /\ vi est' = s64 (sumZ (fun '(t, w) => if bool_decide (t = [1]) then vi w else 0) l).
Proof.
  apply (sketch_estimate_exact sample_md5 int_ops 15 2).
  - by split; [apply int_num_ops|].
  - reflexivity.
  - lia.
  - repeat (apply Forall_cons; split; [done|]). constructor.
  - apply cell_VNil.
  - vm_compute. repeat constructor.
Defined.

(** Sketches merge: a sketch that is encoded, decoded into another one of its
    dimensions and added to the sketch of other elements gives, cell by cell
    and modulo [2^64], the sketch of all the elements. *)
Theorem sketch_merge MD5Digest ops ks n b sk0 l l' sk sk' :
  num_ops ops ks -> sketch_new n (2 ^ b) = Ok sk0 -> 0 <= b <= 26 ->
  Forall (fun p => num_cell ops ks (snd p)) (l ++ l') ->
  sketch_adds MD5Digest ops l sk0 = Ok sk -> sketch_adds MD5Digest ops l' sk0 = Ok sk' ->
  exists enc sk1 sk2 sk3, sketch_Encode ops sk' enc_new = Ok enc
  /\ sketch_Decode ops sk0 (dec_Init (fst (enc_Swap enc))) = Ok (MkDec (fst (enc_Swap enc)) [], sk1)
  /\ AddSketch ops sk sk1 = Ok sk2
  /\ sketch_adds MD5Digest ops (l ++ l') sk0 = Ok sk3
  /\ forall i j, num_at ops ks (nth i (weights_ sk2) VNil) j = num_at ops ks (nth i (weights_ sk3) VNil) j.
Proof.
  intros Ho Hnew Hb Hll E E'. pose proof Hll as Hall. apply Forall_app in Hll as [Hl Hl'].
  destruct (sketch_new_dims n (2 ^ b) sk0 Hnew) as (Hd0 & En & Et); [apply Z.pow_le_mono_r; lia|].
  pose proof Hd0 as (_ & Hrange & Hodd). rewrite En in Hrange, Hodd.
  destruct (sketch_new_ok ops ks n b Hrange Hodd Hb) as (x & E1 & Hwf0 & Hc0 & _).
  rewrite Hnew in E1. injection E1 as <-.
  destruct (sketch_adds_ok MD5Digest ops ks l [] sk0 Ho Hwf0 Hc0 Hl) as (y & Ey & Hwf & Hd & Hc).
  rewrite E in Ey. injection Ey as <-.
  destruct (sketch_adds_ok MD5Digest ops ks l' [] sk0 Ho Hwf0 Hc0 Hl') as (y & Ey & Hwf' & Hd' & Hc').
  rewrite E' in Ey. injection Ey as <-.
  destruct (sketch_adds_ok MD5Digest ops ks (l ++ l') [] sk0 Ho Hwf0 Hc0 Hall) as (sk3 & E3 & _ & Hd3 & Hc3).
  set (code := weights_code ops ks (weights_ sk')).
  destruct (sketch_codec ops ks Ho sk' sk0 enc_new code [] (entered ops ks MD5Digest sk' l') Hwf' Hwf0) as (Henc & sk1 & Hdec & Hwf1 & Hd1 & Hc1);
    [destruct Hd' as (? & ? & ?); by repeat split|exact Hc'|constructor|].
  fold code in Henc, Hdec. rewrite app_nil_r in Hdec.
  destruct (AddSketch_ok ops ks Ho sk sk1 (entered ops ks MD5Digest sk l) (entered ops ks MD5Digest sk' l') Hwf Hwf1) as (sk2 & E2 & _ & Hd2 & Hc2); [|exact Hc|exact Hc1|].
  { destruct Hd as (? & ? & ?), Hd1 as (? & ? & ?), Hd' as (? & ? & ?). split; [congruence|]. split; congruence. }
  exists (AppendEncoding enc_new code), sk1, sk2, sk3. split; [exact Henc|]. split; [exact Hdec|].
  split; [done|]. split; [done|]. intros i j. pose proof (Hc2 i j) as H2. pose proof (Hc3 i j) as H3.
  unfold cell_at in H2, H3. rewrite H2, H3. rewrite app_nil_l. f_equal.
  rewrite (entered_same_dims ops ks MD5Digest sk0 sk), (entered_same_dims ops ks MD5Digest sk0 sk'),
    (entered_same_dims ops ks MD5Digest sk0 sk3) by done.
  unfold entered. by rewrite sumZ_app.
Qed.

Lemma sketch_merge_witness :
  let l := [([1], VInt 5)] in let l' := [([2], VInt (2 ^ 63 - 1)); ([1], VInt 3)] in
  exists sk sk' enc sk1 sk2 sk3,
  sketch_adds sample_md5 int_ops l sample_sketch = Ok sk
  /\ sketch_adds sample_md5 int_ops l' sample_sketch = Ok sk'
  /\ sketch_Encode int_ops sk' enc_new = Ok enc
  /\ sketch_Decode int_ops sample_sketch (dec_Init (fst (enc_Swap enc))) = Ok (MkDec (fst (enc_Swap enc)) [], sk1)
  /\ AddSketch int_ops sk sk1 = Ok sk2
  /\ sketch_adds sample_md5 int_ops (l ++ l') sample_sketch = Ok sk3
  /\ forall i j, num_at int_ops [INT] (nth i (weights_ sk2) VNil) j = num_at int_ops [INT] (nth i (weights_ sk3) VNil) j.
Proof.
  intros l l'.
  assert (exists sk, sketch_adds sample_md5 int_ops l sample_sketch = Ok sk) as [sk E] by (eexists; vm_compute; reflexivity).
  assert (exists sk, sketch_adds sample_md5 int_ops l' sample_sketch = Ok sk) as [sk' E'] by (eexists; vm_compute; reflexivity).
  exists sk, sk'.
  destruct (sketch_merge sample_md5 int_ops [INT] 15 2 sample_sketch l l' sk sk' int_num_ops) as (enc & sk1 & sk2 & sk3 & H);
    [reflexivity|lia| |exact E|exact E'|].
  2: { exists enc, sk1, sk2, sk3. split; [exact E|]. split; [exact E'|]. exact H. }
  unfold l, l'. repeat (apply Forall_cons; split; [cbn [snd]; apply int_cell; unfold is_s64; lia|]). constructor.
Defined.

(** ** Tuples of weights *)

(** Three digests, of 3 bits for each of 15 tables of 4: the first is in the cell 0
    of every table, the second shares it in the first 4 tables, the third in
    the next 4. *)
Definition three_md5 (s : bytes) : bytes :=
  let row_bits (f : Z -> Z) := sumZ (fun r => f r * 8 ^ r) (seqZ 0 15) in
  let n := if bool_decide (s = [0]) then 0
           else if bool_decide (s = [1]) then row_bits (fun r => if r <? 4 then 0 else 1)
           else row_bits (fun r => if (4 <=? r) && (r <? 8) then 0 else 2) in
  reverse (be_bytes 16 n).

Definition two_ints : SzlOps :=
  MkOps (AddField (AddField (kind_type TUPLE) "a" (kind_type INT)) "b" (kind_type INT)) [(INT, None); (INT, None)].

(** For tuples the estimate is not the median of each component: assigning a
    component from a cell that was never touched clears the components already
    assigned. Here 8 of the 15 cells of the string hold 5 in their first
    component, and the estimate is empty, 0 in all. *)
Theorem Estimate_tuple_cleared :
  exists sk, sketch_adds three_md5 two_ints [([1], VVals [VInt 5; VInt 1]); ([2], VVals [VInt 5; VInt (-1)])] sample_sketch = Ok sk
  /\ length (filter (fun '(e, sg) => sg = 0 /\ num_at two_ints [INT; INT] (nth e (weights_ sk) VNil) 0 = 5)
       (ComputeIndex three_md5 sk [0])) = 8%nat
  /\ exists sk', Estimate two_ints sk (ComputeIndex three_md5 sk [0]) VNil = Ok (VNil, sk').
Proof.
  eexists. split; [vm_compute; reflexivity|]. split; [vm_compute; reflexivity|]. eexists. vm_compute. reflexivity.
Qed.
