(* ===== verification/TopHeap.v ===== *)
(** * SzlTopHeap: the biggest elements, found by value

    Models src/src/emitters/szltopheap.cc and szltopheap.h.  An [Elem*] is an
    index into a store of elements; the heap is a list of pointers, every
    element knows its position in it, and a hash table finds an element by its
    value.  The store keeps what was deleted by [Clear], which nothing points to.

    The moves are those of [SzlHeap] on pointers: the theorems relate them to the
    definitions of Heap.v on the list of pointers paired with their weights. *)
From Stdlib Require Import ZArith Lia ZifyNat.
From stdpp Require Import prelude gmap sorting.
From S2P Require Import Prelude SzlType Codec SzlValue ValueCodec ValueOrder ValueAdd Numbers Heap.

Ltac Zify.zify_post_hook ::= Z.div_mod_to_equations.

(** ** Data *)

(* @src src/src/emitters/szltopheap.h 33-40 SzlTopHeap::Elem *)
Record TopElem : Type := MkTopElem { te_value : bytes; te_weight : SzlValue; te_heap : nat }.

#[export] Instance TopElem_inhabited : Inhabited TopElem := populate (MkTopElem [] VNil 0).

(* @src src/src/emitters/szltopheap.h 95-116 SzlTopHeap (data members) *)
Record SzlTopHeap : Type := MkTopHeap {
  th_store : list TopElem;
  th_heap : list nat;
  th_hash : gmap bytes nat;
  th_max : Z;
}.

(** Sizes of a 64-bit build, for the memory estimates. *)
Definition sizeof_ptr : Z := 8.
Definition sizeof_TopElem : Z := 56.

(* @src src/src/emitters/szltopheap.cc 48-57 SzlTopHeap::SzlTopHeap *)
Definition th_new (maxElems : Z) : SzlTopHeap := MkTopHeap [] [] ∅ maxElems.

(* @src src/src/emitters/szltopheap.h 49-49 SzlTopHeap::nElems *)
Definition th_nElems (t : SzlTopHeap) : Z := Z.of_nat (length (th_heap t)).

(* @src src/src/emitters/szltopheap.h 57-57 SzlTopHeap::Element *)
Definition Element (t : SzlTopHeap) (i : nat) : nat := th_heap t !!! i.

(* @src src/src/emitters/szltopheap.h 76-76 SzlTopHeap::Smallest *)
Definition Smallest (t : SzlTopHeap) : nat := th_heap t !!! 0.

(* @src src/src/emitters/szltopheap.cc 88-93 SzlTopHeap::Find *)
Definition Find (t : SzlTopHeap) (s : bytes) : option nat := th_hash t !! s.

Definition wt_of (σ : list TopElem) (e : nat) : SzlValue := te_weight (σ !!! e).

Definition set_pos (e h : nat) (σ : list TopElem) : list TopElem :=
  alter (fun x => MkTopElem (te_value x) (te_weight x) h) e σ.
Definition set_weight (e : nat) (w : SzlValue) (σ : list TopElem) : list TopElem :=
  alter (fun x => MkTopElem (te_value x) w (te_heap x)) e σ.
Definition set_value (e : nat) (v : bytes) (σ : list TopElem) : list TopElem :=
  alter (fun x => MkTopElem v (te_weight x) (te_heap x)) e σ.

(** ** Moving an element *)

Section Moves.
Context (less : SzlValueCmp).

(** The hole moves up from [h]; [h] rounds are enough. *)
(* @src src/src/emitters/szltopheap.cc 171-183 SzlTopHeap::FixHeapUp *)
Fixpoint th_fix_up (fuel : nat) (σ : list TopElem) (ids : list nat) (h e : nat) : list TopElem * list nat :=
  let stop := (set_pos e h σ, <[h := e]> ids) in
  match fuel with
  | O => stop
  | S fuel =>
      if (h =? 0)%nat then stop
      else
        let pe := ids !!! parent h in
        if negb (less (wt_of σ e) (wt_of σ pe)) then stop
        else th_fix_up fuel (set_pos pe h σ) (<[h := pe]> ids) (parent h) e
  end.

(* @src src/src/emitters/szltopheap.cc 166-184 SzlTopHeap::FixHeapUp *)
Definition th_FixHeapUp (h : nat) (σ : list TopElem) (ids : list nat) : list TopElem * list nat :=
  th_fix_up h σ ids h (ids !!! h).

(* @src src/src/emitters/szltopheap.cc 196-206 SzlTopHeap::FixHeapDown *)
Definition th_smaller_kid (σ : list TopElem) (ids : list nat) (kid nheap : nat) : nat :=
  if (kid + 1 <? nheap)%nat && less (wt_of σ (ids !!! (kid + 1)%nat)) (wt_of σ (ids !!! kid))
  then (kid + 1)%nat else kid.

(** The hole moves down from [h]; [nheap - h] rounds are enough. *)
(* @src src/src/emitters/szltopheap.cc 192-215 SzlTopHeap::FixHeapDown *)
Fixpoint th_fix_down (fuel : nat) (σ : list TopElem) (ids : list nat) (h nheap e : nat) : list TopElem * list nat :=
  match fuel with
  | O => (σ, ids)
  | S fuel =>
      let stop := (set_pos e h σ, <[h := e]> ids) in
      let kid := (2 * h + 1)%nat in
      if (nheap <=? kid)%nat then stop
      else
        let kid := th_smaller_kid σ ids kid nheap in
        let ke := ids !!! kid in
        if less (wt_of σ e) (wt_of σ ke) then stop
        else th_fix_down fuel (set_pos ke h σ) (<[h := ke]> ids) kid nheap e
  end.

(* @src src/src/emitters/szltopheap.cc 187-216 SzlTopHeap::FixHeapDown *)
Definition th_FixHeapDown (h nheap : nat) (σ : list TopElem) (ids : list nat) : list TopElem * list nat :=
  th_fix_down (nheap - h) σ ids h nheap (ids !!! h).

(* @src src/src/emitters/szltopheap.cc 222-230 SzlTopHeap::FixHeap *)
Definition th_FixHeap (h : nat) (σ : list TopElem) (ids : list nat) : list TopElem * list nat :=
  if negb (h =? 0)%nat && less (wt_of σ (ids !!! h)) (wt_of σ (ids !!! parent h))
  then th_FixHeapUp h σ ids else th_FixHeapDown h (length ids) σ ids.

(* @src src/src/emitters/szltopheap.cc 233-243 SzlTopHeap::IsHeap *)
Definition th_IsHeap (t : SzlTopHeap) : bool :=
  forallb (fun i =>
    negb (less (wt_of (th_store t) (th_heap t !!! i)) (wt_of (th_store t) (th_heap t !!! parent i)))
    && (te_heap (th_store t !!! (th_heap t !!! i)) =? i)%nat) (seq 1 (length (th_heap t) - 1)).

(** ** Sorting *)

(* @src src/src/emitters/szltopheap.cc 140-145 SzlTopHeap::Sort *)
Fixpoint th_sort_loop (ne : nat) (σ : list TopElem) (ids : list nat) : list TopElem * list nat :=
  match ne with
  | O => (σ, ids)
  | S ne =>
      if (ne =? 0)%nat then (σ, ids)
      else let '(σ, ids) := th_FixHeapDown 0 ne σ (swap 0 ne ids) in th_sort_loop ne σ ids
  end.

(* @src src/src/emitters/szltopheap.cc 135-146 SzlTopHeap::Sort *)
Definition th_Sort (t : SzlTopHeap) : SzlTopHeap :=
  let '(σ, ids) := th_sort_loop (length (th_heap t)) (th_store t) (th_heap t) in
  MkTopHeap σ ids (th_hash t) (th_max t).

(** One round of the loop of [ReHeap]. *)
(* @src src/src/emitters/szltopheap.cc 152-159 SzlTopHeap::ReHeap *)
Definition reheap_step (ne : nat) : list TopElem * list nat -> nat -> list TopElem * list nat := fun '(σ, ids) i =>
  let e := ids !!! i in
  let e2 := ids !!! (ne - 1 - i)%nat in
  (set_pos e (ne - 1 - i) (set_pos e2 i σ), <[(ne - 1 - i)%nat := e]> (<[i := e2]> ids)).

(* @src src/src/emitters/szltopheap.cc 149-163 SzlTopHeap::ReHeap *)
Definition th_ReHeap (t : SzlTopHeap) : SzlTopHeap :=
  let ne := length (th_heap t) in
  let '(σ, ids) := fold_left (reheap_step ne) (seq 0 (ne / 2)) (th_store t, th_heap t) in
  let σ := if (ne mod 2 =? 1)%nat then set_pos (ids !!! (ne / 2)%nat) (ne / 2) σ else σ in
  MkTopHeap σ ids (th_hash t) (th_max t).

(** ** Adding and changing elements *)

Section Adding.
Context (ops : SzlOps).
(** [bucket_count()] of the hash table, up to the library. *)
Context (bucket_count : gmap bytes nat -> Z).

(** [insert] of a hash table keeps what it has. *)
Definition hash_insert (v : bytes) (e : nat) (m : gmap bytes nat) : gmap bytes nat :=
  match m !! v with Some _ => m | None => <[v := e]> m end.

(* @src src/src/emitters/szltopheap.cc 95-111 SzlTopHeap::AddNewElem *)
Definition AddNewElem (v : bytes) (w : SzlValue) (t : SzlTopHeap) : res (Z * SzlTopHeap) :=
  _ ← check (th_nElems t <? th_max t)%Z;
  w' ← Assign ops w VNil;
  let e := length (th_store t) in
  let '(σ, ids) := th_FixHeapUp (length (th_heap t))
    (th_store t ++ [MkTopElem v w' (length (th_heap t))]) (th_heap t ++ [e]) in
  let hash := hash_insert v e (th_hash t) in
  let bucks := Z.max 0 (bucket_count hash - bucket_count (th_hash t)) in
  m ← Memory ops w;
  Ok ((bucks * sizeof_ptr + sizeof_TopElem + sizeof_ptr + 2 * sizeof_ptr - sizeof_SzlValue + m
       + Z.of_nat (length v))%Z,
      MkTopHeap σ ids hash (th_max t)).

(* @src src/src/emitters/szltopheap.cc 113-123 SzlTopHeap::ReplaceSmallest *)
Definition ReplaceSmallest (v : bytes) (w : SzlValue) (t : SzlTopHeap) : res (Z * SzlTopHeap) :=
  _ ← check (0 <? th_nElems t)%Z;
  let smallest := th_heap t !!! 0%nat in
  let old := th_store t !!! smallest in
  m0 ← Memory ops (te_weight old);
  let hash := delete (te_value old) (th_hash t) in
  w' ← Assign ops w (te_weight old);
  let σ := set_weight smallest w' (set_value smallest v (th_store t)) in
  let hash := hash_insert v smallest hash in
  let '(σ, ids) := th_FixHeapDown 0 (length (th_heap t)) σ (th_heap t) in
  m ← Memory ops w;
  Ok ((Z.of_nat (length v) + m - (Z.of_nat (length (te_value old)) + m0))%Z, MkTopHeap σ ids hash (th_max t)).

(* @src src/src/emitters/szltopheap.cc 126-132 SzlTopHeap::AddToWeight *)
Definition AddToWeight (w : SzlValue) (e : nat) (t : SzlTopHeap) : res (Z * SzlTopHeap) :=
  m0 ← Memory ops (wt_of (th_store t) e);
  w' ← Add ops w (wt_of (th_store t) e);
  let σ := set_weight e w' (th_store t) in
  let '(σ, ids) := th_FixHeap (te_heap (σ !!! e)) σ (th_heap t) in
  m ← Memory ops w';
  Ok ((m - m0)%Z, MkTopHeap σ ids (th_hash t) (th_max t)).

(* @src src/src/emitters/szltopheap.cc 65-72 SzlTopHeap::Clear *)
Definition th_Clear (t : SzlTopHeap) : res SzlTopHeap :=
  _ ← mapM (fun e => Clear ops (wt_of (th_store t) e)) (th_heap t);
  Ok (MkTopHeap (th_store t) [] ∅ (th_max t)).

(* @src src/src/emitters/szltopheap.cc 74-86 SzlTopHeap::Memory *)
Definition th_Memory (sizeof_TopHeap : Z) (t : SzlTopHeap) : res Z :=
  foldl (fun r e => mem ← r; m ← Memory ops (wt_of (th_store t) e);
      Ok (mem + sizeof_ptr + sizeof_ptr + sizeof_ptr + sizeof_TopElem - sizeof_SzlValue + m
          + Z.of_nat (length (te_value (th_store t !!! e))))%Z)
    (Ok (sizeof_TopHeap + bucket_count (th_hash t) * sizeof_ptr)%Z) (th_heap t).
End Adding.
End Moves.

(** ** The moves are those of [SzlHeap] *)

(** The heap as a list of pointers with their weights. *)
Definition view (σ : list TopElem) (ids : list nat) : list (ElemOf nat) := map (fun e => MkElem e (wt_of σ e)) ids.

(** Stores that differ in the positions only. *)
Definition same_elems (σ σ' : list TopElem) : Prop :=
  length σ' = length σ
  /\ forall e, te_value (σ' !!! e) = te_value (σ !!! e) /\ te_weight (σ' !!! e) = te_weight (σ !!! e).

Lemma same_elems_refl σ : same_elems σ σ.
Proof. done. Qed.
Lemma same_elems_trans σ1 σ2 σ3 : same_elems σ1 σ2 -> same_elems σ2 σ3 -> same_elems σ1 σ3.
Proof. intros [L1 H1] [L2 H2]. split; [congruence|]. intros e. destruct (H1 e), (H2 e). split; congruence. Qed.

Lemma lookup_alter (f : TopElem -> TopElem) i j σ :
  alter f i σ !!! j = if decide (i = j /\ i < length σ) then f (σ !!! j) else σ !!! j.
Proof. rewrite list_lookup_total_alter. case_decide as Hd; [|done]. by destruct Hd as [-> _]. Qed.

Lemma set_pos_same e h σ : same_elems σ (set_pos e h σ).
Proof.
  unfold set_pos. split; [apply length_alter|]. intros e'. rewrite lookup_alter. by case_decide.
Qed.

Lemma set_pos_length e h σ : length (set_pos e h σ) = length σ.
Proof. apply length_alter. Qed.

Lemma wt_of_same σ σ' e : same_elems σ σ' -> wt_of σ' e = wt_of σ e.
Proof. intros [_ H]. apply H. Qed.
Lemma view_same σ σ' ids : same_elems σ σ' -> view σ' ids = view σ ids.
Proof. intros H. apply map_ext. intros e. by rewrite (wt_of_same σ σ'). Qed.

Lemma view_lookup σ ids i : i < length ids -> view σ ids !!! i = MkElem (ids !!! i) (wt_of σ (ids !!! i)).
Proof.
  intros Hi. destruct (lookup_lt_is_Some_2 ids i Hi) as [e He]. rewrite (list_lookup_total_correct _ _ _ He).
  apply list_lookup_total_correct. unfold view. by rewrite list_lookup_fmap, He.
Qed.
Lemma view_insert σ ids i e : view σ (<[i := e]> ids) = <[i := MkElem e (wt_of σ e)]> (view σ ids).
Proof. apply (list_fmap_insert (fun e => MkElem e (wt_of σ e))). Qed.
Lemma view_length σ ids : length (view σ ids) = length ids.
Proof. apply length_map. Qed.
Lemma view_values σ ids : map value (view σ ids) = ids.
Proof. unfold view. rewrite map_map. apply map_id. Qed.
Lemma view_app σ ids ids' : view σ (ids ++ ids') = view σ ids ++ view σ ids'.
Proof. apply map_app. Qed.

(** Permutations of a view are views of permutations. *)
Lemma view_perm σ ids ids' : view σ ids ≡ₚ view σ ids' -> ids ≡ₚ ids'.
Proof. intros H. rewrite <- (view_values σ ids), <- (view_values σ ids'). by rewrite H. Qed.

(** *** Positions *)

Definition pos_ok (σ : list TopElem) (ids : list nat) : Prop :=
  forall i e, ids !! i = Some e -> te_heap (σ !!! e) = i.
Definition pos_but (h : nat) (σ : list TopElem) (ids : list nat) : Prop :=
  forall i e, i <> h -> ids !! i = Some e -> te_heap (σ !!! e) = i.
(** Distinct pointers into the store. *)
Definition ids_ok (σ : list TopElem) (ids : list nat) : Prop := NoDup ids /\ Forall (fun e => e < length σ) ids.

Lemma ids_ok_perm σ ids ids' : ids ≡ₚ ids' -> ids_ok σ ids' -> ids_ok σ ids.
Proof. intros H [H1 H2]. split; by rewrite H. Qed.
Lemma ids_ok_same σ σ' ids : same_elems σ σ' -> ids_ok σ ids -> ids_ok σ' ids.
Proof. intros [L _] [H1 H2]. split; [done|]. by rewrite L. Qed.

Lemma heap_set_pos e h σ e' : te_heap (set_pos e h σ !!! e') = if decide (e = e' /\ e < length σ) then h else te_heap (σ !!! e').
Proof. unfold set_pos. rewrite lookup_alter. by case_decide. Qed.

(** Putting the element into the hole. *)
Lemma pos_stop σ ids h e :
  h < length ids -> ids_ok σ (<[h := e]> ids) -> pos_but h σ ids -> pos_ok (set_pos e h σ) (<[h := e]> ids).
Proof.
  intros Hh [Hnd Hall] Hp i e' Hi. rewrite heap_set_pos.
  assert (<[h := e]> ids !! h = Some e) as Hhe by by apply list_lookup_insert_eq.
  pose proof (Forall_lookup_1 _ _ _ _ Hall Hhe) as He. cbn in He.
  destruct (decide (i = h)) as [->|Hne].
  - rewrite Hhe in Hi. injection Hi as <-. by rewrite decide_True.
  - rewrite decide_False.
    + apply Hp; [done|]. by rewrite list_lookup_insert_ne in Hi by done.
    + intros [-> _]. apply Hne. by apply (NoDup_lookup _ _ _ _ Hnd Hi Hhe).
Qed.

(** Moving an element into the hole. *)
Lemma pos_step σ ids h h' e :
  h < length ids -> h' < length ids -> h' <> h -> ids_ok σ (<[h := e]> ids) -> pos_but h σ ids ->
  ids_ok (set_pos (ids !!! h') h σ) (<[h' := e]> (<[h := ids !!! h']> ids))
  /\ pos_but h' (set_pos (ids !!! h') h σ) (<[h := ids !!! h']> ids).
Proof.
  intros Hh Hh' Hne Hok Hp. split.
  - apply (ids_ok_same σ); [apply set_pos_same|]. apply (ids_ok_perm _ _ (<[h := e]> ids)); [|done].
    by apply hole_perm.
  - intros i x Hi Hx. rewrite heap_set_pos. destruct Hok as [Hnd Hall].
    assert (<[h := e]> ids !! h' = Some (ids !!! h')) as Hph.
    { rewrite list_lookup_insert_ne by done. by apply list_lookup_lookup_total_lt. }
    pose proof (Forall_lookup_1 _ _ _ _ Hall Hph) as Hlt. cbn in Hlt.
    destruct (decide (i = h)) as [->|Hih].
    + rewrite list_lookup_insert_eq in Hx by done. injection Hx as <-. by rewrite decide_True.
    + rewrite list_lookup_insert_ne in Hx by done. rewrite decide_False; [by apply Hp|].
      intros [<- _]. apply Hi. apply (NoDup_lookup _ i h' (ids !!! h') Hnd); [|done].
      by rewrite list_lookup_insert_ne.
Qed.

(** *** Simulation *)

Section Simulation.
Context (less : SzlValueCmp).

(** What a move leaves: the same elements, the pointers moved as the heap moves
    its elements. *)
Definition simulates (σ : list TopElem) (r : list TopElem * list nat) (l : list (ElemOf nat)) : Prop :=
  same_elems σ (fst r) /\ view σ (snd r) = l.

Lemma simulates_stop σ (ids : list nat) h e : simulates σ (set_pos e h σ, <[h := e]> ids) (<[h := MkElem e (wt_of σ e)]> (view σ ids)).
Proof. split; [apply set_pos_same|]. apply view_insert. Qed.

Lemma simulates_step σ h pe r l :
  simulates (set_pos pe h σ) r l -> simulates σ r l.
Proof.
  intros [H1 H2]. pose proof (set_pos_same pe h σ) as Hs. split; [by apply (same_elems_trans _ _ _ Hs)|].
  rewrite <- H2. symmetry. by apply view_same.
Qed.

Lemma fix_up_simulates fuel σ ids h e :
  h < length ids ->
  simulates σ (th_fix_up less fuel σ ids h e) (fix_up less fuel (view σ ids) h (MkElem e (wt_of σ e))).
Proof.
  revert σ ids h. induction fuel as [|fuel IH]; intros σ ids h Hh; cbn [th_fix_up fix_up]; [apply simulates_stop|].
  destruct (Nat.eqb_spec h 0) as [->|Hn]; [apply simulates_stop|].
  pose proof (parent_lt h ltac:(lia)) as Hp. rewrite view_lookup by lia. cbn [weight].
  set (pe := ids !!! parent h). destruct (less (wt_of σ e) (wt_of σ pe)); cbn [negb]; [|apply simulates_stop].
  apply (simulates_step σ h pe).
  pose proof (IH (set_pos pe h σ) (<[h := pe]> ids) (parent h)) as H. rewrite length_insert in H.
  specialize (H ltac:(lia)). rewrite (wt_of_same σ), (view_same σ) in H by apply set_pos_same.
  by rewrite view_insert in H.
Qed.

Lemma fix_down_simulates fuel σ ids h n e :
  n <= length ids -> h < n ->
  simulates σ (th_fix_down less fuel σ ids h n e) (fix_down less fuel (view σ ids) h n (MkElem e (wt_of σ e))).
Proof.
  revert σ ids h. induction fuel as [|fuel IH]; intros σ ids h Hn Hh; cbn [th_fix_down fix_down]; [done|].
  destruct (Nat.leb_spec n (2 * h + 1)) as [Hk|Hk]; [apply simulates_stop|].
  assert (smaller_kid less (view σ ids) (2 * h + 1) n = th_smaller_kid less σ ids (2 * h + 1) n) as ->.
  { unfold smaller_kid, th_smaller_kid. destruct (Nat.ltb_spec (2 * h + 1 + 1) n); cbn [andb]; [|done].
    by rewrite !view_lookup by lia. }
  assert (2 * h + 1 <= th_smaller_kid less σ ids (2 * h + 1) n < n) as Hkid.
  { unfold th_smaller_kid. destruct (Nat.ltb_spec (2 * h + 1 + 1) n); cbn [andb]; [|lia]. destruct (less _ _); lia. }
  set (k := th_smaller_kid less σ ids (2 * h + 1) n) in *.
  rewrite view_lookup by lia. cbn [weight]. set (ke := ids !!! k).
  destruct (less (wt_of σ e) (wt_of σ ke)); [apply simulates_stop|].
  apply (simulates_step σ h ke).
  pose proof (IH (set_pos ke h σ) (<[h := ke]> ids) k) as H. rewrite length_insert in H.
  specialize (H Hn ltac:(lia)). rewrite (wt_of_same σ), (view_same σ) in H by apply set_pos_same.
  by rewrite view_insert in H.
Qed.

Lemma fix_up_pos fuel σ ids h e :
  h < length ids -> ids_ok σ (<[h := e]> ids) -> pos_but h σ ids ->
  let r := th_fix_up less fuel σ ids h e in pos_ok (fst r) (snd r).
Proof.
  revert σ ids h. induction fuel as [|fuel IH]; intros σ ids h Hh Hok Hp; cbn [th_fix_up]; [by apply pos_stop|].
  destruct (Nat.eqb_spec h 0) as [->|Hn]; [by apply pos_stop|].
  pose proof (parent_lt h ltac:(lia)) as Hlt. destruct (negb _); [by apply pos_stop|].
  destruct (pos_step σ ids h (parent h) e) as [H1 H2]; [lia..|done|done|].
  apply IH; [by rewrite length_insert; lia|done|done].
Qed.

Lemma fix_down_pos fuel σ ids h n e :
  n <= length ids -> h < n -> n - h <= fuel -> ids_ok σ (<[h := e]> ids) -> pos_but h σ ids ->
  let r := th_fix_down less fuel σ ids h n e in pos_ok (fst r) (snd r).
Proof.
  revert σ ids h. induction fuel as [|fuel IH]; intros σ ids h Hn Hh Hf Hok Hp; cbn [th_fix_down]; [lia|].
  destruct (Nat.leb_spec n (2 * h + 1)) as [Hk|Hk]; [apply pos_stop; [lia|done|done]|].
  assert (2 * h + 1 <= th_smaller_kid less σ ids (2 * h + 1) n < n) as Hkid.
  { unfold th_smaller_kid. destruct (Nat.ltb_spec (2 * h + 1 + 1) n); cbn [andb]; [|lia]. destruct (less _ _); lia. }
  destruct (less _ _); [apply pos_stop; [lia|done|done]|].
  destruct (pos_step σ ids h (th_smaller_kid less σ ids (2 * h + 1) n) e) as [H1 H2]; [lia..|done|done|].
  apply IH; [by rewrite length_insert|lia|lia|done|done].
Qed.

(** The operations on a whole heap. *)
Lemma th_FixHeapUp_simulates σ ids h : h < length ids ->
  simulates σ (th_FixHeapUp less h σ ids) (FixHeapUp less h (view σ ids)).
Proof. intros Hh. unfold th_FixHeapUp, FixHeapUp. rewrite view_lookup by done. by apply fix_up_simulates. Qed.

Lemma th_FixHeapDown_simulates σ ids h n : n <= length ids -> h < n ->
  simulates σ (th_FixHeapDown less h n σ ids) (FixHeapDown less h n (view σ ids)).
Proof. intros Hn Hh. unfold th_FixHeapDown, FixHeapDown. rewrite view_lookup by lia. by apply fix_down_simulates. Qed.

Lemma th_FixHeap_simulates σ ids h : h < length ids ->
  simulates σ (th_FixHeap less h σ ids) (FixHeap less h (view σ ids)).
Proof.
  intros Hh. unfold th_FixHeap, FixHeap. rewrite view_lookup, view_length by done. cbn [weight].
  destruct (Nat.eqb_spec h 0) as [->|Hn]; cbn [negb andb].
  - by apply th_FixHeapDown_simulates.
  - pose proof (parent_lt h ltac:(lia)). rewrite view_lookup by lia. cbn [weight].
    destruct (less _ _); [by apply th_FixHeapUp_simulates|by apply th_FixHeapDown_simulates].
Qed.

Lemma upd_same_ids (ids : list nat) h : h < length ids -> <[h := ids !!! h]> ids = ids.
Proof. intros. apply list_insert_id. by apply list_lookup_lookup_total_lt. Qed.

Lemma th_FixHeap_pos σ ids h :
  h < length ids -> ids_ok σ ids -> pos_but h σ ids ->
  let r := th_FixHeap less h σ ids in pos_ok (fst r) (snd r).
Proof.
  intros Hh Hok Hp. unfold th_FixHeap, th_FixHeapUp, th_FixHeapDown.
  destruct (_ && _); [apply fix_up_pos|apply fix_down_pos]; rewrite ?upd_same_ids; done || lia.
Qed.
Lemma th_FixHeapUp_pos σ ids h :
  h < length ids -> ids_ok σ ids -> pos_but h σ ids ->
  let r := th_FixHeapUp less h σ ids in pos_ok (fst r) (snd r).
Proof. intros Hh Hok Hp. apply fix_up_pos; rewrite ?upd_same_ids; done. Qed.
Lemma th_FixHeapDown_pos σ ids h :
  h < length ids -> ids_ok σ ids -> pos_but h σ ids ->
  let r := th_FixHeapDown less h (length ids) σ ids in pos_ok (fst r) (snd r).
Proof. intros Hh Hok Hp. apply fix_down_pos; rewrite ?upd_same_ids; done || lia. Qed.

Lemma th_sort_loop_simulates n σ ids : n <= length ids ->
  simulates σ (th_sort_loop less n σ ids) (sort_loop less n (view σ ids)).
Proof.
  revert σ ids. induction n as [|n IH]; intros σ ids Hn; cbn [th_sort_loop sort_loop]; [done|].
  destruct (Nat.eqb_spec n 0) as [->|H0]; [done|].
  assert (swap 0 n (view σ ids) = view σ (swap 0 n ids)) as ->.
  { unfold swap. rewrite !view_insert, !view_lookup by lia. done. }
  assert (length (swap 0 n ids) = length ids) as Ls by (unfold swap; by rewrite !length_insert).
  destruct (th_FixHeapDown_simulates σ (swap 0 n ids) 0 n) as [H1 H2]; [lia|lia|].
  destruct (th_FixHeapDown less 0 n σ (swap 0 n ids)) as [σ1 ids1]. cbn [fst snd] in *.
  rewrite <- H2. destruct (IH σ1 ids1) as [H3 H4].
  { rewrite <- (view_length σ), H2. unfold FixHeapDown. 
    assert (forall fuel (l : list (ElemOf nat)) h e, length (fix_down less fuel l h n e) = length l) as Hlen.
    { clear. induction fuel as [|fuel IH]; intros l h e; cbn [fix_down]; [done|].
      destruct (_ <=? _); [apply length_insert|]. destruct (less _ _); [apply length_insert|].
      rewrite IH. apply length_insert. }
    rewrite Hlen, view_length, Ls. lia. }
  split; [by apply (same_elems_trans _ σ1)|]. rewrite <- (view_same σ σ1) by done. rewrite H4. by rewrite (view_same σ σ1).
Qed.

(** [ReHeap] reverses the pointers and gives every element its position. *)
Lemma th_reheap_ids k ne σ ids :
  length ids = ne -> k <= ne / 2 ->
  let r := fold_left (reheap_step ne) (seq 0 k) (σ, ids) in
  same_elems σ (fst r) /\ snd r = fold_left (fun l i => swap i (ne - 1 - i) l) (seq 0 k) ids.
Proof.
  intros Hl. induction k as [|k IH]; intros Hk; [done|]. rewrite seq_S, !fold_left_app. cbn [fold_left Nat.add].
  destruct (IH ltac:(lia)) as [H1 H2]. destruct (fold_left (reheap_step ne) _ _) as [σ1 ids1]. cbn [fst snd] in *.
  unfold reheap_step. cbn [fst snd]. rewrite <- H2. split; [|done].
  apply (same_elems_trans _ σ1); [done|]. eapply same_elems_trans; apply set_pos_same.
Qed.
End Simulation.

(** ** The heap of a table of numbers *)

Lemma perm_eq {A} (l l' : list A) : l = l' -> l ≡ₚ l'.
Proof. by intros ->. Qed.

Section Numeric.
Context (ops : SzlOps) (ks : list Kind) (Ho : num_ops ops ks) (bucket_count : gmap bytes nat -> Z).
Context (less : SzlValueCmp) `{L : !CmpLaws (weight_ok ops) less}.
#[local] Abbreviation good := (num_good ops ks).
#[local] Abbreviation cell := (num_cell ops ks).
#[local] Abbreviation at_ := (num_at ops ks).

(** The hash table finds exactly the elements of the heap, by their values. *)
Definition hash_ok (σ : list TopElem) (ids : list nat) (m : gmap bytes nat) : Prop :=
  forall v e, m !! v = Some e <-> e ∈ ids /\ te_value (σ !!! e) = v.

Definition th_inv (t : SzlTopHeap) : Prop :=
  ids_ok (th_store t) (th_heap t) /\ pos_ok (th_store t) (th_heap t)
  /\ heap_upto less (length (th_heap t)) (view (th_store t) (th_heap t))
  /\ Forall (fun e => good (wt_of (th_store t) e)) (th_heap t)
  /\ hash_ok (th_store t) (th_heap t) (th_hash t)
  /\ (th_nElems t <= th_max t)%Z.

(** The elements: values and weights. *)
Definition pair_of (σ : list TopElem) (e : nat) : bytes * SzlValue := (te_value (σ !!! e), wt_of σ e).
Definition pairs (t : SzlTopHeap) : list (bytes * SzlValue) := map (pair_of (th_store t)) (th_heap t).

Lemma pair_of_same σ σ' e : same_elems σ σ' -> pair_of σ' e = pair_of σ e.
Proof. intros [_ H]. unfold pair_of, wt_of. destruct (H e) as [-> ->]. done. Qed.

Lemma th_inv_new m : (0 <= m)%Z -> th_inv (th_new m).
Proof.
  intros Hm. split; [split; constructor|]. split; [by intros i e Hi|].
  split; [intros i Hi; cbn in Hi; lia|]. split; [constructor|]. split; [|done].
  intros v e. cbn. rewrite lookup_empty. split; [done|]. intros [H _]. by apply elem_of_nil in H.
Qed.

Lemma view_wts σ ids : Forall (fun e => good (wt_of σ e)) ids -> wts_ok (weight_ok ops) (view σ ids).
Proof.
  intros H. apply Forall_map. eapply Forall_impl; [exact H|]. intros e He. cbn. by apply (num_weight_ok ops ks).
Qed.

(** Values in the heap are distinct. *)
Lemma values_distinct σ ids m e e' :
  hash_ok σ ids m -> e ∈ ids -> e' ∈ ids -> te_value (σ !!! e) = te_value (σ !!! e') -> e = e'.
Proof.
  intros H He He' E. assert (m !! te_value (σ !!! e) = Some e) as H1 by by apply H.
  assert (m !! te_value (σ !!! e) = Some e') as H2 by by apply H. congruence.
Qed.

Lemma hash_ok_same σ σ' ids ids' m : same_elems σ σ' -> ids' ≡ₚ ids -> hash_ok σ ids m -> hash_ok σ' ids' m.
Proof.
  intros [_ Hs] Hp H v e. rewrite (H v e), Hp. by destruct (Hs e) as [-> _].
Qed.

Lemma simulates_perm σ r l ids : simulates σ r l -> l ≡ₚ view σ ids -> snd r ≡ₚ ids.
Proof. intros [_ H] Hp. apply (view_perm σ). by rewrite H. Qed.

(** After a move the invariant holds again. *)
Lemma th_inv_moved σ ids m mx σ' ids' l :
  simulates σ (σ', ids') l -> l ≡ₚ view σ ids -> heap_upto less (length l) l -> pos_ok σ' ids' ->
  ids_ok σ ids -> Forall (fun e => good (wt_of σ e)) ids -> hash_ok σ ids m -> (Z.of_nat (length ids) <= mx)%Z ->
  th_inv (MkTopHeap σ' ids' m mx) /\ pairs (MkTopHeap σ' ids' m mx) ≡ₚ map (pair_of σ) ids /\ ids' ≡ₚ ids /\ same_elems σ σ'.
Proof.
  intros Hsim Hp Hh Hpos Hok Hg Hm Hmx. pose proof (simulates_perm _ _ _ _ Hsim Hp) as Hids.
  destruct Hsim as [Hs Hv]. cbn [fst snd] in *.
  unfold th_inv, pairs, th_nElems. cbn [th_store th_heap th_hash th_max]. rewrite (Permutation_length Hids).
  split; [|split; [|done]].
  - split; [apply (ids_ok_same σ), (ids_ok_perm _ _ _ Hids); done|]. split; [done|].
    split; [rewrite (view_same σ), Hv by done; by rewrite <- (Permutation_length Hids), <- (view_length σ), Hv|].
    split; [|split; [|done]].
    + rewrite Hids. eapply Forall_impl; [exact Hg|]. intros e He. cbn. by rewrite (wt_of_same σ).
    + by apply (hash_ok_same σ _ ids).
  - rewrite <- Hids. apply perm_eq, map_ext. intros e. by apply pair_of_same.
Qed.

Lemma good_val w : good w -> val_ok ops w.
Proof. by apply num_val_ok. Qed.

Lemma pos_ok_but h σ ids : pos_ok σ ids -> pos_but h σ ids.
Proof. intros H i e _. apply H. Qed.

Lemma lookup_snoc_old (σ : list TopElem) x e : e < length σ -> (σ ++ [x]) !!! e = σ !!! e.
Proof. intros. by rewrite lookup_total_app_l. Qed.
Lemma lookup_snoc_new (σ : list TopElem) x : (σ ++ [x]) !!! length σ = x.
Proof. by rewrite list_lookup_total_middle. Qed.

Lemma AddNewElem_spec t v w :
  th_inv t -> th_hash t !! v = None -> (th_nElems t < th_max t)%Z -> good w -> exists m t',
    AddNewElem less ops bucket_count v w t = Ok (m, t') /\ th_inv t' /\ th_max t' = th_max t
    /\ pairs t' ≡ₚ (v, w) :: pairs t.
Proof.
  destruct t as [σ ids hm mx]. unfold th_nElems. cbn [th_heap th_hash th_max].
  intros (Hok & Hpos & Hheap & Hg & Hhash & Hmax) Hv Hlt Hw. unfold th_nElems in Hmax. cbn [th_store th_heap th_hash th_max] in *.
  unfold AddNewElem, th_nElems. cbn [th_store th_heap th_hash th_max].
  rewrite (proj2 (Z.ltb_lt _ _)) by done. cbn [check mbind res_bind].
  rewrite Assign_fresh by (apply (num_ops_ok ops ks Ho) || by apply good_val). cbn [mbind res_bind].
  set (e := length σ). set (σ1 := σ ++ [MkTopElem v w (length ids)]). set (ids1 := ids ++ [e]).
  destruct Hok as [Hnd Hall].
  assert (forall x, x ∈ ids -> x < length σ) as Hin by (by apply Forall_forall).
  assert (length ids1 = S (length ids)) as L1 by (unfold ids1; rewrite length_app; cbn; lia).
  assert (forall x, x ∈ ids -> σ1 !!! x = σ !!! x) as Hold by (intros x Hx; by apply lookup_snoc_old, Hin).
  assert (σ1 !!! e = MkTopElem v w (length ids)) as Hnew by apply lookup_snoc_new.
  assert (ids_ok σ1 ids1) as Hok1.
  { split.
    - apply NoDup_app. split; [done|]. split; [|apply NoDup_singleton]. intros x Hx Hxe.
      apply list_elem_of_singleton in Hxe as ->. pose proof (Hin _ Hx). lia.
    - apply Forall_app. unfold σ1. rewrite length_app. cbn [length]. split; [|apply Forall_singleton; lia].
      eapply Forall_impl; [exact Hall|]. intros x Hx. cbn in Hx. lia. }
  assert (view σ1 ids = view σ ids) as Vold.
  { apply map_ext_in. intros x Hx. apply list_elem_of_In in Hx. unfold wt_of. by rewrite Hold. }
  assert (view σ1 ids1 = view σ ids ++ [MkElem e w]) as V1.
  { unfold ids1. rewrite view_app, Vold. cbn. unfold wt_of. by rewrite Hnew. }
  assert (Forall (fun x => good (wt_of σ1 x)) ids1) as Hg1.
  { apply Forall_app. split; [|apply Forall_singleton; unfold wt_of; by rewrite Hnew].
    apply Forall_forall. intros x Hx. unfold wt_of. rewrite Hold by done. exact (proj1 (Forall_forall _ _) Hg x Hx). }
  assert (pos_but (length ids) σ1 ids1) as Hpos1.
  { intros i x Hi Hx. pose proof (lookup_lt_Some _ _ _ Hx) as Hlen. unfold ids1 in Hx.
    rewrite lookup_app_l in Hx by lia. rewrite Hold by (by apply (list_elem_of_lookup_2 _ i)). by apply Hpos. }
  pose proof (th_FixHeapUp_simulates less σ1 ids1 (length ids) ltac:(lia)) as Hsim.
  pose proof (th_FixHeapUp_pos less σ1 ids1 (length ids) ltac:(lia) Hok1 Hpos1) as Hpos2.
  destruct (th_FixHeapUp less (length ids) σ1 ids1) as [σ2 ids2]. cbn [fst snd] in Hpos2.
  destruct (FixHeapUp_spec (weight_ok ops) less (view σ1 ids1) (length ids)) as [P2 H2].
  { rewrite view_length. lia. } { by apply view_wts. }
  { rewrite view_length. intros i Hi Hne. pose proof (parent_lt i ltac:(lia)) as Hpi. unfold wt. rewrite V1.
    rewrite !lookup_total_app_l by (rewrite view_length; lia). apply Hheap. lia. }
  { rewrite view_length. intros i Hi Hp. pose proof (parent_lt i ltac:(lia)). lia. }
  destruct (Memory_ok ops w (num_ops_ok ops ks Ho)) as [mw ->]; [by apply good_val|]. cbn [mbind res_bind].
  assert (hash_insert v e hm = <[v := e]> hm) as -> by (unfold hash_insert; by rewrite Hv).
  assert (hash_ok σ1 ids1 (<[v := e]> hm)) as Hhash1.
  { intros v' x. unfold ids1. rewrite elem_of_app, list_elem_of_singleton.
    destruct (decide (v' = v)) as [->|Hne].
    - rewrite lookup_insert_eq. split.
      + intros [= <-]. rewrite Hnew. split; [by right|done].
      + intros [[Hx| ->] Hval]; [|done]. rewrite Hold in Hval by done.
        assert (hm !! v = Some x) by by apply Hhash. congruence.
    - rewrite lookup_insert_ne by done. rewrite (Hhash v' x). split.
      + intros [Hx Hval]. rewrite Hold by done. split; [by left|done].
      + intros [[Hx| ->] Hval]; [rewrite Hold in Hval by done; done|]. rewrite Hnew in Hval. done. }
  destruct (th_inv_moved σ1 ids1 (<[v := e]> hm) mx σ2 ids2 _ Hsim P2) as (I2 & Pp & _); try done.
  { rewrite (Permutation_length P2). exact H2. } { lia. }
  eexists _, _. split; [done|]. split; [exact I2|]. split; [done|]. rewrite Pp. unfold pairs. cbn [th_store th_heap].
  unfold ids1. rewrite map_app. cbn [map]. rewrite <- Permutation_cons_append.
  apply perm_eq. f_equal; [unfold pair_of, wt_of; by rewrite Hnew|].
  apply map_ext_in. intros x Hx. apply list_elem_of_In in Hx. unfold pair_of, wt_of. by rewrite Hold.
Qed.

(** Changing fields of one element. *)
Lemma set_weight_lookup e w σ x :
  set_weight e w σ !!! x
  = if decide (e = x /\ e < length σ) then MkTopElem (te_value (σ !!! x)) w (te_heap (σ !!! x)) else σ !!! x.
Proof. unfold set_weight. rewrite lookup_alter. by case_decide. Qed.
Lemma set_value_lookup e v σ x :
  set_value e v σ !!! x
  = if decide (e = x /\ e < length σ) then MkTopElem v (te_weight (σ !!! x)) (te_heap (σ !!! x)) else σ !!! x.
Proof. unfold set_value. rewrite lookup_alter. by case_decide. Qed.

(** The view and the elements when the element [e] at [h] gets a value and a weight. *)
Definition updated (e : nat) (v : bytes) (w : SzlValue) (σ σ' : list TopElem) : Prop :=
  length σ' = length σ /\ (forall x, x <> e -> σ' !!! x = σ !!! x)
  /\ σ' !!! e = MkTopElem v w (te_heap (σ !!! e)).

Lemma updated_heap e v w σ σ' ids h :
  ids !! h = Some e -> ids_ok σ ids -> pos_ok σ ids -> heap_upto less (length ids) (view σ ids) ->
  Forall (fun x => good (wt_of σ x)) ids -> good w -> updated e v w σ σ' ->
  ids_ok σ' ids /\ pos_but h σ' ids /\ wts_ok (weight_ok ops) (view σ' ids)
  /\ heap_but less h (length ids) (view σ' ids) /\ Forall (fun x => good (wt_of σ' x)) ids
  /\ exists rest, map (pair_of σ) ids ≡ₚ (te_value (σ !!! e), wt_of σ e) :: rest /\ map (pair_of σ') ids ≡ₚ (v, w) :: rest.
Proof.
  intros Hh [Hnd Hall] Hpos Hheap Hg Hw (Hl & Hothers & He).
  assert (h < length ids) as Hlt by by apply (lookup_lt_Some _ _ _ Hh).
  assert (view σ' ids = <[h := MkElem e w]> (view σ ids)) as Hv.
  { apply list_eq. intros i. unfold view. rewrite list_lookup_fmap.
    destruct (decide (i = h)) as [->|Hne].
    - rewrite Hh. rewrite list_lookup_insert_eq by (by rewrite length_map). cbn. unfold wt_of. by rewrite He.
    - rewrite list_lookup_insert_ne by done. rewrite list_lookup_fmap. destruct (ids !! i) as [x|] eqn:Hx; [|done].
      cbn. unfold wt_of. rewrite Hothers; [done|]. intros ->. apply Hne. by apply (NoDup_lookup _ _ _ _ Hnd Hx Hh). }
  assert (Forall (fun x => good (wt_of σ' x)) ids) as Hg'.
  { apply Forall_forall. intros x Hx. unfold wt_of. destruct (decide (x = e)) as [->|Hne]; [by rewrite He|].
    rewrite Hothers by done. exact (proj1 (Forall_forall _ _) Hg x Hx). }
  split; [split; [done|by rewrite Hl]|]. split.
  { intros i x Hi Hx. destruct (decide (x = e)) as [->|Hne].
    - exfalso. apply Hi. by apply (NoDup_lookup _ _ _ _ Hnd Hx Hh).
    - rewrite Hothers by done. by apply Hpos. }
  split; [by apply view_wts|]. split.
  { rewrite Hv. rewrite <- (view_length σ). apply (heap_but_upd (weight_ok ops) less); rewrite ?view_length; try done.
    by apply view_wts. }
  split; [done|].
  set (a := take h ids). set (b := drop (S h) ids).
  assert (ids = a ++ e :: b) as Eids by (symmetry; by apply take_drop_middle).
  assert (e ∉ a ++ b) as Hout.
  { rewrite Eids, <- Permutation_middle in Hnd. by apply NoDup_cons in Hnd as [Hnd _]. }
  exists (map (pair_of σ) (a ++ b)). rewrite Eids, !map_app. cbn [map].
  rewrite <- !Permutation_middle. split; [done|].
  unfold pair_of at 1, wt_of at 1. rewrite He. cbn [te_value te_weight].
  apply perm_eq. f_equal. rewrite <- !map_app. apply map_ext_in. intros x Hx. apply list_elem_of_In in Hx.
  unfold pair_of, wt_of. rewrite Hothers; [done|]. by intros ->.
Qed.

Lemma AddToWeight_spec t e w :
  th_inv t -> e ∈ th_heap t -> cell w -> exists m t' w' rest,
    AddToWeight less ops w e t = Ok (m, t') /\ th_inv t' /\ th_max t' = th_max t /\ good w'
    /\ (forall j, at_ w' j = s64 (at_ (wt_of (th_store t) e) j + at_ w j))
    /\ pairs t ≡ₚ pair_of (th_store t) e :: rest
    /\ pairs t' ≡ₚ (te_value (th_store t !!! e), w') :: rest
    /\ length (th_heap t') = length (th_heap t).
Proof.
  destruct t as [σ ids hm mx]. intros (Hok & Hpos & Hheap & Hg & Hhash & Hmax) He Hw.
  unfold th_nElems in Hmax. cbn [th_store th_heap th_hash th_max] in *.
  pose proof (proj1 (Forall_forall _ _) Hg e He) as Ge. cbn in Ge.
  pose proof (proj1 (Forall_forall _ _) (proj2 Hok) e He) as Elt. cbn in Elt.
  unfold AddToWeight. cbn [th_store th_heap th_hash th_max].
  destruct (Memory_ok ops (wt_of σ e) (num_ops_ok ops ks Ho)) as [m0 ->]; [by apply good_val|]. cbn [mbind res_bind].
  destruct (add_at ops ks Ho w (wt_of σ e) Hw) as (w' & -> & Cw' & Dw' & Gw'); [by apply good_cell|]. cbn [mbind res_bind].
  specialize (Gw' Ge). set (σ1 := set_weight e w' σ).
  assert (updated e (te_value (σ !!! e)) w' σ σ1) as Hup.
  { split; [apply length_alter|]. split.
    - intros x Hx. unfold σ1. rewrite set_weight_lookup. rewrite decide_False; [done|]. by intros [-> _].
    - unfold σ1. rewrite set_weight_lookup. by rewrite decide_True. }
  apply list_elem_of_lookup in He as [h Hh].
  destruct (updated_heap e (te_value (σ !!! e)) w' σ σ1 ids h Hh Hok Hpos Hheap Hg Gw' Hup)
    as (Hok1 & Hpos1 & Hw1 & Hb1 & Hg1 & rest & P1 & P2).
  destruct Hup as (Hl1 & Hoth1 & He1).
  assert (te_heap (σ1 !!! e) = h) as -> by (rewrite He1; cbn; by apply Hpos).
  assert (h < length ids) as Hlt by by apply (lookup_lt_Some _ _ _ Hh).
  assert (hash_ok σ1 ids hm) as Hhash1.
  { intros v x. rewrite (Hhash v x). destruct (decide (x = e)) as [->|Hne]; [by rewrite He1|]. by rewrite Hoth1. }
  pose proof (th_FixHeap_simulates less σ1 ids h Hlt) as Hsim.
  pose proof (th_FixHeap_pos less σ1 ids h Hlt Hok1 Hpos1) as Hpos2.
  destruct (th_FixHeap less h σ1 ids) as [σ2 ids2]. cbn [fst snd] in Hpos2.
  destruct (FixHeap_spec (weight_ok ops) less (view σ1 ids) h) as [R1 R2]; rewrite ?view_length; try done.
  destruct (th_inv_moved σ1 ids hm mx σ2 ids2 _ Hsim R1) as (I2 & Pp & Pids & _); try done.
  { rewrite (Permutation_length R1). by rewrite view_length in *. }
  destruct (Memory_ok ops w' (num_ops_ok ops ks Ho)) as [m1 ->]; [by apply good_val|]. cbn [mbind res_bind].
  eexists _, _, w', rest. split; [done|]. split; [exact I2|]. split; [done|]. split; [done|].
  split; [done|]. split; [exact P1|]. split; [|cbn [th_heap]; by rewrite (Permutation_length Pids)].
  unfold pairs in *. cbn [th_store th_heap] in *. by rewrite Pp, P2.
Qed.

Lemma ReplaceSmallest_spec t v w :
  th_inv t -> (0 < th_nElems t)%Z -> th_hash t !! v = None -> good w -> exists m t' rest,
    ReplaceSmallest less ops v w t = Ok (m, t') /\ th_inv t' /\ th_max t' = th_max t
    /\ pairs t ≡ₚ pair_of (th_store t) (Smallest t) :: rest
    /\ pairs t' ≡ₚ (v, w) :: rest /\ length (th_heap t') = length (th_heap t).
Proof.
  destruct t as [σ ids hm mx]. intros (Hok & Hpos & Hheap & Hg & Hhash & Hmax) Hn Hv Hw.
  unfold th_nElems, Smallest in *. cbn [th_store th_heap th_hash th_max] in *.
  assert (0 < length ids) as Hlt by lia. set (e := ids !!! 0).
  assert (ids !! 0 = Some e) as Hh by by apply list_lookup_lookup_total_lt.
  assert (e ∈ ids) as He by by apply (list_elem_of_lookup_2 _ 0).
  pose proof (proj1 (Forall_forall _ _) Hg e He) as Ge. cbn in Ge.
  pose proof (proj1 (Forall_forall _ _) (proj2 Hok) e He) as Elt. cbn in Elt.
  unfold ReplaceSmallest, th_nElems. cbn [th_store th_heap th_hash th_max]. fold e.
  rewrite (proj2 (Z.ltb_lt _ _)) by done. cbn [check mbind res_bind].
  destruct (Memory_ok ops (te_weight (σ !!! e)) (num_ops_ok ops ks Ho)) as [m0 ->]; [by apply good_val|]. cbn [mbind res_bind].
  rewrite Assign_copies; [|by apply (num_ops_ok ops ks)|by apply good_val|right; by apply good_val]. cbn [mbind res_bind].
  set (σ1 := set_weight e w (set_value e v σ)).
  assert (updated e v w σ σ1) as Hup.
  { assert (length (set_value e v σ) = length σ) as Lv by apply length_alter.
    split; [unfold σ1, set_weight; by rewrite length_alter|]. split.
    - intros x Hx. unfold σ1. rewrite set_weight_lookup, set_value_lookup. rewrite !decide_False; [done|..]; by intros [-> _].
    - unfold σ1. rewrite set_weight_lookup, set_value_lookup. rewrite !decide_True by (rewrite ?Lv; done). done. }
  destruct (updated_heap e v w σ σ1 ids 0 Hh Hok Hpos Hheap Hg Hw Hup) as (Hok1 & Hpos1 & Hw1 & Hb1 & Hg1 & rest & P1 & P2).
  destruct Hup as (Hl1 & Hoth1 & He1).
  assert (delete (te_value (σ !!! e)) hm !! v = None) as Hv'.
  { destruct (decide (te_value (σ !!! e) = v)) as [->|Hne]; [apply lookup_delete_eq|].
    by rewrite lookup_delete_ne. }
  set (hm1 := hash_insert v e (delete (te_value (σ !!! e)) hm)).
  assert (hm1 = <[v := e]> (delete (te_value (σ !!! e)) hm)) as Ehm by (unfold hm1, hash_insert; by rewrite Hv').
  assert (hash_ok σ1 ids hm1) as Hhash1.
  { intros v' x. rewrite Ehm. destruct (decide (v' = v)) as [->|Hne].
    - rewrite lookup_insert_eq. split; [intros [= <-]; by rewrite He1|]. intros [Hx Hval].
      destruct (decide (x = e)) as [->|Hxe]; [done|]. exfalso. rewrite Hoth1 in Hval by done.
      assert (hm !! v = Some x) by by apply Hhash. congruence.
    - rewrite lookup_insert_ne by done. destruct (decide (v' = te_value (σ !!! e))) as [->|Hve].
      + rewrite lookup_delete_eq. split; [done|]. intros [Hx Hval]. exfalso.
        destruct (decide (x = e)) as [->|Hxe]; [rewrite He1 in Hval; cbn in Hval; congruence|].
        rewrite Hoth1 in Hval by done. apply Hxe. by apply (values_distinct σ ids hm).
      + rewrite lookup_delete_ne by done. rewrite (Hhash v' x).
        destruct (decide (x = e)) as [->|Hxe]; [|by rewrite Hoth1]. rewrite He1. cbn. split; intros [_ ?]; congruence. }
  pose proof (th_FixHeapDown_simulates less σ1 ids 0 (length ids) ltac:(done) Hlt) as Hsim.
  pose proof (th_FixHeapDown_pos less σ1 ids 0 Hlt Hok1 Hpos1) as Hpos2.
  destruct (th_FixHeapDown less 0 (length ids) σ1 ids) as [σ2 ids2]. cbn [fst snd] in Hpos2.
  destruct (FixHeapDown_spec (weight_ok ops) less (view σ1 ids) 0 (length ids)) as (R1 & R2 & _); rewrite ?view_length; try done.
  { intros i Hi Hp. apply Hb1; [done|lia|done]. } { lia. }
  destruct (th_inv_moved σ1 ids hm1 mx σ2 ids2 _ Hsim R1) as (I2 & Pp & Pids & _); try done.
  { by rewrite (Permutation_length R1), view_length. }
  destruct (Memory_ok ops w (num_ops_ok ops ks Ho)) as [m1 ->]; [by apply good_val|]. cbn [mbind res_bind].
  eexists _, _, rest. split; [done|]. split; [exact I2|]. split; [done|].
  split; [exact P1|]. split; [|cbn [th_heap]; by rewrite (Permutation_length Pids)].
  unfold pairs in *. cbn [th_store th_heap] in *. by rewrite Pp, P2.
Qed.

(** What the hash table finds. *)
Lemma Find_spec t v : th_inv t ->
  match Find t v with
  | Some e => e ∈ th_heap t /\ te_value (th_store t !!! e) = v
  | None => v ∉ map fst (pairs t)
  end.
Proof.
  intros (_ & _ & _ & _ & Hh & _). unfold Find. destruct (th_hash t !! v) as [e|] eqn:E; [by apply Hh|].
  intros Hin. unfold pairs in Hin. rewrite map_map in Hin. apply list_elem_of_In, in_map_iff in Hin as (x & Hx & Hin).
  apply list_elem_of_In in Hin. cbn in Hx. assert (th_hash t !! v = Some x) by by apply Hh. congruence.
Qed.

Lemma pairs_distinct t : th_inv t -> NoDup (map fst (pairs t)).
Proof.
  intros ((Hnd & _) & _ & _ & _ & Hh & _). unfold pairs. rewrite map_map. cbn.
  apply NoDup_alt. intros i j v Hi Hj. rewrite list_lookup_fmap in Hi. rewrite list_lookup_fmap in Hj.
  destruct (th_heap t !! i) as [x|] eqn:Ex; [|done]. destruct (th_heap t !! j) as [y|] eqn:Ey; [|done]. cbn in Hi, Hj.
  assert (x = y) as ->.
  { apply (values_distinct (th_store t) (th_heap t) (th_hash t)); [done|..|congruence].
    - by apply (list_elem_of_lookup_2 _ i). - by apply (list_elem_of_lookup_2 _ j). }
  by apply (NoDup_lookup _ _ _ _ Hnd Ex Ey).
Qed.

Lemma pairs_good t : th_inv t -> Forall (fun p => good (snd p)) (pairs t).
Proof. intros (_ & _ & _ & H & _). unfold pairs. apply Forall_map. exact H. Qed.

(** *** Sorting and restoring *)

Lemma th_Sort_view t : th_inv t ->
  let t' := th_Sort less t in
  same_elems (th_store t) (th_store t') /\ th_heap t' ≡ₚ th_heap t
  /\ th_hash t' = th_hash t /\ th_max t' = th_max t
  /\ StronglySorted (desc less) (view (th_store t) (th_heap t')).
Proof.
  destruct t as [σ ids hm mx]. intros (Hok & Hpos & Hheap & Hg & Hhash & Hmax). cbn [th_store th_heap th_hash th_max] in *.
  unfold th_Sort. cbn [th_store th_heap th_hash th_max].
  pose proof (th_sort_loop_simulates less (length ids) σ ids ltac:(done)) as Hsim.
  destruct (sort_all (weight_ok ops) less (view σ ids)) as [S1 S2]; [by apply view_wts|by rewrite view_length|].
  rewrite view_length in S1, S2. pose proof (simulates_perm _ _ _ _ Hsim S1) as Hids.
  destruct (th_sort_loop less (length ids) σ ids) as [σ1 ids1]. destruct Hsim as [Hs Hv]. cbn [fst snd th_store th_heap th_hash th_max] in *.
  split; [done|]. split; [done|]. split; [done|]. split; [done|]. by rewrite Hv.
Qed.

Lemma same_elems_sym σ σ' : same_elems σ σ' -> same_elems σ' σ.
Proof. intros [H1 H2]. split; [done|]. intros e. by destruct (H2 e) as [-> ->]. Qed.

Lemma swap_ids_perm (ids : list nat) i j : i < length ids -> j < length ids -> swap i j ids ≡ₚ ids.
Proof. intros. unfold swap. apply Permutation_insert_swap; by apply list_lookup_lookup_total_lt. Qed.

(** After [k] rounds the [k] first and the [k] last elements have their positions. *)
Lemma reheap_positions k ne σ ids :
  length ids = ne -> k <= ne / 2 -> ids_ok σ ids ->
  let r := fold_left (reheap_step ne) (seq 0 k) (σ, ids) in
  snd r ≡ₚ ids /\ (forall i e, i < k \/ ne - k <= i -> snd r !! i = Some e -> te_heap (fst r !!! e) = i).
Proof.
  intros Hl Hk Hok. induction k as [|k IH].
  { split; [done|]. intros i e Hi He. apply lookup_lt_Some in He. cbn in He. lia. }
  rewrite seq_S, fold_left_app. cbn [fold_left Nat.add].
  destruct (IH ltac:(lia)) as [H1 H2]. destruct (th_reheap_ids k ne σ ids Hl ltac:(lia)) as [Hs _].
  destruct (fold_left (reheap_step ne) _ _) as [σ1 ids1]. cbn [fst snd] in *.
  unfold reheap_step. cbn [fst snd]. set (e1 := ids1 !!! k). set (e2 := ids1 !!! (ne - 1 - k)).
  pose proof (Permutation_length H1) as L1.
  assert (ids_ok σ1 ids1) as [Hnd1 Hall1] by by apply (ids_ok_same σ), (ids_ok_perm _ _ _ H1).
  assert (ids1 !! k = Some e1) as E1 by (apply list_lookup_lookup_total_lt; lia).
  assert (ids1 !! (ne - 1 - k) = Some e2) as E2 by (apply list_lookup_lookup_total_lt; lia).
  assert (e1 <> e2) as Hne.
  { intros E. rewrite E in E1. pose proof (NoDup_lookup _ _ _ _ Hnd1 E1 E2). lia. }
  pose proof (Forall_lookup_1 _ _ _ _ Hall1 E1) as B1. pose proof (Forall_lookup_1 _ _ _ _ Hall1 E2) as B2. cbn in B1, B2.
  split; [rewrite <- H1; apply (swap_ids_perm ids1 k (ne - 1 - k)); lia|].
  intros i e Hi He. rewrite !heap_set_pos, set_pos_length.
  destruct (decide (i = ne - 1 - k)) as [->|Hi2].
  { rewrite list_lookup_insert_eq in He by (rewrite length_insert; lia). injection He as <-. by rewrite decide_True. }
  rewrite list_lookup_insert_ne in He by done.
  destruct (decide (i = k)) as [->|Hi1].
  { rewrite list_lookup_insert_eq in He by lia. injection He as <-. rewrite decide_False by (by intros [? _]). by rewrite decide_True. }
  rewrite list_lookup_insert_ne in He by done.
  rewrite !decide_False.
  - apply H2; [lia|done].
  - intros [<- _]. apply Hi2. by apply (NoDup_lookup _ _ _ _ Hnd1 He E2).
  - intros [<- _]. apply Hi1. by apply (NoDup_lookup _ _ _ _ Hnd1 He E1).
Qed.

Lemma th_ReHeap_Sort_inv t : th_inv t ->
  th_inv (th_ReHeap (th_Sort less t)) /\ pairs (th_ReHeap (th_Sort less t)) ≡ₚ pairs t
  /\ th_max (th_ReHeap (th_Sort less t)) = th_max t.
Proof.
  intros Hinv. destruct (th_Sort_view t Hinv) as (Hs & Hp & Hh & Hm & Hsort).
  destruct Hinv as (Hok & Hpos & Hheap & Hg & Hhash & Hmax). unfold th_nElems in Hmax.
  destruct (th_Sort less t) as [σ ids hm mx]. cbn [th_store th_heap th_hash th_max] in *. subst hm mx.
  unfold th_ReHeap. cbn [th_store th_heap th_hash th_max].
  assert (ids_ok σ ids) as Hok1 by by apply (ids_ok_same (th_store t)), (ids_ok_perm _ _ _ Hp).
  destruct (th_reheap_ids (length ids / 2) (length ids) σ ids) as [R1 R2]; [done|done|].
  destruct (reheap_positions (length ids / 2) (length ids) σ ids) as [R3 R4]; [done|done|done|].
  destruct (fold_left (reheap_step (length ids)) _ _) as [σ1 ids1]. cbn [fst snd] in *.
  set (σ2 := if (length ids mod 2 =? 1) then set_pos (ids1 !!! (length ids / 2)) (length ids / 2) σ1 else σ1).
  pose proof (Permutation_length R3) as L3. pose proof (Permutation_length Hp) as Lp.
  assert (same_elems σ1 σ2) as S2 by (unfold σ2; destruct (_ =? 1); [apply set_pos_same|done]).
  assert (same_elems (th_store t) σ2) as S by (apply (same_elems_trans _ σ1); [apply (same_elems_trans _ σ)|]; done).
  assert (ids_ok σ1 ids1) as [Hnd1 Hall1] by by apply (ids_ok_same σ), (ids_ok_perm _ _ _ R3).
  assert (ids1 = reverse ids) as Erev by (rewrite R2; apply (reheap_loop_rev ids)).
  assert (view σ2 ids1 = reverse (view (th_store t) ids)) as Ev.
  { rewrite (view_same (th_store t)) by done. rewrite Erev. unfold view. 
    by rewrite <- fmap_reverse. }
  split; [|split; [|done]].
  - split; [|split; [|split; [|split; [|split]]]]; cbn [th_store th_heap th_hash th_max].
    + apply (ids_ok_same σ1); [done|]. by split.
    + intros i e He. unfold σ2. pose proof (lookup_lt_Some _ _ _ He) as Hi.
      destruct (Nat.eqb_spec (length ids mod 2) 1) as [Hodd|Heven].
      * destruct (decide (i = length ids / 2)) as [->|Hne].
        -- rewrite (list_lookup_total_correct _ _ _ He). rewrite heap_set_pos, decide_True; [done|].
           split; [done|]. exact (Forall_lookup_1 _ _ _ _ Hall1 He).
        -- rewrite heap_set_pos, decide_False; [apply R4; [lia|done]|]. intros [Ee _]. apply Hne.
           apply (NoDup_lookup _ _ _ _ Hnd1 He). rewrite <- Ee. apply list_lookup_lookup_total_lt. lia.
      * apply R4; [lia|done].
    + rewrite Ev. rewrite <- (view_length σ2), Ev. by apply (rev_desc_heap less).
    + rewrite R3, Hp. eapply Forall_impl; [exact Hg|]. intros e He. cbn. by rewrite (wt_of_same (th_store t)).
    + apply (hash_ok_same (th_store t) _ (th_heap t)); [done|by rewrite R3|done].
    + unfold th_nElems. cbn [th_heap th_max]. lia.
  - unfold pairs. cbn [th_store th_heap]. rewrite R3, Hp. apply perm_eq, map_ext. intros e. by apply pair_of_same.
Qed.

Lemma th_Sort_pairs t : th_inv t -> pairs (th_Sort less t) ≡ₚ pairs t.
Proof.
  intros Hinv. destruct (th_Sort_view t Hinv) as (Hs & Hp & _). unfold pairs. rewrite Hp. apply perm_eq, map_ext.
  intros e. by apply pair_of_same.
Qed.

Lemma th_Clear_ok t : Forall (fun p => good (snd p)) (pairs t) -> (0 <= th_max t)%Z ->
  exists t', th_Clear ops t = Ok t' /\ th_inv t' /\ pairs t' = [] /\ th_max t' = th_max t.
Proof.
  intros Hg Hmax. unfold pairs in Hg. rewrite Forall_map in Hg. cbn in Hg. unfold th_Clear.
  assert (exists ws, mapM (fun e => Clear ops (wt_of (th_store t) e)) (th_heap t) = Ok ws) as [ws ->].
  { clear -Hg Ho. induction Hg as [|e ids He Hg IH]; [by exists []|]. destruct IH as [ws E].
    destruct (Clear_ok ops (wt_of (th_store t) e) (num_ops_ok ops ks Ho)) as (w & Ew & _).
    { apply (num_dest ops ks Ho). by right. }
    exists (w :: ws). cbn. rewrite Ew. cbn [mbind res_bind]. by rewrite E. }
  cbn [mbind res_bind]. eexists. split; [done|]. split; [|done].
  split; [split; constructor|]. split; [by intros i e Hi|]. split; [intros i Hi; cbn in Hi; lia|].
  split; [constructor|]. split; [|unfold th_nElems; cbn; lia].
  intros v e. cbn. rewrite lookup_empty. split; [done|]. intros [H _]. by apply elem_of_nil in H.
Qed.

(** *** Histories *)

(** The calls the tables make, with the weights they make them with. *)
Inductive th_step : SzlTopHeap -> SzlTopHeap -> Prop :=
| step_add v w m t t' :
    Find t v = None -> (th_nElems t < th_max t)%Z -> good w ->
    AddNewElem less ops bucket_count v w t = Ok (m, t') -> th_step t t'
| step_reweight v e w m t t' :
    Find t v = Some e -> cell w -> AddToWeight less ops w e t = Ok (m, t') -> th_step t t'
| step_replace v w m t t' :
    Find t v = None -> (0 < th_nElems t)%Z -> good w ->
    ReplaceSmallest less ops v w t = Ok (m, t') -> th_step t t'
| step_display t : th_step t (th_ReHeap (th_Sort less t))
| step_clear t t' : th_Clear ops t = Ok t' -> th_step t t'.

Lemma th_step_inv t t' : th_inv t -> th_step t t' -> th_inv t' /\ th_max t' = th_max t.
Proof.
  intros Hinv. destruct 1 as [v w m t t' Hf Hn Hw E|v e w m t t' Hf Hw E|v w m t t' Hf Hn Hw E|t|t t' E].
  - destruct (AddNewElem_spec t v w Hinv Hf Hn Hw) as (? & ? & E' & I & M & _). rewrite E in E'. by injection E' as <- <-.
  - pose proof (Find_spec t v Hinv) as H. rewrite Hf in H. destruct H as [He _].
    destruct (AddToWeight_spec t e w Hinv He Hw) as (? & ? & ? & ? & E' & I & M & _). rewrite E in E'. by injection E' as <- <-.
  - destruct (ReplaceSmallest_spec t v w Hinv Hn Hf Hw) as (? & ? & ? & E' & I & M & _). rewrite E in E'. by injection E' as <- <-.
  - by destruct (th_ReHeap_Sort_inv t Hinv) as (? & _ & ?).
  - destruct (th_Clear_ok t) as (? & E' & I & _ & M); [by apply pairs_good| |rewrite E in E'; by injection E' as <-].
    destruct Hinv as (_ & _ & _ & _ & _ & H). unfold th_nElems in H. lia.
Qed.

Lemma th_steps_inv t t' : th_inv t -> rtc th_step t t' -> th_inv t' /\ th_max t' = th_max t.
Proof.
  intros Hinv H. induction H as [t|t t1 t' Hstep _ IH]; [done|].
  destruct (th_step_inv t t1 Hinv Hstep) as [H1 M1]. destruct (IH H1) as [H2 M2]. split; [done|congruence].
Qed.

Lemma th_inv_IsHeap t : th_inv t -> th_IsHeap less t = true.
Proof.
  intros (Hok & Hpos & Hheap & _). unfold th_IsHeap. apply forallb_forall. intros i Hi. apply in_seq in Hi.
  specialize (Hheap i ltac:(lia)). pose proof (parent_lt i ltac:(lia)). unfold le, wt in Hheap.
  rewrite !view_lookup in Hheap by lia. cbn [weight] in Hheap. rewrite Hheap. cbn [negb andb].
  apply Nat.eqb_eq, Hpos. apply list_lookup_lookup_total_lt. lia.
Qed.
End Numeric.

(** ** Correctness *)

(** C30. For weights that are integers, times or tuples of them, compared in a total
    order (floats are left out: a weight that is NaN is equal to all others, and can
    break the heap): whatever calls the table makes on its heap of candidates, the
    heap stays one ([IsHeap], which also checks that the elements know their
    positions), within its bound, with distinct values, of which [Find] finds exactly
    those present. *)
Theorem th_reachable_inv ops ks bc less m t :
  num_ops ops ks -> CmpLaws (weight_ok ops) less -> (0 <= m)%Z ->
  rtc (th_step ops ks bc less) (th_new m) t ->
  th_IsHeap less t = true /\ (th_nElems t <= m)%Z /\ NoDup (map fst (pairs t))
  /\ forall v e, Find t v = Some e <-> e ∈ th_heap t /\ te_value (th_store t !!! e) = v.
Proof.
  intros Ho L Hm Ht. destruct (th_steps_inv ops ks Ho bc less (th_new m) t (th_inv_new ops ks less m Hm) Ht) as [Hinv Hmax].
  split; [by apply (th_inv_IsHeap ops ks less)|]. split; [|split].
  - destruct Hinv as (_ & _ & _ & _ & _ & H). cbn in Hmax. lia.
  - by apply (pairs_distinct ops ks less).
  - intros v e. apply Hinv.
Qed.

Lemma th_reachable_inv_witness :
  let bc : gmap bytes nat -> Z := fun _ => 5%Z in
  exists t, rtc (th_step int_ops [INT] bc (SzlValueLess int_ops)) (th_new 2) t /\ (th_nElems t = 1)%Z
  /\ th_IsHeap (SzlValueLess int_ops) t = true /\ (th_nElems t <= 2)%Z /\ NoDup (map fst (pairs t))
  /\ forall v e, Find t v = Some e <-> e ∈ th_heap t /\ te_value (th_store t !!! e) = v.
Proof.
  intros bc. assert (num_good int_ops [INT] (VInt 3)) as Hw by (exists 3%Z; split; [done|unfold is_s64; lia]).
  destruct (AddNewElem_spec int_ops [INT] int_num_ops bc (SzlValueLess int_ops)
    (L := SzlValueLess_laws int_ops int_ops_ok) (th_new 2) [1%Z] (VInt 3)) as (m & t & E & I & M & P);
    [by apply th_inv_new|done|done|done|].
  assert (rtc (th_step int_ops [INT] bc (SzlValueLess int_ops)) (th_new 2) t) as Hr.
  { apply rtc_once. by apply (step_add _ _ _ _ [1%Z] (VInt 3) m). }
  exists t. split; [done|]. split.
  - unfold th_nElems. apply Permutation_length in P. unfold pairs in P. rewrite length_map in P. cbn in P. by rewrite P.
  - apply (th_reachable_inv int_ops [INT] bc (SzlValueLess int_ops) 2 t int_num_ops); [|done|exact Hr].
    exact (SzlValueLess_laws int_ops int_ops_ok).
Defined.
