(* ===== verification/TabEntry.v ===== *)
(** * Table entries: the interface of the aggregators

    Models [SzlTabEntry] of src/src/public/szltabentry.h, the virtual class every
    kind of table implements: a shard of the program adds elements to its entry
    and flushes it to a string; the strings of all shards are merged into one
    entry.  [MergeContract] is what an implementation promises: flushing and
    merging amounts to having added the elements of all the shards. *)
From Stdlib Require Import ZArith Lia.
From stdpp Require Import prelude.
From S2P Require Import Prelude SzlType Encoder Decoder Codec SzlValue ValueCodec.

Local Open Scope Z_scope.

(* @src src/src/public/szltabentry.h 37-40 SzlTabEntry::MergeStatus *)
Inductive MergeStatus : Type := MergeOk | MergeError.

(** The methods with the entry passed explicitly.  Adding returns the growth of
    the memory estimate.  [entry_TotElems] is the counter that the non-virtual
    [TotElems] of the base class returns. *)
(* @src src/src/public/szltabentry.h 28-101 SzlTabEntry *)
Class SzlTabEntry (E : Type) : Type := {
  entry_AddElem : bytes -> E -> res (Z * E);
  entry_AddWeightedElem : bytes -> SzlValue -> E -> res (Z * E);
  entry_Flush : E -> res (bytes * E);
  entry_FlushForDisplay : E -> res (list bytes * E);
  entry_Merge : bytes -> E -> res (MergeStatus * E);
  entry_Clear : E -> res E;
  entry_TotElems : E -> Z;
  entry_TupleCount : E -> res Z;
}.

(** What a table that does not override a method does: it aborts, or nothing. *)
Section Defaults.
Context {E : Type}.
(* @src src/src/public/szltabentry.h 44-47 SzlTabEntry::AddElem *)
Definition default_AddElem (elem : bytes) (e : E) : res (Z * E) := Fatal.
(* @src src/src/public/szltabentry.h 51-54 SzlTabEntry::AddWeightedElem *)
Definition default_AddWeightedElem (elem : bytes) (weight : SzlValue) (e : E) : res (Z * E) := Fatal.
(* @src src/src/public/szltabentry.h 59-61 SzlTabEntry::Flush *)
Definition default_Flush (e : E) : res (bytes * E) := Fatal.
(* @src src/src/public/szltabentry.h 66-69 SzlTabEntry::FlushForDisplay *)
Definition default_FlushForDisplay (e : E) : res (list bytes * E) := Fatal.
(* @src src/src/public/szltabentry.h 73-76 SzlTabEntry::Merge *)
Definition default_Merge (val : bytes) (e : E) : res (MergeStatus * E) := Fatal.
(* @src src/src/public/szltabentry.h 84-84 SzlTabEntry::Clear *)
Definition default_Clear (e : E) : res E := Ok e.
(* @src src/src/public/szltabentry.h 93-96 SzlTabEntry::TupleCount *)
Definition default_TupleCount (e : E) : res Z := Fatal.
End Defaults.

(** ** Sharded aggregation *)

Section Shards.
Context {E X : Type} `{SzlTabEntry E} (feed : X -> E -> res (Z * E)).

(** A shard adds its elements in order to a new entry. *)
Fixpoint feed_all (xs : list X) (e : E) : res E :=
  match xs with
  | [] => Ok e
  | x :: xs => '(_, e) ← feed x e; feed_all xs e
  end.

Definition run_shard (new : E) (xs : list X) : res bytes :=
  e ← feed_all xs new; '(s, _) ← entry_Flush e; Ok s.

(** The strings are merged in the order they arrive; an error stops the merge. *)
Fixpoint merge_all (msgs : list bytes) (e : E) : res E :=
  match msgs with
  | [] => Ok e
  | s :: msgs =>
      '(st, e) ← entry_Merge s e;
      match st with MergeOk => merge_all msgs e | MergeError => Fail end
  end.

Fixpoint run_shards (new : E) (shards : list (list X)) : res (list bytes) :=
  match shards with
  | [] => Ok []
  | xs :: shards => s ← run_shard new xs; ss ← run_shards new shards; Ok (s :: ss)
  end.

(** All shards run, then their strings are merged into a new entry. *)
Definition aggregate (new : E) (shards : list (list X)) : res E :=
  msgs ← run_shards new shards; merge_all msgs new.
End Shards.

(** What an entry promises, with [holds l e]: entry [e] is an entry to which the
    elements [l] were added, [reports l s]: string [s] is a flush of one, and
    [fits l]: the elements are within the table's limits. *)
Class MergeContract {E X : Type} `{SzlTabEntry E} (feed : X -> E -> res (Z * E)) (new : E)
    (good : X -> Prop) (fits : list X -> Prop)
    (holds : list X -> E -> Prop) (reports : list X -> bytes -> Prop) : Prop := {
  mc_fits l l' : fits (l ++ l') -> fits l /\ fits l';
  mc_new : holds [] new;
  mc_add l e x : fits (l ++ [x]) -> holds l e -> good x ->
    exists m e', feed x e = Ok (m, e') /\ holds (l ++ [x]) e';
  mc_flush l e : fits l -> holds l e -> exists s e', entry_Flush e = Ok (s, e') /\ reports l s;
  mc_merge l l' e s : fits (l ++ l') -> holds l e -> reports l' s ->
    exists e', entry_Merge s e = Ok (MergeOk, e') /\ holds (l ++ l') e';
}.

Section Contract.
Context {E X : Type} `{SzlTabEntry E} {feed : X -> E -> res (Z * E)} {new : E}
  {good : X -> Prop} {fits : list X -> Prop}
  {holds : list X -> E -> Prop} {reports : list X -> bytes -> Prop}
  `{M : !MergeContract feed new good fits holds reports}.

Lemma feed_all_holds xs l e :
  fits (l ++ xs) -> holds l e -> Forall good xs -> exists e', feed_all feed xs e = Ok e' /\ holds (l ++ xs) e'.
Proof.
  intros Hf He Hx. revert l e Hf He. induction Hx as [|x xs Hg Hx IH]; intros l e Hf He.
  { exists e. by rewrite app_nil_r. }
  assert (l ++ x :: xs = (l ++ [x]) ++ xs) as El by (by rewrite <- app_assoc). rewrite El in *.
  destruct (mc_fits _ _ Hf) as [Hf1 _].
  destruct (mc_add l e x Hf1 He Hg) as (m & e1 & E1 & H1). cbn [feed_all]. rewrite E1. cbn [mbind res_bind].
  by apply IH.
Qed.

Lemma run_shard_reports xs :
  fits xs -> Forall good xs -> exists s, run_shard feed new xs = Ok s /\ reports xs s.
Proof.
  intros Hf Hx. destruct (feed_all_holds xs [] new Hf mc_new Hx) as (e & Ee & He). unfold run_shard.
  rewrite Ee. cbn [mbind res_bind]. destruct (mc_flush _ _ Hf He) as (s & e' & Es & Hs). exists s. by rewrite Es.
Qed.

Lemma run_shards_reports shards :
  fits (concat shards) -> Forall (Forall good) shards ->
  exists msgs, run_shards feed new shards = Ok msgs /\ Forall2 reports shards msgs.
Proof.
  intros Hf. induction 1 as [|xs shards Hx Hs IH]; [by exists []|]. cbn [concat] in Hf.
  destruct (mc_fits _ _ Hf) as [Hf1 Hf2].
  destruct (run_shard_reports xs Hf1 Hx) as (s & Es & Rs), (IH Hf2) as (msgs & Em & Rm).
  exists (s :: msgs). cbn [run_shards]. rewrite Es, Em. split; [done|by constructor].
Qed.

Lemma merge_all_holds shards msgs l e :
  fits (l ++ concat shards) -> Forall2 reports shards msgs -> holds l e ->
  exists e', merge_all msgs e = Ok e' /\ holds (l ++ concat shards) e'.
Proof.
  intros Hf Hm. revert l e Hf. induction Hm as [|xs s shards msgs Hs Hm IH]; intros l e Hf He.
  { exists e. cbn. by rewrite app_nil_r. }
  cbn [concat] in *. rewrite app_assoc in *. destruct (mc_fits _ _ Hf) as [Hf1 _].
  destruct (mc_merge l xs e s Hf1 He Hs) as (e1 & E1 & H1). cbn [merge_all]. rewrite E1. cbn [mbind res_bind].
  by apply IH.
Qed.

(** Aggregating shards holds what one entry given all the elements would. *)
Lemma aggregate_holds shards :
  fits (concat shards) -> Forall (Forall good) shards ->
  exists e, aggregate feed new shards = Ok e /\ holds (concat shards) e.
Proof.
  intros Hf Hs. destruct (run_shards_reports shards Hf Hs) as (msgs & Em & Rm). unfold aggregate. rewrite Em.
  by apply (merge_all_holds shards msgs [] new Hf Rm mc_new).
Qed.
End Contract.

(** ** Integers and strings in messages *)

Lemma PutInt_enc e z : is_s64 z -> PutInt e z = AppendEncoding e (enc_prim (PInt z)).
Proof. intros Hz. pose proof (put_prim_spec e (PInt z) Hz) as E. by injection E. Qed.

Lemma GetInt_enc s z rest :
  is_s64 z -> bytes_ok rest -> GetInt (MkDec s (enc_prim (PInt z) ++ rest)) = Some (z, MkDec s rest).
Proof.
  intros Hz Hr. pose proof (get_prim_spec s (PInt z) rest Hz Hr) as E.
  cbn [get_prim prim_kind norm_prim] in E. destruct (GetInt _) as [[? ?]|]; [|done].
  by injection E as -> ->.
Qed.

Lemma PutBytes_enc enc v : bytes_ok v -> PutBytes enc v = AppendEncoding enc (enc_prim (PBytes v)).
Proof. intros Hv. pose proof (put_prim_spec enc (PBytes v) Hv) as E. cbn [put_prim] in E. congruence. Qed.

Lemma GetBytes_enc s v rest :
  bytes_ok v -> bytes_ok rest -> GetBytes (MkDec s (enc_prim (PBytes v) ++ rest)) = Some (v, MkDec s rest).
Proof.
  intros Hv Hr. pose proof (get_prim_spec s (PBytes v) rest Hv Hr) as E.
  cbn [get_prim prim_kind norm_prim] in E. destruct (GetBytes _) as [[? ?]|]; [|done].
  by injection E as -> ->.
Qed.

Lemma enc_int_ne z l : exists b m, enc_prim (PInt z) ++ l = b :: m.
Proof. cbn. destruct (0 <=? z); cbn; by eexists _, _. Qed.
#[export] Hint Resolve enc_prim_ok : szl.

(** ** Reading elements out of messages *)

(** [string(p, dec.position() - p)] for the positions of two decoders. *)
Definition between (d d' : SzlDecoder) : bytes := take (length (p_ d) - length (p_ d')) (p_ d).

(** [for (i = 0; i < n; ++i) if (!skip(&dec)) return false]. *)
Fixpoint skip_n (skip : SzlDecoder -> option SzlDecoder) (n : nat) (d : SzlDecoder) : option SzlDecoder :=
  match n with
  | O => Some d
  | S n => d ← skip d; skip_n skip n d
  end.

(** [CHECK] of an operation that moves the decoder. *)
Definition check_some {A} (o : option A) : res A := match o with Some a => Ok a | None => Fatal end.

Lemma between_app s x rest : between (MkDec s (x ++ rest)) (MkDec s rest) = x.
Proof. unfold between. cbn [p_]. rewrite length_app, Nat.add_sub. apply take_app_length. Qed.

(** A string that [skip] passes over wherever it stands. *)
Definition skippable (skip : SzlDecoder -> option SzlDecoder) (x : bytes) : Prop :=
  bytes_ok x /\ forall s rest, bytes_ok rest -> skip (MkDec s (x ++ rest)) = Some (MkDec s rest).

Lemma skippable_concat_ok skip xs : Forall (skippable skip) xs -> bytes_ok (concat xs).
Proof. induction 1 as [|x xs [Hx _] Hxs IH]; [constructor|]. by apply Forall_app. Qed.

Lemma skip_n_concat skip xs s rest :
  Forall (skippable skip) xs -> bytes_ok rest ->
  skip_n skip (length xs) (MkDec s (concat xs ++ rest)) = Some (MkDec s rest).
Proof.
  intros Hxs Hr. induction Hxs as [|x xs [Hx Hskip] Hxs IH]; [done|].
  cbn [length skip_n concat]. rewrite <- app_assoc, Hskip.
  { cbn [mbind option_bind]. exact IH. }
  apply Forall_app. split; [by apply (skippable_concat_ok skip)|done].
Qed.

(** The encoding of a typed value is one. *)
Lemma encoded_skippable o v x :
  ops_ok o -> val_ok o v -> enc_ok o v -> AppendToString o v = Ok x -> skippable (ops_Skip o) x.
Proof.
  intros Hok Hv He Hx. destruct (ops_codec_all o Hok true v Hv He) as (b & Hb & _ & Henc & Hskip & _).
  unfold AppendToString, Encode in Hx. rewrite Henc in Hx. cbn in Hx. injection Hx as <-.
  split; [done|]. intros s rest Hr. by apply Hskip.
Qed.

(** Messages of a count, a number of elements, and the elements. *)
Definition counted_msg (x n : Z) (body : bytes) : bytes := enc_prim (PInt x) ++ enc_prim (PInt n) ++ body.

(** What the readers of such a message see, step by step. *)
Lemma counted_msg_spec skip x n xs :
  is_s64 x -> is_s64 n -> Forall (skippable skip) xs ->
  let body := concat xs in
  let tail_ := enc_prim (PInt n) ++ body in
  let whole := counted_msg x n body in
  (exists b r, whole = b :: r)
  /\ GetInt (dec_Init whole) = Some (x, MkDec whole tail_)
  /\ GetInt (MkDec whole tail_) = Some (n, MkDec whole body)
  /\ skip_n skip (length xs) (MkDec whole body) = Some (MkDec whole [])
  /\ Skip (Restart (MkDec whole [])) INT = Some (MkDec whole tail_)
  /\ Skip (MkDec whole tail_) INT = Some (MkDec whole body).
Proof.
  intros Hx Hn Hxs body tail_ whole. pose proof (skippable_concat_ok _ _ Hxs) as Hb. fold body in Hb.
  assert (bytes_ok tail_) as Ht by (apply Forall_app; split; [by apply enc_prim_ok|done]).
  split; [apply enc_int_ne|]. split; [by apply GetInt_enc|]. split; [by apply GetInt_enc|]. split.
  - pose proof (skip_n_concat skip xs whole [] Hxs (Forall_nil_2 _)) as E. by rewrite app_nil_r in E.
  - split; [exact (Skip_enc whole (PInt x) tail_ Hx Ht)|exact (Skip_enc whole (PInt n) body Hn Hb)].
Qed.
