(* ===== verification/Emitter.v ===== *)
(** * Emitters: public/emitterinterface.h, emitvalues/szlemitter.cc

    An emitter receives the parts of an emit statement as calls; SzlEmitter
    encodes the index and the element, and hands them to the entry of the table
    for the index. The entries are those of any table ([SzlTabEntry]); flushing
    the emitters of all shards and merging what they write, in any order, amounts
    to one table with all elements ([table_sharded]). *)
From Stdlib Require Import ZArith Lia.
From stdpp Require Import prelude gmap.
From S2P Require Import Prelude SzlType Encoder Decoder SzlValue TabEntry.

Local Open Scope Z_scope.

(** ** The interface *)

(* @src src/src/public/emitterinterface.h 106-106 Emitter::GroupType *)
Inductive GroupType : Type := G_EMIT | G_INDEX | G_ELEMENT | G_WEIGHT | G_ARRAY | G_MAP | G_TUPLE.

(** The calls of an emitter with the object passed explicitly. *)
(* @src src/src/public/emitterinterface.h 108-129 Emitter *)
Class Emitter (E : Type) : Type := {
  e_Begin : GroupType -> Z -> E -> res E;
  e_End : GroupType -> Z -> E -> res E;
  e_PutBool : bool -> E -> res E;
  e_PutBytes : bytes -> E -> res E;
  e_PutInt : Z -> E -> res E;
  e_PutFloat : Z -> E -> res E;
  e_PutFingerprint : Z -> E -> res E;
  e_PutString : bytes -> E -> res E;
  e_PutTime : Z -> E -> res E;
  e_EmitInt : Z -> E -> res E;
  e_EmitFloat : Z -> E -> res E;
}.

(** ** The emitter of the tables *)

(** What a table's writer says of it. *)
(* @src src/src/public/szltabentry.h 106-190 SzlTabWriter *)
Record SzlTabWriter (E : Type) : Type := MkWriter {
  HasWeight : bool;
  Aggregates : bool;
  Filters : bool;
  weight_ops : SzlOps;
  FilterValue : bytes -> res bytes;
  CreateEntry : bytes -> res E }.
Arguments HasWeight {E} _.
Arguments Aggregates {E} _.
Arguments Filters {E} _.
Arguments weight_ops {E} _.
Arguments FilterValue {E} _ _.
Arguments CreateEntry {E} _ _.

(** [encoder_] points to one of the two encoders. [arrays_] has its back first.
    [em_written] are the calls of the virtual WriteValue so far. *)
(* @src src/src/public/szlemitter.h 116-170 SzlEmitter (data members) *)
Record SzlEmitter (E : Type) : Type := MkEmitter {
  em_key : SzlEncoder;
  em_value : SzlEncoder;
  em_encoder : option bool;
  em_table : gmap bytes E;
  em_memory_estimate : Z;
  em_display : bool;
  em_depth : Z;
  em_in_weight : bool;
  em_arrays : list Z;
  em_weight : SzlValue;
  em_weight_pos : Z;
  em_errors_detected : bool;
  em_written : list (bytes * bytes) }.
Arguments MkEmitter {E}.
Arguments em_key {E} _.
Arguments em_value {E} _.
Arguments em_encoder {E} _.
Arguments em_table {E} _.
Arguments em_memory_estimate {E} _.
Arguments em_display {E} _.
Arguments em_depth {E} _.
Arguments em_in_weight {E} _.
Arguments em_arrays {E} _.
Arguments em_weight {E} _.
Arguments em_weight_pos {E} _.
Arguments em_errors_detected {E} _.
Arguments em_written {E} _.

(** [encoder_ = key_] and [encoder_ = value_]. *)
Abbreviation to_key := (Some true).
Abbreviation to_value := (Some false).

Section SzlEmitter.
Context {E : Type} `{SzlTabEntry E} (writer_ : SzlTabWriter E).
(** The order in which the library's hash_map gives its pairs. *)
Context (iterate : gmap bytes E -> list (bytes * E)).

Abbreviation Em := (SzlEmitter E).

Definition with_encoders (k v : SzlEncoder) (em : Em) : Em :=
  MkEmitter k v (em_encoder em) (em_table em) (em_memory_estimate em) (em_display em) (em_depth em) (em_in_weight em) (em_arrays em) (em_weight em) (em_weight_pos em) (em_errors_detected em) (em_written em).
Definition with_group (enc : option bool) (depth : Z) (in_weight : bool) (arrays : list Z) (em : Em) : Em :=
  MkEmitter (em_key em) (em_value em) enc (em_table em) (em_memory_estimate em) (em_display em) depth in_weight arrays (em_weight em) (em_weight_pos em) (em_errors_detected em) (em_written em).
Definition with_weight (w : SzlValue) (pos : Z) (em : Em) : Em :=
  MkEmitter (em_key em) (em_value em) (em_encoder em) (em_table em) (em_memory_estimate em) (em_display em) (em_depth em) (em_in_weight em) (em_arrays em) w pos (em_errors_detected em) (em_written em).
Definition with_table (t : gmap bytes E) (mem : Z) (em : Em) : Em :=
  MkEmitter (em_key em) (em_value em) (em_encoder em) t mem (em_display em) (em_depth em) (em_in_weight em) (em_arrays em) (em_weight em) (em_weight_pos em) (em_errors_detected em) (em_written em).
Definition WriteValue (key value : bytes) (em : Em) : Em :=
  MkEmitter (em_key em) (em_value em) (em_encoder em) (em_table em) (em_memory_estimate em) (em_display em) (em_depth em) (em_in_weight em) (em_arrays em) (em_weight em) (em_weight_pos em) (em_errors_detected em)
    (em_written em ++ [(key, value)]).

(** [in_weight] and [weight_pos] are left unset by the constructor. *)
(* @src src/src/emitvalues/szlemitter.cc 41-55 SzlEmitter::SzlEmitter *)
Definition em_new (in_weight : bool) (weight_pos : Z) (display : bool) : Em :=
  MkEmitter enc_new enc_new None ∅ 0 display 0 in_weight [] VNil weight_pos false [].

(** The encoder [encoder_] points to. *)
Definition current (em : Em) : option SzlEncoder :=
  match em_encoder em with Some true => Some (em_key em) | Some false => Some (em_value em) | None => None end.
Definition set_current (enc : SzlEncoder) (em : Em) : Em :=
  match em_encoder em with Some true => with_encoders enc (em_value em) em | Some false => with_encoders (em_key em) enc em | None => em end.

(** A call through [encoder_], which must not be NULL. *)
Definition encode (f : SzlEncoder -> res SzlEncoder) (em : Em) : res Em :=
  match current em with Some enc => enc ← f enc; Ok (set_current enc em) | None => Fatal end.

Definition is_null {A} (o : option A) : bool := match o with None => true | Some _ => false end.
Definition at_rest (em : Em) : bool := is_null (em_encoder em) && (em_depth em =? 0).

(** [arrays_.size() > 0 && arrays_.back() == depth_ - 1]: a part of an array or a map. *)
Definition in_array (em : Em) : bool := match em_arrays em with a :: _ => a =? em_depth em - 1 | [] => false end.

(* @src src/src/emitvalues/szlemitter.cc 80-133 SzlEmitter::Begin *)
Definition em_Begin (type : GroupType) (len : Z) (em : Em) : res Em :=
  match type with
  | G_EMIT =>
      _ ← check (at_rest em);
      Ok (with_weight (em_weight em) (-1) (with_group None 0 false (em_arrays em) em))
  | G_INDEX =>
      _ ← check (at_rest em);
      let em := with_group to_key (em_depth em + 1) (em_in_weight em) (em_arrays em) em in
      Ok (with_encoders (enc_Reset (em_key em)) (em_value em) em)
  | G_ELEMENT =>
      _ ← check (at_rest em);
      let em := with_group to_value (em_depth em + 1) (em_in_weight em) (em_arrays em) em in
      Ok (with_encoders (em_key em) (enc_Reset (em_value em)) em)
  | G_WEIGHT =>
      _ ← check (at_rest em);
      _ ← check (HasWeight writer_);
      Ok (with_weight (em_weight em) 0 (with_group (em_encoder em) (em_depth em + 1) true (em_arrays em) em))
  | G_TUPLE =>
      _ ← check (negb (is_null (em_encoder em)) || em_in_weight em);
      em ← (if in_array em then encode (fun enc => Start enc TUPLE) em else Ok em);
      Ok (with_group (em_encoder em) (em_depth em + 1) (em_in_weight em) (em_arrays em) em)
  | G_ARRAY | G_MAP =>
      let is_map := match type with G_MAP => true | _ => false end in
      _ ← check (negb (is_null (em_encoder em)));
      em ← encode (fun enc => if is_map then enc ← Start enc MAP; Ok (PutInt enc len) else Start enc ARRAY) em;
      Ok (with_group (em_encoder em) (em_depth em + 1) (em_in_weight em) (em_depth em :: em_arrays em) em)
  end.

(** The entry for an index, created when there is none. *)
Definition find_entry (k : bytes) (em : Em) : res E :=
  match em_table em !! k with Some e => Ok e | None => CreateEntry writer_ k end.

(** [End(EMIT)]. *)
(* @src src/src/emitvalues/szlemitter.cc 137-171 SzlEmitter::End *)
Definition em_End_emit (em : Em) : res Em :=
  _ ← check (at_rest em);
  _ ← check (Bool.eqb (0 <? em_weight_pos em) (HasWeight writer_));
  let k := data_ (em_key em) in
  if Aggregates writer_ then
    e ← find_entry k em;
    let v := data_ (em_value em) in
    '(m, e) ← (if 0 <? em_weight_pos em then entry_AddWeightedElem v (em_weight em) e else entry_AddElem v e);
    Ok (with_table (<[k := e]> (em_table em)) (s32 (em_memory_estimate em + m)) em)
  else
    _ ← check (negb (HasWeight writer_));
    if Filters writer_ then value ← FilterValue writer_ (data_ (em_value em)); Ok (WriteValue k value em)
    else let '(value, enc) := enc_Swap (em_value em) in Ok (WriteValue k value (with_encoders (em_key em) enc em)).

(* @src src/src/emitvalues/szlemitter.cc 136-190 SzlEmitter::End *)
Definition em_End (type : GroupType) (len : Z) (em : Em) : res Em :=
  match type with
  | G_EMIT => em_End_emit em
  | _ =>
      _ ← check ((negb (is_null (em_encoder em)) || em_in_weight em) && (0 <? em_depth em));
      let em := with_group (em_encoder em) (em_depth em - 1) (em_in_weight em) (em_arrays em) em in
      em ← match type with
           | G_ARRAY | G_MAP =>
               em ← encode (fun enc => End_ enc (match type with G_ARRAY => ARRAY | _ => MAP end)) em;
               match em_arrays em with
               | a :: arrays => _ ← check (a =? em_depth em); Ok (with_group (em_encoder em) (em_depth em) (em_in_weight em) arrays em)
               | [] => Fatal
               end
           | G_TUPLE => if in_array em then encode (fun enc => End_ enc TUPLE) em else Ok em
           | _ => Ok em
           end;
      if negb (em_depth em =? 0) then Ok em
      else _ ← check (is_null (head (em_arrays em))); Ok (with_group None (em_depth em) false (em_arrays em) em)
  end.

(** A part of the weight at its position, or of the index or the element. *)
Definition put (to_weight : SzlOps -> nat -> SzlValue -> res SzlValue) (to_encoder : SzlEncoder -> res SzlEncoder) (em : Em) : res Em :=
  if em_in_weight em then
    _ ← check (is_null (em_encoder em));
    _ ← check (0 <=? em_weight_pos em);
    w ← to_weight (weight_ops writer_) (Z.to_nat (em_weight_pos em)) (em_weight em);
    Ok (with_weight w (em_weight_pos em + 1) em)
  else encode to_encoder em.

(* @src src/src/emitvalues/szlemitter.cc 193-202 SzlEmitter::PutBool *)
Definition em_PutBool (b : bool) : Em -> res Em := put (fun o => ops_PutBool o b) (fun enc => Ok (PutBool enc b)).
(* @src src/src/emitvalues/szlemitter.cc 205-214 SzlEmitter::PutBytes *)
Definition em_PutBytes (s : bytes) : Em -> res Em := put (fun o => ops_PutBytes o s) (fun enc => Ok (PutBytes enc s)).
(* @src src/src/emitvalues/szlemitter.cc 217-226 SzlEmitter::PutInt *)
Definition em_PutInt (i : Z) : Em -> res Em := put (fun o => ops_PutInt o i) (fun enc => Ok (PutInt enc i)).
(* @src src/src/emitvalues/szlemitter.cc 229-238 SzlEmitter::PutFloat *)
Definition em_PutFloat (f : Z) : Em -> res Em := put (fun o => ops_PutFloat o f) (fun enc => PutFloat enc f).
(* @src src/src/emitvalues/szlemitter.cc 241-250 SzlEmitter::PutFingerprint *)
Definition em_PutFingerprint (fp : Z) : Em -> res Em := put (fun o => ops_PutFingerprint o fp) (fun enc => Ok (PutFingerprint enc fp)).
(* @src src/src/emitvalues/szlemitter.cc 253-262 SzlEmitter::PutString *)
Definition em_PutString (s : bytes) : Em -> res Em := put (fun o => ops_PutString o s) (fun enc => Ok (PutString enc s)).
(* @src src/src/emitvalues/szlemitter.cc 265-274 SzlEmitter::PutTime *)
Definition em_PutTime (t : Z) : Em -> res Em := put (fun o => ops_PutTime o t) (fun enc => Ok (PutTime enc t)).

(* @src src/src/emitvalues/szlemitter.cc 276-282 SzlEmitter::EmitInt *)
Definition em_EmitInt (i : Z) (em : Em) : res Em :=
  em ← em_Begin G_EMIT 1 em; em ← em_Begin G_ELEMENT 1 em; em ← em_PutInt i em; em ← em_End G_ELEMENT 1 em; em_End G_EMIT 1 em.
(* @src src/src/emitvalues/szlemitter.cc 284-290 SzlEmitter::EmitFloat *)
Definition em_EmitFloat (f : Z) (em : Em) : res Em :=
  em ← em_Begin G_EMIT 1 em; em ← em_Begin G_ELEMENT 1 em; em ← em_PutFloat f em; em ← em_End G_ELEMENT 1 em; em_End G_EMIT 1 em.

#[export] Instance szl_emitter : Emitter Em := {
  e_Begin := em_Begin; e_End := em_End; e_PutBool := em_PutBool; e_PutBytes := em_PutBytes; e_PutInt := em_PutInt; e_PutFloat := em_PutFloat;
  e_PutFingerprint := em_PutFingerprint; e_PutString := em_PutString; e_PutTime := em_PutTime; e_EmitInt := em_EmitInt; e_EmitFloat := em_EmitFloat }.

(** Merging a string into the entry for an index; the status is returned. *)
(* @src src/src/emitvalues/szlemitter.cc 292-303 SzlEmitter::Merge *)
Definition em_Merge (index val : bytes) (em : Em) : res (bool * Em) :=
  e ← find_entry index em;
  '(st, e) ← entry_Merge val e;
  Ok (match st with MergeOk => true | MergeError => false end, with_table (<[index := e]> (em_table em)) (em_memory_estimate em) em).

(** The loops over the table: what they write, and the entries after. *)
Fixpoint display_loop (entries : list (bytes * E)) : res (list (bytes * bytes) * gmap bytes E) :=
  match entries with
  | [] => Ok ([], ∅)
  | (k, e) :: entries =>
      '(buffer, e) ← entry_FlushForDisplay e;
      '(written, t) ← display_loop entries;
      Ok (map (fun v => (k, v)) buffer ++ written, <[k := e]> t)
  end.

(* @src src/src/emitvalues/szlemitter.cc 308-316 SzlEmitter::DisplayResults *)
Definition DisplayResults (em : Em) : res Em :=
  '(written, t) ← display_loop (iterate (em_table em));
  Ok (foldl (fun em '(k, v) => WriteValue k v em) (with_table t (em_memory_estimate em) em) written).

Fixpoint flush_loop (entries : list (bytes * E)) : res (list (bytes * bytes)) :=
  match entries with
  | [] => Ok []
  | (k, e) :: entries =>
      '(v, _) ← entry_Flush e;
      written ← flush_loop entries;
      Ok (match v with [] => written | _ => (k, v) :: written end)
  end.

(** The table is emptied: its entries are not used again. *)
(* @src src/src/emitvalues/szlemitter.cc 324-337 SzlEmitter::Flusher *)
Definition Flusher (em : Em) : res Em :=
  written ← flush_loop (iterate (em_table em));
  Ok (with_table ∅ 0 (foldl (fun em '(k, v) => WriteValue k v em) em written)).

(* @src src/src/emitvalues/szlemitter.cc 68-77 SzlEmitter::Clear *)
Definition em_Clear (em : Em) : res Em :=
  em ← (if em_display em then DisplayResults em else Ok em);
  w ← Clear (weight_ops writer_) (em_weight em);
  Ok (with_table ∅ 0 (with_weight w (em_weight_pos em) em)).

Fixpoint count_loop (entries : list (bytes * E)) : res Z :=
  match entries with
  | [] => Ok 0
  | (_, e) :: entries => n ← entry_TupleCount e; m ← count_loop entries; Ok (s32 (n + m))
  end.

(* @src src/src/emitvalues/szlemitter.cc 340-347 SzlEmitter::GetTupleCount *)
Definition GetTupleCount (em : Em) : res Z := count_loop (iterate (em_table em)).
End SzlEmitter.

(** ** Tables over shards *)

(** The elements for an index, among pairs of an index and an element. *)
Definition of_key {X} (k : bytes) (l : list (bytes * X)) : list X := snd <$> filter (fun p => p.1 = k) l.

Lemma of_key_app {X} k (l l' : list (bytes * X)) : of_key k (l ++ l') = of_key k l ++ of_key k l'.
Proof. unfold of_key. by rewrite filter_app, fmap_app. Qed.

Lemma of_key_here {X} k (x : X) l : of_key k ((k, x) :: l) = x :: of_key k l.
Proof. unfold of_key. by rewrite filter_cons_True. Qed.

Lemma of_key_other {X} k k' (x : X) l : k' <> k -> of_key k ((k', x) :: l) = of_key k l.
Proof. intros Hk. unfold of_key. by rewrite filter_cons_False. Qed.

#[export] Instance of_key_proper {X} k : Proper (Permutation ==> Permutation) (@of_key X k).
Proof. intros l l' Hl. unfold of_key. by rewrite Hl. Qed.

Lemma concat_Permutation {A} (l l' : list (list A)) : l ≡ₚ l' -> concat l ≡ₚ concat l'.
Proof. induction 1 as [|x l l' Hl IH|x y l|l1 l2 l3 H1 IH1 H2 IH2]; cbn; [done|by rewrite IH|solve_Permutation|by rewrite IH1]. Qed.

(** One more element for the entry of an index: what the end of an emit does. *)
Definition table_feed {E X} `{SzlTabEntry E} (writer : SzlTabWriter E) (feed : X -> E -> res (Z * E)) (kx : bytes * X) (em : SzlEmitter E) : res (SzlEmitter E) :=
  let '(k, x) := kx in
  e ← find_entry writer k em;
  '(m, e) ← feed x e;
  Ok (with_table (<[k := e]> (em_table em)) (s32 (em_memory_estimate em + m)) em).

(** The strings of all shards, merged in the order they come. *)
Fixpoint merge_written {E} `{SzlTabEntry E} (writer : SzlTabWriter E) (msgs : list (bytes * bytes)) (em : SzlEmitter E) : res (SzlEmitter E) :=
  match msgs with
  | [] => Ok em
  | (k, s) :: msgs => '(ok, em) ← em_Merge writer k s em; if ok : bool then merge_written writer msgs em else Fail
  end.

Section Tables.
Context {E X : Type} `{SzlTabEntry E} {feed : X -> E -> res (Z * E)} {new : E}
  {good : X -> Prop} {fits : list X -> Prop} {holds : list X -> E -> Prop} {reports : list X -> bytes -> Prop}
  `{M : !MergeContract feed new good fits holds reports}.
Context (writer : SzlTabWriter E) (iterate : gmap bytes E -> list (bytes * E)).
Hypothesis Hcreate : forall k, CreateEntry writer k = Ok new.
Hypothesis Hiterate : forall t, iterate t ≡ₚ map_to_list t.
Hypothesis Hempty : forall e, entry_Merge [] e = Ok (MergeOk, e).
Hypothesis Hfits : forall l l', l ≡ₚ l' -> fits l -> fits l'.

(** The entry of every index holds its elements. *)
Definition table_holds (l : list (bytes * X)) (t : gmap bytes E) : Prop :=
  forall k, match t !! k with Some e => holds (of_key k l) e | None => of_key k l = [] end.

Lemma table_feed_holds l k x em :
  table_holds l (em_table em) -> fits (of_key k l ++ [x]) -> good x ->
  exists m t, table_feed writer feed (k, x) em = Ok (with_table t m em) /\ table_holds (l ++ [(k, x)]) t.
Proof.
  intros Hl Hf Hg. pose proof (Hl k) as Hk.
  assert (exists e, find_entry writer k em = Ok e /\ holds (of_key k l) e) as (e & Ee & He).
  { unfold find_entry. destruct (em_table em !! k) as [e|]; [by exists e|]. exists new. rewrite Hk. split; [apply Hcreate|apply mc_new]. }
  destruct (mc_add _ e x Hf He Hg) as (m & e' & Em & He'). unfold table_feed. rewrite Ee. cbn [mbind res_bind]. rewrite Em. cbn [mbind res_bind].
  eexists _, _. split; [done|]. intros k'. rewrite of_key_app. destruct (decide (k = k')) as [<-|Hne].
  - rewrite lookup_insert_eq. by rewrite of_key_here.
  - rewrite lookup_insert_ne by done. rewrite of_key_other, app_nil_r by done. apply Hl.
Qed.

(** What a shard with the elements [l] writes. *)
Definition written_of (l : list (bytes * X)) (w : list (bytes * bytes)) : Prop :=
  NoDup w.*1 /\ (forall k s, (k, s) ∈ w -> reports (of_key k l) s) /\ forall k, k ∉ w.*1 -> of_key k l = [] \/ reports (of_key k l) [].

Lemma flush_loop_written l entries :
  NoDup entries.*1 -> (forall k e, (k, e) ∈ entries -> fits (of_key k l) /\ holds (of_key k l) e) ->
  exists w, flush_loop entries = Ok w /\ NoDup w.*1 /\ w.*1 ⊆ entries.*1 /\ (forall k s, (k, s) ∈ w -> reports (of_key k l) s)
    /\ forall k, k ∈ entries.*1 -> k ∉ w.*1 -> reports (of_key k l) [].
Proof.
  clear Hcreate Hiterate Hempty Hfits writer iterate. induction entries as [|[k e] entries IH]; intros Hn He; cbn [flush_loop].
  { exists []. split; [done|]. split; [constructor|]. split; [done|]. split; [by intros k s Hin%elem_of_nil|by intros k Hin%elem_of_nil]. }
  cbn [fmap list_fmap fst] in Hn. apply NoDup_cons in Hn as (Hk & Hn). destruct (He k e) as (Hf & Hh); [by left|]. destruct (mc_flush _ e Hf Hh) as (s & e' & Es & Hs). rewrite Es. cbn [mbind res_bind].
  destruct IH as (w & Ew & Hnw & Hsub & Hrep & Hnone); [done|intros k' e'' Hin; apply (He k' e''); by right|]. rewrite Ew. cbn [mbind res_bind].
  destruct s as [|b s]; eexists; (split; [reflexivity|]).
  - split; [done|]. split; [set_solver|]. split; [done|]. intros k' [->|Hin]%elem_of_cons Hk'; [done|by apply Hnone].
  - cbn [fmap list_fmap fst]. split; [apply NoDup_cons; split; [set_solver|done]|]. split; [set_solver|]. split.
    + intros k' s' [[= -> ->]|Hin]%elem_of_cons; [done|by apply Hrep].
    + intros k' [->|Hin]%elem_of_cons Hk'; [set_solver|]. apply Hnone; [done|set_solver].
Qed.

Lemma write_all w (em : SzlEmitter E) :
  foldl (fun em '(k, v) => WriteValue k v em) em w
  = MkEmitter (em_key em) (em_value em) (em_encoder em) (em_table em) (em_memory_estimate em) (em_display em) (em_depth em) (em_in_weight em) (em_arrays em) (em_weight em) (em_weight_pos em) (em_errors_detected em) (em_written em ++ w).
Proof.
  revert em. induction w as [|[k v] w IH]; intros em; cbn [foldl].
  - rewrite app_nil_r. by destruct em.
  - rewrite IH. unfold WriteValue. cbn [em_key em_value em_encoder em_table em_memory_estimate em_display em_depth em_in_weight em_arrays em_weight em_weight_pos em_errors_detected em_written]. by rewrite <- app_assoc.
Qed.

Lemma Flusher_written l em :
  table_holds l (em_table em) -> (forall k, fits (of_key k l)) ->
  exists w em', Flusher iterate em = Ok em' /\ em_table em' = ∅ /\ em_written em' = em_written em ++ w /\ written_of l w.
Proof.
  intros Hl Hf. set (entries := iterate (em_table em)).
  assert (NoDup entries.*1) as Hn by (subst entries; rewrite Hiterate; apply NoDup_fst_map_to_list).
  assert (forall k e, (k, e) ∈ entries -> em_table em !! k = Some e) as Hin by (intros k e; subst entries; rewrite Hiterate; apply elem_of_map_to_list).
  destruct (flush_loop_written l entries Hn) as (w & Ew & Hnw & Hsub & Hrep & Hnone).
  { intros k e Hk%Hin. split; [apply Hf|]. specialize (Hl k). by rewrite Hk in Hl. }
  unfold Flusher. fold entries. rewrite Ew. cbn [mbind res_bind]. rewrite write_all. eexists w, _. split; [reflexivity|]. split; [done|]. split; [done|]. split; [done|]. split; [done|].
  intros k Hk. specialize (Hl k). destruct (em_table em !! k) as [e|] eqn:Ee; [|by left]. right. apply Hnone; [|done]. subst entries. rewrite Hiterate. apply list_elem_of_fmap. exists (k, e). split; [done|]. by apply elem_of_map_to_list.
Qed.

(** Strings tagged with the elements they report. *)
Abbreviation tagged := (list (list X * (bytes * bytes))).
Definition held (k : bytes) (T : tagged) : list X := concat (fst <$> filter (fun p => p.2.1 = k) T).

Lemma held_app k T T' : held k (T ++ T') = held k T ++ held k T'.
Proof. unfold held. by rewrite filter_app, fmap_app, concat_app. Qed.

#[local] Instance held_proper k : Proper (Permutation ==> Permutation) (held k).
Proof. intros T T' HT. unfold held. apply concat_Permutation. by rewrite HT. Qed.

Lemma merge_written_holds (T T0 : tagged) (em : SzlEmitter E) :
  (forall xs k s, (xs, (k, s)) ∈ T -> reports xs s) -> (forall k, fits (held k (T0 ++ T))) ->
  (forall k, holds (held k T0) (default new (em_table em !! k))) ->
  exists em', merge_written writer T.*2 em = Ok em' /\ forall k, holds (held k (T0 ++ T)) (default new (em_table em' !! k)).
Proof.
  revert T0 em. induction T as [|[xs [k s]] T IH]; intros T0 em Hr Hf Hh.
  { exists em. rewrite app_nil_r. done. }
  assert (T0 ++ (xs, (k, s)) :: T = (T0 ++ [(xs, (k, s))]) ++ T) as ET by (by rewrite <- app_assoc). rewrite ET in *.
  assert (forall k', held k' (T0 ++ [(xs, (k, s))]) = held k' T0 ++ (if decide (k = k') then xs else [])) as Eh.
  { intros k'. rewrite held_app. f_equal. unfold held. destruct (decide (k = k')) as [->|Hne]; [rewrite filter_cons_True by done|rewrite filter_cons_False by done]; cbn; by rewrite ?app_nil_r. }
  assert (find_entry writer k em = Ok (default new (em_table em !! k))) as Ee by (unfold find_entry; destruct (em_table em !! k); [done|apply Hcreate]).
  assert (fits (held k T0 ++ xs)) as Hfk. { pose proof (Hf k) as Hfk. rewrite held_app, Eh, decide_True in Hfk by done. exact (proj1 (mc_fits _ _ Hfk)). }
  destruct (mc_merge _ xs _ s Hfk (Hh k) (Hr xs k s ltac:(left))) as (e & Em & He).
  cbn [fmap list_fmap snd merge_written]. unfold em_Merge. rewrite Ee. cbn [mbind res_bind]. rewrite Em. cbn [mbind res_bind].
  apply IH; [intros ys k' s' Hin; apply (Hr ys k' s'); by right|exact Hf|]. intros k'. rewrite Eh. cbn [with_table em_table]. destruct (decide (k = k')) as [<-|Hne].
  - by rewrite lookup_insert_eq.
  - rewrite lookup_insert_ne, app_nil_r by done. apply Hh.
Qed.

Lemma held_tagged_out k l w : k ∉ w.*1 -> held k ((fun p : bytes * bytes => (of_key p.1 l, p)) <$> w) = [].
Proof.
  unfold held. induction w as [|[k' s] w IH]; [done|]. cbn [fmap list_fmap fst]. intros (Hne & Hk)%not_elem_of_cons. rewrite filter_cons_False by (cbn; congruence). by apply IH.
Qed.

Lemma held_tagged_in k l w : NoDup w.*1 -> k ∈ w.*1 -> held k ((fun p : bytes * bytes => (of_key p.1 l, p)) <$> w) = of_key k l.
Proof.
  induction w as [|[k' s] w IH]; cbn [fmap list_fmap fst]; intros Hn Hk; [by apply elem_of_nil in Hk|]. apply NoDup_cons in Hn as (Hk' & Hn). unfold held in *. destruct (decide (k' = k)) as [->|Hne].
  - rewrite filter_cons_True by done. cbn [fmap list_fmap concat fst]. pose proof (held_tagged_out k l w Hk') as E0. unfold held in E0. by rewrite E0, app_nil_r.
  - rewrite filter_cons_False by done. apply IH; [done|]. by apply elem_of_cons in Hk as [->|Hk].
Qed.

(** The strings of a shard, tagged; for an index without a string the shard has
    nothing to report. *)
Lemma tag_written l w : written_of l w ->
  exists T : tagged, T.*2 = w /\ (forall xs k s, (xs, (k, s)) ∈ T -> reports xs s)
    /\ forall k, exists rest, held k T ++ rest ≡ₚ of_key k l /\ (rest = [] \/ reports rest []).
Proof.
  intros (Hn & Hr & Hnone). exists ((fun p => (of_key p.1 l, p)) <$> w). split; [rewrite <- list_fmap_compose; by apply list_fmap_id|]. split.
  - intros xs k s ([k' s'] & [= -> -> ->] & Hin)%list_elem_of_fmap. by apply Hr.
  - intros k. destruct (decide (k ∈ w.*1)) as [Hk|Hk].
    + exists []. split; [|by left]. rewrite app_nil_r. by rewrite held_tagged_in.
    + exists (of_key k l). split; [|by destruct (Hnone k Hk); auto]. by rewrite held_tagged_out.
Qed.

Lemma empty_holds l rest e : fits (l ++ concat rest) -> holds l e -> Forall (fun xs => xs = [] \/ reports xs []) rest -> holds (l ++ concat rest) e.
Proof.
  intros Hf Hl Hr. revert l Hf Hl. induction Hr as [|xs rest Hx Hr IH]; intros l Hf Hl; [by rewrite app_nil_r|]. cbn [concat] in *. rewrite app_assoc in *. apply IH; [done|]. destruct Hx as [->|Hx]; [by rewrite app_nil_r|].
  destruct (mc_merge l xs e [] (proj1 (mc_fits _ _ Hf)) Hl Hx) as (e' & Em & He'). rewrite Hempty in Em. by injection Em as <-.
Qed.

(** The strings of all shards, merged in any order into a new table: the entry of
    every index holds its elements of all shards. *)
Lemma shards_merged (shards : list (list (bytes * X))) (written : list (list (bytes * bytes))) msgs (em : SzlEmitter E) :
  Forall2 written_of shards written -> msgs ≡ₚ concat written -> (forall k, fits (of_key k (concat shards))) -> em_table em = ∅ ->
  exists em', merge_written writer msgs em = Ok em'
    /\ forall k, exists l, l ≡ₚ of_key k (concat shards) /\ holds l (default new (em_table em' !! k)).
Proof.
  intros Hw Hm Hf Ht.
  assert (exists T : tagged, T.*2 = concat written /\ (forall xs k s, (xs, (k, s)) ∈ T -> reports xs s)
    /\ forall k, exists rest, held k T ++ concat rest ≡ₚ of_key k (concat shards) /\ Forall (fun xs => xs = [] \/ reports xs []) rest) as (T & ET & Hr & Hrest).
  { clear Hm Hf. induction Hw as [|l w shards written Hlw Hw (T & ET & Hr & Hrest)].
    - exists []. split; [done|]. split; [by intros xs k s Hin%elem_of_nil|]. intros k. by exists [].
    - destruct (tag_written l w Hlw) as (T1 & ET1 & Hr1 & Hrest1). exists (T1 ++ T). cbn [concat]. split; [by rewrite fmap_app, ET, ET1|]. split.
      + intros xs k s [Hin|Hin]%elem_of_app; [by apply (Hr1 xs k)|by apply (Hr xs k)].
      + intros k. destruct (Hrest1 k) as (r1 & Hp1 & Hr1'), (Hrest k) as (rs & Hp & Hrs). exists (r1 :: rs). split; [|by constructor]. rewrite of_key_app, held_app, <- Hp1, <- Hp. cbn [concat]. solve_Permutation. }
  rewrite <- ET in Hm. apply Permutation_map_inv in Hm as (T' & -> & HT). change (map snd T') with (T'.*2).
  assert (forall k, exists rest, held k T' ++ concat rest ≡ₚ of_key k (concat shards) /\ Forall (fun xs => xs = [] \/ reports xs []) rest) as Hrest'.
  { intros k. destruct (Hrest k) as (rest & Hp & Hrs). exists rest. split; [|done]. by rewrite <- Hp, HT. }
  destruct (merge_written_holds T' [] em) as (em' & Em & Hh).
  - intros xs k s. rewrite <- HT. apply Hr.
  - intros k. cbn [app]. destruct (Hrest' k) as (rest & Hp & _). apply (fun HF => proj1 (mc_fits _ (concat rest) HF)). by apply (Hfits (of_key k (concat shards))).
  - intros k. rewrite Ht, lookup_empty. apply mc_new.
  - exists em'. split; [done|]. intros k. destruct (Hrest' k) as (rest & Hp & Hrs). exists (held k T' ++ concat rest). split; [done|]. apply empty_holds; [by apply (Hfits (of_key k (concat shards)))|apply (Hh k)|done].
Qed.
End Tables.
