(* ===== verification/TopTable.v ===== *)
(** * The top table: emitters/szltop.cc and szltopresults.cc

    An entry keeps the elements that seem heaviest in a [SzlTopHeap] of ten times
    as many as the table reports, and the weights of all others in a
    [SzlSketch], made when the first element does not fit. *)
From Stdlib Require Import ZArith Lia.
From stdpp Require Import prelude gmap sorting.
From S2P Require Import Prelude SzlType Double Encoder Decoder Codec Reads SzlValue ValueCodec ValueOrder ValueAdd Numbers Heap Sketch TopHeap TabEntry.

Local Open Scope Z_scope.

(* @src src/src/emitters/szltop.cc 107-129 SzlTop::SzlTopEntry (data members) *)
Record SzlTopEntry : Type := MkTop {
  top_param : Z;
  sketch_ : option SzlSketch;
  tops_ : SzlTopHeap;
  sketchTabs_ : Z;
  sketchTabSize_ : Z;
  totElems_ : Z;
}.

Definition set_tops (t : SzlTopHeap) (e : SzlTopEntry) : SzlTopEntry :=
  MkTop (top_param e) (sketch_ e) t (sketchTabs_ e) (sketchTabSize_ e) (totElems_ e).
Definition set_sketch (sk : option SzlSketch) (e : SzlTopEntry) : SzlTopEntry :=
  MkTop (top_param e) sk (tops_ e) (sketchTabs_ e) (sketchTabSize_ e) (totElems_ e).
Definition set_tot (n : Z) (e : SzlTopEntry) : SzlTopEntry :=
  MkTop (top_param e) (sketch_ e) (tops_ e) (sketchTabs_ e) (sketchTabSize_ e) n.

(* @src src/src/emitters/szltop.cc 61-70 SzlTopEntry::SzlTopEntry *)
Definition top_new (param : Z) : SzlTopEntry :=
  let '(tabs, size) := Dims (param * 100) in
  MkTop param None (th_new (param * 10)) tabs size 0.

Section Top.
Context (MD5Digest : bytes -> bytes) (bucket_count : gmap bytes nat -> Z) (weight_ops : SzlOps).

(** [less_]: the biggest are kept. *)
#[local] Abbreviation less := (SzlValueLess weight_ops).

(* @src src/src/emitters/szltop.cc 82-88 SzlTopEntry::Clear *)
Definition top_Clear (e : SzlTopEntry) : res SzlTopEntry :=
  t ← th_Clear weight_ops (tops_ e);
  Ok (MkTop (top_param e) None t (sketchTabs_ e) (sketchTabSize_ e) 0).

(* @src src/src/emitters/szltop.cc 98-101 SzlTopEntry::TupleCount *)
Definition top_TupleCount (e : SzlTopEntry) : res Z :=
  let ntops := th_nElems (tops_ e) in
  Ok (if ntops <? top_param e then ntops else top_param e).

(* @src src/src/emitters/szltop.cc 151-197 SzlTopEntry::AddWeightedElem *)
Definition top_AddWeightedElem (elem : bytes) (w : SzlValue) (e : SzlTopEntry) : res (Z * SzlTopEntry) :=
  let e := set_tot (s64 (totElems_ e + 1)) e in
  if th_max (tops_ e) =? 0 then Ok (0, e)
  else
    match Find (tops_ e) elem with
    | Some x =>
        (* just adjust the weight in the candidate list *)
        '(m, t) ← AddToWeight less weight_ops w x (tops_ e); Ok (m, set_tops t e)
    | None =>
        if negb (th_nElems (tops_ e) =? th_max (tops_ e)) then
          '(m, t) ← AddNewElem less weight_ops bucket_count elem w (tops_ e); Ok (m, set_tops t e)
        else
          (* lazily allocate the sketch *)
          '(mem, sk) ← match sketch_ e with
                       | Some sk => Ok (0, sk)
                       | None =>
                           sk ← sketch_new (sketchTabs_ e) (sketchTabSize_ e);
                           m ← sketch_Memory weight_ops sk; Ok (m, sk)
                       end;
          (* add its weight from the sketch *)
          let index := ComputeIndex MD5Digest sk elem in
          '(sw, sk) ← Estimate weight_ops sk index VNil;
          tw ← Assign weight_ops w VNil;
          tw ← Add weight_ops sw tw;
          let worst := th_store (tops_ e) !!! Smallest (tops_ e) in
          smaller ← Less weight_ops tw (te_weight worst);
          if smaller : bool then
            (* still smaller than the smallest candidate *)
            sk ← AddSub weight_ops sk index w 1;
            _ ← Clear weight_ops sw; _ ← Clear weight_ops tw;
            Ok (mem, set_sketch (Some sk) e)
          else
            (* swap with the smallest candidate *)
            sk ← AddSub weight_ops sk index sw 0;
            let index := ComputeIndex MD5Digest sk (te_value worst) in
            sk ← AddSub weight_ops sk index (te_weight worst) 1;
            '(m, t) ← ReplaceSmallest less weight_ops elem tw (tops_ e);
            _ ← Clear weight_ops sw; _ ← Clear weight_ops tw;
            Ok (mem + m, set_sketch (Some sk) (set_tops t e))
    end.

(* @src src/src/emitters/szltop.cc 73-75 SzlTopEntry::AddElem *)
Definition top_AddElem (elem : bytes) (e : SzlTopEntry) : res (Z * SzlTopEntry) :=
  top_AddWeightedElem elem (VInt 1) e.

(** The candidates in the order of the heap: value and weight. *)
(* @src src/src/emitters/szltop.cc 211-215 SzlTopEntry::Flush *)
Definition encode_tops (t : SzlTopHeap) (enc : SzlEncoder) : res SzlEncoder :=
  foldl (fun r x => enc ← r;
      Encode weight_ops (wt_of (th_store t) x) (PutBytes enc (te_value (th_store t !!! x))))
    (Ok enc) (th_heap t).

(* @src src/src/emitters/szltop.cc 200-227 SzlTopEntry::Flush *)
Definition top_Flush (e : SzlTopEntry) : res (bytes * SzlTopEntry) :=
  if th_nElems (tops_ e) =? 0 then Ok ([], e)
  else
    let n := th_nElems (tops_ e) in
    let enc := PutInt (PutInt enc_new (s64 (totElems_ e - n))) n in
    let e := set_tops (th_Sort less (tops_ e)) e in
    enc ← encode_tops (tops_ e) enc;
    enc ← match sketch_ e with
          | Some sk => sketch_Encode weight_ops sk (PutInt (PutInt enc (tabSize_ sk)) (sketchTabs_ e))
          | None => Ok (PutInt (PutInt enc 0) 0)
          end;
    e ← top_Clear e;
    Ok (fst (enc_Swap enc), e).

(** The values, their weights and the deviations, biggest first. *)
(* @src src/src/emitters/szltop.cc 230-267 SzlTopEntry::FlushForDisplay *)
Definition top_FlushForDisplay (e : SzlTopEntry) : res (list bytes * SzlTopEntry) :=
  if totElems_ e =? 0 then Ok ([[]], e)
  else
    let e := set_tops (th_Sort less (tops_ e)) e in
    '(err, e) ← match sketch_ e with
                | Some sk => '(err, sk) ← StdDeviation weight_ops sk; Ok (err, set_sketch (Some sk) e)
                | None => Ok (replicate (nflats_ weight_ops) 0, e)
                end;
    encerr ← foldl (fun r x => enc ← r; PutFloat enc x) (Ok enc_new) err;
    let t := tops_ e in
    let nv := if th_nElems t <? top_param e then th_nElems t else top_param e in
    output ← mapM (fun x =>
        enc ← Encode weight_ops (wt_of (th_store t) x) enc_new;
        Ok (te_value (th_store t !!! x) ++ data_ enc ++ data_ encerr)) (take (Z.to_nat nv) (th_heap t));
    Ok (output, set_tops (th_ReHeap t) e).

(** ** Merging *)

Definition skip_weighted (dec : SzlDecoder) : option SzlDecoder :=
  dec ← Skip dec BYTES; ops_Skip weight_ops dec.

(** The weights of the candidates, adjusted from the new sketch; the positions
    are those of the heap as it is reordered. *)
(* @src src/src/emitters/szltop.cc 330-343 SzlTopEntry::Merge *)
Fixpoint adjust_loop (n i : nat) (sk : SzlSketch) (t : SzlTopHeap) (w : SzlValue) : res (SzlSketch * SzlTopHeap * SzlValue) :=
  match n with
  | O => Ok (sk, t, w)
  | S n =>
      let x := Element t i in
      let index := ComputeIndex MD5Digest sk (te_value (th_store t !!! x)) in
      '(w, sk) ← Estimate weight_ops sk index w;
      '(_, t) ← AddToWeight less weight_ops w x t;
      sk ← AddSub weight_ops sk index w 0;
      adjust_loop n (S i) sk t w
  end.

(** The new candidates. *)
(* @src src/src/emitters/szltop.cc 351-356 SzlTopEntry::Merge *)
Fixpoint candidates_loop (n : nat) (dec : SzlDecoder) (w : SzlValue) (e : SzlTopEntry) : res (MergeStatus * SzlValue * SzlTopEntry) :=
  match n with
  | O => Ok (MergeOk, w, e)
  | S n =>
      match GetBytes dec with
      | None => Ok (MergeError, w, e)
      | Some (s, dec) =>
          match Decode weight_ops dec w with
          | Fatal => Fatal
          | Fail => Ok (MergeError, w, e)
          | Ok (dec, w) => '(_, e) ← top_AddWeightedElem s w e; candidates_loop n dec w e
          end
      end
  end.

(** What the checks before the point of no return find: the counts, and the
    sketch of the source. *)
(* @src src/src/emitters/szltop.cc 285-324 SzlTopEntry::Merge *)
Definition parse_top (val : bytes) (e : SzlTopEntry) : res (Z * Z * option SzlSketch) :=
  '(extra, dec) ← of_opt (GetInt (dec_Init val));
  '(nvals, dec) ← of_opt (GetInt dec);
  if th_max (tops_ e) <? nvals then Fail
  else
    dec ← of_opt (skip_n skip_weighted (Z.to_nat nvals) dec);
    '(tabSize, dec) ← of_opt (GetInt dec);
    '(nTabs, dec) ← of_opt (GetInt dec);
    '(newsketch, dec) ←
      (if negb (nTabs =? 0) then
         if negb (nTabs =? sketchTabs_ e) || negb (tabSize =? sketchTabSize_ e) then Fail
         else sk ← sketch_new nTabs tabSize; '(dec, sk) ← sketch_Decode weight_ops sk dec; Ok (Some sk, dec)
       else if negb (tabSize =? 0) then Fail else Ok (None, dec));
    if negb (done_ dec) then Fail else Ok (extra, nvals, newsketch).

(* @src src/src/emitters/szltop.cc 282-374 SzlTopEntry::Merge *)
Definition top_Merge (val : bytes) (e : SzlTopEntry) : res (MergeStatus * SzlTopEntry) :=
  match val with
  | [] => Ok (MergeOk, e)
  | _ =>
      match parse_top val e with
      | Fatal => Fatal
      | Fail => Ok (MergeError, e)
      | Ok (extra, nvals, newsketch) =>
          (* committed from here on *)
          '(newsketch, e, w) ← match newsketch with
                               | Some sk =>
                                   '(sk, t, w) ← adjust_loop (length (th_heap (tops_ e))) 0 sk (tops_ e) VNil;
                                   Ok (Some sk, set_tops t e, w)
                               | None => Ok (None, e, VNil)
                               end;
          match (dec ← Skip (dec_Init val) INT; Skip dec INT) with
          | None => Ok (MergeError, e)
          | Some dec =>
              '(st, w, e) ← candidates_loop (Z.to_nat nvals) dec w e;
              match st with
              | MergeError => Ok (MergeError, e)
              | MergeOk =>
                  (* combine the two sketches *)
                  e ← match newsketch, sketch_ e with
                      | None, _ => Ok e
                      | Some sk, None => Ok (set_sketch (Some sk) e)
                      | Some sk, Some old => old ← AddSketch weight_ops old sk; Ok (set_sketch (Some old) e)
                      end;
                  _ ← Clear weight_ops w;
                  Ok (MergeOk, set_tot (s64 (totElems_ e + extra)) e)
              end
          end
      end
  end.

(** [totElems_] is a member of the class itself, not the one of the base class
    that [TotElems] returns. *)
Definition top_methods : SzlTabEntry SzlTopEntry := {|
  entry_AddElem := top_AddElem;
  entry_AddWeightedElem := top_AddWeightedElem;
  entry_Flush := top_Flush;
  entry_FlushForDisplay := top_FlushForDisplay;
  entry_Merge := top_Merge;
  entry_Clear := top_Clear;
  entry_TotElems := fun _ => 0;
  entry_TupleCount := top_TupleCount;
|}.

(** ** Reading results *)

(* @src src/src/emitters/szltopresults.cc 193-197 SzlTopResults (data members) *)
Record TopResults : Type := MkTopResults { tr_elems : list bytes; tr_tot : Z }.

(** The string, its encoded weight as it stands, and the deviations. *)
(* @src src/src/emitters/szltopresults.cc 159-176 SzlTopResults::ParseFromString *)
Fixpoint take_tops (n : nat) (dec : SzlDecoder) (errval : bytes) : res (list bytes) :=
  match n with
  | O => Ok []
  | S n =>
      '(s, dec) ← check_some (GetBytes dec);
      dec' ← check_some (ops_Skip weight_ops dec);
      xs ← take_tops n dec' errval;
      Ok ((s ++ between dec dec' ++ errval) :: xs)
  end.

(** [Fail] is a return of [false]: the members were cleared before. *)
(* @src src/src/emitters/szltopresults.cc 111-182 SzlTopResults::ParseFromString *)
Definition parse_top_results (maxElems : Z) (val : bytes) : res TopResults :=
  '(extra, dec) ← of_opt (GetInt (dec_Init val));
  '(nvals, dec) ← of_opt (GetInt dec);
  let nv := if nvals <? maxElems then s32 nvals else maxElems in
  dec ← of_opt (skip_n (skip_weighted) (Z.to_nat nvals) dec);
  '(tabSize, dec) ← of_opt (GetInt dec);
  '(nTabs, dec) ← of_opt (GetInt dec);
  '(err, dec) ←
    (if negb (nTabs =? 0) then
       sk ← sketch_new (s32 nTabs) (s32 tabSize);
       '(dec, sk) ← sketch_Decode weight_ops sk dec;
       '(err, _) ← StdDeviation weight_ops sk;
       Ok (err, dec)
     else Ok (replicate (nflats_ weight_ops) 0, dec));
  if negb (done_ dec) then Fail
  else
    enc ← foldl (fun r x => enc ← r; PutFloat enc x) (Ok enc_new) err;
    dec ← check_some (Skip (Restart dec) INT);
    dec ← check_some (Skip dec INT);
    elems ← take_tops (Z.to_nat nv) dec (data_ enc);
    Ok (MkTopResults elems (s64 (extra + nvals))).

(** The boolean and the members after the call. *)
(* @src src/src/emitters/szltopresults.cc 104-185 SzlTopResults::ParseFromString *)
Definition top_ParseFromString (maxElems : Z) (val : bytes) : res (bool * TopResults) :=
  match val with
  | [] => Ok (true, MkTopResults [] 0)
  | _ =>
      match parse_top_results maxElems val with
      | Fatal => Fatal
      | Fail => Ok (false, MkTopResults [] 0)
      | Ok r => Ok (true, r)
      end
  end.
End Top.

(** ** Correctness *)

Local Open Scope szl_scope.

Section Proofs.
Context (MD5Digest : bytes -> bytes) (bucket_count : gmap bytes nat -> Z).
Context (ops : SzlOps) (ks : list Kind) (Ho : num_ops ops ks) (Hint : Forall (eq INT) ks).
(** The parameter, and the dimensions of the sketch. *)
Context (param : Z) (Hparam : 1 <= param <= 1000) (sk0 : SzlSketch)
  (Hsk0 : sketch_new (fst (Dims (param * 100))) (snd (Dims (param * 100))) = Ok sk0).
#[local] Abbreviation less := (SzlValueLess ops).
#[local] Abbreviation good := (num_good ops ks).
#[local] Abbreviation cell := (num_cell ops ks).
#[local] Abbreviation at_ := (num_at ops ks).
#[local] Abbreviation th_inv := (th_inv ops ks less).
#[local] Abbreviation wf := (sketch_wf ops ks).
#[local] Abbreviation tw := (true_weight ops ks).
Implicit Types (l : list (bytes * SzlValue)) (e : SzlTopEntry) (i j : nat).

#[local] Instance less_laws : CmpLaws (weight_ok ops) less := SzlValueLess_laws ops (num_ops_ok ops ks Ho).

(** The sign with which a string enters a cell. *)
Definition sg (s : bytes) i : Z := idx_sign (ComputeIndex MD5Digest sk0 s) i.

(** What elements would give to a cell of a sketch of them all. *)
Definition spread l i j : Z := sumZ (fun '(s, w) => sg s i * at_ w j) l.

(** What an entry accounts for: its sketch, and its candidates as if they were in it. *)
Definition sketch_at (sk : option SzlSketch) i j : Z :=
  match sk with Some sk => cell_at ops ks (weights_ sk) i j | None => 0 end.
Definition content e i j : Z := sketch_at (sketch_ e) i j + spread (pairs (tops_ e)) i j.

Definition top_inv e : Prop :=
  top_param e = param /\ sketchTabs_ e = nTabs_ sk0 /\ sketchTabSize_ e = tabSize_ sk0
  /\ th_inv (tops_ e) /\ th_max (tops_ e) = param * 10
  /\ match sketch_ e with Some sk => wf sk /\ same_dims sk0 sk | None => True end.

Lemma spread_app l l' i j : spread (l ++ l') i j = spread l i j + spread l' i j.
Proof. apply sumZ_app. Qed.
Lemma spread_perm l l' i j : l ≡ₚ l' -> spread l i j = spread l' i j.
Proof. apply sumZ_perm. Qed.
Lemma spread_cons s w l i j : spread ((s, w) :: l) i j = sg s i * at_ w j + spread l i j.
Proof. done. Qed.

Lemma sk0_ok : dims_ok sk0 /\ wf sk0 /\ contents ops ks sk0 (fun _ _ => 0)
  /\ nTabs_ sk0 = fst (Dims (param * 100)) /\ tabSize_ sk0 = snd (Dims (param * 100)).
Proof.
  destruct (Dims_spec (param * 100)) as (n & b & E & Hn & Hb & _); [lia|]. rewrite E in Hsk0. cbn [fst snd] in Hsk0.
  destruct (sketch_new_dims _ _ _ Hsk0) as (Hd & E1 & E2); [apply Z.pow_le_mono_r; lia|]. rewrite E. cbn [fst snd].
  pose proof Hd as (_ & Hr & Hodd). rewrite E1 in Hr, Hodd.
  destruct (sketch_new_ok ops ks _ b Hr Hodd ltac:(lia)) as (x & Ex & Hwf & Hc & _). rewrite Hsk0 in Ex. by injection Ex as <-.
Qed.

Lemma index_dims sk s : same_dims sk0 sk -> ComputeIndex MD5Digest sk s = ComputeIndex MD5Digest sk0 s.
Proof. intros (E1 & E2 & E3). by apply ComputeIndex_dims. Qed.
Lemma index_ok_sk sk s : wf sk -> index_ok sk (ComputeIndex MD5Digest sk s).
Proof. intros Hwf. apply ComputeIndex_ok, Hwf. Qed.

Lemma same_dims_trans a b c : same_dims a b -> same_dims b c -> same_dims a c.
Proof. intros (? & ? & ?) (? & ? & ?). split; [congruence|]. split; congruence. Qed.

(** The contents of a sketch, as they are. *)
Lemma contents_self sk : wf sk -> contents ops ks sk (cell_at ops ks (weights_ sk)).
Proof.
  intros (_ & _ & _ & Hw & _) i j. symmetry. apply s64_id. apply num_at_range; [done|]. by apply nth_cell.
Qed.

Lemma AddSub_at sk s v isAdd :
  wf sk -> same_dims sk0 sk -> cell v -> isAdd = 0 \/ isAdd = 1 -> exists sk',
    AddSub ops sk (ComputeIndex MD5Digest sk s) v isAdd = Ok sk' /\ wf sk' /\ same_dims sk0 sk'
    /\ forall i j, cell_at ops ks (weights_ sk') i j =64 cell_at ops ks (weights_ sk) i j + (2 * isAdd - 1) * sg s i * at_ v j.
Proof.
  intros Hwf Hd Hv Ha.
  destruct (AddSub_ok ops ks Ho sk (ComputeIndex MD5Digest sk s) v isAdd _ Hwf (contents_self sk Hwf)
    (index_ok_sk sk s Hwf) Hv Ha) as (sk' & E & Hwf' & Hd' & Hc).
  exists sk'. split; [done|]. split; [done|]. split; [by apply (same_dims_trans _ sk)|]. intros i j. rewrite Hc, eqm_s64.
  unfold sg. by rewrite (index_dims sk).
Qed.

Lemma Estimate_at sk s est :
  wf sk -> same_dims sk0 sk -> cell est -> exists v sk',
    Estimate ops sk (ComputeIndex MD5Digest sk s) est = Ok (v, sk') /\ cell v /\ wf sk' /\ same_dims sk0 sk'
    /\ weights_ sk' = weights_ sk.
Proof.
  intros Hwf Hd He. destruct (Estimate_ok ops ks Ho Hint sk _ est Hwf (index_ok_sk sk s Hwf) He) as (v & sk' & E & H1 & H2 & H3 & H4).
  exists v, sk'. split; [done|]. split; [done|]. split; [done|]. split; [by apply (same_dims_trans _ sk)|done].
Qed.

Lemma Clear_cell v : cell v -> exists z, Clear ops v = Ok z.
Proof.
  intros Hv. destruct (Clear_ok ops v (num_ops_ok ops ks Ho)) as (z & E & _); [by apply (cell_dest ops ks Ho)|by exists z].
Qed.

Lemma sketch_Memory_ok sk : wf sk -> exists m, sketch_Memory ops sk = Ok m.
Proof.
  intros (_ & _ & _ & Hw & Ht). unfold sketch_Memory.
  assert (forall ws m, Forall cell ws -> exists m', foldl (fun r w => m ← r; k ← Memory ops w; Ok (m + k)) (Ok m) ws = Ok m') as H.
  { intros ws. induction ws as [|w ws IH]; intros m Hws; [by exists m|]. apply Forall_cons in Hws as [Hw1 Hws].
    cbn [foldl mbind res_bind]. destruct (cell_memory ops ks Ho w Hw1) as [k ->]. cbn [mbind res_bind]. by apply IH. }
  destruct (H (take (sketch_n sk) (weights_ sk)) sizeof_SzlSketch) as [m ->]; [by apply Forall_take|].
  cbn [mbind res_bind]. apply H. by apply Forall_take.
Qed.

(** *** Adding *)

(** The strings of a list of elements. *)
Definition keys l : gset bytes := list_to_set (map fst l).
Definition elem_good (p : bytes * SzlValue) : Prop := bytes_ok (fst p) /\ good (snd p).
#[local] Abbreviation true_ := (true_weight ops ks).

(** Entry [e] was given the elements [l] and accounts for the contents [f]. *)
Definition tracks l (f : nat -> nat -> Z) e : Prop :=
  top_inv e /\ Forall elem_good l /\ totElems_ e = s64 (Z.of_nat (length l))
  /\ (forall i j, content e i j =64 f i j)
  /\ keys (pairs (tops_ e)) ⊆ keys l
  /\ (sketch_ e <> None -> param * 10 < Z.of_nat (size (keys l)))
  /\ (th_nElems (tops_ e) = 0 -> l = []).

(** Without a sketch the candidates are the elements with their weights. *)
Definition exactly l (ps : list (bytes * SzlValue)) : Prop :=
  keys ps = keys l /\ forall v j, true_ ps v j =64 true_ l v j.

Definition top_holds l e : Prop := tracks l (spread l) e /\ (sketch_ e = None -> exactly l (pairs (tops_ e))).

Lemma keys_app l l' : keys (l ++ l') = keys l ∪ keys l'.
Proof. unfold keys. by rewrite map_app, list_to_set_app_L. Qed.
Lemma keys_cons s w l : keys ((s, w) :: l) = {[s]} ∪ keys l.
Proof. done. Qed.
Lemma keys_snoc l s w : keys (l ++ [(s, w)]) = {[s]} ∪ keys l.
Proof. rewrite keys_app, keys_cons. change (keys []) with (∅ : gset bytes). clear. set_solver. Qed.
Lemma keys_perm l l' : l ≡ₚ l' -> keys l = keys l'.
Proof. intros H. unfold keys. apply set_eq. intros x. rewrite !elem_of_list_to_set, !list_elem_of_In. by rewrite H. Qed.
Lemma true_app l l' v j : true_ (l ++ l') v j = true_ l v j + true_ l' v j.
Proof. apply sumZ_app. Qed.
Lemma true_perm l l' v j : l ≡ₚ l' -> true_ l v j = true_ l' v j.
Proof. apply sumZ_perm. Qed.
Lemma true_cons s w l v j : true_ ((s, w) :: l) v j = (if bool_decide (s = v) then at_ w j else 0) + true_ l v j.
Proof. done. Qed.
Lemma exact_perm l ps ps' : ps ≡ₚ ps' -> exactly l ps -> exactly l ps'.
Proof. intros Hp [H1 H2]. split; [by rewrite <- (keys_perm _ _ Hp)|]. intros v j. by rewrite <- (true_perm _ _ v j Hp). Qed.

(** What adding an element does to an entry. *)
Definition adds (s : bytes) (w : SzlValue) e e' : Prop :=
  top_inv e' /\ totElems_ e' = s64 (totElems_ e + 1)
  /\ (forall i j, content e' i j =64 content e i j + sg s i * at_ w j)
  /\ keys (pairs (tops_ e')) ⊆ {[s]} ∪ keys (pairs (tops_ e))
  /\ (sketch_ e' = sketch_ e \/ sketch_ e' <> None /\ param * 10 < Z.of_nat (size ({[s]} ∪ keys (pairs (tops_ e)))))
  /\ th_nElems (tops_ e') <> 0
  /\ (sketch_ e' = None -> keys (pairs (tops_ e')) = {[s]} ∪ keys (pairs (tops_ e))
      /\ forall v j, true_ (pairs (tops_ e')) v j =64 true_ (pairs (tops_ e)) v j + true_ [(s, w)] v j).

(** The entry with new candidates, for one more element. *)
Lemma with_tops_inv e t :
  top_inv e -> th_inv t -> th_max t = th_max (tops_ e) -> top_inv (set_tops t (set_tot (s64 (totElems_ e + 1)) e)).
Proof.
  intros (P1 & P2 & P3 & Hth & Hmax & Hske) Ht Hm.
  split; [done|]. split; [done|]. split; [done|]. split; [done|]. split; [by cbn; rewrite Hm|done].
Qed.

(** A known string: its weight is changed. *)
Lemma add_known e s w x :
  top_inv e -> elem_good (s, w) -> Find (tops_ e) s = Some x -> exists m t,
    AddToWeight less ops w x (tops_ e) = Ok (m, t) /\ adds s w e (set_tops t (set_tot (s64 (totElems_ e + 1)) e)).
Proof.
  intros Hinv Hs Hx. pose proof Hinv as (P1 & P2 & P3 & Hth & Hmax & Hske).
  pose proof (Find_spec ops ks less (tops_ e) s Hth) as Hf. rewrite Hx in Hf. destruct Hf as [Hin Hval].
  destruct (AddToWeight_spec ops ks Ho less (tops_ e) x w Hth Hin) as
    (m & t & w' & rest & E & Hth' & Hmax' & Hw' & Dw & Q1 & Q2 & Hl); [by apply (good_cell ops ks), Hs|].
  unfold pair_of in Q1. rewrite Hval in Q1, Q2.
  assert (th_nElems t <> 0) as Hn.
  { unfold th_nElems. rewrite Hl. destruct (th_heap (tops_ e)); [by apply elem_of_nil in Hin|cbn; lia]. }
  exists m, t. split; [done|]. split; [by apply with_tops_inv|]. cbn [tops_ sketch_ totElems_ set_tops set_tot].
  assert (keys (pairs t) = {[s]} ∪ keys (pairs (tops_ e))) as Hk.
  { rewrite (keys_perm _ _ Q2), (keys_perm _ _ Q1), !keys_cons. clear. set_solver. }
  split; [done|]. split; [|split; [by rewrite Hk|split; [by left|split; [done|]]]].
  - intros i j. unfold content. cbn [tops_ sketch_ set_tops set_tot]. rewrite (spread_perm _ _ i j Q1), (spread_perm _ _ i j Q2).
    rewrite !spread_cons, Dw, eqm_s64. apply eqm_eq. lia.
  - intros _. split; [done|]. intros v j. rewrite (true_perm _ _ v j Q1), (true_perm _ _ v j Q2), !true_cons.
    cbn [true_weight sumZ foldr]. case_bool_decide; [rewrite Dw, eqm_s64|]; apply eqm_eq; cbn; lia.
Qed.

(** A new string while there is room. *)
Lemma add_room e s w :
  top_inv e -> elem_good (s, w) -> Find (tops_ e) s = None -> th_nElems (tops_ e) <> th_max (tops_ e) -> exists m t,
    AddNewElem less ops bucket_count s w (tops_ e) = Ok (m, t) /\ adds s w e (set_tops t (set_tot (s64 (totElems_ e + 1)) e)).
Proof.
  intros Hinv Hs Hx Hne. pose proof Hinv as (P1 & P2 & P3 & Hth & Hmax & Hske). pose proof Hth as (_ & _ & _ & _ & _ & Hle).
  destruct (AddNewElem_spec ops ks Ho bucket_count less (tops_ e) s w Hth Hx) as (m & t & E & Hth' & Hmax' & Q);
    [lia|apply Hs|].
  assert (th_nElems t <> 0) as Hn.
  { unfold th_nElems. apply Permutation_length in Q. unfold pairs in Q. rewrite length_map in Q. cbn in Q. lia. }
  exists m, t. split; [done|]. split; [by apply with_tops_inv|]. cbn [tops_ sketch_ totElems_ set_tops set_tot].
  assert (keys (pairs t) = {[s]} ∪ keys (pairs (tops_ e))) as Hk by (by rewrite (keys_perm _ _ Q), keys_cons).
  split; [done|]. split; [|split; [by rewrite Hk|split; [by left|split; [done|]]]].
  - intros i j. unfold content. cbn [tops_ sketch_ set_tops set_tot]. rewrite (spread_perm _ _ i j Q), spread_cons.
    apply eqm_eq. lia.
  - intros _. split; [done|]. intros v j. rewrite (true_perm _ _ v j Q), !true_cons. apply eqm_eq. cbn. lia.
Qed.

(** The keys of a full heap and another string. *)
Lemma full_keys s e : th_inv (tops_ e) -> th_nElems (tops_ e) = param * 10 ->
  Find (tops_ e) s = None -> param * 10 < Z.of_nat (size ({[s]} ∪ keys (pairs (tops_ e)))).
Proof.
  intros Hth Hn Hf. pose proof (Find_spec ops ks less (tops_ e) s Hth) as Hs. rewrite Hf in Hs.
  pose proof (pairs_distinct ops ks less (tops_ e) Hth) as Hnd. rewrite <- (keys_cons s VNil). unfold keys.
  rewrite size_list_to_set by by apply NoDup_cons. cbn [map length]. rewrite length_map. unfold pairs. rewrite length_map.
  unfold th_nElems in Hn. lia.
Qed.

(** The sketch, made when there is none. *)
Definition with_sketch (o : option SzlSketch) : SzlSketch := match o with Some sk => sk | None => sk0 end.

Lemma lazy_sketch e : top_inv e ->
  exists mem, match sketch_ e with
    | Some sk => Ok (0, sk)
    | None => sk ← sketch_new (sketchTabs_ e) (sketchTabSize_ e); m ← sketch_Memory ops sk; Ok (m, sk)
    end = Ok (mem, with_sketch (sketch_ e))
  /\ wf (with_sketch (sketch_ e)) /\ same_dims sk0 (with_sketch (sketch_ e))
  /\ forall i j, cell_at ops ks (weights_ (with_sketch (sketch_ e))) i j = sketch_at (sketch_ e) i j.
Proof.
  intros (_ & E1 & E2 & _ & _ & Hsk). destruct (sketch_ e) as [sk|]; [by exists 0; destruct Hsk|].
  destruct sk0_ok as (_ & Hwf & Hc & E3 & E4). rewrite E1, E2, E3, E4, Hsk0. cbn [mbind res_bind].
  destruct (sketch_Memory_ok sk0 Hwf) as [m ->]. exists m. split; [done|]. split; [done|]. split; [done|].
  intros i j. apply Hc.
Qed.

(** A new string when the heap is full: the weight goes to the sketch, or the
    string takes the place of the smallest candidate. *)
Lemma add_full e s w :
  top_inv e -> elem_good (s, w) -> Find (tops_ e) s = None -> th_nElems (tops_ e) = th_max (tops_ e) -> exists m e',
    top_AddWeightedElem MD5Digest bucket_count ops s w e = Ok (m, e') /\ adds s w e e'.
Proof.
  intros Hinv Hs Hx Hfull. pose proof Hinv as (P1 & P2 & P3 & Hth & Hmax & Hske).
  pose proof (full_keys s e Hth ltac:(congruence) Hx) as Hsize.
  unfold top_AddWeightedElem. cbn [tops_ sketch_ sketchTabs_ sketchTabSize_ set_tot].
  rewrite (proj2 (Z.eqb_neq _ _)) by lia. rewrite Hx, Hfull, Z.eqb_refl. cbn [negb].
  destruct (lazy_sketch e Hinv) as (mem & -> & Wsk & Dsk & Csk). cbn [mbind res_bind].
  set (sk := with_sketch (sketch_ e)) in *.
  destruct (Estimate_at sk s VNil Wsk Dsk (cell_VNil ops ks)) as (sw & sk1 & -> & Csw & Wsk1 & Dsk1 & Esk1). cbn [mbind res_bind].
  assert (ComputeIndex MD5Digest sk s = ComputeIndex MD5Digest sk1 s) as ->
    by (by rewrite (index_dims sk s Dsk), (index_dims sk1 s Dsk1)).
  destruct Hs as [Hsb Hw]. cbn [fst snd] in *. pose proof (good_cell ops ks w Hw) as Cw.
  destruct (Assign_cell ops ks Ho w Cw) as (tw0 & -> & Gtw0 & Dtw0). cbn [mbind res_bind].
  destruct (add_at ops ks Ho sw tw0 Csw) as (tw & -> & Ctw & Dtw & Gtw); [by apply good_cell|]. cbn [mbind res_bind].
  specialize (Gtw Gtw0). assert (forall j, at_ tw0 j = at_ w j) as E0 by (intros j; unfold num_at; by rewrite Dtw0).
  destruct (Clear_cell sw Csw) as [z1 Ez1], (Clear_cell tw Ctw) as [z2 Ez2].
  assert (0 < th_nElems (tops_ e)) as Hn by lia.
  destruct (ReplaceSmallest_spec ops ks Ho bucket_count less (tops_ e) s tw Hth Hn Hx Gtw)
    as (m & t & rest & ER & Hth' & Hmax' & Q1 & Q2 & Hl).
  set (worst := th_store (tops_ e) !!! Smallest (tops_ e)) in *.
  change (pair_of (th_store (tops_ e)) (Smallest (tops_ e))) with (te_value worst, te_weight worst) in Q1.
  assert (good (te_weight worst)) as Gworst.
  { pose proof (pairs_good ops ks less (tops_ e) Hth) as Hp. rewrite Q1 in Hp. by apply Forall_cons in Hp as [? _]. }
  rewrite (less_defined ops) by (apply (num_ops_ok ops ks Ho) || by apply (num_weight_ok ops ks)). cbn [mbind res_bind].
  destruct (SzlValueLess ops tw (te_weight worst)).
  - destruct (AddSub_at sk1 s w 1 Wsk1 Dsk1 Cw) as (sk2 & -> & Wsk2 & Dsk2 & Csk2); [lia|]. cbn [mbind res_bind].
    rewrite Ez1, Ez2. cbn [mbind res_bind]. eexists mem, _. split; [done|].
    split; [|split; [done|]]; cbn [tops_ sketch_ set_sketch set_tot].
    + by repeat (split; [done|]).
    + split; [|split; [apply union_subseteq_r|split; [by right|split; [lia|done]]]].
      intros i j. unfold content. cbn [sketch_ tops_ sketch_at set_sketch set_tops set_tot].
      rewrite Csk2, Esk1, Csk. apply eqm_eq. lia.
  - destruct (AddSub_at sk1 s sw 0 Wsk1 Dsk1 Csw) as (sk2 & -> & Wsk2 & Dsk2 & Csk2); [lia|]. cbn [mbind res_bind].
    destruct (AddSub_at sk2 (te_value worst) (te_weight worst) 1 Wsk2 Dsk2) as (sk3 & -> & Wsk3 & Dsk3 & Csk3);
      [by apply good_cell|lia|]. cbn [mbind res_bind].
    rewrite ER. cbn [mbind res_bind]. rewrite Ez1, Ez2. cbn [mbind res_bind]. eexists _, _. split; [done|].
    assert (th_nElems t = th_nElems (tops_ e)) as Hnt by (unfold th_nElems; by rewrite Hl).
    split; [|split; [done|]]; cbn [tops_ sketch_ set_sketch set_tops set_tot].
    + split; [done|]. split; [done|]. split; [done|]. split; [done|]. split; [by cbn; rewrite Hmax'|done].
    + split; [|split; [|split; [by right|split; [rewrite Hnt; lia|done]]]].
      * intros i j. unfold content. cbn [sketch_ tops_ sketch_at set_sketch set_tops set_tot].
        rewrite (spread_perm _ _ i j Q1), (spread_perm _ _ i j Q2), !spread_cons, Csk3, Csk2, Esk1, Csk, Dtw, E0, eqm_s64.
        apply eqm_eq. lia.
      * rewrite (keys_perm _ _ Q2), (keys_perm _ _ Q1), !keys_cons. clear. set_solver.
Qed.

Lemma add_spec e s w :
  top_inv e -> elem_good (s, w) -> exists m e',
    top_AddWeightedElem MD5Digest bucket_count ops s w e = Ok (m, e') /\ adds s w e e'.
Proof.
  intros Hinv Hs. pose proof Hinv as (_ & _ & _ & _ & Hmax & _).
  assert ((th_max (tops_ e) =? 0) = false) as E0 by (apply Z.eqb_neq; lia).
  destruct (Find (tops_ e) s) as [x|] eqn:Ex; [|destruct (Z.eqb_spec (th_nElems (tops_ e)) (th_max (tops_ e))) as [En|En]].
  - destruct (add_known e s w x Hinv Hs Ex) as (m & t & E & Ha).
    unfold top_AddWeightedElem. cbn [tops_ set_tot]. rewrite E0, Ex, E. cbn [mbind res_bind]. by eexists _, _.
  - by apply add_full.
  - destruct (add_room e s w Hinv Hs Ex En) as (m & t & E & Ha).
    unfold top_AddWeightedElem. cbn [tops_ set_tot]. rewrite E0, Ex. rewrite (proj2 (Z.eqb_neq _ _) En). cbn [negb].
    rewrite E. cbn [mbind res_bind]. by eexists _, _.
Qed.

Lemma adds_tracks l f e s w e' :
  tracks l f e -> elem_good (s, w) -> adds s w e e' ->
  tracks (l ++ [(s, w)]) (fun i j => f i j + sg s i * at_ w j) e'
  /\ ((sketch_ e = None -> exactly l (pairs (tops_ e))) -> sketch_ e' = None -> exactly (l ++ [(s, w)]) (pairs (tops_ e'))).
Proof.
  intros (Hinv & Hg & Ht & Hc & Hk & Hsk & _) Hs (Hinv' & Ht' & Hc' & Hk' & Hsk' & Hne' & Hex').
  assert ({[s]} ∪ keys (pairs (tops_ e)) ⊆ keys (l ++ [(s, w)])) as Hsub by (rewrite keys_snoc; by apply union_mono_l).
  split; [split; [done|split; [|split; [|split; [|split; [|split]]]]]|].
  - apply Forall_app. split; [done|by constructor].
  - rewrite Ht', Ht, length_app. cbn [length]. autorewrite with szl. f_equal. lia.
  - intros i j. by rewrite Hc', Hc.
  - by transitivity ({[s]} ∪ keys (pairs (tops_ e))).
  - intros H. assert (param * 10 < Z.of_nat (size (keys l)) -> param * 10 < Z.of_nat (size (keys (l ++ [(s, w)])))) as Hmono.
    { assert (size (keys l) <= size (keys (l ++ [(s, w)])))%nat; [|lia]. apply subseteq_size. rewrite keys_snoc. apply union_subseteq_r. }
    destruct Hsk' as [E|[_ E]]; [apply Hmono, Hsk; by rewrite <- E|]. apply subseteq_size in Hsub. lia.
  - done.
  - intros Hex H. destruct (Hex' H) as [K1 K2]. assert (sketch_ e = None) as E by (destruct Hsk' as [<-|[? _]]; done).
    destruct (Hex E) as [K3 K4]. split; [by rewrite K1, K3, keys_snoc|]. intros v j. by rewrite K2, K4, true_app.
Qed.

(** *** Merging *)

(** Adjusting the candidates moves weight from the new sketch to them. *)
Lemma adjust_loop_ok n i sk t w :
  th_inv t -> wf sk -> same_dims sk0 sk -> cell w -> (i + n <= length (th_heap t))%nat -> exists sk' t' w',
    adjust_loop MD5Digest ops n i sk t w = Ok (sk', t', w')
    /\ th_inv t' /\ th_max t' = th_max t /\ th_nElems t' = th_nElems t /\ keys (pairs t') = keys (pairs t)
    /\ wf sk' /\ same_dims sk0 sk' /\ cell w'
    /\ forall a j, sketch_at (Some sk') a j + spread (pairs t') a j =64 sketch_at (Some sk) a j + spread (pairs t) a j.
Proof.
  revert i sk t w. induction n as [|n IH]; intros i sk t w Hth Wsk Dsk Cw Hi; [by exists sk, t, w|]. cbn [adjust_loop].
  set (x := Element t i). assert (x ∈ th_heap t) as Hx.
  { apply (list_elem_of_lookup_2 _ i), list_lookup_lookup_total_lt. lia. }
  set (s := te_value (th_store t !!! x)).
  destruct (Estimate_at sk s w Wsk Dsk Cw) as (w1 & sk1 & -> & Cw1 & Wsk1 & Dsk1 & Esk1). cbn [mbind res_bind].
  destruct (AddToWeight_spec ops ks Ho less t x w1 Hth Hx Cw1) as
    (m & t1 & w' & rest & -> & Hth1 & Hmax1 & Hw' & Dw & Q1 & Q2 & Hl). cbn [mbind res_bind].
  rewrite (index_dims sk s Dsk), <- (index_dims sk1 s Dsk1).
  destruct (AddSub_at sk1 s w1 0 Wsk1 Dsk1 Cw1) as (sk2 & -> & Wsk2 & Dsk2 & Csk2); [lia|]. cbn [mbind res_bind].
  destruct (IH (S i) sk2 t1 w1 Hth1 Wsk2 Dsk2 Cw1) as (sk' & t' & w2 & E & I1 & I2 & I3 & I4 & I5 & I6 & I7 & I8); [lia|].
  exists sk', t', w2. split; [done|]. split; [done|]. split; [congruence|].
  split; [rewrite I3; unfold th_nElems; by rewrite Hl|]. unfold pair_of in Q1. fold s in Q1, Q2.
  split; [by rewrite I4, (keys_perm _ _ Q1), (keys_perm _ _ Q2)|]. split; [done|]. split; [done|]. split; [done|].
  intros a j. rewrite I8. cbn [sketch_at].
  rewrite (spread_perm _ _ a j Q1), (spread_perm _ _ a j Q2), !spread_cons, Csk2, Esk1, Dw, eqm_s64. apply eqm_eq. lia.
Qed.

(** *** Messages *)

Definition pair_code (p : bytes * SzlValue) : bytes := enc_prim (PBytes (fst p)) ++ num_code ks (num_den ops ks (snd p)).
Definition sketch_code (o : option SzlSketch) : bytes :=
  match o with
  | Some sk => enc_prim (PInt (tabSize_ sk0)) ++ enc_prim (PInt (nTabs_ sk0)) ++ weights_code ops ks (weights_ sk)
  | None => enc_prim (PInt 0) ++ enc_prim (PInt 0)
  end.
Definition top_msg (extra : Z) (ps : list (bytes * SzlValue)) (o : option SzlSketch) : bytes :=
  counted_msg extra (Z.of_nat (length ps)) (concat (map pair_code ps) ++ sketch_code o).

Lemma pair_code_ok ps : Forall elem_good ps -> bytes_ok (concat (map pair_code ps)).
Proof.
  induction 1 as [|p ps [Hs Hw] _ IH]; [constructor|]. cbn [map concat].
  destruct (cell_codec ops ks Ho _ (good_cell ops ks _ Hw)) as (Hb & _).
  repeat (apply Forall_app; split); [by apply (enc_prim_ok (PBytes _))|done|done].
Qed.

Lemma pair_skippable p : elem_good p -> skippable (skip_weighted ops) (pair_code p).
Proof.
  intros [Hs Hw]. destruct (cell_codec ops ks Ho _ (good_cell ops ks _ Hw)) as (Hb & Hskip & _).
  split; [apply Forall_app; split; [by apply (enc_prim_ok (PBytes _))|done]|]. intros s rest Hr. unfold skip_weighted, pair_code. rewrite <- app_assoc.
  assert (bytes_ok (num_code ks (num_den ops ks (snd p)) ++ rest)) as Hr' by (by apply Forall_app).
  pose proof (Skip_enc s (PBytes (fst p)) _ Hs Hr') as E. cbn [prim_kind] in E. rewrite E.
  cbn [mbind option_bind]. by apply Hskip.
Qed.

Lemma encode_tops_ok t enc : Forall elem_good (pairs t) ->
  encode_tops ops t enc = Ok (AppendEncoding enc (concat (map pair_code (pairs t)))).
Proof.
  unfold encode_tops, pairs. generalize (th_heap t) as ids. intros ids. revert enc.
  induction ids as [|x ids IH]; intros enc Hg; cbn [foldl map concat].
  { by rewrite AppendEncoding_nil. }
  cbn [map] in Hg. apply Forall_cons in Hg as [[Hs Hw] Hg]. cbn [pair_of fst snd] in Hs, Hw.
  cbn [mbind res_bind]. rewrite PutBytes_enc by done. rewrite (cell_encode ops ks Ho) by (by apply good_cell).
  rewrite IH by done. rewrite !AppendEncoding_app. unfold pair_code at 2. cbn [pair_of fst snd]. by rewrite <- !app_assoc.
Qed.

(** What a decoder makes of candidates: the same strings and numbers. *)
Definition same_pairs (ps ps' : list (bytes * SzlValue)) : Prop :=
  Forall2 (fun p p' => fst p = fst p' /\ num_den ops ks (snd p) = num_den ops ks (snd p')) ps ps'.

Lemma same_pairs_spec ps ps' : same_pairs ps ps' ->
  length ps' = length ps /\ keys ps' = keys ps /\ (forall i j, spread ps' i j = spread ps i j)
  /\ forall v j, true_ ps' v j = true_ ps v j.
Proof.
  induction 1 as [|[v u] [v' u'] ps ps' [Ev Eu] _ (I1 & I2 & I3 & I4)]; [done|]. cbn [fst snd] in *. subst v'.
  assert (forall j, at_ u' j = at_ u j) as Ej by (intros j; unfold num_at; by rewrite Eu).
  split; [cbn; by rewrite I1|]. split; [by rewrite !keys_cons, I2|]. split; intros; [by rewrite !spread_cons, Ej, I3|].
  by rewrite !true_cons, Ej, I4.
Qed.

Lemma tracks_ext l f g e : tracks l f e -> (forall i j, f i j =64 g i j) -> tracks l g e.
Proof.
  intros (H1 & H2 & H3 & H4 & H5) Hfg. split; [done|]. split; [done|]. split; [done|]. split; [|done].
  intros i j. by rewrite H4.
Qed.

Lemma candidates_loop_ok ps l f e w s rest :
  Forall elem_good ps -> tracks l f e -> cell w -> bytes_ok rest -> exists ps' w' e',
    candidates_loop MD5Digest bucket_count ops (length ps) (MkDec s (concat (map pair_code ps) ++ rest)) w e = Ok (MergeOk, w', e')
    /\ same_pairs ps ps' /\ cell w' /\ tracks (l ++ ps') (fun i j => f i j + spread ps i j) e'
    /\ ((sketch_ e = None -> exactly l (pairs (tops_ e))) -> sketch_ e' = None -> exactly (l ++ ps') (pairs (tops_ e'))).
Proof.
  intros Hps. revert l f e w. induction Hps as [|[v u] ps [Hv Hu] Hps IH]; intros l f e w Htr Cw Hr; cbn [length candidates_loop].
  { exists [], w, e. rewrite app_nil_r. split; [done|]. split; [constructor|]. split; [done|]. split; [|done].
    apply (tracks_ext l f); [done|]. intros i j. apply eqm_eq. cbn. lia. }
  cbn [map concat]. unfold pair_code at 1. cbn [fst snd] in *. rewrite <- !app_assoc.
  destruct (cell_codec ops ks Ho u (good_cell ops ks u Hu)) as (Hb & _ & Hdec).
  assert (bytes_ok (concat (map pair_code ps) ++ rest)) as Hr1 by (apply Forall_app; split; [by apply pair_code_ok|done]).
  rewrite GetBytes_enc by (done || by apply Forall_app).
  destruct (Hdec s (concat (map pair_code ps) ++ rest) w Hr1 Cw) as (u' & -> & Gu' & Du').
  destruct (add_spec e v u' ltac:(apply Htr)) as (m & e1 & -> & Ha); [done|]. cbn [mbind res_bind].
  destruct (adds_tracks l f e v u' e1 Htr) as [Htr1 Hex1]; [done|done|].
  assert (forall j, at_ u' j = at_ u j) as Eu by (intros j; unfold num_at; by rewrite Du').
  destruct (IH (l ++ [(v, u')]) _ e1 u' Htr1 (good_cell ops ks u' Gu') Hr) as (ps' & w' & e' & E & Hsame & Cw' & Htr' & Hex').
  exists ((v, u') :: ps'), w', e'. split; [done|]. split; [by constructor|]. split; [done|].
  rewrite <- app_assoc in Htr', Hex'. split; [|tauto]. apply (tracks_ext _ _ _ _ Htr').
  intros i j. rewrite spread_cons, Eu. apply eqm_eq. lia.
Qed.

(** A sketch of the entry's dimensions, if there is one. *)
Definition sketch_fits (o : option SzlSketch) : Prop := match o with Some sk => wf sk /\ same_dims sk0 sk | None => True end.

Definition top_fits l : Prop := Forall elem_good l /\ Z.of_nat (length l) < 2 ^ 63.
Definition top_reports l (s : bytes) : Prop :=
  (l = [] /\ s = [])
  \/ exists ps o, s = top_msg (Z.of_nat (length l) - Z.of_nat (length ps)) ps o
     /\ ps <> [] /\ Forall elem_good ps /\ Z.of_nat (length ps) <= param * 10 /\ sketch_fits o
     /\ (forall i j, sketch_at o i j + spread ps i j =64 spread l i j)
     /\ keys ps ⊆ keys l /\ (o = None -> exactly l ps) /\ (o <> None -> param * 10 < Z.of_nat (size (keys l))).

Lemma keys_good l ps : Forall elem_good l -> keys ps ⊆ keys l -> Forall (fun p => good (snd p)) ps -> Forall elem_good ps.
Proof.
  intros Hl Hk Hps. apply Forall_forall. intros [v w] Hin. split; [|exact (proj1 (Forall_forall _ _) Hps _ Hin)].
  assert (v ∈ keys ps) as Hv by (apply elem_of_list_to_set, (list_elem_of_fmap_2 fst _ _ Hin)).
  apply Hk, elem_of_list_to_set, list_elem_of_fmap in Hv as ([v' u] & Ev & Hp).
  change (v = v') in Ev. rewrite Ev. apply (proj1 (Forall_forall _ _) Hl _ Hp).
Qed.

Lemma sketch_encode_ok e enc : top_inv e ->
  match sketch_ e with
  | Some sk => sketch_Encode ops sk (PutInt (PutInt enc (tabSize_ sk)) (sketchTabs_ e))
  | None => Ok (PutInt (PutInt enc 0) 0)
  end = Ok (AppendEncoding enc (sketch_code (sketch_ e))).
Proof.
  intros (_ & E1 & _ & _ & _ & Hsk). destruct (sketch_ e) as [sk|]; cbn [sketch_code].
  - destruct Hsk as (Hwf & Hd). destruct sk0_ok as (((b & Hb & _ & Eb) & Hr & _) & _). unfold kMinTabs, kMaxTabs in Hr.
    assert (0 < 2 ^ b <= 2 ^ 26) by (split; [apply Z.pow_pos_nonneg; lia|apply Z.pow_le_mono_r; lia]).
    destruct (sketch_codec ops ks Ho sk sk (PutInt (PutInt enc (tabSize_ sk)) (sketchTabs_ e)) [] [] (cell_at ops ks (weights_ sk)) Hwf Hwf) as [-> _];
      [by repeat split|by apply contents_self|constructor|].
    destruct Hd as (_ & -> & _). rewrite E1, !PutInt_enc by (unfold is_s64; lia). by autorewrite with szl.
  - rewrite !PutInt_enc by (unfold is_s64; lia). by autorewrite with szl.
Qed.

Lemma flush_msg l f e : tracks l f e -> Z.of_nat (length l) < 2 ^ 63 -> th_nElems (tops_ e) <> 0 -> exists e',
  let ps := pairs (th_Sort less (tops_ e)) in
  top_Flush ops e = Ok (top_msg (Z.of_nat (length l) - Z.of_nat (length ps)) ps (sketch_ e), e')
  /\ ps ≡ₚ pairs (tops_ e) /\ ps <> [] /\ Forall elem_good ps /\ Z.of_nat (length ps) <= param * 10.
Proof.
  intros (Hinv & Hg & Ht & Hc & Hk & Hsk & Hne) Hlen E. pose proof Hinv as (P1 & P2 & P3 & Hth & Hmax & Hske).
  pose proof Hth as (_ & _ & _ & _ & _ & Hle). unfold top_Flush. rewrite (proj2 (Z.eqb_neq _ _) E).
  pose proof (th_Sort_pairs ops ks Ho less (tops_ e) Hth) as Hp. set (t := th_Sort less (tops_ e)) in *.
  assert (th_max t = th_max (tops_ e)) as Hmt by apply (th_Sort_view ops ks Ho less (tops_ e) Hth).
  assert (length (pairs t) = length (th_heap (tops_ e))) as Hlp by (rewrite (Permutation_length Hp); apply length_map).
  assert (Forall (fun p => good (snd p)) (pairs t)) as Hgp by (rewrite Hp; by apply (pairs_good ops ks less)).
  assert (Forall elem_good (pairs t)) as Hep by (apply (keys_good l); [done|by rewrite (keys_perm _ _ Hp)|done]).
  cbn [tops_ set_tops sketch_ sketchTabs_].
  rewrite encode_tops_ok by done. cbn [mbind res_bind]. rewrite sketch_encode_ok by done. cbn [mbind res_bind].
  unfold top_Clear. cbn [tops_ top_param sketchTabs_ sketchTabSize_ set_tops]. fold t.
  destruct (th_Clear_ok ops ks Ho less t Hgp) as (t' & -> & _); [lia|]. cbn [mbind res_bind].
  eexists. unfold th_nElems in *. split; [|split; [done|split; [by intros Hnil; rewrite Hnil in Hlp; cbn in Hlp; lia|split; [done|lia]]]].
  assert (s64 (totElems_ e - Z.of_nat (length (th_heap (tops_ e)))) = Z.of_nat (length l) - Z.of_nat (length (pairs t))) as ->.
  { rewrite Ht, Hlp. rewrite s64_sub_l. apply s64_id. unfold is_s64. lia. }
  rewrite !PutInt_enc by (unfold is_s64; lia). rewrite !AppendEncoding_app. unfold top_msg, counted_msg. rewrite Hlp. done.
Qed.

Lemma flush_ok l e : top_fits l -> top_holds l e -> exists s e',
  top_Flush ops e = Ok (s, e') /\ top_reports l s.
Proof.
  intros [_ Hlen] [Htr Hex]. pose proof Htr as (Hinv & Hg & Ht & Hc & Hk & Hsk & Hne).
  destruct (Z.eqb_spec (th_nElems (tops_ e)) 0) as [E|E].
  { eexists _, _. split; [unfold top_Flush; by rewrite E|]. left. by rewrite (Hne E). }
  destruct (flush_msg l _ e Htr Hlen E) as (e' & Ef & Hp & Hps0 & Hep & Hlps). eexists _, e'. split; [exact Ef|]. right.
  exists (pairs (th_Sort less (tops_ e))), (sketch_ e). split; [done|]. split; [done|]. split; [done|]. split; [done|].
  split; [unfold sketch_fits; by destruct Hinv as (_ & _ & _ & _ & _ & Hske)|].
  split; [intros i j; rewrite <- Hc; unfold content; by rewrite (spread_perm _ _ i j Hp)|].
  split; [by rewrite (keys_perm _ _ Hp)|]. split; [|done].
  intros Hn. apply (exact_perm l (pairs (tops_ e))); [done|by apply Hex].
Qed.

Lemma sk0_ints : 0 < tabSize_ sk0 < 2 ^ 27 /\ 15 <= nTabs_ sk0 <= 31.
Proof.
  destruct sk0_ok as (((b & Hb & _ & Eb) & Hr & _) & _). unfold kMinTabs, kMaxTabs in Hr. split; [|done]. rewrite Eb.
  split; [apply Z.pow_pos_nonneg; lia|apply Z.pow_lt_mono_r; lia].
Qed.

Lemma sketch_code_ok o : sketch_fits o -> bytes_ok (sketch_code o).
Proof.
  pose proof sk0_ints as [H1 H2]. assert (forall z, is_s64 z -> bytes_ok (enc_prim (PInt z))) as Hz
    by (intros z Hz; by apply (enc_prim_ok (PInt z))).
  destruct o as [sk|]; cbn [sketch_code sketch_fits]; intros Hs; repeat (apply Forall_app; split); try (apply Hz; unfold is_s64; lia).
  apply (weights_code_ok ops ks Ho). apply Hs.
Qed.

Lemma parse_top_ok x ps o e :
  top_inv e -> is_s64 x -> Forall elem_good ps -> Z.of_nat (length ps) <= param * 10 -> sketch_fits o -> exists o',
    let whole := top_msg x ps o in
    let body := concat (map pair_code ps) ++ sketch_code o in
    parse_top ops whole e = Ok (x, Z.of_nat (length ps), o') /\ sketch_fits o' /\ (o' = None <-> o = None)
    /\ (forall i j, sketch_at o' i j = sketch_at o i j)
    /\ (dec ← Skip (dec_Init whole) INT; Skip dec INT) = Some (MkDec whole body) /\ bytes_ok (sketch_code o).
Proof.
  intros (P1 & P2 & P3 & Hth & Hmax & _) Hx Hps Hlen Ho'. pose proof (sketch_code_ok o Ho') as Hsc.
  set (whole := top_msg x ps o). set (body := concat (map pair_code ps) ++ sketch_code o).
  set (n := Z.of_nat (length ps)) in *. assert (is_s64 n) as Hn by (unfold is_s64, n; lia).
  assert (bytes_ok body) as Hbody by (apply Forall_app; split; [by apply pair_code_ok|done]).
  assert (bytes_ok (enc_prim (PInt n) ++ body)) as Htail by (apply Forall_app; split; [by apply (enc_prim_ok (PInt n))|done]).
  assert (whole = enc_prim (PInt x) ++ enc_prim (PInt n) ++ body) as Ew by done.
  assert (dec_Init whole = MkDec whole (enc_prim (PInt x) ++ enc_prim (PInt n) ++ body)) as Ei by (unfold dec_Init; by rewrite Ew at 2).
  assert ((dec ← Skip (dec_Init whole) INT; Skip dec INT) = Some (MkDec whole body)) as Eskip.
  { rewrite Ei. pose proof (Skip_enc whole (PInt x) _ Hx Htail) as E. cbn [prim_kind] in E. rewrite E. cbn [mbind option_bind].
    exact (Skip_enc whole (PInt n) body Hn Hbody). }
  unfold parse_top. rewrite Ei, GetInt_enc by done. cbn [of_opt mbind res_bind]. rewrite GetInt_enc by done. cbn [of_opt mbind res_bind].
  rewrite (proj2 (Z.ltb_ge _ _)) by lia.
  assert (skip_n (skip_weighted ops) (Z.to_nat n) (MkDec whole body) = Some (MkDec whole (sketch_code o))) as ->.
  { unfold n, body. rewrite Nat2Z.id, <- (length_map pair_code ps). apply skip_n_concat; [|done].
    apply Forall_map. eapply Forall_impl; [exact Hps|]. apply pair_skippable. }
  cbn [of_opt mbind res_bind]. pose proof sk0_ints as [B1 B2].
  destruct o as [sk|]; cbn [sketch_code sketch_fits] in *.
  - destruct Ho' as [Hwf Hd]. pose proof (weights_code_ok ops ks Ho (weights_ sk) ltac:(apply Hwf)) as Hwc.
    assert (bytes_ok (enc_prim (PInt (nTabs_ sk0)) ++ weights_code ops ks (weights_ sk))) as Hb2
      by (apply Forall_app; split; [apply (enc_prim_ok (PInt _)); unfold prim_ok, is_s64; lia|done]).
    rewrite GetInt_enc by (done || (unfold is_s64; lia) || (apply (enc_prim_ok (PInt 0)); unfold prim_ok, is_s64; lia)). cbn [of_opt mbind res_bind].
    rewrite GetInt_enc by (done || (unfold is_s64; lia) || (apply (enc_prim_ok (PInt 0)); unfold prim_ok, is_s64; lia)). cbn [of_opt mbind res_bind].
    rewrite P2, P3, !Z.eqb_refl, (proj2 (Z.eqb_neq _ _)) by lia. cbn [negb orb].
    destruct sk0_ok as (_ & Hwf0 & _ & E3 & E4). rewrite <- E3, <- E4 in Hsk0. rewrite Hsk0. cbn [mbind res_bind].
    destruct (sketch_codec ops ks Ho sk sk0 enc_new whole [] (cell_at ops ks (weights_ sk)) Hwf Hwf0) as [_ (sk' & Ed & Wsk & Dsk & Csk)];
      [destruct Hd as (D1 & D2 & D3); unfold same_dims; by rewrite D1, D2, D3|by apply contents_self|constructor|].
    rewrite app_nil_r in Ed. rewrite Ed. cbn [mbind res_bind done_ p_ negb]. exists (Some sk').
    split; [done|]. split; [split; [done|by apply (same_dims_trans _ sk)]|]. split; [by split|]. split; [|split; [exact Eskip|exact Hsc]].
    intros i j. cbn. rewrite Csk. symmetry. by apply contents_self.
  - rewrite GetInt_enc by (done || (unfold is_s64; lia) || (apply (enc_prim_ok (PInt 0)); unfold prim_ok, is_s64; lia)). cbn [of_opt mbind res_bind].
    pose proof (GetInt_enc whole 0 [] ltac:(unfold is_s64; lia) (Forall_nil_2 _)) as E. rewrite app_nil_r in E. rewrite E.
    cbn [of_opt mbind res_bind Z.eqb negb done_ p_]. by exists None.
Qed.

(** The candidates adjusted from the new sketch, if there is one. *)
Lemma adjust_ok l f e o :
  tracks l f e -> sketch_fits o -> exists o' e' w,
    match o with
    | Some sk => '(sk, t, w) ← adjust_loop MD5Digest ops (length (th_heap (tops_ e))) 0 sk (tops_ e) VNil; Ok (Some sk, set_tops t e, w)
    | None => Ok (None, e, VNil)
    end = Ok (o', e', w)
    /\ cell w /\ sketch_fits o' /\ (o' = None <-> o = None) /\ (o = None -> e' = e)
    /\ tracks l (fun i j => f i j + sketch_at o i j - sketch_at o' i j) e'.
Proof.
  intros Htr Hf. pose proof Htr as (Hinv & Hg & Ht & Hc & Hk & Hsk & Hne). destruct o as [sk|].
  - destruct Hf as [Wsk Dsk]. pose proof Hinv as (P1 & P2 & P3 & Hth & Hmax & Hske).
    destruct (adjust_loop_ok (length (th_heap (tops_ e))) 0 sk (tops_ e) VNil Hth Wsk Dsk (cell_VNil ops ks)) as
      (sk' & t & w & -> & I1 & I2 & I3 & I4 & I5 & I6 & I7 & I8); [lia|]. cbn [mbind res_bind].
    exists (Some sk'), (set_tops t e), w. split; [done|]. split; [done|]. split; [done|]. split; [done|]. split; [done|].
    split; [|split; [done|split; [done|]]].
    + split; [done|]. split; [done|]. split; [done|]. split; [done|]. split; [by cbn; rewrite I2|done].
    + cbn [tops_ set_tops sketch_]. rewrite I3, I4. split; [|done]. intros i j. rewrite <- Hc. unfold content.
      cbn [tops_ set_tops sketch_]. specialize (I8 i j).
      transitivity (sketch_at (sketch_ e) i j + (sketch_at (Some sk') i j + spread (pairs t) i j) - sketch_at (Some sk') i j);
        [apply eqm_eq; lia|]. rewrite I8. apply eqm_eq. lia.
  - exists None, e, VNil. split; [done|]. split; [apply cell_VNil|]. split; [done|]. split; [done|]. split; [done|].
    apply (tracks_ext l f); [done|]. intros i j. apply eqm_eq. cbn. lia.
Qed.

(** The two sketches combined, if there is one in the message. *)
Lemma combine_ok e o : top_inv e -> sketch_fits o -> exists e',
    match o, sketch_ e with
    | None, _ => Ok e
    | Some sk, None => Ok (set_sketch (Some sk) e)
    | Some sk, Some old => old ← AddSketch ops old sk; Ok (set_sketch (Some old) e)
    end = Ok e'
    /\ top_inv e' /\ tops_ e' = tops_ e /\ totElems_ e' = totElems_ e /\ (sketch_ e' = None <-> o = None /\ sketch_ e = None)
    /\ forall i j, content e' i j =64 content e i j + sketch_at o i j.
Proof.
  intros Hinv Hf. pose proof Hinv as (P1 & P2 & P3 & Hth & Hmax & Hske).
  destruct o as [sk|]; [destruct Hf as [Wsk Dsk]; destruct (sketch_ e) as [old|] eqn:Eo|].
  - destruct Hske as (Wold & Dold).
    destruct (AddSketch_ok ops ks Ho old sk (cell_at ops ks (weights_ old)) (cell_at ops ks (weights_ sk)) Wold Wsk) as (sk' & -> & W' & D' & C');
      [|by apply contents_self|by apply contents_self|].
    { destruct Dold as (A1 & A2 & A3), Dsk as (B1 & B2 & B3). unfold same_dims. by rewrite A1, A2, A3. }
    eexists. split; [done|]. split; [|split; [done|split; [done|split; [cbn; split; [done|by intros []]|]]]].
    + repeat (split; [done|]). by apply (same_dims_trans _ old).
    + intros i j. unfold content. cbn [sketch_ tops_ set_sketch sketch_at]. rewrite Eo. cbn [sketch_at].
      rewrite C', eqm_s64. apply eqm_eq. lia.
  - eexists. split; [done|]. split; [|split; [done|split; [done|split; [cbn; split; [done|by intros []]|]]]].
    + by repeat (split; [done|]).
    + intros i j. unfold content. cbn [sketch_ tops_ set_sketch sketch_at]. rewrite Eo. apply eqm_eq. cbn. lia.
  - exists e. split; [by destruct (sketch_ e)|]. split; [done|]. split; [done|]. split; [done|]. split; [tauto|].
    intros i j. apply eqm_eq. cbn. lia.
Qed.

Lemma merge_ok l l' e s : top_fits (l ++ l') -> top_holds l e -> top_reports l' s -> exists e',
  top_Merge MD5Digest bucket_count ops s e = Ok (MergeOk, e') /\ top_holds (l ++ l') e'.
Proof.
  intros [Hfit Hlen] Hh [[-> ->]|(ps & o & -> & Hps0 & Hps & Hlps & Hfo & Hcon & Hkps & Hexo & Hso)].
  { exists e. by rewrite app_nil_r. }
  rewrite length_app in Hlen. destruct Hh as [Htr Hex]. set (x := Z.of_nat (length l') - Z.of_nat (length ps)).
  destruct (parse_top_ok x ps o e) as (o1 & Eparse & Hf1 & Ho1 & Hs1 & Eskip & Hsc);
    [apply Htr|unfold is_s64; lia|done|done|done|].
  destruct (adjust_ok l _ e o1 Htr Hf1) as (o2 & e1 & w & Eadj & Cw & Hf2 & Ho2 & Hsame & Htr1).
  destruct (candidates_loop_ok ps l _ e1 w (top_msg x ps o) (sketch_code o) Hps Htr1 Cw Hsc) as
    (ps' & w' & e2 & Ecand & Hsp & Cw' & Htr2 & Hex2).
  destruct (same_pairs_spec ps ps' Hsp) as (S1 & S2 & S3 & S4). destruct Htr2 as (Hinv2 & Hg2 & Ht2 & Hc2 & Hk2 & Hsk2 & Hne2).
  assert (th_nElems (tops_ e2) <> 0) as Hne.
  { intros H. apply Hne2, app_eq_nil in H as [_ ->]. cbn in S1. by destruct ps. }
  destruct (combine_ok e2 o2 Hinv2 Hf2) as (e3 & Ecomb & Hinv3 & Et3 & En3 & Hs3 & Hc3).
  destruct (Clear_cell w' Cw') as [z Ez].
  exists (set_tot (s64 (totElems_ e3 + x)) e3). split.
  { unfold top_Merge. destruct (enc_int_ne x (enc_prim (PInt (Z.of_nat (length ps))) ++ concat (map pair_code ps) ++ sketch_code o)) as (b & r & Eb).
    change (enc_prim (PInt x) ++ _) with (top_msg x ps o) in Eb. rewrite Eb, <- Eb.
    cbn zeta in Eparse. rewrite Eparse, Eadj. cbn [mbind res_bind]. rewrite Eskip, Nat2Z.id, Ecand. cbn [mbind res_bind].
    rewrite Ecomb. cbn [mbind res_bind]. rewrite Ez. done. }
  assert (keys (l ++ ps') ⊆ keys (l ++ l')) as Hsub by (rewrite !keys_app, S2; by apply union_mono_l).
  assert (size (keys (l ++ ps')) <= size (keys (l ++ l')) /\ size (keys l') <= size (keys (l ++ l')))%nat as [Z1 Z2].
  { split; apply subseteq_size; [done|]. rewrite keys_app. apply union_subseteq_r. }
  split; [split; [|split; [done|split; [|split; [|split; [|split]]]]]|]; cbn [totElems_ set_tot tops_ sketch_].
  - by destruct Hinv3 as (? & ? & ? & ? & ? & ?).
  - rewrite En3, Ht2, !length_app, S1. autorewrite with szl. f_equal. unfold x. lia.
  - intros i j. change (content e3 i j =64 spread (l ++ l') i j). rewrite Hc3, Hc2, spread_app, <- (Hcon i j), <- Hs1.
    apply eqm_eq. lia.
  - rewrite Et3. by transitivity (keys (l ++ ps')).
  - intros H. destruct (sketch_ e2) eqn:E2; [specialize (Hsk2 ltac:(done)); lia|].
    assert (o <> None) as Hon by tauto. specialize (Hso Hon). lia.
  - rewrite Et3. done.
  - intros H. apply Hs3 in H as [-> H2]. assert (o = None) as -> by tauto. assert (o1 = None) as -> by tauto.
    rewrite Et3. rewrite (Hsame eq_refl) in Hex2. destruct (Hex2 Hex H2) as [K1 K2], (Hexo eq_refl) as [K3 K4].
    split; [by rewrite K1, !keys_app, S2, K3|]. intros v j. by rewrite K2, !true_app, S4, K4.
Qed.

(** *** The contract *)

#[local] Abbreviation feed := (fun p => top_AddWeightedElem MD5Digest bucket_count ops (fst p) (snd p)).

Lemma top_new_ok : top_holds [] (top_new param).
Proof.
  unfold top_new. destruct sk0_ok as (_ & _ & _ & E1 & E2).
  destruct (Dims (param * 100)) as [n b]. cbn [fst snd] in *.
  split; [|intros _; split; [done|by intros v j]].
  split; [split; [done|split; [by symmetry|split; [by symmetry|split; [|done]]]]; by apply th_inv_new; lia|].
  split; [constructor|]. split; [done|]. split; [by intros i j|]. split; [done|]. done.
Qed.

(** *** Any history *)

Lemma top_new_inv : top_inv (top_new param).
Proof. apply top_new_ok. Qed.

Lemma clear_any e : top_inv e -> exists e', top_Clear ops e = Ok e' /\ top_inv e'.
Proof.
  intros (P1 & P2 & P3 & Hth & Hmax & Hske). unfold top_Clear.
  destruct (th_Clear_ok ops ks Ho less (tops_ e)) as (t & -> & Hth' & _ & Hm); [by apply (pairs_good ops ks less)|lia|].
  cbn [mbind res_bind]. eexists. split; [done|]. repeat (split; [done|]). by split; [cbn; congruence|].
Qed.

Lemma encode_tops_any t enc : Forall (fun p => good (snd p)) (pairs t) -> exists enc', encode_tops ops t enc = Ok enc'.
Proof.
  unfold encode_tops, pairs. generalize (th_heap t) as ids. intros ids. revert enc.
  induction ids as [|x ids IH]; intros enc Hg; cbn [foldl map]; [by eexists|].
  cbn [map] in Hg. apply Forall_cons in Hg as [Hw Hg]. cbn [pair_of snd] in Hw. cbn [mbind res_bind].
  rewrite (cell_encode ops ks Ho) by (by apply good_cell). by apply IH.
Qed.

(** The sorted candidates. *)
Lemma sorted_ok e : top_inv e -> let t := th_Sort less (tops_ e) in
  Forall (fun p => good (snd p)) (pairs t) /\ th_max t = param * 10 /\ length (pairs t) = length (th_heap (tops_ e)).
Proof.
  intros (P1 & P2 & P3 & Hth & Hmax & Hske) t. pose proof (th_Sort_pairs ops ks Ho less (tops_ e) Hth) as Hp. fold t in Hp.
  split; [rewrite Hp; by apply (pairs_good ops ks less)|]. split.
  - rewrite <- Hmax. apply (th_Sort_view ops ks Ho less (tops_ e) Hth).
  - rewrite (Permutation_length Hp). apply length_map.
Qed.

Lemma flush_any e : top_inv e -> exists s e', top_Flush ops e = Ok (s, e') /\ top_inv e'.
Proof.
  intros Hinv. pose proof Hinv as (P1 & P2 & P3 & Hth & Hmax & Hske). unfold top_Flush.
  destruct (th_nElems (tops_ e) =? 0); [by eexists _, _|]. destruct (sorted_ok e Hinv) as (Hg & Hm & _).
  set (t := th_Sort less (tops_ e)) in *. cbn [tops_ set_tops sketch_ sketchTabs_].
  destruct (encode_tops_any t (PutInt (PutInt enc_new (s64 (totElems_ e - th_nElems (tops_ e)))) (th_nElems (tops_ e))) Hg) as [enc ->].
  cbn [mbind res_bind]. rewrite sketch_encode_ok by done. cbn [mbind res_bind]. unfold top_Clear. cbn [tops_ set_tops]. fold t.
  destruct (th_Clear_ok ops ks Ho less t Hg) as (t' & -> & Hth' & _ & Hm'); [lia|]. cbn [mbind res_bind].
  eexists _, _. split; [done|]. repeat (split; [done|]). by split; [cbn; congruence|].
Qed.

Lemma PutFloat_any enc x : exists enc', PutFloat enc x = Ok enc'.
Proof.
  unfold PutFloat. assert (length (KeyFromDouble x) = 8%nat) as ->; [|by eexists].
  unfold KeyFromDouble. rewrite KeyFromUint64_be by apply u64_range. apply length_be_bytes.
Qed.

Lemma display_any e : top_inv e -> exists rows e', top_FlushForDisplay ops e = Ok (rows, e') /\ top_inv e'
  /\ (length rows <= Z.to_nat (Z.max 1 param))%nat.
Proof.
  intros Hinv. pose proof Hinv as (P1 & P2 & P3 & Hth & Hmax & Hske). unfold top_FlushForDisplay.
  destruct (totElems_ e =? 0); [eexists _, _; split; [done|]; split; [done|cbn; lia]|].
  destruct (sorted_ok e Hinv) as (Hg & Hm & _). set (t := th_Sort less (tops_ e)) in *.
  cbn [tops_ set_tops sketch_].
  assert (exists err o, (match sketch_ e with
      | Some sk => '(err, sk) ← StdDeviation ops sk; Ok (err, set_sketch (Some sk) (set_tops t e))
      | None => Ok (replicate (nflats_ ops) 0, set_tops t e) end) = Ok (err, set_sketch o (set_tops t e)) /\ sketch_fits o) as (err & o & -> & Ho').
  { destruct (sketch_ e) as [sk|] eqn:Eo; [|exists (replicate (nflats_ ops) 0), None; split; [by destruct e; cbn in *; subst|done]].
    destruct Hske as [Wsk Dsk]. destruct (StdDeviation_ok ops ks Ho Hint sk Wsk) as (devs & sk' & -> & W' & D' & _). cbn [mbind res_bind].
    exists devs, (Some sk'). split; [done|]. split; [done|by apply (same_dims_trans _ sk)]. }
  cbn [mbind res_bind].
  assert (forall enc, exists enc', foldl (fun r x => enc ← r; PutFloat enc x) (Ok enc) err = Ok enc') as Herr.
  { clear. induction err as [|x err IH]; intros enc; [by eexists|]. cbn [foldl mbind res_bind].
    destruct (PutFloat_any enc x) as [enc' ->]. apply IH. }
  destruct (Herr enc_new) as [encerr ->]. cbn [mbind res_bind tops_ set_tops set_sketch].
  set (nv := if th_nElems t <? _ then _ else _).
  assert (forall ids, Forall (fun p => good (snd p)) (map (pair_of (th_store t)) ids) -> exists rows,
    mapM (fun x => enc ← Encode ops (wt_of (th_store t) x) enc_new;
        Ok (te_value (th_store t !!! x) ++ data_ enc ++ data_ encerr)) ids = Ok rows /\ length rows = length ids) as Hrows.
  { intros ids. induction ids as [|x ids IH]; intros Hids; [by exists []|]. cbn [map] in Hids.
    apply Forall_cons in Hids as [Hx Hids]. cbn [pair_of snd] in Hx. destruct (IH Hids) as (rows & E & L).
    cbn. rewrite (cell_encode ops ks Ho) by (by apply good_cell). cbn [mbind res_bind]. rewrite E.
    eexists. split; [done|]. cbn. by rewrite L. }
  destruct (Hrows (take (Z.to_nat nv) (th_heap t))) as (rows & -> & L).
  { rewrite <- List.firstn_map. by apply Forall_take. }
  cbn [mbind res_bind]. eexists _, _. split; [done|].
  destruct (th_ReHeap_Sort_inv ops ks Ho less (tops_ e) Hth) as (Hth' & _ & Hm').
  split; [repeat (split; [done|]); split; [by cbn; fold t in Hm'; rewrite Hm', Hmax|done]|].
  rewrite L, length_take. unfold nv. cbn [top_param set_tops set_sketch]. destruct (Z.ltb_spec (th_nElems t) (top_param e)); lia.
Qed.

(** *** Merging arbitrary bytes *)

Lemma skip_weighted_any s q d : bytes_ok q -> skip_weighted ops (MkDec s q) = Some d -> exists v q1,
  GetBytes (MkDec s q) = Some (v, MkDec s q1) /\ bytes_ok v
  /\ forall w, cell w -> exists q2 u, Decode ops (MkDec s q1) w = Ok (MkDec s q2, u) /\ good u /\ d = MkDec s q2 /\ bytes_ok q2.
Proof.
  intros Hq. unfold skip_weighted. rewrite Skip_agrees; [|done|by apply (bool_decide_unpack _)].
  destruct (get_prim BYTES (MkDec s q)) as [[p d1]|] eqn:E; [|done]. cbn [fmap option_fmap option_map snd mbind option_bind]. intros Hd.
  destruct (get_prim_ok BYTES s q p d1 Hq E) as (Hp & _ & q1 & -> & Hs & _). cbn [get_prim] in E.
  apply bind_pair_inv in E as (v & E & ->). exists v, q1. split; [done|]. split; [done|]. intros w Cw.
  pose proof (suffix_bytes_ok _ _ Hs Hq) as Hq1. pose proof (num_decode_any ops ks Ho s q1 w Hq1 Cw) as H. rewrite Hd in H.
  destruct H as (q2 & u & -> & Hs2 & Gu & ->). exists q2, u. split; [done|]. split; [done|]. split; [done|].
  by apply (suffix_bytes_ok q1).
Qed.

Lemma candidates_any n s q w e d :
  top_inv e -> cell w -> bytes_ok q -> skip_n (skip_weighted ops) n (MkDec s q) = Some d -> exists w' e',
    candidates_loop MD5Digest bucket_count ops n (MkDec s q) w e = Ok (MergeOk, w', e') /\ cell w' /\ top_inv e'.
Proof.
  revert q w e. induction n as [|n IH]; intros q w e Hinv Cw Hq Hskip; [by exists w, e|]. cbn [skip_n candidates_loop] in *.
  destruct (skip_weighted ops (MkDec s q)) as [d1|] eqn:E; [|done]. cbn [mbind option_bind] in Hskip.
  destruct (skip_weighted_any s q d1 Hq E) as (v & q1 & -> & Hv & Hdec).
  destruct (Hdec w Cw) as (q2 & u & -> & Gu & -> & Hq2).
  destruct (add_spec e v u Hinv) as (m & e1 & -> & (Hinv1 & _)); [done|]. cbn [mbind res_bind].
  apply IH; [done|by apply good_cell|done|done].
Qed.

Lemma of_opt_cases {A} (x : option A) : of_opt x = Fail \/ exists a, x = Some a /\ of_opt x = Ok a.
Proof. destruct x as [a|]; [right; by exists a|by left]. Qed.

(** An integer read, or the failure of the whole. *)
Lemma GetInt_any s q z d : bytes_ok q -> GetInt (MkDec s q) = Some (z, d) ->
  exists q', d = MkDec s q' /\ bytes_ok q' /\ Skip (MkDec s q) INT = Some d.
Proof.
  intros Hq E. assert (get_prim INT (MkDec s q) = Some (PInt z, d)) as Ep by (cbn [get_prim]; by rewrite E).
  destruct (get_prim_ok INT s q _ d Hq Ep) as (_ & _ & q' & -> & Hs & _). exists q'. split; [done|].
  split; [by apply (suffix_bytes_ok q)|]. rewrite Skip_agrees; [by rewrite Ep|done|by apply (bool_decide_unpack _)].
Qed.

Lemma skip_n_any n s q d : bytes_ok q -> skip_n (skip_weighted ops) n (MkDec s q) = Some d -> exists q', d = MkDec s q' /\ bytes_ok q'.
Proof.
  revert q. induction n as [|n IH]; intros q Hq H; [exists q; by injection H as <-|]. cbn [skip_n] in H.
  destruct (skip_weighted ops (MkDec s q)) as [d1|] eqn:E; [|done]. cbn [mbind option_bind] in H.
  destruct (skip_weighted_any s q d1 Hq E) as (v & q1 & _ & _ & Hdec).
  destruct (Hdec VNil (cell_VNil ops ks)) as (q2 & u & _ & _ & -> & Hq2). by apply (IH q2).
Qed.

Lemma parse_any val e : top_inv e -> bytes_ok val ->
  parse_top ops val e = Fail
  \/ exists x n o q d, parse_top ops val e = Ok (x, n, o) /\ sketch_fits o
       /\ (dec ← Skip (dec_Init val) INT; Skip dec INT) = Some (MkDec val q) /\ bytes_ok q
       /\ skip_n (skip_weighted ops) (Z.to_nat n) (MkDec val q) = Some d.
Proof.
  intros (P1 & P2 & P3 & Hth & Hmax & _) Hval. unfold parse_top, dec_Init.
  destruct (of_opt_cases (GetInt (MkDec val val))) as [->|([x d1] & E1 & ->)]; [by left|]. cbn [mbind res_bind].
  destruct (GetInt_any val val x d1 Hval E1) as (q1 & -> & Hq1 & S1).
  destruct (of_opt_cases (GetInt (MkDec val q1))) as [->|([n d2] & E2 & ->)]; [by left|]. cbn [mbind res_bind].
  destruct (GetInt_any val q1 n d2 Hq1 E2) as (q2 & -> & Hq2 & S2).
  destruct (_ <? n); [by left|].
  destruct (of_opt_cases (skip_n (skip_weighted ops) (Z.to_nat n) (MkDec val q2))) as [->|(d3 & E3 & ->)]; [by left|]. cbn [mbind res_bind].
  destruct (skip_n_any _ val q2 d3 Hq2 E3) as (q3 & -> & Hq3).
  destruct (of_opt_cases (GetInt (MkDec val q3))) as [->|([ts d4] & E4 & ->)]; [by left|]. cbn [mbind res_bind].
  destruct (GetInt_any val q3 ts d4 Hq3 E4) as (q4 & -> & Hq4 & _).
  destruct (of_opt_cases (GetInt (MkDec val q4))) as [->|([nt d5] & E5 & ->)]; [by left|]. cbn [mbind res_bind].
  destruct (GetInt_any val q4 nt d5 Hq4 E5) as (q5 & -> & Hq5 & _).
  assert (forall o d6, sketch_fits o -> (if negb (done_ d6) then Fail else Ok (x, n, o)) = Fail \/ exists x' n' o' q d,
     (if negb (done_ d6) then Fail else Ok (x, n, o)) = Ok (x', n', o') /\ sketch_fits o'
     /\ (dec ← Skip (MkDec val val) INT; Skip dec INT) = Some (MkDec val q) /\ bytes_ok q
     /\ skip_n (skip_weighted ops) (Z.to_nat n') (MkDec val q) = Some d) as Hend.
  { intros o d6 Hf. destruct (negb _); [by left|right]. exists x, n, o, q2, (MkDec val q3). split; [done|]. split; [done|].
    rewrite S1. cbn [mbind option_bind]. done. }
  destruct (negb (nt =? 0)).
  - destruct (_ || _) eqn:Ed; [by left|]. apply orb_false_iff in Ed as [D1%negb_false_iff%Z.eqb_eq D2%negb_false_iff%Z.eqb_eq].
    destruct sk0_ok as (_ & Hwf0 & _ & E6 & E7). rewrite <- E6, <- E7 in Hsk0. rewrite D1, D2, P2, P3, Hsk0. cbn [mbind res_bind].
    destruct (sketch_Decode_any ops ks Ho sk0 val q5 Hwf0 Hq5) as [->|(q6 & sk' & -> & _ & Wsk & Dsk)]; [by left|]. cbn [mbind res_bind].
    by apply Hend.
  - destruct (negb _); [by left|]. cbn [mbind res_bind]. by apply Hend.
Qed.

Lemma adjust_any e o : top_inv e -> sketch_fits o -> exists o' e' w,
  match o with
  | Some sk => '(sk, t, w) ← adjust_loop MD5Digest ops (length (th_heap (tops_ e))) 0 sk (tops_ e) VNil; Ok (Some sk, set_tops t e, w)
  | None => Ok (None, e, VNil)
  end = Ok (o', e', w) /\ cell w /\ sketch_fits o' /\ top_inv e'.
Proof.
  intros Hinv Hf. destruct o as [sk|]; [|exists None, e, VNil; split; [done|]; split; [apply cell_VNil|done]].
  destruct Hf as [Wsk Dsk]. pose proof Hinv as (P1 & P2 & P3 & Hth & Hmax & Hske).
  destruct (adjust_loop_ok (length (th_heap (tops_ e))) 0 sk (tops_ e) VNil Hth Wsk Dsk (cell_VNil ops ks)) as
    (sk' & t & w & -> & I1 & I2 & I3 & I4 & I5 & I6 & I7 & I8); [lia|]. cbn [mbind res_bind].
  exists (Some sk'), (set_tops t e), w. split; [done|]. split; [done|]. split; [done|].
  repeat (split; [done|]). by split; [cbn; rewrite I2|].
Qed.

Lemma merge_any val e : top_inv e -> bytes_ok val -> exists st e',
  top_Merge MD5Digest bucket_count ops val e = Ok (st, e') /\ top_inv e' /\ (st = MergeError -> e' = e).
Proof.
  intros Hinv Hval. destruct val as [|b val]; [by exists MergeOk, e|]. set (whole := b :: val) in *.
  unfold top_Merge. unfold whole at 1. destruct (parse_any whole e Hinv Hval) as [->|(x & n & o & q & d & -> & Hf & -> & Hq & Hskip)].
  { by exists MergeError, e. }
  destruct (adjust_any e o Hinv Hf) as (o' & e1 & w & -> & Cw & Hf' & Hinv1). cbn [mbind res_bind].
  destruct (candidates_any _ whole q w e1 d Hinv1 Cw Hq Hskip) as (w' & e2 & -> & Cw' & Hinv2). cbn [mbind res_bind].
  destruct (combine_ok e2 o' Hinv2 Hf') as (e3 & -> & Hinv3 & _). cbn [mbind res_bind].
  destruct (Clear_cell w' Cw') as [z ->]. cbn [mbind res_bind]. eexists MergeOk, _. split; [done|]. split; [|done].
  by destruct Hinv3 as (? & ? & ? & ? & ? & ?).
Qed.

(** What the program does with an entry. *)
Inductive top_step : SzlTopEntry -> SzlTopEntry -> Prop :=
| top_step_add s w m e e' : bytes_ok s -> good w ->
    top_AddWeightedElem MD5Digest bucket_count ops s w e = Ok (m, e') -> top_step e e'
| top_step_merge val st e e' : bytes_ok val ->
    top_Merge MD5Digest bucket_count ops val e = Ok (st, e') -> top_step e e'
| top_step_flush s e e' : top_Flush ops e = Ok (s, e') -> top_step e e'
| top_step_display rows e e' : top_FlushForDisplay ops e = Ok (rows, e') -> top_step e e'
| top_step_clear e e' : top_Clear ops e = Ok e' -> top_step e e'.

Lemma top_step_inv e e' : top_step e e' -> top_inv e -> top_inv e'.
Proof.
  destruct 1 as [s w m e e' Hs Hw E|val st e e' Hv E|s e e' E|rows e e' E|e e' E]; intros Hinv.
  - destruct (add_spec e s w Hinv) as (? & ? & E' & H & _); [done|]. rewrite E in E'. by injection E' as <- <-.
  - destruct (merge_any val e Hinv Hv) as (? & ? & E' & H & _). rewrite E in E'. by injection E' as <- <-.
  - destruct (flush_any e Hinv) as (? & ? & E' & H). rewrite E in E'. by injection E' as <- <-.
  - destruct (display_any e Hinv) as (? & ? & E' & H & _). rewrite E in E'. by injection E' as <- <-.
  - destruct (clear_any e Hinv) as (? & E' & H). rewrite E in E'. by injection E' as <-.
Qed.

Lemma top_steps_inv e e' : rtc top_step e e' -> top_inv e -> top_inv e'.
Proof. induction 1 as [|e e1 e' H _ IH]; [done|]. intros Hinv. by apply IH, (top_step_inv e). Qed.

(** *** The contract *)

Definition top_feed (p : bytes * SzlValue) : SzlTopEntry -> res (Z * SzlTopEntry) :=
  top_AddWeightedElem MD5Digest bucket_count ops (fst p) (snd p).

#[local] Instance top_methods_inst : SzlTabEntry SzlTopEntry := top_methods MD5Digest bucket_count ops.

Lemma top_contract : MergeContract top_feed (top_new param) elem_good top_fits top_holds top_reports.
Proof.
  split.
  - intros l l' [Hg Hl]. apply Forall_app in Hg as [H1 H2]. rewrite length_app in Hl. split; (split; [done|lia]).
  - apply top_new_ok.
  - intros l e [s w] _ [Htr Hex] Hp. destruct (add_spec e s w ltac:(apply Htr) Hp) as (m & e' & E & Ha).
    destruct (adds_tracks l _ e s w e' Htr Hp Ha) as [Htr' Hex']. exists m, e'. split; [done|]. split; [|by apply Hex'].
    apply (tracks_ext _ _ _ _ Htr'). intros i j. rewrite spread_app. apply eqm_eq. cbn. lia.
  - intros l e. apply flush_ok.
  - intros l l' e s. apply merge_ok.
Qed.

(** *** The display of an exact table *)

(** A row: the string, the weight and the deviations, all zero. *)
Definition top_row (p : bytes * SzlValue) : bytes :=
  fst p ++ num_code ks (num_den ops ks (snd p)) ++ concat (replicate (length ks) (enc_prim (PFloat 0))).

Lemma put_zeros n enc : foldl (fun r x => enc ← r; PutFloat enc x) (Ok enc) (replicate n 0)
  = Ok (AppendEncoding enc (concat (replicate n (enc_prim (PFloat 0))))).
Proof.
  revert enc. induction n as [|n IH]; intros enc; cbn [replicate foldl concat]; [by rewrite AppendEncoding_nil|].
  assert (PutFloat enc 0 = Ok (AppendEncoding enc (enc_prim (PFloat 0)))) as E
    by (apply (put_prim_spec enc (PFloat 0)); unfold prim_ok, is_u64; lia).
  cbn [mbind res_bind]. rewrite E, IH. by rewrite AppendEncoding_app.
Qed.

Lemma display_exact e : top_inv e -> sketch_ e = None -> totElems_ e <> 0 -> exists e',
  let ps := pairs (th_Sort less (tops_ e)) in
  top_FlushForDisplay ops e = Ok (map top_row (take (Z.to_nat param) ps), e')
  /\ ps ≡ₚ pairs (tops_ e) /\ StronglySorted (fun p q => less (snd p) (snd q) = false) ps.
Proof.
  intros Hinv Hs Ht. pose proof Hinv as (P1 & P2 & P3 & Hth & Hmax & Hske). unfold top_FlushForDisplay.
  rewrite (proj2 (Z.eqb_neq _ _) Ht). destruct (sorted_ok e Hinv) as (Hg & _ & Hlp).
  destruct (th_Sort_view ops ks Ho less (tops_ e) Hth) as ((Hlen & Hsame) & _ & _ & _ & Hsort).
  pose proof (th_Sort_pairs ops ks Ho less (tops_ e) Hth) as Hp.
  cbn [tops_ set_tops sketch_]. rewrite Hs. cbn [mbind res_bind].
  set (t := th_Sort less (tops_ e)) in *. rewrite (nflats_ks ops ks Ho Hint), put_zeros.
  cbn [mbind res_bind tops_ set_tops top_param]. fold t. rewrite P1.
  assert (exists encerr, encerr = AppendEncoding enc_new (concat (replicate (length ks) (enc_prim (PFloat 0))))
    /\ data_ encerr = concat (replicate (length ks) (enc_prim (PFloat 0)))) as (encerr & <- & Eerr) by by eexists.
  assert (forall ids, Forall (fun p => good (snd p)) (map (pair_of (th_store t)) ids) ->
    mapM (fun x => enc ← Encode ops (wt_of (th_store t) x) enc_new;
        Ok (te_value (th_store t !!! x) ++ data_ enc ++ data_ encerr)) ids
    = Ok (map top_row (map (pair_of (th_store t)) ids))) as Hrows.
  { intros ids. induction ids as [|x ids IH]; intros Hids; [done|]. cbn [map] in Hids.
    apply Forall_cons in Hids as [Hx Hids]. cbn [pair_of snd] in Hx. cbn.
    rewrite (cell_encode ops ks Ho) by (by apply good_cell). cbn [mbind res_bind]. rewrite (IH Hids), Eerr. done. }
  rewrite Hrows by (rewrite <- List.firstn_map; by apply Forall_take). cbn [mbind res_bind].
  eexists. split; [|split; [done|]].
  - rewrite <- (List.firstn_map (pair_of (th_store t))). change (map (pair_of (th_store t)) (th_heap t)) with (pairs t).
    assert (length (pairs t) = length (th_heap t)) as L by apply length_map. unfold th_nElems.
    destruct (Z.ltb_spec (Z.of_nat (length (th_heap t))) param) as [Hlt|Hge]; [|done]. by rewrite !take_ge by lia.
  - revert Hsort. unfold pairs, view. generalize (th_heap t) as ids. intros ids Hsort.
    induction ids as [|x ids IH]; [constructor|]. cbn [map] in *. apply StronglySorted_inv in Hsort as [H1 H2].
    constructor; [by apply IH|]. rewrite Forall_map in H2. apply Forall_map. eapply Forall_impl; [exact H2|].
    intros y Hy. cbn. unfold desc in Hy. cbn in Hy. unfold wt_of in *. destruct (Hsame x) as [_ Ex], (Hsame y) as [_ Ey].
    rewrite Ex, Ey in *. done.
Qed.

(** *** Reading an exact flush *)

Lemma take_tops_ok n ps s rest errval :
  Forall elem_good ps -> bytes_ok rest ->
  take_tops ops (Nat.min n (length ps)) (MkDec s (concat (map pair_code ps) ++ rest)) errval
  = Ok (map (fun p => fst p ++ num_code ks (num_den ops ks (snd p)) ++ errval) (take n ps)).
Proof.
  intros Hps Hr. revert n. induction Hps as [|[v w] ps [Hv Hw] Hps IH]; intros [|n]; [done|done|done|].
  cbn [length Nat.min take_tops take map concat fst snd] in *. unfold pair_code at 1. cbn [fst snd]. rewrite <- !app_assoc.
  destruct (cell_codec ops ks Ho w (good_cell ops ks w Hw)) as (Hb & Hskip & _).
  assert (bytes_ok (concat (map pair_code ps) ++ rest)) as Hr1 by (apply Forall_app; split; [by apply pair_code_ok|done]).
  rewrite GetBytes_enc by (done || by apply Forall_app). cbn [check_some mbind res_bind].
  rewrite Hskip by done. cbn [check_some mbind res_bind]. rewrite IH. cbn [mbind res_bind]. by rewrite between_app.
Qed.

Lemma parse_results_exact x ps :
  is_s64 x -> is_s64 (x + Z.of_nat (length ps)) -> Forall elem_good ps -> Z.of_nat (length ps) <= param * 10 ->
  top_ParseFromString ops param (top_msg x ps None)
  = Ok (true, MkTopResults (map top_row (take (Z.to_nat param) ps)) (x + Z.of_nat (length ps))).
Proof.
  intros Hx Hsum Hps Hlen. set (whole := top_msg x ps None). set (body := concat (map pair_code ps) ++ sketch_code None).
  set (n := Z.of_nat (length ps)) in *. assert (is_s64 n) as Hn by (unfold is_s64, n; lia).
  pose proof (sketch_code_ok None I) as Hsc.
  assert (bytes_ok body) as Hbody by (apply Forall_app; split; [by apply pair_code_ok|done]).
  assert (bytes_ok (enc_prim (PInt n) ++ body)) as Htail by (apply Forall_app; split; [by apply (enc_prim_ok (PInt n))|done]).
  assert (dec_Init whole = MkDec whole (enc_prim (PInt x) ++ enc_prim (PInt n) ++ body)) as Ei by done.
  assert (Restart (MkDec whole []) = MkDec whole (enc_prim (PInt x) ++ enc_prim (PInt n) ++ body)) as Er by done.
  destruct (enc_int_ne x (enc_prim (PInt n) ++ body)) as (b & r & Eb).
  unfold top_ParseFromString. change (enc_prim (PInt x) ++ _) with whole in Eb. rewrite Eb, <- Eb.
  unfold parse_top_results. rewrite Ei, GetInt_enc by done. cbn [of_opt mbind res_bind]. rewrite GetInt_enc by done. cbn [of_opt mbind res_bind].
  assert (skip_n (skip_weighted ops) (Z.to_nat n) (MkDec whole body) = Some (MkDec whole (sketch_code None))) as ->.
  { unfold n, body. rewrite Nat2Z.id, <- (length_map pair_code ps). apply skip_n_concat; [|done].
    apply Forall_map. eapply Forall_impl; [exact Hps|]. apply pair_skippable. }
  cbn [of_opt mbind res_bind sketch_code].
  rewrite GetInt_enc by ((unfold is_s64; lia) || (apply (enc_prim_ok (PInt 0)); unfold prim_ok, is_s64; lia)). cbn [of_opt mbind res_bind].
  pose proof (GetInt_enc whole 0 [] ltac:(unfold is_s64; lia) (Forall_nil_2 _)) as E. rewrite app_nil_r in E. rewrite E.
  cbn [of_opt mbind res_bind Z.eqb negb done_ p_]. rewrite (nflats_ks ops ks Ho Hint), put_zeros. cbn [mbind res_bind].
  rewrite Er. pose proof (Skip_enc whole (PInt x) _ Hx Htail) as E1. cbn [prim_kind] in E1. rewrite E1. cbn [check_some mbind res_bind].
  pose proof (Skip_enc whole (PInt n) body Hn Hbody) as E2. cbn [prim_kind] in E2. rewrite E2. cbn [check_some mbind res_bind].
  assert (Z.to_nat (if n <? param then s32 n else param) = Nat.min (Z.to_nat param) (length ps)) as ->.
  { destruct (Z.ltb_spec n param); [|lia]. assert (s32 n = n) as -> by (unfold s32; rewrite Z.mod_small; lia). lia. }
  unfold body. rewrite take_tops_ok by done. cbn [mbind res_bind]. by rewrite s64_id.
Qed.
End Proofs.

(** ** The table *)

Lemma sketch_exists param : 1 <= param <= 1000 ->
  exists sk0, sketch_new (fst (Dims (param * 100))) (snd (Dims (param * 100))) = Ok sk0.
Proof.
  intros Hp. destruct (Dims_spec (param * 100)) as (j & b & -> & Hj & Hb & _); [lia|]. cbn [fst snd].
  destruct (sketch_new_ok int_ops [INT] (15 + 2 * Z.of_nat j) b) as (sk & E & _); [..|by exists sk];
    unfold kMinTabs, kMaxTabs in *; lia.
Qed.

Lemma true_weight_unique ops ks ps v w j :
  NoDup (map fst ps) -> (v, w) ∈ ps -> true_weight ops ks ps v j = num_at ops ks w j.
Proof.
  induction ps as [|[v' w'] ps IH]; intros Hnd Hin; [by apply elem_of_nil in Hin|]. cbn [map fst] in Hnd.
  apply NoDup_cons in Hnd as [Hn Hnd]. rewrite true_cons. apply elem_of_cons in Hin as [[= <- <-]|Hin].
  - rewrite bool_decide_eq_true_2 by done. assert (true_weight ops ks ps v j = 0) as ->; [|lia].
    unfold true_weight. transitivity (sumZ (fun _ => 0) ps); [|clear; induction ps; [done|by rewrite sumZ_cons]].
    apply sumZ_ext, Forall_forall. intros [u x] Hu. case_bool_decide as E; [|done]. subst u. exfalso. apply Hn.
    exact (list_elem_of_fmap_2 fst _ _ Hu).
  - rewrite IH by done. case_bool_decide as E; [|lia]. subst v'. exfalso. apply Hn. exact (list_elem_of_fmap_2 fst _ _ Hin).
Qed.

(** The elements of a top table: byte strings with weights of the table's type,
    integers or tuples of integers. *)
Definition top_type (ops : SzlOps) (ks : list Kind) (param : Z) : Prop :=
  num_ops ops ks /\ Forall (eq INT) ks /\ 1 <= param <= 1000.

(** C7. Aggregation of a top table whose weights are integers or tuples of integers
    (not floats, whose sums depend on the order) over shards never fails and loses
    nothing: however the elements are divided and in whatever order they come, after
    adding, flushing and merging, the entry counts them all, keeps at most ten
    times as many candidates as it reports, all different, and its sketch plus
    what its candidates would add to it is, in every cell and modulo [2^64], the
    sketch of all the elements. *)
Theorem top_sharded MD5Digest bucket_count ops ks param sk0 shards all :
  top_type ops ks param -> sketch_new (fst (Dims (param * 100))) (snd (Dims (param * 100))) = Ok sk0 ->
  all ≡ₚ concat shards -> Forall (elem_good ops ks) all -> Z.of_nat (length all) < 2 ^ 63 ->
  exists e, @aggregate _ _ (top_methods MD5Digest bucket_count ops) (top_feed MD5Digest bucket_count ops) (top_new param) shards = Ok e
  /\ totElems_ e = Z.of_nat (length all)
  /\ th_nElems (tops_ e) <= param * 10 /\ NoDup (map fst (pairs (tops_ e)))
  /\ forall i j, content MD5Digest ops ks sk0 e i j =64 entered ops ks MD5Digest sk0 all i j.
Proof.
  intros (Ho & Hint & Hparam) Hsk0 Hp Hall Hlen. pose proof (Permutation_length Hp) as Hl. rewrite Hp in Hall.
  destruct (@aggregate_holds _ _ _ _ _ _ _ _ _ (top_contract MD5Digest bucket_count ops ks Ho Hint param Hparam sk0 Hsk0) shards)
    as (e & He & (((_ & _ & _ & Hth & Hmax & _) & _ & Ht & Hc & _) & _)).
  { split; [done|]. rewrite <- Hl. done. } { by apply Forall_concat. }
  exists e. split; [exact He|]. rewrite Hl, s64_id in * by (unfold is_s64; lia). split; [exact Ht|].
  split; [rewrite <- Hmax; apply Hth|]. split; [by apply (pairs_distinct ops ks (SzlValueLess ops))|].
  intros i j. rewrite Hc. apply eqm_eq. symmetry. apply sumZ_perm. exact Hp.
Qed.

(** Two shards of a table that reports one element. *)
Definition top_sample : list (list (bytes * SzlValue)) := [[([97], VInt 3); ([98], VInt 4)]; [([97], VInt 2)]].
Definition top_sketch : SzlSketch :=
  match sketch_new (fst (Dims 100)) (snd (Dims 100)) with Ok sk => sk | _ => MkSketch [] [] 0 0 0 end.

Lemma top_sample_good : Forall (elem_good int_ops [INT]) (concat top_sample).
Proof.
  repeat constructor; try done; cbn; eexists; (split; [done|unfold is_s64; lia]).
Qed.
Lemma int_top_type : top_type int_ops [INT] 1.
Proof. split; [apply int_num_ops|]. split; [by repeat constructor|lia]. Qed.

Lemma top_sharded_witness :
  exists e, @aggregate _ _ (top_methods sample_md5 (fun _ => 5) int_ops) (top_feed sample_md5 (fun _ => 5) int_ops) (top_new 1) top_sample = Ok e
  /\ totElems_ e = 3
  /\ th_nElems (tops_ e) <= 10 /\ NoDup (map fst (pairs (tops_ e)))
  /\ forall i j, content sample_md5 int_ops [INT] top_sketch e i j =64 entered int_ops [INT] sample_md5 top_sketch (concat top_sample) i j.
Proof.
  apply (top_sharded sample_md5 (fun _ => 5) int_ops [INT] 1 top_sketch top_sample (concat top_sample));
    [exact int_top_type|vm_compute; reflexivity|reflexivity|exact top_sample_good|cbn; lia].
Defined.

(** C8. As long as there are no more than ten times as many different strings as
    the table reports, the result is exact: what is displayed are the heaviest
    strings in the order of their weights, each with the sum of the weights it
    was given (modulo [2^64]) and with deviations of zero. *)
Theorem top_exact MD5Digest bucket_count ops ks param shards all :
  top_type ops ks param ->
  all ≡ₚ concat shards -> Forall (elem_good ops ks) all -> Z.of_nat (length all) < 2 ^ 63 ->
  all <> [] -> Z.of_nat (size (keys all)) <= param * 10 ->
  exists e e' ps,
    @aggregate _ _ (top_methods MD5Digest bucket_count ops) (top_feed MD5Digest bucket_count ops) (top_new param) shards = Ok e
    /\ top_FlushForDisplay ops e = Ok (map (top_row ops ks) (take (Z.to_nat param) ps), e')
    /\ StronglySorted (fun p q => SzlValueLess ops (snd p) (snd q) = false) ps
    /\ NoDup (map fst ps) /\ (forall v, v ∈ map fst ps <-> v ∈ map fst all)
    /\ forall v w j, (v, w) ∈ ps -> num_at ops ks w j = s64 (true_weight ops ks all v j).
Proof.
  intros (Ho & Hint & Hparam) Hp Hall Hlen Hne Hsize. pose proof (Permutation_length Hp) as Hl. rewrite Hp in Hall.
  destruct (sketch_exists param Hparam) as [sk0 Hsk0].
  destruct (@aggregate_holds _ _ _ _ _ _ _ _ _ (top_contract MD5Digest bucket_count ops ks Ho Hint param Hparam sk0 Hsk0) shards)
    as (e & He & ((Hinv & _ & Ht & _ & _ & Hsk & _) & Hex)).
  { split; [done|]. rewrite <- Hl. done. } { by apply Forall_concat. }
  assert (keys all = keys (concat shards)) as Ek by by apply keys_perm. rewrite Ek in Hsize.
  assert (sketch_ e = None) as Es by (destruct (sketch_ e); [specialize (Hsk ltac:(done)); lia|done]).
  destruct (Hex Es) as [Hk Htw]. assert (0 < length all)%nat by (destruct all; [done|cbn; lia]).
  assert (totElems_ e <> 0) as Ht0 by (rewrite Ht, <- Hl, s64_id by (unfold is_s64; lia); lia).
  destruct (display_exact ops ks Ho Hint param Hparam sk0 e Hinv Es Ht0) as (e' & Hd & Hps & Hsort).
  set (ps := pairs (th_Sort _ _)) in *. clearbody ps.
  assert (NoDup (map fst ps)) as Hnd.
  { rewrite Hps. apply (pairs_distinct ops ks (SzlValueLess ops)). apply Hinv. }
  exists e, e', ps. split; [exact He|]. split; [exact Hd|]. split; [exact Hsort|]. split; [exact Hnd|]. split.
  - intros v. rewrite <- !(elem_of_list_to_set (C := gset bytes)). change (v ∈ keys ps <-> v ∈ keys all).
    by rewrite Ek, <- Hk, (keys_perm _ _ Hps).
  - intros v w j Hin. assert (num_good ops ks w) as Gw.
    { assert (Forall (fun p => num_good ops ks (snd p)) ps) as Hg by (rewrite Hps; apply (pairs_good ops ks (SzlValueLess ops)), Hinv).
      exact (proj1 (Forall_forall _ _) Hg _ Hin). }
    rewrite <- (s64_id (num_at ops ks w j)) by (by apply num_at_range, good_cell).
    rewrite <- (true_weight_unique ops ks ps v w j Hnd Hin), (true_perm ops ks _ _ v j Hps).
    rewrite (true_perm ops ks _ _ v j Hp). apply Htw.
Qed.

Lemma top_exact_witness :
  exists e e' ps,
    @aggregate _ _ (top_methods sample_md5 (fun _ => 5) int_ops) (top_feed sample_md5 (fun _ => 5) int_ops) (top_new 1) top_sample = Ok e
    /\ top_FlushForDisplay int_ops e = Ok (map (top_row int_ops [INT]) (take 1 ps), e')
    /\ StronglySorted (fun p q => SzlValueLess int_ops (snd p) (snd q) = false) ps
    /\ NoDup (map fst ps) /\ (forall v, v ∈ map fst ps <-> v ∈ map fst (concat top_sample))
    /\ forall v w j, (v, w) ∈ ps -> num_at int_ops [INT] w j = s64 (true_weight int_ops [INT] (concat top_sample) v j).
Proof.
  apply (top_exact sample_md5 (fun _ => 5) int_ops [INT] 1 top_sample (concat top_sample));
    [exact int_top_type|reflexivity|exact top_sample_good|cbn; lia|discriminate|].
  vm_compute. discriminate.
Defined.

(** C9. For a top table whose weights are integers or tuples of integers (with float
    weights a NaN can break the order of the heap): whatever happens to an entry,
    merging arbitrary bytes included, no method ever aborts, and the candidates stay
    a heap of at most ten times the parameter with different strings; a merge that
    reports an error has left the entry exactly as it was. *)
Theorem top_never_aborts MD5Digest bucket_count ops ks param e :
  top_type ops ks param -> rtc (top_step MD5Digest bucket_count ops ks) (top_new param) e ->
  (th_IsHeap (SzlValueLess ops) (tops_ e) = true /\ th_nElems (tops_ e) <= param * 10 /\ NoDup (map fst (pairs (tops_ e))))
  /\ (forall s w, bytes_ok s -> num_good ops ks w -> exists m e', top_AddWeightedElem MD5Digest bucket_count ops s w e = Ok (m, e'))
  /\ (forall val, bytes_ok val -> exists st e', top_Merge MD5Digest bucket_count ops val e = Ok (st, e') /\ (st = MergeError -> e' = e))
  /\ (exists s e', top_Flush ops e = Ok (s, e'))
  /\ (exists rows e', top_FlushForDisplay ops e = Ok (rows, e') /\ (length rows <= Z.to_nat param)%nat)
  /\ exists e', top_Clear ops e = Ok e'.
Proof.
  intros (Ho & Hint & Hparam) He. destruct (sketch_exists param Hparam) as [sk0 Hsk0].
  pose proof (top_steps_inv MD5Digest bucket_count ops ks Ho Hint param Hparam sk0 Hsk0 _ _ He
    (top_new_inv MD5Digest ops ks param Hparam sk0 Hsk0)) as Hinv.
  pose proof Hinv as (_ & _ & _ & Hth & Hmax & _). split.
  { split; [by apply (th_inv_IsHeap ops ks)|]. split; [rewrite <- Hmax; apply Hth|].
    by apply (pairs_distinct ops ks (SzlValueLess ops)). }
  split; [|split; [|split; [|split]]].
  - intros s w Hs Hw. destruct (add_spec MD5Digest bucket_count ops ks Ho Hint param Hparam sk0 Hsk0 e s w Hinv) as (m & e' & E & _);
      [done|by exists m, e'].
  - intros val Hval. destruct (merge_any MD5Digest bucket_count ops ks Ho Hint param Hparam sk0 Hsk0 val e Hinv Hval) as (st & e' & E & _ & H).
    by exists st, e'.
  - destruct (flush_any ops ks Ho param Hparam sk0 Hsk0 e Hinv) as (s & e' & E & _). by exists s, e'.
  - destruct (display_any MD5Digest ops ks Ho Hint param sk0 e Hinv) as (rows & e' & E & _ & L). exists rows, e'. split; [done|lia].
  - destruct (clear_any ops ks Ho param Hparam sk0 e Hinv) as (e' & E & _). by exists e'.
Qed.

Lemma top_never_aborts_witness :
  exists e, rtc (top_step sample_md5 (fun _ => 5) int_ops [INT]) (top_new 1) e
  /\ exists st e', top_Merge sample_md5 (fun _ => 5) int_ops [28; 7] e = Ok (st, e') /\ (st = MergeError -> e' = e).
Proof.
  assert (exists m e, top_AddWeightedElem sample_md5 (fun _ => 5) int_ops [97] (VInt 3) (top_new 1) = Ok (m, e)) as (m & e & E)
    by (eexists _, _; vm_compute; reflexivity).
  assert (rtc (top_step sample_md5 (fun _ => 5) int_ops [INT]) (top_new 1) e) as He.
  { eapply rtc_once, top_step_add; [|exists 3; split; [reflexivity|unfold is_s64; lia]|exact E]. by repeat constructor. }
  exists e. split; [exact He|].
  apply (top_never_aborts sample_md5 (fun _ => 5) int_ops [INT] 1 e int_top_type He). by repeat constructor.
Defined.

(** C32. For a top table whose weights are integers or tuples of integers, the reader
    of results agrees with the table: of an exact table's flush it makes the rows the
    table itself displays, and the number of all elements. *)
Theorem top_results_agree MD5Digest bucket_count ops ks param shards all :
  top_type ops ks param ->
  all ≡ₚ concat shards -> Forall (elem_good ops ks) all -> Z.of_nat (length all) < 2 ^ 63 ->
  all <> [] -> Z.of_nat (size (keys all)) <= param * 10 ->
  exists e rows e1 s e2,
    @aggregate _ _ (top_methods MD5Digest bucket_count ops) (top_feed MD5Digest bucket_count ops) (top_new param) shards = Ok e
    /\ top_FlushForDisplay ops e = Ok (rows, e1) /\ top_Flush ops e = Ok (s, e2)
    /\ top_ParseFromString ops param s = Ok (true, MkTopResults rows (Z.of_nat (length all))).
Proof.
  intros (Ho & Hint & Hparam) Hp Hall Hlen Hne Hsize. pose proof (Permutation_length Hp) as Hl. rewrite Hp in Hall.
  destruct (sketch_exists param Hparam) as [sk0 Hsk0].
  destruct (@aggregate_holds _ _ _ _ _ _ _ _ _ (top_contract MD5Digest bucket_count ops ks Ho Hint param Hparam sk0 Hsk0) shards)
    as (e & He & (Htr & _)).
  { split; [done|]. rewrite <- Hl. done. } { by apply Forall_concat. }
  pose proof Htr as (Hinv & _ & Ht & _ & _ & Hsk & Hn).
  assert (keys all = keys (concat shards)) as Ek by by apply keys_perm. rewrite Ek in Hsize.
  assert (sketch_ e = None) as Es by (destruct (sketch_ e); [specialize (Hsk ltac:(done)); lia|done]).
  assert (0 < length all)%nat by (destruct all; [done|cbn; lia]).
  assert (totElems_ e <> 0) as Ht0 by (rewrite Ht, <- Hl, s64_id by (unfold is_s64; lia); lia).
  assert (th_nElems (tops_ e) <> 0) as Hn0 by (intros H0; rewrite (Hn H0) in Hl; cbn in Hl; lia).
  destruct (display_exact ops ks Ho Hint param Hparam sk0 e Hinv Es Ht0) as (e1 & Hd & _ & _).
  destruct (flush_msg MD5Digest ops ks Ho param Hparam sk0 Hsk0 _ _ e Htr ltac:(lia) Hn0) as (e2 & Hf & _ & _ & Hg & Hlps).
  eexists e, _, e1, _, e2. split; [exact He|]. split; [exact Hd|]. split; [exact Hf|]. rewrite Es.
  rewrite (parse_results_exact MD5Digest ops ks Ho Hint param Hparam) by (done || unfold is_s64; lia).
  rewrite Hl. repeat f_equal. lia.
Qed.

Lemma top_results_agree_witness :
  exists e rows e1 s e2,
    @aggregate _ _ (top_methods sample_md5 (fun _ => 5) int_ops) (top_feed sample_md5 (fun _ => 5) int_ops) (top_new 1) top_sample = Ok e
    /\ top_FlushForDisplay int_ops e = Ok (rows, e1) /\ top_Flush int_ops e = Ok (s, e2)
    /\ top_ParseFromString int_ops 1 s = Ok (true, MkTopResults rows 3).
Proof.
  apply (top_results_agree sample_md5 (fun _ => 5) int_ops [INT] 1 top_sample (concat top_sample));
    [exact int_top_type|reflexivity|exact top_sample_good|cbn; lia|discriminate|].
  vm_compute. discriminate.
Defined.

(** The reader of results does not check the dimensions of the sketch before it
    makes one: a string that claims one table of one cell aborts the program,
    where [Merge] of the table itself rejects it. *)
Theorem top_results_abort MD5Digest bucket_count :
  let s := enc_prim (PInt 0) ++ enc_prim (PInt 0) ++ enc_prim (PInt 1) ++ enc_prim (PInt 1) in
  top_ParseFromString int_ops 10 s = Fatal
  /\ top_Merge MD5Digest bucket_count int_ops s (top_new 10) = Ok (MergeError, top_new 10).
Proof. split; vm_compute; reflexivity. Qed.
