(* ===== verification/SetTable.v ===== *)
(** * The set table: emitters/szlset.cc and szlsetresults.cc

    The distinct elements added, as long as there are no more than the table's
    parameter. [std::set<string>] is a [gset] of byte strings, iterated in the
    order of the strings. *)
From Stdlib Require Import ZArith Lia.
From stdpp Require Import prelude sorting gmap.
From S2P Require Import Prelude SzlType Encoder Decoder Codec SzlValue ValueCodec TabEntry.

Local Open Scope Z_scope.

(* @src src/src/emitters/szlset.cc 86-99 SzlSet::SzlSetEntry (data members) *)
Record SzlSetEntry : Type := MkSet { set_ : gset bytes; set_maxElems : Z; set_tot : Z }.

(* @src src/src/emitters/szlset.cc 52-53 SzlSetEntry::SzlSetEntry *)
Definition set_new (param : Z) : SzlSetEntry := MkSet ∅ param 0.

Definition set_size (s : gset bytes) : Z := Z.of_nat (size s).
(** The iteration order of [std::set]. *)
Definition in_order (s : gset bytes) : list bytes := merge_sort str_le (elements s).

(** [4 * sizeof(void* ) + sizeof(string)]. *)
Definition kNodeSize : Z := 64.

(** [set_.size() > maxElems_] compares as unsigned. *)
(* @src src/src/emitters/szlset.cc 55-63 SzlSetEntry::AddElem *)
Definition set_AddElem (elem : bytes) (e : SzlSetEntry) : res (Z * SzlSetEntry) :=
  let tot := s64 (set_tot e + 1) in
  if u64 (set_maxElems e) <? set_size (set_ e) then Ok (0, MkSet (set_ e) (set_maxElems e) tot)
  else if bool_decide (elem ∈ set_ e) then Ok (0, MkSet (set_ e) (set_maxElems e) tot)
  else Ok (kNodeSize + Z.of_nat (length elem), MkSet ({[elem]} ∪ set_ e) (set_maxElems e) tot).

(* @src src/src/emitters/szlset.cc 69-72 SzlSetEntry::Clear *)
Definition set_Clear (e : SzlSetEntry) : SzlSetEntry := MkSet ∅ (set_maxElems e) 0.

(* @src src/src/emitters/szlset.cc 111-126 SzlSetEntry::Flush *)
Definition set_Flush (e : SzlSetEntry) : res (bytes * SzlSetEntry) :=
  if (u64 (set_maxElems e) <? set_size (set_ e)) || (set_size (set_ e) =? 0) then Ok ([], e)
  else
    let enc := PutInt enc_new (s64 (set_tot e - set_size (set_ e))) in
    let enc := PutInt enc (set_size (set_ e)) in
    Ok (fst (enc_Swap enc) ++ concat (in_order (set_ e)), set_Clear e).

(* @src src/src/emitters/szlset.cc 131-146 SzlSetEntry::FlushForDisplay *)
Definition set_FlushForDisplay (e : SzlSetEntry) : res (list bytes * SzlSetEntry) :=
  if u64 (set_maxElems e) <? set_size (set_ e) then Ok ([], e)
  else if set_size (set_ e) =? 0 then Ok ([[]], e)
  else Ok (in_order (set_ e), e).

Section Set_.
Context (ops : SzlOps).

(* @src src/src/emitters/szlset.cc 167-179 SzlSetEntry::Merge *)
Fixpoint set_merge_loop (n : nat) (dec : SzlDecoder) (e : SzlSetEntry) : res (bool * SzlSetEntry) :=
  match n with
  | O => Ok (true, e)
  | S n =>
      match ops_Skip ops dec with
      | None => Ok (false, e)
      | Some dec' => '(_, e) ← set_AddElem (between dec dec') e; set_merge_loop n dec' e
      end
  end.

(* @src src/src/emitters/szlset.cc 151-183 SzlSetEntry::Merge *)
Definition set_Merge (val : bytes) (e : SzlSetEntry) : res (MergeStatus * SzlSetEntry) :=
  match val with
  | [] => Ok (MergeOk, e)
  | _ =>
      match GetInt (dec_Init val) with
      | None => Ok (MergeError, e)
      | Some (extra, dec) =>
          match GetInt dec with
          | None => Ok (MergeError, e)
          | Some (nvals, dec) =>
              '(ok, e) ← set_merge_loop (Z.to_nat nvals) dec e;
              if ok : bool then Ok (MergeOk, MkSet (set_ e) (set_maxElems e) (s64 (set_tot e + extra)))
              else Ok (MergeError, e)
          end
      end
  end.

(* @src src/src/emitters/szlset.cc 82-82 SzlSetEntry::TupleCount *)
Definition set_TupleCount (e : SzlSetEntry) : res Z := Ok (set_size (set_ e)).

Definition set_methods : SzlTabEntry SzlSetEntry := {|
  entry_AddElem := set_AddElem;
  entry_AddWeightedElem := default_AddWeightedElem;
  entry_Flush := set_Flush;
  entry_FlushForDisplay := set_FlushForDisplay;
  entry_Merge := set_Merge;
  entry_Clear := fun e => Ok (set_Clear e);
  entry_TotElems := set_tot;
  entry_TupleCount := set_TupleCount;
|}.

(** ** Reading results *)

(** The elements and the count, an [int]. *)
(* @src src/src/emitters/szlsetresults.cc 112-117 SzlSetResults (data members) *)
Record SetResults : Type := MkSetResults { sr_elems : list bytes; sr_tot : Z }.

(** The second pass, each element as its encoded string. *)
Fixpoint take_elems (n : nat) (dec : SzlDecoder) : res (list bytes) :=
  match n with
  | O => Ok []
  | S n =>
      dec' ← check_some (ops_Skip ops dec);
      xs ← take_elems n dec';
      Ok (between dec dec' :: xs)
  end.

(** The boolean and the members after the call; [nvals > maxElems_ + 1] in [int]. *)
(* @src src/src/emitters/szlsetresults.cc 62-105 SzlSetResults::ParseFromString *)
Definition set_ParseFromString (maxElems : Z) (val : bytes) : res (bool * SetResults) :=
  let empty := MkSetResults [] 0 in
  match val with
  | [] => Ok (true, empty)
  | _ =>
      match GetInt (dec_Init val) with
      | None => Ok (false, empty)
      | Some (delta, dec) =>
          match GetInt dec with
          | None => Ok (false, empty)
          | Some (nvals, dec) =>
              if (s32 (maxElems + 1) <? nvals) || (nvals <? 0) then Ok (false, empty)
              else
                match skip_n (ops_Skip ops) (Z.to_nat nvals) dec with
                | None => Ok (false, empty)
                | Some dec =>
                    if negb (done_ dec) then Ok (false, empty)
                    else
                      dec ← check_some (Skip (Restart dec) INT);
                      dec ← check_some (Skip dec INT);
                      elems ← take_elems (Z.to_nat nvals) dec;
                      Ok (true, MkSetResults
                        (if u64 maxElems <? Z.of_nat (length elems) then [] else elems)
                        (s32 (s64 (delta + nvals))))
                end
          end
      end
  end.
End Set_.

(** ** Correctness *)

Lemma take_elems_concat ops xs s rest :
  Forall (skippable (ops_Skip ops)) xs -> bytes_ok rest ->
  take_elems ops (length xs) (MkDec s (concat xs ++ rest)) = Ok xs.
Proof.
  intros Hxs Hr. induction Hxs as [|x xs [Hx Hskip] Hxs IH]; [done|].
  cbn [length take_elems concat]. rewrite <- app_assoc.
  rewrite Hskip by (apply Forall_app; split; [by apply (skippable_concat_ok (ops_Skip ops))|done]).
  cbn [check_some mbind res_bind]. rewrite IH. cbn [mbind res_bind]. by rewrite between_app.
Qed.

Section SetProofs.
Context (ops : SzlOps) (param : Z) (Hparam : 0 <= param < 2 ^ 31).
Implicit Types (e : SzlSetEntry) (l xs : list bytes) (S : gset bytes).

Abbreviation elem_ok := (skippable (ops_Skip ops)).
Abbreviation distinct l := (list_to_set l : gset bytes).

(** The flush of a set [S] of elements after [t] additions. *)
Definition set_msg S (t : Z) : bytes :=
  counted_msg (s64 (t - set_size S)) (set_size S) (concat (in_order S)).

Definition set_wf e : Prop :=
  set_maxElems e = param /\ is_s64 (set_tot e) /\ set_size (set_ e) <= param + 1
  /\ forall x, x ∈ set_ e -> elem_ok x.

(** Entry [e] had the elements [l] added, if they fit. *)
Definition set_holds l e : Prop :=
  set_wf e /\ (set_size (distinct l) <= param ->
               set_ e = distinct l /\ set_tot e = s64 (Z.of_nat (length l))).

Definition set_reports l (s : bytes) : Prop :=
  (s = [] /\ (set_size (distinct l) <= param -> l = []))
  \/ exists S t, s = set_msg S t /\ S ≠ ∅ /\ set_size S <= param /\ (forall x, x ∈ S -> elem_ok x)
     /\ is_s64 t /\ (set_size (distinct l) <= param -> S = distinct l /\ t = s64 (Z.of_nat (length l))).

Lemma param_u64 : u64 param = param.
Proof. apply u64_id. unfold is_u64. lia. Qed.

Lemma set_size_pos S : 0 <= set_size S.
Proof. unfold set_size. lia. Qed.
Lemma set_size_mono S S' : S ⊆ S' -> set_size S <= set_size S'.
Proof. intros H. unfold set_size. apply inj_le, subseteq_size, H. Qed.
Lemma set_size_0 S : set_size S = 0 <-> S = ∅.
Proof.
  unfold set_size. split; [|intros ->; by rewrite size_empty].
  intros H. apply leibniz_equiv, size_empty_iff. lia.
Qed.
Lemma set_size_insert x S : x ∉ S -> set_size ({[x]} ∪ S) = set_size S + 1.
Proof. intros H. unfold set_size. rewrite size_union by set_solver. rewrite size_singleton. lia. Qed.

Lemma in_order_perm S : in_order S ≡ₚ elements S.
Proof. apply merge_sort_Permutation. Qed.
Lemma elem_of_in_order x S : x ∈ in_order S <-> x ∈ S.
Proof. rewrite in_order_perm. apply elem_of_elements. Qed.
Lemma length_in_order S : Z.of_nat (length (in_order S)) = set_size S.
Proof. by rewrite (Permutation_length (in_order_perm S)). Qed.
Lemma list_to_set_in_order S : list_to_set (in_order S) = S.
Proof. apply set_eq. intros x. rewrite elem_of_list_to_set. apply elem_of_in_order. Qed.

(** One addition. *)
Lemma set_AddElem_spec e x :
  set_wf e -> elem_ok x -> exists m e', set_AddElem x e = Ok (m, e') /\ set_wf e'
  /\ set_tot e' = s64 (set_tot e + 1)
  /\ (set_size ({[x]} ∪ set_ e) <= param -> set_ e' = {[x]} ∪ set_ e)
  /\ set_ e ⊆ set_ e'.
Proof.
  intros (Hm & Ht & Hs & Hel) Hx. unfold set_AddElem, set_wf. rewrite Hm, param_u64.
  destruct (Z.ltb_spec param (set_size (set_ e))) as [Hlt|Hge].
  { eexists _, _. split; [done|]. cbn [set_ set_maxElems set_tot].
    split; [by auto with szl|]. split; [done|]. split; [|done]. intros Hu. pose proof (set_size_mono (set_ e) ({[x]} ∪ set_ e) ltac:(set_solver)). lia. }
  destruct (bool_decide_reflect (x ∈ set_ e)) as [Hin|Hin];
    (eexists _, _; split; [done|]; cbn; split; [split; [done|split; [auto with szl|]]|split; [done|]]).
  - done.
  - split; [intros _|done]. set_solver.
  - rewrite set_size_insert by done. split; [lia|]. intros y Hy.
    apply elem_of_union in Hy as [->%elem_of_singleton|Hy]; auto.
  - split; [done|set_solver].
Qed.

(** Adding the elements of a message. *)
Lemma set_merge_loop_spec xs e s rest :
  set_wf e -> Forall elem_ok xs -> bytes_ok rest -> exists e',
    set_merge_loop ops (length xs) (MkDec s (concat xs ++ rest)) e = Ok (true, e') /\ set_wf e'
    /\ set_tot e' = s64 (set_tot e + Z.of_nat (length xs))
    /\ (set_size (distinct xs ∪ set_ e) <= param -> set_ e' = distinct xs ∪ set_ e).
Proof.
  intros Hwf Hxs Hr. revert e Hwf. induction Hxs as [|x xs Hx Hxs IH]; intros e Hwf.
  { exists e. cbn. split; [done|]. split; [done|]. rewrite Z.add_0_r, s64_id by apply Hwf.
    split; [done|]. intros _. set_solver. }
  destruct (set_AddElem_spec e x Hwf Hx) as (m & e1 & E1 & W1 & T1 & S1 & M1).
  destruct (IH e1 W1) as (e2 & E2 & W2 & T2 & S2).
  exists e2. cbn [length set_merge_loop concat]. rewrite <- app_assoc. destruct Hx as [Hx Hskip].
  rewrite Hskip by (apply Forall_app; split; [by apply (skippable_concat_ok (ops_Skip ops))|done]).
  rewrite between_app, E1. cbn [mbind res_bind]. split; [done|]. split; [done|]. split.
  - rewrite T2, T1. autorewrite with szl. f_equal. lia.
  - cbn [list_to_set]. intros Hu.
    assert (set_ e1 = {[x]} ∪ set_ e) as H1.
    { apply S1. etrans; [|exact Hu]. apply set_size_mono. set_solver. }
    rewrite S2; rewrite H1; [set_solver|]. etrans; [|exact Hu]. apply set_size_mono. set_solver.
Qed.

Lemma distinct_app l l' : distinct (l ++ l') = distinct l ∪ distinct l'.
Proof. apply set_eq. intros x. rewrite elem_of_union, !elem_of_list_to_set. apply elem_of_app. Qed.
Lemma distinct_empty l : distinct l = ∅ -> l = [].
Proof.
  destruct l as [|x l]; [done|]. intros H. exfalso.
  assert (x ∈ distinct (x :: l)) as Hx by (apply elem_of_list_to_set; left). rewrite H in Hx.
  by apply elem_of_empty in Hx.
Qed.

Lemma set_Flush_msg e :
  set_wf e -> set_ e ≠ ∅ -> set_size (set_ e) <= param ->
  set_Flush e = Ok (set_msg (set_ e) (set_tot e), set_Clear e).
Proof.
  intros (Hm & Ht & Hs & Hel) Hne Hle. unfold set_Flush. rewrite Hm, param_u64.
  destruct (Z.ltb_spec param (set_size (set_ e))); [lia|].
  destruct (Z.eqb_spec (set_size (set_ e)) 0) as [H0|H0]; [by apply set_size_0 in H0|]. cbn [orb].
  pose proof (set_size_pos (set_ e)).
  rewrite !PutInt_enc by (auto with szl || (unfold is_s64; lia)). unfold set_msg, counted_msg.
  cbn [enc_Swap fst AppendEncoding data_ enc_new]. by rewrite app_assoc.
Qed.

Lemma set_merge_msg e S t :
  set_wf e -> S ≠ ∅ -> set_size S <= param -> (forall x, x ∈ S -> elem_ok x) -> is_s64 t -> exists e',
    set_Merge ops (set_msg S t) e = Ok (MergeOk, e') /\ set_wf e'
    /\ set_tot e' = s64 (set_tot e + t)
    /\ (set_size (S ∪ set_ e) <= param -> set_ e' = S ∪ set_ e).
Proof.
  intros Hwf Hne Hle Hel Ht. unfold set_Merge.
  pose proof (set_size_pos S) as Hp. assert (is_s64 (set_size S)) as Hs by (unfold is_s64; lia).
  assert (Forall elem_ok (in_order S)) as Hxs.
  { apply Forall_forall. intros x Hx. by apply Hel, elem_of_in_order. }
  destruct (counted_msg_spec (ops_Skip ops) (s64 (t - set_size S)) (set_size S) _ (s64_range _) Hs Hxs)
    as ((b & m & Em) & G1 & G2 & _).
  unfold set_msg. set (whole := counted_msg _ _ _) in *. rewrite Em, <- Em, G1, G2.
  destruct (set_merge_loop_spec (in_order S) e whole []
    Hwf Hxs (Forall_nil_2 _)) as (e1 & E1 & W1 & T1 & S1).
  rewrite app_nil_r in E1.
  rewrite <- (length_in_order S), Nat2Z.id. rewrite length_in_order, E1. cbn [mbind res_bind].
  eexists. split; [done|]. cbn [set_ set_maxElems set_tot].
  destruct W1 as (A & B & C & D). split; [split; [done|split; [apply s64_range|done]]|]. split.
  - rewrite T1, length_in_order. autorewrite with szl. f_equal. lia.
  - rewrite list_to_set_in_order in S1. exact S1.
Qed.

#[local] Instance set_methods_inst : SzlTabEntry SzlSetEntry := set_methods ops.

#[export] Instance set_contract :
  MergeContract entry_AddElem (set_new param) elem_ok (fun _ => True) set_holds set_reports.
Proof.
  split.
  - done.
  - split; [|done]. split; [done|]. split; [done|]. cbn. split; [unfold set_size; rewrite size_empty; lia|].
    intros x Hx. by apply elem_of_empty in Hx.
  - intros l e x _ [Hwf Hh] Hx. cbn [entry_AddElem set_methods_inst set_methods].
    destruct (set_AddElem_spec e x Hwf Hx) as (m & e' & E & W & T & S & _).
    exists m, e'. split; [done|]. split; [done|]. rewrite distinct_app. intros Hu.
    destruct Hh as [H1 H2]; [etrans; [apply set_size_mono|exact Hu]; set_solver|].
    assert (distinct [x] = {[x]}) as E1 by (cbn; set_solver). rewrite E1 in *.
    rewrite S; rewrite H1; [|etrans; [apply set_size_mono|exact Hu]; set_solver].
    split; [set_solver|]. rewrite T, H2, length_app. autorewrite with szl. f_equal. cbn. lia.
  - intros l e _ [Hwf Hh]. cbn [entry_Flush set_methods_inst set_methods].
    destruct (decide (set_ e = ∅)) as [H0|H0]; [|destruct (Z.ltb_spec param (set_size (set_ e)))].
    + eexists _, _. split.
      { unfold set_Flush. rewrite H0, (proj2 (set_size_0 ∅) eq_refl), orb_true_r. done. }
      left. split; [done|]. intros Hu. destruct (Hh Hu) as [H1 _]. apply distinct_empty. congruence.
    + eexists _, _. split.
      { unfold set_Flush. destruct Hwf as [-> _]. rewrite param_u64, (proj2 (Z.ltb_lt _ _)) by done. done. }
      left. split; [done|]. intros Hu. destruct (Hh Hu) as [H1 _]. rewrite <- H1 in Hu. lia.
    + eexists _, _. split; [by apply set_Flush_msg|]. right. exists (set_ e), (set_tot e).
      destruct Hwf as (A & B & C & D). done.
  - intros l l' e s _ [Hwf Hh] Hs. cbn [entry_Merge set_methods_inst set_methods].
    destruct Hs as [[-> Hs]|(S & t & -> & Hne & Hle & Hel & Ht & Hs)].
    + exists e. split; [done|]. split; [done|]. rewrite distinct_app. intros Hu.
      rewrite Hs in * by (etrans; [apply set_size_mono|exact Hu]; set_solver).
      cbn [list_to_set] in *. rewrite app_nil_r, (right_id_L ∅ (∪)) in *. by apply Hh.
    + destruct (set_merge_msg e S t Hwf Hne Hle Hel Ht) as (e' & E & W & T & U). exists e'.
      split; [done|]. split; [done|]. rewrite distinct_app. intros Hu.
      destruct Hs as [-> ->]; [etrans; [apply set_size_mono|exact Hu]; set_solver|].
      destruct Hh as [H1 H2]; [etrans; [apply set_size_mono|exact Hu]; set_solver|].
      rewrite U; rewrite H1; [|etrans; [apply set_size_mono|exact Hu]; set_solver].
      split; [set_solver|]. rewrite T, H2, length_app. autorewrite with szl. f_equal. lia.
Qed.
End SetProofs.

(** C16. Aggregation of a set table over shards: however the elements are divided,
    flushing every shard and merging the strings never fails, and, when there
    are no more distinct elements than the parameter, displays exactly the
    distinct elements in string order and counts every addition. *)
Theorem set_sharded ops param shards :
  0 <= param < 2 ^ 31 -> Forall (Forall (skippable (ops_Skip ops))) shards ->
  let all := concat shards in
  let distinct : gset bytes := list_to_set all in
  exists e, @aggregate _ _ (set_methods ops) set_AddElem (set_new param) shards = Ok e
  /\ (set_size distinct <= param ->
      set_FlushForDisplay e = Ok (match all with [] => [[]] | _ => in_order distinct end, e)
      /\ set_tot e = s64 (Z.of_nat (length all))).
Proof.
  intros Hp Hs all distinct. pose proof (set_contract ops param Hp) as C.
  destruct (@aggregate_holds _ _ _ _ _ _ _ _ _ C shards I Hs) as (e & He & [Hm _] & Hh).
  exists e. split; [exact He|]. intros Hu. fold all in Hh. destruct (Hh Hu) as [H1 H2]. split; [|done].
  unfold set_FlushForDisplay. rewrite Hm, param_u64, H1 by done.
  rewrite (proj2 (Z.ltb_ge _ _)) by exact Hu.
  fold distinct. destruct (Z.eqb_spec (set_size distinct) 0) as [H0|H0].
  - apply set_size_0, distinct_empty in H0. by rewrite H0.
  - unfold distinct in *. by destruct all.
Qed.

Definition tags_ops : SzlOps := MkOps (kind_type INT) [(INT, None)].
Lemma tags_elem z : is_s64 z -> skippable (ops_Skip tags_ops) (enc_prim (PInt z)).
Proof.
  intros Hz. split; [by apply enc_prim_ok|]. intros s rest Hr.
  exact (Skip_enc s (PInt z) rest Hz Hr).
Qed.

Lemma set_sharded_witness :
  let shards := [[enc_prim (PInt 7); enc_prim (PInt (-1))]; []; [enc_prim (PInt 7)]] in
  let all := concat shards in
  exists e, @aggregate _ _ (set_methods tags_ops) set_AddElem (set_new 2) shards = Ok e
  /\ (set_size (list_to_set all) <= 2 ->
      set_FlushForDisplay e = Ok (match all with [] => [[]] | _ => in_order (list_to_set all) end, e)
      /\ set_tot e = s64 (Z.of_nat (length all))).
Proof.
  apply set_sharded; [lia|]. repeat (apply Forall_cons; split); try apply Forall_nil_2;
    repeat (apply Forall_cons; split); try apply Forall_nil_2; apply tags_elem, (bool_decide_unpack _); exact I.
Defined.

(** A reader of a set's flushed string gets back the elements in order and the
    number of additions (while that fits an [int]). *)
Theorem set_results_round_trip ops param e :
  0 <= param < 2 ^ 31 - 1 -> set_wf ops param e -> set_ e ≠ ∅ -> set_size (set_ e) <= param ->
  0 <= set_tot e < 2 ^ 31 ->
  exists s, set_Flush e = Ok (s, set_Clear e)
  /\ set_ParseFromString ops param s = Ok (true, MkSetResults (in_order (set_ e)) (set_tot e)).
Proof.
  intros Hp Hwf Hne Hle Ht. exists (set_msg (set_ e) (set_tot e)). 
  split; [by apply (set_Flush_msg ops param ltac:(lia))|].
  destruct Hwf as (_ & _ & _ & Hel).
  assert (Forall (skippable (ops_Skip ops)) (in_order (set_ e))) as Hxs.
  { apply Forall_forall. intros x Hx. by apply Hel, elem_of_in_order. }
  pose proof (set_size_pos (set_ e)).
  unfold set_ParseFromString, set_msg. rewrite s64_id by (unfold is_s64; lia).
  set (delta := set_tot e - set_size (set_ e)). set (n := set_size (set_ e)) in *.
  assert (is_s64 delta /\ is_s64 n) as [Hd Hn] by (unfold is_s64; lia).
  destruct (counted_msg_spec (ops_Skip ops) delta n _ Hd Hn Hxs) as ((b & m & Em) & G1 & G2 & Hsk & S1 & S2).
  set (whole := counted_msg _ _ _) in *. rewrite Em, <- Em, G1, G2.
  assert (s32 (param + 1) = param + 1) as -> by (unfold s32; rewrite Z.mod_small; lia).
  rewrite (proj2 (Z.ltb_ge _ _)), (proj2 (Z.ltb_ge n 0)) by lia. cbn [orb].
  assert (Z.to_nat n = length (in_order (set_ e))) as -> by (unfold n; rewrite <- length_in_order; lia).
  rewrite Hsk. cbn [done_ p_ negb]. rewrite S1. cbn [check_some mbind res_bind]. rewrite S2.
  cbn [check_some mbind res_bind].
  pose proof (take_elems_concat ops _ whole [] Hxs (Forall_nil_2 _)) as Ht'. rewrite app_nil_r in Ht'. rewrite Ht'.
  cbn [mbind res_bind]. rewrite (param_u64 param ltac:(lia)), length_in_order, (proj2 (Z.ltb_ge _ _)) by done.
  do 3 f_equal. unfold delta. fold n. replace (set_tot e - n + n) with (set_tot e) by lia.
  rewrite s64_id by (unfold is_s64; lia). unfold s32. rewrite Z.mod_small; lia.
Qed.

Definition sample_set : SzlSetEntry := MkSet {[enc_prim (PInt 7); enc_prim (PInt (-1))]} 2 5.
Lemma sample_set_wf : set_wf tags_ops 2 sample_set.
Proof.
  split; [done|]. split; [unfold is_s64; cbn; lia|]. split; [vm_compute; discriminate|].
  cbn [set_ sample_set]. intros x [->%elem_of_singleton| ->%elem_of_singleton]%elem_of_union;
    by apply tags_elem, (bool_decide_unpack _).
Qed.

Lemma set_results_round_trip_witness :
  exists s, set_Flush sample_set = Ok (s, set_Clear sample_set)
  /\ set_ParseFromString tags_ops 2 s = Ok (true, MkSetResults (in_order (set_ sample_set)) 5).
Proof.
  apply (set_results_round_trip tags_ops 2 sample_set); [lia|exact sample_set_wf| | |cbn; lia].
  - intros H. apply (f_equal (fun s : gset bytes => size s)) in H. vm_compute in H. discriminate H.
  - vm_compute. discriminate.
Defined.

(** An example of an overflow: a shard with too many elements flushes the empty string, and the merge
    cannot tell it from a shard without elements: with room for one element,
    the shards [x, y] and [x] display [x], though two distinct elements were
    added; one entry given the same elements displays nothing. *)
Example set_overflow_forgotten :
  let x := enc_prim (PInt 1) in
  let y := enc_prim (PInt 2) in
  (e ← @aggregate _ _ (set_methods tags_ops) set_AddElem (set_new 1) [[x; y]; [x]];
   '(out, _) ← set_FlushForDisplay e; Ok out) = Ok [x]
  /\ (e ← feed_all set_AddElem [x; y; x] (set_new 1);
      '(out, _) ← set_FlushForDisplay e; Ok out) = Ok [].
Proof. vm_compute. done. Qed.
