(* ===== verification/SumTable.v ===== *)
(** * The sum table: emitters/szlsum.cc and szlsumresults.cc

    The entry's theorems are proved against [Summable], what the table needs of
    the operations of its element type. *)
From Stdlib Require Import ZArith Lia.
From stdpp Require Import prelude strings.
From S2P Require Import Prelude SzlType Encoder Decoder Codec SzlValue ValueCodec ValueOrder ValueAdd Numbers TabEntry.

Local Open Scope Z_scope.

(* @src src/src/emitters/szlsum.cc 86-92 SzlSum::SzlSumEntry (data members) *)
Record SzlSumEntry : Type := MkSum { sum_ : SzlValue; sum_tot : Z; memory_ : Z }.

(** [CHECK] of a call that returns a boolean. *)
Definition check_res {A} (r : res A) : res A := match r with Fail => Fatal | _ => r end.

Section Sum.
Context (element_ops : SzlOps).

(* @src src/src/emitters/szlsum.cc 69-74 SzlSumEntry::Clear *)
Definition sum_Clear (e : SzlSumEntry) : res SzlSumEntry :=
  v ← AssignZero element_ops (sum_ e);
  v ← Clear element_ops v;
  Ok (MkSum v 0 0).

(** The constructor clears a default value. *)
(* @src src/src/emitters/szlsum.cc 60-61 SzlSumEntry::SzlSumEntry *)
Definition sum_new : res SzlSumEntry := sum_Clear (MkSum VNil 0 0).

(* @src src/src/emitters/szlsum.cc 99-114 SzlSumEntry::AddElem *)
Definition sum_AddElem (elem : bytes) (e : SzlSumEntry) : res (Z * SzlSumEntry) :=
  let tot := s64 (sum_tot e + 1) in
  if tot =? 1 then
    v ← check_res (ParseFromArray element_ops elem (sum_ e));
    m ← Memory element_ops v;
    Ok (m - sizeof_SzlValue, MkSum v tot m)
  else
    elemv ← check_res (ParseFromArray element_ops elem VNil);
    v ← Add element_ops elemv (sum_ e);
    _ ← Clear element_ops elemv;
    m ← Memory element_ops v;
    Ok (m - memory_ e, MkSum v tot m).

(* @src src/src/emitters/szlsum.cc 117-129 SzlSumEntry::Flush *)
Definition sum_Flush (e : SzlSumEntry) : res (bytes * SzlSumEntry) :=
  if sum_tot e =? 0 then Ok ([], e)
  else
    let enc := PutInt enc_new (sum_tot e) in
    enc ← Encode element_ops (sum_ e) enc;
    let output := fst (enc_Swap enc) in
    e ← sum_Clear e;
    Ok (output, e).

(* @src src/src/emitters/szlsum.cc 132-144 SzlSumEntry::FlushForDisplay *)
Definition sum_FlushForDisplay (e : SzlSumEntry) : res (list bytes * SzlSumEntry) :=
  if sum_tot e =? 0 then Ok ([[]], e)
  else
    enc ← Encode element_ops (sum_ e) enc_new;
    Ok ([fst (enc_Swap enc)], e).

(** The estimate [memory_] is left as it was. *)
(* @src src/src/emitters/szlsum.cc 148-174 SzlSumEntry::Merge *)
Definition sum_Merge (val : bytes) (e : SzlSumEntry) : res (MergeStatus * SzlSumEntry) :=
  match val with
  | [] => Ok (MergeOk, e)
  | _ =>
      match GetInt (dec_Init val) with
      | None => Ok (MergeError, e)
      | Some (extra, dec) =>
          if extra <=? 0 then Ok (MergeError, e)
          else
            match Decode element_ops dec VNil with
            | Fatal => Fatal
            | Fail => Ok (MergeError, e)
            | Ok (dec, sum) =>
                if negb (done_ dec) then _ ← Clear element_ops sum; Ok (MergeError, e)
                else
                  v ← Add element_ops sum (sum_ e);
                  _ ← Clear element_ops sum;
                  Ok (MergeOk, MkSum v (s64 (sum_tot e + extra)) (memory_ e))
            end
      end
  end.

(* @src src/src/emitters/szlsum.cc 82-82 SzlSumEntry::TupleCount *)
Definition sum_TupleCount (e : SzlSumEntry) : res Z := Ok 1.

Definition sum_methods : SzlTabEntry SzlSumEntry := {|
  entry_AddElem := sum_AddElem;
  entry_AddWeightedElem := default_AddWeightedElem;
  entry_Flush := sum_Flush;
  entry_FlushForDisplay := sum_FlushForDisplay;
  entry_Merge := sum_Merge;
  entry_Clear := sum_Clear;
  entry_TotElems := sum_tot;
  entry_TupleCount := sum_TupleCount;
|}.

(** ** Reading results *)

(* @src src/src/emitters/szlsumresults.cc 94-98 SzlSumResults (data members) *)
Record SumResults : Type := MkSumResults { sumr_sum : list bytes; sumr_tot : Z }.

(* @src src/src/emitters/szlsumresults.cc 64-86 SzlSumResults::ParseFromString *)
Definition sum_ParseFromString (val : bytes) : bool * SumResults :=
  match val with
  | [] => (true, MkSumResults [] 0)
  | _ =>
      match GetInt (dec_Init val) with
      | None => (false, MkSumResults [] 0)
      | Some (tot, dec) =>
          if tot <=? 0 then (false, MkSumResults [] tot)
          else
            match ops_Skip element_ops dec with
            | None => (false, MkSumResults [] tot)
            | Some dec' =>
                if negb (done_ dec') then (false, MkSumResults [] tot)
                else (true, MkSumResults [between dec dec'] tot)
            end
      end
  end.
End Sum.

(** ** Correctness *)

Section SumProofs.
Context {ops : SzlOps} {M : Type} {zero : M} {plus : M -> M -> M} {code : M -> bytes}
  {good : SzlValue -> Prop} {den : SzlValue -> M} `{S : !Summable ops zero plus code good den}.
Implicit Types (l : list M) (e : SzlSumEntry).

#[local] Abbreviation number := (number (good := good) (den := den)).
#[local] Abbreviation total := (total (zero := zero) (plus := plus)).

Definition sum_feed (m : M) (e : SzlSumEntry) : res (Z * SzlSumEntry) := sum_AddElem ops (code m) e.

Definition sum_fits l : Prop := Forall number l /\ Z.of_nat (length l) < 2 ^ 63.
Definition sum_holds l e : Prop :=
  good (sum_ e) /\ sum_tot e = Z.of_nat (length l) /\ den (sum_ e) = total l.
Definition sum_reports l (s : bytes) : Prop :=
  match l with
  | [] => s = []
  | _ => s = enc_prim (PInt (Z.of_nat (length l))) ++ code (total l)
  end.

Lemma sum_Clear_spec e : sum_ e = VNil \/ good (sum_ e) ->
  exists e', sum_Clear ops e = Ok e' /\ sum_holds [] e'.
Proof.
  intros H. destruct (s_zero (sum_ e) H) as (z & z' & E1 & E2 & Hg & Hd). unfold sum_Clear.
  rewrite E1. cbn [mbind res_bind]. rewrite E2. by eexists.
Qed.

Lemma sum_parse v d : good v -> d = VNil \/ good d -> exists w,
  check_res (ParseFromArray ops (code (den v)) d) = Ok w /\ good w /\ den w = den v.
Proof.
  intros Hv Hd. unfold ParseFromArray, dec_Init.
  destruct (s_decode v d (code (den v)) [] Hv Hd (Forall_nil_2 _)) as (w & Ew & Hw). rewrite app_nil_r in Ew.
  rewrite Ew. by exists w.
Qed.

Lemma sum_add_spec l e m :
  sum_fits (l ++ [m]) -> sum_holds l e -> exists k e', sum_feed m e = Ok (k, e') /\ sum_holds (l ++ [m]) e'.
Proof.
  intros [Hl Hlen] (Hg & Ht & Hd). apply Forall_app in Hl as [_ (v & Hv & <-)%Forall_inv].
  unfold sum_feed, sum_AddElem, sum_holds. rewrite length_app in *. cbn [length] in *.
  rewrite Ht, s64_id by (unfold is_s64; lia).
  destruct (Z.eqb_spec (Z.of_nat (length l) + 1) 1) as [E|E].
  - assert (l = []) as -> by (destruct l; [done|cbn in E; lia]).
    destruct (sum_parse v (sum_ e) Hv (or_intror Hg)) as (w & -> & Hw & Dw). cbn [mbind res_bind].
    destruct (s_memory w Hw) as [k ->]. cbn [mbind res_bind]. eexists _, _. split; [done|]. cbn.
    split; [done|]. split; [done|]. rewrite s_comm, number_left_id; [done|by exists v].
  - destruct (sum_parse v VNil Hv (or_introl eq_refl)) as (w & -> & Hw & Dw). cbn [mbind res_bind].
    destruct (s_add w (sum_ e) Hw Hg) as (r & -> & Hr & Dr). cbn [mbind res_bind].
    destruct (s_clear w Hw) as [z ->]. cbn [mbind res_bind].
    destruct (s_memory r Hr) as [k ->]. cbn [mbind res_bind]. eexists _, _. split; [done|]. cbn [sum_ sum_tot].
    split; [done|]. split; [lia|]. rewrite total_app by (repeat constructor; by exists v).
    rewrite Dr, Dw, Hd, s_comm. f_equal. cbn. rewrite s_comm, number_left_id; [done|by exists v].
Qed.

Lemma sum_flush_spec l e :
  sum_fits l -> sum_holds l e -> exists s e', sum_Flush ops e = Ok (s, e') /\ sum_reports l s.
Proof.
  intros [Hl Hlen] (Hg & Ht & Hd). unfold sum_Flush. rewrite Ht.
  destruct (Z.eqb_spec (Z.of_nat (length l)) 0) as [E|E].
  - destruct l; [by eexists _, _|done].
  - rewrite PutInt_enc by (unfold is_s64; lia). rewrite s_encode by done. cbn [mbind res_bind].
    destruct (sum_Clear_spec e (or_intror Hg)) as (e' & -> & _). cbn [mbind res_bind].
    eexists _, _. split; [done|]. rewrite Hd. by destruct l.
Qed.

Lemma sum_merge_spec l l' e s :
  sum_fits (l ++ l') -> sum_holds l e -> sum_reports l' s ->
  exists e', sum_Merge ops s e = Ok (MergeOk, e') /\ sum_holds (l ++ l') e'.
Proof.
  intros [Hl Hlen] (Hg & Ht & Hd) Hs. apply Forall_app in Hl as [_ Hl]. rewrite length_app in Hlen.
  destruct l' as [|x l']; [exists e; cbn in Hs; subst s; rewrite app_nil_r; by repeat split|].
  set (xs := x :: l') in *. cbn [sum_reports xs] in Hs. fold xs in Hs. rewrite Hs.
  destruct (number_total xs Hl) as (v & Hv & Dv). rewrite <- Dv.
  destruct (enc_int_ne (Z.of_nat (length xs)) (code (den v))) as (b & m & Em).
  unfold sum_Merge. rewrite Em, <- Em. unfold dec_Init.
  rewrite GetInt_enc by (unfold is_s64; lia || by apply s_code_ok).
  destruct (Z.leb_spec (Z.of_nat (length xs)) 0) as [H0|H0]; [cbn in H0; lia|].
  destruct (s_decode v VNil (enc_prim (PInt (Z.of_nat (length xs))) ++ code (den v)) [] Hv
              (or_introl eq_refl) (Forall_nil_2 _)) as (w & Ew & Hw & Dw).
  rewrite app_nil_r in Ew. rewrite Ew. cbn [done_ p_ negb].
  destruct (s_add w (sum_ e) Hw Hg) as (r & -> & Hr & Dr). cbn [mbind res_bind].
  destruct (s_clear w Hw) as [z ->]. cbn [mbind res_bind]. eexists. split; [done|].
  unfold sum_holds. cbn [sum_ sum_tot]. split; [done|]. rewrite length_app, Ht, s64_id by (unfold is_s64; lia).
  split; [lia|]. rewrite total_app by done. by rewrite Dr, Dw, Hd, Dv, s_comm.
Qed.

#[local] Instance sum_methods_inst : SzlTabEntry SzlSumEntry := sum_methods ops.

Lemma sum_contract new :
  sum_new ops = Ok new -> MergeContract sum_feed new number sum_fits sum_holds sum_reports.
Proof.
  intros Hnew. split.
  - intros l l' [Hl Hlen]. apply Forall_app in Hl as [H1 H2]. rewrite length_app in Hlen.
    split; (split; [done|lia]).
  - destruct (sum_Clear_spec (MkSum VNil 0 0) (or_introl eq_refl)) as (e & E & He).
    unfold sum_new in Hnew. rewrite E in Hnew. by injection Hnew as <-.
  - intros l e x Hf He _. by apply sum_add_spec.
  - intros l e. apply sum_flush_spec.
  - intros l l' e s. apply sum_merge_spec.
Qed.

Lemma sum_new_ok : exists new, sum_new ops = Ok new.
Proof. destruct (sum_Clear_spec (MkSum VNil 0 0) (or_introl eq_refl)) as (e & E & _). by exists e. Qed.
End SumProofs.

(** C14. Aggregation of a sum table over shards, for elements whose sum does not
    depend on the order ([Summable]: integers, times and tuples of them, with sums
    modulo [2^64]; floats are not, as they are rounded): however the elements are divided
    and in whatever order they come, adding them, flushing every shard and
    merging the strings never fails, displays the encoding of the sum of all
    elements (the empty string when there are none) and counts them all. *)
Theorem sum_sharded ops M zero plus code good den (S : @Summable ops M zero plus code good den) shards all :
  all ≡ₚ concat shards -> Forall (number (good := good) (den := den)) all -> Z.of_nat (length all) < 2 ^ 63 ->
  exists new e, sum_new ops = Ok new
  /\ @aggregate _ _ (sum_methods ops) (sum_feed (ops := ops) (code := code)) new shards = Ok e
  /\ sum_FlushForDisplay ops e
     = Ok (match all with [] => [[]] | _ => [code (total (zero := zero) (plus := plus) all)] end, e)
  /\ sum_tot e = Z.of_nat (length all).
Proof.
  intros Hp Hall Hlen. destruct (sum_new_ok (S := S)) as [new Hnew].
  pose proof (Permutation_length Hp) as Hl. assert (Forall (number (good := good) (den := den)) (concat shards)) as Hc
    by (by rewrite <- Hp).
  destruct (@aggregate_holds _ _ _ _ _ _ _ _ _ (sum_contract (S := S) new Hnew) shards) as (e & He & Hg & Ht & Hd).
  { split; [done|lia]. }
  { by apply Forall_concat. }
  exists new, e. split; [done|]. split; [exact He|]. rewrite Ht, Hl. split; [|done].
  unfold sum_FlushForDisplay. rewrite Ht, <- Hl. rewrite <- (total_perm (S := S) _ _ Hp) in Hd.
  destruct all as [|x l]; [done|]. rewrite (proj2 (Z.eqb_neq _ _)) by done.
  rewrite s_encode by done. by rewrite Hd.
Qed.

Lemma sum_sharded_witness :
  let shards := [[[1; 2]; [-3; 4]]; []; [[2 ^ 63 - 1; 5]]] in
  let all := [[2 ^ 63 - 1; 5]; [1; 2]; [-3; 4]] in
  exists new e, sum_new pair_ops = Ok new
  /\ @aggregate _ _ (sum_methods pair_ops) (sum_feed (ops := pair_ops) (code := num_code [INT; TIME])) new shards = Ok e
  /\ sum_FlushForDisplay pair_ops e
     = Ok (match all with [] => [[]]
           | _ => [num_code [INT; TIME] (total (zero := num_zero [INT; TIME]) (plus := num_plus) all)] end, e)
  /\ sum_tot e = Z.of_nat (length all).
Proof.
  apply (sum_sharded pair_ops _ _ _ _ _ _ (num_summable pair_ops [INT; TIME] pair_num_ops)).
  - cbn. apply (Permutation_cons_append [[1; 2]; [-3; 4]] [2 ^ 63 - 1; 5]).
  - assert (forall a b, is_s64 a -> is_s64 b ->
      number (good := num_good pair_ops [INT; TIME]) (den := num_den pair_ops [INT; TIME]) [a; b]) as H.
    { intros a b Ha Hb. exists (VVals [VInt a; VInt b]). split; [|done].
      exists [VInt a; VInt b]. split; [done|]. split; [by right|]. constructor; [by exists a|]. constructor; [by exists b|done]. }
    repeat (apply Forall_cons; split; [apply H; unfold is_s64; lia|]). constructor.
  - cbn. lia.
Defined.

(** A reader of the flushed string of a sum to which the elements [l] were
    added gets back the encoded sum and their number. *)
Theorem sum_results_round_trip ops M zero plus code good den
    (S : @Summable ops M zero plus code good den) l e :
  l <> [] -> Forall (number (good := good) (den := den)) l -> Z.of_nat (length l) < 2 ^ 63 ->
  sum_holds (zero := zero) (plus := plus) (good := good) (den := den) l e ->
  exists s e', sum_Flush ops e = Ok (s, e')
  /\ sum_holds (zero := zero) (plus := plus) (good := good) (den := den) [] e'
  /\ sum_ParseFromString ops s
     = (true, MkSumResults [code (total (zero := zero) (plus := plus) l)] (Z.of_nat (length l))).
Proof.
  intros Hne Hl Hlen (Hg & Ht & Hd). pose proof (s_code_ok (Summable := S) _ Hg) as Hb.
  set (n := Z.of_nat (length l)) in *. assert (0 < n) as Hn by (destruct l; [done|cbn in n; lia]).
  unfold sum_Flush. rewrite Ht, (proj2 (Z.eqb_neq _ _)) by lia.
  rewrite PutInt_enc by (unfold is_s64; lia). rewrite s_encode by done. cbn [mbind res_bind].
  destruct (sum_Clear_spec (S := S) e (or_intror Hg)) as (e' & -> & He'). cbn [mbind res_bind].
  exists (enc_prim (PInt n) ++ code (den (sum_ e))), e'. split; [done|]. split; [done|].
  unfold sum_ParseFromString. destruct (enc_int_ne n (code (den (sum_ e)))) as (b & m & Em). rewrite Em, <- Em.
  unfold dec_Init. rewrite GetInt_enc by (unfold is_s64; lia || done).
  rewrite (proj2 (Z.leb_gt _ _)) by done.
  set (whole := enc_prim (PInt n) ++ code (den (sum_ e))).
  pose proof (s_skip (sum_ e) whole [] Hg (Forall_nil_2 _)) as Hs. rewrite app_nil_r in Hs. rewrite Hs.
  cbn [done_ p_ negb]. pose proof (between_app whole (code (den (sum_ e))) []) as Hbt.
  rewrite app_nil_r in Hbt. by rewrite Hbt, Hd.
Qed.

Definition sample_sum : SzlSumEntry := MkSum (VVals [VInt (-2); VInt 6]) 2 48.
Lemma sum_results_round_trip_witness :
  exists s e', sum_Flush pair_ops sample_sum = Ok (s, e')
  /\ sum_holds (zero := num_zero [INT; TIME]) (plus := num_plus) (good := num_good pair_ops [INT; TIME])
       (den := num_den pair_ops [INT; TIME]) [] e'
  /\ sum_ParseFromString pair_ops s = (true, MkSumResults
       [num_code [INT; TIME] (total (zero := num_zero [INT; TIME]) (plus := num_plus) [[1; 2]; [-3; 4]])] 2).
Proof.
  apply (sum_results_round_trip pair_ops _ _ _ _ _ _ (num_summable pair_ops [INT; TIME] pair_num_ops)
    [[1; 2]; [-3; 4]]); [done| |done|].
  - assert (forall a b, is_s64 a -> is_s64 b ->
      number (good := num_good pair_ops [INT; TIME]) (den := num_den pair_ops [INT; TIME]) [a; b]) as H.
    { intros a b Ha Hb. exists (VVals [VInt a; VInt b]). split; [|done].
      exists [VInt a; VInt b]. split; [done|]. split; [by right|]. constructor; [by exists a|]. constructor; [by exists b|done]. }
    repeat (apply Forall_cons; split; [apply H; unfold is_s64; lia|]). constructor.
  - split; [|split; [done|reflexivity]]. exists [VInt (-2); VInt 6]. split; [done|]. split; [by right|].
    constructor; [eexists; split; [done|unfold is_s64; lia]|]. constructor; [eexists; split; [done|unfold is_s64; lia]|done].
Defined.

(** A string that is refused leaves the sum as it was. *)
Theorem sum_merge_error_unchanged ops val e e' :
  sum_Merge ops val e = Ok (MergeError, e') -> e' = e.
Proof.
  unfold sum_Merge. intros H. destruct val as [|b val]; [by injection H|].
  destruct (GetInt _) as [[extra dec]|]; [|by injection H as <-].
  destruct (extra <=? 0); [by injection H as <-|].
  destruct (Decode _ _ _) as [[dec' s]| |]; [|by injection H as <-|done].
  destruct (negb _).
  - destruct (Clear _ _); [by injection H as <-|done|done].
  - destruct (Add _ _ _); [|done|done]. cbn in H. by destruct (Clear _ _).
Qed.

Lemma sum_merge_error_unchanged_witness :
  sum_Merge pair_ops [27; 2; 28; 0] sample_sum = Ok (MergeError, sample_sum) /\ sample_sum = sample_sum.
Proof.
  split; [reflexivity|].
  apply (sum_merge_error_unchanged pair_ops [27; 2; 28; 0] sample_sum sample_sum). reflexivity.
Defined.
