(* ===== verification/MaxTable.v ===== *)
(** * The maximum and minimum tables: emitters/szlmaximum.cc, szlmaximumresults.cc

    An entry keeps its elements in a [SzlHeap] of bound [param], compared by
    [SzlValueLess] (maximum) or [SzlValueGreater] (minimum). *)
From Stdlib Require Import ZArith Lia.
From stdpp Require Import prelude strings sorting.
From S2P Require Import Prelude SzlType Encoder Decoder Codec SzlValue ValueCodec ValueOrder ValueAdd Numbers Heap TabEntry.

Local Open Scope Z_scope.

(** The heap and the entry's own [tot_elems_], which hides the base class's. *)
(* @src src/src/emitters/szlmaximum.cc 99-109 SzlMaximum::SzlMaximumEntry (data members) *)
Record SzlMaximumEntry : Type := MkMax { max_heap : SzlHeap; max_tot : Z }.

(* @src src/src/emitters/szlmaximum.cc 37-41 SzlMaximum::SzlMaximum *)
Definition max_cmp (table : string) (weight_ops : SzlOps) : SzlValueCmp :=
  if bool_decide (table = "maximum"%string) then SzlValueLess weight_ops else SzlValueGreater weight_ops.

Section Max.
Context (weight_ops : SzlOps) (cmp : SzlValueCmp).

(** The constructor leaves [tot_elems_] unset: [uninit] is what the memory held. *)
(* @src src/src/emitters/szlmaximum.cc 69-70 SzlMaximumEntry::SzlMaximumEntry *)
Definition max_new (param uninit : Z) : SzlMaximumEntry := MkMax (heap_new param) uninit.

(* @src src/src/emitters/szlmaximum.cc 76-79 SzlMaximumEntry::AddWeightedElem *)
Definition max_AddWeightedElem (elem : bytes) (weight : SzlValue) (e : SzlMaximumEntry) :
    res (Z * SzlMaximumEntry) :=
  '(mem, hp) ← heap_AddElem cmp weight_ops elem weight (max_heap e);
  Ok (mem, MkMax hp (s64 (max_tot e + 1))).

(* @src src/src/emitters/szlmaximum.cc 72-74 SzlMaximumEntry::AddElem *)
Definition max_AddElem (elem : bytes) (e : SzlMaximumEntry) : res (Z * SzlMaximumEntry) :=
  max_AddWeightedElem elem (VInt 1) e.

(* @src src/src/emitters/szlmaximum.cc 85-88 SzlMaximumEntry::Clear *)
Definition max_Clear (e : SzlMaximumEntry) : SzlMaximumEntry := MkMax (heap_Clear (max_heap e)) 0.

Fixpoint put_elems (l : list Elem) (enc : SzlEncoder) : res SzlEncoder :=
  match l with
  | [] => Ok enc
  | e :: l => enc ← Encode weight_ops (weight e) (PutBytes enc (value e)); put_elems l enc
  end.

(* @src src/src/emitters/szlmaximum.cc 118-138 SzlMaximumEntry::Flush *)
Definition max_Flush (e : SzlMaximumEntry) : res (bytes * SzlMaximumEntry) :=
  if nElems (max_heap e) =? 0 then Ok ([], e)
  else
    let enc := PutInt enc_new (s64 (max_tot e - nElems (max_heap e))) in
    let enc := PutInt enc (nElems (max_heap e)) in
    let hp := Sort cmp (max_heap e) in
    enc ← put_elems (heap_ hp) enc;
    Ok (fst (enc_Swap enc), max_Clear (MkMax hp (max_tot e))).

Fixpoint display_elems (l : list Elem) : res (list bytes) :=
  match l with
  | [] => Ok []
  | e :: l =>
      enc ← Encode weight_ops (weight e) enc_new;
      out ← display_elems l;
      Ok ((value e ++ fst (enc_Swap enc)) :: out)
  end.

(* @src src/src/emitters/szlmaximum.cc 141-163 SzlMaximumEntry::FlushForDisplay *)
Definition max_FlushForDisplay (e : SzlMaximumEntry) : res (list bytes * SzlMaximumEntry) :=
  if nElems (max_heap e) =? 0 then Ok ([[]], e)
  else
    let hp := Sort cmp (max_heap e) in
    out ← display_elems (heap_ hp);
    Ok (out, MkMax (ReHeap hp) (max_tot e)).

(** One element of a message: the value, then the weight. *)
Definition skip_elem (dec : SzlDecoder) : option SzlDecoder :=
  dec ← Skip dec BYTES; ops_Skip weight_ops dec.

(** The second pass; [w] is one variable, decoded into again and again. *)
(* @src src/src/emitters/szlmaximum.cc 197-205 SzlMaximumEntry::Merge *)
Fixpoint max_merge_loop (n : nat) (dec : SzlDecoder) (w : SzlValue) (e : SzlMaximumEntry) :
    res (MergeStatus * SzlMaximumEntry) :=
  match n with
  | O => _ ← Clear weight_ops w; Ok (MergeOk, e)
  | S n =>
      match GetBytes dec with
      | None => Ok (MergeError, e)
      | Some (s, dec) =>
          match Decode weight_ops dec w with
          | Fatal => Fatal
          | Fail => Ok (MergeError, e)
          | Ok (dec, w) => '(_, e) ← max_AddWeightedElem s w e; max_merge_loop n dec w e
          end
      end
  end.

(* @src src/src/emitters/szlmaximum.cc 166-210 SzlMaximumEntry::Merge *)
Definition max_Merge (val : bytes) (e : SzlMaximumEntry) : res (MergeStatus * SzlMaximumEntry) :=
  let maxElems := maxElems_ (max_heap e) in
  match val with
  | [] => Ok (MergeOk, e)
  | _ =>
      match GetInt (dec_Init val) with
      | None => Ok (MergeError, e)
      | Some (extra, dec) =>
          match GetInt dec with
          | None => Ok (MergeError, e)
          | Some (nvals, dec) =>
              if (maxElems <? nvals) || ((nvals <? maxElems) && negb (extra =? 0)) then Ok (MergeError, e)
              else
                match skip_n skip_elem (Z.to_nat nvals) dec with
                | None => Ok (MergeError, e)
                | Some dec =>
                    if negb (done_ dec) then Ok (MergeError, e)
                    else
                      match (dec ← Skip (Restart dec) INT; Skip dec INT) with
                      | None => Ok (MergeError, e)
                      | Some dec =>
                          '(st, e) ← max_merge_loop (Z.to_nat nvals) dec VNil e;
                          match st with
                          | MergeOk => Ok (MergeOk, MkMax (max_heap e) (s64 (max_tot e + extra)))
                          | MergeError => Ok (MergeError, e)
                          end
                      end
                end
          end
      end
  end.

(* @src src/src/emitters/szlmaximum.cc 95-95 SzlMaximumEntry::TupleCount *)
Definition max_TupleCount (e : SzlMaximumEntry) : res Z := Ok (nElems (max_heap e)).

(** Through the base class, [TotElems] reads the base's own counter, always 0. *)
Definition max_methods : SzlTabEntry SzlMaximumEntry := {|
  entry_AddElem := max_AddElem;
  entry_AddWeightedElem := max_AddWeightedElem;
  entry_Flush := max_Flush;
  entry_FlushForDisplay := max_FlushForDisplay;
  entry_Merge := max_Merge;
  entry_Clear := fun e => Ok (max_Clear e);
  entry_TotElems := fun _ => 0;
  entry_TupleCount := max_TupleCount;
|}.

(** ** Reading results *)

(* @src src/src/emitters/szlmaximumresults.cc 124-129 SzlMaximumResults (data members) *)
Record MaxResults : Type := MkMaxResults { mr_elems : list bytes; mr_tot : Z }.

(** The value, and the weight as it was encoded, in one string. *)
Fixpoint join_elems (n : nat) (dec : SzlDecoder) : res (list bytes) :=
  match n with
  | O => Ok []
  | S n =>
      '(s, dec) ← check_some (GetBytes dec);
      dec' ← check_some (ops_Skip weight_ops dec);
      xs ← join_elems n dec';
      Ok ((s ++ between dec dec') :: xs)
  end.

(* @src src/src/emitters/szlmaximumresults.cc 69-116 SzlMaximumResults::ParseFromString *)
Definition max_ParseFromString (maxElems : Z) (val : bytes) : res (bool * MaxResults) :=
  let empty := MkMaxResults [] 0 in
  match val with
  | [] => Ok (true, empty)
  | _ =>
      match GetInt (dec_Init val) with
      | None => Ok (false, empty)
      | Some (extra, dec) =>
          match GetInt dec with
          | None => Ok (false, empty)
          | Some (nvals, dec) =>
              if (maxElems <? nvals) || ((nvals <? maxElems) && negb (extra =? 0)) then Ok (false, empty)
              else
                match skip_n skip_elem (Z.to_nat nvals) dec with
                | None => Ok (false, empty)
                | Some dec =>
                    if negb (done_ dec) then Ok (false, empty)
                    else
                      dec ← check_some (Skip (Restart dec) INT);
                      dec ← check_some (Skip dec INT);
                      elems ← join_elems (Z.to_nat nvals) dec;
                      Ok (true, MkMaxResults elems (s64 (extra + nvals)))
                end
          end
      end
  end.
End Max.

(** ** Correctness *)

Section MaxProofs.
Context (ops : SzlOps) (Hops : ops_ok ops) (cmp : SzlValueCmp) `{L : !CmpLaws (weight_ok ops) cmp}
  (m : Z) (Hm : 0 < m < 2 ^ 31).
Implicit Types (l : list (bytes * SzlValue)) (es : list Elem) (e : SzlMaximumEntry).

(** The elements: any bytes, with a weight as the decoder would produce it. *)
Definition elem_good (x : Elem) : Prop :=
  bytes_ok (value x) /\ weight_ok ops (weight x) /\ enc_ok ops (weight x)
  /\ norm_val ops (weight x) = weight x.

Definition wcode (w : SzlValue) : bytes := match Encode ops w enc_new with Ok e => data_ e | _ => [] end.
Definition elem_code (x : Elem) : bytes := enc_prim (PBytes (value x)) ++ wcode (weight x).

Lemma wcode_spec w : val_ok ops w -> enc_ok ops w ->
  bytes_ok (wcode w) /\ (forall enc, Encode ops w enc = Ok (AppendEncoding enc (wcode w)))
  /\ (forall s rest, bytes_ok rest -> ops_Skip ops (MkDec s (wcode w ++ rest)) = Some (MkDec s rest))
  /\ (forall s rest d, bytes_ok rest -> dest_ok ops d ->
       Decode ops (MkDec s (wcode w ++ rest)) d = Ok (MkDec s rest, norm_val ops w)).
Proof.
  intros Hv He. destruct (ops_codec_all ops Hops true w Hv He) as (b & Hb & _ & Henc & Hskip & Hdec).
  assert (wcode w = b) as -> by (unfold wcode, Encode; by rewrite Henc). done.
Qed.

Lemma elem_skippable x : elem_good x -> skippable (skip_elem ops) (elem_code x).
Proof.
  intros (Hv & Hw & He & _). destruct (wcode_spec (weight x)) as (Hb & _ & Hskip & _); [apply Hw|done|].
  pose proof (enc_prim_ok (PBytes (value x)) Hv) as Hp.
  split; [by apply Forall_app|]. intros s rest Hr. unfold skip_elem, elem_code. rewrite <- app_assoc.
  assert (bytes_ok (wcode (weight x) ++ rest)) as Hr' by (by apply Forall_app).
  pose proof (Skip_enc s (PBytes (value x)) _ Hv Hr') as E. cbn [prim_kind] in E. rewrite E.
  cbn [mbind option_bind]. by apply Hskip.
Qed.

Lemma elems_skippable es : Forall elem_good es -> Forall (skippable (skip_elem ops)) (map elem_code es).
Proof. intros H. apply Forall_map. eapply Forall_impl; [exact H|]. apply elem_skippable. Qed.

Lemma put_elems_spec es enc :
  Forall elem_good es -> put_elems ops es enc = Ok (AppendEncoding enc (concat (map elem_code es))).
Proof.
  intros H. revert enc. induction H as [|x es (Hv & Hw & He & _) Hes IH]; intros enc.
  { unfold AppendEncoding. cbn. rewrite app_nil_r. by destruct enc. }
  cbn [put_elems map concat]. rewrite PutBytes_enc by done.
  destruct (wcode_spec (weight x)) as (Hb & Henc & _ & _); [apply Hw|done|].
  rewrite Henc. cbn [mbind res_bind]. rewrite IH. unfold AppendEncoding, elem_code. cbn [version_ data_].
  by rewrite <- !app_assoc.
Qed.

(** The flush of the elements [es] after [t] additions. *)
Definition max_msg es (t : Z) : bytes :=
  let n := Z.of_nat (length es) in
  counted_msg (t - n) n (concat (map elem_code es)).

Definition pair_of (x : Elem) : bytes * SzlValue := (value x, weight x).

Lemma max_merge_loop_spec es e s w :
  Forall elem_good es -> heap_inv ops cmp (max_heap e) -> dest_ok ops w -> is_s64 (max_tot e) -> exists hp,
    max_merge_loop ops cmp (length es) (MkDec s (concat (map elem_code es))) w e
    = Ok (MergeOk, MkMax hp (s64 (max_tot e + Z.of_nat (length es))))
    /\ heap_adds ops cmp (map pair_of es) (max_heap e) = Ok hp.
Proof.
  intros H. revert e w. induction H as [|x es (Hv & Hw & He & Hn) Hes IH]; intros e w Hinv Hd Ht.
  { destruct (Clear_ok ops w Hops Hd) as (z & Ez & _). cbn [length max_merge_loop]. rewrite Ez.
    exists (max_heap e). split; [|done]. cbn [mbind res_bind]. rewrite Z.add_0_r, s64_id by done. by destruct e. }
  assert (bytes_ok (concat (map elem_code es))) as Hb
    by (by apply (skippable_concat_ok (skip_elem ops)), elems_skippable).
  destruct (wcode_spec (weight x)) as (Hwb & _ & _ & Hdec); [apply Hw|done|].
  cbn [length max_merge_loop map concat]. unfold elem_code at 1. rewrite <- app_assoc.
  rewrite GetBytes_enc by (done || by apply Forall_app).
  rewrite Hdec, Hn by done.
  destruct (heap_AddElem_spec ops Hops cmp (max_heap e) (value x) (weight x) Hinv Hw)
    as (k & hp1 & out & E1 & I1 & _).
  unfold max_AddWeightedElem at 1. rewrite E1. cbn [mbind res_bind].
  destruct (IH (MkMax hp1 (s64 (max_tot e + 1))) (weight x) I1) as (hp & E & A);
    [by apply val_dest_ok, Hw|apply s64_range|].
  cbn [max_tot max_heap] in E, A. exists hp. rewrite E. split.
  - do 2 f_equal. autorewrite with szl. do 2 f_equal. lia.
  - unfold pair_of at 1. by rewrite (heap_adds_cons ops cmp _ _ _ _ _ _ E1).
Qed.

(** ** The contract *)

Definition max_fits l : Prop := Forall elem_good (map elem_of_pair l) /\ Z.of_nat (length l) < 2 ^ 63.

Definition max_holds l e : Prop :=
  maxElems_ (max_heap e) = m /\ heap_inv ops cmp (max_heap e) /\ max_tot e = Z.of_nat (length l)
  /\ keeps cmp (Z.to_nat m) (map elem_of_pair l) (heap_ (max_heap e)).

Definition max_reports l (s : bytes) : Prop :=
  (l = [] /\ s = [])
  \/ exists es, es <> [] /\ keeps cmp (Z.to_nat m) (map elem_of_pair l) es
     /\ s = max_msg es (Z.of_nat (length l)).

Definition max_feed (x : bytes * SzlValue) (e : SzlMaximumEntry) : res (Z * SzlMaximumEntry) :=
  max_AddWeightedElem ops cmp (fst x) (snd x) e.

Lemma goods_wts l : Forall elem_good (map elem_of_pair l) -> wts_ok (weight_ok ops) (map elem_of_pair l).
Proof. intros H. eapply Forall_impl; [exact H|]. by intros x (_ & ? & _). Qed.

Lemma keeps_goods k l es : keeps cmp k (map elem_of_pair l) es ->
  Forall elem_good (map elem_of_pair l) -> Forall elem_good es.
Proof.
  intros Hk Hg. apply Forall_forall. intros x Hx.
  exact (proj1 (Forall_forall _ _) Hg x (keeps_sub cmp _ _ _ Hk x Hx)).
Qed.

Lemma keeps_length k a es : keeps cmp k a es -> length es = Nat.min k (length a).
Proof. by intros (? & _ & _ & ?). Qed.

Lemma max_add_spec l e x :
  max_fits (l ++ [x]) -> max_holds l e -> exists k e', max_feed x e = Ok (k, e') /\ max_holds (l ++ [x]) e'.
Proof.
  destruct x as [v w]. intros [Hg Hlen] (HM & Hinv & Ht & Hk). rewrite map_app in Hg.
  apply Forall_app in Hg as Hg'. destruct Hg' as [Hgl (Hv & Hw & _)%Forall_inv]. cbn [elem_of_pair fst snd weight] in Hw.
  rewrite length_app in Hlen. cbn [length] in Hlen.
  destruct (heap_AddElem_spec ops Hops cmp (max_heap e) v w Hinv Hw) as (k & hp & out & E & I & M' & P' & O & N).
  exists k, (MkMax hp (s64 (max_tot e + 1))). split; [unfold max_feed, max_AddWeightedElem; cbn [fst snd]; by rewrite E|].
  split; [cbn; congruence|]. split; [done|]. cbn [max_tot max_heap]. rewrite length_app, Ht, s64_id
    by (unfold is_s64; lia). split; [cbn [length]; lia|].
  rewrite map_app. apply (keeps_merge (weight_ok ops) cmp _ _ _ (heap_ (max_heap e)) [elem_of_pair (v, w)]).
  - change (wts_ok (weight_ok ops) (map elem_of_pair l ++ map elem_of_pair [(v, w)])). rewrite <- map_app.
    apply goods_wts. by rewrite map_app.
  - done.
  - apply keeps_small. cbn. lia.
  - exists out. split; [rewrite P'; apply Permutation_cons_append|]. split; [done|].
    unfold nElems in N. rewrite length_app. cbn [length]. destruct Hinv as [Hn _]. unfold nElems in Hn. lia.
Qed.

Lemma Sort_keeps l hp :
  heap_inv ops cmp hp -> keeps cmp (Z.to_nat m) (map elem_of_pair l) (heap_ hp) ->
  keeps cmp (Z.to_nat m) (map elem_of_pair l) (heap_ (Sort cmp hp)) /\ length (heap_ (Sort cmp hp)) = length (heap_ hp).
Proof.
  intros (Hlen & Hheap & Hok) Hk. apply IsHeap_spec in Hheap.
  destruct (Sort_spec (weight_ok ops) cmp hp Hok Hheap) as [S1 _].
  split; [apply (keeps_perm cmp _ (map elem_of_pair l) _ (heap_ hp)); [done|by symmetry|done]|]. by apply Permutation_length.
Qed.

Lemma max_flush_spec l e :
  max_fits l -> max_holds l e -> exists s e', max_Flush ops cmp e = Ok (s, e') /\ max_reports l s.
Proof.
  intros [Hg Hlen] (HM & Hinv & Ht & Hk). unfold max_Flush.
  pose proof (keeps_length _ _ _ Hk) as Hkl. rewrite length_map in Hkl.
  destruct (Z.eqb_spec (nElems (max_heap e)) 0) as [E|E]; unfold nElems in E.
  - eexists _, _. split; [done|]. left. split; [|done]. destruct l; [done|]. cbn in Hkl. lia.
  - destruct (Sort_keeps l (max_heap e) Hinv Hk) as [Hks Hsl].
    unfold nElems. rewrite Ht, s64_id by (unfold is_s64; lia). rewrite !PutInt_enc by (unfold is_s64; lia).
    rewrite put_elems_spec by (by apply (keeps_goods _ _ _ Hks)). cbn [mbind res_bind].
    eexists _, _. split; [done|]. right. exists (heap_ (Sort cmp (max_heap e))). split.
    { intros H. rewrite H in Hsl. cbn in Hsl. lia. }
    split; [done|]. unfold max_msg, counted_msg. rewrite Hsl.
    change (fst (enc_Swap ?x)) with (data_ x). cbn [AppendEncoding data_ enc_new]. by rewrite <- !app_assoc.
Qed.

Lemma max_merge_spec l l' e s :
  max_fits (l ++ l') -> max_holds l e -> max_reports l' s ->
  exists e', max_Merge ops cmp s e = Ok (MergeOk, e') /\ max_holds (l ++ l') e'.
Proof.
  intros [Hg Hlen] (HM & Hinv & Ht & Hk) [[-> ->]|(es & Hne & Hke & ->)].
  { exists e. rewrite app_nil_r. done. }
  rewrite map_app in Hg. rewrite length_app in Hlen. apply Forall_app in Hg as Hg'. destruct Hg' as [Hgl Hgl'].
  pose proof (keeps_length _ _ _ Hke) as Hel. rewrite length_map in Hel.
  pose proof (keeps_goods _ _ _ Hke Hgl') as Hges. pose proof (elems_skippable es Hges) as Hsk.
  pose proof (skippable_concat_ok _ _ Hsk) as Hcat.
  unfold max_Merge, max_msg. rewrite HM. set (n := Z.of_nat (length es)). set (x := Z.of_nat (length l') - n).
  assert (is_s64 n /\ is_s64 x /\ 0 < n <= m) as (Hn & Hx & Hnm).
  { unfold is_s64, x, n. destruct es; [done|]. cbn [length] in *. lia. }
  destruct (counted_msg_spec (skip_elem ops) x n _ Hx Hn Hsk) as ((b & r & Er) & G1 & G2 & Hskn & S1 & S2).
  rewrite length_map in Hskn. set (whole := counted_msg x n (concat (map elem_code es))) in *.
  rewrite Er, <- Er, G1, G2.
  assert ((m <? n) || ((n <? m) && negb (x =? 0)) = false) as ->.
  { rewrite (proj2 (Z.ltb_ge _ _)) by lia. cbn [orb]. destruct (Z.ltb_spec n m); [|done].
    replace x with 0 by (unfold x, n in *; lia). done. }
  assert (Z.to_nat n = length es) as -> by (unfold n; lia).
  rewrite Hskn. cbn [done_ p_ negb]. rewrite S1. cbn [mbind option_bind]. rewrite S2.
  destruct (max_merge_loop_spec es e whole VNil Hges Hinv (dest_ok_VNil ops Hops)) as (hp & El & Ea).
  { rewrite Ht. unfold is_s64. lia. }
  rewrite El. cbn [mbind res_bind max_heap max_tot].
  destruct (heap_adds_keeps ops cmp (map pair_of es) (max_heap e) Hops Hinv) as (hp' & Ea' & I' & M' & K').
  { apply Forall_map. eapply Forall_impl; [exact Hges|]. by intros y (_ & ? & _). }
  rewrite Ea in Ea'. injection Ea' as <-. eexists. split; [done|].
  split; [cbn; congruence|]. split; [done|]. cbn [max_tot max_heap]. rewrite length_app, Ht.
  split; [autorewrite with szl; rewrite s64_id; [unfold x, n; lia|unfold is_s64, x, n; lia]|].
  rewrite map_app. apply (keeps_merge (weight_ok ops) cmp _ _ _ (heap_ (max_heap e)) es).
  - rewrite <- map_app. apply goods_wts. by rewrite map_app.
  - done.
  - done.
  - rewrite HM, map_map in K'. 
    replace (map (fun y => elem_of_pair (pair_of y)) es) with es in K'; [done|].
    rewrite <- (map_id es) at 1. apply map_ext. by intros [].
Qed.

#[local] Instance max_methods_inst : SzlTabEntry SzlMaximumEntry := max_methods ops cmp.

Lemma max_contract :
  MergeContract max_feed (max_new m 0) (fun x => elem_good (elem_of_pair x)) max_fits max_holds max_reports.
Proof.
  split.
  - intros l l' [Hg Hlen]. rewrite map_app in Hg. apply Forall_app in Hg as [H1 H2]. rewrite length_app in Hlen.
    split; (split; [done|lia]).
  - split; [done|]. split; [apply heap_inv_new; lia|]. split; [done|]. apply keeps_small. cbn. lia.
  - intros l e x Hf He _. by apply max_add_spec.
  - apply max_flush_spec.
  - intros l l' e s. apply max_merge_spec.
Qed.
End MaxProofs.

Lemma max_cmp_laws table ops : ops_ok ops -> CmpLaws (weight_ok ops) (max_cmp table ops).
Proof.
  intros H. unfold max_cmp. case_bool_decide; [by apply SzlValueLess_laws|by apply SzlValueGreater_laws].
Qed.

(** The element and its encoded weight in one string. *)
Definition shown (ops : SzlOps) (x : Elem) : bytes := value x ++ wcode ops (weight x).

Lemma display_elems_spec ops es :
  ops_ok ops -> Forall (elem_good ops) es -> display_elems ops es = Ok (map (shown ops) es).
Proof.
  intros Hops. induction 1 as [|x es (Hv & Hw & He & _) Hes IH]; [done|].
  destruct (wcode_spec ops Hops (weight x)) as (_ & Henc & _ & _); [apply Hw|done|].
  cbn [display_elems map]. rewrite Henc. cbn [mbind res_bind]. by rewrite IH.
Qed.

(** C15. Aggregation of a maximum or minimum table over shards, each keeping only
    its [m] best elements: if the memory of new entries is zero, flushing every
    shard and merging the strings never fails, and displays the [m] best of all
    the elements added anywhere, best first, each with its encoded weight; the
    count is that of all elements. *)
Theorem maximum_sharded ops table m shards :
  ops_ok ops -> 0 < m < 2 ^ 31 ->
  let cmp := max_cmp table ops in
  let all := concat shards in
  Forall (Forall (fun x => elem_good ops (elem_of_pair x))) shards -> Z.of_nat (length all) < 2 ^ 63 ->
  exists e es e', @aggregate _ _ (max_methods ops cmp) (max_feed ops cmp) (max_new m 0) shards = Ok e
  /\ keeps cmp (Z.to_nat m) (map elem_of_pair all) es /\ StronglySorted (desc cmp) es
  /\ max_FlushForDisplay ops cmp e = Ok (match all with [] => [[]] | _ => map (shown ops) es end, e')
  /\ max_tot e = Z.of_nat (length all).
Proof.
  intros Hops Hm cmp all Hs Hlen. pose proof (max_cmp_laws table ops Hops) as L. fold cmp in L.
  pose proof (proj2 (Forall_concat _ _) Hs) as Hall. fold all in Hall.
  assert (max_fits ops all) as Hfit by (split; [by apply Forall_map|done]).
  destruct (@aggregate_holds _ _ _ _ _ _ _ _ _ (max_contract ops Hops cmp m Hm) shards Hfit Hs)
    as (e & He & HM & Hinv & Ht & Hk). fold all in Ht, Hk.
  pose proof Hinv as (_ & Hheap & Hok). apply IsHeap_spec in Hheap.
  destruct (Sort_spec (weight_ok ops) cmp (max_heap e) Hok Hheap) as [S1 S2].
  assert (keeps cmp (Z.to_nat m) (map elem_of_pair all) (heap_ (Sort cmp (max_heap e)))) as Hks
    by (apply (keeps_perm cmp _ (map elem_of_pair all) _ (heap_ (max_heap e))); [done|by symmetry|done]).
  pose proof (keeps_length _ _ _ _ Hk) as Hkl. rewrite length_map in Hkl.
  assert (exists e', max_FlushForDisplay ops cmp e
    = Ok (match all with [] => [[]] | _ => map (shown ops) (heap_ (Sort cmp (max_heap e))) end, e')) as [e' E'].
  { unfold max_FlushForDisplay, nElems.
    destruct all as [|x l]; [cbn in Hkl; rewrite Nat.min_0_r in Hkl; rewrite Hkl; by eexists|].
    destruct (Z.eqb_spec (Z.of_nat (length (heap_ (max_heap e)))) 0) as [E|E]; [cbn [length] in Hkl; lia|].
    rewrite display_elems_spec; [by eexists|done|]. by apply (keeps_goods ops cmp _ _ _ Hks), Hfit. }
  by exists e, (heap_ (Sort cmp (max_heap e))), e'.
Qed.

Lemma int_elem_good v z : bytes_ok v -> is_s64 z -> elem_good int_ops (MkElem v (VInt z)).
Proof. intros Hv Hz. split; [done|]. split; [by apply int_weight_ok|]. by split. Qed.

Definition sample_weighted : list (list (bytes * SzlValue)) :=
  [[([1], VInt 5); ([2], VInt 3)]; []; [([3], VInt 9); ([4], VInt 9); ([5], VInt 1)]].
Lemma sample_weighted_good : Forall (Forall (fun x => elem_good int_ops (elem_of_pair x))) sample_weighted.
Proof.
  repeat (apply Forall_cons; split); try apply Forall_nil_2; apply int_elem_good;
    try (by apply (bool_decide_unpack _)); apply Forall_singleton; unfold is_u8; lia.
Qed.

Lemma maximum_sharded_witness :
  let cmp := max_cmp "minimum" int_ops in
  let all := concat sample_weighted in
  exists e es e', @aggregate _ _ (max_methods int_ops cmp) (max_feed int_ops cmp) (max_new 2 0) sample_weighted = Ok e
  /\ keeps cmp (Z.to_nat 2) (map elem_of_pair all) es /\ StronglySorted (desc cmp) es
  /\ max_FlushForDisplay int_ops cmp e = Ok (match all with [] => [[]] | _ => map (shown int_ops) es end, e')
  /\ max_tot e = Z.of_nat (length all).
Proof.
  apply (maximum_sharded int_ops "minimum" 2 sample_weighted);
    [exact int_ops_ok|lia|exact sample_weighted_good|cbn; lia].
Defined.

(** The count an entry starts from is whatever its memory held. When that is
    not zero and the table is not full, the entry's own flush is refused by
    [Merge] (it claims elements left out of a table with room to spare). *)
Theorem maximum_uninitialised_count uninit v z :
  is_s64 uninit -> uninit <> 0 -> bytes_ok v -> is_s64 z ->
  let cmp := max_cmp "maximum" int_ops in
  exists s new, run_shard (H := max_methods int_ops cmp) (max_feed int_ops cmp) (max_new 2 uninit) [(v, VInt z)] = Ok s
  /\ max_new 2 0 = new /\ max_Merge int_ops cmp s new = Ok (MergeError, new).
Proof.
  intros Hu Hu0 Hv Hz cmp.
  pose proof (int_elem_good v z Hv Hz) as Hg.
  pose (x := MkElem v (VInt z)).
  exists (enc_prim (PInt uninit) ++ enc_prim (PInt 1) ++ elem_code int_ops x), (max_new 2 0).
  assert (bytes_ok (enc_prim (PInt 1) ++ elem_code int_ops x)) as Hb.
  { apply Forall_app. split; [apply enc_prim_ok; unfold prim_ok, is_s64; lia|].
    apply (elem_skippable int_ops int_ops_ok x Hg). }
  split; [|split; [done|]].
  - assert (exists k, max_feed int_ops cmp (v, VInt z) (max_new 2 uninit)
      = Ok (k, MkMax (MkHeap [x] 2) (s64 (uninit + 1)))) as [k E] by by eexists.
    unfold run_shard. cbn [feed_all]. rewrite E. cbn [mbind res_bind entry_Flush max_methods].
    unfold max_Flush. change (nElems (max_heap (MkMax (MkHeap [x] 2) (s64 (uninit + 1))))) with 1.
    change (heap_ (Sort cmp (max_heap (MkMax (MkHeap [x] 2) (s64 (uninit + 1)))))) with [x].
    cbn [max_tot Z.eqb]. assert (s64 (s64 (uninit + 1) - 1) = uninit) as ->.
    { replace (s64 (uninit + 1) - 1) with (s64 (uninit + 1) + -1) by lia. rewrite s64_add_l.
      replace (uninit + 1 + -1) with uninit by lia. by apply s64_id. }
    rewrite !PutInt_enc by (done || (unfold is_s64; lia)).
    rewrite (put_elems_spec int_ops int_ops_ok [x]) by by apply Forall_singleton. cbn [mbind res_bind].
    change (fst (enc_Swap ?y)) with (data_ y). cbn [AppendEncoding data_ enc_new map concat].
    by rewrite app_nil_r, <- !app_assoc.
  - destruct (enc_int_ne uninit (enc_prim (PInt 1) ++ elem_code int_ops x)) as (b & r & Er).
    unfold max_Merge. rewrite Er, <- Er. unfold dec_Init. rewrite GetInt_enc by done.
    rewrite GetInt_enc; [|unfold is_s64; lia|by apply (elem_skippable int_ops int_ops_ok x Hg)].
    cbn [max_heap max_new heap_new maxElems_]. rewrite (proj2 (Z.eqb_neq _ _)) by done. done.
Qed.

Lemma maximum_uninitialised_count_witness :
  let cmp := max_cmp "maximum" int_ops in
  exists s new, run_shard (H := max_methods int_ops cmp) (max_feed int_ops cmp) (max_new 2 17) [([7], VInt 5)] = Ok s
  /\ max_new 2 0 = new /\ max_Merge int_ops cmp s new = Ok (MergeError, new).
Proof.
  apply maximum_uninitialised_count; [unfold is_s64; lia|done| |unfold is_s64; lia].
  apply Forall_singleton. unfold is_u8. lia.
Defined.

Lemma join_elems_spec ops es s :
  ops_ok ops -> Forall (elem_good ops) es ->
  join_elems ops (length es) (MkDec s (concat (map (elem_code ops) es))) = Ok (map (shown ops) es).
Proof.
  intros Hops. induction 1 as [|x es (Hv & Hw & He & _) Hes IH]; [done|].
  assert (bytes_ok (concat (map (elem_code ops) es))) as Hb
    by (by apply (skippable_concat_ok (skip_elem ops)), elems_skippable).
  destruct (wcode_spec ops Hops (weight x)) as (Hwb & _ & Hskip & _); [apply Hw|done|].
  cbn [length join_elems map concat]. unfold elem_code at 1. rewrite <- app_assoc.
  rewrite GetBytes_enc by (done || by apply Forall_app). cbn [check_some mbind res_bind].
  rewrite Hskip by done. cbn [check_some mbind res_bind]. rewrite IH. cbn [mbind res_bind].
  by rewrite between_app.
Qed.

(** A reader of the flushed string of a maximum or minimum table gets back the
    best elements, best first, with their weights, and the number of all the
    elements added. *)
Theorem maximum_results_round_trip ops table m l e :
  ops_ok ops -> 0 < m < 2 ^ 31 -> l <> [] ->
  let cmp := max_cmp table ops in
  max_fits ops l -> max_holds ops cmp m l e ->
  exists s e' es, max_Flush ops cmp e = Ok (s, e')
  /\ keeps cmp (Z.to_nat m) (map elem_of_pair l) es /\ StronglySorted (desc cmp) es
  /\ max_ParseFromString ops m s = Ok (true, MkMaxResults (map (shown ops) es) (Z.of_nat (length l))).
Proof.
  intros Hops Hm Hl cmp Hf Hh. pose proof (max_cmp_laws table ops Hops) as L. fold cmp in L.
  pose proof Hh as (HM & Hinv & Ht & Hk). pose proof Hinv as (_ & Hheap & Hok). apply IsHeap_spec in Hheap.
  destruct (Sort_spec (weight_ok ops) cmp (max_heap e) Hok Hheap) as [S1 S2].
  destruct (Sort_keeps ops cmp m l (max_heap e) Hinv Hk) as [Hks Hsl].
  set (es := heap_ (Sort cmp (max_heap e))) in *.
  pose proof (keeps_length _ _ _ _ Hks) as Hel. rewrite length_map in Hel.
  pose proof (keeps_goods ops cmp _ _ _ Hks (proj1 Hf)) as Hges.
  destruct Hf as [_ Hlen]. assert (length l <> 0)%nat as Hl0 by (by destruct l).
  pose proof (elems_skippable ops Hops es Hges) as Hsk. pose proof (skippable_concat_ok _ _ Hsk) as Hcat.
  set (n := Z.of_nat (length es)). set (x := Z.of_nat (length l) - n).
  assert (is_s64 n /\ is_s64 x /\ 0 < n <= m) as (Hn & Hx & Hnm) by (unfold is_s64, x, n in *; lia).
  exists (max_msg ops es (Z.of_nat (length l))), (max_Clear (MkMax (Sort cmp (max_heap e)) (max_tot e))), es.
  split; [|split; [done|split; [done|]]].
  - unfold max_Flush, nElems. rewrite <- Hsl. fold n. rewrite Ht, s64_id by done.
    rewrite (proj2 (Z.eqb_neq _ _)) by lia. rewrite !PutInt_enc by done. fold es.
    rewrite put_elems_spec by done. cbn [mbind res_bind]. unfold max_msg, counted_msg. fold n. fold x.
    change (fst (enc_Swap ?y)) with (data_ y). cbn [AppendEncoding data_ enc_new]. by rewrite <- !app_assoc.
  - unfold max_ParseFromString, max_msg. fold n. fold x.
    destruct (counted_msg_spec (skip_elem ops) x n _ Hx Hn Hsk) as ((b & r & Er) & G1 & G2 & Hskn & E1 & E2).
    rewrite length_map in Hskn. set (whole := counted_msg x n (concat (map (elem_code ops) es))) in *.
    rewrite Er, <- Er, G1, G2.
    assert ((m <? n) || ((n <? m) && negb (x =? 0)) = false) as ->.
    { rewrite (proj2 (Z.ltb_ge _ _)) by lia. cbn [orb]. destruct (Z.ltb_spec n m); [|done].
      replace x with 0 by (unfold x, n in *; lia). done. }
    assert (Z.to_nat n = length es) as -> by (unfold n; lia).
    rewrite Hskn. cbn [done_ p_ negb]. rewrite E1. cbn [check_some mbind res_bind]. rewrite E2.
    cbn [check_some mbind res_bind]. rewrite join_elems_spec by done. cbn [mbind res_bind].
    do 3 f_equal. unfold x. replace (Z.of_nat (length l) - n + n) with (Z.of_nat (length l)) by lia.
    apply s64_id. unfold is_s64. lia.
Qed.

Definition sample_max : SzlMaximumEntry := MkMax sample_heap 3.
Lemma maximum_results_round_trip_witness :
  let cmp := max_cmp "maximum" int_ops in
  let l := [([2], VInt 3); ([3], VInt 4); ([1], VInt 5)] in
  exists s e' es, max_Flush int_ops cmp sample_max = Ok (s, e')
  /\ keeps cmp (Z.to_nat 3) (map elem_of_pair l) es /\ StronglySorted (desc cmp) es
  /\ max_ParseFromString int_ops 3 s = Ok (true, MkMaxResults (map (shown int_ops) es) (Z.of_nat (length l))).
Proof.
  apply (maximum_results_round_trip int_ops "maximum" 3); [exact int_ops_ok|lia|done| |].
  - split; [|cbn; lia]. cbn [map elem_of_pair fst snd].
    repeat (apply Forall_cons; split; [apply int_elem_good; [apply Forall_singleton; unfold is_u8; lia|unfold is_s64; lia]|]).
    constructor.
  - split; [done|]. split; [exact sample_heap_inv|]. split; [done|]. by apply keeps_small.
Defined.
