(* ===== verification/UniqueTable.v ===== *)
(** * The unique table: emitters/szlunique.cc and szluniqueresults.cc

    An entry keeps the smallest hashes of the elements it was given, as many as
    the table's parameter, in a heap with the biggest on top, and estimates from
    them how many different elements there were. [MD5Digest] is a parameter, and
    so is what the code reads of its own stack beyond the bytes it wrote. *)
From Stdlib Require Import ZArith Lia.
From stdpp Require Import prelude sorting gmap.
From S2P Require Import Prelude SzlType Encoder Decoder Codec Reads SzlValue ValueCodec Numbers Heap TabEntry.

Local Open Scope Z_scope.
Local Open Scope szl_scope.

(** ** Hashes *)

Definition kHashSize : nat := 24.

(* @src src/src/emitters/szlunique.cc 135-140 SzlUniqueEntry::PackUniqueHash *)
Definition PackUniqueHash (mem : bytes) : Z :=
  let word i := u32 (Z.lor (Z.lor (Z.lor (Z.shiftl (byte_at mem i) 24) (Z.shiftl (byte_at mem (S i)) 16))
                     (Z.shiftl (byte_at mem (S (S i))) 8)) (byte_at mem (S (S (S i))))) in
  Z.lor (u64 (Z.shiftl (word 0%nat) 32)) (word 4%nat).

(** The 8 bytes written. *)
(* @src src/src/emitters/szlunique.cc 144-155 SzlUniqueEntry::UnpackUniqueHash *)
Definition UnpackUniqueHash (hash : Z) : bytes :=
  let hhi := u32 (Z.shiftr hash 32) in
  let hlo := u32 hash in
  [u8 (Z.shiftr hhi 24); u8 (Z.shiftr hhi 16); u8 (Z.shiftr hhi 8); u8 hhi;
   u8 (Z.shiftr hlo 24); u8 (Z.shiftr hlo 16); u8 (Z.shiftr hlo 8); u8 hlo].

(* @src src/src/public/hashutils.h 80-87 Log2Int *)
Fixpoint log2_loop (fuel : nat) (x count : Z) : Z :=
  match fuel with
  | O => count
  | S fuel => if x =? 0 then count else log2_loop fuel (Z.shiftr x 1) (count + 1)
  end.
(** 64 rounds clear a [uint64]. *)
(* @src src/src/public/hashutils.h 80-87 Log2Int *)
Definition Log2Int (x : Z) : Z := log2_loop 64 x (-1).

(** ** The heap, the biggest hash on top *)

(* @src src/src/emitters/szlunique.cc 199-206 SzlUniqueEntry::FixHeapUp *)
Fixpoint uq_fix_up (fuel : nat) (l : list Z) (h : nat) (e : Z) : list Z :=
  match fuel with
  | O => <[h := e]> l
  | S fuel =>
      if (h =? 0)%nat then <[h := e]> l
      else
        let pe := l !!! parent h in
        if negb (pe <? e) then <[h := e]> l
        else uq_fix_up fuel (<[h := pe]> l) (parent h) e
  end.

(* @src src/src/emitters/szlunique.cc 195-211 SzlUniqueEntry::FixHeapUp *)
Definition uq_FixHeapUp (h : nat) (l : list Z) : list Z :=
  if (h <? length l)%nat then uq_fix_up h l h (l !!! h) else l.

(* @src src/src/emitters/szlunique.cc 221-228 SzlUniqueEntry::FixHeapDown *)
Definition uq_bigger_kid (l : list Z) (kid nheap : nat) : nat :=
  if (kid + 1 <? nheap)%nat && (l !!! kid <? l !!! (kid + 1)%nat) then (kid + 1)%nat else kid.

(* @src src/src/emitters/szlunique.cc 217-233 SzlUniqueEntry::FixHeapDown *)
Fixpoint uq_fix_down (fuel : nat) (l : list Z) (h nheap : nat) (e : Z) : list Z :=
  match fuel with
  | O => l
  | S fuel =>
      let kid := (2 * h + 1)%nat in
      if (nheap <=? kid)%nat then <[h := e]> l
      else
        let kid := uq_bigger_kid l kid nheap in
        let ke := l !!! kid in
        if negb (e <? ke) then <[h := e]> l
        else uq_fix_down fuel (<[h := ke]> l) kid nheap e
  end.

(* @src src/src/emitters/szlunique.cc 214-238 SzlUniqueEntry::FixHeapDown *)
Definition uq_FixHeapDown (h nheap : nat) (l : list Z) : list Z :=
  if (h <? nheap)%nat then uq_fix_down (nheap - h) l h nheap (l !!! h) else l.

(** As a heap, or in order. *)
(* @src src/src/emitters/szlunique.cc 241-251 SzlUniqueEntry::IsHeap *)
Definition uq_IsHeap (isSorted : bool) (l : list Z) : bool :=
  forallb (fun i => l !!! i <? l !!! (if isSorted then (i - 1)%nat else parent i)) (seq 1 (length l - 1)).

(* @src src/src/emitters/szlunique.cc 259-264 SzlUniqueEntry::Sort *)
Fixpoint uq_sort_loop (ne : nat) (l : list Z) : list Z :=
  match ne with
  | O => l
  | S ne => if (ne =? 0)%nat then l else uq_sort_loop ne (uq_FixHeapDown 0 ne (swap 0 ne l))
  end.

(* @src src/src/emitters/szlunique.cc 254-265 SzlUniqueEntry::Sort *)
Definition uq_Sort (l : list Z) : list Z := uq_sort_loop (length l) l.

(* @src src/src/emitters/szlunique.cc 268-279 SzlUniqueEntry::ReHeap *)
Definition uq_ReHeap (l : list Z) : list Z := reheap_loop l.

(** ** Entries *)

(* @src src/src/emitters/szlunique.cc 100-126 SzlUniqueEntry (data members) *)
Record SzlUniqueEntry : Type := MkUnique {
  u_heap : list Z;
  exists_ : gset Z;
  u_maxElems : Z;
  isSorted_ : bool;
  u_tot : Z;
}.

Definition set_uheap (l : list Z) (x : gset Z) (s : bool) (e : SzlUniqueEntry) : SzlUniqueEntry :=
  MkUnique l x (u_maxElems e) s (u_tot e).
Definition set_utot (t : Z) (e : SzlUniqueEntry) : SzlUniqueEntry :=
  MkUnique (u_heap e) (exists_ e) (u_maxElems e) (isSorted_ e) t.

(* @src src/src/emitters/szlunique.cc 66-71 SzlUniqueEntry::SzlUniqueEntry *)
Definition uq_new (param : Z) : SzlUniqueEntry := MkUnique [] ∅ param false 0.

(* @src src/src/emitters/szlunique.cc 78-82 SzlUniqueEntry::Clear *)
Definition uq_Clear (e : SzlUniqueEntry) : SzlUniqueEntry := MkUnique [] ∅ (u_maxElems e) (isSorted_ e) 0.

Section Unique.
Context (MD5Digest : bytes -> bytes) (bucket_count : gset Z -> Z) (sizeof_SzlUniqueEntry : Z).
(** What the caller of [AddHash] gets when it ends without a return; the bytes
    of the stack behind the 8 that [Flush] and [Estimate] write. *)
Context (no_return : Z) (flush_stack estimate_stack : bytes).

(* @src src/src/emitters/szlunique.cc 424-432 SzlUniqueEntry::Memory *)
Definition uq_Memory (e : SzlUniqueEntry) : Z :=
  sizeof_SzlUniqueEntry + bucket_count (exists_ e) * 8 + Z.of_nat (size (exists_ e)) * 8 + Z.of_nat (length (u_heap e)) * 8.

(** [heap_.size() < maxElems_] compares as unsigned, with [maxElems_] above 0. *)
(* @src src/src/emitters/szlunique.cc 166-192 SzlUniqueEntry::AddHash *)
Definition AddHash (hash : Z) (e : SzlUniqueEntry) : Z * SzlUniqueEntry :=
  let e := set_utot (s64 (u_tot e + 1)) e in
  if u_maxElems e <=? 0 then (0, e)
  else if bool_decide (hash ∈ exists_ e) then (0, e)
  else if Z.of_nat (length (u_heap e)) <? u_maxElems e then
    let memory := uq_Memory e in
    let e := set_uheap (uq_FixHeapUp (length (u_heap e)) (u_heap e ++ [hash])) ({[hash]} ∪ exists_ e) false e in
    (uq_Memory e - memory, e)
  else if hash <? u_heap e !!! 0%nat then
    let ex := exists_ e ∖ {[u_heap e !!! 0%nat]} in
    (0, set_uheap (uq_FixHeapDown 0 (length (u_heap e)) (<[0%nat := hash]> (u_heap e))) ({[hash]} ∪ ex) false e)
  else (no_return, e).

(* @src src/src/emitters/szlunique.cc 158-163 SzlUniqueEntry::AddElem *)
Definition uq_AddElem (elem : bytes) (e : SzlUniqueEntry) : res (Z * SzlUniqueEntry) :=
  Ok (AddHash (PackUniqueHash (MD5Digest elem)) e).

(* @src src/src/emitters/szlunique.cc 282-288 SzlUniqueEntry::MakeSortedHeap *)
Definition MakeSortedHeap (e : SzlUniqueEntry) : SzlUniqueEntry :=
  if negb (isSorted_ e) then set_uheap (uq_ReHeap (uq_Sort (u_heap e))) (exists_ e) true e else e.

(** [for (; z < 16; ++z) if (unpacked[z]) break]. *)
(* @src src/src/emitters/szlunique.cc 313-317 SzlUniqueEntry::Estimate *)
Fixpoint leading_zeros (fuel : nat) (unpacked : bytes) (z : nat) : nat :=
  match fuel with
  | O => z
  | S fuel => if byte_at unpacked z =? 0 then leading_zeros fuel unpacked (S z) else z
  end.

(** The end of the estimates: [r * 2^renorm], no more than the elements. [r] is
    a [uint64], with which the [int64] compares as unsigned. *)
(* @src src/src/emitters/szlunique.cc 327-343 SzlUniqueEntry::Estimate *)
Definition renormed (r renorm tot : Z) : Z :=
  let capped r := if u64 tot <? r then tot else s64 r in
  if renorm <? 0 then capped (Z.shiftr r (- renorm))
  else if u64 (Z.shiftr tot renorm) <? r then tot
  else capped (u64 (Z.shiftl r renorm)).

(* @src src/src/emitters/szlunique.cc 292-344 SzlUniqueEntry::Estimate *)
Definition uq_Estimate (e : SzlUniqueEntry) : Z :=
  let size := Z.of_nat (length (u_heap e)) in
  if u_maxElems e <=? 0 then 0
  else if size <? u_maxElems e then size
  else
    let unpacked := UnpackUniqueHash (u_heap e !!! 0%nat) ++ estimate_stack in
    let z := leading_zeros 16 unpacked 0 in
    let b i := byte_at unpacked (z + i) in
    let biggestsmall := u32 (Z.lor (Z.lor (Z.lor (Z.shiftl (b 0%nat) 24) (Z.shiftl (b 1%nat) 16)) (Z.shiftl (b 2%nat) 8)) (b 3%nat)) in
    let biggestsmall := if biggestsmall =? 0 then 1 else biggestsmall in
    let msbnum := Log2Int size in
    let r := u64 (Z.shiftl (u64 (Z.shiftl size (31 - msbnum))) 32) / biggestsmall in
    renormed r (Z.of_nat z * 8 - (31 - msbnum)) (u_tot e).

(* @src src/src/emitters/szlunique.cc 351-370 SzlUniqueEntry::Flush *)
Definition uq_Flush (e : SzlUniqueEntry) : res (bytes * SzlUniqueEntry) :=
  let ne := Z.of_nat (length (u_heap e)) in
  if ne =? 0 then Ok ([], e)
  else
    let enc := PutInt (PutInt enc_new (s64 (u_tot e - ne))) ne in
    let e := MakeSortedHeap e in
    let enc := fold_left (fun enc h => PutBytes enc (UnpackUniqueHash h ++ flush_stack)) (u_heap e) enc in
    Ok (fst (enc_Swap enc), uq_Clear e).

(* @src src/src/emitters/szlunique.cc 375-388 SzlUniqueEntry::FlushForDisplay *)
Definition uq_FlushForDisplay (e : SzlUniqueEntry) : res (list bytes * SzlUniqueEntry) :=
  if u_tot e =? 0 then Ok ([[]], e)
  else Ok ([fst (enc_Swap (PutInt enc_new (uq_Estimate e)))], e).

(* @src src/src/emitters/szlunique.cc 409-415 SzlUniqueEntry::Merge *)
Fixpoint uq_merge_loop (n : nat) (dec : SzlDecoder) (e : SzlUniqueEntry) : option SzlDecoder * SzlUniqueEntry :=
  match n with
  | O => (Some dec, e)
  | S n =>
      if negb (bool_decide (peek dec = BYTES)) then (None, e)
      else
        match GetBytes dec with
        | None => (None, e)
        | Some (s, dec) =>
            if negb (length s =? kHashSize)%nat then (None, e)
            else let '(_, e) := AddHash (PackUniqueHash s) e in uq_merge_loop n dec e
        end
  end.

(* @src src/src/emitters/szlunique.cc 393-421 SzlUniqueEntry::Merge *)
Definition uq_Merge (val : bytes) (e : SzlUniqueEntry) : res (MergeStatus * SzlUniqueEntry) :=
  match val with
  | [] => Ok (MergeOk, e)
  | _ =>
      match GetInt (dec_Init val) with
      | None => Ok (MergeError, e)
      | Some (extra, dec) =>
          match GetInt dec with
          | None => Ok (MergeError, e)
          | Some (nvals, dec) =>
              if nvals =? 0 then Ok (MergeOk, e)
              else
                match uq_merge_loop (Z.to_nat nvals) dec e with
                | (None, e) => Ok (MergeError, e)
                | (Some dec, e) =>
                    if negb (done_ dec) then Ok (MergeError, e)
                    else Ok (MergeOk, set_utot (s64 (u_tot e + extra)) e)
                end
          end
      end
  end.

(* @src src/src/emitters/szlunique.cc 85-85 SzlUniqueEntry::TupleCount *)
Definition uq_TupleCount (e : SzlUniqueEntry) : res Z := Ok 1.

Definition unique_methods : SzlTabEntry SzlUniqueEntry := {|
  entry_AddElem := uq_AddElem;
  entry_AddWeightedElem := default_AddWeightedElem;
  entry_Flush := uq_Flush;
  entry_FlushForDisplay := uq_FlushForDisplay;
  entry_Merge := uq_Merge;
  entry_Clear := fun e => Ok (uq_Clear e);
  entry_TotElems := u_tot;
  entry_TupleCount := uq_TupleCount;
|}.
End Unique.

(** ** Reading results *)

Definition kUniqueLen : nat := 8.

(* @src src/src/emitters/szluniqueresults.cc 121-124 SzlUniqueResults::Estimate *)
Fixpoint high_bit (fuel : nat) (n msbnum : Z) : Z :=
  match fuel with
  | O => msbnum
  | S fuel => if Z.testbit n msbnum then msbnum else high_bit fuel n (msbnum - 1)
  end.

(** [for (; z + 4 < kUniqueLen; ++z) if (bigsmall[z]) break]. *)
(* @src src/src/emitters/szluniqueresults.cc 108-114 SzlUniqueResults::Estimate *)
Fixpoint leading_zeros_upto (fuel : nat) (bigsmall : bytes) (z : nat) : nat :=
  match fuel with
  | O => z
  | S fuel =>
      if (z + 4 <? kUniqueLen)%nat then
        if byte_at bigsmall z =? 0 then leading_zeros_upto fuel bigsmall (S z) else z
      else z
  end.

(** 32 rounds look at each bit of an [uint32]. *)
(* @src src/src/emitters/szluniqueresults.cc 95-148 Estimate *)
Definition results_Estimate (nelems maxElems totElems : Z) (bigsmall : bytes) : Z :=
  if nelems <? maxElems then nelems
  else
    let z := leading_zeros_upto kUniqueLen bigsmall 0 in
    let b i := byte_at bigsmall (z + i) in
    let biggestsmall := u32 (Z.lor (Z.lor (Z.lor (Z.shiftl (b 0%nat) 24) (Z.shiftl (b 1%nat) 16)) (Z.shiftl (b 2%nat) 8)) (b 3%nat)) in
    let biggestsmall := if biggestsmall =? 0 then 1 else biggestsmall in
    let n := u32 nelems in
    let msbnum := high_bit 32 n 31 in
    let r := u64 (Z.shiftl (u32 (Z.shiftl n (31 - msbnum))) 32) / biggestsmall in
    renormed r (Z.of_nat z * 8 - (31 - msbnum)) totElems.

(* @src src/src/emitters/szluniqueresults.cc 86-88 SzlUniqueResults (data members) *)
Record UniqueResults : Type := MkUniqueResults { uniques_ : list bytes; ur_tot : Z }.

(* @src src/src/emitters/szluniqueresults.cc 167-174 SzlUniqueResults::UnpackAndEstimate *)
Fixpoint check_hashes (n : nat) (dec : SzlDecoder) : option SzlDecoder :=
  match n with
  | O => Some dec
  | S n =>
      if negb (bool_decide (peek dec = BYTES)) then None
      else
        match GetBytes dec with
        | None => None
        | Some (s, dec) => if negb (length s =? kUniqueLen)%nat then None else check_hashes n dec
        end
  end.

(** What it returns, and [totElems_]. *)
(* @src src/src/emitters/szluniqueresults.cc 152-193 SzlUniqueResults::UnpackAndEstimate *)
Definition UnpackAndEstimate (maxUniques : Z) (val : bytes) : res (Z * Z) :=
  match val with
  | [] => Ok (0, 0)
  | _ =>
      match GetInt (dec_Init val) with
      | None => Ok (-1, 0)
      | Some (extra, dec) =>
          match GetInt dec with
          | None => Ok (-1, 0)
          | Some (nvals, dec) =>
              if maxUniques <? nvals then Ok (-1, 0)
              else
                match check_hashes (Z.to_nat nvals) dec with
                | None => Ok (-1, 0)
                | Some dec =>
                    if negb (done_ dec) then Ok (-1, 0)
                    else
                      let totElems := s64 (nvals + extra) in
                      if nvals =? 0 then Ok (0, totElems)
                      else
                        dec ← check_some (Skip (Restart dec) INT);
                        dec ← check_some (Skip dec INT);
                        '(s, _) ← check_some (GetBytes dec);
                        if (length s =? kUniqueLen)%nat then Ok (results_Estimate nvals maxUniques totElems s, totElems)
                        else Fatal
                end
          end
      end
  end.

(* @src src/src/emitters/szluniqueresults.cc 195-200 SzlUniqueResults::StoreResult *)
Definition StoreResult (unique : Z) (r : UniqueResults) : UniqueResults :=
  MkUniqueResults [data_ (PutInt enc_new unique)] (ur_tot r).

(* @src src/src/emitters/szluniqueresults.cc 203-209 SzlUniqueResults::ParseFromString *)
Definition unique_ParseFromString (maxUniques : Z) (val : bytes) (r : UniqueResults) : res (bool * UniqueResults) :=
  '(unique, tot) ← UnpackAndEstimate maxUniques val;
  let r := MkUniqueResults (uniques_ r) tot in
  if unique <? 0 then Ok (false, r) else Ok (true, StoreResult unique r).

(** ** Correctness *)

(** *** The heap is that of [SzlHeap] *)

(** The hashes as elements of a heap ordered by "bigger first". *)
Definition hash_elem (z : Z) : ElemOf unit := MkElem tt (VInt z).
Definition bigger : SzlValueCmp := fun a b => vi b <? vi a.

#[local] Instance bigger_laws : CmpLaws (fun _ => True) bigger.
Proof.
  split; unfold bigger.
  - intros a b _ _ H. apply Z.ltb_lt in H. apply Z.ltb_ge. lia.
  - intros a b c _ _ _ H1 H2. apply Z.ltb_ge in H1, H2. apply Z.ltb_ge. lia.
Qed.

Lemma elems_ok (l : list (ElemOf unit)) : wts_ok (fun _ => True) l.
Proof. by apply Forall_true. Qed.

Lemma hash_lookup l i : (i < length l)%nat -> map hash_elem l !!! i = hash_elem (l !!! i).
Proof.
  intros Hi. apply list_lookup_total_correct. rewrite list_lookup_fmap.
  destruct (lookup_lt_is_Some_2 l i Hi) as [x E]. by rewrite (list_lookup_total_correct _ _ _ E), E.
Qed.
Lemma hash_insert_at l i z : map hash_elem (<[i := z]> l) = <[i := hash_elem z]> (map hash_elem l).
Proof. apply (list_fmap_insert hash_elem l i z). Qed.

Lemma uq_fix_up_sim fuel l h e : (h < length l)%nat ->
  map hash_elem (uq_fix_up fuel l h e) = fix_up bigger fuel (map hash_elem l) h (hash_elem e).
Proof.
  revert l h. induction fuel as [|fuel IH]; intros l h Hh; cbn [uq_fix_up fix_up]; [apply hash_insert_at|].
  destruct (Nat.eqb_spec h 0); [apply hash_insert_at|]. pose proof (parent_lt h ltac:(lia)).
  rewrite hash_lookup by lia. unfold bigger at 1. cbn [weight hash_elem vi].
  destruct (negb _); [apply hash_insert_at|]. rewrite IH by (rewrite length_insert; lia). by rewrite hash_insert_at.
Qed.

Lemma uq_FixHeapUp_sim l h : (h < length l)%nat ->
  map hash_elem (uq_FixHeapUp h l) = FixHeapUp bigger h (map hash_elem l).
Proof.
  intros Hh. unfold uq_FixHeapUp, FixHeapUp. rewrite (proj2 (Nat.ltb_lt _ _) Hh), uq_fix_up_sim by done.
  by rewrite hash_lookup.
Qed.

(** Down, the two stop at different places for equal hashes, of which there are none. *)
Lemma uq_fix_down_sim fuel l h n e :
  (n <= length l)%nat -> (h < n)%nat -> (forall i, (h < i < n)%nat -> l !!! i <> e) ->
  map hash_elem (uq_fix_down fuel l h n e) = fix_down bigger fuel (map hash_elem l) h n (hash_elem e).
Proof.
  revert l h. induction fuel as [|fuel IH]; intros l h Hn Hh Hne; cbn [uq_fix_down fix_down]; [done|].
  destruct (Nat.leb_spec n (2 * h + 1)); [apply hash_insert_at|].
  assert (smaller_kid bigger (map hash_elem l) (2 * h + 1) n = uq_bigger_kid l (2 * h + 1) n) as ->.
  { unfold smaller_kid, uq_bigger_kid. destruct (Nat.ltb_spec (2 * h + 1 + 1) n); [|done]. rewrite !hash_lookup by lia. done. }
  assert (h < uq_bigger_kid l (2 * h + 1) n < n)%nat as Hk.
  { unfold uq_bigger_kid. destruct (Nat.ltb_spec (2 * h + 1 + 1) n); cbn [andb]; [destruct (_ <? _)|]; lia. }
  set (k := uq_bigger_kid l (2 * h + 1) n) in *. rewrite hash_lookup by lia.
  unfold bigger at 1. cbn [weight hash_elem vi]. specialize (Hne k ltac:(lia)) as Hke.
  assert (negb (e <? l !!! k) = (l !!! k <? e)) as ->.
  { destruct (Z.ltb_spec e (l !!! k)), (Z.ltb_spec (l !!! k) e); lia || done. }
  destruct (_ <? e); [apply hash_insert_at|]. rewrite IH; [by rewrite hash_insert_at|by rewrite length_insert|lia|].
  intros i Hi. rewrite list_lookup_total_insert_ne by lia. apply Hne. lia.
Qed.

Lemma uq_FixHeapDown_sim l n : NoDup l -> (n <= length l)%nat -> (0 < n)%nat ->
  map hash_elem (uq_FixHeapDown 0 n l) = FixHeapDown bigger 0 n (map hash_elem l).
Proof.
  intros Hnd Hn H0. unfold uq_FixHeapDown, FixHeapDown. rewrite (proj2 (Nat.ltb_lt _ _) H0), uq_fix_down_sim;
    [by rewrite hash_lookup by lia|done|done|].
  intros i Hi E. assert (i = 0)%nat; [|lia].
  apply (NoDup_lookup l i 0%nat (l !!! i) Hnd); [by apply list_lookup_lookup_total_lt; lia|].
  rewrite E. apply list_lookup_lookup_total_lt. lia.
Qed.

Lemma hash_elem_perm l l' : map hash_elem l ≡ₚ map hash_elem l' -> l ≡ₚ l'.
Proof.
  intros H. apply (fmap_Permutation (fun x => vi (weight x))) in H.
  assert (forall k, (fun x => vi (weight x)) <$> map hash_elem k = k) as E.
  { intros k. induction k as [|z k IH]; [done|]. cbn. by f_equal. }
  by rewrite !E in H.
Qed.

Lemma uq_bigger_kid_range l h n : (2 * h + 1 < n)%nat -> (h < uq_bigger_kid l (2 * h + 1) n < n)%nat.
Proof.
  intros H. unfold uq_bigger_kid. destruct (Nat.ltb_spec (2 * h + 1 + 1) n); cbn [andb]; [destruct (_ <? _)|]; lia.
Qed.

Lemma uq_fix_down_perm fuel l h n e :
  (n <= length l)%nat -> (h < n)%nat -> (n - h <= fuel)%nat -> uq_fix_down fuel l h n e ≡ₚ <[h := e]> l.
Proof.
  revert l h. induction fuel as [|fuel IH]; intros l h Hn Hh Hf; [lia|]. cbn [uq_fix_down].
  destruct (Nat.leb_spec n (2 * h + 1)); [done|]. pose proof (uq_bigger_kid_range l h n ltac:(lia)) as Hk.
  set (k := uq_bigger_kid l (2 * h + 1) n) in *. destruct (negb _); [done|].
  rewrite IH by (rewrite ?length_insert; lia). apply hole_perm; lia.
Qed.

Lemma uq_FixHeapDown_perm l n : (n <= length l)%nat -> (0 < n)%nat -> uq_FixHeapDown 0 n l ≡ₚ l.
Proof.
  intros Hn H0. unfold uq_FixHeapDown. rewrite (proj2 (Nat.ltb_lt _ _) H0), uq_fix_down_perm by lia.
  by rewrite list_insert_id by (apply list_lookup_lookup_total_lt; lia).
Qed.

Lemma hash_swap i j l : (i < length l)%nat -> (j < length l)%nat -> map hash_elem (swap i j l) = swap i j (map hash_elem l).
Proof. intros Hi Hj. unfold swap. by rewrite !hash_insert_at, !hash_lookup. Qed.

Lemma uq_sort_sim n l : NoDup l -> (n <= length l)%nat ->
  map hash_elem (uq_sort_loop n l) = sort_loop bigger n (map hash_elem l).
Proof.
  revert l. induction n as [|n IH]; intros l Hnd Hn; cbn [uq_sort_loop sort_loop]; [done|].
  destruct (Nat.eqb_spec n 0); [done|].
  assert (length (swap 0 n l) = length l) as Ls by (unfold swap; by rewrite !length_insert).
  assert (swap 0 n l ≡ₚ l) as Hp by (unfold swap; apply Permutation_insert_swap; apply list_lookup_lookup_total_lt; lia).
  assert (NoDup (swap 0 n l)) as Hnd1 by by rewrite Hp.
  pose proof (uq_FixHeapDown_perm (swap 0 n l) n ltac:(lia) ltac:(lia)) as Hp2.
  rewrite IH; [|by rewrite Hp2|rewrite (Permutation_length Hp2); lia].
  rewrite uq_FixHeapDown_sim by (done || lia). by rewrite hash_swap by lia.
Qed.

(** *** The hashes kept *)

Definition uq_heap (l : list Z) : Prop := heap_upto bigger (length l) (map hash_elem l).

Lemma uq_heap_top l : uq_heap l -> forall x, x ∈ l -> x <= l !!! 0%nat.
Proof.
  intros H x Hx. pose proof (heap_root_min (fun _ => True) bigger (map hash_elem l) (elems_ok _)) as Hm.
  rewrite length_map in Hm. specialize (Hm H). rewrite Forall_map in Hm. pose proof (proj1 (Forall_forall _ _) Hm x Hx) as Hle.
  assert (0 < length l)%nat by (destruct l; [by apply elem_of_nil in Hx|cbn; lia]).
  unfold le, wt, bigger in Hle. rewrite hash_lookup in Hle by done. cbn in Hle. apply Z.ltb_ge in Hle. lia.
Qed.

Lemma uq_push_ok l h : uq_heap l ->
  uq_FixHeapUp (length l) (l ++ [h]) ≡ₚ h :: l /\ uq_heap (uq_FixHeapUp (length l) (l ++ [h])).
Proof.
  intros Hl. set (l1 := l ++ [h]). assert (length l1 = S (length l)) as L1 by (unfold l1; rewrite length_app; cbn; lia).
  destruct (FixHeapUp_spec (fun _ => True) bigger (map hash_elem l1) (length l)) as [H1 H2];
    [rewrite length_map; lia|apply elems_ok|..|].
  - rewrite length_map. intros i Hi Hne. pose proof (parent_lt i ltac:(lia)). specialize (Hl i ltac:(lia)).
    unfold wt in *. unfold l1. rewrite map_app, !lookup_total_app_l by (rewrite length_map; lia). exact Hl.
  - rewrite length_map. intros i Hi Hp. pose proof (parent_lt i ltac:(lia)). lia.
  - rewrite <- uq_FixHeapUp_sim in H1, H2 by lia.
    assert (uq_FixHeapUp (length l) l1 ≡ₚ l1) as Hp by by apply hash_elem_perm. split.
    + rewrite Hp. unfold l1. by rewrite Permutation_app_comm.
    + unfold uq_heap. by rewrite (Permutation_length Hp), <- (length_map hash_elem).
Qed.

Lemma uq_replace_ok l h : NoDup (<[0%nat := h]> l) -> uq_heap l -> (0 < length l)%nat ->
  uq_FixHeapDown 0 (length l) (<[0%nat := h]> l) ≡ₚ <[0%nat := h]> l
  /\ uq_heap (uq_FixHeapDown 0 (length l) (<[0%nat := h]> l)).
Proof.
  intros Hnd Hl H0. assert (length (<[0%nat := h]> l) = length l) as L by apply length_insert.
  pose proof (uq_FixHeapDown_perm (<[0%nat := h]> l) (length l) ltac:(lia) H0) as Hp. split; [done|].
  destruct (FixHeapDown_spec (fun _ => True) bigger (map hash_elem (<[0%nat := h]> l)) 0 (length l)) as (_ & H2 & _);
    [rewrite length_map; lia|lia|apply elems_ok|..|].
  - intros i Hi Hne. specialize (Hl i ltac:(lia)). pose proof (parent_lt i ltac:(lia)).
    unfold wt in *. rewrite !hash_lookup in * by lia. rewrite !list_lookup_total_insert_ne by lia. exact Hl.
  - lia.
  - rewrite <- uq_FixHeapDown_sim in H2 by (done || lia). unfold uq_heap. by rewrite (Permutation_length Hp), L.
Qed.

(** [K] are the [m] smallest of [S], or all of them. *)
Definition smallest (m : nat) (S K : gset Z) : Prop :=
  K ⊆ S /\ (size K <= m)%nat /\ forall y, y ∈ S -> y ∉ K -> size K = m /\ forall x, x ∈ K -> x < y.

Lemma smallest_add_room m S K x : smallest m S K -> (size K < m)%nat -> x ∉ K -> smallest m ({[x]} ∪ S) ({[x]} ∪ K).
Proof.
  intros (H1 & H2 & H3) Hlt Hx. split; [set_solver|]. split; [rewrite size_union, size_singleton by set_solver; lia|].
  intros y Hy Hn. destruct (H3 y) as [E _]; [set_solver|set_solver|]. lia.
Qed.

Lemma smallest_add_known m S K x : smallest m S K -> x ∈ K -> smallest m ({[x]} ∪ S) K.
Proof. intros (H1 & H2 & H3) Hx. assert ({[x]} ∪ S = S) as -> by set_solver. done. Qed.

Lemma smallest_add_big m S K x t :
  smallest m S K -> size K = m -> t ∈ K -> (forall y, y ∈ K -> y <= t) -> t < x -> smallest m ({[x]} ∪ S) K.
Proof.
  intros (H1 & H2 & H3) Hm Ht Hmax Hx. split; [set_solver|]. split; [lia|]. intros y Hy Hn.
  apply elem_of_union in Hy as [Hy|Hy]; [|by apply H3]. apply elem_of_singleton in Hy as ->. split; [done|].
  intros z Hz. specialize (Hmax z Hz). lia.
Qed.

Lemma smallest_add_small m S K x t :
  smallest m S K -> size K = m -> t ∈ K -> (forall y, y ∈ K -> y <= t) -> x < t -> x ∉ K ->
  smallest m ({[x]} ∪ S) ({[x]} ∪ K ∖ {[t]}).
Proof.
  intros (H1 & H2 & H3) Hm Ht Hmax Hx Hn.
  assert (size ({[x]} ∪ K ∖ {[t]}) = m) as Hsize.
  { rewrite size_union, size_singleton by set_solver. rewrite size_difference, size_singleton by set_solver.
    assert (0 < size K)%nat; [|lia]. apply Nat.neq_0_lt_0. intros E. apply size_empty_inv in E. set_solver. }
  split; [set_solver|]. split; [lia|]. intros y Hy Hny. split; [done|]. intros z Hz.
  assert (t <= y) as Hty.
  { destruct (decide (y = t)); [lia|]. destruct (H3 y) as [_ H]; [set_solver|set_solver|]. specialize (H t Ht). lia. }
  apply elem_of_union in Hz as [Hz%elem_of_singleton|Hz]; [lia|]. apply elem_of_difference in Hz as [Hz Hzt].
  specialize (Hmax z Hz). assert (z <> t) by set_solver. lia.
Qed.

Lemma smallest_union m S S' K K' : smallest m S' K' -> smallest m (S ∪ K') K -> smallest m (S ∪ S') K.
Proof.
  intros (H1 & H2 & H3) (J1 & J2 & J3). split; [set_solver|]. split; [done|]. intros y Hy Hn.
  destruct (decide (y ∈ S ∪ K')) as [Hin|Hout]; [by apply J3|]. destruct (H3 y) as [Hm Hlt]; [set_solver|set_solver|].
  destruct (decide (K' ⊆ K)) as [Hsub|Hnsub].
  - assert (K = K') as ->; [|done]. symmetry. apply set_eq_subseteq. split; [done|].
    intros x Hx. destruct (decide (x ∈ K')) as [|Hx']; [done|exfalso].
    assert (size ({[x]} ∪ K') <= size K)%nat as Hs by (apply subseteq_size; set_solver).
    rewrite size_union, size_singleton in Hs by set_solver. lia.
  - assert (exists z, z ∈ K' /\ z ∉ K) as (z & Hz & Hz').
    { destruct (decide (Forall (fun z => z ∈ K) (elements K'))) as [Hf|Hf].
      - exfalso. apply Hnsub. intros z Hz. rewrite Forall_forall in Hf. apply Hf. by apply elem_of_elements.
      - apply not_Forall_Exists in Hf; [|apply _]. apply Exists_exists in Hf as (z & Hz & Hz'). exists z.
        by rewrite <- elem_of_elements. }
    destruct (J3 z) as [Jm Jlt]; [set_solver|done|]. split; [done|]. intros x Hx. specialize (Jlt x Hx). specialize (Hlt z Hz). lia.
Qed.

Lemma smallest_empty m S K : (0 < m)%nat -> smallest m S K -> K = ∅ -> S = ∅.
Proof.
  intros Hm (_ & _ & H) ->. apply set_eq. intros x. split; [|by intros ?%elem_of_empty]. intros Hx.
  destruct (H x Hx) as [E _]; [apply not_elem_of_empty|]. rewrite size_empty in E. lia.
Qed.

(** *** Hashes as bytes *)

Lemma PackUniqueHash_range mem : is_u64 (PackUniqueHash mem).
Proof.
  unfold PackUniqueHash. apply lor_range; [lia|apply u64_range|]. pose proof (u32_range) as H. unfold is_u32 in H.
  match goal with |- 0 <= u32 ?x < _ => specialize (H x) end. lia.
Qed.

Lemma Unpack_be h : UnpackUniqueHash h = be_bytes 8 h.
Proof. rewrite <- packUint64_be. done. Qed.

Lemma pack_word a b c d : is_u8 a -> is_u8 b -> is_u8 c -> is_u8 d ->
  u32 (Z.lor (Z.lor (Z.lor (Z.shiftl a 24) (Z.shiftl b 16)) (Z.shiftl c 8)) d) = be_val [a; b; c; d].
Proof.
  unfold is_u8. intros Ha Hb Hc Hd. rewrite !Z.shiftl_mul_pow2 by lia. rewrite (lor_shift_add a) by lia.
  replace (a * 2 ^ 24 + b * 2 ^ 16) with ((a * 2 ^ 8 + b) * 2 ^ 16) by lia. rewrite lor_shift_add by lia.
  replace ((a * 2 ^ 8 + b) * 2 ^ 16 + c * 2 ^ 8) with ((a * 2 ^ 16 + b * 2 ^ 8 + c) * 2 ^ 8) by lia.
  rewrite lor_shift_add by lia. rewrite u32_id by (unfold is_u32; lia). unfold be_val. cbn. lia.
Qed.

Lemma Pack_val mem rest : bytes_ok mem -> length mem = 8%nat -> PackUniqueHash (mem ++ rest) = be_val mem.
Proof.
  intros Hm Hl. destruct mem as [|a [|b [|c [|d [|e [|f [|g [|h [|]]]]]]]]]; try discriminate Hl.
  unfold bytes_ok in Hm. repeat match goal with H : Forall _ (_ :: _) |- _ => apply Forall_cons in H as [? ?] end.
  unfold PackUniqueHash, byte_at. cbn [app nth]. rewrite !pack_word by done.
  pose proof (be_val_range [a; b; c; d] ltac:(unfold bytes_ok; repeat (apply Forall_cons_2; [done|]); apply Forall_nil_2)) as R1.
  pose proof (be_val_range [e; f; g; h] ltac:(unfold bytes_ok; repeat (apply Forall_cons_2; [done|]); apply Forall_nil_2)) as R2.
  change (256 ^ Z.of_nat (length _)) with (2 ^ 32) in R1. change (256 ^ Z.of_nat (length _)) with (2 ^ 32) in R2.
  rewrite Z.shiftl_mul_pow2, u64_id by (unfold is_u64; lia). rewrite lor_shift_add by lia.
  change [a; b; c; d; e; f; g; h] with ([a; b; c; d] ++ [e; f; g; h]). rewrite be_val_app. done.
Qed.

Lemma Pack_Unpack h rest : is_u64 h -> PackUniqueHash (UnpackUniqueHash h ++ rest) = h.
Proof.
  intros Hh. rewrite Unpack_be, Pack_val by (apply be_bytes_ok || apply length_be_bytes). rewrite be_val_be_bytes.
  apply Z.mod_small. exact Hh.
Qed.

(** *** The order of a flush *)

Definition not_below (a b : Z) : Prop := b <= a.
#[local] Instance not_below_dec a b : Decision (not_below a b) := decide (b <= a).
#[local] Instance not_below_total : Total not_below.
Proof. intros a b. unfold not_below. lia. Qed.
#[local] Instance not_below_trans : Transitive not_below.
Proof. intros a b c. unfold not_below. lia. Qed.
#[local] Instance not_below_antisymm : AntiSymm (=) not_below.
Proof. intros a b. unfold not_below. lia. Qed.

(** The hashes of a set, biggest first. *)
Definition biggest_first (K : gset Z) : list Z := merge_sort not_below (elements K).

Lemma biggest_first_perm l : NoDup l -> biggest_first (list_to_set l) ≡ₚ l.
Proof. intros Hnd. unfold biggest_first. by rewrite merge_sort_Permutation, elements_list_to_set. Qed.

Lemma biggest_first_unique l : NoDup l -> StronglySorted not_below l -> l = biggest_first (list_to_set l).
Proof.
  intros Hnd Hs. apply (StronglySorted_unique not_below); [done|apply StronglySorted_merge_sort; apply _|].
  symmetry. by apply biggest_first_perm.
Qed.

Lemma uq_Sort_sorted l : NoDup l -> uq_heap l ->
  uq_Sort l ≡ₚ l /\ StronglySorted not_below (reverse (uq_Sort l)).
Proof.
  intros Hnd Hh. destruct (sort_all (fun _ => True) bigger (map hash_elem l) (elems_ok _)) as [Hp Hs];
    [by rewrite length_map|].
  rewrite length_map, <- uq_sort_sim in Hp, Hs by done. split; [by apply hash_elem_perm|]. fold (uq_Sort l) in Hs.
  apply Sorted_StronglySorted; [apply _|]. apply (Sorted_reverse Z.le), StronglySorted_Sorted.
  clear Hp. induction (uq_Sort l) as [|x k IH]; [constructor|]. cbn [map] in Hs. apply StronglySorted_inv in Hs as [Hs Hx].
  constructor; [by apply IH|]. rewrite Forall_map in Hx. eapply Forall_impl; [exact Hx|]. intros y Hy. cbn in Hy.
  unfold le, bigger in Hy. apply Z.ltb_ge in Hy. cbn in Hy. lia.
Qed.

(** *** Adding a hash *)

Section UniqueProofs.
Context (MD5Digest : bytes -> bytes) (bucket_count : gset Z -> Z) (sizeof_entry no_return : Z).
Context (flush_stack estimate_stack : bytes) (Hstack : bytes_ok flush_stack) (Hlen : length flush_stack = 16%nat).
Context (m : Z) (Hm : 0 < m < 2 ^ 31).
Implicit Types (e : SzlUniqueEntry).
#[local] Abbreviation AddHash := (AddHash bucket_count sizeof_entry no_return).

Definition uq_inv e : Prop :=
  u_maxElems e = m /\ NoDup (u_heap e) /\ exists_ e = list_to_set (u_heap e) /\ uq_heap (u_heap e)
  /\ (isSorted_ e = true -> StronglySorted not_below (u_heap e)) /\ Forall is_u64 (u_heap e).

Lemma uq_inv_size e : uq_inv e -> size (exists_ e) = length (u_heap e).
Proof. intros (_ & Hnd & -> & _). by apply size_list_to_set. Qed.

Lemma uq_inv_intro l' k ex tot :
  l' ≡ₚ k -> uq_heap l' -> NoDup k -> Forall is_u64 k -> (forall x, x ∈ ex <-> x ∈ k) -> uq_inv (MkUnique l' ex m false tot).
Proof.
  intros Hp Hh Hnd Hu Hex. split; [done|]. cbn. split; [by rewrite Hp|]. split; [|split; [done|split; [done|by rewrite Hp]]].
  apply set_eq. intros x. by rewrite Hex, elem_of_list_to_set, Hp.
Qed.

Lemma AddHash_spec e h S :
  uq_inv e -> is_u64 h -> smallest (Z.to_nat m) S (exists_ e) ->
  let '(_, e') := AddHash h e in
  uq_inv e' /\ u_tot e' = s64 (u_tot e + 1) /\ smallest (Z.to_nat m) ({[h]} ∪ S) (exists_ e').
Proof.
  intros Hinv Hh HS. pose proof (uq_inv_size e Hinv) as Hsz. destruct Hinv as (Hmax & Hnd & Hex & Hheap & Hsort & Hu).
  destruct e as [l ex mx sorted tot]. cbn in Hmax, Hnd, Hex, Hheap, Hsort, Hu, Hsz, HS. subst mx.
  unfold AddHash. cbn [set_utot u_maxElems exists_ u_heap isSorted_ u_tot].
  rewrite (proj2 (Z.leb_gt _ _)) by lia. case_bool_decide as Hin.
  { cbn [u_tot exists_]. split; [done|]. split; [done|by apply smallest_add_known]. }
  assert (Hl : forall x, x ∈ ex <-> x ∈ l) by (intros x; by rewrite Hex, elem_of_list_to_set).
  assert (h ∉ l) as Hnl by by rewrite <- Hl.
  destruct (Z.ltb_spec (Z.of_nat (length l)) m) as [Hlt|Hge].
  { destruct (uq_push_ok l h Hheap) as [Hp Hh']. unfold set_uheap. cbn [u_heap exists_ u_maxElems u_tot].
    split; [|split; [done|apply smallest_add_room; [done|lia|done]]].
    apply (uq_inv_intro _ (h :: l)); [done|done|by apply NoDup_cons|by constructor|].
    intros x. rewrite elem_of_union, elem_of_singleton, Hl, elem_of_cons. done. }
  assert (length l = Z.to_nat m) as Hfull by (destruct HS as (_ & Hs & _); lia).
  destruct l as [|t l]; [cbn in Hfull; lia|]. change ((t :: l) !!! 0%nat) with t. change (<[0%nat := h]> (t :: l)) with (h :: l).
  assert (t ∈ ex) as Htex by (apply Hl; left).
  assert (forall y, y ∈ ex -> y <= t) as Hmx by (intros y Hy; apply Hl in Hy; by apply (uq_heap_top (t :: l))).
  destruct (Z.ltb_spec h t) as [Hht|Hht].
  - apply NoDup_cons in Hnd as [Hnt Hnd]. apply Forall_cons in Hu as [_ Hu]. apply not_elem_of_cons in Hnl as [_ Hnl].
    destruct (uq_replace_ok (t :: l) h ltac:(by apply NoDup_cons) Hheap ltac:(cbn; lia)) as [Hp Hh'].
    unfold set_uheap. cbn [u_heap exists_ u_maxElems u_tot].
    split; [|split; [done|apply (smallest_add_small _ _ _ _ t); [done|lia|done|done|lia|done]]].
    apply (uq_inv_intro _ (h :: l)); [done|done|by apply NoDup_cons|by constructor|].
    intros x. rewrite elem_of_union, elem_of_difference, !elem_of_singleton, Hl, !elem_of_cons.
    split; [intros [->|[[->|Hx] Hne]]; by auto|]. intros [->|Hx]; [by left|right]. split; [by right|]. intros ->. done.
  - split; [done|]. split; [done|]. cbn [exists_ set_utot]. assert (h <> t) by (intros ->; done).
    apply (smallest_add_big _ _ _ _ t); [done|lia|done|done|lia].
Qed.

Lemma MakeSortedHeap_order e : uq_inv e -> u_heap (MakeSortedHeap e) = biggest_first (exists_ e).
Proof.
  intros (_ & Hnd & Hex & Hh & Hs & _). unfold MakeSortedHeap. destruct (isSorted_ e); cbn [negb u_heap set_uheap].
  - rewrite Hex. by apply biggest_first_unique, Hs.
  - destruct (uq_Sort_sorted _ Hnd Hh) as [Hp Hd]. unfold uq_ReHeap. rewrite reheap_loop_rev.
    assert (reverse (uq_Sort (u_heap e)) ≡ₚ u_heap e) as Hp' by by rewrite reverse_Permutation.
    assert (NoDup (reverse (uq_Sort (u_heap e)))) as Hnd' by by rewrite Hp'.
    rewrite (biggest_first_unique _ Hnd' Hd), Hex. f_equal. apply set_eq. intros x.
    by rewrite !elem_of_list_to_set, Hp'.
Qed.

(** *** Flushed strings *)

#[local] Abbreviation hash_of x := (PackUniqueHash (MD5Digest x)).
Definition hashes (l : list bytes) : gset Z := list_to_set (map (fun x => hash_of x) l).
Definition hash_code (h : Z) : bytes := enc_prim (PBytes (UnpackUniqueHash h ++ flush_stack)).
Definition uq_msg (K : gset Z) (t : Z) : bytes :=
  counted_msg (s64 (t - Z.of_nat (size K))) (Z.of_nat (size K)) (concat (map hash_code (biggest_first K))).

Lemma hash_bytes_ok h : bytes_ok (UnpackUniqueHash h ++ flush_stack).
Proof. apply Forall_app. split; [rewrite Unpack_be; apply be_bytes_ok|done]. Qed.

Lemma hash_codes_ok hs : bytes_ok (concat (map hash_code hs)).
Proof. induction hs as [|h hs IH]; [constructor|]. apply Forall_app. split; [apply enc_prim_ok, hash_bytes_ok|done]. Qed.

Lemma put_hashes hs enc :
  fold_left (fun enc h => PutBytes enc (UnpackUniqueHash h ++ flush_stack)) hs enc
  = AppendEncoding enc (concat (map hash_code hs)).
Proof.
  revert enc. induction hs as [|h hs IH]; intros enc; cbn [fold_left map concat]; [by rewrite AppendEncoding_nil|].
  by rewrite IH, PutBytes_enc, AppendEncoding_app by apply hash_bytes_ok.
Qed.

Lemma length_biggest_first K : length (biggest_first K) = size K.
Proof. unfold biggest_first. by rewrite merge_sort_Permutation. Qed.

Lemma uq_merge_loop_spec hs e s S :
  Forall is_u64 hs -> uq_inv e -> smallest (Z.to_nat m) S (exists_ e) -> exists e',
    uq_merge_loop bucket_count sizeof_entry no_return (length hs) (MkDec s (concat (map hash_code hs))) e = (Some (MkDec s []), e')
    /\ uq_inv e' /\ u_tot e' =64 u_tot e + Z.of_nat (length hs)
    /\ smallest (Z.to_nat m) (list_to_set hs ∪ S) (exists_ e').
Proof.
  intros Hhs. revert e S. induction Hhs as [|h hs Hh Hhs IH]; intros e S Hinv HS.
  { exists e. cbn. split; [done|]. split; [done|]. rewrite Z.add_0_r. split; [done|]. by rewrite (left_id_L ∅ _). }
  cbn [length uq_merge_loop map concat].
  change (hash_code h) with (enc_prim (PBytes (UnpackUniqueHash h ++ flush_stack))).
  rewrite bool_decide_true by apply peek_enc. cbn [negb]. rewrite GetBytes_enc by (apply hash_bytes_ok || apply hash_codes_ok).
  assert (length (UnpackUniqueHash h ++ flush_stack) = kHashSize) as Hk.
  { rewrite length_app, Unpack_be, length_be_bytes, Hlen. done. }
  rewrite Hk, Nat.eqb_refl, Pack_Unpack by done. cbn [negb].
  pose proof (AddHash_spec e h S Hinv Hh HS) as HA. destruct (AddHash h e) as [z e1]. destruct HA as (I1 & T1 & S1).
  destruct (IH e1 _ I1 S1) as (e2 & E2 & I2 & T2 & S2). exists e2. split; [exact E2|]. split; [done|]. split.
  - rewrite T2, T1, eqm_s64. apply eqm_eq. cbn [length]. lia.
  - assert (list_to_set (h :: hs) ∪ S = list_to_set hs ∪ ({[h]} ∪ S)) as -> by (clear; set_solver). done.
Qed.

(** *** The contract *)

Definition uq_holds l e : Prop :=
  uq_inv e /\ u_tot e = s64 (Z.of_nat (length l)) /\ smallest (Z.to_nat m) (hashes l) (exists_ e).

Definition uq_reports l (s : bytes) : Prop := exists K,
  smallest (Z.to_nat m) (hashes l) K /\ (forall h, h ∈ K -> is_u64 h)
  /\ s = if decide (K = ∅) then [] else uq_msg K (s64 (Z.of_nat (length l))).

Lemma hashes_app l l' : hashes (l ++ l') = hashes l ∪ hashes l'.
Proof. unfold hashes. rewrite map_app. apply list_to_set_app_L. Qed.

Lemma hashes_empty l : hashes l = ∅ -> l = [].
Proof. destruct l as [|x l]; [done|]. cbn. clear. set_solver. Qed.

Lemma uq_inv_new : uq_inv (uq_new m).
Proof.
  split; [done|]. cbn. split; [constructor|]. split; [done|]. split; [intros i Hi; cbn in Hi; lia|]. split; [done|constructor].
Qed.

Lemma smallest_none : smallest (Z.to_nat m) ∅ ∅.
Proof. split; [done|]. split; [rewrite size_empty; lia|]. intros y Hy. by apply elem_of_empty in Hy. Qed.

Lemma uq_inv_small e : uq_inv e -> smallest (Z.to_nat m) (exists_ e) (exists_ e) -> Z.of_nat (length (u_heap e)) <= m.
Proof. intros Hinv (_ & H & _). rewrite (uq_inv_size e Hinv) in H. lia. Qed.

Lemma uq_Flush_msg l e : uq_holds l e ->
  uq_Flush flush_stack e = Ok (if decide (exists_ e = ∅) then [] else uq_msg (exists_ e) (u_tot e),
                               if decide (exists_ e = ∅) then e else uq_Clear (MakeSortedHeap e)).
Proof.
  intros (Hinv & Ht & HS). unfold uq_Flush. pose proof (uq_inv_size e Hinv) as Hsz.
  destruct (decide (exists_ e = ∅)) as [E|E].
  { rewrite E, size_empty in Hsz. rewrite <- Hsz. done. }
  assert (length (u_heap e) <> 0%nat) as Hn by (rewrite <- Hsz; by intros ?%size_empty_inv%leibniz_equiv).
  rewrite (proj2 (Z.eqb_neq _ 0)) by lia. destruct HS as (_ & Hle & _).
  rewrite put_hashes, MakeSortedHeap_order, !PutInt_enc by (done || (unfold is_s64; lia) || auto with szl).
  unfold uq_msg, counted_msg. rewrite Hsz. cbn [enc_Swap fst AppendEncoding data_ enc_new]. by rewrite app_assoc.
Qed.

Lemma uq_Clear_inv e : uq_inv e -> uq_inv (uq_Clear e).
Proof.
  intros (E & _). destruct uq_inv_new as (_ & H2 & H3 & H4 & _ & H6). split; [done|]. cbn in *.
  split; [done|]. split; [done|]. split; [done|]. split; [constructor|done].
Qed.

(** A message back in, hash by hash. *)
Lemma uq_Merge_msg e S K t :
  uq_inv e -> smallest (Z.to_nat m) S (exists_ e) -> K ≠ ∅ -> (size K <= Z.to_nat m)%nat -> (forall h, h ∈ K -> is_u64 h) ->
  exists e', uq_Merge bucket_count sizeof_entry no_return (uq_msg K t) e = Ok (MergeOk, e') /\ uq_inv e'
    /\ u_tot e' = s64 (u_tot e + t) /\ smallest (Z.to_nat m) (S ∪ K) (exists_ e').
Proof.
  intros Hinv HS Hne Hle Hu. assert (size K <> 0%nat) as Hn by by intros ?%size_empty_inv%leibniz_equiv.
  set (n := Z.of_nat (size K)). assert (is_s64 n) as Hns by (unfold is_s64, n; lia).
  set (hs := biggest_first K). pose proof (length_biggest_first K) as Hl. fold hs in Hl.
  assert (Forall is_u64 hs) as Hus.
  { apply Forall_forall. intros h Hh. apply Hu. unfold hs, biggest_first in Hh. by rewrite merge_sort_Permutation, elem_of_elements in Hh. }
  assert (list_to_set hs = K) as Hset.
  { apply set_eq. intros x. unfold hs, biggest_first. by rewrite elem_of_list_to_set, merge_sort_Permutation, elem_of_elements. }
  unfold uq_msg. fold n hs. set (x := s64 (t - n)). set (whole := counted_msg x n (concat (map hash_code hs))).
  destruct (enc_int_ne x (enc_prim (PInt n) ++ concat (map hash_code hs))) as (b & r & Eb).
  unfold uq_Merge. change (enc_prim (PInt x) ++ _) with whole in Eb. rewrite Eb, <- Eb.
  change (dec_Init whole) with (MkDec whole (enc_prim (PInt x) ++ enc_prim (PInt n) ++ concat (map hash_code hs))).
  rewrite GetInt_enc by (apply s64_range || (apply Forall_app; split; [by apply (enc_prim_ok (PInt n))|apply hash_codes_ok])).
  rewrite GetInt_enc by (done || apply hash_codes_ok). rewrite (proj2 (Z.eqb_neq n 0)) by lia.
  destruct (uq_merge_loop_spec hs e whole S Hus Hinv HS) as (e1 & E1 & I1 & T1 & S1).
  assert (Z.to_nat n = length hs) as -> by lia. rewrite E1. cbn [done_ p_ negb].
  eexists. split; [done|]. split; [exact I1|]. cbn [u_tot set_utot exists_]. split.
  - apply eqm_is; [apply s64_range|apply s64_range|]. rewrite !eqm_s64, T1. unfold x. rewrite eqm_s64. apply eqm_eq. lia.
  - by rewrite Hset, (union_comm_L K) in S1.
Qed.

#[local] Instance unique_methods_inst : SzlTabEntry SzlUniqueEntry :=
  unique_methods MD5Digest bucket_count sizeof_entry no_return flush_stack estimate_stack.

#[export] Instance unique_contract :
  MergeContract entry_AddElem (uq_new m) (fun _ => True) (fun _ => True) uq_holds uq_reports.
Proof.
  split.
  - done.
  - split; [apply uq_inv_new|]. split; [done|apply smallest_none].
  - intros l e x _ (Hinv & Ht & HS) _. cbn [entry_AddElem unique_methods_inst unique_methods]. unfold uq_AddElem.
    pose proof (AddHash_spec e _ _ Hinv (PackUniqueHash_range (MD5Digest x)) HS) as HA.
    destruct (AddHash _ e) as [z e']. destruct HA as (I & T & S). exists z, e'. split; [done|]. split; [done|]. split.
    + rewrite T, Ht, length_app. autorewrite with szl. f_equal. cbn. lia.
    + rewrite hashes_app. assert (hashes l ∪ hashes [x] = {[hash_of x]} ∪ hashes l) as -> by (clear; cbn; set_solver). done.
  - intros l e _ Hh. cbn [entry_Flush unique_methods_inst unique_methods].
    eexists _, _. split; [by apply (uq_Flush_msg l)|]. destruct Hh as ((_ & _ & Hex & _ & _ & Hu) & Ht & HS).
    exists (exists_ e). split; [done|]. split; [|by rewrite Ht].
    intros h Hh. rewrite Hex, elem_of_list_to_set in Hh. exact (proj1 (Forall_forall _ _) Hu h Hh).
  - intros l l' e s _ (Hinv & Ht & HS) (K & HK & Hu & ->). cbn [entry_Merge unique_methods_inst unique_methods].
    destruct (decide (K = ∅)) as [E|E].
    + pose proof (hashes_empty l' (smallest_empty (Z.to_nat m) _ _ ltac:(lia) HK E)) as ->. rewrite app_nil_r. by exists e.
    + destruct (uq_Merge_msg e _ K (s64 (Z.of_nat (length l'))) Hinv HS E ltac:(apply HK) Hu) as (e' & E' & I & T & S).
      exists e'. split; [done|]. split; [done|]. split.
      * rewrite T, Ht, length_app. autorewrite with szl. f_equal. lia.
      * rewrite hashes_app. by apply (smallest_union _ _ _ _ K).
Qed.
End UniqueProofs.

(** *** Estimates *)

Lemma log2_loop_spec fuel x c : 0 <= x < 2 ^ Z.of_nat fuel -> log2_loop fuel x c = if x =? 0 then c else c + Z.log2 x + 1.
Proof.
  revert x c. induction fuel as [|fuel IH]; intros x c Hx.
  { cbn in *. by rewrite (proj2 (Z.eqb_eq x 0)) by lia. }
  cbn [log2_loop]. destruct (Z.eqb_spec x 0) as [|Hn]; [done|]. rewrite Nat2Z.inj_succ, Z.pow_succ_r in Hx by lia.
  assert (Z.shiftr x 1 = x / 2) as E by (by rewrite Z.shiftr_div_pow2). rewrite IH by (rewrite E; lia).
  destruct (Z.eqb_spec (Z.shiftr x 1) 0) as [E0|E0].
  - assert (x = 1) as -> by lia. cbn. lia.
  - rewrite Z.log2_shiftr by lia. rewrite Z.max_r; [lia|]. assert (1 <= Z.log2 x); [|lia].
    change 1 with (Z.log2 2). apply Z.log2_le_mono. lia.
Qed.

Lemma Log2Int_spec x : 0 < x < 2 ^ 64 -> Log2Int x = Z.log2 x.
Proof. intros Hx. unfold Log2Int. rewrite log2_loop_spec by (cbn; lia). rewrite (proj2 (Z.eqb_neq x 0)) by lia. lia. Qed.

Lemma high_bit_spec fuel n k : 0 < n < 2 ^ (k + 1) -> (Z.to_nat k < fuel)%nat -> 0 <= k -> high_bit fuel n k = Z.log2 n.
Proof.
  revert k. induction fuel as [|fuel IH]; intros k Hn Hf Hk; [lia|]. cbn [high_bit].
  assert (Z.log2 n <= k) as Hl by (apply Z.lt_succ_r, Z.log2_lt_pow2; lia).
  destruct (Z.eq_dec (Z.log2 n) k) as [<-|Hne]; [by rewrite Z.bit_log2 by lia|].
  rewrite Z.bits_above_log2 by lia. pose proof (Z.log2_nonneg n). apply IH; [|lia|lia].
  replace (k - 1 + 1) with k by lia. split; [lia|]. apply Z.log2_lt_pow2; lia.
Qed.

(** The end of the estimates is a shift, cut off at the number of elements. *)
Lemma renormed_min r k tot : 0 <= r < 2 ^ 64 -> 0 <= tot < 2 ^ 63 -> renormed r k tot = Z.min tot (Z.shiftl r k).
Proof.
  intros Hr Ht. unfold renormed.
  assert (forall x, 0 <= x -> (if u64 tot <? x then tot else s64 x) = Z.min tot x) as Hc.
  { intros x Hx. rewrite (u64_id tot) by (unfold is_u64; lia). destruct (Z.ltb_spec tot x); [lia|].
    rewrite s64_id by (unfold is_s64; lia). lia. }
  destruct (Z.ltb_spec k 0).
  - rewrite Hc by (apply Z.shiftr_nonneg; lia). by rewrite <- Z.shiftl_opp_r, Z.opp_involutive.
  - rewrite (u64_id (Z.shiftr tot k)); rewrite Z.shiftr_div_pow2, ?Z.shiftl_mul_pow2 by lia.
    2: { assert (0 < 2 ^ k) by (apply Z.pow_pos_nonneg; lia). split; [apply Z.div_pos; lia|].
         apply Z.le_lt_trans with tot; [|lia]. apply Z.div_le_upper_bound; nia. }
    assert (0 < 2 ^ k) as Hp by (apply Z.pow_pos_nonneg; lia). pose proof (Z.mul_div_le tot (2 ^ k) Hp).
    pose proof (Z.mul_succ_div_gt tot (2 ^ k) Hp). destruct (Z.ltb_spec (tot / 2 ^ k) r); [nia|].
    rewrite (u64_id (r * 2 ^ k)) by (unfold is_u64; nia). apply Hc. nia.
Qed.

(** The first nonzero byte of a hash is at [z]. *)
Definition starts_at (h : Z) (z : nat) : Prop := (z <= 4)%nat /\ 2 ^ (56 - 8 * Z.of_nat z) <= h < 2 ^ (64 - 8 * Z.of_nat z).

Lemma starts_somewhere h : 2 ^ 24 <= h < 2 ^ 64 -> exists z, starts_at h z.
Proof.
  intros Hh. unfold starts_at.
  destruct (Z.lt_ge_cases h (2 ^ 32)); [exists 4%nat; cbn; lia|]. destruct (Z.lt_ge_cases h (2 ^ 40)); [exists 3%nat; cbn; lia|].
  destruct (Z.lt_ge_cases h (2 ^ 48)); [exists 2%nat; cbn; lia|].
  destruct (Z.lt_ge_cases h (2 ^ 56)); [exists 1%nat; cbn; lia|]. exists 0%nat. cbn. lia.
Qed.

Lemma hash_byte h rest i : is_u64 h -> (i < 8)%nat ->
  byte_at (UnpackUniqueHash h ++ rest) i = h / 2 ^ (56 - 8 * Z.of_nat i) mod 2 ^ 8.
Proof.
  intros Hh Hi. unfold is_u64 in Hh. unfold UnpackUniqueHash, byte_at, u32, u8. rewrite !Z.shiftr_div_pow2 by lia.
  do 8 (destruct i as [|i]; [cbn [app nth]; match goal with |- _ = _ / 2 ^ ?e mod _ => let v := eval vm_compute in e in change e with v end; lia|]).
  lia.
Qed.

Lemma hash_byte_skipped h z rest i : is_u64 h -> starts_at h z -> (i < z)%nat -> byte_at (UnpackUniqueHash h ++ rest) i = 0.
Proof.
  intros Hh [Hz Hr] Hi. rewrite hash_byte by (done || lia). rewrite Z.div_small; [done|]. split; [unfold is_u64 in Hh; lia|].
  apply Z.lt_le_trans with (2 ^ (64 - 8 * Z.of_nat z)); [lia|]. apply Z.pow_le_mono_r; lia.
Qed.

Lemma hash_byte_first h z rest : is_u64 h -> starts_at h z -> byte_at (UnpackUniqueHash h ++ rest) z <> 0.
Proof.
  intros Hh [Hz Hr]. rewrite hash_byte by (done || lia). set (k := 56 - 8 * Z.of_nat z) in *.
  replace (64 - 8 * Z.of_nat z) with (k + 8) in Hr by lia. assert (0 < 2 ^ k) as Hk by (apply Z.pow_pos_nonneg; lia).
  rewrite Z.pow_add_r in Hr by lia. rewrite Z.mod_small; [|split; [apply Z.div_pos; lia|apply Z.div_lt_upper_bound; lia]].
  assert (1 <= h / 2 ^ k); [apply Z.div_le_lower_bound; lia|lia].
Qed.

Lemma hash_word h z rest : is_u64 h -> starts_at h z ->
  let b i := byte_at (UnpackUniqueHash h ++ rest) (z + i) in
  u32 (Z.lor (Z.lor (Z.lor (Z.shiftl (b 0%nat) 24) (Z.shiftl (b 1%nat) 16)) (Z.shiftl (b 2%nat) 8)) (b 3%nat)) = h / 2 ^ (32 - 8 * Z.of_nat z).
Proof.
  intros Hh [Hz Hr]. cbv beta zeta. rewrite !hash_byte by (done || lia).
  set (q := h / 2 ^ (32 - 8 * Z.of_nat z)).
  assert (0 <= q < 2 ^ 32) as Hq.
  { unfold q, is_u64 in *. split; [apply Z.div_pos; lia|]. apply Z.div_lt_upper_bound; [lia|]. rewrite <- Z.pow_add_r by lia.
    replace (32 - 8 * Z.of_nat z + 32) with (64 - 8 * Z.of_nat z) by lia. lia. }
  assert (forall i, (i < 4)%nat -> h / 2 ^ (56 - 8 * Z.of_nat (z + i)) = q / 2 ^ (24 - 8 * Z.of_nat i)) as Hb.
  { intros i Hi. unfold q. rewrite Z.div_div by lia. rewrite <- Z.pow_add_r by lia. do 2 f_equal. lia. }
  rewrite !Hb by lia. change (24 - 8 * Z.of_nat 0) with 24. change (24 - 8 * Z.of_nat 1) with 16.
  change (24 - 8 * Z.of_nat 2) with 8. change (24 - 8 * Z.of_nat 3) with 0.
  rewrite pack_word by (unfold is_u8; lia). unfold be_val, be_val_acc. rewrite Z.div_1_r. clearbody q. lia.
Qed.

Lemma leading_zeros_spec fuel u i z :
  (i <= z)%nat -> (z < i + fuel)%nat -> (forall j, (i <= j < z)%nat -> byte_at u j = 0) -> byte_at u z <> 0 -> leading_zeros fuel u i = z.
Proof.
  revert i. induction fuel as [|fuel IH]; intros i Hi Hf Hz Hn; [lia|]. cbn [leading_zeros].
  destruct (decide (i = z)) as [->|Hne]; [by rewrite (proj2 (Z.eqb_neq _ 0))|]. rewrite Hz by lia. cbn [Z.eqb].
  apply IH; [lia|lia| |done]. intros j Hj. apply Hz. lia.
Qed.

Lemma leading_zeros_upto_spec fuel u i z :
  (i <= z)%nat -> (z <= 4)%nat -> (z < i + fuel)%nat -> (forall j, (i <= j < z)%nat -> byte_at u j = 0) -> byte_at u z <> 0 ->
  leading_zeros_upto fuel u i = z.
Proof.
  revert i. induction fuel as [|fuel IH]; intros i Hi H4 Hf Hz Hn; [lia|]. cbn [leading_zeros_upto].
  destruct (Nat.ltb_spec (i + 4) kUniqueLen) as [Hlt|Hge]; [|unfold kUniqueLen in *; lia].
  destruct (decide (i = z)) as [->|Hne]; [by rewrite (proj2 (Z.eqb_neq _ 0))|]. rewrite Hz by lia. cbn [Z.eqb].
  apply IH; [lia|lia|lia| |done]. intros j Hj. apply Hz. lia.
Qed.

(** The quotient of an estimate: [n] shifted to the top of 64 bits, by [bs]. *)
Definition ratio (n bs : Z) : Z := n * 2 ^ (31 - Z.log2 n + 32) / bs.

Lemma size_scaled n : 0 < n < 2 ^ 31 ->
  let k := 31 - Z.log2 n in 1 <= k <= 31 /\ 2 ^ 31 <= n * 2 ^ k < 2 ^ 32 /\ n * 2 ^ (k + 32) = n * 2 ^ k * 2 ^ 32.
Proof.
  intros Hn k. pose proof (Z.log2_spec n ltac:(lia)) as [H1 H2]. pose proof (Z.log2_nonneg n) as H0.
  assert (Z.log2 n < 31) as H3 by (apply Z.log2_lt_pow2; lia). rewrite Z.pow_succ_r in H2 by lia.
  assert (2 ^ 31 = 2 ^ Z.log2 n * 2 ^ k) as E by (rewrite <- Z.pow_add_r by (unfold k; lia); f_equal; unfold k; lia).
  assert (0 < 2 ^ k) by (apply Z.pow_pos_nonneg; unfold k; lia).
  split; [unfold k; lia|]. rewrite (Z.pow_add_r 2 k 32) by (unfold k; lia). split; [split; nia|lia].
Qed.

Lemma ratio_range n bs : 0 < n < 2 ^ 31 -> 0 < bs < 2 ^ 32 -> n * 2 ^ (31 - Z.log2 n) <= ratio n bs < 2 ^ 64.
Proof.
  intros Hn Hb. destruct (size_scaled n Hn) as (Hk & Hs & E). unfold ratio. rewrite E. set (a := n * 2 ^ (31 - Z.log2 n)) in *.
  split; [apply Z.div_le_lower_bound; nia|]. apply Z.div_lt_upper_bound; nia.
Qed.

Lemma ratio_code n bs : 0 < n < 2 ^ 31 ->
  u64 (Z.shiftl (u64 (Z.shiftl n (31 - Z.log2 n))) 32) / bs = ratio n bs.
Proof.
  intros Hn. destruct (size_scaled n Hn) as (Hk & Hs & E). unfold ratio. rewrite E, (Z.shiftl_mul_pow2 n) by lia.
  rewrite (u64_id (n * _)) by (unfold is_u64; lia). rewrite Z.shiftl_mul_pow2, u64_id by (unfold is_u64; lia). done.
Qed.

Lemma ratio_scaled_ge n bs z : 0 < n < 2 ^ 31 -> 0 < bs < 2 ^ 32 -> 0 <= z -> n <= Z.shiftl (ratio n bs) (8 * z - (31 - Z.log2 n)).
Proof.
  intros Hn Hb Hz. destruct (size_scaled n Hn) as (Hk & _ & _). destruct (ratio_range n bs Hn Hb) as [Hr _].
  set (k := 31 - Z.log2 n) in *. set (r := ratio n bs) in *. assert (0 < 2 ^ k) by (apply Z.pow_pos_nonneg; lia).
  destruct (Z.lt_ge_cases (8 * z - k) 0).
  - rewrite Z.shiftl_div_pow2 by lia. assert (2 ^ (- (8 * z - k)) <= 2 ^ k) by (apply Z.pow_le_mono_r; lia).
    assert (0 < 2 ^ (- (8 * z - k))) by (apply Z.pow_pos_nonneg; lia). apply Z.div_le_lower_bound; nia.
  - rewrite Z.shiftl_mul_pow2 by lia. assert (0 < 2 ^ (8 * z - k)) by (apply Z.pow_pos_nonneg; lia). nia.
Qed.

(** With its first bytes looked at, the ratio of [n] hashes to the biggest one. *)
Lemma ratio_scaled_exact n bs z : 0 < n < 2 ^ 31 -> 0 < bs -> 0 <= 8 * z <= 31 - Z.log2 n ->
  Z.shiftl (ratio n bs) (8 * z - (31 - Z.log2 n)) = n * 2 ^ (32 + 8 * z) / bs.
Proof.
  intros Hn Hb Hz. destruct (size_scaled n Hn) as (Hk & _ & _). set (k := 31 - Z.log2 n) in *.
  replace (8 * z - k) with (- (k - 8 * z)) by lia. rewrite Z.shiftl_opp_r, Z.shiftr_div_pow2 by lia. unfold ratio. fold k.
  assert (0 < 2 ^ (k - 8 * z)) by (apply Z.pow_pos_nonneg; lia).
  assert (n * 2 ^ (k + 32) = n * 2 ^ (32 + 8 * z) * 2 ^ (k - 8 * z)) as ->.
  { rewrite <- Z.mul_assoc, <- Z.pow_add_r by lia. do 2 f_equal. lia. }
  rewrite Z.div_div by lia. apply Z.div_mul_cancel_r; lia.
Qed.

Section Estimates.
Context (stack : bytes) (e : SzlUniqueEntry).
#[local] Abbreviation n := (Z.of_nat (length (u_heap e))).
#[local] Abbreviation top := (u_heap e !!! 0%nat).
Context (Hfull : 0 < u_maxElems e <= n) (Hn : n < 2 ^ 31) (Htot : 0 <= u_tot e < 2 ^ 63).

Lemma uq_Estimate_scaled : exists z bs,
  0 < bs < 2 ^ 32 /\ uq_Estimate stack e = Z.min (u_tot e) (Z.shiftl (ratio n bs) (8 * Z.of_nat z - (31 - Z.log2 n)))
  /\ (is_u64 top -> forall z', starts_at top z' -> z = z' /\ bs = top / 2 ^ (32 - 8 * Z.of_nat z')).
Proof.
  unfold uq_Estimate. rewrite (proj2 (Z.leb_gt _ _)), (proj2 (Z.ltb_ge _ _)) by lia. rewrite Log2Int_spec by lia.
  set (u := UnpackUniqueHash top ++ stack). set (z := leading_zeros 16 u 0).
  set (w := u32 (Z.lor (Z.lor (Z.lor (Z.shiftl (byte_at u (z + 0)) 24) (Z.shiftl (byte_at u (z + 1)) 16)) (Z.shiftl (byte_at u (z + 2)) 8)) (byte_at u (z + 3)))).
  exists z, (if w =? 0 then 1 else w). pose proof (u32_range (Z.lor (Z.lor (Z.lor (Z.shiftl (byte_at u (z + 0)) 24) (Z.shiftl (byte_at u (z + 1)) 16)) (Z.shiftl (byte_at u (z + 2)) 8)) (byte_at u (z + 3)))) as Hw.
  fold w in Hw. unfold is_u32 in Hw. assert (0 < (if w =? 0 then 1 else w) < 2 ^ 32) as Hb by (destruct (Z.eqb_spec w 0); lia).
  split; [exact Hb|]. split.
  - rewrite ratio_code by lia. pose proof (ratio_range n _ ltac:(lia) Hb) as Hr. destruct (size_scaled n ltac:(lia)) as (_ & Hs & _).
    rewrite (Z.mul_comm 8). apply renormed_min; [lia|done].
  - intros Hh z' Hz'. assert (z = z') as ->.
    { apply leading_zeros_spec; [lia|destruct Hz'; lia| |by apply hash_byte_first].
      intros j Hj. apply (hash_byte_skipped _ z'); [done|done|lia]. }
    split; [done|]. pose proof (hash_word top z' stack Hh Hz') as E. cbv beta zeta in E. unfold w, u. rewrite E.
    destruct (Z.eqb_spec (top / 2 ^ (32 - 8 * Z.of_nat z')) 0) as [E0|]; [exfalso|done]. destruct Hz' as [Hz Hr].
    assert (1 <= top / 2 ^ (32 - 8 * Z.of_nat z')); [|lia]. apply Z.div_le_lower_bound; [lia|].
    rewrite Z.mul_1_r. apply Z.le_trans with (2 ^ (56 - 8 * Z.of_nat z')); [apply Z.pow_le_mono_r; lia|lia].
Qed.
End Estimates.

(** ** The table *)

Lemma smallest_unique m S K K' : smallest m S K -> smallest m S K' -> K = K'.
Proof.
  assert (forall K K', smallest m S K -> smallest m S K' -> K ⊆ K') as H.
  { intros A B (H1 & H2 & H3) (J1 & J2 & J3) x Hx. destruct (decide (x ∈ B)) as [|Hn]; [done|exfalso].
    destruct (J3 x (H1 x Hx) Hn) as [HB Hlt]. destruct (decide (B ⊆ A)) as [Hs|Hs].
    - assert (size ({[x]} ∪ B) <= size A)%nat as Hsz by (apply subseteq_size; set_solver).
      rewrite size_union, size_singleton in Hsz by set_solver. lia.
    - assert (exists y, y ∈ B /\ y ∉ A) as (y & Hy & Hy').
      { destruct (decide (set_Forall (fun y => y ∈ A) B)) as [Hf|Hf]; [by exfalso|].
        apply not_set_Forall_Exists in Hf as (y & Hy & Hy'); [|apply _]. by exists y. }
      destruct (H3 y (J1 y Hy) Hy') as [_ Hlt']. specialize (Hlt y Hy). specialize (Hlt' x Hx). lia. }
  intros H1 H2. apply set_eq_subseteq. split; by apply H.
Qed.

Lemma smallest_all m S K : smallest m S K -> (size S < m)%nat -> K = S.
Proof.
  intros (H1 & H2 & H3) Hlt. apply set_eq_subseteq. split; [done|]. intros x Hx. destruct (decide (x ∈ K)) as [|Hn]; [done|].
  destruct (H3 x Hx Hn) as [E _]. pose proof (subseteq_size K S H1). lia.
Qed.

Lemma hashes_size MD5Digest l : (size (hashes MD5Digest l) <= length l)%nat.
Proof.
  unfold hashes. induction l as [|x l IH]; [done|]. cbn [map list_to_set length].
  rewrite size_union_alt, size_singleton.
  pose proof (subseteq_size (list_to_set (map (fun x => PackUniqueHash (MD5Digest x)) l) ∖ {[PackUniqueHash (MD5Digest x)]})
    (list_to_set (map (fun x => PackUniqueHash (MD5Digest x)) l : list Z) : gset Z) ltac:(clear; set_solver)). lia.
Qed.

Lemma hashes_perm MD5Digest l l' : l ≡ₚ l' -> hashes MD5Digest l = hashes MD5Digest l'.
Proof. intros Hp. unfold hashes. apply set_eq. intros x. rewrite !elem_of_list_to_set. by rewrite Hp. Qed.

(** The hash on top is the biggest one kept. *)
Lemma uq_same_top m e e' : uq_inv m e -> uq_inv m e' -> exists_ e = exists_ e' -> u_heap e !!! 0%nat = u_heap e' !!! 0%nat.
Proof.
  intros H1 H2 Heq. pose proof (uq_inv_size m e H1) as L1. pose proof (uq_inv_size m e' H2) as L2.
  destruct H1 as (_ & _ & X1 & P1 & _), H2 as (_ & _ & X2 & P2 & _).
  destruct (u_heap e) as [|t l] eqn:E, (u_heap e') as [|t' l'] eqn:E'; [done|..]; try (rewrite <- Heq, L1 in L2; discriminate).
  assert (forall x, x ∈ t :: l <-> x ∈ t' :: l') as Hel.
  { intros x. rewrite <- !(elem_of_list_to_set (C := gset Z)), <- X1, <- X2. by rewrite Heq. }
  pose proof (uq_heap_top _ P1 t' ltac:(apply Hel; left)) as A. pose proof (uq_heap_top _ P2 t ltac:(apply Hel; left)) as B.
  cbn in *. lia.
Qed.
(** What was kept is never more than was added. *)
Lemma uq_heap_length MD5Digest m l e : uq_holds MD5Digest m l e -> 0 < m -> Z.of_nat (length l) < 2 ^ 63 ->
  u_tot e = Z.of_nat (length l) /\ Z.of_nat (length (u_heap e)) <= Z.min m (u_tot e).
Proof.
  intros (Hinv & Ht & HS) Hm Hl. rewrite s64_id in Ht by (unfold is_s64; lia). split; [done|]. rewrite <- (uq_inv_size m e Hinv), Ht.
  destruct HS as (Hsub & Hle & _). pose proof (subseteq_size _ _ Hsub). pose proof (hashes_size MD5Digest l). lia.
Qed.

Section Table.
Context (MD5Digest : bytes -> bytes) (bucket_count : gset Z -> Z) (sizeof_entry no_return : Z).
Context (stack estack : bytes) (m : Z).
Definition uq_aggregate (shards : list (list bytes)) : res SzlUniqueEntry :=
  @aggregate _ _ (unique_methods MD5Digest bucket_count sizeof_entry no_return stack estack)
    (uq_AddElem MD5Digest bucket_count sizeof_entry no_return) (uq_new m) shards.

Context (Hstack : bytes_ok stack) (Hlen : length stack = 16%nat) (Hm : 0 < m < 2 ^ 31).

Lemma uq_aggregate_holds shards : exists e, uq_aggregate shards = Ok e /\ uq_holds MD5Digest m (concat shards) e.
Proof.
  pose proof (unique_contract MD5Digest bucket_count sizeof_entry no_return stack estack Hstack Hlen m Hm) as C.
  apply (@aggregate_holds _ _ _ _ _ _ _ _ _ C shards I). by repeat (apply Forall_true; intros).
Qed.

End Table.

(** C10. Aggregation of a unique table over shards, however the elements are
    divided, never fails, keeps the smallest of the distinct hashes, as many as
    the parameter, counts every addition, and is exact while fewer than that are distinct. *)
Theorem unique_sharded MD5Digest bucket_count sizeof_entry no_return stack estack m shards :
  bytes_ok stack -> length stack = 16%nat -> 0 < m < 2 ^ 31 ->
  let all := concat shards in
  exists e, uq_aggregate MD5Digest bucket_count sizeof_entry no_return stack estack m shards = Ok e
  /\ NoDup (u_heap e) /\ smallest (Z.to_nat m) (hashes MD5Digest all) (list_to_set (u_heap e))
  /\ u_tot e = s64 (Z.of_nat (length all))
  /\ (Z.of_nat (size (hashes MD5Digest all)) < m -> uq_Estimate estack e = Z.of_nat (size (hashes MD5Digest all))).
Proof.
  intros Hs Hl Hm all.
  destruct (uq_aggregate_holds MD5Digest bucket_count sizeof_entry no_return stack estack m Hs Hl Hm shards) as (e & Ee & Hinv & Ht & HS).
  exists e. split; [done|]. pose proof (uq_inv_size m e Hinv) as Hsz. destruct Hinv as (Hmax & Hnd & Hex & _).
  split; [done|]. rewrite Hex in HS. split; [exact HS|]. split; [done|]. intros Hlt. rewrite <- Hex in HS.
  rewrite (smallest_all _ _ _ HS) in Hsz by (fold all; lia). fold all in Hsz.
  unfold uq_Estimate. rewrite Hmax, (proj2 (Z.leb_gt _ _)), <- Hsz, (proj2 (Z.ltb_lt _ _)) by lia. done.
Qed.

(** A digest for the witnesses: the string itself, cut or filled to 16 bytes. *)
Definition toy_digest (s : bytes) : bytes := take 16 (s ++ replicate 16 0).
Definition toy_shards : list (list bytes) := [[[9]; [7; 1]; [200]]; []; [[7; 1]; [3]]].

Lemma unique_sharded_witness :
  exists e, uq_aggregate toy_digest (fun _ => 10) 64 0 (replicate 16 0) [] 3 toy_shards = Ok e
  /\ NoDup (u_heap e) /\ smallest 3 (hashes toy_digest (concat toy_shards)) (list_to_set (u_heap e)) /\ u_tot e = 5
  /\ (Z.of_nat (size (hashes toy_digest (concat toy_shards))) < 3 ->
      uq_Estimate [] e = Z.of_nat (size (hashes toy_digest (concat toy_shards)))).
Proof.
  apply (unique_sharded toy_digest (fun _ => 10) 64 0 (replicate 16 0) [] 3 toy_shards); [apply Forall_replicate; unfold is_u8; lia|done|lia].
Defined.

(** C11. However the same elements are divided among shards and ordered, the
    merged table displays the same. *)
Theorem unique_display_agrees MD5Digest bucket_count sizeof_entry no_return stack estack m shards shards' :
  bytes_ok stack -> length stack = 16%nat -> 0 < m < 2 ^ 31 -> concat shards ≡ₚ concat shards' ->
  let run shards :=
    e ← uq_aggregate MD5Digest bucket_count sizeof_entry no_return stack estack m shards;
    '(out, _) ← uq_FlushForDisplay estack e; Ok out in
  exists out, run shards = Ok out /\ run shards' = Ok out.
Proof.
  intros Hs Hl Hm Hp run.
  destruct (uq_aggregate_holds MD5Digest bucket_count sizeof_entry no_return stack estack m Hs Hl Hm shards) as (e & Ee & Hinv & Ht & HS).
  destruct (uq_aggregate_holds MD5Digest bucket_count sizeof_entry no_return stack estack m Hs Hl Hm shards') as (e' & Ee' & Hinv' & Ht' & HS').
  rewrite (hashes_perm MD5Digest _ _ Hp) in HS. pose proof (smallest_unique _ _ _ _ HS HS') as Hex. rewrite Hp in Ht.
  pose proof (uq_same_top m e e' Hinv Hinv' Hex) as Htop. pose proof (uq_inv_size m e Hinv) as L. rewrite Hex, (uq_inv_size m e' Hinv') in L.
  destruct Hinv as [Hmax _], Hinv' as [Hmax' _]. unfold run. rewrite Ee, Ee'. cbn [mbind res_bind].
  unfold uq_FlushForDisplay, uq_Estimate. rewrite Ht, Ht', Hmax, Hmax', Htop, L. destruct (_ =? 0); cbn; by eexists.
Qed.

Lemma unique_display_agrees_witness :
  let run shards :=
    e ← uq_aggregate toy_digest (fun _ => 10) 64 0 (replicate 16 0) [] 3 shards; '(out, _) ← uq_FlushForDisplay [] e; Ok out in
  exists out, run [[[9]; [7; 1]; [200]]; [[3]]] = Ok out /\ run [[[3]; [200]]; [[9]; [7; 1]]; []] = Ok out.
Proof.
  apply (unique_display_agrees toy_digest (fun _ => 10) 64 0 (replicate 16 0) [] 3 [[[9]; [7; 1]; [200]]; [[3]]] [[[3]; [200]]; [[9]; [7; 1]]; []]);
    [apply Forall_replicate; unfold is_u8; lia|done|lia|].
  cbn. apply (bool_decide_unpack _). vm_compute. exact I.
Defined.

(** C33. The estimate of a merged table is between the number of hashes kept and
    the number of elements added, whatever the bytes it reads beyond the hash. *)
Theorem unique_estimate_bounds MD5Digest bucket_count sizeof_entry no_return stack estack m shards :
  bytes_ok stack -> length stack = 16%nat -> 0 < m < 2 ^ 31 -> Z.of_nat (length (concat shards)) < 2 ^ 63 ->
  exists e, uq_aggregate MD5Digest bucket_count sizeof_entry no_return stack estack m shards = Ok e
  /\ Z.of_nat (length (u_heap e)) <= uq_Estimate estack e <= Z.of_nat (length (concat shards)).
Proof.
  intros Hs Hl Hm Hlen.
  destruct (uq_aggregate_holds MD5Digest bucket_count sizeof_entry no_return stack estack m Hs Hl Hm shards) as (e & Ee & He).
  exists e. split; [done|]. destruct (uq_heap_length MD5Digest m _ e He ltac:(lia) Hlen) as [Ht Hle]. rewrite <- Ht.
  destruct He as ((Hmax & _) & _). destruct (Z.lt_ge_cases (Z.of_nat (length (u_heap e))) m) as [Hlt|Hge].
  - unfold uq_Estimate. rewrite Hmax, (proj2 (Z.leb_gt _ _)), (proj2 (Z.ltb_lt _ _)) by lia. lia.
  - destruct (uq_Estimate_scaled estack e) as (z & bs & Hb & -> & _); [lia..|].
    pose proof (ratio_scaled_ge (Z.of_nat (length (u_heap e))) bs (Z.of_nat z) ltac:(lia) Hb ltac:(lia)). lia.
Qed.

Lemma unique_estimate_bounds_witness :
  exists e, uq_aggregate toy_digest (fun _ => 10) 64 0 (replicate 16 0) [] 3 toy_shards = Ok e
  /\ Z.of_nat (length (u_heap e)) <= uq_Estimate [] e <= Z.of_nat (length (concat toy_shards)).
Proof.
  apply (unique_estimate_bounds toy_digest (fun _ => 10) 64 0 (replicate 16 0) [] 3 toy_shards);
    [apply Forall_replicate; unfold is_u8; lia|done|lia|cbn; lia].
Defined.

(** The estimate of a full table is the number of hashes by the part of the
    hash space they fill, read off the first four bytes of the biggest hash from
    its first nonzero byte [z] on, cut off at the number of elements; [z] is
    small enough for the number of hashes. *)
Theorem unique_estimate_formula estack e z :
  let n := Z.of_nat (length (u_heap e)) in
  let biggest := u_heap e !!! 0%nat in
  0 < u_maxElems e <= n -> n < 2 ^ 31 -> 0 <= u_tot e < 2 ^ 63 -> is_u64 biggest -> starts_at biggest z -> 8 * Z.of_nat z <= 31 - Z.log2 n ->
  uq_Estimate estack e = Z.min (u_tot e) (n * 2 ^ (32 + 8 * Z.of_nat z) / (biggest / 2 ^ (32 - 8 * Z.of_nat z))).
Proof.
  intros n biggest Hfull Hn Ht Hu Hz Hk. destruct (uq_Estimate_scaled estack e Hfull Hn Ht) as (z' & bs & Hb & -> & Hz').
  destruct (Hz' Hu z Hz) as [-> Hbs]. fold n biggest in Hbs |- *. rewrite ratio_scaled_exact, <- Hbs by lia. done.
Qed.

Definition full_table : SzlUniqueEntry := MkUnique [3 * 2 ^ 54; 2 ^ 50] {[3 * 2 ^ 54; 2 ^ 50]} 2 false 1000.
Lemma unique_estimate_formula_witness :
  uq_Estimate [] full_table = Z.min 1000 (2 * 2 ^ 40 / (3 * 2 ^ 54 / 2 ^ 24)).
Proof.
  apply (unique_estimate_formula [] full_table 1); [cbn; lia|cbn; lia|cbn; lia|unfold is_u64; cbn; lia|unfold starts_at; cbn; lia|vm_compute; discriminate].
Defined.

(** The reader's estimate from the biggest hash is the table's. *)
Theorem unique_estimators_agree estack e :
  let n := Z.of_nat (length (u_heap e)) in
  let biggest := u_heap e !!! 0%nat in
  0 < u_maxElems e -> 0 < n < 2 ^ 31 -> 2 ^ 24 <= biggest < 2 ^ 64 ->
  results_Estimate n (u_maxElems e) (u_tot e) (UnpackUniqueHash biggest) = uq_Estimate estack e.
Proof.
  intros n biggest Hm Hn Hh. assert (is_u64 biggest) as Hu by (unfold is_u64; lia).
  destruct (starts_somewhere biggest Hh) as [z Hz]. unfold results_Estimate, uq_Estimate. fold n biggest.
  rewrite (proj2 (Z.leb_gt _ _)) by lia. destruct (n <? u_maxElems e); [done|].
  pose proof (app_nil_r (UnpackUniqueHash biggest)) as En.
  assert (leading_zeros 16 (UnpackUniqueHash biggest ++ estack) 0 = z) as ->.
  { apply leading_zeros_spec; [lia|destruct Hz; lia| |by apply hash_byte_first].
    intros j Hj. apply (hash_byte_skipped _ z); [done|done|lia]. }
  assert (leading_zeros_upto kUniqueLen (UnpackUniqueHash biggest) 0 = z) as ->.
  { rewrite <- En. apply leading_zeros_upto_spec; [lia|by destruct Hz|destruct Hz; unfold kUniqueLen; lia| |by apply hash_byte_first].
    intros j Hj. apply (hash_byte_skipped _ z); [done|done|lia]. }
  assert (u32 n = n) as -> by (apply u32_id; unfold is_u32; lia).
  pose proof (hash_word biggest z estack Hu Hz) as E1. pose proof (hash_word biggest z [] Hu Hz) as E2. rewrite En in E2.
  cbv beta zeta in E1, E2 |- *. rewrite E1, E2, high_bit_spec, Log2Int_spec by lia.
  destruct (size_scaled n ltac:(lia)) as (Hk & Hs & _). rewrite !(Z.shiftl_mul_pow2 n) by lia.
  rewrite u32_id, (u64_id (n * _)) by (unfold is_u32, is_u64; lia). done.
Qed.

Lemma unique_estimators_agree_witness :
  results_Estimate 2 2 1000 (UnpackUniqueHash (3 * 2 ^ 54)) = uq_Estimate [] full_table.
Proof. apply (unique_estimators_agree [] full_table); cbn; lia. Defined.

(** The message of a table with hashes: two integers, and one hash at least. *)
Lemma uq_msg_first stack K t : bytes_ok stack -> K ≠ ∅ -> exists h rest,
  bytes_ok rest /\ uq_msg stack K t = counted_msg (s64 (t - Z.of_nat (size K))) (Z.of_nat (size K)) (hash_code stack h ++ rest).
Proof.
  intros Hs Hne. unfold uq_msg. pose proof (length_biggest_first K) as Hl. destruct (biggest_first K) as [|h hs].
  { exfalso. apply Hne, leibniz_equiv, size_empty_inv. by rewrite <- Hl. }
  exists h, (concat (map (hash_code stack) hs)). split; [by apply hash_codes_ok|done].
Qed.

(** The reader of results refuses the string of every shard that was given an
    element: it expects hashes of 8 bytes, and they are flushed with 24. *)
Theorem unique_results_reject MD5Digest bucket_count sizeof_entry no_return stack estack m xs r :
  bytes_ok stack -> length stack = 16%nat -> 0 < m < 2 ^ 31 -> xs <> [] ->
  exists s, @run_shard _ _ (unique_methods MD5Digest bucket_count sizeof_entry no_return stack estack)
              (uq_AddElem MD5Digest bucket_count sizeof_entry no_return) (uq_new m) xs = Ok s
  /\ unique_ParseFromString m s r = Ok (false, MkUniqueResults (uniques_ r) 0).
Proof.
  intros Hs Hl Hm Hxs.
  pose proof (unique_contract MD5Digest bucket_count sizeof_entry no_return stack estack Hs Hl m Hm) as C.
  destruct (@run_shard_reports _ _ _ _ _ _ _ _ _ C xs I) as (s & Es & K & HK & Hu & Hmsg); [by apply Forall_true|].
  exists s. split; [exact Es|]. rewrite decide_False in Hmsg by (intros E; apply Hxs, (hashes_empty MD5Digest), (smallest_empty (Z.to_nat m) _ K ltac:(lia) HK E)).
  assert (K ≠ ∅) as Hne by (intros E; apply Hxs, (hashes_empty MD5Digest), (smallest_empty (Z.to_nat m) _ K ltac:(lia) HK E)).
  assert (size K <> 0%nat) as Hn by by intros ?%size_empty_inv%leibniz_equiv.
  destruct (uq_msg_first stack K (s64 (Z.of_nat (length xs))) Hs Hne) as (h & rest & Hr & Ew). rewrite Ew in Hmsg. clear Ew.
  set (n := Z.of_nat (size K)) in *. set (x := s64 _) in Hmsg.
  assert (0 < n <= m) as Hnm by (destruct HK as (_ & Hle & _); unfold n; lia).
  set (body := hash_code stack h ++ rest) in *.
  assert (bytes_ok body) as Hb by (apply Forall_app; split; [by apply enc_prim_ok, hash_bytes_ok|done]).
  assert (length (UnpackUniqueHash h ++ stack) =? kUniqueLen = false)%nat as Hk.
  { rewrite length_app, Unpack_be, length_be_bytes, Hl. done. }
  destruct (enc_int_ne x (enc_prim (PInt n) ++ body)) as (b & q & Eb).
  unfold unique_ParseFromString, UnpackAndEstimate. subst s. unfold counted_msg. rewrite Eb, <- Eb. unfold dec_Init.
  rewrite GetInt_enc by (apply s64_range || (apply Forall_app; split; [apply (enc_prim_ok (PInt n)); unfold prim_ok, is_s64; lia|done])).
  rewrite GetInt_enc by (done || (unfold is_s64; lia)). rewrite (proj2 (Z.ltb_ge _ _)) by lia.
  assert (Z.to_nat n = S (Z.to_nat n - 1)) as -> by lia. cbn [check_hashes]. unfold body, hash_code.
  rewrite bool_decide_true by apply peek_enc. rewrite GetBytes_enc by (done || by apply hash_bytes_ok). rewrite Hk. done.
Qed.

Lemma unique_results_reject_witness :
  exists s, @run_shard _ _ (unique_methods toy_digest (fun _ => 10) 64 0 (replicate 16 0) [])
              (uq_AddElem toy_digest (fun _ => 10) 64 0) (uq_new 3) [[1]; [2]] = Ok s
  /\ unique_ParseFromString 3 s (MkUniqueResults [[]] 0) = Ok (false, MkUniqueResults [[]] 0).
Proof.
  apply (unique_results_reject toy_digest (fun _ => 10) 64 0 (replicate 16 0) [] 3 [[1]; [2]] (MkUniqueResults [[]] 0));
    [apply Forall_replicate; unfold is_u8; lia|done|lia|discriminate].
Defined.

(** A message whose count of hashes is negative gets past the reader's checks,
    and its [CHECK] of the first hash aborts; the table's own merge takes it
    for an empty one and subtracts from the count of elements. *)
Theorem unique_negative_count :
  let s := enc_prim (PInt 5) ++ enc_prim (PInt (-1)) in
  unique_ParseFromString 3 s (MkUniqueResults [[]] 0) = Fatal
  /\ uq_Merge (fun _ => 10) 64 0 s (uq_new 3) = Ok (MergeOk, MkUnique [] ∅ 3 false 5).
Proof. vm_compute. done. Qed.
