(* ===== verification/DistinctTable.v ===== *)
(** * The distinctsample table: emitters/szldistinctsample.cc, szldistinctsampleresults.cc

    An entry keeps the different elements with the smallest hashes, as many as
    the table's parameter, each with the sum of its weights: in the array [list_],
    and in the map [map_], which orders pointers to their strings by hash. The
    inverse histogram table keeps the same data (InverseHistogram.v). *)
From Stdlib Require Import ZArith Lia.
From stdpp Require Import prelude sorting.
From S2P Require Import Prelude SzlType Encoder Decoder Codec SzlValue ValueCodec ValueOrder ValueAdd Numbers SumTable TabEntry.

Local Open Scope Z_scope.

(* @src src/src/emitters/szldistinctsample.cc 131-134 SzlDistinctSampleEntry::Elem *)
Record DElem : Type := MkDElem { d_value : bytes; d_weight : SzlValue }.

#[export] Instance DElem_inhabited : Inhabited DElem := populate (MkDElem [] VNil).

(** A pair of the map is a key, the address of a string of [list_], and an index:
    the address is given by the position of the string. The pairs are in order. *)
(* @src src/src/emitters/szldistinctsample.cc 124-152 SzlDistinctSampleEntry (data members) *)
Record SzlDistinctSampleEntry : Type := MkDistinct {
  ds_nElems : nat;
  ds_maxElems : Z;
  map_ : list (nat * nat);
  list_ : list DElem;
  ds_tot : Z;
}.

(* @src src/src/emitters/szldistinctsample.cc 81-87 SzlDistinctSampleEntry::SzlDistinctSampleEntry *)
Definition ds_new (param : Z) : SzlDistinctSampleEntry :=
  MkDistinct 0 param [] (replicate (Z.to_nat param) (MkDElem [] VNil)) 0.

Section Distinct.
Context (MD5Digest : bytes -> bytes) (weight_ops : SzlOps).

(** The digests, which have one length, then the strings. *)
(* @src src/src/emitters/szldistinctsample.cc 185-200 SzlDistinctSampleEntry::HashCmp::operator() *)
Definition HashCmp (s1 s2 : bytes) : bool :=
  match str_cmp (MD5Digest s1) (MD5Digest s2) with
  | Lt => true
  | Gt => false
  | Eq => str_ltb s1 s2
  end.

(** *** The operations of std::map *)

(** The position of the first key that is not below [s]; the end if there is none. *)
(* @src src/src/emitters/szldistinctsample.cc 206-207 std::map::lower_bound *)
Fixpoint lower_bound (l : list DElem) (s : bytes) (m : list (nat * nat)) : nat :=
  match m with
  | [] => 0
  | (k, _) :: m => if HashCmp (d_value (l !!! k)) s then S (lower_bound l s m) else 0
  end.

(** [map_[&list_[k].value] = n]: an equivalent key keeps its place. *)
(* @src src/src/emitters/szldistinctsample.cc 224-224 std::map::operator[] *)
Definition map_put (l : list DElem) (k n : nat) (m : list (nat * nat)) : list (nat * nat) :=
  let p := lower_bound l (d_value (l !!! k)) m in
  match m !! p with
  | Some (k', _) =>
      if HashCmp (d_value (l !!! k)) (d_value (l !!! k')) then take p m ++ (k, n) :: drop p m
      else <[p := (k', n)]> m
  | None => m ++ [(k, n)]
  end.

(** Storing an element: the string, the weight, and its key. *)
(* @src src/src/emitters/szldistinctsample.cc 222-224 SzlDistinctSampleEntry::AddWeightedElem *)
Definition ds_store (i : nat) (m : list (nat * nat)) (elem : bytes) (w : SzlValue) (e : SzlDistinctSampleEntry) :
    res (list (nat * nat) * list DElem) :=
  v ← Assign weight_ops w (d_weight (list_ e !!! i));
  let l := <[i := MkDElem elem v]> (list_ e) in
  Ok (map_put l i i m, l).

(* @src src/src/emitters/szldistinctsample.cc 202-242 SzlDistinctSampleEntry::AddWeightedElem *)
Definition ds_AddWeightedElem (elem : bytes) (w : SzlValue) (e : SzlDistinctSampleEntry) :
    res (Z * SzlDistinctSampleEntry) :=
  let tot := s64 (ds_tot e + 1) in
  let unchanged l := Ok (0, MkDistinct (ds_nElems e) (ds_maxElems e) (map_ e) l tot) in
  let p := lower_bound (list_ e) elem (map_ e) in
  match map_ e !! p with
  | None =>
      if ds_maxElems e <=? Z.of_nat (ds_nElems e) then unchanged (list_ e)
      else
        '(m, l) ← ds_store (ds_nElems e) (map_ e) elem w e;
        k ← Memory weight_ops w;
        _ ← check (length m =? S (ds_nElems e))%nat;
        Ok (s32 (k + Z.of_nat (length elem)), MkDistinct (S (ds_nElems e)) (ds_maxElems e) m l tot)
  | Some (key, i) =>
      if bool_decide (d_value (list_ e !!! key) = elem) then
        v ← Add weight_ops w (d_weight (list_ e !!! i));
        unchanged (<[i := MkDElem (d_value (list_ e !!! i)) v]> (list_ e))
      else if Z.of_nat (ds_nElems e) <? ds_maxElems e then
        '(m, l) ← ds_store (ds_nElems e) (map_ e) elem w e;
        k ← Memory weight_ops w;
        _ ← check (length m =? S (ds_nElems e))%nat;
        Ok (s32 (k + Z.of_nat (length elem)), MkDistinct (S (ds_nElems e)) (ds_maxElems e) m l tot)
      else
        let ee := snd (map_ e !!! (length (map_ e) - 1)%nat) in
        k0 ← Memory weight_ops (d_weight (list_ e !!! ee));
        let mem := s32 (- (k0 + Z.of_nat (length (d_value (list_ e !!! ee))))) in
        '(m, l) ← ds_store ee (take (length (map_ e) - 1) (map_ e)) elem w e;
        k ← Memory weight_ops w;
        _ ← check (length m =? ds_nElems e)%nat;
        Ok (s32 (mem + (k + Z.of_nat (length elem))), MkDistinct (ds_nElems e) (ds_maxElems e) m l tot)
  end.

(* @src src/src/emitters/szldistinctsample.cc 98-100 SzlDistinctSampleEntry::AddElem *)
Definition ds_AddElem (elem : bytes) (e : SzlDistinctSampleEntry) : res (Z * SzlDistinctSampleEntry) :=
  ds_AddWeightedElem elem (VInt 1) e.

(* @src src/src/emitters/szldistinctsample.cc 337-341 SzlDistinctSampleEntry::IsValid *)
Definition ds_IsValid (e : SzlDistinctSampleEntry) : bool :=
  let nelems := Z.of_nat (length (map_ e)) in
  (Z.of_nat (ds_nElems e) =? nelems) && (nelems <=? ds_tot e) && (nelems <=? ds_maxElems e).

(** Emptying the first [n] elements. *)
Fixpoint clear_elems (n : nat) (l : list DElem) : res (list DElem) :=
  match n, l with
  | S n, x :: l => v ← Clear weight_ops (d_weight x); l ← clear_elems n l; Ok (MkDElem [] v :: l)
  | _, _ => Ok l
  end.

(* @src src/src/emitters/szldistinctsample.cc 109-117 SzlDistinctSampleEntry::Clear *)
Definition ds_Clear (e : SzlDistinctSampleEntry) : res SzlDistinctSampleEntry :=
  l ← clear_elems (ds_nElems e) (list_ e);
  Ok (MkDistinct 0 (ds_maxElems e) [] l 0).

(** The loop over the pairs of the map, by increasing hash. *)
(* @src src/src/emitters/szldistinctsample.cc 261-265 SzlDistinctSampleEntry::Flush *)
Fixpoint ds_put_elems (l : list DElem) (m : list (nat * nat)) (enc : SzlEncoder) : res SzlEncoder :=
  match m with
  | [] => Ok enc
  | (_, ee) :: m =>
      enc ← Encode weight_ops (d_weight (l !!! ee)) (PutBytes enc (d_value (l !!! ee)));
      ds_put_elems l m enc
  end.

(* @src src/src/emitters/szldistinctsample.cc 247-268 SzlDistinctSampleEntry::Flush *)
Definition ds_Flush (e : SzlDistinctSampleEntry) : res (bytes * SzlDistinctSampleEntry) :=
  _ ← check (ds_IsValid e);
  if (ds_nElems e =? 0)%nat then Ok ([], e)
  else
    let enc := PutInt enc_new (s64 (ds_tot e - Z.of_nat (ds_nElems e))) in
    let enc := PutInt enc (Z.of_nat (ds_nElems e)) in
    enc ← ds_put_elems (list_ e) (map_ e) enc;
    e ← ds_Clear e;
    Ok (fst (enc_Swap enc), e).

(* @src src/src/emitters/szldistinctsample.cc 280-288 SzlDistinctSampleEntry::FlushForDisplay *)
Fixpoint ds_display_elems (l : list DElem) (m : list (nat * nat)) : res (list bytes) :=
  match m with
  | [] => Ok []
  | (_, ee) :: m =>
      enc ← Encode weight_ops (d_weight (l !!! ee)) enc_new;
      out ← ds_display_elems l m;
      Ok ((d_value (l !!! ee) ++ fst (enc_Swap enc)) :: out)
  end.

(* @src src/src/emitters/szldistinctsample.cc 271-289 SzlDistinctSampleEntry::FlushForDisplay *)
Definition ds_FlushForDisplay (e : SzlDistinctSampleEntry) : res (list bytes * SzlDistinctSampleEntry) :=
  if (ds_nElems e =? 0)%nat then Ok ([[]], e)
  else out ← ds_display_elems (list_ e) (map_ e); Ok (out, e).

(** One element of a message: the value, then the weight. *)
(* @src src/src/emitters/szldistinctsample.cc 311-314 SzlDistinctSampleEntry::Merge *)
Definition ds_skip_elem (dec : SzlDecoder) : option SzlDecoder :=
  dec ← Skip dec BYTES; ops_Skip weight_ops dec.

(** The second pass; [w] is one variable, decoded into again and again. *)
(* @src src/src/emitters/szldistinctsample.cc 324-329 SzlDistinctSampleEntry::Merge *)
Fixpoint ds_merge_loop (n : nat) (dec : SzlDecoder) (w : SzlValue) (e : SzlDistinctSampleEntry) :
    res (SzlValue * SzlDistinctSampleEntry) :=
  match n with
  | O => Ok (w, e)
  | S n =>
      '(s, dec) ← check_some (GetBytes dec);
      '(dec, w) ← check_res (Decode weight_ops dec w);
      '(_, e) ← ds_AddWeightedElem s w e;
      ds_merge_loop n dec w e
  end.

(* @src src/src/emitters/szldistinctsample.cc 293-335 SzlDistinctSampleEntry::Merge *)
Definition ds_Merge (val : bytes) (e : SzlDistinctSampleEntry) : res (MergeStatus * SzlDistinctSampleEntry) :=
  match val with
  | [] => Ok (MergeOk, e)
  | _ =>
      match (dec ← GetInt (dec_Init val); '(nvals, d) ← GetInt (snd dec); Some (fst dec, nvals, d)) with
      | None => Ok (MergeError, e)
      | Some (extra, nvals, dec) =>
          if ds_maxElems e <? nvals then Ok (MergeError, e)
          else
            match skip_n ds_skip_elem (Z.to_nat nvals) dec with
            | None => Ok (MergeError, e)
            | Some dec =>
                if negb (done_ dec) then Ok (MergeError, e)
                else
                  dec ← check_some (Skip (Restart dec) INT);
                  dec ← check_some (Skip dec INT);
                  '(w, e) ← ds_merge_loop (Z.to_nat nvals) dec VNil e;
                  _ ← Clear weight_ops w;
                  let e := MkDistinct (ds_nElems e) (ds_maxElems e) (map_ e) (list_ e) (s64 (ds_tot e + extra)) in
                  _ ← check (ds_IsValid e);
                  Ok (MergeOk, e)
            end
      end
  end.

(* @src src/src/emitters/szldistinctsample.cc 122-122 SzlDistinctSampleEntry::TupleCount *)
Definition ds_TupleCount (e : SzlDistinctSampleEntry) : res Z := Ok (Z.of_nat (length (map_ e))).

Definition distinct_methods : SzlTabEntry SzlDistinctSampleEntry := {|
  entry_AddElem := ds_AddElem;
  entry_AddWeightedElem := ds_AddWeightedElem;
  entry_Flush := ds_Flush;
  entry_FlushForDisplay := ds_FlushForDisplay;
  entry_Merge := ds_Merge;
  entry_Clear := ds_Clear;
  entry_TotElems := ds_tot;
  entry_TupleCount := ds_TupleCount;
|}.

(** ** Reading results *)

(* @src src/src/emitters/szldistinctsampleresults.cc 140-143 SzlDistinctSampleResults (data members) *)
Record DistinctResults : Type := MkDistinctResults { dr_elems : list bytes; dr_tot : Z }.

(** The value, and the weight as it was encoded, in one string. *)
(* @src src/src/emitters/szldistinctsampleresults.cc 117-128 SzlDistinctSampleResults::ParseFromString *)
Fixpoint ds_join_elems (n : nat) (dec : SzlDecoder) : res (list bytes) :=
  match n with
  | O => Ok []
  | S n =>
      '(s, dec) ← check_some (GetBytes dec);
      dec' ← check_some (ops_Skip weight_ops dec);
      xs ← ds_join_elems n dec';
      Ok ((s ++ between dec dec') :: xs)
  end.

(* @src src/src/emitters/szldistinctsampleresults.cc 86-131 SzlDistinctSampleResults::ParseFromString *)
Definition ds_ParseFromString (maxElems : Z) (val : bytes) : res (bool * DistinctResults) :=
  let empty := MkDistinctResults [] 0 in
  match val with
  | [] => Ok (true, empty)
  | _ =>
      match (dec ← GetInt (dec_Init val); '(nvals, d) ← GetInt (snd dec); Some (fst dec, nvals, d)) with
      | None => Ok (false, empty)
      | Some (extra, nvals, dec) =>
          if maxElems <? nvals then Ok (false, empty)
          else
            match skip_n ds_skip_elem (Z.to_nat nvals) dec with
            | None => Ok (false, empty)
            | Some dec =>
                if negb (done_ dec) then Ok (false, empty)
                else
                  dec ← check_some (Skip (Restart dec) INT);
                  dec ← check_some (Skip dec INT);
                  elems ← ds_join_elems (Z.to_nat nvals) dec;
                  Ok (true, MkDistinctResults elems (s64 (extra + nvals)))
            end
      end
  end.
End Distinct.
