(* ===== verification/DistinctCorrect.v ===== *)
(** * The distinctsample table over shards

    The entry of [DistinctTable.v] keeps the smallest of the different elements
    with the total of each one's weights, although it never sees some of them
    again and forgets others: [distinct_sharded]. *)
From Stdlib Require Import ZArith Lia.
From stdpp Require Import prelude sorting.
From S2P Require Import Prelude SzlType Encoder Decoder Codec SzlValue ValueCodec ValueOrder ValueAdd Numbers SumTable TabEntry DistinctTable.

Local Open Scope Z_scope.

(** ** The order of the hashes, and the smallest of a list of strings *)

Section Smallest.
Context (MD5Digest : bytes -> bytes).
Implicit Types (x y v : bytes) (s : list bytes).

Definition hlt x y : Prop := HashCmp MD5Digest x y = true.

Lemma HashCmp_spec x y :
  HashCmp MD5Digest x y = true <-> cmp_then (str_cmp (MD5Digest x) (MD5Digest y)) (str_cmp x y) = Lt.
Proof. unfold HashCmp. destruct (str_cmp _ _); cbn [cmp_then]; [apply str_ltb_lt|done|done]. Qed.

Lemma hlt_irrefl x : HashCmp MD5Digest x x = false.
Proof. unfold HashCmp. by rewrite str_cmp_refl, str_ltb_irrefl. Qed.

#[export] Instance hlt_trans : Transitive hlt.
Proof.
  intros x y z. unfold hlt. rewrite !HashCmp_spec.
  destruct (str_cmp (MD5Digest x) (MD5Digest y)) eqn:E1, (str_cmp (MD5Digest y) (MD5Digest z)) eqn:E2; cbn [cmp_then];
    try done; intros H1 H2.
  - apply str_cmp_eq in E1 as ->. rewrite E2. cbn. by apply (str_cmp_lt_trans x y z).
  - apply str_cmp_eq in E1 as ->. by rewrite E2.
  - apply str_cmp_eq in E2 as <-. by rewrite E1.
  - by rewrite (str_cmp_lt_trans _ _ _ E1 E2).
Qed.

Lemma hlt_asym x y : hlt x y -> HashCmp MD5Digest y x = false.
Proof.
  intros H. destruct (HashCmp MD5Digest y x) eqn:E; [|done].
  pose proof (hlt_trans x y x H E) as Hx. unfold hlt in Hx. by rewrite hlt_irrefl in Hx.
Qed.

Lemma hlt_total x y : HashCmp MD5Digest x y = false -> x <> y -> hlt y x.
Proof.
  unfold hlt. intros H Hne. apply HashCmp_spec. apply not_true_iff_false in H. rewrite HashCmp_spec in H.
  rewrite (str_cmp_antisym (MD5Digest x)), (str_cmp_antisym x).
  destruct (str_cmp (MD5Digest x) (MD5Digest y)); cbn [cmp_then CompOpp] in *; try done.
  destruct (str_cmp x y) eqn:E; cbn; try done. by apply str_cmp_eq in E.
Qed.

(** The sorted list of the different strings, one string after the other. *)
Fixpoint insert_value x s : list bytes :=
  match s with
  | [] => [x]
  | y :: s => if HashCmp MD5Digest y x then y :: insert_value x s else if bool_decide (x = y) then y :: s else x :: y :: s
  end.

Definition sorted_values (xs : list bytes) : list bytes := foldr insert_value [] xs.
Definition smallest (k : nat) (xs : list bytes) : list bytes := take k (sorted_values xs).

Lemma elem_of_insert_value x y s : y ∈ insert_value x s <-> y = x \/ y ∈ s.
Proof.
  induction s as [|z s IH]; cbn [insert_value]; [set_solver|].
  destruct (HashCmp MD5Digest z x); [set_solver|]. case_bool_decide; set_solver.
Qed.

Lemma insert_value_sorted x s : StronglySorted hlt s -> StronglySorted hlt (insert_value x s).
Proof.
  induction 1 as [|y s Hs IH Hy]; cbn [insert_value]; [by repeat constructor|].
  destruct (HashCmp MD5Digest y x) eqn:E.
  - constructor; [done|]. apply Forall_forall. intros z [->|Hz]%elem_of_insert_value; [done|].
    by apply (proj1 (Forall_forall _ _) Hy).
  - case_bool_decide as Hx; [by constructor|]. pose proof (hlt_total y x E (not_eq_sym Hx)) as Hxy.
    constructor; [by constructor|]. constructor; [done|]. eapply Forall_impl; [exact Hy|].
    intros z Hz. by transitivity y.
Qed.

Lemma sorted_values_sorted xs : StronglySorted hlt (sorted_values xs).
Proof. induction xs as [|x xs IH]; [constructor|]. by apply insert_value_sorted. Qed.
Lemma elem_of_sorted_values y xs : y ∈ sorted_values xs <-> y ∈ xs.
Proof.
  induction xs as [|x xs IH]; [done|]. cbn [sorted_values foldr]. fold (sorted_values xs).
  rewrite elem_of_insert_value, IH. by rewrite elem_of_cons.
Qed.

(** A sorted list is given by its elements. *)
Lemma hlt_sorted_unique s s' :
  StronglySorted hlt s -> StronglySorted hlt s' -> (forall y, y ∈ s <-> y ∈ s') -> s = s'.
Proof.
  intros Hs. revert s'. induction Hs as [|x s Hs IH Hx]; intros s' Hs' He.
  - destruct s' as [|y s']; [done|]. exfalso. apply (not_elem_of_nil y), He, list_elem_of_here.
  - destruct Hs' as [|y s' Hs' Hy]; [exfalso; apply (not_elem_of_nil x), He, list_elem_of_here|].
    rewrite Forall_forall in Hx, Hy.
    assert (forall z, hlt z z -> False) as Hirr by (intros z; unfold hlt; by rewrite hlt_irrefl).
    assert (x = y) as <-.
    { destruct (proj1 (elem_of_cons _ _ _) (proj1 (He x) (list_elem_of_here _ _))) as [->|H1]; [done|].
      destruct (proj1 (elem_of_cons _ _ _) (proj2 (He y) (list_elem_of_here _ _))) as [->|H2]; [done|].
      destruct (Hirr x). transitivity y; [by apply Hx|by apply Hy]. }
    f_equal. apply IH; [done|]. intros z. specialize (He z). rewrite !elem_of_cons in He. split; intros Hz.
    + destruct (proj1 He (or_intror Hz)) as [->|]; [destruct (Hirr x); by apply Hx|done].
    + destruct (proj2 He (or_intror Hz)) as [->|]; [destruct (Hirr x); by apply Hy|done].
Qed.

Lemma sorted_values_ext xs ys : (forall y, y ∈ xs <-> y ∈ ys) -> sorted_values xs = sorted_values ys.
Proof.
  intros H. apply hlt_sorted_unique; [apply sorted_values_sorted..|]. intros y. by rewrite !elem_of_sorted_values.
Qed.
Lemma sorted_values_id s : StronglySorted hlt s -> sorted_values s = s.
Proof. intros Hs. apply hlt_sorted_unique; [apply sorted_values_sorted|done|]. intros y. apply elem_of_sorted_values. Qed.

Lemma sorted_take k s : StronglySorted hlt s -> StronglySorted hlt (take k s).
Proof.
  intros H. revert k. induction H as [|x s Hs IH Hx]; intros [|k]; try constructor; [apply IH|].
  by apply Forall_take.
Qed.
Lemma sorted_NoDup s : StronglySorted hlt s -> NoDup s.
Proof.
  induction 1 as [|x s Hs IH Hx]; constructor; [|done]. intros Hin. apply (proj1 (Forall_forall _ _) Hx) in Hin.
  unfold hlt in Hin. by rewrite hlt_irrefl in Hin.
Qed.

(** Only the [k] smallest matter for the [k] smallest. *)
Lemma take_insert_value k x s : take k (insert_value x s) = take k (insert_value x (take k s)).
Proof.
  revert k. induction s as [|y s IH]; intros [|k]; try done. cbn [insert_value take].
  destruct (HashCmp MD5Digest y x); [cbn [take]; by rewrite IH|]. case_bool_decide; cbn [take].
  - by rewrite take_take, Nat.min_id.
  - f_equal. destruct k as [|k]; [done|]. cbn [take]. f_equal. rewrite take_take. f_equal. lia.
Qed.

Lemma take_inserts k xs s :
  take k (foldr insert_value s xs) = take k (foldr insert_value (take k s) xs).
Proof.
  induction xs as [|x xs IH]; [cbn; by rewrite take_take, Nat.min_id|]. cbn [foldr].
  by rewrite take_insert_value, IH, <- take_insert_value.
Qed.

Lemma smallest_app k xs ys : smallest k (xs ++ smallest k ys) = smallest k (xs ++ ys).
Proof.
  unfold smallest at 1 3, sorted_values. rewrite !foldr_app. fold (sorted_values (smallest k ys)) (sorted_values ys).
  unfold smallest. rewrite sorted_values_id by apply sorted_take, sorted_values_sorted.
  symmetry. apply take_inserts.
Qed.

Lemma smallest_snoc k xs x : smallest k (xs ++ [x]) = take k (insert_value x (smallest k xs)).
Proof.
  unfold smallest. rewrite <- take_insert_value. f_equal. change (insert_value x (sorted_values xs)) with (sorted_values (x :: xs)).
  apply sorted_values_ext. set_solver.
Qed.

(** A string among the smallest is among the smallest of every part it is in. *)
Lemma elem_of_take_insert k x v s :
  StronglySorted hlt s -> v ∈ take k (insert_value x s) -> v ∈ s -> v ∈ take k s.
Proof.
  intros Hs. revert k. induction Hs as [|y s Hs IH Hy]; intros k Hv Hin; [by apply elem_of_nil in Hin|].
  destruct k as [|k]; [by apply elem_of_nil in Hv|]. cbn [insert_value] in Hv. destruct (HashCmp MD5Digest y x) eqn:E.
  - cbn [take] in *. apply elem_of_cons in Hv as [->|Hv]; [apply list_elem_of_here|].
    apply elem_of_cons in Hin as [->|Hin]; [apply list_elem_of_here|]. apply list_elem_of_further. by apply IH.
  - case_bool_decide as Hxy; [done|]. pose proof (hlt_total y x E (not_eq_sym Hxy)) as Hlt. cbn [take] in Hv.
    apply elem_of_cons in Hv as [->|Hv].
    + apply elem_of_cons in Hin as [->|Hin]; [done|]. apply (proj1 (Forall_forall _ _) Hy) in Hin.
      unfold hlt in Hin. congruence.
    + rewrite <- (Nat.min_l k (S k)), <- take_take in Hv by lia. by apply subseteq_take in Hv.
Qed.

Lemma smallest_part k v xs ys : v ∈ smallest k (xs ++ ys) -> v ∈ ys -> v ∈ smallest k ys.
Proof.
  unfold smallest. intros Hv Hin. rewrite <- elem_of_sorted_values in Hin.
  induction xs as [|x xs IH]; [done|]. apply IH. cbn [app sorted_values foldr] in Hv.
  apply (elem_of_take_insert k x); [apply sorted_values_sorted|done|].
  apply elem_of_sorted_values, elem_of_app. right. by apply elem_of_sorted_values.
Qed.

(** What is below one of the smallest is one of them. *)
Lemma smallest_below k v y xs : y ∈ smallest k xs -> hlt v y -> v ∈ xs -> v ∈ smallest k xs.
Proof.
  unfold smallest. intros Hy Hlt Hv. apply elem_of_sorted_values in Hv. pose proof (sorted_values_sorted xs) as Hs.
  rewrite <- (take_drop k (sorted_values xs)) in Hs, Hv. apply elem_of_app in Hv as [Hv|Hv]; [done|].
  pose proof (StronglySorted_app_1_elem_of _ _ _ _ _ Hs Hy Hv) as H. apply hlt_asym in H. unfold hlt in Hlt. congruence.
Qed.
Lemma smallest_whole k v xs : (length (smallest k xs) < k)%nat -> v ∈ xs -> v ∈ smallest k xs.
Proof.
  unfold smallest. rewrite length_take. intros Hl Hv. rewrite take_ge by lia. by apply elem_of_sorted_values.
Qed.

Lemma insert_value_present x s : StronglySorted hlt s -> x ∈ s -> insert_value x s = s.
Proof.
  induction 1 as [|y s Hs IH Hy]; intros Hx; [by apply elem_of_nil in Hx|]. cbn [insert_value].
  apply elem_of_cons in Hx as [->|Hx]; [by rewrite hlt_irrefl, bool_decide_eq_true_2|].
  apply (proj1 (Forall_forall _ _) Hy) in Hx as E. unfold hlt in E. rewrite E. by rewrite IH.
Qed.

(** Replacing the biggest. *)
Lemma take_insert_smaller x y s :
  x ∉ s -> y ∈ s -> hlt x y -> StronglySorted hlt s ->
  take (length s) (insert_value x s) = insert_value x (take (length s - 1) s).
Proof.
  intros Hx Hy Hlt Hs. revert Hx Hy. induction Hs as [|z s Hs IH Hz]; intros Hx Hy; [by apply elem_of_nil in Hy|].
  cbn [insert_value length]. rewrite Nat.sub_1_r. cbn [Nat.pred]. destruct (HashCmp MD5Digest z x) eqn:E.
  - apply elem_of_cons in Hy as [->|Hy]; [apply hlt_asym in Hlt; congruence|].
    destruct s as [|u s]; [by apply elem_of_nil in Hy|]. set (s1 := u :: s) in *. cbn [take].
    rewrite IH by (done || set_solver). assert (length s1 = S (length s1 - 1)) as -> by (cbn; lia).
    cbn [take insert_value]. by rewrite E, Nat.sub_1_r.
  - case_bool_decide as Hxz; [set_solver|]. cbn [take]. destruct s as [|u s]; [done|]. cbn [length take insert_value].
    by rewrite E, bool_decide_eq_false_2.
Qed.

Lemma insert_value_length x s : x ∉ s -> length (insert_value x s) = S (length s).
Proof.
  induction s as [|y s IH]; intros Hx; [done|]. cbn [insert_value length].
  destruct (HashCmp MD5Digest y x); [cbn; rewrite IH; set_solver|]. case_bool_decide; [set_solver|done].
Qed.
End Smallest.

(** ** The weights *)

Section Weights.
Context (MD5Digest : bytes -> bytes) {ops : SzlOps} {M : Type} {zero : M} {plus : M -> M -> M} {code : M -> bytes}
  {good : SzlValue -> Prop} {den : SzlValue -> M} `{S : !Summable ops zero plus code good den}.
Implicit Types (l : list (bytes * M)) (v x : bytes) (w : M).

#[local] Abbreviation number := (number (good := good) (den := den)).
#[local] Abbreviation total := (total (zero := zero) (plus := plus)).

(** The total weight of a string, and what an entry of [k] keeps of the elements. *)
Definition weight_of v l : M := total (map snd (filter (fun p => p.1 = v) l)).
Definition distinct_sample (k : nat) l : list (bytes * M) :=
  map (fun v => (v, weight_of v l)) (smallest MD5Digest k (map fst l)).

Lemma numbers_filter v l : Forall number (map snd l) -> Forall number (map snd (filter (fun p => p.1 = v) l)).
Proof.
  rewrite !Forall_fmap, !Forall_forall. intros H p [_ Hp]%list_elem_of_filter. by apply H.
Qed.

Lemma weight_of_number v l : Forall number (map snd l) -> number (weight_of v l).
Proof. intros H. by apply (number_total (S := S)), numbers_filter. Qed.

Lemma weight_of_app v l l' :
  Forall number (map snd l') -> weight_of v (l ++ l') = plus (weight_of v l) (weight_of v l').
Proof. intros H. unfold weight_of. rewrite filter_app, map_app. by apply total_app, numbers_filter. Qed.

Lemma weight_of_absent v l : v ∉ map fst l -> weight_of v l = zero.
Proof.
  intros H. unfold weight_of. rewrite filter_none; [done|]. apply Forall_forall. intros [x w] Hin Hx. cbn in Hx. subst x.
  apply H. by apply (list_elem_of_fmap_2 fst l (v, w)).
Qed.

Lemma weight_of_single v w : number w -> weight_of v [(v, w)] = w.
Proof.
  intros Hw. unfold weight_of. rewrite filter_cons_True by done. cbn. rewrite (s_comm w). by apply (number_left_id (S := S)).
Qed.

(** Adding another element leaves the weight. *)
Lemma weight_of_other v x w l : number w -> Forall number (map snd l) -> v <> x -> weight_of v (l ++ [(x, w)]) = weight_of v l.
Proof.
  intros Hw Hl Hne. rewrite weight_of_app by (by constructor). rewrite (weight_of_absent v [(x, w)])
    by (intros [E|E]%elem_of_cons; [done|by apply elem_of_nil in E]).
  rewrite s_comm. by apply (number_left_id (S := S)), weight_of_number.
Qed.

Lemma sample_fst k l : map fst (distinct_sample k l) = smallest MD5Digest k (map fst l).
Proof. unfold distinct_sample. rewrite map_map. cbn. apply map_id. Qed.
Lemma sample_numbers k l : Forall number (map snd l) -> Forall number (map snd (distinct_sample k l)).
Proof.
  intros H. unfold distinct_sample. rewrite map_map. apply Forall_map, Forall_true. intros v. by apply weight_of_number.
Qed.

(** In a list of pairs with different strings. *)
Lemma weight_of_nodup v (f : bytes -> M) s :
  NoDup s -> v ∈ s -> number (f v) -> weight_of v (map (fun v => (v, f v)) s) = f v.
Proof.
  intros Hs Hv Hf. induction Hs as [|x s Hx Hs IH]; [by apply elem_of_nil in Hv|]. unfold weight_of. cbn [map].
  apply elem_of_cons in Hv as [->|Hv].
  - rewrite filter_cons_True, filter_none by done || (apply Forall_map, Forall_forall; cbn; congruence).
    cbn. rewrite s_comm. by apply (number_left_id (S := S)).
  - rewrite filter_cons_False by (cbn; congruence). by apply IH.
Qed.

(** The sample of a shard stands for the shard. *)
Lemma sample_stands k l l' : Forall number (map snd l) -> Forall number (map snd l') ->
  distinct_sample k (l ++ distinct_sample k l') = distinct_sample k (l ++ l').
Proof.
  intros Hl Hl'. unfold distinct_sample at 1 3. rewrite !map_app, sample_fst, smallest_app.
  apply map_ext_in. intros v Hv%list_elem_of_In. f_equal.
  rewrite !weight_of_app by (done || by apply sample_numbers). f_equal.
  destruct (decide (v ∈ map fst l')) as [Hin|Hout].
  - unfold distinct_sample. apply (weight_of_nodup v (fun v => weight_of v l')).
    + by apply (sorted_NoDup MD5Digest), sorted_take, sorted_values_sorted.
    + by apply (smallest_part _ k v (map fst l)).
    + by apply weight_of_number.
  - rewrite !weight_of_absent; [done|done|]. rewrite sample_fst. intros H. apply Hout.
    apply (elem_of_sorted_values MD5Digest). by apply subseteq_take in H.
Qed.

Lemma sample_perm k l l' : l ≡ₚ l' -> distinct_sample k l = distinct_sample k l'.
Proof.
  intros Hp. unfold distinct_sample, smallest.
  rewrite (sorted_values_ext MD5Digest (map fst l) (map fst l')) by (intros y; by rewrite Hp).
  apply map_ext. intros v. f_equal. apply (total_perm (S := S)). by rewrite Hp.
Qed.
End Weights.

(** ** The entry *)

Section Entry.
Context (MD5Digest : bytes -> bytes) {ops : SzlOps} {M : Type} {zero : M} {plus : M -> M -> M} {code : M -> bytes}
  {good : SzlValue -> Prop} {den : SzlValue -> M} `{SU : !Summable ops zero plus code good den} (k : nat).
Implicit Types (l : list (bytes * M)) (x : bytes) (L : list DElem) (js : list nat) (e : SzlDistinctSampleEntry).

#[local] Abbreviation number := (number (good := good) (den := den)).
#[local] Abbreviation weight_of := (weight_of (zero := zero) (plus := plus)).
#[local] Abbreviation least := (smallest MD5Digest).
#[local] Abbreviation ins := (insert_value MD5Digest).

Definition val_at L (i : nat) : bytes := d_value (L !!! i).
Definition dup js : list (nat * nat) := map (fun i => (i, i)) js.

(** How many strings at the start of a list are below [x]. *)
Fixpoint below x (s : list bytes) : nat :=
  match s with
  | [] => 0
  | y :: s => if HashCmp MD5Digest y x then 1 + below x s else 0
  end.

Lemma lower_bound_below L x js : lower_bound MD5Digest L x (dup js) = below x (map (val_at L) js).
Proof. induction js as [|i js IH]; [done|]. cbn. fold (dup js). unfold val_at at 1. by rewrite IH. Qed.

Lemma insert_value_below x s : x ∉ s -> ins x s = take (below x s) s ++ x :: drop (below x s) s.
Proof.
  induction s as [|y s IH]; intros Hx; [done|]. cbn [insert_value below].
  destruct (HashCmp MD5Digest y x); [cbn; rewrite IH by set_solver; done|].
  rewrite bool_decide_eq_false_2 by set_solver. done.
Qed.

Lemma below_not x s y : s !! below x s = Some y -> HashCmp MD5Digest y x = false.
Proof.
  induction s as [|z s IH]; [done|]. cbn [below]. destruct (HashCmp MD5Digest z x) eqn:E; [exact IH|].
  cbn. intros Hy. injection Hy as ->. done.
Qed.

Lemma map_put_spec L i js :
  val_at L i ∉ map (val_at L) js -> exists js',
  map_put MD5Digest L i i (dup js) = dup js' /\ js' ≡ₚ i :: js
  /\ map (val_at L) js' = ins (val_at L i) (map (val_at L) js).
Proof.
  intros Hx. set (p := below (val_at L i) (map (val_at L) js)).
  exists (take p js ++ i :: drop p js). split; [|split].
  - unfold map_put. fold (val_at L i). rewrite lower_bound_below. fold p. unfold dup at 1.
    rewrite list_lookup_fmap. destruct (js !! p) as [j|] eqn:Ej; cbn [fmap option_fmap option_map].
    + assert (map (val_at L) js !! p = Some (val_at L j)) as Ev by (by rewrite list_lookup_fmap, Ej).
      pose proof (below_not _ _ _ Ev) as Hn. fold (val_at L j). apply hlt_total in Hn.
      * unfold hlt in Hn. rewrite Hn. unfold dup. rewrite map_app, firstn_map, skipn_map. done.
      * intros E. apply Hx. rewrite <- E. by apply list_elem_of_lookup_2 in Ev.
    + apply lookup_ge_None in Ej. rewrite take_ge, drop_ge by done. unfold dup. by rewrite map_app.
  - rewrite <- Permutation_middle, take_drop. done.
  - rewrite insert_value_below by done. fold p. rewrite map_app. cbn [map]. by rewrite firstn_map, skipn_map.
Qed.

Definition ds_struct l e : Prop :=
  length (list_ e) = k /\ ds_maxElems e = Z.of_nat k
  /\ Forall (fun y : DElem => d_weight y = VNil \/ good (d_weight y)) (list_ e)
  /\ exists js, map_ e = dup js /\ js ≡ₚ seq 0 (ds_nElems e)
     /\ map (val_at (list_ e)) js = least k (map fst l)
     /\ Forall (fun i => good (d_weight (list_ e !!! i)) /\ den (d_weight (list_ e !!! i)) = weight_of (val_at (list_ e) i) l) js.

Lemma ds_struct_new : ds_struct [] (ds_new (Z.of_nat k)).
Proof.
  unfold ds_struct, ds_new. cbn [list_ ds_maxElems map_ ds_nElems]. rewrite Nat2Z.id, length_replicate.
  split; [done|]. split; [done|]. split; [apply Forall_replicate; by left|]. exists [].
  split_and!; [done|done|by destruct k|constructor].
Qed.

(** How many are kept. *)
Lemma struct_count l e js :
  js ≡ₚ seq 0 (ds_nElems e) -> map (val_at (list_ e)) js = least k (map fst l) ->
  length js = ds_nElems e /\ length (least k (map fst l)) = ds_nElems e /\ (ds_nElems e <= k)%nat.
Proof.
  intros Hp Hv. assert (length js = ds_nElems e) as Hl by (by rewrite Hp, length_seq).
  split; [done|]. rewrite <- Hv, length_map. split; [done|]. rewrite <- Hl, <- (length_map (val_at (list_ e))), Hv.
  apply firstn_le_length.
Qed.

(** Storing an element that is not there at an index that is free. *)
Lemma ds_store_spec L x w i js m n t0 n0 :
  i ∉ js -> (i < length L)%nat -> x ∉ map (val_at L) js -> good w ->
  Forall (fun y : DElem => d_weight y = VNil \/ good (d_weight y)) L ->
  let L' := <[i := MkDElem x w]> L in
  exists js', ds_store MD5Digest ops i (dup js) x w (MkDistinct n0 n m L t0) = Ok (dup js', L')
  /\ js' ≡ₚ i :: js /\ map (val_at L') js' = ins x (map (val_at L) js)
  /\ val_at L' i = x /\ L' !!! i = MkDElem x w /\ (forall j, j ∈ js -> L' !!! j = L !!! j).
Proof.
  intros Hi HL Hx Hw Hd L'. unfold ds_store. cbn [list_].
  assert (L' !!! i = MkDElem x w) as Ei by (by apply list_lookup_total_insert_eq).
  assert (forall j, j ∈ js -> L' !!! j = L !!! j) as Ej.
  { intros j Hj. apply list_lookup_total_insert_ne. intros ->. done. }
  assert (map (val_at L') js = map (val_at L) js) as Em.
  { apply map_ext_in. intros j Hj%list_elem_of_In. unfold val_at. by rewrite Ej. }
  assert (val_at L' i = x) as Ex by (unfold val_at; by rewrite Ei).
  rewrite (s_assign w _ Hw).
  - cbn [mbind res_bind]. fold L'. destruct (map_put_spec L' i js) as (js' & E & Hp & Hm); [by rewrite Em, Ex|].
    rewrite E. exists js'. split_and!; try done. by rewrite Hm, Em, Ex.
  - apply (proj1 (Forall_lookup _ _) Hd i). by apply list_lookup_lookup_total_lt.
Qed.

(** The weights the entry must hold at the indices [js]. *)
Definition weights_ok l L js : Prop :=
  Forall (fun i => good (d_weight (L !!! i)) /\ den (d_weight (L !!! i)) = weight_of (val_at L i) l) js.

Lemma weights_ok_other l x w L L' js :
  Forall number (map snd l) -> good w -> x ∉ map (val_at L) js ->
  (forall j, j ∈ js -> L' !!! j = L !!! j) -> weights_ok l L js -> weights_ok (l ++ [(x, den w)]) L' js.
Proof.
  intros Hl Hw Hx Hj H. unfold weights_ok in *. rewrite Forall_forall in H |- *. intros j Hin. destruct (H j Hin) as [H1 H2].
  unfold val_at in *. rewrite Hj by done. split; [done|]. rewrite H2. symmetry.
  apply (weight_of_other (S := SU)); [by exists w|done|]. intros <-. apply Hx.
  by apply (list_elem_of_fmap_2 (fun i => d_value (L !!! i))).
Qed.

Lemma weight_of_new l x w : good w -> x ∉ map fst l -> weight_of x (l ++ [(x, den w)]) = den w.
Proof.
  intros Hw Hx. assert (number (den w)) as Hn by (by exists w).
  rewrite (weight_of_app (S := SU)) by (by constructor). rewrite (weight_of_absent x l) by done.
  rewrite (weight_of_single (S := SU)) by done. by apply (s_left_id (Summable := SU)).
Qed.

(** After storing, the entry has the new element too. *)
Lemma stored_struct l L x w i js js' n' t' :
  Forall number (map snd l) -> good w -> x ∉ map fst l -> x ∉ map (val_at L) js -> length L = k ->
  Forall (fun y : DElem => d_weight y = VNil \/ good (d_weight y)) L -> weights_ok l L js ->
  let L' := <[i := MkDElem x w]> L in
  js' ≡ₚ i :: js -> js' ≡ₚ seq 0 n' -> val_at L' i = x -> L' !!! i = MkDElem x w ->
  (forall j, j ∈ js -> L' !!! j = L !!! j) ->
  map (val_at L') js' = least k (map fst (l ++ [(x, den w)])) ->
  ds_struct (l ++ [(x, den w)]) (MkDistinct n' (Z.of_nat k) (dup js') L' t').
Proof.
  intros Hl Hw Hx Hv HL Hd Hwt L' Hp Hs Ev Ei Ej Hm. unfold ds_struct. cbn [list_ ds_maxElems map_ ds_nElems].
  split; [unfold L'; by rewrite length_insert|]. split; [done|]. split.
  { unfold L'. apply Forall_insert; [done|]. by right. }
  exists js'. split; [done|]. split; [done|]. split; [done|]. fold (weights_ok (l ++ [(x, den w)]) L' js').
  unfold weights_ok. rewrite Hp. constructor.
  - rewrite Ei, Ev. cbn [d_weight]. split; [done|]. symmetry. by apply weight_of_new.
  - by apply (weights_ok_other l x w L).
Qed.

Lemma below_all x s : s !! below x s = None -> Forall (fun y => hlt MD5Digest y x) s.
Proof.
  induction s as [|z s IH]; intros H; [done|]. cbn [below] in H. destruct (HashCmp MD5Digest z x) eqn:E; [|done].
  constructor; [done|]. by apply IH.
Qed.
Lemma below_absent x y s :
  StronglySorted (hlt MD5Digest) s -> s !! below x s = Some y -> hlt MD5Digest x y -> x ∉ s.
Proof.
  intros Hs Hy Hlt. induction Hs as [|z s Hs IH Hz]; [by apply not_elem_of_nil|].
  apply not_elem_of_cons. cbn [below] in Hy. destruct (HashCmp MD5Digest z x) eqn:E.
  - split; [intros ->; by rewrite hlt_irrefl in E|by apply IH].
  - cbn in Hy. injection Hy as ->. split; [intros ->; unfold hlt in Hlt; by rewrite hlt_irrefl in Hlt|].
    intros Hin. apply (proj1 (Forall_forall _ _) Hz) in Hin. unfold hlt in Hin. congruence.
Qed.

Lemma smallest_sorted xs : StronglySorted (hlt MD5Digest) (least k xs).
Proof. apply sorted_take, sorted_values_sorted. Qed.

(** A new element while there is room. *)
Lemma ds_add_room l e x w js :
  Forall number (map snd l) -> good w -> ds_struct l e -> map_ e = dup js -> js ≡ₚ seq 0 (ds_nElems e) ->
  map (val_at (list_ e)) js = least k (map fst l) -> weights_ok l (list_ e) js -> (ds_nElems e < k)%nat ->
  x ∉ least k (map fst l) -> exists m t, ds_store MD5Digest ops (ds_nElems e) (map_ e) x w e = Ok (m, t)
  /\ length m = S (ds_nElems e)
  /\ forall tot, ds_struct (l ++ [(x, den w)]) (MkDistinct (S (ds_nElems e)) (ds_maxElems e) m t tot).
Proof.
  intros Hl Hw (HL & Hmax & Hd & _) Hm Hp Hv Hwt Hroom Hx. destruct (struct_count l e js Hp Hv) as (Hn & Hc & _).
  assert (x ∉ map fst l) as Hxl by (intros H; apply Hx, smallest_whole; [by rewrite Hc|done]).
  destruct e as [n mx m L t0]. cbn [ds_nElems ds_maxElems map_ list_ ds_tot] in *. subst m mx.
  assert (n ∉ js) as Hni by (rewrite Hp, elem_of_seq; lia).
  destruct (ds_store_spec L x w n js (dup js) (Z.of_nat k) t0 n) as (js' & E & Hp' & Hm' & Ev & Ei & Ej); try done; [lia|by rewrite Hv|].
  rewrite E. eexists _, _. split; [done|]. split; [unfold dup; rewrite length_map, Hp'; cbn; by rewrite Hn|]. intros tot.
  apply (stored_struct l L x w n js js'); try done; [by rewrite Hv| |].
  - rewrite Hp', Hp. change (n :: seq 0 n) with ([n] ++ seq 0 n). rewrite Permutation_app_comm. by rewrite seq_S.
  - rewrite Hm', Hv, map_app. cbn [map fst]. rewrite smallest_snoc. symmetry. apply take_ge.
    rewrite insert_value_length, Hc by done. lia.
Qed.

(** A new element in the place of the biggest. *)
Lemma add_replace l e x w js y :
  Forall number (map snd l) -> good w -> ds_struct l e -> map_ e = dup js -> js ≡ₚ seq 0 (ds_nElems e) ->
  map (val_at (list_ e)) js = least k (map fst l) -> weights_ok l (list_ e) js -> ds_nElems e = k ->
  x ∉ least k (map fst l) -> y ∈ least k (map fst l) -> hlt MD5Digest x y ->
  let ee := snd (map_ e !!! (length (map_ e) - 1)%nat) in
  good (d_weight (list_ e !!! ee))
  /\ exists m t, ds_store MD5Digest ops ee (take (length (map_ e) - 1) (map_ e)) x w e = Ok (m, t)
  /\ length m = ds_nElems e
  /\ forall tot, ds_struct (l ++ [(x, den w)]) (MkDistinct (ds_nElems e) (ds_maxElems e) m t tot).
Proof.
  intros Hl Hw (HL & Hmax & Hd & _) Hm Hp Hv Hwt Hfull Hx Hy Hlt. destruct (struct_count l e js Hp Hv) as (Hn & Hc & _).
  assert (x ∉ map fst l) as Hxl by (intros H; apply Hx; by apply (smallest_below MD5Digest k x y)).
  destruct e as [n mx m L t0]. cbn [ds_nElems ds_maxElems map_ list_ ds_tot] in *. subst m mx n.
  destruct (exists_last (l := js)) as (j0 & i & ->); [intros ->; cbn in Hv; rewrite <- Hv in Hy; by apply elem_of_nil in Hy|].
  rewrite length_app in Hn. cbn in Hn. assert (length (dup (j0 ++ [i])) - 1 = length (dup j0))%nat as ->.
  { unfold dup. rewrite !length_map, length_app. cbn. lia. }
  assert (dup (j0 ++ [i]) = dup j0 ++ [(i, i)]) as -> by (unfold dup; by rewrite map_app).
  rewrite take_app_length, lookup_total_app_r, Nat.sub_diag by lia. cbn [lookup_total list_lookup_total snd].
  apply Forall_app in Hwt as [Hw0 [Hgi _]%Forall_inv]. split; [done|].
  pose proof (NoDup_seq 0 k) as Hnd. rewrite <- Hp in Hnd. apply NoDup_app in Hnd as (_ & Hnd & _).
  assert (i ∉ j0) as Hi by (intros H; apply (Hnd i H), list_elem_of_here).
  assert (i ∈ seq 0 k) as Hik by (rewrite <- Hp; apply elem_of_app; right; apply list_elem_of_here). apply elem_of_seq in Hik.
  assert (map (val_at L) j0 = take (k - 1) (least k (map fst l))) as Hv0.
  { rewrite <- Hv, map_app, take_app_le by (rewrite length_map; lia). rewrite take_ge; [done|]. rewrite length_map. lia. }
  assert (x ∉ map (val_at L) j0) as Hx0 by (rewrite Hv0; intros H; by apply subseteq_take in H).
  destruct (ds_store_spec L x w i j0 (dup j0 ++ [(i, i)]) (Z.of_nat k) t0 k) as (js' & E & Hp' & Hm' & Ev & Ei & Ej); try done; [lia|].
  rewrite E. eexists _, _. split; [done|]. split; [unfold dup; rewrite length_map, Hp'; cbn; lia|]. intros tot.
  apply (stored_struct l L x w i j0 js'); try done.
  - rewrite Hp', <- Hp. apply Permutation_cons_append.
  - rewrite Hm', map_app. cbn [map fst]. rewrite smallest_snoc.
    pose proof (take_insert_smaller MD5Digest x y _ Hx Hy Hlt (smallest_sorted _)) as Et.
    rewrite Hc in Et. by rewrite Et, Hv0.
Qed.

(** Adding an element that the entry has, or that is too big for it. *)
Lemma add_present l e x w js j :
  Forall number (map snd l) -> good w -> ds_struct l e -> map_ e = dup js -> js ≡ₚ seq 0 (ds_nElems e) ->
  map (val_at (list_ e)) js = least k (map fst l) -> weights_ok l (list_ e) js ->
  j ∈ js -> val_at (list_ e) j = x -> exists v, Add ops w (d_weight (list_ e !!! j)) = Ok v
  /\ forall tot, ds_struct (l ++ [(x, den w)])
       (MkDistinct (ds_nElems e) (ds_maxElems e) (map_ e) (<[j := MkDElem (d_value (list_ e !!! j)) v]> (list_ e)) tot).
Proof.
  intros Hl Hw (HL & Hmax & Hd & _) Hm Hp Hv Hwt Hj Hx. destruct (struct_count l e js Hp Hv) as (Hn & Hc & Hle).
  destruct e as [n mx m L t0]. cbn [ds_nElems ds_maxElems map_ list_ ds_tot] in *. subst m mx.
  assert (number (den w)) as Hnw by (by exists w).
  destruct (proj1 (Forall_forall _ _) Hwt j Hj) as [Hg Hden].
  destruct (s_add (Summable := SU) w _ Hw Hg) as (v & E & Hgv & Hdv). exists v. split; [exact E|]. intros tot.
  assert (j < k)%nat as Hjk by (rewrite Hp, elem_of_seq in Hj; lia).
  set (L' := <[j := MkDElem (d_value (L !!! j)) v]> L).
  assert (L' !!! j = MkDElem x v) as Ej by (unfold L'; rewrite list_lookup_total_insert_eq by lia; unfold val_at in Hx; by rewrite Hx).
  assert (forall i, i <> j -> L' !!! i = L !!! i) as Ei by (intros i Hi; by apply list_lookup_total_insert_ne).
  assert (forall i, val_at L' i = val_at L i) as Ev.
  { intros i. unfold val_at. destruct (decide (i = j)) as [->|Hi]; [|by rewrite Ei]. by rewrite Ej. }
  unfold ds_struct. cbn [list_ ds_maxElems map_ ds_nElems]. split; [unfold L'; by rewrite length_insert|]. split; [done|].
  split; [apply Forall_insert; [done|by right]|]. exists js. split; [done|]. split; [done|]. split.
  - rewrite (map_ext _ _ Ev), Hv, map_app. cbn [map fst]. rewrite smallest_snoc, insert_value_present.
    + symmetry. apply take_ge. lia.
    + apply smallest_sorted.
    + rewrite <- Hv, <- Hx. by apply (list_elem_of_fmap_2 (val_at L)).
  - unfold weights_ok in Hwt. rewrite Forall_forall in Hwt |- *. intros i Hi. rewrite Ev. destruct (decide (i = j)) as [->|Hne].
    + rewrite Ej, Hx. cbn [d_weight]. split; [done|]. rewrite Hdv, Hden, Hx, (weight_of_app (S := SU)) by (by constructor).
      rewrite (weight_of_single (S := SU)) by done. apply (s_comm (Summable := SU)).
    + destruct (Hwt i Hi) as [H1 H2]. rewrite Ei by done. split; [done|]. rewrite H2. symmetry.
      apply (weight_of_other (S := SU)); [done|done|]. intros Heq. apply Hne.
      pose proof (sorted_NoDup MD5Digest _ (smallest_sorted (map fst l))) as Hnd. rewrite <- Hv in Hnd.
      apply list_elem_of_lookup in Hi as [a Ha], Hj as [b Hb].
      assert (a = b) as ->; [|congruence].
      apply (NoDup_lookup _ a b (val_at L i) Hnd); rewrite list_lookup_fmap, ?Ha, ?Hb; cbn; congruence.
Qed.

(** Adding any element. *)
Lemma ds_add_spec l e x w :
  Forall number (map snd l) -> good w -> ds_struct l e -> exists m e',
  ds_AddWeightedElem MD5Digest ops x w e = Ok (m, e') /\ ds_struct (l ++ [(x, den w)]) e' /\ ds_tot e' = s64 (ds_tot e + 1).
Proof.
  intros Hl Hw He. pose proof He as (HL & Hmax & Hd & js & Hm & Hp & Hv & Hwt).
  destruct (struct_count l e js Hp Hv) as (Hn & Hc & Hle). destruct (s_memory (Summable := SU) w Hw) as [mw Emw].
  assert (lower_bound MD5Digest (list_ e) x (map_ e) = below x (least k (map fst l))) as Hlb
    by (by rewrite Hm, lower_bound_below, Hv).
  set (vs := least k (map fst l)) in *. unfold ds_AddWeightedElem. rewrite Hlb, Hmax.
  assert (forall p, map_ e !! p = (fun i => (i, i)) <$> js !! p) as Hget by (intros p; rewrite Hm; apply list_lookup_fmap).
  assert (forall p, vs !! p = val_at (list_ e) <$> js !! p) as Hgv by (intros p; rewrite <- Hv; apply list_lookup_fmap).
  rewrite Hget. destruct (js !! below x vs) as [j|] eqn:Ej; cbn [fmap option_fmap option_map].
  - assert (vs !! below x vs = Some (val_at (list_ e) j)) as Ey by (by rewrite Hgv, Ej).
    pose proof (list_elem_of_lookup_2 _ _ _ Ej) as Hj. pose proof (list_elem_of_lookup_2 _ _ _ Ey) as Hy.
    fold (val_at (list_ e) j). case_bool_decide as Heq.
    { destruct (add_present l e x w js j Hl Hw He Hm Hp Hv Hwt Hj Heq) as (v & -> & Hs). cbn [mbind res_bind].
      eexists _, _. split; [done|]. rewrite Hmax in Hs. split; [apply Hs|done]. }
    pose proof (hlt_total _ _ _ (below_not _ _ _ Ey) Heq) as Hlt.
    pose proof (below_absent _ _ _ (smallest_sorted _) Ey Hlt) as Hx.
    destruct (Z.ltb_spec (Z.of_nat (ds_nElems e)) (Z.of_nat k)) as [Hroom|Hroom].
    + destruct (ds_add_room l e x w js Hl Hw He Hm Hp Hv Hwt ltac:(lia) Hx) as (m & t & -> & Hlen & Hs). cbn [mbind res_bind].
      rewrite Emw. cbn [mbind res_bind]. rewrite Hlen, Nat.eqb_refl. cbn [check mbind res_bind].
      eexists _, _. split; [done|]. rewrite Hmax in Hs. split; [apply Hs|done].
    + destruct (add_replace l e x w js (val_at (list_ e) j) Hl Hw He Hm Hp Hv Hwt ltac:(lia) Hx Hy Hlt)
        as (Hg & m & t & E & Hlen & Hs). destruct (s_memory (Summable := SU) _ Hg) as [k0 Ek]. rewrite Ek. cbn [mbind res_bind].
      rewrite E. cbn [mbind res_bind]. rewrite Emw. cbn [mbind res_bind]. rewrite Hlen, Nat.eqb_refl. cbn [check mbind res_bind].
      eexists _, _. split; [done|]. rewrite Hmax in Hs. split; [apply Hs|done].
  - assert (vs !! below x vs = None) as Ey by (by rewrite Hgv, Ej). apply below_all in Ey as Hall.
    assert (x ∉ vs) as Hx.
    { intros H. apply (proj1 (Forall_forall _ _) Hall) in H. unfold hlt in H. by rewrite hlt_irrefl in H. }
    destruct (Z.leb_spec (Z.of_nat k) (Z.of_nat (ds_nElems e))) as [Hfull|Hroom].
    + eexists _, _. split; [done|]. split; [|done]. unfold ds_struct. cbn [list_ ds_maxElems map_ ds_nElems].
      split_and!; try done. exists js. split_and!; [done|done| |].
      * rewrite Hv, map_app. cbn [map fst]. rewrite smallest_snoc. fold vs.
        rewrite insert_value_below by done. apply lookup_ge_None in Ey. rewrite (take_ge vs (below x vs)) by done. by rewrite take_app_le, take_ge by lia.
      * apply (weights_ok_other l x w (list_ e)); try done. by rewrite Hv.
    + destruct (ds_add_room l e x w js Hl Hw He Hm Hp Hv Hwt ltac:(lia) Hx) as (m & t & -> & Hlen & Hs). cbn [mbind res_bind].
      rewrite Emw. cbn [mbind res_bind]. rewrite Hlen, Nat.eqb_refl. cbn [check mbind res_bind].
      eexists _, _. split; [done|]. rewrite Hmax in Hs. split; [apply Hs|done].
Qed.

(** *** Messages *)

#[local] Abbreviation sample := (distinct_sample (zero := zero) (plus := plus) MD5Digest k).

Definition pair_code (p : bytes * M) : bytes := enc_prim (PBytes (fst p)) ++ code (snd p).
Definition pair_ok (p : bytes * M) : Prop := bytes_ok (fst p) /\ number (snd p).

(** The flush of an entry with the sample [ps] after [t] additions. *)
Definition ds_msg (ps : list (bytes * M)) (t : Z) : bytes :=
  counted_msg (t - Z.of_nat (length ps)) (Z.of_nat (length ps)) (concat (map pair_code ps)).

Lemma sample_pairs_ok l : Forall pair_ok l -> Forall pair_ok (sample l).
Proof.
  intros H. unfold distinct_sample. apply Forall_map, Forall_forall. intros v Hv. split; cbn [fst snd].
  - apply subseteq_take, (elem_of_sorted_values MD5Digest), list_elem_of_fmap in Hv as (p & -> & Hp).
    by apply (proj1 (Forall_forall _ _) H).
  - apply (weight_of_number (S := SU)), Forall_map. eapply Forall_impl; [exact H|]. by intros p [_ Hp].
Qed.

Lemma pairs_numbers l : Forall pair_ok l -> Forall number (map snd l).
Proof. intros H. apply Forall_map. eapply Forall_impl; [exact H|]. by intros p [_ Hp]. Qed.

Lemma pairs_skippable l : Forall pair_ok l -> Forall (skippable (ds_skip_elem ops)) (map pair_code l).
Proof.
  intros H. apply Forall_map. eapply Forall_impl; [exact H|]. intros [v m] [Hv (w & Hw & Dw)]. unfold pair_code. cbn [fst snd] in *. subst m.
  pose proof (s_code_ok (Summable := SU) w Hw) as Hc. pose proof (enc_prim_ok (PBytes v) Hv) as Hp.
  split; [by apply Forall_app|]. intros s rest Hr. unfold ds_skip_elem. rewrite <- app_assoc.
  assert (bytes_ok (code (den w) ++ rest)) as Hr' by (by apply Forall_app).
  pose proof (Skip_enc s (PBytes v) _ Hv Hr') as E. cbn [prim_kind] in E. rewrite E. cbn [mbind option_bind].
  by apply (s_skip (Summable := SU)).
Qed.

(** The elements in the order of their hashes. *)
Lemma struct_elems l e : Forall pair_ok l -> ds_struct l e ->
  exists js, map_ e = dup js /\ map (fun i => (val_at (list_ e) i, den (d_weight (list_ e !!! i)))) js = sample l
  /\ Forall (fun i => good (d_weight (list_ e !!! i))) js /\ ds_nElems e = length (sample l) /\ (ds_nElems e <= k)%nat.
Proof.
  intros Hl (_ & _ & _ & js & Hm & Hp & Hv & Hw). destruct (struct_count l e js Hp Hv) as (Hn & Hc & Hle).
  exists js. split; [done|]. split; [|split; [|split; [|done]]].
  - unfold distinct_sample. rewrite <- Hv, map_map. apply map_ext_in. intros i Hi%list_elem_of_In.
    f_equal. by apply (proj1 (Forall_forall _ _) Hw).
  - eapply Forall_impl; [exact Hw|]. by intros i [Hg _].
  - unfold distinct_sample. by rewrite length_map.
Qed.

Lemma ds_put_elems_spec L js enc :
  Forall (fun i => good (d_weight (L !!! i))) js -> Forall (fun i => bytes_ok (val_at L i)) js ->
  ds_put_elems ops L (dup js) enc
  = Ok (AppendEncoding enc (concat (map (fun i => pair_code (val_at L i, den (d_weight (L !!! i)))) js))).
Proof.
  intros Hg. revert enc. induction Hg as [|i js Hi Hg IH]; intros enc Hb.
  { unfold AppendEncoding. cbn. rewrite app_nil_r. by destruct enc. }
  apply Forall_cons in Hb as [Hb Hbs]. cbn [dup map ds_put_elems concat]. fold (dup js) (val_at L i).
  rewrite PutBytes_enc, (s_encode (Summable := SU)) by done. cbn [mbind res_bind]. rewrite IH by done.
  unfold AppendEncoding, pair_code. cbn [version_ data_ fst snd]. by rewrite <- !app_assoc.
Qed.

Lemma ds_display_elems_spec L js :
  Forall (fun i => good (d_weight (L !!! i))) js ->
  ds_display_elems ops L (dup js) = Ok (map (fun i => val_at L i ++ code (den (d_weight (L !!! i)))) js).
Proof.
  induction 1 as [|i js Hi Hg IH]; [done|]. cbn [dup map ds_display_elems]. fold (dup js) (val_at L i).
  rewrite (s_encode (Summable := SU)) by done. cbn [mbind res_bind]. by rewrite IH.
Qed.

Lemma clear_elems_ok n L :
  (n <= length L)%nat -> Forall (fun i => good (d_weight (L !!! i))) (seq 0 n) -> exists L', clear_elems ops n L = Ok L'.
Proof.
  revert L. induction n as [|n IH]; intros [|x L] Hn H; try (by eexists). cbn [clear_elems seq] in *.
  apply Forall_cons in H as [Hx H]. destruct (s_clear (Summable := SU) _ Hx) as [z Ez]. cbn in Ez. rewrite Ez. cbn [mbind res_bind].
  destruct (IH L) as [L' E]; [cbn in Hn; lia| |rewrite E; by eexists].
  rewrite <- fmap_S_seq, Forall_fmap in H. exact H.
Qed.

Definition dens (l : list (bytes * SzlValue)) : list (bytes * M) := map (fun p => (fst p, den (snd p))) l.
Definition elem_good (p : bytes * SzlValue) : Prop := bytes_ok (fst p) /\ good (snd p).
Definition ds_fits (l : list (bytes * SzlValue)) : Prop := Forall elem_good l /\ Z.of_nat (length l) < 2 ^ 63.
Definition ds_holds (l : list (bytes * SzlValue)) e : Prop := ds_struct (dens l) e /\ ds_tot e = Z.of_nat (length l).
Definition ds_reports (l : list (bytes * SzlValue)) (s : bytes) : Prop :=
  s = match sample (dens l) with [] => [] | ps => ds_msg ps (Z.of_nat (length l)) end.

Lemma dens_ok (l : list (bytes * SzlValue)) : Forall elem_good l -> Forall pair_ok (dens l).
Proof. intros H. apply Forall_map. eapply Forall_impl; [exact H|]. intros [v w] [Hv Hw]. split; [done|by exists w]. Qed.
Lemma sample_length l : (length (sample l) <= length l)%nat.
Proof.
  unfold distinct_sample, smallest. rewrite length_map, length_take.
  assert (length (sorted_values MD5Digest (map fst l)) <= length (map fst l))%nat as H; [|rewrite length_map in H; lia].
  apply submseteq_length, NoDup_submseteq; [apply (sorted_NoDup MD5Digest), sorted_values_sorted|].
  intros y Hy. by apply (elem_of_sorted_values MD5Digest).
Qed.
Lemma valid_struct (l : list (bytes * SzlValue)) e :
  Forall elem_good l -> ds_holds l e -> ds_IsValid e = true.
Proof.
  intros Hl [Hs Ht]. destruct (struct_elems _ e (dens_ok l Hl) Hs) as (js & Hm & Hv & _ & Hn & Hk).
  assert (length js = length (sample (dens l))) as Hj by (by rewrite <- Hv, length_map).
  pose proof (sample_length (dens l)) as Hle. unfold dens in Hle at 2. rewrite length_map in Hle.
  destruct Hs as (_ & Hmax & _). unfold ds_IsValid. rewrite Hm, Ht, Hmax. unfold dup. rewrite length_map, Hj, Hn.
  repeat (apply andb_true_intro; split); lia.
Qed.

(** Entries with the same sample hold the same elements. *)
Lemma struct_sample l l' e : sample l = sample l' -> ds_struct l e -> ds_struct l' e.
Proof.
  intros Hs (HL & Hmax & Hd & js & Hm & Hp & Hv & Hw).
  assert (least k (map fst l) = least k (map fst l')) as Ef by (by rewrite <- !(sample_fst MD5Digest (zero := zero) (plus := plus)), Hs).
  unfold distinct_sample in Hs. rewrite Ef in Hs. pose proof (ext_in_map Hs) as Hs2. clear Hs. rename Hs2 into Hs.
  split; [done|]. split; [done|]. split; [done|]. exists js. rewrite <- Ef. split_and!; try done.
  rewrite Forall_forall in Hw |- *. intros i Hi. destruct (Hw i Hi) as [Hg ->]. split; [done|].
  assert (val_at (list_ e) i ∈ least k (map fst l')) as Hin
    by (rewrite <- Ef, <- Hv; by apply (list_elem_of_fmap_2 (val_at (list_ e)))).
  apply list_elem_of_In in Hin. by injection (Hs _ Hin).
Qed.

Lemma ds_merge_loop_spec ps l e w s :
  Forall number (map snd l) -> Forall pair_ok ps -> w = VNil \/ good w -> ds_struct l e -> is_s64 (ds_tot e) ->
  exists w' e', ds_merge_loop MD5Digest ops (length ps) (MkDec s (concat (map pair_code ps))) w e = Ok (w', e')
  /\ (ps <> [] -> good w') /\ ds_struct (l ++ ps) e' /\ ds_tot e' = s64 (ds_tot e + Z.of_nat (length ps)).
Proof.
  intros Hl Hps. revert l e w Hl. induction Hps as [|[v m] ps [Hv (wv & Hwv & Dw)] Hps IH]; intros l e w Hl Hw He Ht.
  { exists w, e. rewrite app_nil_r, Z.add_0_r, s64_id by done. done. }
  cbn [fst snd] in *. subst m. cbn [length ds_merge_loop map concat]. unfold pair_code at 1. cbn [fst snd].
  pose proof (skippable_concat_ok _ _ (pairs_skippable ps Hps)) as Hb.
  pose proof (s_code_ok (Summable := SU) wv Hwv) as Hc. rewrite <- app_assoc.
  rewrite GetBytes_enc by (done || by apply Forall_app). cbn [check_some mbind res_bind].
  destruct (s_decode (Summable := SU) wv w s _ Hwv Hw Hb) as (w1 & Ew & Hw1 & Dw). rewrite Ew. cbn [check_res mbind res_bind].
  destruct (ds_add_spec l e v w1 Hl Hw1 He) as (n & e1 & E1 & H1 & T1). rewrite E1. cbn [mbind res_bind].
  destruct (IH (l ++ [(v, den w1)]) e1 w1) as (w2 & e2 & E2 & G2 & H2 & T2); [|by right|done|rewrite T1; apply s64_range|].
  { rewrite map_app. apply Forall_app. split; [done|]. repeat constructor. by exists w1. }
  rewrite E2. exists w2, e2. split; [done|]. split.
  { intros _. destruct ps as [|p ps]; [|by apply G2]. cbn in E2. by injection E2 as <- <-. }
  split; [rewrite Dw, <- app_assoc in H2; exact H2|]. rewrite T2, T1, s64_add_l. f_equal. cbn. lia.
Qed.

#[local] Instance distinct_inst : SzlTabEntry SzlDistinctSampleEntry := distinct_methods MD5Digest ops.
Definition ds_feed (p : bytes * SzlValue) e : res (Z * SzlDistinctSampleEntry) :=
  ds_AddWeightedElem MD5Digest ops (fst p) (snd p) e.

Context (Hk : (0 < k)%nat) (Hk31 : Z.of_nat k < 2 ^ 31).

Lemma sample_nil l : sample l = [] -> l = [].
Proof.
  intros H. destruct l as [|[v m] l]; [done|]. assert (v ∈ least k (map fst ((v, m) :: l)) \/ (0 < length (least k (map fst ((v, m) :: l))))%nat) as Hc.
  { assert (v ∈ sorted_values MD5Digest (map fst ((v, m) :: l))) as Hv by (apply elem_of_sorted_values; apply list_elem_of_here).
    right. unfold smallest. rewrite length_take. destruct (sorted_values _ _); [by apply elem_of_nil in Hv|cbn; lia]. }
  apply (f_equal (map fst)) in H. rewrite sample_fst in H. rewrite H in Hc. destruct Hc as [Hc|Hc]; [by apply elem_of_nil in Hc|cbn in Hc; lia].
Qed.

Lemma ds_flush_spec (l : list (bytes * SzlValue)) e :
  ds_fits l -> ds_holds l e -> exists s e', ds_Flush ops e = Ok (s, e') /\ ds_reports l s.
Proof.
  intros [Hl Hlen] He. pose proof (valid_struct l e Hl He) as Hvalid. destruct He as [Hs Ht].
  destruct (struct_elems _ e (dens_ok l Hl) Hs) as (js & Hm & Hv & Hg & Hn & Hkn).
  unfold ds_Flush, ds_reports. rewrite Hvalid. cbn [check mbind res_bind]. rewrite Hn.
  pose proof (sample_length (dens l)) as Hle. unfold dens in Hle at 2. rewrite length_map in Hle.
  destruct (sample (dens l)) as [|p ps] eqn:Es; [by eexists _, _|].
  change (length (p :: ps) =? 0)%nat with false. rewrite <- Es in *.
  rewrite !PutInt_enc by (unfold is_s64; lia || apply s64_range). rewrite Hm, ds_put_elems_spec.
  - cbn [mbind res_bind]. unfold ds_Clear.
    destruct (clear_elems_ok (ds_nElems e) (list_ e)) as [L' EL].
    + destruct Hs as (HL & _). lia.
    + destruct Hs as (_ & _ & _ & j' & Hm' & Hp & _). assert (j' = js) as ->.
      { rewrite Hm in Hm'. apply (f_equal (map fst)) in Hm'. unfold dup in Hm'. rewrite !map_map in Hm'. cbn in Hm'.
        by rewrite !map_id in Hm'. }
      by rewrite <- Hp.
    + rewrite EL. eexists _, _. split; [done|]. unfold ds_msg, counted_msg. rewrite Ht, s64_id by (unfold is_s64; lia).
      unfold enc_Swap, AppendEncoding, enc_new. cbn [fst data_ version_ app]. rewrite app_nil_l, <- app_assoc, <- Hv. by rewrite map_map.
  - done.
  - assert (map (val_at (list_ e)) js = map fst (sample (dens l))) as E by (rewrite <- Hv, map_map; done).
    apply (Forall_map (val_at (list_ e))). rewrite E. apply Forall_map. eapply Forall_impl; [by apply sample_pairs_ok, dens_ok|].
    by intros q [Hq _].
Qed.

Lemma ds_merge_spec (l l' : list (bytes * SzlValue)) e s :
  ds_fits (l ++ l') -> ds_holds l e -> ds_reports l' s ->
  exists e', ds_Merge MD5Digest ops s e = Ok (MergeOk, e') /\ ds_holds (l ++ l') e'.
Proof.
  intros [Hall Hlen] He Hs. apply Forall_app in Hall as H. destruct H as [Hl Hl']. rewrite length_app in Hlen.
  unfold ds_reports in Hs. destruct (sample (dens l')) as [|p ps] eqn:Es.
  { apply sample_nil in Es. destruct l'; [|done]. subst s. exists e. rewrite app_nil_r. done. }
  rewrite <- Es in *. set (qs := sample (dens l')) in *. destruct He as [He Ht].
  pose proof (sample_length (dens l')) as Hle. unfold dens in Hle at 2. rewrite length_map in Hle. fold qs in Hle.
  assert (length qs <= k)%nat as Hqk.
  { unfold qs, distinct_sample, smallest. rewrite length_map. apply firstn_le_length. }
  assert (Forall pair_ok qs) as Hqs by (by apply sample_pairs_ok, dens_ok).
  set (n := Z.of_nat (length qs)) in *. set (t := Z.of_nat (length l')) in *.
  destruct (counted_msg_spec (ds_skip_elem ops) (t - n) n (map pair_code qs)) as (Hne & G1 & G2 & Hsk & S1 & S2);
    [unfold is_s64; lia|unfold is_s64; lia|by apply pairs_skippable|].
  rewrite length_map in Hsk. subst s. unfold ds_msg. fold n. set (whole := counted_msg _ _ _) in *.
  destruct Hne as (b & r & Eb). unfold ds_Merge. rewrite Eb, <- Eb, G1. cbn [mbind option_bind snd fst]. rewrite G2.
  cbn [mbind option_bind]. pose proof He as (_ & Hmax & _). rewrite Hmax, (proj2 (Z.ltb_ge _ _)) by lia.
  assert (Z.to_nat n = length qs) as En by (unfold n; lia). rewrite En, Hsk. cbn [done_ p_ negb]. rewrite S1. cbn [check_some mbind res_bind]. rewrite S2. cbn [check_some mbind res_bind].
  destruct (ds_merge_loop_spec qs (dens l) e VNil whole) as (w & e' & E & Hw & Hs' & Ht'); try done.
  { by apply pairs_numbers, dens_ok. } { by left. } { rewrite Ht. unfold is_s64. lia. }
  rewrite E. cbn [mbind res_bind].
  destruct (s_clear (Summable := SU) w) as [z ->]; [apply Hw; by rewrite Es|]. cbn [mbind res_bind].
  set (e2 := MkDistinct _ _ _ _ _). assert (ds_holds (l ++ l') e2) as Hh.
  { split; [|unfold e2; cbn [ds_tot]; rewrite Ht', s64_add_l, Ht, s64_id, length_app by (unfold is_s64; lia); lia].
    apply (struct_sample (dens l ++ qs)); [|exact Hs']. assert (dens (l ++ l') = dens l ++ dens l') as -> by apply map_app.
    apply (sample_stands MD5Digest (S := SU)); by apply pairs_numbers, dens_ok. }
  rewrite (valid_struct (l ++ l') e2) by done. by exists e2.
Qed.

Lemma distinct_contract :
  MergeContract ds_feed (ds_new (Z.of_nat k)) elem_good ds_fits ds_holds ds_reports.
Proof.
  split.
  - intros l l' [Hl Hlen]. apply Forall_app in Hl as [H1 H2]. rewrite length_app in Hlen. split; (split; [done|lia]).
  - split; [apply ds_struct_new|done].
  - intros l e [x w] [Hl Hlen] [Hs Ht] [Hx Hw]. rewrite length_app in Hlen. cbn in Hlen. apply Forall_app in Hl as [Hl _].
    destruct (ds_add_spec (dens l) e x w) as (m & e' & E & Hs' & Ht'); try done; [by apply pairs_numbers, dens_ok|].
    exists m, e'. split; [exact E|]. split; [unfold dens in *; by rewrite map_app|].
    rewrite Ht', Ht, s64_id, length_app by (unfold is_s64; lia). cbn. lia.
  - intros l e. apply ds_flush_spec.
  - intros l l' e s. apply ds_merge_spec.
Qed.
End Entry.

(** ** Theorems *)

(** C12. Aggregation of a distinctsample table over shards, for weights whose sum does
    not depend on the order ([Summable]: integers, times and tuples of them, with sums
    modulo [2^64]; floats are not, as they are rounded): however the elements are divided and in whatever order they come, adding them, flushing every shard
    and merging the strings never fails, and displays the elements with the [k]
    smallest hashes among all different elements, in the order of their hashes,
    each with the total of all its weights: no occurrence of a displayed element
    is lost, although shards drop elements on the way. All elements are counted. *)
Theorem distinct_sharded MD5Digest ops M zero plus code good den (S : @Summable ops M zero plus code good den) k shards all :
  (0 < k)%nat -> Z.of_nat k < 2 ^ 31 -> all ≡ₚ concat shards ->
  Forall (elem_good (good := good)) all -> Z.of_nat (length all) < 2 ^ 63 ->
  exists e, @aggregate _ _ (distinct_methods MD5Digest ops) (ds_feed MD5Digest (ops := ops)) (ds_new (Z.of_nat k)) shards = Ok e
  /\ ds_FlushForDisplay ops e
     = Ok (match distinct_sample MD5Digest (zero := zero) (plus := plus) k (dens (den := den) all) with
           | [] => [[]]
           | ps => map (fun p => fst p ++ code (snd p)) ps
           end, e)
  /\ ds_tot e = Z.of_nat (length all).
Proof.
  intros Hk Hk31 Hp Hall Hlen. pose proof (Permutation_length Hp) as Hl.
  assert (Forall (elem_good (good := good)) (concat shards)) as Hc by (by rewrite <- Hp).
  destruct (@aggregate_holds _ _ _ _ _ _ _ _ _ (distinct_contract MD5Digest (SU := S) k Hk Hk31) shards) as (e & He & Hs & Ht).
  { split; [done|lia]. }
  { by apply Forall_concat. }
  exists e. split; [exact He|]. split; [|by rewrite Ht, Hl].
  rewrite (sample_perm MD5Digest (S := S) k (dens all) (dens (concat shards))) by (by apply Permutation_map).
  destruct (struct_elems MD5Digest k _ e (dens_ok _ Hc) Hs) as (js & Hm & Hv & Hg & Hn & _).
  unfold ds_FlushForDisplay. rewrite Hn. destruct (distinct_sample MD5Digest k _) as [|p ps] eqn:Es; [done|].
  change (length (p :: ps) =? 0)%nat with false. rewrite <- Es in *. rewrite Hm, (ds_display_elems_spec (SU := S)) by done.
  cbn [mbind res_bind]. do 2 f_equal. by rewrite <- Hv, map_map.
Qed.

(** A digest for examples: the last byte tells short strings apart. *)
Definition toy_digest (s : bytes) : bytes := replicate 15 0 ++ [(be_val s * 7) mod 256].

Definition toy_shards : list (list (bytes * SzlValue)) :=
  [[([1], VInt 10); ([40], VInt 5); ([2], VInt (-1))]; []; [([40], VInt 3); ([1], VInt (2 ^ 63 - 1)); ([3], VInt 4)]].

Lemma toy_good : Forall (elem_good (good := num_good int_ops [INT])) (concat toy_shards).
Proof.
  assert (forall b z, is_u8 b -> is_s64 z -> elem_good (good := num_good int_ops [INT]) ([b], VInt z)) as H.
  { intros b z Hb Hz. split; [by apply Forall_singleton|]. by exists z. }
  unfold toy_shards. cbn [concat app]. repeat (apply Forall_cons; split; [apply H; unfold is_u8, is_s64; lia|]). constructor.
Qed.

Lemma distinct_sharded_witness :
  let all := concat toy_shards in
  exists e, @aggregate _ _ (distinct_methods toy_digest int_ops) (ds_feed toy_digest (ops := int_ops)) (ds_new 2) toy_shards = Ok e
  /\ ds_FlushForDisplay int_ops e
     = Ok (match distinct_sample toy_digest (zero := num_zero [INT]) (plus := num_plus) 2 (dens (den := num_den int_ops [INT]) all) with
           | [] => [[]]
           | ps => map (fun p => fst p ++ num_code [INT] (snd p)) ps
           end, e)
  /\ ds_tot e = Z.of_nat (length all).
Proof.
  apply (distinct_sharded toy_digest int_ops _ _ _ _ _ _ (num_summable int_ops [INT] int_num_ops) 2 toy_shards); [lia|lia|done| |done].
  apply toy_good.
Defined.

(** What is kept of them: the sums wrap around, and 40 has the biggest hash but one. *)
Example toy_sample :
  distinct_sample toy_digest (zero := num_zero [INT]) (plus := num_plus) 2 (dens (den := num_den int_ops [INT]) (concat toy_shards))
  = [([1], [- 2 ^ 63 + 9]); ([2], [-1])].
Proof. vm_compute. reflexivity. Qed.

(** The reader of results gets from a flushed entry, with weights that are
    [Summable], what the entry displays. *)
Theorem distinct_results_agree MD5Digest ops M zero plus code good den (S : @Summable ops M zero plus code good den) k l e :
  (0 < k)%nat -> Z.of_nat k < 2 ^ 31 -> l <> [] -> ds_fits (good := good) l ->
  ds_holds (zero := zero) (plus := plus) (good := good) (den := den) MD5Digest k l e ->
  exists s e' out, ds_Flush ops e = Ok (s, e') /\ ds_FlushForDisplay ops e = Ok (out, e)
  /\ ds_ParseFromString ops (Z.of_nat k) s = Ok (true, MkDistinctResults out (Z.of_nat (length l))).
Proof.
  intros Hk Hk31 Hne Hfits Hh. destruct (ds_flush_spec MD5Digest (SU := S) k Hk Hk31 l e Hfits Hh) as (s & e' & Ef & Hs).
  destruct Hfits as [Hl Hlen]. destruct Hh as [Hst Ht].
  destruct (struct_elems MD5Digest k _ e (dens_ok _ Hl) Hst) as (js & Hm & Hv & Hg & Hn & Hkn).
  unfold ds_reports in Hs. set (qs := distinct_sample MD5Digest k (dens l)) in *.
  destruct qs as [|p ps] eqn:Es; [apply (sample_nil MD5Digest k Hk) in Es; by destruct l|]. rewrite <- Es in *.
  exists s, e', (map (fun p => fst p ++ code (snd p)) qs). split; [exact Ef|]. split.
  { unfold ds_FlushForDisplay. rewrite Hn, Es. change (length (p :: ps) =? 0)%nat with false. rewrite Hm, (ds_display_elems_spec (SU := S)) by done.
    cbn [mbind res_bind]. do 2 f_equal. by rewrite <- Es, <- Hv, map_map. }
  pose proof (sample_length MD5Digest k (zero := zero) (plus := plus) (dens (den := den) l)) as Hle.
  fold qs in Hle. unfold dens in Hle at 1. rewrite length_map in Hle.
  assert (Forall (pair_ok (good := good) (den := den)) qs) as Hqs by (by apply (sample_pairs_ok MD5Digest k), dens_ok).
  set (n := Z.of_nat (length qs)) in *. set (t := Z.of_nat (length l)) in *.
  destruct (counted_msg_spec (ds_skip_elem ops) (t - n) n (map (pair_code (code := code)) qs)) as (Hb & G1 & G2 & Hsk & S1 & S2);
    [unfold is_s64; lia|unfold is_s64; lia|by apply (pairs_skippable (SU := S))|].
  rewrite length_map in Hsk. subst s. unfold ds_msg. fold n. set (whole := counted_msg _ _ _) in *.
  destruct Hb as (b & r & Eb). unfold ds_ParseFromString. rewrite Eb, <- Eb, G1. cbn [mbind option_bind snd fst]. rewrite G2.
  cbn [mbind option_bind]. rewrite (proj2 (Z.ltb_ge _ _)) by lia. assert (Z.to_nat n = length qs) as En by (unfold n; lia).
  rewrite En, Hsk. cbn [done_ p_ negb]. rewrite S1. cbn [check_some mbind res_bind]. rewrite S2. cbn [check_some mbind res_bind].
  assert (forall w, ds_join_elems ops (length qs) (MkDec w (concat (map (pair_code (code := code)) qs))) = Ok (map (fun p => fst p ++ code (snd p)) qs)) as ->.
  { clear -Hqs S. intros w. induction Hqs as [|[v m] qs [Hv (wv & Hw & Dw)] Hqs IH]; [done|]. cbn [fst snd] in *. subst m.
    cbn [length ds_join_elems map concat]. unfold pair_code at 1. cbn [fst snd].
    pose proof (skippable_concat_ok _ _ (pairs_skippable (SU := S) qs Hqs)) as Hb. pose proof (s_code_ok (Summable := S) wv Hw) as Hc.
    rewrite <- app_assoc, GetBytes_enc by (done || by apply Forall_app). cbn [check_some mbind res_bind].
    rewrite (s_skip (Summable := S)) by done. cbn [check_some mbind res_bind]. by rewrite IH, between_app. }
  cbn [mbind res_bind]. rewrite Z.sub_add, s64_id by (unfold is_s64; lia). done.
Qed.

Lemma distinct_results_agree_witness :
  let l := concat toy_shards in
  exists e s e' out, feed_all (ds_feed toy_digest (ops := int_ops)) l (ds_new 2) = Ok e
  /\ ds_Flush int_ops e = Ok (s, e') /\ ds_FlushForDisplay int_ops e = Ok (out, e)
  /\ ds_ParseFromString int_ops 2 s = Ok (true, MkDistinctResults out (Z.of_nat (length l))).
Proof.
  pose proof (distinct_contract toy_digest (SU := num_summable int_ops [INT] int_num_ops) 2 ltac:(lia) ltac:(lia)) as C.
  destruct (@feed_all_holds _ _ _ _ _ _ _ _ _ C (concat toy_shards) [] (ds_new 2)) as (e & E & He).
  { split; [apply toy_good|done]. } { apply (mc_new (MergeContract := C)). } { apply toy_good. }
  destruct (distinct_results_agree toy_digest int_ops _ _ _ _ _ _ (num_summable int_ops [INT] int_num_ops) 2 (concat toy_shards) e)
    as (s & e' & out & H); [lia|lia|done|split; [apply toy_good|done]|exact He|].
  exists e, s, e', out. split; [exact E|exact H].
Defined.

(** A message with negative counts passes all tests, and then the program aborts. *)
Example distinct_merge_aborts :
  ds_Merge toy_digest int_ops (enc_prim (PInt (-1)) ++ enc_prim (PInt (-1))) (ds_new 2) = Fatal.
Proof. reflexivity. Qed.
