(* ===== verification/InverseHistogram.v ===== *)
(** * The inversehistogram table: szldistinctsample.cc, szlcomputeinversehistogram.cc

    An entry is that of the distinctsample table ([DistinctTable.v]); what it
    displays is the distribution of the weights in the sample: how many different
    elements there were, by estimate, and for every weight the share of the
    sampled elements that have it. *)
From Stdlib Require Import ZArith Lia.
From stdpp Require Import prelude sorting.
From S2P Require Import Prelude SzlType Double Encoder Decoder Codec SzlValue ValueCodec ValueOrder ValueAdd Numbers SumTable TabEntry DistinctTable DistinctCorrect.

Local Open Scope Z_scope.

#[export] Instance SzlValue_inhabited : Inhabited SzlValue := populate VNil.

Section Histogram.
Context (MD5Digest : bytes -> bytes) (ops : SzlOps).

(** The digest as a number and the number of digests, rounded step by step. *)
(* @src src/src/emitters/szlcomputeinversehistogram.cc 40-46 EstimateUniqueCount *)
Fixpoint digest_doubles (ds : bytes) (a b : Z) : Z * Z :=
  match ds with
  | [] => (a, b)
  | d :: ds =>
      digest_doubles ds (f64_add (f64_mul (f64_of_int 256) a) (f64_of_int d)) (f64_mul b (f64_of_int 256))
  end.

(* @src src/src/emitters/szlcomputeinversehistogram.cc 32-50 EstimateUniqueCount *)
Definition EstimateUniqueCount (elem : bytes) (nElems maxElems totElems : Z) : Z :=
  if nElems <? maxElems then f64_of_int nElems
  else
    let '(a, b) := digest_doubles (MD5Digest elem) (f64_of_int 0) (f64_of_int 1) in
    let c := f64_mul (f64_div b a) (f64_of_int maxElems) in
    if f64_ltb (f64_of_int totElems) c then f64_of_int totElems else c.

(** [std::sort]: the order of equal weights, which the library leaves open, is
    that of their positions. *)
(* @src src/src/emitters/szlcomputeinversehistogram.cc 53-61 MySzlValueLess *)
Fixpoint insert_index (wlist : list SzlValue) (i : nat) (perm : list nat) : res (list nat) :=
  match perm with
  | [] => Ok [i]
  | j :: perm =>
      b ← Less ops (wlist !!! j) (wlist !!! i);
      if b : bool then perm ← insert_index wlist i perm; Ok (j :: perm) else Ok (i :: j :: perm)
  end.

(* @src src/src/emitters/szlcomputeinversehistogram.cc 78-80 ComputeInverseHistogram *)
Fixpoint sort_indexes (wlist : list SzlValue) (is_ : list nat) : res (list nat) :=
  match is_ with
  | [] => Ok []
  | i :: is_ => perm ← sort_indexes wlist is_; insert_index wlist i perm
  end.

(** How many of the following weights equal the first one. *)
(* @src src/src/emitters/szlcomputeinversehistogram.cc 96-99 ComputeInverseHistogram *)
Fixpoint same_weights (w : SzlValue) (ws : list SzlValue) : res nat :=
  match ws with
  | [] => Ok 0%nat
  | v :: ws => b ← Eq_ ops w v; if b : bool then n ← same_weights w ws; Ok (S n) else Ok 0%nat
  end.

(** The weights in order, from [i] on. *)
(* @src src/src/emitters/szlcomputeinversehistogram.cc 95-105 ComputeInverseHistogram *)
Fixpoint distribution (fuel : nat) (nElems : Z) (ws : list SzlValue) : res (list bytes) :=
  match fuel, ws with
  | _, [] => Ok []
  | O, _ => Fatal
  | S fuel, w :: ws =>
      n ← same_weights w ws;
      enc ← Encode ops w enc_new;
      enc ← PutFloat enc (f64_div (f64_add (f64_of_int (Z.of_nat (S n))) 0) (f64_of_int nElems));
      out ← distribution fuel nElems (drop n ws);
      Ok (data_ enc :: out)
  end.

(** The strings put behind [output]. *)
(* @src src/src/emitters/szlcomputeinversehistogram.cc 64-107 ComputeInverseHistogram *)
Definition ComputeInverseHistogram (last_elem : bytes) (wlist : list SzlValue) (maxElems totElems : Z)
    (output : list bytes) : res (list bytes) :=
  let nElems := Z.of_nat (length wlist) in
  let nUnique := if 0 <? nElems then EstimateUniqueCount last_elem nElems maxElems totElems else f64_of_int 0 in
  perm ← sort_indexes wlist (seq 0 (length wlist));
  w ← AssignZero ops VNil;
  enc ← Encode ops w enc_new;
  enc ← PutFloat enc nUnique;
  _ ← Clear ops w;
  out ← distribution (length perm) nElems (map (fun i => wlist !!! i) perm);
  Ok (output ++ data_ enc :: out).

(** Unlike the other tables, nothing clears [output]. *)
(* @src src/src/emitters/szldistinctsample.cc 393-413 SzlInverseHistogramEntry::FlushForDisplay *)
Definition ih_FlushForDisplay (output : list bytes) (e : SzlDistinctSampleEntry) :
    res (list bytes * SzlDistinctSampleEntry) :=
  _ ← check (length (map_ e) =? ds_nElems e)%nat;
  let elems := map (fun '(_, ee) => list_ e !!! ee) (map_ e) in
  out ← ComputeInverseHistogram (default [] (last (map d_value elems))) (map d_weight elems)
          (ds_maxElems e) (ds_tot e) output;
  Ok (out, e).

Definition inverse_methods : SzlTabEntry SzlDistinctSampleEntry := {|
  entry_AddElem := ds_AddElem MD5Digest ops;
  entry_AddWeightedElem := ds_AddWeightedElem MD5Digest ops;
  entry_Flush := ds_Flush ops;
  entry_FlushForDisplay := ih_FlushForDisplay [];
  entry_Merge := ds_Merge MD5Digest ops;
  entry_Clear := ds_Clear ops;
  entry_TotElems := ds_tot;
  entry_TupleCount := ds_TupleCount;
|}.

(** The values are read and dropped but for the last one. *)
(* @src src/src/emitters/szldistinctsampleresults.cc 195-200 SzlInverseHistogramResults::ParseFromString *)
Fixpoint read_weights (n : nat) (dec : SzlDecoder) (last_elem : bytes) : res (SzlDecoder * bytes * list SzlValue) :=
  match n with
  | O => Ok (dec, last_elem, [])
  | S n =>
      '(v, dec) ← check_some (GetBytes dec);
      '(dec, w) ← check_res (Decode ops dec VNil);
      '(dec, v, ws) ← read_weights n dec v;
      Ok (dec, v, w :: ws)
  end.

Fixpoint clear_weights (ws : list SzlValue) : res unit :=
  match ws with
  | [] => Ok tt
  | w :: ws => _ ← Clear ops w; clear_weights ws
  end.

(** [new SzlValue[nElems]] with a negative number throws an exception. *)
(* @src src/src/emitters/szldistinctsampleresults.cc 171-212 SzlInverseHistogramResults::ParseFromString *)
Definition ih_ParseFromString (maxElems : Z) (val : bytes) : res (bool * DistinctResults) :=
  match val with
  | [] => out ← ComputeInverseHistogram [] [] maxElems 0 []; Ok (true, MkDistinctResults out 0)
  | _ =>
      match GetInt (dec_Init val) with
      | None => Ok (false, MkDistinctResults [] 0)
      | Some (extra, dec) =>
          match GetInt dec with
          | None => Ok (false, MkDistinctResults [] 0)
          | Some (nElems, dec) =>
              let tot := s64 (extra + nElems) in
              if maxElems <? nElems then Ok (false, MkDistinctResults [] tot)
              else
                _ ← check (0 <=? nElems);
                '(dec, last_elem, wlist) ← read_weights (Z.to_nat nElems) dec [];
                _ ← check (done_ dec);
                out ← ComputeInverseHistogram last_elem wlist maxElems tot [];
                _ ← clear_weights wlist;
                Ok (true, MkDistinctResults out tot)
          end
      end
  end.
End Histogram.

(** ** What is displayed, for integer weights *)

Section Integers.
Implicit Types (zs ss : list Z) (z : Z).

Definition ascending zs : list Z := merge_sort Z.le (remove_dups zs).
Definition count_of z zs : Z := Z.of_nat (length (filter (fun y => y = z) zs)).
(** A weight with a double behind it. *)
Definition weight_and_double z (x : Z) : bytes := enc_prim (PInt z) ++ Tag.FLOAT :: KeyFromDouble x.
Definition share z zs : Z := f64_div (f64_add (f64_of_int (count_of z zs)) 0) (f64_of_int (Z.of_nat (length zs))).

(** The estimate, then each weight with its share. *)
Definition histogram (MD5Digest : bytes -> bytes) (last_elem : bytes) zs (maxElems totElems : Z) : list bytes :=
  weight_and_double 0
    (match zs with [] => f64_of_int 0 | _ => EstimateUniqueCount MD5Digest last_elem (Z.of_nat (length zs)) maxElems totElems end)
  :: map (fun z => weight_and_double z (share z zs)) (ascending zs).

Lemma int_less a b : Less int_ops (VInt a) (VInt b) = Ok (a <? b).
Proof.
  unfold Less. cbn. unfold CmpBaseT. destruct (Z.ltb_spec a b), (Z.ltb_spec b a); done || lia.
Qed.
Lemma int_eq a b : Eq_ int_ops (VInt a) (VInt b) = Ok (a =? b).
Proof.
  unfold Eq_. cbn. unfold CmpBaseT. destruct (Z.ltb_spec a b), (Z.ltb_spec b a), (Z.eqb_spec a b); done || lia.
Qed.

Lemma put_double enc x : PutFloat enc x = Ok (AppendEncoding enc (Tag.FLOAT :: KeyFromDouble x)).
Proof.
  unfold PutFloat. assert (length (KeyFromDouble x) = 8%nat) as ->.
  - unfold KeyFromDouble. rewrite KeyFromUint64_be by apply u64_range. apply length_be_bytes.
  - cbn. unfold AppendEncoding, push_back. cbn. by rewrite <- app_assoc.
Qed.

Lemma int_encode z enc : is_s64 z -> Encode int_ops (VInt z) enc = Ok (AppendEncoding enc (enc_prim (PInt z))).
Proof.
  intros Hz. by rewrite <- PutInt_enc by done.
Qed.

(** *** Sorting the positions *)

#[local] Abbreviation at_ zs i := (zs !!! i).

Lemma weight_at zs i : (i < length zs)%nat -> map VInt zs !!! i = VInt (at_ zs i).
Proof. intros Hi. by apply (list_lookup_total_fmap VInt). Qed.

Lemma insert_index_ok zs i perm :
  (i < length zs)%nat -> Forall (fun j => j < length zs)%nat perm ->
  StronglySorted (fun j j' => at_ zs j <= at_ zs j') perm -> exists perm',
    insert_index int_ops (map VInt zs) i perm = Ok perm' /\ perm' ≡ₚ i :: perm
    /\ StronglySorted (fun j j' => at_ zs j <= at_ zs j') perm'.
Proof.
  intros Hi Hp Hs. induction Hs as [|j perm Hs IH Hj]; cbn [insert_index].
  { exists [i]. by repeat constructor. }
  apply Forall_cons in Hp as [Hjl Hp]. rewrite !weight_at, int_less by done. cbn [mbind res_bind].
  destruct (Z.ltb_spec (at_ zs j) (at_ zs i)) as [Hlt|Hge].
  - destruct (IH Hp) as (p' & -> & P & S). cbn [mbind res_bind]. exists (j :: p'). split; [done|].
    split; [rewrite P; apply perm_swap|]. constructor; [done|]. rewrite P. constructor; [lia|done].
  - exists (i :: j :: perm). split; [done|]. split; [done|]. constructor; [by constructor|]. constructor; [done|].
    eapply Forall_impl; [exact Hj|]. cbn. intros a Ha. lia.
Qed.

Lemma sort_indexes_ok zs js :
  Forall (fun j => j < length zs)%nat js -> exists perm,
    sort_indexes int_ops (map VInt zs) js = Ok perm /\ perm ≡ₚ js
    /\ StronglySorted (fun j j' => at_ zs j <= at_ zs j') perm.
Proof.
  induction 1 as [|i js Hi Hjs IH]; cbn [sort_indexes].
  { exists []. by repeat constructor. }
  destruct IH as (perm & -> & P & S). cbn [mbind res_bind].
  destruct (insert_index_ok zs i perm) as (p' & -> & P' & S'); [done|by rewrite P|done|].
  exists p'. split; [done|]. split; [by rewrite P', P|done].
Qed.

(** The weights in order. *)
Lemma sorted_weights zs : exists perm ss,
  sort_indexes int_ops (map VInt zs) (seq 0 (length zs)) = Ok perm
  /\ map (fun i => map VInt zs !!! i) perm = map VInt ss /\ ss ≡ₚ zs /\ StronglySorted Z.le ss.
Proof.
  assert (Forall (fun j => j < length zs)%nat (seq 0 (length zs))) as Hseq.
  { apply Forall_forall. intros j. rewrite elem_of_seq. lia. }
  destruct (sort_indexes_ok zs _ Hseq) as (perm & E & P & S). exists perm, (map (fun i => at_ zs i) perm).
  split; [done|]. split; [|split].
  - rewrite map_map. apply map_ext_in. intros i Hi%list_elem_of_In. apply weight_at.
    rewrite P, elem_of_seq in Hi. lia.
  - rewrite P. clear. induction zs as [|z zs IH] using rev_ind; [done|]. rewrite length_app, Nat.add_1_r, seq_S, map_app.
    cbn [map Nat.add]. rewrite lookup_total_app_r, Nat.sub_diag by done. cbn [list_lookup_total lookup_total].
    apply Permutation_app; [|done]. rewrite <- IH at 2. apply reflexive_eq, map_ext_in.
    intros i Hi%list_elem_of_In%elem_of_seq. apply lookup_total_app_l. lia.
  - clear -S. induction S as [|j perm S IH Hj]; [constructor|]. constructor; [done|]. apply Forall_map. exact Hj.
Qed.

(** *** The groups *)

Lemma ascending_lt zs : StronglySorted Z.lt (ascending zs).
Proof.
  assert (StronglySorted Z.le (ascending zs)) as Hs by (apply (StronglySorted_merge_sort Z.le); apply _).
  assert (NoDup (ascending zs)) as Hn by (unfold ascending; rewrite merge_sort_Permutation; apply NoDup_remove_dups).
  induction Hs as [|x l Hs IH Hx]; [constructor|]. apply NoDup_cons in Hn as [Hin Hn]. constructor; [by apply IH|].
  apply Forall_forall. intros y Hy. rewrite Forall_forall in Hx. specialize (Hx y Hy).
  assert (x <> y) by congruence. lia.
Qed.

Lemma ascending_unique zs ss :
  StronglySorted Z.lt ss -> (forall y, y ∈ ss <-> y ∈ zs) -> ascending zs = ss.
Proof.
  intros Hs He. unfold ascending. apply (StronglySorted_unique Z.le).
  - apply (StronglySorted_merge_sort Z.le); apply _.
  - clear He. induction Hs as [|x ss Hs IH Hx]; constructor; [done|]. eapply Forall_impl; [exact Hx|]. cbn. lia.
  - rewrite merge_sort_Permutation. apply NoDup_Permutation; [apply NoDup_remove_dups| |].
    + clear -Hs. induction Hs as [|x ss Hs IH Hx]; constructor; [|done]. intros Hin.
      apply (proj1 (Forall_forall _ _) Hx) in Hin. lia.
    + intros y. rewrite elem_of_remove_dups. symmetry. apply He.
Qed.

Lemma same_weights_ok z ss : StronglySorted Z.le (z :: ss) -> exists n,
  same_weights int_ops (VInt z) (map VInt ss) = Ok n /\ drop n ss = filter (fun y => z < y) ss
  /\ n = length (filter (fun y => y = z) ss).
Proof.
  intros Hs. induction ss as [|y ss IH]; [by exists 0%nat|]. cbn [map same_weights]. rewrite int_eq. cbn [mbind res_bind].
  apply StronglySorted_inv in Hs as [Hs Hz]. apply Forall_cons in Hz as [Hzy Hz].
  destruct (Z.eqb_spec z y) as [<-|Hne].
  - destruct IH as (n & -> & Hd & Hn); [done|]. cbn [mbind res_bind]. exists (S n). split; [done|].
    rewrite filter_cons_False, filter_cons_True by lia. cbn [drop length]. by rewrite Hn in *.
  - exists 0%nat. split; [done|]. apply StronglySorted_inv in Hs as [_ Hy]. rewrite !filter_cons_True by lia.
    rewrite filter_cons_False by lia. split.
    + cbn [drop]. f_equal. symmetry. apply filter_all. eapply Forall_impl; [exact Hy|]. cbn. lia.
    + rewrite filter_none; [done|]. eapply Forall_impl; [exact Hy|]. cbn. lia.
Qed.

(** The pairs of a sorted list whose weights are counted in [zs]. *)
Lemma distribution_ok zs fuel ss :
  (length ss <= fuel)%nat -> StronglySorted Z.le ss -> Forall is_s64 ss ->
  (forall y, y ∈ ss -> count_of y ss = count_of y zs) ->
  distribution int_ops fuel (Z.of_nat (length zs)) (map VInt ss)
  = Ok (map (fun z => weight_and_double z (share z zs)) (ascending ss)).
Proof.
  revert ss. induction fuel as [|fuel IH]; intros [|z ss] Hl Hs Hr Hc; try done; [cbn in Hl; lia|].
  destruct (same_weights_ok z ss Hs) as (n & E & Hd & Hn). apply Forall_cons in Hr as [Hz Hr].
  apply StronglySorted_inv in Hs as [Hs Hle].
  assert (StronglySorted Z.le (drop n ss)) as Hsd.
  { pose proof Hs as H. rewrite <- (take_drop n ss) in H. by apply StronglySorted_app_1_r in H. }
  cbn [map distribution]. rewrite E. cbn [mbind res_bind]. rewrite int_encode by done. cbn [mbind res_bind].
  rewrite put_double. cbn [mbind res_bind]. rewrite skipn_map, IH.
  - cbn [mbind res_bind].
    assert (ascending (z :: ss) = z :: ascending (drop n ss)) as ->.
    { assert (forall y, y ∈ drop n ss <-> z < y /\ y ∈ ss) as Hin by (intros y; rewrite Hd; apply list_elem_of_filter).
      apply ascending_unique.
      - constructor.
        + apply ascending_lt.
        + apply Forall_forall. intros y Hy. unfold ascending in Hy. rewrite merge_sort_Permutation, elem_of_remove_dups in Hy.
          by apply Hin in Hy as [? _].
      - intros y. rewrite !elem_of_cons. unfold ascending. rewrite merge_sort_Permutation, elem_of_remove_dups, Hin.
        split; [tauto|]. intros [->|Hy]; [by left|]. destruct (decide (y = z)) as [->|Hne]; [by left|].
        right. split; [|done]. rewrite Forall_forall in Hle. specialize (Hle y Hy). lia. }
    cbn [map]. f_equal. f_equal. unfold weight_and_double, share, AppendEncoding, enc_new. cbn [data_ app].
    do 6 f_equal. rewrite <- Hc by apply list_elem_of_here. unfold count_of. rewrite filter_cons_True by done. cbn [length]. by rewrite Hn.
  - rewrite length_drop. cbn in Hl. lia.
  - done.
  - by apply Forall_drop.
  - intros y Hy. rewrite <- Hc.
    + rewrite Hd in *. apply list_elem_of_filter in Hy as [Hzy Hy]. unfold count_of. rewrite (filter_cons_False _ z) by lia.
      f_equal. f_equal. rewrite list_filter_filter_l; [done|]. intros. lia.
    + rewrite Hd in Hy. apply list_elem_of_filter in Hy as [_ Hy]. by apply list_elem_of_further.
Qed.
End Integers.

(** The histogram of integer weights: the estimate, then every different weight
    in ascending order with the share of the elements that have it. *)
Lemma ComputeInverseHistogram_ints MD5Digest last_elem zs maxElems totElems output :
  Forall is_s64 zs ->
  ComputeInverseHistogram MD5Digest int_ops last_elem (map VInt zs) maxElems totElems output
  = Ok (output ++ histogram MD5Digest last_elem zs maxElems totElems).
Proof.
  intros Hz. unfold ComputeInverseHistogram. rewrite length_map.
  destruct (sorted_weights zs) as (perm & ss & E & Em & Hp & Hs). rewrite E. cbn [mbind res_bind].
  assert (length perm = length ss) as Hl by (by rewrite <- (length_map VInt ss), <- Em, length_map).
  change (AssignZero int_ops VNil) with (Ok (VInt 0)). cbn [mbind res_bind].
  rewrite int_encode by (unfold is_s64; lia). cbn [mbind res_bind]. rewrite put_double. cbn [mbind res_bind].
  change (Clear int_ops (VInt 0)) with (Ok (VInt 0)). cbn [mbind res_bind].
  rewrite Em, (distribution_ok zs (length perm) ss); [|lia|done|by rewrite Hp|].
  - cbn [mbind res_bind]. unfold histogram. f_equal. f_equal. f_equal.
    + unfold weight_and_double, AppendEncoding, enc_new. cbn [data_ app]. do 4 f_equal. by destruct zs.
    + f_equal. apply ascending_unique; [apply ascending_lt|]. intros y. unfold ascending.
      rewrite merge_sort_Permutation, elem_of_remove_dups. by rewrite Hp.
  - intros y _. unfold count_of. by rewrite Hp.
Qed.

(** C13. An inverse histogram over shards: however the elements with their integer
    weights are divided and in whatever order they come, adding, flushing and
    merging never fails, and displays the distribution of the total weights in
    the sample of the [k] different elements with the smallest hashes: first the
    estimated number of different elements, then every different weight in
    ascending order with the share of the sampled elements that have it. *)
Theorem inverse_histogram_sharded MD5Digest k shards (all : list (bytes * SzlValue)) :
  (0 < k)%nat -> Z.of_nat k < 2 ^ 31 -> all ≡ₚ concat shards ->
  Forall (elem_good (good := num_good int_ops [INT])) all -> Z.of_nat (length all) < 2 ^ 63 ->
  let sample := distinct_sample MD5Digest (zero := num_zero [INT]) (plus := num_plus) k
                  (dens (den := num_den int_ops [INT]) all) in
  exists e, @aggregate _ _ (inverse_methods MD5Digest int_ops) (ds_feed MD5Digest (ops := int_ops)) (ds_new (Z.of_nat k)) shards = Ok e
  /\ @entry_FlushForDisplay _ (inverse_methods MD5Digest int_ops) e
     = Ok (histogram MD5Digest (default [] (last (map fst sample))) (map (fun p => nth 0 (snd p) 0) sample)
             (Z.of_nat k) (Z.of_nat (length all)), e).
Proof.
  intros Hk Hk31 Hp Hall Hlen sample. pose proof (Permutation_length Hp) as Hl.
  pose proof (num_summable int_ops [INT] int_num_ops) as S.
  assert (Forall (elem_good (good := num_good int_ops [INT])) (concat shards)) as Hc by (by rewrite <- Hp).
  destruct (@aggregate_holds _ _ _ _ _ _ _ _ _ (distinct_contract MD5Digest (SU := S) k Hk Hk31) shards) as (e & He & Hs & Ht).
  { split; [done|lia]. }
  { by apply Forall_concat. }
  exists e. split; [exact He|].
  assert (distinct_sample MD5Digest k (dens (concat shards)) = sample) as Esam
    by (symmetry; apply (sample_perm MD5Digest (S := S)), Permutation_map, Hp).
  destruct (struct_elems MD5Digest k _ e (dens_ok _ Hc) Hs) as (js & Hm & Hv & Hg & Hn & _).
  rewrite Esam in Hv, Hn. destruct Hs as (_ & Hmax & _).
  change (@entry_FlushForDisplay _ (inverse_methods MD5Digest int_ops) e) with (ih_FlushForDisplay MD5Digest int_ops [] e).
  unfold ih_FlushForDisplay. rewrite Hn, Hm, <- Hv. unfold dup. rewrite !length_map, Nat.eqb_refl. cbn [check mbind res_bind].
  set (L := list_ e) in *. rewrite !map_map. cbn [fst snd].
  assert (map (fun i => d_weight (L !!! i)) js
    = map VInt (map (fun i => nth 0 (num_den int_ops [INT] (d_weight (L !!! i))) 0) js)) as ->.
  { rewrite map_map. apply map_ext_in. intros i Hi%list_elem_of_In. rewrite Forall_forall in Hg.
    destruct (Hg i Hi) as (z & -> & _). done. }
  rewrite ComputeInverseHistogram_ints, Hmax, Ht, <- Hl; [done|].
  apply Forall_map. eapply Forall_impl; [exact Hg|]. intros i (z & -> & Hz). exact Hz.
Qed.

Lemma inverse_histogram_sharded_witness :
  let all := concat toy_shards in
  let sample := distinct_sample toy_digest (zero := num_zero [INT]) (plus := num_plus) 3
                  (dens (den := num_den int_ops [INT]) all) in
  exists e, @aggregate _ _ (inverse_methods toy_digest int_ops) (ds_feed toy_digest (ops := int_ops)) (ds_new 3) toy_shards = Ok e
  /\ @entry_FlushForDisplay _ (inverse_methods toy_digest int_ops) e
     = Ok (histogram toy_digest (default [] (last (map fst sample))) (map (fun p => nth 0 (snd p) 0) sample) 3
             (Z.of_nat (length all)), e).
Proof.
  apply (inverse_histogram_sharded toy_digest 3 toy_shards); [lia|lia|done|apply toy_good|done].
Defined.

(** The reader of the results does not test its input first: a string that the
    reader of the distinctsample table refuses aborts it. *)
Example inverse_results_abort :
  let val := enc_prim (PInt 0) ++ enc_prim (PInt 1) in
  ih_ParseFromString toy_digest int_ops 2 val = Fatal
  /\ ds_ParseFromString int_ops 2 val = Ok (false, MkDistinctResults [] 0).
Proof. split; reflexivity. Qed.
