(* ===== verification/QuantileTable.v ===== *)
(** * The quantile table: emitters/szlquantile.cc, szlcomputequantiles.cc, szlquantileresults.cc

    Munro and Paterson's tree of buffers: the elements enter two leaves of [k]
    elements; two full buffers of a level are merged, and every other element of
    the result goes up one level, where it stands for twice as many. Elements
    are encoded values, compared as strings. *)
From Stdlib Require Import ZArith Lia SpecFloat.
From stdpp Require Import prelude sorting.
From S2P Require Import Prelude SzlType Double Encoder Decoder Codec Reads SzlValue ValueCodec TabEntry.

Local Open Scope Z_scope.

(** ** The buffer size *)

Definition MAX_TOT_ELEMS : Z := 2 ^ 40.

Definition f64_leb (a b : Z) : bool := SFleb (sf_of_bits a) (sf_of_bits b).
Definition f64_half : Z := f64_div (f64_of_int 1) (f64_of_int 2).

(** [(b - 2) * (0x1LL << (b - 2)) + 0.5 <= epsilon * MAX_TOT_ELEMS]. *)
(* @src src/src/emitters/szlquantile.cc 113-113 SzlQuantileEntry::ComputeK *)
Definition small_tree (epsilon b : Z) : bool :=
  f64_leb (f64_add (f64_of_int (s64 ((b - 2) * Z.shiftl 1 (b - 2)))) f64_half) (f64_mul epsilon (f64_of_int MAX_TOT_ELEMS)).

(* @src src/src/emitters/szlquantile.cc 112-115 SzlQuantileEntry::ComputeK *)
Fixpoint tree_height (fuel : nat) (epsilon b : Z) : Z :=
  match fuel with
  | O => b
  | S fuel => if small_tree epsilon b then tree_height fuel epsilon (b + 1) else b
  end.

(** At [b] = 41 the left side is over [MAX_TOT_ELEMS], and [epsilon] is at most 1. *)
(* @src src/src/emitters/szlquantile.cc 110-121 SzlQuantileEntry::ComputeK *)
Definition ComputeK (num_quantiles : Z) : Z :=
  let epsilon := f64_div (f64_of_int 1) (f64_of_int (num_quantiles - 1)) in
  let b := tree_height 40 epsilon 2 in
  Z.quot MAX_TOT_ELEMS (Z.shiftl 1 (b - 1)).

(** ** Buffers *)

(** [vector<vector<string>* >]; [NULL] is [None]. *)
Abbreviation Buffers := (list (option (list bytes))).

Definition buf (b : option (list bytes)) : list bytes := default [] b.
(** Its strings, none for a [NULL] or past the end. *)
Definition buf_at (bufs : Buffers) (level : nat) : list bytes := buf (mjoin (bufs !! level)).
Definition buf_size (bufs : Buffers) (level : nat) : Z := Z.of_nat (length (buf_at bufs level)).
Definition not_null (bufs : Buffers) (level : nat) : bool := match bufs !! level with Some (Some _) => true | _ => false end.

(* @src src/src/emitters/szlquantile.cc 126-140 SzlQuantileEntry::EnsureBuffer *)
Definition EnsureBuffer (level : nat) (bufs : Buffers) : Buffers :=
  let bufs := if (length bufs <? level + 1)%nat then resize (level + 1) None bufs else bufs in
  if not_null bufs level then bufs else <[level := Some []]> bufs.

(** A [CHECK] that aborts the program. *)
Definition CHECK {A} (b : bool) (k : res A) : res A := if b then k else Fatal.

(** The strings of both in order, every other one; [keep] is [count % 2 == 0]. *)
(* @src src/src/emitters/szlquantile.cc 186-198 SzlQuantileEntry::Collapse *)
Fixpoint collapse_loop (n : nat) (keep : bool) (a b : list bytes) : list bytes :=
  match n with
  | O => []
  | S n =>
      match a, b with
      | [], [] => []
      | [], y :: b => (if keep then [y] else []) ++ collapse_loop n (negb keep) [] b
      | x :: a, [] => (if keep then [x] else []) ++ collapse_loop n (negb keep) a []
      | x :: a', y :: b' =>
          if negb (str_ltb x y) then (if keep then [y] else []) ++ collapse_loop n (negb keep) a b'
          else (if keep then [x] else []) ++ collapse_loop n (negb keep) a' b
      end
  end.

Section Quantile.
Context (ops : SzlOps).
(** The buffer size of the entry at hand. *)
Context (k : Z).

(** The output is a new or an empty vector; the caller empties both inputs. *)
(* @src src/src/emitters/szlquantile.cc 173-215 SzlQuantileEntry::Collapse *)
Definition Collapse (a b : list bytes) : res (list bytes) :=
  CHECK (Z.of_nat (length a) =? k) (CHECK (Z.of_nat (length b) =? k) (Ok (collapse_loop (length a + length b) true a b))).

(** [buf] is none of the buffers from [level] on; whoever calls empties it. The
    recursion ends at an empty buffer, at the latest at one it appends. *)
(* @src src/src/emitters/szlquantile.cc 227-258 SzlQuantileEntry::RecursiveCollapse *)
Fixpoint RecursiveCollapse (fuel : nat) (buf : list bytes) (level : nat) (bufs : Buffers) : res Buffers :=
  match fuel with
  | O => Fatal
  | S fuel =>
      CHECK (Z.of_nat (length buf) =? k) (CHECK (1 <=? level)%nat (CHECK (level + 1 <=? length bufs)%nat
      (CHECK (not_null bufs level) (CHECK (buf_size bufs level =? k) (
        let bufs := EnsureBuffer (level + 1) bufs in
        merged ← Collapse (buf_at bufs level) buf;
        let bufs := <[level := Some []]> bufs in
        if buf_size bufs (level + 1) =? 0 then Ok (<[(level + 1)%nat := Some merged]> bufs)
        else RecursiveCollapse fuel merged (level + 1) bufs)))))
  end.
End Quantile.

(** ** Entries *)

(* @src src/src/emitters/szlquantile.h 89-93 SzlQuantileEntry (data members) *)
Record SzlQuantileEntry : Type := MkQuantile {
  num_quantiles_ : Z;
  buffer_ : Buffers;
  k_ : Z;
  min_ : bytes;
  max_ : bytes;
  q_tot : Z;
}.

Definition set_buffer (bufs : Buffers) (e : SzlQuantileEntry) : SzlQuantileEntry :=
  MkQuantile (num_quantiles_ e) bufs (k_ e) (min_ e) (max_ e) (q_tot e).
Definition set_bounds (lo hi : bytes) (e : SzlQuantileEntry) : SzlQuantileEntry :=
  MkQuantile (num_quantiles_ e) (buffer_ e) (k_ e) lo hi (q_tot e).
Definition set_qtot (tot : Z) (e : SzlQuantileEntry) : SzlQuantileEntry :=
  MkQuantile (num_quantiles_ e) (buffer_ e) (k_ e) (min_ e) (max_ e) tot.

(** [min_] and [max_] keep what they were. *)
(* @src src/src/emitters/szlquantile.h 60-65 SzlQuantileEntry::Clear *)
Definition q_Clear (e : SzlQuantileEntry) : SzlQuantileEntry := set_qtot 0 (set_buffer [] e).

(* @src src/src/emitters/szlquantile.h 49-53 SzlQuantileEntry::SzlQuantileEntry *)
Definition q_new (param : Z) : SzlQuantileEntry :=
  let n := Z.max param 2 in MkQuantile n [] (ComputeK n) [] [] 0.

(** [sort] of a vector of strings. *)
Definition sort_strings (l : list bytes) : list bytes := merge_sort str_le l.

Definition push_back_buf (x : bytes) (level : nat) (bufs : Buffers) : Buffers :=
  <[level := Some (buf_at bufs level ++ [x])]> bufs.

Definition bounded_by (lo hi : bytes) (e : SzlQuantileEntry) : SzlQuantileEntry :=
  set_bounds (if (q_tot e =? 0) || str_ltb lo (min_ e) then lo else min_ e)
             (if (q_tot e =? 0) || str_ltb (max_ e) hi then hi else max_ e) e.

(** [RecursiveCollapse] empties both leaves, the first through its [buf]. *)
(* @src src/src/emitters/szlquantile.cc 290-306 SzlQuantileEntry::AddElem *)
Definition collapse_leaves (k : Z) (bufs : Buffers) : res Buffers :=
  CHECK (not_null bufs 0) (CHECK (not_null bufs 1) (CHECK (buf_size bufs 0 =? k) (CHECK (buf_size bufs 1 =? k) (
    let leaf := sort_strings (buf_at bufs 0) in
    let bufs := <[1%nat := Some (sort_strings (buf_at bufs 1))]> (<[0%nat := Some leaf]> bufs) in
    bufs ← RecursiveCollapse k (S (length bufs)) leaf 1 bufs;
    Ok (<[0%nat := Some []]> bufs))))).

Section Entry.
Context (ops : SzlOps).
(** The growth of the memory estimate, from the capacities of the vectors. *)
Context (memory_change : SzlQuantileEntry -> SzlQuantileEntry -> Z).

(* @src src/src/emitters/szlquantile.cc 273-323 SzlQuantileEntry::AddElem *)
Definition q_AddElem (elem : bytes) (e : SzlQuantileEntry) : res (Z * SzlQuantileEntry) :=
  let e0 := e in
  let e := bounded_by elem elem e in
  bufs ← (if (0 <? q_tot e) && (Z.rem (q_tot e) (2 * k_ e) =? 0) then collapse_leaves (k_ e) (buffer_ e) else Ok (buffer_ e));
  let bufs := EnsureBuffer 1 (EnsureBuffer 0 bufs) in
  let index := if buf_size bufs 0 <? k_ e then 0%nat else 1%nat in
  let e := set_qtot (s64 (q_tot e + 1)) (set_buffer (push_back_buf elem index bufs) e) in
  Ok (memory_change e0 e, e).

(* @src src/src/emitters/szlquantile.cc 344-355 SzlQuantileEntry::Flush *)
Definition put_buffer (enc : SzlEncoder) (b : option (list bytes)) : SzlEncoder :=
  match b with
  | None => PutInt enc 0
  | Some l => fold_left AppendEncoding l (PutInt enc (Z.of_nat (length l)))
  end.

(* @src src/src/emitters/szlquantile.cc 327-360 SzlQuantileEntry::Flush *)
Definition q_Flush (e : SzlQuantileEntry) : res (bytes * SzlQuantileEntry) :=
  let enc := PutInt (PutInt enc_new (q_tot e)) (num_quantiles_ e) in
  enc ← PutFloat enc 0;
  let enc := PutInt (PutInt enc (k_ e)) (Z.of_nat (length (buffer_ e))) in
  let enc :=
    if 0 <? q_tot e then fold_left put_buffer (buffer_ e) (AppendEncoding (AppendEncoding enc (min_ e)) (max_ e))
    else enc in
  Ok (fst (enc_Swap enc), q_Clear e).

(* @src src/src/emitters/szlquantile.cc 377-390 SzlQuantileEntry::EncodingToString *)
Definition EncodingToString (dec : SzlDecoder) : option (bytes * SzlDecoder) :=
  dec' ← ops_Skip ops dec; Some (between dec dec', dec').

(** The strings read; on failure with the empty one that was to be the next. *)
(* @src src/src/emitters/szlquantile.cc 479-487 SzlQuantileEntry::Merge *)
Fixpoint read_strings (n : nat) (dec : SzlDecoder) : list bytes * option SzlDecoder :=
  match n with
  | O => ([], Some dec)
  | S n =>
      match EncodingToString dec with
      | None => ([[]], None)
      | Some (s, dec) => let '(ss, r) := read_strings n dec in (s :: ss, r)
      end
  end.

(* @src src/src/emitters/szlquantile.cc 511-514 SzlQuantileEntry::Merge *)
Fixpoint q_adds (xs : list bytes) (e : SzlQuantileEntry) : res SzlQuantileEntry :=
  match xs with
  | [] => Ok e
  | x :: xs => '(_, e) ← q_AddElem x e; q_adds xs e
  end.

(** A buffer of the message that has been read: [direct] when it was read into
    the entry's own. *)
(* @src src/src/emitters/szlquantile.cc 503-519 SzlQuantileEntry::Merge *)
Definition enter_buffer (direct : bool) (level : nat) (newbuffer : list bytes) (e : SzlQuantileEntry) : res SzlQuantileEntry :=
  if (2 <=? level)%nat then
    let e := set_qtot (s64 (q_tot e + s64 (k_ e * Z.shiftl 1 (Z.of_nat level - 1)))) e in
    if direct then Ok e
    else bufs ← RecursiveCollapse (k_ e) (S (length (buffer_ e))) newbuffer level (buffer_ e); Ok (set_buffer bufs e)
  else if direct then Ok (set_qtot (s64 (q_tot e + Z.of_nat (length newbuffer))) e)
  else q_adds newbuffer e.

(** The boolean is false for an error. *)
(* @src src/src/emitters/szlquantile.cc 451-520 SzlQuantileEntry::Merge *)
Fixpoint q_merge_loop (n : nat) (level : nat) (dec : SzlDecoder) (e : SzlQuantileEntry) : res (bool * SzlQuantileEntry) :=
  match n with
  | O => Ok (true, e)
  | S n =>
      match GetInt dec with
      | None => Ok (false, e)
      | Some (count, dec) =>
          if count <? 0 then Ok (false, e)
          else
            CHECK ((level <? 2)%nat || (count =? 0) || (count =? k_ e)) (
              if count =? 0 then q_merge_loop n (S level) dec e
              else
                let e := set_buffer (EnsureBuffer level (buffer_ e)) e in
                let direct := buf_size (buffer_ e) level =? 0 in
                let '(newbuffer, r) := read_strings (Z.to_nat count) dec in
                let e := if direct then set_buffer (<[level := Some newbuffer]> (buffer_ e)) e else e in
                match r with
                | None => Ok (false, e)
                | Some dec => e ← enter_buffer direct level newbuffer e; q_merge_loop n (S level) dec e
                end)
      end
  end.

(* @src src/src/emitters/szlquantile.cc 401-524 SzlQuantileEntry::Merge *)
Definition q_Merge (val : bytes) (e : SzlQuantileEntry) : res (MergeStatus * SzlQuantileEntry) :=
  let error := Ok (MergeError, e) in
  match val with
  | [] => error
  | _ =>
      match GetInt (dec_Init val) with
      | None => error
      | Some (tot_elems, dec) =>
          if tot_elems <? 0 then error else
          match GetInt dec with
          | None => error
          | Some (num_quantiles, dec) =>
              if negb (num_quantiles =? num_quantiles_ e) then error else
              match GetFloat dec with
              | None => error
              | Some (dummy_epsilon, dec) =>
                  if f64_ltb 0 dummy_epsilon then error else
                  match GetInt dec with
                  | None => error
                  | Some (k, dec) =>
                      if negb (k =? k_ e) then error else
                      match GetInt dec with
                      | None => error
                      | Some (num_buffers, dec) =>
                          if tot_elems =? 0 then Ok (MergeOk, e) else
                          match EncodingToString dec with
                          | None => error
                          | Some (min_string, dec) =>
                              match EncodingToString dec with
                              | None => error
                              | Some (max_string, dec) =>
                                  '(ok, e) ← q_merge_loop (Z.to_nat num_buffers) 0 dec (bounded_by min_string max_string e);
                                  Ok (if ok : bool then MergeOk else MergeError, e)
                              end
                          end
                      end
                  end
              end
          end
      end
  end.
End Entry.

(** ** Quantiles *)

(** [static_cast<int64>(ceil(x))] for an [x] in the range of [int64]. *)
Definition f64_ceil (x : Z) : Z :=
  match sf_of_bits x with
  | S754_finite s m e =>
      let n := if s then Z.neg m else Z.pos m in
      if 0 <=? e then n * 2 ^ e else - (- n / 2 ^ (- e))
  | _ => 0
  end.

(* @src src/src/emitters/szlcomputequantiles.cc 79-80 ComputeQuantiles *)
Definition target_S (num_quantiles tot_elems i : Z) : Z :=
  f64_ceil (f64_mul (f64_of_int i) (f64_div (f64_of_int tot_elems) (f64_sub (f64_of_int num_quantiles) (f64_of_int 1)))).

(** What an element of a buffer stands for: [1] in the leaves, [2^(j-1)] above. *)
(* @src src/src/emitters/szlcomputequantiles.cc 66-66 ComputeQuantiles *)
Definition level_weight (j : nat) : Z := if (j <=? 1)%nat then 1 else s64 (Z.shiftl 1 (Z.of_nat j - 1)).

(* @src src/src/emitters/szlcomputequantiles.cc 64-68 ComputeQuantiles *)
Fixpoint weighted_size (j : nat) (bufs : Buffers) : Z :=
  match bufs with
  | [] => 0
  | b :: bufs => s64 (Z.of_nat (length (buf b)) * level_weight j + weighted_size (S j) bufs)
  end.

(** [rest] is what each buffer has from its [index] on. *)
(* @src src/src/emitters/szlcomputequantiles.cc 86-95 ComputeQuantiles *)
Fixpoint find_smallest (rest : list (list bytes)) (j : nat) (smallest : bytes) (min_buffer_id : option nat) : bytes * option nat :=
  match rest with
  | [] => (smallest, min_buffer_id)
  | [] :: rest => find_smallest rest (S j) smallest min_buffer_id
  | (x :: _) :: rest =>
      if negb (str_ltb smallest x) then find_smallest rest (S j) x (Some j)
      else find_smallest rest (S j) smallest min_buffer_id
  end.

(** The splitter, and [S] and the buffers when it is found. A round that goes on
    passes over an element. *)
(* @src src/src/emitters/szlcomputequantiles.cc 83-116 ComputeQuantiles *)
Fixpoint next_splitter (fuel : nat) (max_string : bytes) (target sum : Z) (rest : list (list bytes)) : res (bytes * Z * list (list bytes)) :=
  match fuel with
  | O => Fatal
  | S fuel =>
      match find_smallest rest 0 max_string None with
      | (_, None) => Fatal
      | (smallest, Some j) =>
          let S_incr := level_weight j in
          if target <=? s64 (sum + S_incr) then Ok (smallest, sum, rest)
          else next_splitter fuel max_string target (s64 (sum + S_incr)) (alter tail j rest)
      end
  end.

(* @src src/src/emitters/szlcomputequantiles.cc 77-117 ComputeQuantiles *)
Fixpoint splitters (targets : list Z) (tot_elems : Z) (max_string : bytes) (sum : Z) (rest : list (list bytes)) : res (list bytes) :=
  match targets with
  | [] => Ok []
  | target :: targets =>
      CHECK (target <=? tot_elems) (
        '(q, sum, rest) ← next_splitter (S (length (concat rest))) max_string target sum rest;
        qs ← splitters targets tot_elems max_string sum rest;
        Ok (q :: qs))
  end.

Definition sort_buffer (b : option (list bytes)) : option (list bytes) := sort_strings <$> b.

Definition targets (num_quantiles tot_elems : Z) : list Z :=
  map (fun i => target_S num_quantiles tot_elems (Z.of_nat i)) (seq 1 (Z.to_nat (num_quantiles - 2))).

(** The quantiles and the buffers, of which the leaves have been sorted. *)
(* @src src/src/emitters/szlcomputequantiles.cc 34-121 ComputeQuantiles *)
Definition ComputeQuantiles (buffer : Buffers) (min_string max_string : bytes) (num_quantiles tot_elems : Z) : res (list bytes * Buffers) :=
  CHECK (negb (str_ltb max_string min_string)) (CHECK (1 <=? length buffer)%nat (
    let buffer := alter sort_buffer 1%nat (alter sort_buffer 0%nat buffer) in
    CHECK (weighted_size 0 buffer =? tot_elems) (
      qs ← splitters (targets num_quantiles tot_elems) tot_elems max_string 0 (map buf buffer);
      Ok (min_string :: qs ++ [max_string], buffer)))).

(* @src src/src/emitters/szlquantile.cc 363-372 SzlQuantileEntry::FlushForDisplay *)
Definition q_FlushForDisplay (e : SzlQuantileEntry) : res (list bytes * SzlQuantileEntry) :=
  if q_tot e =? 0 then Ok ([[]], e)
  else '(qs, bufs) ← ComputeQuantiles (buffer_ e) (min_ e) (max_ e) (num_quantiles_ e) (q_tot e); Ok (qs, set_buffer bufs e).

(* @src src/src/emitters/szlquantile.h 69-69 SzlQuantileEntry::TupleCount *)
Definition q_TupleCount (e : SzlQuantileEntry) : res Z := Ok (Z.of_nat (length (buffer_ e))).

Definition quantile_methods ops memory_change : SzlTabEntry SzlQuantileEntry := {|
  entry_AddElem := q_AddElem memory_change;
  entry_AddWeightedElem := default_AddWeightedElem;
  entry_Flush := q_Flush;
  entry_FlushForDisplay := q_FlushForDisplay;
  entry_Merge := q_Merge ops memory_change;
  entry_Clear := fun e => Ok (q_Clear e);
  entry_TotElems := q_tot;
  entry_TupleCount := q_TupleCount;
|}.

(** ** Reading results *)

(* @src src/src/emitters/szlquantileresults.cc 97-99 SzlQuantileResults (data members) *)
Record QuantileResults : Type := MkQuantileResults { quantiles_ : list bytes; qr_tot : Z }.

Section Results.
Context (ops : SzlOps).

Definition push_buffer (b : option (list bytes)) (r : res (option Buffers)) : res (option Buffers) :=
  bs ← r; Ok (option_map (cons b) bs).

(** The buffers, or nothing for a string that cannot be read. A negative length
    of a vector throws. *)
(* @src src/src/emitters/szlquantileresults.cc 172-200 SzlQuantileResults::ParseFromString *)
Fixpoint read_buffers (n : nat) (level : nat) (k : Z) (dec : SzlDecoder) : res (option Buffers) :=
  match n with
  | O => Ok (Some [])
  | S n =>
      match GetInt dec with
      | None => Ok None
      | Some (count, dec) =>
          if count <? 0 then Ok None
          else
            CHECK (negb ((2 <=? level)%nat && negb (count =? 0)) || (count =? k)) (
              if count =? 0 then push_buffer None (read_buffers n (S level) k dec)
              else
                CHECK (0 <=? k) (
                  let '(l, r) := read_strings ops (Z.to_nat count) dec in
                  match r with
                  | None => Ok None
                  | Some dec => push_buffer (Some l) (read_buffers n (S level) k dec)
                  end))
      end
  end.

(* @src src/src/emitters/szlquantileresults.cc 204-213 SzlQuantileResults::ParseFromString *)
Fixpoint results_size (i : nat) (buffer : Buffers) : Z :=
  match buffer with
  | [] => 0
  | b :: buffer =>
      s64 (Z.of_nat (length (buf b)) * (if (i =? 0)%nat then 1 else s64 (Z.shiftl 1 (Z.of_nat i - 1))) + results_size (S i) buffer)
  end.

(** The boolean and the members after the call. *)
(* @src src/src/emitters/szlquantileresults.cc 130-229 SzlQuantileResults::ParseFromString *)
Definition quantile_ParseFromString (num_quantiles_ : Z) (val : bytes) : res (bool * QuantileResults) :=
  let empty := MkQuantileResults [] 0 in
  let error := Ok (false, empty) in
  match val with
  | [] => error
  | _ =>
      match GetInt (dec_Init val) with
      | None => error
      | Some (tot_elems, dec) =>
          if tot_elems <? 0 then error else
          match GetInt dec with
          | None => error
          | Some (num_quantiles, dec) =>
              if negb (num_quantiles =? num_quantiles_) then error else
              match GetFloat dec with
              | None => error
              | Some (_, dec) =>
                  match GetInt dec with
                  | None => error
                  | Some (k, dec) =>
                      match GetInt dec with
                      | None => error
                      | Some (num_buffers, dec) =>
                          if tot_elems =? 0 then Ok (true, empty) else
                          let counted := MkQuantileResults [] tot_elems in
                          match EncodingToString ops dec with
                          | None => Ok (false, counted)
                          | Some (min_string, dec) =>
                              match EncodingToString ops dec with
                              | None => Ok (false, counted)
                              | Some (max_string, dec) =>
                                  CHECK (0 <=? num_buffers) (
                                    bufs ← read_buffers (Z.to_nat num_buffers) 0 k dec;
                                    match bufs with
                                    | None => Ok (false, counted)
                                    | Some buffer =>
                                        CHECK (results_size 0 buffer =? tot_elems) (
                                          '(qs, _) ← ComputeQuantiles buffer min_string max_string num_quantiles_ tot_elems;
                                          Ok (true, MkQuantileResults qs tot_elems))
                                    end)
                              end
                          end
                      end
                  end
              end
          end
      end
  end.
End Results.
