(* ===== verification/QuantileRank.v ===== *)
(** * What the quantiles promise

    The buffers of a quantile table count, for every prefix of the order of
    strings, as many elements as were added, up to an error that only grows when
    buffers are merged; the quantiles displayed have the ranks asked for up to
    that error, however the elements were divided among shards. *)
From Stdlib Require Import ZArith Lia.
From stdpp Require Import prelude sorting.
From S2P Require Import Prelude SzlType Double Encoder Decoder Codec Reads SzlValue ValueCodec Numbers TabEntry QuantileTable.

Ltac Zify.zify_post_hook ::= Z.div_mod_to_equations.
Local Open Scope Z_scope.

(** The pieces of a message are strings of bytes. *)
Ltac parts_ok := repeat (apply Forall_app; split); try assumption; apply (enc_prim_ok (PInt _)); assumption.

(** ** Counting *)

(** A prefix of the order of strings. *)
Definition prefix_closed (p : bytes -> bool) : Prop := forall x y, str_le x y -> p y = true -> p x = true.

Definition cnt (p : bytes -> bool) (l : list bytes) : Z := sumZ (fun x => Z.b2z (p x)) l.

Lemma cnt_cons p x l : cnt p (x :: l) = Z.b2z (p x) + cnt p l.
Proof. exact (sumZ_cons _ x l). Qed.
Lemma cnt_app p l l' : cnt p (l ++ l') = cnt p l + cnt p l'.
Proof. exact (sumZ_app _ l l'). Qed.
Lemma cnt_perm p l l' : l ≡ₚ l' -> cnt p l = cnt p l'.
Proof. exact (sumZ_perm _ l l'). Qed.
Lemma cnt_range p l : 0 <= cnt p l <= Z.of_nat (length l).
Proof. induction l as [|x l IH]; [done|]. rewrite cnt_cons. cbn [length]. destruct (p x); cbn [Z.b2z]; lia. Qed.
Lemma cnt_all p l : (forall x, p x = true) -> cnt p l = Z.of_nat (length l).
Proof. intros Hp. induction l as [|x l IH]; [done|]. rewrite cnt_cons, IH, Hp. cbn [length Z.b2z]. lia. Qed.
Lemma cnt_none p l : Forall (fun x => p x = false) l -> cnt p l = 0.
Proof. induction 1 as [|x l Hx Hl IH]; [done|]. rewrite cnt_cons, Hx, IH. done. Qed.

Abbreviation all_strings := (fun _ : bytes => true).

Lemma sort_strings_perm l : sort_strings l ≡ₚ l.
Proof. apply merge_sort_Permutation. Qed.
Lemma sort_strings_sorted l : StronglySorted str_le (sort_strings l).
Proof. apply (StronglySorted_merge_sort str_le); apply _. Qed.

(** *** Merging two sorted buffers *)

(** Every other element, from the first or the second on. *)
Fixpoint alternate (keep : bool) (l : list bytes) : list bytes :=
  match l with [] => [] | x :: l => (if keep then [x] else []) ++ alternate (negb keep) l end.

Lemma collapse_alternate n keep a b :
  (length a + length b <= n)%nat -> collapse_loop n keep a b = alternate keep (list_merge str_le b a).
Proof.
  revert keep a b. induction n as [|n IH]; intros keep [|x a] [|y b] Hn; cbn [length] in Hn; try lia; try done; cbn [collapse_loop].
  - rewrite IH by (cbn; lia). by rewrite !list_merge_nil_r.
  - rewrite IH by (cbn; lia). by rewrite !list_merge_nil_l.
  - rewrite list_merge_cons. destruct (str_ltb x y) eqn:E; cbn [negb].
    + rewrite decide_False by (intros H; apply str_ltb_false in H; congruence). rewrite IH by (cbn; lia). done.
    + rewrite decide_True by (by apply str_ltb_false). rewrite IH by (cbn; lia). done.
Qed.

Lemma alternate_length keep l : Z.of_nat (length (alternate keep l)) = (Z.of_nat (length l) + Z.b2z keep) / 2.
Proof.
  revert keep. induction l as [|x l IH]; intros keep; [by destruct keep|]. cbn [alternate length]. rewrite length_app, Nat2Z.inj_add, IH.
  destruct keep; cbn [length negb Z.b2z]; lia.
Qed.

Lemma alternate_in keep l x : x ∈ alternate keep l -> x ∈ l.
Proof.
  revert keep. induction l as [|y l IH]; intros keep; [done|]. cbn [alternate]. intros [Hx|Hx]%elem_of_app; [|right; by eapply IH].
  destruct keep; [|by apply elem_of_nil in Hx]. apply list_elem_of_singleton in Hx as ->. left.
Qed.

Lemma alternate_sorted keep l : StronglySorted str_le l -> StronglySorted str_le (alternate keep l).
Proof.
  intros Hs. revert keep. induction Hs as [|x l Hs IH Hx]; intros keep; [constructor|]. cbn [alternate]. destruct keep; cbn [app negb]; [|apply IH].
  constructor; [apply IH|]. apply Forall_forall. intros y Hy%alternate_in. exact (proj1 (Forall_forall _ _) Hx y Hy).
Qed.

(** Of the elements in a prefix half are kept, rounded up from the first on. *)
Lemma alternate_cnt p keep l : prefix_closed p -> StronglySorted str_le l ->
  cnt p (alternate keep l) = (cnt p l + Z.b2z keep) / 2.
Proof.
  intros Hp Hs. revert keep. induction Hs as [|x l Hs IH Hx]; intros keep; [by destruct keep|]. cbn [alternate]. rewrite cnt_app, IH, cnt_cons.
  destruct (p x) eqn:E.
  - destruct keep; cbn [negb]; rewrite ?cnt_cons, ?E; change (cnt p []) with 0; cbn [Z.b2z]; lia.
  - assert (cnt p l = 0) as ->.
    { apply cnt_none. eapply Forall_impl; [exact Hx|]. intros y Hy. cbn in Hy. destruct (p y) eqn:Ey; [|done]. by rewrite (Hp x y Hy Ey) in E. }
    destruct keep; cbn [negb]; rewrite ?cnt_cons, ?E; change (cnt p []) with 0; cbn [Z.b2z]; lia.
Qed.

(** *** Sums over the levels *)

Fixpoint sum_levels (f : nat -> list bytes -> Z) (j : nat) (bufs : Buffers) : Z :=
  match bufs with [] => 0 | b :: bufs => f j (buf b) + sum_levels f (S j) bufs end.

Lemma sum_levels_cons f j b bufs : sum_levels f j (b :: bufs) = f j (buf b) + sum_levels f (S j) bufs.
Proof. done. Qed.

Section Sums.
Context (f : nat -> list bytes -> Z) (Hf : forall j, f j [] = 0).

Lemma sum_levels_insert j bufs i b : (i < length bufs)%nat ->
  sum_levels f j (<[i := b]> bufs) = sum_levels f j bufs - f (j + i)%nat (buf_at bufs i) + f (j + i)%nat (buf b).
Proof.
  revert j i. induction bufs as [|a bufs IH]; intros j i Hi; cbn [length] in Hi; [lia|]. destruct i as [|i]; cbn [insert list_insert sum_levels].
  - change (buf_at (a :: bufs) 0) with (buf a). rewrite Nat.add_0_r. lia.
  - rewrite IH by lia. replace (S j + i)%nat with (j + S i)%nat by lia. change (buf_at (a :: bufs) (S i)) with (buf_at bufs i). lia.
Qed.

Lemma sum_levels_nulls j n : sum_levels f j (replicate n None) = 0.
Proof. revert j. induction n as [|n IH]; intros j; [done|]. cbn. rewrite Hf, IH. done. Qed.

Lemma sum_levels_app j bufs bufs' : sum_levels f j (bufs ++ bufs') = sum_levels f j bufs + sum_levels f (j + length bufs) bufs'.
Proof.
  revert j. induction bufs as [|a bufs IH]; intros j; cbn [app sum_levels length]; [by rewrite Nat.add_0_r|].
  rewrite IH. replace (S j + length bufs)%nat with (j + S (length bufs))%nat by lia. lia.
Qed.

Lemma sum_levels_resize j bufs n : (length bufs <= n)%nat -> sum_levels f j (resize n None bufs) = sum_levels f j bufs.
Proof. intros Hn. rewrite resize_ge by done. rewrite sum_levels_app, sum_levels_nulls. lia. Qed.
End Sums.

Lemma sum_levels_mono f g j bufs : (forall i b, f i b <= g i b) -> sum_levels f j bufs <= sum_levels g j bufs.
Proof. intros Hfg. revert j. induction bufs as [|b bufs IH]; intros j; cbn; [lia|]. specialize (Hfg j (buf b)). specialize (IH (S j)). lia. Qed.

Lemma buf_at_insert bufs i j b : (i < length bufs)%nat -> buf_at (<[i := b]> bufs) j = if decide (i = j) then buf b else buf_at bufs j.
Proof.
  intros Hi. unfold buf_at. case_decide as E; [subst; by rewrite list_lookup_insert_eq|by rewrite list_lookup_insert_ne].
Qed.
Lemma not_null_insert bufs i j b : (i < length bufs)%nat -> not_null (<[i := Some b]> bufs) j = if decide (i = j) then true else not_null bufs j.
Proof.
  intros Hi. unfold not_null. case_decide as E; [subst; by rewrite list_lookup_insert_eq|by rewrite list_lookup_insert_ne].
Qed.

Lemma buf_at_resize bufs n j : (length bufs <= n)%nat -> buf_at (resize n None bufs) j = buf_at bufs j.
Proof.
  intros Hn. unfold buf_at. rewrite resize_ge by done. destruct (decide (j < length bufs)%nat); [by rewrite lookup_app_l|].
  rewrite lookup_app_r, (lookup_ge_None_2 bufs) by lia. destruct (_ !! (j - _)%nat) as [b|] eqn:E; [|done].
  apply lookup_replicate in E as [-> _]. done.
Qed.

(** [EnsureBuffer] changes nothing that counts. *)
Lemma EnsureBuffer_spec level bufs :
  let bufs' := EnsureBuffer level bufs in
  (length bufs <= length bufs')%nat /\ (level < length bufs')%nat /\ not_null bufs' level = true
  /\ (length bufs' = Nat.max (length bufs) (level + 1))%nat
  /\ (forall j, j <> level -> (j < length bufs)%nat -> bufs' !! j = bufs !! j) /\ (forall j, buf_at bufs' j = buf_at bufs j)
  /\ forall f j, (forall i, f i [] = 0) -> sum_levels f j bufs' = sum_levels f j bufs.
Proof.
  unfold EnsureBuffer. set (r := if (_ <? _)%nat then _ else _).
  assert ((length bufs <= length r)%nat /\ length r = Nat.max (length bufs) (level + 1) /\ (forall j, (j < length bufs)%nat -> r !! j = bufs !! j)
    /\ (forall j, buf_at r j = buf_at bufs j) /\ forall f j, (forall i, f i [] = 0) -> sum_levels f j r = sum_levels f j bufs) as (R1 & R2 & R3 & R4 & R5).
  { unfold r. destruct (Nat.ltb_spec (length bufs) (level + 1)); [|by split; [lia|split; [lia|]]].
    rewrite length_resize. split; [lia|]. split; [lia|]. split; [|split].
    - intros j Hj. rewrite resize_ge by lia. by rewrite lookup_app_l.
    - intros j. apply buf_at_resize. lia.
    - intros f j Hf. apply sum_levels_resize; [done|lia]. }
  clearbody r. destruct (not_null r level) eqn:E; [by repeat (split; [done || lia || auto|])|].
  rewrite length_insert. assert (level < length r)%nat by lia. assert (buf_at r level = []) as Ez.
  { unfold buf_at, not_null in *. destruct (r !! level) as [[b|]|]; done. }
  split; [done|]. split; [done|]. split; [by rewrite not_null_insert, decide_True|]. split; [done|]. split; [|split].
  - intros j Hj Hlt. rewrite list_lookup_insert_ne by done. by apply R3.
  - intros j. rewrite buf_at_insert by done. case_decide as Ej; [subst; by rewrite <- R4, Ez|apply R4].
  - intros f j Hf. rewrite sum_levels_insert by done. rewrite R5, Ez by done. cbn [buf default]. rewrite !Hf. lia.
Qed.

Section Tree.
Context (k : Z) (Hk : 0 < k).

Lemma Collapse_ok a b :
  Z.of_nat (length a) = k -> Z.of_nat (length b) = k -> StronglySorted str_le a -> StronglySorted str_le b -> exists r,
    Collapse k a b = Ok r /\ Z.of_nat (length r) = k /\ StronglySorted str_le r /\ (forall x, x ∈ r -> x ∈ a \/ x ∈ b)
    /\ forall p, prefix_closed p -> cnt p r = (cnt p a + cnt p b + 1) / 2.
Proof.
  intros Ha Hb Sa Sb. unfold Collapse, CHECK. rewrite Ha, Hb, Z.eqb_refl. eexists. split; [done|]. rewrite collapse_alternate by lia.
  pose proof (merge_Permutation str_le b a) as Hp.
  assert (StronglySorted str_le (list_merge str_le b a)) as Hs.
  { apply Sorted_StronglySorted; [apply _|]. apply Sorted_list_merge; [apply _|by apply StronglySorted_Sorted..]. }
  split; [|split; [by apply alternate_sorted|split]].
  - rewrite alternate_length, (Permutation_length Hp), length_app. cbn [Z.b2z]. lia.
  - intros x Hx%alternate_in. rewrite Hp in Hx. apply elem_of_app in Hx as [?|?]; auto.
  - intros p Hpc. rewrite alternate_cnt by done. rewrite (cnt_perm p _ _ Hp), cnt_app. cbn [Z.b2z]. f_equal. lia.
Qed.

(** *** What an element of a level stands for, and may be wrong by *)

Definition wt (j : nat) : Z := if (j <=? 1)%nat then 1 else 2 ^ (Z.of_nat j - 1).
Definition err (j : nat) : Z := if (j <=? 1)%nat then 0 else (Z.of_nat j - 1) * 2 ^ (Z.of_nat j - 2).

Lemma wt_pos j : 0 < wt j.
Proof. unfold wt. destruct (Nat.leb_spec j 1); [lia|]. apply Z.pow_pos_nonneg; lia. Qed.
Lemma wt_S j : (1 <= j)%nat -> wt (S j) = 2 * wt j.
Proof.
  intros Hj. unfold wt. rewrite (proj2 (Nat.leb_gt (S j) 1)) by lia. destruct (Nat.leb_spec j 1).
  - assert (j = 1)%nat as -> by lia. done.
  - rewrite <- Z.pow_succ_r by lia. f_equal. lia.
Qed.
Lemma err_S j : (1 <= j)%nat -> err (S j) = 2 * err j + wt j.
Proof.
  intros Hj. unfold err, wt. rewrite (proj2 (Nat.leb_gt (S j) 1)) by lia. destruct (Nat.leb_spec j 1).
  - assert (j = 1)%nat as -> by lia. done.
  - assert (2 ^ (Z.of_nat (S j) - 2) = 2 * 2 ^ (Z.of_nat j - 2)) as -> by (rewrite <- Z.pow_succ_r by lia; f_equal; lia).
    assert (2 ^ (Z.of_nat j - 1) = 2 * 2 ^ (Z.of_nat j - 2)) as -> by (rewrite <- Z.pow_succ_r by lia; f_equal; lia). nia.
Qed.
Lemma err_nonneg j : 0 <= err j.
Proof. unfold err. destruct (Nat.leb_spec j 1); [lia|]. assert (0 < 2 ^ (Z.of_nat j - 2)) by (apply Z.pow_pos_nonneg; lia). nia. Qed.

Definition level_cnt (p : bytes -> bool) (j : nat) (b : list bytes) : Z := wt j * cnt p b.
Definition level_err (j : nat) (b : list bytes) : Z := match b with [] => 0 | _ => err j end.
(** What the buffers count in a prefix, and by how much they can be wrong. *)
Definition weighed (p : bytes -> bool) (bufs : Buffers) : Z := sum_levels (level_cnt p) 0 bufs.
Definition error (bufs : Buffers) : Z := sum_levels level_err 0 bufs.

Lemma level_cnt_nil p j : level_cnt p j [] = 0.
Proof. unfold level_cnt. cbn. lia. Qed.
Lemma level_err_nil j : level_err j [] = 0.
Proof. done. Qed.

Lemma weighed_insert p bufs i b : (i < length bufs)%nat ->
  weighed p (<[i := Some b]> bufs) = weighed p bufs - wt i * cnt p (buf_at bufs i) + wt i * cnt p b.
Proof. intros Hi. unfold weighed. rewrite sum_levels_insert by done. done. Qed.
Lemma error_insert bufs i b : (i < length bufs)%nat ->
  error (<[i := Some b]> bufs) = error bufs - level_err i (buf_at bufs i) + level_err i b.
Proof. intros Hi. unfold error. rewrite sum_levels_insert by done. done. Qed.
Lemma weighed_ensure p level bufs : weighed p (EnsureBuffer level bufs) = weighed p bufs.
Proof. apply EnsureBuffer_spec. apply level_cnt_nil. Qed.
Lemma error_ensure level bufs : error (EnsureBuffer level bufs) = error bufs.
Proof. apply EnsureBuffer_spec. apply level_err_nil. Qed.

Definition level_ok (bufs : Buffers) (j : nat) : Prop :=
  StronglySorted str_le (buf_at bufs j) /\ (buf_at bufs j = [] \/ buf_size bufs j = k).
Definition all_in (P : bytes -> Prop) (bufs : Buffers) : Prop := forall j, Forall P (buf_at bufs j).

Lemma level_err_full j b : Z.of_nat (length b) = k -> level_err j b = err j.
Proof. intros Hb. destruct b; [cbn in Hb; lia|done]. Qed.

(** A buffer [b] is entered at a level where there is one. *)
Definition entered (level : nat) (b : list bytes) (bufs bufs' : Buffers) : Prop :=
  (forall P, Forall P b -> all_in P bufs -> all_in P bufs')
  /\ weighed all_strings bufs' = weighed all_strings bufs + wt level * Z.of_nat (length b)
  /\ forall p, prefix_closed p ->
     weighed p bufs + wt level * cnt p b <= weighed p bufs' <= weighed p bufs + wt level * cnt p b + (error bufs' - error bufs - err level).

(** Levels are only added to hold a buffer. *)
Definition grown (bufs bufs' : Buffers) : Prop :=
  (length bufs' <= length bufs)%nat \/ ((3 <= length bufs')%nat /\ buf_size bufs' (length bufs' - 1) = k).

(** The step between the levels: both buffers of a level give one above. *)
Lemma entered_up level a b r bufs bufs' :
  (1 <= level)%nat -> (level < length bufs)%nat -> buf_at bufs level = a -> Z.of_nat (length a) = k -> Z.of_nat (length b) = k -> Z.of_nat (length r) = k ->
  (forall x, x ∈ r -> x ∈ a \/ x ∈ b) -> (forall p, prefix_closed p -> cnt p r = (cnt p a + cnt p b + 1) / 2) ->
  entered (S level) r (<[level := Some []]> bufs) bufs' -> entered level b bufs bufs'.
Proof.
  intros Hl Hlen Ea La Lb Lr Hin Hcnt (HP & HT & HW). pose proof (wt_S level Hl) as Hw. pose proof (err_S level Hl) as He.
  split; [|split].
  - intros P Pb Pbufs. apply HP.
    + apply Forall_forall. intros x [Hx|Hx]%Hin; [specialize (Pbufs level); rewrite Ea in Pbufs|]; by eapply Forall_forall.
    + intros j. rewrite buf_at_insert by done. case_decide; [constructor|apply Pbufs].
  - rewrite HT, weighed_insert, Ea, cnt_all by done. cbn [cnt sumZ foldr]. change (cnt all_strings []) with 0. nia.
  - intros p Hp. specialize (HW p Hp). rewrite weighed_insert, error_insert, Ea, (level_err_full level a La), Hcnt in HW by done.
    change (cnt p []) with 0 in HW. change (level_err level []) with 0 in HW. rewrite Hw, He in HW. pose proof (wt_pos level).
    set (c := cnt p a + cnt p b) in *. assert (c <= 2 * ((c + 1) / 2) <= c + 1) as Hc by lia. nia.
Qed.

Lemma entered_empty level b bufs :
  (level < length bufs)%nat -> Z.of_nat (length b) = k -> buf_at bufs level = [] -> entered level b bufs (<[level := Some b]> bufs).
Proof.
  intros Hlen Lb Ea. split; [|split].
  - intros P Pb Pbufs j. rewrite buf_at_insert by done. case_decide; [done|apply Pbufs].
  - rewrite weighed_insert, Ea, !cnt_all by done. cbn [length]. lia.
  - intros p Hp. rewrite weighed_insert, error_insert, Ea, (level_err_full level b Lb) by done. cbn [level_err]. change (cnt p []) with 0. lia.
Qed.

Lemma entered_ensure level l b bufs bufs' : entered level b (EnsureBuffer l bufs) bufs' -> entered level b bufs bufs'.
Proof.
  pose proof (EnsureBuffer_spec l bufs) as (_ & _ & _ & _ & _ & E & _). intros (H1 & H2 & H3). rewrite weighed_ensure in H2.
  split; [|split; [done|]].
  - intros P Pb Pbufs. apply H1; [done|]. intros j. rewrite E. apply Pbufs.
  - intros p Hp. specialize (H3 p Hp). by rewrite weighed_ensure, error_ensure in H3.
Qed.

Lemma RecursiveCollapse_ok fuel b level bufs :
  (1 <= level)%nat -> Z.of_nat (length b) = k -> StronglySorted str_le b -> not_null bufs level = true -> buf_size bufs level = k ->
  (forall j, (level <= j)%nat -> level_ok bufs j) -> (length bufs - level < fuel)%nat ->
  exists bufs', RecursiveCollapse k fuel b level bufs = Ok bufs'
  /\ (length bufs <= length bufs')%nat /\ (forall j, (j < level)%nat -> bufs' !! j = bufs !! j)
  /\ buf_at bufs' level = [] /\ not_null bufs' level = true /\ (forall j, (level <= j)%nat -> level_ok bufs' j)
  /\ grown bufs bufs' /\ entered level b bufs bufs'.
Proof.
  revert b level bufs. induction fuel as [|fuel IH]; intros b level bufs Hl Hb Sb Hnn Hsz Hok Hf; [lia|].
  assert (level < length bufs)%nat as Hlen by (apply lookup_lt_is_Some; unfold not_null in Hnn; destruct (bufs !! level); [by eexists|done]).
  cbn [RecursiveCollapse]. unfold CHECK. rewrite Hnn, Hsz, Hb, Z.eqb_refl, (proj2 (Nat.leb_le 1 level)), (proj2 (Nat.leb_le (level + 1) _)) by lia. rewrite !Nat.add_1_r.
  pose proof (EnsureBuffer_spec (S level) bufs) as (E1 & E2 & E3 & E4 & E5 & E6 & _). set (bufs1 := EnsureBuffer (S level) bufs) in *.
  rewrite E6. set (a := buf_at bufs level) in *. assert (Z.of_nat (length a) = k) as La by exact Hsz.
  destruct (Collapse_ok a b La Hb (proj1 (Hok level ltac:(lia))) Sb) as (r & Er & Lr & Sr & Hin & Hcnt). rewrite Er. cbn [mbind res_bind].
  set (bufs2 := <[level := Some []]> bufs1). assert (forall j, buf_at bufs2 j = if decide (level = j) then [] else buf_at bufs j) as B2.
  { intros j. unfold bufs2. rewrite buf_at_insert by lia. case_decide; [done|apply E6]. }
  assert (length bufs2 = length bufs1) as L2 by apply length_insert.
  assert (buf_size bufs2 (S level) = buf_size bufs (S level)) as -> by (unfold buf_size; rewrite B2, decide_False by lia; done).
  assert (forall bufs', entered (S level) r bufs2 bufs' -> entered level b bufs bufs') as Hup.
  { intros bufs' H. apply (entered_ensure level (S level)). fold bufs1. apply (entered_up level a b r); [done|lia|by rewrite E6|done..]. }
  assert (forall j, (level <= j)%nat -> level_ok bufs2 j) as Hok2.
  { intros j Hj. unfold level_ok, buf_size. rewrite B2. case_decide; [split; [constructor|by left]|by apply Hok]. }
  destruct (Z.eqb_spec (buf_size bufs (S level)) 0) as [H0|H0].
  - exists (<[S level := Some r]> bufs2). split; [done|]. rewrite length_insert. split; [lia|].
    assert (entered (S level) r bufs2 (<[S level := Some r]> bufs2)) as He.
    { apply entered_empty; [lia|done|]. rewrite B2, decide_False by lia. unfold buf_size in H0. destruct (buf_at bufs (S level)); [done|cbn in H0; lia]. }
    split; [|split; [|split; [|split; [|split; [|by apply Hup]]]]].
    + intros j Hj. rewrite list_lookup_insert_ne by lia. unfold bufs2. rewrite list_lookup_insert_ne by lia. apply E5; lia.
    + by rewrite buf_at_insert, decide_False, B2, decide_True by lia.
    + rewrite not_null_insert, decide_False by lia. unfold bufs2. by rewrite not_null_insert, decide_True by lia.
    + intros j Hj. specialize (Hok2 j Hj). unfold level_ok, buf_size in *. rewrite buf_at_insert by lia. case_decide; [cbn; auto|done].
    + unfold grown, buf_size. rewrite length_insert, L2. destruct (decide (S level < length bufs)%nat); [left; lia|right].
      split; [lia|]. rewrite buf_at_insert, decide_True by lia. done.
  - destruct (IH r (S level) bufs2) as (bufs' & E & G1 & G2 & G3 & G4 & G5 & G7 & G6); [lia|done|done|..].
    + unfold bufs2. by rewrite not_null_insert, decide_False by lia.
    + unfold buf_size. rewrite B2, decide_False by lia. destruct (Hok (S level) ltac:(lia)) as [_ [Hz|Hz]]; [|done].
      unfold buf_size in H0. by rewrite Hz in H0.
    + intros j Hj. apply Hok2. lia.
    + assert (S level < length bufs)%nat; [|lia]. apply lookup_lt_is_Some. unfold buf_size, buf_at in H0. destruct (bufs !! S level); [by eexists|done].
    + exists bufs'. split; [exact E|]. split; [lia|]. split; [|split; [|split; [|split; [|split; [|by apply Hup]]]]].
      * intros j Hj. rewrite G2 by lia. unfold bufs2. rewrite list_lookup_insert_ne by lia. apply E5; lia.
      * unfold buf_at. rewrite G2 by lia. exact (eq_trans (B2 level) (decide_True _ _ eq_refl)).
      * unfold not_null. rewrite G2 by lia. unfold bufs2. by rewrite list_lookup_insert_eq by lia.
      * intros j Hj. destruct (decide (j = level)) as [->|Hne]; [|apply G5; lia].
        unfold level_ok, buf_size, buf_at. rewrite G2 by lia. apply Hok2. lia.
      * destruct G7 as [G7|G7]; [|by right]. left. unfold buf_size, buf_at in H0. destruct (bufs !! S level) eqn:E'; [|done].
        apply lookup_lt_Some in E'. lia.
Qed.
(** *** Adding *)

(** [c] is counted in addition, at the cost of the error growing by what it may. *)
Definition counted (c : (bytes -> bool) -> Z) (d : Z) (bufs bufs' : Buffers) : Prop :=
  forall p, prefix_closed p -> weighed p bufs + c p <= weighed p bufs' <= weighed p bufs + c p + (error bufs' - error bufs - d).

Lemma counted_trans c c' d d' bufs bufs' bufs'' :
  counted c d bufs bufs' -> counted c' d' bufs' bufs'' -> counted (fun p => c p + c' p) (d + d') bufs bufs''.
Proof. intros H H' p Hp. specialize (H p Hp). specialize (H' p Hp). cbn. lia. Qed.

Lemma counted_ext c c' d d' bufs bufs' : (forall p, c p = c' p) -> d = d' -> counted c d bufs bufs' -> counted c' d' bufs bufs'.
Proof. intros Hc -> H p Hp. rewrite <- Hc. by apply H. Qed.

Lemma counted_ensure level bufs : counted (fun _ => 0) 0 bufs (EnsureBuffer level bufs).
Proof. intros p _. rewrite weighed_ensure, error_ensure. lia. Qed.

Lemma wt_leaf i : (i <= 1)%nat -> wt i = 1.
Proof. intros Hi. unfold wt. by rewrite (proj2 (Nat.leb_le i 1)). Qed.
Lemma err_leaf i b : (i <= 1)%nat -> level_err i b = 0.
Proof. intros Hi. destruct b; [done|]. cbn [level_err]. unfold err. by rewrite (proj2 (Nat.leb_le i 1)). Qed.

Lemma leaf_insert bufs i b : (i <= 1)%nat -> (i < length bufs)%nat ->
  (forall p, weighed p (<[i := Some b]> bufs) = weighed p bufs - cnt p (buf_at bufs i) + cnt p b) /\ error (<[i := Some b]> bufs) = error bufs.
Proof.
  intros Hi Hl. split; [intros p; rewrite weighed_insert, wt_leaf by done; lia|]. rewrite error_insert, !err_leaf by done. lia.
Qed.

Lemma not_null_full bufs j : 0 < buf_size bufs j -> not_null bufs j = true /\ (j < length bufs)%nat.
Proof.
  intros H. unfold buf_size, buf_at in H. unfold not_null. destruct (bufs !! j) as [[b|]|] eqn:E; try (cbn in H; lia).
  split; [done|by eapply lookup_lt_Some].
Qed.

Lemma all_in_insert P bufs i b : (i < length bufs)%nat -> Forall P b -> all_in P bufs -> all_in P (<[i := Some b]> bufs).
Proof. intros Hi Hb H j. rewrite buf_at_insert by done. case_decide; [done|apply H]. Qed.

Lemma level_ok_insert bufs i b j : (i < length bufs)%nat -> i <> j -> level_ok bufs j -> level_ok (<[i := b]> bufs) j.
Proof. intros Hi Hne H. unfold level_ok, buf_size. by rewrite buf_at_insert, decide_False. Qed.

Lemma collapse_leaves_ok bufs :
  buf_size bufs 0 = k -> buf_size bufs 1 = k -> (forall j, (2 <= j)%nat -> level_ok bufs j) -> exists bufs',
  collapse_leaves k bufs = Ok bufs' /\ buf_at bufs' 0 = [] /\ buf_at bufs' 1 = [] /\ (forall j, (2 <= j)%nat -> level_ok bufs' j)
  /\ (forall P, all_in P bufs -> all_in P bufs') /\ weighed all_strings bufs' = weighed all_strings bufs /\ grown bufs bufs'
  /\ counted (fun _ => 0) 0 bufs bufs'.
Proof.
  intros H0 H1 Hok. destruct (not_null_full bufs 0 ltac:(lia)) as [N0 L0], (not_null_full bufs 1 ltac:(lia)) as [N1 L1].
  unfold collapse_leaves, CHECK. rewrite N0, N1, H0, H1, Z.eqb_refl. set (leaf := sort_strings (buf_at bufs 0)).
  set (b1 := sort_strings (buf_at bufs 1)). set (bufs1 := <[0%nat := Some leaf]> bufs). set (bufs2 := <[1%nat := Some b1]> bufs1).
  assert (length bufs1 = length bufs) as Len1 by apply length_insert. assert (length bufs2 = length bufs) as Len2 by (unfold bufs2; by rewrite length_insert).
  pose proof (sort_strings_perm (buf_at bufs 0)) as P0. pose proof (sort_strings_perm (buf_at bufs 1)) as P1. fold leaf in P0. fold b1 in P1.
  destruct (leaf_insert bufs 0 leaf ltac:(lia) L0) as [W1 D1]. destruct (leaf_insert bufs1 1 b1 ltac:(lia) ltac:(lia)) as [W2 D2]. fold bufs1 in W1, D1. fold bufs2 in W2, D2.
  assert (forall j, buf_at bufs2 j = if decide (1%nat = j) then b1 else if decide (0%nat = j) then leaf else buf_at bufs j) as B2.
  { intros j. unfold bufs2. rewrite buf_at_insert by lia. case_decide; [done|]. unfold bufs1. by rewrite buf_at_insert by lia. }
  destruct (RecursiveCollapse_ok (S (length bufs2)) leaf 1 bufs2) as (bufs3 & E & G1 & G2 & G3 & G4 & G5 & G6 & HP & HT & HW).
  - done.
  - unfold buf_size in H0. by rewrite (Permutation_length P0).
  - apply sort_strings_sorted.
  - unfold bufs2. by rewrite not_null_insert by lia.
  - unfold buf_size in *. rewrite B2, decide_True by done. by rewrite (Permutation_length P1).
  - intros j Hj. destruct (decide (j = 1%nat)) as [->|Hne].
    + unfold level_ok, buf_size in *. rewrite B2, decide_True by done. split; [apply sort_strings_sorted|right]. by rewrite (Permutation_length P1).
    + unfold bufs2, bufs1. apply level_ok_insert; [rewrite length_insert; lia|lia|]. apply level_ok_insert; [lia|lia|apply Hok; lia].
  - lia.
  - rewrite E. cbn [mbind res_bind]. exists (<[0%nat := Some []]> bufs3). split; [done|].
    assert (buf_at bufs3 0 = leaf) as B30 by (unfold buf_at; rewrite G2 by lia; exact (B2 0%nat)).
    assert (buf_at bufs1 1 = buf_at bufs 1) as B11 by (unfold bufs1; by rewrite buf_at_insert by lia).
    destruct (leaf_insert bufs3 0 [] ltac:(lia) ltac:(lia)) as [W3 D3]. rewrite B30 in W3.
    split; [by rewrite buf_at_insert by lia|]. split; [by rewrite buf_at_insert by lia|]. split; [|split; [|split; [|split]]].
    + intros j Hj. apply level_ok_insert; [lia|lia|apply G5; lia].
    + intros P HPb. apply all_in_insert; [lia|constructor|]. apply HP; [rewrite P0; apply HPb|].
      apply all_in_insert; [lia|rewrite P1; apply HPb|]. apply all_in_insert; [lia|rewrite P0; apply HPb|done].
    + rewrite W3, HT, W2, W1. rewrite B11, (cnt_perm _ _ _ P0), (cnt_perm _ _ _ P1).
      change (cnt all_strings []) with 0. rewrite cnt_all, wt_leaf, <- (Permutation_length P0) by done. lia.
    + unfold grown, buf_size in *. rewrite length_insert. destruct G6 as [G6|[G6 G7]]; [left; lia|right]. split; [done|].
      by rewrite buf_at_insert, decide_False by lia.
    + intros p Hp. specialize (HW p Hp). rewrite W3, D3. rewrite W2, W1, D2, D1, B11, (cnt_perm _ _ _ P0), (cnt_perm _ _ _ P1) in HW. change (cnt p []) with 0.
      rewrite (wt_leaf 1), (cnt_perm _ _ _ P0) in * by lia. change (err 1) with 0 in HW. lia.
Qed.
End Tree.

(** ** Entries *)

Lemma sum_levels_nonneg f j bufs : (forall i b, 0 <= f i b) -> 0 <= sum_levels f j bufs.
Proof. intros Hf. revert j. induction bufs as [|b bufs IH]; intros j; cbn; [lia|]. specialize (Hf j (buf b)). specialize (IH (S j)). lia. Qed.

Lemma sum_levels_ge f j bufs i : (forall i b, 0 <= f i b) -> f (j + i)%nat (buf_at bufs i) <= sum_levels f j bufs \/ (length bufs <= i)%nat.
Proof.
  intros Hf. revert j i. induction bufs as [|b bufs IH]; intros j i; [right; cbn; lia|]. cbn [sum_levels length].
  pose proof (sum_levels_nonneg f (S j) bufs Hf). destruct i as [|i].
  - left. change (buf_at (b :: bufs) 0) with (buf b). rewrite Nat.add_0_r. lia.
  - change (buf_at (b :: bufs) (S i)) with (buf_at bufs i). destruct (IH (S j) i) as [H'|]; [left|right; lia].
    replace (j + S i)%nat with (S j + i)%nat by lia. specialize (Hf j (buf b)). lia.
Qed.

Lemma buf_at_beyond bufs i : (length bufs <= i)%nat -> buf_at bufs i = [].
Proof. intros Hi. unfold buf_at. by rewrite lookup_ge_None_2. Qed.

Lemma level_cnt_nonneg p i b : 0 <= level_cnt p i b.
Proof. unfold level_cnt. pose proof (wt_pos i). pose proof (cnt_range p b). nia. Qed.

Lemma buf_size_weighed bufs j : wt j * buf_size bufs j <= weighed all_strings bufs.
Proof.
  unfold weighed. destruct (sum_levels_ge (level_cnt all_strings) 0 bufs j (level_cnt_nonneg _)) as [H|H].
  - unfold level_cnt in H at 1. by rewrite cnt_all in H.
  - unfold buf_size. rewrite buf_at_beyond by done. cbn [length]. rewrite Z.mul_0_r. apply sum_levels_nonneg, level_cnt_nonneg.
Qed.

Lemma empty_buffers bufs j : weighed all_strings bufs = 0 -> buf_at bufs j = [].
Proof.
  intros H. pose proof (buf_size_weighed bufs j) as Hj. rewrite H in Hj. pose proof (wt_pos j). unfold buf_size in Hj.
  destruct (buf_at bufs j); [done|]. cbn [length] in Hj. nia.
Qed.

Lemma upper_levels k j bufs : (2 <= j)%nat -> (forall i, buf_at bufs i = [] \/ buf_size bufs i = k) ->
  exists m, 0 <= m /\ sum_levels (level_cnt all_strings) j bufs = 2 * k * m.
Proof.
  revert j. induction bufs as [|b bufs IH]; intros j Hj Hok; [exists 0; cbn; lia|].
  destruct (IH (S j)) as (m & Hm & E); [lia|intros i; exact (Hok (S i))|]. cbn [sum_levels]. rewrite E. unfold level_cnt. rewrite cnt_all by done.
  assert (wt j = 2 * 2 ^ (Z.of_nat j - 2)) as ->.
  { unfold wt. rewrite (proj2 (Nat.leb_gt j 1)), <- Z.pow_succ_r by lia. f_equal. lia. }
  assert (0 < 2 ^ (Z.of_nat j - 2)) by (apply Z.pow_pos_nonneg; lia).
  destruct (Hok 0%nat) as [H0|H0]; unfold buf_size in H0; change (buf_at (b :: bufs) 0) with (buf b) in H0.
  - rewrite H0. exists m. cbn [length]. lia.
  - rewrite H0. exists (m + 2 ^ (Z.of_nat j - 2)). lia.
Qed.

Lemma total_leaves k bufs : (forall j, (2 <= j)%nat -> level_ok k bufs j) ->
  exists m, 0 <= m /\ weighed all_strings bufs = buf_size bufs 0 + buf_size bufs 1 + 2 * k * m.
Proof.
  intros Hok. destruct bufs as [|b0 [|b1 bufs]]; [exists 0; by rewrite Z.mul_0_r| |].
  - exists 0. split; [done|]. unfold weighed, level_cnt. cbn [sum_levels]. rewrite cnt_all by done. change (wt 0) with 1.
    change (buf_size [b0] 0) with (Z.of_nat (length (buf b0))). change (buf_size [b0] 1) with 0. lia.
  - destruct (upper_levels k 2 bufs) as (m & Hm & E); [lia|intros i; exact (proj2 (Hok (S (S i)) ltac:(lia)))|]. exists m. split; [done|].
    unfold weighed. cbn [sum_levels]. rewrite E. unfold level_cnt. rewrite !cnt_all by done. change (wt 0) with 1. change (wt 1) with 1.
    change (buf_size (b0 :: b1 :: bufs) 0) with (Z.of_nat (length (buf b0))). change (buf_size (b0 :: b1 :: bufs) 1) with (Z.of_nat (length (buf b1))). lia.
Qed.

Section Entries.
Context (ops : SzlOps) (memory_change : SzlQuantileEntry -> SzlQuantileEntry -> Z).
Context (k n : Z) (Hk : 0 < k < 2 ^ 62) (Hn : 2 <= n < 2 ^ 31).
Implicit Types (e : SzlQuantileEntry) (l : list bytes) (x : bytes).
#[local] Abbreviation elem_ok := (skippable (ops_Skip ops)).

Definition within (lo hi x : bytes) : Prop := elem_ok x /\ str_le lo x /\ str_le x hi.

Record q_inv e : Prop := {
  qi_k : k_ e = k;
  qi_n : num_quantiles_ e = n;
  qi_leaf0 : buf_size (buffer_ e) 0 <= k;
  qi_leaf1 : buf_size (buffer_ e) 1 <= k;
  qi_levels : forall j, (2 <= j)%nat -> level_ok k (buffer_ e) j;
  qi_tot : q_tot e = weighed all_strings (buffer_ e);
  qi_leaves : 0 < q_tot e -> 0 < buf_size (buffer_ e) 0 + buf_size (buffer_ e) 1;
  qi_in : all_in (within (min_ e) (max_ e)) (buffer_ e);
  qi_bounds : 0 < q_tot e -> elem_ok (min_ e) /\ elem_ok (max_ e);
  qi_range : 0 <= q_tot e < 2 ^ 62;
  qi_height : (length (buffer_ e) <= 64)%nat;
}.

Lemma height_ok bufs bufs' : (length bufs <= 64)%nat -> grown k bufs bufs' -> weighed all_strings bufs' < 2 ^ 62 -> (length bufs' <= 64)%nat.
Proof.
  intros Hl [Hg|[Hg Hs]] Hw; [lia|]. pose proof (buf_size_weighed bufs' (length bufs' - 1)) as H. rewrite Hs in H. unfold wt in H.
  rewrite (proj2 (Nat.leb_gt _ 1)) in H by lia. set (x := Z.of_nat (length bufs' - 1) - 1) in *. assert (x < 62); [|lia].
  assert (0 < 2 ^ x) by (apply Z.pow_pos_nonneg; lia). apply (Z.pow_lt_mono_r_iff 2); [lia|lia|]. nia.
Qed.

(** The leaves after the collapse, if there was one. *)
Lemma collapse_if_full e : q_inv e -> exists bufs,
  (if (0 <? q_tot e) && (Z.rem (q_tot e) (2 * k_ e) =? 0) then collapse_leaves (k_ e) (buffer_ e) else Ok (buffer_ e)) = Ok bufs
  /\ buf_size bufs 0 <= k /\ buf_size bufs 1 <= k /\ buf_size bufs 0 + buf_size bufs 1 < 2 * k
  /\ (forall j, (2 <= j)%nat -> level_ok k bufs j) /\ (forall P, all_in P (buffer_ e) -> all_in P bufs)
  /\ weighed all_strings bufs = weighed all_strings (buffer_ e) /\ grown k (buffer_ e) bufs /\ counted (fun _ => 0) 0 (buffer_ e) bufs.
Proof.
  intros [-> _ H0 H1 Hl Ht Hlv _ _ Hr _]. rewrite Z.rem_mod_nonneg by lia. destruct (total_leaves k (buffer_ e) Hl) as (m & Hm & E).
  assert (0 <= buf_size (buffer_ e) 0 /\ 0 <= buf_size (buffer_ e) 1) as [P0 P1] by (unfold buf_size; lia).
  set (a := buf_size (buffer_ e) 0) in *. set (b := buf_size (buffer_ e) 1) in *. rewrite Ht, E in *.
  assert ((a + b + 2 * k * m) mod (2 * k) = (a + b) mod (2 * k)) as -> by (rewrite Z.mul_comm; apply Z.mod_add; lia).
  destruct (Z.ltb_spec 0 (a + b + 2 * k * m)) as [Hp|Hp]; cbn [andb];
    [destruct (Z.eqb_spec ((a + b) mod (2 * k)) 0) as [Hz|Hz]|].
  - assert (a + b = 2 * k) as Hab.
    { specialize (Hlv Hp). apply Z.mod_divide in Hz as [q Hq]; [|lia]. assert (q = 1) as ->; [|lia]. clear -Hq Hlv H0 H1 Hk. nia. }
    destruct (collapse_leaves_ok k ltac:(lia) (buffer_ e)) as (bufs & Eb & B0 & B1 & G1 & G2 & G3 & G5 & G4); [lia|lia|done|].
    exists bufs. unfold buf_size. rewrite B0, B1. cbn [length]. split; [done|]. split; [lia|]. split; [lia|]. split; [lia|].
    split; [done|]. split; [done|]. split; [congruence|]. split; [done|done].
  - exists (buffer_ e). split; [done|]. split; [done|]. split; [done|]. split.
    { assert (a + b <> 2 * k); [|fold a b; lia]. intros Hab. rewrite Hab, Z.mod_same in Hz; lia. }
    split; [done|]. split; [done|]. split; [done|]. split; [by left|]. intros p _. lia.
  - exists (buffer_ e). split; [done|]. split; [done|]. split; [done|]. split; [fold a b; nia|].
    split; [done|]. split; [done|]. split; [done|]. split; [by left|]. intros p _. lia.
Qed.

Lemma str_min_le (b : bool) lo m : let r := if b || str_ltb lo m then lo else m in str_le r lo /\ (b = false -> str_le r m).
Proof.
  cbn. destruct b; cbn [orb]; [done|]. destruct (str_ltb lo m) eqn:E.
  - split; [done|]. intros _. apply str_ltb_lt in E. unfold str_le. congruence.
  - apply str_ltb_false in E. done.
Qed.
Lemma str_max_le (b : bool) hi m : let r := if b || str_ltb m hi then hi else m in str_le hi r /\ (b = false -> str_le m r).
Proof.
  cbn. destruct b; cbn [orb]; [done|]. destruct (str_ltb m hi) eqn:E.
  - split; [done|]. intros _. apply str_ltb_lt in E. unfold str_le. congruence.
  - apply str_ltb_false in E. done.
Qed.

(** Wider bounds, or the first ones. *)
Lemma bounded_by_ok lo hi e : q_inv e -> elem_ok lo -> elem_ok hi ->
  q_inv (bounded_by lo hi e) /\ str_le (min_ (bounded_by lo hi e)) lo /\ str_le hi (max_ (bounded_by lo hi e)).
Proof.
  intros [I1 I2 I3 I4 I5 I6 I7 I8 I9 I10 I11] Hlo Hhi.
  destruct (str_min_le (q_tot e =? 0) lo (min_ e)) as [M1 M2]. destruct (str_max_le (q_tot e =? 0) hi (max_ e)) as [X1 X2].
  split; [|done]. unfold bounded_by. split; cbn [k_ num_quantiles_ buffer_ q_tot min_ max_ set_bounds]; try done.
  - intros j. destruct (Z.eqb_spec (q_tot e) 0) as [E|E].
    + rewrite empty_buffers by congruence. constructor.
    + eapply Forall_impl; [apply (I8 j)|]. intros y (Hy & H1 & H2).
      split; [done|]. split; [etrans; [exact (M2 eq_refl)|done]|etrans; [done|exact (X2 eq_refl)]].
  - intros Hp. specialize (I9 Hp) as [? ?]. split; match goal with |- elem_ok (if ?b then _ else _) => by destruct b end.
Qed.

Lemma bounded_by_elems lo hi e : q_inv e -> elem_ok lo -> elem_ok hi -> elem_ok (min_ (bounded_by lo hi e)) /\ elem_ok (max_ (bounded_by lo hi e)).
Proof.
  intros [_ _ _ _ _ _ _ _ I9 [I10 _] _] Hlo Hhi. unfold bounded_by. cbn [min_ max_ set_bounds].
  destruct (Z.eqb_spec (q_tot e) 0); cbn [orb]; [done|]. destruct (I9 ltac:(lia)). split; match goal with |- elem_ok (if ?b then _ else _) => by destruct b end.
Qed.

Lemma bounded_by_id x e : q_tot e <> 0 -> str_le (min_ e) x -> str_le x (max_ e) -> bounded_by x x e = e.
Proof.
  intros Ht H1 H2. unfold bounded_by. rewrite (proj2 (Z.eqb_neq _ 0)) by done. apply str_ltb_false in H1, H2. rewrite H1, H2. by destruct e.
Qed.

Lemma push_back_ok idx x bufs : (idx <= 1)%nat -> (idx < length bufs)%nat ->
  let bufs' := push_back_buf x idx bufs in
  (forall j, buf_at bufs' j = if decide (idx = j) then buf_at bufs idx ++ [x] else buf_at bufs j)
  /\ (forall p, weighed p bufs' = weighed p bufs + Z.b2z (p x)) /\ error bufs' = error bufs.
Proof.
  intros Hi Hl bufs'. destruct (leaf_insert bufs idx (buf_at bufs idx ++ [x]) Hi Hl) as [W D]. split; [|split; [|done]].
  - intros j. unfold bufs', push_back_buf. by rewrite buf_at_insert.
  - intros p. unfold bufs', push_back_buf. rewrite W, cnt_app, cnt_cons. change (cnt p []) with 0. lia.
Qed.

Lemma q_AddElem_ok x e :
  q_inv e -> elem_ok x -> q_tot e + 1 < 2 ^ 62 -> exists z e',
  q_AddElem memory_change x e = Ok (z, e') /\ q_inv e' /\ q_tot e' = q_tot e + 1
  /\ min_ e' = min_ (bounded_by x x e) /\ max_ e' = max_ (bounded_by x x e)
  /\ counted (fun p => Z.b2z (p x)) 0 (buffer_ e) (buffer_ e').
Proof.
  intros Hinv Hx Ht. destruct (bounded_by_ok x x e Hinv Hx Hx) as (Hinv1 & Hlo & Hhi). unfold q_AddElem.
  set (e1 := bounded_by x x e) in *. assert (buffer_ e1 = buffer_ e /\ q_tot e1 = q_tot e) as [Eb Et] by done.
  destruct (collapse_if_full e1 Hinv1) as (bufs1 & -> & G0 & G1 & G01 & Gl & GP & GT & Gh & Gc). cbn [mbind res_bind].
  pose proof (EnsureBuffer_spec 0 bufs1) as (L1 & _ & _ & L3 & _ & B1 & _). pose proof (EnsureBuffer_spec 1 (EnsureBuffer 0 bufs1)) as (_ & L2 & _ & L4 & _ & B2 & _).
  set (bufs2 := EnsureBuffer 1 (EnsureBuffer 0 bufs1)) in *. assert (forall j, buf_at bufs2 j = buf_at bufs1 j) as B by (intros j; by rewrite B2, B1).
  assert (forall p, weighed p bufs2 = weighed p bufs1) as W2 by (intros p; unfold bufs2; by rewrite !weighed_ensure).
  assert (error bufs2 = error bufs1) as D2 by (unfold bufs2; by rewrite !error_ensure).
  pose proof Hinv1 as [I1 I2 I3 I4 I5 I6 I7 I8 I9 I10 I11]. rewrite I1.
  assert (buf_size bufs2 0 = buf_size bufs1 0) as -> by (unfold buf_size; by rewrite B).
  set (idx := if buf_size bufs1 0 <? k then 0%nat else 1%nat). assert (idx <= 1)%nat as Hi by (unfold idx; destruct (_ <? _); lia).
  assert (buf_size bufs1 idx < k) as Hroom by (unfold idx; destruct (Z.ltb_spec (buf_size bufs1 0) k); lia).
  destruct (push_back_ok idx x bufs2 Hi ltac:(lia)) as (PB & PW & PD). set (bufs3 := push_back_buf x idx bufs2) in *.
  assert (forall j, buf_size bufs3 j = buf_size bufs1 j + (if decide (idx = j) then 1 else 0)) as PS.
  { intros j. unfold buf_size. rewrite PB. case_decide as E; [subst j; rewrite B, length_app; cbn; lia|rewrite B; lia]. }
  eexists _, (set_qtot (q_tot e + 1) (set_buffer bufs3 e1)). rewrite Et, s64_id by (unfold is_s64; lia). split; [reflexivity|].
  cbn [q_tot set_qtot set_buffer buffer_ min_ max_]. split; [|split; [done|split; [done|split; [done|]]]].
  - split; cbn [k_ num_quantiles_ buffer_ q_tot min_ max_ set_qtot set_buffer]; try done.
    + rewrite PS. destruct (decide (idx = 0%nat)) as [E|]; [rewrite <- E|]; lia.
    + rewrite PS. destruct (decide (idx = 1%nat)) as [E|]; [rewrite <- E|]; lia.
    + intros j Hj. specialize (Gl j Hj). unfold level_ok in *. rewrite PS, PB, !decide_False, B, Z.add_0_r by lia. done.
    + rewrite PW, W2, GT, <- I6. cbn [Z.b2z]. lia.
    + intros _. rewrite !PS. assert (0 <= buf_size bufs1 0 /\ 0 <= buf_size bufs1 1) as [? ?] by (unfold buf_size; lia).
      destruct (decide (idx = 0%nat)), (decide (idx = 1%nat)); lia.
    + intros j. rewrite PB. case_decide; rewrite B; [|by apply GP]. apply Forall_app. split; [by apply GP|]. by apply Forall_singleton.
    + intros _. by apply bounded_by_elems.
    + lia.
    + unfold bufs3, push_back_buf. rewrite length_insert. pose proof (height_ok _ _ I11 Gh ltac:(lia)). lia.
  - rewrite <- Eb. intros p Hp. specialize (Gc p Hp). cbn beta in Gc |- *. rewrite PW, W2, PD, D2. lia.
Qed.

(** *** Flushed strings *)

Definition buffer_code (b : option (list bytes)) : bytes := enc_prim (PInt (Z.of_nat (length (buf b)))) ++ concat (buf b).
Definition body_code e : bytes :=
  if 0 <? q_tot e then min_ e ++ max_ e ++ concat (map buffer_code (buffer_ e)) else [].
Definition q_msg e : bytes :=
  enc_prim (PInt (q_tot e)) ++ enc_prim (PInt n) ++ enc_prim (PFloat 0) ++ enc_prim (PInt k)
  ++ enc_prim (PInt (Z.of_nat (length (buffer_ e)))) ++ body_code e.

Lemma append_all l enc : fold_left AppendEncoding l enc = AppendEncoding enc (concat l).
Proof.
  revert enc. induction l as [|x l IH]; intros enc; cbn [fold_left concat]; [by destruct enc as [v d]; unfold AppendEncoding; cbn; rewrite app_nil_r|].
  by rewrite IH, AppendEncoding_app.
Qed.

Lemma put_buffers bufs enc :
  (forall j, buf_size bufs j < 2 ^ 63) -> fold_left put_buffer bufs enc = AppendEncoding enc (concat (map buffer_code bufs)).
Proof.
  revert enc. induction bufs as [|b bufs IH]; intros enc Hs; cbn [fold_left map concat]; [exact (append_all [] enc)|].
  rewrite IH by (intros j; exact (Hs (S j))). specialize (Hs 0%nat). unfold buf_size in Hs. change (buf_at (b :: bufs) 0) with (buf b) in Hs.
  assert (put_buffer enc b = AppendEncoding enc (buffer_code b)) as ->; [|by rewrite AppendEncoding_app].
  unfold buffer_code. destruct b as [l|]; cbn [put_buffer buf default].
  - rewrite append_all, PutInt_enc by (unfold is_s64; cbn in Hs; lia). by rewrite AppendEncoding_app.
  - rewrite PutInt_enc by (unfold is_s64; lia). cbn [length concat]. by rewrite app_nil_r.
Qed.

Lemma size_bound e j : q_inv e -> buf_size (buffer_ e) j < 2 ^ 62.
Proof.
  intros [_ _ _ _ _ Ht _ _ _ Hr _]. pose proof (buf_size_weighed (buffer_ e) j) as H. pose proof (wt_pos j).
  assert (0 <= buf_size (buffer_ e) j) by (unfold buf_size; lia). nia.
Qed.

Lemma q_Flush_msg e : q_inv e -> q_Flush e = Ok (q_msg e, q_Clear e).
Proof.
  intros Hinv. pose proof Hinv as [I1 I2 _ _ _ _ _ _ _ I10 I11]. unfold q_Flush. rewrite I1, I2.
  pose proof (put_prim_spec (PutInt (PutInt enc_new (q_tot e)) n) (PFloat 0) ltac:(cbn; unfold is_u64; lia)) as Ef. cbn [put_prim] in Ef.
  rewrite Ef. cbn [mbind res_bind]. rewrite !PutInt_enc, put_buffers by ((unfold is_s64; lia) || (intros j; pose proof (size_bound e j Hinv); lia)).
  unfold q_msg, body_code. rewrite !AppendEncoding_app. destruct (0 <? q_tot e); cbn [enc_Swap fst AppendEncoding data_ enc_new app];
    rewrite ?app_nil_r, <- ?app_assoc; done.
Qed.

Lemma GetFloat_zero s rest : bytes_ok rest -> GetFloat (MkDec s (enc_prim (PFloat 0) ++ rest)) = Some (0, MkDec s rest).
Proof.
  intros Hr. pose proof (get_prim_spec s (PFloat 0) rest ltac:(cbn; unfold is_u64; lia) Hr) as E.
  cbn [get_prim prim_kind norm_prim Z.eqb] in E. destruct (GetFloat _) as [[? ?]|]; [|done]. by injection E as -> ->.
Qed.

Lemma EncodingToString_ok s x rest : elem_ok x -> bytes_ok rest -> EncodingToString ops (MkDec s (x ++ rest)) = Some (x, MkDec s rest).
Proof. intros [Hx Hs] Hr. unfold EncodingToString. rewrite Hs by done. cbn [mbind option_bind]. by rewrite between_app. Qed.

Lemma read_strings_ok s l rest : Forall elem_ok l -> bytes_ok rest ->
  read_strings ops (length l) (MkDec s (concat l ++ rest)) = (l, Some (MkDec s rest)).
Proof.
  intros Hl Hr. induction Hl as [|x l Hx Hl IH]; [done|]. cbn [length read_strings concat]. rewrite <- app_assoc, EncodingToString_ok.
  - by rewrite IH.
  - done.
  - apply Forall_app. split; [by apply (skippable_concat_ok (ops_Skip ops))|done].
Qed.

(** *** Merging *)

Abbreviation inside e l := (Forall (within (min_ e) (max_ e)) l).

Lemma q_adds_ok xs e :
  q_inv e -> 0 < q_tot e -> inside e xs -> q_tot e + Z.of_nat (length xs) < 2 ^ 62 -> exists e',
  q_adds memory_change xs e = Ok e' /\ q_inv e' /\ q_tot e' = q_tot e + Z.of_nat (length xs) /\ min_ e' = min_ e /\ max_ e' = max_ e
  /\ counted (fun p => cnt p xs) 0 (buffer_ e) (buffer_ e').
Proof.
  revert e. induction xs as [|x xs IH]; intros e Hinv Hpos Hin Ht.
  { exists e. cbn [length] in *. rewrite Z.add_0_r in *. repeat (split; [done|]). intros p _. change (cnt p []) with 0. lia. }
  cbn [length] in Ht. apply Forall_cons in Hin as [(Hx & Hlo & Hhi) Hin].
  destruct (q_AddElem_ok x e Hinv Hx ltac:(lia)) as (z & e1 & E1 & I1 & T1 & M1 & X1 & C1). rewrite bounded_by_id in M1, X1 by (done || lia).
  destruct (IH e1 I1 ltac:(lia)) as (e2 & E2 & I2 & T2 & M2 & X2 & C2); [by rewrite M1, X1|lia|].
  exists e2. cbn [q_adds]. rewrite E1. cbn [mbind res_bind]. split; [done|]. split; [done|]. cbn [length]. split; [lia|].
  split; [congruence|]. split; [congruence|].
  refine (counted_ext _ _ _ _ _ _ (fun p => eq_sym (cnt_cons p x xs)) _ (counted_trans _ _ _ _ _ _ _ C1 C2)). lia.
Qed.

(** What may stand at a level of a message. *)
Definition level_fits (j : nat) (c : list bytes) : Prop :=
  Z.of_nat (length c) <= k /\ ((2 <= j)%nat -> StronglySorted str_le c /\ (c = [] \/ Z.of_nat (length c) = k)).

(** A buffer of a message that is not empty. *)
Definition enter (j : nat) (c : list bytes) e : res SzlQuantileEntry :=
  let e := set_buffer (EnsureBuffer j (buffer_ e)) e in
  let direct := buf_size (buffer_ e) j =? 0 in
  enter_buffer memory_change direct j c (if direct then set_buffer (<[j := Some c]> (buffer_ e)) e else e).

Lemma level_bound j (c : list bytes) t : 0 <= t -> t + wt j * Z.of_nat (length c) < 2 ^ 62 -> c <> [] -> (j <= 62)%nat.
Proof.
  intros Ht Hw Hc. destruct c as [|x c]; [done|]. cbn [length] in Hw. pose proof (wt_pos j). unfold wt in *. destruct (Nat.leb_spec j 1); [lia|].
  assert (Z.of_nat j - 1 < 62); [|lia]. apply (Z.pow_lt_mono_r_iff 2); [lia|lia|]. nia.
Qed.

Lemma ensure_inv j e : q_inv e -> (j <= 63)%nat -> q_inv (set_buffer (EnsureBuffer j (buffer_ e)) e).
Proof.
  intros [I1 I2 I3 I4 I5 I6 I7 I8 I9 I10 I11] Hj. pose proof (EnsureBuffer_spec j (buffer_ e)) as (_ & _ & _ & E4 & _ & E6 & _).
  split; cbn [k_ num_quantiles_ buffer_ q_tot min_ max_ set_buffer]; unfold buf_size, level_ok, buf_size, all_in in *;
    try setoid_rewrite E6; try done; [by rewrite weighed_ensure|lia].
Qed.

Lemma set_leaf_inv j c e t : (j <= 1)%nat -> (j < length (buffer_ e))%nat -> buf_at (buffer_ e) j = [] ->
  q_inv e -> c <> [] -> Z.of_nat (length c) <= k -> inside e c -> t = q_tot e + Z.of_nat (length c) -> t < 2 ^ 62 ->
  (0 < t -> elem_ok (min_ e) /\ elem_ok (max_ e)) ->
  q_inv (set_qtot t (set_buffer (<[j := Some c]> (buffer_ e)) e)).
Proof.
  intros Hj Hl Hz [I1 I2 I3 I4 I5 I6 I7 I8 I9 I10 I11] Hc Hck Hin Ht Hlt Hb.
  assert (forall i, buf_at (<[j := Some c]> (buffer_ e)) i = if decide (j = i) then c else buf_at (buffer_ e) i) as B by (intros i; by rewrite buf_at_insert).
  assert (0 < Z.of_nat (length c)) as Hpos by (destruct c; [done|cbn; lia]).
  split; cbn [k_ num_quantiles_ buffer_ q_tot min_ max_ set_buffer set_qtot]; try done.
  - unfold buf_size in *. rewrite B. case_decide; lia.
  - unfold buf_size in *. rewrite B. case_decide; lia.
  - intros i Hi. apply level_ok_insert; [done|lia|by apply I5].
  - destruct (leaf_insert (buffer_ e) j c Hj Hl) as [-> _]. rewrite Hz. change (cnt all_strings []) with 0. rewrite cnt_all by done. lia.
  - intros _. unfold buf_size. rewrite !B. destruct (decide (j = 0%nat)), (decide (j = 1%nat)); lia.
  - by apply all_in_insert.
  - lia.
  - by rewrite length_insert.
Qed.

Lemma set_upper_inv j e bufs t : (2 <= j)%nat -> q_inv e -> t = weighed all_strings bufs -> 0 < q_tot e <= t -> t < 2 ^ 62 ->
  (forall i, (i < j)%nat -> buf_at bufs i = buf_at (buffer_ e) i) -> (forall i, (j <= i)%nat -> level_ok k bufs i) ->
  all_in (within (min_ e) (max_ e)) bufs -> (length bufs <= 64)%nat -> q_inv (set_qtot t (set_buffer bufs e)).
Proof.
  intros Hj [I1 I2 I3 I4 I5 I6 I7 I8 I9 I10 I11] Ht Hp Hlt Hlow Hup Hin Hlen.
  split; cbn [k_ num_quantiles_ buffer_ q_tot min_ max_ set_buffer set_qtot]; try done; unfold buf_size in *; rewrite ?Hlow by lia; try done.
  - intros i Hi. destruct (decide (i < j)%nat); [|apply Hup; lia]. unfold level_ok, buf_size. rewrite Hlow by lia. by apply I5.
  - intros _. apply I7. lia.
  - intros _. apply I9. lia.
  - lia.
Qed.

(** [e'] is [e] with [c] entered at level [j]. *)
Definition took (j : nat) (c : list bytes) e e' : Prop :=
  q_inv e' /\ q_tot e' = q_tot e + wt j * Z.of_nat (length c) /\ min_ e' = min_ e /\ max_ e' = max_ e
  /\ counted (fun p => wt j * cnt p c) (level_err j c) (buffer_ e) (buffer_ e').

Lemma took_ensured j c e e' : took j c (set_buffer (EnsureBuffer j (buffer_ e)) e) e' -> took j c e e'.
Proof.
  intros (H1 & H2 & H3 & H4 & H5). split; [done|]. split; [done|]. split; [done|]. split; [done|]. intros p Hp. specialize (H5 p Hp).
  cbn [buffer_ set_buffer] in H5. by rewrite weighed_ensure, error_ensure in H5.
Qed.

Lemma take_upper_empty j c e : let t := q_tot e + wt j * k in
  (2 <= j)%nat -> (j < length (buffer_ e))%nat -> buf_at (buffer_ e) j = [] -> q_inv e -> Z.of_nat (length c) = k -> StronglySorted str_le c ->
  inside e c -> 0 < q_tot e -> t < 2 ^ 62 -> took j c e (set_qtot t (set_buffer (<[j := Some c]> (buffer_ e)) e)).
Proof.
  intros t H2 Hl Hz Hinv Lc Sc Hin Hp Ht. pose proof (wt_pos j) as Hw. pose proof (qi_levels _ Hinv) as Hlev.
  destruct (entered_empty k ltac:(lia) j c (buffer_ e) Hl Lc Hz) as (EP & ET & EW). unfold took. rewrite Lc.
  split; [|split; [done|split; [done|split; [done|]]]].
  - apply (set_upper_inv j); [done|done| |unfold t; nia|done| | | |].
    + by rewrite ET, Lc, <- (qi_tot _ Hinv).
    + intros i Hi. by rewrite buf_at_insert, decide_False by lia.
    + intros i Hi. destruct (decide (j = i)) as [<-|]; [|apply level_ok_insert; [done|done|apply Hlev; lia]].
      unfold level_ok, buf_size. rewrite buf_at_insert, decide_True by done. auto.
    + apply EP; [done|]. apply (qi_in _ Hinv).
    + rewrite length_insert. apply (qi_height _ Hinv).
  - intros p Hpc. specialize (EW p Hpc). cbn [buffer_ set_qtot set_buffer]. rewrite (level_err_full k) by (done || lia). lia.
Qed.

Lemma take_upper_full j c e : let t := q_tot e + wt j * k in
  (2 <= j)%nat -> (j < length (buffer_ e))%nat -> not_null (buffer_ e) j = true -> buf_size (buffer_ e) j <> 0 -> q_inv e ->
  Z.of_nat (length c) = k -> StronglySorted str_le c -> inside e c -> 0 < q_tot e -> t < 2 ^ 62 ->
  exists bufs, RecursiveCollapse k (S (length (buffer_ e))) c j (buffer_ e) = Ok bufs /\ took j c e (set_qtot t (set_buffer bufs e)).
Proof.
  intros t H2 Hl Hnn H0 Hinv Lc Sc Hin Hp Ht. pose proof (wt_pos j) as Hw. pose proof (qi_levels _ Hinv) as Hlev.
  destruct (RecursiveCollapse_ok k ltac:(lia) (S (length (buffer_ e))) c j (buffer_ e)) as (bufs & E & G1 & G2 & G3 & G4 & G5 & G6 & EP & ET & EW);
    [lia|done|done|done| |intros i Hi; apply Hlev; lia|lia|].
  { destruct (Hlev j H2) as [_ [Hz|]]; [|done]. unfold buf_size in H0. by rewrite Hz in H0. }
  exists bufs. split; [exact E|]. unfold took. rewrite Lc in *. rewrite <- (qi_tot _ Hinv) in ET.
  split; [|split; [done|split; [done|split; [done|]]]].
  - apply (set_upper_inv j); [done|done|done|unfold t; nia|done| |done| |].
    + intros i Hi. unfold buf_at. by rewrite G2.
    + apply EP; [done|]. apply (qi_in _ Hinv).
    + apply (height_ok (buffer_ e)); [apply (qi_height _ Hinv)|done|]. by rewrite ET.
  - intros p Hpc. specialize (EW p Hpc). cbn [buffer_ set_qtot set_buffer]. rewrite (level_err_full k) by (done || lia). lia.
Qed.

Lemma take_leaf j c e : let t := q_tot e + Z.of_nat (length c) in
  (j <= 1)%nat -> (j < length (buffer_ e))%nat -> buf_at (buffer_ e) j = [] -> q_inv e -> c <> [] -> Z.of_nat (length c) <= k -> inside e c ->
  t < 2 ^ 62 -> elem_ok (min_ e) /\ elem_ok (max_ e) -> took j c e (set_qtot t (set_buffer (<[j := Some c]> (buffer_ e)) e)).
Proof.
  intros t Hj Hl Hz Hinv Hc Hck Hin Ht Hb. unfold took. rewrite wt_leaf, Z.mul_1_l by done. split; [|split; [done|split; [done|split; [done|]]]].
  - by apply set_leaf_inv.
  - intros p Hp. cbn [buffer_ set_qtot set_buffer]. destruct (leaf_insert (buffer_ e) j c Hj Hl) as [-> ->].
    rewrite Hz, err_leaf by done. change (cnt p []) with 0. lia.
Qed.

Lemma no_strings bufs j : buf_size bufs j = 0 -> buf_at bufs j = [].
Proof. intros H. unfold buf_size in H. destruct (buf_at bufs j); [done|cbn in H; lia]. Qed.

Lemma enter_ok j c e :
  q_inv e -> level_fits j c -> c <> [] -> inside e c -> q_tot e + wt j * Z.of_nat (length c) < 2 ^ 62 -> ((2 <= j)%nat -> 0 < q_tot e) ->
  elem_ok (min_ e) /\ elem_ok (max_ e) -> exists e', enter j c e = Ok e' /\ took j c e e'.
Proof.
  intros Hinv [Hck Hup] Hc Hin Ht Hj Hbounds. pose proof (level_bound j c (q_tot e) ltac:(apply Hinv) Ht Hc) as Hj62.
  pose proof (ensure_inv j e Hinv ltac:(lia)) as Hinv1. unfold enter, enter_buffer. pose proof (EnsureBuffer_spec j (buffer_ e)) as (_ & L1 & N1 & _).
  set (e1 := set_buffer (EnsureBuffer j (buffer_ e)) e) in *. change (EnsureBuffer j (buffer_ e)) with (buffer_ e1) in L1, N1 |- *.
  assert (forall r : res SzlQuantileEntry, (exists e', r = Ok e' /\ took j c e1 e') -> exists e', r = Ok e' /\ took j c e e') as Hup1.
  { intros r (e' & Er & Htook). exists e'. split; [done|by apply took_ensured]. }
  apply Hup1. assert (k_ e = k) as Hek by apply Hinv. assert (0 <= q_tot e) as Ht0 by apply Hinv. pose proof (wt_pos j) as Hw.
  destruct (Nat.leb_spec 2 j) as [H2|H2].
  - destruct (Hup H2) as [Sc [->|Lc]]; [done|]. specialize (Hj H2). rewrite Lc in Ht.
    assert (s64 (q_tot e + s64 (k * Z.shiftl 1 (Z.of_nat j - 1))) = q_tot e + wt j * k) as Etot.
    { rewrite Z.shiftl_1_l. assert (wt j = 2 ^ (Z.of_nat j - 1)) as <- by (unfold wt; by rewrite (proj2 (Nat.leb_gt j 1)) by lia).
      rewrite (s64_id (k * _)), s64_id by (unfold is_s64; nia). lia. }
    destruct (Z.eqb_spec (buf_size (buffer_ e1) j) 0) as [H0|H0].
    + eexists. split; [cbn; by rewrite Hek, Etot|]. apply (take_upper_empty j c e1); try done. by apply no_strings.
    + destruct (take_upper_full j c e1) as (bufs & E & Htook); try done. eexists. split; [|exact Htook].
      change (k_ e1) with (k_ e). change (q_tot e1) with (q_tot e). rewrite Hek, Etot. cbn [set_qtot k_ buffer_]. change (k_ e1) with (k_ e). rewrite Hek.
      by rewrite E.
  - rewrite wt_leaf, Z.mul_1_l in Ht by lia. destruct (Z.eqb_spec (buf_size (buffer_ e1) j) 0) as [H0|H0].
    + eexists. split; [cbn; by rewrite s64_id by (unfold is_s64; lia)|]. apply (take_leaf j c e1); try done; [lia|by apply no_strings].
    + assert (0 < q_tot e1) as Hpos.
      { pose proof (buf_size_weighed (buffer_ e1) j) as Hb. rewrite <- (qi_tot _ Hinv1), wt_leaf in Hb by lia.
        assert (0 <= buf_size (buffer_ e1) j) by (unfold buf_size; lia). lia. }
      destruct (q_adds_ok c e1 Hinv1 Hpos Hin Ht) as (e2 & E2 & I2 & T2 & M2 & X2 & C2). exists e2. split; [exact E2|].
      unfold took. rewrite wt_leaf, Z.mul_1_l, err_leaf by lia. split; [done|]. split; [done|]. split; [done|]. split; [done|].
      refine (counted_ext _ _ _ _ _ _ (fun p => _) eq_refl C2). lia.
Qed.

(** The buffers of a message from level [j] on. *)
Definition all_fit (j : nat) (ms : Buffers) : Prop := forall i, level_fits (j + i) (buf_at ms i).
(** What of them are leaves. *)
Definition leaves_from (j : nat) (ms : Buffers) : Z :=
  (if (j <=? 1)%nat then buf_size ms 0 else 0) + (if (j =? 0)%nat then buf_size ms 1 else 0).

Lemma buffer_code_ok b : Forall elem_ok (buf b) -> Z.of_nat (length (buf b)) < 2 ^ 63 -> bytes_ok (buffer_code b).
Proof.
  intros Hb Hl. apply Forall_app. split; [apply (enc_prim_ok (PInt _)); unfold prim_ok, is_s64; lia|].
  by apply (skippable_concat_ok (ops_Skip ops)).
Qed.

Lemma buffers_code_ok (ms : Buffers) : (forall i, Forall elem_ok (buf_at ms i)) -> (forall i, buf_size ms i < 2 ^ 63) -> bytes_ok (concat (map buffer_code ms)).
Proof.
  induction ms as [|b ms IH]; intros Hm Hs; [constructor|]. apply Forall_app. split.
  - apply buffer_code_ok; [exact (Hm 0%nat)|exact (Hs 0%nat)].
  - apply IH; intros i; [exact (Hm (S i))|exact (Hs (S i))].
Qed.

Lemma inside_elems lo hi l : Forall (within lo hi) l -> Forall elem_ok l.
Proof. intros H. eapply Forall_impl; [exact H|]. by intros x [? _]. Qed.

Lemma leaves_from_0 j b ms : leaves_from j (b :: ms) = (if (j <=? 1)%nat then Z.of_nat (length (buf b)) else 0) + leaves_from (S j) ms.
Proof.
  unfold leaves_from. change (buf_size (b :: ms) 0) with (Z.of_nat (length (buf b))). change (buf_size (b :: ms) 1) with (buf_size ms 0).
  destruct j as [|[|j]]; cbn; lia.
Qed.

(** One round of the loop. *)
Lemma merge_round nn j c rest s e :
  Forall elem_ok c -> bytes_ok rest -> Z.of_nat (length c) < 2 ^ 62 -> level_fits j c -> k_ e = k ->
  q_merge_loop ops memory_change (S nn) j (MkDec s (enc_prim (PInt (Z.of_nat (length c))) ++ concat c ++ rest)) e
  = match c with
    | [] => q_merge_loop ops memory_change nn (S j) (MkDec s rest) e
    | _ => e ← enter j c e; q_merge_loop ops memory_change nn (S j) (MkDec s rest) e
    end.
Proof.
  intros Hc Hr Hl [Hck Hup] Hek. cbn [q_merge_loop].
  rewrite GetInt_enc by ((unfold is_s64; lia) || (apply Forall_app; split; [by apply (skippable_concat_ok (ops_Skip ops))|done])).
  rewrite (proj2 (Z.ltb_ge _ 0)) by lia. unfold CHECK.
  assert ((j <? 2)%nat || (Z.of_nat (length c) =? 0) || (Z.of_nat (length c) =? k_ e) = true) as ->.
  { destruct (Nat.ltb_spec j 2); [done|]. destruct (Hup ltac:(lia)) as [_ [->| ->]]; [done|]. rewrite Hek, Z.eqb_refl. apply orb_true_r. }
  destruct c as [|x c]; [done|]. set (c' := x :: c) in *. rewrite (proj2 (Z.eqb_neq _ 0)) by (cbn; lia).
  rewrite Nat2Z.id, read_strings_ok by done. reflexivity.
Qed.

Lemma q_merge_loop_ok (ms : Buffers) j s e :
  q_inv e -> all_fit j ms -> all_in (within (min_ e) (max_ e)) ms -> q_tot e + sum_levels (level_cnt all_strings) j ms < 2 ^ 62 ->
  0 < q_tot e + leaves_from j ms -> elem_ok (min_ e) /\ elem_ok (max_ e) -> exists e',
  q_merge_loop ops memory_change (length ms) j (MkDec s (concat (map buffer_code ms))) e = Ok (true, e') /\ q_inv e'
  /\ q_tot e' = q_tot e + sum_levels (level_cnt all_strings) j ms /\ min_ e' = min_ e /\ max_ e' = max_ e
  /\ counted (fun p => sum_levels (level_cnt p) j ms) (sum_levels level_err j ms) (buffer_ e) (buffer_ e').
Proof.
  revert j e. induction ms as [|b ms IH]; intros j e Hinv Hfit Hin Ht Hpos Hb.
  { exists e. cbn. rewrite Z.add_0_r. repeat (split; [done|]). intros p _. cbn. lia. }
  cbn [length map concat sum_levels] in *. set (c := buf b) in *. rewrite leaves_from_0 in Hpos. fold c in Hpos.
  assert (level_fits j c) as Hf by (specialize (Hfit 0%nat); by rewrite Nat.add_0_r in Hfit).
  assert (all_fit (S j) ms) as Hfit' by (intros i; specialize (Hfit (S i)); by rewrite Nat.add_succ_r in Hfit).
  assert (inside e c) as Hc by exact (Hin 0%nat). assert (all_in (within (min_ e) (max_ e)) ms) as Hin' by (intros i; exact (Hin (S i))).
  pose proof (level_cnt_nonneg all_strings j c) as H0. pose proof (sum_levels_nonneg _ (S j) ms (level_cnt_nonneg all_strings)) as H1.
  assert (level_cnt all_strings j c = wt j * Z.of_nat (length c)) as Ec by (unfold level_cnt; by rewrite cnt_all).
  pose proof (wt_pos j) as Hw. pose proof (qi_range _ Hinv) as Hr. rewrite Ec in *.
  assert (bytes_ok (concat (map buffer_code ms))) as Hcode.
  { apply buffers_code_ok; intros i; [eapply inside_elems, Hin'|]. destruct (Hfit' i) as [Hk' _]. unfold buf_size. lia. }
  unfold buffer_code at 1. fold c. rewrite <- app_assoc, merge_round; [|by eapply inside_elems|done|destruct Hf; lia|done|apply Hinv].
  destruct c as [|x c'] eqn:Eq.
  - cbn [length] in *. rewrite Z.mul_0_r in *. destruct (IH (S j) e) as (e' & E & I & T & M & X & C); [done|done|done|lia| |done|].
    { destruct (j <=? 1)%nat; lia. }
    exists e'. split; [done|]. split; [done|]. split; [lia|]. split; [done|]. split; [done|]. intros p Hp. specialize (C p Hp).
    cbn beta in C. rewrite level_cnt_nil. cbn [level_err]. lia.
  - rewrite <- Eq in *. destruct (enter_ok j c e Hinv Hf) as (e1 & E1 & I1 & T1 & M1 & X1 & C1); [by rewrite Eq|done|lia| |done|].
    { intros Hj. rewrite (proj2 (Nat.leb_gt j 1)) in Hpos by lia. unfold leaves_from in Hpos.
      rewrite (proj2 (Nat.leb_gt (S j) 1)), (proj2 (Nat.eqb_neq (S j) 0)) in Hpos by lia. lia. }
    rewrite E1. cbn [mbind res_bind]. destruct (IH (S j) e1) as (e' & E & I & T & M & X & C); [done|done|by rewrite M1, X1|lia| |by rewrite M1, X1|].
    { rewrite T1. destruct (Nat.leb_spec j 1); [rewrite wt_leaf by done|]; nia. }
    exists e'. split; [done|]. split; [done|]. split; [lia|]. split; [congruence|]. split; [congruence|].
    intros p Hp. specialize (C1 p Hp). specialize (C p Hp). cbn beta in *. unfold level_cnt at 1 3. lia.
Qed.

(** *** The contract *)

(** The buffers count the elements [l], up to the error. *)
Definition represents l (bufs : Buffers) : Prop :=
  forall p, prefix_closed p -> cnt p l <= weighed p bufs <= cnt p l + error bufs.
Definition lowest m l : Prop := m ∈ l /\ Forall (str_le m) l.
Definition highest m l : Prop := m ∈ l /\ Forall (fun x => str_le x m) l.

Definition q_holds l e : Prop :=
  q_inv e /\ q_tot e = Z.of_nat (length l) /\ (l <> [] -> lowest (min_ e) l /\ highest (max_ e) l) /\ represents l (buffer_ e).
Definition q_reports l (s : bytes) : Prop := exists e, q_holds l e /\ s = q_msg e.

Lemma represents_add l l' c d bufs bufs' : represents l bufs -> counted c d bufs bufs' ->
  (forall p, prefix_closed p -> cnt p l' <= c p <= cnt p l' + d) -> represents (l ++ l') bufs'.
Proof. intros Hr Hc Hl p Hp. specialize (Hr p Hp). specialize (Hc p Hp). specialize (Hl p Hp). rewrite cnt_app. lia. Qed.

(** The bounds of some elements, and those of more. *)
Lemma bounded_by_extends l l' lo hi e : q_tot e = Z.of_nat (length l) -> (l <> [] -> lowest (min_ e) l /\ highest (max_ e) l) ->
  lowest lo l' -> highest hi l' -> let e' := bounded_by lo hi e in lowest (min_ e') (l ++ l') /\ highest (max_ e') (l ++ l').
Proof.
  intros Ht Hl [Hlo Hlo'] [Hhi Hhi'] e'. unfold lowest, highest. rewrite !elem_of_app, !Forall_app. unfold e', bounded_by. cbn [min_ max_ set_bounds].
  destruct l as [|x l]; [rewrite Ht; cbn; split; (split; [by right|by split])|].
  destruct (Hl ltac:(done)) as [[Hm Hm'] [Hx Hx']]. rewrite Ht. rewrite (proj2 (Z.eqb_neq _ 0)) by (cbn; lia). cbn [orb]. split.
  - destruct (str_ltb lo (min_ e)) eqn:E; (split; [by auto|split; [|try done]]); [|done|].
    + apply str_ltb_lt in E. eapply Forall_impl; [exact Hm'|]. intros y Hy. etrans; [|exact Hy]. unfold str_le. congruence.
    + apply str_ltb_false in E. eapply Forall_impl; [exact Hlo'|]. intros y Hy. by etrans.
  - destruct (str_ltb (max_ e) hi) eqn:E; (split; [by auto|split; [|try done]]); [|done|].
    + apply str_ltb_lt in E. eapply Forall_impl; [exact Hx'|]. intros y Hy. cbn in *. etrans; [exact Hy|]. unfold str_le. congruence.
    + apply str_ltb_false in E. eapply Forall_impl; [exact Hhi'|]. intros y Hy. cbn in *. by etrans.
Qed.

Definition q_empty : SzlQuantileEntry := MkQuantile n [] k [] [] 0.

Lemma q_empty_inv : q_inv q_empty.
Proof.
  split; cbn; try done; try lia.
  - change (0 <= k). lia.
  - change (0 <= k). lia.
  - intros j _. split; [constructor|by left].
  - intros j. constructor.
Qed.

#[local] Instance quantile_methods_inst : SzlTabEntry SzlQuantileEntry := quantile_methods ops memory_change.

Lemma inv_fits e : q_inv e -> all_fit 0 (buffer_ e).
Proof.
  intros [_ _ I3 I4 I5 _ _ _ _ _ _] j. cbn [Nat.add]. split.
  - destruct j as [|[|j]]; [exact I3|exact I4|]. destruct (I5 (S (S j)) ltac:(lia)) as [_ [H|H]]; [rewrite H; cbn; lia|unfold buf_size in H; lia].
  - intros Hj. apply (I5 j Hj).
Qed.

Lemma q_Merge_ok l l' e s :
  Z.of_nat (length (l ++ l')) < 2 ^ 62 -> q_holds l e -> q_reports l' s -> exists e',
  q_Merge ops memory_change s e = Ok (MergeOk, e') /\ q_holds (l ++ l') e'.
Proof.
  intros Hfit (Hinv & Ht & Hb & Hr) (e2 & (Hinv2 & Ht2 & Hb2 & Hr2) & ->). rewrite length_app in Hfit.
  pose proof (qi_k _ Hinv) as Ek. pose proof (qi_n _ Hinv) as En. pose proof (qi_range _ Hinv2) as Hrange2. pose proof (qi_height _ Hinv2) as Hh2.
  assert (bytes_ok (concat (map buffer_code (buffer_ e2)))) as Hcode.
  { apply buffers_code_ok; intros i; [eapply inside_elems, (qi_in _ Hinv2)|]. pose proof (size_bound e2 i Hinv2). lia. }
  assert (bytes_ok (body_code e2)) as Hbody.
  { unfold body_code. destruct (Z.ltb_spec 0 (q_tot e2)) as [Hp|]; [|constructor]. destruct (qi_bounds _ Hinv2 Hp) as [[? _] [? _]].
    by repeat (apply Forall_app; split; [done|]). }
  assert (bytes_ok (enc_prim (PFloat 0))) as Hf0 by (apply (enc_prim_ok (PFloat 0)); cbn; unfold is_u64; lia).
  set (nb := Z.of_nat (length (buffer_ e2))). assert (is_s64 nb /\ is_s64 (q_tot e2) /\ is_s64 n /\ is_s64 k) as (Hs1 & Hs2 & Hs3 & Hs4) by (unfold is_s64, nb; lia).
  destruct (enc_int_ne (q_tot e2) (enc_prim (PInt n) ++ enc_prim (PFloat 0) ++ enc_prim (PInt k) ++ enc_prim (PInt nb) ++ body_code e2)) as (b & r & Eb).
  unfold q_Merge, q_msg. fold nb. rewrite Eb, <- Eb. unfold dec_Init.
  rewrite GetInt_enc by parts_ok. rewrite (proj2 (Z.ltb_ge _ 0)) by lia. rewrite GetInt_enc by parts_ok. rewrite En, Z.eqb_refl. cbn [negb].
  rewrite GetFloat_zero by parts_ok. change (f64_ltb 0 0) with false. cbn match. rewrite GetInt_enc by parts_ok. rewrite Ek, Z.eqb_refl. cbn [negb].
  rewrite GetInt_enc by parts_ok. unfold body_code in *. destruct (Z.eqb_spec (q_tot e2) 0) as [H0|H0].
  { exists e. split; [done|]. assert (l' = []) as -> by (destruct l'; [done|cbn in Ht2; lia]). by rewrite app_nil_r. }
  rewrite (proj2 (Z.ltb_lt 0 _)) in * by lia. destruct (qi_bounds _ Hinv2 ltac:(lia)) as [Hmin Hmax].
  rewrite EncodingToString_ok by (done || (destruct Hmax; parts_ok)). rewrite EncodingToString_ok by (done || parts_ok).
  destruct (bounded_by_ok (min_ e2) (max_ e2) e Hinv Hmin Hmax) as (Hinv1 & Hlo & Hhi).
  assert (l' <> []) as Hne by (intros ->; cbn in Ht2; lia). destruct (Hb2 Hne) as [Hlow2 Hhigh2].
  pose proof (bounded_by_extends l l' _ _ e Ht Hb Hlow2 Hhigh2) as [Hlow Hhigh].
  set (e1 := bounded_by (min_ e2) (max_ e2) e) in *. pose proof (qi_tot _ Hinv2) as Htot2. unfold weighed in Htot2.
  match goal with |- context [MkDec ?w _] => generalize w; intros whole end. unfold nb. rewrite Nat2Z.id.
  destruct (q_merge_loop_ok (buffer_ e2) 0 whole e1 Hinv1) as (e' & E' & I' & T' & M' & X' & C').
  - by apply inv_fits.
  - intros j. eapply Forall_impl; [apply (qi_in _ Hinv2)|]. intros x (Hx & H1 & H2). split; [done|]. split; by etrans.
  - rewrite <- Htot2. change (q_tot e1) with (q_tot e). lia.
  - unfold leaves_from. cbn. pose proof (qi_leaves _ Hinv2 ltac:(lia)). change (q_tot e1) with (q_tot e). pose proof (qi_range _ Hinv). lia.
  - by apply bounded_by_elems.
  - rewrite E'. cbn [mbind res_bind]. exists e'. split; [done|]. split; [done|]. rewrite <- Htot2 in T'. change (q_tot e1) with (q_tot e) in T'.
    split; [rewrite length_app; lia|]. split; [intros _; by rewrite M', X'|]. apply (represents_add _ _ _ _ _ _ Hr C'). intros p Hp. by apply Hr2.
Qed.

#[export] Instance quantile_contract :
  MergeContract entry_AddElem q_empty elem_ok (fun l => Z.of_nat (length l) < 2 ^ 62) q_holds q_reports.
Proof.
  split.
  - intros l l' H. rewrite length_app in H. lia.
  - split; [apply q_empty_inv|]. split; [done|]. split; [done|]. intros p _. change (0 <= 0 <= 0). lia.
  - intros l e x Hfit (Hinv & Ht & Hb & Hr) Hx. rewrite length_app in Hfit. cbn [length] in Hfit.
    cbn [entry_AddElem quantile_methods_inst quantile_methods].
    destruct (q_AddElem_ok x e Hinv Hx ltac:(lia)) as (z & e' & E & I & T & M & X & C). exists z, e'. split; [done|]. split; [done|].
    split; [rewrite length_app; cbn; lia|]. split.
    + intros _. rewrite M, X. apply bounded_by_extends; [done|done|..]; (split; [left|by apply Forall_singleton]).
    + apply (represents_add _ _ _ _ _ _ Hr C). intros p _. rewrite cnt_cons. change (cnt p []) with 0. lia.
  - intros l e _ Hh. cbn [entry_Flush quantile_methods_inst quantile_methods]. eexists _, _. split; [apply q_Flush_msg, Hh|]. by exists e.
  - intros l l' e s. apply q_Merge_ok.
Qed.
End Entries.

(** ** Splitters *)

Definition below (q : bytes) : bytes -> bool := fun y => str_ltb y q.
Definition up_to (q : bytes) : bytes -> bool := fun y => negb (str_ltb q y).

Lemma below_closed q : prefix_closed (below q).
Proof.
  intros x y Hxy Hy. unfold below in *. destruct (str_ltb x q) eqn:E; [done|]. apply str_ltb_false in E.
  assert (str_le q y) as Hqy by by etrans. apply str_ltb_false in Hqy. congruence.
Qed.
Lemma up_to_closed q : prefix_closed (up_to q).
Proof.
  intros x y Hxy Hy. unfold up_to in *. destruct (str_ltb q y) eqn:E; [done|]. apply str_ltb_false in E.
  destruct (str_ltb q x) eqn:E'; [|done]. assert (str_le x q) as Hxq by by etrans. apply str_ltb_false in Hxq. congruence.
Qed.

Lemma find_smallest_spec rest j best id :
  let '(x, id') := find_smallest rest j best id in
  str_le x best /\ (forall i y ys, rest !! i = Some (y :: ys) -> str_le x y)
  /\ ((x = best /\ id' = id /\ forall i y ys, rest !! i = Some (y :: ys) -> str_ltb best y = true)
      \/ exists i r, id' = Some (j + i)%nat /\ rest !! i = Some (x :: r)).
Proof.
  revert j best id. induction rest as [|[|y ys] rest IH]; intros j best id; cbn [find_smallest].
  - split; [done|]. split; [intros i y ys H; by rewrite lookup_nil in H|]. left. split; [done|]. split; [done|]. intros i y ys H. by rewrite lookup_nil in H.
  - specialize (IH (S j) best id). destruct (find_smallest _ _ _ _) as [x id']. destruct IH as (H1 & H2 & H3). split; [done|]. split.
    { intros [|i] y ys H; [done|]. by eapply H2. }
    destruct H3 as [(-> & -> & H3)|(i & r & -> & H3)]; [left|right].
    + split; [done|]. split; [done|]. intros [|i] y ys H; [done|]. by eapply H3.
    + exists (S i), r. split; [f_equal; lia|done].
  - destruct (str_ltb best y) eqn:E; cbn [negb].
    + specialize (IH (S j) best id). destruct (find_smallest _ _ _ _) as [x id']. destruct IH as (H1 & H2 & H3). split; [done|]. split.
      { intros [|i] z zs H; [|by eapply H2]. injection H as -> ->. etrans; [exact H1|]. apply str_ltb_lt in E. unfold str_le. congruence. }
      destruct H3 as [(-> & -> & H3)|(i & r & -> & H3)]; [left|right].
      * split; [done|]. split; [done|]. intros [|i] z zs H; [by injection H as -> ->|]. by eapply H3.
      * exists (S i), r. split; [f_equal; lia|done].
    + apply str_ltb_false in E. specialize (IH (S j) y (Some j)). destruct (find_smallest _ _ _ _) as [x id']. destruct IH as (H1 & H2 & H3).
      split; [by etrans|]. split; [intros [|i] z zs H; [by injection H as -> ->|by eapply H2]|]. right.
      destruct H3 as [(-> & -> & _)|(i & r & -> & H3)]; [exists 0%nat, ys|exists (S i), r].
      * by rewrite Nat.add_0_r.
      * by rewrite Nat.add_succ_r.
Qed.

(** Cursors as buffers. *)
Abbreviation left_ rest := (map Some rest : Buffers).

Lemma buf_at_left rest j : buf_at (left_ rest) j = default [] (rest !! j).
Proof. unfold buf_at. rewrite list_lookup_fmap. by destruct (rest !! j). Qed.

Lemma some_left rest : 0 < weighed all_strings (left_ rest) -> exists j y ys, rest !! j = Some (y :: ys).
Proof.
  unfold weighed. generalize 0%nat. induction rest as [|[|y ys] rest IH]; intros i H; cbn [map sum_levels] in H; [lia| |by exists 0%nat, y, ys].
  cbn [buf default] in H. rewrite level_cnt_nil in H. destruct (IH (S i)) as (j & y & ys & Hj); [lia|]. by exists (S j), y, ys.
Qed.

Lemma none_below p rest : prefix_closed p -> (forall j, StronglySorted str_le (buf_at (left_ rest) j)) ->
  (forall j y ys, rest !! j = Some (y :: ys) -> p y = false) -> weighed p (left_ rest) = 0.
Proof.
  intros Hp Hs Hh. unfold weighed. generalize 0%nat. revert Hs Hh. induction rest as [|r rest IH]; intros Hs Hh i; [done|]. cbn [map sum_levels].
  rewrite IH; [|intros j; exact (Hs (S j))|intros j y ys; exact (Hh (S j) y ys)]. unfold level_cnt. change (buf (Some r)) with r.
  specialize (Hs 0%nat). specialize (Hh 0%nat). rewrite buf_at_left in Hs. cbn in Hs. destruct r as [|y ys]; [change (cnt p []) with 0; lia|].
  specialize (Hh y ys eq_refl). rewrite cnt_none; [lia|]. constructor; [done|]. apply StronglySorted_inv in Hs as [_ Hs].
  eapply Forall_impl; [exact Hs|]. intros z Hz. cbn in Hz. destruct (p z) eqn:E; [|done]. by rewrite (Hp y z Hz E) in Hh.
Qed.

Lemma alter_tail (rest : list (list bytes)) j x r : rest !! j = Some (x :: r) -> left_ (alter tail j rest) = <[j := Some r]> (left_ rest).
Proof.
  intros H. apply list_eq. intros i. rewrite list_lookup_fmap, list_lookup_alter. pose proof (lookup_lt_Some _ _ _ H) as Hl.
  destruct (decide (j = i)) as [<-|Hne].
  - rewrite H, list_lookup_insert_eq by (by rewrite length_map). done.
  - rewrite list_lookup_insert_ne, list_lookup_fmap by done. done.
Qed.

Lemma alter_tail_length (rest : list (list bytes)) j x r : rest !! j = Some (x :: r) -> length (concat rest) = S (length (concat (alter tail j rest))).
Proof.
  revert j. induction rest as [|a rest IH]; intros [|j] H; [done|done| |].
  - injection H as ->. done.
  - change (alter tail (S j) (a :: rest)) with (a :: alter tail j rest). cbn [concat]. rewrite !length_app, (IH j H). lia.
Qed.

Section Splitters.
(** All buffers, and what they count. *)
Context (bufs : Buffers) (max_string : bytes).
Abbreviation counts p := (weighed p bufs).

(** [sum] has been passed over, and [rest] is left. *)
Definition passed (sum : Z) (rest : list (list bytes)) : Prop :=
  (forall j, StronglySorted str_le (buf_at (left_ rest) j)) /\ (length rest <= 64)%nat
  /\ all_in (fun y => str_le y max_string) (left_ rest)
  /\ 0 <= sum /\ sum + weighed all_strings (left_ rest) = counts all_strings
  /\ forall p, prefix_closed p -> counts p <= sum + weighed p (left_ rest)
       /\ (0 < weighed p (left_ rest) -> counts p = sum + weighed p (left_ rest)).

Lemma level_weight_wt j : (j < 64)%nat -> level_weight j = wt j.
Proof.
  intros Hj. unfold level_weight, wt. destruct (Nat.leb_spec j 1); [done|]. rewrite Z.shiftl_1_l. apply s64_id. unfold is_s64.
  assert (0 < 2 ^ (Z.of_nat j - 1)) by (apply Z.pow_pos_nonneg; lia).
  assert (2 ^ (Z.of_nat j - 1) <= 2 ^ 62) by (apply Z.pow_le_mono_r; lia). lia.
Qed.

(** The smallest element left, and passing over it. *)
Lemma passed_step sum rest : counts all_strings < 2 ^ 62 -> passed sum rest -> sum < counts all_strings -> exists q j r,
  find_smallest rest 0 max_string None = (q, Some j) /\ rest !! j = Some (q :: r) /\ level_weight j = wt j
  /\ counts (below q) <= sum /\ sum + wt j <= counts (up_to q) /\ counts (up_to q) <= counts all_strings /\ passed (sum + wt j) (alter tail j rest).
Proof.
  intros Hlt (Hs & Hlen & Hmax & H0 & Hall & Hp) Hleft. destruct (some_left rest) as (i & y & ys & Hi); [lia|].
  pose proof (find_smallest_spec rest 0 max_string None) as Hf. destruct (find_smallest _ _ _ _) as [q id'].
  destruct Hf as (_ & Hle & [(_ & _ & Hbig)|(j & r & -> & Hj)]).
  { specialize (Hbig i y ys Hi). specialize (Hmax i). rewrite buf_at_left, Hi in Hmax. apply Forall_inv, str_ltb_false in Hmax. congruence. }
  exists q, j, r. pose proof (lookup_lt_Some _ _ _ Hj) as Hjl. split; [done|]. split; [done|]. split; [apply level_weight_wt; lia|].
  assert (buf_at (left_ rest) j = q :: r) as Bj by by rewrite buf_at_left, Hj.
  assert (forall p, weighed p (left_ (alter tail j rest)) = weighed p (left_ rest) - wt j * Z.b2z (p q)) as Hw.
  { intros p. rewrite (alter_tail rest j q r Hj), weighed_insert by (by rewrite length_map). rewrite Bj, cnt_cons. lia. }
  assert (weighed (below q) (left_ rest) = 0) as Hz.
  { apply none_below; [apply below_closed|done|]. intros i' z zs Hz. by apply str_ltb_false, (Hle i' z zs). }
  pose proof (wt_pos j) as Hwp.
  assert (wt j <= weighed (up_to q) (left_ rest)) as Hup.
  { assert (0 <= weighed (up_to q) (left_ (alter tail j rest))) as Hn by apply sum_levels_nonneg, level_cnt_nonneg.
    rewrite Hw in Hn. unfold up_to in Hn at 2. rewrite str_ltb_irrefl in Hn. cbn [negb Z.b2z] in Hn. lia. }
  destruct (Hp _ (below_closed q)) as [Hb _]. destruct (Hp _ (up_to_closed q)) as [Hu Hu'].
  split; [lia|]. split; [lia|]. split.
  { apply sum_levels_mono. intros l b. unfold level_cnt. pose proof (wt_pos l). rewrite (cnt_all all_strings) by done. pose proof (cnt_range (up_to q) b). nia. }
  split; [|split; [|split; [|split; [lia|split]]]].
  - intros i'. rewrite (alter_tail rest j q r Hj), buf_at_insert by (by rewrite length_map). case_decide as Ei; [|apply Hs].
    subst i'. specialize (Hs j). rewrite Bj in Hs. by apply StronglySorted_inv in Hs as [? _].
  - by rewrite length_alter.
  - rewrite (alter_tail rest j q r Hj). apply all_in_insert; [by rewrite length_map| |done]. specialize (Hmax j). rewrite Bj in Hmax. by apply Forall_inv_tail in Hmax.
  - rewrite Hw. cbn [Z.b2z]. lia.
  - intros p Hpc. destruct (Hp p Hpc) as [P1 P2]. rewrite Hw. destruct (p q) eqn:E; cbn [Z.b2z].
    + assert (weighed p (left_ rest) > 0); [|lia].
      assert (0 <= weighed p (left_ (alter tail j rest))) as Hn by apply sum_levels_nonneg, level_cnt_nonneg. rewrite Hw, E in Hn. cbn [Z.b2z] in Hn. lia.
    + assert (weighed p (left_ rest) = 0) as Hz0; [|lia]. apply none_below; [done|done|]. intros i' z zs Hz'.
      destruct (p z) eqn:Ez; [|done]. by rewrite (Hpc q z (Hle i' z zs Hz') Ez) in E.
Qed.

(** The rank of [q] among the buffers is [t]. *)
Definition has_rank (t : Z) (q : bytes) : Prop := counts (below q) < t <= counts (up_to q).

Context (Hbig : counts all_strings < 2 ^ 62).

Lemma next_splitter_ok fuel target sum rest :
  passed sum rest -> sum < target <= counts all_strings -> (length (concat rest) < fuel)%nat -> exists q sum' rest',
  next_splitter fuel max_string target sum rest = Ok (q, sum', rest') /\ passed sum' rest' /\ sum' < target /\ has_rank target q.
Proof.
  revert sum rest. induction fuel as [|fuel IH]; intros sum rest Hp Ht Hf; [lia|].
  destruct (passed_step sum rest Hbig Hp ltac:(lia)) as (q & j & r & Ef & Hj & Ew & H1 & H2 & H3 & Hp').
  cbn [next_splitter]. rewrite Ef, Ew. pose proof (wt_pos j). pose proof Hp as (_ & _ & _ & H0 & _).
  rewrite s64_id by (unfold is_s64; lia). destruct (Z.leb_spec target (sum + wt j)) as [Hle|Hgt].
  - exists q, sum, rest. split; [done|]. split; [done|]. split; [lia|]. unfold has_rank. lia.
  - apply IH; [done|lia|]. rewrite (alter_tail_length rest j q r Hj) in Hf. lia.
Qed.

Lemma splitters_ok ts sum rest :
  passed sum rest -> StronglySorted Z.le ts -> Forall (fun t => sum < t <= counts all_strings) ts -> exists qs,
  splitters ts (counts all_strings) max_string sum rest = Ok qs /\ Forall2 has_rank ts qs.
Proof.
  revert sum rest. induction ts as [|t ts IH]; intros sum rest Hp Hs Ht; [by exists []|].
  apply StronglySorted_inv in Hs as [Hs Hle]. apply Forall_cons in Ht as [Ht Hts].
  destruct (next_splitter_ok (S (length (concat rest))) t sum rest Hp Ht ltac:(lia)) as (q & sum' & rest' & E & Hp' & Hlt & Hr).
  destruct (IH sum' rest' Hp' Hs) as (qs & Eqs & Hqs).
  { apply Forall_forall. intros t' Ht'. pose proof (proj1 (Forall_forall _ _) Hts t' Ht') as [_ ?].
    pose proof (proj1 (Forall_forall _ _) Hle t' Ht'). cbn in *. lia. }
  exists (q :: qs). cbn [splitters]. unfold CHECK. rewrite (proj2 (Z.leb_le t _)) by lia. rewrite E. cbn [mbind res_bind]. rewrite Eqs. split; [done|by constructor].
Qed.

Lemma passed_start : (forall j, StronglySorted str_le (buf_at bufs j)) -> (length bufs <= 64)%nat -> all_in (fun y => str_le y max_string) bufs ->
  passed 0 (map buf bufs).
Proof.
  intros Hs Hl Hm. assert (forall j, buf_at (left_ (map buf bufs)) j = buf_at bufs j) as B.
  { intros j. rewrite buf_at_left, list_lookup_fmap. unfold buf_at. by destruct (bufs !! j). }
  assert (forall f i, sum_levels f i (left_ (map buf bufs)) = sum_levels f i bufs) as W.
  { intros f. clear. induction bufs as [|b bs IH]; intros i; [done|]. cbn [map sum_levels]. by rewrite IH. }
  split; [intros j; rewrite B; apply Hs|]. split; [by rewrite length_map|]. split; [intros j; rewrite B; apply Hm|]. split; [done|].
  unfold weighed. rewrite !W. split; [lia|]. intros p Hp. rewrite !W. lia.
Qed.
End Splitters.

Lemma weighted_size_ok bufs j : (j + length bufs <= 64)%nat -> sum_levels (level_cnt all_strings) j bufs < 2 ^ 62 ->
  weighted_size j bufs = sum_levels (level_cnt all_strings) j bufs.
Proof.
  revert j. induction bufs as [|b bufs IH]; intros j Hj Hs; cbn [weighted_size sum_levels length] in *; [done|].
  pose proof (level_cnt_nonneg all_strings j (buf b)) as H0. pose proof (sum_levels_nonneg _ (S j) bufs (level_cnt_nonneg all_strings)) as H1.
  rewrite IH, level_weight_wt by lia. unfold level_cnt in *. rewrite cnt_all in * by done. rewrite s64_id by (unfold is_s64; lia). lia.
Qed.

(** Sorting the leaves changes nothing that counts. *)
Lemma sort_leaf i bufs : (i <= 1)%nat -> let bufs' := alter sort_buffer i bufs in
  (forall j, buf_at bufs' j = if decide (i = j) then sort_strings (buf_at bufs j) else buf_at bufs j)
  /\ length bufs' = length bufs /\ forall p, weighed p bufs' = weighed p bufs.
Proof.
  intros Hi bufs'. assert (sort_strings [] = []) as Hnil by done. split; [|split; [apply length_alter|]].
  - intros j. unfold bufs', buf_at. rewrite list_lookup_alter. destruct (decide (i = j)) as [->|]; [|done]. by destruct (bufs !! j) as [[b|]|].
  - intros p. unfold bufs', weighed. generalize 0%nat. clear bufs'. revert bufs. assert (forall b k, level_cnt p k (buf (sort_buffer b)) = level_cnt p k (buf b)) as Hb.
    { intros b k. unfold level_cnt. f_equal. destruct b as [l|]; [|done]. apply cnt_perm, sort_strings_perm. }
    clear Hi. induction i as [|i IH]; intros [|b bufs] k; try done.
    + change (alter sort_buffer 0%nat (b :: bufs)) with (sort_buffer b :: bufs). rewrite !sum_levels_cons. by rewrite Hb.
    + change (alter sort_buffer (S i) (b :: bufs)) with (b :: alter sort_buffer i bufs). cbn [sum_levels]. by rewrite IH.
Qed.

(** The targets the code computes with doubles: in order, and within the elements. *)
Definition targets_ok (n tot : Z) : Prop := StronglySorted Z.le (targets n tot) /\ Forall (fun t => 0 < t <= tot) (targets n tot).

Lemma ComputeQuantiles_ok bufs lo hi n tot :
  tot = weighed all_strings bufs -> 0 < tot < 2 ^ 62 -> (length bufs <= 64)%nat -> (forall j, (2 <= j)%nat -> StronglySorted str_le (buf_at bufs j)) ->
  all_in (fun x => str_le lo x /\ str_le x hi) bufs -> targets_ok n tot -> exists qs bufs',
  ComputeQuantiles bufs lo hi n tot = Ok (lo :: qs ++ [hi], bufs') /\ Forall2 (has_rank bufs) (targets n tot) qs.
Proof.
  intros Ht Htot Hlen Hs Hin [Ts Tr]. unfold ComputeQuantiles, CHECK.
  destruct (sort_leaf 0 bufs ltac:(lia)) as (B0 & L0 & W0). set (b0 := alter sort_buffer 0%nat bufs) in *.
  destruct (sort_leaf 1 b0 ltac:(lia)) as (B1 & L1 & W1). set (b1 := alter sort_buffer 1%nat b0) in *.
  assert (exists j y, y ∈ buf_at bufs j) as (j & y & Hy).
  { destruct (some_left (map buf bufs)) as (j & y & ys & Hj).
    - assert (forall f i, sum_levels f i (left_ (map buf bufs)) = sum_levels f i bufs) as W.
      { intros f. clear. induction bufs as [|b bs IH]; intros i; [done|]. cbn [map sum_levels]. by rewrite IH. }
      unfold weighed in *. rewrite W. lia.
    - exists j, y. rewrite list_lookup_fmap in Hj. unfold buf_at. destruct (bufs !! j) as [o|]; [|done]. injection Hj as Hj. change (y ∈ buf o). rewrite Hj. left. }
  pose proof (proj1 (Forall_forall _ _) (Hin j) y Hy) as [Hlo Hhi]. assert (str_le lo hi) as Hlh by by etrans.
  apply str_ltb_false in Hlh. rewrite Hlh. cbn [negb].
  assert (1 <= length bufs)%nat as H1 by (destruct bufs; [by apply elem_of_nil in Hy|cbn; lia]). rewrite (proj2 (Nat.leb_le _ _) H1).
  assert (weighed all_strings b1 = tot) as Hw by (by rewrite W1, W0).
  assert (sum_levels (level_cnt all_strings) 0 b1 = tot) as Hw' by exact Hw.
  rewrite weighted_size_ok, Hw', Z.eqb_refl by lia. clear Hw'. rewrite <- Hw in *.
  destruct (splitters_ok b1 hi ltac:(lia) (targets n (weighed all_strings b1)) 0 (map buf b1)) as (qs & E & Hqs).
  - apply passed_start; [|lia|].
    + intros i. rewrite B1, B0. repeat case_decide; try apply sort_strings_sorted. apply Hs. lia.
    + intros i. assert (Forall (fun z => str_le z hi) (buf_at bufs i)) as Hi by (eapply Forall_impl; [apply Hin|]; by intros z [_ ?]).
      rewrite B1, B0. repeat case_decide; rewrite ?sort_strings_perm; done.
  - done.
  - done.
  - rewrite E. cbn [mbind res_bind]. exists qs, b1. split; [done|]. eapply Forall2_impl; [exact Hqs|]. intros t q. unfold has_rank. by rewrite !W1, !W0.
Qed.

(** ** The table *)

Lemma error_nonneg bufs : 0 <= error bufs.
Proof. apply sum_levels_nonneg. intros i b. unfold level_err. pose proof (err_nonneg i). destruct b; lia. Qed.

Lemma upper_error k j h bufs : 0 < k -> (2 <= j)%nat -> (j + length bufs <= h)%nat -> (forall i, buf_at bufs i = [] \/ buf_size bufs i = k) ->
  2 * k * sum_levels level_err j bufs <= Z.max 0 (Z.of_nat h - 2) * sum_levels (level_cnt all_strings) j bufs.
Proof.
  intros Hk. revert j. induction bufs as [|b bufs IH]; intros j Hj Hh Hok; [cbn; lia|]. rewrite !sum_levels_cons. cbn [length] in Hh.
  specialize (IH (S j) ltac:(lia) ltac:(lia) (fun i => Hok (S i))). unfold level_cnt at 1. rewrite cnt_all by done.
  assert (2 * k * level_err j (buf b) <= (Z.of_nat j - 1) * (wt j * Z.of_nat (length (buf b)))) as Hb.
  { destruct (Hok 0%nat) as [H0|H0]; unfold buf_size in H0; change (buf_at (b :: bufs) 0) with (buf b) in H0; [rewrite H0; cbn; lia|].
    rewrite (level_err_full k), H0 by lia. unfold err, wt. rewrite (proj2 (Nat.leb_gt j 1)) by lia.
    assert (2 ^ (Z.of_nat j - 1) = 2 * 2 ^ (Z.of_nat j - 2)) as -> by (rewrite <- Z.pow_succ_r by lia; f_equal; lia). lia. }
  pose proof (wt_pos j). nia.
Qed.

(** The error is at most a [2k]th of the elements in buffers above the leaves for
    every level of them: none while two buffers hold everything. *)
Lemma error_bound k bufs : 0 < k -> (forall j, (2 <= j)%nat -> level_ok k bufs j) ->
  2 * k * error bufs <= Z.max 0 (Z.of_nat (length bufs) - 2) * (weighed all_strings bufs - buf_size bufs 0 - buf_size bufs 1).
Proof.
  intros Hk Hok. destruct bufs as [|b0 [|b1 bufs]]; [cbn; lia| |].
  - unfold error, weighed. cbn [sum_levels]. rewrite err_leaf by lia. cbn [length]. lia.
  - unfold error, weighed. cbn [sum_levels]. rewrite !err_leaf by lia. unfold level_cnt at 1 2. rewrite !wt_leaf, !cnt_all by (lia || done).
    change (buf_size (b0 :: b1 :: bufs) 0) with (Z.of_nat (length (buf b0))). change (buf_size (b0 :: b1 :: bufs) 1) with (Z.of_nat (length (buf b1))).
    pose proof (upper_error k 2 (length (b0 :: b1 :: bufs)) bufs Hk ltac:(lia) ltac:(cbn; lia) (fun i => proj2 (Hok (S (S i)) ltac:(lia)))). lia.
Qed.

Lemma ComputeK_range n : ComputeK n < 2 ^ 62.
Proof.
  unfold ComputeK. set (b := tree_height _ _ _). assert (2 <= b) as Hb.
  { unfold b. generalize 40%nat (f64_div (f64_of_int 1) (f64_of_int (n - 1))). intros fuel eps. assert (forall x, x <= tree_height fuel eps x) as H; [|apply H].
    induction fuel as [|fuel IH]; intros x; cbn [tree_height]; [lia|]. destruct (small_tree eps x); [|lia]. specialize (IH (x + 1)). lia. }
  rewrite Z.shiftl_1_l. assert (0 < 2 ^ (b - 1)) by (apply Z.pow_pos_nonneg; lia). rewrite Z.quot_div_nonneg by (unfold MAX_TOT_ELEMS; lia).
  apply Z.le_lt_trans with MAX_TOT_ELEMS; [apply Z.div_le_upper_bound; unfold MAX_TOT_ELEMS; nia|reflexivity].
Qed.

Lemma q_holds_error ops k n l e : 0 < k -> q_holds ops k n l e ->
  2 * k * error (buffer_ e) <= Z.max 0 (Z.of_nat (length (buffer_ e)) - 2) * q_tot e
  /\ (q_tot e <= 2 * k -> error (buffer_ e) = 0).
Proof.
  intros Hk (Hinv & _). pose proof (error_bound _ _ Hk (qi_levels _ _ _ _ Hinv)) as He. rewrite <- (qi_tot _ _ _ _ Hinv) in He.
  pose proof (error_nonneg (buffer_ e)) as H0. assert (0 <= buf_size (buffer_ e) 0 /\ 0 <= buf_size (buffer_ e) 1) as [P0 P1] by (unfold buf_size; lia).
  split; [nia|]. intros Ht. destruct (total_leaves k (buffer_ e) (qi_levels _ _ _ _ Hinv)) as (m & Hm & E).
  rewrite <- (qi_tot _ _ _ _ Hinv) in E. pose proof (qi_leaves _ _ _ _ Hinv) as Hp. pose proof (qi_range _ _ _ _ Hinv).
  assert (m = 0) as ->; [|nia]. destruct (Z.eq_dec (q_tot e) 0); nia.
Qed.
Section Table.
Context (ops : SzlOps) (memory_change : SzlQuantileEntry -> SzlQuantileEntry -> Z) (param : Z).
Definition q_aggregate (shards : list (list bytes)) : res SzlQuantileEntry :=
  @aggregate _ _ (quantile_methods ops memory_change) (q_AddElem memory_change) (q_new param) shards.

#[local] Abbreviation n := (Z.max param 2).
Context (Hparam : param < 2 ^ 31) (Hk : 0 < ComputeK n).

Lemma q_aggregate_holds shards :
  Forall (Forall (skippable (ops_Skip ops))) shards -> Z.of_nat (length (concat shards)) < 2 ^ 62 ->
  exists e, q_aggregate shards = Ok e /\ q_holds ops (ComputeK n) n (concat shards) e.
Proof.
  intros Hs Hl. pose proof (ComputeK_range n) as Hu.
  pose proof (quantile_contract ops memory_change (ComputeK n) n ltac:(lia) ltac:(lia)) as C.
  exact (@aggregate_holds _ _ _ _ _ _ _ _ _ C shards Hl Hs).
Qed.

End Table.

(** C17. Aggregation of a quantile table over shards, however the elements are
    divided, never fails; it keeps the smallest and the biggest element, counts
    every addition, and for every prefix of the order of strings the weights of
    the buffers' elements in it count its elements, exactly while two buffers
    hold them all, and never by more than [1/2k] of the elements too many for
    every level of buffers above the leaves. *)
Theorem quantile_sharded ops memory_change param shards :
  param < 2 ^ 31 -> 0 < ComputeK (Z.max param 2) -> Forall (Forall (skippable (ops_Skip ops))) shards ->
  let all := concat shards in
  let k := ComputeK (Z.max param 2) in
  Z.of_nat (length all) < 2 ^ 62 ->
  exists e, q_aggregate ops memory_change param shards = Ok e /\ q_tot e = Z.of_nat (length all)
  /\ (all <> [] -> lowest (min_ e) all /\ highest (max_ e) all)
  /\ (forall p, prefix_closed p -> cnt p all <= weighed p (buffer_ e) <= cnt p all + error (buffer_ e))
  /\ 2 * k * error (buffer_ e) <= Z.max 0 (Z.of_nat (length (buffer_ e)) - 2) * q_tot e
  /\ (q_tot e <= 2 * k -> error (buffer_ e) = 0).
Proof.
  intros Hp Hk Hs all k Hl. destruct (q_aggregate_holds ops memory_change param Hp Hk shards Hs Hl) as (e & E & Hh).
  exists e. split; [exact E|]. pose proof (q_holds_error ops _ _ _ e Hk Hh) as [He1 He2]. destruct Hh as (_ & Ht & Hb & Hr).
  split; [exact Ht|]. split; [exact Hb|]. split; [exact Hr|]. split; [exact He1|exact He2].
Qed.

Lemma int_strings zs : Forall is_s64 zs -> Forall (skippable (ops_Skip int_ops)) (map (fun z => enc_prim (PInt z)) zs).
Proof.
  intros H. apply Forall_map. eapply Forall_impl; [exact H|]. intros z Hz. split; [by apply (enc_prim_ok (PInt z))|].
  intros s rest Hr. exact (Skip_enc s (PInt z) rest Hz Hr).
Qed.

(** 40 integers in two shards, with buffers of 16. *)
Definition sample_quantile_shards : list (list bytes) :=
  [map (fun z => enc_prim (PInt z)) (map (fun i => (Z.of_nat i * 7) mod 50) (seq 0 25)); map (fun z => enc_prim (PInt z)) (map (fun i => (Z.of_nat i * 3) mod 40) (seq 0 15))].

Lemma sample_quantile_ok : Forall (Forall (skippable (ops_Skip int_ops))) sample_quantile_shards.
Proof.
  apply Forall_cons. split; [|apply Forall_cons; split; [|apply Forall_nil_2]]; apply int_strings, (bool_decide_unpack _); vm_compute; exact I.
Qed.

Lemma quantile_sharded_witness :
  exists e, q_aggregate int_ops (fun _ _ => 0) 2 sample_quantile_shards = Ok e /\ q_tot e = 40
  /\ (concat sample_quantile_shards <> [] -> lowest (min_ e) (concat sample_quantile_shards) /\ highest (max_ e) (concat sample_quantile_shards))
  /\ (forall p, prefix_closed p -> cnt p (concat sample_quantile_shards) <= weighed p (buffer_ e) <= cnt p (concat sample_quantile_shards) + error (buffer_ e))
  /\ 2 * ComputeK 2 * error (buffer_ e) <= Z.max 0 (Z.of_nat (length (buffer_ e)) - 2) * q_tot e
  /\ (q_tot e <= 2 * ComputeK 2 -> error (buffer_ e) = 0).
Proof.
  apply (quantile_sharded int_ops (fun _ _ => 0) 2 sample_quantile_shards); [lia|vm_compute; reflexivity|exact sample_quantile_ok|vm_compute; reflexivity].
Defined.

(** C18. The display of a merged quantile table: the smallest element, the
    splitters, and the biggest. The splitter for a target [t] is an element such
    that fewer than [t] elements are below it, and no fewer than [t], less the
    error of the buffers, are not above it. The targets are those the code
    computes with doubles, taken to be in order and within the elements. *)
Theorem quantile_display ops memory_change param shards :
  param < 2 ^ 31 -> 0 < ComputeK (Z.max param 2) -> Forall (Forall (skippable (ops_Skip ops))) shards ->
  let all := concat shards in
  let n := Z.max param 2 in
  let tot := Z.of_nat (length all) in
  0 < tot < 2 ^ 62 -> targets_ok n tot ->
  exists e lo qs hi e', q_aggregate ops memory_change param shards = Ok e
  /\ q_FlushForDisplay e = Ok (lo :: qs ++ [hi], e') /\ lowest lo all /\ highest hi all
  /\ Forall2 (fun t q => cnt (below q) all < t <= cnt (up_to q) all + error (buffer_ e)) (targets n tot) qs.
Proof.
  intros Hp Hk Hs all n tot Htot Hts.
  destruct (q_aggregate_holds ops memory_change param Hp Hk shards Hs (proj2 Htot)) as (e & E & Hinv & Ht & Hb & Hr). fold all in Ht, Hb, Hr. fold tot in Ht.
  assert (all <> []) as Hne by (intros H; unfold tot in Htot; rewrite H in Htot; cbn in Htot; lia). destruct (Hb Hne) as [Hlow Hhigh].
  pose proof (qi_tot _ _ _ _ Hinv) as Hw. rewrite Ht in Hw.
  destruct (ComputeQuantiles_ok (buffer_ e) (min_ e) (max_ e) n tot Hw Htot (qi_height _ _ _ _ Hinv)) as (qs & bufs' & Eq & Hqs).
  - intros j Hj. apply (qi_levels _ _ _ _ Hinv j Hj).
  - intros j. eapply Forall_impl; [apply (qi_in _ _ _ _ Hinv)|]. intros x (_ & H1 & H2). exact (conj H1 H2).
  - exact Hts.
  - exists e, (min_ e), qs, (max_ e), (set_buffer bufs' e). split; [exact E|]. split.
    { unfold q_FlushForDisplay. rewrite Ht, (proj2 (Z.eqb_neq tot 0)), (qi_n _ _ _ _ Hinv) by lia. fold n. rewrite Eq. reflexivity. }
    split; [exact Hlow|]. split; [exact Hhigh|]. eapply Forall2_impl; [exact Hqs|]. intros t q [H1 H2].
    pose proof (Hr _ (below_closed q)). pose proof (Hr _ (up_to_closed q)). lia.
Qed.

Lemma quantile_display_witness :
  exists e lo qs hi e', q_aggregate int_ops (fun _ _ => 0) 5 sample_quantile_shards = Ok e
  /\ q_FlushForDisplay e = Ok (lo :: qs ++ [hi], e') /\ lowest lo (concat sample_quantile_shards) /\ highest hi (concat sample_quantile_shards)
  /\ Forall2 (fun t q => cnt (below q) (concat sample_quantile_shards) < t <= cnt (up_to q) (concat sample_quantile_shards) + error (buffer_ e))
       (targets 5 40) qs.
Proof.
  apply (quantile_display int_ops (fun _ _ => 0) 5 sample_quantile_shards);
    [lia|vm_compute; reflexivity|exact sample_quantile_ok|split; vm_compute; reflexivity|].
  split; apply (bool_decide_unpack _); vm_compute; exact I.
Defined.
