(* ===== verification/QuantileResults.v ===== *)
(** * Reading quantile tables: emitters/szlquantileresults.cc

    The results reader of a quantile table against the table itself: it rebuilds
    the buffers from the flushed string and finds the quantiles the table displays. *)
From Stdlib Require Import ZArith Lia.
From stdpp Require Import prelude sorting.
From S2P Require Import Prelude SzlType Double Encoder Decoder Codec Reads SzlValue ValueCodec Numbers TabEntry QuantileTable QuantileRank.

Local Open Scope Z_scope.

(** ** Buffers with the same strings *)

(** Equality of buffers up to [NULL] for an empty one. *)
Definition same_strings (bufs bufs' : Buffers) : Prop := map buf bufs = map buf bufs'.

#[export] Instance same_strings_equivalence : Equivalence same_strings.
Proof. split; unfold same_strings; [by intros ?|by intros ???|intros ??? -> ->; done]. Qed.

#[export] Instance alter_sort_same i : Proper (same_strings ==> same_strings) (alter sort_buffer i).
Proof.
  assert (forall bufs : Buffers, map buf (alter sort_buffer i bufs) = alter sort_strings i (map buf bufs)) as H.
  { induction i as [|i IH]; intros [|b bufs]; try done.
    - by destruct b.
    - change (alter sort_buffer (S i) (b :: bufs)) with (b :: alter sort_buffer i bufs). cbn [map]. by rewrite IH. }
  intros b b' E. unfold same_strings in *. by rewrite !H, E.
Qed.

#[export] Instance weighted_size_same j : Proper (same_strings ==> eq) (weighted_size j).
Proof.
  intros b. revert j. induction b as [|b bufs IH]; intros j [|b' bufs'] E; try done. injection E as Eb Er. cbn [weighted_size]. by rewrite Eb, (IH (S j) bufs' Er).
Qed.

Lemma same_strings_length bufs bufs' : same_strings bufs bufs' -> length bufs = length bufs'.
Proof. intros E. apply (f_equal length) in E. by rewrite !length_map in E. Qed.

(** The quantiles depend on the strings only. *)
Lemma ComputeQuantiles_same bufs bufs' lo hi n tot qs b1 : same_strings bufs bufs' ->
  ComputeQuantiles bufs lo hi n tot = Ok (qs, b1) -> exists b2, ComputeQuantiles bufs' lo hi n tot = Ok (qs, b2).
Proof.
  intros E. unfold ComputeQuantiles, CHECK. rewrite <- (same_strings_length _ _ E).
  assert (same_strings (alter sort_buffer 1%nat (alter sort_buffer 0%nat bufs)) (alter sort_buffer 1%nat (alter sort_buffer 0%nat bufs'))) as E2 by by rewrite E.
  rewrite (weighted_size_same 0 _ _ E2). unfold same_strings in E2. rewrite E2. repeat case_match; try done. destruct (splitters _ _ _ _ _); cbn; try done.
  intros [= <- _]. by eexists.
Qed.

Lemma results_size_weighted i bufs : results_size i bufs = weighted_size i bufs.
Proof.
  revert i. induction bufs as [|b bufs IH]; intros i; [done|]. cbn [results_size weighted_size]. rewrite IH. unfold level_weight.
  destruct i as [|[|i]]; reflexivity.
Qed.

(** ** The reader *)

Section Reader.
Context (ops : SzlOps) (k : Z) (Hk : 0 < k < 2 ^ 62).
Abbreviation elem_ok := (skippable (ops_Skip ops)).

Lemma read_buffers_ok (ms : Buffers) j s :
  all_fit k j ms -> (forall i, Forall elem_ok (buf_at ms i)) ->
  exists ms', read_buffers ops (length ms) j k (MkDec s (concat (map buffer_code ms))) = Ok (Some ms') /\ same_strings ms' ms.
Proof.
  revert j. induction ms as [|b ms IH]; intros j Hfit Hel; [by exists []|].
  assert (level_fits k j (buf b)) as [Hle Hup] by (specialize (Hfit 0%nat); by rewrite Nat.add_0_r in Hfit).
  assert (all_fit k (S j) ms) as Hfit' by (intros i; specialize (Hfit (S i)); by rewrite Nat.add_succ_r in Hfit).
  destruct (IH (S j) Hfit' (fun i => Hel (S i))) as (ms' & E & Es). pose proof (Hel 0%nat : Forall elem_ok (buf b)) as Hb.
  assert (bytes_ok (concat (map buffer_code ms))) as Hc.
  { apply (buffers_code_ok ops); [exact (fun i => Hel (S i))|]. intros i. destruct (Hfit' i) as [Hi _]. unfold buf_size. lia. }
  cbn [map concat length read_buffers]. unfold buffer_code at 1. rewrite <- app_assoc.
  rewrite GetInt_enc by ((unfold is_s64; lia) || (apply Forall_app; split; [by apply (skippable_concat_ok (ops_Skip ops))|done])).
  rewrite (proj2 (Z.ltb_ge _ 0)) by lia. unfold CHECK.
  assert (negb ((2 <=? j)%nat && negb (Z.of_nat (length (buf b)) =? 0)) || (Z.of_nat (length (buf b)) =? k) = true) as ->.
  { destruct (Nat.leb_spec 2 j) as [Hj|]; [|done]. destruct (Hup Hj) as [_ [->| ->]]; [done|]. rewrite Z.eqb_refl. apply orb_true_r. }
  destruct (buf b) as [|x c] eqn:Ebuf.
  - exists (None :: ms'). cbn [length Z.of_nat Z.eqb concat app]. rewrite E. split; [done|]. unfold same_strings in *. cbn [map]. by rewrite Es, Ebuf.
  - rewrite <- Ebuf in *. rewrite (proj2 (Z.eqb_neq _ 0)) by (rewrite Ebuf; cbn; lia). rewrite (proj2 (Z.leb_le 0 k)) by lia.
    rewrite Nat2Z.id, (read_strings_ok ops) by done. rewrite E. exists (Some (buf b) :: ms'). split; [done|]. unfold same_strings in *. cbn [map]. by rewrite Es.
Qed.
End Reader.

Section Message.
Context (ops : SzlOps) (k n : Z) (Hk : 0 < k < 2 ^ 62) (Hn : 2 <= n < 2 ^ 31).
Abbreviation elem_ok := (skippable (ops_Skip ops)).

Lemma body_code_ok e : q_inv ops k n e -> bytes_ok (concat (map buffer_code (buffer_ e))) /\ bytes_ok (body_code e).
Proof.
  intros Hinv. assert (bytes_ok (concat (map buffer_code (buffer_ e)))) as Hcode.
  { apply (buffers_code_ok ops); intros i; [eapply inside_elems, (qi_in _ _ _ _ Hinv)|]. pose proof (size_bound ops (fun _ _ => 0) k n e i Hinv). lia. }
  split; [exact Hcode|]. unfold body_code. destruct (Z.ltb_spec 0 (q_tot e)) as [Hp|]; [|constructor].
  destruct (qi_bounds _ _ _ _ Hinv Hp) as [[? _] [? _]]. by repeat (apply Forall_app; split; [done|]).
Qed.

(** What the reader makes of the message of an entry. *)
Lemma results_of_msg e : q_inv ops k n e ->
  if q_tot e =? 0 then quantile_ParseFromString ops n (q_msg k n e) = Ok (true, MkQuantileResults [] 0)
  else forall qs bufs, ComputeQuantiles (buffer_ e) (min_ e) (max_ e) n (q_tot e) = Ok (qs, bufs) ->
    quantile_ParseFromString ops n (q_msg k n e) = Ok (true, MkQuantileResults qs (q_tot e)).
Proof.
  intros Hinv. pose proof (qi_range _ _ _ _ Hinv) as Hr. pose proof (qi_height _ _ _ _ Hinv) as Hh.
  destruct (body_code_ok e Hinv) as [Hcode Hbody].
  assert (bytes_ok (enc_prim (PFloat 0))) as Hf0 by (apply (enc_prim_ok (PFloat 0)); cbn; unfold is_u64; lia).
  set (nb := Z.of_nat (length (buffer_ e))). assert (is_s64 nb /\ is_s64 (q_tot e) /\ is_s64 n /\ is_s64 k) as (Hs1 & Hs2 & Hs3 & Hs4) by (unfold is_s64, nb; lia).
  destruct (enc_int_ne (q_tot e) (enc_prim (PInt n) ++ enc_prim (PFloat 0) ++ enc_prim (PInt k) ++ enc_prim (PInt nb) ++ body_code e)) as (b & r & Eb).
  unfold quantile_ParseFromString, q_msg. fold nb. rewrite Eb, <- Eb. unfold dec_Init.
  rewrite GetInt_enc by parts_ok. rewrite (proj2 (Z.ltb_ge _ 0)) by lia. rewrite GetInt_enc by parts_ok. rewrite Z.eqb_refl. cbn [negb].
  rewrite GetFloat_zero by parts_ok. rewrite GetInt_enc by parts_ok. rewrite GetInt_enc by parts_ok. unfold body_code in *.
  destruct (Z.eqb_spec (q_tot e) 0) as [H0|H0]; [done|]. intros qs bufs Eq.
  rewrite (proj2 (Z.ltb_lt 0 _)) in * by lia. destruct (qi_bounds _ _ _ _ Hinv ltac:(lia)) as [Hmin Hmax].
  rewrite EncodingToString_ok by (done || (destruct Hmax; parts_ok)). rewrite EncodingToString_ok by (done || parts_ok).
  match goal with |- context [MkDec ?w (concat _)] => generalize w; intros whole end. unfold CHECK, nb. rewrite (proj2 (Z.leb_le 0 _)), Nat2Z.id by lia.
  destruct (read_buffers_ok ops k Hk (buffer_ e) 0 whole) as (ms & Er & Es).
  - by apply (inv_fits ops (fun _ _ => 0) k n).
  - intros i. eapply inside_elems, (qi_in _ _ _ _ Hinv).
  - rewrite Er. cbn [mbind res_bind]. rewrite results_size_weighted, (weighted_size_same 0 _ _ Es).
    pose proof (qi_tot _ _ _ _ Hinv) as Hw. unfold weighed in Hw. rewrite weighted_size_ok, <- Hw, Z.eqb_refl by lia.
    destruct (ComputeQuantiles_same _ ms _ _ _ _ _ _ (symmetry Es) Eq) as (b2 & ->). done.
Qed.
End Message.

(** Reading the results of a quantile table agrees with displaying it: for a
    table merged over shards, the reader rebuilds from the flushed string the
    quantiles that [FlushForDisplay] shows, and the number of elements. For an
    empty table the reader has no quantiles, where the display shows one empty
    string. *)
Theorem quantile_results_agree ops memory_change param shards :
  param < 2 ^ 31 -> 0 < ComputeK (Z.max param 2) -> Forall (Forall (skippable (ops_Skip ops))) shards ->
  let n := Z.max param 2 in
  let tot := Z.of_nat (length (concat shards)) in
  tot < 2 ^ 62 -> (0 < tot -> targets_ok n tot) ->
  exists e msg e1 qs e2, q_aggregate ops memory_change param shards = Ok e
  /\ q_Flush e = Ok (msg, e1) /\ q_FlushForDisplay e = Ok (qs, e2)
  /\ quantile_ParseFromString ops n msg = Ok (true, MkQuantileResults (if tot =? 0 then [] else qs) tot).
Proof.
  intros Hp Hk Hs n tot Htot Hts. pose proof (ComputeK_range n) as Hu.
  destruct (q_aggregate_holds ops memory_change param Hp Hk shards Hs Htot) as (e & E & Hinv & Ht & Hb & Hr). fold tot in Ht.
  pose proof (results_of_msg ops (ComputeK n) n ltac:(unfold n in *; lia) ltac:(lia) e Hinv) as Hres.
  assert (q_Flush e = Ok (q_msg (ComputeK n) n e, q_Clear e)) as Ef by (apply (q_Flush_msg ops memory_change); [unfold n in *; lia|lia|exact Hinv]).
  pose proof (qi_tot _ _ _ _ Hinv) as Hw. rewrite Ht in Hw, Hres. exists e, (q_msg (ComputeK n) n e), (q_Clear e).
  unfold q_FlushForDisplay. rewrite Ht, Ef, E. destruct (Z.eqb_spec tot 0) as [H0|H0].
  - exists [[]], e. rewrite Hres, H0. repeat (split; [reflexivity|]). reflexivity.
  - destruct (ComputeQuantiles_ok (buffer_ e) (min_ e) (max_ e) n tot Hw ltac:(lia) (qi_height _ _ _ _ Hinv)) as (qs & bufs' & Eq & _).
    + intros j Hj. apply (qi_levels _ _ _ _ Hinv j Hj).
    + intros j. eapply Forall_impl; [apply (qi_in _ _ _ _ Hinv)|]. intros x (_ & H1 & H2). exact (conj H1 H2).
    + apply Hts. lia.
    + eexists _, _. rewrite (Hres _ _ Eq), (qi_n _ _ _ _ Hinv). fold n. rewrite Eq. repeat (split; [reflexivity|]). reflexivity.
Qed.

Lemma quantile_results_agree_witness :
  exists e msg e1 qs e2, q_aggregate int_ops (fun _ _ => 0) 5 sample_quantile_shards = Ok e
  /\ q_Flush e = Ok (msg, e1) /\ q_FlushForDisplay e = Ok (qs, e2)
  /\ quantile_ParseFromString int_ops 5 msg = Ok (true, MkQuantileResults qs 40).
Proof.
  apply (quantile_results_agree int_ops (fun _ _ => 0) 5 sample_quantile_shards);
    [lia|vm_compute; reflexivity|exact sample_quantile_ok|vm_compute; reflexivity|].
  intros _. split; apply (bool_decide_unpack _); vm_compute; exact I.
Defined.
