(* ===== verification/Varint.v ===== *)
(** * Variable-length integers: utilities/varint.cc

    Seven bits a byte, the low ones first; a byte from 128 on says that more
    follow. The functions are compared with the reference encoding [leb_bytes]
    and the reference reader [leb]. *)
From Stdlib Require Import ZArith Lia.
From stdpp Require Import prelude.
From S2P Require Import Prelude.

Local Open Scope Z_scope.
Ltac Zify.zify_post_hook ::= Z.div_mod_to_equations.

(** ** The functions *)

(** The bytes written from [sptr] on. *)
(* @src src/src/utilities/varint.cc 30-56 EncodeUnsignedVarint32 *)
Definition EncodeUnsignedVarint32 (v : Z) : bytes :=
  let B := 128 in
  if v <? Z.shiftl 1 7 then [u8 v]
  else if v <? Z.shiftl 1 14 then [u8 (Z.lor v B); u8 (Z.shiftr v 7)]
  else if v <? Z.shiftl 1 21 then [u8 (Z.lor v B); u8 (Z.lor (Z.shiftr v 7) B); u8 (Z.shiftr v 14)]
  else if v <? Z.shiftl 1 28 then
    [u8 (Z.lor v B); u8 (Z.lor (Z.shiftr v 7) B); u8 (Z.lor (Z.shiftr v 14) B); u8 (Z.shiftr v 21)]
  else
    [u8 (Z.lor v B); u8 (Z.lor (Z.shiftr v 7) B); u8 (Z.lor (Z.shiftr v 14) B); u8 (Z.lor (Z.shiftr v 21) B); u8 (Z.shiftr v 28)].

(* @src src/src/utilities/varint.cc 59-79 EncodeUnsignedVarint64 *)
Definition EncodeUnsignedVarint64 (v : Z) : bytes :=
  if v <? Z.shiftl 1 28 then EncodeUnsignedVarint32 (u32 v)
  else
    let B := 128 in
    let v32 := u32 v in
    let low := [u8 (Z.lor v32 B); u8 (Z.lor (Z.shiftr v32 7) B); u8 (Z.lor (Z.shiftr v32 14) B); u8 (Z.lor (Z.shiftr v32 21) B)] in
    if v <? Z.shiftl 1 35 then low ++ [u8 (Z.shiftr v 28)]
    else low ++ [u8 (Z.lor (Z.shiftr v 28) B)] ++ EncodeUnsignedVarint32 (u32 (Z.shiftr v 35)).

(** [*ptr++], where [p] is the memory from [ptr] on. Reading past it is
    undefined: [Fatal]. *)
Definition next_byte (p : bytes) : res (Z * bytes) :=
  match p with [] => Fatal | b :: p => Ok (b, p) end.

(** The lines [byte = *(ptr++); result |= (byte & 127) << s; if (byte < 128) goto
    done;] for the shifts [s]; the boolean is true when [done] is reached. *)
(* @src src/src/utilities/varint.cc 89-92 DecodeUnsignedVarint32 *)
Fixpoint read_groups (shifts : list Z) (result : Z) (p : bytes) : res (bool * Z * bytes) :=
  match shifts with
  | [] => Ok (false, result, p)
  | s :: shifts =>
      '(byte, p) ← next_byte p;
      let result := Z.lor result (u32 (Z.shiftl (Z.land byte 127) s)) in
      if byte <? 128 then Ok (true, result, p) else read_groups shifts result p
  end.

(** The value and the memory after it; [NULL] is [Fail]. *)
(* @src src/src/utilities/varint.cc 82-97 DecodeUnsignedVarint32 *)
Definition DecodeUnsignedVarint32 (p : bytes) : res (Z * bytes) :=
  '(result, p) ← next_byte p;
  if 128 <=? result then
    '(finished, result, p) ← read_groups [7; 14; 21; 28] (Z.land result 127) p;
    if finished : bool then Ok (result, p) else Fail
  else Ok (result, p).

(* @src src/src/utilities/varint.cc 100-140 DecodeUnsignedVarint64 *)
Definition DecodeUnsignedVarint64 (p : bytes) : res (Z * bytes) :=
  '(done1, res1, p) ← read_groups [0; 7; 14; 21] 0 p;
  if done1 : bool then Ok (res1, p)
  else
    '(done2, res2, p) ← read_groups [0; 7; 14; 21] 0 p;
    if done2 : bool then Ok (Z.lor res1 (u64 (Z.shiftl res2 28)), p)
    else
      '(done3, res3, p) ← read_groups [0; 7] 0 p;
      if done3 : bool then Ok (Z.lor (Z.lor res1 (u64 (Z.shiftl res2 28))) (u64 (Z.shiftl res3 56)), p)
      else Fail.

(** ** The reference *)

(** The shortest encoding; [n] is over the number of bytes. *)
Fixpoint leb_bytes (n : nat) (v : Z) : bytes :=
  match n with
  | O => []
  | S n => if v <? 128 then [v] else (v mod 128 + 128) :: leb_bytes n (v / 128)
  end.

(** Up to [n] groups: whether the last was among them, and what they stand for. *)
Fixpoint leb (n : nat) (p : bytes) : res (bool * Z * bytes) :=
  match n with
  | O => Ok (false, 0, p)
  | S n =>
      '(b, p) ← next_byte p;
      if b <? 128 then Ok (true, b, p)
      else '(finished, v, p) ← leb n p; Ok (finished, b - 128 + 128 * v, p)
  end.

(** A number of [n] bytes at most, of which [w] bits are kept. *)
Definition leb_decode (n : nat) (w : Z) (p : bytes) : res (Z * bytes) :=
  '(finished, v, p) ← leb n p;
  if finished : bool then Ok (v mod 2 ^ w, p) else Fail.

(** ** Decoding *)

Lemma bind_ok {A B} (a : A) (f : A -> res B) : Ok a ≫= f = f a.
Proof. done. Qed.
Lemma bind_assoc {A B C} (m : res A) (f : A -> res B) (g : B -> res C) : (m ≫= f) ≫= g = m ≫= (fun x => f x ≫= g).
Proof. by destruct m. Qed.
Lemma bind_ext {A B} (m : res A) (f g : A -> res B) : (forall x, m = Ok x -> f x = g x) -> m ≫= f = m ≫= g.
Proof. intros H. destruct m; cbn; auto. Qed.

Definition shifts (n : nat) (s : Z) : list Z := map (fun i => s + 7 * Z.of_nat i) (seq 0 n).

Lemma shifts_S n s : shifts (S n) s = s :: shifts n (s + 7).
Proof. unfold shifts. cbn [seq map]. f_equal; [lia|]. rewrite <- seq_shift, map_map. apply map_ext. intros i. lia. Qed.

Lemma leb_range n p d v p' : bytes_ok p -> leb n p = Ok (d, v, p') -> 0 <= v < 2 ^ (7 * Z.of_nat n) /\ bytes_ok p'.
Proof.
  revert p d v p'. induction n as [|n IH]; intros p d v p' Hp; [intros [= <- <- <-]; split; [lia|done]|].
  destruct p as [|b p]; [done|]. apply Forall_cons in Hp as [Hb Hp]. unfold is_u8 in Hb. cbn [leb next_byte mbind res_bind].
  assert (2 ^ (7 * Z.of_nat (S n)) = 128 * 2 ^ (7 * Z.of_nat n)) as -> by (rewrite <- (Z.pow_add_r 2 7) by lia; f_equal; lia).
  assert (0 < 2 ^ (7 * Z.of_nat n)) by (apply Z.pow_pos_nonneg; lia). destruct (Z.ltb_spec b 128).
  - intros [= <- <- <-]. split; [nia|done].
  - destruct (leb n p) as [[[d' v'] p'']| |] eqn:E; try done. intros [= <- <- <-]. destruct (IH p d' v' p'' Hp E). split; [nia|done].
Qed.

Lemma lor_group acc x s : 0 <= s < 32 -> 0 <= acc < 2 ^ s -> 0 <= x ->
  let r := Z.lor acc (u32 (Z.shiftl x s)) in r = acc + u32 (x * 2 ^ s) /\ (x < 128 -> r < 2 ^ (s + 7)).
Proof.
  intros Hs Ha Hx. cbv zeta. rewrite Z.shiftl_mul_pow2 by lia. assert (0 < 2 ^ s) by (apply Z.pow_pos_nonneg; lia).
  assert (u32 (x * 2 ^ s) = Z.shiftl (x mod 2 ^ (32 - s)) s) as E.
  { unfold u32. rewrite Z.shiftl_mul_pow2 by lia. replace (2 ^ 32) with (2 ^ (32 - s) * 2 ^ s) by (rewrite <- Z.pow_add_r by lia; f_equal; lia).
    by rewrite Z.mul_mod_distr_r by (try apply Z.pow_nonzero; lia). }
  assert (0 <= x mod 2 ^ (32 - s) <= x) as Hm.
  { assert (0 < 2 ^ (32 - s)) by (apply Z.pow_pos_nonneg; lia). split; [apply Z.mod_pos_bound; lia|apply Z.mod_le; lia]. }
  rewrite E, Z.shiftl_mul_pow2 by lia. rewrite lor_add_shift by lia. split; [lia|]. intros H7.
  rewrite Z.pow_add_r by lia. change (2 ^ 7) with 128. nia.
Qed.

Lemma land_127 b : is_u8 b -> Z.land b 127 = if b <? 128 then b else b - 128.
Proof. intros Hb. unfold is_u8 in Hb. change 127 with (2 ^ 7 - 1). rewrite land_mask by lia. change (2 ^ 7) with 128. destruct (Z.ltb_spec b 128); lia. Qed.

Lemma u32_add_r x y : u32 (x + u32 y) = u32 (x + y).
Proof. unfold u32. by rewrite Zplus_mod_idemp_r. Qed.

(** The unrolled lines read what the reference does, in 32 bits. *)
Lemma read_groups_leb n s acc p :
  bytes_ok p -> 0 <= s -> s + 7 * Z.of_nat n <= 38 -> 0 <= acc < 2 ^ s -> is_u32 acc ->
  read_groups (shifts n s) acc p = '(d, v, p) ← leb n p; Ok (d, u32 (acc + v * 2 ^ s), p).
Proof.
  revert s acc p. induction n as [|n IH]; intros s acc p Hp Hs Hn Hacc Ha32.
  { cbn. by rewrite Z.mul_0_l, Z.add_0_r, u32_id. }
  rewrite shifts_S. destruct p as [|b p]; [done|]. apply Forall_cons in Hp as [Hb Hp]. cbn [read_groups leb next_byte]. rewrite !bind_ok.
  rewrite land_127 by done. unfold is_u8 in Hb. set (x := if b <? 128 then b else b - 128).
  assert (0 <= x < 128) as Hx by (unfold x; destruct (Z.ltb_spec b 128); lia).
  destruct (lor_group acc x s ltac:(lia) Hacc ltac:(lia)) as [E Hlt]. specialize (Hlt (proj2 Hx)). rewrite E in *.
  assert (acc + u32 (x * 2 ^ s) = u32 (acc + x * 2 ^ s)) as Er.
  { rewrite <- E, <- u32_add_r, <- E. symmetry. apply u32_id. unfold is_u32. rewrite E.
    pose proof (u32_range (x * 2 ^ s)) as Hr. unfold is_u32 in *. split; [lia|].
    assert (0 < 2 ^ s) by (apply Z.pow_pos_nonneg; lia).
    assert (u32 (x * 2 ^ s) = 2 ^ s * (x mod 2 ^ (32 - s))) as ->.
    { unfold u32. replace (2 ^ 32) with (2 ^ (32 - s) * 2 ^ s) by (rewrite <- Z.pow_add_r by lia; f_equal; lia).
      rewrite Z.mul_mod_distr_r by (try apply Z.pow_nonzero; lia). lia. }
    assert (2 ^ 32 = 2 ^ s * 2 ^ (32 - s)) as -> by (rewrite <- Z.pow_add_r by lia; f_equal; lia).
    assert (0 < 2 ^ (32 - s)) by (apply Z.pow_pos_nonneg; lia). pose proof (Z.mod_pos_bound x (2 ^ (32 - s)) ltac:(lia)). nia. }
  unfold x in *. destruct (Z.ltb_spec b 128) as [Hb'|Hb']; rewrite Er; [done|].
  rewrite IH; [|done|lia|lia| |apply u32_range].
  - rewrite bind_assoc. apply bind_ext. intros [[d v] p'] _. cbn. do 3 f_equal. unfold u32.
    rewrite Zplus_mod_idemp_l. f_equal. rewrite Z.pow_add_r by lia. change (2 ^ 7) with 128. ring.
  - rewrite <- Er. split; [|exact Hlt]. apply Z.add_nonneg_nonneg; [apply Hacc|apply u32_range].
Qed.

Lemma leb_S n b p :
  leb (S n) (b :: p) = if b <? 128 then Ok (true, b, p) else '(d, v, p) ← leb n p; Ok (d, b - 128 + 128 * v, p).
Proof. done. Qed.

Lemma leb_app n m p :
  leb (n + m) p = '(d, v, p) ← leb n p;
    if d : bool then Ok (true, v, p) else '(d', v', p) ← leb m p; Ok (d', v + v' * 2 ^ (7 * Z.of_nat n), p).
Proof.
  revert p. induction n as [|n IH]; intros p.
  { cbn [Nat.add leb]. rewrite bind_ok. destruct (leb m p) as [[[d v] p']| |]; cbn; try done. by rewrite Z.mul_1_r. }
  cbn [Nat.add leb]. rewrite bind_assoc. apply bind_ext. intros [b q] _. destruct (b <? 128); [done|]. rewrite IH, !bind_assoc.
  apply bind_ext. intros [[d v] q'] _. destruct d; [done|]. rewrite bind_assoc, bind_ok. apply bind_ext. intros [[d' v'] q''] _.
  rewrite bind_ok. do 3 f_equal. replace (7 * Z.of_nat (S n)) with (7 + 7 * Z.of_nat n) by lia. rewrite Z.pow_add_r by lia. change (2 ^ 7) with 128. ring.
Qed.

Lemma varint32_decoder p : bytes_ok p -> DecodeUnsignedVarint32 p = leb_decode 5 32 p.
Proof.
  intros Hp.
  destruct p as [|b p]; [done|]. unfold DecodeUnsignedVarint32, leb_decode. apply Forall_cons in Hp as [Hb Hp].
  rewrite leb_S. cbn [next_byte]. rewrite !bind_ok, land_127 by done. unfold is_u8 in Hb. rewrite Z.leb_antisym.
  destruct (Z.ltb_spec b 128); cbn [negb]; [rewrite bind_ok, Z.mod_small by lia; done|].
  change [7; 14; 21; 28] with (shifts 4 7). rewrite read_groups_leb by (unfold is_u32; done || lia). rewrite !bind_assoc.
  apply bind_ext. intros [[d v] q] _. rewrite !bind_ok. destruct d; [|done]. unfold u32. do 3 f_equal. change (2 ^ 7) with 128. lia.
Qed.

Lemma varint64_decoder p : bytes_ok p -> DecodeUnsignedVarint64 p = leb_decode 10 64 p.
Proof.
  intros Hp.
  unfold DecodeUnsignedVarint64, leb_decode. change 10%nat with (4 + (4 + 2))%nat. rewrite leb_app.
  change [0; 7; 14; 21] with (shifts 4 0). change [0; 7] with (shifts 2 0).
  rewrite read_groups_leb by (unfold is_u32; done || lia). rewrite !bind_assoc. apply bind_ext. intros [[d1 v1] p1] E1. rewrite !bind_ok.
  destruct (leb_range 4 p d1 v1 p1 Hp E1) as [R1 Hp1]. cbn in R1. change (2 ^ 0) with 1. rewrite Z.add_0_l, Z.mul_1_r.
  destruct d1; [rewrite bind_ok; unfold u32; by rewrite !Z.mod_small by lia|].
  rewrite leb_app, read_groups_leb by (unfold is_u32; done || lia). rewrite !bind_assoc. apply bind_ext. intros [[d2 v2] p2] E2. rewrite !bind_ok.
  destruct (leb_range 4 p1 d2 v2 p2 Hp1 E2) as [R2 Hp2]. cbn in R2. change (2 ^ 0) with 1. rewrite Z.add_0_l, Z.mul_1_r.
  change (2 ^ (7 * Z.of_nat 4)) with (2 ^ 28). unfold u32. rewrite !(Z.mod_small _ (2 ^ 32)) by lia.
  assert (Z.lor v1 (u64 (Z.shiftl v2 28)) = v1 + v2 * 2 ^ 28) as E12.
  { rewrite Z.shiftl_mul_pow2, u64_id, lor_add_shift by (unfold is_u64; lia). lia. }
  destruct d2; [rewrite !bind_ok, E12; by rewrite Z.mod_small by lia|].
  rewrite read_groups_leb by (unfold is_u32; done || lia). rewrite !bind_assoc. apply bind_ext. intros [[d3 v3] p3] E3. rewrite !bind_ok.
  destruct (leb_range 2 p2 d3 v3 p3 Hp2 E3) as [R3 _]. cbn in R3. change (2 ^ 0) with 1. rewrite Z.add_0_l, Z.mul_1_r.
  destruct d3; [|done]. rewrite E12. unfold u32. rewrite (Z.mod_small v3) by lia. do 2 f_equal.
  rewrite Z.shiftl_mul_pow2 by lia. assert (u64 (v3 * 2 ^ 56) = (v3 mod 256) * 2 ^ 56) as ->.
  { unfold u64. change (2 ^ 64) with (2 ^ 8 * 2 ^ 56). by rewrite Z.mul_mod_distr_r. }
  rewrite lor_add_shift by lia. lia.
Qed.

(** Both decoders are the reference reader, of up to 5 and up to 10 bytes,
    with the value cut to 32 and to 64 bits: they read the same bytes, reject the
    same strings, and look no further than the byte that ends the number. *)
Theorem varint_decoders p : bytes_ok p ->
  DecodeUnsignedVarint32 p = leb_decode 5 32 p /\ DecodeUnsignedVarint64 p = leb_decode 10 64 p.
Proof. intros Hp. split; [by apply varint32_decoder|by apply varint64_decoder]. Qed.

Lemma varint_decoders_witness : bytes_ok [172; 2; 7] /\ DecodeUnsignedVarint32 [172; 2; 7] = leb_decode 5 32 [172; 2; 7]
  /\ DecodeUnsignedVarint64 [172; 2; 7] = leb_decode 10 64 [172; 2; 7] /\ leb_decode 10 64 [172; 2; 7] = Ok (300, [7]).
Proof.
  assert (bytes_ok [172; 2; 7]) as H by (repeat constructor; lia).
  split; [exact H|]. destruct (varint_decoders _ H) as [H1 H2]. split; [exact H1|]. split; [exact H2|reflexivity].
Defined.

(** ** Encoding *)

Lemma or_128 x : u8 (Z.lor x 128) = x mod 128 + 128.
Proof.
  unfold u8. rewrite <- Z.land_ones, Z.land_lor_distr_l, !Z.land_ones by lia. change (128 mod 2 ^ 8) with (1 * 2 ^ 7).
  assert (x mod 2 ^ 8 < 128 \/ 128 <= x mod 2 ^ 8) as [H|H] by lia.
  - rewrite Z.lor_comm, lor_shift_add by lia. lia.
  - replace (x mod 2 ^ 8) with (1 * 2 ^ 7 + x mod 2 ^ 7) by lia. rewrite <- (lor_shift_add 1 (x mod 2 ^ 7) 7) by lia.
    rewrite (Z.lor_comm (1 * 2 ^ 7)), <- Z.lor_assoc, Z.lor_diag, Z.lor_comm, lor_shift_add by lia. lia.
Qed.

Lemma leb_bytes_last n v : 0 <= v < 128 -> leb_bytes (S n) v = [v].
Proof. intros Hv. cbn [leb_bytes]. by rewrite (proj2 (Z.ltb_lt v 128)) by lia. Qed.

Lemma leb_bytes_more n v : 128 <= v -> leb_bytes (S n) v = (v mod 128 + 128) :: leb_bytes n (v / 128).
Proof. intros Hv. cbn [leb_bytes]. by rewrite (proj2 (Z.ltb_ge v 128)) by lia. Qed.

Lemma EncodeUnsignedVarint32_leb n v : is_u32 v -> EncodeUnsignedVarint32 v = leb_bytes (5 + n) v.
Proof.
  intros Hv. unfold is_u32 in Hv. unfold EncodeUnsignedVarint32. cbn [Nat.add].
  rewrite !Z.shiftl_1_l, !Z.shiftr_div_pow2 by lia.
  assert (v / 2 ^ 14 = v / 128 / 128) as -> by (by rewrite Z.div_div by lia).
  assert (v / 2 ^ 21 = v / 128 / 128 / 128) as -> by (by rewrite !Z.div_div by lia).
  assert (v / 2 ^ 28 = v / 128 / 128 / 128 / 128) as -> by (by rewrite !Z.div_div by lia). change (v / 2 ^ 7) with (v / 128).
  destruct (Z.ltb_spec v (2 ^ 7)); [by rewrite u8_id, leb_bytes_last by (unfold is_u8; lia)|].
  destruct (Z.ltb_spec v (2 ^ 14)); [|destruct (Z.ltb_spec v (2 ^ 21)); [|destruct (Z.ltb_spec v (2 ^ 28))]].
  - rewrite leb_bytes_more by lia. rewrite or_128, leb_bytes_last, u8_id by (unfold is_u8; lia). done.
  - rewrite !leb_bytes_more by lia. rewrite !or_128, leb_bytes_last, u8_id by (unfold is_u8; lia). done.
  - rewrite !leb_bytes_more by lia. rewrite !or_128, leb_bytes_last, u8_id by (unfold is_u8; lia). done.
  - rewrite !leb_bytes_more by lia. rewrite !or_128, leb_bytes_last, u8_id by (unfold is_u8; lia). done.
Qed.

Lemma EncodeUnsignedVarint64_leb v : is_u64 v -> EncodeUnsignedVarint64 v = leb_bytes 10 v.
Proof.
  intros Hv. unfold is_u64 in Hv. unfold EncodeUnsignedVarint64. rewrite !Z.shiftl_1_l. destruct (Z.ltb_spec v (2 ^ 28)) as [Hl|Hl].
  { rewrite u32_id by (unfold is_u32; lia). apply (EncodeUnsignedVarint32_leb 5). unfold is_u32. lia. }
  rewrite !or_128, !Z.shiftr_div_pow2 by lia. unfold u32 at 1 2 3 4 5 6 7 8. change 128 with (2 ^ 7). rewrite !mod_div_mod by lia.
  assert ((v mod 2 ^ 32) mod 2 ^ 7 = v mod 2 ^ 7) as -> by lia. change (2 ^ 7) with 128.
  assert (v / 2 ^ 14 = v / 128 / 128) as -> by (by rewrite Z.div_div by lia).
  assert (v / 2 ^ 21 = v / 128 / 128 / 128) as -> by (by rewrite !Z.div_div by lia).
  assert (v / 2 ^ 28 = v / 128 / 128 / 128 / 128) as -> by (by rewrite !Z.div_div by lia).
  assert (v / 2 ^ 35 = v / 128 / 128 / 128 / 128 / 128) as -> by (by rewrite !Z.div_div by lia).
  do 4 (rewrite (leb_bytes_more _ _) by lia). destruct (Z.ltb_spec v (2 ^ 35)).
  - rewrite leb_bytes_last, u8_id by (unfold is_u8; lia). done.
  - rewrite leb_bytes_more by lia. rewrite u32_id by (unfold is_u32; lia). rewrite (EncodeUnsignedVarint32_leb 0) by (unfold is_u32; lia). done.
Qed.

Lemma leb_leb_bytes n m v rest : 0 <= v < 2 ^ (7 * Z.of_nat (S n)) -> (n <= m)%nat -> leb (S m) (leb_bytes (S n) v ++ rest) = Ok (true, v, rest).
Proof.
  revert m v. induction n as [|n IH]; intros m v Hv Hm.
  { change (2 ^ (7 * Z.of_nat 1)) with 128 in Hv. rewrite leb_bytes_last by lia. cbn [app]. rewrite leb_S, (proj2 (Z.ltb_lt v 128)) by lia. done. }
  destruct (Z.ltb_spec v 128); [rewrite leb_bytes_last by lia; cbn [app]; by rewrite leb_S, (proj2 (Z.ltb_lt v 128)) by lia|].
  rewrite leb_bytes_more by lia. cbn [app]. rewrite leb_S, (proj2 (Z.ltb_ge _ 128)) by lia. destruct m as [|m]; [lia|].
  replace (7 * Z.of_nat (S (S n))) with (7 + 7 * Z.of_nat (S n)) in Hv by lia. rewrite Z.pow_add_r in Hv by lia. change (2 ^ 7) with 128 in Hv.
  rewrite IH by lia. rewrite bind_ok. do 3 f_equal. lia.
Qed.

Lemma leb_consumed n p d v rest : bytes_ok p -> leb n p = Ok (d, v, rest) ->
  exists c, p = c ++ rest /\ 0 <= v < 2 ^ (7 * Z.of_nat (length c)) /\ (d = true -> c <> []).
Proof.
  revert p d v. induction n as [|n IH]; intros p d v Hp; [intros [= <- <- <-]; exists []; split; [done|]; split; [cbn; lia|done]|].
  destruct p as [|b p]; [done|]. apply Forall_cons in Hp as [Hb Hp]. unfold is_u8 in Hb. rewrite leb_S. destruct (Z.ltb_spec b 128).
  - intros [= <- <- <-]. exists [b]. split; [done|]. split; [cbn; lia|done].
  - destruct (leb n p) as [[[d' v'] p']| |] eqn:E; try done. intros [= -> <- ->]. destruct (IH p d v' Hp E) as (c & -> & Hv & _).
    exists (b :: c). split; [done|]. split; [|done]. cbn [length]. replace (7 * Z.of_nat (S (length c))) with (7 + 7 * Z.of_nat (length c)) by lia.
    rewrite Z.pow_add_r by lia. change (2 ^ 7) with 128. lia.
Qed.

Lemma leb_bytes_length n m v : 0 <= v < 2 ^ (7 * Z.of_nat (S n)) -> (1 <= length (leb_bytes (S m) v) <= S n)%nat.
Proof.
  revert m v. induction n as [|n IH]; intros m v Hv.
  { change (2 ^ (7 * Z.of_nat 1)) with 128 in Hv. rewrite leb_bytes_last by lia. cbn. lia. }
  destruct (Z.ltb_spec v 128); [rewrite leb_bytes_last by lia; cbn; lia|]. rewrite leb_bytes_more by lia. cbn [length].
  replace (7 * Z.of_nat (S (S n))) with (7 + 7 * Z.of_nat (S n)) in Hv by lia. rewrite Z.pow_add_r in Hv by lia. change (2 ^ 7) with 128 in Hv.
  destruct m as [|m]; [cbn; lia|]. specialize (IH m (v / 128) ltac:(lia)). lia.
Qed.

Lemma leb_bytes_ok n v : 0 <= v -> bytes_ok (leb_bytes n v).
Proof.
  revert v. induction n as [|n IH]; intros v Hv; [constructor|]. cbn [leb_bytes]. destruct (Z.ltb_spec v 128); constructor; unfold is_u8; try lia; [constructor|].
  apply IH. lia.
Qed.

Lemma varint_read_back v rest : is_u64 v -> bytes_ok rest -> DecodeUnsignedVarint64 (EncodeUnsignedVarint64 v ++ rest) = Ok (v, rest).
Proof.
  intros Hv Hrest. rewrite EncodeUnsignedVarint64_leb by done. unfold is_u64 in Hv. assert (2 ^ 70 = 64 * 2 ^ 64) as E70 by done.
  rewrite varint64_decoder by (apply Forall_app; split; [apply leb_bytes_ok; lia|done]).
  unfold leb_decode. rewrite (leb_leb_bytes 9 9) by (cbn; lia). rewrite bind_ok, Z.mod_small by lia. done.
Qed.

(** C24. A number encoded in 64 bits is read back with what follows untouched, in
    at most ten bytes and in no more than any other string the decoder reads as
    that number; a 32-bit number has the same encoding with both functions, of at
    most five bytes, and the 32-bit decoder reads it back too. *)
Theorem varint_round_trip v rest : is_u64 v -> bytes_ok rest ->
  let e := EncodeUnsignedVarint64 v in
  DecodeUnsignedVarint64 (e ++ rest) = Ok (v, rest) /\ (1 <= length e <= 10)%nat
  /\ (forall c, bytes_ok c -> DecodeUnsignedVarint64 (c ++ rest) = Ok (v, rest) -> (length e <= length c)%nat)
  /\ (is_u32 v -> EncodeUnsignedVarint32 v = e /\ (length e <= 5)%nat /\ DecodeUnsignedVarint32 (e ++ rest) = Ok (v, rest)).
Proof.
  intros Hv Hrest e. unfold e. rewrite EncodeUnsignedVarint64_leb by done. unfold is_u64 in Hv.
  assert (bytes_ok (leb_bytes 10 v)) as Hok by (apply leb_bytes_ok; lia).
  assert (bytes_ok (leb_bytes 10 v ++ rest)) as Hall by by apply Forall_app. pose proof (varint32_decoder _ Hall) as D32.
  assert (2 ^ 70 = 64 * 2 ^ 64) as E70 by done. split; [|split; [|split]].
  - rewrite <- EncodeUnsignedVarint64_leb by done. by apply varint_read_back.
  - apply leb_bytes_length. cbn. lia.
  - intros c Hc. rewrite varint64_decoder by (by apply Forall_app). unfold leb_decode.
    destruct (leb 10 (c ++ rest)) as [[[d w] r]| |] eqn:El; try done. rewrite bind_ok. destruct d; [|done]. intros [= Hw Hr]. subst r.
    destruct (leb_consumed 10 (c ++ rest) true w rest ltac:(by apply Forall_app) El) as (c' & Ec & Hc' & Hne). apply app_inv_tail in Ec. subst c'.
    destruct c as [|b c]; [by specialize (Hne eq_refl)|]. apply leb_bytes_length. cbn [length] in Hc'.
    split; [lia|]. apply Z.le_lt_trans with w; [|apply Hc']. rewrite <- Hw. apply Z.mod_le; lia.
  - intros H32. unfold is_u32 in H32. split; [by apply (EncodeUnsignedVarint32_leb 5)|]. split.
    + apply (leb_bytes_length 4). change (2 ^ (7 * Z.of_nat 5)) with (8 * 2 ^ 32). lia.
    + rewrite D32. unfold leb_decode.
      rewrite <- (EncodeUnsignedVarint32_leb 5), (EncodeUnsignedVarint32_leb 0) by done. rewrite (leb_leb_bytes 4 4) by (cbn; lia). rewrite bind_ok, Z.mod_small by lia. done.
Qed.

Lemma varint_round_trip_witness : let e := EncodeUnsignedVarint64 300 in
  DecodeUnsignedVarint64 (e ++ [7]) = Ok (300, [7]) /\ (1 <= length e <= 10)%nat
  /\ (forall c, bytes_ok c -> DecodeUnsignedVarint64 (c ++ [7]) = Ok (300, [7]) -> (length e <= length c)%nat)
  /\ (is_u32 300 -> EncodeUnsignedVarint32 300 = e /\ (length e <= 5)%nat /\ DecodeUnsignedVarint32 (e ++ [7]) = Ok (300, [7])).
Proof. apply (varint_round_trip 300 [7]); [unfold is_u64; lia|repeat constructor; lia]. Defined.
