(* ===== verification/RecordIO.v ===== *)
(** * Record files and direct output: utilities/recordio.cc, emitters/szlrecordio.cc, emitters/szltext.cc

    A record file is a sequence of records, each after its length as a varint.
    The reader, the writer, the loop of app/szl.cc over a file, and the table
    entries that write their values directly. *)
From Stdlib Require Import ZArith Lia.
From stdpp Require Import prelude.
From S2P Require Import Prelude Varint.

Local Open Scope Z_scope.

(** ** Files *)

(** A [FILE] open for reading: the bytes left; what follows them, the end of the
    file or an error of the system; and [feof]. *)
Record FileIn := MkFileIn { left_in : bytes; fault : option bytes; at_eof : bool }.

(** Reading past the last byte. *)
Definition past_end (f : FileIn) : FileIn :=
  MkFileIn [] (fault f) (at_eof f || match fault f with None => true | Some _ => false end).

Definition fgetc (f : FileIn) : option Z * FileIn :=
  match left_in f with
  | [] => (None, past_end f)
  | b :: l => (Some b, MkFileIn l (fault f) (at_eof f))
  end.

(** [fread] of bytes: those read, fewer at the end. *)
Definition fread (n : Z) (f : FileIn) : bytes * FileIn :=
  if n <=? Z.of_nat (length (left_in f)) then
    (take (Z.to_nat n) (left_in f), MkFileIn (drop (Z.to_nat n) (left_in f)) (fault f) (at_eof f))
  else (left_in f, past_end f).

(** A [FILE] open for writing, that takes [room] more bytes. *)
Record FileOut := MkFileOut { written : bytes; room : Z }.

Definition fwrite (b : bytes) (f : FileOut) : Z * FileOut :=
  let n := Z.min (Z.of_nat (length b)) (Z.max 0 (room f)) in
  (n, MkFileOut (written f ++ take (Z.to_nat n) b) (room f - n)).

(** ** The reader *)

Inductive read_error : Type :=
| CorruptLength
| CorruptLengthAtEOF
| EOFInRecord
| SystemError (m : bytes).

(** [error_message_] is [None] when empty. Of [buffer_] its size is kept: what a
    call leaves in it is the record it returns. *)
(* @src src/src/public/recordio.h 39-43 RecordReader (data members) *)
Record RecordReader := MkReader { file_ : FileIn; buffer_size_ : Z; error_message_ : option read_error }.

Definition set_file (f : FileIn) (r : RecordReader) : RecordReader := MkReader f (buffer_size_ r) (error_message_ r).
Definition set_message (m : read_error) (r : RecordReader) : RecordReader := MkReader (file_ r) (buffer_size_ r) (Some m).
Definition set_buffer_size (n : Z) (r : RecordReader) : RecordReader := MkReader (file_ r) n (error_message_ r).

(* @src src/src/public/recordio.h 26-26 RecordReader::RecordReader *)
Definition reader_new (f : FileIn) : RecordReader := MkReader f 0 None.

(** What the loop over the length reads into [prefix], of which [space] bytes are
    free, or the message it leaves; none at the end of the file. *)
(* @src src/src/utilities/recordio.cc 42-57 RecordReader::Read *)
Fixpoint read_prefix (space : nat) (prefix : bytes) (f : FileIn) : (bytes + option read_error) * FileIn :=
  match space with
  | O => (inr (Some CorruptLength), f)
  | S space =>
      match fgetc f with
      | (None, f) => (inr (match prefix with [] => None | _ => Some CorruptLengthAtEOF end), f)
      | (Some next, f) =>
          let prefix := prefix ++ [next] in
          if 128 <=? next then read_prefix space prefix f else (inl prefix, f)
      end
  end.

Section Reader.
(** The biggest array [new] can allocate; it throws for a bigger one. *)
Context (max_alloc : Z).

(** The record, or nothing for [false]. *)
(* @src src/src/utilities/recordio.cc 40-81 RecordReader::Read *)
Definition Read (r : RecordReader) : res (option bytes * RecordReader) :=
  let '(p, f) := read_prefix 10 [] (file_ r) in
  let r := set_file f r in
  match p with
  | inr None => Ok (None, r)
  | inr (Some m) => Ok (None, set_message m r)
  | inl prefix =>
      '(size, _) ← DecodeUnsignedVarint64 prefix;
      if negb (u64 size =? size) then Ok (None, set_message CorruptLength r)
      else
        r ← (if buffer_size_ r <? size then if max_alloc <? size then Fatal else Ok (set_buffer_size size r) else Ok r);
        let '(record, f) := fread size (file_ r) in
        let r := set_file f r in
        if Z.of_nat (length record) =? size then Ok (Some record, r)
        else if at_eof f then Ok (None, set_message EOFInRecord r)
        else Ok (None, set_message (SystemError (default [] (fault f))) r)
  end.

(** The records handed to the process with their numbers, and the reader. *)
(* @src src/src/app/szl.cc 126-137 ApplyToRecords *)
Fixpoint apply_loop (fuel : nat) (first last record_number : Z) (r : RecordReader) : res (list (Z * bytes) * RecordReader) :=
  match fuel with
  | O => Fatal
  | S fuel =>
      if record_number <? last then
        '(o, r) ← Read r;
        match o with
        | None => Ok ([], r)
        | Some record =>
            '(l, r) ← apply_loop fuel first last (u64 (record_number + 1)) r;
            Ok (if first <=? record_number then (record_number, record) :: l else l, r)
        end
      else Ok ([], r)
  end.

(** Every record takes a byte at least. The function begins with [assert(false)],
    which aborts unless the build has [NDEBUG], the assertions compiled out. *)
(* @src src/src/app/szl.cc 120-147 ApplyToRecords *)
Definition ApplyToRecords (ndebug : bool) (first last : Z) (f : FileIn) : res (list (Z * bytes) * RecordReader) :=
  if ndebug then apply_loop (S (S (length (left_in f)))) first last 0 (reader_new f) else Fatal.
End Reader.

(** ** The writer *)

(** The boolean of [error_message_] is false while it is empty. *)
(* @src src/src/public/recordio.h 61-63 RecordWriter (data members) *)
Record RecordWriter := MkWriter { w_file : FileOut; w_error : bool }.

(* @src src/src/utilities/recordio.cc 93-105 RecordWriter::Write *)
Definition Write (record : bytes) (w : RecordWriter) : bool * RecordWriter :=
  let prefix := EncodeUnsignedVarint64 (u64 (Z.of_nat (length record))) in
  let '(n, f) := fwrite prefix (w_file w) in
  if negb (n =? Z.of_nat (length prefix)) then (false, MkWriter f (w_error w))
  else
    let '(n, f) := fwrite record f in
    if n =? Z.of_nat (length record) then (true, MkWriter f (w_error w)) else (false, MkWriter f true).

(** Direct output: a write that fails aborts. [CreateOutput] may have left no
    writer. *)
(* @src src/src/emitters/szlrecordio.cc 97-100 SzlRecordio::SzlRecordioEntry::Write *)
Definition recordio_Write (val : bytes) (w : option RecordWriter) : res (option RecordWriter) :=
  match w with
  | None => Fatal
  | Some w => let '(ok, w) := Write val w in if ok then Ok (Some w) else Fatal
  end.

(** [DCHECK] is checked in debug builds; without a file [fwrite] is undefined. *)
(* @src src/src/emitters/szltext.cc 82-86 SzlText::SzlTextEntry::Write *)
Definition text_Write (val : bytes) (f : option FileOut) : res (option FileOut) :=
  match f with
  | None => Fatal
  | Some f => let '(count, f) := fwrite val f in if count =? Z.of_nat (length val) then Ok (Some f) else Fatal
  end.

(** The values of a table, written in turn. *)
Fixpoint write_all {W} (wr : bytes -> option W -> res (option W)) (vals : list bytes) (w : option W) : res (option W) :=
  match vals with
  | [] => Ok w
  | val :: vals => w ← wr val w; write_all wr vals w
  end.

(** ** Reading a record *)

(** A record in a file. *)
Definition frame (r : bytes) : bytes := EncodeUnsignedVarint64 (Z.of_nat (length r)) ++ r.
Definition frames (rs : list bytes) : bytes := concat (map frame rs).

Lemma read_prefix_ok n space pre v rest ft e : 0 <= v < 2 ^ (7 * Z.of_nat (S n)) -> (S n <= space)%nat ->
  read_prefix space pre (MkFileIn (leb_bytes (S n) v ++ rest) ft e) = (inl (pre ++ leb_bytes (S n) v), MkFileIn rest ft e).
Proof.
  revert space pre v. induction n as [|n IH]; intros [|space] pre v Hv Hs; try lia.
  - change (2 ^ (7 * Z.of_nat 1)) with 128 in Hv. rewrite leb_bytes_last by lia. cbn. by rewrite (proj2 (Z.leb_gt 128 v)) by lia.
  - destruct (Z.ltb_spec v 128); [rewrite leb_bytes_last by lia; cbn; by rewrite (proj2 (Z.leb_gt 128 v)) by lia|].
    rewrite leb_bytes_more by lia. cbn [read_prefix fgetc left_in app fault at_eof].
    pose proof (Z.mod_pos_bound v 128 ltac:(lia)). rewrite (proj2 (Z.leb_le 128 _)) by lia.
    replace (7 * Z.of_nat (S (S n))) with (7 + 7 * Z.of_nat (S n)) in Hv by lia. rewrite Z.pow_add_r in Hv by lia. change (2 ^ 7) with 128 in Hv.
    rewrite IH by (lia || (split; [apply Z.div_pos; lia|apply Z.div_lt_upper_bound; lia])). by rewrite <- app_assoc.
Qed.

Lemma read_prefix_cut n space pre v c d ft e : leb_bytes n v = c ++ d -> d <> [] -> (length c < space)%nat ->
  read_prefix space pre (MkFileIn c ft e) = (inr (match pre ++ c with [] => None | _ => Some CorruptLengthAtEOF end), past_end (MkFileIn c ft e)).
Proof.
  revert space pre v c. induction n as [|n IH]; intros [|space] pre v c Hc Hd Hs; try (cbn in Hs; lia).
  - symmetry in Hc. by apply app_nil in Hc as [_ ?].
  - destruct c as [|b c]; [by rewrite app_nil_r|]. cbn [leb_bytes] in Hc. destruct (Z.ltb_spec v 128).
    { injection Hc as _ Hc. symmetry in Hc. by apply app_nil in Hc as [_ ?]. }
    injection Hc as <- Hc. cbn [read_prefix fgetc left_in fault at_eof]. pose proof (Z.mod_pos_bound v 128 ltac:(lia)).
    rewrite (proj2 (Z.leb_le 128 _)) by lia. rewrite (IH space _ (v / 128) c Hc Hd) by (cbn in Hs; lia). by rewrite <- app_assoc.
Qed.

Section Reading.
Context (max_alloc : Z) (Hmax : max_alloc < 2 ^ 64).
Definition record_ok (r : bytes) : Prop := Z.of_nat (length r) <= max_alloc.

Lemma length_leb r : record_ok r -> EncodeUnsignedVarint64 (Z.of_nat (length r)) = leb_bytes 10 (Z.of_nat (length r)).
Proof. intros Hr. unfold record_ok in Hr. apply EncodeUnsignedVarint64_leb. unfold is_u64. lia. Qed.

Lemma read_length r : record_ok r -> DecodeUnsignedVarint64 (EncodeUnsignedVarint64 (Z.of_nat (length r))) = Ok (Z.of_nat (length r), []).
Proof.
  intros Hr. unfold record_ok in Hr. pose proof (varint_read_back (Z.of_nat (length r)) []) as E. rewrite app_nil_r in E.
  apply E; [unfold is_u64; lia|constructor].
Qed.

Lemma Read_frame r rest ft e bs m : record_ok r ->
  Read max_alloc (MkReader (MkFileIn (frame r ++ rest) ft e) bs m)
  = Ok (Some r, MkReader (MkFileIn rest ft e) (Z.max bs (Z.of_nat (length r))) m).
Proof.
  intros Hr. pose proof Hr as Hr'. unfold record_ok in Hr'. unfold Read, frame. cbn [file_]. rewrite <- app_assoc, length_leb by done.
  rewrite (read_prefix_ok 9 10) by (cbn; lia). cbn [app]. rewrite <- (length_leb r), read_length by done. cbn [mbind res_bind].
  rewrite u64_id by (unfold is_u64; lia). rewrite Z.eqb_refl. cbn [negb set_file buffer_size_ file_].
  assert (fread (Z.of_nat (length r)) (MkFileIn (r ++ rest) ft e) = (r, MkFileIn rest ft e)) as Ef.
  { unfold fread. cbn [left_in fault at_eof]. rewrite length_app, (proj2 (Z.leb_le _ _)) by lia. by rewrite Nat2Z.id, take_app_length, drop_app_length. }
  destruct (Z.ltb_spec bs (Z.of_nat (length r))).
  - rewrite (proj2 (Z.ltb_ge max_alloc _)) by lia. cbn [mbind res_bind set_buffer_size set_file file_ buffer_size_ error_message_]. rewrite Ef, Z.eqb_refl.
    rewrite Z.max_r by lia. done.
  - cbn [mbind res_bind set_file file_ buffer_size_ error_message_]. rewrite Ef, Z.eqb_refl. rewrite Z.max_l by lia. done.
Qed.

(** What is left when the record [r] is cut after [c]. *)
Definition cut_message (c r : bytes) (ft : option bytes) : option read_error :=
  match c with
  | [] => None
  | _ => Some (if (length c <? length (EncodeUnsignedVarint64 (Z.of_nat (length r))))%nat then CorruptLengthAtEOF
               else match ft with None => EOFInRecord | Some m => SystemError m end)
  end.

Lemma Read_cut r c d ft bs : record_ok r -> frame r = c ++ d -> d <> [] -> exists reader,
  Read max_alloc (MkReader (MkFileIn c ft false) bs None) = Ok (None, reader) /\ error_message_ reader = cut_message c r ft.
Proof.
  intros Hr Hc Hd. pose proof Hr as Hr'. unfold record_ok in Hr'. unfold Read, cut_message. cbn [file_]. unfold frame in Hc.
  set (p := EncodeUnsignedVarint64 (Z.of_nat (length r))) in *. assert (p = leb_bytes 10 (Z.of_nat (length r))) as Ep by by apply length_leb.
  assert (1 <= length p <= 10)%nat as Hl by (rewrite Ep; apply leb_bytes_length; cbn; lia).
  destruct (Nat.ltb_spec (length c) (length p)) as [Hlt|Hge].
  - assert (p = c ++ drop (length c) p) as Esplit.
    { rewrite <- (take_drop (length c) p) at 1. f_equal. apply (f_equal (take (length c))) in Hc. by rewrite take_app_le, take_app_length in Hc by lia. }
    rewrite (read_prefix_cut 10 10 [] (Z.of_nat (length r)) c (drop (length c) p)); [|by rewrite <- Ep| |lia].
    + cbn [app]. destruct c as [|b c]; eexists; by split.
    + intros E. apply (f_equal length) in E. rewrite length_drop in E. cbn in E. lia.
  - assert (c = p ++ drop (length p) c) as Esplit.
    { rewrite <- (take_drop (length p) c) at 1. f_equal. apply (f_equal (take (length p))) in Hc. by rewrite take_app_length, take_app_le in Hc by lia. }
    set (c' := drop (length p) c) in *. rewrite Esplit in Hc. rewrite <- app_assoc in Hc. apply app_inv_head in Hc.
    rewrite Esplit, Ep, (read_prefix_ok 9 10) by (cbn; lia). cbn [app]. rewrite <- Ep, (read_length r Hr : DecodeUnsignedVarint64 p = _). cbn [mbind res_bind].
    rewrite u64_id by (unfold is_u64; lia). rewrite Z.eqb_refl. cbn [negb set_file buffer_size_ file_].
    assert (length c' < length r)%nat as Hshort by (rewrite Hc, length_app; destruct d; [done|cbn; lia]).
    assert (fread (Z.of_nat (length r)) (MkFileIn c' ft false) = (c', past_end (MkFileIn c' ft false))) as Ef.
    { unfold fread. cbn [left_in]. by rewrite (proj2 (Z.leb_gt _ _)) by lia. }
    assert (exists b l, p ++ c' = b :: l) as (b & l & Ebl) by (destruct p; [cbn in Hl; lia|by eexists _, _]).
    destruct (Z.ltb_spec bs (Z.of_nat (length r))); [rewrite (proj2 (Z.ltb_ge max_alloc _)) by lia|];
      cbn [mbind res_bind set_buffer_size set_file file_ buffer_size_ error_message_]; rewrite Ef, (proj2 (Z.eqb_neq _ _)) by lia;
      rewrite Ebl; cbn [past_end fault at_eof orb]; destruct ft; eexists; by split.
Qed.
End Reading.

(** ** Whole files *)

(** Records with their numbers from [i] on. *)
Definition numbered (i : Z) (rs : list bytes) : list (Z * bytes) := imap (fun j r => (i + Z.of_nat j, r)) rs.

Lemma numbered_cons i r rs : numbered i (r :: rs) = (i, r) :: numbered (i + 1) rs.
Proof. unfold numbered. rewrite imap_cons. f_equal; [f_equal; lia|]. apply imap_ext. intros j x _. cbn. f_equal. lia. Qed.

Lemma numbered_from i j rs : i <= j -> Forall (fun x => i <= x.1) (numbered j rs).
Proof. revert j. induction rs as [|r rs IH]; intros j Hj; [constructor|]. rewrite numbered_cons. constructor; [cbn; lia|]. apply IH. lia. Qed.

Lemma frame_ne r : (1 <= length (frame r))%nat.
Proof.
  unfold frame, EncodeUnsignedVarint64, EncodeUnsignedVarint32. repeat case_match; rewrite length_app; cbn; lia.
Qed.

Lemma frames_length rs : (length rs <= length (frames rs))%nat.
Proof.
  induction rs as [|r rs IH]; [done|]. unfold frames in *. cbn [map concat length]. rewrite length_app. pose proof (frame_ne r). lia.
Qed.

Section Loop.
Context (max_alloc : Z) (Hmax : max_alloc < 2 ^ 64).

(** The loop over whole records, where what follows them reads as none. *)
Lemma apply_loop_ok rs fuel first last i tail ft bs m :
  Forall (record_ok max_alloc) rs -> 0 <= i -> i + Z.of_nat (length rs) < 2 ^ 64 -> (S (length rs) <= fuel)%nat ->
  (forall bs, exists reader, Read max_alloc (MkReader (MkFileIn tail ft false) bs None) = Ok (None, reader) /\ error_message_ reader = m) ->
  exists reader, apply_loop max_alloc fuel first last i (MkReader (MkFileIn (frames rs ++ tail) ft false) bs None)
    = Ok (filter (fun x => first <= x.1 < last) (numbered i rs), reader)
  /\ error_message_ reader = if last <=? i + Z.of_nat (length rs) then None else m.
Proof.
  revert fuel i bs. induction rs as [|r rs IH]; intros [|fuel] i bs Hrs Hi Hlen Hf Ht; try (cbn in Hf; lia); cbn [apply_loop length] in *.
  - change (Z.of_nat 0) with 0. rewrite Z.add_0_r. destruct (Z.ltb_spec i last).
    + rewrite (proj2 (Z.leb_gt last i)) by lia. destruct (Ht bs) as (reader & E & Em). change (frames [] ++ tail) with tail. rewrite E. by exists reader.
    + rewrite (proj2 (Z.leb_le last i)) by lia. eexists. split; reflexivity.
  - apply Forall_cons in Hrs as [Hr Hrs]. rewrite numbered_cons, filter_cons. cbn [fst]. destruct (Z.ltb_spec i last).
    + unfold frames. cbn [map concat]. rewrite <- app_assoc, Read_frame by done. cbn [mbind res_bind]. rewrite u64_id by (unfold is_u64; lia).
      destruct (IH fuel (i + 1) (Z.max bs (Z.of_nat (length r))) Hrs ltac:(lia) ltac:(lia) ltac:(lia) Ht) as (reader & E & Em).
      fold (frames rs). rewrite E. cbn [mbind res_bind]. exists reader.
      split; [|rewrite Em; by replace (i + 1 + Z.of_nat (length rs)) with (i + Z.of_nat (S (length rs))) by lia].
      destruct (Z.leb_spec first i); case_decide; try lia; done.
    + rewrite decide_False by lia. rewrite (proj2 (Z.leb_le last _)) by lia. rewrite filter_none; [eexists; by split|].
      eapply Forall_impl; [apply (numbered_from (i + 1)); lia|]. intros x Hx. cbn in Hx. lia.
Qed.

Lemma Read_end ft bs : exists reader, Read max_alloc (MkReader (MkFileIn [] ft false) bs None) = Ok (None, reader) /\ error_message_ reader = None.
Proof. eexists. by split. Qed.
End Loop.

Lemma frames_app rs rs' : frames (rs ++ rs') = frames rs ++ frames rs'.
Proof. unfold frames. by rewrite map_app, concat_app. Qed.

Lemma fwrite_fits b out space : Z.of_nat (length b) <= space -> fwrite b (MkFileOut out space) = (Z.of_nat (length b), MkFileOut (out ++ b) (space - Z.of_nat (length b))).
Proof. intros H. unfold fwrite. cbn [room written]. rewrite Z.max_r, Z.min_l by lia. rewrite Nat2Z.id, take_ge by lia. done. Qed.

Lemma write_all_frames rs out space e : Forall (fun r => is_u64 (Z.of_nat (length r))) rs -> Z.of_nat (length (frames rs)) <= space ->
  write_all recordio_Write rs (Some (MkWriter (MkFileOut out space) e))
  = Ok (Some (MkWriter (MkFileOut (out ++ frames rs) (space - Z.of_nat (length (frames rs)))) e)).
Proof.
  revert out space. induction rs as [|r rs IH]; intros out space Hrs Hs; [cbn; by rewrite app_nil_r, Z.sub_0_r|].
  apply Forall_cons in Hrs as [Hr Hrs]. change (frames (r :: rs)) with (frame r ++ frames rs) in *. set (p := EncodeUnsignedVarint64 (Z.of_nat (length r))).
  change (frame r) with (p ++ r) in *. rewrite !length_app in *. cbn [write_all recordio_Write]. unfold Write. cbn [w_file w_error]. rewrite u64_id by done.
  fold p. rewrite fwrite_fits, Z.eqb_refl by lia. cbn [negb]. rewrite fwrite_fits, Z.eqb_refl by lia. cbn [mbind res_bind].
  rewrite IH by (done || lia). rewrite <- !app_assoc. do 4 f_equal. lia.
Qed.

(** C23. A record file gives back what was written. Values written by a recordio
    table to a file with room for them never abort it; and in a build without
    assertions the loop over the file hands exactly those records to the process,
    in order, with their numbers, from [first] up to [last], and ends without an
    error message. With assertions the first line of ApplyToRecords aborts, whatever
    the file. *)
Theorem record_file_round_trip max_alloc space vals first last :
  max_alloc < 2 ^ 64 -> Forall (fun r => Z.of_nat (length r) <= max_alloc) vals -> Z.of_nat (length vals) < 2 ^ 64 ->
  Z.of_nat (length (frames vals)) <= space ->
  exists w reader, write_all recordio_Write vals (Some (MkWriter (MkFileOut [] space) false)) = Ok (Some w)
  /\ ApplyToRecords max_alloc true first last (MkFileIn (written (w_file w)) None false)
     = Ok (filter (fun x => first <= x.1 < last) (numbered 0 vals), reader)
  /\ error_message_ reader = None
  /\ forall f, ApplyToRecords max_alloc false first last f = Fatal.
Proof.
  intros Hmax Hv Hn Hs. rewrite write_all_frames; [|eapply Forall_impl; [exact Hv|]; intros r Hr; cbn in Hr; unfold is_u64; lia|done].
  eexists. cbn [app]. destruct (apply_loop_ok max_alloc Hmax vals (S (S (length (frames vals)))) first last 0 [] None 0 None) as (reader & E & Em);
    [done|lia|lia|pose proof (frames_length vals); lia|apply Read_end|].
  exists reader. split; [reflexivity|]. rewrite app_nil_r in E. split; [exact E|]. split; [|done]. rewrite Em. by case_match.
Qed.

Lemma record_file_round_trip_witness :
  exists w reader, write_all recordio_Write [[1; 2]; []; [3]] (Some (MkWriter (MkFileOut [] 100) false)) = Ok (Some w)
  /\ ApplyToRecords 1000 true 1 9 (MkFileIn (written (w_file w)) None false)
     = Ok (filter (fun x => 1 <= x.1 < 9) (numbered 0 [[1; 2]; []; [3]]), reader)
  /\ error_message_ reader = None
  /\ forall f, ApplyToRecords 1000 false 1 9 f = Fatal.
Proof. apply (record_file_round_trip 1000 100); [lia|repeat constructor; cbn; lia|cbn; lia|vm_compute; discriminate]. Defined.

(** A record file cut short, in a build without assertions. When a file ends, or
    cannot be read any further, within a record, the loop has handed over exactly the
    records before it, and the message says what happened: nothing when the cut is between records, a
    corrupt length when it is within the length, and otherwise the end of the
    file, or the system's error, in the middle of a record. *)
Theorem record_file_cut max_alloc whole r c d ft :
  max_alloc < 2 ^ 64 -> Forall (fun r => Z.of_nat (length r) <= max_alloc) (whole ++ [r]) -> Z.of_nat (length whole) < 2 ^ 64 - 1 ->
  frame r = c ++ d -> d <> [] ->
  exists reader, ApplyToRecords max_alloc true 0 (2 ^ 64 - 1) (MkFileIn (frames whole ++ c) ft false) = Ok (numbered 0 whole, reader)
  /\ error_message_ reader = cut_message c r ft.
Proof.
  intros Hmax Hv Hn Hc Hd. apply Forall_app in Hv as [Hv Hr]. apply Forall_inv in Hr.
  destruct (apply_loop_ok max_alloc Hmax whole (S (S (length (frames whole ++ c)))) 0 (2 ^ 64 - 1) 0 c ft 0 (cut_message c r ft)) as (reader & E & Em);
    [done|lia|lia|rewrite length_app; pose proof (frames_length whole); lia|intros bs; exact (Read_cut max_alloc Hmax r c d ft bs Hr Hc Hd)|].
  exists reader. rewrite (proj2 (Z.leb_gt _ _)) in Em by lia. split; [|exact Em]. unfold ApplyToRecords. cbn [left_in]. change (reader_new ?f) with (MkReader f 0 None).
  rewrite E. do 2 f_equal. apply filter_all. assert (forall i, 0 <= i -> i + Z.of_nat (length whole) < 2 ^ 64 - 1 -> Forall (fun x => 0 <= x.1 < 2 ^ 64 - 1) (numbered i whole)) as H;
    [|by apply H]. clear. induction whole as [|x whole IH]; intros i Hi Hl; [constructor|]. rewrite numbered_cons. cbn [length] in Hl.
  constructor; [cbn; lia|]. apply IH; lia.
Qed.

Lemma record_file_cut_witness : frame [5; 6; 7] = [3; 5] ++ [6; 7] /\
  exists reader, ApplyToRecords 1000 true 0 (2 ^ 64 - 1) (MkFileIn (frames [[1; 2]; []] ++ [3; 5]) None false) = Ok (numbered 0 [[1; 2]; []], reader)
  /\ error_message_ reader = Some EOFInRecord.
Proof.
  split; [reflexivity|]. apply (record_file_cut 1000 [[1; 2]; []] [5; 6; 7] [3; 5] [6; 7] None); [lia|repeat constructor; cbn; lia|cbn; lia|reflexivity|done].
Defined.
