(* ===== verification/Hashing.v ===== *)
(** * Hash functions: utilities/hashutils.cc, public/hashutils.h

    The multiplicative hashes of strings and numbers, and the fingerprints made
    of them. The machine is little-endian where the code reads a chunk of bytes
    as a number. *)
From Stdlib Require Import ZArith Lia.
From stdpp Require Import prelude.
From S2P Require Import Prelude.

Local Open Scope Z_scope.

(* @src src/src/utilities/hashutils.cc 47-50 kPrimes32 *)
Definition kPrimes32 : list Z :=
  [65537; 65539; 65543; 65551; 65557; 65563; 65579; 65581; 65587; 65599; 65609; 65617; 65629; 65633; 65647; 65651].

(* @src src/src/utilities/hashutils.cc 53-62 kPrimes64 *)
Definition kPrimes64 : list Z :=
  [4294967311; 4294967357; 4294967371; 4294967377; 4294967387; 4294967389; 4294967459; 4294967477;
   4294967497; 4294967513; 4294967539; 4294967543; 4294967549; 4294967561; 4294967563; 4294967569].

(* @src src/src/public/hashutils.h 20-20 kHashSeed32 *)
Definition kHashSeed32 : Z := 0x3a04f49f.
(* @src src/src/public/hashutils.h 21-21 kHashSeed64 *)
Definition kHashSeed64 : Z := Z.lor (Z.shiftl 0xe87b36be 32) 0x6e2e58dc.

Definition prime32 (i : nat) : Z := nth i kPrimes32 0.
Definition prime64 (i : nat) : Z := nth i kPrimes64 0.

(** A chunk of bytes in memory, as a number; the missing ones are 0. *)
Fixpoint le_val (l : bytes) : Z := match l with [] => 0 | b :: l => b + 256 * le_val l end.

(** Both indexes wrap at 16: [prime2] is 8 ahead. *)
(* @src src/src/utilities/hashutils.cc 72-78 Hash32StringWithSeed *)
Fixpoint hash32_loop (fuel : nat) (s : bytes) (prime1 : nat) (n : Z) : Z :=
  match fuel, s with
  | S fuel, _ :: _ =>
      let chunk := le_val (take 2 s) in
      hash32_loop fuel (drop 2 s) (S prime1 mod 16)%nat
        (Z.lxor (u32 (n * prime32 prime1)) (u32 (chunk * prime32 ((prime1 + 8) mod 16)%nat)))
  | _, _ => n
  end.

(* @src src/src/utilities/hashutils.cc 65-80 Hash32StringWithSeed *)
Definition Hash32StringWithSeed (s : bytes) (seed : Z) : Z := hash32_loop (length s) s 0 seed.

(* @src src/src/utilities/hashutils.cc 90-98 Hash64StringWithSeed *)
Fixpoint hash64_loop (fuel : nat) (s : bytes) (prime1 : nat) (n : Z) : Z :=
  match fuel, s with
  | S fuel, _ :: _ =>
      let chunk := le_val (take 4 s) in
      hash64_loop fuel (drop 4 s) (S prime1 mod 16)%nat
        (Z.lxor (u64 (n * prime64 prime1)) (u64 (chunk * prime64 ((prime1 + 8) mod 16)%nat)))
  | _, _ => n
  end.

(* @src src/src/utilities/hashutils.cc 83-100 Hash64StringWithSeed *)
Definition Hash64StringWithSeed (s : bytes) (seed : Z) : Z := hash64_loop (length s) s 0 seed.

(* @src src/src/utilities/hashutils.cc 103-109 Hash32NumWithSeed *)
Definition Hash32NumWithSeed (num seed : Z) : Z :=
  let n := seed in
  let n := Z.lxor (u32 (n * prime32 0)) (u32 (u32 (Z.shiftl num 16) * prime32 8)) in
  let n := Z.lxor (u32 (n * prime32 1)) (u32 (u32 (Z.shiftr num 16) * prime32 9)) in
  n.

(* @src src/src/utilities/hashutils.cc 112-118 Hash64NumWithSeed *)
Definition Hash64NumWithSeed (num seed : Z) : Z :=
  let n := seed in
  let n := Z.lxor (u64 (n * prime64 0)) (u64 (u64 (Z.shiftl num 32) * prime64 8)) in
  let n := Z.lxor (u64 (n * prime64 1)) (u64 (u64 (Z.shiftr num 32) * prime64 9)) in
  n.

(* @src src/src/utilities/hashutils.cc 120-122 FingerprintString *)
Definition FingerprintString (s : bytes) : Z := Hash64StringWithSeed s kHashSeed64.

(* @src src/src/public/hashutils.h 36-38 FingerprintCat *)
Definition FingerprintCat (fp1 fp2 : Z) : Z := Hash64NumWithSeed fp1 fp2.

(* @src src/src/public/hashutils.h 40-42 Fingerprint *)
Definition Fingerprint (c : Z) : Z := Hash64NumWithSeed (u64 c) kHashSeed64.

(* @src src/src/engine/form.cc 58-60 kFingerSeed *)
Definition kFingerSeed : Z := Fingerprint 0.

(** Hashing a 64-bit number in 32 bits, as the forms of the engine do. *)
(* @src src/src/engine/form.cc 164-167 IntForm::Hash *)
Definition hash_basic64 (i : Z) : Z := Hash32NumWithSeed (u32 i) (Hash32NumWithSeed (u32 (Z.shiftr i 32)) kHashSeed32).

(** ** Ranges *)

Lemma u32_lxor a b : is_u32 (Z.lxor (u32 a) (u32 b)).
Proof. apply (lxor_range _ _ 32); [lia|apply u32_range..]. Qed.
Lemma u64_lxor a b : is_u64 (Z.lxor (u64 a) (u64 b)).
Proof. apply (lxor_range _ _ 64); [lia|apply u64_range..]. Qed.
#[export] Hint Resolve u32_lxor u64_lxor : szl.

Lemma Hash32NumWithSeed_range num seed : is_u32 (Hash32NumWithSeed num seed).
Proof. apply u32_lxor. Qed.
Lemma Hash64NumWithSeed_range num seed : is_u64 (Hash64NumWithSeed num seed).
Proof. apply u64_lxor. Qed.

Lemma Hash32StringWithSeed_range s seed : is_u32 seed -> is_u32 (Hash32StringWithSeed s seed).
Proof.
  unfold Hash32StringWithSeed. generalize (length s) 0%nat. intros fuel. revert s seed.
  induction fuel as [|fuel IH]; intros [|b s] seed p Hs; try done. cbn [hash32_loop]. apply IH, u32_lxor.
Qed.
#[export] Hint Resolve Hash32NumWithSeed_range Hash64NumWithSeed_range Hash32StringWithSeed_range : szl.
