(* ===== verification/SzlMap.v ===== *)
(** * Maps of the engine: engine/map.cc, engine/map.h

    A hash table over an array of cells: the cells are used in order, and the
    hash chains are threaded through them. The keys and values are any type with
    the three operations of the engine's values that maps use. *)
From Stdlib Require Import ZArith Lia.
From stdpp Require Import prelude.
From S2P Require Import Prelude Hashing.

Local Open Scope Z_scope.

(** ** What maps use of values *)

(** [Val::IsEqual], [Form::Hash] and [Val::Fingerprint]. *)
Class RunVal (V : Type) := { IsEqual : V -> V -> bool; Hash : V -> Z; Fpr : V -> Z }.

(** What they promise for the values in [ok]. *)
Class RunValLaws (V : Type) `{RunVal V} (ok : V -> Prop) : Prop := {
  equal_refl x : ok x -> IsEqual x x = true;
  equal_sym x y : ok x -> ok y -> IsEqual x y = true -> IsEqual y x = true;
  equal_trans x y z : ok x -> ok y -> ok z -> IsEqual x y = true -> IsEqual y z = true -> IsEqual x z = true;
  equal_hash x y : ok x -> ok y -> IsEqual x y = true -> Hash x = Hash y;
  equal_fpr x y : ok x -> ok y -> IsEqual x y = true -> Fpr x = Fpr y;
  hash_range x : ok x -> is_u32 (Hash x);
}.

(* @src src/src/engine/form.h 22-22 MapHashCat *)
Definition MapHashCat (h1 h2 : Z) : Z := Z.lxor h1 h2.

(* @src src/src/engine/map.cc 43-43 kMinNCell *)
Definition kMinNCell : Z := 16.
(* @src src/src/engine/map.cc 44-44 kHeadsPerCell *)
Definition kHeadsPerCell : Z := 4.

(** ** Data *)

(** A [MapCell*] is the index of the cell in [base_]; [NULL] is [None]. *)
(* @src src/src/engine/map.cc 75-104 MapCell *)
Record MapCell (K V : Type) : Type := MkCell { key_ : option K; value_ : option V; next_ : option nat; hash_ : Z }.
Arguments MkCell {K V} _ _ _ _.
Arguments key_ {K V} _.
Arguments value_ {K V} _.
Arguments next_ {K V} _.
Arguments hash_ {K V} _.

(** [base_] up to [occupancy_]: the cells past it are zero until they are used. *)
(* @src src/src/engine/map.h 71-75 Map (data members) *)
Record Map (K V : Type) : Type := MkMap { base_ : list (MapCell K V); space_ : Z; heads_ : list (option nat) }.
Arguments MkMap {K V} _ _ _.
Arguments base_ {K V} _.
Arguments space_ {K V} _.
Arguments heads_ {K V} _.

Definition set_base {K V} (b : list (MapCell K V)) (m : Map K V) : Map K V := MkMap b (space_ m) (heads_ m).

Definition occupancy {K V} (m : Map K V) : nat := length (base_ m).

(** [kHeadsPerCell * space], an [int]. *)
Definition num_heads (space : Z) : Z := s32 (kHeadsPerCell * space).

(** [while ((space & (space-1)) != 0) space &= (space - 1);] *)
(* @src src/src/engine/map.cc 126-127 Map::MakeMapMem *)
Fixpoint clear_low_bits (fuel : nat) (space : Z) : Z :=
  match fuel with
  | O => space
  | S fuel => if Z.land space (space - 1) =? 0 then space else clear_low_bits fuel (Z.land space (space - 1))
  end.

(* @src src/src/engine/map.cc 120-133 Map::MakeMapMem *)
Definition round_space (space : Z) (exact : bool) : Z :=
  let kSlop := 8192 in
  if space <=? kMinNCell then kMinNCell
  else if negb exact then
    if space <? kSlop then
      if negb (Z.land space (space - 1) =? 0) then s32 (Z.shiftl (clear_low_bits 32 space) 1) else space
    else s32 (space + kSlop)
  else space.

Section Maps.
Context {K V : Type} `{RunVal K, RunVal V}.
Abbreviation Cell := (MapCell K V).
Abbreviation Mp := (Map K V).

Definition set_next (n : option nat) (c : Cell) : Cell := MkCell (key_ c) (value_ c) n (hash_ c).
(* @src src/src/engine/map.cc 80-83 MapCell::set_key *)
Definition set_key (hash : Z) (key : K) (c : Cell) : Cell := MkCell (Some key) (value_ c) (next_ c) hash.
(* @src src/src/engine/map.cc 91-91 MapCell::set_value *)
Definition set_value (value : V) (c : Cell) : Cell := MkCell (key_ c) (Some value) (next_ c) (hash_ c).

(** An allocation that fails is not modelled. *)
(* @src src/src/engine/map.cc 114-144 Map::MakeMapMem *)
Definition MakeMapMem (space : Z) (exact : bool) : Mp :=
  let space := round_space space exact in
  MkMap [] space (replicate (Z.to_nat (num_heads space)) None).

(** The heads, and the link of the new cell. *)
(* @src src/src/engine/map.cc 351-356 Map::ChainToNewLocation *)
Definition ChainToNewLocation (heads : list (option nat)) (space : Z) (hash : Z) (cellp : nat) : res (list (option nat) * option nat) :=
  let h := Z.to_nat (hash mod u32 (num_heads space)) in
  match heads !! h with
  | None => Fatal
  | Some head => Ok (<[h := Some cellp]> heads, head)
  end.

(** The cell, or [NULL]. *)
(* @src src/src/engine/map.cc 362-364 Map::FindLocation *)
Fixpoint walk (fuel : nat) (base : list Cell) (key : K) (cellp : option nat) : res (option nat) :=
  match fuel, cellp with
  | _, None => Ok None
  | O, _ => Fatal
  | S fuel, Some i =>
      match base !! i with
      | None => Fatal
      | Some c =>
          match key_ c with
          | None => Fatal
          | Some k => if IsEqual k key then Ok (Some i) else walk fuel base key (next_ c)
          end
      end
  end.

(* @src src/src/engine/map.cc 360-365 Map::FindLocation *)
Definition FindLocation (m : Mp) (key : K) (hash : Z) : res (option nat) :=
  match heads_ m !! Z.to_nat (hash mod u32 (num_heads (space_ m))) with
  | None => Fatal
  | Some cellp => walk (S (occupancy m)) (base_ m) key cellp
  end.

(* @src src/src/engine/map.cc 368-373 Map::Lookup *)
Definition Lookup (key : K) (m : Mp) : res Z :=
  cellp ← FindLocation m key (Hash key);
  Ok (match cellp with None => -1 | Some i => Z.of_nat i end).

(* @src src/src/engine/map.cc 312-322 Map::CopyCells *)
Fixpoint copy_loop (to_heads : list (option nat)) (to_size : Z) (from : list Cell) (i : nat) : res (list (option nat) * list Cell) :=
  match from with
  | [] => Ok (to_heads, [])
  | c :: from =>
      '(to_heads, next) ← ChainToNewLocation to_heads to_size (hash_ c) i;
      '(to_heads, cells) ← copy_loop to_heads to_size from (S i);
      Ok (to_heads, set_next next c :: cells)
  end.

(* @src src/src/engine/map.cc 307-323 Map::CopyCells *)
Definition CopyCells (to_size : Z) (from : list Cell) : res (list (option nat) * list Cell) :=
  copy_loop (replicate (Z.to_nat (num_heads to_size)) None) to_size from 0.

(* @src src/src/engine/map.cc 330-347 Map::GrowIfNeeded *)
Definition GrowIfNeeded (cellp : option nat) (hash : Z) (m : Mp) : res (nat * Mp) :=
  match cellp with
  | Some i => Ok (i, m)
  | None =>
      m ← (if Z.of_nat (occupancy m) =? space_ m then
             let new_size := s32 (2 * space_ m) in
             '(heads, base) ← CopyCells new_size (base_ m); Ok (MkMap base new_size heads)
           else Ok m);
      '(heads, next) ← ChainToNewLocation (heads_ m) (space_ m) hash (occupancy m);
      Ok (occupancy m, MkMap (base_ m ++ [MkCell None None next 0]) (space_ m) heads)
  end.

(** The index, the map, and the reference that is released. *)
(* @src src/src/engine/map.cc 393-403 Map::InsertKey *)
Definition InsertKey (key : K) (m : Mp) : res (Z * Mp * option K) :=
  let hash := Hash key in
  cellp ← FindLocation m key hash;
  '(i, m) ← GrowIfNeeded cellp hash m;
  match base_ m !! i with
  | None => Fatal
  | Some c => Ok (Z.of_nat i, set_base (<[i := set_key hash key c]> (base_ m)) m, key_ c)
  end.

(** The cell of an index; [assert(index >= 0 && index < occupancy_)]. *)
Definition cell_at (index : Z) (m : Mp) : res Cell :=
  if 0 <=? index then match base_ m !! Z.to_nat index with Some c => Ok c | None => Fatal end else Fatal.

(* @src src/src/engine/map.cc 382-390 Map::SetValue *)
Definition SetValue (index : Z) (value : V) (m : Mp) : res (Mp * option V) :=
  c ← cell_at index m;
  Ok (set_base (<[Z.to_nat index := set_value value c]> (base_ m)) m, value_ c).

(* @src src/src/engine/map.cc 406-409 Map::Fetch *)
Definition Fetch (index : Z) (m : Mp) : res (option V) := c ← cell_at index m; Ok (value_ c).

(** [TaggedInts::Inc] of an integer; nothing for other values. *)
Context (Inc : V -> Z -> option V).

(* @src src/src/engine/map.cc 376-379 Map::IncValue *)
Definition IncValue (index : Z) (delta : Z) (m : Mp) : res Mp :=
  c ← cell_at index m;
  match value_ c with
  | None => Fatal
  | Some v =>
      match Inc v delta with
      | None => Fatal
      | Some v => Ok (set_base (<[Z.to_nat index := set_value v c]> (base_ m)) m)
      end
  end.

(** The map; each key and value of the original gets another reference. *)
(* @src src/src/engine/map.cc 295-301 Map::Clone *)
Definition Clone (m : Mp) : res Mp :=
  let map := MakeMapMem (space_ m) (space_ m <? Z.of_nat (occupancy m)) in
  '(heads, base) ← CopyCells (space_ map) (base_ m);
  Ok (MkMap base (space_ map) heads).

(** The references given up. *)
(* @src src/src/engine/map.cc 152-163 Map::Delete *)
Definition Delete (m : Mp) : list (option K * option V) := map (fun c => (key_ c, value_ c)) (base_ m).

(** Of an array of [length] elements, those that are set. *)
(* @src src/src/engine/map.cc 267-276 Map::GetKeys *)
Definition GetKeys (length : nat) (m : Mp) : list (option K) := take length (map key_ (base_ m)).

(* @src src/src/engine/map.cc 280-282 Map::GetKeyByIndex *)
Definition GetKeyByIndex (index : Z) (m : Mp) : res (option K) := c ← cell_at index m; Ok (key_ c).
(* @src src/src/engine/map.cc 286-288 Map::GetValueByIndex *)
Definition GetValueByIndex (index : Z) (m : Mp) : res (option V) := c ← cell_at index m; Ok (value_ c).

(* @src src/src/engine/map.cc 254-261 Map::EqualMap *)
Fixpoint equal_cells (cells : list Cell) (m : Mp) : res bool :=
  match cells with
  | [] => Ok true
  | c :: cells =>
      match key_ c, value_ c with
      | Some k, Some v =>
          index ← Lookup k m;
          if index <? 0 then Ok false
          else
            v' ← Fetch index m;
            match v' with
            | None => Fatal
            | Some v' => if IsEqual v v' then equal_cells cells m else Ok false
            end
      | _, _ => Fatal
      end
  end.

(* @src src/src/engine/map.cc 251-263 Map::EqualMap *)
Definition EqualMap (m m' : Mp) : res bool :=
  if negb (occupancy m =? occupancy m')%nat then Ok false else equal_cells (base_ m) m'.

(** The hash stored with the key, and that of the value. *)
(* @src src/src/engine/map.cc 223-228 Map::MapHash *)
Fixpoint hash_cells (cells : list Cell) (hash : Z) : res Z :=
  match cells with
  | [] => Ok hash
  | c :: cells =>
      match value_ c with
      | None => Fatal
      | Some v => hash_cells cells (MapHashCat hash (MapHashCat (hash_ c) (Hash v)))
      end
  end.

(* @src src/src/engine/map.cc 221-230 Map::MapHash *)
Definition MapHash (m : Mp) : res Z := hash_cells (base_ m) kHashSeed32.

(* @src src/src/engine/map.cc 207-212 Map::Fingerprint *)
Fixpoint print_cells (cells : list Cell) (print : Z) : res Z :=
  match cells with
  | [] => Ok print
  | c :: cells =>
      match key_ c, value_ c with
      | Some k, Some v => print_cells cells (Z.lxor print (FingerprintCat (Fpr k) (Fpr v)))
      | _, _ => Fatal
      end
  end.

(* @src src/src/engine/map.cc 205-214 Map::Fingerprint *)
Definition map_Fingerprint (m : Mp) : res Z := print_cells (base_ m) kFingerSeed.

(** [MapVal::Insert] and [MapVal::Fetch]. *)
(* @src src/src/engine/val.cc 559-563 MapVal::Insert *)
Definition map_Insert (key : K) (value : V) (m : Mp) : res Mp :=
  '(index, m, _) ← InsertKey key m; '(m, _) ← SetValue index value m; Ok m.

(* @src src/src/engine/val.cc 549-556 MapVal::Fetch *)
Definition map_Fetch (key : K) (m : Mp) : res (option V) :=
  index ← Lookup key m; if index =? -1 then Ok None else Fetch index m.
End Maps.
