(* ===== verification/SzlMapRef.v ===== *)
(** * The engine's maps implement association lists

    The chains of a map that is well formed lead from a key to its only cell; the
    operations keep maps well formed, and do what they do to an association list
    in order of insertion. *)
From Stdlib Require Import ZArith Lia.
From stdpp Require Import prelude.
From S2P Require Import Prelude Hashing SzlMap.

Local Open Scope Z_scope.
Ltac Zify.zify_post_hook ::= Z.div_mod_to_equations.

(** ** The last index below [n] that satisfies a test *)

Fixpoint last_such (p : nat -> bool) (n : nat) : option nat :=
  match n with
  | O => None
  | S j => if p j then Some j else last_such p j
  end.

Lemma last_such_spec p n :
  match last_such p n with
  | None => forall j, (j < n)%nat -> p j = false
  | Some i => (i < n)%nat /\ p i = true /\ forall j, (i < j < n)%nat -> p j = false
  end.
Proof.
  induction n as [|n IH]; cbn [last_such]; [lia|]. destruct (p n) eqn:E.
  - split; [lia|]. split; [done|]. lia.
  - destruct (last_such p n) as [i|].
    + destruct IH as (H1 & H2 & H3). split; [lia|]. split; [done|]. intros j Hj. destruct (decide (j = n)) as [->|]; [done|]. apply H3. lia.
    + intros j Hj. destruct (decide (j = n)) as [->|]; [done|]. apply IH. lia.
Qed.

Lemma last_such_ext p q n : (forall j, (j < n)%nat -> p j = q j) -> last_such p n = last_such q n.
Proof. induction n as [|n IH]; intros H; [done|]. cbn [last_such]. rewrite (H n) by lia. destruct (q n); [done|]. apply IH. intros j Hj. apply H. lia. Qed.

Lemma last_such_skip q m n : (m <= n)%nat -> (forall j, (m <= j < n)%nat -> q j = false) -> last_such q n = last_such q m.
Proof.
  induction n as [|n IH]; intros Hm H; [by replace m with 0%nat by lia|]. destruct (decide (m = S n)) as [->|]; [done|].
  cbn [last_such]. rewrite (H n) by lia. apply IH; [lia|]. intros j Hj. apply H. lia.
Qed.

Lemma last_such_hit q i n : (i < n)%nat -> q i = true -> (forall j, (i < j < n)%nat -> q j = false) -> last_such q n = Some i.
Proof. intros Hi Hq H. rewrite (last_such_skip q (S i) n) by (lia || (intros; apply H; lia)). cbn [last_such]. by rewrite Hq. Qed.

(** ** Chains *)

Section Chains.
Context {K V : Type}.
Abbreviation Cell := (MapCell K V).

(** Cell [j] hashes to the head [r] of [H]. *)
Definition in_chain (cells : list Cell) (H r : Z) (j : nat) : bool :=
  match cells !! j with Some c => hash_ c mod H =? r | None => false end.

(** Each head, and each link, leads to the last cell before that hashes the same. *)
Record chains_ok (cells : list Cell) (space : Z) (heads : list (option nat)) : Prop := {
  ch_space : 0 < space < 2 ^ 29;
  ch_length : length heads = Z.to_nat (4 * space);
  ch_heads r : 0 <= r < 4 * space -> heads !! Z.to_nat r = Some (last_such (in_chain cells (4 * space) r) (length cells));
  ch_next i c : cells !! i = Some c -> next_ c = last_such (in_chain cells (4 * space) (hash_ c mod (4 * space))) i;
}.

Lemma num_heads_ok space : 0 < space < 2 ^ 29 -> num_heads space = 4 * space /\ u32 (num_heads space) = 4 * space.
Proof. intros Hs. unfold num_heads, kHeadsPerCell, s32, u32. lia. Qed.

Lemma in_chain_snoc cells c H r j : in_chain (cells ++ [c]) H r j = if decide (j = length cells) then hash_ c mod H =? r else in_chain cells H r j.
Proof.
  unfold in_chain. case_decide as E.
  - subst j. by rewrite lookup_app_r, Nat.sub_diag by lia.
  - destruct (decide (j < length cells)%nat); [by rewrite lookup_app_l|]. rewrite !lookup_ge_None_2; [done|lia|rewrite length_app; cbn; lia].
Qed.

Lemma chains_empty space : 0 < space < 2 ^ 29 -> chains_ok [] space (replicate (Z.to_nat (num_heads space)) None).
Proof.
  intros Hs. destruct (num_heads_ok space Hs) as [-> _]. split; [done|by rewrite length_replicate| |by intros i c; rewrite lookup_nil].
  intros r Hr. rewrite lookup_replicate_2 by lia. done.
Qed.

(** A new cell. *)
Lemma chain_new cells space heads hash : chains_ok cells space heads -> 0 <= hash -> exists heads' next,
  ChainToNewLocation heads space hash (length cells) = Ok (heads', next)
  /\ forall c, hash_ c = hash -> next_ c = next -> chains_ok (cells ++ [c]) space heads'.
Proof.
  intros [Hs Hl Hh Hn] Hhash. unfold ChainToNewLocation. destruct (num_heads_ok space Hs) as [_ ->].
  assert (0 <= hash mod (4 * space) < 4 * space) as Hr by lia. rewrite (Hh _ Hr). eexists _, _. split; [done|]. intros c Ec En.
  split; [done|by rewrite length_insert| |].
  - intros r Hr'. rewrite length_app. cbn [length]. rewrite Nat.add_1_r. cbn [last_such]. rewrite in_chain_snoc, decide_True, Ec by done.
    destruct (Z.eqb_spec (hash mod (4 * space)) r) as [<-|Hne]; [by rewrite list_lookup_insert_eq by lia|].
    rewrite list_lookup_insert_ne, Hh by lia. f_equal. apply last_such_ext. intros j Hj. by rewrite in_chain_snoc, decide_False by lia.
  - intros i c' Hc'. apply lookup_app_Some in Hc' as [Hc'|[Hi Hc']].
    + rewrite (Hn i c' Hc'). apply last_such_ext. intros j Hj. apply lookup_lt_Some in Hc'. by rewrite in_chain_snoc, decide_False by lia.
    + destruct (i - length cells)%nat as [|n] eqn:Ei; [|by destruct n]. injection Hc' as <-. assert (i = length cells) as -> by lia.
      rewrite En, Ec. apply last_such_ext. intros j Hj. by rewrite in_chain_snoc, decide_False by lia.
Qed.

(** What a cell holds. *)
Definition holds (c : Cell) : option K * option V * Z := (key_ c, value_ c, hash_ c).

Lemma copy_loop_ok space from done heads : chains_ok done space heads -> Forall (fun c => 0 <= hash_ c) from -> exists heads' cells,
  copy_loop heads space from (length done) = Ok (heads', cells) /\ chains_ok (done ++ cells) space heads' /\ map holds cells = map holds from.
Proof.
  revert done heads. induction from as [|c from IH]; intros done heads Hc Hf; [exists heads, []; by rewrite app_nil_r|].
  apply Forall_cons in Hf as [Hh Hf]. destruct (chain_new done space heads (hash_ c) Hc Hh) as (heads' & next & E & Hnew). cbn [copy_loop]. rewrite E. cbn [mbind res_bind].
  destruct (IH (done ++ [set_next next c]) heads') as (heads2 & cells & E2 & Hc2 & Hm); [by apply Hnew|done|].
  rewrite length_app, Nat.add_1_r in E2. rewrite E2. cbn [mbind res_bind]. exists heads2, (set_next next c :: cells). split; [done|].
  split; [by rewrite <- app_assoc in Hc2|]. cbn [map]. by rewrite Hm.
Qed.

Lemma CopyCells_ok space from : 0 < space < 2 ^ 29 -> Forall (fun c => 0 <= hash_ c) from -> exists heads cells,
  CopyCells space from = Ok (heads, cells) /\ chains_ok cells space heads /\ map holds cells = map holds from.
Proof. intros Hs Hf. apply (copy_loop_ok space from [] _ (chains_empty space Hs) Hf). Qed.

(** The chains depend on the hashes and the links. *)
Lemma chains_update cells space heads i c c' : chains_ok cells space heads -> cells !! i = Some c -> hash_ c' = hash_ c -> next_ c' = next_ c ->
  chains_ok (<[i := c']> cells) space heads.
Proof.
  intros [Hs Hl Hh Hn] Hi Eh En.
  assert (forall H r j, in_chain (<[i := c']> cells) H r j = in_chain cells H r j) as Hin.
  { intros H r j. unfold in_chain. destruct (decide (i = j)) as [<-|]; [|by rewrite list_lookup_insert_ne].
    rewrite list_lookup_insert_eq by (by eapply lookup_lt_Some). by rewrite Hi, Eh. }
  split; [done|done| |].
  - intros r Hr. rewrite length_insert, Hh by done. f_equal. apply last_such_ext. intros j _. by rewrite Hin.
  - intros j d Hd. destruct (decide (i = j)) as [<-|].
    + rewrite list_lookup_insert_eq in Hd by (by eapply lookup_lt_Some). injection Hd as <-. rewrite En, Eh, (Hn i c Hi). apply last_such_ext. intros k _. by rewrite Hin.
    + rewrite list_lookup_insert_ne in Hd by done. rewrite (Hn j d Hd). apply last_such_ext. intros k _. by rewrite Hin.
Qed.
End Chains.

(** ** Association lists *)

Section Assoc.
Context {K V : Type} `{RunVal K}.
(** In order of insertion; a key that has just been inserted has no value. *)
Abbreviation assoc := (list (K * option V)).

Fixpoint assoc_index (key : K) (l : assoc) : option nat :=
  match l with
  | [] => None
  | (k, _) :: l => if IsEqual k key then Some 0%nat else S <$> assoc_index key l
  end.

(** The value of a key; [None] for a key that is absent or has no value. *)
Definition assoc_get (key : K) (l : assoc) : option V := i ← assoc_index key l; x ← l !! i; snd x.

(** An equal key is replaced, where it is. *)
Definition assoc_insert_key (key : K) (l : assoc) : assoc :=
  match assoc_index key l with
  | Some i => alter (fun x => (key, snd x)) i l
  | None => l ++ [(key, None)]
  end.

Definition assoc_set (key : K) (value : V) (l : assoc) : assoc :=
  match assoc_index key l with
  | Some i => <[i := (key, Some value)]> l
  | None => l ++ [(key, Some value)]
  end.

Definition position (key : K) (l : assoc) : Z := match assoc_index key l with Some i => Z.of_nat i | None => -1 end.

(** Whether cell [j] has the key. *)
Definition has_key (key : K) (l : assoc) (j : nat) : bool := match l !! j with Some (k, _) => IsEqual k key | None => false end.

Lemma assoc_index_spec key l :
  match assoc_index key l with
  | Some i => (i < length l)%nat /\ has_key key l i = true /\ forall j, (j < i)%nat -> has_key key l j = false
  | None => forall j, has_key key l j = false
  end.
Proof.
  induction l as [|[k v] l IH]; cbn [assoc_index]; [done|]. destruct (IsEqual k key) eqn:E.
  - split; [cbn; lia|]. split; [done|]. lia.
  - destruct (assoc_index key l) as [i|]; cbn.
    + destruct IH as (H1 & H2 & H3). split; [lia|]. split; [done|]. intros [|j] Hj; [done|]. apply H3. lia.
    + intros [|j]; [done|]. apply IH.
Qed.

Lemma assoc_index_app key l x : assoc_index key (l ++ [x]) =
  match assoc_index key l with Some i => Some i | None => if IsEqual x.1 key then Some (length l) else None end.
Proof.
  destruct x as [k v]. induction l as [|[k' v'] l IH]; cbn; [by case_match|]. destruct (IsEqual k' key); [done|]. rewrite IH.
  destruct (assoc_index key l); [done|]. cbn. by destruct (IsEqual k key).
Qed.

(** No two keys are equal. *)
Definition distinct (l : assoc) : Prop :=
  forall i j x y, l !! i = Some x -> l !! j = Some y -> IsEqual x.1 y.1 = true -> i = j.

Context (ok : K -> Prop) `{!RunValLaws K ok}.
Definition keys_ok (l : assoc) : Prop := Forall (fun x => ok x.1) l.

Lemma has_key_unique key l i j : keys_ok l -> distinct l -> ok key -> has_key key l i = true -> has_key key l j = true -> i = j.
Proof.
  intros Hk Hd Hkey. unfold has_key. destruct (l !! i) as [[x v]|] eqn:Ei; [|done]. destruct (l !! j) as [[y w]|] eqn:Ej; [|done].
  intros Hx Hy. pose proof (Forall_lookup_1 _ _ _ _ Hk Ei) as Ox. pose proof (Forall_lookup_1 _ _ _ _ Hk Ej) as Oy. cbn in *.
  apply (Hd i j (x, v) (y, w)); [done|done|]. cbn. apply (equal_trans x key y); [done..|]. by apply equal_sym.
Qed.

Lemma assoc_index_last key l : keys_ok l -> distinct l -> ok key -> last_such (has_key key l) (length l) = assoc_index key l.
Proof.
  intros Hk Hd Hkey. pose proof (assoc_index_spec key l) as Hs. destruct (assoc_index key l) as [i|].
  - destruct Hs as (Hi & Ht & _). apply last_such_hit; [done|done|]. intros j Hj. destruct (has_key key l j) eqn:E; [|done].
    pose proof (has_key_unique key l i j Hk Hd Hkey Ht E). lia.
  - rewrite (last_such_skip _ 0); [done|lia|]. intros j _. apply Hs.
Qed.

Lemma has_key_lookup key l i : has_key key l i = true -> exists k v, l !! i = Some (k, v) /\ IsEqual k key = true.
Proof. unfold has_key. destruct (l !! i) as [[k v]|]; [|done]. by exists k, v. Qed.

(** Replacing an equal key, or adding a new one. *)
Lemma replace_ok key v l i : keys_ok l -> distinct l -> ok key -> assoc_index key l = Some i ->
  keys_ok (<[i := (key, v)]> l) /\ distinct (<[i := (key, v)]> l).
Proof.
  intros Hk Hd Hkey Ei. pose proof (assoc_index_spec key l) as Hs. rewrite Ei in Hs. destruct Hs as (Hi & Ht & _).
  split; [by apply Forall_insert|]. intros j1 j2 x y Hx Hy Exy.
  assert (forall j z, <[i := (key, v)]> l !! j = Some z -> has_key z.1 l j = true /\ ok z.1) as Hz.
  { intros j z Hz. destruct (decide (i = j)) as [<-|].
    - rewrite list_lookup_insert_eq in Hz by done. injection Hz as <-. done.
    - rewrite list_lookup_insert_ne in Hz by done. unfold has_key. rewrite Hz. destruct z as [k w]. pose proof (Forall_lookup_1 _ _ _ _ Hk Hz) as Ok. cbn in *.
      split; [by apply equal_refl|done]. }
  destruct (Hz _ _ Hx) as [Hx1 Ox]. destruct (Hz _ _ Hy) as [Hy1 Oy]. apply (has_key_unique y.1 l); try done.
  destruct (has_key_lookup _ _ _ Hx1) as (k & w & Hl & Ek). unfold has_key. rewrite Hl. pose proof (Forall_lookup_1 _ _ _ _ Hk Hl) as Ok. cbn in Ok.
  by apply (equal_trans k x.1 y.1).
Qed.

Lemma extend_ok key v l : keys_ok l -> distinct l -> ok key -> assoc_index key l = None -> keys_ok (l ++ [(key, v)]) /\ distinct (l ++ [(key, v)]).
Proof.
  intros Hk Hd Hkey Ei. pose proof (assoc_index_spec key l) as Hs. rewrite Ei in Hs. split; [apply Forall_app; split; [done|by apply Forall_singleton]|].
  assert (forall j z, (l ++ [(key, v)]) !! j = Some z -> l !! j = Some z /\ ok z.1 \/ j = length l /\ z = (key, v)) as Hz.
  { intros j z Hz. apply lookup_app_Some in Hz as [Hz|[Hl Hz]]; [left; split; [done|by apply (Forall_lookup_1 _ _ _ _ Hk Hz)]|right].
    destruct (j - length l)%nat as [|n] eqn:E; [|by destruct n]. injection Hz as <-. split; [lia|done]. }
  intros j1 j2 x y Hx Hy Exy. destruct (Hz _ _ Hx) as [[Lx Ox]|[-> ->]], (Hz _ _ Hy) as [[Ly Oy]|[-> ->]].
  - by apply (Hd j1 j2 x y).
  - specialize (Hs j1). unfold has_key in Hs. rewrite Lx in Hs. destruct x. cbn in *. congruence.
  - specialize (Hs j2). unfold has_key in Hs. rewrite Ly in Hs. destruct y as [k w]. cbn in *. rewrite equal_sym in Hs; done.
  - done.
Qed.
End Assoc.

(** ** The operations *)

Section Correct.
Context {K V : Type} `{RunVal K, RunVal V} (ok : K -> Prop) `{!RunValLaws K ok}.
Abbreviation assoc := (list (K * option V)).
Abbreviation Mp := (Map K V).

(** A cell holds an entry. *)
Definition cell_is (c : MapCell K V) (x : K * option V) : Prop := key_ c = Some x.1 /\ value_ c = x.2 /\ hash_ c = Hash x.1.

(** A well-formed map, and what it holds. *)
Record map_is (m : Mp) (l : assoc) : Prop := {
  mi_chains : chains_ok (base_ m) (space_ m) (heads_ m);
  mi_room : Z.of_nat (length l) <= space_ m;
  mi_cells : Forall2 cell_is (base_ m) l;
  mi_keys : keys_ok ok l;
  mi_distinct : distinct l;
}.

Lemma mi_length m l : map_is m l -> occupancy m = length l.
Proof. intros Hm. apply (Forall2_length _ _ _ (mi_cells _ _ Hm)). Qed.

Lemma cells_hash cells l : Forall2 cell_is cells l -> keys_ok ok l -> Forall (fun c => 0 <= hash_ c) cells.
Proof.
  induction 1 as [|c x cells l (_ & _ & Eh) Hc IH]; intros Hk; [constructor|]. apply Forall_cons in Hk as [Hx Hk]. constructor; [|by apply IH].
  rewrite Eh. apply hash_range in Hx. unfold is_u32 in Hx. lia.
Qed.

Lemma cells_holds cells cells' l : map holds cells' = map holds cells -> Forall2 cell_is cells l -> Forall2 cell_is cells' l.
Proof.
  intros E Hc. revert cells' E. induction Hc as [|c x cells l Hx Hc IH]; intros [|c' cells'] E; try done.
  injection E as Ek Ev Eh Er. constructor; [|by apply IH]. unfold cell_is in *. by rewrite Ek, Ev, Eh.
Qed.

(** Walking down a chain finds the key. *)
Lemma walk_ok cells l space heads key r n fuel :
  chains_ok cells space heads -> Forall2 cell_is cells l -> (n <= length cells)%nat -> (n < fuel)%nat ->
  walk fuel cells key (last_such (in_chain cells (4 * space) r) n)
  = Ok (last_such (fun j => in_chain cells (4 * space) r j && has_key key l j) n).
Proof.
  intros Hch Hc. revert fuel. induction (lt_wf n) as [n _ IH]. intros fuel Hn Hf.
  pose proof (last_such_spec (in_chain cells (4 * space) r) n) as Hs. destruct (last_such (in_chain cells (4 * space) r) n) as [j|] eqn:El.
  - destruct Hs as (Hj & Ht & Hskip). destruct fuel as [|fuel]; [lia|]. cbn [walk].
    assert (last_such (fun j => in_chain cells (4 * space) r j && has_key key l j) n
            = last_such (fun j => in_chain cells (4 * space) r j && has_key key l j) (S j)) as ->.
    { apply last_such_skip; [lia|]. intros i Hi. rewrite Hskip by lia. done. }
    cbn [last_such]. rewrite Ht. cbn [andb]. unfold has_key at 1. unfold in_chain in Ht. destruct (cells !! j) as [c|] eqn:Ec; [|done].
    destruct (Forall2_lookup_l _ _ _ _ _ Hc Ec) as ([k v] & El' & Ek & _ & Eh). cbn [fst snd] in *. rewrite El', Ek. destruct (IsEqual k key); [done|].
    rewrite (ch_next _ _ _ Hch j c Ec). apply Z.eqb_eq in Ht. rewrite Ht. apply IH; lia.
  - assert (last_such (fun j => in_chain cells (4 * space) r j && has_key key l j) n = None) as ->; [|by destruct fuel].
    rewrite (last_such_skip _ 0); [done|lia|]. intros j Hj. by rewrite Hs by lia.
Qed.

Lemma FindLocation_ok m l key : map_is m l -> ok key -> FindLocation m key (Hash key) = Ok (assoc_index key l).
Proof.
  intros Hm Hkey. pose proof (mi_chains _ _ Hm) as Hch. pose proof (mi_cells _ _ Hm) as Hc. unfold FindLocation.
  destruct (num_heads_ok _ (ch_space _ _ _ Hch)) as [_ ->]. pose proof (ch_space _ _ _ Hch) as Hs.
  rewrite (ch_heads _ _ _ Hch) by lia. rewrite (walk_ok _ l _ _ key _ _ _ Hch Hc) by (unfold occupancy; lia). f_equal.
  rewrite <- (assoc_index_last ok) by (apply Hm || done). rewrite (Forall2_length _ _ _ Hc). apply last_such_ext. intros j _.
  destruct (has_key key l j) eqn:E; [|apply andb_false_r]. rewrite andb_true_r. destruct (has_key_lookup _ _ _ E) as (k & v & El & Ek).
  destruct (Forall2_lookup_r _ _ _ _ _ Hc El) as (c & Ec & _ & _ & Eh). unfold in_chain. rewrite Ec, Eh. cbn [fst].
  rewrite (equal_hash k key); [apply Z.eqb_refl|by apply (Forall_lookup_1 _ _ _ _ (mi_keys _ _ Hm) El)|done..].
Qed.

Lemma Lookup_ok m l key : map_is m l -> ok key -> Lookup key m = Ok (position key l).
Proof. intros Hm Hkey. unfold Lookup. by rewrite (FindLocation_ok m l) by done. Qed.

Lemma cell_at_ok m l i x : map_is m l -> l !! i = Some x -> exists c, cell_at (Z.of_nat i) m = Ok c /\ base_ m !! i = Some c /\ cell_is c x.
Proof.
  intros Hm Hx. destruct (Forall2_lookup_r _ _ _ _ _ (mi_cells _ _ Hm) Hx) as (c & Ec & Hc). exists c. unfold cell_at.
  rewrite (proj2 (Z.leb_le 0 _)), Nat2Z.id, Ec by lia. done.
Qed.

Lemma assoc_index_entry key (l : assoc) i : assoc_index key l = Some i -> exists k v, l !! i = Some (k, v) /\ IsEqual k key = true.
Proof. intros E. pose proof (assoc_index_spec key l) as Hs. rewrite E in Hs. destruct Hs as (_ & Ht & _). by apply has_key_lookup. Qed.

Lemma map_Fetch_ok m l key : map_is m l -> ok key -> map_Fetch key m = Ok (assoc_get key l).
Proof.
  intros Hm Hkey. unfold map_Fetch, assoc_get. rewrite (Lookup_ok m l) by done. cbn [mbind res_bind]. unfold position.
  destruct (assoc_index key l) as [i|] eqn:E; [|done]. cbn [mbind option_bind]. rewrite (proj2 (Z.eqb_neq _ (-1))) by lia.
  destruct (assoc_index_entry _ _ _ E) as (k & v & El & _). destruct (cell_at_ok m l i _ Hm El) as (c & Ec & _ & _ & Ev & _).
  unfold Fetch. rewrite Ec, El. cbn. by rewrite Ev.
Qed.

(** Writing to a cell. *)
Lemma update_ok m l i c k v c' : map_is m l -> base_ m !! i = Some c -> l !! i = Some (k, v) ->
  forall k' v', cell_is c' (k', v') -> hash_ c' = hash_ c -> next_ c' = next_ c -> keys_ok ok (<[i := (k', v')]> l) -> distinct (<[i := (k', v')]> l) ->
  map_is (set_base (<[i := c']> (base_ m)) m) (<[i := (k', v')]> l).
Proof.
  intros Hm Hc Hl k' v' Hc' Eh En Hk Hd. split; cbn [base_ space_ heads_ set_base].
  - by apply (chains_update _ _ _ i c); [apply Hm| | |].
  - rewrite length_insert. apply Hm.
  - apply Forall2_insert; [apply Hm|done].
  - exact Hk.
  - exact Hd.
Qed.

(** Room for one more cell, without overflow of the sizes. *)
Definition fits (m : Mp) : Prop := Z.of_nat (occupancy m) < space_ m \/ space_ m < 2 ^ 28.

(** A new key goes to the end. *)
Lemma append_ok m l key : map_is m l -> fits m -> ok key -> assoc_index key l = None -> exists m' c,
  GrowIfNeeded None (Hash key) m = Ok (length l, m') /\ base_ m' !! length l = Some c /\ key_ c = None
  /\ map_is (set_base (<[length l := set_key (Hash key) key c]> (base_ m')) m') (l ++ [(key, None)])
  /\ space_ m' <= Z.max (space_ m) (2 * Z.of_nat (length l)).
Proof.
  intros Hm Hfit Hkey Ei. pose proof (mi_length _ _ Hm) as Hlen. pose proof (mi_chains _ _ Hm) as Hch. pose proof (ch_space _ _ _ Hch) as Hs.
  pose proof (mi_room _ _ Hm) as Hroom. pose proof (hash_range key Hkey) as Hh. unfold is_u32 in Hh. unfold GrowIfNeeded, fits in *. rewrite Hlen in *.
  assert (exists m1, (if Z.of_nat (length l) =? space_ m
             then '(heads, base) ← CopyCells (s32 (2 * space_ m)) (base_ m); Ok (MkMap base (s32 (2 * space_ m)) heads) else Ok m) = Ok m1
          /\ chains_ok (base_ m1) (space_ m1) (heads_ m1) /\ Forall2 cell_is (base_ m1) l /\ Z.of_nat (length l) < space_ m1
          /\ space_ m1 <= Z.max (space_ m) (2 * Z.of_nat (length l))) as (m1 & -> & Hch1 & Hc1 & Hr1 & Hs1).
  { destruct (Z.eqb_spec (Z.of_nat (length l)) (space_ m)) as [Efull|].
    - assert (s32 (2 * space_ m) = 2 * space_ m) as -> by (unfold s32; lia).
      destruct (CopyCells_ok (2 * space_ m) (base_ m) ltac:(lia) (cells_hash _ _ (mi_cells _ _ Hm) (mi_keys _ _ Hm))) as (heads & cells & E & Hch1 & Eh).
      rewrite E. eexists. split; [done|]. cbn [base_ space_ heads_]. split; [done|]. split; [|lia]. by apply (cells_holds (base_ m)); [|apply Hm].
    - exists m. split; [done|]. split; [done|]. split; [apply Hm|lia]. }
  cbn [mbind res_bind]. assert (occupancy m1 = length l) as Hl1 by apply (Forall2_length _ _ _ Hc1). rewrite Hl1.
  destruct (chain_new (base_ m1) (space_ m1) (heads_ m1) (Hash key) Hch1 ltac:(lia)) as (heads & next & E & Hnew). unfold occupancy in Hl1. rewrite Hl1 in E.
  rewrite E. cbn [mbind res_bind]. eexists _, _. split; [done|]. cbn [base_ space_ heads_ set_base]. rewrite lookup_app_r, Hl1, Nat.sub_diag by lia.
  split; [done|]. split; [done|]. split; [|done]. destruct (extend_ok ok key None l (mi_keys _ _ Hm) (mi_distinct _ _ Hm) Hkey Ei) as [Hk Hd].
  rewrite insert_app_r_alt, Hl1, Nat.sub_diag by lia. split; cbn [base_ space_ heads_ set_base].
  - by apply Hnew.
  - rewrite length_app. cbn. lia.
  - apply Forall2_app; [done|]. by constructor; [|constructor].
  - exact Hk.
  - exact Hd.
Qed.

Lemma InsertKey_ok m l key : map_is m l -> fits m -> ok key -> exists m' old,
  InsertKey key m = Ok (position key (assoc_insert_key key l), m', old) /\ map_is m' (assoc_insert_key key l)
  /\ old = (i ← assoc_index key l; x ← l !! i; Some (fst x)) /\ space_ m' <= Z.max (space_ m) (2 * Z.of_nat (length l)).
Proof.
  intros Hm Hfit Hkey. unfold InsertKey. rewrite (FindLocation_ok m l) by done. cbn [mbind res_bind]. unfold assoc_insert_key, position.
  destruct (assoc_index key l) as [i|] eqn:Ei.
  - destruct (assoc_index_entry _ _ _ Ei) as (k & v & El & Ek). destruct (cell_at_ok m l i _ Hm El) as (c & _ & Ec & Hc). cbn [GrowIfNeeded mbind res_bind].
    rewrite Ec. destruct Hc as (Ekc & Evc & Ehc). cbn [fst snd] in *. pose proof (Forall_lookup_1 _ _ _ _ (mi_keys _ _ Hm) El) as Ok. cbn in Ok.
    destruct (replace_ok ok key v l i (mi_keys _ _ Hm) (mi_distinct _ _ Hm) Hkey Ei) as [Hk Hd].
    assert (alter (fun x => (key, snd x)) i l = <[i := (key, v)]> l) as Ealt.
    { apply list_eq. intros j. rewrite list_lookup_alter. case_decide as Ej; [subst j|by rewrite list_lookup_insert_ne].
      rewrite El, list_lookup_insert_eq by (by eapply lookup_lt_Some). done. }
    rewrite Ealt. eexists _, _. split.
    { do 3 f_equal. assert (assoc_index key (<[i := (key, v)]> l) = Some i) as ->; [|done]. rewrite <- (assoc_index_last ok) by done.
      pose proof (lookup_lt_Some _ _ _ El). apply last_such_hit; [by rewrite length_insert|unfold has_key; rewrite list_lookup_insert_eq by done; by apply equal_refl|].
      intros j Hj. destruct (has_key key _ j) eqn:E; [|done]. assert (j = i); [|lia].
      apply (has_key_unique ok key (<[i := (key, v)]> l)); try done. unfold has_key. rewrite list_lookup_insert_eq by done. by apply equal_refl. }
    split; [|split; [cbn [option_bind]; by rewrite Ekc, El|cbn [space_ set_base]; lia]].
    apply (update_ok m l i c k v); try done. cbn [hash_ set_key]. rewrite Ehc. symmetry. by apply equal_hash.
  - destruct (append_ok m l key Hm Hfit Hkey Ei) as (m' & c & E & Ec & Ek & Hm' & Hs). rewrite E. cbn [mbind res_bind]. rewrite Ec, Ek.
    eexists _, None. split; [|split; [exact Hm'|split; [done|exact Hs]]]. rewrite assoc_index_app, Ei. cbn [fst]. by rewrite equal_refl.
Qed.

Lemma SetValue_ok m l i k v value : map_is m l -> l !! i = Some (k, v) -> exists m',
  SetValue (Z.of_nat i) value m = Ok (m', v) /\ map_is m' (<[i := (k, Some value)]> l) /\ space_ m' = space_ m.
Proof.
  intros Hm El. destruct (cell_at_ok m l i _ Hm El) as (c & E & Ec & Hc). unfold SetValue. rewrite E. cbn [mbind res_bind]. rewrite Nat2Z.id.
  destruct Hc as (Ekc & Evc & Ehc). cbn [fst snd] in *. rewrite Evc. eexists. split; [done|]. split; [|done].
  assert (forall j x, <[i := (k, Some value)]> l !! j = Some x -> exists w, l !! j = Some (x.1, w)) as Hkeys.
  { intros j x Hx. destruct (decide (i = j)) as [<-|].
    - rewrite list_lookup_insert_eq in Hx by (by eapply lookup_lt_Some). injection Hx as <-. by exists v.
    - rewrite list_lookup_insert_ne in Hx by done. destruct x. by eexists. }
  apply (update_ok m l i c k v); try done.
  - apply Forall_insert; [apply Hm|]. apply (Forall_lookup_1 _ _ _ _ (mi_keys _ _ Hm) El).
  - intros j1 j2 x y Hx Hy Exy. destruct (Hkeys _ _ Hx) as [w1 H1]. destruct (Hkeys _ _ Hy) as [w2 H2]. by apply (mi_distinct _ _ Hm j1 j2 _ _ H1 H2).
Qed.
Lemma assoc_insert_key_position key (l : assoc) : ok key -> keys_ok ok l -> exists i w, position key (assoc_insert_key key l) = Z.of_nat i
  /\ assoc_insert_key key l !! i = Some (key, w) /\ forall v, <[i := (key, Some v)]> (assoc_insert_key key l) = assoc_set key v l.
Proof.
  intros Hkey Hk. unfold assoc_insert_key, assoc_set, position. destruct (assoc_index key l) as [i|] eqn:Ei.
  - destruct (assoc_index_entry _ _ _ Ei) as (k & w & El & _). pose proof (lookup_lt_Some _ _ _ El) as Hi.
    assert (alter (fun x => (key, snd x)) i l !! i = Some (key, w)) as Ea by (rewrite list_lookup_alter, decide_True, El by done; done).
    exists i, w. split; [|split; [done|]].
    + assert (assoc_index key (alter (fun x => (key, snd x)) i l) = Some i) as ->; [|done].
      pose proof (assoc_index_spec key l) as Hs. rewrite Ei in Hs. destruct Hs as (_ & _ & Hbefore). clear Ea El. revert i Ei Hi Hbefore.
      clear Hk. induction l as [|[k' v'] l IH]; intros i Ei Hi Hb; [done|]. cbn [assoc_index] in Ei. destruct i as [|i].
      * cbn. by rewrite equal_refl.
      * destruct (IsEqual k' key) eqn:E; [done|]. change (alter ?f (S i) ((k', v') :: l)) with ((k', v') :: alter f i l). cbn [assoc_index]. rewrite E.
        rewrite IH; [done| |cbn in Hi; lia|intros j Hj; apply (Hb (S j)); lia]. destruct (assoc_index key l); [|done]. by injection Ei as ->.
    + intros v. apply list_eq. intros j. destruct (decide (i = j)) as [<-|].
      * by rewrite !list_lookup_insert_eq by (rewrite ?length_alter; done).
      * rewrite !list_lookup_insert_ne, list_lookup_alter, decide_False by done. done.
  - exists (length l), None. rewrite assoc_index_app, Ei. cbn [fst]. rewrite equal_refl by done. split; [done|].
    rewrite lookup_app_r, Nat.sub_diag by lia. split; [done|]. intros v. by rewrite insert_app_r_alt, Nat.sub_diag by lia.
Qed.

Lemma map_Insert_ok m l key v : map_is m l -> fits m -> ok key -> exists m',
  map_Insert key v m = Ok m' /\ map_is m' (assoc_set key v l) /\ space_ m' <= Z.max (space_ m) (2 * Z.of_nat (length l)).
Proof.
  intros Hm Hfit Hkey. unfold map_Insert. destruct (InsertKey_ok m l key Hm Hfit Hkey) as (m1 & old & -> & Hm1 & _ & Hs). cbn [mbind res_bind].
  destruct (assoc_insert_key_position key l Hkey (mi_keys _ _ Hm)) as (i & w & -> & El & Eset).
  destruct (SetValue_ok m1 _ i key w v Hm1 El) as (m2 & -> & Hm2 & Hs2). cbn [mbind res_bind]. exists m2. rewrite Eset in Hm2. rewrite Hs2. done.
Qed.

(** *** Sizes *)

(** What [MakeMapMem] allocates. *)
Lemma round_space_ok space exact : space < 2 ^ 30 ->
  Z.max 16 space <= round_space space exact <= Z.max 16 (space + 8192)
  /\ (exact = false -> space < 8192 -> Z.land (round_space space exact) (round_space space exact - 1) = 0).
Proof.
  intros Hs. unfold round_space, kMinNCell. destruct (Z.leb_spec space 16) as [H16|H16]; [split; [lia|done]|]. destruct exact; cbn [negb]; [split; [lia|done]|].
  destruct (Z.ltb_spec space 8192) as [Hsm|Hbig]; [|split; [unfold s32; lia|lia]].
  assert (forallb (fun n => let s := Z.of_nat n in let r := round_space s false in (s <=? r) && (r <? 2 * s) && (Z.land r (r - 1) =? 0)) (seq 17 (Z.to_nat 8175)) = true) as Hall
    by (vm_compute; reflexivity).
  rewrite forallb_forall in Hall. specialize (Hall (Z.to_nat space) ltac:(apply in_seq; lia)). cbv zeta in Hall. rewrite Z2Nat.id in Hall by lia.
  apply andb_true_iff in Hall as [Hall H3]. apply andb_true_iff in Hall as [H1 H2]. apply Z.leb_le in H1. apply Z.ltb_lt in H2. apply Z.eqb_eq in H3.
  unfold round_space, kMinNCell in H1, H2, H3. rewrite (proj2 (Z.leb_gt space 16)) in H1, H2, H3 by lia. rewrite (proj2 (Z.ltb_lt space 8192)) in H1, H2, H3 by lia.
  cbn [negb] in H1, H2, H3. split; [lia|]. intros _ _. exact H3.
Qed.

Lemma map_is_empty space exact : space < 2 ^ 28 -> map_is (MakeMapMem space exact) [].
Proof.
  intros Hs. destruct (round_space_ok space exact ltac:(lia)) as [Hr _]. unfold MakeMapMem. split; cbn [base_ space_ heads_].
  - apply chains_empty. lia.
  - cbn. lia.
  - constructor.
  - constructor.
  - intros i j x y Hx. by rewrite lookup_nil in Hx.
Qed.

Lemma Clone_ok m l : map_is m l -> space_ m < 2 ^ 28 -> exists m', Clone m = Ok m' /\ map_is m' l.
Proof.
  intros Hm Hs. unfold Clone. rewrite (mi_length _ _ Hm). pose proof (mi_room _ _ Hm) as Hroom. pose proof (ch_space _ _ _ (mi_chains _ _ Hm)) as Hpos.
  set (ex := space_ m <? Z.of_nat (length l)). destruct (round_space_ok (space_ m) ex ltac:(lia)) as [Hr _]. cbn [MakeMapMem space_].
  destruct (CopyCells_ok (round_space (space_ m) ex) (base_ m) ltac:(lia) (cells_hash _ _ (mi_cells _ _ Hm) (mi_keys _ _ Hm))) as (heads & cells & E & Hch & Eh).
  rewrite E. eexists. split; [done|]. split; cbn [base_ space_ heads_].
  - exact Hch.
  - lia.
  - by apply (cells_holds (base_ m)); [|apply Hm].
  - apply Hm.
  - apply Hm.
Qed.

(** *** Building maps *)

(** What [initM] does with the keys and values of a map display. *)
Fixpoint init_map (kvs : list (K * V)) (m : Mp) : res Mp :=
  match kvs with
  | [] => Ok m
  | (key, value) :: kvs => m ← map_Insert key value m; init_map kvs m
  end.

Definition assoc_of (kvs : list (K * V)) (l : assoc) : assoc := fold_left (fun l kv => assoc_set kv.1 kv.2 l) kvs l.

Lemma assoc_set_length key v (l : assoc) : (length (assoc_set key v l) <= S (length l))%nat.
Proof. unfold assoc_set. destruct (assoc_index key l); [rewrite length_insert; lia|rewrite length_app; cbn; lia]. Qed.

Lemma init_map_ok kvs m l : map_is m l -> Forall (fun kv => ok kv.1) kvs -> Z.max (space_ m) (2 * Z.of_nat (length l + length kvs)) < 2 ^ 28 ->
  exists m', init_map kvs m = Ok m' /\ map_is m' (assoc_of kvs l) /\ space_ m' <= Z.max (space_ m) (2 * Z.of_nat (length l + length kvs)).
Proof.
  revert m l. induction kvs as [|[key v] kvs IH]; intros m l Hm Hk Hs; [exists m; split; [done|]; split; [done|lia]|].
  apply Forall_cons in Hk as [Hkey Hk]. cbn [fst] in Hkey. cbn [length] in Hs.
  destruct (map_Insert_ok m l key v Hm ltac:(right; lia) Hkey) as (m1 & E & Hm1 & Hs1). cbn [init_map]. rewrite E. cbn [mbind res_bind].
  pose proof (assoc_set_length key v l). destruct (IH m1 _ Hm1 Hk ltac:(lia)) as (m2 & E2 & Hm2 & Hs2). exists m2. split; [exact E2|]. split; [exact Hm2|].
  cbn [length]. lia.
Qed.
End Correct.

(** ** Looking up after a change *)

Section Laws.
Context {K V : Type} `{RunVal K} (ok : K -> Prop) `{!RunValLaws K ok}.
Abbreviation assoc := (list (K * option V)).

(** Equal values are equal to the same. *)
Lemma equal_right x k k' : ok x -> ok k -> ok k' -> IsEqual k k' = true -> IsEqual x k = IsEqual x k'.
Proof.
  intros Hx Hk Hk' E. pose proof (equal_sym k k' Hk Hk' E) as E'. destruct (IsEqual x k) eqn:E1.
  - symmetry. exact (equal_trans x k k' Hx Hk Hk' E1 E).
  - destruct (IsEqual x k') eqn:E2; [|done]. pose proof (equal_trans x k' k Hx Hk' Hk E2 E'). congruence.
Qed.

Lemma equal_left x y k : ok x -> ok y -> ok k -> IsEqual x y = true -> IsEqual x k = IsEqual y k.
Proof.
  intros Hx Hy Hk E. destruct (IsEqual y k) eqn:E1.
  - exact (equal_trans x y k Hx Hy Hk E E1).
  - destruct (IsEqual x k) eqn:E2; [|done]. pose proof (equal_trans y x k Hy Hx Hk (equal_sym x y Hx Hy E) E2). congruence.
Qed.

Lemma assoc_index_equal k k' (l : assoc) : keys_ok ok l -> ok k -> ok k' -> IsEqual k k' = true -> assoc_index k l = assoc_index k' l.
Proof.
  intros Hl Hk Hk' E. induction Hl as [|[x v] l Hx Hl IH]; [done|]. cbn [assoc_index] in *. cbn in Hx. rewrite IH.
  by rewrite (equal_right x k k').
Qed.

Lemma assoc_get_equal k k' (l : assoc) : keys_ok ok l -> ok k -> ok k' -> IsEqual k k' = true -> assoc_get k l = assoc_get k' l.
Proof. intros. unfold assoc_get. by rewrite (assoc_index_equal k k'). Qed.

Lemma assoc_get_set key v k (l : assoc) : keys_ok ok l -> ok key -> ok k ->
  assoc_get k (assoc_set key v l) = if IsEqual key k then Some v else assoc_get k l.
Proof.
  intros Hl Hkey Hk. unfold assoc_set. destruct (assoc_index key l) as [i|] eqn:Ei.
  - destruct (assoc_index_entry _ _ _ Ei) as (x & w & Hx & Ex). pose proof (Forall_lookup_1 _ _ _ _ Hl Hx) as Ox. cbn in Ox.
    assert (assoc_index k (<[i := (key, Some v)]> l) = assoc_index k l) as Eidx.
    { clear Ei Hl. revert i Hx. induction l as [|[y u] l IH]; intros i Hx; [done|]. destruct i as [|i].
      - injection Hx as -> ->. cbn. by rewrite (equal_left x key k).
      - change (<[S i := (key, Some v)]> ((y, u) :: l)) with ((y, u) :: <[i := (key, Some v)]> l). cbn [assoc_index]. by rewrite (IH i Hx). }
    unfold assoc_get. rewrite Eidx. destruct (IsEqual key k) eqn:E.
    + rewrite (assoc_index_equal k key l Hl Hk Hkey) by (by apply equal_sym). rewrite Ei. cbn [mbind option_bind].
      by rewrite list_lookup_insert_eq by (by eapply lookup_lt_Some).
    + destruct (assoc_index k l) as [j|] eqn:Ej; [|done]. cbn [mbind option_bind]. rewrite list_lookup_insert_ne; [done|]. intros <-.
      destruct (assoc_index_entry _ _ _ Ej) as (y & u & Hy & Ey). rewrite Hx in Hy. injection Hy as <- <-.
      rewrite (equal_left x key k) in Ey by done. congruence.
  - unfold assoc_get. rewrite assoc_index_app. cbn [fst]. destruct (assoc_index k l) as [j|] eqn:Ej.
    + cbn [mbind option_bind]. pose proof (assoc_index_spec k l) as Hs. rewrite Ej in Hs. destruct Hs as [Hj _]. rewrite lookup_app_l by done.
      destruct (IsEqual key k) eqn:E; [|done]. rewrite (assoc_index_equal key k l) in Ei by done. congruence.
    + destruct (IsEqual key k); [|done]. cbn [mbind option_bind]. by rewrite lookup_app_r, Nat.sub_diag by lia.
Qed.
End Laws.

(** ** The theorems *)

Definition entries {K V} (m : Map K V) : list (option K * option V) := map (fun c => (key_ c, value_ c)) (base_ m).

Lemma entries_is {K V} `{RunVal K} (ok : K -> Prop) (m : Map K V) l : map_is ok m l -> entries m = map (fun x => (Some x.1, x.2)) l.
Proof.
  intros Hm. unfold entries. pose proof (mi_cells _ _ _ Hm) as Hc. clear Hm. induction Hc as [|c x cells l (Ek & Ev & _) _ IH]; [done|].
  cbn [map]. by rewrite IH, Ek, Ev.
Qed.

(** Integers as values. *)
#[export] Instance int_run_val : RunVal Z := { IsEqual := Z.eqb; Hash x := hash_basic64 (u64 x); Fpr := Fingerprint }.

#[export] Instance int_run_val_laws : RunValLaws Z (fun _ => True).
Proof.
  split.
  - intros x _. apply Z.eqb_refl.
  - intros x y _ _ E. by rewrite Z.eqb_sym.
  - intros x y z _ _ _ E1 E2. apply Z.eqb_eq in E1, E2. subst. apply Z.eqb_refl.
  - intros x y _ _ E. apply Z.eqb_eq in E. by subst.
  - intros x y _ _ E. apply Z.eqb_eq in E. by subst.
  - intros x _. apply Hash32NumWithSeed_range.
Qed.

(** C19. A map built from pairs, with room asked for or not, is the association
    list of the pairs: its cells hold the keys in the order of their first
    insertion, each with its last key and value; the building never fails; and
    looking a key up ends, with its place in that list, or with no cell. A clone
    has the same cells, and finds the same. *)
Theorem map_refines {K V} `{RunVal K} (ok : K -> Prop) `{!RunValLaws K ok} (space : Z) (exact : bool) (kvs : list (K * V)) :
  space < 2 ^ 26 -> Z.of_nat (length kvs) < 2 ^ 26 -> Forall (fun kv => ok kv.1) kvs ->
  let l := assoc_of kvs [] in
  exists m c, init_map kvs (MakeMapMem space exact) = Ok m /\ Clone m = Ok c
  /\ entries m = map (fun x => (Some x.1, x.2)) l /\ entries c = entries m
  /\ forall k, ok k -> Lookup k m = Ok (position k l) /\ map_Fetch k m = Ok (assoc_get k l)
                    /\ Lookup k c = Lookup k m /\ map_Fetch k c = map_Fetch k m.
Proof.
  intros Hs Hn Hk l. pose proof (map_is_empty ok (V := V) space exact ltac:(lia)) as H0. destruct (round_space_ok space exact ltac:(lia)) as [Hr _].
  destruct (init_map_ok ok kvs _ _ H0 Hk) as (m & E & Hm & Hsp); [cbn [MakeMapMem space_ length]; lia|]. fold l in Hm. cbn [MakeMapMem space_ length] in Hsp.
  destruct (Clone_ok ok m l Hm ltac:(lia)) as (c & Ec & Hc). exists m, c. split; [exact E|]. split; [exact Ec|].
  split; [by apply (entries_is ok)|]. split; [by rewrite (entries_is ok c l Hc), (entries_is ok m l Hm)|]. intros k Hkey.
  rewrite !(Lookup_ok ok _ l k) by done. rewrite !(map_Fetch_ok ok _ l k) by done. done.
Qed.

Lemma map_refines_witness : let kvs := [(5, 50); (7, 70); (5, 51)] in let l := assoc_of kvs [] in
  exists m c, init_map kvs (MakeMapMem 2 true) = Ok m /\ Clone m = Ok c
  /\ entries m = map (fun x => (Some x.1, x.2)) l /\ entries c = entries m
  /\ forall k, True -> Lookup k m = Ok (position k l) /\ map_Fetch k m = Ok (assoc_get k l)
                    /\ Lookup k c = Lookup k m /\ map_Fetch k c = map_Fetch k m.
Proof. apply (map_refines (fun _ => True) 2 true [(5, 50); (7, 70); (5, 51)]); [lia|cbn; lia|by repeat constructor]. Defined.

(** C20. Insertion and lookup. After an insertion into a map, of any size up to the
    limit on the cells, the new key, and every key equal to it, has the new value,
    and every other key what it had; no insertion and no lookup fails. *)
Theorem map_insert_fetch {K V} `{RunVal K} (ok : K -> Prop) `{!RunValLaws K ok} (space : Z) (exact : bool) (kvs : list (K * V)) key v :
  space < 2 ^ 26 -> Z.of_nat (length kvs) < 2 ^ 26 -> Forall (fun kv => ok kv.1) kvs -> ok key ->
  exists m m', init_map kvs (MakeMapMem space exact) = Ok m /\ map_Insert key v m = Ok m'
  /\ forall k, ok k -> map_Fetch k m' = (if IsEqual key k then Ok (Some v) else map_Fetch k m)
                    /\ exists r, map_Fetch k m = Ok r.
Proof.
  intros Hs Hn Hk Hkey. pose proof (map_is_empty ok (V := V) space exact ltac:(lia)) as H0. destruct (round_space_ok space exact ltac:(lia)) as [Hr _].
  destruct (init_map_ok ok kvs _ _ H0 Hk) as (m & E & Hm & Hsp); [cbn [MakeMapMem space_ length]; lia|]. cbn [MakeMapMem space_ length] in Hsp.
  destruct (map_Insert_ok ok m _ key v Hm ltac:(right; lia) Hkey) as (m' & E' & Hm' & _). exists m, m'. split; [exact E|]. split; [exact E'|].
  intros k Hok. rewrite (map_Fetch_ok ok m' _ k Hm' Hok), (map_Fetch_ok ok m _ k Hm Hok), (assoc_get_set ok) by (done || apply Hm).
  split; [by destruct (IsEqual key k)|by eexists].
Qed.

Lemma map_insert_fetch_witness :
  exists m m', init_map [(5, 50); (7, 70)] (MakeMapMem 0 false) = Ok m /\ map_Insert 5 51 m = Ok m'
  /\ forall k, True -> map_Fetch k m' = (if IsEqual 5 k then Ok (Some 51) else map_Fetch k m) /\ exists r, map_Fetch k m = Ok r.
Proof. apply (map_insert_fetch (fun _ => True) 0 false [(5, 50); (7, 70)] 5 51); [lia|cbn; lia|by repeat constructor|exact I]. Defined.

(** ** Equality and hash *)

Section Equality.
Context {K V : Type} `{RunVal K, RunVal V} (okK : K -> Prop) (okV : V -> Prop) `{!RunValLaws K okK, !RunValLaws V okV}.
Abbreviation assoc := (list (K * option V)).

(** Every key has a value. *)
Definition full (l : assoc) : Prop := Forall (fun x => exists v, x.2 = Some v /\ okV v) l.

(** Entries with equal keys and values. *)
Definition same_entry (x y : K * option V) : Prop :=
  IsEqual x.1 y.1 = true /\ exists v w, x.2 = Some v /\ y.2 = Some w /\ IsEqual v w = true.

(** What [EqualMap] checks for the cells of one map. *)
Definition found_in (l : assoc) (x : K * option V) : Prop := exists v w, x.2 = Some v /\ assoc_get x.1 l = Some w /\ IsEqual v w = true.

Lemma assoc_get_entry k (l : assoc) w : assoc_get k l = Some w -> exists k', (k', Some w) ∈ l /\ IsEqual k' k = true.
Proof.
  unfold assoc_get. destruct (assoc_index k l) as [i|] eqn:Ei; [|done]. destruct (assoc_index_entry _ _ _ Ei) as (k' & v & El & Ek).
  cbn [mbind option_bind]. rewrite El. cbn. intros ->. exists k'. split; [|done]. by eapply list_elem_of_lookup_2.
Qed.

Lemma assoc_get_elem k v (l : assoc) : keys_ok okK l -> distinct l -> (k, v) ∈ l -> assoc_get k l = v.
Proof.
  intros Hk Hd Hin. apply list_elem_of_lookup_1 in Hin as (i & Hi). pose proof (Forall_lookup_1 _ _ _ _ Hk Hi) as Ok. cbn in Ok.
  unfold assoc_get. assert (assoc_index k l = Some i) as ->; [|cbn [mbind option_bind]; by rewrite Hi]. rewrite <- (assoc_index_last okK) by done.
  assert (has_key k l i = true) as Ht by (unfold has_key; rewrite Hi; by apply equal_refl).
  apply last_such_hit; [by eapply lookup_lt_Some|exact Ht|]. intros j Hj. destruct (has_key k l j) eqn:E; [|done].
  pose proof (has_key_unique okK k l i j Hk Hd Ok Ht E). lia.
Qed.

Lemma equal_cells_ok cells l m l' : Forall2 cell_is cells l -> keys_ok okK l -> full l -> map_is okK m l' -> full l' -> exists b,
  equal_cells cells m = Ok b /\ (b = true <-> Forall (found_in l') l).
Proof.
  intros Hc Hk Hf Hm Hf'. induction Hc as [|c [k v] cells l (Ek & Ev & _) Hc IH]; [exists true; by split|]. cbn [fst snd] in *.
  apply Forall_cons in Hk as [Hkey Hk]. apply Forall_cons in Hf as [(v0 & Ev0 & _) Hf]. cbn [fst snd] in *. rewrite Ev0 in *. clear Ev0. destruct (IH Hk Hf) as (b & Eb & Hb).
  assert (Forall (found_in l') ((k, Some v0) :: l) <-> found_in l' (k, Some v0) /\ Forall (found_in l') l) as Hcons by (by rewrite Forall_cons).
  cbn [equal_cells]. rewrite Ek, Ev, (Lookup_ok okK m l') by done. cbn [mbind res_bind]. unfold position.
  destruct (assoc_index k l') as [i|] eqn:Ei.
  - rewrite (proj2 (Z.ltb_ge (Z.of_nat i) 0)) by lia. destruct (assoc_index_entry _ _ _ Ei) as (k' & v' & El & _).
    destruct (Forall_lookup_1 _ _ _ _ Hf' El) as (w & Ew & _). cbn [snd] in Ew. subst v'.
    destruct (cell_at_ok okK m l' i _ Hm El) as (c' & Ec' & _ & _ & Ev' & _). unfold Fetch. rewrite Ec'. cbn [mbind res_bind]. cbn [snd] in Ev'. rewrite Ev'.
    assert (assoc_get k l' = Some w) as Eg by (unfold assoc_get; rewrite Ei; cbn [mbind option_bind]; by rewrite El).
    destruct (IsEqual v0 w) eqn:Evw.
    + exists b. split; [exact Eb|]. rewrite Hb, Hcons. split; [|by intros [_ ?]]. intros Hl. split; [by exists v0, w|done].
    + exists false. split; [done|]. split; [done|]. rewrite Hcons. intros [(a & b' & Ea & Eb' & Eab) _]. cbn in *. congruence.
  - exists false. split; [done|]. split; [done|]. rewrite Hcons. intros [(a & b' & _ & Eb' & _) _]. unfold assoc_get in Eb'. cbn [fst] in Eb'. by rewrite Ei in Eb'.
Qed.

(** Entries found in another list, one for each: the others are left over. *)
Lemma found_embeds (l l' : assoc) : keys_ok okK l -> keys_ok okK l' -> distinct l -> Forall (found_in l') l ->
  exists ys rest, l' ≡ₚ ys ++ rest /\ Forall2 same_entry l ys.
Proof.
  intros Hk Hk' Hd Hf. assert (Forall (fun x => exists y, y ∈ l' /\ same_entry x y) l) as Hm.
  { unfold keys_ok in Hk. rewrite Forall_forall in Hf, Hk |- *. intros [k v] Hx. destruct (Hf _ Hx) as (v0 & w & Ev & Eg & Evw). destruct (assoc_get_entry _ _ _ Eg) as (k' & Hy & Ek).
    exists (k', Some w). split; [exact Hy|]. cbn [fst snd] in *. pose proof (proj1 (Forall_forall _ _) Hk' _ Hy) as Oy. pose proof (Hk _ Hx) as Ox. cbn in *.
    split; [by apply equal_sym|]. by exists v0, w. }
  clear Hf. revert l' Hk' Hm. induction l as [|x l IH]; intros l' Hk' Hm; [exists [], l'; by split|].
  apply Forall_cons in Hk as [Hx Hk]. apply Forall_cons in Hm as [(y & Hy & Hxy) Hm]. apply elem_of_Permutation in Hy as (l1 & Hp).
  assert (distinct l) as Hd1 by (intros i j a b Ha Hb E; pose proof (Hd (S i) (S j) a b Ha Hb E); lia).
  assert (keys_ok okK l1) as Hk1 by (unfold keys_ok in *; rewrite Hp in Hk'; by apply Forall_cons in Hk' as [_ ?]).
  pose proof (proj1 (Forall_forall _ _) Hk' y ltac:(rewrite Hp; left)) as Oy. cbn in Oy.
  destruct (IH Hk Hd1 l1 Hk1) as (ys & rest & Hp1 & Hs).
  { unfold keys_ok in Hk. rewrite Forall_forall in Hm, Hk |- *. intros z Hz. destruct (Hm z Hz) as (y' & Hy' & Hzy). rewrite Hp in Hy'. apply elem_of_cons in Hy' as [->|Hy']; [|by exists y'].
    exfalso. apply list_elem_of_lookup_1 in Hz as (j & Hj). destruct Hxy as [Ex _]. destruct Hzy as [Ez _].
    pose proof (Hk z ltac:(by eapply list_elem_of_lookup_2)) as Oz. cbn in Oz.
    pose proof (Hd 0%nat (S j) x z eq_refl Hj) as Hij. rewrite (equal_right okK x.1 z.1 y.1) in Hij by done. specialize (Hij Ex). lia. }
  exists (y :: ys), rest. split; [by rewrite Hp, Hp1|]. by constructor.
Qed.

(** Equal keys have equal values, or neither map has them. *)
Definition agree (r r' : option V) : Prop :=
  match r, r' with Some a, Some b => IsEqual a b = true | None, None => True | _, _ => False end.

Lemma found_agree (l l' : assoc) : keys_ok okK l -> keys_ok okK l' -> distinct l -> distinct l' -> full l -> full l' ->
  (length l = length l' /\ Forall (found_in l') l) <-> forall k, okK k -> agree (assoc_get k l) (assoc_get k l').
Proof.
  intros Hk Hk' Hd Hd' Hf Hf'. split.
  - intros [Hlen Hfound] k Ok. destruct (found_embeds l l' Hk Hk' Hd Hfound) as (ys & rest & Hp & Hs).
    assert (rest = []) as ->. { apply Permutation_length in Hp. apply Forall2_length in Hs. rewrite length_app in Hp. destruct rest; [done|cbn in Hp; lia]. }
    rewrite app_nil_r in Hp. unfold agree. destruct (assoc_get k l) as [a|] eqn:Ea.
    + destruct (assoc_get_entry _ _ _ Ea) as (k1 & Hin & E1). destruct (proj1 (Forall_forall _ _) Hfound _ Hin) as (v & w & Ev & Ew & Evw). cbn [fst snd] in *.
      injection Ev as <-. pose proof (proj1 (Forall_forall _ _) Hk _ Hin) as O1. cbn in O1. rewrite (assoc_get_equal okK k1 k) in Ew by done. by rewrite Ew.
    + destruct (assoc_get k l') as [b|] eqn:Eb; [|done]. destruct (assoc_get_entry _ _ _ Eb) as (k1 & Hin & E1). pose proof (proj1 (Forall_forall _ _) Hk' _ Hin) as O1. cbn in O1.
      rewrite Hp in Hin. apply list_elem_of_lookup_1 in Hin as (j & Hj). destruct (Forall2_lookup_r _ _ _ _ _ Hs Hj) as ([k2 v2] & Hj2 & E2 & v & w & Ev & _). cbn [fst snd] in *.
      subst v2. pose proof (list_elem_of_lookup_2 _ _ _ Hj2) as Hin2. pose proof (proj1 (Forall_forall _ _) Hk _ Hin2) as O2. cbn in O2.
      pose proof (assoc_get_elem k2 (Some v) l Hk Hd Hin2) as Eg. rewrite (assoc_get_equal okK k2 k) in Eg; [congruence|done..|]. by rewrite (equal_left okK k2 k1 k).
  - intros Hag. assert (forall a b : assoc, keys_ok okK a -> distinct a -> full a -> (forall k, okK k -> agree (assoc_get k a) (assoc_get k b)) -> Forall (found_in b) a) as Hfd.
    { intros a b Hka Hda Hfa Hab. apply Forall_forall. intros [k v] Hin. pose proof (proj1 (Forall_forall _ _) Hka _ Hin) as Ok. cbn in Ok.
      destruct (proj1 (Forall_forall _ _) Hfa _ Hin) as (v0 & Ev & _). cbn [snd] in Ev. subst v. specialize (Hab k Ok). rewrite (assoc_get_elem k (Some v0) a Hka Hda Hin) in Hab.
      unfold agree in Hab. destruct (assoc_get k b) as [w|] eqn:Ew; [|done]. by exists v0, w. }
    pose proof (Hfd l l' Hk Hd Hf Hag) as F1. assert (Forall (found_in l) l') as F2.
    { apply Hfd; try done. intros k Ok. specialize (Hag k Ok). unfold agree in *. destruct (assoc_get k l) as [a|] eqn:Ea, (assoc_get k l') as [b|] eqn:Eb; try done.
      destruct (assoc_get_entry _ _ _ Ea) as (k1 & H1 & _). destruct (assoc_get_entry _ _ _ Eb) as (k2 & H2 & _).
      destruct (proj1 (Forall_forall _ _) Hf _ H1) as (a' & Ea' & Oa). destruct (proj1 (Forall_forall _ _) Hf' _ H2) as (b' & Eb' & Ob). cbn [snd] in *.
      injection Ea' as <-. injection Eb' as <-. by apply equal_sym. }
    split; [|exact F1]. destruct (found_embeds l l' Hk Hk' Hd F1) as (ys & r1 & P1 & S1). destruct (found_embeds l' l Hk' Hk Hd' F2) as (zs & r2 & P2 & S2).
    apply Permutation_length in P1, P2. apply Forall2_length in S1, S2. rewrite length_app in *. lia.
Qed.

(** The exclusive or of a function of the entries. *)
Definition of_entry (g : K -> V -> Z) (x : K * option V) : Z := match x.2 with Some v => g x.1 v | None => 0 end.
Definition xor_all (g : K -> V -> Z) (l : assoc) : Z := foldr (fun x acc => Z.lxor (of_entry g x) acc) 0 l.

#[export] Instance xor_all_perm g : Proper ((≡ₚ) ==> eq) (xor_all g).
Proof.
  intros l l' Hp. unfold xor_all. induction Hp; cbn [foldr]; [done|congruence| |congruence].
  by rewrite <- !Z.lxor_assoc, (Z.lxor_comm (of_entry g y)).
Qed.

(** It is the same for maps with the same entries, when the function does not
    tell equal values apart. *)
Lemma xor_all_same g l l' : (forall k k' v v', okK k -> okK k' -> okV v -> okV v' -> IsEqual k k' = true -> IsEqual v v' = true -> g k v = g k' v') ->
  keys_ok okK l -> keys_ok okK l' -> full l -> full l' -> Forall2 same_entry l l' -> xor_all g l = xor_all g l'.
Proof.
  intros Hg Hk Hk' Hf Hf' Hs. induction Hs as [|x y l l' (Ek & v & w & Ev & Ew & Evw) Hs IH]; [done|].
  apply Forall_cons in Hk as [Ox Hk], Hk' as [Oy Hk'], Hf as [(v' & Ev' & Ov) Hf], Hf' as [(w' & Ew' & Ow) Hf'].
  assert (v' = v) as -> by congruence. assert (w' = w) as -> by congruence. cbn [xor_all foldr]. fold (xor_all g l) (xor_all g l'). rewrite IH by done. f_equal.
  unfold of_entry. rewrite Ev, Ew. by apply Hg.
Qed.

Definition hash_entry (k : K) (v : V) : Z := MapHashCat (Hash k) (Hash v).
Definition print_entry (k : K) (v : V) : Z := FingerprintCat (Fpr k) (Fpr v).

Lemma hash_cells_ok cells l h : Forall2 cell_is cells l -> full l -> hash_cells cells h = Ok (Z.lxor h (xor_all hash_entry l)).
Proof.
  intros Hc. revert h. induction Hc as [|c x cells l (Ek & Ev & Eh) Hc IH]; intros h Hf; [by rewrite Z.lxor_0_r|].
  apply Forall_cons in Hf as [(v & Ev' & _) Hf]. cbn [hash_cells]. rewrite Ev, Ev', IH by done. f_equal. cbn [xor_all foldr]. fold (xor_all hash_entry l).
  unfold MapHashCat. rewrite <- (Z.lxor_assoc h (of_entry hash_entry x)). do 2 f_equal. unfold of_entry, hash_entry, MapHashCat. by rewrite Ev', Eh.
Qed.

Lemma print_cells_ok cells l h : Forall2 cell_is cells l -> full l -> print_cells cells h = Ok (Z.lxor h (xor_all print_entry l)).
Proof.
  intros Hc. revert h. induction Hc as [|c x cells l (Ek & Ev & Eh) Hc IH]; intros h Hf; [by rewrite Z.lxor_0_r|].
  apply Forall_cons in Hf as [(v & Ev' & _) Hf]. cbn [print_cells]. rewrite Ek, Ev, Ev', IH by done. f_equal. cbn [xor_all foldr]. fold (xor_all print_entry l).
  rewrite <- (Z.lxor_assoc h (of_entry print_entry x)). do 2 f_equal. unfold of_entry, print_entry. by rewrite Ev'.
Qed.

(** [EqualMap] on well-formed maps; what the hash and the fingerprint are. *)
Lemma EqualMap_ok m l m' l' : map_is okK m l -> full l -> map_is okK m' l' -> full l' -> exists b,
  EqualMap m m' = Ok b /\ (b = true <-> forall k, okK k -> agree (assoc_get k l) (assoc_get k l')).
Proof.
  intros Hm Hf Hm' Hf'. destruct (equal_cells_ok (base_ m) l m' l' (mi_cells _ _ _ Hm) (mi_keys _ _ _ Hm) Hf Hm' Hf') as (b & Eb & Hb).
  exists (if (length l =? length l')%nat then b else false). unfold EqualMap. rewrite (mi_length _ _ _ Hm), (mi_length _ _ _ Hm').
  split; [by destruct (length l =? length l')%nat|].
  rewrite <- (found_agree l l' (mi_keys _ _ _ Hm) (mi_keys _ _ _ Hm') (mi_distinct _ _ _ Hm) (mi_distinct _ _ _ Hm') Hf Hf'), <- Hb.
  destruct (Nat.eqb_spec (length l) (length l')); [by split; [|intros [_ ?]]|]. split; [done|]. by intros [? _].
Qed.

Lemma agree_same l l' : keys_ok okK l -> keys_ok okK l' -> distinct l -> distinct l' -> full l -> full l' ->
  (forall k, okK k -> agree (assoc_get k l) (assoc_get k l')) ->
  xor_all hash_entry l = xor_all hash_entry l' /\ xor_all print_entry l = xor_all print_entry l'.
Proof.
  intros Hk Hk' Hd Hd' Hf Hf' Hag. apply (found_agree l l' Hk Hk' Hd Hd' Hf Hf') in Hag as [Hlen Hfound].
  destruct (found_embeds l l' Hk Hk' Hd Hfound) as (ys & rest & Hp & Hsame).
  assert (rest = []) as ->. { pose proof (Permutation_length Hp) as Hpl. apply Forall2_length in Hsame. rewrite length_app in Hpl. destruct rest; [done|cbn in Hpl; lia]. }
  rewrite app_nil_r in Hp. assert (keys_ok okK ys) as Hky by (unfold keys_ok; by rewrite <- Hp). assert (full ys) as Hfy by (unfold full; by rewrite <- Hp).
  rewrite Hp. split; apply xor_all_same; try done; intros k k' v v' Ok Ok' Ov Ov' Ek Ev.
  - unfold hash_entry. by rewrite (equal_hash k k'), (equal_hash v v').
  - unfold print_entry. by rewrite (equal_fpr k k'), (equal_fpr v v').
Qed.

Lemma assoc_of_full kvs (l : assoc) : full l -> Forall (fun kv => okV kv.2) kvs -> full (assoc_of kvs l).
Proof.
  revert l. induction kvs as [|[k v] kvs IH]; intros l Hl Hv; [done|]. apply Forall_cons in Hv as [Ov Hv]. cbn in Ov. apply IH; [|done]. unfold assoc_set. cbn [fst snd].
  destruct (assoc_index k l); [apply Forall_insert; [done|by exists v]|apply Forall_app; split; [done|]; constructor; [by exists v|constructor]].
Qed.
End Equality.

(** A map built from lawful keys and values. *)
Lemma built_ok {K V} `{RunVal K, RunVal V} (okK : K -> Prop) (okV : V -> Prop) `{!RunValLaws K okK, !RunValLaws V okV} space exact (kvs : list (K * V)) :
  space < 2 ^ 26 -> Z.of_nat (length kvs) < 2 ^ 26 -> Forall (fun kv => okK kv.1 /\ okV kv.2) kvs ->
  exists m, init_map kvs (MakeMapMem space exact) = Ok m /\ map_is okK m (assoc_of kvs []) /\ full okV (assoc_of kvs []).
Proof.
  intros Hs Hn Hkv. apply Forall_and in Hkv as [Hk Hv]. pose proof (map_is_empty okK (V := V) space exact ltac:(lia)) as H1.
  destruct (round_space_ok space exact ltac:(lia)) as [Hr _]. destruct (init_map_ok okK kvs _ _ H1 Hk) as (m & E & Hm & _); [cbn [MakeMapMem space_ length]; lia|].
  exists m. split; [exact E|]. split; [exact Hm|]. by apply assoc_of_full; [constructor|].
Qed.

(** C21. [EqualMap] decides whether two maps hold the same, whatever the order and
    the sizes they were built with: it ends without failing, and its answer is
    true exactly when every key has equal values in both, or is in neither. Maps
    that are equal have the same hash and the same fingerprint, which therefore
    do not depend on the order either. *)
Theorem EqualMap_extensional {K V} `{RunVal K, RunVal V} (okK : K -> Prop) (okV : V -> Prop) `{!RunValLaws K okK, !RunValLaws V okV}
    space exact space' exact' (kvs kvs' : list (K * V)) :
  space < 2 ^ 26 -> space' < 2 ^ 26 -> Z.of_nat (length kvs) < 2 ^ 26 -> Z.of_nat (length kvs') < 2 ^ 26 ->
  Forall (fun kv => okK kv.1 /\ okV kv.2) kvs -> Forall (fun kv => okK kv.1 /\ okV kv.2) kvs' ->
  exists m m' b h h' p p', init_map kvs (MakeMapMem space exact) = Ok m /\ init_map kvs' (MakeMapMem space' exact') = Ok m'
  /\ EqualMap m m' = Ok b /\ MapHash m = Ok h /\ MapHash m' = Ok h' /\ map_Fingerprint m = Ok p /\ map_Fingerprint m' = Ok p'
  /\ (b = true <-> forall k, okK k -> exists r r', map_Fetch k m = Ok r /\ map_Fetch k m' = Ok r' /\ agree r r')
  /\ (b = true -> h = h' /\ p = p').
Proof.
  intros Hs Hs' Hn Hn' Hkv Hkv'. destruct (built_ok okK okV space exact kvs Hs Hn Hkv) as (m & E & Hm & Hf).
  destruct (built_ok okK okV space' exact' kvs' Hs' Hn' Hkv') as (m' & E' & Hm' & Hf').
  destruct (EqualMap_ok okK okV m _ m' _ Hm Hf Hm' Hf') as (b & Eb & Hb). eexists m, m', b, _, _, _, _. split; [exact E|]. split; [exact E'|]. split; [exact Eb|].
  split; [apply (hash_cells_ok okV); [apply Hm|done]|]. split; [apply (hash_cells_ok okV); [apply Hm'|done]|].
  split; [apply (print_cells_ok okV); [apply Hm|done]|]. split; [apply (print_cells_ok okV); [apply Hm'|done]|]. split.
  - rewrite Hb. split; intros Hall k Ok.
    + eexists _, _. rewrite (map_Fetch_ok okK m _ k Hm Ok), (map_Fetch_ok okK m' _ k Hm' Ok). eauto.
    + destruct (Hall k Ok) as (r & r' & Er & Er' & Hrr). rewrite (map_Fetch_ok okK m _ k Hm Ok) in Er. rewrite (map_Fetch_ok okK m' _ k Hm' Ok) in Er'.
      injection Er as <-. by injection Er' as <-.
  - intros Ht. pose proof (proj1 Hb Ht) as Hag. clear Ht. destruct (agree_same okK okV _ _ (mi_keys _ _ _ Hm) (mi_keys _ _ _ Hm') (mi_distinct _ _ _ Hm) (mi_distinct _ _ _ Hm') Hf Hf' Hag) as [-> ->].
    done.
Qed.

Lemma EqualMap_extensional_witness :
  exists m m' b h h' p p', init_map [(5, 50); (7, 70)] (MakeMapMem 0 false) = Ok m /\ init_map [(7, 70); (5, 1); (5, 50)] (MakeMapMem 100 true) = Ok m'
  /\ EqualMap m m' = Ok b /\ MapHash m = Ok h /\ MapHash m' = Ok h' /\ map_Fingerprint m = Ok p /\ map_Fingerprint m' = Ok p'
  /\ (b = true <-> forall k, True -> exists r r', map_Fetch k m = Ok r /\ map_Fetch k m' = Ok r' /\ agree r r')
  /\ (b = true -> h = h' /\ p = p').
Proof.
  apply (EqualMap_extensional (fun _ => True) (fun _ => True) 0 false 100 true [(5, 50); (7, 70)] [(7, 70); (5, 1); (5, 50)]);
    (lia || (cbn; lia) || (by repeat constructor)).
Defined.
