(* ===== verification/Forms.v ===== *)
(** * Run-time values: engine/form.cc, engine/form.h

    The values of the engine that are not functions, with the operations of their
    forms: equality, order, hash and fingerprint; maps as values. *)
From Stdlib Require Import ZArith Lia SpecFloat.
From stdpp Require Import prelude.
From S2P Require Import Prelude Double Codec SzlValue ValueOrder Hashing SzlMap SzlMapRef.

Local Open Scope Z_scope.

(** ** Values *)

(** A float is given by its bits; a string by its bytes. *)
Inductive Val : Type :=
| VBool (b : bool)
| VInt (i : Z)
| VUInt (u : Z)
| VFpr (u : Z)
| VFloat (bits : Z)
| VTime (u : Z)
| VBytes (s : bytes)
| VString (s : bytes)
| VArray (l : list Val)
| VTuple (slots : list Val).

Definition val_nested_ind (P : Val -> Prop)
    (Hb : forall b, P (VBool b)) (Hi : forall i, P (VInt i)) (Hu : forall u, P (VUInt u)) (Hp : forall u, P (VFpr u))
    (Hf : forall f, P (VFloat f)) (Ht : forall u, P (VTime u)) (Hy : forall s, P (VBytes s)) (Hs : forall s, P (VString s))
    (Ha : forall l, Forall P l -> P (VArray l)) (Hr : forall l, Forall P l -> P (VTuple l)) : forall v, P v :=
  fix ind v :=
    let fix all l : Forall P l := match l with [] => Forall_nil_2 P | v :: l => Forall_cons_2 P v l (ind v) (all l) end in
    match v with
    | VBool b => Hb b | VInt i => Hi i | VUInt u => Hu u | VFpr u => Hp u | VFloat f => Hf f | VTime u => Ht u
    | VBytes s => Hy s | VString s => Hs s | VArray l => Ha l (all l) | VTuple l => Hr l (all l)
    end.

(** ** Numbers *)

(** [==] of doubles. *)
Definition f64_eqb (a b : Z) : bool := SFeqb (sf_of_bits a) (sf_of_bits b).

(** [cmp], which returns -1, 0 or 1. *)
(* @src src/src/engine/form.cc 45-52 cmp *)
Definition cmp_num (a b : Z) : comparison := if a <? b then Lt else if b <? a then Gt else Eq.

(* @src src/src/engine/form.cc 98-101 BoolForm::IsEqual *)
Definition Bool_IsEqual (a b : bool) : bool := Bool.eqb a b.
(* @src src/src/engine/form.cc 104-108 BoolForm::Cmp *)
Definition Bool_Cmp (a b : bool) : comparison := cmp_num (Z.b2z a) (Z.b2z b).
(* @src src/src/engine/form.cc 122-125 BoolForm::Hash *)
Definition Bool_Hash (a : bool) : Z := Hash32NumWithSeed (Z.b2z a) kHashSeed32.
(* @src src/src/engine/form.cc 128-130 BoolForm::Fingerprint *)
Definition Bool_Fpr (a : bool) : Z := Fingerprint (Z.b2z a).

(* @src src/src/engine/form.cc 136-139 IntForm::IsEqual *)
Definition Int_IsEqual (a b : Z) : bool := a =? b.
(* @src src/src/engine/form.cc 142-146 IntForm::Cmp *)
Definition Int_Cmp (a b : Z) : comparison := cmp_num a b.
(* @src src/src/engine/form.cc 164-167 IntForm::Hash *)
Definition Int_Hash (a : Z) : Z := hash_basic64 (u64 a).
(* @src src/src/engine/form.cc 176-178 IntForm::Fingerprint *)
Definition Int_Fpr (a : Z) : Z := Fingerprint a.

(* @src src/src/engine/form.cc 194-197 UIntForm::IsEqual *)
Definition UInt_IsEqual (a b : Z) : bool := a =? b.
(* @src src/src/engine/form.cc 200-204 UIntForm::Cmp *)
Definition UInt_Cmp (a b : Z) : comparison := cmp_num a b.
(* @src src/src/engine/form.cc 222-225 UIntForm::Hash *)
Definition UInt_Hash (a : Z) : Z := hash_basic64 a.
(* @src src/src/engine/form.cc 234-236 UIntForm::Fingerprint *)
Definition UInt_Fpr (a : Z) : Z := Fingerprint a.

(* @src src/src/engine/form.cc 271-275 FingerprintForm::IsEqual *)
Definition Fingerprint_IsEqual (a b : Z) : bool := a =? b.
(* @src src/src/engine/form.cc 278-282 FingerprintForm::Cmp *)
Definition Fingerprint_Cmp (a b : Z) : comparison := cmp_num a b.
(* @src src/src/engine/form.cc 296-299 FingerprintForm::Hash *)
Definition Fingerprint_Hash (a : Z) : Z := hash_basic64 a.
(* @src src/src/engine/form.cc 302-304 FingerprintForm::Fingerprint *)
Definition Fingerprint_Fpr (a : Z) : Z := Fingerprint a.

(* @src src/src/engine/form.cc 331-334 FloatForm::IsEqual *)
Definition Float_IsEqual (a b : Z) : bool := f64_eqb a b.
(* @src src/src/engine/form.cc 337-341 FloatForm::Cmp *)
Definition Float_Cmp (a b : Z) : comparison := f64_cmp a b.
(* @src src/src/engine/form.cc 357-360 FloatForm::Hash *)
Definition Float_Hash (a : Z) : Z := hash_basic64 a.
(* @src src/src/engine/form.cc 363-365 FloatForm::Fingerprint *)
Definition Float_Fpr (a : Z) : Z := Fingerprint a.

(* @src src/src/engine/form.cc 390-393 TimeForm::IsEqual *)
Definition Time_IsEqual (a b : Z) : bool := a =? b.
(* @src src/src/engine/form.cc 396-400 TimeForm::Cmp *)
Definition Time_Cmp (a b : Z) : comparison := cmp_num a b.
(* @src src/src/engine/form.cc 422-425 TimeForm::Hash *)
Definition Time_Hash (a : Z) : Z := hash_basic64 a.
(* @src src/src/engine/form.cc 428-430 TimeForm::Fingerprint *)
Definition Time_Fpr (a : Z) : Z := Fingerprint a.

(** ** Bytes and strings *)

(** [memcmp] or [mystrcmp] over the bytes both have, and then the lengths. *)
Definition cmp_prefix (a b : bytes) : comparison :=
  match str_cmp (take (length a `min` length b) a) (take (length a `min` length b) b) with
  | Eq => cmp_num (Z.of_nat (length a)) (Z.of_nat (length b))
  | d => d
  end.

(** The lengths, and then [memcmp]. *)
Definition same_bytes (a b : bytes) : bool := (length a =? length b)%nat && match str_cmp a b with Eq => true | _ => false end.

(* @src src/src/engine/form.cc 436-444 BytesForm::IsEqual *)
Definition Bytes_IsEqual (a b : bytes) : bool := same_bytes a b.
(* @src src/src/engine/form.cc 447-456 BytesForm::Cmp *)
Definition Bytes_Cmp (a b : bytes) : comparison := cmp_prefix a b.
(* @src src/src/engine/form.cc 564-569 BytesForm::Hash *)
Definition Bytes_Hash (a : bytes) : Z := Hash32StringWithSeed a kHashSeed32.
(* @src src/src/engine/form.cc 572-576 BytesForm::Fingerprint *)
Definition Bytes_Fpr (a : bytes) : Z := FingerprintString a.

(* @src src/src/engine/form.cc 582-590 StringForm::IsEqual *)
Definition String_IsEqual (a b : bytes) : bool := same_bytes a b.
(* @src src/src/engine/form.cc 602-612 StringForm::Cmp *)
Definition String_Cmp (a b : bytes) : comparison := cmp_prefix a b.
(* @src src/src/engine/form.cc 769-774 StringForm::Hash *)
Definition String_Hash (a : bytes) : Z := Hash32StringWithSeed a kHashSeed32.
(* @src src/src/engine/form.cc 777-781 StringForm::Fingerprint *)
Definition String_Fpr (a : bytes) : Z := FingerprintString a.

(** ** Arrays and tuples *)

Section Elements.
Context (eqv : Val -> Val -> bool) (cmpv : Val -> Val -> res comparison) (hashv : Val -> Z) (fprv : Val -> Z).

Fixpoint equal_all (l1 l2 : list Val) : bool :=
  match l1, l2 with
  | [], [] => true
  | v1 :: l1, v2 :: l2 => eqv v1 v2 && equal_all l1 l2
  | _, _ => false
  end.

(** The first elements that differ; then the lengths. *)
Fixpoint cmp_all (l1 l2 : list Val) : res comparison :=
  match l1, l2 with
  | v1 :: l1, v2 :: l2 => d ← cmpv v1 v2; match d with Eq => cmp_all l1 l2 | d => Ok d end
  | l1, l2 => Ok (cmp_num (Z.of_nat (length l1)) (Z.of_nat (length l2)))
  end.

Fixpoint hash_all (hash : Z) (l : list Val) : Z :=
  match l with [] => hash | v :: l => hash_all (MapHashCat hash (hashv v)) l end.

Fixpoint print_all (print : Z) (l : list Val) : Z :=
  match l with [] => print | v :: l => print_all (FingerprintCat print (fprv v)) l end.

(* @src src/src/engine/form.cc 787-800 ArrayForm::IsEqual *)
Definition Array_IsEqual (l1 l2 : list Val) : bool := (length l1 =? length l2)%nat && equal_all l1 l2.
(* @src src/src/engine/form.cc 802-818 ArrayForm::Cmp *)
Definition Array_Cmp (l1 l2 : list Val) : res comparison := cmp_all l1 l2.
(* @src src/src/engine/form.cc 938-954 ArrayForm::Hash *)
Definition Array_Hash (l : list Val) : Z := hash_all kHashSeed32 l.
(* @src src/src/engine/form.cc 957-967 ArrayForm::Fingerprint *)
Definition Array_Fpr (l : list Val) : Z := print_all kFingerSeed l.

(** Tuples have the same type, and so as many slots, and all their fields are
    read: the code asserts the one and checks the other. *)
(* @src src/src/engine/form.cc 1061-1074 TupleForm::IsEqual *)
Definition Tuple_IsEqual (l1 l2 : list Val) : bool := equal_all l1 l2.
(* @src src/src/engine/form.cc 1076-1094 TupleForm::Cmp *)
Definition Tuple_Cmp (l1 l2 : list Val) : res comparison := cmp_all l1 l2.
(* @src src/src/engine/form.cc 1210-1224 TupleForm::Hash *)
Definition Tuple_Hash (l : list Val) : Z := hash_all kHashSeed32 l.
(* @src src/src/engine/form.cc 1227-1235 TupleForm::Fingerprint *)
Definition Tuple_Fpr (l : list Val) : Z := print_all kFingerSeed l.
End Elements.

(** ** Values of any form *)

(* @src src/src/engine/val.cc 73-75 Val::IsEqual *)
Fixpoint val_IsEqual (v1 v2 : Val) : bool :=
  match v1, v2 with
  | VBool a, VBool b => Bool_IsEqual a b
  | VInt a, VInt b => Int_IsEqual a b
  | VUInt a, VUInt b => UInt_IsEqual a b
  | VFpr a, VFpr b => Fingerprint_IsEqual a b
  | VFloat a, VFloat b => Float_IsEqual a b
  | VTime a, VTime b => Time_IsEqual a b
  | VBytes a, VBytes b => Bytes_IsEqual a b
  | VString a, VString b => String_IsEqual a b
  | VArray a, VArray b => Array_IsEqual val_IsEqual a b
  | VTuple a, VTuple b => Tuple_IsEqual val_IsEqual a b
  | _, _ => false
  end.

(** Values of different forms are not compared: it is asserted. *)
(* @src src/src/engine/val.cc 78-80 Val::Cmp *)
Fixpoint val_Cmp (v1 v2 : Val) : res comparison :=
  match v1, v2 with
  | VBool a, VBool b => Ok (Bool_Cmp a b)
  | VInt a, VInt b => Ok (Int_Cmp a b)
  | VUInt a, VUInt b => Ok (UInt_Cmp a b)
  | VFpr a, VFpr b => Ok (Fingerprint_Cmp a b)
  | VFloat a, VFloat b => Ok (Float_Cmp a b)
  | VTime a, VTime b => Ok (Time_Cmp a b)
  | VBytes a, VBytes b => Ok (Bytes_Cmp a b)
  | VString a, VString b => Ok (String_Cmp a b)
  | VArray a, VArray b => Array_Cmp val_Cmp a b
  | VTuple a, VTuple b => Tuple_Cmp val_Cmp a b
  | _, _ => Fatal
  end.

(* @src src/src/engine/form.h 67-67 Form::Hash *)
Fixpoint val_Hash (v : Val) : Z :=
  match v with
  | VBool a => Bool_Hash a
  | VInt a => Int_Hash a
  | VUInt a => UInt_Hash a
  | VFpr a => Fingerprint_Hash a
  | VFloat a => Float_Hash a
  | VTime a => Time_Hash a
  | VBytes a => Bytes_Hash a
  | VString a => String_Hash a
  | VArray l => Array_Hash val_Hash l
  | VTuple l => Tuple_Hash val_Hash l
  end.

(* @src src/src/engine/form.h 70-70 Form::Fingerprint *)
Fixpoint val_Fpr (v : Val) : Z :=
  match v with
  | VBool a => Bool_Fpr a
  | VInt a => Int_Fpr a
  | VUInt a => UInt_Fpr a
  | VFpr a => Fingerprint_Fpr a
  | VFloat a => Float_Fpr a
  | VTime a => Time_Fpr a
  | VBytes a => Bytes_Fpr a
  | VString a => String_Fpr a
  | VArray l => Array_Fpr val_Fpr l
  | VTuple l => Tuple_Fpr val_Fpr l
  end.

#[export] Instance val_run_val : RunVal Val := { IsEqual := val_IsEqual; Hash := val_Hash; Fpr := val_Fpr }.

(** Maps as values. [EqualMap] and [Fingerprint] of a map that is well formed
    answer. *)
Definition of_res {A} (d : A) (r : res A) : A := match r with Ok a => a | _ => d end.

(* @src src/src/engine/form.cc 973-976 MapForm::IsEqual *)
Definition Map_IsEqual {K V} `{RunVal K, RunVal V} (m m' : Map K V) : bool := of_res false (EqualMap m m').
(* @src src/src/engine/form.cc 1047-1050 MapForm::Hash *)
Definition Map_Hash {K V} `{RunVal K, RunVal V} (m : Map K V) : Z := hash_basic64 (of_res 0 (map_Fingerprint m)).
(* @src src/src/engine/form.cc 1053-1055 MapForm::Fingerprint *)
Definition Map_Fpr {K V} `{RunVal K, RunVal V} (m : Map K V) : Z := of_res 0 (map_Fingerprint m).

#[export] Instance map_run_val {K V} `{RunVal K, RunVal V} : RunVal (Map K V) := { IsEqual := Map_IsEqual; Hash := Map_Hash; Fpr := Map_Fpr }.

(** ** Equality, hash and fingerprint *)

(** The values of one form that [==] tells apart as their bits do: no NaN, which
    differs from itself, and no negative zero, which is equal to zero. *)
Fixpoint val_ok (v : Val) : Prop :=
  match v with
  | VBool _ => True
  | VInt i => is_s64 i
  | VUInt u | VFpr u | VTime u => is_u64 u
  | VFloat f => is_u64 f /\ is_nan f = false /\ f <> 2 ^ 63
  | VBytes s | VString s => bytes_ok s
  | VArray l | VTuple l => (fix all l := match l with [] => True | v :: l => val_ok v /\ all l end) l
  end.

Lemma all_ok l : ((fix all l := match l with [] => True | v :: l => val_ok v /\ all l end) l) <-> Forall val_ok l.
Proof. induction l as [|v l IH]; [by split; [constructor|]|]. by rewrite Forall_cons, <- IH. Qed.

Lemma f64_eqb_key a b : is_u64 a -> is_u64 b -> is_nan a = false -> is_nan b = false -> f64_eqb a b = (float_key a =? float_key b).
Proof. intros. unfold f64_eqb, SFeqb. rewrite float_key_SFcompare by done. destruct (Z.compare_spec (float_key a) (float_key b)); symmetry; apply Z.eqb_eq || apply Z.eqb_neq; lia. Qed.

Lemma float_key_inj a b : is_u64 a -> is_u64 b -> a <> 2 ^ 63 -> b <> 2 ^ 63 -> float_key a = float_key b -> a = b.
Proof. unfold float_key, is_u64. destruct (Z.ltb_spec a (2 ^ 63)), (Z.ltb_spec b (2 ^ 63)); lia. Qed.

Lemma same_bytes_eq a b : same_bytes a b = true <-> a = b.
Proof.
  unfold same_bytes. rewrite andb_true_iff, Nat.eqb_eq. split.
  - intros [_ H]. apply str_cmp_eq. by destruct (str_cmp a b).
  - intros ->. by rewrite str_cmp_refl.
Qed.

Lemma equal_all_eq l : Forall (fun v => forall w, val_ok v -> val_ok w -> val_IsEqual v w = true <-> v = w) l ->
  forall l', Forall val_ok l -> Forall val_ok l' -> equal_all val_IsEqual l l' = true <-> l = l'.
Proof.
  intros Hl. induction Hl as [|v l Hv Hl IH]; intros [|w l'] Hok Hok'; [done..|]. apply Forall_cons in Hok as [Ov Ok], Hok' as [Ow Ok'].
  cbn [equal_all]. rewrite andb_true_iff, Hv, IH by done. split; [by intros [-> ->]|by intros [= -> ->]].
Qed.

(** Equality is the identity of such values. *)
Lemma val_IsEqual_eq v w : val_ok v -> val_ok w -> val_IsEqual v w = true <-> v = w.
Proof.
  revert w. induction v as [b|i|u|u|f|u|s|s|l Hl|l Hl] using val_nested_ind; intros w Hv Hw; destruct w; try done; cbn [val_IsEqual].
  - unfold Bool_IsEqual. rewrite eqb_true_iff. split; [by intros ->|by intros [= ->]].
  - unfold Int_IsEqual. rewrite Z.eqb_eq. split; [by intros ->|by intros [= ->]].
  - unfold UInt_IsEqual. rewrite Z.eqb_eq. split; [by intros ->|by intros [= ->]].
  - unfold Fingerprint_IsEqual. rewrite Z.eqb_eq. split; [by intros ->|by intros [= ->]].
  - destruct Hv as (H1 & H2 & H3), Hw as (H4 & H5 & H6). unfold Float_IsEqual. rewrite f64_eqb_key, Z.eqb_eq by done.
    split; [intros E; f_equal; by apply float_key_inj|by intros [= ->]].
  - unfold Time_IsEqual. rewrite Z.eqb_eq. split; [by intros ->|by intros [= ->]].
  - unfold Bytes_IsEqual. rewrite same_bytes_eq. split; [by intros ->|by intros [= ->]].
  - unfold String_IsEqual. rewrite same_bytes_eq. split; [by intros ->|by intros [= ->]].
  - unfold Array_IsEqual. rewrite andb_true_iff, Nat.eqb_eq, equal_all_eq by (done || by apply all_ok). split; [by intros [_ ->]|by intros [= ->]].
  - unfold Tuple_IsEqual. rewrite equal_all_eq by (done || by apply all_ok). split; [by intros ->|by intros [= ->]].
Qed.

Lemma val_Hash_range v : is_u32 (val_Hash v).
Proof.
  induction v as [b|i|u|u|f|u|s|s|l Hl|l Hl] using val_nested_ind; cbn [val_Hash]; try apply Hash32NumWithSeed_range;
    try (apply Hash32StringWithSeed_range; unfold is_u32, kHashSeed32; lia);
    unfold Array_Hash, Tuple_Hash; (assert (is_u32 kHashSeed32) as Hk by (unfold is_u32, kHashSeed32; lia)); revert Hk; generalize kHashSeed32;
    induction Hl as [|v l Hv Hl IH]; intros h Hh; [done| |done|]; apply IH; unfold MapHashCat; by apply (lxor_range _ _ 32).
Qed.

#[export] Instance val_laws : RunValLaws Val val_ok.
Proof.
  assert (forall x y, val_ok x -> val_ok y -> IsEqual x y = true -> x = y) as He by (intros x y Hx Hy; apply val_IsEqual_eq; done).
  split.
  - intros x Hx. by apply val_IsEqual_eq.
  - intros x y Hx Hy E. apply val_IsEqual_eq; [done..|]. symmetry. by apply He.
  - intros x y z Hx Hy Hz E1 E2. apply val_IsEqual_eq; [done..|]. rewrite (He x y Hx Hy E1). exact (He y z Hy Hz E2).
  - intros x y Hx Hy E. f_equal. by apply He.
  - intros x y Hx Hy E. f_equal. by apply He.
  - intros x _. apply val_Hash_range.
Qed.

(** ** Maps as values *)

Section MapLaws.
Context {K V : Type} `{RunVal K, RunVal V} (okK : K -> Prop) (okV : V -> Prop) `{!RunValLaws K okK, !RunValLaws V okV}.

(** A well-formed map all of whose keys have values. *)
Definition map_ok (m : Map K V) : Prop := exists l, map_is okK m l /\ full okV l.

Lemma Map_IsEqual_agree m l m' l' : map_is okK m l -> full okV l -> map_is okK m' l' -> full okV l' ->
  Map_IsEqual m m' = true <-> forall k, okK k -> agree (assoc_get k l) (assoc_get k l').
Proof. intros Hm Hf Hm' Hf'. destruct (EqualMap_ok okK okV m l m' l' Hm Hf Hm' Hf') as (b & E & Hb). unfold Map_IsEqual. by rewrite E. Qed.

Lemma assoc_get_ok (k : K) (l : list (K * option V)) v : full okV l -> assoc_get k l = Some v -> okV v.
Proof.
  intros Hf E. destruct (assoc_get_entry _ _ _ E) as (k' & Hin & _). destruct (proj1 (Forall_forall _ _) Hf _ Hin) as (w & Ew & Hw). cbn in Ew. by injection Ew as ->.
Qed.

Lemma agree_refl (r : option V) : (forall v, r = Some v -> okV v) -> agree r r.
Proof. intros Hr. destruct r as [v|]; [|done]. by apply equal_refl, Hr. Qed.
Lemma agree_sym (r s : option V) : (forall v, r = Some v -> okV v) -> (forall v, s = Some v -> okV v) -> agree r s -> agree s r.
Proof. intros Hr Hs. destruct r as [v|], s as [w|]; try done. cbn. apply equal_sym; auto. Qed.
Lemma agree_trans (r s t : option V) : (forall v, r = Some v -> okV v) -> (forall v, s = Some v -> okV v) -> (forall v, t = Some v -> okV v) ->
  agree r s -> agree s t -> agree r t.
Proof. intros Hr Hs Ht. destruct r as [v|], s as [w|], t as [x|]; try done. cbn. apply equal_trans; auto. Qed.

Lemma Map_prints m l : map_is okK m l -> full okV l -> of_res 0 (map_Fingerprint m) = Z.lxor kFingerSeed (xor_all print_entry l).
Proof. intros Hm Hf. unfold map_Fingerprint. by rewrite (print_cells_ok okV (base_ m) l) by (done || apply Hm). Qed.

#[export] Instance map_laws : RunValLaws (Map K V) map_ok.
Proof.
  assert (forall x y, map_ok x -> map_ok y -> IsEqual x y = true -> Fpr x = Fpr y) as Hfpr.
  { intros x y (l & Hx & Hf) (l' & Hy & Hf') E. pose proof (proj1 (Map_IsEqual_agree x l y l' Hx Hf Hy Hf') E) as Hag.
    destruct (agree_same okK okV l l' (mi_keys _ _ _ Hx) (mi_keys _ _ _ Hy) (mi_distinct _ _ _ Hx) (mi_distinct _ _ _ Hy) Hf Hf' Hag) as [_ Ep].
    cbn. unfold Map_Fpr. by rewrite (Map_prints x l), (Map_prints y l'), Ep. }
  split.
  - intros x (l & Hx & Hf). apply (proj2 (Map_IsEqual_agree x l x l Hx Hf Hx Hf)). intros k _. apply agree_refl. intros v. by apply assoc_get_ok.
  - intros x y (l & Hx & Hf) (l' & Hy & Hf') E. apply (proj2 (Map_IsEqual_agree y l' x l Hy Hf' Hx Hf)). intros k Hk.
    apply agree_sym; [intros v; by apply assoc_get_ok..|]. exact (proj1 (Map_IsEqual_agree x l y l' Hx Hf Hy Hf') E k Hk).
  - intros x y z (l & Hx & Hf) (l' & Hy & Hf') (l2 & Hz & Hf2) E1 E2. apply (proj2 (Map_IsEqual_agree x l z l2 Hx Hf Hz Hf2)). intros k Hk.
    apply (agree_trans _ (assoc_get k l')); [intros v; by apply assoc_get_ok..| |].
    + exact (proj1 (Map_IsEqual_agree x l y l' Hx Hf Hy Hf') E1 k Hk).
    + exact (proj1 (Map_IsEqual_agree y l' z l2 Hy Hf' Hz Hf2) E2 k Hk).
  - intros x y Hx Hy E. cbn. unfold Map_Hash. f_equal. by apply Hfpr.
  - exact Hfpr.
  - intros x _. apply Hash32NumWithSeed_range.
Qed.
End MapLaws.

(** ** Order *)

(** The form of a value; a tuple's has one for each slot. *)
Inductive form : Type :=
| FBool | FInt | FUInt | FFpr | FFloat | FTime | FBytes | FString
| FArray (f : form)
| FTuple (fs : list form).

Fixpoint has_form (f : form) (v : Val) : Prop :=
  match f, v with
  | FBool, VBool _ | FInt, VInt _ | FUInt, VUInt _ | FFpr, VFpr _ | FFloat, VFloat _ | FTime, VTime _
  | FBytes, VBytes _ | FString, VString _ => True
  | FArray f, VArray l => Forall (has_form f) l
  | FTuple fs, VTuple l =>
      (fix slots fs l := match fs, l with [], [] => True | f :: fs, v :: l => has_form f v /\ slots fs l | _, _ => False end) fs l
  | _, _ => False
  end.

Definition form_nested_ind (P : form -> Prop) (H0 : P FBool) (H1 : P FInt) (H2 : P FUInt) (H3 : P FFpr) (H4 : P FFloat) (H5 : P FTime)
    (H6 : P FBytes) (H7 : P FString) (Ha : forall f, P f -> P (FArray f)) (Ht : forall fs, Forall P fs -> P (FTuple fs)) : forall f, P f :=
  fix ind f :=
    let fix all l : Forall P l := match l with [] => Forall_nil_2 P | f :: l => Forall_cons_2 P f l (ind f) (all l) end in
    match f with
    | FBool => H0 | FInt => H1 | FUInt => H2 | FFpr => H3 | FFloat => H4 | FTime => H5 | FBytes => H6 | FString => H7
    | FArray f => Ha f (ind f) | FTuple fs => Ht fs (all fs)
    end.

Lemma cmp_laws_sub {A} (P Q : A -> Prop) f : (forall x, Q x -> P x) -> cmp_laws P f -> cmp_laws Q f.
Proof. intros HQ [H1 H2 H3]. split; eauto. Qed.

Lemma cmp_num_compare a b : cmp_num a b = (a ?= b).
Proof. exact (CmpBaseT_compare a b). Qed.

Lemma cmp_prefix_str a b : cmp_prefix a b = str_cmp a b.
Proof. unfold cmp_prefix. rewrite cmp_num_compare. apply str_cmp_memcmp. Qed.

(** Lexicographic order of lists. *)
Section Lex.
Context (cmpv : Val -> Val -> res comparison).

Lemma cmp_all_step (P : Val -> Prop) (Q : list Val -> Prop) (R : list Val -> Prop) :
  cmp_laws P cmpv -> cmp_laws Q (cmp_all cmpv) -> (forall l, R l -> exists v l', l = v :: l' /\ P v /\ Q l') -> cmp_laws R (cmp_all cmpv).
Proof.
  intros Hv Hl HR. split.
  - intros a b Ha Hb. destruct (HR a Ha) as (x & a' & -> & Px & Qa), (HR b Hb) as (y & b' & -> & Py & Qb). cbn [cmp_all].
    destruct (cl_total _ _ Hv x y Px Py) as [c ->]. cbn [mbind res_bind]. destruct c; [by apply (cl_total _ _ Hl)|by eexists..].
  - intros a b c Ha Hb. destruct (HR a Ha) as (x & a' & -> & Px & Qa), (HR b Hb) as (y & b' & -> & Py & Qb). cbn [cmp_all].
    destruct (cl_total _ _ Hv x y Px Py) as [c1 E1]. rewrite E1, (cl_antisym _ _ Hv x y c1 Px Py E1). cbn [mbind res_bind].
    destruct c1; cbn [CompOpp]; [by apply (cl_antisym _ _ Hl)|by intros [= <-]..].
  - intros a b d c1 c2 Ha Hb Hd. destruct (HR a Ha) as (x & a' & -> & Px & Qa), (HR b Hb) as (y & b' & -> & Py & Qb), (HR d Hd) as (z & d' & -> & Pz & Qd).
    cbn [cmp_all]. destruct (cl_total _ _ Hv x y Px Py) as [e1 E1], (cl_total _ _ Hv y z Py Pz) as [e2 E2]. rewrite E1, E2. cbn [mbind res_bind].
    intros H1 H2 N1 N2. assert (e1 <> Gt /\ e2 <> Gt) as [M1 M2] by (split; intros ->; [by injection H1 as <-|by injection H2 as <-]).
    rewrite (cl_trans _ _ Hv x y z e1 e2 Px Py Pz E1 E2 M1 M2). cbn [mbind res_bind]. destruct e1; [|injection H1 as <-; done|done].
    cbn [cmp_then]. destruct e2; [|injection H2 as <-|done].
    + by apply (cl_trans _ _ Hl a' b' d').
    + destruct c1; done.
Qed.

Lemma cmp_all_nil : cmp_laws (fun l => l = []) (cmp_all cmpv).
Proof.
  split; [by intros ? ? -> ->; eexists|by intros ? ? ? -> -> [= <-]|by intros ? ? ? ? ? -> -> -> [= <-] [= <-]].
Qed.

(** Arrays: of any length, the shorter first. *)
Lemma cmp_all_arrays P : cmp_laws P cmpv -> cmp_laws (Forall P) (cmp_all cmpv).
Proof.
  intros Hv. assert (forall n, cmp_laws (fun l => Forall P l /\ (length l <= n)%nat) (cmp_all cmpv)) as Hn.
  { assert (forall l, l <> [] -> cmp_all cmpv l [] = Ok Gt /\ cmp_all cmpv [] l = Ok Lt) as Hnil.
    { intros [|v l] Hl; [done|]. cbn [cmp_all length]. rewrite !cmp_num_compare. by split. }
    induction n as [|n IH].
    - eapply cmp_laws_sub; [|exact cmp_all_nil]. intros [|v l] [_ Hl]; [done|cbn in Hl; lia].
    - assert (cmp_laws (fun l => Forall P l /\ (length l <= S n)%nat /\ l <> []) (cmp_all cmpv)) as [S1 S2 S3].
      { apply (cmp_all_step P (fun l => Forall P l /\ (length l <= n)%nat)); [exact Hv|exact IH|]. intros [|v l] (Hl & Hlen & Hne); [done|].
        apply Forall_cons in Hl as [? ?]. exists v, l. cbn in Hlen. split; [done|]. split; [done|]. split; [done|lia]. }
      split.
      + intros a b [Ha La] [Hb Lb]. destruct (decide (a = [])) as [->|Na], (decide (b = [])) as [->|Nb]; [by eexists|by rewrite (proj2 (Hnil b Nb)); eexists|by rewrite (proj1 (Hnil a Na)); eexists|by apply S1].
      + intros a b c [Ha La] [Hb Lb]. destruct (decide (a = [])) as [->|Na], (decide (b = [])) as [->|Nb].
        * by intros [= <-].
        * destruct (Hnil b Nb) as [-> ->]. by intros [= <-].
        * destruct (Hnil a Na) as [-> ->]. by intros [= <-].
        * by apply S2.
      + intros a b d c1 c2 [Ha La] [Hb Lb] [Hd Ld]. destruct (decide (b = [])) as [->|Nb].
        * destruct (decide (a = [])) as [->|Na]; [intros [= <-] E _ _; by rewrite E|]. rewrite (proj1 (Hnil a Na)). by intros [= <-] ? ?.
        * destruct (decide (d = [])) as [->|Nd]; [rewrite (proj1 (Hnil b Nb)); intros ? [= <-]; done|].
          destruct (decide (a = [])) as [->|Na]; [rewrite (proj2 (Hnil b Nb)), (proj2 (Hnil d Nd)); by intros [= <-] ?|]. by apply S3. }
  split.
  - intros a b Ha Hb. apply (cl_total _ _ (Hn (length a + length b)%nat)); split; (done || lia).
  - intros a b c Ha Hb. apply (cl_antisym _ _ (Hn (length a + length b)%nat)); split; (done || lia).
  - intros a b d c1 c2 Ha Hb Hd. apply (cl_trans _ _ (Hn (length a + length b + length d)%nat)); split; (done || lia).
Qed.
End Lex.

(** What is compared: a value of the form that is ordered. *)
Definition cmp_ok (f : form) (v : Val) : Prop := has_form f v /\ val_ok v.

Lemma cmp_laws_scalar (P : Val -> Prop) (key : Val -> Z) :
  (forall v w, P v -> P w -> val_Cmp v w = Ok (key v ?= key w)) -> cmp_laws P val_Cmp.
Proof. intros H. eapply cmp_laws_ext; [|exact (cmp_laws_key P key)]. intros v w Hv Hw. by rewrite H. Qed.

Lemma cmp_laws_string (P : Val -> Prop) (key : Val -> bytes) :
  (forall v w, P v -> P w -> val_Cmp v w = Ok (str_cmp (key v) (key w))) -> cmp_laws P val_Cmp.
Proof. intros H. eapply cmp_laws_ext; [|exact (cmp_laws_str P key)]. intros v w Hv Hw. by rewrite H. Qed.

(** Lifting a law through [VArray] or [VTuple]. *)
Lemma cmp_laws_wrap (P : Val -> Prop) (Q : list Val -> Prop) (wrap : list Val -> Val) :
  (forall l l', val_Cmp (wrap l) (wrap l') = cmp_all val_Cmp l l') -> (forall v, P v -> exists l, v = wrap l /\ Q l) ->
  cmp_laws Q (cmp_all val_Cmp) -> cmp_laws P val_Cmp.
Proof.
  intros Hw HP [H1 H2 H3]. split.
  - intros a b (l & -> & Ql)%HP (l' & -> & Ql')%HP. rewrite Hw. by apply H1.
  - intros a b c (l & -> & Ql)%HP (l' & -> & Ql')%HP. rewrite !Hw. by apply H2.
  - intros a b d c1 c2 (l & -> & Ql)%HP (l' & -> & Ql')%HP (l2 & -> & Ql2)%HP. rewrite !Hw. by apply H3.
Qed.

Lemma val_Cmp_laws f : cmp_laws (cmp_ok f) val_Cmp.
Proof.
  induction f as [| | | | | | | |f IH|fs IH] using form_nested_ind.
  - apply (cmp_laws_scalar _ (fun v => match v with VBool b => Z.b2z b | _ => 0 end)). intros [] [] [Hv _] [Hw _]; try done. cbn. unfold Bool_Cmp. by rewrite cmp_num_compare.
  - apply (cmp_laws_scalar _ (fun v => match v with VInt i => i | _ => 0 end)). intros [] [] [Hv _] [Hw _]; try done. cbn. unfold Int_Cmp. by rewrite cmp_num_compare.
  - apply (cmp_laws_scalar _ (fun v => match v with VUInt i => i | _ => 0 end)). intros [] [] [Hv _] [Hw _]; try done. cbn. unfold UInt_Cmp. by rewrite cmp_num_compare.
  - apply (cmp_laws_scalar _ (fun v => match v with VFpr i => i | _ => 0 end)). intros [] [] [Hv _] [Hw _]; try done. cbn. unfold Fingerprint_Cmp. by rewrite cmp_num_compare.
  - apply (cmp_laws_scalar _ (fun v => match v with VFloat i => float_key i | _ => 0 end)).
    intros [] [] [Hv Ov] [Hw Ow]; try done. cbn in *. unfold Float_Cmp. by rewrite f64_cmp_key by tauto.
  - apply (cmp_laws_scalar _ (fun v => match v with VTime i => i | _ => 0 end)). intros [] [] [Hv _] [Hw _]; try done. cbn. unfold Time_Cmp. by rewrite cmp_num_compare.
  - apply (cmp_laws_string _ (fun v => match v with VBytes s => s | _ => [] end)). intros [] [] [Hv _] [Hw _]; try done. cbn. unfold Bytes_Cmp. by rewrite cmp_prefix_str.
  - apply (cmp_laws_string _ (fun v => match v with VString s => s | _ => [] end)). intros [] [] [Hv _] [Hw _]; try done. cbn. unfold String_Cmp. by rewrite cmp_prefix_str.
  - apply (cmp_laws_wrap _ (Forall (cmp_ok f)) VArray); [done| |by apply cmp_all_arrays].
    intros v [Hv Ov]. destruct v as [| | | | | | | |l|]; try done. exists l. split; [done|]. cbn in Hv. pose proof (proj1 (all_ok l) Ov) as Ol. by apply Forall_and.
  - apply (cmp_laws_wrap _ (Forall2 cmp_ok fs) VTuple); [done| |].
    + intros v [Hv Ov]. destruct v as [| | | | | | | | |l]; try done. exists l. split; [done|]. cbn in Hv. pose proof (proj1 (all_ok l) Ov) as Ol. clear IH Ov.
      revert l Hv Ol. induction fs as [|f fs IHf]; intros [|v l] Hv Ol; try done. destruct Hv as [Hv Hl]. apply Forall_cons in Ol as [Ov Ol].
      constructor; [by split|]. by apply IHf.
    + induction IH as [|f fs Hf _ IHf].
      * eapply cmp_laws_sub; [|exact (cmp_all_nil val_Cmp)]. intros l Hl. by apply Forall2_nil_inv_l in Hl.
      * apply (cmp_all_step val_Cmp (cmp_ok f) (Forall2 cmp_ok fs)); [exact Hf|exact IHf|].
        intros l Hl. apply Forall2_cons_inv_l in Hl as (v & l' & Hv & Hl & ->). by exists v, l'.
Qed.

Lemma cmp_all_Eq l : Forall (fun v => forall w, val_ok v -> val_ok w -> val_Cmp v w = Ok Eq -> v = w) l ->
  forall l', Forall val_ok l -> Forall val_ok l' -> cmp_all val_Cmp l l' = Ok Eq -> l = l'.
Proof.
  intros Hl. induction Hl as [|v l Hv Hl IH]; intros [|w l'] Hok Hok'; try done. apply Forall_cons in Hok as [Ov Ok], Hok' as [Ow Ok']. cbn [cmp_all].
  destruct (val_Cmp v w) as [[]| |] eqn:E; try done. cbn [mbind res_bind]. intros E2. f_equal; [by apply Hv|by apply IH].
Qed.

(** Nothing but a value itself compares equal to it. *)
Lemma val_Cmp_Eq v w : val_ok v -> val_ok w -> val_Cmp v w = Ok Eq -> v = w.
Proof.
  revert w. induction v as [b|i|u|u|f|u|s|s|l Hl|l Hl] using val_nested_ind; intros w Hv Hw; destruct w; try done; cbn [val_Cmp].
  - destruct b, b0; try done.
  - unfold Int_Cmp. rewrite cmp_num_compare. intros [= E%Z.compare_eq_iff]. by f_equal.
  - unfold UInt_Cmp. rewrite cmp_num_compare. intros [= E%Z.compare_eq_iff]. by f_equal.
  - unfold Fingerprint_Cmp. rewrite cmp_num_compare. intros [= E%Z.compare_eq_iff]. by f_equal.
  - destruct Hv as (H1 & H2 & H3), Hw as (H4 & H5 & H6). unfold Float_Cmp. rewrite f64_cmp_key by done. intros [= E%Z.compare_eq_iff]. f_equal. by apply float_key_inj.
  - unfold Time_Cmp. rewrite cmp_num_compare. intros [= E%Z.compare_eq_iff]. by f_equal.
  - unfold Bytes_Cmp. rewrite cmp_prefix_str. intros [= E%str_cmp_eq]. by f_equal.
  - unfold String_Cmp. rewrite cmp_prefix_str. intros [= E%str_cmp_eq]. by f_equal.
  - intros E. f_equal. by apply (cmp_all_Eq l Hl); [apply all_ok|apply all_ok|].
  - intros E. f_equal. by apply (cmp_all_Eq l Hl); [apply all_ok|apply all_ok|].
Qed.

(** C22. The operations of the forms fit together. For values of one form, any
    nesting of arrays and tuples, without NaN or negative zero: [Cmp] answers, and
    is a total order; it says equal exactly when [IsEqual] is true; and values
    that are equal have the same hash and the same fingerprint. *)
Theorem forms_coherent (f : form) (v w x : Val) :
  has_form f v /\ val_ok v -> has_form f w /\ val_ok w -> has_form f x /\ val_ok x ->
  exists c d, val_Cmp v w = Ok c /\ val_Cmp w x = Ok d /\ val_Cmp w v = Ok (CompOpp c)
  /\ (c <> Gt -> d <> Gt -> val_Cmp v x = Ok (cmp_then c d))
  /\ (c = Eq <-> val_IsEqual v w = true)
  /\ (val_IsEqual v w = true -> val_Hash v = val_Hash w /\ val_Fpr v = val_Fpr w).
Proof.
  intros Hv Hw Hx. pose proof (val_Cmp_laws f) as L. destruct (cl_total _ _ L v w Hv Hw) as [c Ec], (cl_total _ _ L w x Hw Hx) as [d Ed].
  exists c, d. split; [exact Ec|]. split; [exact Ed|]. split; [by apply (cl_antisym _ _ L)|]. split; [by apply (cl_trans _ _ L v w x)|].
  rewrite val_IsEqual_eq by (apply Hv || apply Hw). split; [|by intros ->]. split.
  - intros ->. by apply val_Cmp_Eq; [apply Hv|apply Hw|].
  - intros ->. rewrite (cmp_laws_refl _ _ w L Hw) in Ec. by injection Ec as <-.
Qed.

Lemma forms_coherent_witness : let v := VArray [VTuple [VInt 1; VString [97]]] in let w := VArray [VTuple [VInt 1; VString [98]]; VTuple [VInt 0; VString []]] in
  exists c d, val_Cmp v w = Ok c /\ val_Cmp w v = Ok d /\ val_Cmp w v = Ok (CompOpp c)
  /\ (c <> Gt -> d <> Gt -> val_Cmp v v = Ok (cmp_then c d))
  /\ (c = Eq <-> val_IsEqual v w = true)
  /\ (val_IsEqual v w = true -> val_Hash v = val_Hash w /\ val_Fpr v = val_Fpr w).
Proof.
  cbv zeta. assert (forall v, v = VArray [VTuple [VInt 1; VString [97]]] \/ v = VArray [VTuple [VInt 1; VString [98]]; VTuple [VInt 0; VString []]] ->
    has_form (FArray (FTuple [FInt; FString])) v /\ val_ok v) as H.
  { intros v [-> | ->]; cbn; unfold bytes_ok, is_u8, is_s64; repeat (split || constructor || lia). }
  apply (forms_coherent (FArray (FTuple [FInt; FString]))); apply H; auto.
Defined.

(** Floats as keys. Zero and negative zero are equal but have different
    hashes, so that a map made for 17 cells can hold both, and looking one up does
    not find the other; a NaN is not equal to itself, so that inserting it twice makes two
    cells, and neither is ever found. *)
Theorem float_keys_incoherent : let zero := VFloat 0 in let minus_zero := VFloat (2 ^ 63) in let nan := VFloat (2047 * 2 ^ 52 + 1) in
  val_IsEqual zero minus_zero = true /\ val_Hash zero <> val_Hash minus_zero
  /\ (m ← init_map [(zero, VInt 1); (minus_zero, VInt 2)] (MakeMapMem 17 true); Ok (occupancy m)) = Ok 2%nat
  /\ (m ← init_map [(zero, VInt 1)] (MakeMapMem 17 true); Lookup minus_zero m) = Ok (-1)
  /\ (m ← init_map [(nan, VInt 1); (nan, VInt 2)] (MakeMapMem 17 true); i ← Lookup nan m; Ok (occupancy m, i)) = Ok (2%nat, -1).
Proof.
  cbv zeta. split; [vm_compute; reflexivity|]. split; [vm_compute; discriminate|].
  split; [vm_compute; reflexivity|]. split; vm_compute; reflexivity.
Qed.
