(* ===== verification/Outputter.v ===== *)
(** * Emit statements: engine/outputter.cc, engine/backendtype.cc

    What an emit statement of a compiled program does: its values are put into an
    emitter (any [Emitter]) part by part, maps sorted by their keys. With the
    emitter of the tables, the entry for the index gets the encoding of the element
    by SzlOps ([Emit_feeds]); with that, whole tables over shards
    ([tables_sharded]). *)
From Stdlib Require Import ZArith Lia.
From stdpp Require Import prelude strings gmap.
From S2P Require Import Prelude SzlType Encoder Decoder Codec SzlValue ValueCodec TabEntry Emitter SzlMap Forms.

Local Open Scope Z_scope.

(** ** Types *)

Module BasicType.
(* @src src/src/engine/type.h 225-230 BasicType::Kind *)
Inductive Kind : Type := BOOL | BYTES | FINGERPRINT | FLOAT | INT | STRING | TIME | UINT.
End BasicType.

(** The types of emitted values: a field of a tuple has a name, the slot of the
    value it is in, and a type. *)
(* @src src/src/engine/type.h 37-39 Type *)
Inductive Type_ : Type :=
| TBasic (kind : BasicType.Kind)
| TTuple (fields : list (string * nat * Type_))
| TArray (elem_name : string) (elem_type : Type_)
| TMap (index_name : string) (index_type : Type_) (elem_name : string) (elem_type : Type_).

Lemma Type_nested_ind (P : Type_ -> Prop) :
  (forall k, P (TBasic k)) -> (forall fields, Forall (fun f => P f.2) fields -> P (TTuple fields)) ->
  (forall n t, P t -> P (TArray n t)) -> (forall n k m e, P k -> P e -> P (TMap n k m e)) -> forall t, P t.
Proof.
  intros Hb Ht Ha Hm. fix IH 1. intros [k|fields|n t|n k m e].
  - apply Hb.
  - apply Ht. induction fields as [|[[n s] t] fields IHf]; constructor; [exact (IH t)|exact IHf].
  - apply Ha, IH.
  - apply Hm; apply IH.
Qed.

(* @src src/src/engine/backendtype.cc 73-97 BackendKindFor *)
Definition BackendKindFor (kind : BasicType.Kind) : Kind :=
  match kind with
  | BasicType.BOOL => BOOL
  | BasicType.BYTES => BYTES
  | BasicType.FINGERPRINT => FINGERPRINT
  | BasicType.FLOAT => FLOAT
  | BasicType.INT | BasicType.UINT => INT
  | BasicType.STRING => STRING
  | BasicType.TIME => TIME
  end.

(** The type that the backend has for a type; in the code it is written as a
    protocol buffer. *)
(* @src src/src/engine/backendtype.cc 100-135 BackendTypeFor *)
Fixpoint BackendTypeFor (type : Type_) : SzlType :=
  match type with
  | TBasic kind => kind_type (BackendKindFor kind)
  | TTuple fields => MkType TUPLE "" 0 (map (fun '(name, _, t) => (name, BackendTypeFor t)) fields) [] None None
  | TArray name t => MkType ARRAY "" 0 [] [] (Some (name, BackendTypeFor t)) None
  | TMap iname it ename et => MkType MAP "" 0 [] [(iname, BackendTypeFor it)] (Some (ename, BackendTypeFor et)) None
  end.

(** The declaration of a table that is not a file. *)
(* @src src/src/engine/type.h 619-628 OutputType *)
Record OutputType : Type := MkOutput {
  o_kind : string;
  o_param : Z;
  index_decls : list (string * Type_);
  elem_decl : string * Type_;
  elem_format_args : bool;
  weight : option (string * Type_) }.

(** With a format for its elements a table is one of strings. *)
(* @src src/src/engine/backendtype.cc 137-163 BackendTypeFor *)
Definition BackendTableFor (type : OutputType) : SzlType :=
  let elem_type := if elem_format_args type then kind_type STRING else BackendTypeFor (elem_decl type).2 in
  MkType TABLE (o_kind type) (o_param type) [] (map (fun '(name, t) => (name, BackendTypeFor t)) (index_decls type))
    (Some ((elem_decl type).1, elem_type)) (option_map (fun '(name, t) => (name, BackendTypeFor t)) (weight type)).

(** ** Values *)

(** Basic values are those of the forms; a map has the cells of its table. *)
Inductive Out : Type :=
| OBasic (v : Val)
| OArray (l : list Out)
| OTuple (slots : list Out)
| OMap (m : Map Out Out).

Fixpoint first_difference (cmp : Out -> Out -> res (option comparison)) (l1 l2 : list Out) : res (option comparison) :=
  match l1, l2 with
  | v1 :: l1, v2 :: l2 => d ← cmp v1 v2; match d with Some Eq => first_difference cmp l1 l2 | d => Ok d end
  | l1, l2 => Ok (Some (cmp_num (Z.of_nat (length l1)) (Z.of_nat (length l2))))
  end.

(** [None] is the NULL that the comparison of maps returns. *)
(* @src src/src/engine/form.cc 979-981 MapForm::Cmp *)
Fixpoint out_Cmp (v1 v2 : Out) : res (option comparison) :=
  match v1, v2 with
  | OBasic a, OBasic b => d ← val_Cmp a b; Ok (Some d)
  | OArray l1, OArray l2 => first_difference out_Cmp l1 l2
  | OTuple l1, OTuple l2 => first_difference out_Cmp l1 l2
  | OMap _, OMap _ => Ok None
  | _, _ => Fatal
  end.

(** A key and its index in the map. *)
Abbreviation indexed_key := (option Out * Z)%type.

(* @src src/src/engine/outputter.cc 57-67 MapKeySorter *)
Definition MapKeySorter (a b : indexed_key) : res bool :=
  match b.1, a.1 with
  | None, _ => Ok false
  | Some _, None => Ok true
  | Some kb, Some ka => d ← out_Cmp ka kb; match d with None => Fatal | Some d => Ok (match d with Lt => true | _ => false end) end
  end.

(** [std::sort]: the keys of a map differ, so that any way of sorting gives this. *)
Fixpoint insert_key (x : indexed_key) (l : list indexed_key) : res (list indexed_key) :=
  match l with
  | [] => Ok [x]
  | y :: l => before ← MapKeySorter x y; if before : bool then Ok (x :: y :: l) else l ← insert_key x l; Ok (y :: l)
  end.
Fixpoint sort_keys (l : list indexed_key) : res (list indexed_key) :=
  match l with [] => Ok [] | x :: l => l ← sort_keys l; insert_key x l end.

(** The keys of a map with their indices, sorted. *)
Definition sorted_keys (m : Map Out Out) : res (list indexed_key) :=
  sort_keys (zip (map key_ (base_ m)) (seqZ 0 (Z.of_nat (occupancy m)))).

(** A value that must be there. *)
Definition present_val (v : option Out) : res Out := match v with Some v => Ok v | None => Fatal end.

(** ** Putting values *)

Fixpoint fold_res {A S} (f : A -> S -> res S) (l : list A) (s : S) : res S :=
  match l with [] => Ok s | a :: l => s ← f a s; fold_res f l s end.

Section Put.
Context {E : Type} `{Emitter E}.

Definition put_basic (kind : BasicType.Kind) (v : Out) (em : E) : res E :=
  match kind, v with
  | BasicType.BOOL, OBasic (VBool b) => e_PutBool b em
  | BasicType.BYTES, OBasic (VBytes s) => e_PutBytes s em
  | BasicType.INT, OBasic (VInt i) => e_PutInt i em
  | BasicType.UINT, OBasic (VUInt u) => e_PutInt (s64 u) em
  | BasicType.FLOAT, OBasic (VFloat f) => e_PutFloat f em
  | BasicType.FINGERPRINT, OBasic (VFpr u) => e_PutFingerprint u em
  | BasicType.STRING, OBasic (VString s) => e_PutString s em
  | BasicType.TIME, OBasic (VTime t) => e_PutTime t em
  | _, _ => Fatal
  end.

(** Every number of parts is an [int]. *)
(* @src src/src/engine/outputter.cc 150-267 Outputter::PutValue *)
Fixpoint PutValue (type : Type_) (v : Out) (em : E) : res E :=
  match type, v with
  | TBasic kind, v => put_basic kind v em
  | TTuple fields, OTuple slots =>
      let n := Z.of_nat (length fields) in
      em ← e_Begin G_TUPLE n em;
      em ← fold_res (fun '(_, slot, t) em => v ← present_val (slots !! slot); PutValue t v em) fields em;
      e_End G_TUPLE n em
  | TArray _ elem_type, OArray l =>
      let n := Z.of_nat (length l) in
      em ← e_Begin G_ARRAY n em;
      em ← fold_res (PutValue elem_type) l em;
      e_End G_ARRAY n em
  | TMap _ index_type _ elem_type, OMap m =>
      keys ← sorted_keys m;
      let total_elements := s32 (Z.of_nat (occupancy m) * 2) in
      em ← e_Begin G_MAP total_elements em;
      em ← fold_res (fun '(_, map_index) em =>
             k ← GetKeyByIndex map_index m; k ← present_val k; em ← PutValue index_type k em;
             v ← GetValueByIndex map_index m; v ← present_val v; PutValue elem_type v em) keys em;
      e_End G_MAP total_elements em
  | _, _ => Fatal
  end.

(** ** Emit *)

(* @src src/src/engine/outputter.h 57-61 Outputter (data members) *)
Record Outputter : Type := MkOutputter { emitter_ : option E; emit_count_ : Z }.

Definition pop (sp : list Out) : res (Out * list Out) := match sp with v :: sp => Ok (v, sp) | [] => Fatal end.

(** [PutValue] of the value on top of the stack. *)
Definition put_top (type : Type_) (s : list Out * E) : res (list Out * E) :=
  let '(sp, em) := s in '(v, sp) ← pop sp; em ← PutValue type v em; Ok (sp, em).

(** The emits that one call does. *)
Definition short_emit (type : OutputType) (sp : list Out) (em : E) : option (res (list Out * E)) :=
  match elem_format_args type, weight type, index_decls type, (elem_decl type).2 with
  | false, None, [], TBasic BasicType.INT => Some ('(v, sp) ← pop sp; match v with OBasic (VInt i) => em ← e_EmitInt i em; Ok (sp, em) | _ => Fatal end)
  | false, None, [], TBasic BasicType.FLOAT => Some ('(v, sp) ← pop sp; match v with OBasic (VFloat f) => em ← e_EmitFloat f em; Ok (sp, em) | _ => Fatal end)
  | _, _, _, _ => None
  end.

Definition emit_index (type : OutputType) (s : list Out * E) : res (list Out * E) :=
  match index_decls type with
  | [] => Ok s
  | decls =>
      let n := Z.of_nat (length decls) in
      let '(sp, em) := s in
      em ← e_Begin G_INDEX n em;
      '(sp, em) ← fold_res (fun '(_, t) => put_top t) decls (sp, em);
      em ← e_End G_INDEX n em;
      Ok (sp, em)
  end.

Definition emit_element (type : OutputType) (s : list Out * E) : res (list Out * E) :=
  let '(sp, em) := s in
  em ← e_Begin G_ELEMENT 1 em;
  '(sp, em) ← (if elem_format_args type then '(v, sp) ← pop sp; match v with OBasic (VString s) => em ← e_PutString s em; Ok (sp, em) | _ => Fatal end
               else put_top (elem_decl type).2 (sp, em));
  em ← e_End G_ELEMENT 1 em;
  Ok (sp, em).

Definition emit_weight (type : OutputType) (s : list Out * E) : res (list Out * E) :=
  match weight type with
  | None => Ok s
  | Some (_, t) =>
      let '(sp, em) := s in
      em ← e_Begin G_WEIGHT 1 em;
      '(sp, em) ← put_top t (sp, em);
      em ← e_End G_WEIGHT 1 em;
      Ok (sp, em)
  end.

(** An emit into a table that is not a file, with the values on the stack. The
    message is for a table without an emitter. *)
(* @src src/src/engine/outputter.cc 270-393 Outputter::Emit *)
Definition Emit (type : OutputType) (sp : list Out) (o : Outputter) : res (option string * list Out * Outputter) :=
  let count := emit_count_ o + 1 in
  match emitter_ o with
  | None => Ok (Some "no emitter installed for table"%string, sp, MkOutputter None count)
  | Some em =>
      '(sp, em) ←
        match short_emit type sp em with
        | Some r => r
        | None =>
            em ← e_Begin G_EMIT 1 em;
            s ← emit_index type (sp, em);
            s ← emit_element type s;
            '(sp, em) ← emit_weight type s;
            em ← e_End G_EMIT 1 em;
            Ok (sp, em)
        end;
      Ok (None, sp, MkOutputter (Some em) count)
  end.
End Put.
Arguments Outputter : clear implicits.

(** ** What is put: values of the backend *)

Definition is_tuple (t : Type_) : bool := match t with TTuple _ => true | _ => false end.

(** The operations object of a type, and the cells that a value of the type takes
    in a tuple. *)
Definition comp_cell (t : Type_) (o : SzlOps) : Kind * option SzlOps :=
  match t with TBasic k => (BackendKindFor k, None) | _ => (ops_kind o, Some o) end.
Definition tuple_cells (t : Type_) (o : SzlOps) : list (Kind * option SzlOps) :=
  if is_tuple t then cells_ o else [comp_cell t o].

Fixpoint ops_of (t : Type_) : SzlOps :=
  MkOps (BackendTypeFor t)
    match t with
    | TBasic k => [(BackendKindFor k, None)]
    | TTuple fields => concat (map (fun '(_, _, t) => tuple_cells t (ops_of t)) fields)
    | TArray _ t => [comp_cell t (ops_of t)]
    | TMap _ it _ et => [comp_cell it (ops_of it); comp_cell et (ops_of et)]
    end.

Abbreviation cell_of t := (comp_cell t (ops_of t)).
Abbreviation flat_cells t := (tuple_cells t (ops_of t)).

Section Backend.
Context (Properties : string -> option TableProperties) (IsValid : SzlType -> option string).
Abbreviation ops_new := (ops_new Properties IsValid).
Abbreviation BaseType := (SzlType.BaseType Properties IsValid).

Lemma BaseType_for t : BaseType (BackendTypeFor t) = match t with TBasic _ => true | _ => false end.
Proof. unfold SzlType.BaseType. destruct t as [k|fields|n t|n k m e]; [by destruct k|by destruct (Valid _ _ _)..]. Qed.

(** Szl builds the operations object of every type from its backend type. *)
Lemma ops_new_for t : ops_new (BackendTypeFor t) = Ok (ops_of t).
Proof.
  assert (forall t, ops_new (BackendTypeFor t) = Ok (ops_of t) -> component_cell Properties IsValid (BackendTypeFor t) (ops_new (BackendTypeFor t)) = Ok (cell_of t)) as Hcomp.
  { clear t. intros t Ht. unfold component_cell. rewrite BaseType_for, Ht. by destruct t as [[]|fields|n t|n k m e]. }
  induction t as [k|fields IH|n t IH|n k m e IHk IHe] using Type_nested_ind.
  - by destruct k.
  - cbn [BackendTypeFor SzlValue.ops_new]. match goal with |- context [flat_res ?f ?l] => assert (flat_res f l = Ok (concat (map (fun '(_, _, t) => flat_cells t) fields))) as -> end; [|done].
    induction IH as [|[[name slot] t] fields Ht IH IHf]; [done|]. cbn [map flat_res]. cbn in Ht. rewrite IHf.
    unfold SzlFlattenKinds. rewrite BaseType_for, Ht. by destruct t as [[]|fs|n t|n k m e].
  - cbn [BackendTypeFor SzlValue.ops_new]. by rewrite (Hcomp t IH).
  - cbn [BackendTypeFor SzlValue.ops_new]. by rewrite (Hcomp k IHk), (Hcomp e IHe).
Qed.
End Backend.

(** A basic value of the backend: [PutInt] takes the unsigned integers too. *)
Definition flat_basic (kind : BasicType.Kind) (v : Out) : res SzlValue :=
  match kind, v with
  | BasicType.BOOL, OBasic (VBool b) => Ok (SzlValue.VInt (Z.b2z b))
  | BasicType.BYTES, OBasic (VBytes s) => Ok (VStr s)
  | BasicType.INT, OBasic (VInt i) => Ok (SzlValue.VInt i)
  | BasicType.UINT, OBasic (VUInt u) => Ok (SzlValue.VInt (s64 u))
  | BasicType.FLOAT, OBasic (VFloat f) => Ok (SzlValue.VFloat f)
  | BasicType.FINGERPRINT, OBasic (VFpr u) => if bool_decide (is_u64 u) then Ok (SzlValue.VInt (s64 u)) else Fatal
  | BasicType.STRING, OBasic (VString s) => Ok (VStr match s with [] => [] | _ => s ++ [0] end)
  | BasicType.TIME, OBasic (VTime t) => if bool_decide (is_u64 t) then Ok (SzlValue.VInt (s64 t)) else Fatal
  | _, _ => Fatal
  end.

(** The value at one cell. *)
Definition one_value (t : Type_) (r : res (list SzlValue)) : res SzlValue :=
  vals ← r; if is_tuple t then Ok (VVals vals) else match vals with [x] => Ok x | _ => Fatal end.

(** The values that a value of a type has at its flattened cells; [Ok] is that it
    is one: a map can be sorted, and the number of its values is an [int]. *)
Fixpoint flat_value (type : Type_) (v : Out) : res (list SzlValue) :=
  match type, v with
  | TBasic kind, v => x ← flat_basic kind v; Ok [x]
  | TTuple fields, OTuple slots => flat_res (fun '(_, slot, t) => v ← present_val (slots !! slot); flat_value t v) fields
  | TArray _ t, OArray l => vals ← flat_res (fun v => x ← one_value t (flat_value t v); Ok [x]) l; Ok [VVals vals]
  | TMap _ it _ et, OMap m =>
      keys ← sorted_keys m;
      _ ← check (Z.of_nat (occupancy m) * 2 <? 2 ^ 31);
      vals ← flat_res (fun '(_, map_index) =>
               k ← GetKeyByIndex map_index m; k ← present_val k; x ← one_value it (flat_value it k);
               v ← GetValueByIndex map_index m; v ← present_val v; y ← one_value et (flat_value et v); Ok [x; y]) keys;
      Ok [VVals vals]
  | _, _ => Fatal
  end.

Definition szl_value (t : Type_) (v : Out) : res SzlValue := one_value t (flat_value t v).

(** The encoding of an emitted value. *)
Definition encoded (t : Type_) (v : Out) : res bytes := x ← szl_value t v; enc ← Encode (ops_of t) x enc_new; Ok (data_ enc).

(** ** Putting into an encoder is encoding *)

Fixpoint put_cells (cells : list (Kind * option SzlOps)) (vals : list SzlValue) (enc : SzlEncoder) : res SzlEncoder :=
  match cells, vals with c :: cells, v :: vals => enc ← enc_cell c v enc; put_cells cells vals enc | _, _ => Ok enc end.

(** A tuple within an array or a map has brackets. *)
Definition put_type (t : Type_) (vals : list SzlValue) (arr : bool) (enc : SzlEncoder) : res SzlEncoder :=
  if is_tuple t && arr then enc ← Start enc TUPLE; enc ← put_cells (flat_cells t) vals enc; End_ enc TUPLE else put_cells (flat_cells t) vals enc.

Lemma res_bind_assoc {A B C} (r : res A) (f : A -> res B) (g : B -> res C) : (b ← (a ← r; f a); g b) = (a ← r; b ← f a; g b).
Proof. by destruct r. Qed.
Lemma res_bind_ret {A} (r : res A) : (a ← r; Ok a) = r.
Proof. by destruct r. Qed.

Lemma put_cells_app c1 c2 v1 v2 enc : length c1 = length v1 -> put_cells (c1 ++ c2) (v1 ++ v2) enc = (enc ← put_cells c1 v1 enc; put_cells c2 v2 enc).
Proof.
  revert v1 enc. induction c1 as [|c c1 IH]; intros [|v v1] enc Hl; try discriminate Hl; [done|]. cbn [app put_cells]. rewrite res_bind_assoc.
  destruct (enc_cell c v enc) as [e| |]; [|done..]. cbn [mbind res_bind]. apply IH. by injection Hl.
Qed.

Lemma flat_res_Ok {A B} (f : A -> res (list B)) a l vals : flat_res f (a :: l) = Ok vals -> exists v1 v2, f a = Ok v1 /\ flat_res f l = Ok v2 /\ vals = v1 ++ v2.
Proof.
  cbn [flat_res]. destruct (f a) as [v1| |]; try discriminate. cbn [mbind res_bind]. destruct (flat_res f l) as [v2| |]; try discriminate. cbn [mbind res_bind]. intros [= <-]. by exists v1, v2.
Qed.

Lemma one_value_Ok t r x : one_value t r = Ok x -> exists vals, r = Ok vals /\ (if is_tuple t then x = VVals vals else vals = [x]).
Proof. unfold one_value. destruct r as [vals| |]; try discriminate. cbn [mbind res_bind]. destruct (is_tuple t); intros H; exists vals; (split; [done|]); [by injection H|]. destruct vals as [|y [|? ?]]; try discriminate H. by injection H as ->. Qed.

Lemma bind_Ok {A B} (r : res A) (f : A -> res B) b : (a ← r; f a) = Ok b -> exists a, r = Ok a /\ f a = Ok b.
Proof. destruct r as [a| |]; try discriminate. by exists a. Qed.

Lemma flat_length t v vals : flat_value t v = Ok vals -> length vals = length (flat_cells t).
Proof.
  revert v vals. induction t as [k|fields IH|n t IH|n k m e IHk IHe] using Type_nested_ind; intros v vals H; cbn [flat_value] in H.
  - apply bind_Ok in H as (x & _ & H). by injection H as <-.
  - destruct v as [|?|slots|?]; try discriminate H. cbn [tuple_cells is_tuple ops_of cells_]. revert vals H. induction IH as [|[[name slot] t] fields Ht IH IHf]; intros vals H.
    + by injection H as <-.
    + apply flat_res_Ok in H as (v1 & v2 & H1 & H2 & ->). apply bind_Ok in H1 as (v & _ & H1). cbn [map concat]. rewrite !length_app, (Ht _ _ H1), (IHf _ H2). done.
  - destruct v as [|l|?|?]; try discriminate H. apply bind_Ok in H as (x & _ & H). by injection H as <-.
  - destruct v as [|?|?|mm]; try discriminate H. apply bind_Ok in H as (x & _ & H). apply bind_Ok in H as (? & _ & H). apply bind_Ok in H as (? & _ & H). by injection H as <-.
Qed.

Lemma loop_fold_cells cells cur vals enc : length cur = length vals -> loop_fold (map enc_cell cells) (map enc_cell cur) vals enc = put_cells cur vals enc.
Proof.
  revert vals enc. induction cur as [|c cur IH]; intros [|v vals] enc Hl; try discriminate Hl; [done|]. cbn [map loop_fold next_cell put_cells].
  destruct (enc_cell c v enc) as [e| |]; [|done..]. cbn [mbind res_bind]. apply IH. by injection Hl.
Qed.

Lemma EncodeInternal_cells o v enc top : EncodeInternal o v enc top =
  match ops_kind o with
  | TUPLE => enc ← (if top then Ok enc else Start enc TUPLE); enc ← match vvals v with [] => EncodeDefault o enc | vals => loop_fold (map enc_cell (cells_ o)) (map enc_cell (cells_ o)) vals enc end; if top then Ok enc else End_ enc TUPLE
  | MAP => enc ← Start enc MAP; enc ← loop_fold (map enc_cell (cells_ o)) (map enc_cell (cells_ o)) (vvals v) (PutInt enc (Z.of_nat (length (vvals v)))); End_ enc MAP
  | ARRAY => enc ← Start enc ARRAY; enc ← loop_fold (map enc_cell (cells_ o)) (map enc_cell (cells_ o)) (vvals v) enc; End_ enc ARRAY
  | k => SzlOpsDoEncode k v enc
  end.
Proof. by destruct o as [[[] ? ? ? ? ? ?] cells]. Qed.

(** The flattened values of a tuple, encoded. *)
Lemma tuple_fold t vals enc : is_tuple t = true -> length vals = length (flat_cells t) ->
  match vals with [] => EncodeDefault (ops_of t) enc | _ => loop_fold (map enc_cell (cells_ (ops_of t))) (map enc_cell (cells_ (ops_of t))) vals enc end = put_cells (flat_cells t) vals enc.
Proof.
  intros Ht Hl. unfold tuple_cells in *. rewrite Ht in *. destruct vals as [|v vals]; [|by apply loop_fold_cells].
  destruct t as [|fields| |]; try discriminate Ht. cbn [ops_of cells_ EncodeDefault BackendTypeFor kind_] in *. by destruct (concat _).
Qed.

(** The value at one cell, encoded there. *)
Lemma enc_one t v x enc : szl_value t v = Ok x -> exists vals, flat_value t v = Ok vals /\ enc_cell (cell_of t) x enc = put_type t vals true enc.
Proof.
  intros H. apply one_value_Ok in H as (vals & Hv & Hx). exists vals. split; [done|]. pose proof (flat_length _ _ _ Hv) as Hl. unfold put_type. destruct t as [k|fields|n t|n k m e]; cbn [is_tuple andb] in *; subst.
  - cbn. by rewrite res_bind_ret.
  - cbn [Start mbind res_bind]. rewrite <- tuple_fold by done. cbn [comp_cell enc_cell]. rewrite EncodeInternal_cells. by destruct vals.
  - cbn [tuple_cells is_tuple put_cells]. by rewrite res_bind_ret.
  - cbn [tuple_cells is_tuple put_cells]. by rewrite res_bind_ret.
Qed.

(** At the top, without brackets. *)
Lemma Encode_top t v x vals enc : szl_value t v = Ok x -> flat_value t v = Ok vals -> Encode (ops_of t) x enc = put_type t vals false enc.
Proof.
  intros H Hv. apply one_value_Ok in H as (vals' & Hv' & Hx). rewrite Hv in Hv'. injection Hv' as <-. pose proof (flat_length _ _ _ Hv) as Hl. unfold put_type, Encode. rewrite EncodeInternal_cells. destruct t as [k|fields|n t|n k m e]; cbn [is_tuple andb] in *; subst.
  - cbn. rewrite res_bind_ret. by destruct k.
  - rewrite <- tuple_fold by done. cbn [ops_of ops_kind type_ BackendTypeFor kind_ vvals mbind res_bind]. rewrite res_bind_ret. by destruct vals.
  - cbn [tuple_cells is_tuple put_cells comp_cell enc_cell]. rewrite res_bind_ret, EncodeInternal_cells. done.
  - cbn [tuple_cells is_tuple put_cells comp_cell enc_cell]. rewrite res_bind_ret, EncodeInternal_cells. done.
Qed.

(** ** The emitter of the tables *)

Section Encoding.
Context {E : Type} `{SzlTabEntry E} (writer : SzlTabWriter E).
Abbreviation Em := (SzlEmitter E).
#[local] Instance the_emitter : Emitter Em := szl_emitter writer.

(** The emitter [em] in the middle of an index or an element. *)
Definition at_ (enc : SzlEncoder) (depth : Z) (arrays : list Z) (em : Em) : Em := with_group (em_encoder em) depth (em_in_weight em) arrays (set_current enc em).

Definition encodes (em : Em) : Prop := em_in_weight em = false /\ exists b, em_encoder em = Some b.

Definition within (arrays : list Z) (depth : Z) : bool := match arrays with a :: _ => a =? depth - 1 | [] => false end.

Lemma at_encode f enc d a em : encodes em -> encode f (at_ enc d a em) = (enc ← f enc; Ok (at_ enc d a em)).
Proof. intros (_ & [] & Hb); destruct em; cbn in *; subst; unfold encode, current, at_, set_current; cbn; by destruct (f enc). Qed.

Lemma at_put tw te enc d a em : encodes em -> put writer tw te (at_ enc d a em) = (enc ← te enc; Ok (at_ enc d a em)).
Proof. intros He. rewrite <- at_encode by done. unfold put. destruct He as (Hw & [] & Hb); destruct em; cbn in *; by subst. Qed.

Lemma at_group enc d a em d' a' : encodes em -> with_group (em_encoder (at_ enc d a em)) d' (em_in_weight (at_ enc d a em)) a' (at_ enc d a em) = at_ enc d' a' em.
Proof. intros (_ & [] & Hb); destruct em; cbn in *; by subst. Qed.

Lemma at_fields enc d a em : encodes em -> is_null (em_encoder (at_ enc d a em)) = false /\ em_in_weight (at_ enc d a em) = false /\ em_depth (at_ enc d a em) = d /\ em_arrays (at_ enc d a em) = a /\ in_array (at_ enc d a em) = within a d.
Proof. intros (Hw & [] & Hb); destruct em; cbn in *; by subst. Qed.

Lemma begin_tuple n enc d a em : encodes em -> e_Begin G_TUPLE n (at_ enc d a em) = (enc ← (if within a d then Start enc TUPLE else Ok enc); Ok (at_ enc (d + 1) a em)).
Proof.
  intros He. destruct (at_fields enc d a em He) as (H1 & H2 & H3 & H4 & H5). cbn [e_Begin the_emitter szl_emitter em_Begin]. rewrite H1, H5. cbn [negb orb check mbind res_bind].
  destruct (within a d).
  - rewrite at_encode by done. destruct (Start enc TUPLE) as [e| |]; [|done..]. cbn [mbind res_bind]. destruct (at_fields e d a em He) as (_ & _ & -> & -> & _). by rewrite at_group.
  - cbn [mbind res_bind]. rewrite H3, H4. by rewrite at_group.
Qed.

Lemma end_tuple n enc d a em : encodes em -> 0 < d -> e_End G_TUPLE n (at_ enc (d + 1) a em) = (enc ← (if within a d then End_ enc TUPLE else Ok enc); Ok (at_ enc d a em)).
Proof.
  intros He Hd. destruct (at_fields enc (d + 1) a em He) as (H1 & H2 & H3 & H4 & _). cbn [e_End the_emitter szl_emitter em_End]. rewrite H1, H2, H3, H4. rewrite (proj2 (Z.ltb_lt 0 (d + 1))) by lia. cbn [negb orb andb check mbind res_bind].
  rewrite Z.add_simpl_r. replace false with (em_in_weight (at_ enc (d + 1) a em)) by done. rewrite at_group by done. destruct (at_fields enc d a em He) as (_ & _ & _ & _ & ->).
  destruct (within a d).
  - rewrite at_encode by done. destruct (End_ enc TUPLE) as [e| |]; [|done..]. cbn [mbind res_bind]. destruct (at_fields e d a em He) as (_ & _ & -> & _). by rewrite (proj2 (Z.eqb_neq d 0)) by lia.
  - cbn [mbind res_bind]. destruct (at_fields enc d a em He) as (_ & _ & -> & _). by rewrite (proj2 (Z.eqb_neq d 0)) by lia.
Qed.

Lemma begin_array n enc d a em : encodes em -> e_Begin G_ARRAY n (at_ enc d a em) = (enc ← Start enc ARRAY; Ok (at_ enc (d + 1) (d :: a) em)).
Proof.
  intros He. destruct (at_fields enc d a em He) as (H1 & _). cbn [e_Begin the_emitter szl_emitter em_Begin]. rewrite H1. cbn [negb check mbind res_bind]. rewrite at_encode by done.
  destruct (Start enc ARRAY) as [e| |]; [|done..]. cbn [mbind res_bind]. destruct (at_fields e d a em He) as (_ & _ & -> & -> & _). by rewrite at_group.
Qed.

Lemma begin_map n enc d a em : encodes em -> e_Begin G_MAP n (at_ enc d a em) = (enc ← Start enc MAP; Ok (at_ (PutInt enc n) (d + 1) (d :: a) em)).
Proof.
  intros He. destruct (at_fields enc d a em He) as (H1 & _). cbn [e_Begin the_emitter szl_emitter em_Begin]. rewrite H1. cbn [negb check mbind res_bind]. rewrite at_encode by done.
  destruct (Start enc MAP) as [e| |]; [|done..]. cbn [mbind res_bind]. destruct (at_fields (PutInt e n) d a em He) as (_ & _ & -> & -> & _). by rewrite at_group.
Qed.

Lemma end_container g n enc d a em : g = G_ARRAY \/ g = G_MAP -> encodes em -> 0 < d ->
  e_End g n (at_ enc (d + 1) (d :: a) em) = (enc ← End_ enc (match g with G_ARRAY => ARRAY | _ => MAP end); Ok (at_ enc d a em)).
Proof.
  intros Hg He Hd. destruct (at_fields enc (d + 1) (d :: a) em He) as (H1 & H2 & H3 & H4 & _).
  cbn [e_End the_emitter szl_emitter]. destruct Hg as [->| ->]; cbn [em_End]; rewrite H1, H2, H3, H4, (proj2 (Z.ltb_lt 0 (d + 1))) by lia; cbn [negb orb andb check mbind res_bind]; rewrite Z.add_simpl_r;
    replace false with (em_in_weight (at_ enc (d + 1) (d :: a) em)) by done; rewrite at_group, at_encode by done;
    match goal with |- context [End_ enc ?k] => destruct (End_ enc k) as [e| |]; [|done..] end; cbn [mbind res_bind];
    destruct (at_fields e d (d :: a) em He) as (_ & _ & -> & -> & _); rewrite Z.eqb_refl; cbn [check mbind res_bind]; rewrite at_group by done;
    destruct (at_fields e d a em He) as (_ & _ & -> & _); by rewrite (proj2 (Z.eqb_neq d 0)) by lia.
Qed.

Lemma put_basic_encodes k v x enc d a em : encodes em -> flat_basic k v = Ok x -> put_basic k v (at_ enc d a em) = (enc ← SzlOpsDoEncode (BackendKindFor k) x enc; Ok (at_ enc d a em)).
Proof.
  intros He Hx. destruct k, v as [[]|?|?|?]; try discriminate Hx; cbn [flat_basic] in Hx;
    try (match type of Hx with context [bool_decide ?P] => destruct (bool_decide_reflect P) as [Hu|]; [|discriminate Hx] end); injection Hx as <-;
    cbn [put_basic e_PutBool e_PutBytes e_PutInt e_PutFloat e_PutFingerprint e_PutString e_PutTime the_emitter szl_emitter em_PutBool em_PutBytes em_PutInt em_PutFloat em_PutFingerprint em_PutString em_PutTime BackendKindFor SzlOpsDoEncode vi vf vbuf];
    unfold em_PutBool, em_PutBytes, em_PutInt, em_PutFloat, em_PutFingerprint, em_PutString, em_PutTime; rewrite at_put by done; try reflexivity.
  - by destruct b.
  - by rewrite u64_s64, u64_id.
  - destruct s as [|c s]; [done|]. rewrite length_app, Nat.add_sub. by rewrite take_app_length.
  - by rewrite u64_s64, u64_id.
Qed.

Lemma loop_fold_one {A S} (f : A -> S -> res S) cur vals s : cur = [f] \/ cur = [] -> loop_fold [f] cur vals s = fold_res f vals s.
Proof.
  intros Hc. revert cur s Hc. induction vals as [|v vals IH]; intros cur s Hc; [done|]. cbn [loop_fold fold_res]. replace (next_cell [f] cur) with (Some (f, @nil (A -> S -> res S))) by (by destruct Hc as [->| ->]).
  destruct (f v s); [|done..]. cbn [mbind res_bind]. apply IH. by right.
Qed.

Lemma loop_fold_two {A S} (f g : A -> S -> res S) cur x y vals s : cur = [f; g] \/ cur = [] ->
  loop_fold [f; g] cur (x :: y :: vals) s = (s ← f x s; s ← g y s; loop_fold [f; g] [] vals s).
Proof. intros [->| ->]; cbn; destruct (f x s); cbn; try done; by destruct (g y a). Qed.

(** [PutValue] puts what the flattened values encode to. *)
Definition puts (t : Type_) : Prop := forall v vals enc d a em,
  encodes em -> flat_value t v = Ok vals -> 0 < d -> match a with x :: _ => x < d | [] => True end ->
  PutValue t v (at_ enc d a em) = (enc ← put_type t vals (within a d) enc; Ok (at_ enc d a em)).

(** A part of an array or a map. *)
Lemma puts_one t v x enc d a em : puts t -> encodes em -> szl_value t v = Ok x -> 0 < d ->
  PutValue t v (at_ enc (d + 1) (d :: a) em) = (enc ← enc_cell (cell_of t) x enc; Ok (at_ enc (d + 1) (d :: a) em)).
Proof.
  intros Ht He Hx Hd. destruct (enc_one t v x enc Hx) as (vals & Hv & ->). rewrite (Ht v vals) by (done || lia). cbn [within]. by rewrite Z.add_simpl_r, Z.eqb_refl.
Qed.

Lemma puts_fields (fields : list (string * nat * Type_)) enc d a em (slots : list Out) vals : Forall (fun f => puts f.2) fields -> encodes em -> 0 < d -> match a with x :: _ => x < d | [] => True end ->
  flat_res (fun '(_, slot, t) => v ← present_val (slots !! slot); flat_value t v) fields = Ok vals ->
  fold_res (fun '(_, slot, t) em => v ← present_val (slots !! slot); PutValue t v em) fields (at_ enc (d + 1) a em)
  = (enc ← put_cells (concat (map (fun '(_, _, t) => flat_cells t) fields)) vals enc; Ok (at_ enc (d + 1) a em)).
Proof.
  intros Hf He Hd Ha. revert vals enc. induction Hf as [|[[name slot] t] fields Ht Hf IH]; intros vals enc H1; [by injection H1 as <-|]. apply flat_res_Ok in H1 as (v1 & v2 & H1 & H2 & ->). apply bind_Ok in H1 as (v & Hs & H1). cbn [map concat fold_res].
  rewrite put_cells_app by (symmetry; by apply (flat_length t v)). rewrite Hs. cbn [mbind res_bind]. cbn in Ht. rewrite (Ht v v1) by (done || lia || by destruct a; lia).
  assert (within a (d + 1) = false) as -> by (destruct a as [|y a]; [done|]; apply Z.eqb_neq; lia). unfold put_type. rewrite andb_false_r.
  destruct (put_cells (flat_cells t) v1 enc) as [e| |]; [|done..]. cbn [mbind res_bind]. by apply IH.
Qed.

Lemma puts_tuple fields : Forall (fun f => puts f.2) fields -> puts (TTuple fields).
Proof.
  intros Hf v vals enc d a em He Hv Hd Ha. cbn [flat_value] in Hv. destruct v as [|?|slots|?]; try discriminate Hv. cbn [PutValue]. rewrite begin_tuple by done. unfold put_type. cbn [is_tuple andb tuple_cells ops_of cells_].
  assert (forall e, (em ← fold_res (fun '(_, slot, t) em => v ← present_val (slots !! slot); PutValue t v em) fields (at_ e (d + 1) a em); e_End G_TUPLE (Z.of_nat (length fields)) em)
    = (e ← put_cells (concat (map (fun '(_, _, t) => flat_cells t) fields)) vals e; e ← (if within a d then End_ e TUPLE else Ok e); Ok (at_ e d a em))) as Hgo.
  { intros e. rewrite (puts_fields fields e d a em slots vals) by done. destruct (put_cells _ vals e) as [e1| |]; [|done..]. cbn [mbind res_bind]. by apply end_tuple. }
  destruct (within a d).
  - cbn [Start mbind res_bind]. rewrite Hgo. cbn [mbind res_bind]. destruct (put_cells _ vals _) as [e| |]; [|done..]. done.
  - cbn [mbind res_bind]. rewrite Hgo. destruct (put_cells _ vals _) as [e| |]; done.
Qed.

Lemma puts_array n t : puts t -> puts (TArray n t).
Proof.
  intros Ht v vals enc d a em He Hv Hd Ha. cbn [flat_value] in Hv. destruct v as [|l|?|?]; try discriminate Hv. apply bind_Ok in Hv as (vs & Hvs & Hv). injection Hv as <-. cbn [PutValue]. rewrite begin_array by done.
  unfold put_type. cbn [is_tuple andb tuple_cells put_cells comp_cell]. cbn [enc_cell]. rewrite EncodeInternal_cells. cbn [ops_of ops_kind type_ BackendTypeFor kind_ vvals cells_ map Start mbind res_bind].
  rewrite loop_fold_one by (by left). set (e0 := push_back enc Tag.ARRAY_START). clearbody e0. rewrite res_bind_ret.
  assert (fold_res (PutValue t) l (at_ e0 (d + 1) (d :: a) em) = (e ← fold_res (enc_cell (cell_of t)) vs e0; Ok (at_ e (d + 1) (d :: a) em))) as ->.
  { revert vs e0 Hvs. induction l as [|v l IH]; intros vs e0 Hvs; [by injection Hvs as <-|]. apply flat_res_Ok in Hvs as (v1 & v2 & H1 & H2 & ->). apply bind_Ok in H1 as (x & Hx & H1). injection H1 as <-. cbn [fold_res app].
    rewrite (puts_one t v x) by done. destruct (enc_cell (cell_of t) x e0) as [e| |]; [|done..]. cbn [mbind res_bind]. by apply IH. }
  destruct (fold_res (enc_cell (cell_of t)) vs e0) as [e| |]; [|done..]. cbn [mbind res_bind]. rewrite end_container by (done || by left). by destruct (End_ e ARRAY).
Qed.

Lemma flat_pairs_length {B} (f : indexed_key -> res (list B)) keys vals :
  (forall k v, f k = Ok v -> length v = 2%nat) -> flat_res f keys = Ok vals -> length vals = (length keys * 2)%nat.
Proof.
  intros Hf. revert vals. induction keys as [|k keys IH]; intros vals H1; [by injection H1 as <-|]. apply flat_res_Ok in H1 as (v1 & v2 & H1 & H2 & ->). rewrite length_app, (Hf _ _ H1), (IH _ H2). done.
Qed.

Lemma insert_key_length x l l' : insert_key x l = Ok l' -> length l' = S (length l).
Proof.
  revert l'. induction l as [|y l IH]; intros l' H1; cbn [insert_key] in H1; [by injection H1 as <-|]. apply bind_Ok in H1 as (b & _ & H1). destruct b; [by injection H1 as <-|]. apply bind_Ok in H1 as (l1 & H2 & H1). injection H1 as <-. cbn. by rewrite (IH _ H2).
Qed.

Lemma sort_keys_length l l' : sort_keys l = Ok l' -> length l' = length l.
Proof. revert l'. induction l as [|x l IH]; intros l' H1; cbn [sort_keys] in H1; [by injection H1 as <-|]. apply bind_Ok in H1 as (l1 & H2 & H1). rewrite (insert_key_length _ _ _ H1), (IH _ H2). done. Qed.

Lemma sorted_keys_length m l : sorted_keys m = Ok l -> length l = occupancy m.
Proof. intros H1. unfold sorted_keys in H1. rewrite (sort_keys_length _ _ H1), length_zip, length_map, length_seqZ. unfold occupancy. lia. Qed.

Lemma puts_map kn k en e : puts k -> puts e -> puts (TMap kn k en e).
Proof.
  intros Hk Hel v vals enc d a em He Hv Hd Ha. cbn [flat_value] in Hv. destruct v as [|?|?|m]; try discriminate Hv. apply bind_Ok in Hv as (keys & Hkeys & Hv). apply bind_Ok in Hv as ([] & Hn & Hv). apply bind_Ok in Hv as (vs & Hvs & Hv). injection Hv as <-.
  cbn [PutValue]. rewrite Hkeys. cbn [mbind res_bind]. rewrite begin_map by done. unfold put_type. cbn [is_tuple andb tuple_cells put_cells comp_cell]. cbn [enc_cell]. rewrite EncodeInternal_cells. cbn [ops_of ops_kind type_ BackendTypeFor kind_ vvals cells_ map Start mbind res_bind].
  assert (Z.of_nat (length vs) = s32 (Z.of_nat (occupancy m) * 2)) as ->.
  { unfold check in Hn. destruct (Z.ltb_spec (Z.of_nat (occupancy m) * 2) (2 ^ 31)) as [Hb|]; [|done]. rewrite <- (sorted_keys_length _ _ Hkeys) in *.
    pose proof (fun Hf => flat_pairs_length _ keys vs Hf Hvs) as Hlen. rewrite Hlen by (intros [? ?] w Hw; do 6 (apply bind_Ok in Hw as (? & _ & Hw)); by injection Hw as <-). unfold s32. rewrite Z.mod_small; lia. }
  set (e0 := PutInt (push_back enc Tag.MAP_START) (s32 (Z.of_nat (occupancy m) * 2))). clearbody e0. rewrite res_bind_ret.
  set (total := s32 (Z.of_nat (occupancy m) * 2)).
  match goal with |- context [fold_res ?f keys _] => assert (forall cur, cur = [enc_cell (cell_of k); enc_cell (cell_of e)] \/ cur = [] ->
    fold_res f keys (at_ e0 (d + 1) (d :: a) em) = (e0 ← loop_fold [enc_cell (cell_of k); enc_cell (cell_of e)] cur vs e0; Ok (at_ e0 (d + 1) (d :: a) em))) as Hfold end.
  { clear Hkeys Hn. revert vs e0 Hvs. induction keys as [|[ko i] keys IH]; intros vs e0 Hvs cur Hcur; [by injection Hvs as <-|]. apply flat_res_Ok in Hvs as (v1 & v2 & H1 & H2 & ->).
    apply bind_Ok in H1 as (o1 & Ho1 & H1). apply bind_Ok in H1 as (kv & Hkv & H1). apply bind_Ok in H1 as (x & Hx & H1). apply bind_Ok in H1 as (o2 & Ho2 & H1). apply bind_Ok in H1 as (ev & Hev & H1). apply bind_Ok in H1 as (y & Hy & H1). injection H1 as <-.
    cbn [fold_res app]. rewrite loop_fold_two by done. rewrite Ho1. cbn [mbind res_bind]. rewrite Hkv. cbn [mbind res_bind]. rewrite (puts_one k kv x) by done.
    destruct (enc_cell (cell_of k) x e0) as [e1| |]; [|done..]. cbn [mbind res_bind]. rewrite Ho2. cbn [mbind res_bind]. rewrite Hev. cbn [mbind res_bind]. rewrite (puts_one e ev y) by done.
    destruct (enc_cell (cell_of e) y e1) as [e2| |]; [|done..]. cbn [mbind res_bind]. apply IH; [done|by right]. }
  rewrite (Hfold _ (or_introl eq_refl)). destruct (loop_fold _ _ vs e0) as [e1| |]; [|done..]. cbn [mbind res_bind]. rewrite end_container by (done || by right). by destruct (End_ e1 MAP).
Qed.

Lemma PutValue_puts t : puts t.
Proof.
  induction t as [k|fields IH|n t IH|n k m e IHk IHe] using Type_nested_ind.
  - intros v vals enc d a em He Hv Hd Ha. cbn [flat_value] in Hv. apply bind_Ok in Hv as (x & Hx & Hv). injection Hv as <-. cbn [PutValue]. rewrite (put_basic_encodes k v x) by done. unfold put_type. cbn. by rewrite res_bind_ret.
  - by apply puts_tuple.
  - by apply puts_array.
  - by apply puts_map.
Qed.

(** *** Weights *)

(** The emitter [em] in the middle of a weight. *)
Definition weighing (w : SzlValue) (pos : nat) (depth : Z) (em : Em) : Em := with_weight w (Z.of_nat pos) (with_group None depth true [] em).

Lemma weight_put k x v w pos d em o : weight_ops writer = o -> flats_ o !! pos = Some (BackendKindFor k) -> flat_basic k v = Ok x ->
  put_basic k v (weighing w pos d em) = Ok (weighing (if bool_decide (ops_kind o = TUPLE) then VVals (<[pos := x]> (alloc (nflats_ o) (vvals w))) else x) (S pos) d em).
Proof.
  intros Ho Hk Hx.
  assert (forall tw te w', tw o pos w = Ok w' -> put writer tw te (weighing w pos d em) = Ok (weighing w' (S pos) d em)) as Hput.
  { intros tw te w' Hw. unfold put. destruct em. cbn. rewrite (proj2 (Z.leb_le 0 _)), Nat2Z.id, Ho by lia. cbn [check mbind res_bind]. rewrite Hw. cbn [mbind res_bind]. unfold weighing. by replace (Z.of_nat (S pos)) with (Z.of_nat pos + 1) by lia. }
  assert (forall kind put_, flats_ o !! pos = Some kind -> SzlFlatValueAt o pos w kind put_ = Ok (if bool_decide (ops_kind o = TUPLE) then VVals (<[pos := put_]> (alloc (nflats_ o) (vvals w))) else put_)) as Hat.
  { intros kind put_ Hkind. unfold SzlFlatValueAt. rewrite bool_decide_true by done. cbn [negb]. by destruct (bool_decide _). }
  destruct k, v as [[]|?|?|?]; try discriminate Hx; cbn [flat_basic] in Hx;
    try (match type of Hx with context [bool_decide ?P] => destruct (bool_decide P); [|discriminate Hx] end); injection Hx as <-;
    cbn [put_basic e_PutBool e_PutBytes e_PutInt e_PutFloat e_PutFingerprint e_PutString e_PutTime the_emitter szl_emitter];
    apply Hput; unfold ops_PutBool, ops_PutBytes, ops_PutInt, ops_PutFloat, ops_PutFingerprint, ops_PutString, ops_PutTime; by rewrite Hat.
Qed.

Definition all_basic (cells : list (Kind * option SzlOps)) : Prop := Forall (fun c => c.2 = None) cells.

(** The values at a range of the flattened positions. *)
Definition weight_after (n : nat) (w : SzlValue) (pos : nat) (vals : list SzlValue) : SzlValue :=
  match vals with [] => w | _ => let a := alloc n (vvals w) in VVals (take pos a ++ vals ++ drop (pos + length vals) a) end.

Definition weighs (t : Type_) : Prop := forall v vals w pre post d em o,
  weight_ops writer = o -> ops_kind o = TUPLE -> cells_ o = pre ++ flat_cells t ++ post -> all_basic (flat_cells t) -> flat_value t v = Ok vals -> 0 < d ->
  length (alloc (nflats_ o) (vvals w)) = nflats_ o ->
  PutValue t v (weighing w (length pre) d em) = Ok (weighing (weight_after (nflats_ o) w (length pre) vals) (length pre + length vals) d em).

Lemma alloc_length n w vals pos : length (alloc n (vvals w)) = n -> (pos + length vals <= n)%nat -> length (alloc n (vvals (weight_after n w pos vals))) = n.
Proof.
  intros Hl Hp. unfold weight_after. destruct vals as [|x vals]; [done|]. cbn [vvals]. set (a := alloc n (vvals w)) in *. unfold alloc at 1.
  destruct (take pos a ++ (x :: vals) ++ drop (pos + length (x :: vals)) a) as [|y l] eqn:El; [by rewrite length_replicate|]. rewrite <- El, !length_app, length_take, length_drop, Hl. lia.
Qed.


Lemma weight_after_app n w pos v1 v2 : length (alloc n (vvals w)) = n -> (pos + length v1 + length v2 <= n)%nat ->
  weight_after n (weight_after n w pos v1) (pos + length v1) v2 = weight_after n w pos (v1 ++ v2).
Proof.
  intros Hl Hp. destruct v1 as [|x v1]; [cbn; by rewrite Nat.add_0_r|]. destruct v2 as [|y v2]; [by rewrite app_nil_r|]. remember (x :: v1) as l1 eqn:E1. remember (y :: v2) as l2 eqn:E2.
  assert (forall u q l, l <> [] -> weight_after n u q l = VVals (take q (alloc n (vvals u)) ++ l ++ drop (q + length l) (alloc n (vvals u)))) as Hne by (by intros u q [|z l]).
  rewrite !Hne by (subst; done). f_equal. cbn [vvals]. set (a := alloc n (vvals w)) in *.
  assert (alloc n (take pos a ++ l1 ++ drop (pos + length l1) a) = take pos a ++ l1 ++ drop (pos + length l1) a) as ->.
  { unfold alloc. destruct (take pos a ++ l1 ++ drop (pos + length l1) a) as [|z l] eqn:El; [|done]. exfalso. apply (f_equal length) in El. rewrite !length_app in El. subst l1. cbn in El. lia. }
  assert (length (take pos a ++ l1) = (pos + length l1)%nat) as Hl1 by (rewrite length_app, length_take; lia).
  rewrite (app_assoc (take pos a) l1). assert (take (pos + length l1) ((take pos a ++ l1) ++ drop (pos + length l1) a) = take pos a ++ l1) as -> by (rewrite <- Hl1; apply take_app_length).
  rewrite drop_app_ge, drop_drop by (rewrite Hl1; lia). rewrite Hl1, <- !app_assoc. do 3 f_equal. f_equal. rewrite length_app. lia.
Qed.

Lemma weigh_fields (fields : list (string * nat * Type_)) (slots : list Out) vals w pre post d em o :
  Forall (fun f => weighs f.2) fields ->
  weight_ops writer = o -> ops_kind o = TUPLE -> cells_ o = pre ++ concat (map (fun '(_, _, t) => flat_cells t) fields) ++ post ->
  all_basic (concat (map (fun '(_, _, t) => flat_cells t) fields)) ->
  flat_res (fun '(_, slot, t) => v ← present_val (slots !! slot); flat_value t v) fields = Ok vals -> 0 < d ->
  length (alloc (nflats_ o) (vvals w)) = nflats_ o ->
  fold_res (fun '(_, slot, t) em => v ← present_val (slots !! slot); PutValue t v em) fields (weighing w (length pre) d em)
  = Ok (weighing (weight_after (nflats_ o) w (length pre) vals) (length pre + length vals) d em).
Proof.
  intros Hf Ho Hk Hc Hb Hv Hd Hl. revert vals w pre Hc Hb Hv Hl. induction Hf as [|[[name slot] t] fields Ht Hf IH]; intros vals w pre Hc Hb Hv Hl; [injection Hv as <-; cbn [length]; by rewrite Nat.add_0_r|].
  apply flat_res_Ok in Hv as (v1 & v2 & H1 & H2 & ->). apply bind_Ok in H1 as (v & Hs & H1). cbn [map concat] in Hc, Hb. rewrite <- app_assoc in Hc. apply Forall_app in Hb as (Hb1 & Hb2). cbn in Ht.
  pose proof (flat_length _ _ _ H1) as L1. cbn [fold_res]. rewrite Hs. cbn [mbind res_bind]. rewrite (Ht v v1 w pre (concat (map (fun '(_, _, t) => flat_cells t) fields) ++ post) d em o) by done. cbn [mbind res_bind].
  assert (length (concat (map (fun '(_, _, t) => flat_cells t) fields)) = length v2) as L2.
  { clear -H2. revert v2 H2. induction fields as [|[[nm sl] t] fields IH]; intros v2 H2; [by injection H2 as <-|]. apply flat_res_Ok in H2 as (u1 & u2 & H1 & H2 & ->). apply bind_Ok in H1 as (v & _ & H1). cbn [map concat]. rewrite !length_app, (IH _ H2). by rewrite (flat_length _ _ _ H1). }
  assert (nflats_ o = length pre + (length v1 + (length v2 + length post)))%nat as Hn by (unfold nflats_; rewrite Hc, !length_app; lia).
  replace (length pre + length v1)%nat with (length (pre ++ flat_cells t)) by (rewrite length_app; lia).
  rewrite (IH v2 _ (pre ++ flat_cells t)); [| |done|done|].
  - rewrite length_app, <- L1, weight_after_app by (done || lia). f_equal. f_equal. rewrite length_app. lia.
  - by rewrite Hc, <- app_assoc.
  - apply alloc_length; [done|lia].
Qed.

Lemma begin_tuple_weight n w pos d em : e_Begin G_TUPLE n (weighing w pos d em) = Ok (weighing w pos (d + 1) em).
Proof. by destruct em. Qed.

Lemma end_tuple_weight n w pos d em : 0 < d -> e_End G_TUPLE n (weighing w pos (d + 1) em) = Ok (weighing w pos d em).
Proof.
  intros Hd. cbn [e_End the_emitter szl_emitter em_End weighing with_weight with_group em_encoder em_in_weight em_depth em_arrays in_array is_null negb orb andb].
  rewrite (proj2 (Z.ltb_lt 0 (d + 1))) by lia. cbn [check mbind res_bind em_depth em_arrays em_encoder in_array with_group with_weight]. rewrite Z.add_simpl_r, (proj2 (Z.eqb_neq d 0)) by lia. done.
Qed.

Lemma PutValue_weighs t : weighs t.
Proof.
  induction t as [k|fields IH|n t IH|n k m e IHk IHe] using Type_nested_ind; intros v vals w pre post d em o Ho Hk Hc Hb Hv Hd Hl.
  - cbn [flat_value] in Hv. apply bind_Ok in Hv as (x & Hx & Hv). injection Hv as <-. cbn [tuple_cells is_tuple comp_cell app] in Hc. cbn [PutValue].
    rewrite (weight_put k x v w (length pre) d em o Ho); [|unfold flats_; by rewrite Hc, list_lookup_fmap, list_lookup_middle|done]. rewrite bool_decide_true by done. cbn [weight_after length].
    rewrite Nat.add_1_r, insert_take_drop; [done|]. rewrite Hl. unfold nflats_. rewrite Hc, !length_app. cbn. lia.
  - cbn [flat_value] in Hv. destruct v as [|?|slots|?]; try discriminate Hv. cbn [PutValue]. rewrite begin_tuple_weight. cbn [mbind res_bind].
    rewrite (weigh_fields fields slots vals w pre post (d + 1) em o) by (done || lia). cbn [mbind res_bind]. by apply end_tuple_weight.
  - exfalso. apply Forall_cons in Hb as (Hb & _). by cbn in Hb.
  - exfalso. apply Forall_cons in Hb as (Hb & _). by cbn in Hb.
Qed.

(** ** Whole emits *)

(** The emitter between two groups of an emit. *)
Definition resting (ek ev : SzlEncoder) (w : SzlValue) (pos : Z) (em : Em) : Em := with_weight w pos (with_group None 0 false [] (with_encoders ek ev em)).

(** The encoding of the values of an index. *)
Definition key_encoder (decls : list (string * Type_)) (vs : list Out) (enc : SzlEncoder) : res SzlEncoder :=
  fold_res (fun '((_, t), v) enc => x ← szl_value t v; Encode (ops_of t) x enc) (zip decls vs) enc.

Lemma put_top_encodes t v x sp enc em : encodes em -> szl_value t v = Ok x ->
  put_top t (v :: sp, at_ enc 1 [] em) = (enc ← Encode (ops_of t) x enc; Ok (sp, at_ enc 1 [] em)).
Proof.
  intros He Hx. pose proof Hx as Hx'. apply one_value_Ok in Hx' as (vals & Hv & _). rewrite (Encode_top t v x vals enc Hx Hv). cbn [put_top pop mbind res_bind].
  rewrite (PutValue_puts t v vals) by (done || lia). cbn [within]. by destruct (put_type t vals false enc).
Qed.

Lemma put_key decls vs sp enc enc' em : encodes em -> length vs = length decls -> key_encoder decls vs enc = Ok enc' ->
  fold_res (fun '(_, t) => put_top t) decls (vs ++ sp, at_ enc 1 [] em) = Ok (sp, at_ enc' 1 [] em).
Proof.
  intros He. unfold key_encoder. revert vs enc. induction decls as [|[name t] decls IH]; intros [|v vs] enc Hl Hk; try discriminate Hl; cbn [zip zip_with fold_res app] in *; [by injection Hk as <-|].
  apply bind_Ok in Hk as (enc1 & H1 & Hk). apply bind_Ok in H1 as (x & Hx & H1). rewrite (put_top_encodes t v x) by done. rewrite H1. cbn [mbind res_bind]. apply IH; [by injection Hl|done].
Qed.

Lemma index_ok type vs sp ek ev w pos em enc : length vs = length (index_decls type) -> key_encoder (index_decls type) vs (enc_Reset ek) = Ok enc ->
  emit_index type (vs ++ sp, resting ek ev w pos em) = Ok (sp, resting (match index_decls type with [] => ek | _ => enc end) ev w pos em).
Proof.
  intros Hl Hk. unfold emit_index. destruct (index_decls type) as [|d decls] eqn:Ed; [by destruct vs|]. rewrite <- Ed in *. set (em0 := with_group to_key 1 false [] (resting ek ev w pos em)).
  assert (e_Begin G_INDEX (Z.of_nat (length (index_decls type))) (resting ek ev w pos em) = Ok (at_ (enc_Reset ek) 1 [] em0)) as -> by (by destruct em). cbn [mbind res_bind].
  rewrite (put_key _ vs sp _ enc em0) by (done || (split; [done|by exists true])). cbn [mbind res_bind]. by destruct em.
Qed.

(** The encoding of an element, formatted or not. *)
Definition element_bytes (type : OutputType) (v : Out) : res bytes :=
  if elem_format_args type then match v with OBasic (VString s) => Ok (data_ (PutString enc_new s)) | _ => Fatal end else encoded (elem_decl type).2 v.

Lemma element_ok type v sp ek ev w pos em b : enc_Reset ev = enc_new -> element_bytes type v = Ok b ->
  exists ev', emit_element type (v :: sp, resting ek ev w pos em) = Ok (sp, resting ek ev' w pos em) /\ data_ ev' = b
    /\ (elem_format_args type = true /\ version_ ev' = 10 \/ exists x, Encode (ops_of (elem_decl type).2) x enc_new = Ok ev').
Proof.
  intros Hv Hb. unfold emit_element. set (em0 := with_group to_value 1 false [] (resting ek ev w pos em)).
  assert (e_Begin G_ELEMENT 1 (resting ek ev w pos em) = Ok (at_ enc_new 1 [] em0)) as -> by (rewrite <- Hv; by destruct em). cbn [mbind res_bind]. unfold element_bytes in Hb. destruct (elem_format_args type).
  - destruct v as [[]| | |]; try discriminate Hb. injection Hb as <-. cbn [pop mbind res_bind]. cbn [e_PutString the_emitter szl_emitter]. unfold em_PutString. rewrite at_put by (split; [done|by exists false]). cbn [mbind res_bind].
    exists (PutString enc_new s). split; [by destruct em|]. split; [done|]. by left.
  - apply bind_Ok in Hb as (x & Hx & Hb). apply bind_Ok in Hb as (enc & He & Hb). injection Hb as <-. rewrite (put_top_encodes _ v x) by (done || (split; [done|by exists false])). rewrite He. cbn [mbind res_bind].
    exists enc. split; [by destruct em|]. split; [done|]. right. by exists x.
Qed.

(** A weight is a number or a string, or a tuple of them. *)
Definition weight_type_ok (t : Type_) : Prop := all_basic (flat_cells t) /\ flat_cells t <> [].

Lemma weight_ok type name t v x sp ek ev w pos em :
  weight type = Some (name, t) -> HasWeight writer = true -> weight_ops writer = ops_of t -> weight_type_ok t -> szl_value t v = Ok x ->
  length (alloc (nflats_ (ops_of t)) (vvals w)) = nflats_ (ops_of t) ->
  exists pos', emit_weight type (v :: sp, resting ek ev w pos em) = Ok (sp, resting ek ev x pos' em) /\ 0 < pos' /\ length (alloc (nflats_ (ops_of t)) (vvals x)) = nflats_ (ops_of t).
Proof.
  intros Ht Hh Ho (Hb & Hne) Hx Hl. unfold emit_weight. rewrite Ht. set (em0 := resting ek ev w pos em).
  assert (e_Begin G_WEIGHT 1 em0 = Ok (weighing w 0 1 em0)) as -> by (cbn [e_Begin the_emitter szl_emitter em_Begin]; by rewrite Hh). cbn [mbind res_bind put_top pop].
  apply one_value_Ok in Hx as (vals & Hv & Hx). pose proof (flat_length _ _ _ Hv) as L.
  assert (exists n, PutValue t v (weighing w 0 1 em0) = Ok (weighing x (S n) 1 em0) /\ length (alloc (nflats_ (ops_of t)) (vvals x)) = nflats_ (ops_of t)) as (n & -> & Hlx).
  { destruct t as [k|fields|? ?|? ? ? ?]; cbn [is_tuple] in Hx.
    - subst vals. cbn [flat_value] in Hv. apply bind_Ok in Hv as (y & Hy & Hv). injection Hv as ->. exists 0%nat. cbn [PutValue]. rewrite (weight_put k x v w 0 1 em0 (ops_of (TBasic k))) by done. split; [by destruct k|]. destruct k, v as [[]| | |]; try discriminate Hy; cbn [flat_basic] in Hy; try (destruct (bool_decide _); [|discriminate Hy]); by injection Hy as <-.
    - cbn [tuple_cells is_tuple] in L. assert (length vals <> 0)%nat as Hvne by (rewrite L; cbn [tuple_cells is_tuple] in Hne; by destruct (cells_ (ops_of (TTuple fields)))). exists (pred (length vals)). replace (S (pred (length vals))) with (length vals) by lia. rewrite Hx.
      pose proof (PutValue_weighs (TTuple fields) v vals w [] [] 1 em0 _ Ho eq_refl ltac:(cbn [app]; rewrite app_nil_r; done) Hb Hv ltac:(lia) Hl) as Hw. cbn [length Nat.add] in Hw. rewrite Hw.
      assert (weight_after (nflats_ (ops_of (TTuple fields))) w 0 vals = VVals vals) as ->.
      { unfold weight_after. destruct vals as [|y vals]; [done|]. cbn [take app Nat.add]. rewrite drop_ge, app_nil_r; [done|]. rewrite Hl. unfold nflats_. by rewrite <- L. }
      split; [done|]. cbn [vvals]. unfold alloc. destruct vals; [done|]. exact L.
    - exfalso. apply Forall_cons in Hb as (Hb & _). by cbn in Hb.
    - exfalso. apply Forall_cons in Hb as (Hb & _). by cbn in Hb. }
  cbn [mbind res_bind]. exists (Z.of_nat (S n)). split; [by destruct em|]. split; [lia|done].
Qed.

(** What one emit adds: the index, the element and the weight; and the stack after. *)
Definition emit_args (type : OutputType) (sp : list Out) : res (bytes * (bytes * option SzlValue) * list Out) :=
  let n := length (index_decls type) in
  _ ← check (n <=? length sp)%nat;
  enc ← key_encoder (index_decls type) (take n sp) enc_new;
  '(v, sp) ← pop (drop n sp);
  b ← element_bytes type v;
  match weight type with
  | None => Ok (data_ enc, (b, None), sp)
  | Some (_, t) => '(v, sp) ← pop sp; x ← szl_value t v; Ok (data_ enc, (b, Some x), sp)
  end.

Definition call_entry (x : bytes * option SzlValue) (e : E) : res (Z * E) :=
  match x.2 with Some w => entry_AddWeightedElem x.1 w e | None => entry_AddElem x.1 e end.

(** The writer is the one for the table. *)
Definition writer_for (type : OutputType) : Prop :=
  Aggregates writer = true /\ HasWeight writer = present (weight type) /\ forall name t, weight type = Some (name, t) -> weight_ops writer = ops_of t /\ weight_type_ok t.

(** Between two emits. *)
Record ready (type : OutputType) (em : Em) : Prop := {
  rd_rest : em_encoder em = None /\ em_depth em = 0 /\ em_arrays em = [];
  rd_encoders : enc_Reset (em_key em) = enc_new /\ enc_Reset (em_value em) = enc_new;
  rd_key : index_decls type = [] -> data_ (em_key em) = [];
  rd_weight : forall name t, weight type = Some (name, t) -> length (alloc (nflats_ (ops_of t)) (vvals (em_weight em))) = nflats_ (ops_of t) }.

(** The first emit finds the emitter as it was constructed. *)
Lemma new_ready type in_weight pos display : writer_for type -> ready type (em_new in_weight pos display).
Proof. intros _. split; [done|done|done|]. intros name t _. cbn. by rewrite length_replicate. Qed.

(** Encoders keep their version. *)
Definition keeps {A} (f : A -> SzlEncoder -> res SzlEncoder) : Prop := forall a e e', f a e = Ok e' -> enc_Reset e' = enc_Reset e.

Lemma loop_fold_keeps {A} (all cur : list (A -> SzlEncoder -> res SzlEncoder)) vals e e' :
  Forall keeps all -> Forall keeps cur -> loop_fold all cur vals e = Ok e' -> enc_Reset e' = enc_Reset e.
Proof.
  intros Ha Hc. revert cur e Hc. induction vals as [|v vals IH]; intros cur e Hc Hf; cbn [loop_fold] in Hf; [by injection Hf as <-|].
  destruct (next_cell all cur) as [[f cur']|] eqn:En; [|discriminate Hf]. assert (keeps f /\ Forall keeps cur') as (Hk & Hc').
  { destruct Hc as [|g cur Hg Hc]; cbn in En; [|by injection En as -> ->]. destruct Ha as [|g l Hg Ha]; cbn in En; [done|]. by injection En as -> ->. }
  apply bind_Ok in Hf as (e1 & H1 & Hf). rewrite (IH _ _ Hc' Hf). by apply (Hk v).
Qed.

Lemma PutBytes_loop_keeps e seg q : enc_Reset (PutBytes_loop e seg q) = enc_Reset e.
Proof. revert e seg. induction q as [|c q IH]; intros e seg; cbn [PutBytes_loop]; [done|]. destruct (c =? kBytesTerm); by rewrite IH. Qed.

Lemma PutInt_keeps e i : enc_Reset (PutInt e i) = enc_Reset e.
Proof. unfold PutInt. by destruct (0 <=? i). Qed.

Lemma DoEncode_keeps k : keeps (SzlOpsDoEncode k).
Proof.
  intros v e e' He. destruct k; try discriminate He; cbn in He; try (injection He as <-; try done).
  - unfold PutBytes. unfold enc_Reset at 1, AppendEncoding. cbn [version_]. exact (PutBytes_loop_keeps (push_back e Tag.BYTES) [] (vbuf v)).
  - apply PutInt_keeps.
Qed.

Lemma brackets_keep e e' k : Start e k = Ok e' \/ End_ e k = Ok e' -> enc_Reset e' = enc_Reset e.
Proof. by destruct k; intros [[= <-]|[= <-]]. Qed.

Lemma default_keeps o e e' : EncodeDefault o e = Ok e' -> enc_Reset e' = enc_Reset e.
Proof.
  revert e e'. induction o as [t cells IH] using SzlOps_nested_ind. intros e e' He. cbn [EncodeDefault] in He.
  assert (forall k, EncodeDefaultBase k e = Ok e' -> enc_Reset e' = enc_Reset e) as Hbase.
  { intros k Hk. destruct k; try discriminate Hk; cbn in Hk; by injection Hk as <-. }
  destruct (kind_ t); try (by apply (Hbase _ He)); [|by injection He as <-]. clear Hbase. revert e He. induction IH as [|[k sub] cells Hc IH IHc]; intros e He; cbn [map foldl] in He; [by injection He as <-|].
  cbn [mbind res_bind] in He. destruct (match sub with Some sub => EncodeDefault sub e | None => EncodeDefaultBase k e end) as [e1| |] eqn:E1.
  - rewrite (IHc e1 He). destruct sub as [sub|]; [by apply Hc|]. destruct k; try discriminate E1; cbn in E1; by injection E1 as <-.
  - exfalso. clear -He. induction cells; [done|]. by apply IHcells.
  - exfalso. clear -He. induction cells; [done|]. by apply IHcells.
Qed.

Lemma EncodeInternal_keeps o top : keeps (fun v e => EncodeInternal o v e top).
Proof.
  revert top. induction o as [t cells IH] using SzlOps_nested_ind. intros top v e e' He. rewrite EncodeInternal_cells in He.
  assert (Forall keeps (map enc_cell cells)) as Hk. { clear He. induction IH as [|[k [sub|]] cells Hc IH IHc]; constructor; try done; [by apply Hc|]. apply DoEncode_keeps. }
  destruct (ops_kind (MkOps t cells)) eqn:Ek; try (by apply (DoEncode_keeps _ _ _ _ He)); cbn [cells_] in He.
  - apply bind_Ok in He as (e1 & H1 & He). apply bind_Ok in He as (e2 & H2 & He). assert (enc_Reset e1 = enc_Reset e) as <- by (destruct top; [by injection H1 as <-|apply (brackets_keep _ _ TUPLE); by left]).
    assert (enc_Reset e2 = enc_Reset e1) as <- by (destruct (vvals v); [by apply (default_keeps _ _ _ H2)|by apply (loop_fold_keeps _ _ _ _ _ Hk Hk H2)]). destruct top; [by injection He as <-|apply (brackets_keep _ _ TUPLE); by right].
  - apply bind_Ok in He as (e1 & H1 & He). apply bind_Ok in He as (e2 & H2 & He). rewrite (brackets_keep e2 e' ARRAY), (loop_fold_keeps _ _ _ _ _ Hk Hk H2) by (by right). apply (brackets_keep _ _ ARRAY). by left.
  - apply bind_Ok in He as (e1 & H1 & He). apply bind_Ok in He as (e2 & H2 & He). rewrite (brackets_keep e2 e' MAP), (loop_fold_keeps _ _ _ _ _ Hk Hk H2), PutInt_keeps by (by right). apply (brackets_keep _ _ MAP). by left.
Qed.

Lemma key_encoder_keeps decls vs e e' : key_encoder decls vs e = Ok e' -> enc_Reset e' = enc_Reset e.
Proof.
  unfold key_encoder. revert e. induction (zip decls vs) as [|[[n t] v] l IH]; intros e He; cbn [fold_res] in He; [by injection He as <-|].
  apply bind_Ok in He as (e1 & H1 & He). apply bind_Ok in H1 as (x & _ & H1). rewrite (IH _ He). by apply (EncodeInternal_keeps (ops_of t) true x).
Qed.

(** The general way of emitting, which the short one agrees with. *)
Lemma short_emit_same type sp em r : short_emit type sp em = Some r ->
  r = (em ← e_Begin G_EMIT 1 em; s ← emit_index type (sp, em); s ← emit_element type s; '(sp, em) ← emit_weight type s; em ← e_End G_EMIT 1 em; Ok (sp, em)).
Proof.
  unfold short_emit. destruct (elem_format_args type) eqn:Ef; [done|]. destruct (weight type) eqn:Ew; [done|]. destruct (index_decls type) eqn:Ei; [|done]. destruct (elem_decl type) as [name t] eqn:Et. cbn [snd].
  intros Hs. unfold emit_index, emit_element, emit_weight. rewrite Ei, Ef, Ew, Et. cbn [snd] in *. change (@e_Begin Em the_emitter) with (em_Begin writer). change (@e_End Em the_emitter) with (em_End writer).
  change (@e_EmitInt Em the_emitter) with (em_EmitInt writer) in Hs. change (@e_EmitFloat Em the_emitter) with (em_EmitFloat writer) in Hs. unfold em_EmitInt, em_EmitFloat in Hs.
  assert (em_Begin writer G_EMIT 1 em = Fatal \/ exists em1 em2, em_Begin writer G_EMIT 1 em = Ok em1 /\ em_Begin writer G_ELEMENT 1 em1 = Ok em2) as [Eb|(em1 & em2 & Eb1 & Eb2)].
  { cbn [em_Begin]. destruct (at_rest em); [right|by left]. by eexists _, _. }
  - destruct t as [[]| | |]; try discriminate Hs; apply Some_inj in Hs; rewrite <- Hs; destruct sp as [|[[]| | |] sp]; cbn [pop mbind res_bind]; by rewrite Eb.
  - destruct t as [[]| | |]; try discriminate Hs; apply Some_inj in Hs; rewrite <- Hs; destruct sp as [|[[x|x|x|x|x|x|x|x|x|x]| | |] sp]; try done; cbn [pop mbind res_bind put_top PutValue put_basic]; change (@e_PutInt Em the_emitter) with (em_PutInt writer); change (@e_PutFloat Em the_emitter) with (em_PutFloat writer); rewrite Eb1; cbn [mbind res_bind]; rewrite Eb2; cbn [mbind res_bind]; try reflexivity;
      match goal with |- context [mbind _ ?r] => match r with em_PutInt _ _ _ => destruct r as [em3| |] | em_PutFloat _ _ _ => destruct r as [em3| |] end end; cbn [mbind res_bind]; try reflexivity;
      destruct (em_End writer G_ELEMENT 1 em3) as [em4| |]; cbn [mbind res_bind]; try reflexivity; by destruct (em_End writer G_EMIT 1 em4).
Qed.

(** An emit adds its element and weight to the entry of its index, as one more
    element of the table. *)
Lemma Emit_table type sp sp' k x em em1 n :
  writer_for type -> ready type em -> emit_args type sp = Ok (k, x, sp') -> table_feed writer call_entry (k, x) em = Ok em1 ->
  exists em', Emit type sp (MkOutputter (Some em) n) = Ok (None, sp', MkOutputter (Some em') (n + 1))
    /\ ready type em' /\ em_table em' = em_table em1 /\ em_memory_estimate em' = em_memory_estimate em1 /\ em_written em' = em_written em.
Proof.
  intros (Hagg & Hhas & Hwt) [(Hr1 & Hr2 & Hr3) (Hk & Hv) Hrk Hrw] Hargs Hfeed. unfold emit_args in Hargs. apply bind_Ok in Hargs as ([] & Hlen & Hargs). apply bind_Ok in Hargs as (enc & Henc & Hargs).
  unfold check in Hlen. destruct (Nat.leb_spec (length (index_decls type)) (length sp)) as [Hn|]; [|done]. set (m := length (index_decls type)) in *.
  apply bind_Ok in Hargs as ([v sp1] & Hpop & Hargs). apply bind_Ok in Hargs as (b & Hb & Hargs). destruct (drop m sp) as [|v' sp1'] eqn:Ed; [done|]. injection Hpop as -> ->.
  assert (sp = take m sp ++ v :: sp1) as Esp by (rewrite <- Ed; symmetry; apply take_drop). assert (length (take m sp) = m) as Lt by (rewrite length_take; lia).
  rewrite <- Hk in Henc. pose proof (key_encoder_keeps _ _ _ _ Henc) as Hek.
  set (ek := match index_decls type with [] => em_key em | _ => enc end).
  assert (data_ ek = data_ enc /\ enc_Reset ek = enc_new) as (Hd & Hver).
  { subst ek. destruct (index_decls type) as [|d decls] eqn:Ei.
    - rewrite Hrk by done. cbn in Henc. by injection Henc as <-.
    - split; [done|]. rewrite Hek, <- Hk. done. }
  assert (e_Begin G_EMIT 1 em = Ok (resting (em_key em) (em_value em) (em_weight em) (-1) em)) as Hbegin.
  { destruct em. cbn in *. subst. done. }
  destruct (element_ok type v sp1 ek (em_value em) (em_weight em) (-1) em b Hv Hb) as (ev & Hel & Hdv & Hev).
  assert (enc_Reset ev = enc_new) as Hver'. { destruct Hev as [(_ & E10)|(y & Hy)]; [unfold enc_Reset; by rewrite E10|]. apply (EncodeInternal_keeps _ true) in Hy. by rewrite Hy. }
  assert (forall w pos, (0 <? pos) = present (weight type) -> call_entry x = (fun e => if 0 <? pos then entry_AddWeightedElem b w e else entry_AddElem b e) -> k = data_ enc ->
    (forall name t, weight type = Some (name, t) -> length (alloc (nflats_ (ops_of t)) (vvals w)) = nflats_ (ops_of t)) ->
    exists em', e_End G_EMIT 1 (resting ek ev w pos em) = Ok em' /\ ready type em' /\ em_table em' = em_table em1 /\ em_memory_estimate em' = em_memory_estimate em1 /\ em_written em' = em_written em) as Hend.
  { intros w pos Hpos Hcall -> Hw. unfold table_feed in Hfeed. apply bind_Ok in Hfeed as (e & He & Hfeed). apply bind_Ok in Hfeed as ([mm e'] & Hadd & Hfeed). injection Hfeed as <-. rewrite Hcall in Hadd.
    change (e_End G_EMIT 1 (resting ek ev w pos em)) with (em_End_emit writer (resting ek ev w pos em)). unfold em_End_emit. cbn [at_rest resting with_weight with_group with_encoders em_encoder em_depth em_key em_value em_weight em_weight_pos is_null check mbind res_bind].
    rewrite Hpos, Hhas, Hagg. rewrite eqb_reflx. cbn [andb check mbind res_bind Z.eqb]. rewrite Hd. match goal with |- context [find_entry writer _ ?y] => change (find_entry writer (data_ enc) y) with (find_entry writer (data_ enc) em) end. rewrite He. cbn [mbind res_bind]. rewrite <- Hpos, Hdv, Hadd. cbn [mbind res_bind].
    eexists. split; [reflexivity|]. split; [|done]. split; [done|done| |done]. intros Hi. cbn. subst ek. rewrite Hi. by apply Hrk. }
  assert (exists em', (em ← e_Begin G_EMIT 1 em; s ← emit_index type (sp, em); s ← emit_element type s; '(sp, em) ← emit_weight type s; em ← e_End G_EMIT 1 em; Ok (sp, em)) = Ok (sp', em')
    /\ ready type em' /\ em_table em' = em_table em1 /\ em_memory_estimate em' = em_memory_estimate em1 /\ em_written em' = em_written em) as (em' & Hgen & Hem').
  { rewrite Hbegin. cbn [mbind res_bind]. rewrite Esp, (index_ok type (take m sp) (v :: sp1) (em_key em) _ _ _ _ enc Lt Henc). cbn [mbind res_bind]. fold ek. rewrite Hel. cbn [mbind res_bind].
    destruct (weight type) as [[name t]|] eqn:Ew.
    - apply bind_Ok in Hargs as ([vw sp2] & Hpop & Hargs). destruct sp1 as [|vw' sp2']; [done|]. injection Hpop as -> ->. apply bind_Ok in Hargs as (xw & Hxw & Hargs). injection Hargs as <- <- <-. destruct (Hwt name t eq_refl) as (Ho & Hok).
      destruct (weight_ok type name t vw xw sp2 ek ev (em_weight em) (-1) em Ew ltac:(by rewrite Hhas) Ho Hok Hxw ltac:(by apply (Hrw name))) as (pos & Hwe & Hpos & Hlx). rewrite Hwe. cbn [mbind res_bind].
      destruct (Hend xw pos) as (em' & He & Hrest); [by apply Z.ltb_lt|by rewrite (proj2 (Z.ltb_lt 0 pos) Hpos)|done|intros ? ? [= <- <-]; done|]. exists em'. rewrite He. by split.
    - injection Hargs as <- <- <-. unfold emit_weight. rewrite Ew. cbn [mbind res_bind]. destruct (Hend (em_weight em) (-1)) as (em' & He & Hrest); [done|done|done|done|]. exists em'. rewrite He. by split. }
  exists em'. split; [|exact Hem']. unfold Emit. cbn [emitter_ emit_count_]. destruct (short_emit type sp em) as [r|] eqn:Es; [rewrite (short_emit_same type sp em r Es)|]; rewrite Hgen; done.
Qed.
End Encoding.
