(* ===== verification/EmitTables.v ===== *)
(** * Emit statements and tables over shards

    Emit statements add the encodings of their values to the table of their
    emitter; the tables of all shards, flushed and merged in any order, hold the
    elements of all shards. For any kind of table with a [MergeContract]. *)
From Stdlib Require Import ZArith Lia.
From stdpp Require Import prelude strings gmap.
From S2P Require Import Prelude SzlType Encoder Decoder Codec SzlValue ValueCodec Numbers TabEntry Emitter SumTable SzlMap Forms Outputter.

Local Open Scope Z_scope.

(** The emits of a run, each with its values on the stack; a message ends it. *)
Fixpoint run_emits {E} `{SzlTabEntry E} (writer : SzlTabWriter E) (type : OutputType) (stacks : list (list Out)) (o : Outputter (SzlEmitter E)) : res (Outputter (SzlEmitter E)) :=
  match stacks with
  | [] => Ok o
  | sp :: stacks =>
      '(err, _, o) ← @Emit _ (szl_emitter writer) type sp o;
      match err with None => run_emits writer type stacks o | Some _ => Fail end
  end.

Section Shards.
Context {E X : Type} `{SzlTabEntry E} {feed : X -> E -> res (Z * E)} {new : E}
  {good : X -> Prop} {fits : list X -> Prop} {holds : list X -> E -> Prop} {reports : list X -> bytes -> Prop}
  `{M : !MergeContract feed new good fits holds reports}.
Context (writer : SzlTabWriter E) (iterate : gmap bytes E -> list (bytes * E)) (type : OutputType) (elem_of : X -> bytes * option SzlValue).
Hypothesis Hfeed : forall x e, feed x e = call_entry (elem_of x) e.
Hypothesis Hwriter : writer_for writer type.
Hypothesis Hcreate : forall k, CreateEntry writer k = Ok new.

(** An emit with its index and its element. *)
Definition emit_ok (p : list Out * (bytes * X)) : Prop := emit_args type p.1 = Ok (p.2.1, elem_of p.2.2, []) /\ good p.2.2.

Lemma run_emits_holds (emits : list (list Out * (bytes * X))) l em n :
  Forall emit_ok emits -> ready type em -> table_holds (holds := holds) l (em_table em) -> (forall k, fits (of_key k (l ++ emits.*2))) ->
  exists em' n', run_emits writer type emits.*1 (MkOutputter (Some em) n) = Ok (MkOutputter (Some em') n') /\ table_holds (holds := holds) (l ++ emits.*2) (em_table em') /\ em_written em' = em_written em.
Proof.
  intros He. revert l em n. induction He as [|[sp [k x]] emits (Ha & Hg) He IH]; intros l em n Hr Hl Hf; cbn [fmap list_fmap fst snd run_emits] in *.
  { exists em, n. by rewrite app_nil_r. }
  assert (l ++ (k, x) :: emits.*2 = (l ++ [(k, x)]) ++ emits.*2) as El by (by rewrite <- app_assoc). rewrite El in *.
  assert (fits (of_key k l ++ [x])) as Hfk. { pose proof (Hf k) as Hfk. rewrite of_key_app, of_key_app, of_key_here in Hfk. exact (proj1 (mc_fits _ _ Hfk)). }
  destruct (table_feed_holds writer Hcreate l k x em Hl Hfk Hg) as (m & t & Hfd & Ht).
  assert (table_feed writer call_entry (k, elem_of x) em = Ok (with_table t m em)) as Hfd'.
  { rewrite <- Hfd. unfold table_feed. destruct (find_entry writer k em); [|done..]. cbn [mbind res_bind]. by rewrite Hfeed. }
  destruct (Emit_table writer type sp [] k (elem_of x) em _ n Hwriter Hr Ha Hfd') as (em' & Hem & Hr' & Ht' & _ & Hw). change (the_emitter writer) with (szl_emitter writer) in Hem. rewrite Hem. cbn [mbind res_bind].
  destruct (IH (l ++ [(k, x)]) em' (n + 1) Hr') as (em2 & n2 & E2 & H2 & Hw2); [by rewrite Ht'|done|]. exists em2, n2. split; [exact E2|]. split; [done|]. by rewrite Hw2.
Qed.
End Shards.

(** C6. One emit statement: with its values on the stack, an emit finds the entry
    for the encoding of its index (or a new one) and adds to it the encoding of its
    element by SzlOps, with its weight, and nothing else in the table changes; the
    emitter is ready for the next emit. *)
Theorem Emit_adds {E} `{SzlTabEntry E} (writer : SzlTabWriter E) type sp sp' k v w em e m e' n :
  writer_for writer type -> ready type em -> emit_args type sp = Ok (k, (v, w), sp') ->
  find_entry writer k em = Ok e -> (match w with Some w => entry_AddWeightedElem v w e | None => entry_AddElem v e end) = Ok (m, e') ->
  exists em', @Emit _ (szl_emitter writer) type sp (MkOutputter (Some em) n) = Ok (None, sp', MkOutputter (Some em') (n + 1))
    /\ ready type em' /\ em_table em' = <[k := e']> (em_table em) /\ em_memory_estimate em' = s32 (em_memory_estimate em + m) /\ em_written em' = em_written em.
Proof.
  intros Hw Hr Ha He Hadd.
  assert (table_feed writer call_entry (k, (v, w)) em = Ok (with_table (<[k := e']> (em_table em)) (s32 (em_memory_estimate em + m)) em)) as Hf.
  { unfold table_feed. rewrite He. cbn [mbind res_bind]. unfold call_entry. cbn [fst snd]. rewrite Hadd. done. }
  exact (Emit_table writer type sp sp' k (v, w) em _ n Hw Hr Ha Hf).
Qed.

(** C5. Tables over shards: every shard runs its emits into an emitter of its own
    and flushes it; what all shards wrote, merged into a new emitter in any order,
    gives a table whose entry of every index holds the elements emitted for the
    index in all shards. *)
Theorem tables_sharded {E X} `{SzlTabEntry E} feed new good fits holds reports (M : @MergeContract E X _ feed new good fits holds reports)
    (writer : SzlTabWriter E) iterate type elem_of in_weight pos (shards : list (list (list Out * (bytes * X)))) :
  (forall x e, feed x e = call_entry (elem_of x) e) -> writer_for writer type -> (forall k, CreateEntry writer k = Ok new) ->
  (forall t, iterate t ≡ₚ map_to_list t) -> (forall e, entry_Merge [] e = Ok (MergeOk, e)) -> (forall l l', l ≡ₚ l' -> fits l -> fits l') ->
  Forall (Forall (emit_ok (good := good) type elem_of)) shards ->
  let pairs := concat (map (fun shard => shard.*2) shards) in
  (forall k, fits (of_key k pairs)) ->
  let start := em_new in_weight pos false in
  exists written,
    Forall2 (fun shard w => exists n em em', run_emits writer type shard.*1 (MkOutputter (Some start) 0) = Ok (MkOutputter (Some em) n)
      /\ Flusher iterate em = Ok em' /\ em_table em' = ∅ /\ em_written em' = w) shards written
    /\ forall msgs, msgs ≡ₚ concat written ->
       exists em, merge_written writer msgs start = Ok em
         /\ forall k, exists l, l ≡ₚ of_key k pairs /\ holds l (default new (em_table em !! k)).
Proof.
  intros Hfeed Hwriter Hcreate Hiter Hempty Hfits Hok pairs Hf start.
  assert (exists written, Forall2 (fun shard w => (exists n em em', run_emits writer type shard.*1 (MkOutputter (Some start) 0) = Ok (MkOutputter (Some em) n)
      /\ Flusher iterate em = Ok em' /\ em_table em' = ∅ /\ em_written em' = w) /\ written_of (reports := reports) shard.*2 w) shards written) as (written & Hw).
  { assert (Forall (fun shard : list (list Out * (bytes * X)) => forall k, fits (of_key k shard.*2)) shards) as Hfs.
    { clear -Hf M. subst pairs. induction shards as [|shard shards IH]; [done|]. cbn [map concat] in Hf. constructor; [intros k; specialize (Hf k)|apply IH; intros k; specialize (Hf k)]; rewrite of_key_app in Hf; apply (mc_fits _ _ Hf). }
    clear Hf pairs. induction Hok as [|shard shards Hs Hok IH]; [by exists []|]. apply Forall_cons in Hfs as (Hf1 & Hfs). destruct (IH Hfs) as (written & Hw).
    destruct (run_emits_holds (M := M) writer type elem_of Hfeed Hwriter Hcreate shard [] start 0 Hs (new_ready writer type in_weight pos false Hwriter)) as (em & n & Hrun & Ht & Hwr).
    { intros k. by assert (em_table start !! k = None) as -> by apply lookup_empty. } { exact Hf1. }
    destruct (Flusher_written (M := M) iterate Hiter shard.*2 em Ht Hf1) as (w & em' & Hfl & Hte & Hw' & Hwo). exists (w :: written). constructor; [|done]. split; [|done]. exists n, em, em'. split; [done|]. split; [done|]. split; [done|]. by rewrite Hw', Hwr. }
  exists written. split; [by eapply Forall2_impl; [exact Hw|]; intros ? ? (? & _)|]. intros msgs Hm.
  apply (shards_merged (M := M) writer Hcreate Hempty Hfits (map (fun shard => shard.*2) shards) written msgs start); [|done|exact Hf|done].
  clear -Hw. induction Hw as [|shard w shards written (_ & Hwo) Hw IH]; [constructor|]. by constructor.
Qed.

(** ** Examples *)

Module Example.
(** [best: table maximum(2)[k: string] of array of {ok: bool, n: map[string] of uint} weight w: int;] *)
Definition counts_type (index : BasicType.Kind) : Type_ := TMap "" (TBasic index) "" (TBasic BasicType.UINT).
Definition best : OutputType :=
  MkOutput "maximum" 2 [("k"%string, TBasic BasicType.STRING)] ("", TArray "" (TTuple [("ok"%string, 1%nat, TBasic BasicType.BOOL); ("n"%string, 0%nat, counts_type BasicType.STRING)]))%string false (Some ("w"%string, TBasic BasicType.INT)).
Definition cell (k v : Out) : MapCell Out Out := MkCell (Some k) (Some v) None 0.
Definition counts (key : Z -> Val) (l : list (Z * Z)) : Out := OMap (MkMap (map (fun '(k, n) => cell (OBasic (key k)) (OBasic (VUInt n))) l) 16 []).
Definition element : Out := OArray [OTuple [counts (fun k => VString [k]) [(98, 5); (97, 2 ^ 63)]; OBasic (VBool true)]].
Definition stack : list Out := [OBasic (VString [107]); element; OBasic (VInt 7)].

(** A table that lists its elements with their weights, those of the first first. *)
Definition entries := list (bytes * option SzlValue).
#[global] Instance listing : SzlTabEntry entries := {|
  entry_AddElem v e := Ok (1, e ++ [(v, None)]); entry_AddWeightedElem v w e := Ok (1, e ++ [(v, Some w)]);
  entry_Flush := default_Flush; entry_FlushForDisplay := default_FlushForDisplay; entry_Merge := default_Merge; entry_Clear := default_Clear;
  entry_TotElems e := Z.of_nat (length e); entry_TupleCount := default_TupleCount |}.
Definition writer : SzlTabWriter entries := MkWriter entries true true false (ops_of (TBasic BasicType.INT)) (fun b => Ok b) (fun _ => Ok []).
Definition args : bytes * (bytes * option SzlValue) * list Out := match emit_args best stack with Ok a => a | _ => ([], ([], None), []) end.

(** [total: table sum[k: string] of int;] *)
Definition total : OutputType := MkOutput "sum" 0 [("k"%string, TBasic BasicType.STRING)] (""%string, TBasic BasicType.INT) false None.
Definition sum_new_entry : SzlSumEntry := MkSum (SzlValue.VInt 0) 0 0.
Definition sum_writer : SzlTabWriter SzlSumEntry := MkWriter SzlSumEntry false true false int_ops (fun b => Ok b) (fun _ => sum_new int_ops).
Definition emit (k i : Z) : list Out * (bytes * list Z) := ([OBasic (VString [k]); OBasic (VInt i)], (data_ (PutString enc_new [k]), [i])).
Definition shards : list (list (list Out * (bytes * list Z))) := [[emit 97 1; emit 98 2; emit 97 5]; []; [emit 97 (-3)]].
End Example.

Lemma Emit_adds_witness : exists em',
  @Emit _ (szl_emitter Example.writer) Example.best Example.stack (MkOutputter (Some (em_new true 5 false)) 0) = Ok (None, [], MkOutputter (Some em') 1)
  /\ em_table em' = {[ data_ (PutString enc_new [107]) := [(Example.args.1.2.1, Some (SzlValue.VInt 7))] ]}.
Proof.
  destruct (Emit_adds Example.writer Example.best Example.stack [] (data_ (PutString enc_new [107])) Example.args.1.2.1 (Some (SzlValue.VInt 7)) (em_new true 5 false) [] 1 [(Example.args.1.2.1, Some (SzlValue.VInt 7))] 0)
    as (em' & H & _ & Ht & _).
  - split; [reflexivity|]. split; [reflexivity|]. intros name t [= <- <-]. split; [reflexivity|]. split; [by constructor|done].
  - split; [done|done|done|]. intros name t [= <- <-]. reflexivity.
  - vm_compute. reflexivity.
  - reflexivity.
  - reflexivity.
  - exists em'. split; [exact H|]. rewrite Ht. reflexivity.
Defined.

Lemma tables_sharded_witness :
  let start := em_new (E := SzlSumEntry) false 0 false in
  exists written em, length written = 3%nat /\ @merge_written _ (sum_methods int_ops) Example.sum_writer (concat written) start = Ok em
    /\ exists l, l ≡ₚ [[1]; [5]; [-3]] /\ sum_holds (zero := num_zero [INT]) (plus := num_plus) (good := num_good int_ops [INT]) (den := num_den int_ops [INT]) l
        (default Example.sum_new_entry (em_table em !! data_ (PutString enc_new [97]))).
Proof.
  intros start. assert (forall i, is_s64 i -> number (good := num_good int_ops [INT]) (den := num_den int_ops [INT]) [i]) as Hnum.
  { intros i Hi. exists (SzlValue.VInt i). split; [by exists i|done]. }
  destruct (@tables_sharded SzlSumEntry (list Z) (sum_methods int_ops) _ Example.sum_new_entry _ _ _ _ (sum_contract (S := num_summable int_ops [INT] int_num_ops) Example.sum_new_entry eq_refl)
    Example.sum_writer map_to_list Example.total (fun x => (num_code [INT] x, None)) false 0 Example.shards) as (written & Hw & Hall).
  - intros x e. reflexivity.
  - split; [reflexivity|]. split; [reflexivity|]. intros name t [=].
  - intros k. reflexivity.
  - intros t. reflexivity.
  - intros e. reflexivity.
  - intros l l' Hl (Hf & Hn). split; [by rewrite <- Hl|by rewrite <- Hl].
  - repeat (apply Forall_cons; split); try apply Forall_nil_2; (split; [vm_compute; reflexivity|apply Hnum; unfold is_s64; cbn; lia]).
  - intros k. split; [|].
    + apply Forall_fmap, Forall_forall. intros [k' x] (_ & Hin)%list_elem_of_filter. cbn in Hin. rewrite !elem_of_cons, elem_of_nil in Hin.
      destruct Hin as [[= -> ->]|[[= -> ->]|[[= -> ->]|[[= -> ->]|[]]]]]; apply Hnum; unfold is_s64; lia.
    + unfold of_key. rewrite length_fmap. apply (Z.le_lt_trans _ 4); [|lia]. match goal with |- Z.of_nat (length (filter ?P ?l)) <= _ => pose proof (length_filter P l) as Hlf; change (length l) with 4%nat in Hlf; lia end.
  - destruct (Hall (concat written) (Permutation_refl _)) as (em & Hm & Hk). exists written, em. split; [by apply Forall2_length in Hw|]. split; [exact Hm|].
    destruct (Hk (data_ (PutString enc_new [97]))) as (l & Hl & Hh). exists l. split; [|exact Hh]. rewrite Hl. vm_compute. reflexivity.
Defined.

(** Unsigned keys: the engine sorts them as unsigned integers, SzlOps compares them
    as signed ones, so that the sum of two maps has the key of 2^63 twice. *)
Lemma uint_keys_added_twice :
  let value l := szl_value (Example.counts_type BasicType.UINT) (Example.counts VUInt l) in
  (x ← value [(2 ^ 63, 1); (1, 1)]; y ← value [(2 ^ 63, 1)]; Add (ops_of (Example.counts_type BasicType.UINT)) x y)
  = Ok (VVals [SzlValue.VInt (- 2 ^ 63); SzlValue.VInt 1; SzlValue.VInt 1; SzlValue.VInt 1; SzlValue.VInt (- 2 ^ 63); SzlValue.VInt 1]).
Proof. vm_compute. reflexivity. Qed.
