(* ===== verification/Opcodes.v ===== *)
(** * Opcodes of the engine: engine/opcode.h, engine/opcode.cc

    The instructions of the interpreter, in the order of the enumeration, with the
    table of their stack effects. The build without debugging aids is modelled:
    [verify_sp] is not part of the enumeration. *)
From Stdlib Require Import ZArith Lia.
From stdpp Require Import prelude.
From S2P Require Import Prelude.

Local Open Scope Z_scope.

(** [match_] is the opcode [match]. *)
(* @src src/src/engine/opcode.h 31-334 Opcode *)
Inductive Opcode : Type :=
  | illegal | nop | comment | debug_ref | loadV | loadVu | loadVi | floadV | floadVu | xload8 | xloadR
  | xloadV | xloadVu | mloadV | mindexV | mindexVu | sload8 | sloadR | sloadV | sloadVu | storeV | storeVi
  | undefine | openO | fstoreV | fclearB | fsetB | ftestB | xstore8 | xstoreR | xstoreV | minsertV | mstoreV
  | sstoreV | inc64 | finc64 | xinc8 | xincR | xinc64 | minc64 | push8 | pushV | createB | newB | createStr
  | newStr | createT | initT | createA | initA | newA | createM | initM | newM | createC | dupV | popV
  | and_bool | or_bool | add_int | sub_int | mul_int | div_int | mod_int | shl_int | shr_int | and_int
  | or_int | xor_int | add_uint | sub_uint | mul_uint | div_uint | mod_uint | shl_uint | shr_uint | and_uint
  | or_uint | xor_uint | add_float | sub_float | mul_float | div_float | add_fpr | add_array | add_bytes
  | add_string | add_time | sub_time | set_cc | get_cc | cmp_begin | eql_bits | neq_bits | lss_bits
  | leq_bits | gtr_bits | geq_bits | eql_float | neq_float | lss_float | leq_float | gtr_float | geq_float
  | lss_int | leq_int | gtr_int | geq_int | eql_string | neq_string | lss_string | leq_string | gtr_string
  | geq_string | eql_bytes | neq_bytes | lss_bytes | leq_bytes | gtr_bytes | geq_bytes | eql_array
  | neq_array | eql_map | neq_map | eql_tuple | neq_tuple | eql_closure | neq_closure | cmp_end | basicconv
  | arrayconv | mapconv | branch | branch_true | branch_false | trap_false | enter | set_bp | callc | callcnf
  | call | calli | match_ | matchposns | matchstrs | saw | ret | retV | retU | terminate | stop | emit
  | fd_print | count.

(** The value of the enumerator. *)
(* @src src/src/engine/opcode.h 31-334 Opcode *)
Definition op_number (op : Opcode) : Z :=
  match op with
  | illegal => 0 | nop => 1 | comment => 2 | debug_ref => 3 | loadV => 4 | loadVu => 5 | loadVi => 6
  | floadV => 7 | floadVu => 8 | xload8 => 9 | xloadR => 10 | xloadV => 11 | xloadVu => 12 | mloadV => 13
  | mindexV => 14 | mindexVu => 15 | sload8 => 16 | sloadR => 17 | sloadV => 18 | sloadVu => 19
  | storeV => 20 | storeVi => 21 | undefine => 22 | openO => 23 | fstoreV => 24 | fclearB => 25 | fsetB => 26
  | ftestB => 27 | xstore8 => 28 | xstoreR => 29 | xstoreV => 30 | minsertV => 31 | mstoreV => 32
  | sstoreV => 33 | inc64 => 34 | finc64 => 35 | xinc8 => 36 | xincR => 37 | xinc64 => 38 | minc64 => 39
  | push8 => 40 | pushV => 41 | createB => 42 | newB => 43 | createStr => 44 | newStr => 45 | createT => 46
  | initT => 47 | createA => 48 | initA => 49 | newA => 50 | createM => 51 | initM => 52 | newM => 53
  | createC => 54 | dupV => 55 | popV => 56 | and_bool => 57 | or_bool => 58 | add_int => 59 | sub_int => 60
  | mul_int => 61 | div_int => 62 | mod_int => 63 | shl_int => 64 | shr_int => 65 | and_int => 66
  | or_int => 67 | xor_int => 68 | add_uint => 69 | sub_uint => 70 | mul_uint => 71 | div_uint => 72
  | mod_uint => 73 | shl_uint => 74 | shr_uint => 75 | and_uint => 76 | or_uint => 77 | xor_uint => 78
  | add_float => 79 | sub_float => 80 | mul_float => 81 | div_float => 82 | add_fpr => 83 | add_array => 84
  | add_bytes => 85 | add_string => 86 | add_time => 87 | sub_time => 88 | set_cc => 89 | get_cc => 90
  | cmp_begin => 91 | eql_bits => 92 | neq_bits => 93 | lss_bits => 94 | leq_bits => 95 | gtr_bits => 96
  | geq_bits => 97 | eql_float => 98 | neq_float => 99 | lss_float => 100 | leq_float => 101
  | gtr_float => 102 | geq_float => 103 | lss_int => 104 | leq_int => 105 | gtr_int => 106 | geq_int => 107
  | eql_string => 108 | neq_string => 109 | lss_string => 110 | leq_string => 111 | gtr_string => 112
  | geq_string => 113 | eql_bytes => 114 | neq_bytes => 115 | lss_bytes => 116 | leq_bytes => 117
  | gtr_bytes => 118 | geq_bytes => 119 | eql_array => 120 | neq_array => 121 | eql_map => 122
  | neq_map => 123 | eql_tuple => 124 | neq_tuple => 125 | eql_closure => 126 | neq_closure => 127
  | cmp_end => 128 | basicconv => 129 | arrayconv => 130 | mapconv => 131 | branch => 132
  | branch_true => 133 | branch_false => 134 | trap_false => 135 | enter => 136 | set_bp => 137
  | callc => 138 | callcnf => 139 | call => 140 | calli => 141 | match_ => 142 | matchposns => 143
  | matchstrs => 144 | saw => 145 | ret => 146 | retV => 147 | retU => 148 | terminate => 149 | stop => 150
  | emit => 151 | fd_print => 152 | count => 153
  end.

(** The enumerators in order. *)
Definition opcodes : list Opcode :=
  [
    illegal; nop; comment; debug_ref; loadV; loadVu; loadVi; floadV; floadVu; xload8; xloadR; xloadV;
    xloadVu; mloadV; mindexV; mindexVu; sload8; sloadR; sloadV; sloadVu; storeV; storeVi; undefine; openO;
    fstoreV; fclearB; fsetB; ftestB; xstore8; xstoreR; xstoreV; minsertV; mstoreV; sstoreV; inc64; finc64;
    xinc8; xincR; xinc64; minc64; push8; pushV; createB; newB; createStr; newStr; createT; initT; createA;
    initA; newA; createM; initM; newM; createC; dupV; popV; and_bool; or_bool; add_int; sub_int; mul_int;
    div_int; mod_int; shl_int; shr_int; and_int; or_int; xor_int; add_uint; sub_uint; mul_uint; div_uint;
    mod_uint; shl_uint; shr_uint; and_uint; or_uint; xor_uint; add_float; sub_float; mul_float; div_float;
    add_fpr; add_array; add_bytes; add_string; add_time; sub_time; set_cc; get_cc; cmp_begin; eql_bits;
    neq_bits; lss_bits; leq_bits; gtr_bits; geq_bits; eql_float; neq_float; lss_float; leq_float; gtr_float;
    geq_float; lss_int; leq_int; gtr_int; geq_int; eql_string; neq_string; lss_string; leq_string;
    gtr_string; geq_string; eql_bytes; neq_bytes; lss_bytes; leq_bytes; gtr_bytes; geq_bytes; eql_array;
    neq_array; eql_map; neq_map; eql_tuple; neq_tuple; eql_closure; neq_closure; cmp_end; basicconv;
    arrayconv; mapconv; branch; branch_true; branch_false; trap_false; enter; set_bp; callc; callcnf; call;
    calli; match_; matchposns; matchstrs; saw; ret; retV; retU; terminate; stop; emit; fd_print; count
  ].

Lemma op_number_lookup op : opcodes !! Z.to_nat (op_number op) = Some op.
Proof. by destruct op. Qed.

#[export] Instance op_number_inj : Inj (=) (=) op_number.
Proof. intros a b H. apply (inj Some). by rewrite <- !op_number_lookup, H. Qed.
#[export] Instance Opcode_eq_dec : EqDecision Opcode.
Proof.
  intros a b. destruct (decide (op_number a = op_number b)) as [H|H]; [left; by apply (inj op_number)|right; by intros ->].
Defined.

(** The columns [op] and [stack_delta]; [illegal] is the last entry. *)
(* @src src/src/engine/opcode.cc 61-223 instr_table *)
Definition instr_table : list (Opcode * Z) :=
  [
    (nop, 0); (comment, 0); (debug_ref, 0); (loadV, 1); (loadVu, 1); (loadVi, 0); (floadV, 0); (floadVu, 0);
    (xload8, -1); (xloadR, -1); (xloadV, -1); (xloadVu, -1); (mloadV, 0); (mindexV, -1); (mindexVu, -1);
    (sload8, -2); (sloadR, -2); (sloadV, -2); (storeV, -1); (storeVi, -2); (undefine, 0); (openO, -1);
    (fstoreV, -2); (fclearB, -1); (fsetB, 0); (ftestB, 0); (xstore8, -3); (xstoreR, -3); (xstoreV, -3);
    (minsertV, 0); (mstoreV, -3); (sstoreV, -4); (inc64, 0); (finc64, -1); (xinc8, -2); (xincR, -2);
    (xinc64, -2); (minc64, -2); (push8, 1); (pushV, 1); (createB, 1); (newB, -1); (createStr, 1);
    (newStr, -1); (createT, 1); (initT, 0); (createA, 1); (initA, 0); (newA, -1); (createM, 1); (initM, 0);
    (newM, 0); (createC, 0); (dupV, 1); (popV, -1); (and_bool, -1); (or_bool, -1); (add_int, -1);
    (sub_int, -1); (mul_int, -1); (div_int, -1); (mod_int, -1); (add_uint, -1); (sub_uint, -1);
    (mul_uint, -1); (div_uint, -1); (mod_uint, -1); (add_float, -1); (sub_float, -1); (mul_float, -1);
    (div_float, -1); (add_fpr, -1); (add_array, -1); (add_bytes, -1); (add_string, -1); (add_time, -1);
    (sub_time, -1); (shl_int, -1); (shr_int, -1); (and_int, -1); (or_int, -1); (xor_int, -1); (shl_uint, -1);
    (shr_uint, -1); (and_uint, -1); (or_uint, -1); (xor_uint, -1); (set_cc, -1); (get_cc, 1); (cmp_begin, 0);
    (eql_bits, -2); (neq_bits, -2); (lss_bits, -2); (leq_bits, -2); (gtr_bits, -2); (geq_bits, -2);
    (eql_float, -2); (neq_float, -2); (lss_float, -2); (leq_float, -2); (gtr_float, -2); (geq_float, -2);
    (lss_int, -2); (leq_int, -2); (gtr_int, -2); (geq_int, -2); (eql_string, -2); (neq_string, -2);
    (lss_string, -2); (leq_string, -2); (gtr_string, -2); (geq_string, -2); (eql_bytes, -2); (neq_bytes, -2);
    (lss_bytes, -2); (leq_bytes, -2); (gtr_bytes, -2); (geq_bytes, -2); (eql_array, -2); (neq_array, -2);
    (eql_map, -2); (neq_map, -2); (eql_tuple, -2); (neq_tuple, -2); (eql_closure, -2); (neq_closure, -2);
    (cmp_end, 0); (basicconv, 0); (arrayconv, 0); (mapconv, 0); (branch, 0); (branch_true, 0);
    (branch_false, 0); (trap_false, 0); (enter, 0); (set_bp, 0); (callc, 0); (callcnf, 0); (call, -1);
    (calli, 0); (match_, 0); (matchposns, 0); (matchstrs, 0); (saw, 0); (ret, 0); (retV, -1); (retU, 0);
    (terminate, 0); (stop, 0); (emit, 0); (fd_print, 1); (count, 0); (illegal, 0)
  ].

(** The loop of [index]: the first entry for the opcode, or the last. *)
(* @src src/src/engine/opcode.cc 238-244 index *)
Fixpoint find_instr (table : list (Opcode * Z)) (op : Opcode) : option (Opcode * Z) :=
  match table with
  | [] => None
  | [last] => Some last
  | entry :: table => if decide (entry.1 = op) then Some entry else find_instr table op
  end.

(* @src src/src/engine/opcode.cc 247-256 StackDelta *)
Definition StackDelta (op : Opcode) : Z := from_option snd 0 (find_instr instr_table op).

(* @src src/src/engine/opcode.cc 227-229 SetsCC *)
Definition SetsCC (op : Opcode) : bool :=
  bool_decide (op = set_cc) || ((op_number cmp_begin <? op_number op) && (op_number op <? op_number cmp_end)).

(* @src src/src/engine/opcode.cc 232-235 UsesCC *)
Definition UsesCC (op : Opcode) : bool :=
  bool_decide (op = get_cc) || bool_decide (op = branch_true) || bool_decide (op = branch_false) || bool_decide (op = trap_false).

(** The comparison opcodes lie between the two markers. *)
Definition is_compare (op : Opcode) : bool := SetsCC op && negb (bool_decide (op = set_cc)).
