(* ===== verification/TaggedInts.v ===== *)
(** * Tagged integers: engine/taggedptrs.h, engine/taggedptrs.cc

    A pointer to a value is a 64-bit word. An integer of 62 bits is the word
    itself, with the tag 1 in its two low bits; a bigger one is an object that the
    word points to. Objects are 8-byte aligned. *)
From Stdlib Require Import ZArith Lia.
From stdpp Require Import prelude.
From S2P Require Import Prelude.

Local Open Scope Z_scope.

(* @src src/src/engine/taggedptrs.h 30-31 TaggedInts::ntag_bits *)
Definition ntag_bits : Z := 2.
(* @src src/src/engine/taggedptrs.h 33-33 TaggedInts::tag_mask *)
Definition tag_mask : Z := Z.shiftl 1 ntag_bits - 1.
(* @src src/src/engine/taggedptrs.h 37-37 TaggedInts::smi_tag *)
Definition smi_tag : Z := 1.

(** The integer objects in the order of their allocation; the [n]-th lies at
    address [8 * (n + 1)]. *)
Abbreviation int_heap := (list Z).

(* @src src/src/engine/taggedptrs.h 61-63 TaggedInts::is_smi *)
Definition is_smi (x : Z) : bool := Z.land x tag_mask =? smi_tag.

(** [(static_cast<smi>(x) << ntag_bits) >> ntag_bits == x] *)
(* @src src/src/engine/taggedptrs.h 65-68 TaggedInts::fits_smi *)
Definition fits_smi (x : Z) : bool := Z.shiftr (s64 (Z.shiftl x ntag_bits)) ntag_bits =? x.

(* @src src/src/engine/taggedptrs.h 74-77 TaggedInts::MakeVal *)
Definition MakeVal (x : Z) : Z := Z.lor (s64 (Z.shiftl x ntag_bits)) smi_tag.

(* @src src/src/engine/taggedptrs.h 53-55 TaggedInts::is_zero *)
Definition is_zero (x : Z) : bool := x =? MakeVal 0.

(* @src src/src/engine/taggedptrs.h 83-87 TaggedInts::as_smi *)
Definition as_smi (x : Z) : Z := Z.shiftr x ntag_bits.

(** A word that points to no integer object is [Fatal]. *)
(* @src src/src/engine/taggedptrs.cc 36-39 TaggedInts::as_int_internal *)
Definition as_int_internal (h : int_heap) (x : Z) : res Z :=
  if (x mod 8 =? 0) && (8 <=? x) then match h !! Z.to_nat (x / 8 - 1) with Some v => Ok v | None => Fatal end else Fatal.

(* @src src/src/engine/taggedptrs.h 89-91 TaggedInts::as_int *)
Definition as_int (h : int_heap) (x : Z) : res Z := if is_smi x then Ok (as_smi x) else as_int_internal h x.

(* @src src/src/engine/taggedptrs.cc 41-43 TaggedInts::as_Val_internal *)
Definition as_Val_internal (h : int_heap) (x : Z) : Z * int_heap := (8 * (Z.of_nat (length h) + 1), h ++ [x]).

(* @src src/src/engine/taggedptrs.h 93-95 TaggedInts::as_Val *)
Definition as_Val (h : int_heap) (x : Z) : Z * int_heap := if fits_smi x then (MakeVal x, h) else as_Val_internal h x.

(** Signed overflow wraps around. *)
(* @src src/src/engine/taggedptrs.h 101-104 TaggedInts::Inc *)
Definition Inc (h : int_heap) (x delta : Z) : res (Z * int_heap) := a ← as_int h x; Ok (as_Val h (s64 (a + delta))).

(** The 64-bit build: the case of [_LP64] undefined is not compiled. *)
(* @src src/src/engine/taggedptrs.h 106-116 TaggedInts::Add *)
Definition Add (h : int_heap) (x y : Z) : res (Z * int_heap) :=
  a ← as_int h x; b ← as_int h y; Ok (as_Val h (s64 (a + b))).

(* @src src/src/engine/taggedptrs.h 118-126 TaggedInts::Sub *)
Definition Sub (h : int_heap) (x y : Z) : res (Z * int_heap) :=
  let slow := a ← as_int h x; b ← as_int h y; Ok (as_Val h (s64 (a - b))) in
  if is_smi x && is_smi y then
    let r := s64 (as_smi x - as_smi y) in
    if fits_smi r then Ok (MakeVal r, h) else slow
  else slow.

(* @src src/src/engine/taggedptrs.h 128-132 TaggedInts::Mul *)
Definition Mul (h : int_heap) (x y : Z) : res (Z * int_heap) :=
  a ← as_int h x; b ← as_int h y; Ok (as_Val h (s64 (a * b))).

(** C++ division of [int64]: the machine traps on the quotient 2^63. *)
Definition int_quot (a b : Z) : res Z := if (b =? 0) || ((a =? - 2 ^ 63) && (b =? -1)) then Fatal else Ok (Z.quot a b).
Definition int_rem (a b : Z) : res Z := if (b =? 0) || ((a =? - 2 ^ 63) && (b =? -1)) then Fatal else Ok (Z.rem a b).

(** [NULL] is [Fail]. *)
(* @src src/src/engine/taggedptrs.h 134-140 TaggedInts::Div *)
Definition Div (h : int_heap) (x y : Z) : res (Z * int_heap) :=
  if is_zero y then Fail
  else a ← as_int h x; b ← as_int h y; q ← int_quot a b; Ok (as_Val h q).

(* @src src/src/engine/taggedptrs.h 142-149 TaggedInts::Rem *)
Definition Rem (h : int_heap) (x y : Z) : res (Z * int_heap) :=
  if is_zero y then Fail
  else a ← as_int h x; b ← as_int h y; r ← int_rem a b; Ok (as_Val h r).

(* @src src/src/engine/taggedptrs.h 154-159 TaggedInts::Lss *)
Definition Lss (h : int_heap) (x y : Z) : res bool :=
  if is_smi x && is_smi y then Ok (x <? y)
  else a ← as_int h x; b ← as_int h y; Ok (a <? b).

(** ** What the words mean *)

(** The objects are those integers that do not fit a word, of 64 bits. *)
Definition heap_ok (h : int_heap) : Prop := Forall (fun v => is_s64 v /\ fits_smi v = false) h.

(** The word [x] stands for the integer [v]. *)
Definition denotes (h : int_heap) (x v : Z) : Prop :=
  (is_smi x = true /\ is_s64 x /\ v = as_smi x) \/ (is_smi x = false /\ as_int_internal h x = Ok v).

Ltac Zify.zify_post_hook ::= Z.div_mod_to_equations.

Lemma is_smi_mod x : is_smi x = (x mod 4 =? 1).
Proof. unfold is_smi, tag_mask, smi_tag, ntag_bits. change (Z.shiftl 1 2 - 1) with (Z.ones 2). by rewrite Z.land_ones. Qed.

Lemma fits_smi_range x : is_s64 x -> fits_smi x = bool_decide (- 2 ^ 61 <= x < 2 ^ 61).
Proof.
  intros H. unfold is_s64 in H. unfold fits_smi, s64, ntag_bits. rewrite Z.shiftl_mul_pow2, Z.shiftr_div_pow2 by lia.
  case_bool_decide; lia.
Qed.

Lemma MakeVal_eq x : - 2 ^ 61 <= x < 2 ^ 61 -> MakeVal x = 4 * x + 1.
Proof.
  intros H. unfold MakeVal, ntag_bits, smi_tag. rewrite Z.shiftl_mul_pow2 by lia. rewrite s64_id by (unfold is_s64; lia).
  rewrite (lor_shift_add x 1 2) by lia. lia.
Qed.

Lemma MakeVal_smi x : - 2 ^ 61 <= x < 2 ^ 61 -> is_smi (MakeVal x) = true /\ is_s64 (MakeVal x) /\ as_smi (MakeVal x) = x.
Proof.
  intros H. rewrite (MakeVal_eq x H), is_smi_mod. unfold is_s64, as_smi, ntag_bits. rewrite Z.shiftr_div_pow2 by lia.
  change (2 ^ 2) with 4. repeat split; lia.
Qed.

Lemma as_smi_range x : is_s64 x -> is_smi x = true -> - 2 ^ 61 <= as_smi x < 2 ^ 61 /\ x = 4 * as_smi x + 1.
Proof.
  intros H. rewrite is_smi_mod. unfold is_s64 in H. unfold as_smi, ntag_bits. rewrite Z.shiftr_div_pow2 by lia.
  change (2 ^ 2) with 4. split; lia.
Qed.

Lemma as_int_internal_ok h x v : heap_ok h -> as_int_internal h x = Ok v -> is_s64 v /\ fits_smi v = false.
Proof.
  unfold as_int_internal. intros Hh. destruct (_ && _); [|done]. destruct (h !! _) as [w|] eqn:E; [|done].
  intros [= <-]. exact (Forall_lookup_1 _ _ _ _ Hh E).
Qed.

Lemma denotes_as_int h x v : denotes h x v -> as_int h x = Ok v.
Proof. unfold as_int. intros [(-> & _ & ->)|(-> & H)]; done. Qed.

Lemma denotes_range h x v : heap_ok h -> denotes h x v -> is_s64 v.
Proof.
  intros Hh [(Hx & Hr & ->)|(_ & H)]; [|exact (proj1 (as_int_internal_ok _ _ _ Hh H))].
  pose proof (proj1 (as_smi_range x Hr Hx)). unfold is_s64. lia.
Qed.

(** Exactly the integers of 62 bits are words. *)
Lemma denotes_smi h x v : heap_ok h -> denotes h x v -> is_smi x = fits_smi v.
Proof.
  intros Hh [(Hx & Hr & ->)|(Hx & H)]; rewrite Hx.
  - pose proof (proj1 (as_smi_range x Hr Hx)). rewrite fits_smi_range by (unfold is_s64; lia). symmetry. by apply bool_decide_eq_true.
  - by rewrite (proj2 (as_int_internal_ok _ _ _ Hh H)).
Qed.

Lemma as_Val_internal_ok h v : as_int_internal (h ++ [v]) (8 * (Z.of_nat (length h) + 1)) = Ok v.
Proof.
  unfold as_int_internal. rewrite (Z.mul_comm 8), Z_mod_mult, Z_div_mult by lia.
  replace (8 <=? (Z.of_nat (length h) + 1) * 8) with true by (symmetry; apply Z.leb_le; lia). cbn [andb Z.eqb].
  replace (Z.to_nat (Z.of_nat (length h) + 1 - 1)) with (length h) by lia.
  by rewrite list_lookup_middle.
Qed.

Lemma as_int_internal_app h h' x v : as_int_internal h x = Ok v -> as_int_internal (h ++ h') x = Ok v.
Proof.
  unfold as_int_internal. destruct (_ && _); [|done]. destruct (h !! _) as [w|] eqn:E; [|done].
  by rewrite (lookup_app_l_Some _ _ _ _ E).
Qed.

Lemma denotes_app h h' x v : denotes h x v -> denotes (h ++ h') x v.
Proof. intros [H|(H1 & H2)]; [by left|right; split; [done|by apply as_int_internal_app]]. Qed.

(** Making a value of an integer: the heap grows at most, and stays normalised. *)
Lemma as_Val_ok h v :
  heap_ok h -> is_s64 v ->
  exists w h', as_Val h v = (w, h ++ h') /\ heap_ok (h ++ h') /\ denotes (h ++ h') w v /\ is_smi w = fits_smi v.
Proof.
  intros Hh Hv. unfold as_Val. destruct (fits_smi v) eqn:E.
  - rewrite fits_smi_range in E by done. apply bool_decide_eq_true in E. destruct (MakeVal_smi v E) as (H1 & H2 & H3).
    exists (MakeVal v), []. rewrite app_nil_r, H1. repeat (split; [done|]). split; [left; rewrite H3; done|done].
  - assert (is_smi (8 * (Z.of_nat (length h) + 1)) = false) as Hs by (rewrite is_smi_mod; lia).
    exists (8 * (Z.of_nat (length h) + 1)), [v]. repeat split.
    + apply Forall_app. split; [done|]. apply Forall_singleton. by split.
    + right. split; [done|]. apply as_Val_internal_ok.
    + done.
Qed.

Lemma is_zero_iff h x v : heap_ok h -> denotes h x v -> is_zero x = (v =? 0).
Proof.
  intros Hh Hd. pose proof (denotes_smi h x v Hh Hd) as Hs. pose proof (denotes_range h x v Hh Hd) as Hr.
  unfold is_zero. rewrite (MakeVal_eq 0) by lia. destruct Hd as [(Hx & Hx64 & ->)|(Hx & H)].
  - destruct (as_smi_range x Hx64 Hx). lia.
  - rewrite fits_smi_range in Hs by done. rewrite Hx in Hs. symmetry in Hs. apply bool_decide_eq_false in Hs.
    rewrite is_smi_mod in Hx. lia.
Qed.

Lemma Lss_ok h x y a b : heap_ok h -> denotes h x a -> denotes h y b -> Lss h x y = Ok (a <? b).
Proof.
  intros Hh Hx Hy. unfold Lss. rewrite (denotes_as_int _ _ _ Hx), (denotes_as_int _ _ _ Hy).
  destruct (is_smi x) eqn:Ex, (is_smi y) eqn:Ey; cbn [andb]; [|reflexivity..].
  destruct Hx as [(_ & Hx & ->)|(Hx & _)]; [|congruence]. destruct Hy as [(_ & Hy & ->)|(Hy & _)]; [|congruence].
  destruct (as_smi_range x Hx Ex), (as_smi_range y Hy Ey). f_equal. lia.
Qed.

(** The result [r] of an operation: a word for the integer [v], in a heap that
    has grown at most. *)
Definition returns (h : int_heap) (r : res (Z * int_heap)) (v : Z) : Prop :=
  exists w h', r = Ok (w, h ++ h') /\ heap_ok (h ++ h') /\ denotes (h ++ h') w v.

Lemma as_Val_returns h v : heap_ok h -> is_s64 v -> returns h (Ok (as_Val h v)) v.
Proof. intros Hh Hv. destruct (as_Val_ok h v Hh Hv) as (w & h' & -> & H1 & H2 & _). by exists w, h'. Qed.

Lemma Sub_returns h x y a b : heap_ok h -> denotes h x a -> denotes h y b -> returns h (Sub h x y) (s64 (a - b)).
Proof.
  intros Hh Hx Hy. unfold Sub.
  assert (returns h (a0 ← as_int h x; b0 ← as_int h y; Ok (as_Val h (s64 (a0 - b0)))) (s64 (a - b))) as Hslow.
  { rewrite (denotes_as_int _ _ _ Hx), (denotes_as_int _ _ _ Hy). apply as_Val_returns; [done|apply s64_range]. }
  destruct (is_smi x && is_smi y) eqn:E; [|done]. apply andb_true_iff in E as (Ex & Ey). cbv zeta.
  destruct Hx as [(_ & Hx & ->)|(Hx & _)]; [|congruence]. destruct Hy as [(_ & Hy & ->)|(Hy & _)]; [|congruence].
  destruct (fits_smi _) eqn:Ef; [|done]. rewrite fits_smi_range in Ef by apply s64_range. apply bool_decide_eq_true in Ef.
  destruct (MakeVal_smi _ Ef) as (H1 & H2 & H3). eexists _, []. rewrite app_nil_r. split; [done|]. split; [done|]. left. by rewrite H3.
Qed.

Lemma int_quot_range a b q : is_s64 a -> is_s64 b -> int_quot a b = Ok q -> is_s64 q.
Proof.
  unfold int_quot. intros Ha Hb. destruct (_ || _) eqn:E; [done|]. intros [= <-]. apply orb_false_iff in E as (E1 & E2).
  unfold is_s64 in *. apply Z.eqb_neq in E1.
  assert (Z.abs (Z.quot a b) <= Z.abs a) as Hq.
  { rewrite <- Z.quot_abs by done. apply Z.quot_le_upper_bound; [lia|]. nia. }
  destruct (decide (Z.quot a b = 2 ^ 63)) as [Hq'|]; [|lia].
  exfalso. assert (a = - 2 ^ 63) as -> by lia. assert (b <> -1) as Hb1 by lia.
  assert (Z.abs b = 1 \/ 2 <= Z.abs b) as [Hb2|Hb2] by lia.
  - assert (b = 1) as -> by lia. rewrite Z.quot_1_r in Hq'. lia.
  - assert (Z.abs (Z.quot (- 2 ^ 63) b) <= 2 ^ 62) as H; [|lia].
    rewrite <- Z.quot_abs by done. apply Z.quot_le_upper_bound; [lia|]. change (Z.abs (- 2 ^ 63)) with (2 ^ 63). nia.
Qed.

Lemma int_rem_range a b r : is_s64 a -> is_s64 b -> int_rem a b = Ok r -> is_s64 r.
Proof.
  unfold int_rem. intros Ha Hb. destruct (_ || _) eqn:E; [done|]. intros [= <-]. apply orb_false_iff in E as (E1 & _).
  apply Z.eqb_neq in E1. pose proof (Z.rem_bound_abs a b E1). unfold is_s64 in *. lia.
Qed.

(** C37. Integer arithmetic on tagged words is arithmetic on 64-bit integers: on
    words that stand for [a] and [b], in a heap where only integers that do not
    fit a word are objects, every operation returns a word that stands for the
    wrapped result and keeps the heap so, and comparison agrees. Division and
    remainder report a zero divisor, whichever way it is written; of the smallest
    integer by -1 they are beyond the machine, which traps; and otherwise they
    return the quotient rounded towards zero and its remainder. *)
Theorem tagged_arithmetic h x y a b :
  heap_ok h -> denotes h x a -> denotes h y b ->
  returns h (Add h x y) (s64 (a + b)) /\ returns h (Sub h x y) (s64 (a - b)) /\ returns h (Mul h x y) (s64 (a * b))
  /\ (forall d, returns h (Inc h x d) (s64 (a + d)))
  /\ (b = 0 -> Div h x y = Fail /\ Rem h x y = Fail)
  /\ (a = - 2 ^ 63 /\ b = -1 -> Div h x y = Fatal /\ Rem h x y = Fatal)
  /\ (b <> 0 -> ~ (a = - 2 ^ 63 /\ b = -1) -> returns h (Div h x y) (Z.quot a b) /\ returns h (Rem h x y) (Z.rem a b))
  /\ Lss h x y = Ok (a <? b).
Proof.
  intros Hh Hx Hy. pose proof (is_zero_iff h y b Hh Hy) as Hz.
  pose proof (denotes_range h x a Hh Hx) as Ha. pose proof (denotes_range h y b Hh Hy) as Hb.
  unfold Add, Mul, Inc, Div, Rem. rewrite (denotes_as_int _ _ _ Hx), (denotes_as_int _ _ _ Hy), Hz. cbn [mbind res_bind].
  split; [apply as_Val_returns; [done|apply s64_range]|]. split; [by apply Sub_returns|].
  split; [apply as_Val_returns; [done|apply s64_range]|].
  split; [intros d; apply as_Val_returns; [done|apply s64_range]|].
  split; [by intros ->|].
  split; [by intros (-> & ->)|]. split; [|by apply Lss_ok].
  intros Hb0 Hmin. rewrite (proj2 (Z.eqb_neq b 0) Hb0). assert ((b =? 0) || ((a =? - 2 ^ 63) && (b =? -1)) = false) as E by lia.
  assert (int_quot a b = Ok (Z.quot a b) /\ int_rem a b = Ok (Z.rem a b)) as (Eq & Er) by (unfold int_quot, int_rem; by rewrite E). rewrite Eq, Er.
  split; apply as_Val_returns; [done|by apply (int_quot_range a b)|done|by apply (int_rem_range a b)].
Qed.

(** The biggest 62-bit integer, 5 as a word, plus one as an object. *)
Lemma tagged_arithmetic_witness :
  exists w h', Add [] (MakeVal (2 ^ 61 - 1)) 21 = Ok (w, h') /\ denotes h' w (2 ^ 61 + 4) /\ is_smi w = false.
Proof.
  assert (denotes [] (MakeVal (2 ^ 61 - 1)) (2 ^ 61 - 1)) as H1 by (left; vm_compute; repeat split; congruence).
  assert (denotes [] 21 5) as H2 by (left; vm_compute; repeat split; congruence).
  destruct (tagged_arithmetic [] (MakeVal (2 ^ 61 - 1)) 21 (2 ^ 61 - 1) 5 (Forall_nil_2 _) H1 H2) as ((w & h' & E & _ & Hd) & _).
  exists w, ([] ++ h'). split; [exact E|]. split; [exact Hd|]. vm_compute in E. injection E as <- _. reflexivity.
Defined.
