(* ===== verification/Arith.v ===== *)
(** * Instructions on values: engine/engine.cc

    What the arithmetic and comparison instructions of [Engine::Execute] compute
    from the two values they pop, [x] pushed before [y]. [Fail] is a trap; an
    operand of another type fails an assertion or is undefined: [Fatal].
    Integers are the tagged integers of TaggedInts.v, given by their values. *)
From Stdlib Require Import ZArith Lia.
From stdpp Require Import prelude.
From S2P Require Import Prelude Double Hashing SzlMap Forms Opcodes TaggedInts.

Local Open Scope Z_scope.

(* @src src/src/engine/engine.cc 983-995 Engine::Execute *)
Definition bool_arith (op : Opcode) (x y : bool) : res Val :=
  match op with
  | and_bool => Ok (VBool (x && y))
  | or_bool => Ok (VBool (x || y))
  | _ => Fatal
  end.

(** Overflow wraps around; shifts use six bits of the count, and a right shift is
    logical. *)
(* @src src/src/engine/engine.cc 997-1088 Engine::Execute *)
Definition int_arith (op : Opcode) (x y : Z) : res Val :=
  match op with
  | add_int => Ok (VInt (s64 (x + y)))
  | sub_int => Ok (VInt (s64 (x - y)))
  | mul_int => Ok (VInt (s64 (x * y)))
  | div_int => if y =? 0 then Fail else q ← int_quot x y; Ok (VInt q)
  | mod_int => if y =? 0 then Fail else r ← int_rem x y; Ok (VInt r)
  | shl_int => Ok (VInt (s64 (Z.shiftl x (Z.land y 63))))
  | shr_int => Ok (VInt (s64 (Z.shiftr (u64 x) (Z.land (u64 y) 63))))
  | and_int => Ok (VInt (Z.land x y))
  | or_int => Ok (VInt (Z.lor x y))
  | xor_int => Ok (VInt (Z.lxor x y))
  | _ => Fatal
  end.

(* @src src/src/engine/engine.cc 1090-1167 Engine::Execute *)
Definition uint_arith (op : Opcode) (x y : Z) : res Val :=
  match op with
  | add_uint => Ok (VUInt (u64 (x + y)))
  | sub_uint => Ok (VUInt (u64 (x - y)))
  | mul_uint => Ok (VUInt (u64 (x * y)))
  | div_uint => if y =? 0 then Fail else Ok (VUInt (x / y))
  | mod_uint => if y =? 0 then Fail else Ok (VUInt (x mod y))
  | shl_uint => Ok (VUInt (u64 (Z.shiftl x (Z.land y 63))))
  | shr_uint => Ok (VUInt (Z.shiftr x (Z.land y 63)))
  | and_uint => Ok (VUInt (Z.land x y))
  | or_uint => Ok (VUInt (Z.lor x y))
  | xor_uint => Ok (VUInt (Z.lxor x y))
  | _ => Fatal
  end.

(** [y == 0.0] holds of both zeros. *)
(* @src src/src/engine/engine.cc 1169-1199 Engine::Execute *)
Definition float_arith (op : Opcode) (x y : Z) : res Val :=
  match op with
  | add_float => Ok (VFloat (f64_add x y))
  | sub_float => Ok (VFloat (f64_sub x y))
  | mul_float => Ok (VFloat (f64_mul x y))
  | div_float => if f64_eqb y 0 then Fail else Ok (VFloat (f64_div x y))
  | _ => Fatal
  end.

(* @src src/src/engine/engine.cc 1264-1276 Engine::Execute *)
Definition time_arith (op : Opcode) (x y : Z) : res Val :=
  match op with
  | add_time => Ok (VTime (u64 (x + y)))
  | sub_time => Ok (VTime (u64 (x - y)))
  | _ => Fatal
  end.

(* @src src/src/engine/engine.cc 1201-1262 Engine::Execute *)
Definition concat_arith (op : Opcode) (x y : Val) : res Val :=
  match op, x, y with
  | add_fpr, VFpr x, VFpr y => Ok (VFpr (FingerprintCat x y))
  | add_array, VArray x, VArray y => Ok (VArray (x ++ y))
  | add_bytes, VBytes x, VBytes y => Ok (VBytes (x ++ y))
  | add_string, VString x, VString y => Ok (VString (x ++ y))
  | _, _, _ => Fatal
  end.

(* @src src/src/engine/engine.cc 983-1088 Engine::Execute *)
Definition arith (op : Opcode) (x y : Val) : res Val :=
  match x, y with
  | VBool x, VBool y => bool_arith op x y
  | VInt x, VInt y => int_arith op x y
  | VUInt x, VUInt y => uint_arith op x y
  | VFloat x, VFloat y => float_arith op x y
  | VTime x, VTime y => time_arith op x y
  | x, y => concat_arith op x y
  end.

(** The 64 bits of a value of a basic type. *)
(* @src src/src/engine/val.cc 49-51 Val::basic64 *)
Definition basic64 (v : Val) : res Z :=
  match v with
  | VBool b => Ok (Z.b2z b)
  | VInt i => Ok (u64 i)
  | VUInt u | VFpr u | VFloat u | VTime u => Ok u
  | _ => Fatal
  end.

(** [uint64] comparisons of the bits. *)
(* @src src/src/engine/engine.cc 1292-1332 Engine::Execute *)
Definition compare_bits (op : Opcode) (x y : Val) : res bool :=
  x ← basic64 x; y ← basic64 y;
  match op with
  | eql_bits => Ok (x =? y)
  | neq_bits => Ok (negb (x =? y))
  | lss_bits => Ok (x <? y)
  | leq_bits => Ok (x <=? y)
  | gtr_bits => Ok (y <? x)
  | geq_bits => Ok (y <=? x)
  | _ => Fatal
  end.

(* @src src/src/engine/engine.cc 1334-1374 Engine::Execute *)
Definition compare_float (op : Opcode) (x y : Z) : res bool :=
  match op with
  | eql_float => Ok (f64_eqb x y)
  | neq_float => Ok (negb (f64_eqb x y))
  | lss_float => Ok (f64_ltb x y)
  | leq_float => Ok (f64_ltb x y || f64_eqb x y)
  | gtr_float => Ok (f64_ltb y x)
  | geq_float => Ok (f64_ltb y x || f64_eqb y x)
  | _ => Fatal
  end.

(* @src src/src/engine/engine.cc 1376-1410 Engine::Execute *)
Definition compare_int (op : Opcode) (x y : Z) : res bool :=
  match op with
  | lss_int => Ok (x <? y)
  | leq_int => Ok (negb (y <? x))
  | gtr_int => Ok (y <? x)
  | geq_int => Ok (negb (x <? y))
  | _ => Fatal
  end.

(** [cmp_string] and [cmp_bytes]: [memcmp] over the shorter length, then the
    difference of the lengths. *)
(* @src src/src/engine/engine.cc 146-154 cmp_string *)
Definition cmp_string (x y : bytes) : comparison := cmp_prefix x y.
(* @src src/src/engine/engine.cc 157-161 eq_string *)
Definition eq_string (x y : bytes) : bool := same_bytes x y.

(* @src src/src/engine/engine.cc 1412-1464 Engine::Execute *)
Definition compare_string (op : Opcode) (x y : bytes) : res bool :=
  match op with
  | eql_string => Ok (eq_string x y)
  | neq_string => Ok (negb (eq_string x y))
  | lss_string => Ok (bool_decide (cmp_string x y = Lt))
  | leq_string => Ok (bool_decide (cmp_string x y <> Gt))
  | gtr_string => Ok (bool_decide (cmp_string x y = Gt))
  | geq_string => Ok (bool_decide (cmp_string x y <> Lt))
  | _ => Fatal
  end.

(* @src src/src/engine/engine.cc 1466-1518 Engine::Execute *)
Definition compare_bytes (op : Opcode) (x y : bytes) : res bool :=
  match op with
  | eql_bytes => Ok (eq_string x y)
  | neq_bytes => Ok (negb (eq_string x y))
  | lss_bytes => Ok (bool_decide (cmp_string x y = Lt))
  | leq_bytes => Ok (bool_decide (cmp_string x y <> Gt))
  | gtr_bytes => Ok (bool_decide (cmp_string x y = Gt))
  | geq_bytes => Ok (bool_decide (cmp_string x y <> Lt))
  | _ => Fatal
  end.

(** Arrays and tuples are only compared for equality. *)
(* @src src/src/engine/engine.cc 1520-1572 Engine::Execute *)
Definition compare_composite (op : Opcode) (x y : Val) : res bool :=
  match op, x, y with
  | eql_array, VArray _, VArray _ | eql_tuple, VTuple _, VTuple _ => Ok (val_IsEqual x y)
  | neq_array, VArray _, VArray _ | neq_tuple, VTuple _, VTuple _ => Ok (negb (val_IsEqual x y))
  | _, _, _ => Fatal
  end.

(** Which of the comparisons an opcode is. *)
Definition bits_op (op : Opcode) : bool := (op_number eql_bits <=? op_number op) && (op_number op <=? op_number geq_bits).

(* @src src/src/engine/engine.cc 1292-1410 Engine::Execute *)
Definition compare (op : Opcode) (x y : Val) : res bool :=
  if bits_op op then compare_bits op x y
  else
    match x, y with
    | VFloat x, VFloat y => compare_float op x y
    | VInt x, VInt y => compare_int op x y
    | VString x, VString y => compare_string op x y
    | VBytes x, VBytes y => compare_bytes op x y
    | x, y => compare_composite op x y
    end.

(** [as_bool()->val()]. *)
Definition as_bool (v : Val) : res bool := match v with VBool b => Ok b | _ => Fatal end.
