(* ===== verification/Interp.v ===== *)
(** * The interpreter: engine/engine.cc, engine/engine.h, engine/code.h, engine/code.cc, Proc::HandleTrap of engine/proc.cc

    The byte code, the stack with its frames, the effect of every instruction that
    the code generator emits for expressions and statements over values that are
    not changed in place, the search for the trap range of an instruction, and
    what is done about a trap. The build without assertions is modelled. *)
From Stdlib Require Import ZArith Lia.
From stdpp Require Import prelude strings.
From S2P Require Import Prelude Forms Opcodes TaggedInts Arith.

Local Open Scope Z_scope.

(** ** Code *)

(** A byte of code: an opcode, the first byte of an operand of the width named,
    standing for the whole operand, or a further byte of one. Pointers to values
    and to messages are operands of 8 bytes. *)
Inductive cell : Type :=
| COp (op : Opcode)
| CPad
| CInt8 (x : Z)
| CUInt8 (x : Z)
| CInt16 (x : Z)
| CInt32 (x : Z)
| CPcoff (x : Z)
| CVal (v : Val)
| CMsg (msg : string).

(** The variable to undefine, by index and distance of its frame; index 0 is
    [NO_INDEX]. [super_] and the trap ranges name descriptors by their number. *)
(* @src src/src/engine/code.h 100-111 TrapDesc (data members) *)
Record TrapDesc := MkTrap {
  begin_ : Z; end_ : Z; target_ : Z; stack_height_ : nat; var_index_ : Z; var_delta_ : nat; is_silent_ : bool;
  var_traps_ : list Z; super_ : option nat }.

(* @src src/src/engine/code.h 84-84 TrapDesc::contains *)
Definition contains (pos : Z) (t : TrapDesc) : bool := (begin_ t <=? pos) && (pos <? end_ t).

(** The code buffer, the descriptors, and the sorted list of trap ranges. *)
Record Code := MkCode { base_ : list cell; descs : list TrapDesc; trap_ranges_ : list nat }.

Definition begin_of (ds : list TrapDesc) (i : nat) : Z := from_option begin_ 0 (ds !! i).

(** [qsort] by the begin. C leaves the order of elements that compare equal open;
    this one keeps them as they were, as a merge sort does. For ranges that begin at
    different instructions there is only one order; [sorted_ranges] of TrapRanges.v
    says what the lookup needs of the others. *)
Fixpoint insert_range (ds : list TrapDesc) (i : nat) (l : list nat) : list nat :=
  match l with
  | [] => [i]
  | j :: l => if begin_of ds i <=? begin_of ds j then i :: j :: l else j :: insert_range ds i l
  end.
(* @src src/src/engine/utils.h 149-154 List::Sort *)
Definition Sort (ds : list TrapDesc) (l : list nat) : list nat := foldr (insert_range ds) [] l.

(* @src src/src/engine/utils.h 161-178 List::BinarySearch *)
Fixpoint search_range (fuel : nat) (ds : list TrapDesc) (l : list nat) (offs : Z) (low high : nat) : res nat :=
  if (high =? S low)%nat then Ok low
  else
    match fuel with
    | O => Fatal
    | S fuel =>
        let mid := ((high + low) / 2)%nat in
        if offs <? begin_of ds (l !!! mid) then search_range fuel ds l offs low mid else search_range fuel ds l offs mid high
    end.

(** The first range around, from the one given outwards, that has the position. *)
(* @src src/src/engine/code.cc 197-198 Code::TrapForInstr *)
Fixpoint enclosing (fuel : nat) (ds : list TrapDesc) (offs : Z) (i : option nat) : option nat :=
  match fuel, i with
  | S fuel, Some i =>
      match ds !! i with
      | None => None
      | Some d => if contains offs d then Some i else enclosing fuel ds offs (super_ d)
      end
  | _, _ => None
  end.

(* @src src/src/engine/code.cc 182-205 Code::TrapForInstr *)
Definition TrapForInstr (c : Code) (offs : Z) : res (option nat) :=
  match trap_ranges_ c with
  | [] => Ok None
  | l => i ← search_range (length l) (descs c) l offs 0 (length l);
         Ok (enclosing (S (length (descs c))) (descs c) offs (l !! i))
  end.

(** The cell at a position, and the operands, with the position after them. *)
Definition fetch (c : list cell) (pc : Z) : option cell := if pc <? 0 then None else c !! Z.to_nat pc.
(* @src src/src/engine/code.h 217-217 Code::uint8_at *)
Definition uint8_at (c : list cell) (pc : Z) : res (Z * Z) := match fetch c pc with Some (CUInt8 x) => Ok (x, pc + 1) | _ => Fatal end.
(* @src src/src/engine/code.h 218-218 Code::int8_at *)
Definition int8_at (c : list cell) (pc : Z) : res (Z * Z) := match fetch c pc with Some (CInt8 x) => Ok (x, pc + 1) | _ => Fatal end.
(* @src src/src/engine/code.h 219-219 Code::int16_at *)
Definition int16_at (c : list cell) (pc : Z) : res (Z * Z) := match fetch c pc with Some (CInt16 x) => Ok (x, pc + 2) | _ => Fatal end.
(* @src src/src/engine/code.h 220-220 Code::int32_at *)
Definition int32_at (c : list cell) (pc : Z) : res (Z * Z) := match fetch c pc with Some (CInt32 x) => Ok (x, pc + 4) | _ => Fatal end.
(* @src src/src/engine/code.h 221-221 Code::pcoff_at *)
Definition pcoff_at (c : list cell) (pc : Z) : res (Z * Z) := match fetch c pc with Some (CPcoff x) => Ok (x, pc + 4) | _ => Fatal end.
(* @src src/src/engine/code.h 222-222 Code::ptr_at *)
Definition msg_at (c : list cell) (pc : Z) : res (string * Z) := match fetch c pc with Some (CMsg m) => Ok (m, pc + 8) | _ => Fatal end.
(* @src src/src/engine/code.h 223-223 Code::val_at *)
Definition val_at (c : list cell) (pc : Z) : res (Val * Z) := match fetch c pc with Some (CVal v) => Ok (v, pc + 8) | _ => Fatal end.

(** ** The stack *)

(** A slot holds a value, [NULL] being [None], or a field of a frame. The stack is
    the list of its slots, the top first. A frame pointer is the number of slots
    up to the slot it points at, which is variable 0; 0 is [NULL]. *)
Inductive slot : Type :=
| SVal (v : option Val)
| SDynamic (fp : nat)
| SStatic (fp : nat)
| SReturn (pc : option Z).

Abbreviation stack := (list slot).

(** The slot at a height, counted from the bottom. *)
Definition slot_index (s : stack) (h : nat) : option nat := if (1 <=? h)%nat && (h <=? length s)%nat then Some (length s - h)%nat else None.
Definition slot_at (s : stack) (h : nat) : option slot := i ← slot_index s h; s !! i.
Definition set_slot (s : stack) (h : nat) (x : slot) : option stack := (fun i => <[i := x]> s) <$> slot_index s h.

(** [fp->at(i)] *)
(* @src src/src/engine/frame.h 167-167 Frame::at *)
Definition at_ (s : stack) (fp : nat) (i : Z) : res (option Val) :=
  if (0 <=? i) && (i <? Z.of_nat fp) then match slot_at s (fp - Z.to_nat i) with Some (SVal v) => Ok v | _ => Fatal end else Fatal.
Definition set_at (s : stack) (fp : nat) (i : Z) (v : option Val) : res stack :=
  if (0 <=? i) && (i <? Z.of_nat fp) then
    match slot_at s (fp - Z.to_nat i) with
    | Some (SVal _) => match set_slot s (fp - Z.to_nat i) (SVal v) with Some s => Ok s | None => Fatal end
    | _ => Fatal
    end
  else Fatal.

(** The fields lie just above the slot pointed at. *)
(* @src src/src/engine/frame.h 163-163 Frame::static_link *)
Definition dynamic_link (s : stack) (fp : nat) : res nat := match slot_at s (fp + 3) with Some (SDynamic p) => Ok p | _ => Fatal end.
Definition static_link (s : stack) (fp : nat) : res nat := match slot_at s (fp + 2) with Some (SStatic p) => Ok p | _ => Fatal end.
Definition return_pc_of (s : stack) (fp : nat) : res (option Z) := match slot_at s (fp + 1) with Some (SReturn p) => Ok p | _ => Fatal end.
(** [fp->stack()], as a height. *)
(* @src src/src/engine/frame.h 175-175 Frame::stack *)
Definition stack_of (fp : nat) : nat := fp + 3.

(* @src src/src/engine/engine.h 44-48 Engine::base *)
Fixpoint base (s : stack) (fp : nat) (delta : nat) : res nat :=
  match delta with
  | O => Ok fp
  | S delta => fp ← static_link s fp; base s fp delta
  end.

(** A value; [NULL] has no members to look at. *)
(* @src src/src/engine/engine.h 79-81 Engine::pop *)
Definition pop (s : stack) : res (Val * stack) := match s with SVal (Some v) :: s => Ok (v, s) | _ => Fatal end.
(* @src src/src/engine/engine.h 50-52 Engine::push *)
Definition push (s : stack) (v : Val) : stack := SVal (Some v) :: s.

(* @src src/src/engine/engine.h 73-77 Engine::push_frame *)
Definition push_frame (s : stack) (fp bp : nat) (pc : option Z) : stack * nat :=
  (SDynamic fp :: SStatic bp :: SReturn pc :: s, length s).

(** The stack without the parameters, the frame of the caller and its position. *)
(* @src src/src/engine/engine.h 170-183 Engine::pop_frame *)
Definition pop_frame (s : stack) (fp : nat) (locals : Z) : res (stack * nat * option Z) :=
  pc ← return_pc_of s fp;
  dl ← dynamic_link s fp;
  if (0 <=? locals) && (locals <=? Z.of_nat fp) && (fp <=? length s)%nat then
    Ok (drop (length s - (fp - Z.to_nat locals)) s, dl, pc)
  else Fatal.

(** ** States *)

(** What [trap_info_] says. *)
Inductive trap_msg : Type :=
| DivideByZero
| IndexOutOfBounds (index length : Z)
| GuardFailed (msg : string)
| StackOverflow
| Stopped (msg : string)
| UndefinedValue (comment : option nat).

(** The state of [Engine::Execute] and of the process: [failed_] is that the
    status was set to FAILED. *)
(* @src src/src/engine/engine.cc 236-240 Engine::Execute *)
Record state := MkState {
  fp_ : nat; stack_ : stack; pc_ : Z; cc_ : bool; bp_ : nat; return_pc_ : option Z;
  trap_info_ : option trap_msg; failed_ : bool; seen_undef_ : bool; undef_cnt_ : Z }.

Definition with_stack (s : stack) (m : state) : state :=
  MkState (fp_ m) s (pc_ m) (cc_ m) (bp_ m) (return_pc_ m) (trap_info_ m) (failed_ m) (seen_undef_ m) (undef_cnt_ m).
Definition with_pc (pc : Z) (m : state) : state :=
  MkState (fp_ m) (stack_ m) pc (cc_ m) (bp_ m) (return_pc_ m) (trap_info_ m) (failed_ m) (seen_undef_ m) (undef_cnt_ m).
Definition with_cc (cc : bool) (m : state) : state :=
  MkState (fp_ m) (stack_ m) (pc_ m) cc (bp_ m) (return_pc_ m) (trap_info_ m) (failed_ m) (seen_undef_ m) (undef_cnt_ m).
Definition with_bp (bp : nat) (m : state) : state :=
  MkState (fp_ m) (stack_ m) (pc_ m) (cc_ m) bp (return_pc_ m) (trap_info_ m) (failed_ m) (seen_undef_ m) (undef_cnt_ m).
Definition with_frame (fp : nat) (ret : option Z) (m : state) : state :=
  MkState fp (stack_ m) (pc_ m) (cc_ m) (bp_ m) ret (trap_info_ m) (failed_ m) (seen_undef_ m) (undef_cnt_ m).
Definition with_info (info : option trap_msg) (m : state) : state :=
  MkState (fp_ m) (stack_ m) (pc_ m) (cc_ m) (bp_ m) (return_pc_ m) info (failed_ m) (seen_undef_ m) (undef_cnt_ m).
(* @src src/src/engine/proc.h 203-203 Proc::set_error *)
Definition set_error (m : state) : state :=
  MkState (fp_ m) (stack_ m) (pc_ m) (cc_ m) (bp_ m) (return_pc_ m) (trap_info_ m) true (seen_undef_ m) (undef_cnt_ m).

(** After an instruction: go on, [goto trap_handler], or return TERMINATED. *)
Inductive outcome : Type :=
| Next (m : state)
| Trap (m : state)
| Done (m : state).

(** [break] out of the switch, which resets [bp]. *)
Definition brk (m : state) : res outcome := Ok (Next (with_bp (fp_ m) m)).
Definition trap (info : trap_msg) (m : state) : res outcome := Ok (Trap (with_info (Some info) m)).

(** Pop [y], then [x], and push what [f] makes of them; trap with [info] when it
    fails. *)
Definition binary (f : Val -> Val -> res Val) (m : state) : res outcome :=
  '(y, s) ← pop (stack_ m);
  '(x, s) ← pop s;
  match f x y with
  | Ok v => brk (with_stack (push s v) m)
  | Fail => trap DivideByZero (with_stack s m)
  | Fatal => Fatal
  end.

Definition comparison_ (f : Val -> Val -> res bool) (m : state) : res outcome :=
  '(y, s) ← pop (stack_ m);
  '(x, s) ← pop s;
  match f x y with
  | Ok b => brk (with_cc b (with_stack s m))
  | _ => Fatal
  end.

(** [pop] of an index and of what is indexed. *)
(* @src src/src/engine/engine.cc 412-421 Engine::Execute *)
Definition load_indexed (op : Opcode) (v i : Val) : res (Val + Z * Z) :=
  match op, v, i with
  | xloadV, VArray l, VInt i => Ok (match l !! Z.to_nat i with Some e => if 0 <=? i then inl e else inr (i, Z.of_nat (length l)) | None => inr (i, Z.of_nat (length l)) end)
  | xload8, VBytes l, VInt i => Ok (match l !! Z.to_nat i with Some e => if 0 <=? i then inl (VInt e) else inr (i, Z.of_nat (length l)) | None => inr (i, Z.of_nat (length l)) end)
  | _, _, _ => Fatal
  end.

(** [TaggedInts::Inc] on the value of a variable. *)
Definition inc_val (v : Val) (delta : Z) : res Val := match v with VInt i => Ok (VInt (s64 (i + delta))) | _ => Fatal end.

Section Engine.
Context (code : list cell) (limit : nat).

(** Instructions on variables; [bp] was set by [set_bp], or is [fp]. *)
(* @src src/src/engine/engine.cc 343-362 Engine::Execute *)
Definition exec_load (m : state) : res outcome :=
  '(i, pc) ← int16_at code (pc_ m);
  let m := with_pc pc m in
  v ← at_ (stack_ m) (bp_ m) i;
  match v with
  | None => Ok (Trap m)
  | Some v => brk (with_stack (push (stack_ m) v) m)
  end.

(* @src src/src/engine/engine.cc 511-521 Engine::Execute *)
Definition exec_store (m : state) : res outcome :=
  '(i, pc) ← int16_at code (pc_ m);
  let m := with_pc pc m in
  '(x, s) ← pop (stack_ m);
  s ← set_at s (bp_ m) i (Some x);
  brk (with_stack s m).

(* @src src/src/engine/engine.cc 535-544 Engine::Execute *)
Definition exec_undefine (m : state) : res outcome :=
  '(i, pc) ← int16_at code (pc_ m);
  let m := with_pc pc m in
  s ← set_at (stack_ m) (bp_ m) i None;
  brk (with_stack s m).

(** The increment is read after the variable was found to be defined. *)
(* @src src/src/engine/engine.cc 720-726 Engine::Execute *)
Definition exec_inc (m : state) : res outcome :=
  '(i, pc) ← int16_at code (pc_ m);
  let m := with_pc pc m in
  v ← at_ (stack_ m) (bp_ m) i;
  match v with
  | None => Ok (Trap m)
  | Some v =>
      '(delta, pc) ← int8_at code (pc_ m);
      v ← inc_val v delta;
      s ← set_at (stack_ m) (bp_ m) i (Some v);
      brk (with_stack s (with_pc pc m))
  end.

(* @src src/src/engine/engine.cc 393-421 Engine::Execute *)
Definition exec_index (op : Opcode) (m : state) : res outcome :=
  '(i, s) ← pop (stack_ m);
  '(a, s) ← pop s;
  r ← load_indexed op a i;
  match r with
  | inl v => brk (with_stack (push s v) m)
  | inr (i, n) => trap (IndexOutOfBounds i n) (with_stack s m)
  end.

(* @src src/src/engine/engine.cc 375-382 Engine::Execute *)
Definition exec_field (m : state) : res outcome :=
  '(t, s) ← pop (stack_ m);
  '(i, pc) ← int16_at code (pc_ m);
  match t with
  | VTuple slots =>
      match (if 0 <=? i then slots !! Z.to_nat i else None) with
      | Some v => brk (with_stack (push s v) (with_pc pc m))
      | None => Fatal
      end
  | _ => Fatal
  end.

(* @src src/src/engine/engine.cc 1649-1678 Engine::Execute *)
Definition exec_branch (op : Opcode) (m : state) : res outcome :=
  match op with
  | trap_false =>
      '(info, pc) ← msg_at code (pc_ m);
      let m := with_pc pc m in
      if cc_ m then brk m else trap (GuardFailed info) m
  | _ =>
      '(offs, pc) ← pcoff_at code (pc_ m);
      let taken := match op with branch => true | branch_true => cc_ m | _ => negb (cc_ m) end in
      brk (with_pc (if taken then pc + offs else pc) m)
  end.

(** [n] slots for variables, [m] for expressions; the frame takes three. On
    overflow the frame is still that of the caller. *)
(* @src src/src/engine/engine.cc 1681-1712 Engine::Execute *)
Definition exec_enter (m : state) : res outcome :=
  '(nvars, pc) ← int32_at code (pc_ m);
  '(nexprs, pc) ← int32_at code pc;
  let m := with_pc pc m in
  if Z.of_nat limit <? Z.of_nat (length (stack_ m)) + nvars + nexprs + 3 then trap StackOverflow (set_error m)
  else
    let s := replicate (Z.to_nat nvars) (SVal None) ++ stack_ m in
    let '(s, fp) := push_frame s (fp_ m) (bp_ m) (return_pc_ m) in
    brk (with_frame fp None (with_stack s m)).

(* @src src/src/engine/engine.cc 1746-1751 Engine::Execute *)
Definition exec_calli (m : state) : res outcome :=
  '(offs, pc) ← pcoff_at code (pc_ m);
  Ok (Next (with_frame (fp_ m) (Some pc) (with_pc (pc + offs) m))).

(** A [NULL] return position ends the run. *)
(* @src src/src/engine/engine.cc 1753-1782 Engine::Execute *)
Definition exec_ret (op : Opcode) (m : state) : res outcome :=
  match op with
  | ret =>
      '(n, _) ← int16_at code (pc_ m);
      '(s, fp, pc) ← pop_frame (stack_ m) (fp_ m) n;
      let m := with_frame fp (return_pc_ m) (with_stack s m) in
      match pc with None => Ok (Done m) | Some pc => brk (with_pc pc m) end
  | retV =>
      '(result, s) ← pop (stack_ m);
      '(n, _) ← int16_at code (pc_ m);
      '(s, fp, pc) ← pop_frame s (fp_ m) n;
      let m := with_frame fp (return_pc_ m) (with_stack (push s result) m) in
      match pc with None => Ok (Done m) | Some pc => brk (with_pc pc m) end
  | _ =>
      '(s, fp, pc) ← pop_frame (stack_ m) (fp_ m) 0;
      match pc with
      | None => Fatal
      | Some pc => Ok (Trap (with_pc pc (with_frame fp (return_pc_ m) (with_stack s m))))
      end
  end.

(** One instruction; the position is already behind its opcode. *)
(* @src src/src/engine/engine.cc 309-310 Engine::Execute *)
Definition exec (op : Opcode) (m : state) : res outcome :=
  match op with
  | loadV | loadVu => exec_load m
  | storeV => exec_store m
  | undefine => exec_undefine m
  | inc64 => exec_inc m
  | xloadV | xload8 => exec_index op m
  | floadV => exec_field m
  | push8 => '(x, pc) ← int8_at code (pc_ m); brk (with_stack (push (stack_ m) (VInt x)) (with_pc pc m))
  | pushV => '(v, pc) ← val_at code (pc_ m); brk (with_stack (push (stack_ m) v) (with_pc pc m))
  | dupV => '(v, s) ← pop (stack_ m); brk (with_stack (push (push s v) v) m)
  | popV => '(_, s) ← pop (stack_ m); brk (with_stack s m)
  | set_cc => '(v, s) ← pop (stack_ m); b ← as_bool v; brk (with_cc b (with_stack s m))
  | get_cc => brk (with_stack (push (stack_ m) (VBool (cc_ m))) m)
  | branch | branch_true | branch_false | trap_false => exec_branch op m
  | enter => exec_enter m
  | set_bp => '(n, pc) ← uint8_at code (pc_ m); bp ← base (stack_ m) (fp_ m) (Z.to_nat n); Ok (Next (with_bp bp (with_pc pc m)))
  | calli => exec_calli m
  | ret | retV | retU => exec_ret op m
  | terminate => Ok (Done m)
  | stop => '(msg, _) ← msg_at code (pc_ m); trap (Stopped msg) (set_error m)
  | _ => if is_compare op then comparison_ (compare op) m else binary (arith op) m
  end.

(* @src src/src/engine/engine.cc 308-310 Engine::Execute *)
Definition step (m : state) : res outcome :=
  match fetch code (pc_ m) with
  | Some (COp op) => exec op (with_pc (pc_ m + 1) m)
  | _ => Fatal
  end.

(** The inner loop: [cycle_count] instructions. *)
(* @src src/src/engine/engine.cc 309-310 Engine::Execute *)
Fixpoint inner_loop (cycle_count : nat) (m : state) : res outcome :=
  match cycle_count with
  | O => Ok (Next m)
  | S n => o ← step m; match o with Next m => inner_loop n m | o => Ok o end
  end.

(** The outer loop: after the first slice it goes on one instruction at a time,
    until neither a [set_bp] nor a call is half done; [fuel] bounds their number. *)
(* @src src/src/engine/engine.cc 278-309 Engine::Execute *)
Fixpoint outer_loop (fuel : nat) (max_steps num_steps : nat) (m : state) : res outcome :=
  if (num_steps <? max_steps)%nat || negb (bp_ m =? fp_ m)%nat || match return_pc_ m with None => false | _ => true end then
    match fuel with
    | O => Fatal
    | S fuel =>
        let cycle_count := (1 `max` (max_steps - num_steps))%nat in
        o ← inner_loop cycle_count m;
        match o with Next m => outer_loop fuel max_steps (num_steps + cycle_count) m | o => Ok o end
    end
  else Ok (Next m).

(** The state is restored with [bp] the frame pointer and no return position. *)
(* @src src/src/engine/engine.cc 218-310 Engine::Execute *)
Definition Engine_Execute (fuel : nat) (max_steps : nat) (m : state) : res outcome :=
  outer_loop fuel max_steps 0 (with_frame (fp_ m) None (with_bp (fp_ m) m)).
End Engine.

(** ** Traps *)

(** The status after a time slice. *)
Inductive status : Type :=
| SUSPENDED (m : state)
| TERMINATED (m : state)
| FAILED (m : state).

(** What the handler of traps asks of the process: whether the statics are
    initialized, and the flag [kIgnoreUndefs] of its mode. *)
(* @src src/src/engine/proc.h 451-451 Proc *)
Record Proc : Type := MkProc { initialized_ : bool; kIgnoreUndefs : bool }.

(* @src src/src/engine/proc.cc 84-112 Proc::Proc *)
Definition Proc_New (mode : bool) : Proc := MkProc false mode.

(** "If the proc is not initialized, we must not ignore undefs." *)
(* @src src/src/engine/proc.cc 1054-1056 Proc::HandleTrap *)
Definition ignores_undefs (proc : Proc) : bool := initialized_ proc && kIgnoreUndefs proc.

Section Process.
Context (code : Code) (limit : nat) (proc : Proc).

(** What happens at the trap: continue at the target with the variable undefined
    and the expression stack cut back, or fail. Without a message from the
    instruction the trap must be at a variable that the range lists. The texts of
    the messages, the records kept of earlier traps, and the emission to the tables
    of undefined values are left out. *)
(* @src src/src/engine/proc.cc 804-1082 Proc::HandleTrap *)
Definition HandleTrap (m : state) : res status :=
  let trap_offs := pc_ m - 1 in
  t ← TrapForInstr code trap_offs;
  match t with
  | None => Fatal
  | Some i =>
      match descs code !! i with
      | None => Fatal
      | Some desc =>
          let m := with_pc (target_ desc) m in
          s ← (if var_index_ desc =? 0 then Ok (stack_ m)
               else f ← base (stack_ m) (fp_ m) (var_delta_ desc); set_at (stack_ m) f (var_index_ desc) None);
          let new_sp := (stack_of (fp_ m) + stack_height_ desc)%nat in
          if (length s <? new_sp)%nat then Fatal
          else
            let m := with_stack (drop (length s - new_sp) s) m in
            let checked := existsb (Z.eqb trap_offs) (var_traps_ desc) in
            if negb checked && match trap_info_ m with None => true | _ => false end then Fatal
            else if is_silent_ desc then Ok (SUSPENDED (with_info None m))
            else
              let m :=
                if seen_undef_ m then m
                else MkState (fp_ m) (stack_ m) (pc_ m) (cc_ m) (bp_ m) (return_pc_ m) (trap_info_ m) (failed_ m) true (undef_cnt_ m + 1) in
              if ignores_undefs proc then Ok (SUSPENDED (with_info None m))
              else Ok (FAILED (set_error (with_info (Some (UndefinedValue (Some i))) m)))
      end
  end.

(** One time slice of the process. *)
(* @src src/src/engine/proc.cc 374-413 Proc::Execute *)
Definition Proc_Execute (fuel max_steps : nat) (m : state) : res status :=
  o ← Engine_Execute (base_ code) limit fuel max_steps m;
  match o with
  | Next m => Ok (SUSPENDED m)
  | Done m => Ok (TERMINATED m)
  | Trap m => if failed_ m then Ok (FAILED m) else HandleTrap m
  end.

(** One instruction with what follows from it: the transition of the process. *)
Definition transition (m : state) : res status :=
  o ← step (base_ code) limit m;
  match o with
  | Next m => Ok (SUSPENDED m)
  | Done m => Ok (TERMINATED m)
  | Trap m => if failed_ m then Ok (FAILED m) else st ← HandleTrap m;
      match st with SUSPENDED m => Ok (SUSPENDED (with_frame (fp_ m) None (with_bp (fp_ m) m))) | st => Ok st end
  end.

(** A process that has come to the end of its initialisation is initialized. *)
(* @src src/src/engine/proc.cc 455-465 Proc::Execute *)
Definition settle (st : status) : Proc :=
  match st with TERMINATED _ => MkProc true (kIgnoreUndefs proc) | _ => proc end.
End Process.
