(* ===== verification/Nodes.v ===== *)
(** * Syntax trees: engine/node.h, engine/codegenutils.cc

    The nodes of expressions and statements over variables, literals, operators,
    [def()], guards, and loads of array elements, bytes and fields; the choice of
    opcodes; and which nodes can trap. Calls of functions and of other intrinsics,
    conversions, composites, slices, statement expressions, emit statements and
    [when] statements are not among them. *)
From Stdlib Require Import ZArith Lia.
From stdpp Require Import prelude strings.
From S2P Require Import Prelude Forms Opcodes Arith.

Local Open Scope Z_scope.

(** A function: its level, the level of the innermost frame it refers to, and the
    function around it. *)
(* @src src/src/engine/node.h 1924-1941 Function (level_, context_level_, owner_) *)
Inductive Function : Type := MkFunction (level context_level : Z) (owner : option Function).

Definition level_of (f : Function) : Z := let 'MkFunction l _ _ := f in l.
Definition context_level_of (f : Function) : Z := let 'MkFunction _ c _ := f in c.
Definition owner_of (f : Function) : option Function := let 'MkFunction _ _ o := f in o.

(** The innermost function from [f] outwards whose level is at most [l]. *)
(* @src src/src/engine/node.cc 496-498 Function::bp_delta *)
Fixpoint up_to (f : Function) (l : Z) : option Function :=
  let 'MkFunction level _ owner := f in
  if l <? level then match owner with Some o => up_to o l | None => None end else Some f.

(** The number of functions around [f], with [f]. *)
Fixpoint fun_depth (f : Function) : nat :=
  let 'MkFunction _ _ owner := f in S (match owner with Some o => fun_depth o | None => 0 end).

(** The walk ends when it comes to the outermost function or to the level; a
    function whose context level is not below its own would loop for ever:
    [fuel] runs out. *)
(* @src src/src/engine/node.cc 491-500 Function::bp_delta *)
Fixpoint bp_delta_loop (fuel : nat) (f : option Function) (level : Z) (delta : nat) : option nat :=
  match f with
  | None => Some delta
  | Some g =>
      if level_of g =? level then Some delta
      else
        match fuel with
        | O => None
        | S fuel => bp_delta_loop fuel (up_to g (context_level_of g)) level (S delta)
        end
  end.

(* @src src/src/engine/node.cc 480-503 Function::bp_delta *)
Definition bp_delta (f : Function) (level : Z) : option nat :=
  bp_delta_loop (fun_depth f) (Some f) (if level <? 0 then 0 else level) 0.

(** A declaration of a variable: its level, 0 for statics, and its offset in the
    frame in bytes. *)
(* @src src/src/engine/node.h 1402-1411 VarDecl (level_, offset_) *)
Record VarDecl := MkVar { v_level : Z; v_offset : Z }.
(* @src src/src/engine/node.h 1373-1373 VarDecl::is_static *)
Definition is_static (v : VarDecl) : bool := v_level v =? 0.

(* @src src/src/engine/node.h 290-302 Binary::Op *)
Inductive BinaryOp : Type := ADD | SUB | MUL | DIV | MOD | EQL | NEQ | LSS | LEQ | GTR | GEQ | BAND | BOR | BXOR | SHL | SHR | LAND | LOR | AND | OR.

(** The types that can be indexed by integers. *)
Inductive Indexable : Type := TArray | TBytes | TString.

(** [VariableE] is a use of a variable, the node [Variable]. [DoIndex] with a variable for the length, for [$], is left out. The flag of a
    variable is [is_defined_]; [Def] is a call of [def()]. *)
(* @src src/src/engine/node.h 223-249 Expr *)
Inductive Expr : Type :=
| Literal (v : Val)
| VariableE (d : VarDecl) (is_defined : bool)
| Binary (op : BinaryOp) (opcode : Opcode) (left right : Expr)
| Def (arg : Expr)
| RuntimeGuard (guard expr : Expr) (msg : string)
| Index (ty : Indexable) (var index : Expr)
| Selector (var : Expr) (slot_index inproto_index : Z).

(* @src src/src/engine/scanner.h 41-46 Symbol (DO, FOR, WHILE) *)
Inductive LoopSym : Type := DO | FOR | WHILE.

(** The types a [switch] compares. *)
Inductive TagType : Type := TBool | TInt | TFingerprint | TTime | TFloat | TStr | TByt.

(** [Break] and [Continue] name the statement they leave by the number of breakable
    statements between. *)
(* @src src/src/engine/node.h 727-753 Statement *)
Inductive Statement : Type :=
| Assignment (lvalue rvalue : Expr)
| Block (list_ : list Statement)
| Break (stat : nat)
| Continue (loop : nat)
| TypeDecl
| LocalDecl (d : VarDecl) (init : option Expr)
| Empty
| ExprStat (e : Expr)
| If (cond : Expr) (then_part else_part : Statement)
| Increment (lvalue : Expr) (delta : Z)
| Return (result : option Expr)
| Switch (ty : TagType) (tag : Expr) (cases : list (list Expr * Statement)) (default_case : Statement)
| Loop (sym : LoopSym) (before : option Statement) (cond : option Expr) (after : option Statement) (body : Statement).

(** ** Which nodes can trap *)

(* @src src/src/engine/codegenutils.cc 122-134 Binary::CanCauseTrap *)
Definition binary_can_cause_trap (op : Opcode) (right : Expr) : bool :=
  match op with
  | div_int | div_uint | mod_int | mod_uint => match right with Literal (VInt v) => v =? 0 | _ => true end
  | div_float => match right with Literal (VFloat v) => f64_eqb v 0 | _ => true end
  | _ => false
  end.

(** [CanCauseTrap(is_lvalue)] of a node itself. *)
(* @src src/src/engine/node.h 1474-1480 Variable::CanCauseTrap *)
Definition CanCauseTrap (x : Expr) (is_lvalue : bool) : bool :=
  match x with
  | Literal _ => false
  | VariableE _ is_defined => negb is_lvalue && negb is_defined
  | Binary _ op _ r => binary_can_cause_trap op r
  | Def _ => false
  | RuntimeGuard _ _ _ => true
  | Index _ _ _ => true
  | Selector _ _ _ => false
  end.

(** A node or what is below it; [def()] keeps the traps of its argument. *)
(* @src src/src/engine/codegenutils.cc 155-194 CanTrapVisitor *)
Fixpoint CanTrap (x : Expr) : bool :=
  CanCauseTrap x false ||
  match x with
  | Literal _ | VariableE _ _ | Def _ => false
  | Binary _ _ l r => CanTrap l || CanTrap r
  | RuntimeGuard g e _ => CanTrap g || CanTrap e
  | Index _ a i => CanTrap a || CanTrap i
  | Selector v _ _ => CanTrap v
  end.

(** The target of an assignment does not trap for being undefined. *)
(* @src src/src/engine/codegenutils.cc 212-218 Assignment::CanTrap *)
Definition Assignment_CanTrap (lvalue rvalue : Expr) : bool :=
  (CanCauseTrap lvalue true ||
   match lvalue with
   | Literal _ | VariableE _ _ | Def _ => false
   | Binary _ _ l r => CanTrap l || CanTrap r
   | RuntimeGuard g e _ => CanTrap g || CanTrap e
   | Index _ a i => CanTrap a || CanTrap i
   | Selector v _ _ => CanTrap v
   end) || CanTrap rvalue.

(* @src src/src/engine/codegenutils.cc 227-238 UndefVar *)
Fixpoint UndefVar (lvalue : Expr) : option VarDecl :=
  match lvalue with
  | VariableE d _ => Some d
  | Index _ a _ => UndefVar a
  | Selector v _ _ => UndefVar v
  | _ => None
  end.

(** ** Opcode selection *)

(* @src src/src/engine/codegenutils.cc 293-301 VariableAccess *)
Definition VariableAccess (is_load is_lhs : bool) (delta : Z) : Opcode :=
  if negb (delta =? 0) then inc64 else if is_load then if is_lhs then loadVu else loadV else storeV.

(* @src src/src/engine/codegenutils.cc 304-308 SelectorAccess *)
Definition SelectorAccess (is_load is_lhs : bool) (delta : Z) : Opcode :=
  if negb (delta =? 0) then finc64 else if is_load then if is_lhs then floadVu else floadV else fstoreV.

(* @src src/src/engine/codegenutils.cc 311-335 IndexedAccess *)
Definition IndexedAccess (ty : Indexable) (is_load is_lhs : bool) (delta : Z) : Opcode :=
  let '(iop, lop, sop) :=
    match ty with
    | TArray => (xinc64, if is_lhs then xloadVu else xloadV, xstoreV)
    | TBytes => (xinc8, xload8, xstore8)
    | TString => (xincR, xloadR, xstoreR)
    end in
  if negb (delta =? 0) then iop else if is_load then lop else sop.

(* @src src/src/engine/codegen.cc 821-837 CodeGen::Compare *)
Definition compare_op (ty : TagType) : Opcode :=
  match ty with
  | TBool | TInt | TFingerprint | TTime => eql_bits
  | TFloat => eql_float
  | TStr => eql_string
  | TByt => eql_bytes
  end.
