(* ===== verification/CodeGen.v ===== *)
(** * The byte code generator: engine/codegen.cc, engine/codegen.h

    A pass over the tree that appends bytes to the code buffer, patches branches
    when their labels are bound, and collects trap ranges. The default flags are
    modelled (dead code is not emitted, no counters, no debugging output), and the
    build without assertions. *)
From Stdlib Require Import ZArith Lia.
From stdpp Require Import prelude strings.
From S2P Require Import Prelude Forms Opcodes Arith Interp Nodes.

Local Open Scope Z_scope.

(** ** State *)

(** Branch positions waiting for the label, trap descriptors waiting for it, its
    position once bound, and the height of the stack there. *)
(* @src src/src/engine/codegen.cc 87-93 BLabel (data members) *)
Record BLabel := MkLabel { forward_ : list Z; other_ : list nat; bound_ : option Z; label_height_ : Z }.

(** The code buffer up to the emit position; labels and trap descriptors by their
    numbers. *)
(* @src src/src/engine/codegen.h 90-118 CodeGen (data members) *)
Record CodeGen := MkGen {
  code_ : list cell; dead_code_ : bool; max_stack_height_ : Z; height_ : Z; current_trap_range_ : option nat;
  traps_ : list TrapDesc; cc_set_ : bool; labels_ : list BLabel }.

(** A step of the generator: [Fatal] for a failed CHECK, or what the assertions
    exclude. *)
Definition M (A : Type) : Type := CodeGen -> res (A * CodeGen).
#[export] Instance M_ret : MRet M := fun A a s => Ok (a, s).
#[export] Instance M_bind : MBind M := fun A B f m s => match m s with Ok (a, s) => f a s | Fail => Fail | Fatal => Fatal end.

Definition get : M CodeGen := fun s => Ok (s, s).
Definition modify (f : CodeGen -> CodeGen) : M unit := fun s => Ok (tt, f s).
Definition lift {A} (r : res A) : M A := fun s => match r with Ok a => Ok (a, s) | Fail => Fail | Fatal => Fatal end.
Definition of_option {A} (o : option A) : M A := lift (match o with Some a => Ok a | None => Fatal end).
Definition when (b : bool) (m : M unit) : M unit := if b then m else mret tt.

Definition set_code (c : list cell) (s : CodeGen) : CodeGen :=
  MkGen c (dead_code_ s) (max_stack_height_ s) (height_ s) (current_trap_range_ s) (traps_ s) (cc_set_ s) (labels_ s).
Definition set_dead (d : bool) (s : CodeGen) : CodeGen :=
  MkGen (code_ s) d (max_stack_height_ s) (height_ s) (current_trap_range_ s) (traps_ s) (cc_set_ s) (labels_ s).
Definition set_current (t : option nat) (s : CodeGen) : CodeGen :=
  MkGen (code_ s) (dead_code_ s) (max_stack_height_ s) (height_ s) t (traps_ s) (cc_set_ s) (labels_ s).
Definition set_traps (ts : list TrapDesc) (s : CodeGen) : CodeGen :=
  MkGen (code_ s) (dead_code_ s) (max_stack_height_ s) (height_ s) (current_trap_range_ s) ts (cc_set_ s) (labels_ s).
Definition set_cc_flag (b : bool) (s : CodeGen) : CodeGen :=
  MkGen (code_ s) (dead_code_ s) (max_stack_height_ s) (height_ s) (current_trap_range_ s) (traps_ s) b (labels_ s).
Definition set_labels (ls : list BLabel) (s : CodeGen) : CodeGen :=
  MkGen (code_ s) (dead_code_ s) (max_stack_height_ s) (height_ s) (current_trap_range_ s) (traps_ s) (cc_set_ s) ls.

(* @src src/src/engine/codegen.cc 475-480 CodeGen::SetStack *)
Definition SetStack (h : Z) : M unit :=
  modify (fun s => MkGen (code_ s) (dead_code_ s) (Z.max (max_stack_height_ s) h) h (current_trap_range_ s) (traps_ s) (cc_set_ s) (labels_ s)).

(* @src src/src/engine/codegen.h 166-166 CodeGen::AdjustStack *)
Definition AdjustStack (delta : Z) : M unit := s ← get; SetStack (height_ s + delta).

(** [StackMark]: the height is reset when the block ends. *)
(* @src src/src/engine/codegen.cc 155-163 StackMark *)
Definition stack_mark (body : M unit) : M unit := s ← get; body;; SetStack (height_ s).

(* @src src/src/engine/codegen.h 78-78 CodeGen::emit_offset *)
Definition emit_offset (s : CodeGen) : Z := Z.of_nat (length (code_ s)).

(** ** Emission *)

Definition s8 (x : Z) : Z := (x + 2 ^ 7) mod 2 ^ 8 - 2 ^ 7.
Definition s16 (x : Z) : Z := (x + 2 ^ 15) mod 2 ^ 16 - 2 ^ 15.

(** The buffer grows as needed; dead code is not emitted. *)
(* @src src/src/engine/codegen.cc 510-522 CodeGen::emit_ *)
Definition emit_cells (l : list cell) : M unit :=
  modify (fun s => if dead_code_ s then s else set_code (code_ s ++ l) s).

(* @src src/src/engine/codegen.cc 525-529 CodeGen::emit_op *)
Definition emit_op (op : Opcode) : M unit := AdjustStack (StackDelta op);; emit_cells [COp op].
(* @src src/src/engine/codegen.cc 532-535 CodeGen::emit_uint8 *)
Definition emit_uint8 (x : Z) : M unit := emit_cells [CUInt8 (u8 x)].
(* @src src/src/engine/codegen.cc 538-541 CodeGen::emit_int8 *)
Definition emit_int8 (x : Z) : M unit := emit_cells [CInt8 (s8 x)].
(* @src src/src/engine/codegen.cc 544-547 CodeGen::emit_int16 *)
Definition emit_int16 (x : Z) : M unit := emit_cells [CInt16 (s16 x); CPad].
(* @src src/src/engine/codegen.cc 550-553 CodeGen::emit_int32 *)
Definition emit_int32 (x : Z) : M unit := emit_cells [CInt32 (s32 x); CPad; CPad; CPad].
(* @src src/src/engine/codegen.cc 556-559 CodeGen::emit_pcoff *)
Definition emit_pcoff (x : Z) : M unit := emit_cells [CPcoff x; CPad; CPad; CPad].
(* @src src/src/engine/codegen.cc 562-565 CodeGen::emit_ptr *)
Definition emit_msg (m : string) : M unit := emit_cells (CMsg m :: replicate 7 CPad).
(* @src src/src/engine/codegen.cc 568-571 CodeGen::emit_val *)
Definition emit_val (v : Val) : M unit := emit_cells (CVal v :: replicate 7 CPad).

(* @src src/src/engine/codegen.cc 596-600 CodeGen::set_int32_at *)
Definition set_int32_at (offset x : Z) : M unit :=
  s ← get;
  if (0 <=? offset) && (offset + 4 <=? emit_offset s) then modify (set_code (<[Z.to_nat offset := CInt32 (s32 x)]> (code_ s))) else lift Fatal.

(* @src src/src/engine/codegen.cc 589-591 CodeGen::align_emit_offset *)
Fixpoint align_loop (fuel : nat) : M unit :=
  s ← get;
  if emit_offset s mod 16 =? 0 then mret tt
  else match fuel with O => lift Fatal | S fuel => emit_op nop;; align_loop fuel end.

(* @src src/src/engine/codegen.cc 586-593 CodeGen::align_emit_offset *)
Definition align_emit_offset : M unit :=
  s ← get; modify (set_dead false);; align_loop 16;; modify (set_dead (dead_code_ s)).

(** ** Labels *)

(* @src src/src/engine/codegen.cc 617-619 CodeGen::NewLabel *)
Definition NewLabel : M nat :=
  s ← get; modify (set_labels (labels_ s ++ [MkLabel [] [] None 0]));; mret (length (labels_ s)).

Definition label_of (l : nat) : M BLabel := s ← get; of_option (labels_ s !! l).
Definition set_label (l : nat) (b : BLabel) : M unit := modify (fun s => set_labels (<[l := b]> (labels_ s)) s).

(* @src src/src/engine/codegen.cc 77-77 BLabel::is_linked *)
Definition is_linked (b : BLabel) : bool := negb (bool_decide (forward_ b = [])) || negb (bool_decide (other_ b = [])).
Definition linked (l : nat) : M bool := b ← label_of l; mret (is_linked b).

(** The branch positions, the last one first. *)
(* @src src/src/engine/codegen.cc 101-106 BLabel::bind_to *)
Fixpoint patch (fs : list Z) (pos : Z) (code : list cell) : res (list cell) :=
  match fs with
  | [] => Ok code
  | f :: fs =>
      let offs := pos - f - 4 in
      if s32 offs =? offs then patch fs pos (<[Z.to_nat f := CPcoff offs]> code) else Fatal
  end.

Definition set_target (pos : Z) (d : TrapDesc) : TrapDesc :=
  MkTrap (begin_ d) (end_ d) pos (stack_height_ d) (var_index_ d) (var_delta_ d) (is_silent_ d) (var_traps_ d) (super_ d).
Definition set_end (pos : Z) (d : TrapDesc) : TrapDesc :=
  MkTrap (begin_ d) pos (target_ d) (stack_height_ d) (var_index_ d) (var_delta_ d) (is_silent_ d) (var_traps_ d) (super_ d).
(* @src src/src/engine/code.cc 79-82 TrapDesc::AddTrap *)
Definition add_trap (offset : Z) (d : TrapDesc) : TrapDesc :=
  MkTrap (begin_ d) (end_ d) (target_ d) (stack_height_ d) (var_index_ d) (var_delta_ d) (is_silent_ d) (var_traps_ d ++ [offset]) (super_ d).

Definition set_targets (is_ : list nat) (pos : Z) (ts : list TrapDesc) : list TrapDesc :=
  foldr (fun i ts => alter (set_target pos) i ts) ts is_.

(* @src src/src/engine/codegen.cc 97-115 BLabel::bind_to *)
Definition bind_to (l : nat) (pos height : Z) : M unit :=
  b ← label_of l;
  s ← get;
  code ← lift (patch (reverse (forward_ b)) pos (code_ s));
  modify (set_code code);;
  modify (set_traps (set_targets (other_ b) pos (traps_ s)));;
  set_label l (MkLabel [] [] (Some pos) height).

(* @src src/src/engine/codegen.cc 118-123 BLabel::add_dep *)
Definition add_dep (l : nat) (dep : nat) (height : Z) : M unit :=
  b ← label_of l; set_label l (MkLabel (forward_ b) (other_ b ++ [dep]) (bound_ b) height).

(* @src src/src/engine/codegen.cc 126-141 BLabel::offset *)
Definition label_offset (l : nat) (pos height : Z) : M Z :=
  b ← label_of l;
  match bound_ b with
  | Some target => let offs := target - pos - 4 in if s32 offs =? offs then mret offs else lift Fatal
  | None => set_label l (MkLabel (forward_ b ++ [pos]) (other_ b) None height);; mret 0
  end.

(** Code after a label is alive. *)
(* @src src/src/engine/codegen.cc 622-625 CodeGen::Bind *)
Definition Bind (l : nat) : M unit :=
  modify (set_dead false);; s ← get; bind_to l (emit_offset s) (height_ s).

(* @src src/src/engine/codegen.cc 628-652 CodeGen::Branch *)
Definition Branch (op : Opcode) (l : nat) : M unit :=
  s ← get;
  when (UsesCC op && negb (cc_set_ s)) (emit_op set_cc);;
  s ← get;
  when (negb (dead_code_ s))
    (emit_op op;; s ← get; offs ← label_offset l (emit_offset s) (height_ s); emit_pcoff offs);;
  modify (set_cc_flag false);;
  when (bool_decide (op = branch)) (modify (set_dead true)).

(** The label of a visit may be [NULL]. *)
Definition Branch_to (op : Opcode) (l : option nat) : M unit := l ← of_option l; Branch op l.

(** ** The generator for one function *)

Section Generator.
(** [function_] is [NULL] when the initialisation of statics is generated. *)
Context (do_statics : bool) (function_ : option Function).

(* @src src/src/engine/codegen.h 143-150 CodeGen::bp_delta *)
Definition bp_delta_of (level : Z) : M nat :=
  match function_ with None => mret 0%nat | Some f => of_option (bp_delta f level) end.

(* @src src/src/engine/codegen.h 142-142 CodeGen::var_index *)
Definition var_index (offset : Z) : Z := offset / 8.

(** [TrapHandler handler(target, var, is_silent, x); body]: the range from the
    constructor to the destructor, when [can_trap] is [x->CanTrap()]. *)
(* @src src/src/engine/codegen.cc 190-232 TrapHandler::TrapHandler *)
Definition open_trap (target : option nat) (global : option nat) (var : option VarDecl) (is_silent : bool) : M nat :=
  target ← of_option (if do_statics && negb is_silent then global else target);
  '(index, delta) ← match var with
                    | None => mret (0, 0%nat)
                    | Some d => delta ← bp_delta_of (v_level d); mret (var_index (v_offset d), delta)
                    end;
  s ← get;
  let begin := emit_offset s in
  let i := length (traps_ s) in
  modify (set_traps (traps_ s ++ [MkTrap begin begin begin (Z.to_nat (height_ s)) index delta is_silent [] (current_trap_range_ s)]));;
  add_dep target i (height_ s);;
  modify (set_current (Some i));;
  mret i.

(* @src src/src/engine/codegen.cc 235-245 TrapHandler::~TrapHandler *)
Definition close_trap (i : nat) : M unit :=
  s ← get;
  d ← of_option (traps_ s !! i);
  modify (set_traps (<[i := set_end (emit_offset s) d]> (traps_ s)));;
  modify (set_current (super_ d)).

(** [global_trap_handler_] *)
Context (global : option nat).

Definition trap_handler (target : option nat) (var : option VarDecl) (is_silent can_trap : bool) (body : M unit) : M unit :=
  if can_trap then i ← open_trap target global var is_silent; body;; close_trap i else body.

(** [current_trap_range_->AddTrap(emit_offset() - 1, var)] *)
Definition AddTrap : M unit :=
  s ← get;
  i ← of_option (current_trap_range_ s);
  modify (set_traps (alter (add_trap (emit_offset s - 1)) i (traps_ s))).

(** ** Expressions *)

(* @src src/src/engine/codegen.h 33-53 BCodeGenState *)
Record BCodeGenState := MkCGState { is_lhs : bool; is_load : bool; delta : Z; ttarget : option nat; ftarget : option nat }.

(* @src src/src/engine/codegen.cc 668-677 CodeGen::SetBP *)
Definition SetBP (level : Z) : M unit :=
  d ← bp_delta_of level;
  when (negb (d =? 0)%nat) (emit_op set_bp;; emit_uint8 (Z.of_nat d)).

(* @src src/src/engine/codegen.cc 778-781 CodeGen::Push *)
Definition Push (v : Val) : M unit := emit_op pushV;; emit_val v.
(* @src src/src/engine/codegen.cc 784-786 CodeGen::PushBool *)
Definition PushBool (b : bool) : M unit := Push (VBool b).

(** [materialize] of the value that was translated into branches, in [Load]. *)
(* @src src/src/engine/codegen.cc 680-720 CodeGen::Load *)
Definition Load (visit : BCodeGenState -> M unit) (lhs : bool) : M unit :=
  tt_ ← NewLabel;
  ft ← NewLabel;
  s0 ← get;
  visit (MkCGState lhs true 0 (Some tt_) (Some ft));;
  s ← get;
  when (cc_set_ s) (emit_op get_cc;; modify (set_cc_flag false));;
  t ← linked tt_;
  f ← linked ft;
  if t || f then
    loaded ← NewLabel;
    Branch branch loaded;;
    when t (SetStack (height_ s0);; Bind tt_;; PushBool true);;
    when (t && f) (Branch branch loaded);;
    when f (SetStack (height_ s0);; Bind ft;; PushBool false);;
    Bind loaded
  else mret tt.

(* @src src/src/engine/codegen.cc 726-733 CodeGen::LoadConditional *)
Definition LoadConditional (visit : BCodeGenState -> M unit) (lhs : bool) (t f : option nat) : M unit :=
  visit (MkCGState lhs true 0 t f).

(* @src src/src/engine/codegen.cc 811-818 CodeGen::Pop *)
Definition Pop : M unit := s ← get; if cc_set_ s then modify (set_cc_flag false) else emit_op popV.

(* @src src/src/engine/codegen.cc 801-808 CodeGen::Dup *)
Definition Dup : M unit :=
  s ← get; when (cc_set_ s) (emit_op get_cc;; modify (set_cc_flag false));; emit_op dupV.

(* @src src/src/engine/codegen.cc 1441-1458 CodeGen::DoVariable *)
Definition DoVariable (d : VarDecl) (is_defined : bool) (st : BCodeGenState) : M unit :=
  SetBP (v_level d);;
  emit_op (VariableAccess (is_load st) (is_lhs st) (delta st));;
  emit_int16 (var_index (v_offset d));;
  when (negb (delta st =? 0)) (emit_int8 (delta st));;
  when (is_load st && CanTrap (VariableE d is_defined)) AddTrap.

(* @src src/src/engine/codegen.cc 769-775 CodeGen::StoreVarDecl *)
Definition StoreVarDecl (d : VarDecl) (st : BCodeGenState) : M unit :=
  SetBP (v_level d);;
  emit_op (VariableAccess false (is_lhs st) (delta st));;
  emit_int16 (var_index (v_offset d)).

(** [Visit] of an expression: [DoBinary], [DoCall] of [def], [DoRuntimeGuard],
    [DoIndex], [DoSelector], [DoLiteral]. *)
(* @src src/src/engine/codegen.cc 863-884 CodeGen::DoBinary *)
Fixpoint Visit (x : Expr) (st : BCodeGenState) : M unit :=
  match x with
  | Literal v => emit_op pushV;; emit_val v
  | VariableE d is_defined => DoVariable d is_defined st
  | Binary LAND _ l r =>
      is_true ← NewLabel;
      LoadConditional (Visit l) false (Some is_true) (ftarget st);;
      Branch_to branch_false (ftarget st);;
      Bind is_true;;
      LoadConditional (Visit r) false (ttarget st) (ftarget st)
  | Binary LOR _ l r =>
      is_false ← NewLabel;
      LoadConditional (Visit l) false (ttarget st) (Some is_false);;
      Branch_to branch_true (ttarget st);;
      Bind is_false;;
      LoadConditional (Visit r) false (ttarget st) (ftarget st)
  | Binary _ opcode l r =>
      Load (Visit l) false;;
      Load (Visit r) false;;
      emit_op opcode;;
      modify (set_cc_flag (SetsCC opcode))
  | Def arg =>
      trap_handler (ftarget st) None true (CanTrap arg) (Load (Visit arg) false;; Pop);;
      PushBool true
  | RuntimeGuard guard e msg =>
      tguard ← NewLabel;
      fguard ← NewLabel;
      LoadConditional (Visit guard) false (Some tguard) (Some fguard);;
      s ← get;
      when (negb (cc_set_ s)) (emit_op set_cc);;
      f ← linked fguard;
      when f (L ← NewLabel; Branch branch L;; Bind fguard;; PushBool false;; emit_op set_cc;; Bind L);;
      emit_op trap_false;; emit_msg msg;;
      modify (set_cc_flag false);;
      Bind tguard;;
      Visit e st
  | Index ty var index =>
      Load (Visit var) (is_lhs st);;
      Load (Visit index) false;;
      emit_op (IndexedAccess ty (is_load st) (is_lhs st) (delta st));;
      when (negb (delta st =? 0)) (emit_int8 (delta st))
  | Selector var slot_index inproto_index =>
      Load (Visit var) (is_lhs st);;
      when (is_lhs st) (emit_op fsetB;; emit_int32 inproto_index);;
      emit_op (SelectorAccess (is_load st) (is_lhs st) (delta st));;
      emit_int16 slot_index;;
      when (negb (delta st =? 0)) (emit_int8 (delta st))
  end.

(** The targets are those of the state around: [NULL] in a statement. *)
(* @src src/src/engine/codegen.cc 759-766 CodeGen::Store *)
Definition Store (x : Expr) (delta : Z) : M unit := Visit x (MkCGState true false delta None None).

(** ** Statements *)

(** The state of the constructor: nothing is visited. *)
Definition default_state : BCodeGenState := MkCGState false false 0 None None.

(** The labels of the breakable statements around, innermost first: [exit()], and
    [cont()] of loops. *)
Abbreviation exits := (list (nat * option nat)).

(* @src src/src/engine/codegen.cc 1477-1493 CodeGen::DoAssignment *)
Definition DoAssignment (lvalue rvalue : Expr) : M unit :=
  exit ← NewLabel;
  var ← of_option (UndefVar lvalue);
  trap_handler (Some exit) (Some var) false (Assignment_CanTrap lvalue rvalue) (Load (Visit rvalue) false;; Store lvalue 0);;
  Bind exit.

(** Either all statics or all locals; output variables are left out. *)
(* @src src/src/engine/codegen.cc 1520-1566 CodeGen::DoVarDecl *)
Definition DoVarDecl (d : VarDecl) (init : option Expr) : M unit :=
  if Bool.eqb (is_static d) do_statics then
    match init with
    | Some init =>
        exit ← NewLabel;
        trap_handler (Some exit) (if do_statics then None else Some d) (negb do_statics) (CanTrap init)
          (Load (Visit init) false;; StoreVarDecl d default_state);;
        Bind exit
    | None => mret tt
    end
  else mret tt.

(** The result is discarded: every expression modelled has one. *)
(* @src src/src/engine/codegen.cc 1633-1642 CodeGen::DoExprStat *)
Definition DoExprStat (e : Expr) : M unit :=
  exit ← NewLabel;
  trap_handler (Some exit) None false (CanTrap e) (Load (Visit e) false;; Pop);;
  Bind exit.

(* @src src/src/engine/codegen.cc 1707-1716 CodeGen::DoIncrement *)
Definition DoIncrement (lvalue : Expr) (delta : Z) : M unit :=
  exit ← NewLabel;
  var ← of_option (UndefVar lvalue);
  trap_handler (Some exit) (Some var) false (CanTrap lvalue) (Store lvalue delta);;
  Bind exit.

(* @src src/src/engine/codegen.cc 1734-1753 CodeGen::DoReturn *)
Definition DoReturn (frame_size : Z) (result : option Expr) : M unit :=
  match result with
  | Some e =>
      trap_handler global None true (CanTrap e)
        (Load (Visit e) false;; emit_op retV;; when (CanTrap e) AddTrap)
  | None => emit_op ret
  end;;
  emit_int16 (frame_size / 8);;
  modify (set_dead true).

(** [if (cond)] with the branch on the condition, whose traps go to the exit. *)
(* @src src/src/engine/codegen.cc 1656-1661 CodeGen::DoIf *)
Definition if_cond (cond : Expr) (exit : nat) (t f : nat) (op : Opcode) (target : nat) : M unit :=
  trap_handler (Some exit) None false (CanTrap cond) (LoadConditional (Visit cond) false (Some t) (Some f);; Branch op target).

Definition is_empty (s : Statement) : bool := match s with Empty => true | _ => false end.

(* @src src/src/engine/codegen.cc 1645-1704 CodeGen::DoIf *)
Definition DoIf (cond : Expr) (has_then has_else : bool) (then_part else_part : M unit) : M unit :=
  exit ← NewLabel;
  match has_then, has_else with
  | true, true =>
      then_ ← NewLabel;
      else_ ← NewLabel;
      if_cond cond exit then_ else_ branch_false else_;;
      Bind then_;;
      then_part;;
      Branch branch exit;;
      Bind else_;;
      else_part
  | true, false =>
      then_ ← NewLabel;
      if_cond cond exit then_ exit branch_false exit;;
      Bind then_;;
      then_part
  | false, true =>
      else_ ← NewLabel;
      if_cond cond exit exit else_ branch_true exit;;
      Bind else_;;
      else_part
  | false, false =>
      trap_handler (Some exit) None false (CanTrap cond) (LoadConditional (Visit cond) false (Some exit) (Some exit);; Pop)
  end;;
  Bind exit.

(** The labels of a case but the last, and the last one. *)
(* @src src/src/engine/codegen.cc 1773-1793 CodeGen::DoSwitch *)
Fixpoint case_labels (ty : TagType) (labels : list Expr) (case_stat next_case : nat) : M unit :=
  match labels with
  | [] => mret tt
  | [x] =>
      trap_handler (Some next_case) None false (CanTrap x)
        (Dup;; Load (Visit x) false;; emit_op (compare_op ty);; modify (set_cc_flag true);; Branch branch_false next_case)
  | x :: labels =>
      next_label ← NewLabel;
      trap_handler (Some next_label) None false (CanTrap x)
        (Dup;; Load (Visit x) false;; emit_op (compare_op ty);; modify (set_cc_flag true);; Branch branch_true case_stat);;
      Bind next_label;;
      case_labels ty labels case_stat next_case
  end.

(** A case: [labels->at(0)] is looked at whether it is evaluated there or not. *)
(* @src src/src/engine/codegen.cc 1765-1802 CodeGen::DoSwitch *)
Definition do_case (ty : TagType) (exit : nat) (labels : list Expr) (stat : M unit) : M unit :=
  next_case ← NewLabel;
  case_stat ← NewLabel;
  case_labels ty labels case_stat next_case;;
  Bind case_stat;;
  stack_mark
    (Pop;;
     l0 ← of_option (head labels);
     trap_handler (Some exit) None false (CanTrap l0) (stat;; Branch branch exit));;
  Bind next_case.

(* @src src/src/engine/codegen.cc 1756-1809 CodeGen::DoSwitch *)
Definition DoSwitch (ty : TagType) (tag : Expr) (cases : nat -> M unit) (default_case : nat -> M unit) : M unit :=
  done_ ← NewLabel;
  exit ← NewLabel;
  trap_handler (Some done_) None false (CanTrap tag)
    (Load (Visit tag) false;;
     cases exit;;
     Pop;;
     default_case exit;;
     Bind exit;;
     Bind done_).

(** Loops whose condition is missing, or a literal that holds. *)
Definition always_true (sym : LoopSym) (cond : option Expr) : bool :=
  match sym, cond with
  | FOR, None => true
  | FOR, _ => false
  | _, Some (Literal (VBool b)) => b
  | _, _ => false
  end.

(* @src src/src/engine/codegen.cc 1820-1860 CodeGen::DoLoop *)
Definition DoLoop (sym : LoopSym) (before : option (M unit)) (cond : option Expr) (after : option (M unit))
    (body : nat -> nat -> M unit) : M unit :=
  entry ← NewLabel;
  loop ← NewLabel;
  cont ← NewLabel;
  exit ← NewLabel;
  match before with Some b => b | None => mret tt end;;
  match sym with DO => mret tt | _ => Branch branch entry end;;
  Bind loop;;
  body exit cont;;
  Bind cont;;
  match after with Some a => a | None => mret tt end;;
  Bind entry;;
  (if always_true sym cond then Branch branch loop
   else
     cond ← of_option cond;
     trap_handler (Some exit) None false (CanTrap cond)
       (LoadConditional (Visit cond) false (Some loop) (Some exit);; Branch branch_true loop));;
  Bind exit.

(** The number of slots of the frame, for returns. *)
Context (frame_size : Z).

(* @src src/src/engine/codegen.cc 850-856 CodeGen::Execute *)
Fixpoint Execute (x : Statement) (ex : exits) : M unit :=
  match x with
  | Assignment l r => DoAssignment l r
  | Block l =>
      (fix go (l : list Statement) : M unit := match l with [] => mret tt | x :: l => Execute x ex;; go l end) l
  | Break k => e ← of_option (ex !! k); Branch branch (e.1)
  | Continue k => e ← of_option (ex !! k); c ← of_option (e.2); Branch branch c
  | TypeDecl => mret tt
  | LocalDecl d init => DoVarDecl d init
  | Empty => mret tt
  | ExprStat e => DoExprStat e
  | If c t e => DoIf c (negb (is_empty t)) (negb (is_empty e)) (Execute t ex) (Execute e ex)
  | Increment l d => DoIncrement l d
  | Return r => DoReturn frame_size r
  | Switch ty tag cases dflt =>
      DoSwitch ty tag
        (fun exit =>
           (fix go (l : list (list Expr * Statement)) : M unit :=
              match l with
              | [] => mret tt
              | (labels, stat) :: l => do_case ty exit labels (Execute stat ((exit, None) :: ex));; go l
              end) cases)
        (fun exit => Execute dflt ((exit, None) :: ex))
  | Loop sym before cond after body =>
      DoLoop sym (match before with Some b => Some (Execute b ex) | None => None end) cond
        (match after with Some a => Some (Execute a ex) | None => None end)
        (fun exit cont => Execute body ((exit, Some cont) :: ex))
  end.
End Generator.

(** ** Functions *)

(** The start of the generator. *)
(* @src src/src/engine/codegen.cc 255-288 CodeGen::CodeGen *)
Definition codegen_new : CodeGen := MkGen [] false 0 0 None [] false [].

(* @src src/src/engine/codegen.cc 382-386 CodeGen::GenerateFunction *)
Definition start_function : M unit := modify (fun s => MkGen (code_ s) false 0 0 (current_trap_range_ s) (traps_ s) (cc_set_ s) (labels_ s)).

(** The function at label [entry]; the name is that in the message for a missing
    return. *)
(* @src src/src/engine/codegen.cc 378-469 CodeGen::GenerateFunction *)
Definition GenerateFunction (f : Function) (entry : nat) (locals_size frame_size : Z) (has_result : bool) (missing_return : string)
    (body : Statement) (leave_unreturned : bool) : M unit :=
  start_function;;
  global ← NewLabel;
  Bind entry;;
  emit_op enter;;
  emit_int32 (locals_size / 8);;
  s ← get;
  let enter_offset := emit_offset s in
  emit_int32 0;;
  Execute false (Some f) (Some global) frame_size body [];;
  (if has_result then if leave_unreturned then lift Fatal else emit_op stop;; emit_msg missing_return
   else if leave_unreturned then emit_op terminate
   else emit_op ret;; emit_int16 (frame_size / 8));;
  g ← linked global;
  when g (Bind global;; emit_op retU);;
  align_emit_offset;;
  s ← get;
  set_int32_at enter_offset (if leave_unreturned then Z.max (max_stack_height_ s) 20 else max_stack_height_ s).

(** The statics in their order; output variables are left out. *)
Fixpoint initialize (l : list (VarDecl * option Expr)) (global : nat) : M unit :=
  match l with
  | [] => mret tt
  | (d, init) :: l => DoVarDecl true None (Some global) d init;; initialize l global
  end.

(** The initialisation of the statics: [enter] pushes their frame, and [terminate]
    leaves it there. *)
(* @src src/src/engine/codegen.cc 325-375 CodeGen::GenerateInitializers *)
Definition GenerateInitializers (statics : list (VarDecl * option Expr)) (statics_size : Z) : M unit :=
  start_function;;
  global ← NewLabel;
  emit_op enter;;
  emit_int32 ((statics_size + 7) / 8);;
  s ← get;
  let enter_offset := emit_offset s in
  emit_int32 0;;
  initialize statics global;;
  emit_op terminate;;
  g ← linked global;
  when g (Bind global;; emit_op stop;; emit_msg "initialization failed");;
  align_emit_offset;;
  s ← get;
  set_int32_at enter_offset (max_stack_height_ s).

(** A function to compile, with the slots of its variables and parameters. *)
Record FunDef := MkFun { f_function : Function; f_nvars : nat; f_nparams : nat; f_has_result : bool; f_missing_return : string; f_body : Statement }.

Definition generate_function (f : FunDef) : M nat :=
  entry ← NewLabel;
  GenerateFunction (f_function f) entry (8 * Z.of_nat (f_nvars f)) (8 * Z.of_nat (f_nvars f + f_nparams f)) (f_has_result f) (f_missing_return f) (f_body f) false;;
  mret entry.

(* @src src/src/engine/compiler.cc 112-127 Compilation::DoCompile *)
Fixpoint generate_functions (fs : list FunDef) : M (list nat) :=
  match fs with
  | [] => mret []
  | f :: fs => entry ← generate_function f; entries ← generate_functions fs; mret (entry :: entries)
  end.

(** The functions, then the initialisation, whose position is returned with the
    labels of the functions. *)
(* @src src/src/engine/compiler.cc 109-137 Compilation::DoCompile *)
Definition generate_program (fs : list FunDef) (statics : list (VarDecl * option Expr)) (nstatics : nat) : M (list nat * Z) :=
  entries ← generate_functions fs;
  s ← get;
  GenerateInitializers statics (8 * Z.of_nat nstatics);;
  mret (entries, emit_offset s).

(** [Code::New]: the finished code, its trap ranges sorted. *)
(* @src src/src/engine/code.cc 385-440 Code::Initialize *)
Definition Code_New (s : CodeGen) : Code := MkCode (code_ s) (traps_ s) (Sort (traps_ s) (seq 0 (length (traps_ s)))).
