(* ===== verification/CodeGenInv.v ===== *)
(** * Invariants of the code generator

    Every step of the generator keeps the bookkeeping of labels and trap ranges
    consistent, and only refines what will finally be in the code: what the
    finished code says, it already said of the bytes emitted so far. *)
From Stdlib Require Import ZArith Lia.
From stdpp Require Import prelude strings.
From S2P Require Import Prelude Forms Opcodes Arith Interp Nodes CodeGen.

Local Open Scope Z_scope.

(** ** Steps of the generator *)

Lemma M_bind_inv {A B} (m : M A) (f : A -> M B) s b s' :
  (m ≫= f) s = Ok (b, s') -> exists a s1, m s = Ok (a, s1) /\ f a s1 = Ok (b, s').
Proof.
  unfold mbind, M_bind. destruct (m s) as [[a s1]| |] eqn:E; [|done..]. intros H. by exists a, s1.
Qed.

Lemma of_option_inv {A} (o : option A) s a s' : of_option o s = Ok (a, s') -> o = Some a /\ s' = s.
Proof. destruct o; cbn; [|done]. by intros [= -> ->]. Qed.

(** Takes a run of a composed step apart. *)
Ltac gen_inv H :=
  match type of H with
  | (_ ≫= _) _ = Ok _ =>
      let a := fresh "a" in let s1 := fresh "s" in let H1 := fresh "H" in
      apply M_bind_inv in H as (a & s1 & H1 & H); gen_inv H1; gen_inv H
  | get _ = Ok (?a, ?s') => cbv [get] in H; injection H as H <-; try subst a
  | modify _ _ = Ok (?a, ?s') => cbv [modify] in H; injection H as _ H; try subst s'
  | mret _ _ = Ok (?a, ?s') => cbv [mret M_ret] in H; injection H as H ?; subst
  | of_option _ _ = Ok _ => let E := fresh "E" in apply of_option_inv in H as (E & H); try subst
  | _ => idtac
  end.

(** ** Trap ranges *)

(** The ranges around one, from the inside. *)
Fixpoint supers (fuel : nat) (ts : list TrapDesc) (i : option nat) : list nat :=
  match fuel, i with
  | S fuel, Some i => i :: supers fuel ts (ts !! i ≫= super_)
  | _, _ => []
  end.

(** The open ranges: the current one and those around it. *)
Definition opens (s : CodeGen) : list nat := supers (length (traps_ s)) (traps_ s) (current_trap_range_ s).

(** Ranges are entered after those around them. *)
Definition nested (ts : list TrapDesc) : Prop := forall i d j, ts !! i = Some d -> super_ d = Some j -> (j < i)%nat.

Definition begins_sorted (ts : list TrapDesc) : Prop :=
  forall i j d e, (i < j)%nat -> ts !! i = Some d -> ts !! j = Some e -> begin_ d <= begin_ e.

Definition in_range (ts : list TrapDesc) (i : option nat) : Prop := match i with Some i => (i < length ts)%nat | None => True end.

Lemma nested_super ts i d : nested ts -> ts !! i = Some d -> match super_ d with Some j => (j < i)%nat | None => True end.
Proof. intros H E. destruct (super_ d) as [j|] eqn:E2; [by apply (H i d)|done]. Qed.

(** More fuel than the index makes no difference. *)
Lemma supers_fuel ts n1 n2 i :
  nested ts -> in_range ts (Some i) -> (i < n1)%nat -> (i < n2)%nat -> supers n1 ts (Some i) = supers n2 ts (Some i).
Proof.
  intros Hn. revert i n2. induction n1 as [|n1 IH]; intros i n2 Hr H1 H2; [lia|]. destruct n2 as [|n2]; [lia|].
  cbn [supers]. f_equal. destruct (ts !! i) as [d|] eqn:E; cbn [mbind option_bind]; [|by destruct n1, n2].
  pose proof (nested_super ts i d Hn E) as Hs. destruct (super_ d) as [j|]; [|by destruct n1, n2].
  apply IH; cbn [in_range] in *; lia.
Qed.

Lemma supers_lt ts n i : nested ts -> Forall (fun j => (j <= i)%nat) (supers n ts (Some i)).
Proof.
  intros Hn. revert i. induction n as [|n IH]; intros i; [constructor|]. cbn [supers]. constructor; [lia|].
  destruct (ts !! i) as [d|] eqn:E; cbn [mbind option_bind]; [|destruct n; constructor].
  pose proof (nested_super ts i d Hn E) as Hs. destruct (super_ d) as [j|]; [|destruct n; constructor].
  eapply Forall_impl; [apply IH|]. cbn. lia.
Qed.

(** What the chain of ranges depends on. *)
Lemma supers_ext ts ts' n i :
  (forall j d, ts !! j = Some d -> exists d', ts' !! j = Some d' /\ super_ d' = super_ d) -> nested ts -> in_range ts i ->
  supers n ts i = supers n ts' i.
Proof.
  intros H Hn. revert i. induction n as [|n IH]; intros i Hi; [done|]. destruct i as [i|]; [|done].
  cbn [supers in_range] in *. f_equal. destruct (lookup_lt_is_Some_2 _ _ Hi) as [d E].
  destruct (H i d E) as (d' & E' & Es). rewrite E, E'. cbn [mbind option_bind]. rewrite Es. apply IH.
  pose proof (nested_super ts i d Hn E) as Hs. destruct (super_ d); cbn [in_range]; [lia|done].
Qed.

(** ** Consistency *)

Definition pending (s : CodeGen) (p : nat) : Prop :=
  exists l b, labels_ s !! l = Some b /\ Z.of_nat p ∈ forward_ b.
Definition waiting (s : CodeGen) (i : nat) : Prop := exists l b, labels_ s !! l = Some b /\ i ∈ other_ b.

Record wf_labels (s : CodeGen) : Prop := {
  w_fwd : forall l b f, labels_ s !! l = Some b -> f ∈ forward_ b -> 0 <= f < emit_offset s /\ bound_ b = None;
  w_fwd_unique : forall l1 l2 b1 b2 f, labels_ s !! l1 = Some b1 -> labels_ s !! l2 = Some b2 -> f ∈ forward_ b1 -> f ∈ forward_ b2 -> l1 = l2;
  w_dep : forall l b i, labels_ s !! l = Some b -> i ∈ other_ b -> (i < length (traps_ s))%nat;
  w_dep_unique : forall l1 l2 b1 b2 i, labels_ s !! l1 = Some b1 -> labels_ s !! l2 = Some b2 -> i ∈ other_ b1 -> i ∈ other_ b2 -> l1 = l2 }.

Record wf_traps (s : CodeGen) : Prop := {
  w_begin : forall i d, traps_ s !! i = Some d -> begin_ d <= emit_offset s;
  w_sorted : begins_sorted (traps_ s);
  w_nested : nested (traps_ s);
  w_current : in_range (traps_ s) (current_trap_range_ s);
  w_closed : forall i d, traps_ s !! i = Some d -> i ∉ opens s -> end_ d <= emit_offset s;
  w_last : exists inner, supers (length (traps_ s)) (traps_ s) (if decide (traps_ s = []) then None else Some (pred (length (traps_ s)))) = inner ++ opens s
             /\ Forall (fun i => i ∉ opens s) inner;
  w_apart : forall i j d e, (i < j)%nat -> traps_ s !! i = Some d -> traps_ s !! j = Some e ->
    i ∈ supers (length (traps_ s)) (traps_ s) (Some j) \/ (i ∉ opens s /\ end_ d <= begin_ e) }.

Record wf (s : CodeGen) : Prop := { wf_l : wf_labels s; wf_t : wf_traps s }.

(** ** The finished code *)

(** Its bytes and trap ranges, and the position of every label. *)
Record Final := MkFinal { f_code : list cell; f_traps : list TrapDesc; f_addr : nat -> Z }.

Definition same_range (d d' : TrapDesc) : Prop :=
  begin_ d' = begin_ d /\ stack_height_ d' = stack_height_ d /\ var_index_ d' = var_index_ d /\ var_delta_ d' = var_delta_ d
  /\ is_silent_ d' = is_silent_ d /\ super_ d' = super_ d /\ var_traps_ d ⊆ var_traps_ d'.

Record agrees (F : Final) (s : CodeGen) : Prop := {
  a_code : forall p c, code_ s !! p = Some c -> ~ pending s p -> f_code F !! p = Some c;
  a_pend : forall l b f, labels_ s !! l = Some b -> f ∈ forward_ b -> f_code F !! Z.to_nat f = Some (CPcoff (f_addr F l - f - 4));
  a_bound : forall l b t, labels_ s !! l = Some b -> bound_ b = Some t -> f_addr F l = t;
  a_range : forall i d, traps_ s !! i = Some d -> exists d', f_traps F !! i = Some d' /\ same_range d d'
              /\ (i ∈ opens s -> emit_offset s <= end_ d') /\ (i ∉ opens s -> end_ d' = end_ d);
  a_dep : forall l b i d', labels_ s !! l = Some b -> i ∈ other_ b -> f_traps F !! i = Some d' -> target_ d' = f_addr F l;
  a_target : forall i d d', traps_ s !! i = Some d -> ~ waiting s i -> f_traps F !! i = Some d' -> target_ d' = target_ d;
  a_new : forall i d', (length (traps_ s) <= i)%nat -> f_traps F !! i = Some d' -> emit_offset s <= begin_ d' }.

(** ** What a step of the generator does *)

(** A label as others see it: it is bound by its owner only, and collects links. *)
Definition label_le (b b' : BLabel) : Prop := bound_ b' = bound_ b /\ forward_ b ⊆ forward_ b' /\ other_ b ⊆ other_ b'.

Lemma label_le_refl b : label_le b b.
Proof. by split. Qed.
Lemma label_le_trans b1 b2 b3 : label_le b1 b2 -> label_le b2 b3 -> label_le b1 b3.
Proof. intros (H1 & H2 & H3) (H4 & H5 & H6). split; [congruence|]. split; by etrans. Qed.

(** Ranges stay in the ranges they were opened in. *)
Definition keeps_super (s s' : CodeGen) : Prop :=
  forall i d, traps_ s !! i = Some d -> exists d', traps_ s' !! i = Some d' /\ super_ d' = super_ d.

Lemma keeps_super_same s s' : traps_ s' = traps_ s -> keeps_super s s'.
Proof. intros E i d Ed. exists d. by rewrite E. Qed.
Lemma keeps_super_trans s1 s2 s3 : keeps_super s1 s2 -> keeps_super s2 s3 -> keeps_super s1 s3.
Proof. intros H1 H2 i d Ed. destruct (H1 i d Ed) as (d1 & E1 & <-). by apply H2. Qed.

Record step_ok (k : nat) (s s' : CodeGen) : Prop := {
  so_wf : wf s';
  so_len : emit_offset s <= emit_offset s';
  so_labels : (length (labels_ s) <= length (labels_ s'))%nat;
  so_traps : (length (traps_ s) <= length (traps_ s'))%nat;
  so_current : current_trap_range_ s' = current_trap_range_ s;
  so_label : forall l b, (l < k)%nat -> labels_ s !! l = Some b -> exists b', labels_ s' !! l = Some b' /\ label_le b b';
  so_agrees : forall F, agrees F s' -> agrees F s;
  so_super : keeps_super s s' }.

Lemma step_ok_refl k s : wf s -> step_ok k s s.
Proof.
  intros H. split; try done; [|by apply keeps_super_same]. intros l b _ E. exists b. by split; [|apply label_le_refl].
Qed.

Lemma step_ok_trans k s1 s2 s3 : step_ok k s1 s2 -> step_ok k s2 s3 -> step_ok k s1 s3.
Proof.
  intros [] []. split; try lia; try done; [congruence| | |by apply (keeps_super_trans _ s2)]; auto. intros l b Hl E.
  destruct (so_label0 l b Hl E) as (b' & E' & Hb). destruct (so_label1 l b' Hl E') as (b2 & E2 & Hb2).
  exists b2. split; [done|by apply (label_le_trans _ b')].
Qed.

Lemma step_ok_weaken k k' s s' : (k' <= k)%nat -> step_ok k s s' -> step_ok k' s s'.
Proof. intros H []. split; try done. intros l b Hl. apply so_label0. lia. Qed.

(** ** Steps that only append code *)

Definition same_book (s s' : CodeGen) : Prop :=
  labels_ s' = labels_ s /\ traps_ s' = traps_ s /\ current_trap_range_ s' = current_trap_range_ s.

Lemma same_book_opens s s' : same_book s s' -> opens s' = opens s.
Proof. intros (_ & E1 & E2). unfold opens. by rewrite E1, E2. Qed.
Lemma same_book_pending s s' p : same_book s s' -> pending s' p <-> pending s p.
Proof. intros (E & _). unfold pending. by rewrite E. Qed.
Lemma same_book_waiting s s' i : same_book s s' -> waiting s' i <-> waiting s i.
Proof. intros (E & _). unfold waiting. by rewrite E. Qed.

Lemma wf_traps_grow s s' :
  traps_ s' = traps_ s -> current_trap_range_ s' = current_trap_range_ s -> emit_offset s <= emit_offset s' -> wf_traps s -> wf_traps s'.
Proof.
  intros Et Ec Hl []. assert (opens s' = opens s) as Eo by (unfold opens; by rewrite Et, Ec).
  split; rewrite ?Et, ?Ec, ?Eo; try done.
  - intros i d E. specialize (w_begin0 i d E). lia.
  - intros i d E Hi. specialize (w_closed0 i d E Hi). lia.
Qed.

Lemma grow_ok k s s' l : wf s -> same_book s s' -> code_ s' = code_ s ++ l -> step_ok k s s'.
Proof.
  intros [Hl Ht] Hb Ec. pose proof (same_book_opens s s' Hb) as Eo. pose proof Hb as (El & Et & Ecur).
  assert (emit_offset s <= emit_offset s') as Hlen by (unfold emit_offset; rewrite Ec, length_app; lia).
  split; try done; [|by rewrite El|by rewrite Et| | |by apply keeps_super_same].
  - split; [|by apply (wf_traps_grow s)]. destruct Hl. split; rewrite ?El, ?Et; try done.
    intros l0 b f E Hf. destruct (w_fwd0 l0 b f E Hf). split; [lia|done].
  - intros l0 b _ E. exists b. rewrite El. by split; [|apply label_le_refl].
  - intros F []. split; rewrite ?El, ?Et, ?Eo in *; try done.
    + intros p c E Hp. apply a_code0; [rewrite Ec; by apply lookup_app_l_Some|by rewrite same_book_pending].
    + intros i d E. destruct (a_range0 i d E) as (d' & H1 & H2 & H3 & H4). exists d'. repeat (split; [done|]). split; [|done].
      intros Hi. specialize (H3 Hi). lia.
    + intros i d d' E Hw. apply (a_target0 i d d' E). by rewrite same_book_waiting.
    + intros i d' Hi E. specialize (a_new0 i d' Hi E). lia.
Qed.

(** What was emitted stands in the finished code. *)
Lemma emitted F s s' l j c :
  wf s -> same_book s s' -> code_ s' = code_ s ++ l -> agrees F s' -> l !! j = Some c -> f_code F !! (length (code_ s) + j)%nat = Some c.
Proof.
  intros [Hl _] Hb Ec Ha Hj. apply (a_code F s' Ha).
  - rewrite Ec, lookup_app_r by lia. by replace (length (code_ s) + j - length (code_ s))%nat with j by lia.
  - rewrite (same_book_pending s s') by done. intros (l0 & b & E & Hf).
    destruct (w_fwd s Hl l0 b _ E Hf) as (Hr & _). unfold emit_offset in Hr. lia.
Qed.

Lemma get_ok k s a s' : get s = Ok (a, s') -> wf s -> step_ok k s s' /\ a = s /\ s' = s.
Proof. intros [= <- <-] H. by split; [apply step_ok_refl|]. Qed.

Lemma emit_cells_ok k l s a s' : emit_cells l s = Ok (a, s') -> wf s -> step_ok k s s'.
Proof.
  unfold emit_cells. intros H Hw. gen_inv H. destruct (dead_code_ s); [by apply step_ok_refl|]. by apply (grow_ok k s _ l).
Qed.

Lemma SetStack_ok k h s a s' : SetStack h s = Ok (a, s') -> wf s -> step_ok k s s'.
Proof. unfold SetStack. intros H Hw. gen_inv H. apply (grow_ok k s _ []); [done|done|by rewrite app_nil_r]. Qed.

(** ** Labels *)

Lemma NewLabel_ok k s l s' :
  NewLabel s = Ok (l, s') -> wf s -> (k <= length (labels_ s))%nat ->
  step_ok k s s' /\ l = length (labels_ s) /\ labels_ s' = labels_ s ++ [MkLabel [] [] None 0] /\ code_ s' = code_ s /\ traps_ s' = traps_ s.
Proof.
  unfold NewLabel. intros H [Hl Ht] Hk. gen_inv H. subst. cbn. split; [|done].
  set (s' := set_labels _ _).
  assert (forall l b, labels_ s' !! l = Some b -> labels_ s !! l = Some b \/ (l = length (labels_ s) /\ b = MkLabel [] [] None 0)) as Hinv.
  { intros l b E. subst s'. cbn in E. apply lookup_app_Some in E as [E|(E1 & E2)]; [by left|right].
    apply list_lookup_singleton_Some in E2 as (E2 & <-). split; [lia|done]. }
  assert (forall l b, labels_ s !! l = Some b -> labels_ s' !! l = Some b) as Hold by (intros l b E; by apply lookup_app_l_Some).
  assert (opens s' = opens s) as Eo by done.
  assert (forall p, pending s' p -> pending s p) as Hp.
  { intros p (l & b & E & Hf). destruct (Hinv l b E) as [E'|(_ & ->)]; [by exists l, b|by apply elem_of_nil in Hf]. }
  assert (forall i, waiting s' i -> waiting s i) as Hwt.
  { intros i (l & b & E & Hf). destruct (Hinv l b E) as [E'|(_ & ->)]; [by exists l, b|by apply elem_of_nil in Hf]. }
  split; try done; [| | | |by apply keeps_super_same].
  - split; [|by apply (wf_traps_grow s)]. destruct Hl. split.
    + intros l b f E Hf. destruct (Hinv l b E) as [E'|(_ & ->)]; [by apply (w_fwd0 l)|by apply elem_of_nil in Hf].
    + intros l1 l2 b1 b2 f E1 E2 Hf1 Hf2. destruct (Hinv l1 b1 E1) as [E1'|(_ & ->)]; [|by apply elem_of_nil in Hf1].
      destruct (Hinv l2 b2 E2) as [E2'|(_ & ->)]; [|by apply elem_of_nil in Hf2]. by apply (w_fwd_unique0 l1 l2 b1 b2 f).
    + intros l b i E Hf. destruct (Hinv l b E) as [E'|(_ & ->)]; [by apply (w_dep0 l b)|by apply elem_of_nil in Hf].
    + intros l1 l2 b1 b2 f E1 E2 Hf1 Hf2. destruct (Hinv l1 b1 E1) as [E1'|(_ & ->)]; [|by apply elem_of_nil in Hf1].
      destruct (Hinv l2 b2 E2) as [E2'|(_ & ->)]; [|by apply elem_of_nil in Hf2]. by apply (w_dep_unique0 l1 l2 b1 b2 f).
  - subst s'. cbn. rewrite length_app. lia.
  - intros l b Hlk E. exists b. split; [by apply Hold|apply label_le_refl].
  - intros F []. split; try done.
    + intros p c E Hnp. apply a_code0; [done|]. intros Hc. by apply Hnp, Hp.
    + intros l b f E. by apply a_pend0, Hold.
    + intros l b t E. by apply (a_bound0 l b t), Hold.
    + intros l b i d' E. by apply (a_dep0 l b i d'), Hold.
    + intros i d d' E Hnw. apply (a_target0 i d d' E). intros Hc. by apply Hnw, Hwt.
Qed.

Lemma label_of_inv l s b s' : label_of l s = Ok (b, s') -> labels_ s !! l = Some b /\ s' = s.
Proof. unfold label_of. intros H. gen_inv H. subst. done. Qed.

Lemma set_label_inv l b s a s' : set_label l b s = Ok (a, s') -> s' = set_labels (<[l := b]> (labels_ s)) s.
Proof. unfold set_label. intros H. by gen_inv H. Qed.

Definition unbound (s : CodeGen) (l : nat) : Prop := exists b, labels_ s !! l = Some b /\ bound_ b = None.
Definition linked_at (s : CodeGen) (l : nat) : Prop := exists b, labels_ s !! l = Some b /\ is_linked b = true.

Definition is_bound (s : CodeGen) (l : nat) : Prop := exists b t, labels_ s !! l = Some b /\ bound_ b = Some t.
(** What a branch may link: its label, unless that is bound. *)
Definition branch_target (s : CodeGen) (l x : nat) : Prop := l = x /\ ~ is_bound s x.

Lemma bound_step k s s' l : step_ok k s s' -> (l < k)%nat -> is_bound s l -> is_bound s' l.
Proof. intros [] Hl (b & t & E & Hb). destruct (so_label0 l b Hl E) as (b' & E' & Hb' & _). exists b', t. split; [done|congruence]. Qed.

Lemma unbound_lt s l : unbound s l -> (l < length (labels_ s))%nat.
Proof. intros (b & E & _). by apply lookup_lt_Some in E. Qed.

Lemma unbound_step k s s' l : step_ok k s s' -> (l < k)%nat -> unbound s l -> unbound s' l.
Proof. intros [] Hl (b & E & Hb). destruct (so_label0 l b Hl E) as (b' & E' & Hb' & _). exists b'. split; [done|congruence]. Qed.

Lemma is_linked_iff b : is_linked b = true <-> (exists f, f ∈ forward_ b) \/ (exists i, i ∈ other_ b).
Proof.
  unfold is_linked. rewrite orb_true_iff, !negb_true_iff, !bool_decide_eq_false. split.
  - intros [H|H]; [left; destruct (forward_ b) as [|f l]; [done|exists f; by left]|right; destruct (other_ b) as [|f l]; [done|exists f; by left]].
  - intros [(f & H)|(f & H)]; [left|right]; intros E; rewrite E in H; by apply elem_of_nil in H.
Qed.

Lemma linked_step k s s' l : step_ok k s s' -> (l < k)%nat -> linked_at s l -> linked_at s' l.
Proof.
  intros [] Hl (b & E & Hb). destruct (so_label0 l b Hl E) as (b' & E' & _ & Hf & Ho). exists b'. split; [done|].
  apply is_linked_iff. apply is_linked_iff in Hb as [(f & H)|(f & H)]; [left|right]; exists f; auto.
Qed.

Lemma linked_inv l s t s' : linked l s = Ok (t, s') -> s' = s /\ (t = true <-> linked_at s l).
Proof.
  unfold linked. intros H. gen_inv H. apply label_of_inv in H0 as (E & ->). subst. split; [done|].
  unfold linked_at. split; [by exists a|]. intros (b & E' & Hb). congruence.
Qed.

(** Only labels of [T] get linked. *)
Definition links (T : nat -> Prop) (s s' : CodeGen) : Prop := forall l, linked_at s' l -> linked_at s l \/ T l.

Lemma links_same T s s' : labels_ s' = labels_ s -> links T s s'.
Proof. intros E l (b & H). left. exists b. by rewrite <- E. Qed.
Lemma links_trans T s1 s2 s3 : links T s1 s2 -> links T s2 s3 -> links T s1 s3.
Proof. intros H1 H2 l H. destruct (H2 l H) as [H'|H']; [by apply H1|by right]. Qed.
Lemma links_weaken (T T' : nat -> Prop) s s' : (forall l, T l -> T' l) -> links T s s' -> links T' s s'.
Proof. intros HT H l Hl. destruct (H l Hl) as [K|K]; [by left|right; by apply HT]. Qed.

(** A step of the generator that links labels of [T] only, and binds none of the
    labels below [k]. *)
Record static (k : nat) (T : nat -> Prop) (s s' : CodeGen) : Prop := {
  st_step : step_ok k s s';
  st_links : links T s s' }.

Lemma static_refl k T s : wf s -> static k T s s.
Proof. intros H. split; [by apply step_ok_refl|by apply links_same]. Qed.
Lemma static_trans k T s1 s2 s3 : static k T s1 s2 -> static k T s2 s3 -> static k T s1 s3.
Proof. intros [H1 L1] [H2 L2]. split; [by apply (step_ok_trans _ _ s2)|by apply (links_trans _ _ s2)]. Qed.
Lemma static_weaken k k' (T T' : nat -> Prop) s s' : (k' <= k)%nat -> (forall l, T l -> T' l) -> static k T s s' -> static k' T' s s'.
Proof. intros Hk HT [H L]. split; [by apply (step_ok_weaken k)|by apply (links_weaken T)]. Qed.

(** A branch to a label that is not bound: its position waits. *)
Lemma links_insert s s' l b : labels_ s' = <[l := b]> (labels_ s) -> links (eq l) s s'.
Proof.
  intros El l' (b' & E' & Hb). destruct (decide (l = l')) as [->|Hne]; [by right|left]. exists b'.
  by rewrite El, list_lookup_insert_ne in E'.
Qed.

Lemma link_ok s s' l b h tail :
  wf s -> labels_ s !! l = Some b -> bound_ b = None ->
  labels_ s' = <[l := MkLabel (forward_ b ++ [emit_offset s]) (other_ b) None h]> (labels_ s) ->
  traps_ s' = traps_ s -> current_trap_range_ s' = current_trap_range_ s -> code_ s' = code_ s ++ CPcoff 0 :: tail ->
  static (length (labels_ s)) (eq l) s s'
  /\ (forall F, agrees F s' -> f_code F !! length (code_ s) = Some (CPcoff (f_addr F l - emit_offset s - 4))).
Proof.
  intros [Hl Ht] E Hb El Et Ecur Ec. pose proof (lookup_lt_Some _ _ _ E) as Hlen.
  assert (emit_offset s < emit_offset s') as Hoff by (unfold emit_offset; rewrite Ec, length_app; cbn; lia).
  assert (opens s' = opens s) as Eo by (unfold opens; by rewrite Et, Ecur).
  assert (labels_ s' !! l = Some (MkLabel (forward_ b ++ [emit_offset s]) (other_ b) None h)) as Enew
    by (rewrite El; by apply list_lookup_insert_eq).
  assert (forall l' b', labels_ s' !! l' = Some b' -> exists b0, labels_ s !! l' = Some b0 /\ bound_ b' = bound_ b0 /\ other_ b' = other_ b0
    /\ (forall f, f ∈ forward_ b' -> f ∈ forward_ b0 \/ (l' = l /\ f = emit_offset s))) as Hinv.
  { intros l' b' E'. rewrite El in E'. destruct (decide (l' = l)) as [->|Hne].
    - rewrite list_lookup_insert_eq in E' by done. injection E' as <-. exists b. repeat (split; [done|]). intros f Hf. cbn in Hf.
      apply elem_of_app in Hf as [Hf|Hf]; [by left|]. apply list_elem_of_singleton in Hf. by right.
    - rewrite list_lookup_insert_ne in E' by done. exists b'. repeat (split; [done|]). auto. }
  assert (forall l' b0, labels_ s !! l' = Some b0 -> exists b', labels_ s' !! l' = Some b' /\ label_le b0 b') as Hle.
  { intros l' b0 E'. destruct (decide (l' = l)) as [->|Hne].
    - exists (MkLabel (forward_ b ++ [emit_offset s]) (other_ b) None h). split; [done|]. assert (b0 = b) as -> by congruence.
      split; [done|]. split; [|done]. intros f Hf. apply elem_of_app. by left.
    - exists b0. rewrite El, list_lookup_insert_ne by done. by split; [|apply label_le_refl]. }
  split.
  - split; [|by apply (links_insert _ _ l _ El)]. split; try done; [| | | | | |by apply keeps_super_same].
    + split; [|apply (wf_traps_grow s); [done|done|lia|done]]. destruct Hl. split.
      * intros l' b' f E' Hf. destruct (Hinv l' b' E') as (b0 & E0 & Hb0 & _ & Hf0). destruct (Hf0 f Hf) as [Hf1|(-> & ->)].
        -- destruct (w_fwd0 l' b0 f E0 Hf1). split; [lia|congruence].
        -- split; [unfold emit_offset in *; lia|congruence].
      * intros l1 l2 b1 b2 f E1 E2 Hf1 Hf2. destruct (Hinv l1 b1 E1) as (c1 & F1 & _ & _ & G1). destruct (Hinv l2 b2 E2) as (c2 & F2 & _ & _ & G2).
        destruct (G1 f Hf1) as [K1|(J1 & K1)], (G2 f Hf2) as [K2|(J2 & K2)]; [|exfalso..|congruence].
        -- by apply (w_fwd_unique0 l1 l2 c1 c2 f).
        -- destruct (w_fwd0 l1 c1 _ F1 K1). lia.
        -- destruct (w_fwd0 l2 c2 _ F2 K2). lia.
      * intros l' b' i E' Hi. destruct (Hinv l' b' E') as (b0 & E0 & _ & Ho & _). rewrite Et. apply (w_dep0 l' b0); congruence.
      * intros l1 l2 b1 b2 i E1 E2 Hi1 Hi2. destruct (Hinv l1 b1 E1) as (c1 & F1 & _ & G1 & _). destruct (Hinv l2 b2 E2) as (c2 & F2 & _ & G2 & _).
        apply (w_dep_unique0 l1 l2 c1 c2 i); congruence.
    + lia.
    + by rewrite El, length_insert.
    + by rewrite Et.
    + intros l' b' _. apply Hle.
    + intros F Ha. destruct Ha. split.
      * intros p c E' Hp. apply a_code0; [rewrite Ec; by apply lookup_app_l_Some|]. intros (l' & b' & E1 & Hf).
        destruct (Hinv l' b' E1) as (b0 & E0 & _ & _ & Hf0). destruct (Hf0 _ Hf) as [Hf1|(_ & Hf1)]; [apply Hp; by exists l', b0|].
        apply lookup_lt_Some in E'. unfold emit_offset in Hf1. lia.
      * intros l' b' f E' Hf. destruct (Hle l' b' E') as (b2 & E2 & _ & Hf2 & _). apply (a_pend0 l' b2 f E2). auto.
      * intros l' b' t E' Hf. destruct (Hle l' b' E') as (b2 & E2 & Hb2 & _). apply (a_bound0 l' b2 t E2). congruence.
      * intros i d E'. rewrite <- Et in E'. destruct (a_range0 i d E') as (d' & H1 & H2 & H3 & H4). exists d'. rewrite <- Eo. repeat (split; [done|]).
        split; [|done]. intros Hi. specialize (H3 Hi). lia.
      * intros l' b' i d' E' Hi. destruct (Hle l' b' E') as (b2 & E2 & _ & _ & Ho). apply (a_dep0 l' b2 i d' E2). auto.
      * intros i d d' E' Hw. rewrite <- Et in E'. apply (a_target0 i d d' E'). intros (l' & b' & E1 & Hf). apply Hw.
        destruct (Hinv l' b' E1) as (b0 & E0 & _ & Ho & _). exists l', b0. split; [done|congruence].
      * intros i d' Hi E'. rewrite <- Et in Hi. specialize (a_new0 i d' Hi E'). lia.
  - intros F Ha. pose proof (a_pend F s' Ha l _ (emit_offset s) Enew) as H. cbn in H. unfold emit_offset in *. rewrite Nat2Z.id in H.
    apply H. apply elem_of_app. right. by apply list_elem_of_singleton.
Qed.

(** ** Emission *)

(** [s'] is [s] after the emission of [l], unless the code is dead. *)
Record grown (s s' : CodeGen) (l : list cell) (dh : Z) : Prop := {
  g_book : same_book s s';
  g_code : code_ s' = code_ s ++ (if dead_code_ s then [] else l);
  g_dead : dead_code_ s' = dead_code_ s;
  g_cc : cc_set_ s' = cc_set_ s;
  g_height : height_ s' = height_ s + dh }.

Lemma grown_trans s1 s2 s3 l1 l2 d1 d2 : grown s1 s2 l1 d1 -> grown s2 s3 l2 d2 -> grown s1 s3 (l1 ++ l2) (d1 + d2).
Proof.
  intros [(B1 & B2 & B3) C1 D1 E1 F1] [(B1' & B2' & B3') C2 D2 E2 F2]. split; [split; [congruence|split; congruence]| |congruence..|lia].
  rewrite C2, C1, D1. destruct (dead_code_ s1); by rewrite <- app_assoc.
Qed.

Lemma grown_ok k s s' l dh : grown s s' l dh -> wf s -> step_ok k s s'.
Proof. intros [] Hw. by apply (grow_ok k s s' (if dead_code_ s then [] else l)). Qed.

Lemma grown_static k T s s' l dh : grown s s' l dh -> wf s -> static k T s s'.
Proof. intros Hg Hw. split; [by apply (grown_ok _ s s' l dh)|]. destruct Hg as [(E & _) _ _ _ _]. by apply links_same. Qed.

(** The cells from a position on. *)
Definition code_is (F : Final) (p : Z) (l : list cell) : Prop :=
  forall j c, l !! j = Some c -> fetch (f_code F) (p + Z.of_nat j) = Some c.

Lemma code_is_app F p l1 l2 : code_is F p (l1 ++ l2) <-> code_is F p l1 /\ code_is F (p + Z.of_nat (length l1)) l2.
Proof.
  split.
  - intros H. split; intros j c E; [apply H; by apply lookup_app_l_Some|].
    replace (p + Z.of_nat (length l1) + Z.of_nat j) with (p + Z.of_nat (length l1 + j)) by lia. apply H.
    by rewrite lookup_app_r, Nat.add_comm, Nat.add_sub by lia.
  - intros (H1 & H2) j c E. apply lookup_app_Some in E as [E|(Hj & E)]; [by apply H1|].
    specialize (H2 _ _ E). by replace (p + Z.of_nat j) with (p + Z.of_nat (length l1) + Z.of_nat (j - length l1)) by lia.
Qed.

Lemma code_is_cons F p c l : code_is F p (c :: l) <-> fetch (f_code F) p = Some c /\ code_is F (p + 1) l.
Proof.
  change (c :: l) with ([c] ++ l). rewrite code_is_app. change (Z.of_nat (length [c])) with 1. split; intros (H1 & H2); split; try done.
  - specialize (H1 0%nat c eq_refl). by rewrite Z.add_0_r in H1.
  - intros [|j] c' [= <-]. by rewrite Z.add_0_r.
Qed.

Lemma fetch_nat c p : fetch c (Z.of_nat p) = c !! p.
Proof. unfold fetch. replace (Z.of_nat p <? 0) with false by (symmetry; apply Z.ltb_ge; lia). by rewrite Nat2Z.id. Qed.

Lemma grown_code s s' l dh F : grown s s' l dh -> wf s -> dead_code_ s = false -> agrees F s' -> code_is F (emit_offset s) l.
Proof.
  intros [Hb Hc _ _ _] Hw Hd Ha j c Hj. rewrite Hd in Hc. unfold emit_offset.
  replace (Z.of_nat (length (code_ s)) + Z.of_nat j) with (Z.of_nat (length (code_ s) + j)) by lia. rewrite fetch_nat.
  by apply (emitted F s s' l).
Qed.

Lemma grown_len s s' l dh : grown s s' l dh -> dead_code_ s = false -> emit_offset s' = emit_offset s + Z.of_nat (length l).
Proof. intros [_ Hc _ _ _] Hd. rewrite Hd in Hc. unfold emit_offset. rewrite Hc, length_app. lia. Qed.

Lemma emit_cells_grown l s a s' : emit_cells l s = Ok (a, s') -> grown s s' l 0.
Proof.
  unfold emit_cells. intros H. gen_inv H. destruct (dead_code_ s) eqn:E; split; rewrite ?E; try done; cbn; rewrite ?app_nil_r, ?E; try done; lia.
Qed.

Lemma AdjustStack_grown d s a s' : AdjustStack d s = Ok (a, s') -> grown s s' [] d.
Proof. unfold AdjustStack, SetStack. intros H. gen_inv H. split; cbn; try done. by destruct (dead_code_ _); rewrite app_nil_r. Qed.

Lemma emit_op_grown op s a s' : emit_op op s = Ok (a, s') -> grown s s' [COp op] (StackDelta op).
Proof.
  unfold emit_op. intros H. apply M_bind_inv in H as ([] & s1 & H1 & H). apply AdjustStack_grown in H1. apply emit_cells_grown in H.
  replace (StackDelta op) with (StackDelta op + 0) by lia. exact (grown_trans _ _ _ _ _ _ _ H1 H).
Qed.

Lemma grown_refl s : grown s s [] 0.
Proof. split; [done| |done|done|lia]. destruct (dead_code_ s); by rewrite app_nil_r. Qed.

Lemma when_grown b m l dh s a s' :
  when b m s = Ok (a, s') -> (forall a, b = true -> m s = Ok (a, s') -> grown s s' l dh) ->
  grown s s' (if b then l else []) (if b then dh else 0).
Proof. destruct b; cbn [when]; intros H Hg; [by apply (Hg a)|]. gen_inv H. apply grown_refl. Qed.

Lemma Push_grown v s a s' : Push v s = Ok (a, s') -> grown s s' (COp pushV :: CVal v :: replicate 7 CPad) 1.
Proof.
  unfold Push, emit_val. intros H. apply M_bind_inv in H as ([] & s1 & H1 & H). apply emit_op_grown in H1. apply emit_cells_grown in H.
  exact (grown_trans _ _ _ _ _ _ _ H1 H).
Qed.

(** ** Branches *)

(** The condition is moved to the condition code first where it is on the stack. *)
Definition branch_pre (op : Opcode) (s : CodeGen) : list cell := if UsesCC op && negb (cc_set_ s) then [COp set_cc] else [].

Record branched (op : Opcode) (l : nat) (s s' : CodeGen) : Prop := {
  b_static : static (length (labels_ s)) (branch_target s l) s s';
  b_labels : length (labels_ s') = length (labels_ s);
  b_traps : traps_ s' = traps_ s;
  b_cc : cc_set_ s' = false;
  b_height : StackDelta op = 0 -> height_ s' = height_ s - Z.of_nat (length (branch_pre op s));
  b_dead : dead_code_ s' = dead_code_ s || bool_decide (op = branch);
  b_stay : dead_code_ s = true -> code_ s' = code_ s;
  b_len : dead_code_ s = false -> emit_offset s' = emit_offset s + Z.of_nat (length (branch_pre op s)) + 5;
  b_linked : dead_code_ s = false -> unbound s l -> linked_at s' l;
  b_code : dead_code_ s = false -> forall F, agrees F s' ->
    code_is F (emit_offset s) (branch_pre op s ++ [COp op; CPcoff (f_addr F l - (emit_offset s + Z.of_nat (length (branch_pre op s)) + 1) - 4)]) }.

Lemma label_offset_ok l h s offs s1 a s' :
  label_offset l (emit_offset s) h s = Ok (offs, s1) -> emit_pcoff offs s1 = Ok (a, s') -> wf s -> dead_code_ s = false ->
  static (length (labels_ s)) (branch_target s l) s s' /\ length (labels_ s') = length (labels_ s) /\ traps_ s' = traps_ s /\ height_ s' = height_ s
  /\ cc_set_ s' = cc_set_ s /\ dead_code_ s' = false /\ emit_offset s' = emit_offset s + 4 /\ (unbound s l -> linked_at s' l)
  /\ (forall F, agrees F s' -> fetch (f_code F) (emit_offset s) = Some (CPcoff (f_addr F l - emit_offset s - 4))).
Proof.
  unfold label_offset, emit_pcoff. intros H He Hw Hd. apply M_bind_inv in H as (b & s0 & H0 & H).
  apply label_of_inv in H0 as (E & ->). pose proof (lookup_lt_Some _ _ _ E) as Hlt. apply emit_cells_grown in He. destruct (bound_ b) as [t|] eqn:Eb.
  - destruct (s32 (t - emit_offset s - 4) =? t - emit_offset s - 4); [|discriminate H]. gen_inv H.
    pose proof (grown_static (length (labels_ s1)) (branch_target s1 l) _ _ _ _ He Hw) as Hs. pose proof (grown_len _ _ _ _ He Hd) as Hn.
    pose proof He as [(B1 & B2 & B3) _ D C Hh].
    split; [done|]. rewrite B1, B2, C, D. repeat (split; [done || lia|]). split.
    + intros (b' & E' & Hb'). congruence.
    + intros F Ha. destruct (proj1 (code_is_cons _ _ _ _) (grown_code _ _ _ _ F He Hw Hd Ha)) as (Hc & _).
      assert (f_addr F l = t) as Ht; [apply (a_bound F s' Ha l b t); congruence|]. rewrite Ht. exact Hc.
  - apply M_bind_inv in H as ([] & s2 & H2 & H). apply set_label_inv in H2 as ->. gen_inv H.
    destruct He as [(B1 & B2 & B3) Hc D C Hh]. cbn in *. rewrite Hd in Hc.
    destruct (link_ok s s' l b h [CPad; CPad; CPad] Hw E Eb B1 B2 B3 Hc) as (Hs0 & Hf).
    assert (static (length (labels_ s)) (branch_target s l) s s') as Hs.
    { apply (static_weaken (length (labels_ s)) _ (eq l)); [done| |done]. intros x <-. split; [done|]. intros (b' & t' & E' & Hb'). congruence. }
    split; [done|]. rewrite B1, length_insert, B2, C, D. repeat (split; [done || lia|]). split; [|split].
    + unfold emit_offset. rewrite Hc, length_app. cbn. lia.
    + intros _. eexists. split; [rewrite B1; by apply list_lookup_insert_eq|]. apply is_linked_iff. left. exists (emit_offset s). cbn.
      apply elem_of_app. right. by apply list_elem_of_singleton.
    + intros F Ha. unfold emit_offset at 1. rewrite fetch_nat. by apply Hf.
Qed.

Lemma set_cc_grown b s : same_book s (set_cc_flag b s) /\ code_ (set_cc_flag b s) = code_ s.
Proof. done. Qed.

Lemma same_static k T s s' : same_book s s' -> code_ s' = code_ s -> wf s -> static k T s s'.
Proof.
  intros Hb Hc Hw. split; [apply (grow_ok _ s s' []); [done|done|by rewrite Hc, app_nil_r]|]. destruct Hb as (E & _). by apply links_same.
Qed.

Lemma static_wf k T s s' : static k T s s' -> wf s'.
Proof. intros [[] _]. done. Qed.

Lemma Branch_ok op l s a s' : Branch op l s = Ok (a, s') -> wf s -> branched op l s s'.
Proof.
  unfold Branch. intros H Hw. apply M_bind_inv in H as (s0 & s0' & H0 & H). apply (get_ok 0) in H0 as (_ & -> & ->); [|done].
  apply M_bind_inv in H as (u1 & s1 & H1 & H). apply (when_grown _ _ [COp set_cc] (-1)) in H1; [|intros ? _ Hop; exact (emit_op_grown _ _ _ _ Hop)].
  apply M_bind_inv in H as (s2 & s2' & H2 & H). injection H2 as <- <-.
  apply M_bind_inv in H as (u3 & s3 & H3 & H). apply M_bind_inv in H as (u4 & s4 & H4 & H). gen_inv H4.
  assert (H1' : grown s s1 (branch_pre op s) (- Z.of_nat (length (branch_pre op s)))).
  { unfold branch_pre. by destruct (UsesCC op && negb (cc_set_ s)). }
  pose proof (grown_static (length (labels_ s)) (branch_target s l) _ _ _ _ H1' Hw) as Hs1. pose proof (static_wf _ _ _ _ Hs1) as Hw1.
  assert (same_book s3 s' /\ code_ s' = code_ s3 /\ height_ s' = height_ s3 /\ cc_set_ s' = false /\ dead_code_ s' = dead_code_ s3 || bool_decide (op = branch)) as (Hb & Hc & Hh & Hcc & Hd).
  { destruct (bool_decide (op = branch)); cbn [when] in H; gen_inv H; cbn; by rewrite ?orb_true_r, ?orb_false_r. }
  clear H H1. pose proof (fun Hw3 => same_static (length (labels_ s)) (branch_target s l) s3 s' Hb Hc Hw3) as Hs3. pose proof H1' as [(B1 & B2 & B3) C1 D1 E1 F1].
  destruct (dead_code_ s1) eqn:Ed; cbn [negb when] in H3.
  - gen_inv H3. destruct Hb as (K1 & K2 & K3).
    split; try congruence; [by apply (static_trans _ _ _ s3); [|apply Hs3]|lia|rewrite Hc, C1, <- D1; by rewrite app_nil_r].
  - apply M_bind_inv in H3 as (u5 & s5 & H5 & H3). apply emit_op_grown in H5. apply M_bind_inv in H3 as (s6 & s6' & H6 & H3). injection H6 as <- <-.
    apply M_bind_inv in H3 as (offs & s7 & H7 & H8). pose proof (grown_static (length (labels_ s)) (branch_target s l) _ _ _ _ H5 Hw1) as Hs5.
    pose proof H5 as [(G1 & G2 & G3) C5 D5 E5 F5]. rewrite Ed in D5. rename D1 into D0. assert (dead_code_ s = false) as D1 by congruence.
    destruct (label_offset_ok l _ s5 offs s7 _ s3 H7 H8 (static_wf _ _ _ _ Hs5) D5) as (Hs7 & L1 & L2 & L3 & L4 & L5 & L6 & L7 & L8).
    rewrite G1, B1 in Hs7.
    apply (static_weaken _ (length (labels_ s)) _ (branch_target s l)) in Hs7; [|done|intros x (-> & Hx); split; [done|]; unfold is_bound in *; by rewrite <- B1, <- G1]. specialize (Hs3 (static_wf _ _ _ _ Hs7)). pose proof (grown_len _ _ _ _ H1' D1) as N1. pose proof (grown_len _ _ _ _ H5 Ed) as N5.
    pose proof (static_trans _ _ _ _ _ (static_trans _ _ _ _ _ (static_trans _ _ _ _ _ Hs1 Hs5) Hs7) Hs3) as Hall.
    destruct Hb as (K1 & K2 & K3). cbn [length] in N5.
    assert (emit_offset s' = emit_offset s3) as N3 by (unfold emit_offset; by rewrite Hc).
    split; try done; try congruence.
    + lia.
    + lia.
    + intros _ (b & Hb1 & Hb2). destruct L7 as (b' & Hl & Hl2); [exists b; split; [congruence|done]|]. exists b'. by rewrite K1.
    + intros _ F Ha. pose proof (so_agrees _ _ _ (st_step _ _ _ _ Hs3) F Ha) as Ha3. pose proof (so_agrees _ _ _ (st_step _ _ _ _ Hs7) F Ha3) as Ha5.
      pose proof (so_agrees _ _ _ (st_step _ _ _ _ Hs5) F Ha5) as Ha1. apply code_is_app. split; [by apply (grown_code s s1 _ _ F H1')|].
      rewrite <- N1. apply code_is_cons. split; [by apply (code_is_cons F _ _ []), (grown_code s1 s5 _ _ F H5)|].
      intros [|j] c [= <-]. specialize (L8 F Ha3). rewrite N5 in L8. rewrite Z.add_0_r. exact L8.
Qed.

(** ** Binding *)

Lemma patch_ok fs pos code code' :
  patch fs pos code = Ok code' -> Forall (fun f => 0 <= f < Z.of_nat (length code)) fs ->
  length code' = length code
  /\ (forall p, Z.of_nat p ∉ fs -> code' !! p = code !! p)
  /\ (forall f, f ∈ fs -> code' !! Z.to_nat f = Some (CPcoff (pos - f - 4))).
Proof.
  revert code. induction fs as [|f fs IH]; intros code H Hr; cbn [patch] in H.
  - injection H as <-. split; [done|]. split; [done|]. intros f Hf. by apply elem_of_nil in Hf.
  - destruct (s32 _ =? _); [|done]. apply Forall_cons in Hr as (Hf & Hr).
    destruct (IH _ H) as (Hl & Ho & Hn); [by rewrite length_insert|]. rewrite length_insert in Hl. split; [done|]. split.
    + intros p Hp. apply not_elem_of_cons in Hp as (Hne & Hp). rewrite (Ho p Hp). apply list_lookup_insert_ne. lia.
    + intros g Hg. destruct (decide (g ∈ fs)) as [Hin|Hnin]; [by apply Hn|]. apply elem_of_cons in Hg as [->|Hg]; [|done].
      rewrite Ho; [apply list_lookup_insert_eq; lia|]. by rewrite Z2Nat.id by lia.
Qed.

Lemma set_targets_lookup is_ pos ts i :
  set_targets is_ pos ts !! i = if decide (i ∈ is_) then set_target pos <$> ts !! i else ts !! i.
Proof.
  induction is_ as [|j is_ IH]; [by rewrite decide_False by apply not_elem_of_nil|].
  cbn [set_targets foldr] in *. destruct (decide (i = j)) as [->|Hne].
  - rewrite decide_True by by left. rewrite list_lookup_alter_eq. fold (set_targets is_ pos ts) in *. rewrite IH.
    destruct (decide _); [|done]. by destruct (ts !! j).
  - rewrite list_lookup_alter_ne by done. fold (set_targets is_ pos ts) in *. rewrite IH.
    destruct (decide (i ∈ is_)) as [Hi|Hi]; [by rewrite decide_True by by right|]. rewrite decide_False; [done|].
    by apply not_elem_of_cons.
Qed.

Lemma set_targets_length is_ pos ts : length (set_targets is_ pos ts) = length ts.
Proof. induction is_ as [|j is_ IH]; [done|]. cbn [set_targets foldr]. by rewrite length_alter. Qed.

(** The same ranges but for targets and lists of traps. *)
Definition same_shape (ts ts' : list TrapDesc) : Prop :=
  length ts' = length ts /\ forall i d, ts !! i = Some d -> exists d', ts' !! i = Some d' /\ begin_ d' = begin_ d /\ end_ d' = end_ d /\ super_ d' = super_ d.

Lemma same_shape_inv ts ts' i d' :
  same_shape ts ts' -> ts' !! i = Some d' -> exists d, ts !! i = Some d /\ begin_ d' = begin_ d /\ end_ d' = end_ d /\ super_ d' = super_ d.
Proof.
  intros (Hl & H) E. destruct (lookup_lt_is_Some_2 ts i) as [d Ed]; [apply lookup_lt_Some in E; lia|]. exists d. split; [done|].
  destruct (H i d Ed) as (d2 & E2 & H2). assert (d2 = d') as -> by congruence. done.
Qed.

Lemma same_shape_super s s' : same_shape (traps_ s) (traps_ s') -> keeps_super s s'.
Proof. intros (_ & H) i d E. destruct (H i d E) as (d' & E' & _ & _ & Es). by exists d'. Qed.

Lemma same_shape_supers ts ts' n i : same_shape ts ts' -> nested ts -> in_range ts i -> supers n ts' i = supers n ts i.
Proof.
  intros (Hl & H) Hn Hi. symmetry. apply supers_ext; [|done|done]. intros j d E. destruct (H j d E) as (d' & E' & _ & _ & Es). by exists d'.
Qed.

Lemma same_shape_opens s s' :
  same_shape (traps_ s) (traps_ s') -> wf_traps s -> current_trap_range_ s' = current_trap_range_ s -> opens s' = opens s.
Proof. intros Hs [] E. unfold opens. rewrite E, (proj1 Hs). by apply same_shape_supers. Qed.

Lemma wf_traps_shape s s' :
  same_shape (traps_ s) (traps_ s') -> current_trap_range_ s' = current_trap_range_ s -> emit_offset s <= emit_offset s' -> wf_traps s -> wf_traps s'.
Proof.
  intros Hs Ec Hl Hw. pose proof (same_shape_opens s s' Hs Hw Ec) as Eo. pose proof Hw as []. pose proof Hs as (Hlen & _).
  split; rewrite ?Eo, ?Ec.
  - intros i d E. destruct (same_shape_inv _ _ _ _ Hs E) as (d0 & E0 & -> & _). specialize (w_begin0 i d0 E0). lia.
  - intros i j d e Hij Ed Ee. destruct (same_shape_inv _ _ _ _ Hs Ed) as (d0 & E0 & -> & _). destruct (same_shape_inv _ _ _ _ Hs Ee) as (e0 & F0 & -> & _).
    by apply (w_sorted0 i j).
  - intros i d j E Ej. destruct (same_shape_inv _ _ _ _ Hs E) as (d0 & E0 & _ & _ & Es). apply (w_nested0 i d0 j E0). congruence.
  - unfold in_range in *. destruct (current_trap_range_ s); [lia|done].
  - intros i d E Hi. destruct (same_shape_inv _ _ _ _ Hs E) as (d0 & E0 & _ & -> & _). specialize (w_closed0 i d0 E0 Hi). lia.
  - destruct w_last0 as (inner & Hi & Hf). exists inner. split; [|done]. rewrite <- Hi, Hlen.
    destruct (decide (traps_ s = [])) as [E|E]; destruct (decide (traps_ s' = [])) as [E'|E'].
    + by destruct (length (traps_ s)).
    + rewrite E in Hlen. destruct (traps_ s'); done.
    + rewrite E' in Hlen. destruct (traps_ s); done.
    + apply same_shape_supers; [done|done|]. cbn. destruct (traps_ s); [done|]. cbn. lia.
  - intros i j d e Hij Ed Ee. destruct (same_shape_inv _ _ _ _ Hs Ed) as (d0 & E0 & _ & -> & _). destruct (same_shape_inv _ _ _ _ Hs Ee) as (e0 & F0 & -> & _ & _).
    rewrite Hlen, same_shape_supers with (ts := traps_ s); [by apply (w_apart0 i j)|done|done|by apply lookup_lt_Some in F0].
Qed.

Lemma set_targets_shape is_ pos ts : same_shape ts (set_targets is_ pos ts).
Proof.
  split; [apply set_targets_length|]. intros i d E. rewrite set_targets_lookup, E. destruct (decide _); cbn; by eexists.
Qed.

Record bound_to (l : nat) (s s' : CodeGen) : Prop := {
  bd_step : step_ok l s s';
  bd_links : forall l', linked_at s' l' -> linked_at s l' /\ l' <> l;
  bd_same : emit_offset s' = emit_offset s /\ height_ s' = height_ s /\ cc_set_ s' = cc_set_ s /\ dead_code_ s' = false;
  bd_labels : length (labels_ s') = length (labels_ s);
  bd_unbound : forall l', l' <> l -> unbound s l' -> unbound s' l';
  bd_bound : forall l', l' = l \/ is_bound s l' -> is_bound s' l';
  bd_addr : forall F, agrees F s' -> f_addr F l = emit_offset s }.

(** [bind_to] for a label that was not bound. *)
Lemma bind_to_ok s s' l b code h :
  wf s -> labels_ s !! l = Some b -> bound_ b = None -> patch (reverse (forward_ b)) (emit_offset s) (code_ s) = Ok code ->
  code_ s' = code -> traps_ s' = set_targets (other_ b) (emit_offset s) (traps_ s) -> current_trap_range_ s' = current_trap_range_ s ->
  labels_ s' = <[l := MkLabel [] [] (Some (emit_offset s)) h]> (labels_ s) ->
  step_ok l s s' /\ (forall F, agrees F s' -> f_addr F l = emit_offset s).
Proof.
  intros [Hl Ht] E Hb Hp Ec Et Ecur El. pose proof (lookup_lt_Some _ _ _ E) as Hlen.
  destruct (patch_ok _ _ _ _ Hp) as (Plen & Po & Pn).
  { apply Forall_forall. intros f Hf. rewrite elem_of_reverse in Hf. by destruct (w_fwd s Hl l b f E Hf). }
  assert (emit_offset s' = emit_offset s) as Eoff by (unfold emit_offset; congruence).
  assert (same_shape (traps_ s) (traps_ s')) as Hsh by (rewrite Et; apply set_targets_shape).
  pose proof (same_shape_opens s s' Hsh Ht Ecur) as Eo.
  assert (labels_ s' !! l = Some (MkLabel [] [] (Some (emit_offset s)) h)) as Enew by (rewrite El; by apply list_lookup_insert_eq).
  assert (forall l', l' <> l -> labels_ s' !! l' = labels_ s !! l') as Hold by (intros l' Hne; rewrite El; by apply list_lookup_insert_ne).
  assert (forall l' b', labels_ s' !! l' = Some b' -> (l' = l /\ b' = MkLabel [] [] (Some (emit_offset s)) h) \/ (l' <> l /\ labels_ s !! l' = Some b')) as Hinv.
  { intros l' b' E'. destruct (decide (l' = l)) as [->|Hne]; [left; split; [done|congruence]|right]. by rewrite <- Hold. }
  assert (forall p, pending s' p -> pending s p /\ Z.of_nat p ∉ forward_ b) as Hpend.
  { intros p (l' & b' & E' & Hf). destruct (Hinv l' b' E') as [(_ & ->)|(Hne & E0)]; [by apply elem_of_nil in Hf|].
    split; [by exists l', b'|]. intros Hf'. by apply Hne, (w_fwd_unique s Hl l' l b' b (Z.of_nat p)). }
  assert (forall i, waiting s' i -> waiting s i /\ i ∉ other_ b) as Hwait.
  { intros i (l' & b' & E' & Hf). destruct (Hinv l' b' E') as [(_ & ->)|(Hne & E0)]; [by apply elem_of_nil in Hf|].
    split; [by exists l', b'|]. intros Hf'. by apply Hne, (w_dep_unique s Hl l' l b' b i). }
  assert (forall F, agrees F s' -> f_addr F l = emit_offset s) as Haddr by (intros F Ha; by apply (a_bound F s' Ha l _ _ Enew)).
  split; [|done]. split; [|lia|by rewrite El, length_insert|by rewrite (proj1 Hsh)|done| | |by apply same_shape_super].
  - split; [|by apply (wf_traps_shape s); [..|lia|]]. destruct Hl. split.
    + intros l' b' f E' Hf. destruct (Hinv l' b' E') as [(_ & ->)|(Hne & E0)]; [by apply elem_of_nil in Hf|]. rewrite Eoff. by apply (w_fwd0 l').
    + intros l1 l2 b1 b2 f E1 E2 Hf1 Hf2. destruct (Hinv l1 b1 E1) as [(_ & ->)|(_ & F1)]; [by apply elem_of_nil in Hf1|].
      destruct (Hinv l2 b2 E2) as [(_ & ->)|(_ & F2)]; [by apply elem_of_nil in Hf2|]. by apply (w_fwd_unique0 l1 l2 b1 b2 f).
    + intros l' b' i E' Hf. destruct (Hinv l' b' E') as [(_ & ->)|(Hne & E0)]; [by apply elem_of_nil in Hf|]. rewrite (proj1 Hsh). by apply (w_dep0 l' b').
    + intros l1 l2 b1 b2 f E1 E2 Hf1 Hf2. destruct (Hinv l1 b1 E1) as [(_ & ->)|(_ & F1)]; [by apply elem_of_nil in Hf1|].
      destruct (Hinv l2 b2 E2) as [(_ & ->)|(_ & F2)]; [by apply elem_of_nil in Hf2|]. by apply (w_dep_unique0 l1 l2 b1 b2 f).
  - intros l' b' Hlt E'. exists b'. rewrite Hold by lia. by split; [|apply label_le_refl].
  - intros F Ha. pose proof (Haddr F Ha) as Hadd. destruct Ha. split.
    + intros p c E' Hnp. destruct (decide (Z.of_nat p ∈ forward_ b)) as [Hin|Hnin]; [exfalso; apply Hnp; by exists l, b|].
      apply a_code0; [rewrite Ec, Po; [done|by rewrite elem_of_reverse]|]. intros Hc. by apply Hnp, Hpend.
    + intros l' b' f E' Hf. destruct (decide (l' = l)) as [->|Hne].
      * assert (b' = b) as -> by congruence. rewrite Hadd. apply a_code0; [rewrite Ec; apply Pn; by rewrite elem_of_reverse|].
        intros Hc. destruct (Hpend _ Hc) as (_ & Hn). apply Hn. destruct (w_fwd s Hl l b f E Hf) as (Hr & _). by rewrite Z2Nat.id by lia.
      * apply (a_pend0 l' b'); [by rewrite Hold|done].
    + intros l' b' t E' Hb'. destruct (decide (l' = l)) as [->|Hne]; [congruence|]. apply (a_bound0 l' b'); [by rewrite Hold|done].
    + intros i d E'. assert (exists d1, traps_ s' !! i = Some d1 /\ end_ d1 = end_ d /\ forall d', same_range d1 d' -> same_range d d') as (d1 & E1 & Hend & Hsr).
      { rewrite Et, set_targets_lookup, E'. destruct (decide _); by eexists. }
      destruct (a_range0 i d1 E1) as (d' & K1 & K2 & K3 & K4). exists d'. rewrite <- Eo, <- Eoff, <- Hend. auto.
    + intros l' b' i d' E' Hi Hd'. destruct (decide (l' = l)) as [->|Hne].
      * assert (b' = b) as -> by congruence. rewrite Hadd. pose proof (w_dep s Hl l b i E Hi) as Hlt. destruct (lookup_lt_is_Some_2 _ _ Hlt) as [d Ed].
        rewrite (a_target0 i (set_target (emit_offset s) d) d'); [done| |intros Hc; by apply Hwait in Hc as (_ & Hc)|done].
        rewrite Et, set_targets_lookup, Ed. by rewrite decide_True.
      * apply (a_dep0 l' b' i); [by rewrite Hold|done..].
    + intros i d d' E' Hnw Hd'. apply (a_target0 i); [|intros Hc; by apply Hnw, Hwait|done]. rewrite Et, set_targets_lookup, E'.
      rewrite decide_False; [done|]. intros Hi. apply Hnw. by exists l, b.
    + intros i d' Hi E'. rewrite <- Eoff. apply (a_new0 i d'); [by rewrite (proj1 Hsh)|done].
Qed.

Lemma Bind_ok l s a s' : Bind l s = Ok (a, s') -> wf s -> unbound s l -> bound_to l s s'.
Proof.
  unfold Bind, bind_to. intros H Hw (b & E & Hb). apply M_bind_inv in H as (u1 & s1 & H1 & H). gen_inv H1.
  apply M_bind_inv in H as (s2 & s2' & H2 & H). injection H2 as <- <-. apply M_bind_inv in H as (b' & s3 & H3 & H).
  apply label_of_inv in H3 as (E' & ->). assert (b' = b) as -> by (cbn in E'; congruence).
  apply M_bind_inv in H as (s4 & s4' & H4 & H). injection H4 as <- <-. apply M_bind_inv in H as (code & s5 & H5 & H).
  unfold lift in H5. cbn [code_ set_dead] in H5. change (emit_offset (set_dead false s)) with (emit_offset s) in *.
  destruct (patch _ _ _) as [code'| |] eqn:Hp; [|done..]. injection H5 as -> <-. gen_inv H. apply set_label_inv in H as ->. subst.
  match goal with |- bound_to l s ?x => set (s' := x) end.
  destruct (bind_to_ok s s' l b code (height_ s) Hw E Hb Hp) as (Hs & Ha); [done..|].
  pose proof (lookup_lt_Some _ _ _ E) as Hlt. destruct (patch_ok _ _ _ _ Hp) as (Plen & _).
  { apply Forall_forall. intros f Hf. rewrite elem_of_reverse in Hf. by destruct (w_fwd s (wf_l s Hw) l b f E Hf). }
  split; [done| | |subst s'; cbn; by rewrite length_insert| | |done].
  - intros l' (b' & E0 & Hb'). subst s'. cbn in E0. destruct (decide (l' = l)) as [->|Hne].
    + rewrite list_lookup_insert_eq in E0 by done. injection E0 as <-. discriminate Hb'.
    + rewrite list_lookup_insert_ne in E0 by done. split; [by exists b'|done].
  - unfold emit_offset. cbn. by rewrite Plen.
  - intros l' Hne (b' & E0 & Hb'). exists b'. split; [|done]. subst s'. cbn. by rewrite list_lookup_insert_ne.
  - intros l' Hl'. destruct (decide (l' = l)) as [->|Hne].
    + eexists _, _. split; [by apply list_lookup_insert_eq|done].
    + destruct Hl' as [?|(b' & t & E0 & Hb')]; [done|]. exists b', t. split; [|done]. subst s'. cbn. by rewrite list_lookup_insert_ne.
Qed.

(** ** Trap handlers *)

(** [step_ok] but for the current range. *)
Record pre_ok (k : nat) (s s' : CodeGen) : Prop := {
  po_wf : wf s';
  po_len : emit_offset s <= emit_offset s';
  po_labels : (length (labels_ s) <= length (labels_ s'))%nat;
  po_traps : (length (traps_ s) <= length (traps_ s'))%nat;
  po_label : forall l b, (l < k)%nat -> labels_ s !! l = Some b -> exists b', labels_ s' !! l = Some b' /\ label_le b b';
  po_agrees : forall F, agrees F s' -> agrees F s;
  po_super : keeps_super s s' }.

Lemma pre_ok_trans k s1 s2 s3 : pre_ok k s1 s2 -> pre_ok k s2 s3 -> pre_ok k s1 s3.
Proof.
  intros [] []. split; try lia; try done; [| |by apply (keeps_super_trans _ s2)]; auto. intros l b Hl E.
  destruct (po_label0 l b Hl E) as (b' & E' & Hb). destruct (po_label1 l b' Hl E') as (b2 & E2 & Hb2).
  exists b2. split; [done|by apply (label_le_trans _ b')].
Qed.
Lemma step_pre k s s' : step_ok k s s' -> pre_ok k s s'.
Proof. by intros []. Qed.
Lemma pre_step k s s' : pre_ok k s s' -> current_trap_range_ s' = current_trap_range_ s -> step_ok k s s'.
Proof. by intros []. Qed.

Lemma supers_S n ts i : supers (S n) ts (Some i) = i :: supers n ts (ts !! i ≫= super_).
Proof. done. Qed.

Lemma opens_eq s i d :
  wf_traps s -> current_trap_range_ s = Some i -> traps_ s !! i = Some d -> opens s = i :: supers (length (traps_ s)) (traps_ s) (super_ d).
Proof.
  intros Hw Ec E. unfold opens. rewrite Ec. pose proof (lookup_lt_Some _ _ _ E) as Hlt. destruct (length (traps_ s)) as [|n] eqn:En; [lia|].
  rewrite supers_S, E. cbn [mbind option_bind]. f_equal. pose proof (nested_super _ _ _ (w_nested s Hw) E) as Hs.
  destruct (super_ d) as [j|]; [|by destruct n]. apply supers_fuel; [apply Hw|cbn; lia|lia|lia].
Qed.

Lemma supers_below s i d j :
  wf_traps s -> traps_ s !! i = Some d -> j ∈ supers (length (traps_ s)) (traps_ s) (super_ d) -> (j < i)%nat.
Proof.
  intros Hw E Hj. pose proof (nested_super _ _ _ (w_nested s Hw) E) as Hs. destruct (super_ d) as [k|]; [|by destruct (length (traps_ s)); apply elem_of_nil in Hj].
  pose proof (supers_lt (traps_ s) (length (traps_ s)) k (w_nested s Hw)) as Hf. rewrite Forall_forall in Hf. specialize (Hf j Hj). lia.
Qed.

(** The start of a range. *)
Record opened (target i : nat) (d : TrapDesc) (s s' : CodeGen) : Prop := {
  op_pre : pre_ok (length (labels_ s)) s s';
  op_links : links (eq target) s s';
  op_linked : linked_at s' target;
  op_labels : length (labels_ s') = length (labels_ s);
  op_unbound : forall l, unbound s l -> unbound s' l;
  op_index : i = length (traps_ s);
  op_traps : traps_ s' = traps_ s ++ [d];
  op_current : current_trap_range_ s' = Some i;
  op_super : super_ d = current_trap_range_ s;
  op_code : code_ s' = code_ s;
  op_same : height_ s' = height_ s /\ cc_set_ s' = cc_set_ s /\ dead_code_ s' = dead_code_ s;
  op_target : forall F d', agrees F s' -> f_traps F !! i = Some d' -> target_ d' = f_addr F target }.

Lemma add_range_ok s s' target b d h :
  wf s -> labels_ s !! target = Some b -> super_ d = current_trap_range_ s -> begin_ d = emit_offset s ->
  labels_ s' = <[target := MkLabel (forward_ b) (other_ b ++ [length (traps_ s)]) (bound_ b) h]> (labels_ s) ->
  traps_ s' = traps_ s ++ [d] -> current_trap_range_ s' = Some (length (traps_ s)) -> code_ s' = code_ s ->
  pre_ok (length (labels_ s)) s s' /\ (forall F d', agrees F s' -> f_traps F !! length (traps_ s) = Some d' -> target_ d' = f_addr F target).
Proof.
  intros [Hl Ht] E Hsup Hbeg El Et Ecur Ec. pose proof (lookup_lt_Some _ _ _ E) as Hlen.
  assert (emit_offset s' = emit_offset s) as Eoff by (unfold emit_offset; congruence). set (n := length (traps_ s)) in *.
  assert (labels_ s' !! target = Some (MkLabel (forward_ b) (other_ b ++ [n]) (bound_ b) h)) as Enew by (rewrite El; by apply list_lookup_insert_eq).
  assert (forall l' b', labels_ s' !! l' = Some b' -> exists b0, labels_ s !! l' = Some b0 /\ bound_ b' = bound_ b0 /\ forward_ b' = forward_ b0
    /\ (forall f, f ∈ other_ b' -> f ∈ other_ b0 \/ (l' = target /\ f = n))) as Hinv.
  { intros l' b' E'. rewrite El in E'. destruct (decide (l' = target)) as [->|Hne].
    - rewrite list_lookup_insert_eq in E' by done. injection E' as <-. exists b. repeat (split; [done|]). intros f Hf. cbn in Hf.
      apply elem_of_app in Hf as [Hf|Hf]; [by left|]. apply list_elem_of_singleton in Hf. by right.
    - rewrite list_lookup_insert_ne in E' by done. exists b'. repeat (split; [done|]). auto. }
  assert (forall l' b0, labels_ s !! l' = Some b0 -> exists b', labels_ s' !! l' = Some b' /\ label_le b0 b' /\ forward_ b' = forward_ b0) as Hle.
  { intros l' b0 E'. destruct (decide (l' = target)) as [->|Hne].
    - eexists. split; [done|]. assert (b0 = b) as -> by congruence. split; [|done].
      split; [done|]. split; [done|]. intros f Hf. apply elem_of_app. by left.
    - exists b0. rewrite El, list_lookup_insert_ne by done. by split; [|split; [apply label_le_refl|]]. }
  assert (length (traps_ s') = S n) as Hn by (rewrite Et, length_app; cbn; lia).
  assert (nested (traps_ s')) as Hnest.
  { intros i e j Ei Ej. rewrite Et in Ei. apply lookup_app_Some in Ei as [Ei|(Hi & Ei)]; [by apply (w_nested s Ht i e j)|].
    apply list_lookup_singleton_Some in Ei as (Hi0 & <-). rewrite Hsup in Ej. pose proof (w_current s Ht) as Hc. rewrite Ej in Hc. cbn in Hc. lia. }
  assert (opens s' = n :: opens s) as Eo.
  { unfold opens at 1. rewrite Ecur, Hn. cbn [supers]. f_equal. rewrite Et, lookup_app_r, Nat.sub_diag by lia. cbn.
    rewrite Hsup. symmetry. apply supers_ext; [|apply Ht|apply Ht]. intros j e Ej. exists e. split; [by apply lookup_app_l_Some|done]. }
  assert (forall j, j ∈ opens s -> (j < n)%nat) as Hopen.
  { intros j Hj. unfold opens in Hj. pose proof (w_current s Ht) as Hc. destruct (current_trap_range_ s) as [c|]; [|by destruct (length (traps_ s)); apply elem_of_nil in Hj].
    pose proof (supers_lt (traps_ s) (length (traps_ s)) c (w_nested s Ht)) as Hf. rewrite Forall_forall in Hf. specialize (Hf j Hj). cbn in Hc. lia. }
  assert (forall i e, traps_ s !! i = Some e -> traps_ s' !! i = Some e) as Hkeep by (intros i e Ei; rewrite Et; by apply lookup_app_l_Some).
  split.
  - split; [|lia|by rewrite El, length_insert|lia| | |intros i e Ei; exists e; split; [by apply Hkeep|done]].
    + split.
      * destruct Hl. split.
        -- intros l' b' f E' Hf. destruct (Hinv l' b' E') as (b0 & E0 & Hb0 & Hf0 & _). rewrite Hb0, Eoff. apply (w_fwd0 l' b0 f E0). congruence.
        -- intros l1 l2 b1 b2 f E1 E2 Hf1 Hf2. destruct (Hinv l1 b1 E1) as (c1 & F1 & _ & G1 & _). destruct (Hinv l2 b2 E2) as (c2 & F2 & _ & G2 & _).
           apply (w_fwd_unique0 l1 l2 c1 c2 f); congruence.
        -- intros l' b' i E' Hi. destruct (Hinv l' b' E') as (b0 & E0 & _ & _ & Ho). destruct (Ho i Hi) as [Hi'|(_ & ->)]; [|lia].
           specialize (w_dep0 l' b0 i E0 Hi'). fold n in w_dep0. lia.
        -- intros l1 l2 b1 b2 i E1 E2 Hi1 Hi2. destruct (Hinv l1 b1 E1) as (c1 & F1 & _ & _ & G1). destruct (Hinv l2 b2 E2) as (c2 & F2 & _ & _ & G2).
           destruct (G1 i Hi1) as [K1|(J1 & K1)], (G2 i Hi2) as [K2|(J2 & K2)]; [|exfalso..|congruence].
           ++ by apply (w_dep_unique0 l1 l2 c1 c2 i).
           ++ specialize (w_dep0 l1 c1 i F1 K1). fold n in w_dep0. lia.
           ++ specialize (w_dep0 l2 c2 i F2 K2). fold n in w_dep0. lia.
      * destruct Ht. split; rewrite ?Eoff, ?Eo; try done.
        -- intros i e Ei. rewrite Et in Ei. apply lookup_app_Some in Ei as [Ei|(Hi & Ei)]; [by apply (w_begin0 i)|].
           apply list_lookup_singleton_Some in Ei as (_ & <-). lia.
        -- intros i j e1 e2 Hij E1 E2. rewrite Et in E1, E2. apply lookup_app_Some in E2 as [E2|(Hj & E2)].
           ++ rewrite lookup_app_l in E1; [by apply (w_sorted0 i j)|]. apply lookup_lt_Some in E2. lia.
           ++ apply list_lookup_singleton_Some in E2 as (_ & <-). rewrite Hbeg. apply lookup_app_Some in E1 as [E1|(Hi & E1)]; [by apply (w_begin0 i)|].
              apply list_lookup_singleton_Some in E1 as (_ & <-). lia.
        -- rewrite Ecur. cbn. lia.
        -- intros i e Ei Hi. apply not_elem_of_cons in Hi as (Hne & Hi). rewrite Et in Ei. apply lookup_app_Some in Ei as [Ei|(Hge & Ei)]; [by apply (w_closed0 i)|].
           apply list_lookup_singleton_Some in Ei as (Hi0 & _). fold n in Hi0, Hge. lia.
        -- exists []. split; [|constructor]. rewrite decide_False by (intros E0; rewrite E0 in Hn; discriminate Hn).
           rewrite app_nil_l, <- Eo. unfold opens. by rewrite Ecur, Hn.
        -- intros i j e1 e2 Hij E1 E2. rewrite Hn. rewrite Et in E1, E2. apply lookup_app_Some in E2 as [E2|(Hj & E2)].
           ++ pose proof (lookup_lt_Some _ _ _ E2) as Hj. fold n in Hj. rewrite lookup_app_l in E1 by (fold n; lia).
              rewrite <- (supers_ext (traps_ s)), (supers_fuel _ _ n) by (done || (cbn; lia) || (intros k e Ek; exists e; by rewrite Et; split; [apply lookup_app_l_Some|])).
              destruct (w_apart0 i j e1 e2 Hij E1 E2) as [Hin|(Hin & Hb)]; [by left|right]. split; [|done]. apply not_elem_of_cons. split; [lia|done].
           ++ pose proof (lookup_lt_Some _ _ _ E2) as Hj2. cbn in Hj2. fold n in Hj, Hj2. assert (j = n) as -> by lia. rewrite Nat.sub_diag in E2. injection E2 as <-. rewrite lookup_app_l in E1 by (fold n; lia).
              destruct (decide (i ∈ opens s)) as [Hin|Hin]; [left|right].
              ** assert (supers (S n) (traps_ s') (Some n) = opens s') as -> by (unfold opens; by rewrite Ecur, Hn). rewrite Eo. by right.
              ** split; [apply not_elem_of_cons; split; [lia|done]|]. rewrite Hbeg. by apply (w_closed0 i).
    + intros l' b' _ E'. destruct (Hle l' b' E') as (b2 & ? & ? & _). by exists b2.
    + intros F []. split.
      * intros p c E' Hp. apply a_code0; [by rewrite Ec|]. intros (l' & b' & E1 & Hf). destruct (Hinv l' b' E1) as (b0 & E0 & _ & Hf0 & _).
        apply Hp. exists l', b0. split; [done|congruence].
      * intros l' b' f E' Hf. destruct (Hle l' b' E') as (b2 & E2 & (_ & Hf2 & _) & _). apply (a_pend0 l' b2 f E2). auto.
      * intros l' b' t E' Hf. destruct (Hle l' b' E') as (b2 & E2 & (Hb2 & _) & _). apply (a_bound0 l' b2 t E2). congruence.
      * intros i e Ei. destruct (a_range0 i e (Hkeep i e Ei)) as (d' & H1 & H2 & H3 & H4). exists d'. rewrite Eo, Eoff in *.
        pose proof (lookup_lt_Some _ _ _ Ei) as Hi. fold n in Hi. repeat (split; [done|]). split; intros Hin; [apply H3; by right|].
        apply H4. apply not_elem_of_cons. split; [lia|done].
      * intros l' b' i d' E' Hi. destruct (Hle l' b' E') as (b2 & E2 & (_ & _ & Ho) & _). apply (a_dep0 l' b2 i d' E2). auto.
      * intros i e d' Ei Hw. apply (a_target0 i e d' (Hkeep i e Ei)). intros (l' & b' & E1 & Hf). destruct (Hinv l' b' E1) as (b0 & E0 & _ & _ & Ho).
        destruct (Ho i Hf) as [Hi|(_ & ->)]; [apply Hw; by exists l', b0|]. apply lookup_lt_Some in Ei. fold n in Ei. lia.
      * intros i d' Hi E'. fold n in Hi. destruct (decide (i = n)) as [->|Hne]; [|rewrite <- Eoff; apply (a_new0 i d'); [lia|done]].
        destruct (a_range0 n d) as (d2 & E2 & (Hb2 & _) & _); [rewrite Et, lookup_app_r, Nat.sub_diag by lia; done|].
        assert (d2 = d') as -> by congruence. lia.
  - intros F d' Ha Hd'. apply (a_dep F s' Ha target _ n d' Enew); [|done]. cbn. apply elem_of_app. right. by apply list_elem_of_singleton.
Qed.

(** The frame of a variable and its index, for a range. *)
Definition undef_place (fn : option Function) (var : option VarDecl) : option (Z * nat) :=
  match var with
  | None => Some (0, 0%nat)
  | Some d => match fn with
              | None => Some (var_index (v_offset d), 0%nat)
              | Some f => delta ← bp_delta f (v_level d); Some (var_index (v_offset d), delta)
              end
  end.

Lemma links_other s s' target b n h :
  labels_ s' = <[target := MkLabel (forward_ b) (other_ b ++ [n]) (bound_ b) h]> (labels_ s) -> (target < length (labels_ s))%nat ->
  links (eq target) s s' /\ linked_at s' target.
Proof.
  intros El Hlt. split; [by apply (links_insert _ _ _ _ El)|]. eexists. rewrite El. split; [by apply list_lookup_insert_eq|].
  apply is_linked_iff. right. exists n. cbn. apply elem_of_app. right. by apply list_elem_of_singleton.
Qed.

Lemma open_trap_ok ds fn target global var silent s i s' :
  open_trap ds fn target global var silent s = Ok (i, s') -> wf s ->
  exists t index delta, (if ds && negb silent then global else target) = Some t /\ undef_place fn var = Some (index, delta)
    /\ opened t i (MkTrap (emit_offset s) (emit_offset s) (emit_offset s) (Z.to_nat (height_ s)) index delta silent [] (current_trap_range_ s)) s s'.
Proof.
  unfold open_trap. intros H Hw. apply M_bind_inv in H as (t & s1 & H1 & H). apply of_option_inv in H1 as (Et & ->).
  apply M_bind_inv in H as ((index & delta) & s2 & H2 & H). exists t, index, delta. split; [done|].
  assert (undef_place fn var = Some (index, delta) /\ s2 = s) as (Hp & ->).
  { destruct var as [d|]; cbn [undef_place]; [|by gen_inv H2; simplify_eq]. unfold bp_delta_of in H2. destruct fn as [f|]; gen_inv H2; [|by simplify_eq].
    rewrite E. by simplify_eq. }
  split; [done|]. apply M_bind_inv in H as (s3 & s3' & H3 & H). injection H3 as <- <-. apply M_bind_inv in H as (u4 & s4 & H4 & H). gen_inv H4.
  apply M_bind_inv in H as (u5 & s5 & H5 & H). unfold add_dep in H5. apply M_bind_inv in H5 as (b & s6 & H6 & H5).
  apply label_of_inv in H6 as (E & ->). apply set_label_inv in H5 as ->. gen_inv H. subst. cbn in E.
  pose proof (lookup_lt_Some _ _ _ E) as Hlt. set (d := MkTrap _ _ _ _ _ _ _ _ _). match goal with |- opened _ _ _ s ?x => set (s' := x) end.
  destruct (add_range_ok s s' t b d (height_ s) Hw E) as (Hpre & Htgt); [done..|].
  destruct (links_other s s' t b (length (traps_ s)) (height_ s)) as (Hlinks & Hlinked); [done..|].
  split; try done; [by apply length_insert|]. intros l (b' & E' & Hb'). destruct (decide (t = l)) as [->|Hne].
  - eexists. split; [by apply list_lookup_insert_eq|]. cbn. congruence.
  - exists b'. split; [|done]. cbn. by rewrite list_lookup_insert_ne.
Qed.

(** The end of a range. *)
Record closed (i : nat) (s s' : CodeGen) : Prop := {
  cl_pre : pre_ok (length (labels_ s)) s s';
  cl_labels : labels_ s' = labels_ s;
  cl_code : code_ s' = code_ s;
  cl_same : height_ s' = height_ s /\ cc_set_ s' = cc_set_ s /\ dead_code_ s' = dead_code_ s;
  cl_current : forall d, traps_ s !! i = Some d -> current_trap_range_ s' = super_ d }.

Lemma close_range_ok s s' i d :
  wf s -> current_trap_range_ s = Some i -> traps_ s !! i = Some d -> labels_ s' = labels_ s -> code_ s' = code_ s ->
  traps_ s' = <[i := set_end (emit_offset s) d]> (traps_ s) -> current_trap_range_ s' = super_ d -> pre_ok (length (labels_ s)) s s'.
Proof.
  intros [Hl Ht] Hcur E El Ec Et Ecur. pose proof (lookup_lt_Some _ _ _ E) as Hlt.
  assert (emit_offset s' = emit_offset s) as Eoff by (unfold emit_offset; congruence).
  assert (length (traps_ s') = length (traps_ s)) as Hn by (by rewrite Et, length_insert).
  pose proof (opens_eq s i d Ht Hcur E) as Eo1. set (up := supers (length (traps_ s)) (traps_ s) (super_ d)) in *.
  assert (i ∉ up) as Hi by (intros Hi; pose proof (supers_below s i d i Ht E Hi); lia).
  assert (traps_ s' !! i = Some (set_end (emit_offset s) d)) as Enew by (rewrite Et; by apply list_lookup_insert_eq).
  assert (forall j, j <> i -> traps_ s' !! j = traps_ s !! j) as Hold by (intros j Hne; rewrite Et; by apply list_lookup_insert_ne).
  assert (forall j e, traps_ s !! j = Some e -> exists e', traps_ s' !! j = Some e' /\ begin_ e' = begin_ e /\ super_ e' = super_ e /\ (j <> i -> e' = e)) as Hfw.
  { intros j e Ej. destruct (decide (j = i)) as [->|Hne]; [|exists e; by rewrite Hold by done].
    eexists. split; [done|]. assert (e = d) as -> by congruence. done. }
  assert (forall j e', traps_ s' !! j = Some e' -> exists e, traps_ s !! j = Some e /\ begin_ e' = begin_ e /\ super_ e' = super_ e /\ (j <> i -> e' = e)) as Hbw.
  { intros j e' Ej. destruct (lookup_lt_is_Some_2 (traps_ s) j) as [e E0]; [apply lookup_lt_Some in Ej; lia|]. exists e. split; [done|].
    destruct (Hfw j e E0) as (e2 & E2 & H). assert (e2 = e') as -> by congruence. done. }
  assert (in_range (traps_ s) (super_ d)) as Hup.
  { pose proof (nested_super _ _ _ (w_nested s Ht) E) as Hs. destruct (super_ d); cbn; [lia|done]. }
  assert (forall n o, in_range (traps_ s) o -> supers n (traps_ s') o = supers n (traps_ s) o) as Hsup.
  { intros n o Ho. symmetry. apply supers_ext; [|apply Ht|done]. intros j e Ej. destruct (Hfw j e Ej) as (e' & ? & _ & ? & _). by exists e'. }
  assert (opens s' = up) as Eo by (unfold opens; rewrite Ecur, Hn; by apply Hsup).
  split; [|lia|by rewrite El|by rewrite Hn| | |intros j e Ej; destruct (Hfw j e Ej) as (e' & E' & _ & Es & _); by exists e'].
  - split.
    + destruct Hl. split; rewrite ?El, ?Hn, ?Eoff; done.
    + destruct Ht. split; rewrite ?Eoff, ?Eo.
      * intros j e Ej. destruct (Hbw j e Ej) as (e0 & E0 & -> & _). by apply (w_begin0 j).
      * intros j1 j2 e1 e2 Hj E1 E2. destruct (Hbw j1 e1 E1) as (f1 & F1 & -> & _). destruct (Hbw j2 e2 E2) as (f2 & F2 & -> & _). by apply (w_sorted0 j1 j2).
      * intros j e k Ej Ek. destruct (Hbw j e Ej) as (e0 & E0 & _ & Es & _). apply (w_nested0 j e0 k E0). congruence.
      * rewrite Ecur. unfold in_range in *. destruct (super_ d); [lia|done].
      * intros j e Ej Hj. destruct (decide (j = i)) as [->|Hne].
        -- assert (e = set_end (emit_offset s) d) as -> by congruence. cbn. lia.
        -- rewrite Hold in Ej by done. apply (w_closed0 j e Ej). rewrite Eo1. by apply not_elem_of_cons.
      * destruct w_last0 as (inner & Hin & Hf). exists (inner ++ [i]). split.
        -- rewrite <- app_assoc. change ([i] ++ up) with (i :: up). rewrite <- Eo1, <- Hin, Hn. destruct (decide (traps_ s = [])) as [E0|E0]; [rewrite E0 in Hlt; cbn in Hlt; lia|].
           rewrite decide_False; [apply Hsup; cbn; lia|]. intros E1. rewrite E1 in Hn. cbn in Hn. lia.
        -- apply Forall_app. split; [|by apply Forall_singleton]. eapply Forall_impl; [exact Hf|]. cbn. intros j Hj. rewrite Eo1 in Hj. by apply not_elem_of_cons in Hj as (_ & Hj).
      * intros j1 j2 e1 e2 Hj E1 E2. destruct (Hbw j1 e1 E1) as (f1 & F1 & _ & _ & Hne). destruct (Hbw j2 e2 E2) as (f2 & F2 & -> & _ & _).
        rewrite Hn, Hsup by (by apply lookup_lt_Some in F2). destruct (w_apart0 j1 j2 f1 f2 Hj F1 F2) as [Hin|(Hin & Hb)]; [by left|right].
        rewrite Eo1 in Hin. apply not_elem_of_cons in Hin as (Hne1 & Hin). by rewrite (Hne Hne1).
  - intros l b _ E'. exists b. rewrite El. by split; [|apply label_le_refl].
  - intros F []. assert (forall p, pending s' p <-> pending s p) as Hp by (intros p; unfold pending; by rewrite El).
    assert (forall j, waiting s' j <-> waiting s j) as Hwt by (intros j; unfold waiting; by rewrite El). split.
    + intros p c E' Hnp. apply a_code0; [by rewrite Ec|by rewrite Hp].
    + intros l b f E'. apply a_pend0. by rewrite El.
    + intros l b t E'. apply (a_bound0 l b). by rewrite El.
    + intros j e Ej. destruct (Hfw j e Ej) as (e' & E' & _ & _ & Hne). destruct (a_range0 j e' E') as (d' & K1 & K2 & K3 & K4). exists d'. split; [done|].
      rewrite Eo, Eoff, Eo1 in *. destruct (decide (j = i)) as [->|Hji].
      * assert (e = d) as -> by congruence. assert (e' = set_end (emit_offset s) d) as -> by congruence. split; [exact K2|]. split.
        -- intros _. rewrite (K4 Hi). cbn. lia.
        -- intros Hc. exfalso. apply Hc. by left.
      * rewrite (Hne Hji) in *. split; [done|]. split.
        -- intros Hj. apply K3. apply elem_of_cons in Hj as [->|Hj]; [done|done].
        -- intros Hj. apply K4. by apply not_elem_of_cons in Hj as (_ & Hj).
    + intros l b j d' E'. apply (a_dep0 l b). by rewrite El.
    + intros j e d' Ej Hw Hd'. destruct (Hfw j e Ej) as (e' & E' & _ & _ & Hne). rewrite (a_target0 j e' d' E'); [|by rewrite Hwt|done].
      destruct (decide (j = i)) as [->|Hji]; [|by rewrite (Hne Hji)]. assert (e = d) as -> by congruence. assert (e' = set_end (emit_offset s) d) as -> by congruence. done.
    + intros j d' Hj E'. rewrite <- Eoff. apply (a_new0 j d'); [by rewrite Hn|done].
Qed.

Lemma close_trap_ok i s a s' : close_trap i s = Ok (a, s') -> wf s -> current_trap_range_ s = Some i -> closed i s s'.
Proof.
  unfold close_trap. intros H Hw Hc. gen_inv H. subst. match goal with |- closed i ?s ?x => set (s' := x) end.
  split; try done; [by apply (close_range_ok _ _ i a0)|]. intros d Ed. cbn. congruence.
Qed.

Lemma AddTrap_ok k T s a s' :
  AddTrap s = Ok (a, s') -> wf s ->
  static k T s s' /\ code_ s' = code_ s /\ labels_ s' = labels_ s /\ height_ s' = height_ s /\ cc_set_ s' = cc_set_ s /\ dead_code_ s' = dead_code_ s
  /\ length (traps_ s') = length (traps_ s)
  /\ exists i, current_trap_range_ s = Some i
     /\ (forall d F d', traps_ s !! i = Some d -> agrees F s' -> f_traps F !! i = Some d' -> emit_offset s - 1 ∈ var_traps_ d').
Proof.
  unfold AddTrap. intros H Hw. gen_inv H. subst. match goal with |- context [static k T _ ?x] => set (s' := x) end.
  rename a0 into i.
  assert (forall j d, traps_ s !! j = Some d -> exists d', traps_ s' !! j = Some d' /\ begin_ d' = begin_ d /\ end_ d' = end_ d /\ super_ d' = super_ d
    /\ target_ d' = target_ d /\ (forall d2, same_range d' d2 -> same_range d d2)) as Hf.
  { intros j d Ej. subst s'. cbn. destruct (decide (j = i)) as [->|Hne]; [|rewrite list_lookup_alter_ne by done; by exists d].
    rewrite list_lookup_alter_eq, Ej. cbn. eexists. repeat (split; [done|]). intros d2 (K1 & K2 & K3 & K4 & K5 & K6 & K7). repeat (split; [done|]).
    intros x Hx. apply K7. cbn. apply elem_of_app. by left. }
  assert (same_shape (traps_ s) (traps_ s')) as Hsh.
  { split; [by apply length_alter|]. intros j d Ej. destruct (Hf j d Ej) as (d' & ? & ? & ? & ? & _). by exists d'. }
  destruct Hw as [Hl Ht]. pose proof (same_shape_opens s s' Hsh Ht eq_refl) as Eo. pose proof (proj1 Hsh) as Hn.
  split; [split; [|by apply links_same]|].
  - split; try done; [|by rewrite Hn| | |by apply same_shape_super].
    + split; [|by apply (wf_traps_shape s)]. destruct Hl. split; try done. by rewrite Hn.
    + intros l b _ E'. exists b. by split; [|apply label_le_refl].
    + intros F []. split; try done.
      * intros j d Ej. destruct (Hf j d Ej) as (d' & E' & _ & <- & _ & _ & Hs). destruct (a_range0 j d' E') as (d2 & K1 & K2 & K3 & K4). exists d2.
        rewrite Eo in *. auto.
      * intros j d d2 Ej Hw Hd2. destruct (Hf j d Ej) as (d' & E' & _ & _ & _ & <- & _). by apply (a_target0 j d').
      * intros j d' Hj E'. apply (a_new0 j d'); [by rewrite Hn|done].
  - repeat (split; [done|]). exists i. split; [done|]. intros d F d' Ed Ha Hd'.
    destruct (a_range F s' Ha i (add_trap (emit_offset s - 1) d)) as (d2 & E2 & (_ & _ & _ & _ & _ & _ & Hv) & _).
    { subst s'. cbn. by rewrite list_lookup_alter_eq, Ed. }
    assert (d2 = d') as -> by congruence. apply Hv. cbn. apply elem_of_app. right. by apply list_elem_of_singleton.
Qed.
