(* ===== verification/TrapRanges.v ===== *)
(** * The lookup of trap ranges

    The binary search and the walk outwards of [Code::TrapForInstr] find the
    innermost open range of the generator for every byte it emits. *)
From Stdlib Require Import ZArith Lia Sorted.
From stdpp Require Import prelude strings sorting.
From S2P Require Import Prelude Forms Opcodes Arith Interp Nodes CodeGen CodeGenInv.

Local Open Scope Z_scope.
Ltac Zify.zify_post_hook ::= Z.div_mod_to_equations.

(** ** Sorting *)

Lemma begin_of_lookup ds i d : ds !! i = Some d -> begin_of ds i = begin_ d.
Proof. unfold begin_of. by intros ->. Qed.

(** The generator makes the ranges in order: sorting changes nothing. *)
Lemma Sort_sorted ds : begins_sorted ds -> Sort ds (seq 0 (length ds)) = seq 0 (length ds).
Proof.
  intros Hs. assert (forall n k, (k + n = length ds)%nat -> foldr (insert_range ds) [] (seq k n) = seq k n) as H; [|by apply (H _ 0%nat)].
  intros n. induction n as [|n IH]; intros k Hk; [done|]. cbn [seq foldr]. rewrite IH by lia. destruct n as [|n]; [done|]. cbn [seq insert_range].
  destruct (lookup_lt_is_Some_2 ds k) as [d Ed]; [lia|]. destruct (lookup_lt_is_Some_2 ds (S k)) as [e Ee]; [lia|].
  rewrite (begin_of_lookup _ _ _ Ed), (begin_of_lookup _ _ _ Ee). specialize (Hs k (S k) d e). rewrite (proj2 (Z.leb_le _ _)); [done|]. apply Hs; [lia|done..].
Qed.

(** The orders in which the ranges can come out of a sort by their begins that
    leaves those beginning at the same instruction as they were made. *)
Definition sorted_ranges (ds : list TrapDesc) (l : list nat) : Prop :=
  l ≡ₚ seq 0 (length ds) /\ StronglySorted (fun i j => begin_of ds i < begin_of ds j \/ (begin_of ds i = begin_of ds j /\ (i < j)%nat)) l.

(** There is one such order of the ranges of the generator. *)
Lemma sorted_ranges_seq ds l : begins_sorted ds -> sorted_ranges ds l -> l = seq 0 (length ds).
Proof.
  intros Hs (Hp & Hl). apply (StronglySorted_unique le); [| |done].
  - assert (Forall (fun i => (i < length ds)%nat) l) as Hf by (rewrite Hp; apply Forall_forall; intros i Hi; apply elem_of_seq in Hi; lia).
    clear Hp. induction Hl as [|i l Hl IH Hi]; [constructor|]. apply Forall_cons in Hf as (Hf & Hfl). constructor; [by apply IH|]. rewrite Forall_forall in Hi, Hfl |- *. intros j Hj.
    destruct (lookup_lt_is_Some_2 ds i Hf) as [d Ed]. destruct (lookup_lt_is_Some_2 ds j (Hfl j Hj)) as [e Ee]. specialize (Hi j Hj). rewrite (begin_of_lookup _ _ _ Ed), (begin_of_lookup _ _ _ Ee) in Hi.
    destruct (decide (j < i)%nat) as [Hlt|]; [|lia]. specialize (Hs j i e d Hlt Ee Ed). lia.
  - generalize 0%nat (length ds). intros k n. revert k. induction n as [|n IH]; intros k; cbn [seq]; constructor; [apply IH|]. apply Forall_forall. intros j Hj. apply elem_of_seq in Hj. lia.
Qed.

(** The sort of the model is one that gives it. *)
Lemma Sort_sorted_ranges ds : begins_sorted ds -> sorted_ranges ds (Sort ds (seq 0 (length ds))).
Proof.
  intros Hs. rewrite Sort_sorted by done. split; [done|]. assert (forall n k, (k + n <= length ds)%nat -> StronglySorted (fun i j => begin_of ds i < begin_of ds j \/ (begin_of ds i = begin_of ds j /\ (i < j)%nat)) (seq k n)) as H; [|by apply H].
  intros n. induction n as [|n IH]; intros k Hk; cbn [seq]; constructor; [apply IH; lia|]. apply Forall_forall. intros j Hj. apply elem_of_seq in Hj.
  destruct (lookup_lt_is_Some_2 ds k) as [d Ed]; [lia|]. destruct (lookup_lt_is_Some_2 ds j) as [e Ee]; [lia|]. rewrite (begin_of_lookup _ _ _ Ed), (begin_of_lookup _ _ _ Ee).
  specialize (Hs k j d e ltac:(lia) Ed Ee). lia.
Qed.

(** ** The binary search *)

(** The last range that starts at or before the position. *)
Lemma search_range_ok fuel ds n offs low high :
  (low < high <= n)%nat -> (high - low <= S fuel)%nat ->
  (low = 0%nat \/ begin_of ds low <= offs) -> (high = n \/ offs < begin_of ds high) ->
  exists r, search_range fuel ds (seq 0 n) offs low high = Ok r /\ (r < n)%nat
    /\ (r = 0%nat \/ begin_of ds r <= offs) /\ (S r = n \/ offs < begin_of ds (S r)).
Proof.
  revert low high. induction fuel as [|fuel IH]; intros low high Hr Hf Hlow Hhigh; cbn [search_range];
    (destruct (high =? S low)%nat eqn:E; [apply Nat.eqb_eq in E as ->; exists low; repeat split; [lia|done|done]|]); apply Nat.eqb_neq in E; [lia|].
  set (mid := ((high + low) / 2)%nat). assert (low < mid < high)%nat as Hm by (subst mid; split; [apply Nat.div_le_lower_bound|apply Nat.Div0.div_lt_upper_bound]; lia).
  assert (seq 0 n !!! mid = mid) as ->.
  { apply list_lookup_total_correct. rewrite lookup_seq_lt by lia. done. }
  destruct (offs <? begin_of ds mid) eqn:Eb; [apply Z.ltb_lt in Eb|apply Z.ltb_ge in Eb]; apply IH; try lia; auto.
Qed.

(** ** The walk outwards *)

Lemma enclosing_ok ds offs n fuel inner i rest o :
  supers n ds o = inner ++ i :: rest -> (n <= fuel)%nat -> (forall j, j ∈ inner ++ [i] -> is_Some (ds !! j)) ->
  (forall j d, j ∈ inner -> ds !! j = Some d -> contains offs d = false) -> (forall d, ds !! i = Some d -> contains offs d = true) ->
  enclosing fuel ds offs o = Some i.
Proof.
  revert n fuel o. induction inner as [|j inner IH]; intros n fuel o H Hf Hsome Hin Hi; destruct n as [|n]; try discriminate H;
    (destruct o as [k|]; [|discriminate H]); (destruct fuel as [|fuel]; [lia|]); cbn [supers app] in H; injection H as -> H; cbn [enclosing].
  - destruct (Hsome i) as [d Ed]; [by left|]. rewrite Ed. by rewrite (Hi d Ed).
  - destruct (Hsome j) as [d Ed]; [by left|]. rewrite Ed. rewrite (Hin j d); [|by left|done]. rewrite Ed in H. cbn in H.
    apply (IH n fuel); [done|lia|..].
    + intros k Hk. apply Hsome. by right.
    + intros k e Hk. apply Hin. by right.
    + done.
Qed.

(** What the walk finds: the first range with the position, none before it has it. *)
Lemma enclosing_first ds offs n o :
  nested ds ->
  match enclosing n ds offs o with
  | Some i => (exists d, ds !! i = Some d /\ contains offs d = true) /\ (forall j e, j ∈ supers n ds o -> (i < j)%nat -> ds !! j = Some e -> contains offs e = false)
  | None => forall j e, j ∈ supers n ds o -> ds !! j = Some e -> contains offs e = false
  end.
Proof.
  intros Hn. revert o. induction n as [|n IH]; intros o; cbn [enclosing]; [intros j e Hj; by apply elem_of_nil in Hj|]. destruct o as [k|]; [|intros j e Hj; by apply elem_of_nil in Hj].
  destruct (ds !! k) as [d|] eqn:E.
  - destruct (contains offs d) eqn:Ec.
    + split; [by exists d|]. intros j e Hj Hlt _. pose proof (supers_lt ds (S n) k Hn) as Hle. rewrite Forall_forall in Hle. specialize (Hle j Hj). lia.
    + rewrite supers_S, E. cbn [mbind option_bind]. specialize (IH (super_ d)). destruct (enclosing n ds offs (super_ d)) as [i|].
      * destruct IH as (Hi & IH). split; [done|]. intros j e Hj Hlt Ej. apply elem_of_cons in Hj as [->|Hj]; [congruence|by apply (IH j)].
      * intros j e Hj Ej. apply elem_of_cons in Hj as [->|Hj]; [congruence|by apply (IH j)].
  - rewrite supers_S, E. cbn [mbind option_bind]. intros j e Hj Ej. apply elem_of_cons in Hj as [->|Hj]; [congruence|]. by destruct n; apply elem_of_nil in Hj.
Qed.

(** Ranges in the order in which they begin; one that is not around another ended
    before it. *)
Record well_nested (ds : list TrapDesc) : Prop := {
  wn_begins : begins_sorted ds;
  wn_super : nested ds;
  wn_apart : forall i j d e, (i < j)%nat -> ds !! i = Some d -> ds !! j = Some e -> i ∉ supers (length ds) ds (Some j) -> end_ d <= begin_ e }.

(** The ranges of the generator are, when all of them have ended. *)
Lemma wf_well_nested s : wf_traps s -> current_trap_range_ s = None -> well_nested (traps_ s).
Proof.
  intros Hw Hc. split; [apply Hw|apply Hw|]. intros i j d e Hij Ed Ee Hn. destruct (w_apart s Hw i j d e Hij Ed Ee) as [Hin|(_ & Hb)]; [by destruct Hn|done].
Qed.

(** The binary search for the last range that begins at or before a position, and
    the walk outwards from there, find the innermost range with the position. *)
Lemma TrapForInstr_nested c offs :
  well_nested (descs c) -> trap_ranges_ c = seq 0 (length (descs c)) ->
  exists r, TrapForInstr c offs = Ok r /\
    match r with
    | Some i => (exists d, descs c !! i = Some d /\ contains offs d = true) /\ (forall j e, (i < j)%nat -> descs c !! j = Some e -> contains offs e = false)
    | None => forall j e, descs c !! j = Some e -> contains offs e = false
    end.
Proof.
  intros [Hs Hn Ha] Er. set (ds := descs c) in *. unfold TrapForInstr. fold ds. rewrite Er. destruct (seq 0 (length ds)) as [|x l] eqn:Eseq.
  { exists None. split; [done|]. intros j e Ej. apply lookup_lt_Some in Ej. apply (f_equal length) in Eseq. rewrite length_seq in Eseq. cbn in Eseq. lia. }
  rewrite <- Eseq. pose proof (f_equal length Eseq) as Hlen. rewrite length_seq in Hlen. cbn in Hlen. rewrite length_seq.
  destruct (search_range_ok (length ds) ds (length ds) offs 0 (length ds)) as (r & -> & Hr & Hlow & Hhigh); [lia|lia|by left|by left|]. cbn [mbind res_bind].
  rewrite lookup_seq_lt by lia. cbn [Nat.add]. eexists. split; [done|]. destruct (lookup_lt_is_Some_2 ds r Hr) as [dr Edr].
  assert (forall j e, ds !! j = Some e -> contains offs e = true -> j ∈ supers (S (length ds)) ds (Some r)) as Hin.
  { intros j e Ej Hc. unfold contains in Hc. apply andb_true_iff in Hc as (Hb & He). apply Z.leb_le in Hb. apply Z.ltb_lt in He. pose proof (lookup_lt_Some _ _ _ Ej) as Hj.
    rewrite (supers_fuel ds (S (length ds)) (length ds) r Hn Hr ltac:(lia) ltac:(lia)). destruct (decide (j ∈ supers (length ds) ds (Some r))) as [|Hout]; [done|]. exfalso.
    destruct (Nat.lt_trichotomy j r) as [Hlt|[->|Hgt]].
    - pose proof (Ha j r e dr Hlt Ej Edr Hout). destruct Hlow as [->|Hlow]; [lia|]. rewrite (begin_of_lookup _ _ _ Edr) in Hlow. lia.
    - apply Hout. destruct (length ds) as [|n]; [lia|]. rewrite supers_S. by left.
    - destruct Hhigh as [Hh|Hh]; [lia|]. destruct (lookup_lt_is_Some_2 ds (S r)) as [dn Edn]; [lia|]. rewrite (begin_of_lookup _ _ _ Edn) in Hh.
      destruct (decide (S r = j)) as [<-|Hne]; [assert (dn = e) as -> by congruence; lia|]. pose proof (Hs (S r) j dn e ltac:(lia) Edn Ej). lia. }
  pose proof (enclosing_first ds offs (S (length ds)) (Some r) Hn) as Hf. destruct (enclosing (S (length ds)) ds offs (Some r)) as [i|].
  - destruct Hf as (Hi & Hf). split; [done|]. intros j e Hlt Ej. destruct (contains offs e) eqn:Ec; [|done]. rewrite <- Ec. by apply (Hf j e (Hin j e Ej Ec)).
  - intros j e Ej. destruct (contains offs e) eqn:Ec; [|done]. rewrite <- Ec. by apply (Hf j e (Hin j e Ej Ec)).
Qed.

(** ** Ownership *)

(** The finished code as the process has it: the ranges of [F], sorted. *)
Definition ranges_of (c : Code) (F : Final) : Prop :=
  descs c = f_traps F /\ trap_ranges_ c = seq 0 (length (f_traps F)) /\ begins_sorted (f_traps F).

(** The range of an instruction emitted between [s] and [s'] is the current one. *)
Lemma owner_ok c F s s' i p :
  ranges_of c F -> wf s -> agrees F s -> agrees F s' -> length (traps_ s') = length (traps_ s) -> opens s' = opens s ->
  current_trap_range_ s = Some i -> emit_offset s <= p < emit_offset s' -> TrapForInstr c p = Ok (Some i).
Proof.
  intros (Ed & Er & Hs) [_ Hw] Ha Ha' Hlen Ho Hc Hp. pose proof (w_current s Hw) as Hi. rewrite Hc in Hi. cbn in Hi.
  destruct (lookup_lt_is_Some_2 _ _ Hi) as [d E]. pose proof (opens_eq s i d Hw Hc E) as Eo.
  destruct (a_range F s Ha i d E) as (d' & E' & Hsr & Hopen & _). pose proof (lookup_lt_Some _ _ _ E') as Hn. set (n := length (f_traps F)) in *.
  set (m := length (traps_ s)) in *. assert (m <= n)%nat as Hmn.
  { destruct (lookup_lt_is_Some_2 (traps_ s) (pred m)) as [e Ee]; [lia|]. destruct (a_range F s Ha _ e Ee) as (e' & Ee' & _). apply lookup_lt_Some in Ee'. fold n in Ee'. lia. }
  unfold TrapForInstr. rewrite Er, Ed. clear Er. destruct (seq 0 n) as [|x l] eqn:Eseq; [apply (f_equal length) in Eseq; rewrite length_seq in Eseq; cbn in Eseq; lia|].
  rewrite <- Eseq. clear x l Eseq. rewrite length_seq.
  destruct (search_range_ok n (f_traps F) n p 0 n) as (r & -> & Hr & Hlow & Hhigh); [lia|lia|by left|by left|]. cbn [mbind res_bind].
  destruct (lookup_lt_is_Some_2 (traps_ s) (pred m)) as [e Ee]; [lia|]. destruct (a_range F s Ha _ e Ee) as (e' & Ee' & (Hbe & _) & _).
  assert (r = pred m) as ->.
  { destruct (lookup_lt_is_Some_2 (f_traps F) r) as [dr Edr]; [done|]. rewrite (begin_of_lookup _ _ _ Edr) in Hlow.
    pose proof (w_begin s Hw _ e Ee) as Hb. destruct (decide (r < pred m)%nat) as [Hlt|Hge].
    - destruct Hhigh as [Hh|Hh]; [lia|]. destruct (lookup_lt_is_Some_2 (f_traps F) (S r)) as [ds Eds]; [fold n; lia|].
      rewrite (begin_of_lookup _ _ _ Eds) in Hh. destruct (decide (S r = pred m)) as [Heq|Hne]; [rewrite Heq in Eds; assert (ds = e') as -> by congruence; lia|].
      pose proof (Hs (S r) (pred m) ds e' ltac:(lia) Eds Ee'). lia.
    - destruct (decide (r = pred m)) as [|Hne]; [done|]. exfalso. destruct Hlow as [Hz|Hlow]; [lia|].
      pose proof (a_new F s' Ha' r dr) as Hnew. rewrite Hlen in Hnew. fold m in Hnew. specialize (Hnew ltac:(lia) Edr). lia. }
  rewrite lookup_seq_lt by lia. cbn [Nat.add].
  destruct (w_last s Hw) as (inner & Hin & Hni). fold m in Hin. rewrite decide_False in Hin by (intros E0; apply (f_equal length) in E0; fold m in E0; cbn in E0; lia).
  rewrite Eo in Hin. f_equal.
  assert (forall j, j ∈ inner ++ [i] -> (j < m)%nat) as Hlt.
  { intros j Hj. pose proof (supers_lt (traps_ s) m (pred m) (w_nested s Hw)) as Hf. rewrite Hin, Forall_forall in Hf.
    assert (j <= pred m)%nat; [|lia]. apply Hf. apply elem_of_app in Hj as [Hj|Hj]; apply elem_of_app; [by left|right]. apply list_elem_of_singleton in Hj as ->. by left. }
  apply (enclosing_ok _ _ m _ inner i (supers m (traps_ s) (super_ d))); [|lia|..].
  - rewrite <- Hin. symmetry. apply supers_ext; [|apply Hw|cbn; lia]. intros j dj Ej. destruct (a_range F s Ha j dj Ej) as (d2 & E2 & (_ & _ & _ & _ & _ & Hsup & _) & _). by exists d2.
  - intros j Hj. apply lookup_lt_is_Some_2. specialize (Hlt j Hj). fold n. lia.
  - intros j d2 Hj E2. destruct (lookup_lt_is_Some_2 (traps_ s) j) as [dj Ej]; [apply Hlt; apply elem_of_app; by left|].
    destruct (a_range F s Ha j dj Ej) as (d3 & E3 & _ & _ & Hclosed). assert (d3 = d2) as -> by congruence.
    rewrite Forall_forall in Hni. specialize (Hclosed (Hni j Hj)). pose proof (w_closed s Hw j dj Ej (Hni j Hj)).
    unfold contains. apply andb_false_iff. right. apply Z.ltb_ge. lia.
  - intros d2 E2. assert (d2 = d') as -> by congruence. destruct Hsr as (Hb & _). pose proof (w_begin s Hw i d E).
    destruct (lookup_lt_is_Some_2 (traps_ s') i) as [d1 E1]; [rewrite Hlen; done|]. destruct (a_range F s' Ha' i d1 E1) as (d3 & E3 & _ & Hopen' & _).
    assert (d3 = d') as -> by congruence. assert (i ∈ opens s') as Hin' by (rewrite Ho, Eo; by left). specialize (Hopen' Hin').
    unfold contains. rewrite Hb. apply andb_true_iff. split; [apply Z.leb_le|apply Z.ltb_lt]; lia.
Qed.
