(* ===== verification/Semantics.v ===== *)
(** * Meaning of expressions and statements

    What the nodes of Nodes.v compute, without code: an evaluator of expressions
    over the frames of variables, and one of statements with fuel. The code
    generator is compared with it in ExprCorrect.v and StatCorrect.v. *)
From Stdlib Require Import ZArith Lia.
From stdpp Require Import prelude strings.
From S2P Require Import Prelude Forms Opcodes TaggedInts Arith Interp Nodes CodeGen.

Local Open Scope Z_scope.

(** The variables of a frame by their index, and the frames along the static
    chain, the innermost first. *)
Abbreviation frame := (list (option Val)).
Abbreviation env := (list frame).

Section Semantics.
Context (fn : Function) (ignore_undefs : bool).

(** The frame of a variable and its index, which is never 0. *)
Definition place (d : VarDecl) : option (nat * nat) :=
  delta ← bp_delta fn (v_level d);
  if 0 <? var_index (v_offset d) then Some (delta, Z.to_nat (var_index (v_offset d))) else None.

(** [None] when there is no such variable, [Some None] when it is undefined. *)
Definition look (e : env) (d : VarDecl) : option (option Val) :=
  '(delta, i) ← place d; fr ← e !! delta; fr !! i.

Definition assign (e : env) (d : VarDecl) (v : option Val) : option env :=
  '(delta, i) ← place d; fr ← e !! delta; _ ← fr !! i; Some (<[delta := <[i := v]> fr]> e).

Definition operate (opcode : Opcode) (x y : Val) : res Val :=
  if is_compare opcode then match compare opcode x y with Ok b => Ok (VBool b) | _ => Fatal end else arith opcode x y.

Definition index_val (ty : Indexable) (a i : Val) : res Val :=
  r ← load_indexed (IndexedAccess ty true false 0) a i; match r with inl v => Ok v | inr _ => Fail end.

Definition field_val (t : Val) (slot : Z) : res Val :=
  match t with
  | VTuple slots => match (if 0 <=? slot then slots !! Z.to_nat slot else None) with Some v => Ok v | None => Fatal end
  | _ => Fatal
  end.

(** [Fail] is undefined; [Fatal] is outside of what the compiler lets through. *)
Fixpoint eval (e : env) (x : Expr) : res Val :=
  match x with
  | Literal v => Ok v
  | VariableE d is_defined =>
      match look e d with
      | Some (Some v) => Ok v
      | Some None => if is_defined then Fatal else Fail
      | None => Fatal
      end
  | Binary LAND _ l r =>
      v ← eval e l; b ← as_bool v;
      if b : bool then v ← eval e r; b ← as_bool v; Ok (VBool b) else Ok (VBool false)
  | Binary LOR _ l r =>
      v ← eval e l; b ← as_bool v;
      if b : bool then Ok (VBool true) else v ← eval e r; b ← as_bool v; Ok (VBool b)
  | Binary _ opcode l r => x ← eval e l; y ← eval e r; operate opcode x y
  | Def arg => match eval e arg with Ok _ => Ok (VBool true) | Fail => Ok (VBool false) | Fatal => Fatal end
  | RuntimeGuard g x _ => v ← eval e g; b ← as_bool v; if b : bool then eval e x else Fail
  | Index ty a i => a ← eval e a; i ← eval e i; index_val ty a i
  | Selector v slot _ => t ← eval e v; field_val t slot
  end.

(** How a statement ends. A jump names the statement it goes to as the node does;
    a statement that reads an undefined value fails unless [ignore_undefs]. *)
Inductive result : Type :=
| RNormal (e : env)
| RBreak (k : nat) (e : env)
| RContinue (k : nat) (e : env)
| RReturn (v : option Val) (e : env)
| RReturnUndef (e : env)
| RFailed (e : env)
| RStuck
| RFuel.

Definition on_undef (e : env) : result := if ignore_undefs then RNormal e else RFailed e.
Definition normal (e : option env) : result := match e with Some e => RNormal e | None => RStuck end.

(** The value of an expression for the rest of a statement; [u] when it is
    undefined. *)
Definition with_value (r : res Val) (u : result) (k : Val -> result) : result :=
  match r with Ok v => k v | Fail => u | Fatal => RStuck end.
Definition with_bool (r : res Val) (u : result) (k : bool -> result) : result :=
  with_value r u (fun v => match v with VBool b => k b | _ => RStuck end).

Definition exec_assign (e : env) (d : VarDecl) (r : res Val) (u : env -> result) : result :=
  match assign e d None with
  | None => RStuck
  | Some e0 => with_value r (u e0) (fun v => normal (assign e d (Some v)))
  end.

(** Out of a breakable statement. *)
Definition leave (r : result) : result :=
  match r with
  | RBreak 0 e => RNormal e
  | RBreak (S k) e => RBreak k e
  | RContinue 0 _ => RStuck
  | RContinue (S k) e => RContinue k e
  | r => r
  end.

(** Whether one of the labels of a case is the tag; an undefined label is not. *)
Fixpoint match_labels (e : env) (ty : TagType) (v : Val) (labels : list Expr) : res bool :=
  match labels with
  | [] => Ok false
  | x :: labels =>
      match eval e x with
      | Ok y => match compare (compare_op ty) v y with
                | Ok true => Ok true
                | Ok false => match_labels e ty v labels
                | _ => Fatal
                end
      | Fail => if ignore_undefs then match_labels e ty v labels else Fail
      | Fatal => Fatal
      end
  end.

(** The case to execute. *)
Fixpoint select_case (e : env) (ty : TagType) (v : Val) (cases : list (list Expr * Statement)) (dflt : Statement) : res Statement :=
  match cases with
  | [] => Ok dflt
  | (labels, stat) :: cases => b ← match_labels e ty v labels; if b : bool then Ok stat else select_case e ty v cases dflt
  end.

Definition then_run (r : result) (k : env -> result) : result := match r with RNormal e => k e | r => r end.

Fixpoint exec_list (run : env -> Statement -> result) (e : env) (l : list Statement) : result :=
  match l with
  | [] => RNormal e
  | x :: l => then_run (run e x) (fun e => exec_list run e l)
  end.

Definition run_opt (run : env -> Statement -> result) (e : env) (x : option Statement) : result :=
  match x with Some x => run e x | None => RNormal e end.

(** The test of a loop: [k] to go on. *)
Definition loop_test (e : env) (cond : option Expr) (k : result) : result :=
  match cond with
  | None => k
  | Some x => with_bool (eval e x) (on_undef e) (fun b => if b then k else RNormal e)
  end.

(** The body, what follows it, and the test. *)
Fixpoint exec_loop (run : env -> Statement -> result) (fuel : nat) (e : env) (cond : option Expr) (after : option Statement)
    (body : Statement) : result :=
  match fuel with
  | O => RFuel
  | S fuel =>
      let next e := then_run (run_opt run e after) (fun e => loop_test e cond (exec_loop run fuel e cond after body)) in
      match run e body with
      | RContinue 0 e => next e
      | RNormal e => next e
      | r => leave r
      end
  end.

Fixpoint execute (fuel : nat) (e : env) (x : Statement) : result :=
  match fuel with
  | O => RFuel
  | S fuel =>
      match x with
      | Assignment (VariableE d _) r => exec_assign e d (eval e r) on_undef
      | Assignment _ _ => RStuck
      | Block l => exec_list (execute fuel) e l
      | Break k => RBreak k e
      | Continue k => RContinue k e
      | TypeDecl | Empty => RNormal e
      | LocalDecl d None => RNormal e
      | LocalDecl d (Some init) => if is_static d then RNormal e else exec_assign e d (eval e init) RNormal
      | ExprStat x => with_value (eval e x) (on_undef e) (fun _ => RNormal e)
      | If c t f => with_bool (eval e c) (on_undef e) (fun b => execute fuel e (if b then t else f))
      | Increment (VariableE d _) delta =>
          match look e d with Some (Some (VInt i)) => normal (assign e d (Some (VInt (s64 (i + delta))))) | _ => RStuck end
      | Increment _ _ => RStuck
      | Return None => RReturn None e
      | Return (Some x) => with_value (eval e x) (RReturnUndef e) (fun v => RReturn (Some v) e)
      | Switch ty tag cases dflt =>
          with_value (eval e tag) (on_undef e) (fun v =>
            match select_case e ty v cases dflt with
            | Ok stat => leave (execute fuel e stat)
            | Fail => RFailed e
            | Fatal => RStuck
            end)
      | Loop sym before cond after body =>
          then_run (run_opt (execute fuel) e before) (fun e =>
            match sym with
            | DO => exec_loop (execute fuel) fuel e cond after body
            | _ => loop_test e cond (exec_loop (execute fuel) fuel e cond after body)
            end)
      end
  end.
End Semantics.

(** ** The programs considered *)

(** Operators have the opcodes that the code generator's tables give them; fields
    have positions of 16 bits. *)
Definition binary_opcode (opcode : Opcode) : bool := StackDelta opcode =? (if SetsCC opcode then -2 else -1).

Fixpoint expr_ok (x : Expr) : bool :=
  match x with
  | Literal _ | VariableE _ _ => true
  | Binary LAND _ l r | Binary LOR _ l r => expr_ok l && expr_ok r
  | Binary _ opcode l r => binary_opcode opcode && expr_ok l && expr_ok r
  | Def x => expr_ok x
  | RuntimeGuard g x _ => expr_ok g && expr_ok x
  | Index _ a i => expr_ok a && expr_ok i
  | Selector v slot _ => (slot <? 2 ^ 15) && expr_ok v
  end.

Definition is_variable (x : Expr) : bool := match x with VariableE _ _ => true | _ => false end.
Definition opt_all {A} (f : A -> bool) (o : option A) : bool := match o with Some a => f a | None => true end.

Definition opt_all_prop {A} (P : A -> Prop) (o : option A) : Prop := match o with Some a => P a | None => True end.

(** Assignments and increments are of variables. *)
Fixpoint stat_ok (x : Statement) : bool :=
  match x with
  | Assignment l r => is_variable l && expr_ok r
  | Block l => forallb stat_ok l
  | Break _ | Continue _ | TypeDecl | Empty => true
  | LocalDecl _ init => opt_all expr_ok init
  | ExprStat x => expr_ok x
  | If c t f => expr_ok c && stat_ok t && stat_ok f
  | Increment l delta => is_variable l && (-128 <=? delta) && (delta <? 128) && negb (delta =? 0)
  | Return r => opt_all expr_ok r
  | Switch _ tag cases dflt => expr_ok tag && forallb (fun '(labels, stat) => forallb expr_ok labels && stat_ok stat) cases && stat_ok dflt
  | Loop _ before cond after body => opt_all stat_ok before && opt_all expr_ok cond && opt_all stat_ok after && stat_ok body
  end.

(** Induction over the statements inside lists and options too. *)
Lemma Statement_nested (P : Statement -> Prop) :
  (forall l r, P (Assignment l r)) -> (forall l, Forall P l -> P (Block l)) -> (forall k, P (Break k)) -> (forall k, P (Continue k)) -> P TypeDecl ->
  (forall d init, P (LocalDecl d init)) -> P Empty -> (forall x, P (ExprStat x)) -> (forall c t f, P t -> P f -> P (If c t f)) ->
  (forall l d, P (Increment l d)) -> (forall r, P (Return r)) ->
  (forall ty tag cases dflt, Forall (fun x => P x.2) cases -> P dflt -> P (Switch ty tag cases dflt)) ->
  (forall sym before cond after body, opt_all_prop P before -> opt_all_prop P after -> P body -> P (Loop sym before cond after body)) ->
  forall x, P x.
Proof.
  intros HA HB HBr HC HT HL HE HX HI HIn HR HS HLo. fix IH 1.
  intros [l r|l|k|k| |d init| |x|c t f|l d|r|ty tag cases dflt|sym before cond after body];
    [apply HA|apply HB|apply HBr|apply HC|apply HT|apply HL|apply HE|apply HX|apply HI; apply IH|apply HIn|apply HR|apply HS; [|apply IH]|apply HLo; [| |apply IH]].
  - induction l as [|x l IHl]; constructor; [apply IH|exact IHl].
  - induction cases as [|[labels x] cases IHl]; constructor; [apply IH|exact IHl].
  - destruct before as [x|]; [apply IH|exact I].
  - destruct after as [x|]; [apply IH|exact I].
Qed.

(** ** Undefined values are announced *)

Lemma int_quot_not_Fail a b : int_quot a b <> Fail.
Proof. unfold int_quot. by destruct (_ || _). Qed.
Lemma int_rem_not_Fail a b : int_rem a b <> Fail.
Proof. unfold int_rem. by destruct (_ || _). Qed.

Lemma operate_fail op x y right :
  operate op x y = Fail -> (forall v, right = Literal v -> v = y) -> binary_can_cause_trap op right = true.
Proof.
  unfold operate. destruct (is_compare op); [by destruct (compare op x y)|]. intros H Hr.
  pose proof int_quot_not_Fail as Hq. pose proof int_rem_not_Fail as Hm.
  destruct op; try reflexivity; try (destruct x, y; discriminate H); destruct x, y; try discriminate H; cbn in H |- *.
  all: destruct right; try reflexivity; specialize (Hr _ eq_refl); subst; try reflexivity.
  - destruct (_ =? 0); [done|]. specialize (Hq i i0). by destruct (int_quot i i0).
  - destruct (_ =? 0); [done|]. specialize (Hm i i0). by destruct (int_rem i i0).
  - by destruct (f64_eqb bits0 0).
Qed.

(** What can turn out to be undefined is marked so. *)
Lemma CanTrap_sound fn e x : eval fn e x = Fail -> CanTrap x = true.
Proof.
  assert (forall v, as_bool v <> Fail) as Hb by (by intros []).
  induction x as [v|d df|bop op l IHl r IHr|arg IH|g IHg y IHy msg|ty a IHa i IHi|v IHv slot inp]; cbn [eval CanTrap CanCauseTrap].
  - done.
  - destruct (look fn e d) as [[w|]|]; [done| |done]. by destruct df.
  - assert (Hop : (x ← eval fn e l; y ← eval fn e r; operate op x y) = Fail -> binary_can_cause_trap op r || (CanTrap l || CanTrap r) = true).
    { intros H. destruct (eval fn e l) as [x| |]; cbn [mbind res_bind] in H; [|by rewrite IHl, orb_true_r|done].
      destruct (eval fn e r) as [y| |] eqn:Er; cbn [mbind res_bind] in H; [|by rewrite IHr, !orb_true_r|done].
      rewrite (operate_fail op x y r H); [done|]. intros v ->. cbn in Er. by injection Er. }
    assert (Hcond : forall b : bool, (v ← eval fn e l; x ← as_bool v; if b then (if x : bool then (w ← eval fn e r; y ← as_bool w; Ok (VBool y)) else Ok (VBool false))
        else (if x : bool then Ok (VBool true) else (w ← eval fn e r; y ← as_bool w; Ok (VBool y)))) = Fail -> binary_can_cause_trap op r || (CanTrap l || CanTrap r) = true).
    { intros b H. destruct (eval fn e l) as [x| |]; cbn [mbind res_bind] in H; [|by rewrite IHl, orb_true_r|done].
      destruct (as_bool x) as [z| |] eqn:Ez; cbn [mbind res_bind] in H; [|by apply Hb in Ez|done].
      destruct (eval fn e r) as [y| |] eqn:Er; cbn [mbind res_bind] in H; [|by rewrite IHr, !orb_true_r|by destruct b, z].
      destruct (as_bool y) as [z2| |] eqn:Ez2; cbn [mbind res_bind] in H; [by destruct b, z|by apply Hb in Ez2|by destruct b, z]. }
    destruct bop; try exact Hop; [exact (Hcond true)|exact (Hcond false)].
  - by destruct (eval fn e arg).
  - done.
  - done.
  - intros H. destruct (eval fn e v) as [t| |]; cbn [mbind res_bind] in H; [|by rewrite IHv|done]. destruct t; try discriminate H. cbn in H.
    by destruct (if 0 <=? slot then _ else _).
Qed.

(** C39. An expression for which the generator emits no trap range, because it finds
    that it cannot trap, is never undefined: divisions by anything but a nonzero
    literal, indexing, guards and variables that may be undefined are all found. *)
Theorem no_range_defined fn e x : CanTrap x = false -> eval fn e x <> Fail.
Proof. intros H E. by rewrite (CanTrap_sound fn e x E) in H. Qed.

(** [def(x) && 12 / 5 > 2] with [x] undefined. *)
Lemma no_range_defined_witness :
  eval (MkFunction 1 0 None) [[None; None]] (Binary LAND and_bool (Def (VariableE (MkVar 1 8) false)) (Binary GTR gtr_int (Binary DIV div_int (Literal (VInt 12)) (Literal (VInt 5))) (Literal (VInt 2)))) <> Fail.
Proof. apply (no_range_defined (MkFunction 1 0 None)). reflexivity. Defined.
