(* ===== verification/Slices.v ===== *)
(** * Time slices: Process::Run of engine/sawzall.cc, Proc::SetupRun of engine/proc.cc

    A process runs in slices of a number of instructions until it has terminated
    or failed. Whatever the lengths of the slices, the end is that of the single
    transitions, and it is reached. *)
From Stdlib Require Import ZArith Lia.
From stdpp Require Import prelude strings relations.
From S2P Require Import Prelude Forms Opcodes Interp.

Local Open Scope Z_scope.

(** The stack of an initialized process: the frame of the statics. *)
Definition static_stack (statics : list (option Val)) : stack := [SDynamic 0; SStatic 0; SReturn None] ++ map SVal statics.
Lemma static_length fr : length (static_stack fr) = (3 + length fr)%nat.
Proof. unfold static_stack. by rewrite length_app, length_map. Qed.

(** The initialisation starts on an empty stack. *)
(* @src src/src/engine/proc.cc 294-310 Proc::SetupInitialization *)
Definition SetupInitialization (init : Z) (undef_cnt : Z) : state := MkState 0 [] init false 0 None None false false undef_cnt.

(** The run is set up above the frame of the statics: [input] and [key] are
    arguments of main. *)
(* @src src/src/engine/proc.cc 331-371 Proc::SetupRun *)
Definition SetupRun (main : Z) (gp : nat) (input key : Val) (m : state) : state :=
  MkState gp (push (push (drop (length (stack_ m) - stack_of gp) (stack_ m)) key) input) main false gp None None false false (undef_cnt_ m).

Section Slices.
Context (code : Code) (limit : nat) (proc : Proc).

Abbreviation transition := (transition code limit proc).
Abbreviation HandleTrap := (HandleTrap code proc).
Abbreviation Proc_Execute := (Proc_Execute code limit proc).

(** [while (!Execute(max_steps, NULL));] with a bound on the number of slices. *)
(* @src src/src/engine/sawzall.cc 666-675 Process::Run *)
Fixpoint Run_loop (slices fuel max_steps : nat) (m : state) : res status :=
  match slices with
  | O => Fatal
  | S slices => st ← Proc_Execute fuel max_steps m; match st with SUSPENDED m => Run_loop slices fuel max_steps m | st => Ok st end
  end.

(** What a slice starts with. *)
Definition resume (m : state) : state := with_frame (fp_ m) None (with_bp (fp_ m) m).

(** The transitions from a state end after [n] of them with [r]. *)
Inductive ends : nat -> state -> status -> Prop :=
| ends_now m r : transition m = Ok r -> (forall m', r <> SUSPENDED m') -> ends 0 m r
| ends_later n m m' r : transition m = Ok (SUSPENDED m') -> ends n m' r -> ends (S n) m r.

Lemma reach_ends m m1 r : rtc (fun m m' => transition m = Ok (SUSPENDED m')) m m1 -> transition m1 = Ok r -> (forall m', r <> SUSPENDED m') -> exists n, ends n m r.
Proof. intros H Hr Hn. induction H as [m|m m' m1 H1 H IH]; [exists 0%nat; by constructor|]. destruct (IH Hr) as (n & Hn'). exists (S n). by apply (ends_later n m m'). Qed.

(** What is left after a part of the run, where less than [n] transitions remain
    after a trap. *)
Definition slice_out (n : nat) (r : status) (next : state -> Prop) (o : res outcome) : Prop :=
  match o with
  | Ok (Next m) => next m
  | Ok (Done m) => r = TERMINATED m
  | Ok (Trap m) =>
      if failed_ m then r = FAILED m
      else exists st, HandleTrap m = Ok st /\ match st with SUSPENDED m => exists n', (n' < n)%nat /\ ends n' (resume m) r | st => r = st end
  | _ => False
  end.

Lemma ends_inv n m r :
  ends n m r -> exists st, transition m = Ok st /\ match st with SUSPENDED m' => exists n', n = S n' /\ ends n' m' r | st => r = st end.
Proof.
  intros [m0 r0 H Hn|n0 m0 m' r0 H He]; eexists; (split; [exact H|]); [|by exists n0]. destruct r0 as [m1|m1|m1]; try done. by destruct (Hn m1).
Qed.

Lemma step_ends n m r : ends n m r -> slice_out n r (fun m' => exists n', n = S n' /\ ends n' m' r) (step (base_ code) limit m).
Proof.
  intros H. apply ends_inv in H as (st & H & Hst). unfold Interp.transition in H. unfold slice_out. destruct (step (base_ code) limit m) as [[m1|m1|m1]| |]; try discriminate H; cbn [mbind res_bind] in H.
  - injection H as <-. exact Hst.
  - destruct (failed_ m1); [by injection H as <-|]. destruct (HandleTrap m1) as [st1| |]; cbn [mbind res_bind] in H; try discriminate H. exists st1. split; [done|].
    destruct st1; injection H as <-; try exact Hst. destruct Hst as (n' & -> & Hst). exists n'. split; [lia|done].
  - injection H as <-. exact Hst.
Qed.

Lemma slice_weaken n1 n2 r (P Q : state -> Prop) o : (n1 <= n2)%nat -> (forall m, P m -> Q m) -> slice_out n1 r P o -> slice_out n2 r Q o.
Proof.
  intros Hn HPQ. unfold slice_out. destruct o as [[m|m|m]| |]; try done; [by apply HPQ|]. destruct (failed_ m); [done|]. intros (st & Hst & H). exists st. split; [done|].
  destruct st; try done. destruct H as (n' & Hl & H). exists n'. split; [lia|done].
Qed.

Lemma inner_ends k n m r : ends n m r -> slice_out n r (fun m' => exists n', n = (k + n')%nat /\ ends n' m' r) (inner_loop (base_ code) limit k m).
Proof.
  revert n m. induction k as [|k IH]; intros n m H; cbn [inner_loop]; [by exists n|]. pose proof (step_ends n m r H) as Hs.
  destruct (step (base_ code) limit m) as [[m1|m1|m1]| |]; cbn [mbind res_bind]; try exact Hs. destruct Hs as (n1 & -> & H1).
  refine (slice_weaken n1 (S n1) r _ _ _ ltac:(lia) _ (IH n1 m1 H1)). intros m2 (n2 & -> & H2). by exists n2.
Qed.

(** A slice ends, and some transitions were taken in it. *)
Lemma outer_ends fuel max_steps n num_steps m r :
  ends n m r -> (n < fuel)%nat ->
  slice_out n r (fun m' => exists n', ends n' m' r /\ resume m' = m' /\ (n' <= n)%nat /\ ((num_steps < max_steps)%nat -> (n' < n)%nat))
    (outer_loop (base_ code) limit fuel max_steps num_steps m).
Proof.
  revert n num_steps m. induction fuel as [|fuel IH]; intros n num_steps m H Hf; [lia|]. cbn [outer_loop].
  destruct ((num_steps <? max_steps)%nat || negb (bp_ m =? fp_ m)%nat || match return_pc_ m with None => false | _ => true end) eqn:Eg.
  - set (k := (1 `max` (max_steps - num_steps))%nat). pose proof (inner_ends k n m r H) as Hi. destruct (inner_loop (base_ code) limit k m) as [[m1|m1|m1]| |]; cbn [mbind res_bind]; try exact Hi.
    destruct Hi as (n1 & -> & H1). refine (slice_weaken n1 (k + n1) r _ _ _ ltac:(lia) _ (IH n1 (num_steps + k)%nat m1 H1 ltac:(lia))).
    intros m2 (n2 & H2 & Hr & Hle & _). exists n2. repeat (split; [done|]). lia.
  - rewrite !orb_false_iff, negb_false_iff, Nat.eqb_eq, Nat.ltb_ge in Eg. destruct Eg as ((E1 & E2) & E3). exists n. split; [done|]. split; [|lia].
    unfold resume. destruct m as [fp st pc cc bp ret ti fl su uc]. cbn in *. subst bp. by destruct ret.
Qed.

(** The loop over the slices comes to the end of the transitions. *)
Lemma slices_end n m r slices fuel max_steps :
  ends n (resume m) r -> (n < slices)%nat -> (n < fuel)%nat -> (0 < max_steps)%nat -> Run_loop slices fuel max_steps m = Ok r.
Proof.
  revert m slices. induction (lt_wf n) as [n _ IH]. intros m slices H Hs Hf Hm. destruct slices as [|slices]; [lia|]. cbn [Run_loop]. unfold Interp.Proc_Execute, Engine_Execute. fold (resume m).
  pose proof (outer_ends fuel max_steps n 0 (resume m) r H Hf) as Ho. destruct (outer_loop (base_ code) limit fuel max_steps 0 (resume m)) as [[m1|m1|m1]| |]; cbn [mbind res_bind slice_out] in *; try done.
  - destruct Ho as (n1 & H1 & Hr & _ & Hlt). apply (IH n1 (Hlt Hm)); [by rewrite Hr|lia|lia|done].
  - destruct (failed_ m1); [by rewrite Ho|]. destruct Ho as (st & -> & Ho). cbn [mbind res_bind]. destruct st as [m2|m2|m2]; [|by rewrite Ho..].
    destruct Ho as (n1 & Hlt & H1). apply (IH n1 Hlt); [done|lia|lia|done].
  - by rewrite Ho.
Qed.

(** Slices of any length come to the end [r], when there are enough of them. *)
Definition finishes (m : state) (r : status) : Prop :=
  exists N, forall slices fuel max_steps, (N < slices)%nat -> (N < fuel)%nat -> (0 < max_steps)%nat -> Run_loop slices fuel max_steps m = Ok r.

Lemma reach_finishes m m1 r :
  resume m = m -> rtc (fun m m' => transition m = Ok (SUSPENDED m')) m m1 -> transition m1 = Ok r -> (forall m', r <> SUSPENDED m') -> finishes m r.
Proof.
  intros Hm Hr Ht Hn. destruct (reach_ends m m1 r Hr Ht Hn) as (N & He). exists N. intros slices fuel max_steps Hs Hf Hk.
  apply (slices_end N); [by rewrite Hm|done..].
Qed.
End Slices.
