(* ===== verification/Machine.v ===== *)
(** * Runs of the interpreter

    The single instructions as transitions on states whose stack is a list of
    operands above the frames, and what the frames say of the variables. *)
From Stdlib Require Import ZArith Lia.
From stdpp Require Import prelude strings relations.
From S2P Require Import Prelude Forms Opcodes Arith Interp Nodes CodeGen Semantics.

Local Open Scope Z_scope.

(** ** The stack *)

Lemma slot_index_app P B h : (h <= length B)%nat -> slot_index (P ++ B) h = (fun i => length P + i)%nat <$> slot_index B h.
Proof.
  intros H. unfold slot_index. rewrite length_app. destruct (1 <=? h)%nat eqn:E1; [|done]. apply Nat.leb_le in E1.
  rewrite (proj2 (Nat.leb_le h (length B))), (proj2 (Nat.leb_le h (length P + length B))) by lia. cbn. f_equal. lia.
Qed.

Lemma slot_at_app P B h : (h <= length B)%nat -> slot_at (P ++ B) h = slot_at B h.
Proof.
  intros H. unfold slot_at. rewrite slot_index_app by done. destruct (slot_index B h) as [i|]; [|done]. cbn.
  rewrite lookup_app_r by lia. f_equal. lia.
Qed.

Lemma set_slot_app P B h x : (h <= length B)%nat -> set_slot (P ++ B) h x = app P <$> set_slot B h x.
Proof.
  intros H. unfold set_slot. rewrite slot_index_app by done. destruct (slot_index B h) as [i|]; [|done]. cbn.
  f_equal. by rewrite insert_app_r.
Qed.

Lemma slot_at_some B h x : slot_at B h = Some x -> (1 <= h <= length B)%nat.
Proof.
  unfold slot_at, slot_index. destruct (1 <=? h)%nat eqn:E1; [|done]. destruct (h <=? length B)%nat eqn:E2; [|done].
  apply Nat.leb_le in E1, E2. lia.
Qed.

Lemma set_slot_ok B h x y : slot_at B h = Some y ->
  exists B', set_slot B h x = Some B' /\ length B' = length B /\ slot_at B' h = Some x /\ (forall h', h' <> h -> slot_at B' h' = slot_at B h').
Proof.
  intros H. pose proof (slot_at_some _ _ _ H) as Hr. unfold slot_at, set_slot in *.
  assert (slot_index B h = Some (length B - h)%nat) as E.
  { unfold slot_index. by rewrite (proj2 (Nat.leb_le 1 h)), (proj2 (Nat.leb_le h (length B))) by lia. }
  rewrite E in *. cbn in *. eexists. split; [done|]. rewrite length_insert. split; [done|].
  assert (forall h', slot_index (<[(length B - h)%nat := x]> B) h' = slot_index B h') as Ei by (intros h'; unfold slot_index; by rewrite length_insert).
  rewrite Ei, E. cbn. split; [apply list_lookup_insert_eq; lia|]. intros h' Hne. rewrite Ei. destruct (slot_index B h') as [j|] eqn:Ej; [|done]. cbn.
  apply list_lookup_insert_ne. unfold slot_index in Ej. destruct (1 <=? h')%nat eqn:E1; [|done]. destruct (h' <=? length B)%nat eqn:E2; [|done].
  apply Nat.leb_le in E1, E2. cbn in Ej. injection Ej as <-. lia.
Qed.

(** ** Frames and variables *)

Section Frames.
(** The stack when the function was entered, and the frames along the static
    chain from there: their heights and numbers of variables. *)
Context (B0 : stack) (chain : list (nat * nat)).

(** Every frame lies above the one around it, and links to it. *)
Record chain_ok : Prop := {
  ch_top : forall b n, chain !! 0%nat = Some (b, n) -> length B0 = stack_of b;
  ch_link : forall i b n b' n', chain !! i = Some (b, n) -> chain !! S i = Some (b', n') -> slot_at B0 (b + 2) = Some (SStatic b') /\ (b' + 3 + n <= b)%nat;
  ch_size : forall i b n, chain !! i = Some (b, n) -> (n <= b)%nat }.

(** The slots of the variables. *)
Definition owned (h : nat) : Prop := exists i b n j, chain !! i = Some (b, n) /\ (j < n)%nat /\ h = (b - j)%nat.

(** The stack [B] holds the variables of [e], and is else as it was. *)
Record match_env (B : stack) (e : env) : Prop := {
  me_len : length B = length B0;
  me_shape : length e = length chain;
  me_vars : forall i b n fr, chain !! i = Some (b, n) -> e !! i = Some fr -> length fr = n /\ forall j v, fr !! j = Some v -> slot_at B (b - j) = Some (SVal v);
  me_rest : forall h, ~ owned h -> slot_at B h = slot_at B0 h }.

Lemma chain_below i j b n b' n' :
  chain_ok -> chain !! i = Some (b, n) -> chain !! j = Some (b', n') -> (i < j)%nat -> (b' + 3 + n <= b)%nat.
Proof.
  intros Hc Hi. revert b' n'. induction j as [|j IH]; intros b' n' Hj Hlt; [lia|].
  destruct (decide (i = j)) as [->|Hne]; [by destruct (ch_link Hc j b n b' n' Hi Hj)|].
  destruct (lookup_lt_is_Some_2 chain j) as [(b1 & n1) E1]; [apply lookup_lt_Some in Hj; lia|].
  pose proof (IH b1 n1 E1 ltac:(lia)). destruct (ch_link Hc j b1 n1 b' n' E1 Hj). lia.
Qed.

Lemma link_not_owned i b n k : chain_ok -> chain !! i = Some (b, n) -> (1 <= k <= 3)%nat -> ~ owned (b + k).
Proof.
  intros Hc Hi Hk (j & b' & n' & x & Hj & Hx & E). pose proof (ch_size Hc j b' n' Hj) as Hs. destruct (Nat.lt_trichotomy i j) as [Hlt|[<-|Hgt]].
  - pose proof (chain_below i j b n b' n' Hc Hi Hj Hlt). lia.
  - assert (b' = b) by congruence. lia.
  - pose proof (chain_below j i b' n' b n Hc Hj Hi Hgt). lia.
Qed.

Lemma chain_height i b n : chain_ok -> chain !! i = Some (b, n) -> (b + 3 <= length B0)%nat.
Proof.
  intros Hc Hi. destruct (lookup_lt_is_Some_2 chain 0) as [(b0 & n0) E0]; [apply lookup_lt_Some in Hi; lia|].
  rewrite (ch_top Hc b0 n0 E0). unfold stack_of. destruct i as [|i]; [assert (b0 = b) by congruence; lia|].
  pose proof (chain_below 0 (S i) b0 n0 b n Hc E0 Hi ltac:(lia)). lia.
Qed.

(** Following the static links. *)
Lemma base_ok P B e i d b n b' n' :
  chain_ok -> match_env B e -> chain !! i = Some (b, n) -> chain !! (i + d)%nat = Some (b', n') -> base (P ++ B) b d = Ok b'.
Proof.
  intros Hc Hm. revert i b n. induction d as [|d IH]; intros i b n Hi Hj; cbn [base]; [rewrite Nat.add_0_r in Hj; congruence|].
  destruct (lookup_lt_is_Some_2 chain (S i)) as [(b1 & n1) E1]; [apply lookup_lt_Some in Hj; lia|].
  destruct (ch_link Hc i b n b1 n1 Hi E1) as (Hl & Hb). pose proof (chain_height i b n Hc Hi) as Hh. unfold static_link.
  rewrite slot_at_app, (me_rest B e Hm), Hl; [|apply (link_not_owned i b n 2 Hc Hi); lia|rewrite (me_len B e Hm); lia].
  cbn [mbind res_bind]. apply (IH (S i) b1 n1 E1). by replace (S i + d)%nat with (i + S d)%nat by lia.
Qed.

(** Reading a variable. *)
Lemma at_ok P B e delta b n fr i v :
  chain_ok -> match_env B e -> chain !! delta = Some (b, n) -> e !! delta = Some fr -> fr !! i = Some v -> at_ (P ++ B) b (Z.of_nat i) = Ok v.
Proof.
  intros Hc Hm Hd Hf Hi. destruct (me_vars B e Hm delta b n fr Hd Hf) as (Hn & Hv). pose proof (lookup_lt_Some _ _ _ Hi) as Hlt.
  pose proof (ch_size Hc delta b n Hd) as Hs. pose proof (chain_height delta b n Hc Hd) as Hh. unfold at_.
  rewrite (proj2 (Z.leb_le 0 _)), (proj2 (Z.ltb_lt _ _)), Nat2Z.id by lia. cbn [andb].
  rewrite slot_at_app by (rewrite (me_len B e Hm); lia). by rewrite (Hv i v Hi).
Qed.

(** Writing one. *)
Lemma set_at_ok P B e delta b n fr i v w :
  chain_ok -> match_env B e -> chain !! delta = Some (b, n) -> e !! delta = Some fr -> fr !! i = Some v ->
  exists B', set_at (P ++ B) b (Z.of_nat i) w = Ok (P ++ B') /\ match_env B' (<[delta := <[i := w]> fr]> e).
Proof.
  intros Hc Hm Hd Hf Hi. destruct (me_vars B e Hm delta b n fr Hd Hf) as (Hn & Hv). pose proof (lookup_lt_Some _ _ _ Hi) as Hlt.
  pose proof (ch_size Hc delta b n Hd) as Hs. pose proof (chain_height delta b n Hc Hd) as Hh. pose proof (me_len B e Hm) as Hlen. unfold set_at.
  rewrite (proj2 (Z.leb_le 0 _)), (proj2 (Z.ltb_lt _ _)), Nat2Z.id by lia. cbn [andb].
  rewrite slot_at_app, (Hv i v Hi), set_slot_app by lia. destruct (set_slot_ok B (b - i) (SVal w) _ (Hv i v Hi)) as (B' & -> & Hl' & Hat & Hne).
  cbn. exists B'. split; [done|]. pose proof (lookup_lt_Some _ _ _ Hf) as Hlte. split; [lia|by rewrite length_insert, (me_shape B e Hm)| |].
  - intros k b' n' fr' Hk Hfr. destruct (decide (k = delta)) as [->|Hkd].
    + rewrite list_lookup_insert_eq in Hfr by done. injection Hfr as <-. assert (b' = b /\ n' = n) as (-> & ->) by (split; congruence).
      rewrite length_insert. split; [done|]. intros j x Hj. destruct (decide (j = i)) as [->|Hji].
      * rewrite list_lookup_insert_eq in Hj by done. by injection Hj as <-.
      * rewrite list_lookup_insert_ne in Hj by done. rewrite Hne; [by apply Hv|]. apply lookup_lt_Some in Hj. lia.
    + rewrite list_lookup_insert_ne in Hfr by done. destruct (me_vars B e Hm k b' n' fr' Hk Hfr) as (Hn' & Hv'). split; [done|]. intros j x Hj.
      rewrite Hne; [by apply Hv'|]. apply lookup_lt_Some in Hj. pose proof (ch_size Hc k b' n' Hk) as Hs'.
      destruct (Nat.lt_trichotomy k delta) as [Hkl|[?|Hkg]]; [pose proof (chain_below k delta b' n' b n Hc Hk Hd Hkl)|lia|pose proof (chain_below delta k b n b' n' Hc Hd Hk Hkg)]; lia.
  - intros h Hh'. rewrite Hne; [by apply (me_rest B e Hm)|]. intros ->. apply Hh'. exists delta, b, n, i. split; [done|]. split; [lia|done].
Qed.
End Frames.

(** ** Transitions *)

Section Runs.
Context (c : Code) (limit : nat) (proc : Proc) (fp : nat).

(** A state of the function between instructions: position, condition code, the
    operands [P] above the frames [B], and what is kept about undefined values. *)
Definition here (p : Z) (cc : bool) (P B : stack) (u : bool * Z) : state := MkState fp (P ++ B) p cc fp None None false u.1 u.2.

Definition reach : state -> state -> Prop := rtc (fun m m' => transition c limit proc m = Ok (SUSPENDED m')).

(** The cells from a position on. *)
Definition has (p : Z) (l : list cell) : Prop := forall j x, l !! j = Some x -> fetch (base_ c) (p + Z.of_nat j) = Some x.

Lemma has_app p l1 l2 : has p (l1 ++ l2) <-> has p l1 /\ has (p + Z.of_nat (length l1)) l2.
Proof.
  split.
  - intros H. split; intros j x E; [apply H; by apply lookup_app_l_Some|].
    replace (p + Z.of_nat (length l1) + Z.of_nat j) with (p + Z.of_nat (length l1 + j)) by lia. apply H.
    by rewrite lookup_app_r, Nat.add_comm, Nat.add_sub by lia.
  - intros (H1 & H2) j x E. apply lookup_app_Some in E as [E|(Hj & E)]; [by apply H1|].
    specialize (H2 _ _ E). by replace (p + Z.of_nat j) with (p + Z.of_nat (length l1) + Z.of_nat (j - length l1)) by lia.
Qed.
Lemma has_head p x l : has p (x :: l) -> fetch (base_ c) p = Some x.
Proof. intros H. specialize (H 0%nat x eq_refl). by rewrite Z.add_0_r in H. Qed.
Lemma has_next p x y l : has p (x :: y :: l) -> fetch (base_ c) (p + 1) = Some y.
Proof. intros H. exact (H 1%nat y eq_refl). Qed.

Lemma reach_refl m : reach m m.
Proof. apply rtc_refl. Qed.
Lemma reach_trans m1 m2 m3 : reach m1 m2 -> reach m2 m3 -> reach m1 m3.
Proof. intros H1 H2. by etrans. Qed.
Lemma reach_next m m' : step (base_ c) limit m = Ok (Next m') -> reach m m'.
Proof. intros H. apply rtc_once. unfold transition. by rewrite H. Qed.

Lemma step_op m op : fetch (base_ c) (pc_ m) = Some (COp op) -> step (base_ c) limit m = exec (base_ c) limit op (with_pc (pc_ m + 1) m).
Proof. intros H. unfold step. by rewrite H. Qed.

Lemma run_pushV p cc P B u v l : has p (COp pushV :: CVal v :: l) -> reach (here p cc P B u) (here (p + 9) cc (SVal (Some v) :: P) B u).
Proof.
  intros H. apply reach_next. rewrite (step_op _ pushV) by (by apply has_head in H). cbn [exec]. unfold val_at. cbn [pc_ with_pc here].
  rewrite (has_next _ _ _ _ H). cbn. unfold brk, push, with_stack, with_pc, with_bp, here. cbn. by replace (p + 1 + 8) with (p + 9) by lia.
Qed.

Lemma run_popV p cc v P B u l : has p (COp popV :: l) -> reach (here p cc (SVal (Some v) :: P) B u) (here (p + 1) cc P B u).
Proof. intros H. apply reach_next. rewrite (step_op _ popV) by (by apply has_head in H). done. Qed.

Lemma run_dupV p cc v P B u l :
  has p (COp dupV :: l) -> reach (here p cc (SVal (Some v) :: P) B u) (here (p + 1) cc (SVal (Some v) :: SVal (Some v) :: P) B u).
Proof. intros H. apply reach_next. rewrite (step_op _ dupV) by (by apply has_head in H). done. Qed.

Lemma run_set_cc p cc b P B u l : has p (COp set_cc :: l) -> reach (here p cc (SVal (Some (VBool b)) :: P) B u) (here (p + 1) b P B u).
Proof. intros H. apply reach_next. rewrite (step_op _ set_cc) by (by apply has_head in H). done. Qed.

Lemma run_get_cc p cc P B u l : has p (COp get_cc :: l) -> reach (here p cc P B u) (here (p + 1) cc (SVal (Some (VBool cc)) :: P) B u).
Proof. intros H. apply reach_next. rewrite (step_op _ get_cc) by (by apply has_head in H). done. Qed.

Definition taken (op : Opcode) (cc : bool) : bool := match op with branch => true | branch_true => cc | _ => negb cc end.
Definition is_branch (op : Opcode) : bool := match op with branch | branch_true | branch_false => true | _ => false end.

Lemma run_branch op p cc P B u offs l :
  has p (COp op :: CPcoff offs :: l) -> is_branch op = true ->
  reach (here p cc P B u) (here (if taken op cc then p + 5 + offs else p + 5) cc P B u).
Proof.
  intros H Hop. apply reach_next. rewrite (step_op _ op) by (by apply has_head in H).
  assert (exec (base_ c) limit op = exec_branch (base_ c) op) as -> by (by destruct op).
  assert (exec_branch (base_ c) op (with_pc (pc_ (here p cc P B u) + 1) (here p cc P B u)) =
    '(offs, pc) ← pcoff_at (base_ c) (p + 1); brk (with_pc (if taken op cc then pc + offs else pc) (with_pc (p + 1) (here p cc P B u)))) as -> by (by destruct op).
  unfold pcoff_at. rewrite (has_next _ _ _ _ H). cbn. by replace (p + 1 + 4) with (p + 5) by lia.
Qed.

(** Operators. *)
Lemma exec_operate op x y v :
  operate op x y = v -> v <> Fatal ->
  exec (base_ c) limit op = if is_compare op then comparison_ (compare op) else binary (arith op).
Proof.
  unfold operate. intros <- H. destruct (is_compare op) eqn:Ec; [by destruct op; vm_compute in Ec; try discriminate Ec|].
  destruct op; try (vm_compute in Ec; discriminate Ec); try reflexivity; exfalso; apply H; destruct x, y; reflexivity.
Qed.

Lemma run_operate op p cc x y P B u l v :
  has p (COp op :: l) -> operate op x y = Ok v ->
  if is_compare op then exists b, v = VBool b /\ reach (here p cc (SVal (Some y) :: SVal (Some x) :: P) B u) (here (p + 1) b P B u)
  else reach (here p cc (SVal (Some y) :: SVal (Some x) :: P) B u) (here (p + 1) cc (SVal (Some v) :: P) B u).
Proof.
  intros H Hv. pose proof (exec_operate op x y _ Hv ltac:(done)) as He. unfold operate in Hv. destruct (is_compare op) eqn:Ec.
  - destruct (compare op x y) as [b| |] eqn:Eb; [|done..]. injection Hv as <-. exists b. split; [done|]. apply reach_next.
    rewrite (step_op _ op) by (by apply has_head in H). rewrite He. unfold comparison_. cbn. by rewrite Eb.
  - apply reach_next. rewrite (step_op _ op) by (by apply has_head in H). rewrite He. unfold binary. cbn. by rewrite Hv.
Qed.

(** ** Variables *)

Section Variables.
Context (B0 : stack) (chain : list (nat * nat)).
Hypothesis Hchain : chain_ok B0 chain.
Hypothesis Htop : exists n, chain !! 0%nat = Some (fp, n).

Definition set_bp_code (delta : nat) : list cell := if (delta =? 0)%nat then [] else [COp set_bp; CUInt8 (u8 (Z.of_nat delta))].

(** [SetBP], before an instruction on a variable. *)
Definition at_frame (p : Z) (cc : bool) (bp : nat) (P B : stack) (u : bool * Z) : state := MkState fp (P ++ B) p cc bp None None false u.1 u.2.

Lemma run_set_bp p cc P B u e delta b n l :
  has p (set_bp_code delta ++ l) -> match_env B0 chain B e -> chain !! delta = Some (b, n) -> (delta < 256)%nat ->
  reach (here p cc P B u) (at_frame (p + Z.of_nat (length (set_bp_code delta))) cc b P B u)
  /\ has (p + Z.of_nat (length (set_bp_code delta))) l.
Proof.
  intros H Hm Hd Hlt. apply has_app in H as (H & Hl). split; [|done]. destruct Htop as (n0 & H0). unfold set_bp_code in *. destruct (delta =? 0)%nat eqn:E.
  - apply Nat.eqb_eq in E as ->. rewrite H0 in Hd. injection Hd as <- <-. cbn. rewrite Z.add_0_r. apply reach_refl.
  - apply reach_next. rewrite (step_op _ set_bp) by (by apply has_head in H). cbn [exec]. unfold uint8_at. cbn [pc_ with_pc here].
    rewrite (has_next _ _ _ _ H). cbn. unfold u8. rewrite Z.mod_small, Nat2Z.id by lia.
    rewrite (base_ok B0 chain P B e 0 delta fp n0 b n Hchain Hm H0 Hd). cbn. by replace (p + 1 + 1) with (p + 2) by lia.
Qed.

Lemma exec_load_at p cc b n fr P B u e delta i w l :
  has p (COp loadV :: CInt16 (s16 (Z.of_nat i)) :: l) -> match_env B0 chain B e -> chain !! delta = Some (b, n) -> e !! delta = Some fr ->
  fr !! i = Some w -> Z.of_nat i < 2 ^ 15 ->
  step (base_ c) limit (at_frame p cc b P B u) =
    Ok (match w with Some v => Next (here (p + 3) cc (SVal (Some v) :: P) B u) | None => Trap (at_frame (p + 3) cc b P B u) end).
Proof.
  intros H Hm Hd Hf Hi Hlt. rewrite (step_op _ loadV) by (by apply has_head in H). cbn [exec]. unfold exec_load, int16_at. cbn [pc_ with_pc at_frame].
  rewrite (has_next _ _ _ _ H). cbn. assert (s16 (Z.of_nat i) = Z.of_nat i) as -> by (unfold s16; rewrite Z.mod_small; lia).
  rewrite (at_ok B0 chain P B e delta b n fr i w Hchain Hm Hd Hf Hi). cbn. replace (p + 1 + 2) with (p + 3) by lia. by destruct w.
Qed.

Lemma exec_store_at p cc b n fr P B u e delta i w v l :
  has p (COp storeV :: CInt16 (s16 (Z.of_nat i)) :: l) -> match_env B0 chain B e -> chain !! delta = Some (b, n) -> e !! delta = Some fr ->
  fr !! i = Some w -> Z.of_nat i < 2 ^ 15 ->
  exists B', reach (at_frame p cc b (SVal (Some v) :: P) B u) (here (p + 3) cc P B' u) /\ match_env B0 chain B' (<[delta := <[i := Some v]> fr]> e).
Proof.
  intros H Hm Hd Hf Hi Hlt. destruct (set_at_ok B0 chain P B e delta b n fr i w (Some v) Hchain Hm Hd Hf Hi) as (B' & HB & Hm'). exists B'. split; [|done].
  apply reach_next. rewrite (step_op _ storeV) by (by apply has_head in H). cbn [exec]. unfold exec_store, int16_at. cbn [pc_ with_pc at_frame].
  rewrite (has_next _ _ _ _ H). cbn. assert (s16 (Z.of_nat i) = Z.of_nat i) as -> by (unfold s16; rewrite Z.mod_small; lia).
  rewrite HB. cbn. by replace (p + 1 + 2) with (p + 3) by lia.
Qed.

Lemma exec_inc_at p cc b n fr P B u e delta i k d l :
  has p (COp inc64 :: CInt16 (s16 (Z.of_nat i)) :: CPad :: CInt8 (s8 d) :: l) -> match_env B0 chain B e -> chain !! delta = Some (b, n) -> e !! delta = Some fr ->
  fr !! i = Some (Some (VInt k)) -> Z.of_nat i < 2 ^ 15 -> -128 <= d < 128 ->
  exists B', reach (at_frame p cc b P B u) (here (p + 4) cc P B' u) /\ match_env B0 chain B' (<[delta := <[i := Some (VInt (s64 (k + d)))]> fr]> e).
Proof.
  intros H Hm Hd Hf Hi Hlt Hk. destruct (set_at_ok B0 chain P B e delta b n fr i _ (Some (VInt (s64 (k + d)))) Hchain Hm Hd Hf Hi) as (B' & HB & Hm').
  exists B'. split; [|done]. apply reach_next. rewrite (step_op _ inc64) by (by apply has_head in H). cbn [exec]. unfold exec_inc, int16_at, int8_at. cbn [pc_ with_pc at_frame].
  rewrite (has_next _ _ _ _ H). cbn. assert (s16 (Z.of_nat i) = Z.of_nat i) as -> by (unfold s16; rewrite Z.mod_small; lia).
  rewrite (at_ok B0 chain P B e delta b n fr i _ Hchain Hm Hd Hf Hi). cbn. replace (p + 1 + 2) with (p + Z.of_nat 3) by lia.
  rewrite (H 3%nat (CInt8 (s8 d)) eq_refl). cbn. assert (s8 d = d) as -> by (unfold s8; rewrite Z.mod_small; lia).
  rewrite HB. cbn. by replace (p + Z.of_nat 3 + 1) with (p + 4) by lia.
Qed.
End Variables.

(** ** Elements and fields *)

Lemma run_index ty p cc a i P B u l v :
  has p (COp (IndexedAccess ty true false 0) :: l) -> index_val ty a i = Ok v ->
  reach (here p cc (SVal (Some i) :: SVal (Some a) :: P) B u) (here (p + 1) cc (SVal (Some v) :: P) B u).
Proof.
  intros H Hv. unfold index_val in Hv. apply reach_next. rewrite (step_op _ (IndexedAccess ty true false 0)) by (by apply has_head in H).
  destruct ty; cbn [IndexedAccess negb Z.eqb] in *; [| |discriminate Hv]; cbn [exec]; unfold exec_index; cbn [pop stack_ with_pc here app mbind res_bind];
    (destruct (load_indexed _ a i) as [[w|(i' & n)]| |]; [|done..]); by injection Hv as ->.
Qed.

Lemma run_field p cc t slot P B u l v :
  has p (COp floadV :: CInt16 (s16 slot) :: l) -> field_val t slot = Ok v -> slot < 2 ^ 15 ->
  reach (here p cc (SVal (Some t) :: P) B u) (here (p + 3) cc (SVal (Some v) :: P) B u).
Proof.
  intros H Hv Hlt. apply reach_next. rewrite (step_op _ floadV) by (by apply has_head in H). cbn [exec]. unfold exec_field, int16_at. cbn [pc_ with_pc here].
  rewrite (has_next _ _ _ _ H). cbn. destruct t; try discriminate Hv. cbn [field_val] in Hv. destruct (0 <=? slot) eqn:E; [|done]. apply Z.leb_le in E.
  assert (s16 slot = slot) as -> by (unfold s16; rewrite Z.mod_small; lia). rewrite (proj2 (Z.leb_le _ _) E). destruct (_ !! Z.to_nat slot); [|done].
  injection Hv as ->. unfold brk. cbn. by replace (p + 1 + 2) with (p + 3) by lia.
Qed.

Lemma run_trap_false p cc P B u msg l :
  has p (COp trap_false :: CMsg msg :: l) ->
  step (base_ c) limit (here p cc P B u) =
    Ok (if cc then Next (here (p + 9) cc P B u) else Trap (MkState fp (P ++ B) (p + 9) cc fp None (Some (GuardFailed msg)) false u.1 u.2)).
Proof.
  intros H. rewrite (step_op _ trap_false) by (by apply has_head in H). cbn [exec]. unfold exec_branch, msg_at. cbn [pc_ with_pc here].
  rewrite (has_next _ _ _ _ H). cbn. replace (p + 1 + 8) with (p + 9) by lia. by destruct cc.
Qed.

(** ** Traps *)

(** The run comes to a trap in the range [i], which it can handle. *)
Definition trapped (i : nat) (P B : stack) (u : bool * Z) (m : state) : Prop :=
  exists m1 Q pc cc bp info,
    reach m m1 /\ step (base_ c) limit m1 = Ok (Trap (MkState fp (Q ++ P ++ B) pc cc bp None info false u.1 u.2))
    /\ TrapForInstr c (pc - 1) = Ok (Some i)
    /\ (info <> None \/ exists d, descs c !! i = Some d /\ pc - 1 ∈ var_traps_ d).

Lemma trapped_reach i P B u m m' : reach m m' -> trapped i P B u m' -> trapped i P B u m.
Proof.
  intros Hr (m1 & Q & pc & cc & bp & info & H & Hs). exists m1, Q, pc, cc, bp, info. split; [by apply (reach_trans _ m')|done].
Qed.
Lemma trapped_drop i P1 P B u m : trapped i (P1 ++ P) B u m -> trapped i P B u m.
Proof.
  intros (m1 & Q & pc & cc & bp & info & H & Hs & Ht). exists m1, (Q ++ P1), pc, cc, bp, info. split; [done|]. by rewrite <- app_assoc, (app_assoc P1).
Qed.

(** The variable of a range is undefined in the frames [B']. *)
Definition undone (d : TrapDesc) (B B' : stack) : Prop := forall Q,
  (if var_index_ d =? 0 then Ok (Q ++ B) else f ← base (Q ++ B) fp (var_delta_ d); set_at (Q ++ B) f (var_index_ d) None) = Ok (Q ++ B').

(** The process stopped at an undefined value, in a range that is not silent. *)
Definition stopped_undefined (m : state) : Prop :=
  exists i d, trap_info_ m = Some (UndefinedValue (Some i)) /\ descs c !! i = Some d /\ is_silent_ d = false.

(** What becomes of a trap: silent ranges go on at the target, others too when
    undefined values are ignored, or the process fails. *)
Lemma handled i d P B B' u m :
  trapped i P B u m -> descs c !! i = Some d -> stack_height_ d = length P -> length B' = stack_of fp -> undone d B B' ->
  (is_silent_ d = true -> exists cc, reach m (here (target_ d) cc P B' u))
  /\ (is_silent_ d = false -> ignores_undefs proc = true -> exists cc u', reach m (here (target_ d) cc P B' u'))
  /\ (is_silent_ d = false -> ignores_undefs proc = false -> exists m1 m2, reach m m1 /\ transition c limit proc m1 = Ok (FAILED m2) /\ stack_ m2 = P ++ B' /\ fp_ m2 = fp /\ stopped_undefined m2).
Proof.
  intros (m1 & Q & pc & cc & bp & info & Hr & Hs & Ht & Hinfo) Ed Hh HB Hu.
  assert (H : forall m', HandleTrap c proc (MkState fp (Q ++ P ++ B) pc cc bp None info false u.1 u.2) = Ok m' ->
    transition c limit proc m1 = match m' with SUSPENDED m => Ok (SUSPENDED (with_frame (fp_ m) None (with_bp (fp_ m) m))) | st => Ok st end).
  { intros m' Hm'. unfold transition. rewrite Hs. cbn [mbind res_bind failed_]. by rewrite Hm'. }
  unfold HandleTrap in H. cbn [pc_] in H. rewrite Ht in H. cbn [mbind res_bind] in H. rewrite Ed in H. cbn [stack_ fp_ with_pc] in H.
  specialize (Hu (Q ++ P)). rewrite <- !app_assoc in Hu. rewrite Hu in H. cbn [mbind res_bind] in H.
  assert (length (Q ++ P ++ B') = length Q + length P + stack_of fp)%nat as Hl by (rewrite !length_app, HB; lia). rewrite Hl, Hh in H.
  rewrite (proj2 (Nat.ltb_ge _ _)) in H by lia.
  replace (length Q + length P + stack_of fp - (stack_of fp + length P))%nat with (length Q) in H by lia. rewrite drop_app_length in H.
  assert (negb (existsb (Z.eqb (pc - 1)) (var_traps_ d)) && match info with None => true | _ => false end = false) as Hck.
  { destruct Hinfo as [Hi|(d' & Ed' & Hin)]; [destruct info; [apply andb_false_r|done]|]. apply andb_false_iff. left. apply negb_false_iff, existsb_exists.
    exists (pc - 1). assert (d' = d) as -> by congruence. apply list_elem_of_In in Hin. split; [done|apply Z.eqb_refl]. }
  cbn [trap_info_ with_stack with_pc] in H. rewrite Hck in H. split; [|split].
  - intros Hsil. rewrite Hsil in H. exists cc. apply (reach_trans _ m1); [done|]. apply rtc_once. exact (H _ eq_refl).
  - intros Hsil Hig. rewrite Hsil, Hig in H. exists cc, (if u.1 then u else (true, u.2 + 1)). apply (reach_trans _ m1); [done|]. apply rtc_once. cbv beta.
    rewrite (H _ eq_refl). by destruct u as [[] uc].
  - intros Hsil Hig. rewrite Hsil, Hig in H. exists m1. eexists. split; [done|]. rewrite (H _ eq_refl). split; [done|]. split; [by destruct u as [[] uc]|]. split; [by destruct u as [[] uc]|]. by exists i, d.
Qed.
End Runs.
