(* ===== verification/ExprCorrect.v ===== *)
(** * The code of expressions is correct

    What the generator emits for an expression leaves the value of the expression
    on the stack or in the condition code, jumps to the label for its truth value,
    or traps in the current range when the value is undefined. *)
From Stdlib Require Import ZArith Lia.
From stdpp Require Import prelude strings relations.
From S2P Require Import Prelude Forms Opcodes Arith Interp Nodes CodeGen CodeGenInv TrapRanges Semantics Machine.

Local Open Scope Z_scope.

(** ** Steps of the generator, with what the others need of them *)

Abbreviation no_label := (fun _ : nat => False).

Lemma static_agrees k T s s' F : static k T s s' -> agrees F s' -> agrees F s.
Proof. intros [H _]. apply H. Qed.
Lemma static_current k T s s' : static k T s s' -> current_trap_range_ s' = current_trap_range_ s.
Proof. intros [H _]. apply H. Qed.
Lemma static_unbound k T s s' l : static k T s s' -> (l < k)%nat -> unbound s l -> unbound s' l.
Proof. intros [H _]. by apply unbound_step. Qed.
Lemma static_linked k T s s' l : static k T s s' -> (l < k)%nat -> linked_at s l -> linked_at s' l.
Proof. intros [H _]. by apply linked_step. Qed.
Lemma static_labels k T s s' : static k T s s' -> (length (labels_ s) <= length (labels_ s'))%nat.
Proof. intros [[] _]. done. Qed.
Lemma static_len k T s s' : static k T s s' -> emit_offset s <= emit_offset s'.
Proof. intros [[] _]. done. Qed.
Lemma static_down k k' T s s' : static k T s s' -> (k' <= k)%nat -> static k' T s s'.
Proof. intros H Hk. by apply (static_weaken k k' T T). Qed.

Record fresh (l : nat) (s s' : CodeGen) : Prop := {
  fr_static : static (length (labels_ s)) no_label s s';
  fr_index : l = length (labels_ s);
  fr_labels : length (labels_ s') = S (length (labels_ s));
  fr_unbound : unbound s' l;
  fr_unlinked : ~ linked_at s' l;
  fr_same : height_ s' = height_ s /\ cc_set_ s' = cc_set_ s /\ dead_code_ s' = dead_code_ s /\ emit_offset s' = emit_offset s /\ traps_ s' = traps_ s }.

Lemma NewLabel_fresh s l s' : NewLabel s = Ok (l, s') -> wf s -> fresh l s s'.
Proof.
  intros H Hw. destruct (NewLabel_ok (length (labels_ s)) s l s' H Hw) as (Hs & Hl & El & Ec & Et); [done|].
  assert (labels_ s' !! l = Some (MkLabel [] [] None 0)) as E by (rewrite El, Hl, lookup_app_r, Nat.sub_diag by lia; done).
  split; [split; [done|]|done|rewrite El, length_app; cbn; lia|by eexists| |].
  - intros l' (b & Eb & Hb). left. exists b. split; [|done]. rewrite El in Eb. apply lookup_app_Some in Eb as [Eb|(Hge & Eb)]; [done|].
    apply list_lookup_singleton_Some in Eb as (_ & <-). discriminate Hb.
  - intros (b & Eb & Hb). assert (b = MkLabel [] [] None 0) as -> by congruence. discriminate Hb.
  - unfold NewLabel in H. gen_inv H. subst. done.
Qed.

Lemma fresh_wf l s s' : fresh l s s' -> wf s'.
Proof. intros H. exact (static_wf _ _ _ _ (fr_static _ _ _ H)). Qed.

Lemma set_cc_static k T b s : wf s -> static k T s (set_cc_flag b s).
Proof. by apply same_static. Qed.

Lemma SetStack_static k T h s a s' :
  SetStack h s = Ok (a, s') -> wf s ->
  static k T s s' /\ height_ s' = h /\ cc_set_ s' = cc_set_ s /\ dead_code_ s' = dead_code_ s /\ emit_offset s' = emit_offset s /\ labels_ s' = labels_ s /\ traps_ s' = traps_ s.
Proof. unfold SetStack. intros H Hw. gen_inv H. split; [|done]. by apply same_static. Qed.

(** Labels bound on the way are not among those of [T]. *)
Lemma bound_static k l T s s' : bound_to l s s' -> current_trap_range_ s' = current_trap_range_ s -> (k <= l)%nat -> static k T s s'.
Proof.
  intros [] Hc Hk. split; [by apply (step_ok_weaken l)|]. intros l' Hl. left. by apply bd_links.
Qed.

Lemma bound_wf l s s' : bound_to l s s' -> wf s'.
Proof. intros []. apply bd_step. Qed.

Lemma Bind_static k T l s s' : bound_to l s s' -> (k <= l)%nat -> static k T s s'.
Proof. intros H. apply (bound_static k l T s s' H). destruct H. apply bd_step. Qed.

(** Labels that are not linked in the end do not count. *)
Lemma static_forget k (T T' : nat -> Prop) s s' : static k T s s' -> (forall l, T l -> T' l \/ ~ linked_at s' l) -> static k T' s s'.
Proof.
  intros [H L] HT. split; [done|]. intros l Hl. destruct (L l Hl) as [?|Hin]; [by left|]. destruct (HT l Hin) as [?|?]; [by right|done].
Qed.

Lemma bound_unlinked l s s' : bound_to l s s' -> ~ linked_at s' l.
Proof. intros [] H. by apply bd_links in H as (_ & ?). Qed.
Lemma static_unlinked k T s s' l : static k T s s' -> ~ linked_at s l -> ~ T l -> ~ linked_at s' l.
Proof. intros [_ L] H HT Hl. by destruct (L l Hl). Qed.

(** ** Trap handlers *)

(** Without a range the body runs by itself; with one it runs in it. *)
Lemma trap_handler_inv ds fn global target var silent can body s a s' :
  trap_handler ds fn global target var silent can body s = Ok (a, s') -> wf s ->
  if can then
    exists t i index delta s1 u s2,
      (if ds && negb silent then global else target) = Some t /\ undef_place fn var = Some (index, delta)
      /\ opened t i (MkTrap (emit_offset s) (emit_offset s) (emit_offset s) (Z.to_nat (height_ s)) index delta silent [] (current_trap_range_ s)) s s1
      /\ body s1 = Ok (u, s2) /\ (wf s2 -> current_trap_range_ s2 = Some i -> closed i s2 s')
  else body s = Ok (a, s').
Proof.
  unfold trap_handler. intros H Hw. destruct can; [|done]. apply M_bind_inv in H as (i & s1 & H1 & H).
  destruct (open_trap_ok _ _ _ _ _ _ _ _ _ H1 Hw) as (t & index & delta & Et & Ep & Ho). apply M_bind_inv in H as (u & s2 & H2 & H).
  exists t, i, index, delta, s1, u, s2. repeat (split; [done|]). intros Hw2 Hc. by apply (close_trap_ok i s2 a).
Qed.

Lemma opened_wf t i d s s' : opened t i d s s' -> wf s'.
Proof. intros H. apply (op_pre _ _ _ _ _ H). Qed.

(** The range together with its body. *)
Lemma handler_static k T t i d s s1 s2 s' :
  opened t i d s s1 -> static k T s1 s2 -> closed i s2 s' -> (k <= length (labels_ s))%nat -> static k (fun l => T l \/ l = t) s s'.
Proof.
  intros Ho [Hs Hl] Hc Hk. pose proof Ho as [P1 L1 _ N1 _ I1 T1 C1 Sup _ _ _]. pose proof Hc as [P2 N2 _ _ Cur].
  assert (traps_ s1 !! i = Some d) as E1 by (rewrite T1, I1, lookup_app_r, Nat.sub_diag by lia; done).
  destruct (so_super _ _ _ Hs i d E1) as (d2 & E2 & Esup).
  assert (forall x y, pre_ok (length (labels_ x)) x y -> (k <= length (labels_ x))%nat -> pre_ok k x y) as Hweak.
  { intros x y [] Hx. split; try done. intros l b Hlt. apply po_label. lia. }
  pose proof (so_labels _ _ _ Hs) as Hle. split.
  - apply pre_step.
    + apply (pre_ok_trans _ _ s1); [by apply Hweak|]. apply (pre_ok_trans _ _ s2); [by apply step_pre|]. apply Hweak; [done|]. lia.
    + rewrite (Cur d2 E2). congruence.
  - intros l Hlk. assert (linked_at s2 l) as Hlk2 by (destruct Hlk as (b & Eb & Hb); exists b; by rewrite <- N2).
    destruct (Hl l Hlk2) as [Hlk1|HT]; [|right; by left]. destruct (L1 l Hlk1) as [?|<-]; [by left|right; by right].
Qed.

(** What the finished code has of a range. *)
Lemma handler_final F t i d s s1 :
  opened t i d s s1 -> agrees F s1 -> exists d', f_traps F !! i = Some d' /\ same_range d d' /\ target_ d' = f_addr F t.
Proof.
  intros Ho Ha. pose proof Ho as [_ _ _ _ _ I1 T1 _ _ _ _ Ht].
  assert (traps_ s1 !! i = Some d) as E1 by (rewrite T1, I1, lookup_app_r, Nat.sub_diag by lia; done).
  destruct (a_range F s1 Ha i d E1) as (d' & E' & Hsr & _). exists d'. split; [done|]. split; [done|]. by apply (Ht F).
Qed.

Lemma opened_offset t i d s s1 : opened t i d s s1 -> emit_offset s1 = emit_offset s.
Proof. intros H. unfold emit_offset. by rewrite (op_code _ _ _ _ _ H). Qed.
Lemma closed_offset i s s1 : closed i s s1 -> emit_offset s1 = emit_offset s.
Proof. intros H. unfold emit_offset. by rewrite (cl_code _ _ _ H). Qed.
Lemma closed_agrees F i s s1 : closed i s s1 -> agrees F s1 -> agrees F s.
Proof. intros H. apply (cl_pre _ _ _ H). Qed.
Lemma opened_agrees F t i d s s1 : opened t i d s s1 -> agrees F s1 -> agrees F s.
Proof. intros H. apply (op_pre _ _ _ _ _ H). Qed.

(** ** What is to be shown of a visit *)

(** The labels a visit may link: not the one for true where it is bound. *)
Definition targets (s : CodeGen) (t f : option nat) (l : nat) : Prop := (t = Some l /\ ~ is_bound s l) \/ f = Some l.

Lemma targets_back k T s s' t f l : static k T s s' -> (length (labels_ s) <= k)%nat -> targets s' t f l -> targets s t f l.
Proof.
  intros [Hs _] Hk [(E & Hl)|E]; [left|by right]. split; [done|]. intros Hb. apply Hl. apply (bound_step _ _ _ _ Hs); [|done].
  destruct Hb as (b & x & Eb & _). apply lookup_lt_Some in Eb. lia.
Qed.
Lemma targets_any s t f l : targets s t f l -> t = Some l \/ f = Some l.
Proof. intros [(E & _)|E]; auto. Qed.

(** The value is on the stack, or its truth value in the condition code. *)
Record visited (T : nat -> Prop) (s s' : CodeGen) : Prop := {
  v_static : static (length (labels_ s)) T s s';
  v_height : height_ s' = height_ s + (if cc_set_ s' then 0 else 1);
  v_dead : dead_code_ s = false -> dead_code_ s' = false }.

Section Correct.
Context (c : Code) (limit : nat) (proc : Proc) (F : Final) (fn : Function) (B0 : stack) (chain : list (nat * nat)) (fp : nat).

(** The process runs the finished code, the operand of [enter] apart; the frames
    are those of the static chain and not too many or too big. *)
Record context_ok : Prop := {
  cx_ranges : ranges_of c F;
  cx_code : forall p x, fetch (f_code F) p = Some x -> (forall n, x <> CInt32 n) -> fetch (base_ c) p = Some x;
  cx_chain : chain_ok B0 chain;
  cx_top : exists n, chain !! 0%nat = Some (fp, n);
  cx_depth : (length chain <= 256)%nat;
  cx_sizes : forall i b n, chain !! i = Some (b, n) -> Z.of_nat n <= 2 ^ 15 }.
Hypothesis Hcx : context_ok.

Abbreviation here := (here fp).
Abbreviation reach := (reach c limit proc).
Abbreviation trapped := (trapped c limit proc fp).
Abbreviation has := (has c).
Abbreviation match_env := (match_env B0 chain).

Definition no_int32 (l : list cell) : bool := forallb (fun x => match x with CInt32 _ => false | _ => true end) l.

Lemma code_has p l : code_is F p l -> no_int32 l = true -> has p l.
Proof.
  intros H Hn j x E. apply (cx_code Hcx); [by apply H|]. intros n ->. unfold no_int32 in Hn. rewrite forallb_forall in Hn.
  specialize (Hn (CInt32 n)). cbn in Hn. enough (false = true) by done. apply Hn. apply list_elem_of_In. by apply list_elem_of_lookup_2 with j.
Qed.

Lemma grown_has s s' l dh : grown s s' l dh -> wf s -> dead_code_ s = false -> agrees F s' -> no_int32 l = true -> has (emit_offset s) l.
Proof. intros Hg Hw Hd Ha. apply code_has. by apply (grown_code s s' l dh). Qed.

(** Where a visit ends: behind the code, with the value on the stack or in the
    condition code, or at one of the labels; or it traps. *)
Definition expr_out (s s' : CodeGen) (t f : option nat) (P B : stack) (u : bool * Z) (m : state) (r : res Val) : Prop :=
  match r with
  | Ok v =>
      exists m', reach m m' /\
        ((cc_set_ s' = false /\ exists cc, m' = here (emit_offset s') cc (SVal (Some v) :: P) B u)
         \/ (cc_set_ s' = true /\ exists b, v = VBool b /\ m' = here (emit_offset s') b P B u)
         \/ (exists b l cc, v = VBool b /\ (if b then t else f) = Some l /\ (unbound s l -> linked_at s' l) /\ m' = here (f_addr F l) cc P B u))
  | Fail => forall i, current_trap_range_ s = Some i -> trapped i P B u m
  | Fatal => True
  end.

Definition visit_ok (m : M unit) (t f : option nat) (r : env -> res Val) : Prop :=
  forall s a s', m s = Ok (a, s') -> wf s -> cc_set_ s = false ->
    visited (targets s t f) s s'
    /\ (forall B e P u cc, agrees F s' -> dead_code_ s = false -> height_ s = Z.of_nat (length P) -> match_env B e ->
        expr_out s s' t f P B u (here (emit_offset s) cc P B u) (r e)).

(** The value is on the stack. *)
Definition load_out (s s' : CodeGen) (P B : stack) (u : bool * Z) (m : state) (r : res Val) : Prop :=
  match r with
  | Ok v => exists cc, reach m (here (emit_offset s') cc (SVal (Some v) :: P) B u)
  | Fail => forall i, current_trap_range_ s = Some i -> trapped i P B u m
  | Fatal => True
  end.

Definition load_ok (m : M unit) (r : env -> res Val) : Prop :=
  forall s a s', m s = Ok (a, s') -> wf s -> cc_set_ s = false ->
    visited no_label s s' /\ cc_set_ s' = false
    /\ (forall B e P u cc, agrees F s' -> dead_code_ s = false -> height_ s = Z.of_nat (length P) -> match_env B e ->
        load_out s s' P B u (here (emit_offset s) cc P B u) (r e)).

(** ** Load *)

(** [get_cc] where the value is in the condition code. *)
Lemma materialize_ok s a s' :
  when (cc_set_ s) (emit_op get_cc;; modify (set_cc_flag false)) s = Ok (a, s') -> wf s ->
  (forall k T, static k T s s') /\ cc_set_ s' = false /\ height_ s' = height_ s + (if cc_set_ s then 1 else 0) /\ dead_code_ s' = dead_code_ s /\ labels_ s' = labels_ s
  /\ (forall P B u cc v, agrees F s' -> dead_code_ s = false -> cc_set_ s = true -> v = VBool cc ->
      reach (here (emit_offset s) cc P B u) (here (emit_offset s') cc (SVal (Some v) :: P) B u))
  /\ (cc_set_ s = false -> emit_offset s' = emit_offset s).
Proof.
  intros H Hw. destruct (cc_set_ s) eqn:Ec; cbn [when] in H.
  - apply M_bind_inv in H as (u1 & s1 & H1 & H). apply emit_op_grown in H1. gen_inv H.
    assert (forall k T, static k T s s1) as Hs1 by (intros k T; by apply (grown_static k T _ _ _ _ H1)).
    assert (forall k T, static k T s1 (set_cc_flag false s1)) as Hs2 by (intros k T; apply set_cc_static; by apply (static_wf _ _ _ _ (Hs1 0%nat no_label))).
    pose proof H1 as [(B1 & _) _ D _ Hh]. split; [intros k T; by apply (static_trans _ _ _ s1)|]. repeat (split; [done|]). split; [|done].
    intros P B u cc v Ha Hd _ ->. pose proof (static_agrees _ _ _ _ F (Hs2 0%nat no_label) Ha) as Ha1.
    assert (emit_offset (set_cc_flag false s1) = emit_offset s + 1) as ->.
    { change (emit_offset (set_cc_flag false s1)) with (emit_offset s1). rewrite (grown_len _ _ _ _ H1 Hd). done. }
    apply (run_get_cc c limit proc fp _ _ _ _ _ []). by apply (grown_has _ _ _ _ H1).
  - gen_inv H. split; [intros k T; by apply static_refl|]. repeat (split; [done || lia|]). done.
Qed.

Lemma PushBool_inv b s a s' : PushBool b s = Ok (a, s') -> grown s s' (COp pushV :: CVal (VBool b) :: replicate 7 CPad) 1.
Proof. apply Push_grown. Qed.

(** An arm of [Load]: the label and the value it stands for. *)
Lemma arm_ok (t : bool) (h : Z) (l : nat) (b : bool) s a s' :
  when t (SetStack h;; Bind l;; PushBool b) s = Ok (a, s') -> wf s -> (t = true -> unbound s l) -> cc_set_ s = false ->
  (forall k, (k <= l)%nat -> static k no_label s s') /\ (t = true -> ~ linked_at s' l) /\ height_ s' = (if t then h + 1 else height_ s) /\ cc_set_ s' = false
  /\ dead_code_ s' = (if t then false else dead_code_ s) /\ length (labels_ s') = length (labels_ s)
  /\ (forall l', l' <> l -> unbound s l' -> unbound s' l')
  /\ (t = false -> s' = s)
  /\ (forall P B u cc, t = true -> agrees F s' -> reach (here (f_addr F l) cc P B u) (here (emit_offset s') cc (SVal (Some (VBool b)) :: P) B u)).
Proof.
  intros H Hw Hub Hcc. destruct t; cbn [when] in H.
  - specialize (Hub eq_refl). apply M_bind_inv in H as (u1 & s1 & H1 & H). apply M_bind_inv in H as (u2 & s2 & H2 & H).
    destruct (SetStack_static (length (labels_ s)) no_label _ _ _ _ H1 Hw) as (S1 & K1 & K2 & K3 & K4 & K5 & K6).
    pose proof (static_wf _ _ _ _ S1) as Hw1. assert (unbound s1 l) as Hub1 by (unfold unbound; by rewrite K5).
    pose proof (Bind_ok l _ _ _ H2 Hw1 Hub1) as Hb. pose proof (bound_wf _ _ _ Hb) as Hw2. apply PushBool_inv in H. pose proof H as [(L1 & L2 & L3) Hc Hd Hcs Hh].
    pose proof (bd_same _ _ _ Hb) as (O1 & O2 & O3 & O4).
    assert (forall k, static k no_label s2 s') as S3 by (intros k; by apply (grown_static k _ _ _ _ _ H)).
    split; [|split; [|split; [|split; [|split; [|split; [|split; [|split]]]]]]].
    + intros k Hk. apply (static_trans _ _ _ s1); [by apply (static_down _ _ _ _ _ S1); pose proof (unbound_lt _ _ Hub); lia|].
      apply (static_trans _ _ _ s2); [by apply (Bind_static k _ l)|done].
    + intros _. apply (static_unlinked _ _ _ _ _ (S3 0%nat)); [by apply (bound_unlinked l s1)|tauto].
    + lia.
    + congruence.
    + congruence.
    + rewrite L1, (bd_labels _ _ _ Hb), K5. done.
    + intros l' Hne Hu. unfold unbound. rewrite L1. apply (bd_unbound _ _ _ Hb l' Hne). unfold unbound. by rewrite K5.
    + done.
    + intros P B u cc _ Ha. pose proof (static_agrees _ _ _ _ F (S3 0%nat) Ha) as Ha2. rewrite (bd_addr _ _ _ Hb F Ha2), <- O1.
      rewrite (grown_len _ _ _ _ H O4). apply (run_pushV c limit proc fp _ _ _ _ _ _ (replicate 7 CPad)). by apply (grown_has _ _ _ _ H).
  - gen_inv H. split; [intros k _; by apply static_refl|]. repeat (split; [done|]). done.
Qed.

(** The labels of an unconditional branch; the code after it is dead. *)
Lemma Branch_always s l a s' :
  Branch branch l s = Ok (a, s') -> wf s ->
  static (length (labels_ s)) (eq l) s s' /\ height_ s' = height_ s /\ cc_set_ s' = false /\ dead_code_ s' = true /\ length (labels_ s') = length (labels_ s)
  /\ (dead_code_ s = true -> emit_offset s' = emit_offset s)
  /\ (dead_code_ s = false -> unbound s l -> linked_at s' l)
  /\ (forall P B u cc, agrees F s' -> dead_code_ s = false -> reach (here (emit_offset s) cc P B u) (here (f_addr F l) cc P B u)).
Proof.
  intros H Hw. destruct (Branch_ok branch l s a s' H Hw) as [Hs Hl Ht Hc Hh Hd Hst Hlen Hlk Hcode]. change (branch_pre branch s) with (@nil cell) in *.
  split; [by apply (static_weaken (length (labels_ s)) _ (branch_target s l)); [|intros x [-> _]|]|].
  split; [rewrite Hh by done; cbn; lia|]. split; [done|]. split; [by rewrite Hd, orb_true_r|]. split; [done|].
  split; [intros E; unfold emit_offset; by rewrite Hst|]. split; [done|].
  intros P B u cc Ha E. specialize (Hcode E F Ha). cbn [app length] in Hcode. pose proof (code_has _ _ Hcode eq_refl) as Hhas.
  pose proof (run_branch c limit proc fp branch _ cc P B u _ _ Hhas eq_refl) as Hr. cbn [taken] in Hr.
  replace (emit_offset s + 5 + (f_addr F l - (emit_offset s + Z.of_nat 0 + 1) - 4)) with (f_addr F l) in Hr by lia. exact Hr.
Qed.

Lemma Load_ok visit r :
  (forall t f, visit_ok (visit (MkCGState false true 0 (Some t) (Some f))) (Some t) (Some f) r) -> load_ok (Load visit false) r.
Proof.
  intros Hv s a s' H Hw Hcc. unfold Load in H.
  apply M_bind_inv in H as (tt_ & s1 & H1 & H). apply (NewLabel_fresh s tt_ s1) in H1; [|done].
  apply M_bind_inv in H as (ft & s2 & H2 & H). apply (NewLabel_fresh s1 ft s2) in H2; [|by apply (fresh_wf _ _ _ H1)].
  apply M_bind_inv in H as (s2' & s2'' & H0 & H). injection H0 as <- <-.
  apply M_bind_inv in H as (u3 & s3 & H3 & H). pose proof (fresh_wf _ _ _ H2) as Hw2.
  pose proof (fr_same _ _ _ H1) as (A1 & A2 & A3 & A4 & A5). pose proof (fr_same _ _ _ H2) as (B1 & B2 & B3 & B4 & B5).
  destruct (Hv tt_ ft s2 u3 s3 H3 Hw2) as ([Hs3 Hh3 Hd3] & Hdyn); [congruence|]. pose proof (static_wf _ _ _ _ Hs3) as Hw3.
  apply M_bind_inv in H as (s3' & s3'' & H0 & H). injection H0 as <- <-.
  apply M_bind_inv in H as (u4 & s4 & H4 & H). destruct (materialize_ok _ _ _ H4 Hw3) as (Hs4 & Hc4 & Hh4 & Hd4 & Hl4 & Hrun4 & Hoff4).
  pose proof (static_wf _ _ _ _ (Hs4 0%nat no_label)) as Hw4.
  apply M_bind_inv in H as (t & s4' & H5 & H). apply linked_inv in H5 as (-> & Ht).
  apply M_bind_inv in H as (f & s4' & H5 & H). apply linked_inv in H5 as (-> & Hf).
  pose proof (fr_index _ _ _ H1) as I1. pose proof (fr_index _ _ _ H2) as I2. pose proof (fr_labels _ _ _ H1) as N1. pose proof (fr_labels _ _ _ H2) as N2.
  set (k := length (labels_ s)) in *.
  assert (static k (fun l => l = tt_ \/ l = ft) s s4) as Hs04.
  { apply (static_trans _ _ _ s1); [by apply (static_weaken k k no_label); [|done|apply H1]|].
    apply (static_trans _ _ _ s2); [apply (static_weaken (length (labels_ s1)) k no_label); [lia|done|apply H2]|].
    apply (static_trans _ _ _ s3); [apply (static_weaken (length (labels_ s2)) _ (targets s2 (Some tt_) (Some ft))); [lia| |done]|done].
    intros l Hl. destruct (targets_any _ _ _ _ Hl); simplify_eq; auto. }
  assert (unbound s4 tt_) as Ut.
  { apply (static_unbound _ _ _ _ _ (Hs4 (S tt_) no_label)); [lia|]. apply (static_unbound _ _ _ _ _ Hs3); [lia|].
    apply (static_unbound _ _ _ _ _ (fr_static _ _ _ H2)); [lia|apply H1]. }
  assert (unbound s4 ft) as Uf.
  { apply (static_unbound _ _ _ _ _ (Hs4 (S ft) no_label)); [lia|]. apply (static_unbound _ _ _ _ _ Hs3); [lia|apply H2]. }
  assert (height_ s4 = height_ s + 1) as Hh04 by (destruct (cc_set_ s3); lia).
  (* what the visit comes to, after the value has been moved to the stack *)
  assert (Hfall : forall B e P u cc, agrees F s4 -> dead_code_ s = false -> height_ s = Z.of_nat (length P) -> match_env B e ->
    match r e with
    | Ok v => (exists cc', reach (here (emit_offset s) cc P B u) (here (emit_offset s4) cc' (SVal (Some v) :: P) B u))
              \/ (exists b cc', v = VBool b /\ (if b then t else f) = true /\ reach (here (emit_offset s) cc P B u) (here (f_addr F (if b then tt_ else ft)) cc' P B u))
    | Fail => forall i, current_trap_range_ s = Some i -> trapped i P B u (here (emit_offset s) cc P B u)
    | Fatal => True
    end).
  { intros B e P u cc Ha Hd Hh Hm. pose proof (static_agrees _ _ _ _ F (Hs4 0%nat no_label) Ha) as Ha3.
    specialize (Hdyn B e P u cc Ha3 ltac:(congruence) ltac:(congruence) Hm). rewrite B4, A4 in Hdyn. unfold expr_out in Hdyn.
    destruct (r e) as [v| |]; [| |done].
    - destruct Hdyn as (m' & Hr & [(E & cc' & ->)|[(E & b & -> & ->)|(b & l & cc' & -> & El & Hlk & ->)]]).
      + left. exists cc'. by rewrite Hoff4.
      + left. exists b. apply (reach_trans c limit proc _ _ _ Hr). apply Hrun4; [done| |done|done]. apply Hd3. congruence.
      + right. exists b, cc'. split; [done|]. assert (linked_at s4 l) as Hlk4.
        { unfold linked_at. rewrite Hl4. apply Hlk. destruct b; injection El as <-; [|apply H2].
          apply (static_unbound _ _ _ _ _ (fr_static _ _ _ H2)); [lia|apply H1]. }
        destruct b; injection El as <-; (split; [tauto|done]).
    - intros i Hi. apply Hdyn. rewrite (static_current _ _ _ _ (fr_static _ _ _ H2)), (static_current _ _ _ _ (fr_static _ _ _ H1)). done. }
  destruct (t || f) eqn:Etf.
  - apply M_bind_inv in H as (loaded & s5 & H5 & H). apply (NewLabel_fresh s4 loaded s5) in H5; [|done]. pose proof (fresh_wf _ _ _ H5) as Hw5.
    pose proof (fr_same _ _ _ H5) as (C1 & C2 & C3 & C4 & C5). pose proof (fr_index _ _ _ H5) as I5. pose proof (fr_labels _ _ _ H5) as N5.
    apply M_bind_inv in H as (u6 & s6 & H6 & H).
    destruct (Branch_always _ _ _ _ H6 Hw5) as (S6 & D1 & D2 & D3 & D4 & _ & D6 & D7). pose proof (static_wf _ _ _ _ S6) as Hw6.
    pose proof (unbound_lt _ _ Ut) as Lt. pose proof (unbound_lt _ _ Uf) as Lf.
    assert (forall l, unbound s4 l -> unbound s6 l) as U46.
    { intros l Hu. pose proof (unbound_lt _ _ Hu). apply (static_unbound _ _ _ _ _ S6); [lia|]. by apply (static_unbound _ _ _ _ _ (fr_static _ _ _ H5)). }
    assert (unbound s6 loaded) as U6 by (apply (static_unbound _ _ _ _ _ S6); [lia|apply H5]).
    apply M_bind_inv in H as (u7 & s7 & H7 & H).
    destruct (arm_ok t (height_ s2) tt_ true s6 u7 s7 H7 Hw6 (fun _ => U46 _ Ut) D2) as (S7 & E1 & E2 & E3 & E4 & E5 & E6 & E7 & E8).
    pose proof (static_wf _ _ _ _ (S7 k ltac:(lia))) as Hw7.
    apply M_bind_inv in H as (u8 & s8 & H8 & H).
    assert (Hs8 : static (length (labels_ s7)) (eq loaded) s7 s8 /\ (t && f = true -> height_ s8 = height_ s7 /\ dead_code_ s8 = true) /\ (t && f = false -> s8 = s7)
      /\ cc_set_ s8 = false /\ length (labels_ s8) = length (labels_ s7)
      /\ (forall P B u cc, t && f = true -> agrees F s8 -> dead_code_ s7 = false -> reach (here (emit_offset s7) cc P B u) (here (f_addr F loaded) cc P B u))).
    { destruct (t && f) eqn:Eand; cbn [when] in H8.
      - destruct (Branch_always _ _ _ _ H8 Hw7) as (S8 & G1 & G2 & G3 & G4 & _ & _ & G7). split; [done|]. split; [done|].
        split; [done|]. split; [done|]. split; [done|]. intros P B u cc _. apply G7.
      - gen_inv H8. split; [by apply static_refl|]. done. }
    destruct Hs8 as (S8 & G1 & G2 & G3 & G4 & G5). pose proof (static_wf _ _ _ _ S8) as Hw8.
    apply M_bind_inv in H as (u9 & s9 & H9 & H).
    assert (unbound s8 ft) as U8 by (apply (static_unbound _ _ _ _ _ S8); [lia|]; apply E6; [lia|by apply U46]).
    destruct (arm_ok f (height_ s2) ft false s8 u9 s9 H9 Hw8 (fun _ => U8) G3) as (S9 & J1 & J2 & J3 & J4 & J5 & J6 & J7 & J8).
    pose proof (static_wf _ _ _ _ (S9 k ltac:(lia))) as Hw9.
    assert (unbound s9 loaded) as U9 by (apply J6; [lia|]; apply (static_unbound _ _ _ _ _ S8); [lia|]; by apply E6; [lia|]).
    pose proof (Bind_ok loaded _ _ _ H Hw9 U9) as Hb. destruct (bd_same _ _ _ Hb) as (O1 & O2 & O3 & O4).
    assert (Hall : static k (fun l => (l = tt_ \/ l = ft) \/ l = loaded) s s').
    { apply (static_trans _ _ _ s4); [apply (static_weaken k k _ _ _ _ (le_n k)) with (2 := Hs04); intros l Hl; by left|].
      apply (static_trans _ _ _ s5); [apply (static_weaken (length (labels_ s4)) k no_label); [lia|done|apply H5]|].
      apply (static_trans _ _ _ s6); [apply (static_weaken (length (labels_ s5)) k (eq loaded)); [lia|intros l ->; by right|done]|].
      apply (static_trans _ _ _ s7); [apply (static_weaken k k no_label); [lia|done|apply S7; lia]|].
      apply (static_trans _ _ _ s8); [apply (static_weaken (length (labels_ s7)) k (eq loaded)); [lia|intros l ->; by right|done]|].
      apply (static_trans _ _ _ s9); [apply (static_weaken k k no_label); [lia|done|apply S9; lia]|].
      apply (Bind_static k _ loaded _ _ Hb); lia. }
    assert (Hnt : ~ linked_at s' tt_).
    { intros Hc. destruct (bd_links _ _ _ Hb _ Hc) as (Hc9 & _). destruct (st_links _ _ _ _ (S9 k ltac:(lia)) _ Hc9) as [Hc8|[]].
      destruct (st_links _ _ _ _ S8 _ Hc8) as [Hc7|Heq]; [|lia]. destruct (st_links _ _ _ _ (S7 k ltac:(lia)) _ Hc7) as [Hc6|[]].
      destruct t; [by apply E1|]. destruct (st_links _ _ _ _ S6 _ Hc6) as [Hc5|Heq]; [|lia].
      destruct (st_links _ _ _ _ (fr_static _ _ _ H5) _ Hc5) as [Hc4'|[]]. by apply Ht in Hc4'. }
    assert (Hnf : ~ linked_at s' ft).
    { intros Hc. destruct (bd_links _ _ _ Hb _ Hc) as (Hc9 & _). destruct (st_links _ _ _ _ (S9 k ltac:(lia)) _ Hc9) as [Hc8|[]].
      destruct f; [by apply J1|]. destruct (st_links _ _ _ _ S8 _ Hc8) as [Hc7|Heq]; [|lia]. destruct (st_links _ _ _ _ (S7 k ltac:(lia)) _ Hc7) as [Hc6|[]].
      destruct (st_links _ _ _ _ S6 _ Hc6) as [Hc5|Heq]; [|lia].
      destruct (st_links _ _ _ _ (fr_static _ _ _ H5) _ Hc5) as [Hc4'|[]]. by apply Hf in Hc4'. }
    split; [split|split].
    + apply (static_forget _ _ _ _ _ Hall). intros l [[-> | ->]| ->]; right; [done|done|by apply (bound_unlinked _ _ _ Hb)].
    + rewrite O3, J3, O2, J2. destruct f; [lia|]. destruct t; [|done]. rewrite (G2 eq_refl), E2. lia.
    + done.
    + congruence.
    + intros B e P u cc Ha Hd Hh Hm.
      pose proof (static_agrees _ _ _ _ F (Bind_static 0%nat no_label _ _ _ Hb ltac:(lia)) Ha) as Ha9.
      pose proof (static_agrees _ _ _ _ F (S9 k ltac:(lia)) Ha9) as Ha8. pose proof (static_agrees _ _ _ _ F S8 Ha8) as Ha7.
      pose proof (static_agrees _ _ _ _ F (S7 k ltac:(lia)) Ha7) as Ha6. pose proof (static_agrees _ _ _ _ F S6 Ha6) as Ha5.
      pose proof (static_agrees _ _ _ _ F (fr_static _ _ _ H5) Ha5) as Ha4.
      specialize (Hfall B e P u cc Ha4 Hd Hh Hm). unfold load_out. destruct (r e) as [v| |]; [|done|done].
      pose proof (bd_addr _ _ _ Hb F Ha) as Haddr. rewrite <- O1 in Haddr.
      destruct Hfall as [(cc' & Hr)|([] & cc' & -> & Hb1 & Hr)].
      * exists cc'. apply (reach_trans c limit proc _ _ _ Hr). rewrite <- C4, <- Haddr. apply D7; [done|]. rewrite C3, Hd4. apply Hd3. congruence.
      * cbn in Hb1. subst t. exists cc'. apply (reach_trans c limit proc _ _ _ Hr). eapply (reach_trans c limit proc); [by apply E8|].
        destruct f eqn:Ef; cbn in G5, G2.
        -- rewrite <- Haddr. by apply G5.
        -- rewrite O1, (J7 eq_refl), G2 by done. apply reach_refl.
      * exists cc'. apply (reach_trans c limit proc _ _ _ Hr). rewrite O1. by apply J8.
  - apply orb_false_iff in Etf as (-> & ->). gen_inv H. split; [split|split; [done|]].
    + apply (static_forget _ _ _ _ _ Hs04). intros l [-> | ->]; right; [intros Hc; by apply Ht in Hc|intros Hc; by apply Hf in Hc].
    + by rewrite Hc4, Hh04.
    + intros Hd. rewrite Hd4. apply Hd3. congruence.
    + intros B e P u cc Ha Hd Hh Hm. specialize (Hfall B e P u cc Ha Hd Hh Hm). unfold load_out. destruct (r e) as [v| |]; [|done|done].
      destruct Hfall as [Hr|([] & cc' & _ & E & _)]; [done|done|done].
Qed.

(** ** Variables *)

Lemma SetBP_inv level s a s' :
  SetBP (Some fn) level s = Ok (a, s') -> exists delta, bp_delta fn level = Some delta /\ grown s s' (set_bp_code delta) 0.
Proof.
  unfold SetBP, bp_delta_of. intros H. apply M_bind_inv in H as (delta & s1 & H1 & H). apply of_option_inv in H1 as (E & ->).
  exists delta. split; [done|]. unfold set_bp_code. destruct (delta =? 0)%nat; cbn [negb when] in H; [gen_inv H; apply grown_refl|].
  apply M_bind_inv in H as (u & s1 & H1 & H). apply emit_op_grown in H1. apply emit_cells_grown in H. exact (grown_trans _ _ _ _ _ _ _ H1 H).
Qed.

(** The frame and the slot of a variable. *)
Lemma look_inv e d w B :
  look fn e d = Some w -> match_env B e ->
  exists delta i b n fr, bp_delta fn (v_level d) = Some delta /\ var_index (v_offset d) = Z.of_nat i /\ (delta < 256)%nat /\ Z.of_nat i < 2 ^ 15
    /\ i <> 0%nat /\ chain !! delta = Some (b, n) /\ e !! delta = Some fr /\ fr !! i = Some w /\ forall v, assign fn e d v = Some (<[delta := <[i := v]> fr]> e).
Proof.
  intros H Hm. unfold look, assign, place in *. destruct (bp_delta fn (v_level d)) as [delta|]; [|discriminate H]. cbn [mbind option_bind] in *.
  destruct (0 <? var_index (v_offset d)) eqn:E; [|discriminate H]. apply Z.ltb_lt in E. cbn [mbind option_bind] in *.
  destruct (e !! delta) as [fr|] eqn:Ef; [|discriminate H]. cbn [mbind option_bind] in *.
  pose proof (lookup_lt_Some _ _ _ Ef) as Hlt. rewrite (me_shape _ _ _ _ Hm) in Hlt. destruct (lookup_lt_is_Some_2 _ _ Hlt) as [(b & n) Ec].
  destruct (me_vars _ _ _ _ Hm delta b n fr Ec Ef) as (Hn & _). pose proof (lookup_lt_Some _ _ _ H) as Hi. pose proof (cx_sizes Hcx _ _ _ Ec) as Hsz. pose proof (cx_depth Hcx) as Hdp.
  exists delta, (Z.to_nat (var_index (v_offset d))), b, n, fr. split; [done|]. split; [lia|]. split; [lia|]. split; [lia|]. split; [lia|]. repeat (split; [done|]).
  intros v. by rewrite H.
Qed.

Lemma owner_grown s s' l dh i p :
  grown s s' l dh -> wf s -> agrees F s' -> current_trap_range_ s = Some i -> emit_offset s <= p < emit_offset s' -> TrapForInstr c p = Ok (Some i).
Proof.
  intros Hg Hw Ha Hc Hp. pose proof Hg as [(E1 & E2 & E3) _ _ _ _]. pose proof (grown_static 0%nat no_label _ _ _ _ Hg Hw) as Hs.
  apply (owner_ok c F s s' i p (cx_ranges Hcx) Hw); [by apply (static_agrees _ _ _ _ F Hs)|done|by rewrite E2|by apply same_book_opens|done|done].
Qed.

Lemma visit_variable d is_defined t f :
  visit_ok (DoVariable (Some fn) d is_defined (MkCGState false true 0 t f)) t f (fun e => eval fn e (VariableE d is_defined)).
Proof.
  intros s a s' H Hw Hcc. unfold DoVariable in H. cbn [is_load is_lhs delta] in H. apply M_bind_inv in H as (u1 & s1 & H1 & H).
  destruct (SetBP_inv _ _ _ _ H1) as (delta & Ed & G1). apply M_bind_inv in H as (u2 & s2 & H2 & H). apply emit_op_grown in H2. apply M_bind_inv in H as (u3 & s3 & H3 & H).
  apply emit_cells_grown in H3. apply M_bind_inv in H as (u4 & s4 & H4 & H). cbn in H4. gen_inv H4.
  pose proof (grown_trans _ _ _ _ _ _ _ G1 (grown_trans _ _ _ _ _ _ _ H2 H3)) as G. cbn [VariableAccess negb Z.eqb app] in G. change (0 + (StackDelta loadV + 0)) with 1 in G.
  pose proof (grown_static (length (labels_ s)) (targets s t f) _ _ _ _ G Hw) as Sg. pose proof (static_wf _ _ _ _ Sg) as Hw4.
  assert (exists Hs : static (length (labels_ s)) (targets s t f) s4 s', emit_offset s' = emit_offset s4 /\ height_ s' = height_ s4 /\ cc_set_ s' = cc_set_ s4 /\ dead_code_ s' = dead_code_ s4
    /\ (is_defined = false -> agrees F s' -> forall i, current_trap_range_ s4 = Some i -> exists d', f_traps F !! i = Some d' /\ emit_offset s4 - 1 ∈ var_traps_ d')) as (Sa & A1 & A2 & A3 & A4 & A5).
  { cbn [CanTrap CanCauseTrap negb andb] in H. destruct is_defined; cbn [negb orb andb when] in H; [gen_inv H; by exists (static_refl _ _ _ Hw4)|].
    destruct (AddTrap_ok (length (labels_ s)) (targets s t f) _ _ _ H Hw4) as (K0 & K1 & K2 & K3 & K4 & K5 & K6 & i & K7 & K8). exists K0.
    split; [unfold emit_offset; by rewrite K1|]. repeat (split; [done|]). intros _ Ha j Hj. assert (j = i) as -> by congruence.
    pose proof (w_current _ (wf_t _ Hw4)) as Hin. rewrite K7 in Hin. destruct (lookup_lt_is_Some_2 _ _ Hin) as [dj Ej].
    destruct (a_range F s4 (static_agrees _ _ _ _ F K0 Ha) i dj Ej) as (d' & Ed' & _). exists d'. split; [done|]. by apply (K8 dj F). }
  pose proof G as [(B1 & B2 & B3) C D Cs Hh]. split; [split|].
  - by apply (static_trans _ _ _ s4).
  - rewrite A3, Cs, Hcc. lia.
  - intros Hd. congruence.
  - intros B e P u cc Ha Hd HP Hm. cbn [eval]. destruct (look fn e d) as [w|] eqn:El; [|done].
    destruct (look_inv e d w B El Hm) as (delta' & i & b & n & fr & Ed' & Ei & Hdl & Hil & _ & Ec & Ef & Efr & _). assert (delta' = delta) as -> by congruence.
    pose proof (static_agrees _ _ _ _ F Sa Ha) as Ha4. pose proof (grown_has _ _ _ _ G Hw Hd Ha4) as Hhas.
    assert (no_int32 (set_bp_code delta ++ [COp loadV; CInt16 (s16 (var_index (v_offset d))); CPad]) = true) as Hni by (unfold set_bp_code; by destruct (delta =? 0)%nat).
    specialize (Hhas Hni). rewrite Ei in Hhas.
    destruct (run_set_bp c limit proc fp B0 chain (cx_chain Hcx) (cx_top Hcx) _ cc P B u e delta b n _ Hhas Hm Ec Hdl) as (Hr & Hhas').
    pose proof (exec_load_at c limit fp B0 chain (cx_chain Hcx) _ cc b n fr P B u e delta i w _ Hhas' Hm Ec Ef Efr Hil) as Hst.
    pose proof (grown_len _ _ _ _ G Hd) as Hlen. rewrite length_app in Hlen. cbn [length] in Hlen. set (q := emit_offset s + Z.of_nat (length (set_bp_code delta))) in *.
    destruct w as [v|].
    + exists (here (q + 3) cc (SVal (Some v) :: P) B u). split; [apply (reach_trans c limit proc _ _ _ Hr); by apply reach_next|].
      left. split; [congruence|]. exists cc. f_equal. lia.
    + destruct is_defined; [done|]. intros j Hj. exists (at_frame fp q cc b P B u), [], (q + 3), cc, b, None. split; [done|]. split; [exact Hst|]. split.
      * apply (owner_grown _ _ _ _ j (q + 3 - 1) G Hw Ha4 Hj). lia.
      * right. destruct (A5 eq_refl Ha j) as (d' & Ed2 & Hin); [congruence|]. exists d'. rewrite (proj1 (cx_ranges Hcx)). split; [done|].
        by replace (q + 3 - 1) with (emit_offset s4 - 1) by lia.
Qed.

(** ** Operators, elements and fields *)

Lemma load_current m r s a s' : load_ok m r -> m s = Ok (a, s') -> wf s -> cc_set_ s = false -> current_trap_range_ s' = current_trap_range_ s.
Proof. intros Hl H Hw Hcc. destruct (Hl _ _ _ H Hw Hcc) as ([Hs _ _] & _). by apply (static_current _ _ _ _ Hs). Qed.

(** A piece of code after an operand has been loaded. *)
Lemma load_then m r k T s a s1 s' :
  load_ok m r -> m s = Ok (a, s1) -> wf s -> cc_set_ s = false -> (k <= length (labels_ s))%nat -> static k T s1 s' -> static k T s s'.
Proof.
  intros Hl H Hw Hcc Hk Hs'. destruct (Hl _ _ _ H Hw Hcc) as ([Hs _ _] & _). apply (static_trans _ _ _ s1); [|done].
  by apply (static_weaken (length (labels_ s)) k no_label).
Qed.

(** The operands of a binary operator on the stack, or a trap. *)
Lemma load_two m1 r1 m2 r2 s a s1 a2 s2 B e P u cc :
  load_ok m1 r1 -> load_ok m2 r2 -> m1 s = Ok (a, s1) -> m2 s1 = Ok (a2, s2) -> wf s -> cc_set_ s = false ->
  agrees F s2 -> dead_code_ s = false -> height_ s = Z.of_nat (length P) -> match_env B e ->
  match r1 e, r2 e with
  | Ok x, Ok y => exists cc', reach (here (emit_offset s) cc P B u) (here (emit_offset s2) cc' (SVal (Some y) :: SVal (Some x) :: P) B u)
  | Ok _, Fail | Fail, _ => forall i, current_trap_range_ s = Some i -> trapped i P B u (here (emit_offset s) cc P B u)
  | _, _ => True
  end.
Proof.
  intros Hl1 Hl2 H1 H2 Hw Hcc Ha Hd Hh Hm. destruct (Hl1 _ _ _ H1 Hw Hcc) as ([S1 K1 D1] & C1 & Dyn1). pose proof (static_wf _ _ _ _ S1) as Hw1.
  destruct (Hl2 _ _ _ H2 Hw1 C1) as ([S2 K2 D2] & C2 & Dyn2). rewrite C1 in K1. pose proof (static_agrees _ _ _ _ F S2 Ha) as Ha1.
  specialize (Dyn1 B e P u cc Ha1 Hd Hh Hm). unfold load_out in *. destruct (r1 e) as [x| |]; [|by destruct (r2 e)|by destruct (r2 e)].
  destruct Dyn1 as (cc1 & R1). specialize (Dyn2 B e (SVal (Some x) :: P) u cc1 Ha (D1 Hd)). cbn [length] in Dyn2. specialize (Dyn2 ltac:(lia) Hm).
  destruct (r2 e) as [y| |]; [| |done].
  - destruct Dyn2 as (cc2 & R2). exists cc2. by apply (reach_trans c limit proc _ _ _ R1).
  - intros i Hi. apply (trapped_reach c limit proc fp _ _ _ _ _ _ R1). apply (trapped_drop c limit proc fp i [SVal (Some x)]). apply Dyn2.
    by rewrite (static_current _ _ _ _ S1).
Qed.

Lemma operate_cc op x y v : operate op x y = v -> v <> Fatal -> SetsCC op = is_compare op.
Proof.
  intros H Hv. unfold is_compare. destruct (decide (op = set_cc)) as [->|Hne].
  - exfalso. apply Hv. rewrite <- H. by destruct x, y.
  - by rewrite bool_decide_eq_false_2, andb_true_r.
Qed.

Lemma step_operate_fail op p cc x y P B u l :
  has p (COp op :: l) -> operate op x y = Fail ->
  step (base_ c) limit (here p cc (SVal (Some y) :: SVal (Some x) :: P) B u)
  = Ok (Trap (MkState fp (P ++ B) (p + 1) cc fp None (Some DivideByZero) false u.1 u.2)).
Proof.
  intros H Hv. rewrite (step_op c limit _ op) by (by apply has_head in H). rewrite (exec_operate c limit _ _ _ _ Hv) by done. unfold operate in Hv.
  destruct (is_compare op) eqn:Ec; [by destruct (compare op x y)|]. unfold binary. cbn. by rewrite Hv.
Qed.

Lemma step_index_fail ty p cc a i P B u l :
  has p (COp (IndexedAccess ty true false 0) :: l) -> index_val ty a i = Fail ->
  exists info, step (base_ c) limit (here p cc (SVal (Some i) :: SVal (Some a) :: P) B u)
  = Ok (Trap (MkState fp (P ++ B) (p + 1) cc fp None (Some info) false u.1 u.2)).
Proof.
  intros H Hv. unfold index_val in Hv. rewrite (step_op c limit _ (IndexedAccess ty true false 0)) by (by apply has_head in H).
  destruct ty; cbn [IndexedAccess negb Z.eqb] in *; [| |discriminate Hv]; cbn [exec]; unfold exec_index; cbn [pop stack_ with_pc Machine.here app mbind res_bind];
    (destruct (load_indexed _ a i) as [[w|(i' & n)]| |] eqn:E; [done| | |done]); [by eexists|destruct a, i; discriminate E|by eexists|destruct a, i; discriminate E].
Qed.

(** What an instruction on two operands does. *)
Definition op_runs (op : Opcode) (sets : bool) (g : Val -> Val -> res Val) : Prop :=
  forall p cc x y P B u, has p [COp op] ->
    match g x y with
    | Ok v => if sets then exists b, v = VBool b /\ reach (here p cc (SVal (Some y) :: SVal (Some x) :: P) B u) (here (p + 1) b P B u)
              else reach (here p cc (SVal (Some y) :: SVal (Some x) :: P) B u) (here (p + 1) cc (SVal (Some v) :: P) B u)
    | Fail => exists info, step (base_ c) limit (here p cc (SVal (Some y) :: SVal (Some x) :: P) B u)
                           = Ok (Trap (MkState fp (P ++ B) (p + 1) cc fp None (Some info) false u.1 u.2))
    | Fatal => True
    end.

Lemma visit_two (m1 m2 tail : M unit) r1 r2 op (sets : bool) g t f :
  load_ok m1 r1 -> load_ok m2 r2 -> StackDelta op = (if sets then -2 else -1) -> op_runs op sets g ->
  (forall s a s', tail s = Ok (a, s') -> cc_set_ s = false -> s' = set_cc_flag sets s) ->
  visit_ok (m1;; m2;; emit_op op;; tail) t f (fun e => x ← r1 e; y ← r2 e; g x y).
Proof.
  intros Hl1 Hl2 Hop Hruns Htail s a s' H Hw Hcc. apply M_bind_inv in H as (u1 & s1 & H1 & H). apply M_bind_inv in H as (u2 & s2 & H2 & H).
  destruct (Hl1 _ _ _ H1 Hw Hcc) as ([S1 K1 D1] & C1 & _). pose proof (static_wf _ _ _ _ S1) as Hw1.
  destruct (Hl2 _ _ _ H2 Hw1 C1) as ([S2 K2 D2] & C2 & _). pose proof (static_wf _ _ _ _ S2) as Hw2.
  apply M_bind_inv in H as (u3 & s3 & H3 & H). apply emit_op_grown in H3. pose proof H3 as [_ _ D3 E3 Hh3]. apply Htail in H as ->; [|congruence].
  assert (static (length (labels_ s)) (targets s t f) s2 s3) as S3 by (by apply (grown_static _ _ _ _ _ _ H3)).
  assert (static (length (labels_ s)) (targets s t f) s3 (set_cc_flag sets s3)) as S4 by (apply set_cc_static; by apply (static_wf _ _ _ _ S3)).
  pose proof (static_labels _ _ _ _ S1) as N1. split; [split|].
  - apply (load_then m1 r1 _ _ _ _ _ _ Hl1 H1 Hw Hcc); [done|]. apply (load_then m2 r2 _ _ _ _ _ _ Hl2 H2 Hw1 C1); [done|]. by apply (static_trans _ _ _ s3).
  - cbn. rewrite Hh3, K2, C2, K1, C1, Hop. destruct sets; lia.
  - intros Hd. cbn. rewrite D3. auto.
  - intros B e P u cc Ha Hd HP Hm. pose proof (static_agrees _ _ _ _ F S4 Ha) as Ha3. pose proof (static_agrees _ _ _ _ F S3 Ha3) as Ha2.
    pose proof (load_two m1 r1 m2 r2 _ _ _ _ _ B e P u cc Hl1 Hl2 H1 H2 Hw Hcc Ha2 Hd HP Hm) as Htwo.
    assert (dead_code_ s2 = false) as Hd2 by auto. pose proof (grown_has _ _ _ _ H3 Hw2 Hd2 Ha3 eq_refl) as Hhas. pose proof (grown_len _ _ _ _ H3 Hd2) as Hlen. cbn in Hlen.
    destruct (r1 e) as [x| |]; cbn [mbind res_bind]; [|exact Htwo|done]. destruct (r2 e) as [y| |]; cbn [mbind res_bind]; [|exact Htwo|done].
    destruct Htwo as (cc2 & R2). specialize (Hruns _ cc2 x y P B u Hhas). unfold expr_out. destruct (g x y) as [v| |]; [| |done].
    + change (emit_offset (set_cc_flag sets s3)) with (emit_offset s3). cbn [cc_set_ set_cc_flag]. rewrite Hlen. destruct sets.
      * destruct Hruns as (b & -> & Hrun). eexists. split; [exact (reach_trans c limit proc _ _ _ R2 Hrun)|]. right. left. split; [done|]. by exists b.
      * eexists. split; [exact (reach_trans c limit proc _ _ _ R2 Hruns)|]. left. split; [done|]. by exists cc2.
    + destruct Hruns as (info & Hst). intros i Hi. eexists _, [], _, _, _, _. split; [exact R2|]. split; [exact Hst|]. split; [|by left].
      apply (owner_grown _ _ _ _ i _ H3 Hw2 Ha3); [|lia]. by rewrite (static_current _ _ _ _ S2), (static_current _ _ _ _ S1).
Qed.

Lemma set_cc_same b s : cc_set_ s = b -> set_cc_flag b s = s.
Proof. intros <-. by destruct s. Qed.

Lemma operate_runs op : op_runs op (SetsCC op) (fun x y => if decide (op = set_cc) then Fatal else operate op x y).
Proof.
  intros p cc x y P B u Hhas. destruct (decide (op = set_cc)) as [|Hne]; [done|]. destruct (operate op x y) as [v| |] eqn:Eo; [| |done].
  - pose proof (run_operate c limit proc fp op p cc x y P B u [] v Hhas Eo) as Hrun. by rewrite (operate_cc op x y _ Eo) by done.
  - exists DivideByZero. by apply (step_operate_fail op p cc x y P B u []).
Qed.

Lemma visit_operator m1 m2 r1 r2 op t f :
  load_ok m1 r1 -> load_ok m2 r2 -> binary_opcode op = true ->
  visit_ok (m1;; m2;; emit_op op;; modify (set_cc_flag (SetsCC op))) t f (fun e => x ← r1 e; y ← r2 e; operate op x y).
Proof.
  intros Hl1 Hl2 Hop. apply (visit_two _ _ _ _ _ _ (SetsCC op)); [done|done|by apply Z.eqb_eq| |intros s a s' H _; by gen_inv H].
  intros p cc x y P B u Hhas. pose proof (operate_runs op p cc x y P B u Hhas) as Hr. destruct (decide (op = set_cc)) as [->|]; [|done]. by destruct x, y.
Qed.

Lemma visit_index m1 m2 r1 r2 ty t f :
  load_ok m1 r1 -> load_ok m2 r2 ->
  visit_ok (m1;; m2;; emit_op (IndexedAccess ty true false 0);; when (negb (0 =? 0)) (emit_int8 0)) t f (fun e => x ← r1 e; y ← r2 e; index_val ty x y).
Proof.
  intros Hl1 Hl2. apply (visit_two _ _ _ _ _ _ false); [done|done|by destruct ty| |intros s a s' H Hcc; cbn in H; gen_inv H; by rewrite set_cc_same].
  intros p cc x y P B u Hhas. destruct (index_val ty x y) as [v| |] eqn:E; [| |done].
  - by apply (run_index c limit proc fp ty p cc x y P B u []).
  - by apply (step_index_fail ty p cc x y P B u []).
Qed.

Lemma visit_field m r slot t f :
  load_ok m r -> slot < 2 ^ 15 ->
  visit_ok (m;; when false (emit_op fsetB;; emit_int32 0);; emit_op floadV;; emit_int16 slot;; when (negb (0 =? 0)) (emit_int8 0)) t f
    (fun e => x ← r e; field_val x slot).
Proof.
  intros Hl Hslot s a s' H Hw Hcc. apply M_bind_inv in H as (u1 & s1 & H1 & H). destruct (Hl _ _ _ H1 Hw Hcc) as ([S1 K1 D1] & C1 & Dyn). pose proof (static_wf _ _ _ _ S1) as Hw1.
  cbn [when] in H. apply M_bind_inv in H as (u2 & s2 & H2 & H). gen_inv H2. apply M_bind_inv in H as (u3 & s3 & H3 & H). apply emit_op_grown in H3.
  apply M_bind_inv in H as (u4 & s4 & H4 & H). apply emit_cells_grown in H4. cbn in H. gen_inv H. pose proof (grown_trans _ _ _ _ _ _ _ H3 H4) as G. cbn [app] in G.
  pose proof G as [_ _ D Cs Hh]. pose proof (grown_static (length (labels_ s)) (targets s t f) _ _ _ _ G Hw1) as Sg. split; [split|].
  - by apply (load_then m r _ _ _ _ _ _ Hl H1 Hw Hcc).
  - rewrite Cs, C1, Hh, K1, C1. assert (StackDelta floadV = 0) by reflexivity. lia.
  - intros Hd. rewrite D. auto.
  - intros B e P u cc Ha Hd HP Hm. pose proof (static_agrees _ _ _ _ F Sg Ha) as Ha1. specialize (Dyn B e P u cc Ha1 Hd HP Hm). unfold load_out, expr_out in *.
    assert (dead_code_ s2 = false) as Hd1 by auto. pose proof (grown_has _ _ _ _ G Hw1 Hd1 Ha eq_refl) as Hhas. pose proof (grown_len _ _ _ _ G Hd1) as Hlen. cbn in Hlen.
    destruct (r e) as [x| |]; cbn [mbind res_bind]; [|done|done]. destruct Dyn as (cc1 & R1). destruct (field_val x slot) as [v| |] eqn:E; [| |done].
    + eexists. split; [exact (reach_trans c limit proc _ _ _ R1 (run_field c limit proc fp _ cc1 x slot P B u _ v Hhas E Hslot))|]. left.
      split; [congruence|]. exists cc1. by rewrite Hlen.
    + destruct x; try discriminate E. cbn in E. by destruct (if 0 <=? slot then _ else _).
Qed.

(** ** Conditions *)

Lemma as_bool_cases v : (exists b, v = VBool b) \/ as_bool v = Fatal.
Proof. destruct v; eauto. Qed.

Lemma visit_ok_ext m t f r r' : (forall e, r e = r' e) -> visit_ok m t f r -> visit_ok m t f r'.
Proof.
  intros He Hv s a s' H Hw Hcc. destruct (Hv s a s' H Hw Hcc) as (Hs & Hdyn). split; [done|]. intros B e P u cc. rewrite <- He. apply Hdyn.
Qed.

(** The state behind a visit with the value [v]: on the stack, or in the condition
    code. *)
Definition landed (s : CodeGen) (cc : bool) (v : Val) (P B : stack) (u : bool * Z) : state :=
  here (emit_offset s) cc (if cc_set_ s then P else SVal (Some v) :: P) B u.
Definition landed_cc (s : CodeGen) (cc : bool) (v : Val) : Prop := cc_set_ s = true -> v = VBool cc.

Lemma expr_out_cases s s' t f P B u m v :
  expr_out s s' t f P B u m (Ok v) ->
  (exists cc, landed_cc s' cc v /\ reach m (landed s' cc v P B u))
  \/ (exists b l cc, v = VBool b /\ (if b then t else f) = Some l /\ (unbound s l -> linked_at s' l) /\ reach m (here (f_addr F l) cc P B u)).
Proof.
  unfold landed, landed_cc. intros (m' & Hr & [(E & cc & ->)|[(E & b & -> & ->)|(b & l & cc & -> & El & Hlk & ->)]]).
  - left. exists cc. by rewrite E.
  - left. exists b. by rewrite E.
  - right. by exists b, l, cc.
Qed.

(** A branch on a truth value: [b] is the one it jumps on. *)
Definition cond_branch (b : bool) : Opcode := if b then branch_true else branch_false.

Lemma Branch_cond b l s a s' :
  Branch (cond_branch b) l s = Ok (a, s') -> wf s ->
  static (length (labels_ s)) (branch_target s l) s s' /\ height_ s' = height_ s - (if cc_set_ s then 0 else 1) /\ cc_set_ s' = false /\ dead_code_ s' = dead_code_ s
  /\ length (labels_ s') = length (labels_ s) /\ (dead_code_ s = false -> unbound s l -> linked_at s' l)
  /\ (forall P B u cc x, agrees F s' -> dead_code_ s = false -> landed_cc s cc (VBool x) ->
       exists cc', reach (landed s cc (VBool x) P B u) (here (if Bool.eqb x b then f_addr F l else emit_offset s') cc' P B u)).
Proof.
  intros H Hw. destruct (Branch_ok _ l s a s' H Hw) as [Hs Hl Ht Hc Hh Hd Hst Hlen Hlk Hcode].
  assert (branch_pre (cond_branch b) s = if cc_set_ s then [] else [COp set_cc]) as Hpre by (unfold branch_pre; destruct b, (cc_set_ s); done).
  rewrite Hpre in *. split; [done|]. split; [rewrite Hh by (by destruct b); destruct (cc_set_ s); cbn; lia|]. split; [done|].
  split; [rewrite Hd; by destruct b; rewrite orb_false_r|]. split; [done|]. split; [done|].
  intros P B u cc x Ha E Hx. specialize (Hcode E F Ha). specialize (Hlen E). unfold landed, landed_cc in *.
  assert (is_branch (cond_branch b) = true) as Hb by (by destruct b). assert (taken (cond_branch b) x = Bool.eqb x b) as Htk by (by destruct b, x).
  destruct (cc_set_ s); cbn [app length] in *.
  - specialize (Hx eq_refl). injection Hx as ->. exists cc. assert (has (emit_offset s) [COp (cond_branch b); CPcoff (f_addr F l - (emit_offset s + Z.of_nat 0 + 1) - 4)]) as Hhas by (by apply code_has; [|destruct b]).
    pose proof (run_branch c limit proc fp (cond_branch b) _ cc P B u _ _ Hhas Hb) as Hr. rewrite Htk in Hr.
    by replace (if Bool.eqb cc b then f_addr F l else emit_offset s') with (if Bool.eqb cc b then emit_offset s + 5 + (f_addr F l - (emit_offset s + Z.of_nat 0 + 1) - 4) else emit_offset s + 5) by (destruct (Bool.eqb cc b); lia).
  - exists x. assert (has (emit_offset s) [COp set_cc; COp (cond_branch b); CPcoff (f_addr F l - (emit_offset s + Z.of_nat 1 + 1) - 4)]) as Hhas by (by apply code_has; [|destruct b]).
    apply (reach_trans c limit proc _ (here (emit_offset s + 1) x P B u)); [by apply (run_set_cc c limit proc fp _ _ _ _ _ _ _ Hhas)|].
    apply (has_app c _ [COp set_cc]) in Hhas as (_ & Hhas). cbn [length] in Hhas.
    pose proof (run_branch c limit proc fp (cond_branch b) _ x P B u _ _ Hhas Hb) as Hr. rewrite Htk in Hr. change (Z.of_nat 1) with 1 in *.
    by replace (if Bool.eqb x b then f_addr F l else emit_offset s') with (if Bool.eqb x b then emit_offset s + 1 + 5 + (f_addr F l - (emit_offset s + 1 + 1) - 4) else emit_offset s + 1 + 5) by (destruct (Bool.eqb x b); lia).
Qed.

(** [&&] goes on when the left operand is true, [||] when it is false. *)
Lemma visit_shortcut (b : bool) (v1 : nat -> M unit) (v2 : M unit) (r1 r2 : env -> res Val) (t f : option nat) :
  (forall l, visit_ok (v1 l) (if b then Some l else t) (if b then f else Some l) r1) -> visit_ok v2 t f r2 ->
  visit_ok (l ← NewLabel; v1 l;; Branch_to (cond_branch (negb b)) (if b then f else t);; Bind l;; v2) t f
    (fun e => v ← r1 e; x ← as_bool v; if Bool.eqb x b then (w ← r2 e; y ← as_bool w; Ok (VBool y)) else Ok (VBool x)).
Proof.
  intros Hv1 Hv2 s a s' H Hw Hcc. apply M_bind_inv in H as (l & s1 & H1 & H). apply (NewLabel_fresh s l s1) in H1; [|done]. pose proof (fresh_wf _ _ _ H1) as Hw1.
  pose proof (fr_same _ _ _ H1) as (A1 & A2 & A3 & A4 & _). pose proof (fr_index _ _ _ H1) as I1. pose proof (fr_labels _ _ _ H1) as N1.
  apply M_bind_inv in H as (u2 & s2 & H2 & H). destruct (Hv1 l s1 u2 s2 H2 Hw1 ltac:(congruence)) as ([S2 K2 D2] & Dyn1). pose proof (static_wf _ _ _ _ S2) as Hw2.
  apply M_bind_inv in H as (u3 & s3 & H3 & H). unfold Branch_to in H3. apply M_bind_inv in H3 as (sl & s2' & Hsl & H3). apply of_option_inv in Hsl as (Esl & ->).
  destruct (Branch_cond _ _ _ _ _ H3 Hw2) as (S3 & K3 & C3 & D3 & N3 & L3 & Dyn3). pose proof (static_wf _ _ _ _ S3) as Hw3.
  apply M_bind_inv in H as (u4 & s4 & H4 & H). pose proof (static_labels _ _ _ _ S2) as N2. set (k := length (labels_ s)) in *.
  assert (unbound s3 l) as U3.
  { apply (static_unbound _ _ _ _ _ S3); [lia|]. apply (static_unbound _ _ _ _ _ S2); [lia|apply H1]. }
  pose proof (Bind_ok l _ _ _ H4 Hw3 U3) as Hb. destruct (bd_same _ _ _ Hb) as (O1 & O2 & O3 & O4). pose proof (bound_wf _ _ _ Hb) as Hw4.
  destruct (Hv2 s4 a s' H Hw4 ltac:(congruence)) as ([S5 K5 D5] & Dyn2). pose proof (bd_labels _ _ _ Hb) as N4.
  assert (height_ s4 = height_ s) as Hh4 by lia.
  assert (static k no_label s s1) as Sa by (apply H1).
  assert (static k (fun x => targets s t f x \/ x = l) s1 s2) as Sb.
  { apply (static_weaken (length (labels_ s1)) k (targets s1 (if b then Some l else t) (if b then f else Some l))); [lia| |done].
    intros x Hx. destruct b; [destruct (targets_any _ _ _ _ Hx) as [E|E]; simplify_eq; [by right|by left; right]|].
    destruct Hx as [Hx|Hx]; [left|by simplify_eq; right]. apply (targets_back _ _ _ _ _ _ _ Sa (le_n _)). by left. }
  assert (static k (fun x => targets s t f x \/ x = l) s2 s3) as Sc.
  { apply (static_weaken (length (labels_ s2)) k (branch_target s2 sl)); [lia| |done]. intros x (<- & Hx). left.
    apply (targets_back k (fun x => targets s t f x \/ x = l) s s2); [|done|].
    - apply (static_trans _ _ _ s1); [by apply (static_weaken k k no_label)|done].
    - destruct b; [by right|by left]. }
  assert (static k (targets s t f) s3 s4) as Sd by (apply (Bind_static k _ l); [done|lia]).
  assert (static k (targets s t f) s s4) as S04.
  { apply (static_forget k (fun x => targets s t f x \/ x = l)).
    - apply (static_trans _ _ _ s1); [by apply (static_weaken k k no_label)|]. apply (static_trans _ _ _ s2); [done|]. apply (static_trans _ _ _ s3); [done|].
      apply (static_weaken k k (targets s t f)); [lia|by left|done].
    - intros x [?| ->]; [by left|right]. by apply (bound_unlinked _ _ _ Hb). }
  assert (static k (targets s t f) s4 s') as Se.
  { apply (static_weaken (length (labels_ s4)) k (targets s4 t f)); [lia| |done]. intros x. by apply (targets_back _ _ _ _ _ _ _ S04). }
  assert (forall x, unbound s x -> unbound s1 x) as U01 by (intros x Hx; by apply (static_unbound _ _ _ _ _ Sa), Hx; apply unbound_lt).
  assert (forall x, unbound s x -> unbound s2 x) as U02.
  { intros x Hx. apply (static_unbound _ _ _ _ _ Sb); [by apply unbound_lt|by apply U01]. }
  assert (forall x, unbound s x -> unbound s4 x) as U04.
  { intros x Hx. pose proof (unbound_lt _ _ Hx) as Hlt. fold k in Hlt. apply (bd_unbound _ _ _ Hb); [lia|]. apply (static_unbound _ _ _ _ _ Sc); [done|by apply U02]. }
  assert (forall x, unbound s x -> linked_at s2 x -> linked_at s' x) as L2.
  { intros x Hx Hlk. pose proof (unbound_lt _ _ Hx) as Hlt. apply (static_linked _ _ _ _ _ Se Hlt), (static_linked _ _ _ _ _ Sd Hlt), (static_linked _ _ _ _ _ Sc Hlt). done. }
  split; [split; [by apply (static_trans _ _ _ s4)|lia|]|].
  - intros Hd. apply D5, O4.
  - intros B e P u cc Ha Hd HP Hm. pose proof (static_agrees _ _ _ _ F Se Ha) as Ha4. pose proof (static_agrees _ _ _ _ F Sd Ha4) as Ha3. pose proof (static_agrees _ _ _ _ F Sc Ha3) as Ha2.
    pose proof (bd_addr _ _ _ Hb F Ha4) as Haddr. rewrite <- O1 in Haddr.
    specialize (Dyn1 B e P u cc Ha2 ltac:(congruence) ltac:(congruence) Hm). rewrite A4 in Dyn1. destruct (r1 e) as [v| |]; cbn [mbind res_bind]; [| |done].
    + destruct (as_bool_cases v) as [(x & ->)| ->]; cbn [as_bool mbind res_bind]; [|done]. apply expr_out_cases in Dyn1.
      assert (Hgo : (exists cc', reach (here (emit_offset s) cc P B u) (here (if Bool.eqb x b then emit_offset s4 else f_addr F sl) cc' P B u)) /\ (x = negb b -> unbound s sl -> linked_at s' sl)).
      { destruct Dyn1 as [(cc1 & Hcc1 & R1)|(x' & l' & cc1 & E & El & Hlk & R1)].
        - destruct (Dyn3 P B u cc1 x Ha3 ltac:(apply D2; congruence) Hcc1) as (cc2 & R2). split.
          + exists cc2. apply (reach_trans c limit proc _ _ _ R1). rewrite O1. by destruct x, b.
          + intros _ Hx. apply (static_linked _ _ _ _ _ Se), (static_linked _ _ _ _ _ Sd); [by apply unbound_lt..|]. apply L3; [apply D2; congruence|by apply U02].
        - injection E as <-. split.
          + exists cc1. apply (reach_trans c limit proc _ _ _ R1). destruct x, b; cbn [Bool.eqb] in *; simplify_eq; rewrite ?Haddr; apply reach_refl.
          + intros -> Hx. apply L2; [done|]. destruct b; cbn [negb] in *; simplify_eq; apply Hlk; by apply U01. }
      destruct Hgo as ((cc2 & R2) & Hlk). destruct (Bool.eqb x b) eqn:Exb.
      * apply eqb_prop in Exb as ->. specialize (Dyn2 B e P u cc2 Ha O4 ltac:(congruence) Hm). destruct (r2 e) as [w| |]; cbn [mbind res_bind]; [| |done].
        -- destruct (as_bool_cases w) as [(y & ->)| ->]; cbn [as_bool mbind res_bind]; [|done]. destruct Dyn2 as (m' & R3 & Hend). exists m'.
           split; [exact (reach_trans c limit proc _ _ _ R2 R3)|]. destruct Hend as [Hend|[Hend|(y' & l' & cc3 & Ey & El & Hlk' & ->)]]; [by left|right; by left|].
           right. right. exists y', l', cc3. repeat (split; [done|]). split; [|done]. intros Hx. by apply Hlk', U04.
        -- intros i Hi. apply (trapped_reach c limit proc fp _ _ _ _ _ _ R2). apply Dyn2. by rewrite (static_current _ _ _ _ S04).
      * eexists. split; [exact R2|]. right. right. exists x, sl, cc2. split; [done|]. assert (x = negb b) as Ex by (by destruct x, b). split; [by destruct x, b|]. by auto.
    + intros i Hi. apply Dyn1. by rewrite (static_current _ _ _ _ Sa).
Qed.

(** ** Guards *)

Lemma guard_arm_ok (f : bool) fg s a s' :
  when f (L ← NewLabel; Branch branch L;; Bind fg;; PushBool false;; emit_op set_cc;; Bind L) s = Ok (a, s') -> wf s -> unbound s fg ->
  (forall k, (k <= fg)%nat -> static k no_label s s') /\ (f = true -> ~ linked_at s' fg) /\ height_ s' = height_ s /\ (dead_code_ s = false -> dead_code_ s' = false)
  /\ (forall l, l <> fg -> unbound s l -> unbound s' l)
  /\ (forall P B u cc, agrees F s' -> dead_code_ s = false ->
      reach (here (emit_offset s) cc P B u) (here (emit_offset s') cc P B u)
      /\ (f = true -> reach (here (f_addr F fg) cc P B u) (here (emit_offset s') false P B u))).
Proof.
  intros H Hw Hu. destruct f; cbn [when] in H.
  - apply M_bind_inv in H as (L & s1 & H1 & H). apply (NewLabel_fresh s L s1) in H1; [|done]. pose proof (fresh_wf _ _ _ H1) as Hw1.
    pose proof (fr_same _ _ _ H1) as (A1 & A2 & A3 & A4 & _). pose proof (fr_index _ _ _ H1) as I1. pose proof (fr_labels _ _ _ H1) as N1. pose proof (unbound_lt _ _ Hu) as Lfg.
    apply M_bind_inv in H as (u2 & s2 & H2 & H). destruct (Branch_always _ _ _ _ H2 Hw1) as (S2 & K2 & C2 & D2 & N2 & _ & _ & R2). pose proof (static_wf _ _ _ _ S2) as Hw2.
    assert (forall l, unbound s l -> unbound s2 l) as U02.
    { intros l Hl. pose proof (unbound_lt _ _ Hl). apply (static_unbound _ _ _ _ _ S2); [lia|]. by apply (static_unbound _ _ _ _ _ (fr_static _ _ _ H1)). }
    apply M_bind_inv in H as (u3 & s3 & H3 & H). pose proof (Bind_ok fg _ _ _ H3 Hw2 (U02 _ Hu)) as Hb3. destruct (bd_same _ _ _ Hb3) as (O1 & O2 & O3 & O4). pose proof (bound_wf _ _ _ Hb3) as Hw3.
    apply M_bind_inv in H as (u4 & s4 & H4 & H). apply PushBool_inv in H4. apply M_bind_inv in H as (u5 & s5 & H5 & H). apply emit_op_grown in H5.
    pose proof (grown_trans _ _ _ _ _ _ _ H4 H5) as G. pose proof G as [(L1 & L2 & L3) Cg Dg Csg Hg]. assert (1 + StackDelta set_cc = 0) as E0 by reflexivity. rewrite E0 in Hg.
    assert (forall k T, static k T s3 s5) as S35 by (intros k T; by apply (grown_static _ _ _ _ _ _ G)). pose proof (static_wf _ _ _ _ (S35 0%nat no_label)) as Hw5.
    assert (unbound s5 L) as U5.
    { apply (static_unbound _ _ _ _ _ (S35 (S L) no_label)); [lia|]. apply (bd_unbound _ _ _ Hb3); [lia|]. apply (static_unbound _ _ _ _ _ S2); [lia|apply H1]. }
    pose proof (Bind_ok L _ _ _ H Hw5 U5) as Hb. destruct (bd_same _ _ _ Hb) as (P1 & P2 & P3 & P4).
    assert (Hfg : ~ linked_at s' fg).
    { intros Hc. destruct (bd_links _ _ _ Hb _ Hc) as (Hc5 & _). revert Hc5. apply (static_unlinked _ _ _ _ fg (S35 0%nat no_label)); [by apply (bound_unlinked fg s2)|tauto]. }
    split; [|split; [done|split; [lia|split; [done|split]]]].
    + intros k Hk. apply (static_forget k (eq L)); [|intros l <-; right; by apply (bound_unlinked _ _ _ Hb)].
      apply (static_trans _ _ _ s1); [apply (static_weaken (length (labels_ s)) k no_label); [lia|done|apply H1]|].
      apply (static_trans _ _ _ s2); [apply (static_down _ _ _ _ _ S2); lia|]. apply (static_trans _ _ _ s3); [by apply (Bind_static k _ fg)|].
      apply (static_trans _ _ _ s5); [apply S35|]. apply (Bind_static k _ L); [done|lia].
    + intros l Hne Hl. pose proof (unbound_lt _ _ Hl). apply (bd_unbound _ _ _ Hb); [lia|]. apply (static_unbound _ _ _ _ _ (S35 (S l) no_label)); [lia|].
      apply (bd_unbound _ _ _ Hb3); [done|]. by apply U02.
    + intros P B u cc Ha Hd. pose proof (static_agrees _ _ _ _ F (Bind_static 0%nat no_label _ _ _ Hb ltac:(lia)) Ha) as Ha5.
      pose proof (static_agrees _ _ _ _ F (S35 0%nat no_label) Ha5) as Ha3. pose proof (static_agrees _ _ _ _ F (Bind_static 0%nat no_label _ _ _ Hb3 ltac:(lia)) Ha3) as Ha2.
      pose proof (bd_addr _ _ _ Hb F Ha) as AL. pose proof (bd_addr _ _ _ Hb3 F Ha3) as Afg. split.
      * specialize (R2 P B u cc Ha2 ltac:(congruence)). rewrite AL in R2. by rewrite <- A4, P1.
      * intros _. rewrite Afg, <- O1. pose proof (grown_has _ _ _ _ G Hw3 O4 Ha5 eq_refl) as Hhas. pose proof (grown_len _ _ _ _ G O4) as Hlen. cbn in Hlen.
        rewrite P1, Hlen. pose proof (run_pushV c limit proc fp _ cc P B u (VBool false) _ Hhas) as Hr. apply (reach_trans c limit proc _ _ _ Hr).
        pose proof (proj2 (proj1 (has_app c _ (COp pushV :: CVal (VBool false) :: replicate 7 CPad) _) Hhas)) as Hhas2. cbn in Hhas2.
        pose proof (run_set_cc c limit proc fp _ cc false P B u _ Hhas2) as Hr2. by replace (emit_offset s3 + Z.of_nat 10) with (emit_offset s3 + 9 + 1) by lia.
  - gen_inv H. split; [intros k _; by apply static_refl|]. do 4 (split; [done|]). intros P B u cc Ha Hd. split; [apply reach_refl|done].
Qed.

Lemma visit_guard (vg : nat -> nat -> M unit) (ve : M unit) rg re msg t f :
  (forall tg fg, visit_ok (vg tg fg) (Some tg) (Some fg) rg) -> visit_ok ve t f re ->
  visit_ok
    (tguard ← NewLabel; fguard ← NewLabel; vg tguard fguard;;
     s ← get; when (negb (cc_set_ s)) (emit_op set_cc);;
     f ← linked fguard;
     when f (L ← NewLabel; Branch branch L;; Bind fguard;; PushBool false;; emit_op set_cc;; Bind L);;
     emit_op trap_false;; emit_msg msg;; modify (set_cc_flag false);; Bind tguard;; ve) t f
    (fun e => v ← rg e; b ← as_bool v; if b : bool then re e else Fail).
Proof.
  intros Hvg Hve s a s' H Hw Hcc. apply M_bind_inv in H as (tg & s1 & H1 & H). apply (NewLabel_fresh s tg s1) in H1; [|done]. pose proof (fresh_wf _ _ _ H1) as Hw1.
  apply M_bind_inv in H as (fg & s2 & H2 & H). apply (NewLabel_fresh s1 fg s2) in H2; [|done]. pose proof (fresh_wf _ _ _ H2) as Hw2.
  pose proof (fr_same _ _ _ H1) as (A1 & A2 & A3 & A4 & _). pose proof (fr_same _ _ _ H2) as (B1 & B2 & B3 & B4 & _).
  pose proof (fr_index _ _ _ H1) as I1. pose proof (fr_index _ _ _ H2) as I2. pose proof (fr_labels _ _ _ H1) as N1. pose proof (fr_labels _ _ _ H2) as N2.
  apply M_bind_inv in H as (u3 & s3 & H3 & H). destruct (Hvg tg fg s2 u3 s3 H3 Hw2 ltac:(congruence)) as ([S3 K3 D3] & Dyng). pose proof (static_wf _ _ _ _ S3) as Hw3.
  pose proof (static_labels _ _ _ _ S3) as N3. set (k := length (labels_ s)) in *.
  apply M_bind_inv in H as (s3' & s3'' & H0 & H). injection H0 as <- <-. apply M_bind_inv in H as (u4 & s4 & H4 & H).
  apply (when_grown _ _ [COp set_cc] (StackDelta set_cc)) in H4; [|intros ? _ Hop; exact (emit_op_grown _ _ _ _ Hop)].
  pose proof H4 as [(M1 & M2 & M3) C4 D4 E4 Hh4]. assert (StackDelta set_cc = -1) as Esd by reflexivity. rewrite Esd in *.
  assert (forall k T, static k T s3 s4) as S4 by (intros x T; by apply (grown_static _ _ _ _ _ _ H4)). pose proof (static_wf _ _ _ _ (S4 0%nat no_label)) as Hw4.
  apply M_bind_inv in H as (fl & s4' & H5 & H). apply linked_inv in H5 as (-> & Hf). apply M_bind_inv in H as (u5 & s5 & H5 & H).
  assert (unbound s2 tg) as U2 by (apply (static_unbound _ _ _ _ _ (fr_static _ _ _ H2)); [lia|apply H1]).
  assert (forall x, unbound s2 x -> unbound s4 x) as U24.
  { intros x Hx. pose proof (unbound_lt _ _ Hx). unfold unbound. rewrite M1. by apply (static_unbound _ _ _ _ _ S3). }
  destruct (guard_arm_ok fl fg _ _ _ H5 Hw4 (U24 _ (fr_unbound _ _ _ H2))) as (S5 & V5 & K5 & D5 & U5 & R5). pose proof (static_wf _ _ _ _ (S5 k ltac:(lia))) as Hw5.
  apply M_bind_inv in H as (u6 & s6 & H6 & H). apply emit_op_grown in H6. apply M_bind_inv in H as (u7 & s7 & H7 & H). apply emit_cells_grown in H7.
  pose proof (grown_trans _ _ _ _ _ _ _ H6 H7) as G. cbn [app] in G. pose proof G as [(G1 & G2 & G3) Cg Dg Eg Hg]. assert (StackDelta trap_false + 0 = 0) as E0 by reflexivity. rewrite E0 in Hg.
  apply M_bind_inv in H as (u8 & s8 & H8 & H). gen_inv H8. assert (forall k T, static k T s5 (set_cc_flag false s7)) as S8.
  { intros x T. apply (static_trans _ _ _ s7); [by apply (grown_static _ _ _ _ _ _ G)|]. apply set_cc_static. by apply (static_wf _ _ _ _ (grown_static 0%nat no_label _ _ _ _ G Hw5)). }
  set (s8 := set_cc_flag false s7) in *. pose proof (static_wf _ _ _ _ (S8 0%nat no_label)) as Hw8.
  apply M_bind_inv in H as (u9 & s9 & H9 & H). assert (unbound s8 tg) as U8.
  { apply (static_unbound _ _ _ _ _ (S8 (S tg) no_label)); [lia|]. apply U5; [lia|]. by apply U24. }
  pose proof (Bind_ok tg _ _ _ H9 Hw8 U8) as Hb. destruct (bd_same _ _ _ Hb) as (O1 & O2 & O3 & O4). pose proof (bound_wf _ _ _ Hb) as Hw9.
  destruct (Hve s9 a s' H Hw9 ltac:(by rewrite O3)) as ([S10 K10 D10] & Dyne). pose proof (bd_labels _ _ _ Hb) as N9.
  pose proof (static_labels _ _ _ _ (S8 0%nat no_label)) as N8. pose proof (static_labels _ _ _ _ (S5 k ltac:(lia))) as N5. rewrite M1 in N5.
  assert (static k (fun l => l = tg \/ l = fg) s s9) as S09.
  { apply (static_trans _ _ _ s1); [apply (static_weaken k k no_label); [lia|done|apply H1]|]. apply (static_trans _ _ _ s2); [apply (static_weaken (length (labels_ s1)) k no_label); [lia|done|apply H2]|].
    apply (static_trans _ _ _ s3); [apply (static_weaken (length (labels_ s2)) _ (targets s2 (Some tg) (Some fg))); [lia| |done]|].
    { intros l Hl. destruct (targets_any _ _ _ _ Hl); simplify_eq; auto. }
    apply (static_trans _ _ _ s4); [apply S4|].
    apply (static_trans _ _ _ s5); [apply (static_weaken k k no_label); [lia|done|apply S5; lia]|]. apply (static_trans _ _ _ s8); [apply S8|]. apply (Bind_static k _ tg); [done|lia]. }
  assert (~ linked_at s9 fg) as Vfg.
  { intros Hc. destruct (bd_links _ _ _ Hb _ Hc) as (Hc8 & _). destruct (st_links _ _ _ _ (S8 0%nat no_label) _ Hc8) as [Hc5|[]].
    destruct fl; [by apply V5|]. destruct (st_links _ _ _ _ (S5 k ltac:(lia)) _ Hc5) as [Hc4|[]]. by apply Hf in Hc4. }
  assert (static k (targets s t f) s s9) as S09'.
  { apply (static_forget k (fun l => l = tg \/ l = fg)); [done|]. intros x [-> | ->]; right; [by apply (bound_unlinked _ _ _ Hb)|done]. }
  assert (static k (targets s t f) s9 s') as Se.
  { apply (static_weaken (length (labels_ s9)) k (targets s9 t f)); [lia| |done]. intros x. by apply (targets_back _ _ _ _ _ _ _ S09'). }
  assert (emit_offset s9 = emit_offset s7) as O1' by done. assert (height_ s9 = height_ s) as Hh9 by (change (height_ s8) with (height_ s7) in O2; destruct (cc_set_ s3); cbn [negb] in Hh4; lia).
  split; [split; [by apply (static_trans _ _ _ s9)|lia|by intros _; apply D10]|].
  intros B e P u cc Ha Hd HP Hm. pose proof (static_agrees _ _ _ _ F Se Ha) as Ha9. pose proof (static_agrees _ _ _ _ F (Bind_static 0%nat no_label _ _ _ Hb ltac:(lia)) Ha9) as Ha8.
  change (agrees F s8) with (agrees F (set_cc_flag false s7)) in Ha8. pose proof (static_agrees 0%nat no_label _ _ F (set_cc_static _ _ false s7 (static_wf _ _ _ _ (grown_static 0%nat no_label _ _ _ _ G Hw5))) Ha8) as Ha7.
  pose proof (static_agrees _ _ _ _ F (grown_static 0%nat no_label _ _ _ _ G Hw5) Ha7) as Ha5. pose proof (static_agrees _ _ _ _ F (S5 k ltac:(lia)) Ha5) as Ha4.
  pose proof (static_agrees _ _ _ _ F (S4 0%nat no_label) Ha4) as Ha3.
  assert (dead_code_ s3 = false) as Dd3 by (apply D3; congruence). assert (dead_code_ s4 = false) as Dd4 by congruence. specialize (D5 Dd4).
  pose proof (bd_addr _ _ _ Hb F Ha9) as Haddr. rewrite <- O1 in Haddr. pose proof (grown_has _ _ _ _ G Hw5 D5 Ha7 eq_refl) as Hhas. pose proof (grown_len _ _ _ _ G D5) as Hlen. cbn in Hlen.
  specialize (Dyng B e P u cc Ha3 ltac:(congruence) ltac:(congruence) Hm). rewrite B4, A4 in Dyng.
  assert (Hcur : current_trap_range_ s5 = current_trap_range_ s).
  { rewrite (static_current _ _ _ _ (S5 k ltac:(lia))), (static_current _ _ _ _ (S4 0%nat no_label)), (static_current _ _ _ _ S3), (static_current _ _ _ _ (fr_static _ _ _ H2)).
    apply (static_current _ _ _ _ (fr_static _ _ _ H1)). }
  destruct (rg e) as [v| |]; cbn [mbind res_bind]; [| |done].
  - destruct (as_bool_cases v) as [(x & ->)| ->]; cbn [as_bool mbind res_bind]; [|done]. apply expr_out_cases in Dyng.
    assert (Hgo : (exists cc', reach (here (emit_offset s) cc P B u) (here (emit_offset s5) x P B u) \/ (x = true /\ reach (here (emit_offset s) cc P B u) (here (emit_offset s9) cc' P B u)))).
    { destruct Dyng as [(cc1 & Hcc1 & R1)|(x' & l' & cc1 & E & El & Hlk & R1)].
      - exists true. left. apply (reach_trans c limit proc _ _ _ R1). unfold landed. apply (reach_trans c limit proc _ (here (emit_offset s4) x P B u)); [|by apply R5].
        unfold landed_cc in Hcc1. destruct (cc_set_ s3); cbn [negb] in *.
        + specialize (Hcc1 eq_refl). injection Hcc1 as ->. unfold emit_offset. rewrite C4. destruct (dead_code_ s3); rewrite app_nil_r; apply reach_refl.
        + pose proof (grown_has _ _ _ _ H4 Hw3 Dd3 Ha4 eq_refl) as Hh. pose proof (grown_len _ _ _ _ H4 Dd3) as Hl. cbn in Hl. rewrite Hl. by apply (run_set_cc c limit proc fp _ _ _ _ _ _ [] Hh).
      - injection E as <-. exists cc1. destruct x; injection El as <-.
        + right. split; [done|]. by rewrite <- Haddr.
        + left. apply (reach_trans c limit proc _ _ _ R1). apply R5; [done|done|]. apply Hf. unfold linked_at. rewrite M1. apply Hlk. apply H2. }
    destruct Hgo as (cc2 & Hgo). destruct x.
    + assert (exists cc3, reach (here (emit_offset s) cc P B u) (here (emit_offset s9) cc3 P B u)) as (cc3 & R3).
      { destruct Hgo as [Hgo|(_ & Hgo)]; [|by exists cc2]. exists true. apply (reach_trans c limit proc _ _ _ Hgo). rewrite O1', Hlen. apply reach_next.
        exact (run_trap_false c limit fp _ true P B u msg _ Hhas). }
      specialize (Dyne B e P u cc3 Ha O4 ltac:(congruence) Hm). unfold expr_out in *. destruct (re e) as [w| |]; [| |done].
      * destruct Dyne as (m' & R4 & Hend). exists m'. split; [exact (reach_trans c limit proc _ _ _ R3 R4)|]. destruct Hend as [Hend|[Hend|(y' & l' & cc4 & Ey & El & Hlk' & ->)]]; [by left|right; by left|].
        right. right. exists y', l', cc4. repeat (split; [done|]). split; [|done]. intros Hx. pose proof (unbound_lt _ _ Hx). apply Hlk'. apply (static_unbound _ _ _ _ _ S09'); [done|done].
      * intros i Hi. apply (trapped_reach c limit proc fp _ _ _ _ _ _ R3). apply Dyne. by rewrite (static_current _ _ _ _ S09').
    + destruct Hgo as [Hgo|(? & _)]; [|done]. intros i Hi. eexists _, [], _, _, _, _. split; [exact Hgo|]. split; [exact (run_trap_false c limit fp _ false P B u msg _ Hhas)|]. split; [|by left].
      apply (owner_grown _ _ _ _ i _ G Hw5 Ha7); [congruence|]. lia.
  - intros i Hi. apply Dyng. by rewrite (static_current _ _ _ _ (fr_static _ _ _ H2)), (static_current _ _ _ _ (fr_static _ _ _ H1)).
Qed.

(** ** [def()] *)


Lemma match_env_len B e : match_env B e -> length B = stack_of fp.
Proof. intros Hm. destruct (cx_top Hcx) as (n & E). rewrite (me_len _ _ _ _ Hm). by apply (ch_top _ _ (cx_chain Hcx) fp n). Qed.

(** A trap in an open range, and the descriptor of the finished code. *)
Lemma handler_desc t i d s s1 :
  opened t i d s s1 -> agrees F s1 -> exists d', descs c !! i = Some d' /\ same_range d d' /\ target_ d' = f_addr F t.
Proof. intros Ho Ha. rewrite (proj1 (cx_ranges Hcx)). by apply (handler_final F t i d s s1). Qed.

Lemma undone_none d B : var_index_ d = 0 -> undone fp d B B.
Proof. intros H Q. by rewrite H. Qed.

(** Load and pop, in the statement of an expression and in [def()]. *)
Lemma load_pop m r s a s1 a' s' :
  load_ok m r -> m s = Ok (a, s1) -> Pop s1 = Ok (a', s') -> wf s -> cc_set_ s = false ->
  static (length (labels_ s)) no_label s s' /\ height_ s' = height_ s /\ cc_set_ s' = false /\ (dead_code_ s = false -> dead_code_ s' = false)
  /\ (forall B e P u cc, agrees F s' -> dead_code_ s = false -> height_ s = Z.of_nat (length P) -> match_env B e ->
      match r e with
      | Ok _ => exists cc', reach (here (emit_offset s) cc P B u) (here (emit_offset s') cc' P B u)
      | Fail => forall i, current_trap_range_ s = Some i -> trapped i P B u (here (emit_offset s) cc P B u)
      | Fatal => True
      end).
Proof.
  intros Hl H1 H Hw Hcc. destruct (Hl _ _ _ H1 Hw Hcc) as ([S1 K1 D1] & C1 & Dyn). pose proof (static_wf _ _ _ _ S1) as Hw1. rewrite C1 in K1.
  unfold Pop in H. apply M_bind_inv in H as (s1' & s1'' & H0 & H). injection H0 as <- <-. rewrite C1 in H. apply emit_op_grown in H. pose proof H as [_ _ D2 C2 K2].
  assert (StackDelta popV = -1) as E0 by reflexivity. pose proof (grown_static (length (labels_ s)) no_label _ _ _ _ H Hw1) as S2.
  split; [by apply (static_trans _ _ _ s1)|]. split; [lia|]. split; [congruence|]. split; [intros Hd; rewrite D2; auto|].
  intros B e P u cc Ha Hd HP Hm. pose proof (static_agrees _ _ _ _ F S2 Ha) as Ha1. specialize (Dyn B e P u cc Ha1 Hd HP Hm). unfold load_out in Dyn.
  destruct (r e) as [v| |]; [|done|done]. destruct Dyn as (cc1 & R1). exists cc1. apply (reach_trans c limit proc _ _ _ R1).
  rewrite (grown_len _ _ _ _ H (D1 Hd)). apply (run_popV c limit proc fp _ _ _ _ _ _ []). by apply (grown_has _ _ _ _ H Hw1 (D1 Hd) Ha).
Qed.

Lemma visit_def ds global m r (can : bool) t f :
  load_ok m r -> (forall e, r e = Fail -> can = true) ->
  visit_ok (trap_handler ds (Some fn) global f None true can (m;; Pop);; PushBool true) t f
    (fun e => match r e with Ok _ => Ok (VBool true) | Fail => Ok (VBool false) | Fatal => Fatal end).
Proof.
  intros Hl Hcan s a s' H Hw Hcc. apply M_bind_inv in H as (u1 & s4 & H1 & H). apply PushBool_inv in H. pose proof H as [(G1 & G2 & G3) Cg Dg Eg Hg].
  apply trap_handler_inv in H1; [|done]. destruct can.
  - destruct H1 as (l & i & index & delta & s1 & u2 & s3 & El & Ep & Ho & H1 & Hclose). rewrite andb_false_r in El. cbn in Ep. injection Ep as <- <-.
    pose proof (opened_wf _ _ _ _ _ Ho) as Hw1. destruct (op_same _ _ _ _ _ Ho) as (A1 & A2 & A3). pose proof (opened_offset _ _ _ _ _ Ho) as A4. pose proof (op_labels _ _ _ _ _ Ho) as N1.
    apply M_bind_inv in H1 as (u3 & s2 & H2 & H3). destruct (load_pop m r _ _ _ _ _ Hl H2 H3 Hw1 ltac:(congruence)) as (S3 & K3 & C3 & D3 & Dyn).
    pose proof (static_wf _ _ _ _ S3) as Hw3. assert (current_trap_range_ s3 = Some i) as Ecur by (rewrite (static_current _ _ _ _ S3); apply Ho).
    specialize (Hclose Hw3 Ecur). destruct (cl_same _ _ _ Hclose) as (B1 & B2 & B3). rewrite N1 in S3.
    assert (static (length (labels_ s)) (targets s t f) s s4) as S4.
    { apply (static_weaken (length (labels_ s)) _ (fun x => False \/ x = l)); [done|intros x [[]| ->]; by right|]. exact (handler_static _ _ _ _ _ _ _ _ _ Ho S3 Hclose (le_n _)). }
    pose proof (static_wf _ _ _ _ S4) as Hw4. pose proof (grown_static (length (labels_ s)) (targets s t f) _ _ _ _ H Hw4) as S5.
    assert (dead_code_ s = false -> dead_code_ s4 = false) as D4 by (intros Hd; rewrite B3; apply D3; congruence). split; [split|].
    + by apply (static_trans _ _ _ s4).
    + rewrite Eg, B2, C3. lia.
    + intros Hd. rewrite Dg. auto.
    + intros B e P u cc Ha Hd HP Hm. pose proof (static_agrees _ _ _ _ F S5 Ha) as Ha4. pose proof (closed_agrees F _ _ _ Hclose Ha4) as Ha3.
      pose proof (static_agrees _ _ _ _ F S3 Ha3) as Ha1. specialize (Dyn B e P u cc Ha3 ltac:(congruence) ltac:(congruence) Hm). rewrite A4 in Dyn.
      assert (linked_at s' l) as Hlk.
      { pose proof (op_linked _ _ _ _ _ Ho) as Hlk. destruct (static_linked _ _ _ _ l S3) as (b & Eb & Hb); [destruct Hlk as (b & Eb & _); apply lookup_lt_Some in Eb; lia|done|]. exists b. split; [|done]. by rewrite G1, (cl_labels _ _ _ Hclose). }
      destruct (r e) as [v| |]; [| |done].
      * destruct Dyn as (cc1 & R1). eexists. split; [apply (reach_trans c limit proc _ _ _ R1); rewrite <- (closed_offset _ _ _ Hclose); exact (run_pushV c limit proc fp _ cc1 P B u (VBool true) (replicate 7 CPad) (grown_has _ _ _ _ H Hw4 (D4 Hd) Ha eq_refl))|].
        left. split; [congruence|]. exists cc1. by rewrite (grown_len _ _ _ _ H (D4 Hd)).
      * specialize (Dyn i (op_current _ _ _ _ _ Ho)). destruct (handler_desc _ _ _ _ _ Ho Ha1) as (d' & Ed' & (_ & Esh & Evi & _ & Esil & _) & Etgt). cbn in Esh, Evi, Esil.
        destruct (handled c limit proc fp i d' P B B u _ Dyn Ed') as (Hsil & _); [lia|by apply (match_env_len B e)|by apply undone_none|].
        destruct (Hsil Esil) as (cc1 & R1). rewrite Etgt in R1. eexists. split; [exact R1|]. right. right. exists false, l, cc1. done.
  - apply M_bind_inv in H1 as (u2 & s2 & H2 & H3). destruct (load_pop m r _ _ _ _ _ Hl H2 H3 Hw Hcc) as (S3 & K3 & C3 & D3 & Dyn). pose proof (static_wf _ _ _ _ S3) as Hw4.
    split; [split|].
    + apply (static_trans _ _ _ s4); [by apply (static_weaken (length (labels_ s)) _ no_label)|by apply (grown_static _ _ _ _ _ _ H)].
    + rewrite Eg, C3. lia.
    + intros Hd. rewrite Dg. auto.
    + intros B e P u cc Ha Hd HP Hm. pose proof (static_agrees _ _ _ _ F (grown_static 0%nat no_label _ _ _ _ H Hw4) Ha) as Ha4. specialize (Dyn B e P u cc Ha4 Hd HP Hm).
      destruct (r e) as [v| |] eqn:Er; [|by specialize (Hcan e Er)|done]. destruct Dyn as (cc1 & R1).
      eexists. split; [apply (reach_trans c limit proc _ _ _ R1); exact (run_pushV c limit proc fp _ cc1 P B u (VBool true) (replicate 7 CPad) (grown_has _ _ _ _ H Hw4 (D3 Hd) Ha eq_refl))|].
      left. split; [congruence|]. exists cc1. by rewrite (grown_len _ _ _ _ H (D3 Hd)).
Qed.

(** ** All expressions *)

Lemma visit_literal v t f : visit_ok (emit_op pushV;; emit_val v) t f (fun _ => Ok v).
Proof.
  intros s a s' H Hw Hcc. change (emit_op pushV;; emit_val v) with (Push v) in H. apply Push_grown in H. pose proof H as [_ _ D E K]. split; [split|].
  - by apply (grown_static _ _ _ _ _ _ H).
  - rewrite E, Hcc. lia.
  - congruence.
  - intros B e P u cc Ha Hd HP Hm. eexists. split; [exact (run_pushV c limit proc fp _ cc P B u v _ (grown_has _ _ _ _ H Hw Hd Ha eq_refl))|].
    left. split; [congruence|]. exists cc. by rewrite (grown_len _ _ _ _ H Hd).
Qed.

Lemma Visit_ok global x : expr_ok x = true -> forall t f, visit_ok (Visit false (Some fn) global x (MkCGState false true 0 t f)) t f (fun e => eval fn e x).
Proof.
  induction x as [v|d df|bop op l IHl r IHr|arg IH|g IHg y IHy msg|ty a IHa i IHi|v IHv slot inp]; cbn [expr_ok]; intros Hok t f.
  - apply visit_literal.
  - apply visit_variable.
  - assert (Hop : binary_opcode op && expr_ok l && expr_ok r = true ->
      visit_ok (Load (Visit false (Some fn) global l) false;; Load (Visit false (Some fn) global r) false;; emit_op op;; modify (set_cc_flag (SetsCC op))) t f
        (fun e => x ← eval fn e l; y ← eval fn e r; operate op x y)).
    { intros Hall. apply andb_true_iff in Hall as (Hall & Hr). apply andb_true_iff in Hall as (Ho & Hl). apply visit_operator; [apply Load_ok|apply Load_ok|done]; intros t' f'; auto. }
    destruct bop; try exact (Hop Hok); apply andb_true_iff in Hok as (Hl & Hr).
    + apply (visit_ok_ext _ _ _ (fun e => v ← eval fn e l; x ← as_bool v; if Bool.eqb x true then (w ← eval fn e r; y ← as_bool w; Ok (VBool y)) else Ok (VBool x))).
      { intros e. cbn [eval]. destruct (eval fn e l) as [v| |]; cbn [mbind res_bind]; [|done|done]. by destruct (as_bool v) as [[]| |]. }
      apply (visit_shortcut true (fun l' => Visit false (Some fn) global l (MkCGState false true 0 (Some l') f))); [intros l'; by apply IHl|by apply IHr].
    + apply (visit_ok_ext _ _ _ (fun e => v ← eval fn e l; x ← as_bool v; if Bool.eqb x false then (w ← eval fn e r; y ← as_bool w; Ok (VBool y)) else Ok (VBool x))).
      { intros e. cbn [eval]. destruct (eval fn e l) as [v| |]; cbn [mbind res_bind]; [|done|done]. by destruct (as_bool v) as [[]| |]. }
      apply (visit_shortcut false (fun l' => Visit false (Some fn) global l (MkCGState false true 0 t (Some l')))); [intros l'; by apply IHl|by apply IHr].
  - apply visit_def; [apply Load_ok; intros t' f'; by apply IH|]. intros e. apply CanTrap_sound.
  - apply andb_true_iff in Hok as (Hg & Hy). apply visit_guard; [intros t' f'; by apply IHg|by apply IHy].
  - apply andb_true_iff in Hok as (Ha & Hi). apply visit_index; apply Load_ok; intros t' f'; [by apply IHa|by apply IHi].
  - apply andb_true_iff in Hok as (Hs & Hv). apply visit_field; [apply Load_ok; intros t' f'; by apply IHv|by apply Z.ltb_lt].
Qed.

Lemma Load_expr_ok global x : expr_ok x = true -> load_ok (Load (Visit false (Some fn) global x) false) (fun e => eval fn e x).
Proof. intros H. apply Load_ok. intros t f. by apply Visit_ok. Qed.
End Correct.
