(* ===== verification/StatCorrect.v ===== *)
(** * The code of statements is correct

    The code of a statement takes the frames to what the meaning of the statement
    says of the variables, and goes on behind the statement, at the label of the
    statement that is left, or to the return; or the process fails. *)
From Stdlib Require Import ZArith Lia.
From stdpp Require Import prelude strings relations.
From S2P Require Import Prelude Forms Opcodes Arith Interp Nodes CodeGen CodeGenInv TrapRanges Semantics Machine ExprCorrect.

Local Open Scope Z_scope.

Lemma if_cases (b : bool) (A B : Prop) : (if b then A else B) -> b = true /\ A \/ b = false /\ B.
Proof. destruct b; auto. Qed.

Section Statements.
Context (c : Code) (limit : nat) (proc : Proc) (F : Final) (fn : Function) (B0 : stack) (chain : list (nat * nat)) (fp : nat).
Hypothesis Hcx : context_ok c F B0 chain fp.

Abbreviation ignore := (ignores_undefs proc).
Abbreviation here := (here fp).
Abbreviation reach := (reach c limit proc).
Abbreviation trapped := (trapped c limit proc fp).
Abbreviation has := (has c).
Abbreviation match_env := (match_env B0 chain).
Abbreviation handler := (trap_handler false (Some fn)).
Abbreviation visit := (Visit false (Some fn)).

(** ** Ranges around statements *)

(** The frames after a trap: the variable of the range is undefined. *)
Definition undef_env (var : option VarDecl) (e : env) : option env :=
  match var with None => Some e | Some d => assign fn e d None end.

(** The process failed with the variables of [e]. *)
Definition failed_with (m : state) (e : env) : Prop :=
  exists m1 m2 P B, reach m m1 /\ transition c limit proc m1 = Ok (FAILED m2) /\ stack_ m2 = P ++ B /\ fp_ m2 = fp /\ match_env B e /\ stopped_undefined c m2.

(** After a trap in a range with the label [target]. *)
Definition after_trap (silent : bool) (target : nat) (P : stack) (u : bool * Z) (m : state) (e : env) : Prop :=
  if silent || ignore then exists cc B u', reach m (here (f_addr F target) cc P B u') /\ match_env B e else failed_with m e.

(** The body of a range, between [s1] and [s2]. *)
Record guarded (target : nat) (var : option VarDecl) (silent can : bool) (s s1 s2 s' : CodeGen) : Prop := {
  gd_wf : wf s1;
  gd_before : height_ s1 = height_ s /\ cc_set_ s1 = cc_set_ s /\ dead_code_ s1 = dead_code_ s /\ emit_offset s1 = emit_offset s /\ length (labels_ s1) = length (labels_ s);
  gd_unbound : forall l, unbound s l -> unbound s1 l;
  gd_bound : forall l, is_bound s l -> is_bound s1 l;
  gd_after : forall k T, static k T s1 s2 -> (k <= length (labels_ s))%nat ->
    static k (fun l => T l \/ l = target) s s' /\ height_ s' = height_ s2 /\ cc_set_ s' = cc_set_ s2 /\ dead_code_ s' = dead_code_ s2 /\ emit_offset s' = emit_offset s2
    /\ labels_ s' = labels_ s2 /\ (agrees F s' -> agrees F s2)
    /\ (can = true -> (length (labels_ s) <= k)%nat -> linked_at s' target);
  gd_trap : forall k T P B u m e e', static k T s1 s2 -> agrees F s2 -> can = true -> height_ s = Z.of_nat (length P) -> match_env B e -> undef_env var e = Some e' ->
    (forall i, current_trap_range_ s1 = Some i -> trapped i P B u m) -> after_trap silent target P u m e' }.

Lemma undone_some d dl index delta B e e' :
  undef_place (Some fn) (Some dl) = Some (index, delta) -> assign fn e dl None = Some e' -> match_env B e ->
  var_index_ d = index -> var_delta_ d = delta -> exists B', undone fp d B B' /\ match_env B' e'.
Proof.
  intros Hp Ha Hm Ei Edl. cbn in Hp. unfold assign, place in Ha. destruct (bp_delta fn (v_level dl)) as [delta'|] eqn:Eb; [|done].
  cbn [mbind option_bind] in *. injection Hp as <- ->. destruct (0 <? var_index (v_offset dl)) eqn:E; [|done]. apply Z.ltb_lt in E. cbn [mbind option_bind] in Ha.
  destruct (e !! delta) as [fr|] eqn:Ef; [|done]. cbn [mbind option_bind] in Ha. destruct (fr !! Z.to_nat (var_index (v_offset dl))) as [w|] eqn:Ew; [|done]. injection Ha as <-.
  pose proof (lookup_lt_Some _ _ _ Ef) as Hlt. rewrite (me_shape _ _ _ _ Hm) in Hlt. destruct (lookup_lt_is_Some_2 _ _ Hlt) as [(b & n) Ec]. destruct (cx_top _ _ _ _ _ Hcx) as (n0 & E0).
  assert (forall Q, exists B', set_at (Q ++ B) b (Z.of_nat (Z.to_nat (var_index (v_offset dl)))) None = Ok (Q ++ B')
    /\ match_env B' (<[delta := <[Z.to_nat (var_index (v_offset dl)) := None]> fr]> e)) as Hset.
  { intros Q. by apply (set_at_ok B0 chain Q B e delta b n fr _ w None (cx_chain _ _ _ _ _ Hcx) Hm). }
  destruct (Hset []) as (B' & HB & Hm'). exists B'. split; [|done]. intros Q. rewrite Ei, Edl, (proj2 (Z.eqb_neq _ _)) by lia.
  rewrite (base_ok B0 chain Q B e 0 delta fp n0 b n (cx_chain _ _ _ _ _ Hcx) Hm E0 Ec). cbn [mbind res_bind].
  destruct (Hset Q) as (B2 & HB2 & _). rewrite Z2Nat.id in HB, HB2 by lia. rewrite HB2. f_equal. f_equal.
  (* the frames do not depend on what is above them *)
  pose proof (cx_sizes _ _ _ _ _ Hcx _ _ _ Ec) as _. destruct (me_vars _ _ _ _ Hm delta b n fr Ec Ef) as (Hn & Hv). pose proof (lookup_lt_Some _ _ _ Ew) as Hi.
  pose proof (ch_size _ _ (cx_chain _ _ _ _ _ Hcx) delta b n Ec) as Hs. pose proof (chain_height _ _ delta b n (cx_chain _ _ _ _ _ Hcx) Ec) as Hh. pose proof (me_len _ _ _ _ Hm) as Hlen.
  unfold set_at in HB, HB2. destruct ((0 <=? _) && _) eqn:Er in HB, HB2; [|done]. cbn [app] in HB. rewrite slot_at_app in HB2 by lia.
  destruct (slot_at B _) as [[v| | |]|]; try done. rewrite set_slot_app in HB2 by lia. destruct (set_slot B _ _) as [B3|]; [|done]. cbn in HB2. injection HB2 as HB2.
  injection HB as <-. by apply app_inv_head in HB2.
Qed.

Lemma guarded_ok global target var silent can body s a s' :
  handler global (Some target) var silent can body s = Ok (a, s') -> wf s ->
  exists s1 u s2, body s1 = Ok (u, s2) /\ guarded target var silent can s s1 s2 s'.
Proof.
  intros H Hw. apply trap_handler_inv in H; [|done]. destruct can.
  - destruct H as (t & i & index & delta & s1 & u & s2 & Et & Ep & Ho & Hb & Hc). cbn in Et. injection Et as <-. exists s1, u, s2. split; [done|].
    destruct (op_same _ _ _ _ _ Ho) as (A1 & A2 & A3). pose proof (opened_offset _ _ _ _ _ Ho) as A4. pose proof (op_labels _ _ _ _ _ Ho) as A5.
    assert (forall k T, static k T s1 s2 -> closed i s2 s') as Hcl.
    { intros k T Hs. apply Hc; [by apply (static_wf _ _ _ _ Hs)|]. rewrite (static_current _ _ _ _ Hs). apply Ho. }
    split; [by apply (opened_wf _ _ _ _ _ Ho)|done|apply Ho| | |].
    + intros l (b & p & Eb & Hb'). destruct (po_label _ _ _ (op_pre _ _ _ _ _ Ho) l b) as (b' & Eb' & Hle & _); [by apply lookup_lt_Some in Eb|done|]. exists b', p. split; [done|congruence].
    + intros k T Hs Hk. specialize (Hcl k T Hs). destruct (cl_same _ _ _ Hcl) as (B1 & B2 & B3). split; [exact (handler_static _ _ _ _ _ _ _ _ _ Ho Hs Hcl Hk)|].
      repeat (split; [done|]). split; [by apply (closed_offset i)|]. split; [apply Hcl|]. split; [by apply (closed_agrees F i)|]. intros _ Hk2.
      pose proof (op_linked _ _ _ _ _ Ho) as Hlk. assert (target < k)%nat as Hlt by (destruct Hlk as (b & Eb & _); apply lookup_lt_Some in Eb; lia).
      destruct (static_linked _ _ _ _ target Hs Hlt Hlk) as (b & Eb & Hb'). exists b. by rewrite (cl_labels _ _ _ Hcl).
    + intros k T P B u' m e e' Hs Ha _ HP Hm Hu Ht. pose proof (static_agrees _ _ _ _ F Hs Ha) as Ha1. specialize (Ht i (op_current _ _ _ _ _ Ho)).
      destruct (handler_desc c F B0 chain fp Hcx _ _ _ _ _ Ho Ha1) as (d' & Ed' & (_ & Esh & Evi & Evd & Esil & _) & Etgt). cbn in Esh, Evi, Evd, Esil.
      assert (exists B', undone fp d' B B' /\ match_env B' e') as (B' & Hun & Hm').
      { destruct var as [dl|]; [by apply (undone_some d' dl index delta B e e')|]. cbn in Hu, Ep. injection Hu as <-. injection Ep as <- <-. exists B. split; [by apply undone_none|done]. }
      destruct (handled c limit proc fp i d' P B B' u' m Ht Ed') as (R1 & R2 & R3); [lia|by apply (match_env_len c F B0 chain fp Hcx B' e')|done|]. rewrite Etgt in R1, R2. rewrite Esil in R1, R2, R3.
      unfold after_trap. destruct silent; cbn [orb].
      * destruct (R1 eq_refl) as (cc & R). by exists cc, B', u'.
      * destruct (Sumbool.sumbool_of_bool ignore) as [Eig|Eig].
        -- destruct (R2 eq_refl Eig) as (cc & u2 & R). rewrite Eig. by exists cc, B', u2.
        -- destruct (R3 eq_refl Eig) as (m1 & m2 & R & Htr & Hst & Hfp & Hstop). rewrite Eig. by exists m1, m2, P, B'.
  - exists s, a, s'. split; [done|]. split; [done|done|done|done| |done]. intros k T Hs Hk. split; [|done]. apply (static_weaken k k T); [done|by left|done].
Qed.

(** ** A label that is bound at the end *)

Lemma exit_scope (T : nat -> Prop) l s s1 s2 a s' :
  fresh l s s1 -> static (length (labels_ s1)) (fun x => T x \/ x = l) s1 s2 -> Bind l s2 = Ok (a, s') ->
  static (length (labels_ s)) T s s' /\ height_ s' = height_ s2 /\ cc_set_ s' = cc_set_ s2 /\ dead_code_ s' = false /\ emit_offset s' = emit_offset s2
  /\ (agrees F s' -> agrees F s2 /\ f_addr F l = emit_offset s') /\ (forall x, (x < l)%nat -> linked_at s2 x -> linked_at s' x).
Proof.
  intros Hf Hs H. pose proof (static_wf _ _ _ _ Hs) as Hw2. pose proof (fr_index _ _ _ Hf) as I1. pose proof (fr_labels _ _ _ Hf) as N1.
  assert (unbound s2 l) as Hu by (apply (static_unbound _ _ _ _ _ Hs); [lia|apply Hf]). pose proof (Bind_ok l _ _ _ H Hw2 Hu) as Hb.
  destruct (bd_same _ _ _ Hb) as (O1 & O2 & O3 & O4). split; [|repeat (split; [done|])].
  - apply (static_forget _ (fun x => T x \/ x = l)); [|intros x [?| ->]; [by left|right; by apply (bound_unlinked _ _ _ Hb)]].
    apply (static_trans _ _ _ s1); [by apply (static_weaken (length (labels_ s)) _ no_label); [|done|apply Hf]|].
    apply (static_trans _ _ _ s2); [apply (static_down _ _ _ _ _ Hs); lia|]. apply (Bind_static _ _ l); [done|lia].
  - split.
    + intros Ha. split; [by apply (static_agrees _ _ _ _ F (Bind_static 0%nat no_label _ _ _ Hb ltac:(lia)))|]. rewrite O1. by apply (bd_addr _ _ _ Hb).
    + intros x Hx. by apply (static_linked _ _ _ _ x (Bind_static l no_label _ _ _ Hb (le_n _))).
Qed.

(** ** What is to be shown of a statement *)

Section Function.
(** The label of [global_trap_handler_], and the slots of the frame in a return. *)
Context (global : nat) (frame_size : Z).

(** The labels a statement may jump to. *)
Definition outer (ex : list (nat * option nat)) (l : nat) : Prop :=
  (exists x, x ∈ ex /\ (x.1 = l \/ x.2 = Some l)) \/ l = global.

(** They are there. *)
Definition below (ex : list (nat * option nat)) (s : CodeGen) : Prop := forall l, outer ex l -> (l < length (labels_ s))%nat.
Lemma below_le ex s s' : below ex s -> (length (labels_ s) <= length (labels_ s'))%nat -> below ex s'.
Proof. intros H Hle l Hl. specialize (H l Hl). lia. Qed.

Definition ret_code (v : option Val) : list cell := [COp (match v with Some _ => retV | None => ret end); CInt16 (s16 (frame_size / 8))].

Definition stat_out (ex : list (nat * option nat)) (s s' : CodeGen) (m : state) (r : result) : Prop :=
  match r with
  | RNormal e => dead_code_ s' = false /\ exists cc B u, reach m (here (emit_offset s') cc [] B u) /\ match_env B e
  | RBreak k e => exists x cc B u, ex !! k = Some x /\ reach m (here (f_addr F x.1) cc [] B u) /\ match_env B e
  | RContinue k e => exists x l cc B u, ex !! k = Some x /\ x.2 = Some l /\ reach m (here (f_addr F l) cc [] B u) /\ match_env B e
  | RReturn v e => exists p cc B u, reach m (here p cc (match v with Some v => [SVal (Some v)] | None => [] end) B u) /\ has p (ret_code v) /\ match_env B e
  | RReturnUndef e => (unbound s global -> linked_at s' global) /\ exists cc B u, reach m (here (f_addr F global) cc [] B u) /\ match_env B e
  | RFailed e => failed_with m e
  | RStuck | RFuel => True
  end.

Definition stat_ok_ (m : M unit) (ex : list (nat * option nat)) (run : env -> result) : Prop :=
  forall s a s', m s = Ok (a, s') -> wf s -> cc_set_ s = false -> below ex s ->
    static (length (labels_ s)) (outer ex) s s' /\ height_ s' = height_ s /\ cc_set_ s' = false
    /\ (forall B e u cc, agrees F s' -> dead_code_ s = false -> height_ s = 0 -> match_env B e -> stat_out ex s s' (here (emit_offset s) cc [] B u) (run e)).

(** Less may be said of the outcome. *)
Lemma stat_ok_ext m ex run run' : (forall e, run' e = run e \/ run' e = RStuck \/ run' e = RFuel) -> stat_ok_ m ex run -> stat_ok_ m ex run'.
Proof.
  intros He Hm s a s' H Hw Hcc Hbe. destruct (Hm s a s' H Hw Hcc Hbe) as (Hs & Hh & Hc & Hdyn). repeat (split; [done|]). intros B e u cc Ha Hd HP Hme.
  destruct (He e) as [-> |[-> | ->]]; [by apply Hdyn|done|done].
Qed.

Lemma stat_out_reach ex s s' m m' r : reach m m' -> stat_out ex s s' m' r -> stat_out ex s s' m r.
Proof.
  intros Hr. pose proof (fun x => reach_trans c limit proc m m' x Hr) as Ht. unfold stat_out, failed_with. destruct r; try done; intros H.
  - destruct H as (Hd & cc & B & u & H & Hm). split; [done|]. exists cc, B, u. auto.
  - destruct H as (x & cc & B & u & E & H & Hm). exists x, cc, B, u. auto.
  - destruct H as (x & l & cc & B & u & E & El & H & Hm). exists x, l, cc, B, u. auto.
  - destruct H as (p & cc & B & u & H & Hh & Hm). exists p, cc, B, u. auto.
  - destruct H as (Hl & cc & B & u & H & Hm). split; [done|]. exists cc, B, u. auto.
  - destruct H as (m1 & m2 & P & B & H & Hs). exists m1, m2, P, B. auto.
Qed.

Lemma failed_reach m m' e : reach m m' -> failed_with m' e -> failed_with m e.
Proof. intros Hr (m1 & m2 & P & B & H & Hs). exists m1, m2, P, B. split; [by apply (reach_trans c limit proc _ m')|done]. Qed.

(** ** Statements without jumps *)

(** The body of such a statement: an expression and what is done with its value. *)
Definition simple_body (m : M unit) (r : env -> res env) : Prop :=
  forall s a s', m s = Ok (a, s') -> wf s -> cc_set_ s = false ->
    static (length (labels_ s)) no_label s s' /\ height_ s' = height_ s /\ cc_set_ s' = false /\ (dead_code_ s = false -> dead_code_ s' = false)
    /\ (forall B e P u cc, agrees F s' -> dead_code_ s = false -> height_ s = Z.of_nat (length P) -> match_env B e ->
        match r e with
        | Ok e' => exists cc' B', reach (here (emit_offset s) cc P B u) (here (emit_offset s') cc' P B' u) /\ match_env B' e'
        | Fail => forall i, current_trap_range_ s = Some i -> trapped i P B u (here (emit_offset s) cc P B u)
        | Fatal => True
        end).

Definition simple_run (var : option VarDecl) (silent : bool) (r : env -> res env) (e : env) : result :=
  match r e with
  | Ok e' => RNormal e'
  | Fail => match undef_env var e with Some e' => if silent then RNormal e' else on_undef ignore e' | None => RStuck end
  | Fatal => RStuck
  end.

Lemma simple_ok body r (can : bool) var silent ex :
  simple_body body r -> (forall e, r e = Fail -> can = true) ->
  stat_ok_ (exit ← NewLabel; handler (Some global) (Some exit) var silent can body;; Bind exit) ex (simple_run var silent r).
Proof.
  intros Hbody Hcan s a s' H Hw Hcc Hbe. apply M_bind_inv in H as (exit & s1 & H1 & H). apply (NewLabel_fresh s exit s1) in H1; [|done]. pose proof (fresh_wf _ _ _ H1) as Hw1.
  pose proof (fr_same _ _ _ H1) as (A1 & A2 & A3 & A4 & _). apply M_bind_inv in H as (u2 & s4 & H2 & H). destruct (guarded_ok _ _ _ _ _ _ _ _ _ H2 Hw1) as (s2 & u3 & s3 & H3 & [Gw (G1 & G2 & G3 & G4 & G5) Gu Gb Ga Gt]).
  destruct (Hbody _ _ _ H3 Gw ltac:(congruence)) as (S3 & K3 & C3 & D3 & Dyn). rewrite G5 in S3. destruct (Ga _ _ S3 (le_n _)) as (S4 & B1 & B2 & B3 & B4 & B5 & B6 & _).
  destruct (exit_scope (outer ex) exit s s1 s4 a s' H1) as (Ss & O1 & O2 & O3 & O4 & O5 & _); [|done|].
  { apply (static_weaken (length (labels_ s1)) _ (fun l => False \/ l = exit)); [done|intros l [[]| ->]; by right|done]. }
  split; [done|]. split; [lia|]. split; [congruence|]. intros B e u cc Ha Hd HP Hm. destruct (O5 Ha) as (Ha4 & Haddr). pose proof (B6 Ha4) as Ha3.
  specialize (Dyn B e [] u cc Ha3 ltac:(congruence)). cbn [length] in Dyn. specialize (Dyn ltac:(lia) Hm). rewrite G4, A4 in Dyn. unfold simple_run.
  destruct (r e) as [e'| |] eqn:Er; [| |done].
  - destruct Dyn as (cc' & B' & R & Hm'). split; [done|]. exists cc', B', u. split; [|done]. by rewrite O4, B4.
  - destruct (undef_env var e) as [e'|] eqn:Eu; [|done].
    pose proof (Gt _ _ [] B u _ e e' S3 Ha3 (Hcan e Er) ltac:(cbn; lia) Hm Eu Dyn) as Htr. unfold after_trap in Htr. rewrite Haddr in Htr. unfold on_undef. destruct silent; cbn [orb] in Htr.
    + split; [done|]. done.
    + apply if_cases in Htr as [(E & Htr)|(E & Htr)]; rewrite E; [by split|done].
Qed.

(** A trap that ends the function: its range has the label of undefined results. *)
Lemma fatal_ok body r (can : bool) ex :
  simple_body body r -> (forall e, r e = Fail -> can = true) ->
  stat_ok_ (exit ← NewLabel; handler (Some global) (Some global) None false can body;; Bind exit) ex
    (fun e => match r e with Ok e' => RNormal e' | Fail => if ignore then RReturnUndef e else RFailed e | Fatal => RStuck end).
Proof.
  intros Hbody Hcan s a s' H Hw Hcc Hbe. apply M_bind_inv in H as (exit & s1 & H1 & H). apply (NewLabel_fresh s exit s1) in H1; [|done]. pose proof (fresh_wf _ _ _ H1) as Hw1.
  pose proof (fr_same _ _ _ H1) as (A1 & A2 & A3 & A4 & _). pose proof (fr_index _ _ _ H1) as Ie. pose proof (Hbe global (or_intror eq_refl)) as Hg.
  apply M_bind_inv in H as (u2 & s4 & H2 & H). destruct (guarded_ok _ _ _ _ _ _ _ _ _ H2 Hw1) as (s2 & u3 & s3 & H3 & [Gw (G1 & G2 & G3 & G4 & G5) Gu Gb Ga Gt]).
  destruct (Hbody _ _ _ H3 Gw ltac:(congruence)) as (S3 & K3 & C3 & D3 & Dyn). rewrite G5 in S3. destruct (Ga _ _ S3 (le_n _)) as (S4 & B1 & B2 & B3 & B4 & B5 & B6 & B7).
  destruct (exit_scope (outer ex) exit s s1 s4 a s' H1) as (Ss & O1 & O2 & O3 & O4 & O5 & O6); [|done|].
  { apply (static_weaken (length (labels_ s1)) _ (fun l => False \/ l = global)); [done|intros l [[]| ->]; left; by right|done]. }
  split; [done|]. split; [lia|]. split; [congruence|]. intros B e u cc Ha Hd HP Hm. destruct (O5 Ha) as (Ha4 & _). pose proof (B6 Ha4) as Ha3.
  specialize (Dyn B e [] u cc Ha3 ltac:(congruence)). cbn [length] in Dyn. specialize (Dyn ltac:(lia) Hm). rewrite G4, A4 in Dyn. cbv beta.
  destruct (r e) as [e'| |] eqn:Er; [| |done].
  - destruct Dyn as (cc' & B' & R & Hm'). split; [done|]. exists cc', B', u. split; [|done]. by rewrite O4, B4.
  - pose proof (Gt _ _ [] B u _ e e S3 Ha3 (Hcan e Er) ltac:(cbn; lia) Hm eq_refl Dyn) as Htr. unfold after_trap in Htr.
    apply if_cases in Htr as [(E & Htr)|(E & Htr)]; cbn [orb] in E; [assert ((if ignore then RReturnUndef e else RFailed e) = RReturnUndef e) as -> by (by rewrite E)|assert ((if ignore then RReturnUndef e else RFailed e) = RFailed e) as -> by (by rewrite E); done].
    split; [|done]. intros _. apply O6; [lia|]. by apply B7; [apply (Hcan e)|].
Qed.

(** ** Variables *)

Definition access_code (delta : nat) (op : Opcode) (d : VarDecl) : list cell :=
  set_bp_code delta ++ [COp op; CInt16 (s16 (var_index (v_offset d))); CPad].

(** The accesses that end with the index of the variable, and those that go on. *)
Lemma access_then op d (k : M unit) s a s' :
  (SetBP (Some fn) (v_level d);; emit_op op;; emit_int16 (var_index (v_offset d));; k) s = Ok (a, s') ->
  exists delta s1, bp_delta fn (v_level d) = Some delta /\ grown s s1 (access_code delta op d) (StackDelta op) /\ k s1 = Ok (a, s').
Proof.
  intros H. apply M_bind_inv in H as (u1 & s1 & H1 & H). destruct (SetBP_inv _ _ _ _ _ H1) as (delta & Ed & G1).
  apply M_bind_inv in H as (u2 & s2 & H2 & H). apply emit_op_grown in H2. apply M_bind_inv in H as (u3 & s3 & H3 & H). apply emit_cells_grown in H3.
  exists delta, s3. split; [done|]. split; [|done]. pose proof (grown_trans _ _ _ _ _ _ _ G1 (grown_trans _ _ _ _ _ _ _ H2 H3)) as G.
  by replace (0 + (StackDelta op + 0)) with (StackDelta op) in G by lia.
Qed.

Lemma access_end op d s a s' :
  (SetBP (Some fn) (v_level d);; emit_op op;; emit_int16 (var_index (v_offset d))) s = Ok (a, s') ->
  exists delta, bp_delta fn (v_level d) = Some delta /\ grown s s' (access_code delta op d) (StackDelta op).
Proof.
  intros H. destruct (access_then op d (mret tt) s tt s') as (delta & s1 & E & G & H1); [|exists delta; split; [done|by cbv in H1; injection H1 as <-]].
  apply M_bind_inv in H as (u1 & s1 & H1 & H). apply M_bind_inv in H as (u2 & s2 & H2 & H).
  unfold mbind, M_bind. rewrite H1, H2, H. done.
Qed.

Lemma no_int32_set_bp delta l : no_int32 (set_bp_code delta ++ l) = no_int32 l.
Proof. unfold set_bp_code. by destruct (delta =? 0)%nat. Qed.

(** An expression whose value goes into a variable. *)
Lemma simple_assign m r d (store : M unit) :
  load_ok c limit proc F B0 chain fp m r ->
  (forall s a s', store s = Ok (a, s') -> exists delta, bp_delta fn (v_level d) = Some delta
     /\ grown s s' (set_bp_code delta ++ [COp storeV; CInt16 (s16 (var_index (v_offset d))); CPad]) (-1)) ->
  simple_body (m;; store) (fun e => match assign fn e d None with None => Fatal | Some _ => v ← r e; match assign fn e d (Some v) with Some e' => Ok e' | None => Fatal end end).
Proof.
  intros Hl Hstore s a s' H Hw Hcc. apply M_bind_inv in H as (u1 & s1 & H1 & H). destruct (Hl _ _ _ H1 Hw Hcc) as ([S1 K1 D1] & C1 & Dyn). pose proof (static_wf _ _ _ _ S1) as Hw1. rewrite C1 in K1.
  destruct (Hstore _ _ _ H) as (delta & Ed & G). pose proof G as [_ _ D E K]. pose proof (grown_static (length (labels_ s)) no_label _ _ _ _ G Hw1) as S2.
  split; [by apply (static_trans _ _ _ s1)|]. split; [lia|]. split; [congruence|]. split; [intros Hd; rewrite D; auto|].
  intros B e P u cc Ha Hd HP Hm. pose proof (static_agrees _ _ _ _ F S2 Ha) as Ha1. specialize (Dyn B e P u cc Ha1 Hd HP Hm). unfold load_out in Dyn.
  destruct (assign fn e d None) as [e0|] eqn:E0; [|done]. destruct (r e) as [v| |]; cbn [mbind res_bind]; [|done|done]. destruct Dyn as (cc1 & R1).
  assert (exists w, look fn e d = Some w) as (w & El).
  { unfold assign, look in *. destruct (place fn d) as [(dl & i)|]; [|done]. cbn [mbind option_bind] in *. destruct (e !! dl) as [fr|]; [|done]. cbn [mbind option_bind] in *.
    destruct (fr !! i) as [w|]; [|done]. by exists w. }
  destruct (look_inv c F fn B0 chain fp Hcx e d w B El Hm) as (delta' & i & b & n & fr & Ed' & Ei & Hdl & Hil & _ & Ec & Ef & Efr & Has). assert (delta' = delta) as -> by congruence. rewrite Has.
  pose proof (grown_has c F B0 chain fp Hcx _ _ _ _ G Hw1 (D1 Hd) Ha) as Hhas. rewrite no_int32_set_bp in Hhas. specialize (Hhas eq_refl). rewrite Ei in Hhas.
  destruct (run_set_bp c limit proc fp B0 chain (cx_chain _ _ _ _ _ Hcx) (cx_top _ _ _ _ _ Hcx) _ cc1 (SVal (Some v) :: P) B u e delta b n _ Hhas Hm Ec Hdl) as (R2 & Hhas').
  destruct (exec_store_at c limit proc fp B0 chain (cx_chain _ _ _ _ _ Hcx) _ cc1 b n fr P B u e delta i w v _ Hhas' Hm Ec Ef Efr Hil) as (B' & R3 & Hm').
  exists cc1, B'. split; [|done]. apply (reach_trans c limit proc _ _ _ R1), (reach_trans c limit proc _ _ _ R2).
  rewrite (grown_len _ _ _ _ G (D1 Hd)), length_app. cbn [length].
  by replace (emit_offset s1 + Z.of_nat (length (set_bp_code delta) + 3)) with (emit_offset s1 + Z.of_nat (length (set_bp_code delta)) + 3) by lia.
Qed.

Lemma assignment_ok d df r ex :
  expr_ok r = true ->
  stat_ok_ (DoAssignment false (Some fn) (Some global) (VariableE d df) r) ex (fun e => exec_assign fn e d (eval fn e r) (on_undef ignore)).
Proof.
  intros Hr. eapply stat_ok_ext; [|intros s a s' H; refine (simple_ok _ _ (Assignment_CanTrap (VariableE d df) r) (Some d) false ex _ _ s a s' H)].
  2: { apply (simple_assign _ (fun e => eval fn e r) d); [by apply (Load_expr_ok c limit proc F fn B0 chain fp Hcx (Some global))|].
       intros s1 b s2 H1. destruct (access_then storeV d _ _ _ _ H1) as (delta & s3 & E & G & H3). cbn in H3. gen_inv H3. by exists delta. }
  - intros e. left. unfold exec_assign, simple_run, undef_env, with_value, normal, on_undef. destruct (assign fn e d None) as [e0|]; [|done].
    destruct (eval fn e r) as [v| |]; cbn [mbind res_bind]; [|done|done]. by destruct (assign fn e d (Some v)).
  - intros e. cbv beta. destruct (assign fn e d None) as [e0|]; [|done]. destruct (eval fn e r) as [v| |] eqn:E; cbn [mbind res_bind]; [by destruct (assign fn e d (Some v))| |done].
    intros _. unfold Assignment_CanTrap. by rewrite (CanTrap_sound fn e r E), orb_true_r.
Qed.

Lemma local_decl_ok d init ex :
  opt_all expr_ok init = true ->
  stat_ok_ (DoVarDecl false (Some fn) (Some global) d init) ex
    (fun e => match init with None => RNormal e | Some x => if is_static d then RNormal e else exec_assign fn e d (eval fn e x) RNormal end).
Proof.
  intros Hr. assert (forall run, (forall e, run e = RNormal e) -> stat_ok_ (mret tt) ex run) as Hnone.
  { intros run Hrun s a s' H Hw Hcc Hbe. gen_inv H. split; [by apply static_refl|]. repeat (split; [done|]). intros B e u cc Ha Hd HP Hm. rewrite Hrun. split; [done|].
    exists cc, B, u. split; [apply reach_refl|done]. }
  unfold DoVarDecl. destruct (is_static d); cbn [Bool.eqb]; [by apply Hnone; intros e; destruct init|]. destruct init as [r|]; [|by apply Hnone]. cbn in Hr.
  eapply stat_ok_ext; [|intros s a s' H; refine (simple_ok _ _ (CanTrap r) (Some d) true ex _ _ s a s' H)].
  2: { apply (simple_assign _ (fun e => eval fn e r) d); [by apply (Load_expr_ok c limit proc F fn B0 chain fp Hcx (Some global))|].
       intros s1 b s2 H1. exact (access_end storeV d s1 b s2 H1). }
  - intros e. left. unfold exec_assign, simple_run, undef_env, with_value, normal, on_undef. destruct (assign fn e d None) as [e0|]; [|done].
    destruct (eval fn e r) as [v| |]; cbn [mbind res_bind]; [|done|done]. by destruct (assign fn e d (Some v)).
  - intros e. cbv beta. destruct (assign fn e d None) as [e0|]; [|done]. destruct (eval fn e r) as [v| |] eqn:E; cbn [mbind res_bind]; [by destruct (assign fn e d (Some v))| |done].
    intros _. by apply (CanTrap_sound fn e r).
Qed.

Lemma expr_stat_ok x ex :
  expr_ok x = true ->
  stat_ok_ (DoExprStat false (Some fn) (Some global) x) ex (fun e => with_value (eval fn e x) (on_undef ignore e) (fun _ => RNormal e)).
Proof.
  intros Hr. eapply stat_ok_ext; [|intros s a s' H; refine (simple_ok _ (fun e => _ ← eval fn e x; Ok e) (CanTrap x) None false ex _ _ s a s' H)].
  - intros e. left. unfold simple_run, with_value, undef_env. by destruct (eval fn e x).
  - clear s a s' H. intros s a s' H Hw Hcc. apply M_bind_inv in H as (u1 & s1 & H1 & H).
    destruct (load_pop c limit proc F B0 chain fp Hcx _ _ _ _ _ _ _ (Load_expr_ok c limit proc F fn B0 chain fp Hcx (Some global) x Hr) H1 H Hw Hcc) as (S & K & C & D & Dyn).
    repeat (split; [done|]). intros B e P u cc Ha Hd HP Hm. specialize (Dyn B e P u cc Ha Hd HP Hm). destruct (eval fn e x) as [v| |]; cbn [mbind res_bind]; [|done|done].
    destruct Dyn as (cc' & R). by exists cc', B.
  - intros e. cbv beta. destruct (eval fn e x) as [v| |] eqn:E; cbn [mbind res_bind]; [done| |done]. intros _. by apply (CanTrap_sound fn e x).
Qed.

Lemma increment_ok d df (delta : Z) ex :
  -128 <= delta < 128 -> delta <> 0 ->
  stat_ok_ (DoIncrement false (Some fn) (Some global) (VariableE d df) delta) ex
    (fun e => match look fn e d with Some (Some (VInt i)) => normal (assign fn e d (Some (VInt (s64 (i + delta))))) | _ => RStuck end).
Proof.
  intros Hr Hne.
  set (run := fun e => match look fn e d with Some (Some (VInt i)) => match assign fn e d (Some (VInt (s64 (i + delta)))) with Some e' => Ok e' | None => Fatal end | _ => Fatal end).
  eapply stat_ok_ext; [|intros s a s' H; refine (simple_ok _ run (CanTrap (VariableE d df)) (Some d) false ex _ _ s a s' H)].
  - intros e. left. unfold simple_run, run, normal. destruct (look fn e d) as [[[]|]|]; try done. by destruct (assign fn e d _).
  - clear s a s' H. intros s a s' H Hw Hcc. assert (VariableAccess false true delta = inc64) as Eop by (unfold VariableAccess; by rewrite (proj2 (Z.eqb_neq _ _) Hne)).
    destruct (access_then (VariableAccess false true delta) d _ _ _ _ H) as (dl & s1 & Ed & G & H1). rewrite Eop in G. cbn [CodeGen.delta is_load] in H1. rewrite (proj2 (Z.eqb_neq _ _) Hne) in H1. cbn [negb when andb] in H1.
    apply M_bind_inv in H1 as (u2 & s2 & H2 & H1). apply emit_cells_grown in H2. gen_inv H1. pose proof (grown_trans _ _ _ _ _ _ _ G H2) as G2. change (StackDelta inc64 + 0) with 0 in G2.
    pose proof G2 as [_ _ D E K]. pose proof (grown_static (length (labels_ s)) no_label _ _ _ _ G2 Hw) as S. split; [done|]. split; [lia|]. split; [congruence|]. split; [congruence|].
    intros B e P u cc Ha Hd HP Hm. unfold run. destruct (look fn e d) as [[[]|]|] eqn:El; try done.
    destruct (look_inv c F fn B0 chain fp Hcx e d _ B El Hm) as (dl' & i' & b & n & fr & Ed' & Ei & Hdl & Hil & _ & Ec & Ef & Efr & Has). assert (dl' = dl) as -> by congruence. rewrite Has.
    pose proof (grown_has c F B0 chain fp Hcx _ _ _ _ G2 Hw Hd Ha) as Hhas. unfold access_code in Hhas. rewrite <- app_assoc, no_int32_set_bp in Hhas. specialize (Hhas eq_refl). rewrite Ei in Hhas.
    destruct (run_set_bp c limit proc fp B0 chain (cx_chain _ _ _ _ _ Hcx) (cx_top _ _ _ _ _ Hcx) _ cc P B u e dl b n _ Hhas Hm Ec Hdl) as (R2 & Hhas').
    destruct (exec_inc_at c limit proc fp B0 chain (cx_chain _ _ _ _ _ Hcx) _ cc b n fr P B u e dl i' _ delta _ Hhas' Hm Ec Ef Efr Hil Hr) as (B' & R3 & Hm').
    exists cc, B'. split; [|done]. apply (reach_trans c limit proc _ _ _ R2). rewrite (grown_len _ _ _ _ G2 Hd). unfold access_code. rewrite !length_app. cbn [length].
    by replace (emit_offset s + Z.of_nat (length (set_bp_code dl) + 3 + 1)) with (emit_offset s + Z.of_nat (length (set_bp_code dl)) + 4) by lia.
  - intros e. unfold run. destruct (look fn e d) as [[[]|]|]; try done. by destruct (assign fn e d _).
Qed.

(** ** Conditions *)

(** A condition that branches to [tgt] when it is [b], and comes out behind the
    code or at [other] when it is not. *)
Definition cond_code (x : Expr) (exit tgt other : nat) (b : bool) : M unit :=
  handler (Some global) (Some exit) None false (CanTrap x)
    (LoadConditional (visit (Some global) x) false (Some (if b then tgt else other)) (Some (if b then other else tgt));; Branch (cond_branch b) tgt).

Lemma cond_ok x exit tgt other b s a s' :
  expr_ok x = true -> cond_code x exit tgt other b s = Ok (a, s') -> wf s -> cc_set_ s = false ->
  static (length (labels_ s)) (fun l => (l = tgt /\ (b = true -> ~ is_bound s l)) \/ l = other \/ l = exit) s s' /\ height_ s' = height_ s /\ cc_set_ s' = false
  /\ (dead_code_ s = false -> dead_code_ s' = false)
  /\ (forall B e P u cc, agrees F s' -> dead_code_ s = false -> height_ s = Z.of_nat (length P) -> match_env B e ->
      match eval fn e x with
      | Ok (VBool y) => exists cc' p, reach (here (emit_offset s) cc P B u) (here p cc' P B u)
          /\ (if Bool.eqb y b then p = f_addr F tgt else p = emit_offset s' \/ p = f_addr F other)
      | Fail => after_trap false exit P u (here (emit_offset s) cc P B u) e
      | _ => True
      end).
Proof.
  intros Hok H Hw Hcc. destruct (guarded_ok _ _ _ _ _ _ _ _ _ H Hw) as (s1 & u1 & s3 & H1 & [Gw (G1 & G2 & G3 & G4 & G5) Gu Gb Ga Gt]).
  apply M_bind_inv in H1 as (u2 & s2 & H1 & H2). unfold LoadConditional in H1.
  destruct (Visit_ok c limit proc F fn B0 chain fp Hcx (Some global) x Hok _ _ s1 u2 s2 H1 Gw ltac:(congruence)) as ([S1 K1 D1] & Dyn1). pose proof (static_wf _ _ _ _ S1) as Hw2.
  destruct (Branch_cond c limit proc F B0 chain fp Hcx b tgt s2 u1 s3 H2 Hw2) as (S2 & K2 & C2 & D2 & N2 & _ & Dyn2). rewrite G5 in S1. pose proof (static_labels _ _ _ _ S1) as N1.
  assert (forall l, is_bound s l -> is_bound s2 l) as Hbd.
  { intros l Hl. apply (bound_step _ _ _ _ (st_step _ _ _ _ S1)); [|by apply Gb]. destruct Hl as (bl & x0 & Eb & _). by apply lookup_lt_Some in Eb. }
  assert (static (length (labels_ s)) (fun l => (l = tgt /\ (b = true -> ~ is_bound s l)) \/ l = other) s1 s3) as S13.
  { apply (static_trans _ _ _ s2); [apply (static_weaken (length (labels_ s)) _ (targets s1 (Some (if b then tgt else other)) (Some (if b then other else tgt)))); [done| |done]|].
    - intros l Hl. destruct b; destruct Hl as [(E & Hl)|E]; injection E as <-; [left; split; [done|intros _ Hs; by apply Hl, Gb]|by right|by right|by left].
    - apply (static_weaken (length (labels_ s2)) _ (branch_target s2 tgt)); [lia|intros l (<- & Hl); left; split; [done|intros _ Hs; by apply Hl, Hbd]|done]. }
  destruct (Ga _ _ S13 (le_n _)) as (S & B1 & B2 & B3 & B4 & B5 & B6 & _). split; [|split; [lia|split; [congruence|split]]].
  - apply (static_weaken _ _ _ _ _ _ (le_n _) (fun l H => match H with or_introl (or_introl a) => or_introl a | or_introl (or_intror b) => or_intror (or_introl b) | or_intror c => or_intror (or_intror c) end) S).
  - intros Hd. rewrite B3, D2. apply D1. congruence.
  - intros B e P u cc Ha Hd HP Hm. pose proof (B6 Ha) as Ha3. pose proof (static_agrees _ _ _ _ F S2 Ha3) as Ha2. specialize (Dyn1 B e P u cc Ha2 ltac:(congruence) ltac:(congruence) Hm). rewrite G4 in Dyn1.
    destruct (eval fn e x) as [v| |] eqn:Ev; [| |done].
    + destruct (as_bool_cases v) as [(y & ->)|Hnb]; [|by destruct v]. apply expr_out_cases in Dyn1 as [(cc1 & Hl & R1)|(y' & l & cc1 & E & El & _ & R1)].
      * destruct (Dyn2 P B u cc1 y Ha3 ltac:(apply D1; congruence) Hl) as (cc2 & R2). exists cc2. eexists. split; [exact (reach_trans c limit proc _ _ _ R1 R2)|].
        destruct (Bool.eqb y b); [done|]. left. congruence.
      * injection E as <-. exists cc1. eexists. split; [exact R1|]. destruct y, b; cbn in *; simplify_eq; auto.
    + apply (Gt _ _ P B u _ e e S13 Ha3); [by apply (CanTrap_sound fn e x)|done|done|done|done].
Qed.

(** A part that is skipped when the condition is [b]. *)
Lemma one_armed x b part ex run :
  expr_ok x = true -> stat_ok_ part ex run ->
  stat_ok_ (exit ← NewLabel; (l ← NewLabel; cond_code x exit exit l b;; Bind l;; part);; Bind exit) ex
    (fun e => with_bool (eval fn e x) (on_undef ignore e) (fun y => if Bool.eqb y b then RNormal e else run e)).
Proof.
  intros Hok Hpart s a s' H Hw Hcc Hbe. apply M_bind_inv in H as (exit & s1 & H1 & H). apply (NewLabel_fresh s exit s1) in H1; [|done]. pose proof (fresh_wf _ _ _ H1) as Hw1.
  pose proof (fr_same _ _ _ H1) as (A1 & A2 & A3 & A4 & _). apply M_bind_inv in H as (u6 & s6 & H6 & H).
  apply M_bind_inv in H6 as (l & s2 & H2 & H6). apply (NewLabel_fresh s1 l s2) in H2; [|done]. pose proof (fresh_wf _ _ _ H2) as Hw2.
  pose proof (fr_same _ _ _ H2) as (B1 & B2 & B3 & B4 & _). apply M_bind_inv in H6 as (u3 & s3 & H3 & H6).
  destruct (cond_ok x exit exit l b s2 u3 s3 Hok H3 Hw2 ltac:(congruence)) as (S3 & K3 & C3 & D3 & Dyn3). apply M_bind_inv in H6 as (u4 & s4 & H4 & H6).
  pose proof (fr_labels _ _ _ H2) as N2. pose proof (fr_labels _ _ _ H1) as N1. pose proof (fr_index _ _ _ H1) as I1.
  destruct (exit_scope (fun x => x = exit) l s1 s2 s3 u4 s4 H2) as (S4 & K4 & C4 & D4 & O4 & O4' & _); [|done|].
  { apply (static_weaken _ (length (labels_ s2)) _ (fun y => y = exit \/ y = l)) in S3; [done|done|]. intros y [(? & _)|[?|?]]; auto. }
  pose proof (static_wf _ _ _ _ S4) as Hw4. pose proof (static_labels _ _ _ _ S4) as N4. destruct (Hpart _ _ _ H6 Hw4 ltac:(congruence) ltac:(apply (below_le ex s); [done|lia])) as (S5 & K5 & C5 & Dyn5).
  assert (static (length (labels_ s1)) (fun x => outer ex x \/ x = exit) s1 s6) as S16.
  { apply (static_trans _ _ _ s4); [by apply (static_weaken (length (labels_ s1)) _ (fun x => x = exit)); [|intros y ->; right|]|].
    apply (static_weaken (length (labels_ s4)) _ (outer ex)); [lia|by left|done]. }
  destruct (exit_scope (outer ex) exit s s1 s6 a s' H1 S16 H) as (S & K & C & D & O & O' & O2).
  split; [done|]. split; [lia|]. split; [congruence|]. intros B e u cc Ha Hd HP Hm. destruct (O' Ha) as (Ha6 & Hexit). pose proof (static_agrees _ _ _ _ F S5 Ha6) as Ha4. destruct (O4' Ha4) as (Ha3 & Hl).
  specialize (Dyn3 B e [] u cc Ha3 ltac:(congruence) ltac:(cbn; lia) Hm). rewrite B4, A4 in Dyn3. unfold with_bool, with_value. destruct (eval fn e x) as [v| |]; [| |done].
  - destruct v as [y| | | | | | | | |]; try done. destruct Dyn3 as (cc1 & p & R1 & Hp). destruct (Bool.eqb y b).
    + subst p. split; [done|]. exists cc1, B, u. split; [by rewrite <- Hexit|done].
    + assert (p = emit_offset s4) as -> by (destruct Hp; congruence). specialize (Dyn5 B e u cc1 Ha6 D4 ltac:(lia) Hm). apply (stat_out_reach _ _ _ _ _ _ R1) in Dyn5.
      unfold stat_out in *. destruct (run e); try done.
      * destruct Dyn5 as (_ & Dyn5). split; [done|]. by rewrite O.
      * destruct Dyn5 as (Hlk & Dyn5). split; [|done]. intros Hu. pose proof (unbound_lt _ _ Hu) as Hlt.
        apply O2; [lia|]. apply Hlk. apply (static_unbound _ _ _ _ _ S4); [lia|]. by apply (static_unbound _ _ _ _ _ (fr_static _ _ _ H1)).
  - unfold after_trap in Dyn3. rewrite Hexit in Dyn3. unfold on_undef. apply if_cases in Dyn3 as [(E & Htr)|(E & Htr)]; cbn [orb] in E; rewrite E; [by split|done].
Qed.

(** Both parts. *)
Lemma two_armed x part1 part2 ex run1 run2 :
  expr_ok x = true -> stat_ok_ part1 ex run1 -> stat_ok_ part2 ex run2 ->
  stat_ok_ (exit ← NewLabel; (l1 ← NewLabel; l2 ← NewLabel; cond_code x exit l2 l1 false;; Bind l1;; part1;; Branch branch exit;; Bind l2;; part2);; Bind exit) ex
    (fun e => with_bool (eval fn e x) (on_undef ignore e) (fun y => if y then run1 e else run2 e)).
Proof.
  intros Hok Hp1 Hp2 s a s' H Hw Hcc Hbe. apply M_bind_inv in H as (exit & s1 & H1 & H). apply (NewLabel_fresh s exit s1) in H1; [|done]. pose proof (fresh_wf _ _ _ H1) as Hw1.
  pose proof (fr_same _ _ _ H1) as (A1 & A2 & A3 & A4 & _). apply M_bind_inv in H as (u9 & s9 & H9 & H).
  apply M_bind_inv in H9 as (l1 & s2 & H2 & H9). apply (NewLabel_fresh s1 l1 s2) in H2; [|done]. pose proof (fresh_wf _ _ _ H2) as Hw2. pose proof (fr_same _ _ _ H2) as (B1 & B2 & B3 & B4 & _).
  apply M_bind_inv in H9 as (l2 & s3 & H3 & H9). apply (NewLabel_fresh s2 l2 s3) in H3; [|done]. pose proof (fresh_wf _ _ _ H3) as Hw3. pose proof (fr_same _ _ _ H3) as (E1 & E2 & E3 & E4 & _).
  pose proof (fr_labels _ _ _ H1) as N1. pose proof (fr_labels _ _ _ H2) as N2. pose proof (fr_labels _ _ _ H3) as N3.
  pose proof (fr_index _ _ _ H1) as I1. pose proof (fr_index _ _ _ H2) as I2. pose proof (fr_index _ _ _ H3) as I3.
  apply M_bind_inv in H9 as (u4 & s4 & H4 & H9). destruct (cond_ok x exit l2 l1 false s3 u4 s4 Hok H4 Hw3 ltac:(congruence)) as (S4 & K4 & C4 & D4 & Dyn4). pose proof (static_wf _ _ _ _ S4) as Hw4.
  pose proof (static_labels _ _ _ _ S4) as N4.
  apply M_bind_inv in H9 as (u5 & s5 & H5 & H9). assert (unbound s3 l1) as U31 by (apply (static_unbound _ _ _ _ _ (fr_static _ _ _ H3)); [lia|apply H2]).
  assert (unbound s4 l1) as U41 by (apply (static_unbound _ _ _ _ _ S4); [lia|done]). assert (unbound s4 l2) as U42 by (apply (static_unbound _ _ _ _ _ S4); [lia|apply H3]).
  pose proof (Bind_ok l1 _ _ _ H5 Hw4 U41) as Hb5. destruct (bd_same _ _ _ Hb5) as (O1 & O2 & O3 & O4). pose proof (bound_wf _ _ _ Hb5) as Hw5. pose proof (bd_labels _ _ _ Hb5) as N5.
  apply M_bind_inv in H9 as (u6 & s6 & H6 & H9). destruct (Hp1 _ _ _ H6 Hw5 ltac:(congruence) ltac:(apply (below_le ex s); [done|lia])) as (S6 & K6 & C6 & Dyn6). pose proof (static_wf _ _ _ _ S6) as Hw6. pose proof (static_labels _ _ _ _ S6) as N6.
  apply M_bind_inv in H9 as (u7 & s7 & H7 & H9). destruct (Branch_always c limit proc F B0 chain fp Hcx _ _ _ _ H7 Hw6) as (S7 & K7 & C7 & D7 & N7 & _ & _ & R7). pose proof (static_wf _ _ _ _ S7) as Hw7.
  apply M_bind_inv in H9 as (u8 & s8 & H8 & H9). assert (unbound s7 l2) as U72.
  { apply (static_unbound _ _ _ _ _ S7); [lia|]. apply (static_unbound _ _ _ _ _ S6); [lia|]. apply (bd_unbound _ _ _ Hb5); [lia|done]. }
  pose proof (Bind_ok l2 _ _ _ H8 Hw7 U72) as Hb8. destruct (bd_same _ _ _ Hb8) as (P1 & P2 & P3 & P4). pose proof (bound_wf _ _ _ Hb8) as Hw8. pose proof (bd_labels _ _ _ Hb8) as N8.
  destruct (Hp2 _ _ _ H9 Hw8 ltac:(congruence) ltac:(apply (below_le ex s); [done|lia])) as (S9 & K9 & C9 & Dyn9).
  set (k := length (labels_ s1)) in *.
  assert (S18 : static k (fun x => outer ex x \/ x = exit) s1 s8).
  { apply (static_forget k (fun x => outer ex x \/ x = exit \/ x = l1 \/ x = l2)).
    - apply (static_trans _ _ _ s2); [apply (static_weaken k _ no_label); [lia|done|apply H2]|]. apply (static_trans _ _ _ s3); [apply (static_weaken (length (labels_ s2)) _ no_label); [lia|done|apply H3]|].
      apply (static_trans _ _ _ s4); [refine (static_weaken _ _ _ _ _ _ _ _ S4); [lia|intros y [(? & _)|[?|?]]; tauto]|].
      apply (static_trans _ _ _ s5); [apply (Bind_static k _ l1); [done|lia]|]. apply (static_trans _ _ _ s6); [apply (static_weaken (length (labels_ s5)) _ (outer ex)); [lia|by left|done]|].
      apply (static_trans _ _ _ s7); [apply (static_weaken (length (labels_ s6)) _ (eq exit)); [lia|intros y <-; tauto|done]|]. apply (Bind_static k _ l2); [done|lia].
    - intros y [Hy|[Hy|[-> | ->]]]; [by left; left|by left; right|right|right; by apply (bound_unlinked _ _ _ Hb8)].
      intros Hc. destruct (bd_links _ _ _ Hb8 _ Hc) as (Hc7 & _). destruct (st_links _ _ _ _ S7 _ Hc7) as [Hc6|Heq]; [|lia]. destruct (st_links _ _ _ _ S6 _ Hc6) as [Hc5|Ho]; [by apply (bound_unlinked _ _ _ Hb5)|].
      specialize (Hbe _ Ho). lia. }
  pose proof (static_labels _ _ _ _ S18) as N18. fold k in N18.
  assert (S19 : static k (fun x => outer ex x \/ x = exit) s1 s9).
  { apply (static_trans _ _ _ s8); [done|]. apply (static_weaken (length (labels_ s8)) _ (outer ex)); [lia|by left|done]. }
  destruct (exit_scope (outer ex) exit s s1 s9 a s' H1 S19 H) as (S & K & C & D & O & O' & OL).
  split; [done|]. split; [lia|]. split; [congruence|]. intros B e u cc Ha Hd HP Hm. destruct (O' Ha) as (Ha9 & Hexit). pose proof (static_agrees _ _ _ _ F S9 Ha9) as Ha8.
  pose proof (static_agrees _ _ _ _ F (Bind_static 0%nat no_label _ _ _ Hb8 ltac:(lia)) Ha8) as Ha7. pose proof (static_agrees _ _ _ _ F S7 Ha7) as Ha6. pose proof (static_agrees _ _ _ _ F S6 Ha6) as Ha5.
  pose proof (static_agrees _ _ _ _ F (Bind_static 0%nat no_label _ _ _ Hb5 ltac:(lia)) Ha5) as Ha4.
  pose proof (bd_addr _ _ _ Hb5 F Ha5) as Ad1. pose proof (bd_addr _ _ _ Hb8 F Ha8) as Ad2. rewrite <- O1 in Ad1. rewrite <- P1 in Ad2.
  assert (forall x, unbound s x -> unbound s4 x) as U04.
  { intros y Hu. pose proof (unbound_lt _ _ Hu). apply (static_unbound _ _ _ _ _ S4); [lia|]. apply (static_unbound _ _ _ _ _ (fr_static _ _ _ H3)); [lia|].
    apply (static_unbound _ _ _ _ _ (fr_static _ _ _ H2)); [lia|]. by apply (static_unbound _ _ _ _ _ (fr_static _ _ _ H1)). }
  specialize (Dyn4 B e [] u cc Ha4 ltac:(congruence) ltac:(cbn; lia) Hm). rewrite E4, B4, A4 in Dyn4. unfold with_bool, with_value. destruct (eval fn e x) as [v| |]; [| |done].
  - destruct v as [y| | | | | | | | |]; try done. destruct Dyn4 as (cc1 & p & R1 & Hp). destruct y; cbn [Bool.eqb] in Hp.
    + assert (p = emit_offset s5) as -> by (destruct Hp; congruence). specialize (Dyn6 B e u cc1 Ha6 O4 ltac:(lia) Hm). apply (stat_out_reach _ _ _ _ _ _ R1) in Dyn6. unfold stat_out in *. destruct (run1 e); try done.
      * destruct Dyn6 as (Hd6 & cc2 & B2' & u2 & R2 & Hm2). split; [done|]. exists cc2, B2', u2. split; [|done]. apply (reach_trans c limit proc _ _ _ R2). rewrite <- Hexit. by apply R7.
      * destruct Dyn6 as (Hlk & Dyn6). split; [|done]. intros Hu. pose proof (unbound_lt _ _ Hu) as Hlt. apply OL; [lia|]. apply (static_linked _ _ _ _ _ S9); [lia|].
        apply (static_linked _ _ _ _ _ (Bind_static l2 no_label _ _ _ Hb8 (le_n _))); [lia|]. apply (static_linked _ _ _ _ _ S7); [lia|]. apply Hlk. apply (bd_unbound _ _ _ Hb5); [lia|]. by apply U04.
    + subst p. rewrite Ad2 in R1. specialize (Dyn9 B e u cc1 Ha9 P4 ltac:(lia) Hm). apply (stat_out_reach _ _ _ _ _ _ R1) in Dyn9. unfold stat_out in *. destruct (run2 e); try done.
      * destruct Dyn9 as (Hd9 & Dyn9). split; [done|]. by rewrite O.
      * destruct Dyn9 as (Hlk & Dyn9). split; [|done]. intros Hu. pose proof (unbound_lt _ _ Hu) as Hlt. apply OL; [lia|]. apply Hlk.
        apply (bd_unbound _ _ _ Hb8); [lia|]. apply (static_unbound _ _ _ _ _ S7); [lia|]. apply (static_unbound _ _ _ _ _ S6); [lia|]. apply (bd_unbound _ _ _ Hb5); [lia|]. by apply U04.
  - unfold after_trap in Dyn4. rewrite Hexit in Dyn4. unfold on_undef. apply if_cases in Dyn4 as [(E & Htr)|(E & Htr)]; cbn [orb] in E; rewrite E; [by split|done].
Qed.


(** No part: the condition is still evaluated. *)
Lemma no_arm x ex :
  expr_ok x = true ->
  stat_ok_ (exit ← NewLabel; handler (Some global) (Some exit) None false (CanTrap x) (LoadConditional (visit (Some global) x) false (Some exit) (Some exit);; Pop);; Bind exit) ex
    (fun e => with_bool (eval fn e x) (on_undef ignore e) (fun _ => RNormal e)).
Proof.
  intros Hok s a s' H Hw Hcc Hbe. apply M_bind_inv in H as (exit & s1 & H1 & H). apply (NewLabel_fresh s exit s1) in H1; [|done]. pose proof (fresh_wf _ _ _ H1) as Hw1.
  pose proof (fr_same _ _ _ H1) as (A1 & A2 & A3 & A4 & _). apply M_bind_inv in H as (u2 & s5 & H2 & H). destruct (guarded_ok _ _ _ _ _ _ _ _ _ H2 Hw1) as (s2 & u3 & s4 & H3 & [Gw (G1 & G2 & G3 & G4 & G5) Gu Gb Ga Gt]).
  apply M_bind_inv in H3 as (u4 & s3 & H3 & H4). unfold LoadConditional in H3.
  destruct (Visit_ok c limit proc F fn B0 chain fp Hcx (Some global) x Hok _ _ _ _ _ H3 Gw ltac:(congruence)) as ([S1 K1 D1] & Dyn). pose proof (static_wf _ _ _ _ S1) as Hw3. rewrite G5 in S1.
  assert (forall k T, static k T s3 s4) as S4. { intros k T. unfold Pop in H4. apply M_bind_inv in H4 as (s0 & s0' & H0 & H4). injection H0 as <- <-.
    destruct (cc_set_ s3); [gen_inv H4; by apply set_cc_static|]. apply (grown_static k T _ _ [COp popV] (StackDelta popV)); [by apply (emit_op_grown popV _ u3)|done]. }
  assert (height_ s4 = height_ s2 /\ cc_set_ s4 = false /\ dead_code_ s4 = dead_code_ s3
    /\ (agrees F s4 -> dead_code_ s3 = false -> forall cc v P B u, landed_cc s3 cc v -> reach (landed fp s3 cc v P B u) (here (emit_offset s4) cc P B u))) as (K4 & C4 & D4 & R4).
  { unfold Pop in H4. apply M_bind_inv in H4 as (s0 & s0' & H0 & H4). injection H0 as <- <-. unfold landed, landed_cc. destruct (cc_set_ s3) eqn:Ec.
    - gen_inv H4. split; [cbn; lia|]. split; [done|]. split; [done|]. intros Ha Hd cc v P B u _. apply reach_refl.
    - pose proof (emit_op_grown _ _ _ _ H4) as G. pose proof G as [_ _ D E K]. assert (StackDelta popV = -1) as Esd by reflexivity. split; [lia|]. split; [congruence|]. split; [done|].
      intros Ha Hd cc v P B u _. rewrite (grown_len _ _ _ _ G Hd).
      apply (run_popV c limit proc fp _ _ _ _ _ _ []). by apply (grown_has c F B0 chain fp Hcx _ _ _ _ G Hw3 Hd Ha). }
  assert (static (length (labels_ s1)) (fun l => l = exit) s2 s4) as S24.
  { apply (static_trans _ _ _ s3); [|apply S4]. apply (static_weaken (length (labels_ s1)) _ (targets s2 (Some exit) (Some exit))); [done| |done]. intros l Hl. destruct (targets_any _ _ _ _ Hl); by simplify_eq. }
  destruct (Ga _ _ S24 (le_n _)) as (S5 & B1 & B2 & B3 & B4 & B5 & B6 & _).
  destruct (exit_scope (outer ex) exit s s1 s5 a s' H1) as (S & O1 & O2 & O3 & O4 & O5 & _); [|done|].
  { apply (static_weaken (length (labels_ s1)) _ (fun l => l = exit \/ l = exit)); [done|tauto|done]. }
  split; [done|]. split; [lia|]. split; [congruence|]. intros B e u cc Ha Hd HP Hm. destruct (O5 Ha) as (Ha5 & Hexit). pose proof (B6 Ha5) as Ha4. pose proof (static_agrees _ _ _ _ F (S4 0%nat no_label) Ha4) as Ha3.
  specialize (Dyn B e [] u cc Ha3 ltac:(congruence)). cbn [length] in Dyn. specialize (Dyn ltac:(lia) Hm). rewrite G4, A4 in Dyn. unfold with_bool, with_value.
  destruct (eval fn e x) as [v| |] eqn:Ev; [| |done].
  - destruct v as [y| | | | | | | | |]; try done. split; [done|]. apply expr_out_cases in Dyn as [(cc1 & Hl & R1)|(y' & l & cc1 & E & El & _ & R1)].
    + exists cc1, B, u. split; [|done]. apply (reach_trans c limit proc _ _ _ R1). rewrite O4, B4. apply R4; [done|apply D1; congruence|done].
    + exists cc1, B, u. split; [|done]. rewrite <- Hexit. by destruct y'; injection El as <-.
  - pose proof (Gt _ _ [] B u _ e e S24 Ha4 (CanTrap_sound fn e x Ev) ltac:(cbn; lia) Hm eq_refl Dyn) as Htr. unfold after_trap in Htr. rewrite Hexit in Htr. unfold on_undef.
    apply if_cases in Htr as [(E & Htr)|(E & Htr)]; cbn [orb] in E; rewrite E; [by split|done].
Qed.

(** ** Jumps and returns *)

Lemma jump_ok l ex s a s' :
  Branch branch l s = Ok (a, s') -> wf s -> outer ex l ->
  static (length (labels_ s)) (outer ex) s s' /\ height_ s' = height_ s /\ cc_set_ s' = false
  /\ (forall B u cc, agrees F s' -> dead_code_ s = false -> reach (here (emit_offset s) cc [] B u) (here (f_addr F l) cc [] B u)).
Proof.
  intros H Hw Hl. destruct (Branch_always c limit proc F B0 chain fp Hcx _ _ _ _ H Hw) as (S & K & C & D & N & _ & _ & R).
  split; [by apply (static_weaken (length (labels_ s)) _ (eq l)); [|intros x <-|]|]. split; [done|]. split; [done|]. intros B u cc. apply R.
Qed.

Lemma break_ok k ex : stat_ok_ (e ← of_option (ex !! k); Branch branch (e.1)) ex (RBreak k).
Proof.
  intros s a s' H Hw Hcc Hbe. apply M_bind_inv in H as (x & s1 & H1 & H). apply of_option_inv in H1 as (Ex & ->).
  destruct (jump_ok (x.1) ex s a s' H Hw) as (S & K & C & R); [left; exists x; split; [by apply list_elem_of_lookup_2 with k|by left]|].
  repeat (split; [done|]). intros B e u cc Ha Hd HP Hm. exists x, cc, B, u. split; [done|]. split; [by apply R|done].
Qed.

Lemma continue_ok k ex : stat_ok_ (e ← of_option (ex !! k); c ← of_option (e.2); Branch branch c) ex (RContinue k).
Proof.
  intros s a s' H Hw Hcc Hbe. apply M_bind_inv in H as (x & s1 & H1 & H). apply of_option_inv in H1 as (Ex & ->). apply M_bind_inv in H as (l & s1 & H1 & H). apply of_option_inv in H1 as (El & ->).
  destruct (jump_ok l ex s a s' H Hw) as (S & K & C & R); [left; exists x; split; [by apply list_elem_of_lookup_2 with k|by right]|].
  repeat (split; [done|]). intros B e u cc Ha Hd HP Hm. exists x, l, cc, B, u. split; [done|]. split; [done|]. split; [by apply R|done].
Qed.

Lemma return_none_ok ex : stat_ok_ (DoReturn false (Some fn) (Some global) frame_size None) ex (RReturn None).
Proof.
  intros s a s' H Hw Hcc Hbe. unfold DoReturn in H. apply M_bind_inv in H as (u1 & s1 & H1 & H). apply emit_op_grown in H1. apply M_bind_inv in H as (u2 & s2 & H2 & H). apply emit_cells_grown in H2. gen_inv H.
  pose proof (grown_trans _ _ _ _ _ _ _ H1 H2) as G. cbn [app] in G. pose proof G as [_ _ D E K]. assert (StackDelta ret + 0 = 0) as Esd by reflexivity. rewrite Esd in K.
  pose proof (grown_static (length (labels_ s)) (outer ex) _ _ _ _ G Hw) as S1. pose proof (static_wf _ _ _ _ S1) as Hw2.
  assert (static (length (labels_ s)) (outer ex) s2 (set_dead true s2)) as S2 by (by apply same_static).
  split; [by apply (static_trans _ _ _ s2)|]. split; [cbn; lia|]. split; [cbn; congruence|]. intros B e u cc Ha Hd HP Hm. pose proof (static_agrees _ _ _ _ F S2 Ha) as Ha2.
  exists (emit_offset s), cc, B, u. split; [apply reach_refl|]. split; [|done]. pose proof (grown_has c F B0 chain fp Hcx _ _ _ _ G Hw Hd Ha2 eq_refl) as Hhas.
  by apply (has_app c _ (ret_code None) [CPad]) in Hhas as (Hhas & _).
Qed.

Lemma return_some_ok x ex :
  expr_ok x = true ->
  stat_ok_ (DoReturn false (Some fn) (Some global) frame_size (Some x)) ex (fun e => with_value (eval fn e x) (RReturnUndef e) (fun v => RReturn (Some v) e)).
Proof.
  intros Hok s a s' H Hw Hcc Hbe. unfold DoReturn in H. apply M_bind_inv in H as (u1 & s5 & H1 & H). destruct (guarded_ok _ _ _ _ _ _ _ _ _ H1 Hw) as (s1 & u3 & s4 & H3 & [Gw (G1 & G2 & G3 & G4 & G5) Gu Gb Ga Gt]).
  apply M_bind_inv in H3 as (u4 & s2 & H3 & H4). destruct (Load_expr_ok c limit proc F fn B0 chain fp Hcx (Some global) x Hok _ _ _ H3 Gw ltac:(congruence)) as ([S1 K1 D1] & C1 & Dyn). pose proof (static_wf _ _ _ _ S1) as Hw2.
  apply M_bind_inv in H4 as (u5 & s3 & H4 & H5). apply emit_op_grown in H4. pose proof H4 as [_ _ D4 E4 K4]. rewrite G5 in S1. rewrite C1 in K1.
  assert (static (length (labels_ s)) no_label s2 s3) as S3 by (by apply (grown_static _ _ _ _ _ _ H4)). pose proof (static_wf _ _ _ _ S3) as Hw3.
  assert (static (length (labels_ s)) no_label s3 s4 /\ height_ s4 = height_ s3 /\ cc_set_ s4 = cc_set_ s3 /\ dead_code_ s4 = dead_code_ s3 /\ emit_offset s4 = emit_offset s3) as (S4 & A1 & A2 & A3 & A4).
  { destruct (CanTrap x); cbn [when] in H5; [|gen_inv H5; split; [by apply static_refl|done]].
    destruct (AddTrap_ok (length (labels_ s)) no_label _ _ _ H5 Hw3) as (K0 & Q1 & Q2 & Q3 & Q4 & Q5 & _). repeat (split; [done|]). unfold emit_offset. by rewrite Q1. }
  assert (static (length (labels_ s)) no_label s1 s4) as S14 by (apply (static_trans _ _ _ s2); [done|]; by apply (static_trans _ _ _ s3)).
  destruct (Ga _ _ S14 (le_n _)) as (S5 & B1 & B2 & B3 & B4 & B5 & B6 & B7). pose proof (static_wf _ _ _ _ S5) as Hw5.
  apply M_bind_inv in H as (u6 & s6 & H6 & H). apply emit_cells_grown in H6. gen_inv H. pose proof H6 as [(L1 & L2 & L3) _ D6 E6 K6].
  assert (static (length (labels_ s)) (outer ex) s5 s6) as S6 by (by apply (grown_static _ _ _ _ _ _ H6)). pose proof (static_wf _ _ _ _ S6) as Hw6.
  assert (static (length (labels_ s)) (outer ex) s6 (set_dead true s6)) as S7 by (by apply same_static). assert (StackDelta retV = -1) as Esd by reflexivity.
  split; [|split; [cbn; lia|split; [cbn; congruence|]]].
  { apply (static_trans _ _ _ s5); [apply (static_weaken (length (labels_ s)) _ (fun l => False \/ l = global)); [done|intros l [[]|Hl]; by right|done]|]. by apply (static_trans _ _ _ s6). }
  intros B e u cc Ha Hd HP Hm. pose proof (static_agrees _ _ _ _ F S7 Ha) as Ha6. pose proof (static_agrees _ _ _ _ F S6 Ha6) as Ha5. pose proof (B6 Ha5) as Ha4.
  pose proof (static_agrees _ _ _ _ F S4 Ha4) as Ha3. pose proof (static_agrees _ _ _ _ F S3 Ha3) as Ha2.
  specialize (Dyn B e [] u cc Ha2 ltac:(congruence)). cbn [length] in Dyn. specialize (Dyn ltac:(lia) Hm). rewrite G4 in Dyn. unfold load_out in Dyn. unfold with_value.
  assert (dead_code_ s2 = false) as Dd2 by (apply D1; congruence). assert (dead_code_ s5 = false) as Dd5 by congruence.
  destruct (eval fn e x) as [v| |] eqn:Ev; [| |done].
  - destruct Dyn as (cc1 & R1). exists (emit_offset s2), cc1, B, u. split; [exact R1|]. split; [|done]. pose proof (grown_has c F B0 chain fp Hcx _ _ _ _ H4 Hw2 Dd2 Ha3 eq_refl) as Hh1.
    pose proof (grown_has c F B0 chain fp Hcx _ _ _ _ H6 Hw5 Dd5 Ha6 eq_refl) as Hh2. apply (has_app c _ [COp retV] [CInt16 (s16 (frame_size / 8))]). split; [done|].
    pose proof (grown_len _ _ _ _ H4 Dd2) as Hl4. cbn [length] in Hl4 |- *. rewrite <- Hl4, <- A4, <- B4. by apply (has_app c _ [_] [CPad]) in Hh2 as (Hh2 & _).
  - pose proof (Gt _ _ [] B u _ e e S14 Ha4 (CanTrap_sound fn e x Ev) ltac:(cbn; lia) Hm eq_refl Dyn) as Htr. unfold after_trap in Htr. cbn [orb] in Htr. split; [|done].
    intros _. destruct (B7 (CanTrap_sound fn e x Ev) (le_n _)) as (b & Eb & Hb). exists b. split; [|done]. cbn. by rewrite L1.
Qed.

(** ** Sequences *)

Lemma stat_out_later ex k T s s1 s' m r :
  stat_out ex s s1 m r -> (forall e, r <> RNormal e) -> static k T s1 s' -> (global < k)%nat -> stat_out ex s s' m r.
Proof.
  intros H Hn Hs Hk. unfold stat_out in *. destruct r; try done; [by destruct (Hn e)|]. destruct H as (Hl & H). split; [|done]. intros Hu. by apply (static_linked _ _ _ _ _ Hs), Hl.
Qed.

(** The outcome of a later part counts from where the statement began. *)
Lemma stat_out_earlier ex k T s s1 s' m r : stat_out ex s1 s' m r -> static k T s s1 -> (global < k)%nat -> stat_out ex s s' m r.
Proof.
  intros H Hs Hk. unfold stat_out in *. destruct r; try done. destruct H as (Hl & H). split; [|done]. intros Hu. by apply Hl, (static_unbound _ _ _ _ _ Hs).
Qed.

Lemma below_global ex s : below ex s -> (global < length (labels_ s))%nat.
Proof. intros H. apply H. by right. Qed.

Lemma nothing_ok ex : stat_ok_ (mret tt) ex RNormal.
Proof.
  intros s a s' H Hw Hcc Hbe. gen_inv H. split; [by apply static_refl|]. split; [done|]. split; [done|]. intros B e u cc Ha Hd HP Hm. split; [done|].
  exists cc, B, u. split; [apply reach_refl|done].
Qed.

Lemma seq_ok m1 m2 ex r1 r2 : stat_ok_ m1 ex r1 -> stat_ok_ m2 ex r2 -> stat_ok_ (m1;; m2) ex (fun e => then_run (r1 e) r2).
Proof.
  intros Hm1 Hm2 s a s' H Hw Hcc Hbe. apply M_bind_inv in H as (u1 & s1 & H1 & H). destruct (Hm1 _ _ _ H1 Hw Hcc Hbe) as (S1 & K1 & C1 & Dyn1). pose proof (static_wf _ _ _ _ S1) as Hw1.
  pose proof (static_labels _ _ _ _ S1) as N1. destruct (Hm2 _ _ _ H Hw1 C1 (below_le _ _ _ Hbe N1)) as (S2 & K2 & C2 & Dyn2).
  pose proof (static_down _ _ _ _ _ S2 N1) as S2'. split; [by apply (static_trans _ _ _ s1)|]. split; [lia|]. split; [done|]. intros B e u cc Ha Hd HP Hm.
  pose proof (static_agrees _ _ _ _ F S2 Ha) as Ha1. specialize (Dyn1 B e u cc Ha1 Hd HP Hm). pose proof (below_global _ _ Hbe) as Hgl.
  assert ((exists e1, r1 e = RNormal e1) \/ forall e1, r1 e <> RNormal e1) as [(e1 & E)|Hn] by (destruct (r1 e); [left; by eexists|right..]; done).
  - rewrite E in *. cbn [then_run]. destruct Dyn1 as (Hd1 & cc1 & B1 & u1' & R1 & Hm1'). specialize (Dyn2 B1 e1 u1' cc1 Ha Hd1 ltac:(lia) Hm1').
    apply (stat_out_reach _ _ _ _ _ _ R1). by apply (stat_out_earlier ex (length (labels_ s)) (outer ex) s s1).
  - assert (then_run (r1 e) r2 = r1 e) as -> by (destruct (r1 e); try done; by destruct (Hn e0)). by apply (stat_out_later ex (length (labels_ s)) (outer ex) s s1).
Qed.

(** ** Loops *)

Definition test_code (sym : LoopSym) (cond : option Expr) (loop exit : nat) : M unit :=
  if always_true sym cond then Branch branch loop else x ← of_option cond; cond_code x exit loop exit true.

(** The test goes to the start of the loop, comes out behind it, or fails. *)
Lemma test_ok sym cond loop exit s a s' :
  opt_all expr_ok cond = true -> test_code sym cond loop exit s = Ok (a, s') -> wf s -> cc_set_ s = false -> is_bound s loop ->
  static (length (labels_ s)) (fun l => l = exit) s s' /\ height_ s' = height_ s /\ cc_set_ s' = false
  /\ (forall B e u cc k, agrees F s' -> dead_code_ s = false -> height_ s = 0 -> match_env B e ->
      (exists cc', reach (here (emit_offset s) cc [] B u) (here (f_addr F loop) cc' [] B u) /\ loop_test fn ignore e cond k = k)
      \/ (exists p cc' B' u', reach (here (emit_offset s) cc [] B u) (here p cc' [] B' u') /\ match_env B' e /\ (p = emit_offset s' \/ p = f_addr F exit) /\ loop_test fn ignore e cond k = RNormal e)
      \/ (failed_with (here (emit_offset s) cc [] B u) e /\ loop_test fn ignore e cond k = RFailed e)
      \/ loop_test fn ignore e cond k = RStuck).
Proof.
  intros Hok H Hw Hcc Hb. unfold test_code in H. destruct (always_true sym cond) eqn:Et.
  - destruct (Branch_ok branch loop s a s' H Hw) as [Hs _ _ _ _ _ _ _ _ _]. destruct (Branch_always c limit proc F B0 chain fp Hcx _ _ _ _ H Hw) as (_ & K & C & D & N & _ & _ & R).
    split; [apply (static_weaken _ _ _ _ _ _ (le_n _)) with (2 := Hs); by intros l (<- & Hl)|]. split; [done|]. split; [done|]. intros B e u cc k Ha Hd HP Hm. left. exists cc. split; [by apply R|].
    destruct cond as [x|]; [|done]. destruct sym, x as [[[]| | | | | | | | |]| | | | | |]; try discriminate Et; done.
  - apply M_bind_inv in H as (x & s1 & H1 & H). apply of_option_inv in H1 as (-> & ->). cbn [opt_all] in Hok. destruct (cond_ok x exit loop exit true s a s' Hok H Hw Hcc) as (S & K & C & D & Dyn).
    split; [apply (static_weaken _ _ _ _ _ _ (le_n _)) with (2 := S); intros l [(-> & Hl)|[?|?]]; [by destruct (Hl eq_refl)|done|done]|]. split; [done|]. split; [done|].
    intros B e u cc k Ha Hd HP Hm. specialize (Dyn B e [] u cc Ha Hd HP Hm). unfold loop_test, with_bool, with_value. destruct (eval fn e x) as [v| |]; [|right|by right; right; right].
    + destruct v as [y| | | | | | | | |]; try (by right; right; right). destruct Dyn as (cc' & p & R & Hp). destruct y; cbn [Bool.eqb] in Hp.
      * left. exists cc'. split; [by subst p|done].
      * right. left. exists p, cc', B, u. done.
    + unfold after_trap in Dyn. apply if_cases in Dyn as [(E & cc' & B' & u' & R & Hm')|(E & Hf)]; cbn [orb] in E;
        [assert (on_undef ignore e = RNormal e) as -> by (unfold on_undef; by rewrite E)|assert (on_undef ignore e = RFailed e) as -> by (unfold on_undef; by rewrite E); by right; left].
      left. exists (f_addr F exit), cc', B', u'. split; [done|]. split; [done|]. split; [by right|done].
Qed.

(** What leaves a loop or a switch by its exit, or goes on outside of it. *)
Lemma leave_out ex c0 exit s s1 s' k T m r :
  stat_out ((exit, c0) :: ex) s s1 m r -> (forall e, r <> RNormal e) -> (forall e, r <> RContinue 0 e) ->
  f_addr F exit = emit_offset s' -> dead_code_ s' = false -> static k T s1 s' -> (global < k)%nat -> stat_out ex s s' m (leave r).
Proof.
  intros H Hn Hc He Hd Hs Hk. destruct r as [e|n e|n e|v e|e|e| |]; cbn [leave]; try done.
  - by destruct (Hn e).
  - destruct H as (x & cc & B & u & Ex & R & Hm). destruct n as [|n]; [|by exists x, cc, B, u]. injection Ex as <-. cbn [fst] in R. split; [done|]. exists cc, B, u. by rewrite <- He.
  - destruct n as [|n]; [by destruct (Hc e)|]. done.
  - by apply (stat_out_later _ k T s s1).
Qed.

(** The runs from the start of the loop, given what its parts do. *)
Lemma loop_runs ex cond after body run s s7 s8 s9 s10 s11 s12 s' k T loop cont exit sym ma :
  stat_ok_ ma ex (fun e => run_opt run e after) ->
  (forall B e u cc, match_env B e -> stat_out ((exit, Some cont) :: ex) s s8 (here (emit_offset s7) cc [] B u) (run e body)) ->
  (exists u, ma s9 = Ok (u, s10)) -> (exists u, test_code sym cond loop exit s11 = Ok (u, s12)) -> opt_all expr_ok cond = true ->
  wf s9 -> wf s11 -> cc_set_ s9 = false -> cc_set_ s11 = false -> below ex s9 -> is_bound s11 loop -> agrees F s10 -> agrees F s12 ->
  dead_code_ s9 = false -> dead_code_ s11 = false -> dead_code_ s' = false -> height_ s9 = 0 -> height_ s11 = 0 ->
  emit_offset s9 = emit_offset s8 -> emit_offset s11 = emit_offset s10 -> emit_offset s' = emit_offset s12 ->
  f_addr F loop = emit_offset s7 -> f_addr F cont = emit_offset s9 -> f_addr F exit = emit_offset s' ->
  static k T s s9 -> static k T s8 s' -> static k T s10 s' -> (global < k)%nat ->
  forall fuel B e u cc, match_env B e -> stat_out ex s s' (here (emit_offset s7) cc [] B u) (exec_loop fn ignore run fuel e cond after body).
Proof.
  intros Hma Hbody (u10 & H10) (u12 & H12) Hok Hw9 Hw11 Hc9 Hc11 Hbe Hbd Ha10 Ha12 D9 D11 D' K9 K11 O8 O10 O12 Al Ac Ae S09 S8 S10 Hg.
  destruct (Hma _ _ _ H10 Hw9 Hc9 Hbe) as (_ & _ & _ & Dyna). destruct (test_ok _ _ _ _ _ _ _ Hok H12 Hw11 Hc11 Hbd) as (_ & _ & _ & Dynt).
  intros fuel. induction fuel as [|fuel IH]; intros B e u cc Hm; [done|]. cbn [exec_loop]. specialize (Hbody B e u cc Hm).
  assert (Hnext : forall B1 e1 u1 cc1, match_env B1 e1 -> reach (here (emit_offset s7) cc [] B u) (here (emit_offset s9) cc1 [] B1 u1) ->
    stat_out ex s s' (here (emit_offset s7) cc [] B u) (then_run (run_opt run e1 after) (fun e => loop_test fn ignore e cond (exec_loop fn ignore run fuel e cond after body)))).
  { intros B1 e1 u1 cc1 Hm1 R1. apply (stat_out_reach _ _ _ _ _ _ R1). specialize (Dyna B1 e1 u1 cc1 Ha10 D9 K9 Hm1).
    apply (stat_out_earlier ex k T s) in Dyna; [|done|done].
    assert ((exists e2, run_opt run e1 after = RNormal e2) \/ forall e2, run_opt run e1 after <> RNormal e2) as [(e2 & E)|Hn] by (destruct (run_opt run e1 after); [left; by eexists|right..]; done).
    - rewrite E in *. cbn [then_run]. destruct Dyna as (_ & cc2 & B2 & u2 & R2 & Hm2). apply (stat_out_reach _ _ _ _ _ _ R2). rewrite <- O10.
      destruct (Dynt B2 e2 u2 cc2 (exec_loop fn ignore run fuel e2 cond after body) Ha12 D11 K11 Hm2) as [(cc3 & R3 & ->)|[(p & cc3 & B3 & u3 & R3 & Hm3 & Hp & ->)|[(Hf & ->)| ->]]]; [| |done|done].
      + apply (stat_out_reach _ _ _ _ _ _ R3). rewrite Al. by apply IH.
      + split; [done|]. exists cc3, B3, u3. split; [|done]. by destruct Hp as [-> | ->]; rewrite ?O12, ?Ae in *.
    - assert (then_run (run_opt run e1 after) (fun e => loop_test fn ignore e cond (exec_loop fn ignore run fuel e cond after body)) = run_opt run e1 after) as ->
        by (destruct (run_opt run e1 after); try done; by destruct (Hn e0)). by apply (stat_out_later ex k T s s10). }
  destruct (run e body) as [e1|n e1|n e1|v e1|e1|e1| |] eqn:Er.
  - destruct Hbody as (_ & cc1 & B1 & u1 & R1 & Hm1). apply (Hnext B1 e1 u1 cc1 Hm1). by rewrite O8.
  - by apply (leave_out ex (Some cont) exit s s8 s' k T).
  - destruct n as [|n]; [|by apply (leave_out ex (Some cont) exit s s8 s' k T)].
    destruct Hbody as (x & l & cc1 & B1 & u1 & Ex & El & R1 & Hm1). injection Ex as <-. cbn in El. injection El as <-. apply (Hnext B1 e1 u1 cc1 Hm1). by rewrite <- Ac.
  - by apply (leave_out ex (Some cont) exit s s8 s' k T).
  - by apply (leave_out ex (Some cont) exit s s8 s' k T).
  - by apply (leave_out ex (Some cont) exit s s8 s' k T).
  - done.
  - done.
Qed.

Lemma loop_ok ex sym mb ma (mbody : nat -> nat -> M unit) before cond after body run fuel :
  stat_ok_ mb ex (fun e => run_opt run e before) -> stat_ok_ ma ex (fun e => run_opt run e after) ->
  (forall exit cont, stat_ok_ (mbody exit cont) ((exit, Some cont) :: ex) (fun e => run e body)) -> opt_all expr_ok cond = true ->
  stat_ok_
    (entry ← NewLabel; loop ← NewLabel; cont ← NewLabel; exit ← NewLabel; mb;; match sym with DO => mret tt | _ => Branch branch entry end;;
     Bind loop;; mbody exit cont;; Bind cont;; ma;; Bind entry;; test_code sym cond loop exit;; Bind exit) ex
    (fun e => then_run (run_opt run e before) (fun e =>
       match sym with
       | DO => exec_loop fn ignore run fuel e cond after body
       | _ => loop_test fn ignore e cond (exec_loop fn ignore run fuel e cond after body)
       end)).
Proof.
  intros Hmb Hma Hbody Hok s a s' H Hw Hcc Hbe.
  apply M_bind_inv in H as (entry & s1 & H1 & H). apply (NewLabel_fresh s entry s1) in H1; [|done]. pose proof (fresh_wf _ _ _ H1) as Hw1.
  apply M_bind_inv in H as (loop & s2 & H2 & H). apply (NewLabel_fresh s1 loop s2) in H2; [|done]. pose proof (fresh_wf _ _ _ H2) as Hw2.
  apply M_bind_inv in H as (cont & s3 & H3 & H). apply (NewLabel_fresh s2 cont s3) in H3; [|done]. pose proof (fresh_wf _ _ _ H3) as Hw3.
  apply M_bind_inv in H as (exit & s4 & H4 & H). apply (NewLabel_fresh s3 exit s4) in H4; [|done]. pose proof (fresh_wf _ _ _ H4) as Hw4.
  pose proof (fr_same _ _ _ H1) as (A1 & A2 & A3 & A4 & _). pose proof (fr_same _ _ _ H2) as (B1 & B2 & B3 & B4 & _). pose proof (fr_same _ _ _ H3) as (C1 & C2 & C3 & C4 & _).
  pose proof (fr_same _ _ _ H4) as (D1 & D2 & D3 & D4 & _). pose proof (fr_labels _ _ _ H1) as N1. pose proof (fr_labels _ _ _ H2) as N2. pose proof (fr_labels _ _ _ H3) as N3. pose proof (fr_labels _ _ _ H4) as N4.
  pose proof (fr_index _ _ _ H1) as I1. pose proof (fr_index _ _ _ H2) as I2. pose proof (fr_index _ _ _ H3) as I3. pose proof (fr_index _ _ _ H4) as I4. set (k := length (labels_ s)) in *.
  assert (static k no_label s s4) as S04.
  { apply (static_trans _ _ _ s1); [apply H1|]. apply (static_trans _ _ _ s2); [apply (static_down _ _ _ _ _ (fr_static _ _ _ H2)); lia|].
    apply (static_trans _ _ _ s3); [apply (static_down _ _ _ _ _ (fr_static _ _ _ H3)); lia|apply (static_down _ _ _ _ _ (fr_static _ _ _ H4)); lia]. }
  assert (unbound s4 entry /\ unbound s4 loop /\ unbound s4 cont /\ unbound s4 exit) as (U4a & U4b & U4c & U4d).
  { assert (unbound s3 entry /\ unbound s3 loop /\ unbound s3 cont) as (V1 & V2 & V3).
    { assert (unbound s2 entry) as V by (apply (static_unbound _ _ _ _ _ (fr_static _ _ _ H2)); [lia|apply H1]).
      split; [apply (static_unbound _ _ _ _ _ (fr_static _ _ _ H3)); [lia|done]|split; [apply (static_unbound _ _ _ _ _ (fr_static _ _ _ H3)); [lia|apply H2]|apply H3]]. }
    split; [|split; [|split]]; [..|apply H4]; by apply (static_unbound _ _ _ _ _ (fr_static _ _ _ H4)); [lia|]. }
  apply M_bind_inv in H as (u5 & s5 & H5 & H). destruct (Hmb _ _ _ H5 Hw4 ltac:(congruence) ltac:(apply (below_le ex s); [done|lia])) as (S5 & K5 & E5 & Dyn5). pose proof (static_wf _ _ _ _ S5) as Hw5. pose proof (static_labels _ _ _ _ S5) as N5.
  apply M_bind_inv in H as (u6 & s6 & H6 & H).
  assert (Hs6 : static (length (labels_ s5)) (eq entry) s5 s6 /\ height_ s6 = height_ s5 /\ cc_set_ s6 = false /\ (sym = DO -> s6 = s5) /\ length (labels_ s6) = length (labels_ s5)
    /\ (forall B u cc, sym <> DO -> agrees F s6 -> dead_code_ s5 = false -> reach (here (emit_offset s5) cc [] B u) (here (f_addr F entry) cc [] B u))).
  { destruct sym; [gen_inv H6; split; [by apply static_refl|done]|..].
    all: destruct (Branch_always c limit proc F B0 chain fp Hcx _ _ _ _ H6 Hw5) as (S & K & C & D & N & _ & _ & R); repeat (split; [done|]); intros B u cc _; apply R. }
  destruct Hs6 as (S6 & K6 & E6 & Do6 & N6 & R6). pose proof (static_wf _ _ _ _ S6) as Hw6.
  assert (forall l, unbound s4 l -> unbound s6 l) as U46.
  { intros l Hl. pose proof (unbound_lt _ _ Hl). apply (static_unbound _ _ _ _ _ S6); [lia|]. by apply (static_unbound _ _ _ _ _ S5). }
  apply M_bind_inv in H as (u7 & s7 & H7 & H). pose proof (Bind_ok loop _ _ _ H7 Hw6 (U46 _ U4b)) as Hb7. destruct (bd_same _ _ _ Hb7) as (O7 & P7 & Q7 & D7). pose proof (bound_wf _ _ _ Hb7) as Hw7. pose proof (bd_labels _ _ _ Hb7) as N7.
  apply M_bind_inv in H as (u8 & s8 & H8 & H). assert (below ((exit, Some cont) :: ex) s7) as Hbe7.
  { intros l [(x & Hx & Hl)|Hl]; [|specialize (Hbe l (or_intror Hl)); lia]. apply elem_of_cons in Hx as [->|Hx]; [cbn in Hl; destruct Hl; simplify_eq; lia|].
    specialize (Hbe l ltac:(left; by exists x)). lia. }
  destruct (Hbody exit cont _ _ _ H8 Hw7 ltac:(congruence) Hbe7) as (S8 & K8 & E8 & Dyn8). pose proof (static_wf _ _ _ _ S8) as Hw8. pose proof (static_labels _ _ _ _ S8) as N8.
  assert (forall l, l <> loop -> unbound s4 l -> unbound s8 l) as U48.
  { intros l Hne Hl. pose proof (unbound_lt _ _ Hl). apply (static_unbound _ _ _ _ _ S8); [lia|]. apply (bd_unbound _ _ _ Hb7 l Hne). by apply U46. }
  apply M_bind_inv in H as (u9 & s9 & H9 & H). pose proof (Bind_ok cont _ _ _ H9 Hw8 (U48 cont ltac:(lia) U4c)) as Hb9. destruct (bd_same _ _ _ Hb9) as (O9 & P9 & Q9 & D9). pose proof (bound_wf _ _ _ Hb9) as Hw9. pose proof (bd_labels _ _ _ Hb9) as N9.
  apply M_bind_inv in H as (u10 & s10 & H10 & H). assert (below ex s9) as Hbe9 by (apply (below_le ex s); [done|lia]).
  destruct (Hma _ _ _ H10 Hw9 ltac:(congruence) Hbe9) as (S10 & K10 & E10 & Dyn10). pose proof (static_wf _ _ _ _ S10) as Hw10. pose proof (static_labels _ _ _ _ S10) as N10.
  assert (forall l, l <> loop -> l <> cont -> unbound s4 l -> unbound s10 l) as U410.
  { intros l Hne Hne2 Hl. pose proof (unbound_lt _ _ Hl). apply (static_unbound _ _ _ _ _ S10); [lia|]. apply (bd_unbound _ _ _ Hb9 l Hne2). by apply U48. }
  apply M_bind_inv in H as (u11 & s11 & H11 & H). pose proof (Bind_ok entry _ _ _ H11 Hw10 (U410 entry ltac:(lia) ltac:(lia) U4a)) as Hb11. destruct (bd_same _ _ _ Hb11) as (O11 & P11 & Q11 & D11). pose proof (bound_wf _ _ _ Hb11) as Hw11. pose proof (bd_labels _ _ _ Hb11) as N11.
  assert (is_bound s11 loop) as Bd11.
  { apply (bd_bound _ _ _ Hb11). right. apply (bound_step _ _ _ _ (st_step _ _ _ _ S10)); [lia|]. apply (bd_bound _ _ _ Hb9). right.
    apply (bound_step _ _ _ _ (st_step _ _ _ _ S8)); [lia|]. apply (bd_bound _ _ _ Hb7). by left. }
  apply M_bind_inv in H as (u12 & s12 & H12 & H). destruct (test_ok _ _ _ _ _ _ _ Hok H12 Hw11 ltac:(congruence) Bd11) as (S12 & K12 & E12 & Dyn12). pose proof (static_wf _ _ _ _ S12) as Hw12.
  assert (unbound s12 exit) as U12 by (apply (static_unbound _ _ _ _ _ S12); [lia|]; apply (bd_unbound _ _ _ Hb11); [lia|]; apply U410; [lia|lia|done]).
  pose proof (Bind_ok exit _ _ _ H Hw12 U12) as Hb. destruct (bd_same _ _ _ Hb) as (O & P & Q & D).
  pose proof (static_labels _ _ _ _ S12) as N12. set (T := outer ((exit, Some cont) :: ex)) in *.
  assert (forall l, T l -> l = exit \/ l = cont \/ outer ex l) as HT.
  { intros l [(x & Hx & Hl)|Hl]; [|right; right; by right]. apply elem_of_cons in Hx as [->|Hx]; [cbn in Hl; destruct Hl; simplify_eq; auto|]. right. right. left. by exists x. }
  assert (forall l, outer ex l -> (l < k)%nat) as Hout by done.
  assert (static k (fun l => outer ex l \/ l = entry) s s6) as S06.
  { apply (static_trans _ _ _ s4); [by apply (static_weaken k _ no_label)|]. apply (static_trans _ _ _ s5); [apply (static_weaken (length (labels_ s4)) _ (outer ex)); [lia|by left|done]|].
    apply (static_weaken (length (labels_ s5)) _ (eq entry)); [lia|by right|done]. }
  assert (static k no_label s6 s7) as S67 by (apply (Bind_static k _ loop); [done|lia]).
  assert (static k T s7 s8) as S78 by (apply (static_down _ _ _ _ _ S8); lia).
  assert (static k no_label s8 s9) as S89 by (apply (Bind_static k _ cont); [done|lia]).
  assert (static k (outer ex) s9 s10) as S910 by (apply (static_down _ _ _ _ _ S10); lia).
  assert (static k no_label s10 s11) as S1011 by (apply (Bind_static k _ entry); [done|lia]).
  assert (static k (fun l => l = exit) s11 s12) as S1112 by (apply (static_down _ _ _ _ _ S12); lia).
  assert (static k no_label s12 s') as S12' by (apply (Bind_static k _ exit); [done|lia]).
  set (T4 := fun l => outer ex l \/ l = entry \/ l = cont \/ l = exit).
  assert (static k T4 s s7) as S07.
  { apply (static_trans _ _ _ s6); [apply (static_weaken k _ _ _ _ _ (le_n k)) with (2 := S06); unfold T4; tauto|by apply (static_weaken k _ no_label)]. }
  assert (static k T4 s7 s9) as S79.
  { apply (static_trans _ _ _ s8); [apply (static_weaken k _ T); [done|intros l Hl; unfold T4; destruct (HT l Hl) as [?|[?|?]]; tauto|done]|by apply (static_weaken k _ no_label)]. }
  assert (static k T4 s10 s') as S10'.
  { apply (static_trans _ _ _ s11); [by apply (static_weaken k _ no_label)|]. apply (static_trans _ _ _ s12); [|by apply (static_weaken k _ no_label)].
    apply (static_weaken k _ (fun l => l = exit)); [done|unfold T4; tauto|done]. }
  assert (static k T4 s8 s') as S8'.
  { apply (static_trans _ _ _ s9); [by apply (static_weaken k _ no_label)|]. apply (static_trans _ _ _ s10); [|done]. by apply (static_weaken k _ (outer ex)); [|left|]. }
  assert (static k T4 s s') as Sall0.
  { apply (static_trans _ _ _ s7); [done|]. apply (static_trans _ _ _ s9); [done|]. apply (static_trans _ _ _ s10); [by apply (static_weaken k _ (outer ex)); [|left|]|done]. }
  assert (static k (outer ex) s s') as Sall.
  { apply (static_forget k _ _ _ _ Sall0). intros l [Hl|[->|[->| ->]]]; [by left|right..]; [| |by apply (bound_unlinked _ _ _ Hb)].
    - apply (static_unlinked _ _ _ _ _ S12'); [|tauto]. apply (static_unlinked _ _ _ _ _ S1112); [by apply (bound_unlinked _ _ _ Hb11)|lia].
    - apply (static_unlinked _ _ _ _ _ S12'); [|tauto]. apply (static_unlinked _ _ _ _ _ S1112); [|lia]. apply (static_unlinked _ _ _ _ _ S1011); [|tauto].
      apply (static_unlinked _ _ _ _ _ S910); [by apply (bound_unlinked _ _ _ Hb9)|]. intros Hl. specialize (Hout _ Hl). lia. }
  split; [done|]. split; [lia|]. split; [congruence|]. intros B e u cc Ha Hd HP Hm.
  pose proof (static_agrees _ _ _ _ F S12' Ha) as Ha12. pose proof (static_agrees _ _ _ _ F S1112 Ha12) as Ha11. pose proof (static_agrees _ _ _ _ F S1011 Ha11) as Ha10.
  pose proof (static_agrees _ _ _ _ F S910 Ha10) as Ha9. pose proof (static_agrees _ _ _ _ F S89 Ha9) as Ha8. pose proof (static_agrees _ _ _ _ F S78 Ha8) as Ha7. pose proof (static_agrees _ _ _ _ F S67 Ha7) as Ha6.
  pose proof (static_agrees _ _ _ _ F S6 Ha6) as Ha5. pose proof (bd_addr _ _ _ Hb7 F Ha7) as Al. pose proof (bd_addr _ _ _ Hb9 F Ha9) as Ac. pose proof (bd_addr _ _ _ Hb11 F Ha11) as Aen. pose proof (bd_addr _ _ _ Hb F Ha) as Aex.
  pose proof (below_global _ _ Hbe) as Hg. fold k in Hg.
  assert (Hiter : forall fuel B e u cc, match_env B e -> stat_out ex s s' (here (emit_offset s7) cc [] B u) (exec_loop fn ignore run fuel e cond after body)).
  { apply (loop_runs ex cond after body run s s7 s8 s9 s10 s11 s12 s' k T4 loop cont exit sym ma); try done; try congruence; try lia; [|by eexists|by eexists|by apply (static_trans _ _ _ s7)].
    intros B1' e1 u1' cc1 Hm1. apply (stat_out_earlier _ k T4 s s7); [|done|done]. apply Dyn8; [done|done|lia|done]. }
  specialize (Dyn5 B e u cc Ha5 ltac:(congruence) ltac:(lia) Hm). replace (emit_offset s4) with (emit_offset s) in Dyn5 by congruence. apply (stat_out_earlier ex k no_label s s4) in Dyn5; [|done|done].
  assert ((exists e1, run_opt run e before = RNormal e1) \/ forall e1, run_opt run e before <> RNormal e1) as [(e1 & E)|Hn] by (destruct (run_opt run e before); [left; by eexists|right..]; done).
  - rewrite E in *. cbn [then_run]. destruct Dyn5 as (Dd5 & cc1 & B1' & u1' & R1 & Hm1). apply (stat_out_reach _ _ _ _ _ _ R1).
    assert (sym = DO \/ sym <> DO) as [->|Hne] by (destruct sym; [by left|by right|by right]); [rewrite (Do6 eq_refl) in O7; rewrite <- O7; by apply Hiter|].
    assert (stat_out ex s s' (here (emit_offset s5) cc1 [] B1' u1') (loop_test fn ignore e1 cond (exec_loop fn ignore run fuel e1 cond after body))) as Hout1; [|by destruct sym].
    apply (stat_out_reach _ _ _ _ _ _ (R6 B1' u1' cc1 Hne Ha6 Dd5)). rewrite Aen, <- O11.
    destruct (Dyn12 B1' e1 u1' cc1 (exec_loop fn ignore run fuel e1 cond after body) Ha12 D11 ltac:(lia) Hm1) as [(cc3 & R3 & ->)|[(p & cc3 & B3' & u3' & R3 & Hm3 & Hp & ->)|[(Hf & ->)| ->]]]; [| |done|done].
    + apply (stat_out_reach _ _ _ _ _ _ R3). rewrite Al, <- O7. by apply Hiter.
    + split; [done|]. exists cc3, B3', u3'. split; [|done]. by destruct Hp as [-> | ->]; rewrite ?O, ?Aex in *.
  - match goal with |- stat_out _ _ _ _ (then_run ?x ?f) => assert (then_run x f = x) as -> by (destruct x; try done; by destruct (Hn e0)) end.
    apply (stat_out_later ex k T4 s s5); [done|done| |done]. apply (static_trans _ _ _ s7); [|apply (static_trans _ _ _ s9); [done|apply (static_trans _ _ _ s10); [by apply (static_weaken k _ (outer ex)); [|left|]|done]]].
    apply (static_trans _ _ _ s6); [apply (static_weaken (length (labels_ s5)) _ (eq entry)); [lia|intros l <-; unfold T4; tauto|done]|by apply (static_weaken k _ no_label)].
Qed.


(** ** Switches *)

(** The comparison of a label with the tag on the stack, which stays there. *)
Definition label_test (ty : TagType) (x : Expr) (trapl tgt : nat) (b : bool) : M unit :=
  handler (Some global) (Some trapl) None false (CanTrap x)
    (Dup;; Load (visit (Some global) x) false;; emit_op (compare_op ty);; modify (set_cc_flag true);; Branch (cond_branch b) tgt).

Lemma label_test_ok ty x trapl tgt b s a s' :
  expr_ok x = true -> label_test ty x trapl tgt b s = Ok (a, s') -> wf s -> cc_set_ s = false ->
  static (length (labels_ s)) (fun l => l = tgt \/ l = trapl) s s' /\ height_ s' = height_ s /\ cc_set_ s' = false
  /\ (dead_code_ s = false -> dead_code_ s' = false)
  /\ (forall B e P v u cc, agrees F s' -> dead_code_ s = false -> height_ s = Z.of_nat (S (length P)) -> match_env B e ->
      match eval fn e x with
      | Ok y => match compare (compare_op ty) v y with
                | Ok z => exists cc', reach (here (emit_offset s) cc (SVal (Some v) :: P) B u)
                    (here (if Bool.eqb z b then f_addr F tgt else emit_offset s') cc' (SVal (Some v) :: P) B u)
                | _ => True
                end
      | Fail => after_trap false trapl (SVal (Some v) :: P) u (here (emit_offset s) cc (SVal (Some v) :: P) B u) e
      | Fatal => True
      end).
Proof.
  intros Hok H Hw Hcc. destruct (guarded_ok _ _ _ _ _ _ _ _ _ H Hw) as (s1 & u1 & s6 & H1 & [Gw (G1 & G2 & G3 & G4 & G5) Gu Gb Ga Gt]).
  apply M_bind_inv in H1 as (u2 & s2 & H1 & H2). unfold Dup in H1. apply M_bind_inv in H1 as (s0 & s0' & H0 & H1). injection H0 as <- <-. rewrite G2, Hcc in H1. cbn [when] in H1.
  apply M_bind_inv in H1 as (u0 & s1' & H0 & H1). cbv [mret M_ret] in H0. injection H0 as _ <-. apply emit_op_grown in H1. pose proof H1 as [_ _ D1 E1 K1]. assert (StackDelta dupV = 1) as Esd by reflexivity.
  pose proof (grown_static (length (labels_ s)) no_label _ _ _ _ H1 Gw) as S1. pose proof (static_wf _ _ _ _ S1) as Hw2. pose proof (static_labels _ _ _ _ S1) as N1.
  apply M_bind_inv in H2 as (u3 & s3 & H2 & H3). destruct (Load_expr_ok c limit proc F fn B0 chain fp Hcx (Some global) x Hok _ _ _ H2 Hw2 ltac:(congruence)) as ([S2 K2 D2] & C2 & Dyn2). rewrite C2 in K2. pose proof (static_wf _ _ _ _ S2) as Hw3.
  apply M_bind_inv in H3 as (u4 & s4 & H3 & H4). apply emit_op_grown in H3. pose proof H3 as [_ _ D3 E3 K3]. assert (StackDelta (compare_op ty) = -2) as Esd2 by (by destruct ty).
  pose proof (grown_static (length (labels_ s)) no_label _ _ _ _ H3 Hw3) as S3. pose proof (static_wf _ _ _ _ S3) as Hw4. apply M_bind_inv in H4 as (u5 & s5 & H4 & H5). gen_inv H4.
  assert (static (length (labels_ s)) no_label s4 (set_cc_flag true s4)) as S4 by (by apply set_cc_static). pose proof (static_wf _ _ _ _ S4) as Hw5.
  destruct (Branch_cond c limit proc F B0 chain fp Hcx b tgt _ _ _ H5 Hw5) as (S5 & K5 & C5 & D5 & N5 & _ & Dyn5). cbn [cc_set_ height_ dead_code_ set_cc_flag labels_] in K5, D5, S5, Dyn5.
  pose proof (static_labels _ _ _ _ S2) as N2. pose proof (static_labels _ _ _ _ S3) as N3.
  assert (static (length (labels_ s)) (fun l => l = tgt) s1 s6) as S16.
  { apply (static_trans _ _ _ s2); [by apply (static_weaken (length (labels_ s)) _ no_label)|]. apply (static_trans _ _ _ s3); [apply (static_weaken (length (labels_ s2)) _ no_label); [lia|done|done]|].
    apply (static_trans _ _ _ s4); [by apply (static_weaken (length (labels_ s)) _ no_label)|]. apply (static_trans _ _ _ (set_cc_flag true s4)); [by apply (static_weaken (length (labels_ s)) _ no_label)|].
    refine (static_weaken _ (length (labels_ s)) _ _ _ _ _ _ S5); [lia|by intros l (<- & _)]. }
  destruct (Ga _ _ S16 (le_n _)) as (S6 & B1 & B2 & B3 & B4 & B5 & B6 & _). split; [exact S6|]. split; [lia|]. split; [congruence|].
  split; [intros Hd; rewrite B3, D5, D3; apply D2; rewrite D1; congruence|].
  intros B e P v u cc Ha Hd HP Hm. pose proof (B6 Ha) as Ha6. pose proof (static_agrees _ _ _ _ F S5 Ha6) as Ha5. pose proof (static_agrees _ _ _ _ F S4 Ha5) as Ha4. pose proof (static_agrees _ _ _ _ F S3 Ha4) as Ha3.
  pose proof (static_agrees _ _ _ _ F S2 Ha3) as Ha2. assert (dead_code_ s1 = false) as Dd1 by congruence. assert (dead_code_ s2 = false) as Dd2 by congruence.
  assert (reach (here (emit_offset s) cc (SVal (Some v) :: P) B u) (here (emit_offset s2) cc (SVal (Some v) :: SVal (Some v) :: P) B u)) as R1.
  { rewrite <- G4, (grown_len _ _ _ _ H1 Dd1). apply (run_dupV c limit proc fp _ _ _ _ _ _ []). by apply (grown_has c F B0 chain fp Hcx _ _ _ _ H1 Gw Dd1 Ha2). }
  specialize (Dyn2 B e (SVal (Some v) :: SVal (Some v) :: P) u cc Ha3 Dd2 ltac:(cbn [length]; lia) Hm). unfold load_out in Dyn2. destruct (eval fn e x) as [y| |] eqn:Ev; [| |done].
  - destruct Dyn2 as (cc2 & R2). destruct (compare (compare_op ty) v y) as [z| |] eqn:Ez; [|done|done]. assert (is_compare (compare_op ty) = true) as Eic by (by destruct ty).
    pose proof (grown_has c F B0 chain fp Hcx _ _ _ _ H3 Hw3 (D2 Dd2) Ha4 eq_refl) as Hhas.
    pose proof (run_operate c limit proc fp (compare_op ty) (emit_offset s3) cc2 v y (SVal (Some v) :: P) B u [] (VBool z) Hhas) as Hrun. unfold operate in Hrun. rewrite Eic, Ez in Hrun.
    destruct (Hrun eq_refl) as (z' & Ez' & R3). injection Ez' as <-. rewrite <- (grown_len _ _ _ _ H3 (D2 Dd2) : emit_offset s4 = emit_offset s3 + 1) in R3.
    destruct (Dyn5 (SVal (Some v) :: P) B u z z Ha6 ltac:(rewrite D3; auto) ltac:(done)) as (cc4 & R4). exists cc4. apply (reach_trans c limit proc _ _ _ R1), (reach_trans c limit proc _ _ _ R2), (reach_trans c limit proc _ _ _ R3).
    by rewrite B4.
  - apply (Gt _ _ (SVal (Some v) :: P) B u _ e e S16 Ha6); [by apply (CanTrap_sound fn e x)|cbn [length]; lia|done|done|]. intros i Hi.
    apply (trapped_reach c limit proc fp _ _ _ _ _ _ R1). apply (trapped_drop c limit proc fp i [SVal (Some v)]). apply Dyn2. by rewrite (static_current _ _ _ _ S1).
Qed.

(** The labels of a case: on to its statement, or to the next case. *)
Definition labels_out (s s' : CodeGen) (case_stat next_case : nat) (v : Val) (m : state) (e : env) (r : res bool) : Prop :=
  match r with
  | Ok z => exists p cc B u, reach m (here p cc [SVal (Some v)] B u) /\ match_env B e
      /\ (if z then p = emit_offset s' \/ p = f_addr F case_stat else p = f_addr F next_case)
  | Fail => failed_with m e
  | Fatal => True
  end.

Lemma match_labels_cons e ty v x labels :
  match_labels fn ignore e ty v (x :: labels) =
    match eval fn e x with
    | Ok y => match compare (compare_op ty) v y with Ok true => Ok true | Ok false => match_labels fn ignore e ty v labels | _ => Fatal end
    | Fail => if ignore then match_labels fn ignore e ty v labels else Fail
    | Fatal => Fatal
    end.
Proof. done. Qed.

Abbreviation case_labels := (case_labels false (Some fn) (Some global)).

Lemma case_labels_ok ty labels case_stat next_case s a s' :
  forallb expr_ok labels = true -> labels <> [] -> case_labels ty labels case_stat next_case s = Ok (a, s') -> wf s -> cc_set_ s = false ->
  (case_stat < length (labels_ s))%nat -> (next_case < length (labels_ s))%nat ->
  static (length (labels_ s)) (fun l => l = case_stat \/ l = next_case) s s' /\ height_ s' = height_ s /\ cc_set_ s' = false
  /\ (dead_code_ s = false -> dead_code_ s' = false)
  /\ (forall B e v u cc, agrees F s' -> dead_code_ s = false -> height_ s = 1 -> match_env B e ->
      labels_out s s' case_stat next_case v (here (emit_offset s) cc [SVal (Some v)] B u) e (match_labels fn ignore e ty v labels)).
Proof.
  revert s a s'. induction labels as [|x labels IH]; intros s a s' Hok Hne H Hw Hcc Hcs Hnc; [done|]. cbn [forallb] in Hok. apply andb_true_iff in Hok as (Hx & Hok).
  destruct labels as [|y labels].
  - change (label_test ty x next_case next_case false s = Ok (a, s')) in H. destruct (label_test_ok ty x next_case next_case false s a s' Hx H Hw Hcc) as (S & K & C & D & Dyn).
    split; [refine (static_weaken _ _ _ _ _ _ (le_n _) _ S); tauto|]. repeat (split; [done|]). intros B e v u cc Ha Hd HP Hm. specialize (Dyn B e [] v u cc Ha Hd HP Hm). cbn [match_labels]. unfold labels_out.
    destruct (eval fn e x) as [w| |]; [| |done].
    + destruct (compare (compare_op ty) v w) as [z| |]; [|done|done]. destruct Dyn as (cc' & R). destruct z; cbn [Bool.eqb] in R; eexists _, cc', B, u; (split; [exact R|]); auto.
    + unfold after_trap in Dyn. apply if_cases in Dyn as [(E & cc' & B' & u' & R & Hm')|(E & Hf)]; cbn [orb] in E; [assert ((if ignore then Ok false else Fail) = Ok false) as -> by (by rewrite E)|assert ((if ignore then Ok false else Fail) = @Fail bool) as -> by (by rewrite E); done].
      by eexists _, cc', B', u'.
  - apply M_bind_inv in H as (nl & s1 & H1 & H). apply (NewLabel_fresh s nl s1) in H1; [|done]. pose proof (fresh_wf _ _ _ H1) as Hw1. pose proof (fr_same _ _ _ H1) as (A1 & A2 & A3 & A4 & _).
    pose proof (fr_index _ _ _ H1) as I1. pose proof (fr_labels _ _ _ H1) as N1.
    apply M_bind_inv in H as (u2 & s2 & H2 & H). change (label_test ty x nl case_stat true s1 = Ok (u2, s2)) in H2. destruct (label_test_ok ty x nl case_stat true s1 u2 s2 Hx H2 Hw1 ltac:(congruence)) as (S2 & K2 & C2 & D2 & Dyn2).
    apply M_bind_inv in H as (u3 & s3 & H3 & H). destruct (exit_scope (fun l => l = case_stat) nl s s1 s2 u3 s3 H1 S2 H3) as (S3 & K3 & C3 & D3 & O3 & O3' & _). pose proof (static_wf _ _ _ _ S3) as Hw3. pose proof (static_labels _ _ _ _ S3) as N3.
    destruct (IH s3 a s' Hok ltac:(done) H Hw3 ltac:(congruence) ltac:(lia) ltac:(lia)) as (S4 & K4 & C4 & D4 & Dyn4). split; [|split; [lia|split; [done|split; [intros _; by apply D4|]]]].
    { apply (static_trans _ _ _ s3); [refine (static_weaken _ _ _ _ _ _ (le_n _) _ S3); tauto|by apply (static_down _ _ _ _ _ S4)]. }
    intros B e v u cc Ha Hd HP Hm. pose proof (static_agrees _ _ _ _ F S4 Ha) as Ha3. destruct (O3' Ha3) as (Ha2 & Anl). specialize (Dyn2 B e [] v u cc Ha2 ltac:(congruence) ltac:(cbn; lia) Hm). rewrite A4 in Dyn2.
    rewrite match_labels_cons. unfold labels_out.
    assert (Hgo : forall cc1 B1 u1, match_env B1 e -> reach (here (emit_offset s) cc [SVal (Some v)] B u) (here (emit_offset s3) cc1 [SVal (Some v)] B1 u1) ->
      labels_out s s' case_stat next_case v (here (emit_offset s) cc [SVal (Some v)] B u) e (match_labels fn ignore e ty v (y :: labels))).
    { intros cc1 B1 u1 Hm1 R1. specialize (Dyn4 B1 e v u1 cc1 Ha D3 ltac:(lia) Hm1). unfold labels_out in *. destruct (match_labels fn ignore e ty v (y :: labels)) as [z| |]; [| |done].
      - destruct Dyn4 as (p & cc2 & B2 & u2' & R2 & Hrest). exists p, cc2, B2, u2'. split; [exact (reach_trans c limit proc _ _ _ R1 R2)|done].
      - by apply (failed_reach _ _ _ R1). }
    destruct (eval fn e x) as [w| |]; [| |done].
    + destruct (compare (compare_op ty) v w) as [z| |]; [|done|done]. destruct Dyn2 as (cc' & R). destruct z; cbn [Bool.eqb] in R.
      * eexists _, cc', B, u. split; [exact R|]. split; [done|]. by right.
      * apply (Hgo cc' B u Hm). by rewrite O3.
    + unfold after_trap in Dyn2. apply if_cases in Dyn2 as [(E & cc' & B' & u' & R & Hm')|(E & Hf)]; cbn [orb] in E.
      * assert ((if ignore then match_labels fn ignore e ty v (y :: labels) else Fail) = match_labels fn ignore e ty v (y :: labels)) as -> by (by rewrite E). apply (Hgo cc' B' u' Hm'). by rewrite <- Anl.
      * assert ((if ignore then match_labels fn ignore e ty v (y :: labels) else Fail) = @Fail bool) as -> by (by rewrite E). done.
Qed.

(** Where a case goes on after its statement. *)
Definition case_out (ex : list (nat * option nat)) (exit : nat) (s s' : CodeGen) (m : state) (r : result) : Prop :=
  match r with
  | RNormal e => exists cc B u, reach m (here (f_addr F exit) cc [] B u) /\ match_env B e
  | r => stat_out ((exit, None) :: ex) s s' m r
  end.

Lemma case_out_reach ex exit s s' m m' r : reach m m' -> case_out ex exit s s' m' r -> case_out ex exit s s' m r.
Proof.
  intros Hr H. destruct r; try exact (stat_out_reach _ s s' m m' _ Hr H). destruct H as (cc & B & u & R & Hm). exists cc, B, u. split; [exact (reach_trans c limit proc _ _ _ Hr R)|done].
Qed.

Lemma case_out_later ex exit k T s s1 s' m r : case_out ex exit s s1 m r -> static k T s1 s' -> (global < k)%nat -> case_out ex exit s s' m r.
Proof. intros H Hs Hk. destruct r; try done; by apply (stat_out_later _ k T s s1). Qed.

Lemma case_out_earlier ex exit k T s s1 s' m r : case_out ex exit s1 s' m r -> static k T s s1 -> (global < k)%nat -> case_out ex exit s s' m r.
Proof. intros H Hs Hk. destruct r; try done; by apply (stat_out_earlier _ k T s s1). Qed.

(** The statement of a case, and the jump out of the switch. *)
Lemma case_body_ok m ex run exit (can : bool) s a s' :
  stat_ok_ m ((exit, None) :: ex) run -> handler (Some global) (Some exit) None false can (m;; Branch branch exit) s = Ok (a, s') -> wf s -> cc_set_ s = false ->
  below ((exit, None) :: ex) s ->
  static (length (labels_ s)) (outer ((exit, None) :: ex)) s s' /\ height_ s' = height_ s /\ cc_set_ s' = false
  /\ (forall B e u cc, agrees F s' -> dead_code_ s = false -> height_ s = 0 -> match_env B e -> case_out ex exit s s' (here (emit_offset s) cc [] B u) (run e)).
Proof.
  intros Hm H Hw Hcc Hbe. destruct (guarded_ok _ _ _ _ _ _ _ _ _ H Hw) as (s1 & u1 & s3 & H1 & [Gw (G1 & G2 & G3 & G4 & G5) Gu Gb Ga Gt]).
  apply M_bind_inv in H1 as (u2 & s2 & H1 & H2). destruct (Hm _ _ _ H1 Gw ltac:(congruence) ltac:(apply (below_le _ s); [done|lia])) as (S1 & K1 & C1 & Dyn1). pose proof (static_wf _ _ _ _ S1) as Hw2. pose proof (static_labels _ _ _ _ S1) as N1.
  assert (outer ((exit, None) :: ex) exit) as Hex by (left; exists (exit, None); split; [by left|by left]).
  destruct (jump_ok exit ((exit, None) :: ex) _ _ _ H2 Hw2 Hex) as (S2 & K2 & C2 & R2). rewrite G5 in S1, N1.
  assert (static (length (labels_ s)) (outer ((exit, None) :: ex)) s1 s3) as S13 by (apply (static_trans _ _ _ s2); [done|by apply (static_down _ _ _ _ _ S2)]).
  destruct (Ga _ _ S13 (le_n _)) as (S3 & B1 & B2 & B3 & B4 & B5 & B6 & _). split; [|split; [lia|split; [congruence|]]].
  { refine (static_weaken _ _ _ _ _ _ (le_n _) _ S3). by intros l [?| ->]. }
  intros B e u cc Ha Hd HP Hme. pose proof (B6 Ha) as Ha3. pose proof (static_agrees _ _ _ _ F S2 Ha3) as Ha2. specialize (Dyn1 B e u cc Ha2 ltac:(congruence) ltac:(lia) Hme). rewrite G4 in Dyn1.
  assert (Hmore : stat_out ((exit, None) :: ex) s s2 (here (emit_offset s) cc [] B u) (run e)).
  { destruct (run e); try done. destruct Dyn1 as (Hl & Dyn1). split; [|done]. intros Hu. by apply Hl, Gu. }
  destruct (run e) as [e1|n e1|n e1|v e1|e1|e1| |]; try done.
  - destruct Dyn1 as (Hd2 & cc1 & B1' & u1' & R1 & Hm1). exists cc1, B1', u1'. split; [exact (reach_trans c limit proc _ _ _ R1 (R2 B1' u1' cc1 Ha3 Hd2))|done].
  - destruct Hmore as (Hl & Hmore). split; [|done]. intros Hu. pose proof (below_global _ _ Hbe) as Hg. destruct (static_linked _ _ _ _ global S2 ltac:(lia) (Hl Hu)) as (b & Eb & Hb). exists b. by rewrite B5.
Qed.

Abbreviation do_case := (do_case false (Some fn) (Some global)).

Lemma do_case_ok ty exit labels m ex run s a s' :
  forallb expr_ok labels = true -> stat_ok_ m ((exit, None) :: ex) run -> do_case ty exit labels m s = Ok (a, s') -> wf s -> cc_set_ s = false ->
  below ((exit, None) :: ex) s ->
  static (length (labels_ s)) (outer ((exit, None) :: ex)) s s' /\ height_ s' = height_ s /\ cc_set_ s' = false /\ dead_code_ s' = false
  /\ (forall B e v u cc, agrees F s' -> dead_code_ s = false -> height_ s = 1 -> match_env B e ->
      match match_labels fn ignore e ty v labels with
      | Ok true => case_out ex exit s s' (here (emit_offset s) cc [SVal (Some v)] B u) (run e)
      | Ok false => exists cc' B' u', reach (here (emit_offset s) cc [SVal (Some v)] B u) (here (emit_offset s') cc' [SVal (Some v)] B' u') /\ match_env B' e
      | Fail => failed_with (here (emit_offset s) cc [SVal (Some v)] B u) e
      | Fatal => True
      end).
Proof.
  intros Hok Hm H Hw Hcc Hbe. unfold CodeGen.do_case in H. apply M_bind_inv in H as (nc & s1 & H1 & H). apply (NewLabel_fresh s nc s1) in H1; [|done]. pose proof (fresh_wf _ _ _ H1) as Hw1. pose proof (fr_same _ _ _ H1) as (A1 & A2 & A3 & A4 & _).
  apply M_bind_inv in H as (cs & s2 & H2 & H). apply (NewLabel_fresh s1 cs s2) in H2; [|done]. pose proof (fresh_wf _ _ _ H2) as Hw2. pose proof (fr_same _ _ _ H2) as (B1 & B2 & B3 & B4 & _).
  pose proof (fr_index _ _ _ H1) as I1. pose proof (fr_labels _ _ _ H1) as N1. pose proof (fr_index _ _ _ H2) as I2. pose proof (fr_labels _ _ _ H2) as N2.
  apply M_bind_inv in H as (u3 & s3 & H3 & H). apply M_bind_inv in H as (u4 & s4 & H4 & H). apply M_bind_inv in H as (u10 & s10 & H10 & H).
  unfold stack_mark in H10. apply M_bind_inv in H10 as (s0 & s0' & H0 & H10). injection H0 as <- <-. apply M_bind_inv in H10 as (u9 & s9 & H9 & H10).
  apply M_bind_inv in H9 as (u5 & s5 & H5 & H9). apply M_bind_inv in H9 as (l0 & s5' & Hl0 & H9). apply of_option_inv in Hl0 as (El0 & ->). assert (labels <> []) as Hne by (intros ->; discriminate El0).
  destruct (case_labels_ok ty labels cs nc s2 u3 s3 Hok Hne H3 Hw2 ltac:(congruence) ltac:(lia) ltac:(lia)) as (S3 & K3 & C3 & D3 & Dyn3).
  destruct (exit_scope (fun l => l = nc) cs s1 s2 s3 u4 s4 H2) as (S4 & K4 & C4 & D4 & O4 & O4' & _); [refine (static_weaken _ _ _ _ _ _ (le_n _) _ S3); tauto|done|]. pose proof (static_wf _ _ _ _ S4) as Hw4. pose proof (static_labels _ _ _ _ S4) as N4.
  unfold Pop in H5. apply M_bind_inv in H5 as (s0 & s0' & H0 & H5). injection H0 as <- <-. rewrite C4, C3 in H5. apply emit_op_grown in H5. pose proof H5 as [(L1 & L2 & L3) _ D5 E5 K5]. assert (StackDelta popV = -1) as Esd by reflexivity.
  pose proof (grown_static (length (labels_ s)) no_label _ _ _ _ H5 Hw4) as S5. pose proof (static_wf _ _ _ _ S5) as Hw5. assert (length (labels_ s5) = length (labels_ s4)) as N5 by (by rewrite L1).
  destruct (case_body_ok m ex run exit (CanTrap l0) s5 u9 s9 Hm H9 Hw5 ltac:(congruence) ltac:(apply (below_le _ s); [done|lia])) as (S9 & K9 & C9 & Dyn9). pose proof (static_wf _ _ _ _ S9) as Hw9. pose proof (static_labels _ _ _ _ S9) as N9.
  destruct (SetStack_static (length (labels_ s1)) no_label _ _ _ _ H10 Hw9) as (S10 & K10 & C10 & D10 & O10 & L10 & _). pose proof (static_wf _ _ _ _ S10) as Hw10.
  set (T := outer ((exit, None) :: ex)) in *.
  assert (static (length (labels_ s1)) (fun l => T l \/ l = nc) s1 s10) as S110.
  { apply (static_trans _ _ _ s4); [refine (static_weaken _ _ _ _ _ _ (le_n _) _ S4); tauto|]. apply (static_trans _ _ _ s5); [by apply (grown_static _ _ _ _ _ _ H5)|].
    apply (static_trans _ _ _ s9); [apply (static_weaken (length (labels_ s5)) _ T); [lia|by left|done]|]. by apply (static_weaken (length (labels_ s1)) _ no_label). }
  destruct (exit_scope T nc s s1 s10 a s' H1 S110 H) as (S & K & C & D & O & O' & OL). split; [done|]. split; [lia|]. split; [congruence|]. split; [done|].
  intros B e v u cc Ha Hd HP Hme. destruct (O' Ha) as (Ha10 & Anc). pose proof (static_agrees _ _ _ _ F S10 Ha10) as Ha9. pose proof (static_agrees _ _ _ _ F S9 Ha9) as Ha5. pose proof (static_agrees _ _ _ _ F S5 Ha5) as Ha4.
  destruct (O4' Ha4) as (Ha3 & Acs). specialize (Dyn3 B e v u cc Ha3 ltac:(congruence) ltac:(lia) Hme). rewrite B4, A4 in Dyn3. unfold labels_out in Dyn3. pose proof (below_global _ _ Hbe) as Hg.
  destruct (match_labels fn ignore e ty v labels) as [z| |]; [|done|done]. destruct Dyn3 as (p & cc1 & B1' & u1 & R1 & Hm1 & Hp). destruct z.
  - assert (p = emit_offset s4) as -> by (destruct Hp; congruence). apply (case_out_reach _ _ _ _ _ _ _ R1). assert (dead_code_ s5 = false) as Dd5 by congruence.
    assert (reach (here (emit_offset s4) cc1 [SVal (Some v)] B1' u1) (here (emit_offset s5) cc1 [] B1' u1)) as R2.
    { rewrite (grown_len _ _ _ _ H5 D4). apply (run_popV c limit proc fp _ _ _ _ _ _ []). by apply (grown_has c F B0 chain fp Hcx _ _ _ _ H5 Hw4 D4 Ha5). }
    apply (case_out_reach _ _ _ _ _ _ _ R2). specialize (Dyn9 B1' e u1 cc1 Ha9 Dd5 ltac:(lia) Hm1).
    apply (case_out_earlier ex exit (length (labels_ s)) (fun l => T l \/ l = nc) s s5); [|apply (static_trans _ _ _ s1); [by apply (static_weaken (length (labels_ s)) _ no_label); [|done|apply H1]|]|done].
    + destruct (run e); try exact Dyn9. destruct Dyn9 as (Hl & Dyn9). split; [|done]. intros Hu. apply OL; [lia|]. apply (static_linked _ _ _ _ _ S10); [lia|by apply Hl].
    + apply (static_trans _ _ _ s4); [refine (static_weaken _ _ _ _ _ _ _ _ S4); [lia|tauto]|by apply (static_weaken (length (labels_ s)) _ no_label)].
  - subst p. exists cc1, B1', u1. split; [by rewrite <- Anc|done].
Qed.

(** The cases one after the other, the value of the tag staying on the stack. *)
Definition gen_cases (ty : TagType) (exit : nat) (gen : Statement -> M unit) : list (list Expr * Statement) -> M unit :=
  fix go (l : list (list Expr * Statement)) : M unit :=
    match l with
    | [] => mret tt
    | (labels, stat) :: l => do_case ty exit labels (gen stat);; go l
    end.

(** Where the cases lead to: into one of them, or behind them all. *)
Definition cases_out (ex : list (nat * option nat)) (exit : nat) (s s' : CodeGen) (run : env -> Statement -> result) (dflt : Statement) (v : Val)
    (m : state) (e : env) (r : res Statement) : Prop :=
  match r with
  | Ok stat => case_out ex exit s s' m (run e stat)
               \/ stat = dflt /\ exists cc B u, reach m (here (emit_offset s') cc [SVal (Some v)] B u) /\ match_env B e
  | Fail => failed_with m e
  | Fatal => True
  end.

Lemma cases_ok ty exit ex gen run dflt cases s a s' :
  Forall (fun x => forallb expr_ok x.1 = true /\ stat_ok_ (gen x.2) ((exit, None) :: ex) (fun e => run e x.2)) cases ->
  gen_cases ty exit gen cases s = Ok (a, s') -> wf s -> cc_set_ s = false -> below ((exit, None) :: ex) s ->
  static (length (labels_ s)) (outer ((exit, None) :: ex)) s s' /\ height_ s' = height_ s /\ cc_set_ s' = false
  /\ (dead_code_ s = false -> dead_code_ s' = false)
  /\ (forall B e v u cc, agrees F s' -> dead_code_ s = false -> height_ s = 1 -> match_env B e ->
      cases_out ex exit s s' run dflt v (here (emit_offset s) cc [SVal (Some v)] B u) e (select_case fn ignore e ty v cases dflt)).
Proof.
  intros Hall. revert s a s'. induction Hall as [|[labels stat] cases (Hl & Hstat) Hall IH]; intros s a s' H Hw Hcc Hbe; cbn [gen_cases] in H.
  { gen_inv H. split; [by apply static_refl|]. repeat (split; [done|]). intros B e v u cc Ha Hd HP Hm. right. split; [done|]. exists cc, B, u. split; [apply reach_refl|done]. }
  apply M_bind_inv in H as (u1 & s1 & H1 & H). cbn [fst snd] in Hl, Hstat. destruct (do_case_ok ty exit labels _ ex _ s u1 s1 Hl Hstat H1 Hw Hcc Hbe) as (S1 & K1 & C1 & D1 & Dyn1).
  pose proof (static_labels _ _ _ _ S1) as N1. destruct (IH _ _ _ H (static_wf _ _ _ _ S1) C1 (below_le _ _ _ Hbe N1)) as (S2 & K2 & C2 & D2 & Dyn2).
  pose proof (static_down _ _ _ _ _ S2 N1) as S2'. split; [by apply (static_trans _ _ _ s1)|]. split; [lia|]. split; [done|]. split; [intros _; by apply D2|].
  intros B e v u cc Ha Hd HP Hm. pose proof (static_agrees _ _ _ _ F S2 Ha) as Ha1. specialize (Dyn1 B e v u cc Ha1 Hd HP Hm). cbn [select_case].
  pose proof (below_global _ _ Hbe) as Hg. destruct (match_labels fn ignore e ty v labels) as [[]| |]; cbn [mbind res_bind]; [| |done|done].
  { left. by apply (case_out_later ex exit (length (labels_ s)) _ s s1 s' _ _ Dyn1 S2'). }
  destruct Dyn1 as (cc1 & B1 & u1' & R1 & Hm1). specialize (Dyn2 B1 e v u1' cc1 Ha D1 ltac:(lia) Hm1). unfold cases_out in *.
  destruct (select_case fn ignore e ty v cases dflt) as [stat'| |]; [|by apply (failed_reach _ _ _ R1)|done].
  destruct Dyn2 as [Dyn2|(-> & cc2 & B2 & u2 & R2 & Hm2)]; [left|right; split; [done|]; exists cc2, B2, u2; split; [exact (reach_trans c limit proc _ _ _ R1 R2)|done]].
  apply (case_out_reach _ _ _ _ _ _ _ R1). by apply (case_out_earlier ex exit (length (labels_ s)) (outer ((exit, None) :: ex)) s s1).
Qed.

(** The outcome of a switch is that of the case, but for the jumps out of it. *)
Lemma case_leave ex exit s s1 s' k T m r :
  case_out ex exit s s1 m r -> f_addr F exit = emit_offset s' -> dead_code_ s' = false -> static k T s1 s' -> (global < k)%nat -> stat_out ex s s' m (leave r).
Proof.
  intros H He Hd Hs Hk. destruct r as [e|n e|n e|v e|e|e| |]; try (by apply (leave_out ex None exit s s1 s' k T)); cbn [leave].
  - destruct H as (cc & B & u & R & Hm). split; [done|]. exists cc, B, u. by rewrite <- He.
  - destruct n as [|n]; [done|]. by apply (leave_out ex None exit s s1 s' k T _ (RContinue (S n) e)).
Qed.

Definition switch_run (ty : TagType) (cases : list (list Expr * Statement)) (dflt : Statement) (run : env -> Statement -> result) (v : Val) (e : env) : result :=
  match select_case fn ignore e ty v cases dflt with
  | Ok stat => leave (run e stat)
  | Fail => RFailed e
  | Fatal => RStuck
  end.

(** Inside the range of the tag. *)
Lemma switch_body_ok ty tag ex gen run dflt cases exit done_ k s a s' :
  expr_ok tag = true ->
  Forall (fun x => forallb expr_ok x.1 = true /\ stat_ok_ (gen x.2) ((exit, None) :: ex) (fun e => run e x.2)) cases ->
  stat_ok_ (gen dflt) ((exit, None) :: ex) (fun e => run e dflt) ->
  (Load (visit (Some global) tag) false;; gen_cases ty exit gen cases;; Pop;; gen dflt;; Bind exit;; Bind done_) s = Ok (a, s') ->
  wf s -> cc_set_ s = false -> unbound s exit -> unbound s done_ -> exit <> done_ -> below ex s -> (forall l, outer ex l -> (l < k)%nat) -> (k <= exit)%nat -> (k <= done_)%nat ->
  static k (outer ex) s s' /\ ~ linked_at s' done_ /\ height_ s' = height_ s /\ cc_set_ s' = false /\ dead_code_ s' = false
  /\ (forall B e u cc, agrees F s' -> dead_code_ s = false -> height_ s = 0 -> match_env B e ->
      f_addr F done_ = emit_offset s' /\
      match eval fn e tag with
      | Ok v => stat_out ex s s' (here (emit_offset s) cc [] B u) (switch_run ty cases dflt run v e)
      | Fail => forall i, current_trap_range_ s = Some i -> trapped i [] B u (here (emit_offset s) cc [] B u)
      | Fatal => True
      end).
Proof.
  intros Htag Hcases Hdflt H Hw Hcc Uexit Udone Hne Hbe Hout Hke Hkd. pose proof (unbound_lt _ _ Uexit) as Le. pose proof (unbound_lt _ _ Udone) as Ld.
  apply M_bind_inv in H as (u1 & s1 & H1 & H). destruct (Load_expr_ok c limit proc F fn B0 chain fp Hcx (Some global) tag Htag _ _ _ H1 Hw Hcc) as ([S1 K1 D1] & C1 & Dyn1). pose proof (static_wf _ _ _ _ S1) as Hw1. pose proof (static_labels _ _ _ _ S1) as N1. rewrite C1 in K1.
  assert (below ((exit, None) :: ex) s1) as Hbe1.
  { intros l [(x & Hx & Hl)|Hl]; [|specialize (Hbe l (or_intror Hl)); lia]. apply elem_of_cons in Hx as [->|Hx]; [cbn in Hl; destruct Hl; simplify_eq; lia|]. specialize (Hbe l ltac:(left; by exists x)). lia. }
  apply M_bind_inv in H as (u2 & s2 & H2 & H). destruct (cases_ok ty exit ex gen run dflt cases _ _ _ Hcases H2 Hw1 C1 Hbe1) as (S2 & K2 & C2 & D2 & Dyn2). pose proof (static_wf _ _ _ _ S2) as Hw2. pose proof (static_labels _ _ _ _ S2) as N2.
  apply M_bind_inv in H as (u3 & s3 & H3 & H). unfold Pop in H3. apply M_bind_inv in H3 as (s0 & s0' & H0 & H3). injection H0 as <- <-. rewrite C2 in H3. apply emit_op_grown in H3. pose proof H3 as [(L3 & _) _ D3 E3 K3].
  assert (StackDelta popV = -1) as Esd by reflexivity. pose proof (grown_static (length (labels_ s)) no_label _ _ _ _ H3 Hw2) as S3. pose proof (static_wf _ _ _ _ S3) as Hw3. assert (length (labels_ s3) = length (labels_ s2)) as N3 by (by rewrite L3).
  apply M_bind_inv in H as (u4 & s4 & H4 & H). destruct (Hdflt _ _ _ H4 Hw3 ltac:(congruence) ltac:(apply (below_le _ s1); [done|lia])) as (S4 & K4 & C4 & Dyn4). pose proof (static_wf _ _ _ _ S4) as Hw4. pose proof (static_labels _ _ _ _ S4) as N4.
  set (T := outer ((exit, None) :: ex)) in *. assert (static (length (labels_ s)) T s s2) as S02.
  { apply (static_trans _ _ _ s1); [by apply (static_weaken (length (labels_ s)) _ no_label)|by apply (static_down _ _ _ _ _ S2)]. }
  assert (static (length (labels_ s)) T s2 s4) as S24.
  { apply (static_trans _ _ _ s3); [by apply (static_weaken (length (labels_ s)) _ no_label)|apply (static_down _ _ _ _ _ S4); lia]. }
  assert (static (length (labels_ s)) T s s4) as S04 by (by apply (static_trans _ _ _ s2)).
  apply M_bind_inv in H as (u5 & s5 & H5 & H). pose proof (Bind_ok exit _ _ _ H5 Hw4 (static_unbound _ _ _ _ _ S04 Le Uexit)) as Hb5. destruct (bd_same _ _ _ Hb5) as (O5 & P5 & Q5 & D5). pose proof (bound_wf _ _ _ Hb5) as Hw5.
  pose proof (bd_unbound _ _ _ Hb5 done_ ltac:(done) (static_unbound _ _ _ _ _ S04 Ld Udone)) as U5. pose proof (Bind_ok done_ _ _ _ H Hw5 U5) as Hb6. destruct (bd_same _ _ _ Hb6) as (O6 & P6 & Q6 & D6).
  pose proof (Bind_static k no_label exit _ _ Hb5 Hke) as S45. pose proof (Bind_static k no_label done_ _ _ Hb6 Hkd) as S56. assert (static k no_label s4 s') as S46 by (by apply (static_trans _ _ _ s5)).
  assert (static k T s s') as S06.
  { apply (static_trans _ _ _ s4); [apply (static_down _ _ _ _ _ S04); lia|by apply (static_weaken k _ no_label)]. }
  split; [|split; [by apply (bound_unlinked _ _ _ Hb6)|split; [lia|split; [congruence|split; [done|]]]]].
  { apply (static_forget k T _ _ _ S06). intros l [(x & Hx & Hl)|Hl]; [|by left; right]. apply elem_of_cons in Hx as [->|Hx]; [|left; left; by exists x].
    cbn in Hl. destruct Hl as [<-|?]; [|done]. right. apply (static_unlinked _ _ _ _ _ S56); [by apply (bound_unlinked _ _ _ Hb5)|tauto]. }
  intros B e u cc Ha Hd HP Hm. pose proof (static_agrees _ _ _ _ F S56 Ha) as Ha5. pose proof (static_agrees _ _ _ _ F S45 Ha5) as Ha4. pose proof (static_agrees _ _ _ _ F S4 Ha4) as Ha3. pose proof (static_agrees _ _ _ _ F S3 Ha3) as Ha2.
  pose proof (static_agrees _ _ _ _ F S2 Ha2) as Ha1. split; [rewrite O6; by apply (bd_addr _ _ _ Hb6)|]. assert (f_addr F exit = emit_offset s') as Aex by (rewrite O6, O5; by apply (bd_addr _ _ _ Hb5)).
  specialize (Dyn1 B e [] u cc Ha1 Hd HP Hm). unfold load_out in Dyn1. destruct (eval fn e tag) as [v| |]; [|done|done]. destruct Dyn1 as (cc1 & R1). specialize (D1 Hd). specialize (D2 D1). pose proof (Hout global (or_intror eq_refl)) as Hg.
  specialize (Dyn2 B e v u cc1 Ha2 D1 ltac:(lia) Hm). unfold cases_out in Dyn2. unfold switch_run. apply (stat_out_reach _ _ _ _ _ _ R1).
  destruct (select_case fn ignore e ty v cases dflt) as [stat| |]; [|done|done].
  apply (stat_out_earlier ex k no_label s s1); [|by apply (static_weaken (length (labels_ s)) _ no_label); [lia|done|]|done]. destruct Dyn2 as [Dyn2|(-> & cc2 & B2 & v2 & R2 & Hm2)].
  - apply (case_leave ex exit s1 s2 s' k T _ _ Dyn2 Aex D6); [|done]. apply (static_trans _ _ _ s4); [apply (static_down _ _ _ _ _ S24); lia|by apply (static_weaken k _ no_label)].
  - apply (stat_out_reach _ _ _ _ _ _ R2).
    assert (reach (here (emit_offset s2) cc2 [SVal (Some v)] B2 v2) (here (emit_offset s3) cc2 [] B2 v2)) as R3.
    { rewrite (grown_len _ _ _ _ H3 D2). apply (run_popV c limit proc fp _ _ _ _ _ _ []). by apply (grown_has c F B0 chain fp Hcx _ _ _ _ H3 Hw2 D2 Ha3). }
    apply (stat_out_reach _ _ _ _ _ _ R3). specialize (Dyn4 B2 e v2 cc2 Ha4 ltac:(congruence) ltac:(lia) Hm2).
    apply (stat_out_earlier ex k T s1 s3); [|apply (static_trans _ _ _ s2); [apply (static_down _ _ _ _ _ S2); lia|apply (static_weaken (length (labels_ s)) _ no_label); [lia|done|done]]|done].
    assert (case_out ex exit s3 s4 (here (emit_offset s3) cc2 [] B2 v2) (run e dflt) \/ exists e', run e dflt = RNormal e') as [Hc|(e' & E)].
    { destruct (run e dflt); try (by left). right. by eexists. }
    + by apply (case_leave ex exit s3 s4 s' k no_label _ _ Hc Aex D6).
    + rewrite E in *. destruct Dyn4 as (Hd4 & cc4 & B4 & u4' & R4 & Hm4). cbn [leave]. split; [done|]. exists cc4, B4, u4'. by rewrite O6, O5.
Qed.

Lemma switch_ok ty tag ex (gen : nat -> Statement -> M unit) run dflt cases :
  expr_ok tag = true ->
  (forall exit, Forall (fun x => forallb expr_ok x.1 = true /\ stat_ok_ (gen exit x.2) ((exit, None) :: ex) (fun e => run e x.2)) cases) ->
  (forall exit, stat_ok_ (gen exit dflt) ((exit, None) :: ex) (fun e => run e dflt)) ->
  stat_ok_ (DoSwitch false (Some fn) (Some global) ty tag (fun exit => gen_cases ty exit (gen exit) cases) (fun exit => gen exit dflt)) ex
    (fun e => with_value (eval fn e tag) (on_undef ignore e) (fun v => switch_run ty cases dflt run v e)).
Proof.
  intros Htag Hcases Hdflt s a s' H Hw Hcc Hbe. unfold DoSwitch in H.
  apply M_bind_inv in H as (done_ & s1 & H1 & H). apply (NewLabel_fresh s done_ s1) in H1; [|done]. pose proof (fresh_wf _ _ _ H1) as Hw1. pose proof (fr_same _ _ _ H1) as (A1 & A2 & A3 & A4 & _).
  apply M_bind_inv in H as (exit & s2 & H2 & H). apply (NewLabel_fresh s1 exit s2) in H2; [|done]. pose proof (fresh_wf _ _ _ H2) as Hw2. pose proof (fr_same _ _ _ H2) as (B1 & B2 & B3 & B4 & _).
  pose proof (fr_index _ _ _ H1) as I1. pose proof (fr_labels _ _ _ H1) as N1. pose proof (fr_index _ _ _ H2) as I2. pose proof (fr_labels _ _ _ H2) as N2.
  destruct (guarded_ok _ _ _ _ _ _ _ _ _ H Hw2) as (s3 & u3 & s4 & H3 & [Gw (G1 & G2 & G3 & G4 & G5) Gu Gb Ga Gt]).
  assert (static (length (labels_ s)) no_label s s2) as S02 by (apply (static_trans _ _ _ s1); [apply H1|apply (static_down _ _ _ _ _ (fr_static _ _ _ H2)); lia]).
  assert (unbound s2 done_) as Ud by (apply (static_unbound _ _ _ _ _ (fr_static _ _ _ H2)); [lia|apply H1]).
  destruct (switch_body_ok ty tag ex (gen exit) run dflt cases exit done_ (length (labels_ s)) s3 u3 s4 Htag (Hcases exit) (Hdflt exit) H3 Gw ltac:(congruence) ltac:(apply Gu, H2) ltac:(by apply Gu) ltac:(lia)
    ltac:(apply (below_le _ s); [done|lia]) Hbe ltac:(lia) ltac:(lia)) as (S34 & Hun & K4 & C4 & D4 & Dyn).
  destruct (Ga _ _ S34 ltac:(lia)) as (S4 & E1 & E2 & E3 & E4 & E5 & E6 & _). split; [|split; [lia|split; [congruence|]]].
  { apply (static_forget _ (fun l => outer ex l \/ l = done_)); [apply (static_trans _ _ _ s2); [by apply (static_weaken (length (labels_ s)) _ no_label)|done]|].
    intros l [Hl| ->]; [by left|right]. intros (b & Eb & Hb). apply Hun. exists b. by rewrite <- E5. }
  intros B e u cc Ha Hd HP Hm. pose proof (E6 Ha) as Ha4. destruct (Dyn B e u cc Ha4 ltac:(congruence) ltac:(lia) Hm) as (Ad & Hrun). replace (emit_offset s3) with (emit_offset s) in Hrun by congruence. unfold with_value.
  destruct (eval fn e tag) as [v| |] eqn:Ev; [| |done].
  - assert (forall r, stat_out ex s3 s4 (here (emit_offset s) cc [] B u) r -> stat_out ex s s' (here (emit_offset s) cc [] B u) r) as Hmove; [|by apply Hmove].
    intros r Hr. destruct r; try done.
    + destruct Hr as (Hr1 & cc1 & B1' & u1 & R & Hm1). split; [congruence|]. exists cc1, B1', u1. by rewrite E4.
    + destruct Hr as (Hl & Hr). split; [|done]. intros Hu. pose proof (below_global _ _ Hbe) as Hg.
      destruct (Hl ltac:(apply Gu; by apply (static_unbound _ _ _ _ _ S02))) as (b & Eb & Hb). exists b. by rewrite E5.
  - pose proof (Gt _ _ [] B u _ e e S34 Ha4 (CanTrap_sound fn e tag Ev) ltac:(cbn; lia) Hm eq_refl Hrun) as Htr. unfold after_trap in Htr. unfold on_undef.
    apply if_cases in Htr as [(E & cc1 & B1' & u1 & R & Hm1)|(E & Htr)]; cbn [orb] in E; [assert ((if ignore then RNormal e else RFailed e) = RNormal e) as -> by (by rewrite E)|assert ((if ignore then RNormal e else RFailed e) = RFailed e) as -> by (by rewrite E); done].
    split; [congruence|]. exists cc1, B1', u1. by rewrite E4, <- Ad.
Qed.

(** ** All statements *)

Abbreviation Execute := (Execute false (Some fn) (Some global) frame_size).
Abbreviation execute := (execute fn ignore).

Definition right (x : Statement) : Prop := forall fuel ex, stat_ok_ (Execute x ex) ex (fun e => execute fuel e x).

(** Without fuel nothing is said of the outcome. *)
Lemma right_fuel x : (forall fuel ex, stat_ok_ (Execute x ex) ex (fun e => execute (S fuel) e x)) -> right x.
Proof. intros H [|fuel] ex; [|apply H]. apply (stat_ok_ext _ _ (fun e => execute 1 e x)); [|apply H]. intros e. by right; right. Qed.

Lemma if_ok x t f : expr_ok x = true -> right t -> right f -> right (If x t f).
Proof.
  intros Hx Ht Hf. apply right_fuel. intros fuel ex. cbn [CodeGen.Execute Semantics.execute].
  assert (forall y, is_empty y = true -> forall e1, RNormal e1 = execute fuel e1 y \/ execute fuel e1 y = RFuel) as Hempty.
  { intros [] Hy e1; try done. destruct fuel; [by right|by left]. }
  assert (forall r u k k', (forall b, k b = k' b \/ k b = RFuel) -> with_bool r u k = with_bool r u k' \/ with_bool r u k = RStuck \/ with_bool r u k = RFuel) as Hwb.
  { intros r u k k' Hk. destruct r as [[b| | | | | | | | |]| |]; cbn; auto. destruct (Hk b); auto. }
  destruct (is_empty t) eqn:Et, (is_empty f) eqn:Ef; cbn [negb].
  - refine (stat_ok_ext _ _ _ _ _ (no_arm x ex Hx)). intros e. apply Hwb. intros []; [destruct (Hempty t Et e)|destruct (Hempty f Ef e)]; auto.
  - refine (stat_ok_ext _ _ _ _ _ (one_armed x true (Execute f ex) ex _ Hx (Hf fuel ex))). intros e. apply Hwb. intros []; cbn [Bool.eqb]; [destruct (Hempty t Et e)|]; auto.
  - refine (stat_ok_ext _ _ _ _ _ (one_armed x false (Execute t ex) ex _ Hx (Ht fuel ex))). intros e. apply Hwb. intros []; cbn [Bool.eqb]; [|destruct (Hempty f Ef e)]; auto.
  - refine (stat_ok_ext _ _ _ _ _ (two_armed x (Execute t ex) (Execute f ex) ex _ _ Hx (Ht fuel ex) (Hf fuel ex))). intros e. left. by destruct (eval fn e x) as [[[]| | | | | | | | |]| |].
Qed.

Lemma block_ok l : Forall right l -> right (Block l).
Proof.
  intros Hall. apply right_fuel. intros fuel ex. cbn [CodeGen.Execute Semantics.execute]. induction Hall as [|x l Hx Hall IH]; [apply nothing_ok|].
  apply (seq_ok _ _ ex _ _ (Hx fuel ex) IH).
Qed.

(** The code of every statement of the kinds considered does what it means. *)
Lemma Execute_ok x : stat_ok x = true -> right x.
Proof.
  induction x as [l r|l IHl|k|k| |d init| |x|x t f IHt IHf|l delta|r|ty tag cases dflt IHc IHd|sym before cond after body IHb IHa IHbody] using Statement_nested; cbn [stat_ok]; intros H.
  - apply andb_true_iff in H as (Hl & Hr). destruct l as [|d df| | | | |]; try done. apply right_fuel. intros fuel ex. by apply assignment_ok.
  - apply block_ok. rewrite forallb_forall in H. apply Forall_forall. intros x Hx. rewrite Forall_forall in IHl. apply IHl; [done|]. by apply H, list_elem_of_In.
  - apply right_fuel. intros fuel ex. apply break_ok.
  - apply right_fuel. intros fuel ex. apply continue_ok.
  - apply right_fuel. intros fuel ex. apply nothing_ok.
  - apply right_fuel. intros fuel ex. refine (stat_ok_ext _ _ _ _ _ (local_decl_ok d init ex H)). intros e. left. by destruct init.
  - apply right_fuel. intros fuel ex. apply nothing_ok.
  - apply right_fuel. intros fuel ex. by apply expr_stat_ok.
  - rewrite !andb_true_iff in H. destruct H as ((Hc & Ht) & Hf). by apply if_ok; auto.
  - rewrite !andb_true_iff in H. destruct H as (((Hl & H1) & H2) & H3). apply Z.leb_le in H1. apply Z.ltb_lt in H2. apply negb_true_iff, Z.eqb_neq in H3.
    destruct l as [|d df| | | | |]; try done. apply right_fuel. intros fuel ex. by apply increment_ok.
  - apply right_fuel. intros fuel ex. destruct r as [x|]; [by apply return_some_ok|apply return_none_ok].
  - rewrite !andb_true_iff in H. destruct H as ((Htag & Hc) & Hd). apply right_fuel. intros fuel ex.
    refine (switch_ok ty tag ex (fun exit stat => Execute stat ((exit, None) :: ex)) (execute fuel) dflt cases Htag _ _); intros exit; [|by apply IHd].
    rewrite forallb_forall in Hc. rewrite Forall_forall in IHc. apply Forall_forall. intros [labels stat] Hx. specialize (Hc _ ltac:(by apply list_elem_of_In)). cbn in Hc |- *.
    apply andb_true_iff in Hc as (Hlab & Hs). split; [done|]. exact (IHc _ Hx Hs fuel _).
  - rewrite !andb_true_iff in H. destruct H as (((Hb & Hc) & Ha) & Hbody). apply right_fuel. intros fuel ex.
    assert (forall o, opt_all_prop (fun x => stat_ok x = true -> right x) o -> opt_all stat_ok o = true ->
      stat_ok_ (match match o with Some b => Some (Execute b ex) | None => None end with Some b => b | None => mret tt end) ex (fun e => run_opt (execute fuel) e o)) as Hopt.
    { intros [b|] Ho Hk; cbn in *; [by apply Ho|apply nothing_ok]. }
    refine (stat_ok_ext _ _ _ _ _ (loop_ok ex sym _ _ (fun exit cont => Execute body ((exit, Some cont) :: ex)) before cond after body (execute fuel) fuel
      (Hopt before IHb Hb) (Hopt after IHa Ha) (fun exit cont => IHbody Hbody fuel _) Hc)).
    intros e. by left.
Qed.
End Function.
End Statements.
