(* ===== verification/FunctionCorrect.v ===== *)
(** * The code of whole functions

    The code that the generator makes for a function, run from its entry on a
    stack with the arguments, does what the body of the function means: it
    returns to the caller with the value, ends the run, fails with the variables
    as they are then, or traps in the caller when the result is undefined. *)
From Stdlib Require Import ZArith Lia.
From stdpp Require Import prelude strings relations.
From S2P Require Import Prelude Forms Opcodes TaggedInts Arith Interp Nodes CodeGen CodeGenInv TrapRanges Semantics Machine ExprCorrect StatCorrect.

Local Open Scope Z_scope.

(** ** The finished code of a generator *)

(** No label waits any more: the positions are those of the bound labels. *)
Definition final_of (s : CodeGen) : Final :=
  MkFinal (code_ s) (traps_ s) (fun l => match labels_ s !! l with Some b => default 0 (bound_ b) | None => 0 end).

Lemma final_agrees s : wf s -> (forall l, ~ linked_at s l) -> current_trap_range_ s = None -> agrees (final_of s) s.
Proof.
  intros Hw Hl Hc. assert (forall l b, labels_ s !! l = Some b -> forward_ b = [] /\ other_ b = []) as Hnone.
  { intros l b E. specialize (Hl l). unfold linked_at in Hl. destruct (is_linked b) eqn:Eb; [exfalso; eauto|].
    unfold is_linked in Eb. by rewrite orb_false_iff, !negb_false_iff, !bool_decide_eq_true in Eb. }
  split; cbn [final_of f_code f_traps f_addr]; try done.
  - intros l b f E Hf. rewrite (proj1 (Hnone l b E)) in Hf. by apply elem_of_nil in Hf.
  - intros l b t E Eb. by rewrite E, Eb.
  - intros i d E. exists d. split; [done|]. split; [by repeat split|]. split; [|done]. unfold opens. rewrite Hc. destruct (length (traps_ s)); intros H; by apply elem_of_nil in H.
  - intros l b i d' E Hi. rewrite (proj2 (Hnone l b E)) in Hi. by apply elem_of_nil in Hi.
  - intros i d d' E _ E'. congruence.
  - intros i d' Hi E. apply lookup_lt_Some in E. lia.
Qed.

(** ** The parts of the code of a function *)

Lemma align_loop_grown fuel s a s' : align_loop fuel s = Ok (a, s') -> exists l, grown s s' l 0.
Proof.
  revert s. induction fuel as [|fuel IH]; intros s H; cbn [align_loop] in H; apply M_bind_inv in H as (s0 & s0' & H0 & H); injection H0 as <- <-.
  all: destruct (emit_offset s mod 16 =? 0); [gen_inv H; exists []; apply grown_refl|].
  { discriminate H. }
  apply M_bind_inv in H as (u1 & s1 & H1 & H). apply emit_op_grown in H1. destruct (IH _ H) as (l & G). exists ([COp nop] ++ l). exact (grown_trans _ _ _ _ _ _ _ H1 G).
Qed.

Lemma align_static k T s a s' : align_emit_offset s = Ok (a, s') -> wf s -> static k T s s' /\ cc_set_ s' = cc_set_ s.
Proof.
  unfold align_emit_offset. intros H Hw. apply M_bind_inv in H as (s0 & s0' & H0 & H). injection H0 as <- <-. apply M_bind_inv in H as (u1 & s1 & H1 & H). gen_inv H1.
  apply M_bind_inv in H as (u2 & s2 & H2 & H). gen_inv H. apply align_loop_grown in H2 as (l & G).
  assert (static k T s (set_dead false s)) as S1 by (by apply same_static). pose proof (static_wf _ _ _ _ S1) as Hw1.
  pose proof (grown_static k T _ _ _ _ G Hw1) as S2. split; [|exact (g_cc _ _ _ _ G)]. apply (static_trans _ _ _ (set_dead false s)); [done|]. apply (static_trans _ _ _ s2); [done|].
  apply same_static; [done|done|by apply (static_wf _ _ _ _ S2)].
Qed.

(** ** What functions and the initialisation share *)

(** Between two functions no label waits, and no range is open. *)
Record settled (s : CodeGen) : Prop := {
  se_wf : wf s;
  se_cc : cc_set_ s = false;
  se_current : current_trap_range_ s = None;
  se_links : forall l, ~ linked_at s l }.

Definition emits (m : M unit) (l : list cell) : Prop := forall s a s', m s = Ok (a, s') -> exists dh, grown s s' l dh.

(** Behind the body: the end, the handler when something waits for it, and the
    operand of [enter]. *)
Definition closing (fin handler : M unit) (room : Z -> Z) (global : nat) (offset : Z) : M unit :=
  fin;;
  g ← linked global;
  when g (Bind global;; handler);;
  align_emit_offset;;
  s ← get;
  set_int32_at offset (room (max_stack_height_ s)).

Lemma closing_ok fin handler room global offset fin_code handler_code s2 a s' :
  closing fin handler room global offset s2 = Ok (a, s') -> emits fin fin_code -> emits handler handler_code -> wf s2 -> unbound s2 global ->
  exists s5 n, static 0 no_label s2 s5 /\ ~ linked_at s5 global /\ cc_set_ s5 = cc_set_ s2 /\ s' = set_code (<[Z.to_nat offset := CInt32 n]> (code_ s5)) s5
  /\ (dead_code_ s2 = false -> forall F, agrees F s5 -> code_is F (emit_offset s2) fin_code)
  /\ (linked_at s2 global -> forall F, agrees F s5 -> code_is F (f_addr F global) handler_code).
Proof.
  intros H Hfin Hhan Hw Hu. apply M_bind_inv in H as (u1 & s3 & H1 & H). destruct (Hfin _ _ _ H1) as (dh & G1).
  pose proof (grown_static (S global) no_label _ _ _ _ G1 Hw) as S23. pose proof (static_wf _ _ _ _ S23) as Hw3. apply M_bind_inv in H as (g & s3' & H2 & H). apply linked_inv in H2 as (-> & Hg).
  pose proof (static_unbound _ _ _ _ global S23 ltac:(lia) Hu) as Hu3. apply M_bind_inv in H as (u4 & s4 & H3 & H).
  assert (static 0 no_label s3 s4 /\ ~ linked_at s4 global /\ cc_set_ s4 = cc_set_ s3 /\ (g = true -> forall F, agrees F s4 -> code_is F (f_addr F global) handler_code)) as (S34 & L4 & Q4 & C4).
  { destruct g; cbn [when] in H3.
    - apply M_bind_inv in H3 as (u5 & s5 & H4 & H3). pose proof (Bind_ok global _ _ _ H4 Hw3 Hu3) as Hb. pose proof (bound_wf _ _ _ Hb) as Hw5. destruct (Hhan _ _ _ H3) as (dh' & G3).
      destruct (bd_same _ _ _ Hb) as (O & _ & Q & D). pose proof (grown_static 0%nat no_label _ _ _ _ G3 Hw5) as S54.
      split; [by apply (static_trans _ _ _ s5); [apply (Bind_static _ _ global); [done|lia]|]|]. split; [|split; [rewrite (g_cc _ _ _ _ G3); done|]].
      + apply (static_unlinked _ _ _ _ _ S54); [by apply (bound_unlinked _ _ _ Hb)|tauto].
      + intros _ F Ha. rewrite (bd_addr _ _ _ Hb F (static_agrees _ _ _ _ F S54 Ha)), <- O. by apply (grown_code _ _ _ _ F G3 Hw5 D).
    - gen_inv H3. split; [by apply static_refl|]. split; [|done]. intros Hl. by apply Hg in Hl. }
  pose proof (static_wf _ _ _ _ S34) as Hw4. apply M_bind_inv in H as (u5 & s5 & H4 & H). destruct (align_static 0%nat no_label _ _ _ H4 Hw4) as (S45 & Q5).
  apply M_bind_inv in H as (s6 & s6' & H5 & H). injection H5 as <- <-. unfold set_int32_at in H. apply M_bind_inv in H as (s6 & s6' & H5 & H). injection H5 as <- <-.
  destruct ((0 <=? offset) && _); [|done]. cbv [modify] in H. injection H as _ <-. eexists s5, _. pose proof (static_down _ 0 _ _ _ S23 ltac:(lia)) as S23'.
  split; [by apply (static_trans _ _ _ s3); [|apply (static_trans _ _ _ s4)]|]. split; [by apply (static_unlinked _ _ _ _ _ S45); [|tauto]|].
  split; [rewrite Q5, Q4; exact (g_cc _ _ _ _ G1)|]. split; [done|].
  split; [intros Hd F Ha|intros Hl F Ha; apply C4; [|by apply (static_agrees _ _ _ _ F S45)]].
  - apply (grown_code _ _ _ _ F G1 Hw Hd). apply (static_agrees _ _ _ _ F S34). by apply (static_agrees _ _ _ _ F S45).
  - apply Hg. apply (static_linked _ _ _ _ _ S23); [lia|done].
Qed.

(** The start: [enter] with its two operands, the second still to be known. *)
Definition enter_code (nvars : Z) : list cell := [COp enter; CInt32 (s32 nvars); CPad; CPad; CPad; CInt32 0; CPad; CPad; CPad].

Lemma opening_ok (k : Z -> M unit) nvars s a s' :
  (emit_op enter;; emit_int32 nvars;; s ← get; emit_int32 0;; k (emit_offset s)) s = Ok (a, s') -> dead_code_ s = false ->
  exists s1, grown s s1 (enter_code nvars) 0 /\ k (emit_offset s1 - 4) s1 = Ok (a, s').
Proof.
  intros H Hd. apply M_bind_inv in H as (uc & sc & Hc & H). apply emit_op_grown in Hc. apply M_bind_inv in H as (ud & sd & Hdd & H). apply emit_cells_grown in Hdd.
  apply M_bind_inv in H as (se & se' & He & H). injection He as <- <-. apply M_bind_inv in H as (uf & sf & Hf & H). apply emit_cells_grown in Hf.
  exists sf. split; [exact (grown_trans _ _ _ _ _ _ _ (grown_trans _ _ _ _ _ _ _ Hc Hdd) Hf)|].
  pose proof (grown_len _ _ _ _ Hf ltac:(rewrite (g_dead _ _ _ _ Hdd), (g_dead _ _ _ _ Hc); done)) as Hl. cbn [length app replicate] in Hl. by replace (emit_offset sf - 4) with (emit_offset sd) by lia.
Qed.

(** The code with the operand as it was before it was set. *)
Definition unset (p : Z) (F : Final) : Final := MkFinal (<[Z.to_nat p := CInt32 0]> (f_code F)) (f_traps F) (f_addr F).

Lemma unset_agrees s p n F :
  code_ s !! Z.to_nat p = Some (CInt32 0) -> (forall l, ~ linked_at s l) -> agrees F (set_code (<[Z.to_nat p := CInt32 n]> (code_ s)) s) -> agrees (unset p F) s.
Proof.
  intros Ep Hl Ha. assert (emit_offset (set_code (<[Z.to_nat p := CInt32 n]> (code_ s)) s) = emit_offset s) as Eo by (unfold emit_offset; cbn; by rewrite length_insert).
  assert (forall q, ~ pending s q) as Hp.
  { intros q (l & b & Eb & Hf). apply (Hl l). exists b. split; [done|]. apply is_linked_iff. by left; eexists. }
  pose proof (lookup_lt_Some _ _ _ Ep) as Hlt.
  assert (f_code F !! Z.to_nat p = Some (CInt32 n)) as EF by (apply (a_code _ _ Ha); [by apply list_lookup_insert_eq|apply Hp]).
  split; try apply Ha.
  - intros q x Ex _. cbn [unset f_code]. destruct (decide (q = Z.to_nat p)) as [->|Hne].
    + rewrite list_lookup_insert_eq by (by apply lookup_lt_Some in EF). congruence.
    + rewrite list_lookup_insert_ne by done. apply (a_code _ _ Ha); [|apply Hp]. cbn. by rewrite list_lookup_insert_ne.
  - intros l b f Eb Hf. destruct (Hp (Z.to_nat f)). exists l, b. split; [done|]. destruct (Hl l). exists b. split; [done|]. apply is_linked_iff. by left; exists f.
  - intros i d Ed. destruct (a_range _ _ Ha i d Ed) as (d' & E' & Hr & Ho & Hc). exists d'. rewrite Eo in Ho. done.
  - intros i d' Hi Ed. rewrite <- Eo. by apply (a_new _ _ Ha i).
Qed.

Lemma set_code_wf l s : length l = length (code_ s) -> wf s -> wf (set_code l s).
Proof.
  intros Hl [[] []]. assert (emit_offset (set_code l s) = emit_offset s) as Eo by (unfold emit_offset; cbn; by rewrite Hl).
  split; split; rewrite ?Eo; try done.
Qed.

(** The states around the body of a frame, and what the finished code has there.
    [F] has the operand of [enter], [unset p F] does not. *)
Record framed (fin_code handler_code : list cell) (F : Final) (p : Z) (global : nat) (s1 s2 : CodeGen) : Prop := {
  fr_agrees : agrees (unset p F) s2;
  fr_room : exists n, fetch (f_code F) p = Some (CInt32 n);
  fr_fin : dead_code_ s2 = false -> code_is (unset p F) (emit_offset s2) fin_code;
  fr_handler : linked_at s2 global -> code_is (unset p F) (f_addr F global) handler_code }.

Lemma framed_ok fin handler room global fin_code handler_code nvars s0 s1 s2 a s' :
  grown s0 s1 (enter_code nvars) 0 -> wf s0 -> dead_code_ s0 = false -> current_trap_range_ s0 = None -> (forall l, ~ linked_at s0 l) ->
  static 0 (fun l => l = global) s1 s2 -> cc_set_ s2 = false -> unbound s2 global ->
  closing fin handler room global (emit_offset s1 - 4) s2 = Ok (a, s') -> emits fin fin_code -> emits handler handler_code ->
  settled s' /\ emit_offset s1 <= emit_offset s' /\ forall F, agrees F s' -> framed fin_code handler_code F (emit_offset s1 - 4) global s1 s2.
Proof.
  intros G Hw0 Hd0 Hcur Hun S2 C2 U2 H Hfin Hhan. pose proof (grown_static 0%nat (fun l => l = global) _ _ _ _ G Hw0) as S1. pose proof (static_wf _ _ _ _ S2) as Hw2. pose proof (grown_len _ _ _ _ G Hd0) as Hlen.
  change (Z.of_nat (length (enter_code nvars))) with 9 in Hlen. set (p := emit_offset s1 - 4) in *.
  destruct (closing_ok _ _ _ _ _ fin_code handler_code s2 a s' H Hfin Hhan Hw2 U2) as (s5 & n & S5 & L5 & Q5 & -> & Hend & Hh). pose proof (static_wf _ _ _ _ S5) as Hw5.
  assert (static 0 (fun l => l = global) s0 s5) as S05 by (apply (static_trans _ _ _ s1); [done|]; apply (static_trans _ _ _ s2); [done|by apply (static_weaken 0 _ no_label)]).
  assert (forall l, ~ linked_at s5 l) as Hl5. { intros l Hl. destruct (st_links _ _ _ _ S05 l Hl) as [Hl0| ->]; [by apply (Hun l)|done]. }
  assert (current_trap_range_ s5 = None) as Hc5 by (by rewrite (static_current _ _ _ _ S05)).
  assert (code_ s5 !! Z.to_nat p = Some (CInt32 0)) as Ep.
  { pose proof (final_agrees s5 Hw5 Hl5 Hc5) as Ha5. pose proof (static_agrees _ _ _ _ _ S5 Ha5) as Ha2. pose proof (static_agrees _ _ _ _ _ S2 Ha2) as Ha1.
    pose proof (grown_code _ _ _ _ (final_of s5) G Hw0 Hd0 Ha1 5%nat (CInt32 0) eq_refl) as E. unfold fetch in E. replace (emit_offset s0 + Z.of_nat 5) with p in E by lia.
    destruct (p <? 0); [done|exact E]. }
  assert (emit_offset (set_code (<[Z.to_nat p := CInt32 n]> (code_ s5)) s5) = emit_offset s5) as Eo by (unfold emit_offset; cbn; by rewrite length_insert).
  split; [split|split; [|]].
  - apply set_code_wf; [by rewrite length_insert|done].
  - cbn. congruence.
  - done.
  - exact Hl5.
  - rewrite Eo. pose proof (so_len _ _ _ (st_step _ _ _ _ S2)). pose proof (so_len _ _ _ (st_step _ _ _ _ S5)). lia.
  - intros F Ha. pose proof (unset_agrees s5 p n F Ep Hl5 Ha) as Ha5. pose proof (static_agrees _ _ _ _ _ S5 Ha5) as Ha2. split; [done| |by intros Hd; apply Hend|by intros Hl; apply (Hh Hl (unset p F))].
    exists n. unfold fetch. rewrite (proj2 (Z.ltb_ge _ _)) by (unfold emit_offset in Hlen; subst p; unfold emit_offset; lia). apply (a_code _ _ Ha); [apply list_lookup_insert_eq; by apply lookup_lt_Some in Ep|].
    intros (l & b & Eb & Hf). apply (Hl5 l). exists b. split; [done|]. apply is_linked_iff. by left; eexists.
Qed.

(** The end, reached when the body does not return. *)
Definition end_code (has_result leave : bool) (missing : string) (frame_size : Z) : list cell :=
  if has_result then COp stop :: CMsg missing :: replicate 7 CPad
  else if leave then [COp terminate] else [COp ret; CInt16 (s16 (frame_size / 8)); CPad].


(** What the generator does to its state does not depend on any run: there is one
    without code. *)
Lemma trivial_context : context_ok (MkCode [] [] []) (MkFinal [] [] (fun _ => 0)) [SStatic 0; SStatic 0; SStatic 0] [(0%nat, 0%nat)] 0.
Proof.
  split.
  - by repeat split.
  - intros p y E. unfold fetch in E. cbn in E. by destruct (p <? 0).
  - split; [by intros b n [= <- <-]|by intros [|i]|by intros [|i] b n [= <- <-]].
  - by exists 0%nat.
  - cbn. lia.
  - intros [|i] b n [= <- <-]. cbn. lia.
Qed.

Lemma Execute_static fn global frame_size x ex s a s' :
  stat_ok x = true -> Execute false (Some fn) (Some global) frame_size x ex s = Ok (a, s') -> wf s -> cc_set_ s = false -> below global ex s ->
  static (length (labels_ s)) (outer global ex) s s' /\ height_ s' = height_ s /\ cc_set_ s' = false.
Proof.
  intros Hok H Hw Hcc Hbe. destruct (Execute_ok _ 0 (Proc_New false) _ fn _ _ _ trivial_context global frame_size x Hok 0%nat ex s a s' H Hw Hcc Hbe) as (S & K & C & _). done.
Qed.

Section Parts.
Context (fn : Function) (entry : nat) (locals_size frame_size : Z) (has_result leave : bool) (missing : string) (body : Statement).

Abbreviation generate := (GenerateFunction fn entry locals_size frame_size has_result missing body leave).
Abbreviation enter_here := (enter_code (locals_size / 8)).
Abbreviation end_here := (end_code has_result leave missing frame_size).

Definition function_fin : M unit :=
  if has_result then if leave then lift Fatal else emit_op stop;; emit_msg missing
  else if leave then emit_op terminate
  else emit_op ret;; emit_int16 (frame_size / 8).

Lemma function_fin_emits : emits function_fin end_here.
Proof.
  intros s a s' H. unfold function_fin, end_code in *. destruct has_result, leave; [done| | |].
  - apply M_bind_inv in H as (u2 & s2 & H2 & H1). apply emit_op_grown in H2. apply emit_cells_grown in H1. eexists. exact (grown_trans _ _ _ _ _ _ _ H2 H1).
  - apply emit_op_grown in H. eexists. exact H.
  - apply M_bind_inv in H as (u2 & s2 & H2 & H1). apply emit_op_grown in H2. apply emit_cells_grown in H1. eexists. exact (grown_trans _ _ _ _ _ _ _ H2 H1).
Qed.

Lemma op_emits op : emits (emit_op op) [COp op].
Proof. intros s a s' H. apply emit_op_grown in H. by eexists. Qed.

(** The finished code of the function: [F] has it with what follows, up to the
    operand of [enter] at [p]. *)
Record parts (F : Final) (p : Z) (global : nat) (s1 s2 : CodeGen) : Prop := {
  pt_framed : framed end_here [COp retU] F p global s1 s2;
  pt_enter : code_is (unset p F) (f_addr F entry) enter_here;
  pt_start : wf s1 /\ cc_set_ s1 = false /\ dead_code_ s1 = false /\ height_ s1 = 0 /\ below global [] s1;
  pt_unbound : unbound s1 global;
  pt_addr : 0 <= f_addr F entry /\ emit_offset s1 = f_addr F entry + 9 /\ p = f_addr F entry + 5;
  pt_body : exists a, Execute false (Some fn) (Some global) frame_size body [] s1 = Ok (a, s2) }.

Lemma function_parts s a s' :
  generate s = Ok (a, s') -> stat_ok body = true -> settled s -> unbound s entry ->
  settled s' /\ emit_offset s <= emit_offset s' /\
  exists p global s1 s2, emit_offset s <= p < emit_offset s' /\ forall F, agrees F s' -> parts F p global s1 s2 /\ agrees (unset p F) s.
Proof.
  intros H Hok [Hw Hcc Hcur Hun] Hu. unfold GenerateFunction in H. apply M_bind_inv in H as (u0 & sz & H0 & H). cbv [start_function modify] in H0. injection H0 as _ <-.
  match goal with H : (NewLabel ≫= _) ?x = _ |- _ => set (s0 := x) in * end.
  assert (static (length (labels_ s)) no_label s s0) as S0 by (by apply same_static). pose proof (static_wf _ _ _ _ S0) as Hw0.
  apply M_bind_inv in H as (global & sa & Ha & H). apply (NewLabel_fresh s0 global sa) in Ha; [|done]. pose proof (fresh_wf _ _ _ Ha) as Hwa. pose proof (fr_same _ _ _ Ha) as (A1 & A2 & A3 & A4 & _).
  pose proof (fr_index _ _ _ Ha) as Ig. pose proof (fr_labels _ _ _ Ha) as Ng. pose proof (unbound_lt _ _ Hu) as Le. cbn in Ig, Ng, A1, A2, A3.
  apply M_bind_inv in H as (ub & sb & Hb & H). pose proof (Bind_ok entry _ _ _ Hb Hwa ltac:(apply (static_unbound _ _ _ _ _ (fr_static _ _ _ Ha)); [done|exact Hu])) as Hbd.
  destruct (bd_same _ _ _ Hbd) as (B1 & B2 & B3 & B4). pose proof (bound_wf _ _ _ Hbd) as Hwb. pose proof (bd_labels _ _ _ Hbd) as Nb.
  destruct (opening_ok (fun o => Execute false (Some fn) (Some global) frame_size body [];; closing function_fin (emit_op retU) (fun h => if leave then Z.max h 20 else h) global o) (locals_size / 8) sb a s' H B4)
    as (s1 & G & H'). clear H. pose proof G as [(L1 & _) _ D E K]. pose proof (grown_len _ _ _ _ G B4) as Hlen. change (Z.of_nat (length enter_here)) with 9 in Hlen.
  assert (static 0 no_label s sb) as Ssb.
  { apply (static_trans _ _ _ s0); [by apply (static_down _ _ _ _ _ S0); lia|]. apply (static_trans _ _ _ sa); [apply (static_down _ _ _ _ _ (fr_static _ _ _ Ha)); lia|]. by apply (Bind_static _ _ entry); [|lia]. }
  pose proof (grown_static 0%nat no_label _ _ _ _ G Hwb) as Sb1. pose proof (static_wf _ _ _ _ Sb1) as Hw1.
  assert (below global [] s1) as Hbe. { intros l [(x & Hx & _)| ->]; [by apply elem_of_nil in Hx|]. rewrite L1, Nb, Ng. lia. }
  assert (unbound s1 global) as U1. { destruct (bd_unbound _ _ _ Hbd global ltac:(lia) (fr_unbound _ _ _ Ha)) as (b & Eb & Hb'). exists b. by rewrite L1. }
  apply M_bind_inv in H' as (u2 & s2 & H2 & H). destruct (Execute_static fn global frame_size body [] s1 u2 s2 Hok H2 Hw1 ltac:(congruence) Hbe) as (S2 & K2 & C2).
  assert (forall l, ~ linked_at sb l) as Hunb. { intros l Hl. destruct (st_links _ _ _ _ Ssb l Hl) as [Hl0|[]]. by apply (Hun l). }
  assert (static 0 (fun l => l = global) s1 s2) as S12.
  { apply (static_weaken (length (labels_ s1)) _ (outer global [])); [lia|intros l [(x & Hx & _)| ->]; [by apply elem_of_nil in Hx|done]|done]. }
  destruct (framed_ok function_fin (emit_op retU) (fun h => if leave then Z.max h 20 else h) global end_here [COp retU] _ sb s1 s2 a s' G Hwb B4 ltac:(by rewrite (static_current _ _ _ _ Ssb)) Hunb S12 C2
    ltac:(apply (static_unbound _ _ _ _ _ S2); [apply Hbe; by right|done]) H function_fin_emits (op_emits retU)) as (Hse & Hle & Hfr).
  pose proof (so_len _ _ _ (st_step _ _ _ _ Ssb)) as Hsb. split; [done|]. split; [lia|]. exists (emit_offset s1 - 4), global, s1, s2. split; [lia|]. intros F HaF. specialize (Hfr F HaF). pose proof Hfr as [Ha2 _ _ _].
  pose proof (static_agrees _ _ _ _ _ S2 Ha2) as Ha1. pose proof (static_agrees _ _ _ _ _ Sb1 Ha1) as Hab. pose proof (bd_addr _ _ _ Hbd _ Hab) as Eaddr. cbn [unset f_addr] in Eaddr. rewrite <- B1 in Eaddr.
  split; [|by apply (static_agrees _ _ _ _ _ Ssb)]. split; [done| | |done| |by exists u2].
  - rewrite Eaddr. by apply (grown_code _ _ _ _ (unset _ F) G Hwb B4).
  - split; [done|]. split; [congruence|]. split; [congruence|]. split; [|done]. rewrite K, B2, A1. done.
  - split; [rewrite Eaddr; unfold emit_offset; lia|]. rewrite Eaddr. lia.
Qed.
End Parts.

(** ** Calls *)

(** The room on the stack that [enter] at a position asks for: the variables, the
    operands and the links of the frame. *)
Definition stack_need (c : Code) (p : Z) : Z :=
  match int32_at (base_ c) (p + 1), int32_at (base_ c) (p + 5) with Ok (nvars, _), Ok (nexprs, _) => nvars + nexprs + 3 | _, _ => 0 end.

(** The stack behind [enter]: the links, and the variables, undefined, next to the
    arguments. *)
Definition entered_stack (m : state) (nvars : nat) : stack :=
  [SDynamic (fp_ m); SStatic (bp_ m); SReturn (return_pc_ m)] ++ replicate nvars (SVal None) ++ stack_ m.
Definition entered_fp (m : state) (nvars : nat) : nat := (nvars + length (stack_ m))%nat.

Lemma run_enter c limit proc m nvars (nexprs : Z) :
  fetch (base_ c) (pc_ m) = Some (COp enter) -> fetch (base_ c) (pc_ m + 1) = Some (CInt32 (Z.of_nat nvars)) -> fetch (base_ c) (pc_ m + 5) = Some (CInt32 nexprs) ->
  failed_ m = false -> trap_info_ m = None ->
  (Z.of_nat (length (stack_ m)) + stack_need c (pc_ m) <= Z.of_nat limit ->
   transition c limit proc m = Ok (SUSPENDED (here (entered_fp m nvars) (pc_ m + 9) (cc_ m) [] (entered_stack m nvars) (seen_undef_ m, undef_cnt_ m))))
  /\ (Z.of_nat limit < Z.of_nat (length (stack_ m)) + stack_need c (pc_ m) ->
   transition c limit proc m = Ok (FAILED (with_info (Some StackOverflow) (set_error (with_pc (pc_ m + 9) m))))).
Proof.
  intros E1 E2 E3 Hf Hi. unfold stack_need, int32_at. rewrite E2, E3. unfold transition, step. rewrite E1. cbn [exec]. unfold exec_enter, int32_at. cbn [pc_ with_pc]. rewrite E2.
  cbn [mbind res_bind]. replace (pc_ m + 1 + 4) with (pc_ m + 5) by lia. rewrite E3. cbn [mbind res_bind]. replace (pc_ m + 5 + 4) with (pc_ m + 9) by lia. cbn [stack_ with_pc].
  split; intros H.
  - rewrite (proj2 (Z.ltb_ge _ _)) by lia. rewrite Nat2Z.id. unfold push_frame, brk, here, entered_stack, entered_fp. cbn. destruct m. cbn in *. subst. by rewrite length_app, length_replicate.
  - rewrite (proj2 (Z.ltb_lt _ _)) by lia. done.
Qed.

Section Call.
Context (c : Code) (limit : nat) (proc : Proc) (m : state) (nvars n : nat) (outer_chain : list (nat * nat)).

(** The frame of the call, with [nvars] variables and the parameters: [n] in all. *)
Abbreviation B0 := (entered_stack m nvars).
Abbreviation fp := (entered_fp m nvars).
Abbreviation chain := ((fp, n) :: outer_chain).
Hypothesis Hchain : chain_ok B0 chain.

Lemma entered_length : length B0 = (fp + 3)%nat.
Proof. unfold entered_stack, entered_fp. rewrite !length_app, length_replicate. cbn. lia. Qed.

(** The links stay what they were. *)
Lemma frame_links P B e :
  match_env B0 chain B e ->
  dynamic_link (P ++ B) fp = Ok (fp_ m) /\ return_pc_of (P ++ B) fp = Ok (return_pc_ m) /\ length B = (fp + 3)%nat.
Proof.
  intros Hm. pose proof (me_len _ _ _ _ Hm) as Hl. rewrite entered_length in Hl.
  assert (forall k x, (1 <= k <= 3)%nat -> slot_at B0 (fp + k) = Some x -> slot_at (P ++ B) (fp + k) = Some x) as Hs.
  { intros k x Hk E. rewrite slot_at_app by lia. rewrite (me_rest _ _ _ _ Hm); [done|]. by apply (link_not_owned B0 chain 0 fp n k Hchain). }
  assert (forall k, (1 <= k <= 3)%nat -> slot_at B0 (fp + k) = B0 !! (3 - k)%nat) as Hat.
  { intros k Hk. unfold slot_at, slot_index. rewrite entered_length, (proj2 (Nat.leb_le _ _)), (proj2 (Nat.leb_le _ _)) by lia. cbn [andb mbind option_bind]. f_equal. lia. }
  unfold dynamic_link, return_pc_of. rewrite (Hs 3%nat (SDynamic (fp_ m))), (Hs 1%nat (SReturn (return_pc_ m))); [done|lia|by rewrite Hat by lia|lia|by rewrite Hat by lia].
Qed.

(** [ret], [retV] and [retU] in the frame. *)
Lemma frame_popped P B e k :
  match_env B0 chain B e -> (k <= n)%nat -> pop_frame (P ++ B) fp (Z.of_nat k) = Ok (drop (length P + 3 + k) (P ++ B), fp_ m, return_pc_ m).
Proof.
  intros Hm Hk. destruct (frame_links P B e Hm) as (Hd & Hr & Hl). unfold pop_frame. rewrite Hr, Hd. cbn [mbind res_bind]. pose proof (ch_size _ _ Hchain 0%nat fp n eq_refl) as Hn.
  rewrite (proj2 (Z.leb_le 0 _)), (proj2 (Z.leb_le _ _)), (proj2 (Nat.leb_le _ _)) by (rewrite ?length_app; lia). cbn [andb]. f_equal. f_equal. f_equal.
  rewrite length_app, Hl, Nat2Z.id. f_equal. lia.
Qed.

(** The call is over: the result is on the stack of the caller, without the frame
    and the arguments. *)
Definition returned (v : option Val) (e : env) : Prop :=
  exists m1 m2 B, reach c limit proc m m1 /\ match_env B0 chain B e /\ fp_ m2 = fp_ m
    /\ stack_ m2 = match v with Some v => [SVal (Some v)] | None => [] end ++ drop (3 + n) B
    /\ match return_pc_ m with
       | None => transition c limit proc m1 = Ok (TERMINATED m2)
       | Some pc => transition c limit proc m1 = Ok (SUSPENDED m2) /\ pc_ m2 = pc
       end.

Lemma run_ret v e p cc B u :
  reach c limit proc m (here fp p cc match v with Some v => [SVal (Some v)] | None => [] end B u) -> has c p [COp (match v with Some _ => retV | None => ret end); CInt16 (Z.of_nat n)] ->
  match_env B0 chain B e -> returned v e.
Proof.
  intros Hr Hh Hm. pose proof (frame_popped [] B e n Hm (le_n _)) as Hp. cbn [app length Nat.add] in Hp. pose proof (has_next _ _ _ _ _ Hh) as E2.
  assert (exists m2, step (base_ c) limit (here fp p cc match v with Some v => [SVal (Some v)] | None => [] end B u) = Ok match return_pc_ m with None => Done m2 | Some pc => Next m2 end
    /\ fp_ m2 = fp_ m /\ stack_ m2 = match v with Some v => [SVal (Some v)] | None => [] end ++ drop (3 + n) B /\ forall pc, return_pc_ m = Some pc -> pc_ m2 = pc) as (m2 & Hs & H1 & H2 & H3).
  { destruct v as [v|]; [rewrite (step_op c limit _ retV) by (by apply has_head in Hh)|rewrite (step_op c limit _ ret) by (by apply has_head in Hh)]; cbn [exec exec_ret stack_ with_pc here pop app mbind res_bind]; unfold int16_at; cbn [pc_ with_pc here];
      rewrite E2; cbn [mbind res_bind fp_ with_pc here]; rewrite Hp; cbn [mbind res_bind]; destruct (return_pc_ m) as [pc|]; eexists; (split; [reflexivity|]); (split; [reflexivity|]); (split; [reflexivity|]);
      intros ? [=]; by subst. }
  exists (here fp p cc match v with Some v => [SVal (Some v)] | None => [] end B u), m2, B. repeat (split; [done|]). unfold transition. rewrite Hs. destruct (return_pc_ m) as [pc|]; cbn [mbind res_bind]; [|done].
  split; [done|by apply H3].
Qed.

(** A trap in the caller, at the instruction of the call. *)
Definition trapped_caller (e : env) : Prop :=
  forall pc, return_pc_ m = Some pc ->
  exists m1 m2 B, reach c limit proc m m1 /\ match_env B0 chain B e /\ step (base_ c) limit m1 = Ok (Trap m2)
    /\ fp_ m2 = fp_ m /\ pc_ m2 = pc /\ stack_ m2 = drop 3 B /\ trap_info_ m2 = None.

Lemma run_retU e p cc B u : reach c limit proc m (here fp p cc [] B u) -> has c p [COp retU] -> match_env B0 chain B e -> trapped_caller e.
Proof.
  intros Hr Hh Hm pc Epc. pose proof (frame_popped [] B e 0%nat Hm ltac:(lia)) as Hp. cbn [app length Nat.add] in Hp.
  eexists _, _, B. split; [exact Hr|]. split; [done|]. rewrite (step_op c limit _ retU) by (by apply has_head in Hh). cbn [exec exec_ret stack_ with_pc here app fp_].
  change 0 with (Z.of_nat 0). rewrite Hp, Epc. cbn [mbind res_bind]. split; [reflexivity|done].
Qed.

(** What a call comes to, given the outcome of the body. *)
Definition call_out (has_result leave : bool) (missing : string) (r : result) : Prop :=
  match r with
  | RNormal e =>
      if has_result then
        exists m1 m2, reach c limit proc m m1 /\ transition c limit proc m1 = Ok (FAILED m2) /\ trap_info_ m2 = Some (Stopped missing)
          /\ fp_ m2 = fp /\ match_env B0 chain (stack_ m2) e
      else if leave then exists m1 m2, reach c limit proc m m1 /\ transition c limit proc m1 = Ok (TERMINATED m2) /\ fp_ m2 = fp /\ match_env B0 chain (stack_ m2) e
      else returned None e
  | RReturn v e => returned v e
  | RReturnUndef e => trapped_caller e
  | RFailed e => failed_with c limit proc B0 chain fp m e
  | RBreak _ _ | RContinue _ _ => False
  | RStuck | RFuel => True
  end.
End Call.

(** The only frame: the arguments are next to the variables. *)
Lemma single_frame m nvars args rest :
  stack_ m = map SVal args ++ rest ->
  let chain := [(entered_fp m nvars, nvars + length args)%nat] in
  chain_ok (entered_stack m nvars) chain /\ match_env (entered_stack m nvars) chain (entered_stack m nvars) [replicate nvars None ++ args].
Proof.
  intros Hs chain. assert (entered_stack m nvars = [SDynamic (fp_ m); SStatic (bp_ m); SReturn (return_pc_ m)] ++ map SVal (replicate nvars None ++ args) ++ rest) as Est.
  { unfold entered_stack. rewrite Hs, map_app. change (map SVal (replicate nvars None)) with (SVal <$> replicate nvars (@None Val)). rewrite fmap_replicate. by rewrite <- app_assoc. }
  assert (entered_fp m nvars = nvars + (length args + length rest))%nat as Efp by (unfold entered_fp; by rewrite Hs, length_app, length_map).
  pose proof (entered_length m nvars) as Hlen. split.
  - split; [by intros b k [= <- <-]|by intros [|i]|]. intros [|i] b k; [|done]. intros [= <- <-]. lia.
  - split; [done|done| |done]. intros [|i] b k fr; [|done]. intros [= <- <-] [= <-]. split; [by rewrite length_app, length_replicate|]. intros j v Hj.
    pose proof (lookup_lt_Some _ _ _ Hj) as Hl. rewrite length_app, length_replicate in Hl. unfold slot_at, slot_index. rewrite Hlen, (proj2 (Nat.leb_le _ _)), (proj2 (Nat.leb_le _ _)) by lia. cbn [andb mbind option_bind].
    rewrite Est, lookup_app_r by (cbn [length]; lia). cbn [length]. replace (entered_fp m nvars + 3 - (entered_fp m nvars - j) - 3)%nat with j by lia.
    rewrite lookup_app_l by (rewrite length_map, length_app, length_replicate; lia). by rewrite list_lookup_fmap, Hj.
Qed.

(** ** The theorem *)

(** The process has the code [F], up to operands of [enter] behind position [N]. *)
Record loaded (c : Code) (F : Final) (N : Z) : Prop := {
  ld_ranges : ranges_of c F;
  ld_code : forall p x, fetch (f_code F) p = Some x -> (forall n, x <> CInt32 n) -> fetch (base_ c) p = Some x;
  ld_exact : forall p, p < N -> fetch (base_ c) p = fetch (f_code F) p }.

Lemma final_loaded s N : wf s -> loaded (Code_New s) (final_of s) N.
Proof. intros Hw. split; [|done|done]. unfold ranges_of, Code_New. cbn. split; [done|]. split; [apply Sort_sorted|]; apply (w_sorted _ (wf_t _ Hw)). Qed.

Lemma unset_fetch F p q : 0 <= p -> p <> q -> fetch (f_code (unset p F)) q = fetch (f_code F) q.
Proof.
  intros Hp Hne. unfold fetch. destruct (q <? 0) eqn:Eq; [done|]. apply Z.ltb_ge in Eq. cbn [unset f_code]. apply list_lookup_insert_ne. lia.
Qed.

Lemma fetch_nonneg l p x : fetch l p = Some x -> 0 <= p.
Proof. unfold fetch. destruct (p <? 0) eqn:E; [done|]. intros _. by apply Z.ltb_ge in E. Qed.

Lemma unset_loaded c F N p k N' : loaded c F N -> fetch (f_code F) p = Some (CInt32 k) -> N' <= N -> N' <= p -> loaded c (unset p F) N'.
Proof.
  intros [Hr Hc He] E HN Hp. pose proof (fetch_nonneg _ _ _ E) as H0. split; [exact Hr| |].
  - intros q x Eq Hx. destruct (decide (p = q)) as [<-|Hne]; [|apply Hc; [by rewrite <- (unset_fetch F p q H0 Hne)|done]].
    exfalso. unfold fetch in *. rewrite (proj2 (Z.ltb_ge _ _) H0) in *. cbn [unset f_code] in Eq. rewrite list_lookup_insert_eq in Eq by (by apply lookup_lt_Some in E). injection Eq as <-. by destruct (Hx 0).
  - intros q Hq. rewrite (unset_fetch F p q) by lia. apply He. lia.
Qed.

(** A run with the frames of a chain, on the code of a body. *)
Lemma framed_context fin_code handler_code c F N p global s1 s2 B0 chain fp :
  framed fin_code handler_code F p global s1 s2 -> loaded c F N ->
  chain_ok B0 chain -> (exists k, chain !! 0%nat = Some (fp, k)) -> (length chain <= 256)%nat -> (forall i b k, chain !! i = Some (b, k) -> Z.of_nat k <= 2 ^ 15) ->
  context_ok c (unset p F) B0 chain fp.
Proof.
  intros Hf Hl. destruct (fr_room _ _ _ _ _ _ _ Hf) as (k & Ek). destruct (unset_loaded c F N p k (Z.min N p) Hl Ek) as [H1 H2 _]; [lia|lia|]. by split.
Qed.

Section Correct.
Context (fn : Function) (limit : nat) (proc : Proc) (nvars nparams : nat) (has_result leave : bool) (missing : string) (body : Statement).
Abbreviation n := (nvars + nparams)%nat.
Abbreviation locals_size := (8 * Z.of_nat nvars).
Abbreviation frame_size := (8 * Z.of_nat n).

Hypothesis Hsize : Z.of_nat n < 2 ^ 15.

Lemma sizes_ok : s32 (locals_size / 8) = Z.of_nat nvars /\ s16 (frame_size / 8) = Z.of_nat n.
Proof.
  rewrite !(Z.mul_comm 8), !Z.div_mul by done. unfold s32, s16. split.
  - rewrite Z.mod_small by lia. lia.
  - rewrite Z.mod_small by lia. lia.
Qed.

Lemma parts_enter entry c F N p global s1 s2 :
  parts fn entry locals_size frame_size has_result leave missing body F p global s1 s2 -> loaded c F N -> p < N ->
  exists k, fetch (base_ c) (f_addr F entry) = Some (COp enter) /\ fetch (base_ c) (f_addr F entry + 1) = Some (CInt32 (Z.of_nat nvars))
    /\ fetch (base_ c) (f_addr F entry + 5) = Some (CInt32 k).
Proof.
  intros [Hf Hen _ _ (Hp0 & _ & ->) _] Hl HN. destruct (fr_room _ _ _ _ _ _ _ Hf) as (k & Ek). exists k. pose proof (Hen 0%nat _ eq_refl) as E0. pose proof (Hen 1%nat _ eq_refl) as E1.
  destruct sizes_ok as (Hn & _). rewrite Hn in E1. change (Z.of_nat 0) with 0 in E0. change (Z.of_nat 1) with 1 in E1. rewrite Z.add_0_r in E0.
  rewrite unset_fetch in E0 by lia. rewrite unset_fetch in E1 by lia. rewrite !(ld_exact _ _ _ Hl) by lia. done.
Qed.

(** From the entry of the function, given its parts. *)
Lemma parts_correct entry c F N p global s1 s2 m outer_chain e fuel :
  parts fn entry locals_size frame_size has_result leave missing body F p global s1 s2 -> loaded c F N -> p < N -> stat_ok body = true ->
  pc_ m = f_addr F entry -> failed_ m = false -> trap_info_ m = None -> Z.of_nat (length (stack_ m)) + stack_need c (pc_ m) <= Z.of_nat limit ->
  chain_ok (entered_stack m nvars) ((entered_fp m nvars, n) :: outer_chain) -> match_env (entered_stack m nvars) ((entered_fp m nvars, n) :: outer_chain) (entered_stack m nvars) e ->
  (length outer_chain < 256)%nat -> (forall i b k, outer_chain !! i = Some (b, k) -> Z.of_nat k <= 2 ^ 15) ->
  call_out c limit proc m nvars n outer_chain has_result leave missing (execute fn (ignores_undefs proc) fuel e body).
Proof.
  intros Hp Hld HN Hok Epc Hf Hi Hroom Hch Hme Hd Hs. set (chain := (entered_fp m nvars, n) :: outer_chain) in *. set (fp := entered_fp m nvars) in *.
  assert (context_ok c (unset p F) (entered_stack m nvars) chain fp) as Hcx.
  { apply (framed_context _ _ c F N p global s1 s2 _ _ _ (pt_framed _ _ _ _ _ _ _ _ _ _ _ _ _ Hp) Hld Hch); [by exists n|cbn; lia|]. intros [|i] b k E; [injection E as <- <-; lia|by apply (Hs i b)]. }
  destruct (parts_enter _ _ _ _ _ _ _ _ Hp Hld HN) as (k & E1 & E2 & E3). rewrite <- Epc in E1, E2, E3. destruct (run_enter c limit proc m nvars k E1 E2 E3 Hf Hi) as (Hent & _). specialize (Hent Hroom).
  destruct Hp as [[Ha2 _ Hend Hh] Hen (Hw1 & C1 & D1 & K1 & Hbe) U1 (Hp0 & Hadd & _) (u2 & H2)]. rewrite Epc, <- Hadd in Hent. set (m0 := here fp (emit_offset s1) (cc_ m) [] (entered_stack m nvars) (seen_undef_ m, undef_cnt_ m)) in *.
  assert (reach c limit proc m m0) as R0 by (by apply rtc_once).
  destruct (Execute_ok c limit proc (unset p F) fn (entered_stack m nvars) chain fp Hcx global frame_size body Hok fuel [] s1 u2 s2 H2 Hw1 C1 Hbe) as (S2 & K2 & C2 & Dyn).
  specialize (Dyn (entered_stack m nvars) e (seen_undef_ m, undef_cnt_ m) (cc_ m) Ha2 D1 K1 Hme). fold m0 in Dyn. unfold call_out. fold fp chain.
  pose proof (fun x => reach_trans c limit proc m m0 x R0) as Rt. destruct sizes_ok as (_ & Hn16).
  destruct (execute fn (ignores_undefs proc) fuel e body) as [e1|k1 e1|k1 e1|v e1|e1|e1| |]; cbn [stat_out] in Dyn; try done.
  - destruct Dyn as (Hd2 & cc & B & u & R & Hm1). specialize (Hend Hd2). apply (code_has c (unset p F) (entered_stack m nvars) chain fp Hcx) in Hend; [|by destruct has_result, leave].
    unfold end_code in Hend. destruct has_result; [|destruct leave].
    + pose proof (has_next _ _ _ _ _ Hend) as Em. eexists _, _. split; [exact (Rt _ R)|]. unfold transition. rewrite (step_op c limit _ stop) by (by apply has_head in Hend). cbn [exec pc_ with_pc here].
      unfold msg_at. rewrite Em. cbn [mbind res_bind trap set_error with_info failed_]. split; [reflexivity|done].
    + eexists _, _. split; [exact (Rt _ R)|]. unfold transition. rewrite (step_op c limit _ terminate) by (by apply has_head in Hend). split; [reflexivity|done].
    + rewrite Hn16 in Hend. apply (run_ret c limit proc m nvars n outer_chain Hch None e1 (emit_offset s2) cc B u); [exact (Rt _ R)| |done]. by apply (has_app c _ [_; _] [CPad]) in Hend as (Hend & _).
  - by destruct Dyn as (x & cc & B & u & E & _).
  - by destruct Dyn as (x & l & cc & B & u & E & _).
  - destruct Dyn as (q & cc & B & u & R & Hhas & Hm1). unfold ret_code in Hhas. rewrite Hn16 in Hhas. by apply (run_ret c limit proc m nvars n outer_chain Hch v e1 q cc B u); [apply Rt| |].
  - destruct Dyn as (Hl & cc & B & u & R & Hm1). apply (run_retU c limit proc m nvars n outer_chain Hch e1 (f_addr (unset p F) global) cc B u); [exact (Rt _ R)| |done].
    apply (code_has c (unset p F) (entered_stack m nvars) chain fp Hcx); [by apply Hh, Hl|done].
  - by apply (failed_reach c limit proc (entered_stack m nvars) chain fp m m0).
Qed.
End Correct.
