(* ===== verification/InitCorrect.v ===== *)
(** * The code of the initialisation

    The generator without a function, as it initialises the statics, makes the
    same code for their expressions as in a function at level 0; only traps go
    elsewhere. The initialisation of a process computes the statics, or fails. *)
From Stdlib Require Import ZArith Lia Morphisms.
From stdpp Require Import prelude strings relations.
From S2P Require Import Prelude Forms Opcodes TaggedInts Arith Interp Nodes CodeGen CodeGenInv TrapRanges Semantics Slices Machine ExprCorrect StatCorrect FunctionCorrect.

Local Open Scope Z_scope.

(** ** The same steps of the generator *)

Definition M_eq {A} (m m' : M A) : Prop := forall s, m s = m' s.

#[export] Instance M_eq_equivalence A : Equivalence (@M_eq A).
Proof.
  split.
  - by intros m s.
  - intros m m' H s. by rewrite H.
  - intros m1 m2 m3 H1 H2 s. by rewrite H1, H2.
Qed.

#[export] Instance bind_proper A B : Proper (pointwise_relation A (@M_eq B) ==> @M_eq A ==> @M_eq B) (@mbind M _ A B).
Proof. intros f f' Hf m m' Hm s. unfold mbind, M_bind. rewrite (Hm s). destruct (m' s) as [[a s1]| |]; [apply Hf|done..]. Qed.

#[export] Instance when_proper b : Proper (M_eq ==> M_eq) (when b).
Proof. intros m m' H. by destruct b. Qed.

Lemma bind_eq {A B} (m m' : M A) (f f' : A -> M B) : M_eq m m' -> (forall a, M_eq (f a) (f' a)) -> M_eq (m ≫= f) (m' ≫= f').
Proof. intros Hm Hf. apply bind_proper; [exact Hf|exact Hm]. Qed.

#[export] Instance Load_proper lhs : Proper (pointwise_relation _ M_eq ==> M_eq) (fun visit => Load visit lhs).
Proof. intros v v' H. unfold Load. apply bind_eq; [done|]. intros t. apply bind_eq; [done|]. intros f. apply bind_eq; [done|]. intros s0. apply bind_eq; [apply H|done]. Qed.

#[export] Instance trap_handler_proper ds fn global target var silent can : Proper (M_eq ==> M_eq) (trap_handler ds fn global target var silent can).
Proof. intros m m' H. unfold trap_handler. destruct can; [|done]. apply bind_eq; [done|]. intros i. by apply bind_eq. Qed.

(** ** Expressions over statics *)

(** The function in whose place the initialisation runs. *)
Definition static_fn : Function := MkFunction 0 0 None.

Fixpoint expr_static (x : Expr) : bool :=
  match x with
  | Literal _ => true
  | VariableE d _ => is_static d
  | Binary _ _ l r => expr_static l && expr_static r
  | Def x => expr_static x
  | RuntimeGuard g x _ => expr_static g && expr_static x
  | Index _ a i => expr_static a && expr_static i
  | Selector v _ _ => expr_static v
  end.

Lemma SetBP_static d : is_static d = true -> M_eq (SetBP None (v_level d)) (SetBP (Some static_fn) (v_level d)).
Proof. unfold is_static. intros H. apply Z.eqb_eq in H. rewrite H. done. Qed.

Ltac same_steps :=
  repeat first
    [ match goal with H : forall st, M_eq _ _ |- _ => apply H end
    | match goal with |- M_eq (Load _ _) (Load _ _) => apply Load_proper; intros ? end
    | match goal with |- M_eq (LoadConditional _ _ _ _) (LoadConditional _ _ _ _) => unfold LoadConditional end
    | match goal with |- M_eq (trap_handler _ _ _ _ _ _ _ _) _ => apply trap_handler_proper end
    | match goal with |- M_eq (_ ≫= _) (_ ≫= _) => apply bind_eq; [|intros ?] end
    | reflexivity ].

Lemma Visit_static global x : expr_static x = true -> forall st, M_eq (Visit true None global x st) (Visit false (Some static_fn) global x st).
Proof.
  induction x as [v|d df|op opcode l IHl r IHr|x IH|g IHg x IHx msg|ty a IHa i IHi|v IHv slot inp]; cbn [expr_static]; intros H st; rewrite ?andb_true_iff in H.
  - done.
  - cbn [Visit]. unfold DoVariable. apply bind_eq; [by apply SetBP_static|]. intros _. done.
  - destruct H as (Hl & Hr). specialize (IHl Hl). specialize (IHr Hr). destruct op; cbn [Visit]; same_steps.
  - specialize (IH H). cbn [Visit]. apply bind_eq; [|done]. transitivity (trap_handler true None global (ftarget st) None true (CanTrap x) (Load (Visit false (Some static_fn) global x) false;; Pop)); [|done].
    apply trap_handler_proper. same_steps.
  - destruct H as (Hg & Hx). specialize (IHg Hg). specialize (IHx Hx). cbn [Visit]. same_steps.
  - destruct H as (Ha & Hi). specialize (IHa Ha). specialize (IHi Hi). cbn [Visit]. same_steps.
  - specialize (IHv H). cbn [Visit]. same_steps.
Qed.

(** ** The statics *)

(** What a static becomes: without a value the initialisation fails, also when the
    process ignores undefined values, as it does so once it is initialized only. *)
Definition init_value (e : env) (d : VarDecl) (x : Expr) : res env :=
  match assign static_fn e d None with
  | None => Fatal
  | Some _ => v ← eval static_fn e x; match assign static_fn e d (Some v) with Some e' => Ok e' | None => Fatal end
  end.

Definition init_static (e : env) (d : VarDecl) (x : Expr) : result :=
  match init_value e d x with Ok e' => RNormal e' | Fail => RFailed e | Fatal => RStuck end.

Fixpoint init_statics (e : env) (l : list (VarDecl * option Expr)) : result :=
  match l with
  | [] => RNormal e
  | (_, None) :: l => init_statics e l
  | (d, Some x) :: l => then_run (init_static e d x) (fun e => init_statics e l)
  end.

Definition statics_ok (l : list (VarDecl * option Expr)) : bool :=
  forallb (fun '(d, init) => is_static d && opt_all (fun x => expr_ok x && expr_static x) init) l.

(** The code for one static, made as if in the function. *)
Definition init_code (global : nat) (d : VarDecl) (x : Expr) : M unit :=
  exit ← NewLabel;
  trap_handler false (Some static_fn) (Some global) (Some global) None false (CanTrap x)
    (Load (Visit false (Some static_fn) (Some global) x) false;; StoreVarDecl (Some static_fn) d default_state);;
  Bind exit.

Lemma DoVarDecl_static global d x :
  is_static d = true -> expr_static x = true -> M_eq (DoVarDecl true None (Some global) d (Some x)) (init_code global d x).
Proof.
  intros Hd Hx. unfold DoVarDecl, init_code. rewrite Hd. cbn [Bool.eqb negb]. apply bind_eq; [done|]. intros exit. apply bind_eq; [|done].
  transitivity (trap_handler true None (Some global) (Some exit) None false (CanTrap x) (Load (Visit false (Some static_fn) (Some global) x) false;; StoreVarDecl (Some static_fn) d default_state)); [|done].
  apply trap_handler_proper. apply bind_eq; [apply Load_proper; intros st; by apply Visit_static|]. intros _. unfold StoreVarDecl. apply bind_eq; [by apply SetBP_static|done].
Qed.

Section Statics.
Context (c : Code) (limit : nat) (mode : bool) (F : Final) (B0 : stack) (chain : list (nat * nat)) (fp : nat).
Hypothesis Hcx : context_ok c F B0 chain fp.
Context (global : nat).

Abbreviation proc := (Proc_New mode).

Abbreviation stat_ok_ := (stat_ok_ c limit proc F B0 chain fp global 0).

Lemma stat_ok_eq m m' ex run : M_eq m m' -> stat_ok_ m' ex run -> stat_ok_ m ex run.
Proof. intros He H s a s' Hm. rewrite (He s) in Hm. exact (H s a s' Hm). Qed.

Lemma init_static_ok d x : is_static d = true -> expr_ok x = true -> expr_static x = true ->
  stat_ok_ (DoVarDecl true None (Some global) d (Some x)) [] (fun e => init_static e d x).
Proof.
  intros Hd Hx Hs. apply (stat_ok_eq _ (init_code global d x)); [by apply DoVarDecl_static|].
  refine (fatal_ok c limit proc F static_fn B0 chain fp Hcx global 0 _ (fun e => init_value e d x) (CanTrap x) [] _ _).
  - apply (simple_assign c limit proc F static_fn B0 chain fp Hcx _ (fun e => eval static_fn e x) d).
    + by apply (Load_expr_ok c limit proc F static_fn B0 chain fp Hcx (Some global)).
    + intros s1 b s2 H1. exact (access_end static_fn storeV d s1 b s2 H1).
  - intros e. unfold init_value. destruct (assign static_fn e d None) as [e0|]; [|done]. destruct (eval static_fn e x) as [v| |] eqn:E; cbn [mbind res_bind]; [by destruct (assign static_fn e d (Some v))| |done].
    intros _. by apply (CanTrap_sound static_fn e x).
Qed.

Lemma initialize_ok l : statics_ok l = true -> stat_ok_ (initialize l global) [] (fun e => init_statics e l).
Proof.
  induction l as [|[d init] l IH]; cbn [statics_ok forallb initialize init_statics]; intros H; [exact (nothing_ok c limit proc F B0 chain fp global 0 [])|].
  rewrite !andb_true_iff in H. destruct H as ((Hd & Hi) & Hl). destruct init as [x|].
  - cbn in Hi. apply andb_true_iff in Hi as (Hx & Hs). apply (seq_ok c limit proc F B0 chain fp global 0 _ _ [] _ (fun e => init_statics e l)); [by apply init_static_ok|by apply IH].
  - apply (stat_ok_eq _ (initialize l global)); [|by apply IH]. intros s. unfold DoVarDecl. by rewrite Hd.
Qed.
End Statics.

(** ** The code of the initialisation *)

Lemma initialize_static l global s a s' :
  statics_ok l = true -> initialize l global s = Ok (a, s') -> wf s -> cc_set_ s = false -> below global [] s ->
  static (length (labels_ s)) (outer global []) s s' /\ height_ s' = height_ s /\ cc_set_ s' = false.
Proof.
  intros Hok H Hw Hcc Hbe. destruct (initialize_ok _ 0 true _ _ _ _ trivial_context global l Hok s a s' H Hw Hcc Hbe) as (S & K & C & _). done.
Qed.

Definition init_failed : M unit := emit_op stop;; emit_msg "initialization failed".
Definition failed_code : list cell := COp stop :: CMsg "initialization failed" :: replicate 7 CPad.

Lemma init_failed_emits : emits init_failed failed_code.
Proof.
  intros s a s' H. unfold init_failed in H. apply M_bind_inv in H as (u2 & s2 & H2 & H1). apply emit_op_grown in H2. apply emit_cells_grown in H1. eexists. exact (grown_trans _ _ _ _ _ _ _ H2 H1).
Qed.

Section Parts.
Context (statics : list (VarDecl * option Expr)) (n : nat).
Hypothesis Hok : statics_ok statics = true.
Abbreviation enter_here := (enter_code ((8 * Z.of_nat n + 7) / 8)).

Record init_parts (start : Z) (F : Final) (p : Z) (global : nat) (s1 s2 : CodeGen) : Prop := {
  ip_framed : framed [COp terminate] failed_code F p global s1 s2;
  ip_enter : code_is (unset p F) start enter_here;
  ip_start : wf s1 /\ cc_set_ s1 = false /\ dead_code_ s1 = false /\ height_ s1 = 0 /\ below global [] s1;
  ip_unbound : unbound s1 global;
  ip_addr : 0 <= start /\ emit_offset s1 = start + 9 /\ p = start + 5;
  ip_body : exists a, initialize statics global s1 = Ok (a, s2) }.

Lemma initializers_parts s a s' :
  GenerateInitializers statics (8 * Z.of_nat n) s = Ok (a, s') -> settled s ->
  settled s' /\ exists p global s1 s2, emit_offset s <= p < emit_offset s' /\ forall F, agrees F s' -> init_parts (emit_offset s) F p global s1 s2 /\ agrees (unset p F) s.
Proof.
  intros H [Hw Hcc Hcur Hun]. unfold GenerateInitializers in H. apply M_bind_inv in H as (u0 & sz & H0 & H). cbv [start_function modify] in H0. injection H0 as _ <-.
  match goal with H : (NewLabel ≫= _) ?x = _ |- _ => set (s0 := x) in * end.
  assert (static (length (labels_ s)) no_label s s0) as S0 by (by apply same_static). pose proof (static_wf _ _ _ _ S0) as Hw0.
  apply M_bind_inv in H as (global & sa & Ha & H). apply (NewLabel_fresh s0 global sa) in Ha; [|done]. pose proof (fresh_wf _ _ _ Ha) as Hwa. pose proof (fr_same _ _ _ Ha) as (A1 & A2 & A3 & A4 & _).
  pose proof (fr_index _ _ _ Ha) as Ig. pose proof (fr_labels _ _ _ Ha) as Ng. cbn in Ig, Ng, A1, A2, A3. assert (emit_offset sa = emit_offset s) as Esa by (by rewrite A4).
  destruct (opening_ok (fun o => initialize statics global;; closing (emit_op terminate) init_failed (fun h => h) global o) ((8 * Z.of_nat n + 7) / 8) sa a s' H A3)
    as (s1 & G & H'). clear H. pose proof G as [(L1 & _) _ D E K]. pose proof (grown_len _ _ _ _ G A3) as Hlen. change (Z.of_nat (length enter_here)) with 9 in Hlen.
  assert (static 0 no_label s sa) as Ssa.
  { apply (static_trans _ _ _ s0); [by apply (static_down _ _ _ _ _ S0); lia|]. apply (static_down _ _ _ _ _ (fr_static _ _ _ Ha)); lia. }
  pose proof (grown_static 0%nat no_label _ _ _ _ G Hwa) as Sa1. pose proof (static_wf _ _ _ _ Sa1) as Hw1.
  assert (below global [] s1) as Hbe. { intros l [(x & Hx & _)| ->]; [by apply elem_of_nil in Hx|]. rewrite L1, Ng. lia. }
  assert (unbound s1 global) as U1. { destruct (fr_unbound _ _ _ Ha) as (b & Eb & Hb'). exists b. by rewrite L1. }
  apply M_bind_inv in H' as (u2 & s2 & H2 & H). destruct (initialize_static statics global s1 u2 s2 Hok H2 Hw1 ltac:(congruence) Hbe) as (S2 & K2 & C2).
  assert (forall l, ~ linked_at sa l) as Huna. { intros l Hl. destruct (st_links _ _ _ _ Ssa l Hl) as [Hl0|[]]. by apply (Hun l). }
  assert (static 0 (fun l => l = global) s1 s2) as S12.
  { apply (static_weaken (length (labels_ s1)) _ (outer global [])); [lia|intros l [(x & Hx & _)| ->]; [by apply elem_of_nil in Hx|done]|done]. }
  destruct (framed_ok (emit_op terminate) init_failed (fun h => h) global [COp terminate] failed_code _ sa s1 s2 a s' G Hwa A3 ltac:(by rewrite (static_current _ _ _ _ Ssa)) Huna S12 C2
    ltac:(apply (static_unbound _ _ _ _ _ S2); [apply Hbe; by right|done]) H (op_emits terminate) init_failed_emits) as (Hse & Hle & Hfr).
  split; [done|]. exists (emit_offset s1 - 4), global, s1, s2. split; [lia|]. intros F HaF. specialize (Hfr F HaF). pose proof Hfr as [Ha2 _ _ _].
  pose proof (static_agrees _ _ _ _ _ S2 Ha2) as Ha1. pose proof (static_agrees _ _ _ _ _ Sa1 Ha1) as Haa.
  split; [|by apply (static_agrees _ _ _ _ _ Ssa)]. split; [done| | |done| |by exists u2].
  - rewrite <- Esa. by apply (grown_code _ _ _ _ (unset _ F) G Hwa A3).
  - split; [done|]. split; [congruence|]. split; [congruence|]. split; [|done]. rewrite K, A1. done.
  - split; [unfold emit_offset; lia|]. lia.
Qed.
End Parts.

(** ** Runs of the initialisation *)

Section Run.
Context (limit : nat) (mode : bool) (statics : list (VarDecl * option Expr)) (n : nat) (start uc : Z).
Hypothesis Hn : Z.of_nat n <= 2 ^ 15.

Abbreviation proc := (Proc_New mode).
Abbreviation m := (SetupInitialization start uc).
Abbreviation B0 := (entered_stack m n).
Abbreviation chain := [(n, n)].

Lemma init_frame : chain_ok B0 chain /\ match_env B0 chain B0 [replicate n None].
Proof.
  destruct (single_frame m n [] [] eq_refl) as (Hc & Hm). rewrite app_nil_r in Hm. unfold entered_fp in Hc, Hm. cbn [SetupInitialization stack_ length] in Hc, Hm. rewrite !Nat.add_0_r in Hc, Hm. done.
Qed.

(** The frame is all that there is on the stack. *)
Lemma init_left B st : match_env B0 chain B [st] -> B = static_stack st.
Proof.
  intros Hm. pose proof (me_len _ _ _ _ Hm) as Hl. assert (length B0 = (n + 3)%nat) as Hl0 by (unfold entered_stack; rewrite !length_app, length_replicate; cbn; lia). rewrite Hl0 in Hl.
  destruct (me_vars _ _ _ _ Hm 0%nat n n st eq_refl eq_refl) as (Hs & Hv).
  assert (forall C h, length C = (n + 3)%nat -> (1 <= h <= n + 3)%nat -> slot_at C h = C !! (n + 3 - h)%nat) as Hat.
  { intros C h HC Hh. unfold slot_at, slot_index. rewrite HC, (proj2 (Nat.leb_le _ _)), (proj2 (Nat.leb_le _ _)) by lia. done. }
  apply list_eq. intros i. destruct (decide (i < 3)%nat) as [Hi|Hi].
  - assert (B !! i = B0 !! i) as ->.
    { replace i with (n + 3 - (n + (3 - i)))%nat by lia. rewrite <- (Hat B), <- (Hat B0) by lia. apply (me_rest _ _ _ _ Hm). apply (link_not_owned B0 chain 0 n n (3 - i) (proj1 init_frame)); [done|lia]. }
    unfold static_stack, entered_stack. rewrite !lookup_app_l by done. done.
  - unfold static_stack. rewrite lookup_app_r by (cbn [length]; lia). cbn [length]. rewrite list_lookup_fmap. destruct (decide (i - 3 < n)%nat) as [Hg|Hg].
    + destruct (lookup_lt_is_Some_2 st (i - 3)) as [v Ev]; [lia|]. rewrite Ev. cbn. rewrite <- (Hv _ _ Ev), (Hat B) by lia. f_equal. lia.
    + rewrite (lookup_ge_None_2 st) by lia. apply lookup_ge_None_2. lia.
Qed.

Lemma init_correct c F N p global s1 s2 :
  init_parts statics n start F p global s1 s2 -> statics_ok statics = true -> loaded c F N -> p < N -> stack_need c start <= Z.of_nat limit ->
  match init_statics [replicate n None] statics with
  | RNormal e => exists st m', e = [st] /\ length st = n /\ finishes c limit proc m (TERMINATED m') /\ fp_ m' = n /\ stack_ m' = static_stack st
  | RFailed e => exists m' st P, e = [st] /\ finishes c limit proc m (FAILED m') /\ fp_ m' = n /\ stack_ m' = P ++ static_stack st /\ stopped_undefined c m'
  | _ => True
  end.
Proof.
  intros Hp Hok Hld HN Hroom. destruct init_frame as (Hch & Hme).
  assert (context_ok c (unset p F) B0 chain n) as Hcx.
  { apply (framed_context _ _ c F N p global s1 s2 _ _ _ (ip_framed _ _ _ _ _ _ _ _ Hp) Hld Hch); [by exists n|cbn; lia|]. intros [|i] b k; [intros [= <- <-]; done|done]. }
  destruct Hp as [[Ha2 (k & Ek) Hfin Hh] Hen (Hw1 & C1 & D1 & K1 & Hbe) U1 (Hp0 & Hadd & Hpp) (u2 & H2)].
  assert (s32 ((8 * Z.of_nat n + 7) / 8) = Z.of_nat n) as Hs32.
  { rewrite (Z.mul_comm 8), Z.div_add_l by done. change (7 / 8) with 0. unfold s32. rewrite Z.add_0_r, Z.mod_small by lia. lia. }
  assert (reach c limit proc m (here n (emit_offset s1) false [] B0 (false, uc))) as R0.
  { pose proof (Hen 0%nat _ eq_refl) as E0. pose proof (Hen 1%nat _ eq_refl) as E1. rewrite Hs32 in E1. change (Z.of_nat 0) with 0 in E0. change (Z.of_nat 1) with 1 in E1. rewrite Z.add_0_r in E0.
    rewrite unset_fetch in E0 by lia. rewrite unset_fetch in E1 by lia. rewrite Hpp in Ek. rewrite <- (ld_exact _ _ _ Hld) in E0, E1, Ek by lia.
    destruct (run_enter c limit proc m n k E0 E1 Ek eq_refl eq_refl) as (Hent & _). specialize (Hent ltac:(cbn [SetupInitialization stack_ pc_ length]; lia)).
    rewrite Hadd. unfold entered_fp in Hent. cbn [SetupInitialization stack_ length pc_ cc_ seen_undef_ undef_cnt_] in Hent. rewrite Nat.add_0_r in Hent. by apply rtc_once. }
  destruct (initialize_ok c limit mode (unset p F) B0 chain n Hcx global statics Hok s1 u2 s2 H2 Hw1 C1 Hbe) as (S2 & K2 & C2 & Dyn).
  specialize (Dyn B0 [replicate n None] (false, uc) false Ha2 D1 K1 Hme). pose proof (fun x => reach_trans c limit proc m _ x R0) as Rt. assert (resume m = m) as Hres by reflexivity.
  destruct (init_statics [replicate n None] statics) as [e|k1 e|k1 e|v e|e|e| |]; cbn [stat_out] in Dyn; try done.
  - destruct Dyn as (Hd2 & cc & B & u & R & Hm1). specialize (Hfin Hd2). apply (code_has c (unset p F) B0 chain n Hcx) in Hfin; [|done].
    pose proof (me_shape _ _ _ _ Hm1) as Hlen. destruct e as [|st [|]]; try discriminate Hlen. assert (exists m', transition c limit proc (here n (emit_offset s2) cc [] B u) = Ok (TERMINATED m') /\ fp_ m' = n /\ stack_ m' = B) as (m' & Ht & Hfp & Hs).
    { eexists. unfold transition. rewrite (step_op c limit _ terminate) by (by apply has_head in Hfin). by split. }
    exists st, m'. split; [done|]. split; [exact (proj1 (me_vars _ _ _ _ Hm1 0%nat n n st eq_refl eq_refl))|]. split; [by apply (reach_finishes c limit proc m _ _ Hres (Rt _ R))|].
    split; [done|]. rewrite Hs. exact (init_left B st Hm1).
  - destruct Dyn as (m1 & m2 & P & B & R & Ht & Hs & Hfp & Hm1 & Hstop). pose proof (me_shape _ _ _ _ Hm1) as Hlen. destruct e as [|st [|]]; try discriminate Hlen. rewrite (init_left B st Hm1) in Hs.
    exists m2, st, P. split; [done|]. split; [|done]. by apply (reach_finishes c limit proc m m1 _ Hres (Rt _ R)).
Qed.
End Run.
