(* ===== verification/ProgramCorrect.v ===== *)
(** * Compiled programs

    A program is its functions and its statics. The generator makes the code of the
    functions and of the initialisation; a process initializes the statics once,
    and then runs main on every record, in time slices, with the arguments of main
    above the frame of the statics. *)
From Stdlib Require Import ZArith Lia.
From stdpp Require Import prelude strings relations.
From S2P Require Import Prelude Forms Opcodes TaggedInts Arith Interp Nodes CodeGen CodeGenInv TrapRanges Semantics Slices Machine ExprCorrect StatCorrect FunctionCorrect InitCorrect.

Local Open Scope Z_scope.

(** ** Main above the statics *)

Section Main.
Context (fn : Function) (limit : nat) (proc : Proc) (nvars : nat) (body : Statement) (missing : string).
Context (statics : frame) (input key : Val) (start : Z) (m0 : state).
Hypothesis Hm0 : stack_ m0 = static_stack statics.

Abbreviation gp := (length statics).
Abbreviation n := (nvars + 2)%nat.
Abbreviation m := (SetupRun start gp input key m0).
Abbreviation fp := (entered_fp m nvars).
Abbreviation B0 := (entered_stack m nvars).
Abbreviation chain := [(fp, n); (gp, gp)].

(** The variables when the body starts. *)
Definition main_env : env := [replicate nvars None ++ [Some input; Some key]; statics].

Lemma setup_stack : stack_ m = SVal (Some input) :: SVal (Some key) :: static_stack statics.
Proof. cbn [SetupRun stack_]. rewrite Hm0, static_length. unfold stack_of, push. by replace (3 + gp - (gp + 3))%nat with 0%nat by lia. Qed.

Lemma main_stack : B0 = [SDynamic gp; SStatic gp; SReturn None] ++ map SVal (replicate nvars None ++ [Some input; Some key]) ++ static_stack statics.
Proof. unfold entered_stack. rewrite setup_stack, map_app. change (map SVal (replicate nvars None)) with (SVal <$> replicate nvars (@None Val)). rewrite fmap_replicate. cbn. by rewrite <- app_assoc. Qed.

Lemma main_fp : fp = (nvars + 2 + 3 + gp)%nat.
Proof. unfold entered_fp. rewrite setup_stack. cbn [length]. rewrite static_length. lia. Qed.

Lemma main_length : length B0 = (fp + 3)%nat.
Proof. apply entered_length. Qed.

Lemma main_slot h : (1 <= h <= fp + 3)%nat -> slot_at B0 h = B0 !! (fp + 3 - h)%nat.
Proof. intros H. unfold slot_at, slot_index. rewrite main_length, (proj2 (Nat.leb_le _ _)), (proj2 (Nat.leb_le _ _)) by lia. done. Qed.

Lemma main_chain : chain_ok B0 chain.
Proof.
  split.
  - intros b k [= <- <-]. apply main_length.
  - intros [|[|i]] b k b' k'; [|done..]. intros [= <- <-] [= <- <-]. split; [|rewrite main_fp; lia].
    rewrite main_slot by lia. by replace (fp + 3 - (fp + 2))%nat with 1%nat by lia.
  - intros [|[|i]] b k; [intros [= <- <-]; rewrite main_fp; lia|intros [= <- <-]; lia|done].
Qed.

Lemma main_match : match_env B0 chain B0 main_env.
Proof.
  split; [done|done| |done]. intros [|[|i]] b k fr; [| |done]; intros [= <- <-] [= <-]; (split; [rewrite ?length_app, ?length_replicate; cbn [length]; lia|]); intros j v Hj; pose proof (lookup_lt_Some _ _ _ Hj) as Hl.
  - rewrite length_app, length_replicate in Hl. cbn [length] in Hl. rewrite main_slot by (rewrite main_fp; lia). rewrite main_stack, lookup_app_r by (cbn [length]; lia). cbn [length].
    replace (fp + 3 - (fp - j) - 3)%nat with j by (rewrite main_fp; lia). rewrite lookup_app_l by (rewrite length_map, length_app, length_replicate; cbn [length]; lia). by rewrite list_lookup_fmap, Hj.
  - rewrite main_slot by (rewrite main_fp; lia). rewrite main_stack, main_fp, lookup_app_r by (cbn [length]; lia). cbn [length].
    rewrite lookup_app_r by (rewrite length_map, length_app, length_replicate; cbn [length]; lia). rewrite length_map, length_app, length_replicate. cbn [length]. unfold static_stack. rewrite lookup_app_r by (cbn [length]; lia).
    cbn [length]. replace (nvars + 2 + 3 + gp + 3 - (gp - j) - 3 - (nvars + 2) - 3)%nat with j by lia. by rewrite list_lookup_fmap, Hj.
Qed.

(** What is left of the stack when the frame of main is gone. *)
Lemma main_left B l st : match_env B0 chain B [l; st] -> drop (3 + n) B = static_stack st.
Proof.
  intros Hm. pose proof (me_len _ _ _ _ Hm) as Hl. rewrite main_length in Hl. destruct (me_vars _ _ _ _ Hm 1%nat gp gp st eq_refl eq_refl) as (Hs & Hv).
  assert (forall h, (1 <= h <= fp + 3)%nat -> slot_at B h = B !! (fp + 3 - h)%nat) as Hat.
  { intros h Hh. unfold slot_at, slot_index. rewrite Hl, (proj2 (Nat.leb_le _ _)), (proj2 (Nat.leb_le _ _)) by lia. done. }
  apply list_eq. intros i. rewrite lookup_drop. destruct (decide (i < 3)%nat) as [Hi|Hi].
  - assert (B !! (3 + n + i)%nat = B0 !! (3 + n + i)%nat) as ->.
    { pose proof main_fp as Efp. replace (3 + n + i)%nat with (fp + 3 - (gp + (3 - i)))%nat by lia. rewrite <- Hat, <- main_slot by lia. apply (me_rest _ _ _ _ Hm).
      by apply (link_not_owned B0 chain 1 gp gp (3 - i) main_chain); [|lia]. }
    rewrite main_stack, !lookup_app_r; rewrite ?length_map, ?length_app, ?length_replicate; cbn [length]; [|lia..]. replace (3 + n + i - 3 - (nvars + 2))%nat with i by lia.
    unfold static_stack. by rewrite !lookup_app_l by done.
  - unfold static_stack. rewrite lookup_app_r by (cbn [length]; lia). cbn [length]. rewrite list_lookup_fmap. destruct (decide (i - 3 < gp)%nat) as [Hg|Hg].
    + destruct (lookup_lt_is_Some_2 st (i - 3)) as [v Ev]; [lia|]. rewrite Ev. cbn. rewrite <- (Hv _ _ Ev). pose proof main_fp as Efp. rewrite Hat by lia. f_equal. lia.
    + rewrite (lookup_ge_None_2 st) by lia. apply lookup_ge_None_2. rewrite Hl, main_fp. lia.
Qed.

(** The outcomes of a run of main. *)
Lemma main_correct c F N p global s1 s2 entry fuel :
  parts fn entry (8 * Z.of_nat nvars) (8 * Z.of_nat n) false false missing body F p global s1 s2 -> loaded c F N -> p < N -> stat_ok body = true ->
  Z.of_nat n < 2 ^ 15 -> Z.of_nat gp <= 2 ^ 15 -> start = f_addr F entry -> Z.of_nat (gp + 5) + stack_need c start <= Z.of_nat limit ->
  match execute fn (ignores_undefs proc) fuel main_env body with
  | RNormal e | RReturn None e => exists l st m', e = [l; st] /\ length st = gp /\ finishes c limit proc m (TERMINATED m') /\ fp_ m' = gp /\ stack_ m' = static_stack st
  | RFailed e => exists m' P B, finishes c limit proc m (FAILED m') /\ fp_ m' = fp /\ stack_ m' = P ++ B /\ match_env B0 chain B e /\ stopped_undefined c m'
  | _ => True
  end.
Proof.
  intros Hp Hld HN Hok Hn Hg Est Hroom.
  pose proof (parts_correct fn limit proc nvars 2 false false missing body Hn entry c F N p global s1 s2 m [(gp, gp)] main_env fuel Hp Hld HN Hok Est eq_refl eq_refl) as Hcall.
  rewrite setup_stack in Hcall. cbn [length] in Hcall. rewrite static_length in Hcall.
  specialize (Hcall ltac:(change (pc_ m) with start; lia) main_chain main_match ltac:(cbn; lia) ltac:(intros [|i] b k; [intros [= <- <-]; done|done])).
  assert (resume m = m) as Hres by reflexivity.
  assert (forall e, returned c limit proc m nvars n [(gp, gp)] None e ->
    exists l st m', e = [l; st] /\ length st = gp /\ finishes c limit proc m (TERMINATED m') /\ fp_ m' = gp /\ stack_ m' = static_stack st) as Hret.
  { intros e (m1 & m2 & B & R & Hme & Hfp & Hs & Ht). cbn [SetupRun return_pc_] in Ht. pose proof (me_shape _ _ _ _ Hme) as Hlen. destruct e as [|l [|st [|]]]; try discriminate Hlen.
    exists l, st, m2. split; [done|]. split; [exact (proj1 (me_vars _ _ _ _ Hme 1%nat gp gp st eq_refl eq_refl))|]. split; [by apply (reach_finishes c limit proc m m1)|]. split; [done|]. rewrite Hs. exact (main_left B l st Hme). }
  destruct (execute fn (ignores_undefs proc) fuel main_env body) as [e|k e|k e|[v|] e|e|e| |]; try done; cbn [call_out] in Hcall; [by apply Hret|by apply Hret|].
  destruct Hcall as (m1 & m2 & P & B & R & Ht & Hs & Hfp & Hme). exists m2, P, B. split; [by apply (reach_finishes c limit proc m m1)|done].
Qed.
End Main.

(** ** The functions of a program *)

Lemma generator_new : settled codegen_new.
Proof.
  split; [split|done|done|].
  - split; cbn.
    + intros l b f E. done.
    + intros l1 l2 b1 b2 f E. done.
    + intros l b i E. done.
    + intros l1 l2 b1 b2 i E. done.
  - split; cbn; try done.
    + by exists [].
  - by intros l (b & E & _).
Qed.

Lemma fresh_settled l s s1 : settled s -> fresh l s s1 -> settled s1.
Proof.
  intros [Hw Hcc Hcur Hun] Hf. pose proof (fr_same _ _ _ Hf) as (_ & C & _). split; [by apply (fresh_wf _ _ _ Hf)|congruence|by rewrite (static_current _ _ _ _ (fr_static _ _ _ Hf))|].
  intros x Hx. destruct (st_links _ _ _ _ (fr_static _ _ _ Hf) x Hx) as [H0|[]]. by apply (Hun x).
Qed.

(** The code of a function in a process: its parts, in code that the process has. *)
Definition has_function (c : Code) (addr : nat -> Z) (f : FunDef) (entry : nat) : Prop :=
  exists F N p global s1 s2,
    parts (f_function f) entry (8 * Z.of_nat (f_nvars f)) (8 * Z.of_nat (f_nvars f + f_nparams f)) (f_has_result f) false (f_missing_return f) (f_body f) F p global s1 s2
    /\ loaded c F N /\ p < N /\ f_addr F = addr.

Definition functions_ok (fs : list FunDef) : bool := forallb (fun f => stat_ok (f_body f)) fs.

Lemma function_has f s entry s' :
  generate_function f s = Ok (entry, s') -> stat_ok (f_body f) = true -> settled s ->
  settled s' /\ emit_offset s <= emit_offset s' /\
  forall c F N, agrees F s' -> loaded c F N -> emit_offset s' <= N ->
    has_function c (f_addr F) f entry /\ exists F0, agrees F0 s /\ loaded c F0 (emit_offset s) /\ f_addr F0 = f_addr F.
Proof.
  intros H Hok Hse. unfold generate_function in H. apply M_bind_inv in H as (e & s1 & H1 & H). apply (NewLabel_fresh s e s1) in H1; [|apply Hse]. pose proof (fr_same _ _ _ H1) as (_ & _ & _ & Eo & _).
  apply M_bind_inv in H as (u & s2 & H2 & H). cbv [mret M_ret] in H. injection H as -> ->.
  destruct (function_parts (f_function f) entry _ _ (f_has_result f) false (f_missing_return f) (f_body f) s1 u s' H2 Hok (fresh_settled _ _ _ Hse H1) (fr_unbound _ _ _ H1)) as (Hse' & Hle & p & global & sa & sb & Hp & Hparts).
  split; [done|]. split; [lia|]. intros c F N Ha Hld HN. destruct (Hparts F Ha) as (Hpt & Ha0). split; [exists F, N, p, global, sa, sb; split; [done|]; split; [done|]; split; [lia|done]|].
  exists (unset p F). split; [by apply (static_agrees _ _ _ _ _ (fr_static _ _ _ H1))|]. split; [|done].
  destruct (fr_room _ _ _ _ _ _ _ (pt_framed _ _ _ _ _ _ _ _ _ _ _ _ _ Hpt)) as (k & Ek). apply (unset_loaded c F N p k); [done|done|lia|lia].
Qed.

Lemma functions_have fs s entries s' :
  generate_functions fs s = Ok (entries, s') -> functions_ok fs = true -> settled s ->
  settled s' /\ emit_offset s <= emit_offset s' /\
  forall c F N, agrees F s' -> loaded c F N -> emit_offset s' <= N ->
    Forall2 (has_function c (f_addr F)) fs entries /\ exists F0, agrees F0 s /\ loaded c F0 (emit_offset s) /\ f_addr F0 = f_addr F.
Proof.
  revert s entries. induction fs as [|f fs IH]; intros s entries H Hok Hse; cbn [generate_functions] in H.
  { cbv [mret M_ret] in H. injection H as <- <-. split; [done|]. split; [lia|]. intros c F N Ha Hld HN. split; [constructor|]. exists F. split; [done|]. split; [|done].
    destruct Hld as [H1 H2 H3]. split; [done|done|]. intros p Hp. apply H3. lia. }
  cbn [functions_ok forallb] in Hok. apply andb_true_iff in Hok as (Hf & Hfs). apply M_bind_inv in H as (entry & s1 & H1 & H). apply M_bind_inv in H as (es & s2 & H2 & H). cbv [mret M_ret] in H. injection H as <- <-.
  destruct (function_has f s entry s1 H1 Hf Hse) as (Hse1 & Hle1 & Hhas). destruct (IH s1 es H2 Hfs Hse1) as (Hse2 & Hle2 & Hall). split; [done|]. split; [lia|].
  intros c F N Ha Hld HN. destruct (Hall c F N Ha Hld HN) as (Hfl & F1 & Ha1 & Hld1 & Ef1). destruct (Hhas c F1 _ Ha1 Hld1 ltac:(lia)) as (Hh & F0 & Ha0 & Hld0 & Ef0). rewrite Ef1 in Hh, Ef0.
  split; [by constructor|]. by exists F0.
Qed.

(** The whole code: its functions, and the parts of the initialisation. *)
Definition program_addr (s : CodeGen) (entry : nat) : Z := f_addr (final_of s) entry.

Lemma program_has fs statics nstatics entries init s :
  generate_program fs statics nstatics codegen_new = Ok ((entries, init), s) -> functions_ok fs = true -> statics_ok statics = true ->
  Forall2 (has_function (Code_New s) (program_addr s)) fs entries
  /\ exists F N p global s1 s2, init_parts statics nstatics init F p global s1 s2 /\ loaded (Code_New s) F N /\ p < N.
Proof.
  intros H Hf Hs. unfold generate_program in H. apply M_bind_inv in H as (es & s1 & H1 & H). apply M_bind_inv in H as (sx & sx' & H2 & H). injection H2 as <- <-.
  apply M_bind_inv in H as (u & s2 & H2 & H). cbv [mret M_ret] in H. injection H as -> <- ->.
  destruct (functions_have fs codegen_new entries s1 H1 Hf generator_new) as (Hse1 & Hle1 & Hfuns). destruct (initializers_parts statics nstatics Hs s1 u s H2 Hse1) as (Hse & p & global & sa & sb & Hp & Hinit).
  pose proof Hse as [Hw _ Hcur Hun]. pose proof (final_agrees s Hw Hun Hcur) as Ha. pose proof (final_loaded s (emit_offset s) Hw) as Hld. destruct (Hinit _ Ha) as (Hip & Ha1). split.
  - destruct (fr_room _ _ _ _ _ _ _ (ip_framed _ _ _ _ _ _ _ _ Hip)) as (k & Ek). apply (Hfuns _ _ (emit_offset s1) Ha1); [apply (unset_loaded _ _ _ p k _ Hld Ek); lia|lia].
  - exists (final_of s), (emit_offset s), p, global, sa, sb. split; [done|]. split; [done|lia].
Qed.

(** When a program has been generated, all ranges have ended and all labels are bound. *)
Lemma program_settled fs statics nstatics entries init s :
  generate_program fs statics nstatics codegen_new = Ok ((entries, init), s) -> functions_ok fs = true -> statics_ok statics = true -> settled s.
Proof.
  intros H Hf Hs. unfold generate_program in H. apply M_bind_inv in H as (es & s1 & H1 & H). apply M_bind_inv in H as (sx & sx' & H2 & H). injection H2 as <- <-.
  apply M_bind_inv in H as (u & s2 & H2 & H). cbv [mret M_ret] in H. injection H as -> <- ->.
  destruct (functions_have fs codegen_new entries s1 H1 Hf generator_new) as (Hse1 & _). apply (initializers_parts statics nstatics Hs s1 u s H2 Hse1).
Qed.

(** ** The process *)

(** What a list of records, each an input with a key, makes of the statics, when
    main comes to its end on all of them. *)
Fixpoint run_records (ignore : bool) (fuel : nat) (main : FunDef) (statics : frame) (records : list (Val * Val)) : option frame :=
  match records with
  | [] => Some statics
  | (input, key) :: records =>
      match execute (f_function main) ignore fuel (main_env (f_nvars main) statics input key) (f_body main) with
      | RNormal [_; statics] | RReturn None [_; statics] => run_records ignore fuel main statics records
      | _ => None
      end
  end.

(** Process::Run on every record, each in time slices to its end. *)
Inductive process_records (c : Code) (limit : nat) (proc : Proc) (start : Z) (gp : nat) : state -> list (Val * Val) -> state -> Prop :=
| records_none m : process_records c limit proc start gp m [] m
| records_next m input key m1 records m2 :
    finishes c limit proc (SetupRun start gp input key m) (TERMINATED m1) -> process_records c limit proc start gp m1 records m2 ->
    process_records c limit proc start gp m ((input, key) :: records) m2.

Section Process.
Context (limit : nat) (proc : Proc) (fs : list FunDef) (statics : list (VarDecl * option Expr)) (nstatics : nat).
Context (entries : list nat) (init : Z) (s : CodeGen).
Hypothesis Hprogram : generate_program fs statics nstatics codegen_new = Ok ((entries, init), s).
Hypothesis Hfs : functions_ok fs = true.
Hypothesis Hstatics : statics_ok statics = true.

Lemma program_init mode uc :
  Z.of_nat nstatics <= 2 ^ 15 -> stack_need (Code_New s) init <= Z.of_nat limit ->
  match init_statics [replicate nstatics None] statics with
  | RNormal e => exists st m', e = [st] /\ length st = nstatics /\ finishes (Code_New s) limit (Proc_New mode) (SetupInitialization init uc) (TERMINATED m') /\ fp_ m' = nstatics /\ stack_ m' = static_stack st
  | RFailed e => exists m' st P, e = [st] /\ finishes (Code_New s) limit (Proc_New mode) (SetupInitialization init uc) (FAILED m') /\ fp_ m' = nstatics /\ stack_ m' = P ++ static_stack st
      /\ stopped_undefined (Code_New s) m'
  | _ => True
  end.
Proof.
  intros Hn Hroom. destruct (program_has fs statics nstatics entries init s Hprogram Hfs Hstatics) as (_ & F & N & p & global & s1 & s2 & Hp & Hld & HN).
  by apply (init_correct limit mode statics nstatics init uc Hn (Code_New s) F N p global s1 s2).
Qed.

Lemma program_function i f entry : fs !! i = Some f -> entries !! i = Some entry -> has_function (Code_New s) (program_addr s) f entry /\ stat_ok (f_body f) = true.
Proof.
  intros Hf He. destruct (program_has fs statics nstatics entries init s Hprogram Hfs Hstatics) as (Hall & _). split; [by apply (Forall2_lookup_lr _ _ _ i f entry Hall)|].
  unfold functions_ok in Hfs. rewrite forallb_forall in Hfs. apply (Hfs f). by apply list_elem_of_In, (list_elem_of_lookup_2 _ i).
Qed.

(** Main, one of the functions. *)
Context (i : nat) (main : FunDef) (entry : nat).
Hypothesis Hmain : fs !! i = Some main /\ entries !! i = Some entry.
Hypothesis Hparams : f_nparams main = 2%nat /\ f_has_result main = false.
Hypothesis Hsizes : Z.of_nat (f_nvars main + 2) < 2 ^ 15 /\ Z.of_nat nstatics <= 2 ^ 15.

Abbreviation c := (Code_New s).
Abbreviation start := (program_addr s entry).

Lemma main_has : has_function c (program_addr s) main entry /\ stat_ok (f_body main) = true.
Proof. apply (program_function i); apply Hmain. Qed.

Lemma program_main st input key m0 fuel :
  stack_ m0 = static_stack st -> length st = nstatics -> Z.of_nat (nstatics + 5) + stack_need c start <= Z.of_nat limit ->
  let m := SetupRun start nstatics input key m0 in
  match execute (f_function main) (ignores_undefs proc) fuel (main_env (f_nvars main) st input key) (f_body main) with
  | RNormal e | RReturn None e => exists l st' m', e = [l; st'] /\ length st' = nstatics /\ finishes c limit proc m (TERMINATED m') /\ fp_ m' = nstatics /\ stack_ m' = static_stack st'
  | RFailed e => exists m' P B, finishes c limit proc m (FAILED m') /\ fp_ m' = entered_fp m (f_nvars main) /\ stack_ m' = P ++ B
      /\ match_env (entered_stack m (f_nvars main)) [(entered_fp m (f_nvars main), f_nvars main + 2); (nstatics, nstatics)]%nat B e /\ stopped_undefined c m'
  | _ => True
  end.
Proof.
  intros Hst Hl Hroom m. destruct main_has as ((F & N & p & global & s1 & s2 & Hp & Hld & HN & Ea) & Hok), Hparams as (Hn2 & Hres), Hsizes as (Hn & Hg). rewrite Hn2, Hres in Hp. subst m. rewrite <- Hl in Hroom, Hg |- *.
  apply (main_correct (f_function main) limit proc (f_nvars main) (f_body main) (f_missing_return main) st input key start m0 Hst c F N p global s1 s2 entry fuel Hp Hld HN Hok); [done|done|by rewrite <- Ea|done].
Qed.

Lemma program_records fuel records st m0 st' :
  Z.of_nat (nstatics + 5) + stack_need c start <= Z.of_nat limit -> fp_ m0 = nstatics -> stack_ m0 = static_stack st -> length st = nstatics ->
  run_records (ignores_undefs proc) fuel main st records = Some st' ->
  exists m', process_records c limit proc start nstatics m0 records m' /\ fp_ m' = nstatics /\ stack_ m' = static_stack st'.
Proof.
  intros Hroom. revert st m0. induction records as [|(input & key) records IH]; intros st m0 Hfp Hst Hl Hr; cbn [run_records] in Hr.
  { injection Hr as <-. exists m0. split; [constructor|done]. }
  pose proof (program_main st input key m0 fuel Hst Hl Hroom) as Hm.
  assert (forall e, (exists l st1 m1, e = [l; st1] /\ length st1 = nstatics /\ finishes c limit proc (SetupRun start nstatics input key m0) (TERMINATED m1) /\ fp_ m1 = nstatics /\ stack_ m1 = static_stack st1) ->
    match e with [_; st1] => run_records (ignores_undefs proc) fuel main st1 records | _ => None end = Some st' ->
    exists m', process_records c limit proc start nstatics m0 ((input, key) :: records) m' /\ fp_ m' = nstatics /\ stack_ m' = static_stack st') as Hnext.
  { intros e (l & st1 & m1 & -> & Hl1 & Hf1 & Hfp1 & Hst1) H1. destruct (IH st1 m1 Hfp1 Hst1 Hl1 H1) as (m' & Hp & H'). exists m'. split; [by apply (records_next _ _ _ _ _ _ _ _ m1)|done]. }
  destruct (execute (f_function main) (ignores_undefs proc) fuel (main_env (f_nvars main) st input key) (f_body main)) as [e|k e|k e|[v|] e|e|e| |]; try done; by apply (Hnext e).
Qed.
End Process.

(** ** Examples *)

(** [limit: static int = 9 / 3; total: static int;] and in main
    [x: int = 0; i: int = 1; while (i <= limit) { x = x + 12 / i; i++; } switch (x) { case 1, 22: total = x; default: return; }] *)
Module Example.
Definition x_ := MkVar 1 8.
Definition i_ := MkVar 1 16.
Definition limit_ := MkVar 0 8.
Definition total_ := MkVar 0 16.
Definition v (d : VarDecl) : Expr := VariableE d false.
Definition lit (i : Z) : Expr := Literal (VInt i).
Definition body : Statement :=
  Block
    [ LocalDecl x_ (Some (lit 0)); LocalDecl i_ (Some (lit 1));
      Loop WHILE None (Some (Binary LEQ leq_int (v i_) (v limit_))) None
        (Block [Assignment (v x_) (Binary ADD add_int (v x_) (Binary DIV div_int (lit 12) (v i_))); Increment (v i_) 1]);
      Switch TInt (v x_) [([lit 1; lit 22], Assignment (v total_) (v x_))] (Return None) ].
Definition main : FunDef := MkFun (MkFunction 1 0 None) 3 2 false "" body.
Definition statics (divisor : Z) : list (VarDecl * option Expr) := [(limit_, Some (Binary DIV div_int (lit 9) (lit divisor))); (total_, None)].
Definition program (divisor : Z) : res ((list nat * Z) * CodeGen) := generate_program [main] (statics divisor) 3 codegen_new.
Definition entries (divisor : Z) : list nat := match program divisor with Ok ((entries, _), _) => entries | _ => [] end.
Definition init (divisor : Z) : Z := match program divisor with Ok ((_, init), _) => init | _ => 0 end.
Definition generated (divisor : Z) : CodeGen := match program divisor with Ok (_, s) => s | _ => codegen_new end.
Definition code (divisor : Z) : Code := Code_New (generated divisor).
Definition start (divisor : Z) : Z := program_addr (generated divisor) 0.
Definition input : Val := VBytes [].
Definition initialized (limit : Z) : state := MkState 3 (static_stack [None; Some (VInt limit); None]) 0 false 3 None None false false 0.
End Example.

(** ** The properties *)

(** C1. A compiled program runs to its end: the process initializes the statics to
    the values of their expressions, which makes it an initialized one, and then main, run on one record after the
    other in finitely many time slices of any length, leaves the statics as its
    body makes them, each run TERMINATED and the stack back to the statics. *)
Theorem main_runs limit ignore fs statics nstatics entries init s i main entry uc st records fuel st' :
  generate_program fs statics nstatics codegen_new = Ok ((entries, init), s) -> functions_ok fs = true -> statics_ok statics = true ->
  fs !! i = Some main /\ entries !! i = Some entry -> f_nparams main = 2%nat /\ f_has_result main = false ->
  Z.of_nat (f_nvars main + 2) < 2 ^ 15 /\ Z.of_nat nstatics <= 2 ^ 15 ->
  stack_need (Code_New s) init <= Z.of_nat limit -> Z.of_nat (nstatics + 5) + stack_need (Code_New s) (program_addr s entry) <= Z.of_nat limit ->
  init_statics [replicate nstatics None] statics = RNormal [st] ->
  run_records ignore fuel main st records = Some st' ->
  exists m0 m', finishes (Code_New s) limit (Proc_New ignore) (SetupInitialization init uc) (TERMINATED m0)
    /\ process_records (Code_New s) limit (settle (Proc_New ignore) (TERMINATED m0)) (program_addr s entry) nstatics m0 records m' /\ stack_ m' = static_stack st'.
Proof.
  intros Hp Hfs Hst Hmain Hpar (Hn & Hg) Hr1 Hr2 Hinit Hrec.
  pose proof (program_init limit fs statics nstatics entries init s Hp Hfs Hst ignore uc Hg Hr1) as Hi. rewrite Hinit in Hi. destruct Hi as (st0 & m0 & [= <-] & Hl & Hf & Hfp & Hs).
  destruct (program_records limit (MkProc true ignore) fs statics nstatics entries init s Hp Hfs Hst i main entry Hmain Hpar (conj Hn Hg) fuel records st m0 st' Hr2 Hfp Hs Hl Hrec) as (m' & H & _ & Hs').
  by exists m0, m'.
Qed.

Lemma main_runs_witness : exists m0 m',
  finishes (Example.code 3) 100 (Proc_New false) (SetupInitialization (Example.init 3) 0) (TERMINATED m0)
  /\ process_records (Example.code 3) 100 (settle (Proc_New false) (TERMINATED m0)) (Example.start 3) 3 m0 [(Example.input, Example.input); (Example.input, Example.input)] m'
  /\ stack_ m' = static_stack [None; Some (VInt 3); Some (VInt 22)].
Proof.
  apply (main_runs 100 false [Example.main] (Example.statics 3) 3 (Example.entries 3) (Example.init 3) (Example.generated 3) 0 Example.main 0 0
    [None; Some (VInt 3); None] [(Example.input, Example.input); (Example.input, Example.input)] 20 [None; Some (VInt 3); Some (VInt 22)]); try (vm_compute; reflexivity); try (vm_compute; discriminate).
  - by split.
  - by split.
  - split; [reflexivity|vm_compute; discriminate].
Defined.

(** C2. A call of a function of a compiled program, from any state with its
    arguments on the stack and room for its frame, does what its body means on the
    variables of the static chain: it returns to the caller (or ends the process)
    with the value in place of the arguments, fails with the message for a missing
    return, traps at the call when the result is undefined, or fails in the middle;
    variables of the functions around are changed as the body says. *)
Theorem function_correct limit proc fs statics nstatics entries init s i f entry m outer_chain e fuel :
  generate_program fs statics nstatics codegen_new = Ok ((entries, init), s) -> functions_ok fs = true -> statics_ok statics = true ->
  fs !! i = Some f -> entries !! i = Some entry -> Z.of_nat (f_nvars f + f_nparams f) < 2 ^ 15 ->
  let c := Code_New s in
  let nvars := f_nvars f in
  let chain := (entered_fp m nvars, (nvars + f_nparams f)%nat) :: outer_chain in
  pc_ m = program_addr s entry -> failed_ m = false -> trap_info_ m = None -> Z.of_nat (length (stack_ m)) + stack_need c (pc_ m) <= Z.of_nat limit ->
  chain_ok (entered_stack m nvars) chain -> match_env (entered_stack m nvars) chain (entered_stack m nvars) e ->
  (length outer_chain < 256)%nat -> (forall j b k, outer_chain !! j = Some (b, k) -> Z.of_nat k <= 2 ^ 15) ->
  call_out c limit proc m nvars (nvars + f_nparams f) outer_chain (f_has_result f) false (f_missing_return f) (execute (f_function f) (ignores_undefs proc) fuel e (f_body f)).
Proof.
  intros Hp Hfs Hst Hf He Hn c nvars chain Epc Hfl Hi Hroom Hch Hme Hd Hs.
  destruct (program_function fs statics nstatics entries init s Hp Hfs Hst i f entry Hf He) as ((F & N & p & global & s1 & s2 & Hpt & Hld & HN & Ea) & Hok).
  by apply (parts_correct (f_function f) limit proc nvars (f_nparams f) (f_has_result f) false (f_missing_return f) (f_body f) Hn entry c F N p global s1 s2 m outer_chain e fuel Hpt Hld HN Hok); rewrite ?Ea.
Qed.

(** [function(a: int): int { if (a > 10) return 100 / (a - 20); return a; }] after
    main, called with 20, where the quotient is undefined, from position 512. *)
Module Quotient.
Definition a_ := VariableE (MkVar 1 8) true.
Definition lit (i : Z) : Expr := Literal (VInt i).
Definition body : Statement :=
  Block [If (Binary GTR gtr_int a_ (lit 10)) (Return (Some (Binary DIV div_int (lit 100) (Binary SUB sub_int a_ (lit 20))))) Empty; Return (Some a_)].
Definition function_ : FunDef := MkFun (MkFunction 1 0 None) 1 1 true "missing return" body.
Definition program : res ((list nat * Z) * CodeGen) := generate_program [Example.main; function_] [] 0 codegen_new.
Definition entries : list nat := match program with Ok ((entries, _), _) => entries | _ => [] end.
Definition entry : nat := entries !!! 1%nat.
Definition init : Z := match program with Ok ((_, init), _) => init | _ => 0 end.
Definition generated : CodeGen := match program with Ok (_, s) => s | _ => codegen_new end.
Definition caller : state := MkState 0 [SVal (Some (VInt 20))] (program_addr generated entry) false 0 (Some 512) None false false 0.
End Quotient.

Lemma function_correct_witness :
  trapped_caller (Code_New Quotient.generated) 100 (Proc_New false) Quotient.caller 1 2 [] [[None; Some (VInt 20)]].
Proof.
  pose proof (single_frame Quotient.caller 1 [Some (VInt 20)] [] eq_refl) as (Hc & Hm).
  apply (function_correct 100 (Proc_New false) [Example.main; Quotient.function_] [] 0 Quotient.entries Quotient.init Quotient.generated 1 Quotient.function_ Quotient.entry Quotient.caller [] [[None; Some (VInt 20)]] 10); try (vm_compute; reflexivity); try (vm_compute; discriminate).
  - exact Hc.
  - exact Hm.
  - cbn. lia.
Defined.

(** C3. When main reads an undefined value that is not guarded, the run has FAILED,
    in finitely many slices, with the message of an undefined value, in a range of
    the code that is not silent, and the frame of main and the statics on the stack
    as they were then. *)
Theorem main_fails limit proc fs statics nstatics entries init s i main entry st input key m0 fuel e :
  generate_program fs statics nstatics codegen_new = Ok ((entries, init), s) -> functions_ok fs = true -> statics_ok statics = true ->
  fs !! i = Some main /\ entries !! i = Some entry -> f_nparams main = 2%nat /\ f_has_result main = false ->
  Z.of_nat (f_nvars main + 2) < 2 ^ 15 /\ Z.of_nat nstatics <= 2 ^ 15 ->
  stack_ m0 = static_stack st -> length st = nstatics -> Z.of_nat (nstatics + 5) + stack_need (Code_New s) (program_addr s entry) <= Z.of_nat limit ->
  execute (f_function main) (ignores_undefs proc) fuel (main_env (f_nvars main) st input key) (f_body main) = RFailed e ->
  let m := SetupRun (program_addr s entry) nstatics input key m0 in
  exists m' P B, finishes (Code_New s) limit proc m (FAILED m') /\ fp_ m' = entered_fp m (f_nvars main) /\ stack_ m' = P ++ B
    /\ match_env (entered_stack m (f_nvars main)) [(entered_fp m (f_nvars main), f_nvars main + 2); (nstatics, nstatics)]%nat B e
    /\ stopped_undefined (Code_New s) m'.
Proof.
  intros Hp Hfs Hst Hmain Hpar Hsz Hs Hl Hroom He m.
  pose proof (program_main limit proc fs statics nstatics entries init s Hp Hfs Hst i main entry Hmain Hpar Hsz st input key m0 fuel Hs Hl Hroom) as H. by rewrite He in H.
Qed.

(** With no value for [limit] the comparison of the loop has no value. *)
Lemma main_fails_witness : exists m',
  finishes (Example.code 3) 100 (MkProc true false) (SetupRun (Example.start 3) 3 Example.input Example.input (MkState 3 (static_stack [None; None; None]) 0 false 3 None None false false 0)) (FAILED m') /\ fp_ m' = 11%nat.
Proof.
  destruct (main_fails 100 (MkProc true false) [Example.main] (Example.statics 3) 3 (Example.entries 3) (Example.init 3) (Example.generated 3) 0 Example.main 0 [None; None; None] Example.input Example.input
    (MkState 3 (static_stack [None; None; None]) 0 false 3 None None false false 0) 20 [[None; Some (VInt 0); Some (VInt 1); Some Example.input; Some Example.input]; [None; None; None]]
    ltac:(vm_compute; reflexivity) ltac:(vm_compute; reflexivity) ltac:(vm_compute; reflexivity) (conj eq_refl eq_refl) (conj eq_refl eq_refl) ltac:(split; [reflexivity|vm_compute; discriminate])
    eq_refl eq_refl ltac:(vm_compute; discriminate) ltac:(vm_compute; reflexivity)) as (m' & P & B & H & Hfp & _). by exists m'.
Defined.

(** C4. A static whose expression reads an undefined value ends the initialisation,
    also of a process that ignores undefined values: it has FAILED, with the message
    of an undefined value, in a range of the code that is not silent. The statics
    before it have their values, in the frame at the bottom of the stack. *)
Theorem initialization_fails limit ignore fs statics nstatics entries init s uc e :
  generate_program fs statics nstatics codegen_new = Ok ((entries, init), s) -> functions_ok fs = true -> statics_ok statics = true ->
  Z.of_nat nstatics <= 2 ^ 15 -> stack_need (Code_New s) init <= Z.of_nat limit ->
  init_statics [replicate nstatics None] statics = RFailed e ->
  exists m' st P, e = [st] /\ finishes (Code_New s) limit (Proc_New ignore) (SetupInitialization init uc) (FAILED m')
    /\ fp_ m' = nstatics /\ stack_ m' = P ++ static_stack st /\ stopped_undefined (Code_New s) m'.
Proof.
  intros Hp Hfs Hst Hg Hroom He. pose proof (program_init limit fs statics nstatics entries init s Hp Hfs Hst ignore uc Hg Hroom) as H. by rewrite He in H.
Qed.

(** [limit: static int = 9 / 0;], where undefined values are ignored. *)
Lemma initialization_fails_witness : exists m' P,
  finishes (Example.code 0) 100 (Proc_New true) (SetupInitialization (Example.init 0) 0) (FAILED m') /\ stack_ m' = P ++ static_stack [None; None; None]
  /\ exists i, trap_info_ m' = Some (UndefinedValue (Some i)).
Proof.
  destruct (initialization_fails 100 true [Example.main] (Example.statics 0) 3 (Example.entries 0) (Example.init 0) (Example.generated 0) 0 [[None; None; None]]
    ltac:(vm_compute; reflexivity) ltac:(vm_compute; reflexivity) ltac:(vm_compute; reflexivity) ltac:(vm_compute; discriminate) ltac:(vm_compute; discriminate)
    ltac:(vm_compute; reflexivity)) as (m' & st & P & [= <-] & H & _ & Hs & i & d & Hi & _). exists m', P. split; [exact H|]. split; [exact Hs|]. by exists i.
Defined.

(** C38. In the code of a compiled program, where the sort of the trap ranges has
    left those that begin at the same instruction in the order in which they were
    made (which qsort does not promise; where no two of them do, any sort has), the
    binary search for the last range that begins at or before a position, and the
    walk outwards from there, find the innermost range with the position, the one
    that was made last, and nothing when no range has it. *)
Theorem TrapForInstr_innermost fs statics nstatics entries init s ranges offs :
  generate_program fs statics nstatics codegen_new = Ok ((entries, init), s) -> functions_ok fs = true -> statics_ok statics = true ->
  sorted_ranges (traps_ s) ranges ->
  exists r, TrapForInstr (MkCode (code_ s) (traps_ s) ranges) offs = Ok r /\
    match r with
    | Some i => (exists d, traps_ s !! i = Some d /\ contains offs d = true) /\ (forall j e, (i < j)%nat -> traps_ s !! j = Some e -> contains offs e = false)
    | None => forall j e, traps_ s !! j = Some e -> contains offs e = false
    end.
Proof.
  intros Hp Hfs Hst Hr. destruct (program_settled fs statics nstatics entries init s Hp Hfs Hst) as [[_ Hw] _ Hc _].
  apply (TrapForInstr_nested (MkCode (code_ s) (traps_ s) ranges)); [by apply wf_well_nested|]. by apply sorted_ranges_seq; [apply Hw|].
Qed.

(** After the assignment to [total] in the switch of the example: its range, the
    last to begin, has ended, and the range around it, of the switch, has the position. *)
Lemma TrapForInstr_innermost_witness :
  TrapForInstr (MkCode (code_ (Example.generated 3)) (traps_ (Example.generated 3)) [0; 1; 2; 3; 4]%nat) 122 = Ok (Some 3%nat)
  /\ forall j e, (3 < j)%nat -> traps_ (Example.generated 3) !! j = Some e -> contains 122 e = false.
Proof.
  assert (sorted_ranges (traps_ (Example.generated 3)) [0; 1; 2; 3; 4]%nat) as Hr.
  { split; [reflexivity|]. repeat constructor; vm_compute; auto. }
  destruct (TrapForInstr_innermost [Example.main] (Example.statics 3) 3 (Example.entries 3) (Example.init 3) (Example.generated 3) [0; 1; 2; 3; 4]%nat 122
    ltac:(vm_compute; reflexivity) ltac:(vm_compute; reflexivity) ltac:(vm_compute; reflexivity) Hr) as (r & E & H).
  assert (TrapForInstr (MkCode (code_ (Example.generated 3)) (traps_ (Example.generated 3)) [0; 1; 2; 3; 4]%nat) 122 = Ok (Some 3%nat)) as E3 by (vm_compute; reflexivity).
  rewrite E3 in E. injection E as <-. split; [exact E3|apply H].
Defined.

(** C40. When the stack has no room for the variables, the operands and the links of
    main, the run fails with a stack overflow before anything was pushed. *)
Theorem main_overflow limit proc fs statics nstatics entries init s i main entry st input key m0 :
  generate_program fs statics nstatics codegen_new = Ok ((entries, init), s) -> functions_ok fs = true -> statics_ok statics = true ->
  fs !! i = Some main /\ entries !! i = Some entry -> f_nparams main = 2%nat /\ f_has_result main = false -> Z.of_nat (f_nvars main + 2) < 2 ^ 15 ->
  stack_ m0 = static_stack st -> length st = nstatics ->
  Z.of_nat limit < Z.of_nat (nstatics + 5) + stack_need (Code_New s) (program_addr s entry) ->
  let m := SetupRun (program_addr s entry) nstatics input key m0 in
  exists m', finishes (Code_New s) limit proc m (FAILED m') /\ trap_info_ m' = Some StackOverflow /\ stack_ m' = stack_ m /\ fp_ m' = nstatics.
Proof.
  intros Hp Hfs Hst Hmain (Hn2 & Hres) Hn Hs Hl Hroom m.
  destruct (main_has fs statics nstatics entries init s Hp Hfs Hst i main entry Hmain) as ((F & N & p & global & s1 & s2 & Hpt & Hld & HN & Ea) & Hok). rewrite Hn2, Hres in Hpt.
  destruct (parts_enter (f_function main) (f_nvars main) 2 false false (f_missing_return main) (f_body main) Hn entry _ _ _ _ _ _ _ Hpt Hld HN) as (k & E1 & E2 & E3). rewrite Ea in E1, E2, E3.
  pose proof (proj2 (run_enter (Code_New s) limit proc m (f_nvars main) k E1 E2 E3 eq_refl eq_refl)) as Hover. unfold m in Hover at 1. rewrite <- Hl, (setup_stack st input key _ m0 Hs) in Hover. cbn [length] in Hover.
  rewrite static_length in Hover. specialize (Hover ltac:(change (pc_ m) with (program_addr s entry); lia)).
  eexists. split; [by apply (reach_finishes _ limit proc m m); [|apply reach_refl|exact Hover|]|done].
Qed.

Lemma main_overflow_witness : exists m',
  finishes (Example.code 3) 10 (MkProc true false) (SetupRun (Example.start 3) 3 Example.input Example.input (Example.initialized 3)) (FAILED m') /\ trap_info_ m' = Some StackOverflow.
Proof.
  destruct (main_overflow 10 (MkProc true false) [Example.main] (Example.statics 3) 3 (Example.entries 3) (Example.init 3) (Example.generated 3) 0 Example.main 0 [None; Some (VInt 3); None] Example.input Example.input
    (Example.initialized 3) ltac:(vm_compute; reflexivity) ltac:(vm_compute; reflexivity) ltac:(vm_compute; reflexivity) (conj eq_refl eq_refl) (conj eq_refl eq_refl) eq_refl eq_refl eq_refl
    ltac:(vm_compute; reflexivity)) as (m' & H & Hi & _). exists m'. by split.
Defined.

(** [x: int; x++;]: the trap of [inc64] has no message and is not in the list of its
    range, so that the handler looks at a message that is not there. *)
Definition increment_state : CodeGen :=
  match generate_program [MkFun (MkFunction 1 0 None) 2 2 false "" (Increment (VariableE (MkVar 1 8) false) 1)] [] 3 codegen_new with Ok (_, s) => s | _ => codegen_new end.

Lemma undefined_increment_aborts :
  Run_loop (Code_New increment_state) 100 (MkProc true false) 10 10 1000 (SetupRun (program_addr increment_state 0) 3 Example.input Example.input (Example.initialized 3)) = Fatal.
Proof. vm_compute. reflexivity. Qed.
